(* ===== verification/_CoqProject ===== *)
-Q . S2P
Prelude.v
Bytes.v
Text.v
HarnessTypes.v
HarnessProtocol.v
Replay.v
HarnessRuntime.v
Daemon.v
DaemonFacts.v
DaemonWire.v
DaemonProps.v
Workflow.v
WorkflowScript.v
WorkflowScriptProps.v
DaemonProtocol.v
DaemonWorkflow.v
DaemonWorkflowProps.v
VimWords.v
VimObjects.v
Vim.v
VimHistory.v
VimEdit.v
VimDot.v
VimInvariant.v
TermOsc.v
TermHooks.v
TermCells.v
TermCellsProps.v
TermSixel.v
TermImage.v
TermImageProps.v
TermScreen.v
TermBlocks.v
TermBlocksProps.v
TermEmulator.v
TermEmulatorProps.v
TermKeys.v
TextDiff.v
TextDiffProps.v
FileTools.v
FileToolsProps.v
AgentStore.v
Commands.v
Mission.v
MissionProps.v
MissionStream.v
SubAgents.v
SubAgentsProps.v
Floats.v
Panes.v
PanesProps.v
Workspace.v
WorkspaceProps.v
WorkspaceSafety.v
WorkspaceDemo.v
Sys.v
Fields.v
UpdateManifest.v
UpdateClient.v
UpdateProps.v
UpdateInstall.v
UpdateInstallProps.v
UpdateService.v
UpdateServiceProps.v
Telemetry.v
TelemetryQueue.v
TelemetryDrain.v
TelemetryProps.v
Collector.v
CollectorProps.v
Pty.v
PtyWire.v
PtyServer.v
PtyProps.v
