(* ===== verification/Prelude.v ===== *)
(** * Goble, a reversible execution substrate: root of the development

    Goble runs agent harnesses turn by turn, records what each turn streams in a
    per-session ledger, and lets a client rewind, fork, replay and settle that
    history.  Workflows, step lists or scripts, drive the same harnesses.  A pane runs a
    shell whose byte stream is lifted into hooks, images and command blocks, through
    which agents run commands and read what they printed.  A modal (vim) editor edits
    its input.  The built-in agent reasons in turns over a store, proposes commands, and
    runs sub-agents.  The window holds panes in tabs.  A daemon keeps the shells alive.  This library models those parts
    and proves what they promise.

    ** The parts and the files that model them

    Paths are under [src/crates/].  Each file opens with what it holds.

    - [Prelude.v]: results, characters and strings, machine integers, the store of
      shared cells, the list lemmas and automation the components share.
    - [HarnessTypes.v]: [goble-harness-types], the ids, grants and the turn.
    - [HarnessProtocol.v], [DaemonProtocol.v]: [goble-harness-protocol] and
      [goble-daemon-protocol], the events and frames of both wires, their line
      framing, and the mapping of harness events to daemon events
      ([goble-daemon/src/state/events.rs]).
    - [Replay.v]: [goble-replay], the ledger of one session.  [ReplayLedger] is a
      mutex around [LedgerState]; a method is a function on [LedgerState].
    - [HarnessRuntime.v]: [goble-harness-runtime], the execution contract as a
      class ([HarnessRuntime]), the registry, and the scripted [MockHarness].
    - [Daemon.v], [DaemonFacts.v], [DaemonWire.v], [DaemonProps.v]: [goble-daemon/src/state]
      ([core.rs], [port.rs], [streams.rs]) and [sink.rs].  Ledgers live in a store
      and are shared by location, as the [Arc]s of the program are; a stream task
      is an entry of [d_tasks]; [label] and [step] interleave port calls and tasks.
      [DaemonFacts.v] has the invariants, [DaemonWire.v] what the sink was handed,
      [DaemonProps.v] the properties.
    - [Workflow.v]: [goble-workflow] [lib.rs] and [schedule.rs]: workflows, the
      engine over any [StepExecutor], slugs, cron normalisation.
    - [WorkflowScript.v], [WorkflowScriptProps.v]: [goble-workflow] [script.rs].
    - [DaemonWorkflow.v], [DaemonWorkflowProps.v]: [goble-daemon/src/workflow.rs]
      and the run seam of [state/core.rs].
    - [VimWords.v], [VimObjects.v], [Vim.v]: [goble-ui/src/vim] ([words.rs],
      [objects.rs], [mod.rs]) and the hand-over of a key by
      [goble-ui/src/elements/text_area.rs] ([vim_key]).
    - [VimHistory.v], [VimEdit.v], [VimDot.v], [VimInvariant.v]: what the editor
      promises.
    - [Bytes.v], [Text.v]: byte strings, UTF-8, the integer parsers; the lines and
      fields of a text and how printed numbers are read.
    - [TermOsc.v], [TermHooks.v]: [goble-terminal/src/osc.rs] and [hooks.rs], the taps
      that find OSC 7 and 133 and our own hook envelopes in the byte stream.
    - [TermCells.v], [TermCellsProps.v]: cells, palette, captured lines and search
      ([screen/cell.rs], [palette.rs], [ansi.rs], [screen/search.rs]).
    - [TermSixel.v], [TermImage.v], [TermImageProps.v]: [image.rs], the sixel decoder,
      the tap that lifts kitty and sixel images, and the placement cache.
    - [TermScreen.v]: [screen/surface.rs], [event.rs], [config.rs], a screen around the
      vendored emulator.
    - [TermBlocks.v], [TermBlocksProps.v]: [blocks/], a command block and the list of a
      session's blocks, driven by the shell's hooks.
    - [TermEmulator.v], [TermEmulatorProps.v]: [app/src/emulator.rs], the pane that wires
      taps, screen and blocks together.
    - [TermKeys.v]: [keys.rs] and [mouse.rs], what the pane sends.
    - [TextDiff.v], [TextDiffProps.v]: [goble-core/src/harness/text_diff.rs], the diff a
      file tool records, and [goble-ui/src/diff/model.rs], the hunks the transcript reads
      from it.
    - [FileTools.v], [FileToolsProps.v]: [goble-core/src/harness/files.rs] and its guard
      [resolve_path], over a tree of files, directories and symbolic links ([Fs]).

    - [AgentStore.v], [Commands.v], [Mission.v]: [goble-core], the rows and messages of
      the agent ([llm/types.rs], [harness/types.rs], [store/]), its command lines and
      credentials ([harness/runner.rs], [credentials.rs], [commands.rs]), and the turn
      ([reasoning/]) as statements of a monad over a [World]: store, events sent, requests
      made, cancellation.  [MissionProps.v], [MissionStream.v]: what a turn promises.
    - [SubAgents.v], [SubAgentsProps.v]: [goble-core/src/subagent.rs] and
      [subagent_run/], the record of a child, the registry and the loop of a child.
    - [Floats.v]: [f32] over the Standard Library's [SpecFloat], round to nearest even,
      with the comparisons, [min], [max] and [clamp] of Rust.
    - [Panes.v], [PanesProps.v]: [app/src/ui/pane.rs], layouts, the tree of panes, and a
      tab ([Space]).
    - [Workspace.v]: [app/src/state] ([ui_state/], [types.rs], [paths.rs]), the pane
      handlers of [app/src/actions] and the pane verbs of [app/src/control]: the tabs,
      the focus, what each pane owns, the inbox, closing and saving.
      [WorkspaceProps.v], [WorkspaceSafety.v], [WorkspaceDemo.v]: what the window promises.
    - [Sys.v], [Fields.v]: [std::fs] as a disk on which any call may fail and the process
      may die in any call, with its rules of reasoning ([spec]); the ASCII and list
      functions of [std] the next parts use.
    - [UpdateManifest.v], [UpdateClient.v], [UpdateInstall.v]: [goble-update/src]
      ([manifest.rs]; [client.rs], [state.rs]; [install.rs]), what a release host
      publishes, the offer and the download, putting an update in place and taking it
      back.  [UpdateService.v]: [app/src/update.rs], the page's model and the threads of
      the service, interleaved.  [UpdateProps.v], [UpdateInstallProps.v],
      [UpdateServiceProps.v]: what they promise.
    - [Telemetry.v], [TelemetryQueue.v]: [goble-telemetry/src]: consent, stored choices
      and features ([config.rs], [features.rs]); the scrubber and the log tail
      ([redact.rs], [breadcrumbs.rs]); reports and events ([report.rs]); the queue, the
      uploads and the handle ([queue.rs], [upload.rs], [lib.rs]).  [TelemetryDrain.v],
      [TelemetryProps.v]: what they promise.
    - [Collector.v], [CollectorProps.v]: [goble-telemetry-server/src/lib.rs], the store
      of what arrives and its two handlers.
    - [Pty.v], [PtyServer.v]: [goble-pty/src] ([protocol.rs], [session.rs]; [server.rs]),
      the messages, the framing and the replay ring of the PTY daemon, and its sessions,
      connections and threads as one state whose [exec] takes one step of any of them.
      [PtyWire.v], [PtyProps.v]: what they promise.

    The components meet at interfaces: [DaemonWorkflow.v] implements the
    [StepExecutor] and [ScriptHost] classes of the workflow engine over any run
    seam, the daemon's seam is generic in the [HarnessRuntime] its registry holds,
    and the theorems about engine and scripts are proved against the classes.  The
    screens of the terminal use the vendored emulator through the class [Vt]; the
    theorems about blocks and panes hold for every instance, and [VtDemo] is one.

    ** What is shown

    - The ledger: turns are numbered by position whatever commands run
      ([history_contiguous]); the ways to go back agree ([branch_points_agree]); a
      rewind splits the replay ([rewind_splits_replay]); the appends of concurrent
      turns commute ([indexed_appends_commute]).
    - The daemon, in every interleaving: the life of a turn ([turn_lifecycle]), the
      client sent a merge of what the sessions mirror, which agrees with their transcripts
      ([wire_matches_transcript]), the branches of a rewind ([rewind_outcome]), the
      independence of a fork ([fork_is_independent]), and the protection of a
      session that streams ([streaming_session_is_guarded]).
    - Workflows: an engine run settles every step ([engine_run_settles]); a script
      run settles by budget, error and calls ([script_run_status]) and never asks
      for more than its budget ([script_budget_bounds_host_calls]); its phases form
      a timeline; the scan for blocking calls is the lexer's ([forbidden_call_exact]);
      validation is exact; every step and call gets its own session; a host's
      journal has no gap and its persisted runs are settled.
    - The editor: the history is a bounded zipper every key refines
      ([handle_refines_history]); edits are reversible; every key returns unless the
      recorded change holds [.] itself ([keys_return], [dot_of_dot_diverges]);
      operators change exactly their range ([apply_operator_exact]), which lies in
      the text ([operator_ranges_in_bounds]); deletions can be put back; [.] types an
      insertion again ([dot_types_again]); and a field stays well formed
      ([vim_key_keeps_invariant]).  Motions, bracket search and objects are exact.
    - The terminal's taps: hooks survive any cut of the stream into reads
      ([hook_stream_roundtrip]) and an envelope without an escape inside has one of three outcomes
      ([hook_envelope_outcome]); the image tap ignores the cut too
      ([image_tap_ignores_chunking]), joins chunks ([chunked_transmission_is_whole]),
      gives back the pixels sent ([kitty_rgba_roundtrip]) and keeps a bounded store
      ([image_store_is_bounded]); the sixel decoder returns and its images have the
      size they say.
    - Blocks: the list keeps its invariant whatever happens ([block_list_invariant]);
      only the active block changes ([only_the_active_block_changes]); a command
      claimed at a prompt and started is answered ([claimed_command_is_answered]) and at most once
      ([tool_results_answer_once]).
    - The pane: it does not depend on how its bytes are cut into reads, image placements
      aside ([emulator_feed_is_bytewise]), a tool call
      goes from claim to result through them ([tool_call_end_to_end]), and conversations
      see only their own blocks ([agent_views_are_exact]).
    - Keys and pastes: special keys are told apart ([special_key_roundtrip]), a paste
      cannot leave its brackets ([paste_is_contained]); a search names the cells it
      matched ([search_matches_spell_their_text]).

    - File changes: the recorded edits are a smallest set ([diff_keeps_the_most]), and the
      diff, printed and read back, patches either of two texts without
      carriage returns at line ends into the other ([diff_roundtrip]); the diffstat and the gaps between hunks are exact.
    - File tools: a write stays in the workspace ([write_stays_inside]), an edit and a
      deletion change one file ([edit_changes_one_file], [delete_removes_one_file]), what
      is written is read ([written_text_is_read]), and the guard is exact on paths that
      exist ([resolve_path_exact]).

    - The agent: no command of its own runs without an approval
      ([commands_wait_for_approval]); an
      approval runs what was proposed ([approval_runs_the_call]); every turn ends
      ([turn_settles]), leaves in the store what its events showed when no statement is
      refused ([transcript_matches_stream]), and sends a history a provider accepts
      ([history_is_paired]).
    - Sub-agents: an outcome is final in every interleaving ([first_outcome_is_final]), a
      kill ends the live tree under its target, as far as it is reached through live
      children ([kill_ends_the_live_tree]), and a child
      stays within its budget ([child_run_is_bounded]).
    - The window: it stays in order whatever the user or a control client does
      ([workspace_stays_sound]); moving a pane loses none ([drop_keeps_every_pane]);
      windows stay reachable in [f32] ([windows_stay_reachable]); the close gesture loses no
      text ([closing_keeps_unsaved_text]), and what the pane owned goes with it
      ([closed_pane_is_forgotten]); the inbox asks once ([inbox_asks_once]); the layout
      comes back ([saved_layout_comes_back]).  A tab's own gestures: a split is undone by a
      close ([split_then_close]), arrows find a pane that way
      ([arrow_finds_a_pane_that_way]), the carousel is a ring.
    - Updates: what is staged was signed, whatever the host serves and wherever the
      process dies ([staged_bytes_were_signed]); an offer is newer or has a reason not to
      be ([offered_update_is_sound]); the swap of an AppImage is all or nothing
      ([appimage_swap_is_all_or_nothing]); an AppImage installed without a healthy marker
      is taken back if none comes, over any number of failed recoveries
      ([unhealthy_update_is_taken_back]); what
      is installed is what the page showed ([installed_is_what_was_shown]); and the check
      the user asks for is never made ([a_manual_check_is_never_made]).
    - Telemetry: an opt-out in the environment is obeyed ([opting_out_sends_nothing]);
      a configured plain secret leaves in no report ([configured_secrets_are_withheld]); a
      drain loses no entry but one it could not read ([drain_loses_nothing]), and it goes
      oldest first, its counts and requests accounting for every one
      ([drain_accounts_for_every_entry]); what the collector acknowledged is stored, if
      every marker had its row before ([acknowledged_events_are_stored]).
    - The PTY daemon: its rings hold what its ptys printed and its clients are told the
      truth, in every interleaving ([pty_daemon_tells_the_truth]); messages survive any cut
      of the socket's reads ([messages_survive_any_cut]).

    Closed theorems in the witness modules record where the code does something
    its comments do not say, on concrete runs ([rewind_keeps_stale_selection],
    [overlapping_runs_lose_the_session], [discard_cuts_a_live_turn],
    [with_script_accepts_duplicate_slugs], [dot_edits_can_be_dropped],
    [visual_find_runs_its_target], [envelope_after_partial_prefix_leaks],
    [handshake_loses_the_result], [raw_dimensions_wrap], [default_colours_get_no_reply],
    [sgr_column_wraps], [dots_escape],
    [dangling_link_escapes], [line_ends_have_no_diff], [system_prompt_is_dropped],
    [quoted_credential_splits], [kill_misses_a_late_child],
    [closing_the_only_pane_strips_it],
    [withdrawing_consent_uploads_the_queue], [unreadable_state_forgets_the_opt_out],
    [a_death_after_the_marker_loses_the_event] and others).

    ** Choices

    - A method that holds one lock is one step.  A stream task takes one step per
      event and one when its stream ends; inside a step the program takes several
      locks in turn, and the model does not interleave between them.
    - Fuel appears where the program loops over an index or recurses: the scanner of
      [forbidden_call] gets the number of bytes, the forward loops of the motions
      the length of the text, both proved enough where they are specified; [normal]
      of the editor gets the depth of [.] replays, one being enough
      ([keys_return]) except for the change proved to have no bound.
    - The sixel decoder gets one turn per byte ([sixel_decoder_terminates]).
    - Lengths and indices are [nat] and never wrap: they count elements in memory.
      Products of numbers a program sends are [N] and wrap at 64 bits, as in a release
      build.
      Counts a user types are [N] saturated at their width; the journal's and the
      sessions' counters are unbounded, and would take 2 to the 64 calls to wrap.
    - A string is the list of its Unicode scalar values; where the program works on
      bytes ([forbidden_call]) the bytes are its UTF-8 encoding.
    - A path is its components, and [std::fs] a map from locations to nodes: a lookup
      follows links, at most 40 of them as Linux does, and the root is a directory.
    - A read of the clock or of the environment is an argument.
    - A table of the store is its rows in the order they were inserted, which is the order
      the queries ask for; a statement the database refuses is a fault of the world, and
      any statement may be refused.  The event stream of a turn is dropped at its first
      [Done] or error, as its consumer drops it.
    - The registry of sub-agents takes one step per call under its lock.  The loop of a
      child gets one turn more than its budget names and a kill one more than there are
      entries: both are proved enough.
    - Pane identifiers are [u64] and the counter wraps; theorems that need new ones to be
      new assume that two are left.
    - The window is the one without a store behind it: with one, each gesture also reads
      the transcript again and saves the layout.  A [HashMap] that is iterated is the list
      of its entries in that order.
    - The disk of [Sys.v] is absolute paths to files and directories, without links; each
      call has a fate: it works, fails having done part of its work, or the process dies
      there having done part of it.  [rename] is atomic, [stat] answers truthfully, and
      power loss (a write that never reached the disk) is outside.  [copy_tree] gets the
      length of the longest path as fuel, proved enough ([copy_tree_enough]).
    - A thread of the update service takes one step up to its next lock, flag or call.
    - A point in time of telemetry is its nanoseconds.  The upload thread is a value that
      the calls wake, what it asks of the collector is recorded, and the collector's
      answers are a function of the request and its number; a drain gets one turn per
      entry.  The collector handles one request at a time.
    - The PTY daemon takes one step per critical section, send and read; a request that
      lets go of the lock, or sends to a queue being emptied, takes several.  Its framing
      loop gets a turn for every byte left, proved enough ([receive_is_reference]).
    - The indexing of the block list can fail and is an option; the invariant shows
      that it never does.

    ** What is outside

    Code that is not source of this repository is a parameter: JSON values and
    their codec ([Externs], [Codec]), the Rhai interpreter (a script body is the
    tree of host calls it makes), the cron parser, Unicode case tables
    ([CharCase]), the system clipboard ([Clipboard]), the JSON of a hook
    ([HookCodec]), PNG and base64 decoders ([ImageCodecs]), regular expressions
    ([Regex]), the vendored terminal emulator ([Vt]), the rectangles of [euclid]
    ([Euclid]), versions, signatures and digests ([Semver], [Crypto]), HTTP ([Http]), the
    JSON of markers, state, reports and requests, the patterns of the scrubber
    ([Patterns]), the days of the calendar ([Calendar]), started processes
    ([Processes]), the clock ([Clock]), the JSON and base64 of the PTY daemon's wire ([Wire],
    [Base64]), the names of signals ([Signals]), and
    a harness, a model provider or a tool, known by the answers and the
    events it gives.  Not modelled are the parts whose substance is I/O or drawing: the
    LLM clients and the other stores of the agent core, persistence, the PTY daemon's client and start, the gateway and
    remote sandboxes, the panic hook and the routes of the collector, voice, the element tree, and the views and
    settings of the application. *)

From stdpp Require Export base tactics functions gmap strings pretty sorting numbers.
From stdpp Require Export list.

#[global] Set Default Goal Selector "!".

Declare Scope goble_scope.
Delimit Scope goble_scope with goble.

(** ** Results

    Rust's [Result<A, E>]; [anyhow::Result<A>] is [result Str A] with the
    rendered message as the error. *)

Inductive result (E A : Type) : Type :=
| Ok (a : A)
| Err (e : E).
Arguments Ok {E A} a.
Arguments Err {E A} e.

Definition result_map {E A B} (f : A -> B) (r : result E A) : result E B :=
  match r with Ok a => Ok (f a) | Err e => Err e end.

Definition result_map_err {E F A} (f : E -> F) (r : result E A) : result F A :=
  match r with Ok a => Ok a | Err e => Err (f e) end.

Definition ok_or {E A} (e : E) (o : option A) : result E A :=
  match o with Some a => Ok a | None => Err e end.

Notation "'let?' x := r 'in' k" :=
  (match r with Ok x => k | Err err => Err err end)
  (at level 10, x pattern, r at level 100, k at level 200,
   format "'[hv' 'let?'  x  :=  r  'in'  '//' k ']'") : goble_scope.

(** A chain of updates, in the order the code makes them. *)
Notation "x |> f" := (f x) (at level 50, left associativity, only parsing) : goble_scope.

(** ** Characters and strings

    A Rust [char] is a Unicode scalar value and a [String] the sequence of its
    scalar values; [str] literals are spelt with [lit]. *)

Abbreviation char := N (only parsing).
Abbreviation Str := (list N) (only parsing).

Definition chr (a : Ascii.ascii) : char := Ascii.N_of_ascii a.

Fixpoint lit (s : string) : Str :=
  match s with
  | EmptyString => []
  | String a s' => chr a :: lit s'
  end.

(** The character [c] is one of those of the literal [s]: a Rust or-pattern of
    character literals. *)
Definition one_of (c : char) (s : string) : bool := bool_decide (c ∈ lit s).

Definition DQUOTE : char := 34%N.
Definition NEWLINE : char := 10%N.

(** [char::is_ascii_digit] and its siblings. *)
Definition is_ascii_digit (c : char) : bool := (48 <=? c)%N && (c <=? 57)%N.
Definition is_ascii_uppercase (c : char) : bool := (65 <=? c)%N && (c <=? 90)%N.
Definition is_ascii_lowercase (c : char) : bool := (97 <=? c)%N && (c <=? 122)%N.
Definition is_ascii_alphabetic (c : char) : bool :=
  is_ascii_uppercase c || is_ascii_lowercase c.
Definition is_ascii_alphanumeric (c : char) : bool :=
  is_ascii_alphabetic c || is_ascii_digit c.
Definition to_ascii_lowercase (c : char) : char :=
  if is_ascii_uppercase c then (c + 32)%N else c.

(** [u8::is_ascii_whitespace]: space, tab, line feed, form feed, return. *)
Definition is_ascii_whitespace (c : char) : bool :=
  bool_decide (c ∈ [32; 9; 10; 12; 13]%N).

(** [char::is_whitespace]: the Unicode [White_Space] property. *)
Definition is_whitespace (c : char) : bool :=
  ((9 <=? c)%N && (c <=? 13)%N)
  || ((8192 <=? c)%N && (c <=? 8202)%N)
  || bool_decide (c ∈ [32; 133; 160; 5760; 8232; 8233; 8239; 8287; 12288]%N).

(** [char::to_digit(10)]. *)
Definition to_digit10 (c : char) : option N :=
  if is_ascii_digit c then Some (c - 48)%N else None.

(** [usize::to_string], [u64::to_string] and the like. *)
Definition show_N (n : N) : Str := lit (pretty n).

(** [str::trim_start], [str::trim]. *)
Fixpoint trim_start (s : Str) : Str :=
  match s with
  | c :: s' => if is_whitespace c then trim_start s' else s
  | [] => []
  end.
Definition trim_end (s : Str) : Str := reverse (trim_start (reverse s)).
Definition trim (s : Str) : Str := trim_end (trim_start s).

(** [str::starts_with]. *)
Definition starts_with (s p : Str) : bool := bool_decide (take (length p) s = p).

(** The first line of a text, as [s.lines().next().unwrap_or_default()]: up to
    the first line feed, less a final carriage return of a line that ends. *)
Fixpoint first_line (s : Str) : Str :=
  match s with
  | [] => []
  | c :: s' =>
      if bool_decide (c = NEWLINE) then []
      else if bool_decide (c = 13%N) && bool_decide (head s' = Some NEWLINE) then []
      else c :: first_line s'
  end.

(** [str::as_bytes]: UTF-8. *)
Definition encode_utf8 (c : char) : list N :=
  if (c <? 128)%N then [c]
  else if (c <? 2048)%N then [192 + c / 64; 128 + c mod 64]%N
  else if (c <? 65536)%N then
    [224 + c / 4096; 128 + (c / 64) mod 64; 128 + c mod 64]%N
  else [240 + c / 262144; 128 + (c / 4096) mod 64; 128 + (c / 64) mod 64; 128 + c mod 64]%N.
Definition as_bytes (s : Str) : list N := s ≫= encode_utf8.

(** Unicode's case tables ([char::is_uppercase], [char::to_lowercase], ...). *)
Class CharCase : Type := {
  is_uppercase : char -> bool;
  is_lowercase : char -> bool;
  to_lowercase : char -> Str;
  to_uppercase : char -> Str;
}.

(** The tables on ASCII, to evaluate the model on. *)
Definition ascii_case : CharCase :=
  {| is_uppercase := is_ascii_uppercase;
     is_lowercase := is_ascii_lowercase;
     to_lowercase c := [to_ascii_lowercase c];
     to_uppercase c := [if is_ascii_lowercase c then c - 32 else c]%N |}.

(** [<str as Ord>::cmp]: lexicographic; UTF-8 preserves scalar order. *)
Fixpoint str_leb (s t : Str) : bool :=
  match s, t with
  | [], _ => true
  | _ :: _, [] => false
  | a :: s', b :: t' => (a <? b)%N || ((a =? b)%N && str_leb s' t')
  end.

(** ** Types the program takes from its libraries

    [Json] is [serde_json::Value] and [Instant] is [chrono::DateTime<Utc>]; the
    modelled code stores and copies their values and never looks inside one.
    An operation that reads the clock ([Utc::now()]) takes the reading as an
    argument. *)

Class Externs : Type := {
  Json : Type;
  Instant : Type;
  to_rfc3339 : Instant -> Str;
  debug_str : Str -> Str;  (** a string as [{:?}] prints it *)
}.

(** A concrete choice of them, to evaluate the model on. *)
Definition demo_externs : Externs := 
  {| Json := unit; Instant := nat; to_rfc3339 n := show_N (N.of_nat n);
     debug_str s := DQUOTE :: s ++ [DQUOTE] |}.

(** [Path::join] on Unix: an absolute path replaces what it is joined to. *)
Definition SLASH : char := 47%N.
Definition path_join (p q : Str) : Str :=
  if bool_decide (head q = Some SLASH) then q
  else if bool_decide (p = [] \/ last p = Some SLASH) then p ++ q
  else p ++ SLASH :: q.

(** A store of shared cells ([Arc<Mutex<_>>]): total, with the first unused
    location beside it.  Allocation returns that location. *)
Record store (A : Type) : Type := mkStore { cells : nat -> A; next : nat }.
Arguments mkStore {A} _ _.
Arguments cells {A} _ _.
Arguments next {A} _.

Definition alloc {A} (a : A) (h : store A) : store A * nat :=
  (mkStore (<[next h := a]> (cells h)) (S (next h)), next h).
Definition update {A} (l : nat) (f : A -> A) (h : store A) : store A :=
  mkStore (<[l := f (cells h l)]> (cells h)) (next h).

(** ** Machine integers *)

Definition u32_max : N := 4294967295.
Definition u64_max : N := 18446744073709551615.
Definition usize_max : N := u64_max.

Definition u32_saturating_mul (a b : N) : N := N.min (a * b) u32_max.
Definition u32_saturating_add (a b : N) : N := N.min (a + b) u32_max.
Definition usize_saturating_mul (a b : N) : N := N.min (a * b) usize_max.

(** ** Lists *)

(** [Vec::truncate]. *)
Definition truncate {A} (n : nat) (l : list A) : list A := take n l.

(** [Vec::resize]: cut, or pad with [x]. *)
Definition vec_resize {A} (n : nat) (x : A) (l : list A) : list A :=
  take n l ++ replicate (n - length l) x.

(** [Vec::last_mut]: apply [f] to the last element; [None] on an empty list. *)
Definition alter_last {A} (f : A -> A) (l : list A) : option (list A) :=
  match length l with
  | O => None
  | S n => Some (alter f n l)
  end.

(** [slice::sort_by], which is stable: an element goes before the first one it
    may precede. *)
Fixpoint insert_by {A} (R : A -> A -> Prop) `{!RelDecision R} (x : A) (l : list A) : list A :=
  match l with
  | [] => [x]
  | y :: l' => if decide (R x y) then x :: l else y :: insert_by R x l'
  end.
Definition sort_by {A} (R : A -> A -> Prop) `{!RelDecision R} (l : list A) : list A :=
  foldr (insert_by R) [] l.

(** [iter().position]. *)
Fixpoint position {A} (p : A -> bool) (l : list A) : option nat :=
  match l with
  | [] => None
  | x :: l' => if p x then Some 0 else S <$> position p l'
  end.

(** ** Automation *)

Create HintDb goble discriminated.
Create Rewrite HintDb goble_len.

(** Case analysis on every [match] and [if] of the goal and the context. *)
Ltac split_match :=
  repeat (case_match; simplify_eq/=; try done).

Ltac bool_to_prop :=
  repeat match goal with
  | H : _ && _ = true |- _ => apply andb_true_iff in H as [? ?]
  | H : _ && _ = false |- _ => apply andb_false_iff in H
  | H : _ || _ = false |- _ => apply orb_false_iff in H as [? ?]
  | H : negb _ = true |- _ => apply negb_true_iff in H
  | H : negb _ = false |- _ => apply negb_false_iff in H
  | H : bool_decide _ = true |- _ => apply bool_decide_eq_true_1 in H
  | H : bool_decide _ = false |- _ => apply bool_decide_eq_false_1 in H
  end.

(** ** Shared lemmas *)

Lemma Ok_inj {E A} (a b : A) : @Ok E A a = Ok b -> a = b.
Proof. by intros [=]. Qed.

Lemma result_Ok_or_Err {E A} (r : result E A) : (exists a, r = Ok a) \/ (exists e, r = Err e).
Proof. destruct r; eauto. Qed.

Lemma insert_by_Permutation {A} (R : A -> A -> Prop) `{!RelDecision R} x l :
  insert_by R x l ≡ₚ x :: l.
Proof.
  induction l as [| y l IH]; [done |]; simpl. case_decide; [done |].
  rewrite IH. apply Permutation_swap.
Qed.

Lemma sort_by_Permutation {A} (R : A -> A -> Prop) `{!RelDecision R} l : sort_by R l ≡ₚ l.
Proof. induction l as [| x l IH]; [done |]; simpl. by rewrite insert_by_Permutation, IH. Qed.

Lemma length_truncate {A} n (l : list A) : length (truncate n l) = n `min` length l.
Proof. apply length_take. Qed.

Lemma lookup_truncate_lt {A} n i (l : list A) : i < n -> truncate n l !! i = l !! i.
Proof. intros. by apply lookup_take_lt. Qed.

Lemma lookup_truncate_Some {A} n i (l : list A) x :
  truncate n l !! i = Some x <-> l !! i = Some x /\ i < n.
Proof. apply lookup_take_Some. Qed.

Lemma length_vec_resize {A} n (x : A) l : length (vec_resize n x l) = n.
Proof. unfold vec_resize. rewrite length_app, length_take, length_replicate. lia. Qed.

Lemma lookup_vec_resize_lt {A} n (x : A) l i :
  i < length l -> i < n -> vec_resize n x l !! i = l !! i.
Proof.
  intros Hl Hn. unfold vec_resize.
  rewrite lookup_app_l by (rewrite length_take; lia). by apply lookup_take_lt.
Qed.

Lemma alter_last_Some {A} (f : A -> A) l l' :
  alter_last f l = Some l' <-> l <> [] /\ l' = alter f (pred (length l)) l.
Proof.
  unfold alter_last. destruct l as [|x l]; simpl; [naive_solver|].
  split; [intros [= <-]; done|intros [_ ->]; done].
Qed.

Lemma alter_last_None {A} (f : A -> A) l : alter_last f l = None <-> l = [].
Proof. unfold alter_last. destruct l; naive_solver. Qed.

Lemma alter_last_app {A} (f : A -> A) l x : alter_last f (l ++ [x]) = Some (l ++ [f x]).
Proof.
  unfold alter_last. rewrite length_app, Nat.add_comm. simpl. f_equal.
  rewrite alter_app_r_alt by lia. by rewrite Nat.sub_diag.
Qed.

Lemma one_of_spec c s : one_of c s = true <-> c ∈ lit s.
Proof. apply bool_decide_eq_true. Qed.

Lemma position_Some {A} (p : A -> bool) l i :
  position p l = Some i <->
  (exists x, l !! i = Some x /\ p x = true) /\
  (forall j x, j < i -> l !! j = Some x -> p x = false).
Proof.
  revert i. induction l as [|y l IH]; intros i; simpl.
  { split; [done|]. intros [(x & Hx & _) _]. done. }
  destruct (p y) eqn:Hy.
  - split.
    + intros [= <-]. split; [by exists y|]. lia.
    + intros [(x & Hx & Hp) Hlt]. destruct i as [|i]; [done|].
      specialize (Hlt 0 y ltac:(lia) eq_refl). congruence.
  - destruct i as [|i]; simpl.
    + split; [destruct (position p l); discriminate|].
      intros [(x & [= <-] & Hp) _]. congruence.
    + assert (S <$> position p l = Some (S i) <-> position p l = Some i) as ->.
      { destruct (position p l); simpl; naive_solver. }
      rewrite IH. split; intros [Hx Hlt]; (split; [done|]).
      * intros [|j] x Hj Hl; [by simplify_eq/=|]. eapply Hlt; [|done]. lia.
      * intros j x Hj Hl. apply (Hlt (S j)); [lia|done].
Qed.

Lemma position_None {A} (p : A -> bool) l :
  position p l = None <-> forall i x, l !! i = Some x -> p x = false.
Proof.
  induction l as [|y l IH]; simpl; [naive_solver|].
  destruct (p y) eqn:Hy.
  - split; [done|]. intros H. specialize (H 0 y eq_refl). congruence.
  - rewrite fmap_None, IH. split.
    + intros H [|i] x Hx; [by simplify_eq/=|by eapply H].
    + intros H i x Hx. by apply (H (S i)).
Qed.

Lemma position_lt {A} (p : A -> bool) l i : position p l = Some i -> i < length l.
Proof. intros [(x & Hx & _) _]%position_Some. by eapply lookup_lt_Some. Qed.

Lemma cells_update_eq {A} l f (h : store A) : cells (update l f h) l = f (cells h l).
Proof. unfold update; simpl. by rewrite fn_lookup_insert. Qed.

Lemma cells_update_ne {A} l l' f (h : store A) :
  l <> l' -> cells (update l f h) l' = cells h l'.
Proof. intros. unfold update; simpl. by rewrite fn_lookup_insert_ne. Qed.

Lemma cells_alloc_eq {A} a (h : store A) : cells (alloc a h).1 (next h) = a.
Proof. unfold alloc; simpl. by rewrite fn_lookup_insert. Qed.

Lemma cells_alloc_ne {A} a (h : store A) l :
  l <> next h -> cells (alloc a h).1 l = cells h l.
Proof. intros. unfold alloc; simpl. by rewrite fn_lookup_insert_ne. Qed.

#[export] Hint Rewrite @length_truncate @length_vec_resize @length_alter @length_app
  @length_take @length_drop @length_replicate : goble_len.
#[export] Hint Resolve alter_last_app position_lt : goble.
