(* ===== verification/Bytes.v ===== *)
(** * Byte streams

    What the terminal core uses of Rust's standard library on bytes: UTF-8 decoding
    ([str::from_utf8], [String::from_utf8_lossy]), the parsers of integers
    ([str::parse]), and [Vec<u8>] scanned from left to right.  A byte is an [N]; a
    literal of bytes is spelt with [lit], ASCII characters being their own bytes. *)

From S2P Require Import Prelude.

Abbreviation byte := N (only parsing).
Abbreviation Bytes := (list N) (only parsing).

Definition ESC : byte := 27%N.
Definition BEL : byte := 7%N.
Definition BACKSLASH : byte := 92%N.

Definition is_byte (b : byte) : Prop := (b < 256)%N.

(** ** UTF-8 decoding *)

Definition in_range (lo hi b : byte) : bool := (lo <=? b)%N && (b <=? hi)%N.
Definition is_cont (b : byte) : bool := in_range 128 191 b.

(** The second byte of a sequence of three or four opened by [b]: continuation
    bytes, less those of overlong forms, surrogates and values past [char::MAX]. *)
Definition second_ok (b b1 : byte) : bool :=
  if (b =? 224)%N then in_range 160 191 b1
  else if (b =? 237)%N then in_range 128 159 b1
  else if (b =? 240)%N then in_range 144 191 b1
  else if (b =? 244)%N then in_range 128 143 b1
  else is_cont b1.

(** The scalar value at the front of [b :: rest] and how many bytes it takes;
    [None] with the number of bytes of the maximal invalid part, which a lossy
    decoder replaces by one U+FFFD. *)
Definition utf8_next (b : byte) (rest : Bytes) : option char * nat :=
  if (b <? 128)%N then (Some b, 1)
  else if in_range 194 223 b then
    match rest with
    | b1 :: _ => if is_cont b1 then (Some ((b - 192) * 64 + (b1 - 128))%N, 2) else (None, 1)
    | [] => (None, 1)
    end
  else if in_range 224 239 b then
    match rest with
    | b1 :: r1 =>
        if second_ok b b1 then
          match r1 with
          | b2 :: _ =>
              if is_cont b2
              then (Some ((b - 224) * 4096 + (b1 - 128) * 64 + (b2 - 128))%N, 3)
              else (None, 2)
          | [] => (None, 2)
          end
        else (None, 1)
    | [] => (None, 1)
    end
  else if in_range 240 244 b then
    match rest with
    | b1 :: r1 =>
        if second_ok b b1 then
          match r1 with
          | b2 :: r2 =>
              if is_cont b2 then
                match r2 with
                | b3 :: _ =>
                    if is_cont b3
                    then (Some ((b - 240) * 262144 + (b1 - 128) * 4096
                                + (b2 - 128) * 64 + (b3 - 128))%N, 4)
                    else (None, 3)
                | [] => (None, 3)
                end
              else (None, 2)
          | [] => (None, 2)
          end
        else (None, 1)
    | [] => (None, 1)
    end
  else (None, 1).

(** The chunks of a byte string: scalar values and invalid parts, in order.  [skip]
    bytes belong to the chunk before. *)
Fixpoint utf8_chunks (skip : nat) (l : Bytes) : list (option char) :=
  match l with
  | [] => []
  | b :: l' =>
      match skip with
      | S k => utf8_chunks k l'
      | O => let (o, n) := utf8_next b l' in o :: utf8_chunks (pred n) l'
      end
  end.

Definition REPLACEMENT : char := 65533%N.

(** [str::from_utf8] and [String::from_utf8_lossy]. *)
Definition from_utf8 (l : Bytes) : option Str := mapM id (utf8_chunks 0 l).
Definition from_utf8_lossy (l : Bytes) : Str := default REPLACEMENT <$> utf8_chunks 0 l.

(** A Unicode scalar value. *)
Definition is_scalar (c : char) : bool :=
  (c <? 55296)%N || ((57344 <=? c)%N && (c <? 1114112)%N).

(** ** [str::parse] on integers: an optional sign and at least one digit *)

Definition push_digit (acc : option N) (c : char) : option N :=
  match acc, to_digit10 c with
  | Some n, Some d => Some (n * 10 + d)%N
  | _, _ => None
  end.

Definition parse_digits (s : Str) : option N :=
  match s with
  | [] => None
  | _ => foldl push_digit (Some 0%N) s
  end.

Definition PLUS : char := 43%N.
Definition MINUS : char := 45%N.

(** [str::parse::<uN>()]: [max] is the type's [MAX]. *)
Definition parse_unsigned (max : N) (s : Str) : option N :=
  let digits := match s with
                | c :: s' => if (c =? PLUS)%N then s' else s
                | [] => []
                end in
  match parse_digits digits with
  | Some n => if (n <=? max)%N then Some n else None
  | None => None
  end.

(** [str::parse::<i32>()]. *)
Definition parse_i32 (s : Str) : option Z :=
  match s with
  | c :: s' =>
      if (c =? MINUS)%N then
        match parse_digits s' with
        | Some n => if (n <=? 2147483648)%N then Some (- Z.of_N n)%Z else None
        | None => None
        end
      else Z.of_N <$> parse_unsigned 2147483647 s
  | [] => None
  end.

(** ** Slices *)

(** [<[u8]>::ends_with]. *)
Definition ends_with (l suffix : Bytes) : bool :=
  bool_decide (drop (length l - length suffix) l = suffix).

(** [<[u8]>::strip_prefix]. *)
Fixpoint strip_prefix (p l : Bytes) : option Bytes :=
  match p, l with
  | [], _ => Some l
  | _ :: _, [] => None
  | a :: p', b :: l' => if (a =? b)%N then strip_prefix p' l' else None
  end.

(** A position and the bytes on either side of it, the byte there left out. *)
Definition split_once (l : Bytes) (separator : byte) : option (Bytes * Bytes) :=
  match position (fun b => (b =? separator)%N) l with
  | Some i => Some (take i l, drop (S i) l)
  | None => None
  end.

(** ** Facts *)

(** A number below 2^21 in base 64. *)
Lemma base64_digits c :
  (c < 1114112)%N ->
  exists d3 d2 d1 d0, (d0 < 64 /\ d1 < 64 /\ d2 < 64 /\ d3 < 5)%N /\
    c = (d3 * 262144 + d2 * 4096 + d1 * 64 + d0)%N /\
    (c mod 64 = d0)%N /\ (c / 64 = d3 * 4096 + d2 * 64 + d1)%N /\
    ((c / 64) mod 64 = d1)%N /\ (c / 4096 = d3 * 64 + d2)%N /\
    ((c / 4096) mod 64 = d2)%N /\ (c / 262144 = d3)%N.
Proof.
  intros Hc. exists (c / 262144)%N, ((c / 4096) mod 64)%N, ((c / 64) mod 64)%N, (c mod 64)%N.
  assert (c / 4096 = c / 64 / 64)%N as H1 by (rewrite N.Div0.div_div; done).
  assert (c / 262144 = c / 64 / 64 / 64)%N as H2 by (rewrite !N.Div0.div_div; done).
  rewrite H1, H2.
  pose proof (N.div_mod c 64 ltac:(done)). pose proof (N.div_mod (c / 64) 64 ltac:(done)).
  pose proof (N.div_mod (c / 64 / 64) 64 ltac:(done)).
  pose proof (N.mod_lt c 64 ltac:(done)). pose proof (N.mod_lt (c / 64) 64 ltac:(done)).
  pose proof (N.mod_lt (c / 64 / 64) 64 ltac:(done)). clear H1 H2.
  generalize dependent (c / 64 / 64 / 64)%N. generalize dependent ((c / 64 / 64) mod 64)%N.
  generalize dependent (c / 64 / 64)%N. generalize dependent ((c / 64) mod 64)%N.
  generalize dependent (c / 64)%N. generalize dependent (c mod 64)%N.
  intros. repeat split; lia.
Qed.

(** Decide the comparisons of the goal one by one. *)
Ltac decide_tests :=
  repeat match goal with
  | |- context [(?a <? ?b)%N] => destruct (N.ltb_spec a b); simpl; try lia
  | |- context [(?a <=? ?b)%N] => destruct (N.leb_spec a b); simpl; try lia
  | |- context [(?a =? ?b)%N] => destruct (N.eqb_spec a b); simpl; try lia
  end.

Lemma is_scalar_spec c :
  is_scalar c = true <-> (c < 55296)%N \/ (57344 <= c /\ c < 1114112)%N.
Proof.
  unfold is_scalar. rewrite orb_true_iff, andb_true_iff.
  rewrite N.ltb_lt, N.leb_le, N.ltb_lt. done.
Qed.

Lemma encode_utf8_next c rest :
  is_scalar c = true ->
  exists b tl, encode_utf8 c = b :: tl /\ utf8_next b (tl ++ rest) = (Some c, S (length tl)).
Proof.
  intros Hc%is_scalar_spec. unfold encode_utf8.
  destruct (base64_digits c ltac:(lia))
    as (d3 & d2 & d1 & d0 & Hd & Hsum & -> & H1 & -> & H2 & -> & ->).
  rewrite H1, H2. clear H1 H2.
  destruct (N.ltb_spec c 128); [|destruct (N.ltb_spec c 2048); [|destruct (N.ltb_spec c 65536)]].
  all: eexists _, _; (split; [reflexivity|]); unfold utf8_next, second_ok, is_cont, in_range; simpl.
  all: decide_tests.
  all: do 2 f_equal; lia.
Qed.

Lemma as_bytes_cons c s : as_bytes (c :: s) = encode_utf8 c ++ as_bytes s.
Proof. done. Qed.

Lemma utf8_chunks_skip l l' : utf8_chunks (length l) (l ++ l') = utf8_chunks 0 l'.
Proof. induction l; simpl; auto. Qed.

Lemma utf8_chunks_encode c rest :
  is_scalar c = true -> utf8_chunks 0 (encode_utf8 c ++ rest) = Some c :: utf8_chunks 0 rest.
Proof.
  intros Hc. destruct (encode_utf8_next c rest Hc) as (b & tl & -> & Hn).
  simpl. rewrite Hn. simpl. by rewrite utf8_chunks_skip.
Qed.

Lemma utf8_chunks_as_bytes s :
  Forall (fun c => is_scalar c = true) s -> utf8_chunks 0 (as_bytes s) = Some <$> s.
Proof.
  induction 1 as [|c s Hc _ IH]; [done|].
  by rewrite as_bytes_cons, utf8_chunks_encode, IH.
Qed.

(** Decoding the bytes of a string gives the string, strictly and lossily. *)
Lemma from_utf8_as_bytes s :
  Forall (fun c => is_scalar c = true) s -> from_utf8 (as_bytes s) = Some s.
Proof.
  intros Hs. unfold from_utf8. rewrite utf8_chunks_as_bytes by done.
  clear Hs. apply mapM_Some_2. rewrite Forall2_fmap_l. by apply Forall_Forall2_diag, Forall_true.
Qed.

Lemma from_utf8_lossy_as_bytes s :
  Forall (fun c => is_scalar c = true) s -> from_utf8_lossy (as_bytes s) = s.
Proof.
  intros Hs. unfold from_utf8_lossy. rewrite utf8_chunks_as_bytes by done.
  rewrite <- list_fmap_compose. apply list_fmap_id.
Qed.

Lemma encode_utf8_ascii c : (c < 128)%N -> encode_utf8 c = [c].
Proof. intros H. unfold encode_utf8. by rewrite (proj2 (N.ltb_lt _ _) H). Qed.

Lemma as_bytes_ascii s : Forall (fun c => (c < 128)%N) s -> as_bytes s = s.
Proof.
  induction 1 as [|c s Hc _ IH]; [done|].
  by rewrite as_bytes_cons, encode_utf8_ascii, IH.
Qed.

Lemma as_bytes_app s t : as_bytes (s ++ t) = as_bytes s ++ as_bytes t.
Proof. apply bind_app. Qed.

Lemma ascii_is_scalar c : (c < 128)%N -> is_scalar c = true.
Proof. intros. apply is_scalar_spec. lia. Qed.

Lemma from_utf8_ascii s : Forall (fun c => (c < 128)%N) s -> from_utf8 s = Some s.
Proof.
  intros Hs. rewrite <- (as_bytes_ascii s) at 1 by done. apply from_utf8_as_bytes.
  eapply Forall_impl; [done|]. apply ascii_is_scalar.
Qed.

Lemma encode_utf8_bytes c : is_scalar c = true -> Forall is_byte (encode_utf8 c).
Proof.
  intros Hc%is_scalar_spec. unfold encode_utf8, is_byte.
  destruct (base64_digits c ltac:(lia))
    as (d3 & d2 & d1 & d0 & Hd & Hsum & -> & H1 & -> & H2 & -> & ->).
  rewrite H1, H2. clear H1 H2. decide_tests.
  all: repeat constructor; lia.
Qed.

Lemma as_bytes_bytes s :
  Forall (fun c => is_scalar c = true) s -> Forall is_byte (as_bytes s).
Proof.
  induction 1 as [|c s Hc _ IH]; [constructor|].
  rewrite as_bytes_cons. apply Forall_app. split; [by apply encode_utf8_bytes|done].
Qed.

Lemma ends_with_app l suffix : ends_with (l ++ suffix) suffix = true.
Proof.
  apply bool_decide_eq_true. rewrite length_app, Nat.add_sub. by rewrite drop_app_length.
Qed.

Lemma ends_with_spec l suffix :
  ends_with l suffix = true <-> exists p, l = p ++ suffix.
Proof.
  split.
  - intros H%bool_decide_eq_true. exists (take (length l - length suffix) l).
    rewrite <- H at 2. by rewrite take_drop.
  - intros [p ->]. apply ends_with_app.
Qed.

Lemma split_once_app l sep l' :
  sep ∉ l -> split_once (l ++ sep :: l') sep = Some (l, l').
Proof.
  intros Hl. unfold split_once.
  assert (position (fun b => (b =? sep)%N) (l ++ sep :: l') = Some (length l)) as ->.
  { induction l as [|b l IH]; simpl; [by rewrite N.eqb_refl|].
    apply not_elem_of_cons in Hl as [Hb Hl].
    rewrite (proj2 (N.eqb_neq _ _)) by congruence. by rewrite IH. }
  rewrite take_app_length. rewrite drop_app_ge by lia.
  by replace (S (length l) - length l) with 1 by lia.
Qed.

Lemma split_once_None l sep : sep ∉ l -> split_once l sep = None.
Proof.
  intros Hl. unfold split_once.
  assert (position (fun b => (b =? sep)%N) l = None) as ->; [|done].
  apply position_None. intros i x Hx. apply N.eqb_neq. intros ->. apply Hl.
  by eapply list_elem_of_lookup_2.
Qed.

Lemma absent (b : byte) (l : Bytes) : bool_decide (b ∈ l) = false -> b ∉ l.
Proof. apply bool_decide_eq_false_1. Qed.

(** ** Scanners

    A scanner reads bytes from left to right and threads its state: it is a left
    fold, so it does not matter how its input is cut into reads. *)

Section scanner.
Context {S : Type} (step : S -> byte -> S).

Definition scan (s : S) (input : Bytes) : S := foldl step s input.

Lemma scan_nil s : scan s [] = s.
Proof. done. Qed.

Lemma scan_cons s b l : scan s (b :: l) = scan (step s b) l.
Proof. done. Qed.

Lemma scan_app s l l' : scan s (l ++ l') = scan (scan s l) l'.
Proof. apply foldl_app. Qed.

Lemma scan_concat s (ls : list Bytes) : scan s (concat ls) = foldl scan s ls.
Proof.
  revert s. induction ls as [|l ls IH]; intros s; simpl; [done|]. by rewrite scan_app, IH.
Qed.

(** A property each byte keeps is an invariant of every scan. *)
Lemma scan_invariant (P : S -> Prop) s l :
  (forall s b, P s -> P (step s b)) -> P s -> P (scan s l).
Proof. intros Hstep. revert s. induction l; simpl; auto. Qed.
End scanner.

Arguments scan : simpl never.

(** A scanner that only adds to an output: what it has written so far does not
    influence it. *)
Section writer.
Context {S O : Type} (step : S * list O -> byte -> S * list O).
Hypothesis step_adds : forall s out b,
  step (s, out) b = ((step (s, []) b).1, out ++ (step (s, []) b).2).

Lemma scan_adds s out l :
  scan step (s, out) l = ((scan step (s, []) l).1, out ++ (scan step (s, []) l).2).
Proof.
  revert s out. induction l as [|b l IH]; intros s out; [by rewrite app_nil_r|].
  rewrite !scan_cons, (step_adds s out). destruct (step (s, []) b) as [s' out']. simpl.
  rewrite (IH s' (out ++ out')), (IH s' out'). simpl. by rewrite <- (assoc_L (++)).
Qed.
End writer.
