(* ===== verification/Text.v ===== *)
(** * Text

    What several components use of Rust's [str]: its lines, its words, its parts
    between separators, trimming, and numbers printed and read back. *)

From S2P Require Import Prelude Bytes.

(** [str::split_whitespace]: the maximal runs of non-blank characters, [run]
    being the one in progress. *)
Fixpoint split_from (run : Str) (s : Str) : list Str :=
  match s with
  | [] => if bool_decide (run = []) then [] else [run]
  | c :: s' =>
      if is_whitespace c then
        if bool_decide (run = []) then split_from [] s' else run :: split_from [] s'
      else split_from (run ++ [c]) s'
  end.
Definition split_whitespace (s : Str) : list Str := split_from [] s.

(** The words of a text: neither empty nor blank anywhere. *)
Definition field (w : Str) : Prop := w <> [] /\ Forall (fun c => is_whitespace c = false) w.

Lemma split_from_app w s run : Forall (fun c => is_whitespace c = false) w ->
  split_from run (w ++ s) = split_from (run ++ w) s.
Proof.
  intros Hw. revert run. induction Hw as [|c w Hc _ IH]; intros run; simpl.
  - by rewrite app_nil_r.
  - by rewrite Hc, IH, <- app_assoc.
Qed.

Lemma split_fields run s : Forall (fun c => is_whitespace c = false) run ->
  Forall field (split_from run s).
Proof.
  revert run. induction s as [|c s IH]; intros run Hrun; simpl.
  - case_bool_decide; by repeat constructor.
  - destruct (is_whitespace c) eqn:Hc.
    + case_bool_decide; [by apply IH|]. constructor; [done|by apply IH].
    + apply IH, Forall_app_2; [done|]. by constructor.
Qed.

(** [str::split] on a character. *)
Fixpoint split_on (sep : char) (s : Str) : list Str :=
  match s with
  | [] => [[]]
  | c :: s' =>
      match split_on sep s' with
      | [] => []
      | w :: ws => if (c =? sep)%N then [] :: w :: ws else (c :: w) :: ws
      end
  end.

Definition COMMA : char := 44%N.

(** ** Trimming *)

Lemma trim_start_blank s t :
  Forall (fun c => is_whitespace c = true) s -> trim_start (s ++ t) = trim_start t.
Proof. induction 1 as [|c s Hc _ IH]; simpl; [done|]. by rewrite Hc. Qed.

Lemma trim_start_head s :
  (forall c, head s = Some c -> is_whitespace c = false) -> trim_start s = s.
Proof. destruct s as [|c s]; simpl; [done|]. intros H. by rewrite H. Qed.

Lemma trim_end_blank s t :
  Forall (fun c => is_whitespace c = true) t -> trim_end (s ++ t) = trim_end s.
Proof.
  intros Ht. unfold trim_end. rewrite reverse_app. f_equal.
  apply trim_start_blank. by apply Forall_reverse.
Qed.

Lemma trim_end_last s :
  (forall c, last s = Some c -> is_whitespace c = false) -> trim_end s = s.
Proof.
  intros H. unfold trim_end. rewrite trim_start_head; [apply reverse_involutive|].
  intros c Hc. apply H. by rewrite <- head_reverse.
Qed.

(** A text without blanks at its ends survives trimming with any padding. *)
Lemma trim_padded s pre post :
  Forall (fun c => is_whitespace c = true) pre ->
  Forall (fun c => is_whitespace c = true) post ->
  (forall c, head s = Some c -> is_whitespace c = false) ->
  (forall c, last s = Some c -> is_whitespace c = false) ->
  trim (pre ++ s ++ post) = s.
Proof.
  intros Hpre Hpost Hhd Hla. unfold trim.
  rewrite trim_start_blank by done. destruct s as [|c s].
  { simpl. rewrite <- (app_nil_r post), trim_start_blank by done. done. }
  rewrite trim_start_head by (simpl; naive_solver).
  rewrite trim_end_blank by done. by apply trim_end_last.
Qed.

#[export] Hint Resolve trim_padded : goble.

(** ** Lines: [str::lines]

    The maximal runs between line feeds, less the carriage return before one; a text
    that ends in a line feed has no empty last line. *)

Definition RETURN : char := 13%N.

Definition strip_return (line : Str) : Str :=
  if bool_decide (last line = Some RETURN) then take (pred (length line)) line else line.

Fixpoint lines_from (line : Str) (s : Str) : list Str :=
  match s with
  | [] => if bool_decide (line = []) then [] else [line]
  | c :: s' =>
      if (c =? NEWLINE)%N then strip_return line :: lines_from [] s'
      else lines_from (line ++ [c]) s'
  end.
Definition str_lines (s : Str) : list Str := lines_from [] s.

(** Lines, each ended by a line feed. *)
Definition end_lines (ls : list Str) : Str := ls ≫= (.++ [NEWLINE]).

(** A line that reads back as itself. *)
Definition plain_line (l : Str) : Prop := NEWLINE ∉ l /\ last l <> Some RETURN.

Lemma strip_return_plain l : last l <> Some RETURN -> strip_return l = l.
Proof. intros H. unfold strip_return. by rewrite bool_decide_false. Qed.

Lemma lines_from_app line w s :
  NEWLINE ∉ w -> lines_from line (w ++ s) = lines_from (line ++ w) s.
Proof.
  revert line. induction w as [|c w IH]; intros line Hw; simpl; [by rewrite app_nil_r|].
  apply not_elem_of_cons in Hw as [Hc Hw]. rewrite (proj2 (N.eqb_neq _ _)) by congruence.
  rewrite IH by done. by rewrite <- app_assoc.
Qed.

Lemma lines_end_lines ls : Forall plain_line ls -> str_lines (end_lines ls) = ls.
Proof.
  unfold str_lines, end_lines. induction 1 as [|l ls [Hn Hr] _ IH]; [done|].
  rewrite bind_cons, <- app_assoc, lines_from_app by done. cbn.
  by rewrite strip_return_plain, IH.
Qed.

Lemma strip_return_sub c l : c ∈ strip_return l -> c ∈ l.
Proof.
  unfold strip_return. case_bool_decide; [|done]. intros Hc.
  rewrite <- (take_drop (pred (length l)) l). apply elem_of_app. by left.
Qed.

Lemma lines_from_no_newline line s :
  NEWLINE ∉ line -> Forall (fun l => NEWLINE ∉ l) (lines_from line s).
Proof.
  revert line. induction s as [|c s IH]; intros line Hl; simpl.
  - case_bool_decide; by repeat constructor.
  - destruct (N.eqb_spec c NEWLINE) as [->|Hc].
    + constructor; [by intros ?%strip_return_sub|]. apply IH. set_solver.
    + apply IH. set_solver.
Qed.

Lemma lines_no_newline s : Forall (fun l => NEWLINE ∉ l) (str_lines s).
Proof. apply lines_from_no_newline. set_solver. Qed.

(** ** [str::find] on a text *)

Fixpoint find_str (s pat : Str) : option nat :=
  match s with
  | [] => if bool_decide (pat = []) then Some 0 else None
  | _ :: s' => if starts_with s pat then Some 0 else S <$> find_str s' pat
  end.

Lemma find_str_app s c pat :
  c ∉ s -> find_str (s ++ c :: pat) (c :: pat) = Some (length s).
Proof.
  intros Hs. induction s as [|x s IH]; simpl.
  - unfold starts_with. simpl. by rewrite bool_decide_true by (by rewrite firstn_all).
  - apply not_elem_of_cons in Hs as [Hx Hs]. unfold starts_with. simpl.
    rewrite bool_decide_false by congruence. by rewrite IH.
Qed.

(** [str::trim_start_matches] on characters. *)
Fixpoint trim_start_matches (p : char -> bool) (s : Str) : Str :=
  match s with
  | c :: s' => if p c then trim_start_matches p s' else s
  | [] => []
  end.

(** ** Parts between separators *)

Lemma split_on_absent sep w : sep ∉ w -> split_on sep w = [w].
Proof.
  induction w as [|c w IH]; intros Hw; simpl; [done|].
  apply not_elem_of_cons in Hw as [Hc Hw]. rewrite IH by done.
  by rewrite (proj2 (N.eqb_neq _ _)) by congruence.
Qed.

Lemma split_on_cons sep s : exists w ws, split_on sep s = w :: ws.
Proof.
  induction s as [|c s (w & ws & IH)]; simpl; [by eauto|]. rewrite IH. case_match; eauto.
Qed.

Lemma split_on_app sep w s : sep ∉ w -> split_on sep (w ++ sep :: s) = w :: split_on sep s.
Proof.
  induction w as [|c w IH]; intros Hw; simpl.
  - destruct (split_on_cons sep s) as (w & ws & ->). by rewrite N.eqb_refl.
  - apply not_elem_of_cons in Hw as [Hc Hw]. rewrite IH by done.
    by rewrite (proj2 (N.eqb_neq _ _)) by congruence.
Qed.

(** ** Numbers: [to_string] and [str::parse] *)

Lemma pretty_go_digits x s :
  lit (pretty_N_go x s) = lit (pretty_N_go x "") ++ lit s /\
  Forall (fun c => is_ascii_digit c = true) (lit (pretty_N_go x "")) /\
  foldl push_digit (Some 0%N) (lit (pretty_N_go x "")) = Some x.
Proof.
  revert s. induction (N.lt_wf_0 x) as [x _ IH]; intros s.
  destruct (decide (0 < x)%N) as [Hx|Hx]; [|assert (x = 0%N) as -> by lia; done].
  rewrite !(pretty_N_go_step x) by done.
  assert (x `div` 10 < x)%N as Hlt by (apply N.div_lt; lia).
  destruct (IH _ Hlt (String (pretty_N_char (x `mod` 10)) s)) as (-> & _ & _).
  destruct (IH _ Hlt (String (pretty_N_char (x `mod` 10)) "")) as (-> & Hd & Hf).
  assert (x `mod` 10 < 10)%N as Hm by (apply N.mod_lt; lia).
  assert (chr (pretty_N_char (x `mod` 10)) = 48 + x `mod` 10)%N as Hc.
  { remember (x `mod` 10)%N as m eqn:E. clear E.
    assert (m = 0 \/ m = 1 \/ m = 2 \/ m = 3 \/ m = 4 \/ m = 5 \/ m = 6 \/ m = 7 \/ m = 8 \/ m = 9)%N
      as Hms by lia.
    by repeat destruct Hms as [->|Hms]; [..|subst]. }
  simpl. rewrite Hc. pose proof (N.div_mod x 10 ltac:(done)) as Hdm.
  remember (x `mod` 10)%N as m eqn:Em. remember (x `div` 10)%N as q eqn:Eq. clear Em Eq IH.
  split_and!.
  - by rewrite <- app_assoc.
  - apply Forall_app_2; [done|]. constructor; [|constructor].
    unfold is_ascii_digit. apply andb_true_iff. rewrite !N.leb_le. lia.
  - rewrite foldl_app, Hf. simpl. unfold to_digit10, is_ascii_digit.
    rewrite !(proj2 (N.leb_le _ _)) by lia. simpl. f_equal. lia.
Qed.

Lemma show_N_digits n :
  show_N n <> [] /\ Forall (fun c => is_ascii_digit c = true) (show_N n) /\
  foldl push_digit (Some 0%N) (show_N n) = Some n.
Proof.
  unfold show_N, pretty, pretty_N. case_decide as Hn; [subst; by repeat constructor|].
  destruct (pretty_go_digits n "") as (_ & Hd & Hf). split_and!; [|done..].
  intros He. rewrite He in Hf. by injection Hf.
Qed.

(** A number printed in decimal reads back. *)
Lemma parse_show_N max n : (n <= max)%N -> parse_unsigned max (show_N n) = Some n.
Proof.
  intros Hn. destruct (show_N_digits n) as (Hne & Hd & Hf). unfold parse_unsigned, parse_digits.
  destruct (show_N n) as [|c s] eqn:E; [done|].
  assert ((c =? PLUS)%N = false) as ->.
  { apply N.eqb_neq. intros ->. by apply Forall_cons in Hd as [? _]. }
  rewrite Hf. by rewrite (proj2 (N.leb_le _ _)).
Qed.

Lemma show_N_not_elem c n : is_ascii_digit c = false -> c ∉ show_N n.
Proof.
  intros Hc Hin. destruct (show_N_digits n) as (_ & Hd & _).
  rewrite Forall_forall in Hd. specialize (Hd _ Hin). congruence.
Qed.

Lemma digit_not_blank c : is_ascii_digit c = true -> is_whitespace c = false.
Proof.
  unfold is_ascii_digit, is_whitespace. rewrite andb_true_iff, !N.leb_le. intros [H1 H2].
  rewrite !orb_false_iff, !andb_false_iff, !N.leb_gt. split_and!; try lia.
  apply bool_decide_eq_false. intros Hc.
  repeat (apply elem_of_cons in Hc as [->|Hc]; [lia|]). by apply not_elem_of_nil in Hc.
Qed.

Lemma show_N_not_blank n : Forall (fun c => is_whitespace c = false) (show_N n).
Proof.
  destruct (show_N_digits n) as (_ & Hd & _). eapply Forall_impl; [done|]. apply digit_not_blank.
Qed.

Lemma trim_no_blank s : Forall (fun c => is_whitespace c = false) s -> trim s = s.
Proof.
  intros Hs. rewrite <- (app_nil_r s) at 1. apply (trim_padded s [] []); try constructor.
  - intros c Hc. rewrite head_lookup in Hc. by eapply Forall_lookup_1 in Hs.
  - intros c Hc. rewrite last_lookup in Hc. by eapply Forall_lookup_1 in Hs.
Qed.
