(* ===== verification/HarnessTypes.v ===== *)
(** * [crates/goble-harness-types]: the model types of a harness turn

    The [types] layer: identifiers, grants, interaction hints, schedules and
    the [HarnessTurn] handed to a harness.  The newtype identifiers get decidable
    equality and countability, so they can key the maps of the daemon. *)

From S2P Require Import Prelude.

(** ** Identifiers *)

Record HarnessId : Type := mkHarnessId { harness_id_0 : Str }.
Record ProjectId : Type := mkProjectId { project_id_0 : Str }.
Record SessionId : Type := mkSessionId { session_id_0 : Str }.
Record MediumId : Type := mkMediumId { medium_id_0 : Str }.

#[export] Instance HarnessId_eq_dec : EqDecision HarnessId.
Proof. solve_decision. Defined.
#[export] Instance ProjectId_eq_dec : EqDecision ProjectId.
Proof. solve_decision. Defined.
#[export] Instance SessionId_eq_dec : EqDecision SessionId.
Proof. solve_decision. Defined.
#[export] Instance MediumId_eq_dec : EqDecision MediumId.
Proof. solve_decision. Defined.

#[export] Instance HarnessId_countable : Countable HarnessId.
Proof. refine (inj_countable' harness_id_0 mkHarnessId _). by intros []. Defined.
#[export] Instance SessionId_countable : Countable SessionId.
Proof. refine (inj_countable' session_id_0 mkSessionId _). by intros []. Defined.

(** [HarnessId::default]. *)
Definition HarnessId_default : HarnessId := mkHarnessId (lit "internal").

(** ** Enumerations *)

Module MediumKind.
Inductive t : Type := Local | Vm | Remote | Browser | Container.
End MediumKind.

Module InteractionChannel.
Inductive t : Type := HeadlessShell | GuiScreen | Cdp | Voice.
End InteractionChannel.

Module InteractionHint.
Inductive t : Type := Text | Voice (short_answers : bool) | Auto.
End InteractionHint.

Module GrantMode.
Inductive t : Type := ReadOnly | ReadWrite.
End GrantMode.

Module SandboxLevel.
Inductive t : Type := None | AllowList | Hardened.
End SandboxLevel.

Module CommandDecision.
Inductive t : Type := Approve (text : Str) | Edit (text : Str) | Reject (text : Str).
End CommandDecision.

Module ChatRole.
Inductive t : Type := System | User | Assistant | Tool.
End ChatRole.

Module Schedule.
Inductive t : Type :=
| Manual
| Cron (expression : Str)
| Http (path : Str)
| Heartbeat (interval_seconds : N).
End Schedule.

(** ** Records *)

Record Grant : Type := mkGrant { repo : Str; mode : GrantMode.t }.

Definition read_only (repo : Str) : Grant := mkGrant repo GrantMode.ReadOnly.
Definition read_write (repo : Str) : Grant := mkGrant repo GrantMode.ReadWrite.

Record HarnessCapabilities : Type := mkHarnessCapabilities {
  cap_voice : bool;
  cap_screen : bool;
  cap_sandbox_level : SandboxLevel.t;
  cap_tools : list Str;
  cap_reversible : bool;
}.

(** [HarnessCapabilities::internal]. *)
Definition capabilities_internal : HarnessCapabilities :=
  mkHarnessCapabilities false false SandboxLevel.AllowList [] false.

Section snapshot.
Context {X : Externs}.

Record HarnessSnapshot : Type := mkHarnessSnapshot {
  snapshot_kind : Str;
  snapshot_data : Json;
}.
End snapshot.

Record ChatMessage : Type := mkChatMessage { role : ChatRole.t; content : Str }.

Record HarnessTurn : Type := mkHarnessTurn {
  turn_harness_id : HarnessId;
  turn_project_id : ProjectId;
  turn_session_id : SessionId;
  turn_medium_id : MediumId;
  turn_goal : Str;
  turn_context : list ChatMessage;
  turn_permissions : list Grant;
  turn_interaction : InteractionHint.t;
  turn_schedule : option Schedule.t;
}.

(** [HarnessTurn::new]. *)
Definition new_turn (harness_id : HarnessId) (session_id : SessionId) (goal : Str)
    : HarnessTurn :=
  {| turn_harness_id := harness_id;
     turn_project_id := mkProjectId (lit "default");
     turn_session_id := session_id;
     turn_medium_id := mkMediumId (lit "local");
     turn_goal := goal;
     turn_context := [];
     turn_permissions := [];
     turn_interaction := InteractionHint.Auto;
     turn_schedule := None |}.

(** [turn.project_id = p; turn.medium_id = m], as the workflow seams assign. *)
Definition with_scope (p : ProjectId) (m : MediumId) (t : HarnessTurn) : HarnessTurn :=
  {| turn_harness_id := turn_harness_id t;
     turn_project_id := p;
     turn_session_id := turn_session_id t;
     turn_medium_id := m;
     turn_goal := turn_goal t;
     turn_context := turn_context t;
     turn_permissions := turn_permissions t;
     turn_interaction := turn_interaction t;
     turn_schedule := turn_schedule t |}.
