(* ===== verification/HarnessProtocol.v ===== *)
(** * The wire types: [crates/goble-harness-protocol], [crates/goble-daemon-protocol]

    The events a harness streams, the events the daemon streams to its client,
    the mapping of one into the other ([goble-daemon/src/state/events.rs]), and
    the newline-delimited framing both protocols share.

    JSON serialisation is [serde_json]'s: the framing is modelled over a
    [Codec], the pair of functions [serde_json::to_string] and
    [serde_json::from_str] at one message type. *)

From S2P Require Import Prelude Text HarnessTypes.

(** ** Harness side *)

Section schema.
Context {X : Externs}.

Record ToolSchemaWire : Type := mkToolSchemaWire {
  tool_name : Str;
  tool_description : Str;
  tool_parameters : Json;
}.
End schema.

Module HarnessClientRequest.
Inductive t {X : Externs} : Type :=
| ListTools
| Run (turn : HarnessTurn)
| Resume (session_id : SessionId) (response : Str)
| Cancel (session_id : SessionId)
| Checkpoint (session_id : SessionId)
| Restore (session_id : SessionId) (snapshot : HarnessSnapshot).
End HarnessClientRequest.

Module HarnessServerEvent.
Inductive t {X : Externs} : Type :=
| Ready
| ToolList (tools : list ToolSchemaWire)
| AssistantDelta (session_id : SessionId) (delta : Str)
| ToolCallStarted (session_id : SessionId) (id name : Str) (arguments : Json)
| ToolCallFinished (session_id : SessionId) (id result : Str)
| ToolCallError (session_id : SessionId) (id message : Str)
| AskUser (session_id : SessionId) (question : Str) (quick_replies : list Str)
| CommandProposed (session_id : SessionId) (id : Str) (candidates : list Str) (cwd : Str)
| SubAgentSpawned (session_id : SessionId) (chat_id subagent_id subagent_type : Str)
    (description parent_call_id : Str) (run_in_background : bool)
| SubAgentProgress (session_id : SessionId) (chat_id subagent_id status activity : Str)
    (turns tool_calls tokens duration_ms : N)
| SubAgentFinished (session_id : SessionId) (chat_id subagent_id status : Str)
    (output error : option Str) (duration_ms turns tool_calls tokens : N)
| MissionUpdated (session_id : SessionId) (mission_id status : Str)
| TokenUsage (session_id : SessionId) (chat_id : Str) (input : N) (cached : option N)
    (output : N)
| ReasoningStarted (session_id : SessionId) (step : N) (mode : Str)
| ReasoningDelta (session_id : SessionId) (delta : Str)
| ReasoningDone (session_id : SessionId) (step : N) (mode content decision : Str)
| Done (session_id : SessionId)
| Error (session_id : SessionId) (message : Str)
| Checkpoint (session_id : SessionId) (snapshot : HarnessSnapshot).
End HarnessServerEvent.

Module HarnessMessage.
Inductive t {X : Externs} : Type :=
| Client (request : HarnessClientRequest.t)
| Server (event : HarnessServerEvent.t).
End HarnessMessage.

(** ** Daemon side *)

Module DaemonEvent.
Inductive t {X : Externs} : Type :=
| AssistantDelta (session_id : SessionId) (delta : Str)
| ToolCallStarted (session_id : SessionId) (id name : Str) (arguments : Json)
| ToolCallFinished (session_id : SessionId) (id result : Str)
| ToolCallError (session_id : SessionId) (id message : Str)
| AskUser (session_id : SessionId) (question : Str) (quick_replies : list Str)
| CommandProposed (session_id : SessionId) (id : Str) (candidates : list Str) (cwd : Str)
| SubAgentSpawned (session_id : SessionId) (chat_id subagent_id subagent_type : Str)
    (description parent_call_id : Str) (run_in_background : bool)
| SubAgentProgress (session_id : SessionId) (chat_id subagent_id status activity : Str)
    (turns tool_calls tokens duration_ms : N)
| SubAgentFinished (session_id : SessionId) (chat_id subagent_id status : Str)
    (output error : option Str) (duration_ms turns tool_calls tokens : N)
| MissionUpdated (session_id : SessionId) (mission_id status : Str)
| TokenUsage (session_id : SessionId) (chat_id : Str) (input : N) (cached : option N)
    (output : N)
| ReasoningStarted (session_id : SessionId) (step : N) (mode : Str)
| ReasoningDelta (session_id : SessionId) (delta : Str)
| ReasoningDone (session_id : SessionId) (step : N) (mode content decision : Str)
| Done (session_id : SessionId)
| Error (session_id : SessionId) (message : Str)
| TraceStarted (session_id : SessionId) (trace_id : Str) (project_id : ProjectId)
    (medium_id : MediumId)
| TraceFinished (session_id : SessionId) (trace_id status : Str) (project_id : ProjectId)
    (medium_id : MediumId).
End DaemonEvent.

(** [map_event]: a harness event in the daemon's wire shape; the host-discovery
    frames and harness checkpoints are not part of the daemon stream. *)
Definition map_event {X : Externs} (ev : HarnessServerEvent.t) : option DaemonEvent.t :=
  match ev with
  | HarnessServerEvent.Ready
  | HarnessServerEvent.ToolList _
  | HarnessServerEvent.Checkpoint _ _ => None
  | HarnessServerEvent.AssistantDelta session_id delta =>
      Some (DaemonEvent.AssistantDelta session_id delta)
  | HarnessServerEvent.ToolCallStarted session_id id name arguments =>
      Some (DaemonEvent.ToolCallStarted session_id id name arguments)
  | HarnessServerEvent.ToolCallFinished session_id id result =>
      Some (DaemonEvent.ToolCallFinished session_id id result)
  | HarnessServerEvent.ToolCallError session_id id message =>
      Some (DaemonEvent.ToolCallError session_id id message)
  | HarnessServerEvent.AskUser session_id question quick_replies =>
      Some (DaemonEvent.AskUser session_id question quick_replies)
  | HarnessServerEvent.CommandProposed session_id id candidates cwd =>
      Some (DaemonEvent.CommandProposed session_id id candidates cwd)
  | HarnessServerEvent.SubAgentSpawned session_id chat_id subagent_id subagent_type
      description parent_call_id run_in_background =>
      Some (DaemonEvent.SubAgentSpawned session_id chat_id subagent_id subagent_type
        description parent_call_id run_in_background)
  | HarnessServerEvent.SubAgentProgress session_id chat_id subagent_id status activity
      turns tool_calls tokens duration_ms =>
      Some (DaemonEvent.SubAgentProgress session_id chat_id subagent_id status activity
        turns tool_calls tokens duration_ms)
  | HarnessServerEvent.SubAgentFinished session_id chat_id subagent_id status
      output error duration_ms turns tool_calls tokens =>
      Some (DaemonEvent.SubAgentFinished session_id chat_id subagent_id status
        output error duration_ms turns tool_calls tokens)
  | HarnessServerEvent.MissionUpdated session_id mission_id status =>
      Some (DaemonEvent.MissionUpdated session_id mission_id status)
  | HarnessServerEvent.TokenUsage session_id chat_id input cached output =>
      Some (DaemonEvent.TokenUsage session_id chat_id input cached output)
  | HarnessServerEvent.ReasoningStarted session_id step mode =>
      Some (DaemonEvent.ReasoningStarted session_id step mode)
  | HarnessServerEvent.ReasoningDelta session_id delta =>
      Some (DaemonEvent.ReasoningDelta session_id delta)
  | HarnessServerEvent.ReasoningDone session_id step mode content decision =>
      Some (DaemonEvent.ReasoningDone session_id step mode content decision)
  | HarnessServerEvent.Done session_id => Some (DaemonEvent.Done session_id)
  | HarnessServerEvent.Error session_id message => Some (DaemonEvent.Error session_id message)
  end.

(** ** Framing

    [to_line] and [from_line] of [HarnessMessage], [DaemonMessage] and
    [WorkflowHostRequest] have one body, over the serialisation of their type. *)

Class Codec (M : Type) : Type := {
  to_string : M -> result Str Str;
  from_str : Str -> result Str M;
}.

Definition to_line {M} `{Codec M} (m : M) : result Str Str :=
  (let? line := to_string m in Ok (line ++ [NEWLINE]))%goble.

Definition from_line {M} `{Codec M} (line : Str) : result Str M := from_str (trim line).

(** [DaemonMessage::encode] and [DaemonMessage::decode]: no framing newline. *)
Definition encode {M} `{Codec M} (m : M) : result Str Str := to_string m.
Definition decode {M} `{Codec M} (line : Str) : result Str M := from_str (trim line).

(** What the framing relies on: the text a value serialises to parses back to the
    value, and starts and ends on a non-blank character ([serde_json::to_string]
    writes compact JSON: an object's braces, a string's quotes, a literal). *)
Class CodecLaws (M : Type) `{Codec M} : Prop := {
  codec_parse : forall m s, to_string m = Ok s -> from_str s = Ok m;
  codec_head : forall m s c, to_string m = Ok s -> head s = Some c -> is_whitespace c = false;
  codec_last : forall m s c, to_string m = Ok s -> last s = Some c -> is_whitespace c = false;
}.

(** ** Framing round trip *)

(** decoding what was encoded gives the message back, whatever blank
    text (the frame's own newline, carriage returns, padding) surrounds the line. *)
Theorem line_roundtrip {M} `{CodecLaws M} (m : M) (line pre post : Str)
    (Henc : to_line m = Ok line)
    (Hpre : Forall (fun c => is_whitespace c = true) pre)
    (Hpost : Forall (fun c => is_whitespace c = true) post) :
  from_line (pre ++ line ++ post) = Ok m.
Proof.
  unfold to_line in Henc. destruct (to_string m) as [s|] eqn:Hs; simplify_eq.
  unfold from_line. rewrite <- app_assoc.
  rewrite trim_padded; eauto using codec_head, codec_last; [by apply codec_parse|].
  by apply Forall_cons_2.
Qed.

(** ** Witness *)

Module CodecWitness.
(** Two messages, each serialised as a JSON literal. *)
#[local] Instance demo_codec : Codec bool := {
  to_string b := Ok (if b then lit "true" else lit "false");
  from_str s := if bool_decide (s = lit "true") then Ok true
                else if bool_decide (s = lit "false") then Ok false else Err (lit "expected value");
}.

#[local] Instance demo_codec_laws : CodecLaws bool.
Proof.
  split.
  - intros [] s [= <-]; by vm_compute.
  - intros [] s c [= <-] [= <-]; by vm_compute.
  - intros [] s c [= <-] [= <-]; by vm_compute.
Qed.

Theorem line_roundtrip_witness :
  from_line (lit " " ++ (lit "true" ++ [NEWLINE]) ++ [13%N; NEWLINE]) = Ok true.
Proof.
  apply (line_roundtrip true (lit "true" ++ [NEWLINE]) (lit " ") [13%N; NEWLINE]).
  - reflexivity.
  - by repeat constructor.
  - by repeat constructor.
Defined.
End CodecWitness.
