(* ===== verification/Replay.v ===== *)
(** * [crates/goble-replay]: the reversibility ledger

    One session's transcript: the turns it ran, with the events each produced,
    and the operations that rewind, fork, checkpoint, replay and settle it.

    [ReplayLedger] is an [Arc<Mutex<LedgerState>>] whose every method takes the
    lock once: a method is a function on [LedgerState] here.  Which ledgers are
    shared is a matter for the holder of the [Arc] (see [Daemon.v], where ledgers
    live in a store and are passed around by location). *)

From S2P Require Import Prelude HarnessTypes HarnessProtocol.

(** ** Data *)

Module ReplayError.
Inductive t : Type :=
| NoTurn
| IndexOutOfRange (requested len : nat)
| CandidateNotSelected (at_ : nat) (selected : option nat).
End ReplayError.

Module TurnStatus.
Inductive t : Type := Running | Success | Failed (message : Str) | Cancelled.
End TurnStatus.

#[export] Instance ReplayError_eq_dec : EqDecision ReplayError.t.
Proof. solve_decision. Defined.
#[export] Instance TurnStatus_eq_dec : EqDecision TurnStatus.t.
Proof. solve_decision. Defined.

Section data.
Context {X : Externs}.

Record TurnRecord : Type := mkTurnRecord {
  rec_index : nat;
  rec_turn : HarnessTurn;
  rec_started_at : Instant;
  rec_finished_at : option Instant;
  rec_status : TurnStatus.t;
  rec_events : list HarnessServerEvent.t;
}.

Record Checkpoint : Type := mkCheckpoint {
  cp_session_id : SessionId;
  cp_at : nat;
  cp_turns : list TurnRecord;
  cp_created_at : Instant;
}.

Record LedgerState : Type := mkLedgerState {
  led_session_id : SessionId;
  led_turns : list TurnRecord;
  led_selected : option nat;
}.
End data.

Module ReplayLedger.
Section ledger.
Context {X : Externs}.
Implicit Types (s : LedgerState) (cp : Checkpoint) (now : Instant).

Definition set_turns (ts : list TurnRecord) s : LedgerState :=
  mkLedgerState (led_session_id s) ts (led_selected s).
Definition set_selected (sel : option nat) s : LedgerState :=
  mkLedgerState (led_session_id s) (led_turns s) sel.

(** ** Construction and reading *)

Definition new (session_id : SessionId) : LedgerState := mkLedgerState session_id [] None.

Definition from_checkpoint cp : LedgerState :=
  mkLedgerState (cp_session_id cp) (cp_turns cp) None.

Definition session_id s : SessionId := led_session_id s.
Definition len s : nat := length (led_turns s).
Definition is_empty s : bool := bool_decide (len s = 0).
Definition selected s : option nat := led_selected s.
Definition turns s : list TurnRecord := led_turns s.
Definition turn s (index : nat) : option TurnRecord := led_turns s !! index.

(** ** Recording *)

Definition record_turn now (t : HarnessTurn) s : LedgerState * nat :=
  let index := length (led_turns s) in
  (set_turns (led_turns s ++
     [{| rec_index := index;
         rec_turn := t;
         rec_started_at := now;
         rec_finished_at := None;
         rec_status := TurnStatus.Running;
         rec_events := [] |}]) s,
   index).

Definition extend_events (events : list HarnessServerEvent.t) (r : TurnRecord) : TurnRecord :=
  {| rec_index := rec_index r;
     rec_turn := rec_turn r;
     rec_started_at := rec_started_at r;
     rec_finished_at := rec_finished_at r;
     rec_status := rec_status r;
     rec_events := rec_events r ++ events |}.

Definition settle now (status : TurnStatus.t) (r : TurnRecord) : TurnRecord :=
  {| rec_index := rec_index r;
     rec_turn := rec_turn r;
     rec_started_at := rec_started_at r;
     rec_finished_at := Some now;
     rec_status := status;
     rec_events := rec_events r |}.

Definition append_events (events : list HarnessServerEvent.t) s
    : result ReplayError.t LedgerState :=
  match alter_last (extend_events events) (led_turns s) with
  | Some ts => Ok (set_turns ts s)
  | None => Err ReplayError.NoTurn
  end.

Definition settle_turn now (status : TurnStatus.t) s : result ReplayError.t LedgerState :=
  match alter_last (settle now status) (led_turns s) with
  | Some ts => Ok (set_turns ts s)
  | None => Err ReplayError.NoTurn
  end.

(** The guard the indexed operations share: [get_mut(index)] or an error. *)
Definition with_turn_at (index : nat) (f : TurnRecord -> TurnRecord) s
    : result ReplayError.t LedgerState :=
  match led_turns s !! index with
  | Some _ => Ok (set_turns (alter f index (led_turns s)) s)
  | None => Err (ReplayError.IndexOutOfRange index (length (led_turns s)))
  end.

Definition append_events_to (index : nat) (events : list HarnessServerEvent.t) s
    : result ReplayError.t LedgerState :=
  with_turn_at index (extend_events events) s.

Definition settle_turn_at now (index : nat) (status : TurnStatus.t) s
    : result ReplayError.t LedgerState :=
  with_turn_at index (settle now status) s.

(** ** Settlement of a candidate turn *)

Definition select (at_ : nat) s : result ReplayError.t LedgerState :=
  let n := length (led_turns s) in
  if bool_decide (n <= at_) then Err (ReplayError.IndexOutOfRange at_ n)
  else Ok (set_selected (Some at_) s).

Definition apply (at_ : nat) s : result ReplayError.t (LedgerState * nat) :=
  let n := length (led_turns s) in
  if bool_decide (n <= at_) then Err (ReplayError.IndexOutOfRange at_ n)
  else if bool_decide (led_selected s <> Some at_)
  then Err (ReplayError.CandidateNotSelected at_ (led_selected s))
  else
    let removed := n - at_ - 1 in
    Ok (set_selected None (set_turns (truncate (at_ + 1) (led_turns s)) s), removed).

Definition release (at_ : nat) s : result ReplayError.t (LedgerState * bool) :=
  let n := length (led_turns s) in
  if bool_decide (n <= at_) then Err (ReplayError.IndexOutOfRange at_ n)
  else
    let was := bool_decide (led_selected s = Some at_) in
    Ok (if was then set_selected None s else s, was).

Definition discard (at_ : nat) s : result ReplayError.t (LedgerState * nat) :=
  let n := length (led_turns s) in
  if bool_decide (n <= at_) then Err (ReplayError.IndexOutOfRange at_ n)
  else
    let removed := n - at_ in
    Ok (set_selected None (set_turns (truncate at_ (led_turns s)) s), removed).

(** ** Rewind, fork, checkpoint, replay *)

Definition rewind_to (index : nat) s : LedgerState * nat :=
  let n := length (led_turns s) in
  if bool_decide (n <= index) then (s, 0)
  else
    let removed := n - index in
    (set_turns (truncate index (led_turns s)) s, removed).

Definition revert_to (index : nat) s : LedgerState * nat := rewind_to index s.

Definition fork (at_ : nat) (new_session_id : SessionId) s : LedgerState :=
  let at_ := at_ `min` length (led_turns s) in
  mkLedgerState new_session_id (take at_ (led_turns s)) None.

Definition checkpoint now s : Checkpoint :=
  {| cp_session_id := led_session_id s;
     cp_at := length (led_turns s);
     cp_turns := led_turns s;
     cp_created_at := now |}.

Definition checkpoint_at now (at_ : nat) s : Checkpoint :=
  let at_ := at_ `min` length (led_turns s) in
  {| cp_session_id := led_session_id s;
     cp_at := at_;
     cp_turns := take at_ (led_turns s);
     cp_created_at := now |}.

Definition restore cp s : LedgerState :=
  mkLedgerState (cp_session_id cp) (cp_turns cp) None.

Definition replay (at_ : nat) s : list HarnessServerEvent.t :=
  let at_ := at_ `min` length (led_turns s) in
  drop at_ (led_turns s) ≫= rec_events.

(** ** Histories

    A client's command on a ledger, and the ledger after a sequence of them; a
    refused command leaves the ledger as it was. *)

Inductive cmd : Type :=
| CRecord (now : Instant) (t : HarnessTurn)
| CAppend (events : list HarnessServerEvent.t)
| CSettle (now : Instant) (status : TurnStatus.t)
| CAppendTo (index : nat) (events : list HarnessServerEvent.t)
| CSettleAt (now : Instant) (index : nat) (status : TurnStatus.t)
| CSelect (at_ : nat)
| CApply (at_ : nat)
| CRelease (at_ : nat)
| CDiscard (at_ : nat)
| CRewind (index : nat)
| CRestore (cp : Checkpoint).

Definition or_same {E} (s : LedgerState) (r : result E LedgerState) : LedgerState :=
  match r with Ok s' => s' | Err _ => s end.

Definition exec (c : cmd) s : LedgerState :=
  match c with
  | CRecord now t => (record_turn now t s).1
  | CAppend events => or_same s (append_events events s)
  | CSettle now status => or_same s (settle_turn now status s)
  | CAppendTo index events => or_same s (append_events_to index events s)
  | CSettleAt now index status => or_same s (settle_turn_at now index status s)
  | CSelect at_ => or_same s (select at_ s)
  | CApply at_ => or_same s (result_map fst (apply at_ s))
  | CRelease at_ => or_same s (result_map fst (release at_ s))
  | CDiscard at_ => or_same s (result_map fst (discard at_ s))
  | CRewind index => (rewind_to index s).1
  | CRestore cp => restore cp s
  end.

Definition exec_all (cs : list cmd) s : LedgerState := foldl (fun s c => exec c s) s cs.

(** The type invariant the data declares: positions are 0-based and contiguous. *)
Definition contiguous (ts : list TurnRecord) : Prop :=
  forall i r, ts !! i = Some r -> rec_index r = i.

(** A command carries well-formed data: a restored checkpoint is contiguous. *)
Definition cmd_ok (c : cmd) : Prop :=
  match c with CRestore cp => contiguous (cp_turns cp) | _ => True end.

(** The settlement marker names a turn of the transcript. *)
Definition selected_in_range s : Prop :=
  forall i, led_selected s = Some i -> i < length (led_turns s).

Definition is_rewind (c : cmd) : bool :=
  match c with CRewind _ => true | _ => false end.
Definition is_select (c : cmd) : bool :=
  match c with CSelect _ => true | _ => false end.

(** ** Lemmas: the well-formedness of a transcript *)

Lemma contiguous_nil : contiguous [].
Proof. by intros i r Hr. Qed.

Lemma contiguous_take n ts : contiguous ts -> contiguous (take n ts).
Proof. intros Hts i r [Hr _]%lookup_take_Some. by apply Hts. Qed.

Lemma contiguous_alter f i ts :
  (forall r, rec_index (f r) = rec_index r) -> contiguous ts -> contiguous (alter f i ts).
Proof.
  intros Hf Hts j r. destruct (decide (i = j)) as [->|Hne].
  - rewrite list_lookup_alter_eq. intros (r' & Hr & ->)%fmap_Some. rewrite Hf. by apply Hts.
  - rewrite list_lookup_alter_ne by done. apply Hts.
Qed.

Lemma contiguous_snoc r ts :
  rec_index r = length ts -> contiguous ts -> contiguous (ts ++ [r]).
Proof.
  intros Hr Hts i r' Hi. apply lookup_app_Some in Hi as [Hi|[Hle Hi]]; [by apply Hts|].
  apply list_lookup_singleton_Some in Hi as [Hi <-]. rewrite Hr. lia.
Qed.

Lemma alter_last_alter f (ts ts' : list TurnRecord) :
  alter_last f ts = Some ts' -> exists i, ts' = alter f i ts.
Proof. intros [_ ->]%alter_last_Some. by eexists. Qed.

(** A command either overwrites the ledger with a checkpoint, records a turn at
    its end, cuts a prefix of it, or edits the events and status of one turn. *)
Variant transcript_change (ts : list TurnRecord) : cmd -> list TurnRecord -> Prop :=
| TCRestore cp : transcript_change ts (CRestore cp) (cp_turns cp)
| TCRecord now t r : rec_index r = length ts -> transcript_change ts (CRecord now t) (ts ++ [r])
| TCCut c n : transcript_change ts c (take n ts)
| TCEdit c f i :
    (forall r, rec_index (f r) = rec_index r /\ rec_turn (f r) = rec_turn r) ->
    transcript_change ts c (alter f i ts)
| TCSame c : transcript_change ts c ts.

Lemma exec_transcript c s : transcript_change (led_turns s) c (led_turns (exec c s)).
Proof.
  destruct c; simpl;
    unfold append_events, settle_turn, append_events_to, settle_turn_at, with_turn_at,
      select, apply, release, discard, rewind_to;
    repeat case_match; simplify_eq/=; try (by constructor).
  all: match goal with H : alter_last _ _ = Some _ |- _ =>
         apply alter_last_alter in H as [? ->] end; by constructor.
Qed.

Lemma exec_contiguous c s :
  cmd_ok c -> contiguous (led_turns s) -> contiguous (led_turns (exec c s)).
Proof.
  intros Hok Hs. destruct (exec_transcript c s) as [cp|now t r Hr|c n|c f i Hf|c];
    [done|by apply contiguous_snoc|by apply contiguous_take| |done].
  apply contiguous_alter; [|done]. intros r. apply Hf.
Qed.

(** ** Lemmas: lookups after a command *)

Lemma with_turn_at_Ok i f s :
  i < len s -> with_turn_at i f s = Ok (set_turns (alter f i (led_turns s)) s).
Proof. intros Hi. unfold with_turn_at. by destruct (lookup_lt_is_Some_2 _ _ Hi) as [r ->]. Qed.

Lemma with_turn_at_Err i f s :
  len s <= i -> with_turn_at i f s = Err (ReplayError.IndexOutOfRange i (len s)).
Proof. intros Hi. unfold with_turn_at. by rewrite lookup_ge_None_2. Qed.

Lemma select_Ok at_ s : at_ < len s -> select at_ s = Ok (set_selected (Some at_) s).
Proof. intros. unfold select. rewrite bool_decide_false; [done|]. unfold len in *. lia. Qed.

Lemma rewind_turns k s : led_turns (rewind_to k s).1 = take k (led_turns s).
Proof.
  unfold rewind_to. case_bool_decide; simpl; [|done]. by rewrite take_ge.
Qed.

Lemma rewind_removed k s : (rewind_to k s).2 = len s - k.
Proof. unfold rewind_to, len. case_bool_decide; simpl; lia. Qed.

Lemma replay_drop k s : replay k s = drop k (led_turns s) ≫= rec_events.
Proof.
  unfold replay. destruct (decide (k <= len s)) as [Hk|Hk]; unfold len in Hk.
  - by rewrite Nat.min_l.
  - rewrite Nat.min_r, !drop_ge by lia. done.
Qed.

Lemma replay_0 s : replay 0 s = led_turns s ≫= rec_events.
Proof. by rewrite replay_drop. Qed.

Lemma restore_checkpoint now s s' : restore (checkpoint now s) s' = set_selected None s.
Proof. done. Qed.

Lemma bind_take_drop {A B} (f : A -> list B) k l :
  l ≫= f = (take k l ≫= f) ++ (drop k l ≫= f).
Proof. by rewrite <- bind_app, take_drop. Qed.

Lemma alter_rec_turn f j i (ts : list TurnRecord) :
  (forall r, rec_turn (f r) = rec_turn r) ->
  rec_turn <$> (alter f j ts !! i) = rec_turn <$> (ts !! i).
Proof.
  intros Hf. destruct (decide (j = i)) as [->|Hne].
  - rewrite list_lookup_alter_eq. destruct (ts !! i); simpl; [by rewrite Hf|done].
  - by rewrite list_lookup_alter_ne.
Qed.

(** The marker either stays, and the turn it names keeps its request, or is
    moved by a [select], or cleared. *)
Lemma exec_selected c s i :
  is_rewind c = false -> is_select c = false -> selected_in_range s ->
  led_selected (exec c s) = Some i ->
  led_selected s = Some i /\
  rec_turn <$> (led_turns (exec c s) !! i) = rec_turn <$> (led_turns s !! i).
Proof.
  intros Hrw Hsel Hin. destruct c; try done; simpl;
    unfold append_events, settle_turn, append_events_to, settle_turn_at, with_turn_at,
      apply, release, discard;
    repeat case_match; simplify_eq/=; intros Hi; simplify_eq/=; try done; (split; [done|]).
  - by rewrite lookup_app_l by (by apply Hin).
  - apply alter_last_Some in H as [_ ->]. by apply alter_rec_turn.
  - apply alter_last_Some in H as [_ ->]. by apply alter_rec_turn.
  - by apply alter_rec_turn.
  - by apply alter_rec_turn.
Qed.

Lemma exec_selected_in_range c s :
  is_rewind c = false -> selected_in_range s -> selected_in_range (exec c s).
Proof.
  intros Hrw Hin. destruct c; try done; simpl;
    unfold append_events, settle_turn, append_events_to, settle_turn_at, with_turn_at,
      select, apply, release, discard;
    repeat case_match; simplify_eq/=; try done; intros i Hi; simplify_eq/=;
    bool_to_prop; try (apply Hin in Hi); autorewrite with goble_len; simpl; try lia.
  all: match goal with H : alter_last _ _ = Some _ |- _ =>
         apply alter_last_Some in H as [_ ->] end; by rewrite length_alter.
Qed.

(** ** Properties *)

(** Whatever sequence of commands a fresh ledger goes through, refused
    commands included, its turns are numbered 0, 1, 2, ... by position, as
    [TurnRecord::index] documents. *)
Theorem history_contiguous (id : SessionId) (cs : list cmd) (Hok : Forall cmd_ok cs) :
  contiguous (turns (exec_all cs (new id))).
Proof.
  unfold turns, exec_all. enough (forall s, contiguous (led_turns s) ->
    contiguous (led_turns (foldl (fun s c => exec c s) s cs))) as H by (by apply H).
  induction Hok as [|c cs Hc _ IH]; intros s Hs; simpl; [done|].
  apply IH. by apply exec_contiguous.
Qed.

(** a rewind keeps exactly the first [k] turns and reports how many it
    dropped, and splits the replayed trajectory: what the ledger replayed before
    is what it replays after, followed by the replay of the dropped tail. *)
Theorem rewind_splits_replay (k : nat) (s : LedgerState) :
  let '(s', removed) := rewind_to k s in
  turns s' = take k (turns s) /\
  removed = len s - len s' /\
  session_id s' = session_id s /\
  replay 0 s = replay 0 s' ++ replay k s.
Proof.
  pose proof (rewind_turns k s) as Ht. pose proof (rewind_removed k s) as Hr.
  assert (led_session_id (rewind_to k s).1 = led_session_id s) as Hid
    by (unfold rewind_to; by case_bool_decide).
  destruct (rewind_to k s) as [s' removed]; simpl in *. subst removed.
  rewrite !replay_drop. unfold turns, len, session_id. rewrite Ht, Hid. split_and!; [done| |done|].
  - rewrite length_take. lia.
  - rewrite !drop_0. apply bind_take_drop.
Qed.

(** The ways to go back to index [k] agree on the transcript: rewinding,
    forking, restoring the checkpoint taken at [k], discarding candidate [k] and
    applying candidate [k - 1] all leave the first [k] turns, and both
    settlements report the same number of removed turns. *)
Theorem branch_points_agree (k : nat) (now : Instant) (id : SessionId) (s : LedgerState)
    (Hk : 0 < k < len s) :
  turns (rewind_to k s).1 = take k (turns s) /\
  turns (fork k id s) = take k (turns s) /\
  cp_at (checkpoint_at now k s) = k /\
  turns (from_checkpoint (checkpoint_at now k s)) = take k (turns s) /\
  (exists sd, discard k s = Ok (sd, len s - k) /\ turns sd = take k (turns s)) /\
  (exists s1 s2, select (k - 1) s = Ok s1 /\ apply (k - 1) s1 = Ok (s2, len s - k) /\
     turns s2 = take k (turns s) /\ selected s2 = None).
Proof.
  unfold turns, len in *. split_and!.
  - apply rewind_turns.
  - simpl. by rewrite Nat.min_l by lia.
  - simpl. lia.
  - simpl. by rewrite Nat.min_l by lia.
  - unfold discard. rewrite bool_decide_false by lia. by eexists.
  - exists (set_selected (Some (k - 1)) s). rewrite select_Ok by (unfold len; lia).
    unfold apply; simpl. rewrite !bool_decide_false by (lia || naive_solver).
    eexists. split_and!; [done|do 2 f_equal; lia| |done].
    simpl. unfold truncate. f_equal. lia.
Qed.

(** an indexed append lands on its own turn and nowhere else, or fails
    without effect; so the appends of two turns running at once commute. *)
Theorem indexed_appends_commute (i j : nat) (e1 e2 : list HarnessServerEvent.t)
    (s : LedgerState) (Hne : i <> j) :
  exec (CAppendTo j e2) (exec (CAppendTo i e1) s)
    = exec (CAppendTo i e1) (exec (CAppendTo j e2) s) /\
  (forall s', append_events_to i e1 s = Ok s' ->
     forall n, turn s' n = (if decide (n = i) then extend_events e1 else id) <$> turn s n) /\
  (forall e, append_events_to i e1 s = Err e ->
     e = ReplayError.IndexOutOfRange i (len s) /\ len s <= i).
Proof.
  split_and!.
  - unfold exec, append_events_to, with_turn_at.
    destruct (led_turns s !! i) eqn:Hi, (led_turns s !! j) eqn:Hj; simpl;
      rewrite ?list_lookup_alter_ne, ?Hi, ?Hj by done; simpl; try done.
    by rewrite list_alter_alter_ne.
  - unfold append_events_to, with_turn_at, turn. intros s' Hs n.
    destruct (led_turns s !! i); simplify_eq; simpl. case_decide; subst.
    + apply list_lookup_alter_eq.
    + rewrite list_lookup_alter_ne by done. by destruct (led_turns s !! n).
  - intros e He. destruct (decide (i < len s)) as [Hi|Hi].
    + unfold append_events_to in He. by rewrite with_turn_at_Ok in He.
    + unfold append_events_to in He. rewrite with_turn_at_Err in He by lia.
      simplify_eq. split; [done|lia].
Qed.

(** as long as no rewind intervenes, a marker that survives a history still
    names the turn that was selected: applying it commits that turn. *)
Theorem selected_turn_is_committed (at_ : nat) (s s1 : LedgerState) (cs : list cmd)
    (Hsel : select at_ s = Ok s1)
    (Hcs : Forall (fun c => is_rewind c = false /\ is_select c = false) cs)
    (Hstill : selected (exec_all cs s1) <> None) :
  exists s2, apply at_ (exec_all cs s1) = Ok (s2, len (exec_all cs s1) - at_ - 1) /\
    rec_turn <$> turn s2 at_ = rec_turn <$> turn s at_ /\ is_Some (turn s2 at_).
Proof.
  assert (at_ < len s /\ s1 = set_selected (Some at_) s) as [Hlt ->].
  { unfold select in Hsel. case_bool_decide; simplify_eq. unfold len. split; [lia|done]. }
  assert (forall s1, selected_in_range s1 -> led_selected (exec_all cs s1) <> None ->
    selected_in_range (exec_all cs s1) /\ exists i, led_selected s1 = Some i /\
    led_selected (exec_all cs s1) = Some i /\
    rec_turn <$> (led_turns (exec_all cs s1) !! i) = rec_turn <$> (led_turns s1 !! i)) as Hgen.
  { clear -Hcs. 
    induction Hcs as [|c cs [Hr Hs] _ IH]; intros s1 Hin Hne; simpl in *.
    { split; [done|]. destruct (led_selected s1); [by eexists|done]. }
    destruct (IH (exec c s1)) as (Hin' & i & Hi & Hi' & Hturn); [|done|].
    { by apply exec_selected_in_range. }
    split; [done|]. destruct (exec_selected c s1 i) as [Hsi Hst]; [done..|].
    exists i. split_and!; [done..|]. by rewrite Hturn. }
  destruct (Hgen (set_selected (Some at_) s)) as (Hin & i & Hi & Hi' & Hturn); [|done|].
  { intros j [= <-]. done. }
  simpl in Hi, Hturn. simplify_eq. specialize (Hin _ Hi').
  unfold apply. rewrite !bool_decide_false by (lia || naive_solver).
  eexists. split; [done|]. unfold turn; simpl. rewrite lookup_truncate_lt by lia.
  split; [done|]. by apply lookup_lt_is_Some_2.
Qed.

End ledger.
End ReplayLedger.

(** ** Witnesses *)

Module ReplayWitness.
Import ReplayLedger.
#[local] Existing Instance demo_externs.

Definition demo_turn (goal : string) : HarnessTurn :=
  new_turn (mkHarnessId (lit "mock")) (mkSessionId (lit "s1")) (lit goal).

Definition demo_history : list cmd :=
  [CRecord 0 (demo_turn "a"); CAppend [HarnessServerEvent.Done (mkSessionId (lit "s1"))];
   CSettle 1 TurnStatus.Success; CRecord 2 (demo_turn "b"); CRecord 3 (demo_turn "c")].

Definition demo_ledger : LedgerState := exec_all demo_history (new (mkSessionId (lit "s1"))).

(** After [select 2], a rewind to 1 and two new turns, the marker still reads 2
    and [apply 2] commits turn ["e"], recorded after the selection: nobody
    selected it. *)
Theorem rewind_keeps_stale_selection :
  let s := exec_all [CSelect 2; CRewind 1] demo_ledger in
  let s' := exec_all [CRecord 4 (demo_turn "d"); CRecord 5 (demo_turn "e")] s in
  selected s = Some 2 /\ len s = 1 /\
  exists s2, apply 2 s' = Ok (s2, 0) /\ rec_turn <$> turn s2 2 = Some (demo_turn "e").
Proof. split_and!; [done..|]. eexists. by vm_compute. Qed.

Theorem history_contiguous_witness : contiguous (turns demo_ledger).
Proof. apply (history_contiguous (mkSessionId (lit "s1")) demo_history). by repeat constructor. Defined.

Theorem branch_points_agree_witness :
  0 < 2 < len demo_ledger /\
  exists sd, discard 2 demo_ledger = Ok (sd, 1).
Proof.
  split; [vm_compute; lia|].
  destruct (@branch_points_agree demo_externs 2 7 (mkSessionId (lit "s2")) demo_ledger) as (_ & _ & _ & _ & H & _).
  - vm_compute. lia.
  - destruct H as (sd & Hsd & _). by exists sd.
Defined.

Theorem indexed_appends_commute_witness :
  exec (CAppendTo 1 []) (exec (CAppendTo 0 []) demo_ledger)
    = exec (CAppendTo 0 []) (exec (CAppendTo 1 []) demo_ledger).
Proof. apply (indexed_appends_commute 0 1 [] [] demo_ledger). lia. Defined.

Theorem selected_turn_is_committed_witness :
  exists s2, apply 1 (exec_all [CAppendTo 1 []] (set_selected (Some 1) demo_ledger)) = Ok (s2, 1) /\
    rec_turn <$> turn s2 1 = rec_turn <$> turn demo_ledger 1.
Proof.
  destruct (selected_turn_is_committed 1 demo_ledger (set_selected (Some 1) demo_ledger)
    [CAppendTo 1 []]) as (s2 & H1 & H2 & _).
  - reflexivity.
  - by repeat constructor.
  - done.
  - by exists s2.
Defined.
End ReplayWitness.
