(* ===== verification/HarnessRuntime.v ===== *)
(** * [crates/goble-harness-runtime]: the execution contract of a harness

    A harness is any type implementing the [HarnessRuntime] trait: the class
    below, over the harness's own state.  A [HarnessRun] is the stream of events
    one call produces, here the finite list of them. *)

From S2P Require Import Prelude HarnessTypes HarnessProtocol.

(** ** The trait *)

Class HarnessRuntime {X : Externs} (H : Type) : Type := {
  h_id : H -> HarnessId;
  h_capabilities : H -> HarnessCapabilities;
  h_run : HarnessTurn -> H -> H * list HarnessServerEvent.t;
  h_cancel : H -> H;
  h_resume : SessionId -> Str -> option (Str * Str) -> H -> H * option (list HarnessServerEvent.t);
  h_resume_command : SessionId -> CommandDecision.t -> H -> H * option (list HarnessServerEvent.t);
  h_snapshot : SessionId -> H -> option HarnessSnapshot;
  h_restore : SessionId -> HarnessSnapshot -> H -> H * option (list HarnessServerEvent.t);
  h_set_workspace_dir : Str -> H -> H * bool;
}.

(** ** The registry

    [HarnessRegistry] maps an id to an [Arc<dyn HarnessRuntime>]: the model keeps,
    for an id, what the map holds for it ([V] is a harness or a handle on one). *)

Module HarnessRegistry.
Section registry.
Context {V : Type}.

Definition register (id : HarnessId) (harness : V) (inner : gmap HarnessId V) : gmap HarnessId V :=
  <[id := harness]> inner.
Definition resolve (id : HarnessId) (inner : gmap HarnessId V) : option V := inner !! id.
(** Ids in the map's own order (a [HashMap]'s is unspecified). *)
Definition list (inner : gmap HarnessId V) : list HarnessId := (map_to_list inner).*1.
End registry.
End HarnessRegistry.

(** ** The scripted harness *)

Record MockHarness : Type := mkMockHarness { mock_id : HarnessId; mock_reply : Str }.

Definition mock_run {X : Externs} (turn : HarnessTurn) (h : MockHarness)
    : list HarnessServerEvent.t :=
  let session_id := turn_session_id turn in
  [HarnessServerEvent.AssistantDelta session_id (mock_reply h);
   HarnessServerEvent.Done session_id].

(** The trait's default methods are what [MockHarness] inherits. *)
#[export] Instance MockHarness_runtime {X : Externs} : HarnessRuntime MockHarness := {
  h_id := mock_id;
  h_capabilities _ := capabilities_internal;
  h_run turn h := (h, mock_run turn h);
  h_cancel h := h;
  h_resume _ _ _ h := (h, None);
  h_resume_command _ _ h := (h, None);
  h_snapshot _ _ := None;
  h_restore _ _ h := (h, None);
  h_set_workspace_dir _ h := (h, false);
}.
