(* ===== verification/Daemon.v ===== *)
(** * [crates/goble-daemon]: the daemon state and its port

    [DaemonState] owns the harness registry, the live sessions, the transcript
    ledgers, the environment-snapshot log and the sinks.  Each [DaemonPort]
    method is a function from the state (and the replies of the code it calls)
    to the state and its result; [spawn_stream]'s task is an entry of
    [d_tasks] that advances one event at a time ([task_event]) and ends once
    ([task_end]).  Tasks and port calls interleave freely: [label] and [step].

    A harness is outside the model: what it answers (whether it resumes, the
    snapshot it produces, the events it streams) is an input of the step, and
    every call the daemon makes on it is logged in [d_calls]. *)

From S2P Require Import Prelude HarnessTypes HarnessProtocol Replay HarnessRuntime.

(** ** Data *)

Section data.
Context {X : Externs}.

(** What the daemon reads of an [Arc<dyn HarnessRuntime>]. *)
Record HarnessRef : Type := mkHarnessRef {
  hr_id : HarnessId;
  hr_capabilities : HarnessCapabilities;
}.

(** A call made on a harness. *)
Inductive HarnessCall : Type :=
| CallSetWorkspaceDir (h : HarnessRef) (dir : Str)
| CallRun (h : HarnessRef) (turn : HarnessTurn)
| CallResume (h : HarnessRef) (session_id : SessionId) (response : Str)
    (credential : option (Str * Str))
| CallResumeCommand (h : HarnessRef) (session_id : SessionId) (decision : CommandDecision.t)
| CallCancel (h : HarnessRef)
| CallSnapshot (h : HarnessRef) (session_id : SessionId)
| CallRestore (h : HarnessRef) (session_id : SessionId) (snapshot : HarnessSnapshot).

Record ExecutionRecord : Type := mkExecutionRecord {
  ex_session_id : SessionId;
  ex_trace_id : Str;
  ex_status : Str;
  ex_started_at : Str;
  ex_finished_at : option Str;
  ex_events : list DaemonEvent.t;
  ex_project_id : ProjectId;
  ex_medium_id : MediumId;
}.

(** The [Mutex] and [AtomicBool] cells of a [SessionState]. *)
Record SessionCells : Type := mkSessionCells {
  sc_cancel : bool;
  sc_status : Str;
  sc_finished_at : option Str;
  sc_events : list DaemonEvent.t;
}.

(** An [Arc<SessionState>]: its immutable fields, the location of its cells and
    that of the ledger it records into. *)
Record SessionState : Type := mkSessionState {
  ss_session_id : SessionId;
  ss_project_id : ProjectId;
  ss_medium_id : MediumId;
  ss_harness : HarnessRef;
  ss_trace_id : Str;
  ss_started_at : Str;
  ss_cells : nat;
  ss_ledger : nat;
  ss_turn_index : nat;
}.

(** A [spawn_stream] task and its local variables. *)
Record Task : Type := mkTask {
  tk_session_id : SessionId;
  tk_trace_id : Str;
  tk_state : SessionState;
  tk_final_status : Str;
  tk_final_error : option Str;
}.

Record DaemonState : Type := mkDaemonState {
  d_registry : gmap HarnessId HarnessRef;
  d_sessions : gmap SessionId SessionState;
  d_cells : store SessionCells;
  d_ledgers : gmap SessionId nat;
  d_ledger_store : store LedgerState;
  d_checkpoint_sink : option (list Checkpoint);  (** what an attached sink got *)
  d_snapshots : gmap SessionId (list (option HarnessSnapshot));
  d_sink : list DaemonEvent.t;  (** events emitted, oldest first *)
  d_workspace_root : option Str;
  d_tasks : gmap nat Task;
  d_next_task : nat;
  d_calls : list HarnessCall;  (** calls made on harnesses, oldest first *)
}.
End data.

Module Daemon.
Section daemon.
Context {X : Externs}.
Implicit Types (d : DaemonState) (sid : SessionId).

(** ** Field updates *)

Definition set_registry x d := mkDaemonState x (d_sessions d) (d_cells d) (d_ledgers d)
  (d_ledger_store d) (d_checkpoint_sink d) (d_snapshots d) (d_sink d) (d_workspace_root d)
  (d_tasks d) (d_next_task d) (d_calls d).
Definition set_sessions x d := mkDaemonState (d_registry d) x (d_cells d) (d_ledgers d)
  (d_ledger_store d) (d_checkpoint_sink d) (d_snapshots d) (d_sink d) (d_workspace_root d)
  (d_tasks d) (d_next_task d) (d_calls d).
Definition set_cells x d := mkDaemonState (d_registry d) (d_sessions d) x (d_ledgers d)
  (d_ledger_store d) (d_checkpoint_sink d) (d_snapshots d) (d_sink d) (d_workspace_root d)
  (d_tasks d) (d_next_task d) (d_calls d).
Definition set_ledgers x d := mkDaemonState (d_registry d) (d_sessions d) (d_cells d) x
  (d_ledger_store d) (d_checkpoint_sink d) (d_snapshots d) (d_sink d) (d_workspace_root d)
  (d_tasks d) (d_next_task d) (d_calls d).
Definition set_ledger_store x d := mkDaemonState (d_registry d) (d_sessions d) (d_cells d)
  (d_ledgers d) x (d_checkpoint_sink d) (d_snapshots d) (d_sink d) (d_workspace_root d)
  (d_tasks d) (d_next_task d) (d_calls d).
Definition set_checkpoint_sink_log x d := mkDaemonState (d_registry d) (d_sessions d)
  (d_cells d) (d_ledgers d) (d_ledger_store d) x (d_snapshots d) (d_sink d)
  (d_workspace_root d) (d_tasks d) (d_next_task d) (d_calls d).
Definition set_snapshots x d := mkDaemonState (d_registry d) (d_sessions d) (d_cells d)
  (d_ledgers d) (d_ledger_store d) (d_checkpoint_sink d) x (d_sink d) (d_workspace_root d)
  (d_tasks d) (d_next_task d) (d_calls d).
Definition set_workspace_root x d := mkDaemonState (d_registry d) (d_sessions d) (d_cells d)
  (d_ledgers d) (d_ledger_store d) (d_checkpoint_sink d) (d_snapshots d) (d_sink d) x
  (d_tasks d) (d_next_task d) (d_calls d).
Definition set_tasks x d := mkDaemonState (d_registry d) (d_sessions d) (d_cells d)
  (d_ledgers d) (d_ledger_store d) (d_checkpoint_sink d) (d_snapshots d) (d_sink d)
  (d_workspace_root d) x (d_next_task d) (d_calls d).

(** [self.sink.emit(event)]. *)
Definition emit (ev : DaemonEvent.t) d := mkDaemonState (d_registry d) (d_sessions d)
  (d_cells d) (d_ledgers d) (d_ledger_store d) (d_checkpoint_sink d) (d_snapshots d)
  (d_sink d ++ [ev]) (d_workspace_root d) (d_tasks d) (d_next_task d) (d_calls d).
(** A method call on a harness. *)
Definition call (c : HarnessCall) d := mkDaemonState (d_registry d) (d_sessions d)
  (d_cells d) (d_ledgers d) (d_ledger_store d) (d_checkpoint_sink d) (d_snapshots d)
  (d_sink d) (d_workspace_root d) (d_tasks d) (d_next_task d) (d_calls d ++ [c]).
(** [tokio::spawn]. *)
Definition spawn (t : Task) d := mkDaemonState (d_registry d) (d_sessions d)
  (d_cells d) (d_ledgers d) (d_ledger_store d) (d_checkpoint_sink d) (d_snapshots d)
  (d_sink d) (d_workspace_root d) (<[d_next_task d := t]> (d_tasks d)) (S (d_next_task d))
  (d_calls d).

(** ** Construction and wiring *)

Definition new (registry : gmap HarnessId HarnessRef) : DaemonState :=
  {| d_registry := registry;
     d_sessions := ∅;
     d_cells := mkStore (fun _ => mkSessionCells false [] None []) 0;
     d_ledgers := ∅;
     d_ledger_store := mkStore (fun _ => ReplayLedger.new (mkSessionId [])) 0;
     d_checkpoint_sink := None;
     d_snapshots := ∅;
     d_sink := [];
     d_workspace_root := None;
     d_tasks := ∅;
     d_next_task := 0;
     d_calls := [] |}.

Definition with_workspace_root (root : Str) d : DaemonState := set_workspace_root (Some root) d.

(** Attach a fresh sink, or clear it. *)
Definition set_checkpoint_sink (attached : bool) d : DaemonState :=
  set_checkpoint_sink_log (if attached then Some [] else None) d.

Definition register (harness : HarnessRef) d : DaemonState :=
  set_registry (HarnessRegistry.register (hr_id harness) harness (d_registry d)) d.

Definition restore_checkpoint (cp : Checkpoint) d : DaemonState :=
  let '(h, l) := alloc (ReplayLedger.from_checkpoint cp) (d_ledger_store d) in
  set_ledgers (<[cp_session_id cp := l]> (d_ledgers d)) (set_ledger_store h d).

Definition snapshot_log sid d : list (option HarnessSnapshot) :=
  default [] (d_snapshots d !! sid).

(** The session's ledger, created and remembered when the session has none. *)
Definition ledger sid d : DaemonState * nat :=
  match d_ledgers d !! sid with
  | Some l => (d, l)
  | None =>
      let '(h, l) := alloc (ReplayLedger.new sid) (d_ledger_store d) in
      (set_ledgers (<[sid := l]> (d_ledgers d)) (set_ledger_store h d), l)
  end.

(** The contents of a ledger, and a method call on one that changes it. *)
Definition read_ledger (l : nat) d : LedgerState := cells (d_ledger_store d) l.
Definition write_ledger (l : nat) (s : LedgerState) d : DaemonState :=
  set_ledger_store (update l (fun _ => s) (d_ledger_store d)) d.

(** ** Messages *)

Definition no_harness (id : HarnessId) : Str := lit "no harness resolved for " ++ harness_id_0 id.
Definition no_live_session sid : Str := lit "no live session for " ++ session_id_0 sid.
Definition live_session sid : Str :=
  lit "session " ++ session_id_0 sid ++ lit " is live; cancel or let it settle before rewinding".
Definition candidate_error (e : ReplayError.t) : Str :=
  match e with
  | ReplayError.NoTurn => lit "no turn has been recorded yet"
  | ReplayError.IndexOutOfRange requested n =>
      lit "checkpoint index " ++ show_N (N.of_nat requested) ++ lit " is out of range (ledger has "
      ++ show_N (N.of_nat n) ++ lit " turns)"
  | ReplayError.CandidateNotSelected at_ selected =>
      lit "candidate turn " ++ show_N (N.of_nat at_)
      ++ lit " is not the currently selected candidate (selected: "
      ++ match selected with
         | Some i => lit "Some(" ++ show_N (N.of_nat i) ++ lit ")"
         | None => lit "None"
         end ++ lit ")"
  end.

(** ** The stream task: [streams.rs] *)

Definition RUNNING : Str := lit "running".
Definition SUCCESS : Str := lit "success".
Definition FAILED : Str := lit "failed".

Definition spawn_stream sid (trace_id : Str) (state : SessionState) d : DaemonState :=
  spawn {| tk_session_id := sid;
           tk_trace_id := trace_id;
           tk_state := state;
           tk_final_status := RUNNING;
           tk_final_error := None |} d.

(** [final_status] and [final_error] after one mapped event. *)
Definition observe (ev : DaemonEvent.t) (t : Task) : Task :=
  match ev with
  | DaemonEvent.Done _ =>
      mkTask (tk_session_id t) (tk_trace_id t) (tk_state t) SUCCESS (tk_final_error t)
  | DaemonEvent.Error _ message =>
      mkTask (tk_session_id t) (tk_trace_id t) (tk_state t) FAILED (Some message)
  | _ => t
  end.

Definition push_event (ev : DaemonEvent.t) (c : SessionCells) : SessionCells :=
  mkSessionCells (sc_cancel c) (sc_status c) (sc_finished_at c) (sc_events c ++ [ev]).

(** [let _ = ledger.append_events_to(..)]: an out-of-range index is ignored. *)
Definition ledger_append (l index : nat) (evs : list HarnessServerEvent.t) d : DaemonState :=
  match ReplayLedger.append_events_to index evs (read_ledger l d) with
  | Ok s => write_ledger l s d
  | Err _ => d
  end.

Definition ledger_settle now (l index : nat) (status : TurnStatus.t) d : DaemonState :=
  match ReplayLedger.settle_turn_at now index status (read_ledger l d) with
  | Ok s => write_ledger l s d
  | Err _ => d
  end.

(** One turn of the task's [while let Some(ev) = stream.next().await] loop. *)
Definition task_event (tid : nat) (ev : HarnessServerEvent.t) d : DaemonState :=
  match d_tasks d !! tid with
  | None => d
  | Some t =>
      let state := tk_state t in
      let d := ledger_append (ss_ledger state) (ss_turn_index state) [ev] d in
      match map_event ev with
      | None => d
      | Some daemon_event =>
          let d := set_tasks (<[tid := observe daemon_event t]> (d_tasks d)) d in
          let d := set_cells (update (ss_cells state) (push_event daemon_event) (d_cells d)) d in
          emit daemon_event d
      end
  end.

Definition settled_status (t : Task) : TurnStatus.t :=
  if bool_decide (tk_final_status t = SUCCESS) then TurnStatus.Success
  else TurnStatus.Failed (default FAILED (tk_final_error t)).

(** The session's snapshot log with [snapshot] at [index], grown if need be. *)
Definition log_snapshot sid (index : nat) (snapshot : option HarnessSnapshot) d : DaemonState :=
  let log := snapshot_log sid d in
  let log := if bool_decide (length log <= index) then vec_resize (S index) None log else log in
  set_snapshots (<[sid := <[index := snapshot]> log]> (d_snapshots d)) d.

Definition persist (cp : Checkpoint) d : DaemonState :=
  match d_checkpoint_sink d with
  | Some got => set_checkpoint_sink_log (Some (got ++ [cp])) d
  | None => d
  end.

Definition finish_cells (now : Instant) (status : Str) (c : SessionCells) : SessionCells :=
  mkSessionCells (sc_cancel c) status (Some (to_rfc3339 now)) (sc_events c).

(** Capture the environment snapshot of a reversible harness; [answer] is what
    its [snapshot] returns. *)
Definition capture_snapshot (h : HarnessRef) sid (answer : option HarnessSnapshot) d
    : DaemonState * option HarnessSnapshot :=
  if cap_reversible (hr_capabilities h) then (call (CallSnapshot h sid) d, answer)
  else (d, None).

(** The rest of the task once its stream has ended. The clock is read when the
    turn settles, when the checkpoint is made and when the session finishes. *)
Definition task_end (tid : nat) (answer : option HarnessSnapshot)
    (now_settle now_checkpoint now_finish : Instant) d : DaemonState :=
  match d_tasks d !! tid with
  | None => d
  | Some t =>
      let d := set_tasks (delete tid (d_tasks d)) d in
      let state := tk_state t in
      let sid := tk_session_id t in
      if bool_decide (tk_final_status t = RUNNING) then d
      else
        let d := ledger_settle now_settle (ss_ledger state) (ss_turn_index state)
                   (settled_status t) d in
        let '(d, snapshot) := capture_snapshot (ss_harness state) sid answer d in
        let d := log_snapshot sid (ss_turn_index state) snapshot d in
        let d := persist (ReplayLedger.checkpoint now_checkpoint (read_ledger (ss_ledger state) d)) d in
        let d := set_cells (update (ss_cells state) (finish_cells now_finish (tk_final_status t))
                   (d_cells d)) d in
        let d := emit (DaemonEvent.TraceFinished sid (tk_trace_id t) (tk_final_status t)
                   (ss_project_id state) (ss_medium_id state)) d in
        set_sessions (delete sid (d_sessions d)) d
  end.

(** ** [DaemonPort]: [port.rs] *)

(** [run]: [mkdir] is what [create_dir_all] answers for the session's workspace,
    [now_record] and [now_start] the two clock readings. *)
Definition prepare_workspace (harness : HarnessRef) (trace_id : Str) (mkdir : result Str unit) d
    : result Str DaemonState :=
  match d_workspace_root d with
  | None => Ok d
  | Some root =>
      let dir := path_join (path_join root (lit "harness")) trace_id in
      (let? _ := mkdir in Ok (call (CallSetWorkspaceDir harness dir) d))%goble
  end.

Definition run (now_record now_start : Instant) (mkdir : result Str unit) (turn : HarnessTurn) d
    : DaemonState * result Str unit :=
  match HarnessRegistry.resolve (turn_harness_id turn) (d_registry d) with
  | None => (d, Err (no_harness (turn_harness_id turn)))
  | Some harness =>
      let sid := turn_session_id turn in
      let trace_id := lit "trace-" ++ session_id_0 sid in
      match prepare_workspace harness trace_id mkdir d with
      | Err e => (d, Err e)
      | Ok d =>
          let '(d, l) := ledger sid d in
          let '(s, turn_index) := ReplayLedger.record_turn now_record turn (read_ledger l d) in
          let d := write_ledger l s d in
          let '(h, c) := alloc (mkSessionCells false RUNNING None []) (d_cells d) in
          let d := set_cells h d in
          let state := {| ss_session_id := sid;
                          ss_project_id := turn_project_id turn;
                          ss_medium_id := turn_medium_id turn;
                          ss_harness := harness;
                          ss_trace_id := trace_id;
                          ss_started_at := to_rfc3339 now_start;
                          ss_cells := c;
                          ss_ledger := l;
                          ss_turn_index := turn_index |} in
          let d := set_sessions (<[sid := state]> (d_sessions d)) d in
          let d := emit (DaemonEvent.TraceStarted sid trace_id (turn_project_id turn)
                     (turn_medium_id turn)) d in
          let d := call (CallRun harness turn) d in
          (spawn_stream sid trace_id state d, Ok tt)
      end
  end.

(** [resume]: [answers] says whether the harness returned a run. *)
Definition resume sid (response : Str) (credential : option (Str * Str)) (answers : bool) d
    : DaemonState * result Str unit :=
  match d_sessions d !! sid with
  | None => (d, Err (no_live_session sid))
  | Some state =>
      let d := call (CallResume (ss_harness state) sid response credential) d in
      if answers then (spawn_stream sid (ss_trace_id state) state d, Ok tt)
      else (d, Err (lit "harness does not support resume"))
  end.

Definition resume_command sid (decision : CommandDecision.t) (answers : bool) d
    : DaemonState * result Str unit :=
  match d_sessions d !! sid with
  | None => (d, Err (no_live_session sid))
  | Some state =>
      let d := call (CallResumeCommand (ss_harness state) sid decision) d in
      if answers then (spawn_stream sid (ss_trace_id state) state d, Ok tt)
      else (d, Err (lit "harness does not support command approval"))
  end.

Definition set_cancel (c : SessionCells) : SessionCells :=
  mkSessionCells true (sc_status c) (sc_finished_at c) (sc_events c).

Definition cancel sid d : DaemonState * result Str unit :=
  match d_sessions d !! sid with
  | None => (d, Err (no_live_session sid))
  | Some state =>
      let d := set_cells (update (ss_cells state) set_cancel (d_cells d)) d in
      (call (CallCancel (ss_harness state)) d, Ok tt)
  end.

Definition harness_id_le (a b : HarnessId) : Prop :=
  str_leb (harness_id_0 a) (harness_id_0 b) = true.
#[export] Instance harness_id_le_dec : RelDecision harness_id_le.
Proof. intros a b. unfold harness_id_le. apply _. Defined.

Definition list_harnesses d : list HarnessId :=
  merge_sort harness_id_le (HarnessRegistry.list (d_registry d)).

(** [SessionState::record]. *)
Definition record (state : SessionState) d : ExecutionRecord :=
  let c := cells (d_cells d) (ss_cells state) in
  {| ex_session_id := ss_session_id state;
     ex_trace_id := ss_trace_id state;
     ex_status := sc_status c;
     ex_started_at := ss_started_at state;
     ex_finished_at := sc_finished_at c;
     ex_events := sc_events c;
     ex_project_id := ss_project_id state;
     ex_medium_id := ss_medium_id state |}.

Definition snapshot d : list ExecutionRecord :=
  (fun p => record p.2 d) <$> map_to_list (d_sessions d).

(** The environment restore of [rewind]: the call made, when the snapshot log
    has a snapshot for the last kept turn and its harness is reversible.
    [spawn_restore_drain] consumes the events the harness then streams. *)
Definition restore_target sid (at_ : nat) (s : LedgerState) d
    : option (HarnessRef * HarnessSnapshot) :=
  if bool_decide (0 < at_ /\ at_ < ReplayLedger.len s) then
    match mjoin (snapshot_log sid d !! (at_ - 1)),
          (turn_harness_id ∘ rec_turn) <$> ReplayLedger.turn s (at_ - 1) with
    | Some snapshot, Some harness_id =>
        match HarnessRegistry.resolve harness_id (d_registry d) with
        | Some harness =>
            if cap_reversible (hr_capabilities harness) then Some (harness, snapshot) else None
        | None => None
        end
    | _, _ => None
    end
  else None.

Definition rewind sid (at_ : nat) d : DaemonState * result Str nat :=
  match d_sessions d !! sid with
  | Some _ => (d, Err (live_session sid))
  | None =>
      let '(d, l) := ledger sid d in
      let len := ReplayLedger.len (read_ledger l d) in
      let at_ := at_ `min` len in
      let d := match restore_target sid at_ (read_ledger l d) d with
               | Some (harness, snapshot) => call (CallRestore harness sid snapshot) d
               | None => d
               end in
      let '(s, removed) := ReplayLedger.rewind_to at_ (read_ledger l d) in
      (write_ledger l s d, Ok removed)
  end.

Definition fork sid (at_ : nat) (new_sid : SessionId) d : DaemonState * result Str SessionId :=
  let '(d, l) := ledger sid d in
  let branch := ReplayLedger.fork at_ new_sid (read_ledger l d) in
  let '(h, b) := alloc branch (d_ledger_store d) in
  (set_ledgers (<[new_sid := b]> (d_ledgers d)) (set_ledger_store h d), Ok new_sid).

Definition replay sid (at_ : nat) d : DaemonState * result Str (list DaemonEvent.t) :=
  let '(d, l) := ledger sid d in
  (d, Ok (omap map_event (ReplayLedger.replay at_ (read_ledger l d)))).

(** [now i] is the clock when checkpoint [i] is made. *)
Definition checkpoints (now : nat -> Instant) sid d : DaemonState * result Str (list Checkpoint) :=
  let '(d, l) := ledger sid d in
  let n := ReplayLedger.len (read_ledger l d) in
  (d, Ok ((fun i => ReplayLedger.checkpoint_at (now i) i (read_ledger l d)) <$> seq 0 (S n))).

(** A settlement call: the ledger method's result, its error rendered. *)
Definition settle_with {A} sid (f : LedgerState -> result ReplayError.t (LedgerState * A)) d
    : DaemonState * result Str A :=
  let '(d, l) := ledger sid d in
  match f (read_ledger l d) with
  | Ok (s, a) => (write_ledger l s d, Ok a)
  | Err e => (d, Err (candidate_error e))
  end.

Definition select sid (at_ : nat) d : DaemonState * result Str unit :=
  settle_with sid (fun s => result_map (fun s' => (s', tt)) (ReplayLedger.select at_ s)) d.
Definition apply sid (at_ : nat) d : DaemonState * result Str nat :=
  settle_with sid (ReplayLedger.apply at_) d.
Definition release sid (at_ : nat) d : DaemonState * result Str bool :=
  settle_with sid (ReplayLedger.release at_) d.
Definition discard sid (at_ : nat) d : DaemonState * result Str nat :=
  settle_with sid (ReplayLedger.discard at_) d.

(** ** Interleaving

    A step of the system: a port call, or a step of a stream task, with the
    answers of the environment it met. *)

Inductive label : Type :=
| LRegister (h : HarnessRef)
| LSetSink (attached : bool)
| LRestoreCheckpoint (cp : Checkpoint)
| LRun (now_record now_start : Instant) (mkdir : result Str unit) (turn : HarnessTurn)
| LResume (sid : SessionId) (response : Str) (credential : option (Str * Str)) (answers : bool)
| LResumeCommand (sid : SessionId) (decision : CommandDecision.t) (answers : bool)
| LCancel (sid : SessionId)
| LRewind (sid : SessionId) (at_ : nat)
| LFork (sid : SessionId) (at_ : nat) (new_sid : SessionId)
| LReplay (sid : SessionId) (at_ : nat)
| LSelect (sid : SessionId) (at_ : nat)
| LApply (sid : SessionId) (at_ : nat)
| LRelease (sid : SessionId) (at_ : nat)
| LDiscard (sid : SessionId) (at_ : nat)
| LTaskEvent (tid : nat) (ev : HarnessServerEvent.t)
| LTaskEnd (tid : nat) (answer : option HarnessSnapshot)
    (now_settle now_checkpoint now_finish : Instant).

Definition exec (lb : label) d : DaemonState :=
  match lb with
  | LRegister h => register h d
  | LSetSink attached => set_checkpoint_sink attached d
  | LRestoreCheckpoint cp => restore_checkpoint cp d
  | LRun now_record now_start mkdir turn => (run now_record now_start mkdir turn d).1
  | LResume sid response credential answers => (resume sid response credential answers d).1
  | LResumeCommand sid decision answers => (resume_command sid decision answers d).1
  | LCancel sid => (cancel sid d).1
  | LRewind sid at_ => (rewind sid at_ d).1
  | LFork sid at_ new_sid => (fork sid at_ new_sid d).1
  | LReplay sid at_ => (replay sid at_ d).1
  | LSelect sid at_ => (select sid at_ d).1
  | LApply sid at_ => (apply sid at_ d).1
  | LRelease sid at_ => (release sid at_ d).1
  | LDiscard sid at_ => (discard sid at_ d).1
  | LTaskEvent tid ev => task_event tid ev d
  | LTaskEnd tid answer now_settle now_checkpoint now_finish =>
      task_end tid answer now_settle now_checkpoint now_finish d
  end.

(** The states a daemon can reach by interleavings whose steps are allowed. *)
Inductive reach (ok : label -> DaemonState -> Prop) : DaemonState -> Prop :=
| reach_new registry : reach ok (new registry)
| reach_step d lb : reach ok d -> ok lb d -> reach ok (exec lb d).

(** A session state some task or the session table holds. *)
Definition active d (ss : SessionState) : Prop :=
  (exists tid t, d_tasks d !! tid = Some t /\ tk_state t = ss) \/
  (exists sid, d_sessions d !! sid = Some ss).

(** The turn an active session records, in the ledger it records into. *)
Definition live_turn d (ss : SessionState) : option TurnRecord :=
  ReplayLedger.turn (read_ledger (ss_ledger ss) d) (ss_turn_index ss).

Definition wire_events d (ss : SessionState) : list DaemonEvent.t :=
  sc_events (cells (d_cells d) (ss_cells ss)).

(** The transcript the daemon would rewind, fork or replay for a session. *)
Definition transcript d sid : option LedgerState :=
  (fun l => read_ledger l d) <$> d_ledgers d !! sid.
End daemon.
End Daemon.
