(* ===== verification/DaemonFacts.v ===== *)
(** * Properties of the daemon state

    First the lemmas of the store of ledgers and of the stream task, then two
    invariants of every interleaving, and the properties. *)

From S2P Require Import Prelude HarnessTypes HarnessProtocol Replay HarnessRuntime Daemon.

Module DaemonFacts.
Import Daemon.
Section facts.
Context {X : Externs}.
Implicit Types (d : DaemonState) (sid : SessionId) (ss : SessionState).

(** ** The store of ledgers *)

(** [d'] is [d] but for ledgers allocated and the session table of ledgers. *)
Record same_but_ledgers d d' : Prop := {
  sbl_registry : d_registry d' = d_registry d;
  sbl_sessions : d_sessions d' = d_sessions d;
  sbl_cells : d_cells d' = d_cells d;
  sbl_sink : d_sink d' = d_sink d;
  sbl_tasks : d_tasks d' = d_tasks d;
  sbl_next_task : d_next_task d' = d_next_task d;
  sbl_snapshots : d_snapshots d' = d_snapshots d;
  sbl_checkpoint_sink : d_checkpoint_sink d' = d_checkpoint_sink d;
  sbl_next : next (d_ledger_store d) <= next (d_ledger_store d');
  sbl_old : forall l, l < next (d_ledger_store d) -> read_ledger l d' = read_ledger l d;
}.

Lemma same_but_ledgers_refl d : same_but_ledgers d d.
Proof. by split. Qed.

Definition ledgers_bounded d : Prop :=
  forall sid l, d_ledgers d !! sid = Some l -> l < next (d_ledger_store d).

Lemma read_write_eq l s d : read_ledger l (write_ledger l s d) = s.
Proof. apply (cells_update_eq l (fun _ => s)). Qed.

Lemma read_write_ne l l' s d :
  l <> l' -> read_ledger l' (write_ledger l s d) = read_ledger l' d.
Proof. intros. by apply (cells_update_ne l l' (fun _ => s)). Qed.

(** What [ledger] does: the session's ledger, or a fresh empty one for it. *)
Lemma ledger_spec sid d d' l :
  ledger sid d = (d', l) -> ledgers_bounded d ->
  same_but_ledgers d d' /\ ledgers_bounded d' /\ d_ledgers d' !! sid = Some l /\
  read_ledger l d' = default (ReplayLedger.new sid) (transcript d sid) /\
  (forall sid', sid' <> sid -> d_ledgers d' !! sid' = d_ledgers d !! sid') /\
  (d_ledgers d !! sid = None -> l = next (d_ledger_store d)).
Proof.
  unfold ledger, transcript. intros H Hb. destruct (d_ledgers d !! sid) as [l'|] eqn:Hl.
  - simplify_eq. split_and!; [apply same_but_ledgers_refl|done..].
  - simpl in H. simplify_eq. split_and!; simpl; try done.
    + split; try done; simpl; [lia|]. intros l Hl'. unfold read_ledger; simpl.
      rewrite fn_lookup_insert_ne; [done|lia].
    + intros sid' l. simpl. destruct (decide (sid' = sid)) as [->|Hne].
      * rewrite lookup_insert_eq. intros [= <-]. lia.
      * rewrite lookup_insert_ne by done. intros ?%Hb. lia.
    + apply lookup_insert_eq.
    + unfold read_ledger; simpl. apply fn_lookup_insert.
    + intros. by apply lookup_insert_ne.
Qed.

Lemma active_ext d d' ss :
  d_tasks d' = d_tasks d -> d_sessions d' = d_sessions d -> active d' ss <-> active d ss.
Proof. unfold active. by intros -> ->. Qed.

Lemma observe_state ev (t : Task) : tk_state (observe ev t) = tk_state t.
Proof. by destruct ev. Qed.

Lemma observe_session ev (t : Task) : tk_session_id (observe ev t) = tk_session_id t.
Proof. by destruct ev. Qed.

(** ** The agreement invariant

    Every live session's wire mirror is the mapped image of the events its turn
    holds in the ledger, and no two live sessions share a turn or cells. *)

Definition agree d ss : Prop :=
  exists r, live_turn d ss = Some r /\ wire_events d ss = omap map_event (rec_events r).

Record Inv d : Prop := {
  inv_ledgers : ledgers_bounded d;
  inv_bound : forall ss, active d ss ->
    ss_ledger ss < next (d_ledger_store d) /\ ss_cells ss < next (d_cells d);
  inv_agree : forall ss, active d ss -> agree d ss;
  inv_turn_inj : forall ss1 ss2, active d ss1 -> active d ss2 ->
    ss_ledger ss1 = ss_ledger ss2 -> ss_turn_index ss1 = ss_turn_index ss2 -> ss1 = ss2;
  inv_cells_inj : forall ss1 ss2, active d ss1 -> active d ss2 ->
    ss_cells ss1 = ss_cells ss2 -> ss1 = ss2;
}.

(** A step that activates nothing and keeps the events of the live turns and of
    their mirrors keeps the invariant. *)
Lemma Inv_frame d d' :
  Inv d ->
  (forall ss, active d' ss -> active d ss) ->
  next (d_ledger_store d) <= next (d_ledger_store d') ->
  next (d_cells d) <= next (d_cells d') ->
  ledgers_bounded d' ->
  (forall ss, active d ss -> rec_events <$> live_turn d' ss = rec_events <$> live_turn d ss) ->
  (forall ss, active d ss -> wire_events d' ss = wire_events d ss) ->
  Inv d'.
Proof.
  intros [Hl Hb Ha Ht Hc] Hact Hn1 Hn2 Hl' Hev Hw. split; [done| | |by eauto|by eauto].
  - intros ss Hss%Hact. destruct (Hb ss Hss). lia.
  - intros ss Hss%Hact. destruct (Ha ss Hss) as (r & Hr & Hwr).
    specialize (Hev ss Hss). rewrite Hr in Hev. apply fmap_Some in Hev as (r' & Hr' & Heq).
    exists r'. split; [done|]. by rewrite Hw, Hwr, <- Heq.
Qed.

(** The parts of the state the invariant reads. *)
Definition same_core d d' : Prop :=
  d_tasks d' = d_tasks d /\ d_sessions d' = d_sessions d /\ d_cells d' = d_cells d /\
  d_ledgers d' = d_ledgers d /\ d_ledger_store d' = d_ledger_store d.

Lemma Inv_same_core d d' : same_core d d' -> Inv d -> Inv d'.
Proof.
  intros (Ht & Hs & Hc & Hl & Hst) HI.
  assert (forall ss, active d' ss <-> active d ss) as Hact by (intros; by apply active_ext).
  apply (Inv_frame d); unfold live_turn, wire_events, read_ledger, ledgers_bounded;
    rewrite ?Hc, ?Hl, ?Hst; try done; [by intros ss ?%Hact|apply HI].
Qed.

Lemma same_but_ledgers_active d d' ss :
  same_but_ledgers d d' -> active d' ss <-> active d ss.
Proof. intros [? Hs ? ? Ht]. by apply active_ext. Qed.

Lemma Inv_ledger sid d d' l : ledger sid d = (d', l) -> Inv d -> Inv d'.
Proof.
  intros Hl HI. destruct (ledger_spec _ _ _ _ Hl (inv_ledgers _ HI)) as (Hsbl & Hb & _).
  destruct HI as [HL HB HA HT HC]. apply (Inv_frame d); [by split| | | |done| |].
  - intros ss. by rewrite (same_but_ledgers_active d d') by done.
  - apply Hsbl.
  - by rewrite (sbl_cells _ _ Hsbl).
  - intros ss Hss. unfold live_turn. rewrite (sbl_old _ _ Hsbl); [done|]. by apply HB.
  - intros ss Hss. unfold wire_events. by rewrite (sbl_cells _ _ Hsbl).
Qed.

Lemma Inv_write l s d :
  Inv d ->
  (forall ss, active d ss -> ss_ledger ss = l ->
     rec_events <$> ReplayLedger.turn s (ss_turn_index ss) = rec_events <$> live_turn d ss) ->
  Inv (write_ledger l s d).
Proof.
  intros HI Hs. apply (Inv_frame d); try done.
  - apply HI.
  - intros ss Hss. unfold live_turn. destruct (decide (l = ss_ledger ss)) as [->|Hne].
    + rewrite read_write_eq. by apply Hs.
    + by rewrite read_write_ne.
Qed.

(** Commands that keep every event where it is. *)
Lemma with_turn_at_events i f s s' n :
  (forall r, rec_events (f r) = rec_events r) ->
  ReplayLedger.with_turn_at i f s = Ok s' ->
  rec_events <$> ReplayLedger.turn s' n = rec_events <$> ReplayLedger.turn s n.
Proof.
  intros Hf Hw. unfold ReplayLedger.with_turn_at, ReplayLedger.turn in *.
  destruct (led_turns s !! i) eqn:Hi; simplify_eq; simpl.
  destruct (decide (i = n)) as [->|Hne].
  - rewrite list_lookup_alter_eq, Hi. simpl. by rewrite Hf.
  - by rewrite list_lookup_alter_ne.
Qed.

Lemma Inv_ledger_settle now l i st d : Inv d -> Inv (ledger_settle now l i st d).
Proof.
  intros HI. unfold ledger_settle, ReplayLedger.settle_turn_at.
  destruct (ReplayLedger.with_turn_at _ _ _) as [s|] eqn:Hs; [|done].
  apply Inv_write; [done|]. intros ss Hss <-. by eapply with_turn_at_events in Hs as ->.
Qed.

(** A settlement call that keeps the events of the transcript's turns. *)
Lemma Inv_settle_with {A} sid (f : LedgerState -> result ReplayError.t (LedgerState * A)) d :
  Inv d ->
  (forall ss s s' a n, active d ss -> d_ledgers d !! sid = Some (ss_ledger ss) ->
     f s = Ok (s', a) ->
     rec_events <$> ReplayLedger.turn s' n = rec_events <$> ReplayLedger.turn s n) ->
  Inv (settle_with sid f d).1.
Proof.
  intros HI Hf. unfold settle_with. destruct (ledger sid d) as [d1 l] eqn:Hl.
  pose proof (Inv_ledger _ _ _ _ Hl HI) as HI1.
  destruct (ledger_spec _ _ _ _ Hl (inv_ledgers _ HI)) as (Hsbl & _ & Hlk & _ & _ & Hnew).
  destruct (f (read_ledger l d1)) as [[s a]|e] eqn:Hr; [|done]. simpl.
  apply Inv_write; [done|]. intros ss Hss <-. unfold live_turn.
  apply (same_but_ledgers_active _ _ _ Hsbl) in Hss.
  destruct (d_ledgers d !! sid) as [l|] eqn:Hsid.
  - assert (l = ss_ledger ss) as ->. { unfold ledger in Hl. rewrite Hsid in Hl. by simplify_eq. }
    by eapply Hf.
  - specialize (Hnew eq_refl). destruct (inv_bound _ HI ss Hss). lia.
Qed.

(** ** The invariant, operation by operation *)

(** What [run] leaves behind when it starts a turn. *)
Lemma run_Ok n1 n2 mkdir turn d d' :
  run n1 n2 mkdir turn d = (d', Ok tt) ->
  exists h d0 d1 l,
    HarnessRegistry.resolve (turn_harness_id turn) (d_registry d) = Some h /\
    prepare_workspace h (lit "trace-" ++ session_id_0 (turn_session_id turn)) mkdir d = Ok d0 /\
    ledger (turn_session_id turn) d0 = (d1, l) /\
    let idx := ReplayLedger.len (read_ledger l d1) in
    let ss := {| ss_session_id := turn_session_id turn;
                 ss_project_id := turn_project_id turn;
                 ss_medium_id := turn_medium_id turn;
                 ss_harness := h;
                 ss_trace_id := lit "trace-" ++ session_id_0 (turn_session_id turn);
                 ss_started_at := to_rfc3339 n2;
                 ss_cells := next (d_cells d1);
                 ss_ledger := l;
                 ss_turn_index := idx |} in
    d_sessions d' = <[turn_session_id turn := ss]> (d_sessions d1) /\
    d_tasks d' = <[d_next_task d1 := mkTask (turn_session_id turn) (ss_trace_id ss) ss RUNNING None]>
                   (d_tasks d1) /\
    d_next_task d' = S (d_next_task d1) /\
    d_ledgers d' = d_ledgers d1 /\
    next (d_ledger_store d') = next (d_ledger_store d1) /\
    read_ledger l d' = (ReplayLedger.record_turn n1 turn (read_ledger l d1)).1 /\
    (forall l', l' <> l -> read_ledger l' d' = read_ledger l' d1) /\
    d_cells d' = (alloc (mkSessionCells false RUNNING None []) (d_cells d1)).1 /\
    d_sink d' = d_sink d1 ++ [DaemonEvent.TraceStarted (turn_session_id turn) (ss_trace_id ss)
                   (turn_project_id turn) (turn_medium_id turn)] /\
    d_snapshots d' = d_snapshots d1 /\ d_checkpoint_sink d' = d_checkpoint_sink d1.
Proof.
  unfold run. destruct (HarnessRegistry.resolve _ _) as [h|] eqn:Hh; [|by intros [=]].
  destruct (prepare_workspace _ _ _ _) as [d0|] eqn:Hp; [|by intros [=]].
  destruct (ledger _ d0) as [d1 l] eqn:Hl. intros [= <-].
  exists h, d0, d1, l. split_and!; simpl; try done.
  - apply (read_write_eq l).
  - intros l' Hne. by apply (read_write_ne l).
Qed.

Lemma prepare_workspace_core h tr mkdir d d0 :
  prepare_workspace h tr mkdir d = Ok d0 -> same_core d d0 /\ d_sink d0 = d_sink d /\
  d_next_task d0 = d_next_task d /\ d_registry d0 = d_registry d.
Proof.
  unfold prepare_workspace. destruct (d_workspace_root d); [|by intros [= <-]].
  destruct mkdir; [|done]. by intros [= <-].
Qed.

Lemma run_Err n1 n2 mkdir turn d e : (run n1 n2 mkdir turn d).2 = Err e -> (run n1 n2 mkdir turn d).1 = d.
Proof.
  unfold run. destruct (HarnessRegistry.resolve _ _); [|done].
  destruct (prepare_workspace _ _ _ _); [|done]. by destruct (ledger _ _).
Qed.

Lemma Inv_run n1 n2 mkdir turn d : Inv d -> Inv (run n1 n2 mkdir turn d).1.
Proof.
  intros HI. destruct (run n1 n2 mkdir turn d) as [d' [[]|e]] eqn:Hrun.
  2:{ pose proof (run_Err n1 n2 mkdir turn d e) as He. rewrite Hrun in He. simpl in *.
      by rewrite He. }
  apply run_Ok in Hrun as (h & d0 & d1 & l & _ & Hp & Hl & Hs & Ht & _ & Hlm & Hn & Hrl & Hro & Hc & _).
  apply prepare_workspace_core in Hp as [Hp _]. pose proof (Inv_same_core _ _ Hp HI) as HI0.
  pose proof (Inv_ledger _ _ _ _ Hl HI0) as HI1.
  destruct (ledger_spec _ _ _ _ Hl (inv_ledgers _ HI0)) as (_ & _ & Hlk & _).
  set (idx := ReplayLedger.len (read_ledger l d1)) in *.
  match type of Hs with d_sessions d' = <[_ := ?x]> _ => set (ss := x) in * end.
  clear Hp Hl HI HI0 d d0. simpl.
  assert (forall ss', active d' ss' -> ss' = ss \/ active d1 ss') as Hact.
  { intros ss' [(tid & t & Htl & <-)|(sid & Hsl)].
    - rewrite Ht in Htl. apply lookup_insert_Some in Htl as [[_ <-]|[_ Htl]]; [by left|].
      right. left. by exists tid, t.
    - rewrite Hs in Hsl. apply lookup_insert_Some in Hsl as [[_ <-]|[_ Hsl]]; [by left|].
      right. right. by exists sid. }
  assert (forall ss', active d1 ss' -> ss_ledger ss' = l -> ss_turn_index ss' < idx) as Hidx.
  { intros ss' Hss' <-. destruct (inv_agree _ HI1 _ Hss') as (r & Hr & _).
    by eapply lookup_lt_Some. }
  pose proof (inv_ledgers _ HI1 _ _ Hlk) as Hll. split.
  - intros sid l'. rewrite Hlm, Hn. apply HI1.
  - intros ss' [->|Hss']%Hact; rewrite Hn, Hc; simpl; [lia|].
    destruct (inv_bound _ HI1 _ Hss'). lia.
  - intros ss' [->|Hss']%Hact.
    + eexists. unfold live_turn, wire_events. simpl. rewrite Hrl, Hc. simpl. split.
      * unfold ReplayLedger.turn; simpl. rewrite lookup_app_r by done.
        by rewrite Nat.sub_diag.
      * by rewrite fn_lookup_insert.
    + destruct (inv_agree _ HI1 _ Hss') as (r & Hr & Hw). exists r. split.
      * unfold live_turn in *. destruct (decide (ss_ledger ss' = l)) as [Heq|Hne].
        -- rewrite Heq, Hrl. unfold ReplayLedger.turn; simpl.
           rewrite lookup_app_l by (by apply Hidx). by rewrite Heq in Hr.
        -- by rewrite Hro.
      * unfold wire_events. rewrite Hc. rewrite cells_alloc_ne; [done|].
        destruct (inv_bound _ HI1 _ Hss'). lia.
  - intros ss1 ss2 [->|H1]%Hact [->|H2]%Hact Heq Hi; [done| | |by eapply (inv_turn_inj _ HI1)].
    + simpl in *. specialize (Hidx _ H2 (eq_sym Heq)). lia.
    + simpl in *. specialize (Hidx _ H1 Heq). lia.
  - intros ss1 ss2 [->|H1]%Hact [->|H2]%Hact Heq; [done| | |by eapply (inv_cells_inj _ HI1)];
      simpl in *; [destruct (inv_bound _ HI1 _ H2)|destruct (inv_bound _ HI1 _ H1)]; lia.
Qed.

(** The append of a live task always lands: its turn is in its ledger. *)
Lemma ledger_append_live d ss r evs :
  live_turn d ss = Some r ->
  exists s, ledger_append (ss_ledger ss) (ss_turn_index ss) evs d = write_ledger (ss_ledger ss) s d /\
    (forall n, ReplayLedger.turn s n =
       (if decide (n = ss_turn_index ss) then ReplayLedger.extend_events evs else id)
         <$> ReplayLedger.turn (read_ledger (ss_ledger ss) d) n) /\
    led_session_id s = led_session_id (read_ledger (ss_ledger ss) d).
Proof.
  intros Hr. unfold ledger_append, ReplayLedger.append_events_to, ReplayLedger.with_turn_at.
  unfold live_turn, ReplayLedger.turn in *. rewrite Hr. eexists. split_and!; [done| |done].
  intros n. simpl. case_decide as Hn; subst; [apply list_lookup_alter_eq|].
  rewrite list_lookup_alter_ne by done. by destruct (led_turns _ !! n).
Qed.

Lemma task_active d tid t : d_tasks d !! tid = Some t -> active d (tk_state t).
Proof. intros H. left. by exists tid, t. Qed.

Lemma task_event_active tid ev d ss :
  active (task_event tid ev d) ss <-> active d ss.
Proof.
  unfold task_event. destruct (d_tasks d !! tid) as [t|] eqn:Ht; [|done].
  assert (active (ledger_append (ss_ledger (tk_state t)) (ss_turn_index (tk_state t)) [ev] d) ss
    <-> active d ss) as Happ.
  { unfold ledger_append. destruct (ReplayLedger.append_events_to _ _ _); [|done].
    by apply active_ext. }
  destruct (map_event ev) as [de|]; [|done].
  rewrite <- Happ. set (d1 := ledger_append _ _ _ d).
  assert (d_tasks d1 !! tid = Some t) as Ht1.
  { unfold d1, ledger_append. by destruct (ReplayLedger.append_events_to _ _ _). }
  clearbody d1. clear Happ. split.
  - intros [(tid' & t' & Hl & <-)|(sid & Hl)]; simpl in Hl.
    + apply lookup_insert_Some in Hl as [[<- <-]|[_ Hl]]; [|by left; exists tid', t'].
      left. exists tid, t. by rewrite observe_state.
    + right. by exists sid.
  - intros [(tid' & t' & Hl & <-)|(sid & Hl)]; [|right; by exists sid].
    left. destruct (decide (tid' = tid)) as [->|Hne].
    + exists tid, (observe de t). simpl. rewrite lookup_insert_eq, observe_state. by simplify_eq.
    + exists tid', t'. simpl. by rewrite lookup_insert_ne.
Qed.

Lemma Inv_task_event tid ev d : Inv d -> Inv (task_event tid ev d).
Proof.
  intros HI. pose proof (task_event_active tid ev d) as Hact. unfold task_event in *.
  destruct (d_tasks d !! tid) as [t|] eqn:Ht; [|done].
  pose proof (task_active _ _ _ Ht) as Hss. set (ss := tk_state t) in *.
  destruct (inv_agree _ HI _ Hss) as (r & Hr & Hw).
  destruct (ledger_append_live d ss r [ev] Hr) as (s & Happ & Hs & _). rewrite Happ in *.
  assert (forall d', next (d_ledger_store d') = next (d_ledger_store d) ->
    next (d_cells d') = next (d_cells d) -> d_ledgers d' = d_ledgers d ->
    (forall ss', active d' ss' <-> active d ss') ->
    d_ledger_store d' = d_ledger_store (write_ledger (ss_ledger ss) s d) ->
    (forall ss', active d ss' -> wire_events d' ss' =
       wire_events d ss' ++ (if decide (ss_cells ss' = ss_cells ss) then option_list (map_event ev) else [])) ->
    Inv d') as Hgen.
  { clear Hact. intros d' Hn1 Hn2 Hlm Hact Hst Hwire. split.
    - intros sid l. rewrite Hlm, Hn1. apply HI.
    - intros ss'. rewrite Hact, Hn1, Hn2. apply HI.
    - intros ss' Hss'. rewrite Hact in Hss'. unfold agree.
      rewrite (Hwire _ Hss'). unfold live_turn, read_ledger. rewrite Hst.
      fold (read_ledger (ss_ledger ss') (write_ledger (ss_ledger ss) s d)).
      destruct (inv_agree _ HI _ Hss') as (r' & Hr' & Hw'). rewrite Hw'.
      destruct (decide (ss_cells ss' = ss_cells ss)) as [Heq|Hne].
      + apply (inv_cells_inj _ HI _ _ Hss' Hss) in Heq as ->.
        rewrite read_write_eq, Hs, decide_True by done. unfold live_turn in Hr'.
        rewrite Hr'. simpl. eexists. split; [done|]. simpl. rewrite omap_app. simpl.
        by destruct (map_event ev).
      + rewrite app_nil_r. exists r'. split; [|done]. unfold live_turn in Hr'.
        destruct (decide (ss_ledger ss = ss_ledger ss')) as [Heq|Hl].
        * rewrite Heq, read_write_eq, Hs, decide_False, Heq, Hr'; [done|].
          intros Hi. apply Hne. f_equal. by apply (inv_turn_inj _ HI).
        * by rewrite read_write_ne.
    - intros ss1 ss2. rewrite !Hact. apply HI.
    - intros ss1 ss2. rewrite !Hact. apply HI. }
  destruct (map_event ev) as [de|] eqn:Hmap; apply Hgen; try done; simpl.
  - intros ss' Hss'. unfold wire_events; simpl.
    destruct (decide (ss_cells ss' = ss_cells ss)) as [->|Hne].
    + by rewrite fn_lookup_insert.
    + by rewrite fn_lookup_insert_ne, app_nil_r.
  - intros ss' _. case_decide; by rewrite app_nil_r.
Qed.

Lemma active_spawn sid tr ss d ss' :
  active (spawn_stream sid tr ss d) ss' -> ss' = ss \/ active d ss'.
Proof.
  intros [(tid & t & Hl & <-)|(sid' & Hl)]; simpl in Hl.
  - apply lookup_insert_Some in Hl as [[_ <-]|[_ Hl]]; [by left|]. right. left. by exists tid, t.
  - right. right. by exists sid'.
Qed.

(** A resumed session's new task shares the session's state. *)
Lemma Inv_spawn sid tr ss d : Inv d -> active d ss -> Inv (spawn_stream sid tr ss d).
Proof.
  intros HI Hss. apply (Inv_frame d); try done; [|apply HI].
  by intros ss' [->|?]%active_spawn.
Qed.

Lemma Inv_call c d : Inv d -> Inv (call c d).
Proof. by apply Inv_same_core. Qed.

Lemma Inv_emit ev d : Inv d -> Inv (emit ev d).
Proof. by apply Inv_same_core. Qed.

Lemma session_active d sid ss : d_sessions d !! sid = Some ss -> active d ss.
Proof. intros H. right. by exists sid. Qed.

Lemma Inv_cells (c : nat) f d :
  (forall x, sc_events (f x) = sc_events x) -> Inv d ->
  Inv (set_cells (update c f (d_cells d)) d).
Proof.
  intros Hf HI. apply (Inv_frame d); try done; [apply HI|].
  intros ss _. unfold wire_events; simpl. destruct (decide (c = ss_cells ss)) as [->|Hne].
  - by rewrite fn_lookup_insert, Hf.
  - by rewrite fn_lookup_insert_ne.
Qed.

Lemma Inv_task_end tid answer n1 n2 n3 d : Inv d -> Inv (task_end tid answer n1 n2 n3 d).
Proof.
  intros HI. unfold task_end. destruct (d_tasks d !! tid) as [t|] eqn:Ht; [|done].
  set (d0 := set_tasks (delete tid (d_tasks d)) d).
  assert (Inv d0) as HI0.
  { apply (Inv_frame d); try done; [|apply HI].
    intros ss [(tid' & t' & Hl & <-)|(sid & Hl)]; [|right; by exists sid].
    simpl in Hl. apply lookup_delete_Some in Hl as [_ Hl]. left. by exists tid', t'. }
  clearbody d0. clear HI. case_bool_decide; [done|].
  apply (Inv_ledger_settle n1 (ss_ledger (tk_state t)) (ss_turn_index (tk_state t))
    (settled_status t)) in HI0. revert HI0.
  match goal with |- Inv ?x -> _ => generalize x end. clear d0. intros d0 HI0.
  unfold capture_snapshot.
  assert (forall snap d1, Inv d1 ->
    Inv (log_snapshot (tk_session_id t) (ss_turn_index (tk_state t)) snap d1)) as Hlog.
  { intros snap d1. by apply Inv_same_core. }
  assert (forall cp d1, Inv d1 -> Inv (persist cp d1)) as Hper.
  { intros cp d1. unfold persist. destruct (d_checkpoint_sink d1); [|done].
    by apply Inv_same_core. }
  assert (forall d1, Inv d1 -> Inv (set_sessions (delete (tk_session_id t) (d_sessions d1)) d1)) as Hdel.
  { intros d1 HI1. apply (Inv_frame d1); try done; [|apply HI1].
    intros ss [(tid' & t' & Hl & <-)|(sid & Hl)]; [left; by exists tid', t'|].
    simpl in Hl. apply lookup_delete_Some in Hl as [_ Hl]. right. by exists sid. }
  destruct (cap_reversible _); apply Hdel, Inv_emit, Inv_cells; auto using Inv_call.
Qed.

Lemma Inv_alloc_ledger sid s d :
  Inv d ->
  Inv (set_ledgers (<[sid := next (d_ledger_store d)]> (d_ledgers d))
         (set_ledger_store (alloc s (d_ledger_store d)).1 d)).
Proof.
  intros HI. apply (Inv_frame d); try done; simpl; [lia| |].
  - intros sid' l Hl. simpl in *. apply lookup_insert_Some in Hl as [[_ <-]|[_ Hl]]; [lia|].
    apply (inv_ledgers _ HI) in Hl. lia.
  - intros ss Hss. unfold live_turn, read_ledger; simpl.
    rewrite fn_lookup_insert_ne; [done|]. destruct (inv_bound _ HI _ Hss). lia.
Qed.

(** No step cuts a ledger that a live session records into. *)
Definition cuts_live (lb : label) d : Prop :=
  match lb with
  | LRewind sid _ | LApply sid _ | LDiscard sid _ =>
      exists ss, active d ss /\ d_ledgers d !! sid = Some (ss_ledger ss)
  | _ => False
  end.

Lemma Inv_resumed sid ss c d : Inv d -> d_sessions d !! sid = Some ss ->
  Inv (spawn_stream sid (ss_trace_id ss) ss (call c d)).
Proof.
  intros HI Hs. apply Inv_spawn; [by apply Inv_call|]. by eapply (session_active (call c d)).
Qed.

Lemma Inv_rewind sid k d :
  Inv d -> ~ cuts_live (LRewind sid k) d -> Inv (rewind sid k d).1.
Proof.
  intros HI Hcut. unfold rewind. destruct (d_sessions d !! sid); [done|].
  destruct (ledger sid d) as [d1 l] eqn:Hl. pose proof (Inv_ledger _ _ _ _ Hl HI) as HI1.
  destruct (ledger_spec _ _ _ _ Hl (inv_ledgers _ HI)) as (Hsbl & _ & _ & _ & _ & Hnew).
  assert (forall d2, Inv d2 -> (forall ss, active d2 ss -> active d1 ss) ->
    forall s, Inv (write_ledger l s d2)) as Hw.
  { intros d2 HI2 Hact s. apply Inv_write; [done|]. intros ss Hss <-. exfalso.
    apply Hact, (same_but_ledgers_active _ _ _ Hsbl) in Hss.
    destruct (d_ledgers d !! sid) as [l|] eqn:Hsid.
    - apply Hcut. exists ss. unfold ledger in Hl. rewrite Hsid in Hl. by simplify_eq.
    - specialize (Hnew eq_refl). destruct (inv_bound _ HI _ Hss). lia. }
  destruct (restore_target _ _ _ _) as [[h snap]|];
    destruct (ReplayLedger.rewind_to _ _) as [s r]; simpl; apply Hw; auto using Inv_call.
Qed.

Lemma apply_events_cut d sid k : Inv d -> ~ cuts_live (LApply sid k) d ->
  Inv (apply sid k d).1 /\ Inv (discard sid k d).1.
Proof.
  intros HI Hcut. split; apply Inv_settle_with; try done; intros ss s s' r n Hss Hl _;
    exfalso; apply Hcut; by exists ss.
Qed.

Lemma Inv_select sid k d : Inv d -> Inv (select sid k d).1 /\ Inv (release sid k d).1.
Proof.
  intros HI. split; apply Inv_settle_with; try done; intros ss s s' r n _ _;
    unfold ReplayLedger.select, ReplayLedger.release; repeat case_match; by intros [= <- <-].
Qed.

Lemma Inv_exec lb d : Inv d -> ~ cuts_live lb d -> Inv (exec lb d).
Proof.
  intros HI Hcut. destruct lb; simpl.
  - by apply (Inv_same_core d).
  - by apply (Inv_same_core d).
  - by apply Inv_alloc_ledger.
  - by apply Inv_run.
  - unfold resume. destruct (d_sessions d !! sid) eqn:Hs; [|done].
    destruct answers; simpl; [by apply Inv_resumed|by apply Inv_call].
  - unfold resume_command. destruct (d_sessions d !! sid) eqn:Hs; [|done].
    destruct answers; simpl; [by apply Inv_resumed|by apply Inv_call].
  - unfold cancel. destruct (d_sessions d !! sid); [|done]. by apply Inv_call, Inv_cells.
  - by apply Inv_rewind.
  - unfold fork. destruct (ledger sid d) as [d1 l] eqn:Hl. apply Inv_alloc_ledger.
    by eapply Inv_ledger.
  - unfold replay. destruct (ledger sid d) as [d1 l] eqn:Hl. by eapply Inv_ledger.
  - by apply Inv_select.
  - by apply apply_events_cut.
  - by apply Inv_select.
  - by apply apply_events_cut.
  - by apply Inv_task_event.
  - by apply Inv_task_end.
Qed.

Lemma Inv_new registry : Inv (new registry).
Proof.
  assert (forall ss, ~ active (new registry) ss) as Hno.
  { intros ss [(tid & t & Hl & _)|(sid & Hl)]; simpl in Hl; by rewrite lookup_empty in Hl. }
  split.
  - intros sid l Hl. simpl in Hl. by rewrite lookup_empty in Hl.
  - by intros ss []%Hno.
  - by intros ss []%Hno.
  - by intros ss1 ss2 []%Hno.
  - by intros ss1 ss2 []%Hno.
Qed.

(** ** What a step may write

    [writes lb sid]: the step names [sid] as the session whose ledger it changes
    or replaces.  A task's step changes the ledger of its own session state. *)

Definition writes (lb : label) sid : Prop :=
  match lb with
  | LRestoreCheckpoint cp => cp_session_id cp = sid
  | LRun _ _ _ turn => turn_session_id turn = sid
  | LFork _ _ new_sid => new_sid = sid
  | LRewind s _ | LSelect s _ | LApply s _ | LRelease s _ | LDiscard s _ => s = sid
  | _ => False
  end.

Record effect (W : SessionId -> Prop) d d' : Prop := {
  eff_next : next (d_ledger_store d) <= next (d_ledger_store d');
  eff_bounded : ledgers_bounded d';
  eff_kept : forall s l, ~ W s -> d_ledgers d !! s = Some l -> d_ledgers d' !! s = Some l;
  eff_entry : forall s l, d_ledgers d' !! s = Some l ->
    d_ledgers d !! s = Some l \/ next (d_ledger_store d) <= l;
  eff_active : forall ss, active d' ss ->
    active d ss \/ exists s, W s /\ d_ledgers d' !! s = Some (ss_ledger ss);
  eff_read : forall l, l < next (d_ledger_store d) ->
    read_ledger l d' = read_ledger l d \/ (exists ss, active d ss /\ ss_ledger ss = l) \/
    exists s, W s /\ d_ledgers d !! s = Some l;
}.

(** Steps on anything but the ledgers. *)
Lemma effect_other W d d' :
  d_ledgers d' = d_ledgers d -> d_ledger_store d' = d_ledger_store d ->
  (forall ss, active d' ss -> active d ss) -> ledgers_bounded d -> effect W d d'.
Proof.
  intros Hl Hs Ha Hb. unfold ledgers_bounded in *.
  split; unfold read_ledger, ledgers_bounded; rewrite ?Hl, ?Hs; auto.
Qed.

Lemma effect_ledger W sid d d' l :
  ledger sid d = (d', l) -> ledgers_bounded d -> effect W d d'.
Proof.
  intros Hl Hb. destruct (ledger_spec _ _ _ _ Hl Hb) as (Hsbl & Hb' & Hlk & _ & Hne & Hnew).
  assert (forall s l', d_ledgers d !! s = Some l' -> d_ledgers d' !! s = Some l') as Hkept.
  { intros s l' Hs. destruct (decide (s = sid)) as [->|]; [|by rewrite Hne].
    unfold ledger in Hl. rewrite Hs in Hl. by simplify_eq. }
  split; [apply Hsbl|done|by eauto| | |].
  - intros s l' Hs. destruct (decide (s = sid)) as [->|]; [|left; by rewrite <- Hne].
    simplify_eq. destruct (d_ledgers d !! sid) as [l'|] eqn:Hd.
    + left. apply Hkept in Hd. by simplify_eq.
    + right. by rewrite Hnew.
  - intros ss Hss. left. by apply (same_but_ledgers_active d d').
  - intros l' Hl'. left. by apply Hsbl.
Qed.

(** A write to the ledger of a session the step names, after other effects. *)
Lemma effect_write (W : SessionId -> Prop) sid d d1 l s :
  effect W d d1 -> W sid -> d_ledgers d1 !! sid = Some l -> effect W d (write_ledger l s d1).
Proof.
  intros [Hn Hb Hk He Ha Hr] HW Hl. split; try done.
  intros l' Hl'. destruct (decide (l = l')) as [->|Hne].
  - right. right. exists sid. split; [done|]. destruct (He _ _ Hl); [done|lia].
  - rewrite read_write_ne by done. by apply Hr.
Qed.

(** Making a new ledger a named session's. *)
Lemma effect_alloc (W : SessionId -> Prop) sid s d d1 :
  effect W d d1 -> W sid -> (forall ss, active d1 ss -> active d ss) ->
  effect W d (set_ledgers (<[sid := next (d_ledger_store d1)]> (d_ledgers d1))
                (set_ledger_store (alloc s (d_ledger_store d1)).1 d1)).
Proof.
  intros [Hn Hb Hk He _ Hr] HW Ha. split; simpl.
  - lia.
  - intros s' l Hl. simpl in *. apply lookup_insert_Some in Hl as [[_ <-]|[_ Hl]]; [lia|].
    apply Hb in Hl. lia.
  - intros s' l Hs Hl. rewrite lookup_insert_ne by naive_solver. by apply Hk.
  - intros s' l [[_ <-]|[_ Hl]]%lookup_insert_Some; [by right|by apply He].
  - intros ss Hss. left. by apply Ha.
  - intros l Hl. unfold read_ledger; simpl. rewrite fn_lookup_insert_ne by lia. by apply Hr.
Qed.

Lemma effect_same_active W d d1 d2 :
  effect W d d1 ->
  d_ledgers d2 = d_ledgers d1 -> d_ledger_store d2 = d_ledger_store d1 ->
  (forall ss, active d2 ss -> active d1 ss \/ active d ss) -> effect W d d2.
Proof.
  intros [Hn Hb Hk He Ha Hr] Hl Hs Hact. unfold ledgers_bounded in *.
  split; unfold read_ledger, ledgers_bounded; rewrite ?Hl, ?Hs; try done.
  intros ss [Hss|Hss]%Hact; [by apply Ha|by left].
Qed.

Lemma effect_settle_with {A} (W : SessionId -> Prop) sid
    (f : LedgerState -> result ReplayError.t (LedgerState * A)) d :
  W sid -> ledgers_bounded d -> effect W d (settle_with sid f d).1.
Proof.
  intros HW Hb. unfold settle_with. destruct (ledger sid d) as [d1 l] eqn:Hl.
  pose proof (effect_ledger W _ _ _ _ Hl Hb) as He.
  destruct (ledger_spec _ _ _ _ Hl Hb) as (_ & _ & Hlk & _).
  destruct (f _) as [[s a]|e]; [|done]. by eapply effect_write.
Qed.

Lemma same_core_bounded d d0 : same_core d d0 -> ledgers_bounded d -> ledgers_bounded d0.
Proof. unfold ledgers_bounded. by intros (_ & _ & _ & -> & ->). Qed.

Lemma effect_core_l W d d0 d' : same_core d d0 -> effect W d0 d' -> effect W d d'.
Proof.
  intros (Ht & Hs & _ & Hl & Hst) [Hn Hb Hk He Ha Hr].
  unfold read_ledger in *. rewrite Hst, Hl in *.
  assert (forall ss, active d0 ss <-> active d ss) as Hact by (intros; by apply active_ext).
  split; try done.
  - intros ss Hss. rewrite <- Hact. by apply Ha.
  - intros l Hlt. setoid_rewrite <- Hact. by apply Hr.
Qed.

Lemma effect_run (W : SessionId -> Prop) n1 n2 mkdir turn d :
  W (turn_session_id turn) -> ledgers_bounded d -> effect W d (run n1 n2 mkdir turn d).1.
Proof.
  intros HW Hb. destruct (run n1 n2 mkdir turn d) as [d' [[]|e]] eqn:Hrun.
  2:{ pose proof (run_Err n1 n2 mkdir turn d e) as He. rewrite Hrun in He. simpl in *.
      rewrite He by done. by apply effect_other. }
  apply run_Ok in Hrun as (h & d0 & d1 & l & _ & Hp & Hl & Hs & Ht & _ & Hlm & Hn & _ & Hro & _).
  apply prepare_workspace_core in Hp as [Hcore _].
  pose proof (same_core_bounded _ _ Hcore Hb) as Hb0.
  apply (effect_core_l _ _ _ _ Hcore). clear Hcore Hb d.
  destruct (ledger_spec _ _ _ _ Hl Hb0) as (Hsbl & _ & Hlk & _).
  assert (forall ss, active d1 ss -> active d0 ss) as Hact1.
  { intros ss Hss. by rewrite <- (same_but_ledgers_active _ _ _ Hsbl). }
  apply (effect_ledger W) in Hl; [|done]. destruct Hl as [Hn1 Hb1 Hk1 He1 _ Hr1]. simpl.
  split; unfold ledgers_bounded; rewrite ?Hlm, ?Hn; try done.
  - intros ss [(tid & t & Htl & <-)|(sid & Hsl)].
    + rewrite Ht in Htl. apply lookup_insert_Some in Htl as [[_ <-]|[_ Htl]].
      * right. by exists (turn_session_id turn).
      * left. apply Hact1. left. by exists tid, t.
    + rewrite Hs in Hsl. apply lookup_insert_Some in Hsl as [[_ <-]|[_ Hsl]].
      * right. by exists (turn_session_id turn).
      * left. apply Hact1. right. by exists sid.
  - intros l' Hl'. destruct (decide (l' = l)) as [->|Hne]; [|rewrite Hro by done; by apply Hr1].
    right. right. exists (turn_session_id turn). split; [done|]. destruct (He1 _ _ Hlk); [done|lia].
Qed.

Lemma effect_rewind (W : SessionId -> Prop) sid k d :
  W sid -> ledgers_bounded d -> effect W d (rewind sid k d).1.
Proof.
  intros HW Hb. unfold rewind. destruct (d_sessions d !! sid); [by apply effect_other|].
  destruct (ledger sid d) as [d1 l] eqn:Hl.
  pose proof (effect_ledger W _ _ _ _ Hl Hb) as He.
  destruct (ledger_spec _ _ _ _ Hl Hb) as (_ & _ & Hlk & _).
  destruct (ReplayLedger.rewind_to _ _) as [s r].
  destruct (restore_target _ _ _ _) as [[h snap]|]; simpl; eapply effect_write; try done.
  eapply effect_same_active; [done..|]. intros ss Hss. by left.
Qed.

Lemma effect_spawn W sid tr ss c d :
  ledgers_bounded d -> active d ss -> effect W d (spawn_stream sid tr ss (call c d)).
Proof. intros Hb Hss. apply effect_other; try done. by intros ss' [->|?]%active_spawn. Qed.

Lemma effect_task_ledger W ss d d1 :
  active d ss -> ledgers_bounded d -> d_ledgers d1 = d_ledgers d ->
  next (d_ledger_store d1) = next (d_ledger_store d) ->
  (forall ss', active d1 ss' -> active d ss') ->
  (forall l, l <> ss_ledger ss -> read_ledger l d1 = read_ledger l d) -> effect W d d1.
Proof.
  intros Hss Hb Hl Hn Hact Hr. split; rewrite ?Hn, ?Hl; try done.
  - unfold ledgers_bounded. by rewrite Hl, Hn.
  - by left.
  - intros ss' Hss'. left. by apply Hact.
  - intros l _. destruct (decide (l = ss_ledger ss)) as [->|]; [|left; by apply Hr].
    right. left. by exists ss.
Qed.

Lemma write_ledger_frame ss s d :
  d_ledgers (write_ledger (ss_ledger ss) s d) = d_ledgers d /\
  next (d_ledger_store (write_ledger (ss_ledger ss) s d)) = next (d_ledger_store d) /\
  (forall l, l <> ss_ledger ss -> read_ledger l (write_ledger (ss_ledger ss) s d) = read_ledger l d).
Proof. split_and!; [done..|]. intros l Hl. by apply read_write_ne. Qed.

Lemma task_event_frame tid ev d t :
  d_tasks d !! tid = Some t ->
  d_ledgers (task_event tid ev d) = d_ledgers d /\
  next (d_ledger_store (task_event tid ev d)) = next (d_ledger_store d) /\
  (forall l, l <> ss_ledger (tk_state t) -> read_ledger l (task_event tid ev d) = read_ledger l d).
Proof.
  intros Ht. unfold task_event. rewrite Ht. unfold ledger_append.
  destruct (ReplayLedger.append_events_to _ _ _) as [s|]; destruct (map_event ev);
    try done; apply (write_ledger_frame (tk_state t) s d).
Qed.

Lemma task_end_frame tid answer n1 n2 n3 d t :
  d_tasks d !! tid = Some t ->
  d_ledgers (task_end tid answer n1 n2 n3 d) = d_ledgers d /\
  next (d_ledger_store (task_end tid answer n1 n2 n3 d)) = next (d_ledger_store d) /\
  (forall l, l <> ss_ledger (tk_state t) ->
     read_ledger l (task_end tid answer n1 n2 n3 d) = read_ledger l d) /\
  d_tasks (task_end tid answer n1 n2 n3 d) = delete tid (d_tasks d) /\
  (forall sid ss, d_sessions (task_end tid answer n1 n2 n3 d) !! sid = Some ss ->
     d_sessions d !! sid = Some ss).
Proof.
  intros Ht. unfold task_end. rewrite Ht. case_bool_decide; [done|].
  unfold ledger_settle, capture_snapshot, persist.
  assert (forall sid ss, delete (tk_session_id t) (d_sessions d) !! sid = Some ss ->
    d_sessions d !! sid = Some ss) as Hdel by (by intros sid ss [_ ?]%lookup_delete_Some).
  destruct (ReplayLedger.settle_turn_at _ _ _ _) as [s|]; destruct (cap_reversible _); simpl;
    destruct (d_checkpoint_sink d); simpl; split_and!; try done;
    intros l' Hl; unfold read_ledger; simpl; by rewrite fn_lookup_insert_ne by done.
Qed.

Lemma effect_exec lb d :
  ledgers_bounded d -> effect (writes lb) d (exec lb d).
Proof.
  intros Hb. destruct lb; simpl.
  - by apply effect_other.
  - by apply effect_other.
  - apply (effect_alloc _ _ _ d d); [by apply effect_other|done..].
  - by apply effect_run.
  - unfold resume. destruct (d_sessions d !! sid) as [ss|] eqn:Hs; [|by apply effect_other].
    destruct answers; [|by apply effect_other]. apply effect_spawn; [done|by eapply session_active].
  - unfold resume_command. destruct (d_sessions d !! sid) as [ss|] eqn:Hs; [|by apply effect_other].
    destruct answers; [|by apply effect_other]. apply effect_spawn; [done|by eapply session_active].
  - unfold cancel. destruct (d_sessions d !! sid); by apply effect_other.
  - by apply effect_rewind.
  - unfold fork. destruct (ledger sid d) as [d1 l] eqn:Hl.
    apply effect_alloc; [by eapply effect_ledger|done|].
    destruct (ledger_spec _ _ _ _ Hl Hb) as (Hsbl & _). intros ss.
    by rewrite (same_but_ledgers_active _ _ _ Hsbl).
  - unfold replay. destruct (ledger sid d) as [d1 l] eqn:Hl. by eapply effect_ledger.
  - by apply effect_settle_with.
  - by apply effect_settle_with.
  - by apply effect_settle_with.
  - by apply effect_settle_with.
  - destruct (d_tasks d !! tid) as [t|] eqn:Ht.
    + destruct (task_event_frame tid ev d t Ht) as (H1 & H2 & H3).
      apply (effect_task_ledger _ (tk_state t)); [by eapply task_active|done..| |done].
      intros ss. by rewrite task_event_active.
    + unfold task_event. rewrite Ht. by apply effect_other.
  - destruct (d_tasks d !! tid) as [t|] eqn:Ht.
    + destruct (task_end_frame tid answer now_settle now_checkpoint now_finish d t Ht)
        as (H1 & H2 & H3 & H4 & H5).
      apply (effect_task_ledger _ (tk_state t)); [by eapply task_active|done..| |done].
      intros ss [(tid' & t' & Htl & <-)|(sid & Hsl)].
      * rewrite H4 in Htl. apply lookup_delete_Some in Htl as [_ Htl]. left. by exists tid', t'.
      * right. exists sid. by apply H5.
    + unfold task_end. rewrite Ht. by apply effect_other.
Qed.

(** ** Bounds, and isolation of a ledger nobody records into *)

Definition bounded d : Prop :=
  ledgers_bounded d /\ forall ss, active d ss -> ss_ledger ss < next (d_ledger_store d).

Lemma bounded_exec lb d : bounded d -> bounded (exec lb d).
Proof.
  intros [Hb Ha]. destruct (effect_exec lb d Hb) as [Hn Hb' _ _ Ha' _]. split; [done|].
  intros ss [Hss|(s & _ & Hl)]%Ha'; [apply Ha in Hss; lia|]. by eapply Hb'.
Qed.

Lemma reach_bounded ok d : reach ok d -> bounded d.
Proof.
  induction 1 as [registry|d lb _ IH _]; [|by apply bounded_exec].
  pose proof (Inv_new registry) as HI. split; [apply HI|]. intros ss Hss. by apply HI.
Qed.

Record isolated sid (l : nat) d : Prop := {
  iso_entry : d_ledgers d !! sid = Some l;
  iso_bounded : ledgers_bounded d;
  iso_only : forall sid', d_ledgers d !! sid' = Some l -> sid' = sid;
  iso_inactive : forall ss, active d ss -> ss_ledger ss <> l;
}.

Lemma isolated_exec sid l lb d :
  isolated sid l d -> ~ writes lb sid ->
  isolated sid l (exec lb d) /\ read_ledger l (exec lb d) = read_ledger l d.
Proof.
  intros [He Hb Ho Hi] Hw. destruct (effect_exec lb d Hb) as [Hn Hb' Hk Hent Ha Hr].
  pose proof (Hb _ _ He) as Hlt.
  assert (forall sid', d_ledgers (exec lb d) !! sid' = Some l -> sid' = sid) as Ho'.
  { intros sid' [Hs|Hs]%Hent; [by apply Ho|lia]. }
  split; [split; auto|].
  - intros ss [Hss|(s & Hs & Hl)]%Ha; [by apply Hi|]. intros Heq. rewrite Heq in Hl.
    by apply Ho' in Hl as ->.
  - destruct (Hr l Hlt) as [Heq|[(ss & Hss & Hl)|(s & Hs & Hl)]]; [done| |].
    + by apply Hi in Hss.
    + by apply Ho in Hl as ->.
Qed.

Definition exec_all (lbs : list label) d : DaemonState := foldl (fun d lb => exec lb d) d lbs.

Lemma isolated_exec_all sid l lbs d :
  isolated sid l d -> Forall (fun lb => ~ writes lb sid) lbs ->
  isolated sid l (exec_all lbs d) /\ read_ledger l (exec_all lbs d) = read_ledger l d.
Proof.
  intros Hi Hw. revert d Hi. induction Hw as [|lb lbs Hlb _ IH]; intros d Hi; [done|].
  destruct (isolated_exec _ _ _ _ Hi Hlb) as [Hi' Hr].
  destruct (IH _ Hi') as [Hi'' Hr']. split; [done|]. simpl. by rewrite <- Hr.
Qed.

End facts.
End DaemonFacts.
