(* ===== verification/DaemonWire.v ===== *)
(** * DaemonWire: what the daemon's client was sent

    Everything the sink was handed, the two trace frames of a run aside, is a merge of the
    events the sessions mirror: each event of a mirror once, in its order, and nothing
    else. *)

From S2P Require Import Prelude HarnessTypes HarnessProtocol Replay HarnessRuntime Daemon DaemonFacts.

Open Scope goble_scope.

Module DaemonWire.
Import Daemon DaemonFacts.

Section wire.
Context {X : Externs}.
Implicit Types d : DaemonState.

(** The events of a stream, as opposed to the frames around a run. *)
Definition streamed (ev : DaemonEvent.t) : Prop :=
  match ev with
  | DaemonEvent.TraceStarted _ _ _ _ | DaemonEvent.TraceFinished _ _ _ _ _ => False
  | _ => True
  end.
#[export] Instance streamed_dec ev : Decision (streamed ev).
Proof. destruct ev; simpl; apply _. Defined.

(** The mirrors of every session that ever ran, by the order of their runs. *)
Definition mirror d (c : nat) : list DaemonEvent.t := sc_events (cells (d_cells d) c).
Definition mirrors d : list (list DaemonEvent.t) := mirror d <$> seq 0 (next (d_cells d)).
Definition sent d : list DaemonEvent.t := filter streamed (d_sink d).

Record merged d : Prop := {
  merged_all : sent d ≡ₚ concat (mirrors d);
  merged_order : forall c, c < next (d_cells d) -> mirror d c `sublist_of` sent d;
}.

Definition same_wire d d' : Prop :=
  sent d' = sent d /\ next (d_cells d') = next (d_cells d) /\ forall c, mirror d' c = mirror d c.

Lemma same_wire_refl d : same_wire d d.
Proof. done. Qed.
Lemma same_wire_trans d d1 d2 : same_wire d d1 -> same_wire d1 d2 -> same_wire d d2.
Proof. intros (H1 & H2 & H3) (G1 & G2 & G3). split_and!; [congruence | congruence |]. intros c. by rewrite G3. Qed.
Lemma same_wire_fields d d' : d_sink d' = d_sink d -> d_cells d' = d_cells d -> same_wire d d'.
Proof. unfold same_wire, sent, mirror. by intros -> ->. Qed.

Lemma merged_same d d' : same_wire d d' -> merged d -> merged d'.
Proof.
  intros (Hs & Hn & Hm) [Ha Ho]. split.
  - unfold mirrors. rewrite Hs, Hn, Ha. unfold mirrors. apply reflexive_eq. f_equal.
    apply list_fmap_ext. intros i c _. by rewrite Hm.
  - intros c Hc. rewrite Hs, Hm. apply Ho. lia.
Qed.

Lemma same_wire_cells d (c : nat) f : (forall x, sc_events (f x) = sc_events x) ->
  same_wire d (set_cells (update c f (d_cells d)) d).
Proof.
  intros Hf. split_and!; [done | done |]. intros c'. unfold mirror. simpl. destruct (decide (c = c')) as [-> | Hne].
  - by rewrite fn_lookup_insert, Hf.
  - by rewrite fn_lookup_insert_ne.
Qed.

Lemma same_wire_ledger sid d d' l : ledger sid d = (d', l) -> same_wire d d'.
Proof. unfold ledger. destruct (d_ledgers d !! sid); intros [= <- _]; by apply same_wire_fields. Qed.

Lemma same_wire_settle {A} sid (f : LedgerState -> result ReplayError.t (LedgerState * A)) d :
  same_wire d (settle_with sid f d).1.
Proof.
  unfold settle_with. destruct (ledger sid d) as [d1 l] eqn:Hl. apply same_wire_ledger in Hl.
  destruct (f _) as [[s a] | e]; simpl; [| done]. eapply same_wire_trans; [exact Hl |]. by apply same_wire_fields.
Qed.

Lemma mirrors_alter d d' c ev : c < next (d_cells d) -> next (d_cells d') = next (d_cells d) ->
  (forall c', mirror d' c' = if decide (c' = c) then mirror d c ++ [ev] else mirror d c') ->
  concat (mirrors d') ≡ₚ concat (mirrors d) ++ [ev].
Proof.
  intros Hc Hn Hm. unfold mirrors. rewrite Hn.
  replace (next (d_cells d)) with (c + S (next (d_cells d) - c - 1)) by lia.
  rewrite seq_app, !fmap_app, !concat_app. cbn [seq fmap list_fmap concat plus].
  assert (forall l : list nat, c ∉ l -> mirror d' <$> l = mirror d <$> l) as Hother.
  { intros l Hl. apply list_fmap_ext. intros i x Hx. rewrite Hm, decide_False; [done |]. intros ->.
    by apply list_elem_of_lookup_2 in Hx. }
  rewrite (Hother (seq 0 c)), (Hother (seq (S c) _)) by (rewrite elem_of_seq; lia).
  rewrite Hm, decide_True by done. solve_Permutation.
Qed.

Lemma map_event_streamed ev ev' : map_event ev = Some ev' -> streamed ev'.
Proof. by destruct ev; intros [= <-]. Qed.

Lemma merged_task_event tid ev d : Inv d -> merged d -> merged (task_event tid ev d).
Proof.
  intros HI Hd. unfold task_event. destruct (d_tasks d !! tid) as [t |] eqn:Ht; [| done].
  destruct (inv_bound _ HI _ (task_active _ _ _ Ht)) as [_ Hc].
  assert (forall l i evs, same_wire d (ledger_append l i evs d)) as Happ.
  { intros l i evs. unfold ledger_append. destruct (ReplayLedger.append_events_to _ _ _); by apply same_wire_fields. }
  set (d1 := ledger_append _ _ _ d). specialize (Happ (ss_ledger (tk_state t)) (ss_turn_index (tk_state t)) [ev]).
  fold d1 in Happ. clearbody d1. assert (merged d1) as Hd1 by by eapply merged_same.
  destruct (map_event ev) as [ev' |] eqn:Hev; [| done]. apply map_event_streamed in Hev.
  rewrite <- (proj1 (proj2 Happ)) in Hc. set (d2 := emit _ _).
  assert (sent d2 = sent d1 ++ [ev']) as Hs.
  { unfold sent. simpl. by rewrite filter_app, filter_cons_True. }
  assert (forall c', mirror d2 c' = if decide (c' = ss_cells (tk_state t)) then mirror d1 c' ++ [ev'] else mirror d1 c') as Hm.
  { intros c'. unfold mirror. simpl. destruct (decide (c' = ss_cells (tk_state t))) as [-> | Hne].
    - by rewrite fn_lookup_insert.
    - by rewrite fn_lookup_insert_ne. }
  split.
  - rewrite Hs, (merged_all _ Hd1). symmetry. apply mirrors_alter with (c := ss_cells (tk_state t)); [done | done |].
    intros c'. rewrite Hm. by destruct (decide (c' = _)) as [-> |].
  - intros c' Hc'. rewrite Hs, Hm. pose proof (merged_order _ Hd1 c' Hc') as Ho. destruct (decide _).
    + by apply sublist_app.
    + by apply sublist_inserts_r.
Qed.

Lemma merged_run n1 n2 mkdir turn d : merged d -> merged (run n1 n2 mkdir turn d).1.
Proof.
  intros Hd. destruct (run n1 n2 mkdir turn d) as [d' [[] | e]] eqn:Hrun.
  2: { pose proof (run_Err n1 n2 mkdir turn d e) as He. rewrite Hrun in He. simpl in *. by rewrite He. }
  apply run_Ok in Hrun as (h & d0 & d1 & l & _ & Hp & Hl & _ & _ & _ & _ & _ & _ & _ & Hc & Hs & _).
  apply prepare_workspace_core in Hp as [(_ & _ & Hcells & _) [Hsink _]].
  assert (merged d1) as Hd1.
  { eapply merged_same; [| exact Hd]. eapply same_wire_trans; [| by eapply same_wire_ledger].
    by apply same_wire_fields. }
  assert (forall c, c < next (d_cells d1) -> mirror d' c = mirror d1 c) as Hm.
  { intros c Hlt. unfold mirror. rewrite Hc, cells_alloc_ne by lia. done. }
  assert (sent d' = sent d1) as Hsent.
  { unfold sent. rewrite Hs, filter_app, filter_cons_False by (simpl; tauto). by rewrite app_nil_r. }
  assert (mirror d' (next (d_cells d1)) = []) as Hnew by (unfold mirror; by rewrite Hc, cells_alloc_eq).
  assert (next (d_cells d') = S (next (d_cells d1))) as Hn by by rewrite Hc.
  simpl. split.
  - rewrite Hsent, (merged_all _ Hd1). unfold mirrors. rewrite Hn, seq_S, fmap_app, concat_app. simpl.
    rewrite Hnew, app_nil_r. apply reflexive_eq. f_equal. apply list_fmap_ext. intros i c Hi. symmetry. apply Hm.
    apply list_elem_of_lookup_2, elem_of_seq in Hi. lia.
  - intros c Hlt. rewrite Hsent. destruct (decide (c = next (d_cells d1))) as [-> | Hne].
    + rewrite Hnew. apply sublist_nil_l.
    + rewrite Hm by lia. apply (merged_order _ Hd1). lia.
Qed.

Lemma same_wire_task_end tid answer n1 n2 n3 d : same_wire d (task_end tid answer n1 n2 n3 d).
Proof.
  unfold task_end. destruct (d_tasks d !! tid) as [t |]; [| done].
  case_bool_decide; [by apply same_wire_fields |].
  set (d1 := ledger_settle _ _ _ _ _). assert (same_wire d d1) as H1.
  { subst d1. unfold ledger_settle. destruct (ReplayLedger.settle_turn_at _ _ _ _); by apply same_wire_fields. }
  clearbody d1. destruct (capture_snapshot _ _ answer d1) as [d2 snap] eqn:Hsnap.
  assert (same_wire d1 d2) as H2.
  { revert Hsnap. unfold capture_snapshot. destruct (cap_reversible _); intros [= <- _]; by apply same_wire_fields. }
  eapply same_wire_trans; [exact H1 |]. eapply same_wire_trans; [exact H2 |]. clear.
  set (d3 := persist _ _). assert (same_wire d2 d3) as H3.
  { subst d3. unfold persist. destruct (d_checkpoint_sink _); by apply same_wire_fields. }
  clearbody d3. eapply same_wire_trans; [exact H3 |].
  eapply same_wire_trans; [by apply (same_wire_cells d3 (ss_cells (tk_state t)) (finish_cells n3 (tk_final_status t))) |].
  split_and!; [| done | done]. unfold sent. simpl. rewrite filter_app, filter_cons_False by (simpl; tauto).
  by rewrite app_nil_r.
Qed.

Lemma merged_exec lb d : Inv d -> merged d -> merged (exec lb d).
Proof.
  intros HI Hd. destruct lb; simpl; [.. | by apply merged_task_event | eapply merged_same; [apply same_wire_task_end | done]];
    try (eapply merged_same; [| exact Hd]; by apply same_wire_fields).
  - by apply merged_run.
  - eapply merged_same; [| exact Hd]. unfold resume. destruct (d_sessions d !! sid); [| done].
    destruct answers; by apply same_wire_fields.
  - eapply merged_same; [| exact Hd]. unfold resume_command. destruct (d_sessions d !! sid); [| done].
    destruct answers; by apply same_wire_fields.
  - eapply merged_same; [| exact Hd]. unfold cancel. destruct (d_sessions d !! sid) as [ss |]; [| done].
    eapply same_wire_trans; [by apply (same_wire_cells d (ss_cells ss) set_cancel) |]. by apply same_wire_fields.
  - eapply merged_same; [| exact Hd]. unfold rewind. destruct (d_sessions d !! sid); [done |].
    destruct (ledger sid d) as [d1 l] eqn:Hl. eapply same_wire_trans; [by eapply same_wire_ledger |].
    destruct (ReplayLedger.rewind_to _ _) as [s removed].
    destruct (restore_target _ _ _ _) as [[h snap] |]; by apply same_wire_fields.
  - eapply merged_same; [| exact Hd]. unfold fork. destruct (ledger sid d) as [d1 l] eqn:Hl.
    eapply same_wire_trans; [by eapply same_wire_ledger |]. by apply same_wire_fields.
  - eapply merged_same; [| exact Hd]. unfold replay. destruct (ledger sid d) as [d1 l] eqn:Hl. by eapply same_wire_ledger.
  - eapply merged_same; [apply same_wire_settle | exact Hd].
  - eapply merged_same; [apply same_wire_settle | exact Hd].
  - eapply merged_same; [apply same_wire_settle | exact Hd].
  - eapply merged_same; [apply same_wire_settle | exact Hd].
Qed.

Lemma merged_new registry : merged (new registry).
Proof. split; [done |]. simpl. lia. Qed.
End wire.
End DaemonWire.
