(* ===== verification/DaemonProps.v ===== *)
(** * What the daemon promises

    The life of one turn, the agreement of wire and transcript, rewinding, the
    independence of forks, and the protection of live sessions. *)

From S2P Require Import Prelude HarnessTypes HarnessProtocol Replay HarnessRuntime Daemon DaemonFacts DaemonWire.

Module DaemonProps.
Import Daemon DaemonFacts DaemonWire.DaemonWire.
Section props.
Context {X : Externs}.
Implicit Types (d : DaemonState) (sid : SessionId) (ss : SessionState).

(** ** Specification of a turn's outcome *)

(** How the last terminal event of a stream settles it: [Some None] for a [Done],
    [Some (Some message)] for an [Error], [None] when there is none. *)
Definition terminal_of (ev : DaemonEvent.t) (before : option (option Str)) : option (option Str) :=
  match ev with
  | DaemonEvent.Done _ => Some None
  | DaemonEvent.Error _ message => Some (Some message)
  | _ => before
  end.
Definition terminal (evs : list DaemonEvent.t) : option (option Str) :=
  foldl (fun acc ev => terminal_of ev acc) None evs.

Definition outcome_status (o : option Str) : TurnStatus.t :=
  match o with None => TurnStatus.Success | Some m => TurnStatus.Failed m end.
Definition outcome_name (o : option Str) : Str :=
  match o with None => SUCCESS | Some _ => FAILED end.

(** The events of one stream, delivered without interruption. *)
Definition drain (tid : nat) (evs : list HarnessServerEvent.t) d : DaemonState :=
  foldl (fun d ev => task_event tid ev d) d evs.

(** ** One delivered event, and a whole stream *)

Record delivered (tid : nat) (evs : list HarnessServerEvent.t) (t : Task) d d' : Prop := {
  del_task : d_tasks d' !! tid = Some (foldl (fun t ev => observe ev t) t (omap map_event evs));
  del_turns : led_turns (read_ledger (ss_ledger (tk_state t)) d') =
    alter (ReplayLedger.extend_events evs) (ss_turn_index (tk_state t))
      (led_turns (read_ledger (ss_ledger (tk_state t)) d));
  del_sink : d_sink d' = d_sink d ++ omap map_event evs;
  del_wire : wire_events d' (tk_state t) = wire_events d (tk_state t) ++ omap map_event evs;
  del_sessions : d_sessions d' = d_sessions d;
  del_ledgers : d_ledgers d' = d_ledgers d;
  del_snapshots : d_snapshots d' = d_snapshots d;
  del_checkpoints : d_checkpoint_sink d' = d_checkpoint_sink d;
}.

Lemma extend_nil (ts : list TurnRecord) i : alter (ReplayLedger.extend_events []) i ts = ts.
Proof.
  apply list_alter_id. intros []. unfold ReplayLedger.extend_events; simpl. by rewrite app_nil_r.
Qed.

Lemma extend_extend (ts : list TurnRecord) i e1 e2 :
  alter (ReplayLedger.extend_events e2) i (alter (ReplayLedger.extend_events e1) i ts)
  = alter (ReplayLedger.extend_events (e1 ++ e2)) i ts.
Proof.
  rewrite list_alter_alter_eq. apply list_alter_ext; [|done]. intros [] _.
  unfold ReplayLedger.extend_events; simpl. by rewrite app_assoc.
Qed.

Lemma task_event_delivers tid ev d t :
  d_tasks d !! tid = Some t -> is_Some (live_turn d (tk_state t)) ->
  delivered tid [ev] t d (task_event tid ev d).
Proof.
  intros Ht [r Hr]. unfold task_event. rewrite Ht.
  unfold ledger_append, ReplayLedger.append_events_to, ReplayLedger.with_turn_at.
  unfold live_turn, ReplayLedger.turn in Hr. rewrite Hr.
  destruct (map_event ev) as [de|] eqn:Hm; split; unfold read_ledger, wire_events; simpl;
    rewrite ?Hm; simpl; rewrite ?lookup_insert_eq, ?fn_lookup_insert, ?app_nil_r; done.
Qed.

Lemma foldl_observe_state evs (t : Task) :
  tk_state (foldl (fun t ev => observe ev t) t evs) = tk_state t /\
  tk_session_id (foldl (fun t ev => observe ev t) t evs) = tk_session_id t /\
  tk_trace_id (foldl (fun t ev => observe ev t) t evs) = tk_trace_id t.
Proof.
  revert t. induction evs as [|ev evs IH]; intros t; [done|]. simpl.
  destruct (IH (observe ev t)) as (-> & -> & ->). by destruct ev.
Qed.

Lemma delivered_app tid e1 e2 t d d1 d2 :
  delivered tid e1 t d d1 ->
  delivered tid e2 (foldl (fun t ev => observe ev t) t (omap map_event e1)) d1 d2 ->
  delivered tid (e1 ++ e2) t d d2.
Proof.
  intros [Ht1 Hr1 Hs1 Hw1 H1 H2 H3 H4] [Ht2 Hr2 Hs2 Hw2 H5 H6 H7 H8].
  destruct (foldl_observe_state (omap map_event e1) t) as (Hst & _). rewrite Hst in *.
  split; rewrite ?omap_app, ?foldl_app; try congruence.
  - by rewrite Hr2, Hr1, extend_extend.
  - by rewrite Hs2, Hs1, app_assoc.
  - by rewrite Hw2, Hw1, app_assoc.
Qed.

Lemma drain_delivers tid evs d t :
  d_tasks d !! tid = Some t -> is_Some (live_turn d (tk_state t)) ->
  delivered tid evs t d (drain tid evs d).
Proof.
  revert d t. induction evs as [|ev evs IH]; intros d t Ht Hlive.
  { split; simpl; rewrite ?app_nil_r, ?extend_nil; done. }
  pose proof (task_event_delivers tid ev d t Ht Hlive) as Hev.
  apply (delivered_app tid [ev] evs t d _ _ Hev). apply (IH (task_event tid ev d)); [apply Hev|].
  destruct (foldl_observe_state (omap map_event [ev]) t) as (-> & _).
  unfold live_turn, ReplayLedger.turn in *. rewrite (del_turns _ _ _ _ _ Hev), list_lookup_alter_eq.
  by apply fmap_is_Some.
Qed.

(** The task's locals follow the specification of the outcome. *)
Lemma observe_outcome evs (t : Task) acc :
  tk_final_status t = from_option outcome_name RUNNING acc ->
  (forall m, acc = Some (Some m) -> tk_final_error t = Some m) ->
  let t' := foldl (fun t ev => observe ev t) t evs in
  let acc' := foldl (fun acc ev => terminal_of ev acc) acc evs in
  tk_final_status t' = from_option outcome_name RUNNING acc' /\
  (forall m, acc' = Some (Some m) -> tk_final_error t' = Some m).
Proof.
  revert t acc. induction evs as [|ev evs IH]; intros t acc Hs He; [done|].
  simpl. apply IH; destruct ev; simpl; try done; naive_solver.
Qed.

Lemma settled_status_outcome (t : Task) o :
  tk_final_status t = outcome_name o -> (forall m, o = Some m -> tk_final_error t = Some m) ->
  settled_status t = outcome_status o.
Proof.
  intros Hs He. unfold settled_status. rewrite Hs. destruct o as [m|]; [|done]. by rewrite (He m).
Qed.

(** ** The end of a stream *)

Lemma task_end_suspends tid answer n3 n4 n5 d t :
  d_tasks d !! tid = Some t -> tk_final_status t = RUNNING ->
  task_end tid answer n3 n4 n5 d = set_tasks (delete tid (d_tasks d)) d.
Proof. intros Ht Hs. unfold task_end. by rewrite Ht, Hs, bool_decide_true. Qed.

Lemma log_snapshot_entry sid i snap d :
  snapshot_log sid (log_snapshot sid i snap d) !! i = Some snap.
Proof.
  unfold log_snapshot, snapshot_log at 1. simpl. rewrite lookup_insert_eq. simpl.
  apply list_lookup_insert_eq. case_bool_decide; [rewrite length_vec_resize|]; lia.
Qed.

Record settled (t : Task) (o : option Str) (answer : option HarnessSnapshot)
    (n3 n4 n5 : Instant) d d' : Prop := {
  set_ledger_turns : led_turns (read_ledger (ss_ledger (tk_state t)) d') =
    alter (ReplayLedger.settle n3 (outcome_status o)) (ss_turn_index (tk_state t))
      (led_turns (read_ledger (ss_ledger (tk_state t)) d));
  set_ledgers_same : d_ledgers d' = d_ledgers d;
  set_sink : d_sink d' = d_sink d ++ [DaemonEvent.TraceFinished (tk_session_id t) (tk_trace_id t)
    (outcome_name o) (ss_project_id (tk_state t)) (ss_medium_id (tk_state t))];
  set_removed : d_sessions d' = delete (tk_session_id t) (d_sessions d);
  set_snapshot : snapshot_log (tk_session_id t) d' !! ss_turn_index (tk_state t) =
    Some (if cap_reversible (hr_capabilities (ss_harness (tk_state t))) then answer else None);
  set_persisted : d_checkpoint_sink d' =
    (fun got => got ++ [ReplayLedger.checkpoint n4 (read_ledger (ss_ledger (tk_state t)) d')])
      <$> d_checkpoint_sink d;
}.

Lemma task_end_settles tid answer n3 n4 n5 d t o :
  d_tasks d !! tid = Some t -> is_Some (live_turn d (tk_state t)) ->
  tk_final_status t = outcome_name o -> (forall m, o = Some m -> tk_final_error t = Some m) ->
  settled t o answer n3 n4 n5 d (task_end tid answer n3 n4 n5 d).
Proof.
  intros Ht [r Hr] Hs He. pose proof (settled_status_outcome t o Hs He) as Hst.
  unfold task_end. rewrite Ht, Hst, Hs.
  rewrite bool_decide_false by (by destruct o).
  unfold ledger_settle, ReplayLedger.settle_turn_at, ReplayLedger.with_turn_at, capture_snapshot.
  unfold live_turn, ReplayLedger.turn, read_ledger in *. simpl. rewrite Hr.
  destruct (cap_reversible _) eqn:Hrev; unfold persist; simpl;
    destruct (d_checkpoint_sink d) as [got|] eqn:Hcp; split;
    unfold read_ledger, snapshot_log; simpl;
    rewrite ?fn_lookup_insert, ?Hcp, ?Hrev; simpl; try done.
  all: rewrite lookup_insert_eq; simpl; apply list_lookup_insert_eq; unfold snapshot_log;
    case_bool_decide; simpl in *; rewrite ?length_vec_resize; lia.
Qed.

(** ** Properties *)

(** The turn a started run records, before its stream delivers anything. *)
Lemma run_starts n1 n2 mkdir turn d d1 :
  ledgers_bounded d -> run n1 n2 mkdir turn d = (d1, Ok tt) ->
  exists h ss s0,
    HarnessRegistry.resolve (turn_harness_id turn) (d_registry d) = Some h /\
    ss_harness ss = h /\ ss_session_id ss = turn_session_id turn /\
    ss_project_id ss = turn_project_id turn /\ ss_medium_id ss = turn_medium_id turn /\
    s0 = default (ReplayLedger.new (turn_session_id turn)) (transcript d (turn_session_id turn)) /\
    ss_turn_index ss = length (led_turns s0) /\
    d_tasks d1 !! d_next_task d =
      Some (mkTask (turn_session_id turn) (ss_trace_id ss) ss RUNNING None) /\
    d_sessions d1 !! turn_session_id turn = Some ss /\
    d_ledgers d1 !! turn_session_id turn = Some (ss_ledger ss) /\
    read_ledger (ss_ledger ss) d1 = (ReplayLedger.record_turn n1 turn s0).1 /\
    ss_trace_id ss = lit "trace-" ++ session_id_0 (turn_session_id turn) /\
    d_sink d1 = d_sink d ++ [DaemonEvent.TraceStarted (turn_session_id turn) (ss_trace_id ss)
      (turn_project_id turn) (turn_medium_id turn)] /\
    d_checkpoint_sink d1 = d_checkpoint_sink d.
Proof.
  intros Hb Hrun.
  assert (forall d0 h tr, prepare_workspace h tr mkdir d = Ok d0 ->
    d_checkpoint_sink d0 = d_checkpoint_sink d) as Hcp.
  { unfold prepare_workspace. intros d0 h tr. destruct (d_workspace_root d); [|by intros [= <-]].
    destruct mkdir; [|done]. by intros [= <-]. }
  apply run_Ok in Hrun as (h & d0 & dl & l & Hh & Hp & Hl & Hs & Ht & _ & Hlm & _ & Hrl & _ & _
    & Hsink & _ & Hck). specialize (Hcp _ _ _ Hp).
  apply prepare_workspace_core in Hp as (Hcore & Hsk & Hnt & _).
  pose proof (same_core_bounded _ _ Hcore Hb) as Hb0.
  destruct (ledger_spec _ _ _ _ Hl Hb0) as (Hsbl & _ & Hlk & Hread & _).
  assert (transcript d0 (turn_session_id turn) = transcript d (turn_session_id turn)) as Htr.
  { destruct Hcore as (_ & _ & _ & Hle & Hst). unfold transcript, read_ledger. by rewrite Hle, Hst. }
  rewrite Htr in Hread. rewrite (sbl_next_task _ _ Hsbl), Hnt in Ht.
  match type of Hs with _ = <[_ := ?x]> _ => exists h, x, (read_ledger l dl) end.
  split_and!; try done.
  - rewrite Ht. apply lookup_insert_eq.
  - rewrite Hs. apply lookup_insert_eq.
  - by rewrite Hlm.
  - by rewrite Hsink, (sbl_sink _ _ Hsbl), Hsk.
  - by rewrite Hck, (sbl_checkpoint_sink _ _ Hsbl).
Qed.

(** C1: the life of one turn. A started run whose stream delivers [evs] and ends
    appends exactly one turn, holding the request and those events, to the
    session's transcript.  With a terminal event the turn settles to the last
    one's outcome, the environment snapshot is logged at the turn's index when
    the harness is reversible, the checkpoint of the whole transcript reaches an
    attached sink, the client has seen [TraceStarted], the mapped events in order
    and [TraceFinished], and the session is gone; without one the turn stays
    [Running] and the session live, waiting for a resume. *)
Theorem turn_lifecycle ok n1 n2 n3 n4 n5 mkdir turn d d1 evs answer
    (Hreach : reach ok d) (Hrun : run n1 n2 mkdir turn d = (d1, Ok tt)) :
  let sid := turn_session_id turn in
  let d3 := task_end (d_next_task d) answer n3 n4 n5 (drain (d_next_task d) evs d1) in
  let wire := omap map_event evs in
  let before := from_option led_turns [] (transcript d sid) in
  let trace := lit "trace-" ++ session_id_0 sid in
  let started := DaemonEvent.TraceStarted sid trace (turn_project_id turn) (turn_medium_id turn) in
  exists s r h,
    transcript d3 sid = Some s /\ led_turns s = before ++ [r] /\
    rec_turn r = turn /\ rec_events r = evs /\
    HarnessRegistry.resolve (turn_harness_id turn) (d_registry d) = Some h /\
    match terminal wire with
    | None =>
        rec_status r = TurnStatus.Running /\ rec_finished_at r = None /\
        is_Some (d_sessions d3 !! sid) /\ d_sink d3 = d_sink d ++ started :: wire /\
        d_checkpoint_sink d3 = d_checkpoint_sink d
    | Some o =>
        rec_status r = outcome_status o /\ rec_finished_at r = Some n3 /\
        d_sessions d3 !! sid = None /\
        d_sink d3 = d_sink d ++ started :: wire ++
          [DaemonEvent.TraceFinished sid trace (outcome_name o) (turn_project_id turn)
             (turn_medium_id turn)] /\
        snapshot_log sid d3 !! length before =
          Some (if cap_reversible (hr_capabilities h) then answer else None) /\
        d_checkpoint_sink d3 = (fun got => got ++ [ReplayLedger.checkpoint n4 s]) <$> d_checkpoint_sink d
    end.
Proof.
  intros sid d3 wire before trace started.
  destruct (run_starts _ _ _ _ _ _ (proj1 (reach_bounded _ _ Hreach)) Hrun)
    as (h & ss & s0 & Hh & Hsh & _ & Hsp & Hsm & Hs0 & Hidx & Htask & Hsess & Hled & Hread & Htr
        & Hsink & Hcp).
  fold sid in Hs0, Htask, Hsess, Hled, Htr, Hsink. fold trace in Htr.
  set (t := mkTask sid (ss_trace_id ss) ss RUNNING None) in *.
  assert (before = led_turns s0) as Hbefore.
  { unfold before. rewrite Hs0. by destruct (transcript d sid). }
  assert (is_Some (live_turn d1 ss)) as Hlive.
  { unfold live_turn, ReplayLedger.turn. rewrite Hread, Hidx. simpl.
    rewrite lookup_app_r, Nat.sub_diag by done. by eexists. }
  destruct (drain_delivers (d_next_task d) evs d1 t Htask Hlive) as [Ht2 Hr2 Hs2 _ Hse2 Hl2 _ Hc2].
  set (d2 := drain (d_next_task d) evs d1) in *. fold wire in Ht2, Hs2.
  set (t2 := foldl (fun t ev => observe ev t) t wire) in *.
  destruct (foldl_observe_state wire t) as (Hst & Hsi & Hti). fold t2 in Hst, Hsi, Hti.
  destruct (observe_outcome wire t None eq_refl ltac:(done)) as [Hfs Hfe]. fold (terminal wire) in Hfs, Hfe.
  fold t2 in Hfs, Hfe. simpl in Hst, Hsi, Hti.
  change (tk_state t) with ss in Hr2. rewrite Hread, Hidx in Hr2. simpl in Hr2.
  rewrite alter_app_r_alt, Nat.sub_diag in Hr2 by done. simpl in Hr2.
  destruct (terminal wire) as [o|]; simpl in Hfs.
  - assert (is_Some (live_turn d2 (tk_state t2))) as Hlive2.
    { rewrite Hst. unfold live_turn, ReplayLedger.turn. rewrite Hr2, Hidx.
      rewrite lookup_app_r, Nat.sub_diag by done. by eexists. }
    destruct (task_end_settles (d_next_task d) answer n3 n4 n5 d2 t2 o Ht2 Hlive2 Hfs)
      as [Hr3 Hl3 Hs3 Hse3 Hsn3 Hc3]; [naive_solver|].
    fold d3 in Hr3, Hl3, Hs3, Hse3, Hsn3, Hc3. rewrite Hst, Hsi, Hti in *.
    rewrite Hr2, Hidx, alter_app_r_alt, Nat.sub_diag in Hr3 by done. simpl in Hr3.
    exists (read_ledger (ss_ledger ss) d3). eexists _, h. split_and!.
    + unfold transcript. by rewrite Hl3, Hl2, Hled.
    + by rewrite Hr3, Hbefore.
    + done.
    + done.
    + done.
    + done.
    + done.
    + rewrite Hse3. apply lookup_delete_eq.
    + rewrite Hs3, Hs2, Hsink, <- !app_assoc. simpl. by rewrite Htr, Hsp, Hsm.
    + by rewrite <- Hsh, Hbefore, <- Hidx.
    + by rewrite Hc3, Hc2, Hcp.
  - unfold d3. rewrite (task_end_suspends _ _ _ _ _ d2 t2 Ht2 Hfs).
    exists (read_ledger (ss_ledger ss) d2). eexists _, h. split_and!.
    + unfold transcript. simpl. by rewrite Hl2, Hled.
    + by rewrite Hr2, Hbefore.
    + done.
    + done.
    + done.
    + done.
    + done.
    + simpl. rewrite Hse2, Hsess. by eexists.
    + simpl. rewrite Hs2, Hsink, <- app_assoc. by rewrite Htr.
    + simpl. by rewrite Hc2, Hcp.
Qed.

(** C2: in every interleaving of port calls and stream tasks that does not cut a
    ledger under a live session, the client has been sent, the frames TraceStarted and
    TraceFinished of the runs aside, exactly the events of the sessions' streams merged:
    each once, those of a session in their order, nothing else. The events of a live
    session are the mapped image of the events its turn holds in the ledger, so the
    wire and the reversible history agree. *)
Theorem wire_matches_transcript d ss
    (Hreach : reach (fun lb d => ~ cuts_live lb d) d) (Hss : active d ss) :
  sent d ≡ₚ concat (mirrors d) /\
  exists r, live_turn d ss = Some r /\
    mirrors d !! ss_cells ss = Some (omap map_event (rec_events r)) /\
    omap map_event (rec_events r) `sublist_of` sent d.
Proof.
  assert (Inv d /\ merged d) as [HI [Hall Hord]].
  { clear Hss. induction Hreach as [registry | d lb _ [IH IHm] Hok]; [by split; [apply Inv_new | apply merged_new] |].
    by split; [apply Inv_exec | apply merged_exec]. }
  split; [exact Hall |]. destruct (inv_agree d HI _ Hss) as (r & Hr & Hw).
  destruct (inv_bound d HI _ Hss) as [_ Hc]. exists r. rewrite <- Hw. split_and!; [done | | by apply Hord].
  unfold mirrors. rewrite list_lookup_fmap, lookup_seq_lt by done. done.
Qed.

Lemma fork_isolates ok d sid k new_sid d1 r :
  reach ok d -> new_sid <> sid -> fork sid k new_sid d = (d1, r) ->
  isolated new_sid (next (d_ledger_store (ledger sid d).1)) d1 /\
  read_ledger (next (d_ledger_store (ledger sid d).1)) d1 =
    ReplayLedger.fork k new_sid (default (ReplayLedger.new sid) (transcript d sid)) /\
  transcript d1 sid = Some (default (ReplayLedger.new sid) (transcript d sid)).
Proof.
  intros Hr Hne Hf. destruct (reach_bounded _ _ Hr) as [Hb Ha]. unfold fork in Hf.
  destruct (ledger sid d) as [dl l] eqn:Hl. simpl.
  destruct (ledger_spec _ _ _ _ Hl Hb) as (Hsbl & Hbl & Hlk & Hrd & _).
  simpl in Hf. simplify_eq. rewrite <- Hrd. split_and!.
  - split; simpl.
    + apply lookup_insert_eq.
    + intros s l' Hs. simpl in *. apply lookup_insert_Some in Hs as [[_ <-]|[_ Hs]]; [lia|].
      apply Hbl in Hs. lia.
    + intros s [[-> _]|[_ Hs]]%lookup_insert_Some; [done|]. apply Hbl in Hs. lia.
    + intros ss Hss. apply (same_but_ledgers_active _ dl ss Hsbl) in Hss.
      apply Ha in Hss. pose proof (sbl_next _ _ Hsbl). lia.
  - unfold read_ledger; simpl. by rewrite fn_lookup_insert.
  - unfold transcript; simpl. rewrite lookup_insert_ne by done. rewrite Hlk. simpl.
    unfold read_ledger; simpl. apply Hbl in Hlk. rewrite fn_lookup_insert_ne; [done|lia].
Qed.

(** C29: a fork is independent. Forking [sid] at [k] into another session leaves
    [sid]'s transcript as it was; and whatever the daemon and its stream tasks do
    next, including turns still streaming into [sid], the fork keeps exactly the
    forked prefix until a call names the fork itself. *)
Theorem fork_is_independent ok d sid new_sid k lbs
    (Hreach : reach ok d) (Hne : new_sid <> sid)
    (Hlbs : Forall (fun lb => ~ writes lb new_sid) lbs) :
  let s := default (ReplayLedger.new sid) (transcript d sid) in
  let d1 := (fork sid k new_sid d).1 in
  transcript d1 sid = Some s /\
  transcript (exec_all lbs d1) new_sid = Some (ReplayLedger.fork k new_sid s).
Proof.
  intros s d1. subst d1. destruct (fork sid k new_sid d) as [d1 r] eqn:Hf. simpl.
  destruct (fork_isolates _ _ _ _ _ _ _ Hreach Hne Hf) as (Hiso & Hrd & Hsrc).
  split; [done|]. destruct (isolated_exec_all _ _ _ _ Hiso Hlbs) as [Hiso' Hrd'].
  unfold transcript. rewrite (iso_entry _ _ _ Hiso'). simpl. by rewrite Hrd', Hrd.
Qed.

(** ** Rewind *)

(** When the environment is restored, and to what. *)
Definition restores sid k (s : LedgerState) d (h : HarnessRef) (snap : HarnessSnapshot) : Prop :=
  0 < k < ReplayLedger.len s /\ snapshot_log sid d !! (k - 1) = Some (Some snap) /\
  cap_reversible (hr_capabilities h) = true /\
  exists r, ReplayLedger.turn s (k - 1) = Some r /\
    HarnessRegistry.resolve (turn_harness_id (rec_turn r)) (d_registry d) = Some h.

Lemma restore_target_spec sid k s d h snap :
  restore_target sid (k `min` ReplayLedger.len s) s d = Some (h, snap) <-> restores sid k s d h snap.
Proof.
  unfold restore_target, restores. case_bool_decide as Hk; [|split; [done|]; intros ([? ?] & _); lia].
  rewrite Nat.min_l by lia. destruct (snapshot_log sid d !! (k - 1)) as [[sn|]|]; simpl; [|naive_solver..].
  destruct (ReplayLedger.turn s (k - 1)) as [r|]; simpl; [|naive_solver].
  destruct (HarnessRegistry.resolve _ _) as [h'|] eqn:Hh; simpl.
  2:{ split; [done|]. intros (_ & _ & _ & r' & [= <-] & Hr). simpl in Hh. congruence. }
  simpl in Hh. destruct (cap_reversible (hr_capabilities h')) eqn:Hc.
  - split; [intros [= <- <-]; split_and!; eauto; lia|].
    intros (_ & [= <-] & _ & r' & [= <-] & Hr). congruence.
  - split; [done|]. intros (_ & _ & Hc' & r' & [= <-] & Hr). congruence.
Qed.

(** C28: what [rewind] does on each branch. A live session is refused and nothing
    changes; otherwise the session keeps its first [min k len] turns, the number
    dropped is reported, no other session's transcript changes, and the harness is
    asked to restore its environment exactly when turns are both kept and dropped,
    the last kept turn has a logged snapshot, and its harness is registered and
    reversible. *)
Theorem rewind_outcome ok d sid k (Hreach : reach ok d) :
  let s := default (ReplayLedger.new sid) (transcript d sid) in
  let '(d', res) := rewind sid k d in
  match d_sessions d !! sid with
  | Some _ => d' = d /\ res = Err (live_session sid)
  | None =>
      res = Ok (ReplayLedger.len s - k) /\
      led_turns <$> transcript d' sid = Some (take k (led_turns s)) /\
      (forall sid' l, d_ledgers d !! sid' = Some l -> d_ledgers d !! sid <> Some l ->
         transcript d' sid' = transcript d sid') /\
      exists calls, d_calls d' = d_calls d ++ calls /\
        (forall h snap, In (CallRestore h sid snap) calls <-> restores sid k s d h snap) /\
        length calls <= 1
  end.
Proof.
  intros s. unfold rewind. destruct (d_sessions d !! sid) eqn:Hlive; [done|].
  destruct (ledger sid d) as [d1 l] eqn:Hl.
  destruct (ledger_spec _ _ _ _ Hl (proj1 (reach_bounded _ _ Hreach))) as
    (Hsbl & Hb & Hlk & Hrd & Hoth & _). fold s in Hrd. rewrite Hrd.
  set (k' := k `min` ReplayLedger.len s).
  assert (restore_target sid k' s d1 = restore_target sid k' s d) as Htgt.
  { unfold restore_target, snapshot_log. by rewrite (sbl_snapshots _ _ Hsbl), (sbl_registry _ _ Hsbl). }
  assert (d_calls d1 = d_calls d) as Hcalls.
  { unfold ledger in Hl. destruct (d_ledgers d !! sid); simpl in Hl; by simplify_eq. }
  rewrite Htgt. set (calls := match restore_target sid k' s d with
    | Some (h, snap) => [CallRestore h sid snap] | None => [] end).
  set (d2 := match restore_target sid k' s d with Some (h, snap) => _ | None => d1 end).
  assert (d_calls d2 = d_calls d ++ calls /\ d_ledgers d2 = d_ledgers d1 /\
    d_ledger_store d2 = d_ledger_store d1) as (Hc2 & Hl2 & Hst2).
  { unfold d2, calls. destruct (restore_target sid k' s d) as [[h sn]|]; simpl;
      rewrite <- Hcalls, ?app_nil_r; done. }
  assert (read_ledger l d2 = s) as Hrd2 by (unfold read_ledger in *; by rewrite Hst2).
  destruct (ReplayLedger.rewind_to k' (read_ledger l d2)) as [s' removed] eqn:Hrw.
  pose proof (ReplayLedger.rewind_turns k' s) as Ht. pose proof (ReplayLedger.rewind_removed k' s) as Hrm.
  rewrite Hrd2 in Hrw. rewrite Hrw in Ht, Hrm. simpl in Ht, Hrm. subst removed. split_and!.
  - f_equal. unfold k'. lia.
  - unfold transcript. simpl. rewrite Hl2, Hlk. simpl. rewrite read_write_eq, Ht. f_equal.
    unfold k', ReplayLedger.len. rewrite <- take_take. by rewrite (take_ge (led_turns s)).
  - intros sid' l' Hl' Hne. assert (sid' <> sid) as Hs by naive_solver.
    unfold transcript. simpl. rewrite Hl2, Hoth, Hl' by done. simpl.
    assert (l <> l') as Hll.
    { intros ->. destruct (d_ledgers d !! sid) eqn:Hd.
      - unfold ledger in Hl. rewrite Hd in Hl. by simplify_eq.
      - unfold ledger in Hl. rewrite Hd in Hl. simpl in Hl. simplify_eq.
        apply (proj1 (reach_bounded _ _ Hreach)) in Hl'. lia. }
    rewrite read_write_ne by done. unfold read_ledger in *. rewrite Hst2.
    f_equal. apply Hsbl. by eapply (proj1 (reach_bounded _ _ Hreach)).
  - exists calls. split_and!; [done| |unfold calls; destruct (restore_target sid k' s d) as [[]|]; simpl; lia].
    intros h sn. rewrite <- restore_target_spec. fold k'. unfold calls.
    destruct (restore_target sid k' s d) as [[h' sn']|]; simpl; naive_solver.
Qed.

(** ** Serial use

    A client that starts a turn only on a session without a live one, and resumes
    only a session no stream is feeding. *)

Definition serial (lb : label) d : Prop :=
  match lb with
  | LRun _ _ _ turn => d_sessions d !! turn_session_id turn = None
  | LResume sid _ _ _ | LResumeCommand sid _ _ =>
      forall tid t, d_tasks d !! tid = Some t -> tk_session_id t <> sid
  | _ => True
  end.

Record guarded (tasks : gmap nat Task) (sessions : gmap SessionId SessionState) : Prop := {
  gd_live : forall tid t, tasks !! tid = Some t ->
    sessions !! tk_session_id t = Some (tk_state t);
  gd_one : forall tid1 tid2 t1 t2, tasks !! tid1 = Some t1 -> tasks !! tid2 = Some t2 ->
    tk_session_id t1 = tk_session_id t2 -> tid1 = tid2;
}.

Lemma guarded_spawn tasks sessions tid sid tr ss :
  guarded tasks sessions -> sessions !! sid = Some ss ->
  (forall tid' t, tasks !! tid' = Some t -> tk_session_id t <> sid) ->
  guarded (<[tid := mkTask sid tr ss RUNNING None]> tasks) sessions.
Proof.
  intros [Hl Ho] Hs Hno. split.
  - intros tid' t [[_ <-]|[_ Ht]]%lookup_insert_Some; [done|by eapply Hl].
  - intros tid1 tid2 t1 t2 [[<- <-]|[Hn1 H1]]%lookup_insert_Some
      [[<- <-]|[Hn2 H2]]%lookup_insert_Some Heq; simpl in *; [done| | |by eapply Ho].
    + by destruct (Hno _ _ H2).
    + by destruct (Hno _ _ H1).
Qed.

Lemma guarded_insert tasks sessions sid ss :
  guarded tasks sessions -> sessions !! sid = None -> guarded tasks (<[sid := ss]> sessions).
Proof.
  intros [Hl Ho] Hs. split; [|done]. intros tid t Ht. specialize (Hl _ _ Ht).
  rewrite lookup_insert_ne; [done|]. naive_solver.
Qed.

Lemma guarded_delete tasks sessions tid t :
  guarded tasks sessions -> tasks !! tid = Some t ->
  guarded (delete tid tasks) sessions /\
  guarded (delete tid tasks) (delete (tk_session_id t) sessions).
Proof.
  intros [Hl Ho] Ht. split; split.
  - intros tid' t' [_ Ht']%lookup_delete_Some. by eapply Hl.
  - intros tid1 tid2 t1 t2 [_ H1]%lookup_delete_Some [_ H2]%lookup_delete_Some. by eapply Ho.
  - intros tid' t' [Hne Ht']%lookup_delete_Some. rewrite lookup_delete_ne; [by eapply Hl|].
    intros Heq. apply Hne. by eapply Ho.
  - intros tid1 tid2 t1 t2 [_ H1]%lookup_delete_Some [_ H2]%lookup_delete_Some. by eapply Ho.
Qed.

Lemma guarded_observe tasks sessions tid t ev :
  guarded tasks sessions -> tasks !! tid = Some t ->
  guarded (<[tid := observe ev t]> tasks) sessions.
Proof.
  intros [Hl Ho] Ht. split.
  - intros tid' t' [[_ <-]|[_ H]]%lookup_insert_Some; [|by eapply Hl].
    rewrite observe_session, observe_state. by eapply Hl.
  - intros tid1 tid2 t1 t2 [[<- <-]|[_ H1]]%lookup_insert_Some [[<- <-]|[_ H2]]%lookup_insert_Some;
      rewrite ?observe_session; [done|by eapply Ho..].
Qed.

Definition guarded_state d : Prop := guarded (d_tasks d) (d_sessions d).

Lemma guarded_ledger sid d d' l : ledger sid d = (d', l) -> guarded_state d -> guarded_state d'.
Proof. unfold ledger, guarded_state. destruct (d_ledgers d !! sid); simpl; intros; by simplify_eq/=. Qed.

Lemma guarded_settle_with {A} sid (f : LedgerState -> result ReplayError.t (LedgerState * A)) d :
  guarded_state d -> guarded_state (settle_with sid f d).1.
Proof.
  intros H. unfold settle_with. destruct (ledger sid d) as [d1 l] eqn:Hl.
  apply (guarded_ledger _ _ _ _ Hl) in H. by destruct (f _) as [[s a]|e].
Qed.

Lemma guarded_run n1 n2 mkdir turn d :
  guarded_state d -> d_sessions d !! turn_session_id turn = None ->
  guarded_state (run n1 n2 mkdir turn d).1.
Proof.
  intros H Hs. destruct (run n1 n2 mkdir turn d) as [d' [[]|e]] eqn:Hrun.
  2:{ pose proof (run_Err n1 n2 mkdir turn d e) as He. rewrite Hrun in He. simpl in *. by rewrite He. }
  apply run_Ok in Hrun as (h & d0 & d1 & l & _ & Hp & Hl & Hse & Ht & _).
  apply prepare_workspace_core in Hp as [(Ht0 & Hs0 & _) _].
  assert (guarded_state d0) as H0 by (unfold guarded_state; by rewrite Ht0, Hs0).
  pose proof (guarded_ledger _ _ _ _ Hl H0) as H1.
  assert (d_sessions d1 !! turn_session_id turn = None) as Hs1.
  { rewrite <- Hs, <- Hs0. unfold ledger in Hl. destruct (d_ledgers d0 !! _); simpl in Hl; by simplify_eq. }
  unfold guarded_state in *. simpl. rewrite Hse, Ht. apply guarded_spawn.
  - by apply guarded_insert.
  - apply lookup_insert_eq.
  - intros tid t Htid Heq. apply (gd_live _ _ H1) in Htid. congruence.
Qed.

Lemma guarded_task_event tid ev d : guarded_state d -> guarded_state (task_event tid ev d).
Proof.
  intros H. unfold task_event. destruct (d_tasks d !! tid) as [t|] eqn:Ht; [|done].
  unfold ledger_append. destruct (ReplayLedger.append_events_to _ _ _), (map_event ev);
    try done; by apply guarded_observe.
Qed.

Lemma guarded_task_end tid answer n1 n2 n3 d :
  guarded_state d -> guarded_state (task_end tid answer n1 n2 n3 d).
Proof.
  intros H. unfold task_end. destruct (d_tasks d !! tid) as [t|] eqn:Ht; [|done].
  destruct (guarded_delete _ _ _ _ H Ht) as [H1 H2]. case_bool_decide; [done|].
  unfold ledger_settle, capture_snapshot, persist.
  destruct (ReplayLedger.settle_turn_at _ _ _ _) as [s|]; destruct (cap_reversible _); simpl;
    destruct (d_checkpoint_sink d); done.
Qed.

Lemma guarded_exec lb d : guarded_state d -> serial lb d -> guarded_state (exec lb d).
Proof.
  intros H Hser. destruct lb; simpl in *; try done.
  - by apply guarded_run.
  - unfold resume. destruct (d_sessions d !! sid) eqn:Hs; [|done].
    destruct answers; [|done]. by apply guarded_spawn.
  - unfold resume_command. destruct (d_sessions d !! sid) eqn:Hs; [|done].
    destruct answers; [|done]. by apply guarded_spawn.
  - unfold cancel. by destruct (d_sessions d !! sid).
  - unfold rewind. destruct (d_sessions d !! sid); [done|].
    destruct (ledger sid d) as [d1 l] eqn:Hl. apply (guarded_ledger _ _ _ _ Hl) in H.
    destruct (restore_target _ _ _ _) as [[h sn]|]; by destruct (ReplayLedger.rewind_to _ _).
  - unfold fork. destruct (ledger sid d) as [d1 l] eqn:Hl. by apply (guarded_ledger _ _ _ _ Hl) in H.
  - unfold replay. destruct (ledger sid d) as [d1 l] eqn:Hl. by apply (guarded_ledger _ _ _ _ Hl) in H.
  - by apply guarded_settle_with.
  - by apply guarded_settle_with.
  - by apply guarded_settle_with.
  - by apply guarded_settle_with.
  - by apply guarded_task_event.
  - by apply guarded_task_end.
Qed.

(** C30: as long as turns are started and resumed one at a time per session, a
    session a stream is still feeding is in the session table with the state that
    stream records into, so a rewind of it is refused without effect, and the
    turn can be cancelled. *)
Theorem streaming_session_is_guarded d tid t k
    (Hreach : reach serial d) (Ht : d_tasks d !! tid = Some t) :
  d_sessions d !! tk_session_id t = Some (tk_state t) /\
  rewind (tk_session_id t) k d = (d, Err (live_session (tk_session_id t))) /\
  (cancel (tk_session_id t) d).2 = Ok tt.
Proof.
  assert (guarded_state d) as H.
  { clear Ht. induction Hreach as [registry|d lb _ IH Hok]; [|by apply guarded_exec].
    split; simpl; intros *; by rewrite lookup_empty. }
  apply (gd_live _ _ H) in Ht. unfold rewind, cancel. by rewrite Ht.
Qed.

(** ** The registry *)

Lemma str_leb_total s t : str_leb s t = true \/ str_leb t s = true.
Proof.
  revert t. induction s as [|a s IH]; intros [|b t]; simpl; auto.
  destruct (IH t); destruct (N.ltb_spec a b), (N.ltb_spec b a), (N.eqb_spec a b), (N.eqb_spec b a);
    simpl; try lia; auto.
Qed.

#[export] Instance harness_id_le_total : Total (@harness_id_le).
Proof. intros a b. apply str_leb_total. Qed.

(** [list_harnesses] lists every registered harness once, in id order. *)
Theorem list_harnesses_sorted d :
  Sorted harness_id_le (list_harnesses d) /\ NoDup (list_harnesses d) /\
  forall id, id ∈ list_harnesses d <-> is_Some (HarnessRegistry.resolve id (d_registry d)).
Proof.
  unfold list_harnesses. split_and!.
  - apply Sorted_merge_sort. apply _.
  - rewrite merge_sort_Permutation. apply NoDup_fst_map_to_list.
  - intros id. rewrite merge_sort_Permutation. unfold HarnessRegistry.list, HarnessRegistry.resolve.
    rewrite list_elem_of_fmap. split.
    + intros ([i h] & -> & Hin). apply elem_of_map_to_list in Hin. by eexists.
    + intros [h Hh]. exists (id, h). split; [done|]. by apply elem_of_map_to_list.
Qed.
End props.
End DaemonProps.

(** ** Witnesses *)

Module DaemonWitness.
Import Daemon DaemonFacts DaemonWire.DaemonWire DaemonProps.
#[local] Existing Instance demo_externs.

Definition s1 : SessionId := mkSessionId (lit "s1").
Definition s2 : SessionId := mkSessionId (lit "s2").
Definition mock : HarnessRef := mkHarnessRef (mkHarnessId (lit "mock"))
  (mkHarnessCapabilities false false SandboxLevel.AllowList [] true).
Definition demo_turn (sid : SessionId) (goal : string) : HarnessTurn :=
  new_turn (mkHarnessId (lit "mock")) sid (lit goal).

Definition env : HarnessSnapshot := @mkHarnessSnapshot demo_externs (lit "env") tt.

Definition d0 : DaemonState := new {[hr_id mock := mock]}.
Definition start (sid : SessionId) (goal : string) : label :=
  @LRun demo_externs 0 1 (Ok tt) (demo_turn sid goal).
Definition finish (tid : nat) (sid : SessionId) : list label :=
  [LTaskEvent tid (HarnessServerEvent.AssistantDelta sid (lit "hi"));
   LTaskEvent tid (HarnessServerEvent.Done sid);
   @LTaskEnd demo_externs tid (Some env) 2 3 4].
(** One turn run to its end, then a second one still streaming. *)
Definition history : list label := start s1 "a" :: finish 0 s1 ++ [start s1 "b"].
Definition d1 : DaemonState := exec_all history d0.

Fixpoint ok_along (ok : label -> DaemonState -> Prop) (lbs : list label) (d : DaemonState) : Prop :=
  match lbs with
  | [] => True
  | lb :: lbs' => ok lb d /\ ok_along ok lbs' (exec lb d)
  end.

Lemma reach_exec_all ok lbs d : reach ok d -> ok_along ok lbs d -> reach ok (exec_all lbs d).
Proof.
  revert d. induction lbs as [|lb lbs IH]; intros d Hd Hok; [done|].
  destruct Hok as [H Hok]. simpl. apply IH; [|done]. by constructor.
Qed.

Definition any (lb : label) (d : DaemonState) : Prop := True.

Lemma reach_any lbs : reach any (exec_all lbs d0).
Proof.
  apply reach_exec_all; [constructor|]. generalize d0.
  induction lbs; intros; simpl; [done|by split].
Qed.

Theorem turn_lifecycle_witness :
  let d3 := exec_all (start s1 "a" :: finish 0 s1) d0 in
  exists s r, transcript d3 s1 = Some s /\ led_turns s = [r] /\
    rec_status r = TurnStatus.Success /\ d_sessions d3 !! s1 = None.
Proof.
  destruct (@turn_lifecycle demo_externs any 0 1 2 3 4 (Ok tt) (demo_turn s1 "a") d0
    (exec (start s1 "a") d0)
    [HarnessServerEvent.AssistantDelta s1 (lit "hi"); HarnessServerEvent.Done s1]
    (Some env) (reach_any []))
    as (s & r & h & Hs & Hr & _ & _ & _ & H & _ & Hl & _).
  - by vm_compute.
  - by exists s, r.
Defined.

Theorem wire_matches_transcript_witness :
  sent d1 ≡ₚ concat (mirrors d1) /\
  exists ss r, d_sessions d1 !! s1 = Some ss /\ live_turn d1 ss = Some r /\
    mirrors d1 !! ss_cells ss = Some (omap map_event (rec_events r)) /\
    omap map_event (rec_events r) `sublist_of` sent d1.
Proof.
  destruct (d_sessions d1 !! s1) as [ss|] eqn:Hss; [|by vm_compute in Hss].
  destruct (wire_matches_transcript d1 ss) as (Hall & r & Hr & Hw).
  - apply reach_exec_all; [constructor|]. repeat (split; [by intros []|]). done.
  - right. by exists s1.
  - split; [exact Hall |]. by exists ss, r.
Defined.

Theorem fork_is_independent_witness :
  led_turns <$> transcript (exec_all (finish 1 s1) (fork s1 1 s2 d1).1) s2
    = Some (take 1 (from_option led_turns [] (transcript d1 s1))).
Proof.
  destruct (fork_is_independent any d1 s1 s2 1 (finish 1 s1) (reach_any history)) as [_ H].
  - by vm_compute.
  - repeat constructor; by intros [].
  - rewrite H. by vm_compute.
Defined.

Theorem rewind_outcome_witness :
  let d := exec_all (history ++ finish 1 s1) d0 in
  (rewind s1 1 d).2 = Ok 1 /\
  exists calls, d_calls (rewind s1 1 d).1 = d_calls d ++ calls /\ length calls <= 1.
Proof.
  pose proof (rewind_outcome any (exec_all (history ++ finish 1 s1) d0) s1 1 (reach_any _)) as H.
  destruct (rewind s1 1 _) as [d' res] eqn:Hr.
  destruct (d_sessions _ !! s1) eqn:Hs; [by vm_compute in Hs|].
  destruct H as (-> & _ & _ & calls & Hc & _ & Hle). cbv zeta. rewrite Hr. split.
  - vm_compute. reflexivity.
  - exists calls. exact (conj Hc Hle).
Defined.

Theorem streaming_session_is_guarded_witness :
  is_Some (d_tasks d1 !! 1) /\ (rewind s1 0 d1).2 = Err (live_session s1).
Proof.
  destruct (d_tasks d1 !! 1) as [t|] eqn:Ht; [|by vm_compute in Ht].
  destruct (streaming_session_is_guarded d1 1 t 0) as (_ & H & _); [|done|].
  - apply reach_exec_all; [constructor|]. repeat (split; [by vm_compute|]). done.
  - split; [by eexists|].
    assert (tk_session_id t = s1) as Hs by (by vm_compute in Ht; simplify_eq).
    rewrite Hs in H. by rewrite H.
Defined.

(** Two turns run at once on one session: when the first stream ends it removes
    the session's entry, which by then is the second run's.  The second task still
    streams into the ledger, yet it cannot be cancelled, and a rewind is accepted
    and drops its turn. *)
Theorem overlapping_runs_lose_the_session :
  let d := exec_all (start s1 "a" :: start s1 "b" :: finish 0 s1) d0 in
  is_Some (d_tasks d !! 1) /\ d_sessions d !! s1 = None /\
  (cancel s1 d).2 = Err (no_live_session s1) /\
  (rewind s1 1 d).2 = Ok 1.
Proof. cbv zeta. split_and!; [eexists; vm_compute; reflexivity|vm_compute; reflexivity..]. Qed.

(** Only [rewind] refuses a live session: [discard] drops the turn a stream is
    recording, and the events that follow reach the client but not the ledger. *)
Theorem discard_cuts_a_live_turn :
  let d := exec (LTaskEvent 0 (HarnessServerEvent.AssistantDelta s1 (lit "hi")))
    (exec_all [start s1 "a"; LDiscard s1 0] d0) in
  is_Some (d_sessions d !! s1) /\
  led_turns <$> transcript d s1 = Some [] /\
  last (d_sink d) = Some (DaemonEvent.AssistantDelta s1 (lit "hi")).
Proof. cbv zeta. split_and!; [eexists; vm_compute; reflexivity|vm_compute; reflexivity..]. Qed.
End DaemonWitness.
