(* ===== verification/Workflow.v ===== *)
(** * [crates/goble-workflow], [lib.rs] and [schedule.rs]: workflows and their engine

    The workflow model (identifiers, triggers, steps, runs), the step engine that
    runs a workflow against a [StepExecutor], and the cron normalisation of its
    schedules.  Script bodies are in [WorkflowScript.v], with the two operations
    of a [Workflow] that compile one ([with_script] and [validate]). *)

From S2P Require Import Prelude Text HarnessProtocol.

(** ** Data *)

Record WorkflowId : Type := mkWorkflowId { workflow_id_0 : Str }.
Record StepId : Type := mkStepId { step_id_0 : Str }.

#[export] Instance WorkflowId_eq_dec : EqDecision WorkflowId.
Proof. solve_decision. Defined.
#[export] Instance StepId_eq_dec : EqDecision StepId.
Proof. solve_decision. Defined.
#[export] Instance WorkflowId_countable : Countable WorkflowId.
Proof. refine (inj_countable' workflow_id_0 mkWorkflowId _). by intros []. Defined.
#[export] Instance StepId_countable : Countable StepId.
Proof. refine (inj_countable' step_id_0 mkStepId _). by intros []. Defined.

(** [WorkflowId::default]. *)
Definition WorkflowId_default : WorkflowId := mkWorkflowId (lit "default").

Module Trigger.
Inductive t : Type := Manual | Schedule (cron : Str) | Event (event : Str).
End Trigger.

Record Step : Type := mkStep { st_id : StepId; st_name : Str }.

(** [Step::new]. *)
Definition new_step (id name : Str) : Step := mkStep (mkStepId id) name.

Record Workflow : Type := mkWorkflow {
  wf_id : WorkflowId;
  wf_name : Str;
  wf_steps : list Step;
  wf_trigger : Trigger.t;
  wf_script : option Str;
}.

Module WorkflowError.
Inductive t : Type :=
| NoSteps (id : WorkflowId)
| DuplicateStepId (id : StepId)
| Script (message : Str)
| Cron (message : Str).
End WorkflowError.

Module StepOutcome.
Inductive t : Type := Succeeded | Failed (message : Str).
End StepOutcome.

Module StepStatus.
Inductive t : Type := Skipped | Succeeded | Failed (message : Str).
End StepStatus.

Module RunStatus.
Inductive t : Type := Running | Succeeded | Failed (message : Str).
End RunStatus.

#[export] Instance StepStatus_eq_dec : EqDecision StepStatus.t.
Proof. solve_decision. Defined.
#[export] Instance RunStatus_eq_dec : EqDecision RunStatus.t.
Proof. solve_decision. Defined.

Section data.
Context {X : Externs}.

Record StepExecution : Type := mkStepExecution {
  se_index : nat;
  se_step_id : StepId;
  se_name : Str;
  se_status : StepStatus.t;
  se_started_at : Instant;
  se_finished_at : option Instant;
}.

Record WorkflowRun : Type := mkWorkflowRun {
  wr_workflow_id : WorkflowId;
  wr_status : RunStatus.t;
  wr_steps : list StepExecution;
  wr_started_at : Instant;
  wr_finished_at : option Instant;
  wr_output : option Json;
  wr_log : list Str;
}.

Record WorkflowHostRequest : Type := mkWorkflowHostRequest {
  hq_seq : N;
  hq_request_id : Str;
  hq_workflow_id : WorkflowId;
  hq_trigger : Trigger.t;
  hq_payload : Json;
  hq_submitted_at : Instant;
}.

(** [WorkflowHostRequest::new]; [now] is the clock. *)
Definition new_request (now : Instant) (seq : N) (request_id : Str) (workflow_id : WorkflowId)
    (trigger : Trigger.t) (payload : Json) : WorkflowHostRequest :=
  {| hq_seq := seq;
     hq_request_id := request_id;
     hq_workflow_id := workflow_id;
     hq_trigger := trigger;
     hq_payload := payload;
     hq_submitted_at := now |}.
End data.

(** ** Building a workflow *)

Module WorkflowBuilder.
Definition new (id : WorkflowId) (name : Str) : Workflow :=
  mkWorkflow id name [] Trigger.Manual None.
Definition with_steps (steps : list Step) (w : Workflow) : Workflow :=
  mkWorkflow (wf_id w) (wf_name w) steps (wf_trigger w) (wf_script w).
Definition with_step (step : Step) (w : Workflow) : Workflow :=
  mkWorkflow (wf_id w) (wf_name w) (wf_steps w ++ [step]) (wf_trigger w) (wf_script w).
Definition with_trigger (trigger : Trigger.t) (w : Workflow) : Workflow :=
  mkWorkflow (wf_id w) (wf_name w) (wf_steps w) trigger (wf_script w).
End WorkflowBuilder.

(** [slug]: the loop carries [out] and [dash]. *)
Definition DASH : char := 45%N.

Definition slug_step (acc : Str * bool) (ch : char) : Str * bool :=
  let '(out, dash) := acc in
  if is_ascii_alphanumeric ch then
    let out := if dash && negb (bool_decide (out = [])) then out ++ [DASH] else out in
    (out ++ [to_ascii_lowercase ch], false)
  else (out, true).

Definition slug (title : Str) : Str :=
  let '(out, _) := foldl slug_step ([], false) title in
  if bool_decide (out = []) then lit "phase" else out.

(** The duplicate scan of [validate]: the ids seen so far, the steps left. *)
Fixpoint duplicate_step (seen : gset StepId) (steps : list Step) : option StepId :=
  match steps with
  | [] => None
  | step :: steps' =>
      if bool_decide (st_id step ∈ seen) then Some (st_id step)
      else duplicate_step ({[st_id step]} ∪ seen) steps'
  end.

(** ** The engine *)

(** [trait StepExecutor], over the state its implementation may keep. *)
Class StepExecutor (E : Type) : Type := {
  run_step : Step -> E -> E * StepOutcome.t;
}.

Record MockStep : Type := mkMockStep { outcomes : gmap Str StepOutcome.t }.

Module MockSteps.
Definition new : MockStep := mkMockStep ∅.
Definition with_outcome (step : Str) (outcome : StepOutcome.t) (m : MockStep) : MockStep :=
  mkMockStep (<[step := outcome]> (outcomes m)).
Definition fail_step (step : Str) (m : MockStep) : MockStep :=
  mkMockStep (<[step := StepOutcome.Failed (lit "forced failure for " ++ step)]> (outcomes m)).
Definition outcome_for (m : MockStep) (step : Step) : StepOutcome.t :=
  default StepOutcome.Succeeded
    (match outcomes m !! step_id_0 (st_id step) with
     | Some o => Some o
     | None => outcomes m !! st_name step
     end).
End MockSteps.

#[export] Instance MockStep_executor : StepExecutor MockStep := {
  run_step step m := (m, MockSteps.outcome_for m step);
}.

Module WorkflowEngine.
Section engine.
Context {X : Externs} {E : Type} `{StepExecutor E}.
(** The clock: [Utc::now()] number [i] of a run reads [now i]. *)
Context (now : nat -> Instant).

Definition execution (index : nat) (step : Step) (status : StepStatus.t) (started finished : Instant)
    : StepExecution :=
  {| se_index := index;
     se_step_id := st_id step;
     se_name := st_name step;
     se_status := status;
     se_started_at := started;
     se_finished_at := Some finished |}.

(** The loop of [run] from step [index] on: the executor, the status log of the
    steps left, and the message of the failure with the time it was seen. *)
Fixpoint run_steps (index : nat) (steps : list Step) (e : E)
    : E * list StepExecution * option (Str * Instant) :=
  match steps with
  | [] => (e, [], None)
  | step :: rest =>
      let step_started := now (1 + 2 * index) in
      let '(e, outcome) := run_step step e in
      let finished := now (2 + 2 * index) in
      match outcome with
      | StepOutcome.Succeeded =>
          let '(e, log, failed) := run_steps (S index) rest e in
          (e, execution index step StepStatus.Succeeded step_started finished :: log, failed)
      | StepOutcome.Failed msg =>
          (e, execution index step (StepStatus.Failed msg) step_started finished ::
              imap (fun i remaining =>
                execution (S index + i) remaining StepStatus.Skipped finished finished) rest,
           Some (msg, finished))
      end
  end.

Definition run (w : Workflow) (e : E) : E * WorkflowRun :=
  let started_at := now 0 in
  let '(e, steps, failed) := run_steps 0 (wf_steps w) e in
  let '(status, finished_at) :=
    match failed with
    | Some (msg, at_) => (RunStatus.Failed msg, at_)
    | None => (RunStatus.Succeeded, now (1 + 2 * length (wf_steps w)))
    end in
  (e, {| wr_workflow_id := wf_id w;
         wr_status := status;
         wr_steps := steps;
         wr_started_at := started_at;
         wr_finished_at := Some finished_at;
         wr_output := None;
         wr_log := [] |}).

(** ** What a run's log records

    The executor's answers, one after the other, up to and including its first
    failure; [None] in the second component when every step succeeds. *)
Fixpoint outcomes_until (steps : list Step) (e : E) : E * nat * option Str :=
  match steps with
  | [] => (e, 0, None)
  | step :: rest =>
      match run_step step e with
      | (e, StepOutcome.Succeeded) =>
          let '(e, n, failed) := outcomes_until rest e in (e, S n, failed)
      | (e, StepOutcome.Failed msg) => (e, 0, Some msg)
      end
  end.

(** The status of step [i] when [n] steps succeeded before the failure. *)
Definition status_at (n : nat) (failed : option Str) (i : nat) : StepStatus.t :=
  if decide (i < n) then StepStatus.Succeeded
  else if decide (i = n) then from_option StepStatus.Failed StepStatus.Skipped failed
  else StepStatus.Skipped.

Lemma outcomes_le steps e : (outcomes_until steps e).1.2 <= length steps.
Proof.
  revert e. induction steps as [|step rest IH]; intros e; simpl; [done|].
  destruct (run_step step e) as [e' []]; simpl; [|lia].
  specialize (IH e'). destruct (outcomes_until rest e') as [[? n] f]; simpl in *. lia.
Qed.

Lemma outcomes_success steps e :
  (outcomes_until steps e).2 = None <-> (outcomes_until steps e).1.2 = length steps.
Proof.
  revert e. induction steps as [|step rest IH]; intros e; simpl; [done|].
  destruct (run_step step e) as [e' []]; simpl; [|split; [done|lia]].
  specialize (IH e'). destruct (outcomes_until rest e') as [[? n] f]; simpl in *. rewrite IH. lia.
Qed.

Lemma run_steps_spec index steps e :
  let '(e', log, failed) := run_steps index steps e in
  let '(e'', n, failure) := outcomes_until steps e in
  e' = e'' /\ fst <$> failed = failure /\ length log = length steps /\
  (forall i step, steps !! i = Some step -> exists x, log !! i = Some x /\
    se_index x = index + i /\ se_step_id x = st_id step /\ se_name x = st_name step /\
    se_status x = status_at n failure i).
Proof.
  revert index e. induction steps as [|step rest IH]; intros index e; simpl.
  { split_and!; [done..|]. intros i step Hi. done. }
  destruct (run_step step e) as [e' [|msg]].
  - specialize (IH (S index) e'). destruct (run_steps (S index) rest e') as [[e1 log] failed].
    destruct (outcomes_until rest e') as [[e2 n] failure].
    destruct IH as (-> & <- & Hlen & IH). split_and!; [done|done|simpl; by f_equal|].
    intros [|i] st Hi; simpl in Hi.
    + simplify_eq. eexists. split; [done|]. split_and!; simpl; (done || lia).
    + destruct (IH _ _ Hi) as (x & Hx & Hi' & Hid & Hn & Hs). exists x. split_and!; try done.
      * lia.
      * rewrite Hs. unfold status_at. repeat case_decide; (done || lia).
  - split_and!; [done|done|simpl; by rewrite length_imap|].
    intros [|i] st Hi; simpl in Hi.
    + simplify_eq. eexists. split; [done|]. split_and!; simpl; (done || lia).
    + simpl. rewrite list_lookup_imap, Hi. simpl. eexists. split; [done|].
      split_and!; simpl; (done || lia).
Qed.

Lemma engine_run_id (w : Workflow) (e : E) : wr_workflow_id (run w e).2 = wf_id w.
Proof. unfold run. by destruct (run_steps 0 (wf_steps w) e) as [[? ?] [[]|]]. Qed.

(** An engine run settles. Every step of the workflow has one entry in the
    status log, in declaration order, with its own position, id and name; the
    executor is asked up to and including the first failing step and no further;
    the steps before it succeeded, it failed with its message, the ones after it
    are skipped, and the run's status and finish time say so. *)
Theorem engine_run_settles (w : Workflow) (e : E) :
  let '(e', r) := run w e in
  let '(e'', n, failure) := outcomes_until (wf_steps w) e in
  e' = e'' /\ wr_workflow_id r = wf_id w /\
  wr_status r = from_option RunStatus.Failed RunStatus.Succeeded failure /\
  is_Some (wr_finished_at r) /\ length (wr_steps r) = length (wf_steps w) /\
  (failure = None <-> n = length (wf_steps w)) /\
  forall i step, wf_steps w !! i = Some step -> exists x, wr_steps r !! i = Some x /\
    se_index x = i /\ se_step_id x = st_id step /\ se_name x = st_name step /\
    se_status x = status_at n failure i.
Proof.
  unfold run. pose proof (run_steps_spec 0 (wf_steps w) e) as Hs.
  pose proof (outcomes_success (wf_steps w) e) as Hn.
  destruct (run_steps 0 (wf_steps w) e) as [[e1 log] failed].
  destruct (outcomes_until (wf_steps w) e) as [[e2 n] failure].
  destruct Hs as (-> & <- & Hlen & Hs).
  destruct failed as [[msg at_]|]; simpl in *; split_and!; try done; by eexists.
Qed.
End engine.
End WorkflowEngine.

(** ** Slugs *)

Module Slug.
Definition slug_char (c : char) : bool := is_ascii_lowercase c || is_ascii_digit c.

(** The maximal runs of letters and digits of a title, in lower case, [run]
    being the one in progress. *)
Fixpoint words (run : Str) (title : Str) : list Str :=
  match title with
  | [] => if bool_decide (run = []) then [] else [run]
  | c :: title' =>
      if is_ascii_alphanumeric c then words (run ++ [to_ascii_lowercase c]) title'
      else if bool_decide (run = []) then words [] title' else run :: words [] title'
  end.

Fixpoint join (sep : char) (ws : list Str) : Str :=
  match ws with
  | [] => []
  | [w] => w
  | w :: ws' => w ++ sep :: join sep ws'
  end.

Definition slug_word (w : Str) : Prop := w <> [] /\ Forall (fun c => slug_char c = true) w.

Definition glue (a b : Str) : Str :=
  if bool_decide (b = []) then a else if bool_decide (a = []) then b else a ++ DASH :: b.

Ltac char_cases :=
  unfold slug_char, is_ascii_alphanumeric, is_ascii_alphabetic, to_ascii_lowercase,
    is_ascii_uppercase, is_ascii_lowercase, is_ascii_digit in *;
  repeat match goal with
  | |- context [(?a <=? ?b)%N] => destruct (N.leb_spec a b)
  | H : context [(?a <=? ?b)%N] |- _ => destruct (N.leb_spec a b)
  end; simpl in *; try (done || lia).

Lemma to_lower_slug_char c : is_ascii_alphanumeric c = true -> slug_char (to_ascii_lowercase c) = true.
Proof. intros H. char_cases. Qed.

Lemma slug_char_alphanumeric c : slug_char c = true ->
  is_ascii_alphanumeric c = true /\ to_ascii_lowercase c = c.
Proof. intros H. char_cases. Qed.

Lemma join_cons sep w ws : join sep (w :: ws) = if bool_decide (ws = []) then w else w ++ sep :: join sep ws.
Proof. by destruct ws. Qed.

Lemma join_nil sep ws : Forall (fun w => w <> []) ws -> join sep ws = [] <-> ws = [].
Proof.
  intros H. split; [|by intros ->]. destruct H as [|w ws Hw _]; [done|].
  rewrite join_cons. case_bool_decide; intros Hj; [done|]. by destruct w.
Qed.

Lemma words_slug_words run title : Forall (fun c => slug_char c = true) run ->
  Forall slug_word (words run title).
Proof.
  revert run. induction title as [|c title IH]; intros run Hrun; simpl.
  - case_bool_decide; repeat constructor; done.
  - destruct (is_ascii_alphanumeric c) eqn:Hc.
    + apply IH, Forall_app_2; [done|]. by repeat constructor; apply to_lower_slug_char.
    + case_bool_decide; [by apply IH|]. constructor; [done|by apply IH].
Qed.

Lemma words_nonempty run title : Forall (fun w => w <> []) (words run title).
Proof.
  revert run. induction title as [|c title IH]; intros run; simpl.
  - case_bool_decide; by repeat constructor.
  - case_match; [apply IH|]. case_bool_decide; [apply IH|by constructor].
Qed.

Lemma words_app w title run : Forall (fun c => slug_char c = true) w ->
  words run (w ++ title) = words (run ++ w) title.
Proof.
  intros Hw. revert run. induction Hw as [|c w Hc _ IH]; intros run; simpl.
  - by rewrite app_nil_r.
  - destruct (slug_char_alphanumeric c Hc) as [-> ->]. by rewrite IH, <- app_assoc.
Qed.

Lemma words_join ws : Forall slug_word ws -> words [] (join DASH ws) = ws.
Proof.
  induction 1 as [|w ws [Hne Hw] Hws IH]; [done|]. rewrite join_cons. case_bool_decide as Hn.
  - subst. rewrite <- (app_nil_r w) at 1. rewrite words_app by done. simpl.
    by rewrite bool_decide_false.
  - rewrite words_app by done. simpl. rewrite bool_decide_false by done. by rewrite IH.
Qed.

Lemma words_run_nonempty run title : run <> [] -> words run title <> [].
Proof.
  revert run. induction title as [|c title IH]; intros run Hrun; simpl.
  - by rewrite bool_decide_false.
  - case_match; [apply IH; by destruct run|]. by rewrite bool_decide_false.
Qed.

Lemma slug_loop title :
  (forall out, (foldl slug_step (out, true) title).1 = glue out (join DASH (words [] title))) /\
  (forall pre run, run <> [] ->
    (foldl slug_step (pre ++ run, false) title).1 = pre ++ join DASH (words run title)).
Proof.
  induction title as [|c title [IH1 IH2]]; simpl; (split; [intros out|intros pre run Hrun]).
  - unfold glue. by rewrite bool_decide_true.
  - by rewrite bool_decide_false.
  - destruct (is_ascii_alphanumeric c); [|apply IH1]. rewrite IH2 by done. unfold glue.
    rewrite (bool_decide_false (join _ _ = [])).
    + repeat case_bool_decide; subst; simpl; try done. by rewrite <- app_assoc.
    + rewrite join_nil by apply words_nonempty. by apply words_run_nonempty.
  - destruct (is_ascii_alphanumeric c); simpl.
    + rewrite <- app_assoc, IH2; [done|]. by destruct run.
    + rewrite IH1, (bool_decide_false (run = [])), join_cons by done. unfold glue.
      rewrite (bool_decide_false (pre ++ run = [])) by (by destruct pre, run).
      case_bool_decide as Hj; case_bool_decide as Hw; try done.
      * exfalso. by apply Hw, (join_nil DASH); [apply words_nonempty|].
      * exfalso. apply Hj. by rewrite Hw.
      * by rewrite <- app_assoc.
Qed.

Lemma slug_words title :
  slug title = if bool_decide (words [] title = []) then lit "phase" else join DASH (words [] title).
Proof.
  unfold slug. assert ((foldl slug_step ([], false) title).1 = join DASH (words [] title)) as Hs.
  { destruct title as [|c title]; [done|]. simpl. destruct (slug_loop title) as [H1 H2].
    destruct (is_ascii_alphanumeric c); simpl; [by apply (H2 [])|]. rewrite H1. unfold glue.
    rewrite (bool_decide_true ([] = [])) by done. by case_bool_decide. }
  destruct (foldl slug_step ([], false) title) as [out d]. simpl in Hs. subst out.
  case_bool_decide as Hj; case_bool_decide as Hw; try done; exfalso.
  - by apply Hw, (join_nil DASH); [apply words_nonempty|].
  - apply Hj. by rewrite Hw.
Qed.

(** a step id is well formed and stable: [slug] is the title's runs of
    letters and digits, in lower case, joined by one dash each, ["phase"] for a
    title with none; and a slug is its own slug. *)
Theorem slug_normal_form (title : Str) :
  let ws := words [] title in
  Forall slug_word ws /\
  slug title = (if bool_decide (ws = []) then lit "phase" else join DASH ws) /\
  words [] (slug title) = (if bool_decide (ws = []) then [lit "phase"] else ws) /\
  slug (slug title) = slug title.
Proof.
  intros ws. pose proof (words_slug_words [] title (Forall_nil_2 _)) as Hws. fold ws in Hws.
  assert (slug title = if bool_decide (ws = []) then lit "phase" else join DASH ws) as Hs
    by apply slug_words.
  assert (words [] (slug title) = if bool_decide (ws = []) then [lit "phase"] else ws) as Hw.
  { rewrite Hs. case_bool_decide; [done|by apply words_join]. }
  split_and!; [done..|]. rewrite slug_words, Hw, Hs. by repeat case_bool_decide.
Qed.
End Slug.

(** ** Schedules: [schedule.rs]

    The cron grammar is the [cron] crate's: [cron_parse] is [Schedule]'s
    [FromStr] and [cron_after] the first element of [schedule.after(t)]. *)

Class CronCrate {X : Externs} : Type := {
  CronSchedule : Type;
  cron_parse : Str -> result Str CronSchedule;
  cron_after : CronSchedule -> Instant -> option Instant;
}.

Module Schedule.
Definition SPACE : char := 32%N.

(** [<[&str]>::join(" ")]. *)
Definition join_spaces (fields : list Str) : Str := Slug.join SPACE fields.

Section schedule.
Context {X : Externs} `{!CronCrate}.

Definition normalize_cron (expr : Str) : result WorkflowError.t Str :=
  let trimmed := trim expr in
  let fields := split_whitespace trimmed in
  match length fields with
  | 5 => Ok (lit "0 " ++ join_spaces fields)
  | 6 | 7 => Ok (join_spaces fields)
  | n => Err (WorkflowError.Cron (debug_str trimmed ++ lit " has " ++ show_N (N.of_nat n)
           ++ lit " fields; expected 5 (minute hour day month weekday), 6 (with seconds) or 7 (with a year)"))
  end.

Definition parse_cron (expr : Str) : result WorkflowError.t CronSchedule :=
  (let? normalized := normalize_cron expr in
   result_map_err (fun e => WorkflowError.Cron (debug_str expr ++ lit ": " ++ e))
     (cron_parse normalized))%goble.

Definition validate_cron (expr : Str) : result WorkflowError.t unit :=
  result_map (fun _ => tt) (parse_cron expr).

Definition next_after (expr : Str) (after : Instant) : result WorkflowError.t (option Instant) :=
  (let? schedule := parse_cron expr in Ok (cron_after schedule after))%goble.

Lemma split_join fields : Forall field fields -> split_whitespace (join_spaces fields) = fields.
Proof.
  unfold split_whitespace, join_spaces.
  induction 1 as [|w ws [Hne Hw] Hws IH]; [done|]. rewrite Slug.join_cons. case_bool_decide as Hn.
  - subst. rewrite <- (app_nil_r w) at 1. rewrite split_from_app by done. simpl.
    by rewrite bool_decide_false.
  - rewrite split_from_app by done. simpl. rewrite bool_decide_false by done. by rewrite IH.
Qed.

(** A join of fields starts and ends on a non-blank character, so it survives
    trimming. *)
Lemma trim_join fields : Forall field fields -> trim (join_spaces fields) = join_spaces fields.
Proof.
  intros Hf. rewrite <- (app_nil_r (join_spaces fields)) at 1.
  apply (trim_padded _ [] []); try constructor.
  - intros c. destruct Hf as [|w ws [Hne Hw] _]; [done|]. unfold join_spaces.
    rewrite Slug.join_cons. destruct Hw as [|x w Hx]; [done|].
    case_bool_decide; simpl; by intros [= <-].
  - intros c. induction Hf as [|w ws [Hne Hw] Hws IH]; [done|]. unfold join_spaces in *.
    rewrite Slug.join_cons. case_bool_decide as Hn.
    + rewrite last_lookup. intros Hl. by apply (Forall_lookup_1 _ _ _ _ Hw Hl).
    + rewrite last_app. destruct (Slug.join SPACE ws) as [|y t] eqn:Hj.
      * apply Slug.join_nil in Hj; [done|]. eapply Forall_impl; [done|]. by intros ? [].
      * rewrite last_cons_cons. destruct (last (y :: t)) eqn:Hl; [by intros [= <-]; apply IH|].
        by apply last_None in Hl.
Qed.

Lemma fields_trim expr : Forall field (split_whitespace (trim expr)).
Proof. by apply split_fields. Qed.

(** normalising a cron expression keeps its fields. It succeeds exactly on
    five, six or seven blank-separated fields; a five-field expression gains a
    leading ["0"], the others keep theirs; the result always has six or seven
    fields, joined by single spaces, and normalises to itself. *)
Theorem normalize_cron_fields (expr : Str) :
  let fields := split_whitespace (trim expr) in
  match normalize_cron expr with
  | Ok out =>
      5 <= length fields <= 7 /\
      split_whitespace out = (if decide (length fields = 5) then lit "0" :: fields else fields) /\
      6 <= length (split_whitespace out) <= 7 /\ normalize_cron out = Ok out
  | Err _ => length fields < 5 \/ 7 < length fields
  end.
Proof.
  intros fields. pose proof (fields_trim expr) as Hf. fold fields in Hf.
  assert (forall fs, Forall field fs -> 6 <= length fs <= 7 ->
    normalize_cron (join_spaces fs) = Ok (join_spaces fs)) as Hstable.
  { intros fs Hfs Hn. unfold normalize_cron. rewrite trim_join, split_join by done.
    by destruct fs as [|? [|? [|? [|? [|? [|? [|? [|? ?]]]]]]]]; simpl in *; try lia. }
  assert (forall fs, fs = fields \/ fs = lit "0" :: fields -> Forall field fs) as Hall.
  { intros fs [->| ->]; [done|]. constructor; [|done]. split; [done|]. by repeat constructor. }
  unfold normalize_cron. fold fields.
  destruct fields as [|a [|b [|c [|d [|e [|f [|g [|h rest]]]]]]]] eqn:Hfs; simpl length; cbv iota;
    try (left; lia); try (right; lia).
  - split_and!; try lia.
    + change (split_whitespace (join_spaces (lit "0" :: [a; b; c; d; e])) = lit "0" :: [a; b; c; d; e]).
      apply split_join, Hall. by right.
    + change (lit "0 " ++ join_spaces [a; b; c; d; e]) with (join_spaces (lit "0" :: [a; b; c; d; e])).
      rewrite split_join by (apply Hall; by right). simpl. lia.
    + change (lit "0 " ++ join_spaces [a; b; c; d; e]) with (join_spaces (lit "0" :: [a; b; c; d; e])).
      rewrite split_join by (apply Hall; by right). simpl. lia.
    + apply (Hstable (lit "0" :: [a; b; c; d; e])); [apply Hall; by right|simpl; lia].
  - rewrite split_join by done. split_and!; try (simpl; lia); [done|]. apply Hstable; simpl; [done|lia].
  - rewrite split_join by done. split_and!; try (simpl; lia); [done|]. apply Hstable; simpl; [done|lia].
Qed.
End schedule.
End Schedule.
