(* ===== verification/WorkflowScript.v ===== *)
(** * [crates/goble-workflow], [script.rs]: script workflow bodies

    A workflow may carry a Rhai script.  The script language is Rhai's and stays
    outside the model: a compiled body is the tree of host calls ([agent],
    [parallel], [phase], [log], [budget], [complete], [json_encode]) it makes,
    each with what it does with the answer ([script]).  The tree is finite since
    the engine caps the operations of a run ([set_max_operations]).  Everything
    the host functions do is modelled: the agent budget, the phases, the calls
    recorded, the failures, and how a run settles. *)

From S2P Require Import Prelude Workflow.

(** ** Data *)

Definition DEFAULT_BUDGET : N := 128.

Record PhaseMeta : Type := mkPhaseMeta { pm_title : Str; pm_detail : option Str }.

Record Meta : Type := mkMeta {
  meta_name : Str;
  meta_description : Str;
  meta_when_to_use : option Str;
  meta_phases : list PhaseMeta;
}.

Record AgentOpts : Type := mkAgentOpts {
  ao_prompt : Str;
  ao_label : option Str;
  ao_phase : option Str;
  ao_agent_type : option Str;
}.

Definition AgentOpts_default : AgentOpts := mkAgentOpts [] None None None.

(** [AgentOpts::with_prompt]. *)
Definition with_prompt (prompt : Str) (o : AgentOpts) : AgentOpts :=
  mkAgentOpts prompt (ao_label o) (ao_phase o) (ao_agent_type o).

Record AgentOutcome : Type := mkAgentOutcome {
  out_agent_id : Str;
  out_success : bool;
  out_output : Str;
  out_tokens_used : N;
  out_duration_ms : N;
}.

Record AgentCall : Type := mkAgentCall {
  ac_label : Str;
  ac_phase : option Str;
  ac_prompt : Str;
  ac_success : bool;
  ac_output : Str;
  ac_tokens_used : N;
  ac_duration_ms : N;
}.

(** The map a script sees of an agent's outcome: the two counters cast from
    [u64] to Rhai's [i64]. *)
Record AgentMap : Type := mkAgentMap {
  am_agent_id : Str;
  am_success : bool;
  am_output : Str;
  am_tokens_used : Z;
  am_duration_ms : Z;
}.

Record BudgetMap : Type := mkBudgetMap {
  bm_total : Z;
  bm_spent : Z;
  bm_reserved : Z;
  bm_remaining : Z;
}.

Section data.
Context {X : Externs}.

(** [PhaseState] of a run in progress and [PhaseRun] of a settled one have the
    same fields. *)
Record PhaseRun : Type := mkPhaseRun {
  ph_title : Str;
  ph_started_at : Instant;
  ph_finished_at : option Instant;
  ph_status : StepStatus.t;
}.

Record ScriptRun : Type := mkScriptRun {
  sr_meta : Meta;
  sr_status : RunStatus.t;
  sr_phases : list PhaseRun;
  sr_output : option Json;
  sr_log : list Str;
  sr_calls : list AgentCall;
  sr_started_at : Instant;
  sr_finished_at : Instant;
}.

Record ValidationReport : Type := mkValidationReport {
  vr_meta : Meta;
  vr_status : RunStatus.t;
  vr_phases : list PhaseRun;
  vr_calls : nat;
}.

(** [RunState]. [rs_reads] is not a field of the code: it counts the clock
    readings made so far, the reading number [i] being [now i] below. *)
Record RunState : Type := mkRunState {
  rs_started_at : Instant;
  rs_budget : N;
  rs_spent : N;
  rs_log : list Str;
  rs_calls : list AgentCall;
  rs_phases : list PhaseRun;
  rs_open : option nat;
  rs_completed : option Json;
  rs_failure : option Str;
  rs_reads : nat;
}.
End data.

(** ** What the script runner takes from Rhai *)

Class Rhai {X : Externs} : Type := {
  Ast : Type;
  Dynamic : Type;
  compile : Str -> result Str Ast;
  eval_stub : Ast -> option Dynamic;          (** the [meta] the stub run leaves in scope *)
  from_dynamic : Dynamic -> result Str Json;
  meta_from_value : Json -> result Str Meta;  (** [serde_json::from_value::<Meta>] *)
  to_dynamic : Json -> option Dynamic;
  dynamic_unit : Dynamic;
  into_string : Dynamic -> option Str;
  try_cast_map : Dynamic -> option (gmap Str Dynamic);
  json_text : Json -> Str;                    (** [Value::to_string] *)
}.

(** A compiled body, as the host calls it makes.  An [agent] call that fails is
    an error the script may catch, so what follows it is a function of the
    [Result]; [complete] ends the run and cannot be caught. *)
Inductive script `{Rhai} : Type :=
| Finish
| Raise (error : Str)
| CallAgent (prompt : Str) (k : result Str AgentMap -> script)
| CallAgentWith (prompt : Str) (opts : gmap Str Dynamic) (k : result Str AgentMap -> script)
| CallParallel (calls : list Dynamic) (k : list (option AgentMap) -> script)
| CallPhase (title : Str) (k : script)
| CallLog (line : Str) (k : script)
| CallBudget (k : BudgetMap -> script)
| CallComplete (value : Dynamic)
| CallJsonEncode (value : Dynamic) (k : Str -> script).

(** Evaluating an AST with [args] bound. *)
Class RhaiEval `{Rhai} : Type := { script_of : Ast -> Dynamic -> script }.

(** [trait ScriptHost], over the state its implementation may keep. *)
Class ScriptHost (H : Type) : Type := {
  host_agent : AgentOpts -> H -> H * AgentOutcome;
  host_log : Str -> H -> H;
}.

(** ** The scan for clock and blocking calls *)

Module Forbidden.
Definition BACKSLASH : N := 92.
Definition word_byte (c : N) : bool := is_ascii_alphanumeric c || bool_decide (c = 95%N).
Definition word_start (c : N) : bool := is_ascii_alphabetic c || bool_decide (c = 95%N).

(** The inner [while] loops: the first index from [i] on whose byte is not [p]. *)
Fixpoint skip_while (p : N -> bool) (fuel : nat) (bytes : list N) (i : nat) : nat :=
  match fuel with
  | O => i
  | S fuel =>
      match bytes !! i with
      | Some c => if p c then skip_while p fuel bytes (S i) else i
      | None => i
      end
  end.

Definition forbidden_word (word : list N) : bool :=
  bool_decide (word = lit "sleep") || bool_decide (word = lit "timestamp").

(** The loop of [forbidden_call] from index [i]; each round moves [i] forward, so
    [length bytes] rounds are enough. *)
Fixpoint scan (fuel : nat) (bytes : list N) (i : nat) (in_string : bool) : option Str :=
  match fuel with
  | O => None
  | S fuel =>
      match bytes !! i with
      | None => None
      | Some c =>
          if in_string then
            if bool_decide (c = BACKSLASH) then scan fuel bytes (i + 2) true
            else scan fuel bytes (i + 1) (negb (bool_decide (c = DQUOTE)))
          else if bool_decide (c = DQUOTE) then scan fuel bytes (i + 1) true
          else if bool_decide (c = SLASH) && bool_decide (bytes !! (i + 1) = Some SLASH) then
            scan fuel bytes
              (skip_while (fun b => negb (bool_decide (b = NEWLINE))) (length bytes) bytes i) false
          else if word_start c then
            let start := i in
            let i := skip_while word_byte (length bytes) bytes i in
            let word := take (i - start) (drop start bytes) in
            if forbidden_word word then
              let j := skip_while is_ascii_whitespace (length bytes) bytes i in
              if bool_decide (bytes !! j = Some 40%N) then Some word
              else scan fuel bytes i false
            else scan fuel bytes i false
          else scan fuel bytes (i + 1) false
      end
  end.

Definition forbidden_call (source : Str) : option Str :=
  let bytes := as_bytes source in
  scan (length bytes) bytes 0 false.
End Forbidden.

(** ** The [meta] header, and the workflow operations that read it *)

Section meta.
Context {X : Externs} `{!Rhai}.

Definition meta_of (source : Str) : result Str Meta :=
  match Forbidden.forbidden_call source with
  | Some call => Err (call ++
      lit "() is not available in workflow scripts: a run must be deterministic and must never block")
  | None =>
      let head := trim_start source in
      let declares_meta := starts_with head (lit "let meta")
        || starts_with head (lit "const meta") || starts_with head (lit "export let meta") in
      if negb declares_meta then
        Err (lit "the script must start with `let meta = #{ name: ..., phases: [...] }`")
      else
        (let? ast := result_map_err (fun e => lit "compile failed: " ++ e) (compile source) in
         let? value := ok_or (lit "the script's `meta` map did not evaluate") (eval_stub ast) in
         let? json := result_map_err (fun e => lit "meta must be a map of plain values: " ++ e)
           (from_dynamic value) in
         result_map_err (fun e => lit "meta is malformed: " ++ e) (meta_from_value json))%goble
  end.

(** [Workflow::with_script]. *)
Definition with_script (source : Str) (w : Workflow) : result WorkflowError.t Workflow :=
  (let? meta := result_map_err WorkflowError.Script (meta_of source) in
   if bool_decide (trim (meta_name meta) = []) then
     Err (WorkflowError.Script (lit "the script's meta.name is empty"))
   else
     Ok (mkWorkflow (wf_id w) (meta_name meta)
           ((fun phase => new_step (slug (pm_title phase)) (pm_title phase)) <$> meta_phases meta)
           (wf_trigger w) (Some source)))%goble.

(** [Workflow::validate]. *)
Definition validate_workflow (w : Workflow) : result WorkflowError.t unit :=
  (let? _ := match wf_script w with
             | Some source => result_map (fun _ => tt)
                 (result_map_err WorkflowError.Script (meta_of source))
             | None => if bool_decide (wf_steps w = []) then Err (WorkflowError.NoSteps (wf_id w))
                       else Ok tt
             end in
   match duplicate_step ∅ (wf_steps w) with
   | Some id => Err (WorkflowError.DuplicateStepId id)
   | None => Ok tt
   end)%goble.
End meta.

(** [ScriptRun::to_workflow_run]. *)
Definition to_workflow_run {X : Externs} (r : ScriptRun) (workflow_id : WorkflowId) : WorkflowRun :=
  {| wr_workflow_id := workflow_id;
     wr_status := sr_status r;
     wr_steps := imap (fun index phase =>
       {| se_index := index;
          se_step_id := mkStepId (slug (ph_title phase));
          se_name := ph_title phase;
          se_status := ph_status phase;
          se_started_at := ph_started_at phase;
          se_finished_at := match ph_finished_at phase with
                            | Some t => Some t
                            | None => Some (sr_finished_at r)
                            end |}) (sr_phases r);
     wr_started_at := sr_started_at r;
     wr_finished_at := Some (sr_finished_at r);
     wr_output := sr_output r;
     wr_log := sr_log r |}.

(** ** The state of a run *)

(** [x as i64] of a [u64]. *)
Definition as_i64 (n : N) : Z :=
  if (n <? 2 ^ 63)%N then Z.of_N n else Z.of_N n - 2 ^ 64.

Module RunStates.
Section run_state.
Context {X : Externs} (now : nat -> Instant).
Implicit Types (s : RunState).

Definition new (started_at : Instant) (reads : nat) (budget : N) : RunState :=
  mkRunState started_at budget 0 [] [] [] None None None reads.

Definition set_spent x s := mkRunState (rs_started_at s) (rs_budget s) x (rs_log s) (rs_calls s)
  (rs_phases s) (rs_open s) (rs_completed s) (rs_failure s) (rs_reads s).
Definition set_log x s := mkRunState (rs_started_at s) (rs_budget s) (rs_spent s) x (rs_calls s)
  (rs_phases s) (rs_open s) (rs_completed s) (rs_failure s) (rs_reads s).
Definition set_calls x s := mkRunState (rs_started_at s) (rs_budget s) (rs_spent s) (rs_log s) x
  (rs_phases s) (rs_open s) (rs_completed s) (rs_failure s) (rs_reads s).
Definition set_phases x s := mkRunState (rs_started_at s) (rs_budget s) (rs_spent s) (rs_log s)
  (rs_calls s) x (rs_open s) (rs_completed s) (rs_failure s) (rs_reads s).
Definition set_open x s := mkRunState (rs_started_at s) (rs_budget s) (rs_spent s) (rs_log s)
  (rs_calls s) (rs_phases s) x (rs_completed s) (rs_failure s) (rs_reads s).
Definition set_completed x s := mkRunState (rs_started_at s) (rs_budget s) (rs_spent s) (rs_log s)
  (rs_calls s) (rs_phases s) (rs_open s) x (rs_failure s) (rs_reads s).
Definition set_failure x s := mkRunState (rs_started_at s) (rs_budget s) (rs_spent s) (rs_log s)
  (rs_calls s) (rs_phases s) (rs_open s) (rs_completed s) x (rs_reads s).
(** [Utc::now()]: the reading, and the state with one more made. *)
Definition read_clock s : RunState * Instant :=
  (mkRunState (rs_started_at s) (rs_budget s) (rs_spent s) (rs_log s) (rs_calls s) (rs_phases s)
     (rs_open s) (rs_completed s) (rs_failure s) (S (rs_reads s)), now (rs_reads s)).

(** [phases[index]] panics out of range, in [phase_status] and [fail_here]; the
    [None] cases below stand for that and never arise ([open_is_last]). *)

Definition close_with (status : option StepStatus.t) (at_ : Instant) (p : PhaseRun) : PhaseRun :=
  mkPhaseRun (ph_title p) (ph_started_at p) (Some at_) (default (ph_status p) status).

Definition close_phase (status : option StepStatus.t) s : RunState :=
  match rs_open s with
  | None => s
  | Some index =>
      let s := set_open None s in
      let '(s, t) := read_clock s in
      set_phases (alter (close_with status t) index (rs_phases s)) s
  end.

Definition push_phase (title : Str) s : RunState * nat :=
  let '(s, t) := read_clock s in
  let s := set_phases (rs_phases s ++ [mkPhaseRun title t None StepStatus.Succeeded]) s in
  let index := length (rs_phases s) - 1 in
  (set_open (Some index) s, index).

Definition phase_status (title : Str) s : RunState * nat :=
  match rs_open s with
  | Some index =>
      if bool_decide (ph_title <$> rs_phases s !! index = Some title) then (s, index)
      else push_phase title (close_phase None s)
  | None => push_phase title s
  end.

Definition fail_phase (message : Str) (p : PhaseRun) : PhaseRun :=
  match ph_status p with
  | StepStatus.Succeeded =>
      mkPhaseRun (ph_title p) (ph_started_at p) (ph_finished_at p) (StepStatus.Failed message)
  | _ => p
  end.

Definition fail_here (message : Str) s : RunState :=
  let '(s, index) :=
    match rs_open s with
    | Some index => (s, Some index)
    | None => let s := (phase_status (lit "Run") s).1 in (s, rs_open s)
    end in
  match index with
  | Some index => set_phases (alter (fail_phase message) index (rs_phases s)) s
  | None => s
  end.

(** The status a run settles to: its failure, or its first failed call. *)
Definition final_status s : RunStatus.t :=
  match rs_failure s with
  | Some failure => RunStatus.Failed failure
  | None =>
      match List.find (fun call => negb (ac_success call)) (rs_calls s) with
      | Some first => RunStatus.Failed (ac_label first ++ lit ": agent call failed")
      | None => RunStatus.Succeeded
      end
  end.

Definition settle (meta : Meta) (finished_at : Instant) s : ScriptRun :=
  let s := close_phase None s in
  let status := final_status s in
  let phases :=
    if bool_decide (rs_phases s = []) then
      [{| ph_title := if bool_decide (trim (meta_name meta) = []) then lit "Run" else meta_name meta;
          ph_started_at := rs_started_at s;
          ph_finished_at := Some finished_at;
          ph_status := match status with
                       | RunStatus.Succeeded => StepStatus.Succeeded
                       | RunStatus.Failed message => StepStatus.Failed message
                       | RunStatus.Running => StepStatus.Succeeded
                       end |}]
    else rs_phases s in
  {| sr_meta := meta;
     sr_status := status;
     sr_phases := phases;
     sr_output := rs_completed s;
     sr_log := rs_log s;
     sr_calls := rs_calls s;
     sr_started_at := rs_started_at s;
     sr_finished_at := finished_at |}.
End run_state.
End RunStates.

(** ** The engine *)

Module ScriptEngine.
Section engine.
Import RunStates.
Context {X : Externs} {R : Rhai} {H : Type} `{!ScriptHost H} (now : nat -> Instant).
Implicit Types (w : H * RunState).

Definition map_option (m : gmap Str Dynamic) (key : Str) : option Str := m !! key ≫= into_string.

Definition opts_from (m : gmap Str Dynamic) : AgentOpts :=
  {| ao_prompt := default [] (map_option m (lit "prompt"));
     ao_label := map_option m (lit "label");
     ao_phase := map_option m (lit "phase");
     ao_agent_type := map_option m (lit "agent_type") |}.

Definition exhausted (budget : N) : Str :=
  lit "workflow budget exhausted: " ++ show_N budget ++ lit " agent calls allowed".

Definition agent_map (outcome : AgentOutcome) : AgentMap :=
  {| am_agent_id := out_agent_id outcome;
     am_success := out_success outcome;
     am_output := out_output outcome;
     am_tokens_used := as_i64 (out_tokens_used outcome);
     am_duration_ms := as_i64 (out_duration_ms outcome) |}.

(** Admission: the budget check, and the phase the call names. *)
Definition admit_call (opts : AgentOpts) (s : RunState) : RunState * result Str unit :=
  if (rs_budget s <=? rs_spent s)%N then
    let message := exhausted (rs_budget s) in
    (fail_here now message (set_failure (Some message) s), Err message)
  else
    let s := set_spent (rs_spent s + 1)%N s in
    (match ao_phase opts with Some phase => (phase_status now phase s).1 | None => s end, Ok tt).

(** Recording: the call with its outcome, and the failure of its phase. *)
Definition record_call (prompt : Str) (opts : AgentOpts) (outcome : AgentOutcome) (s : RunState)
    : RunState :=
  let label := default (first_line prompt) (ao_label opts) in
  let s := set_calls (rs_calls s ++
    [{| ac_label := label;
        ac_phase := ao_phase opts;
        ac_prompt := prompt;
        ac_success := out_success outcome;
        ac_output := out_output outcome;
        ac_tokens_used := out_tokens_used outcome;
        ac_duration_ms := out_duration_ms outcome |}]) s in
  if out_success outcome then s else fail_here now (lit "agent call failed: " ++ label) s.

Definition call_agent (prompt : Str) (opts : AgentOpts) w : H * RunState * result Str AgentMap :=
  let opts := with_prompt prompt opts in
  let '(host, s) := w in
  match admit_call opts s with
  | (s, Err message) => (host, s, Err message)
  | (s, Ok _) =>
      let '(host, outcome) := host_agent opts host in
      (host, record_call prompt opts outcome s, Ok (agent_map outcome))
  end.

(** The options of one element of a [parallel] array. *)
Definition parallel_opts (call : Dynamic) : AgentOpts :=
  match try_cast_map call with
  | Some m => with_prompt (default [] (map_option m (lit "prompt"))) (opts_from m)
  | None => with_prompt (default [] (into_string call)) AgentOpts_default
  end.

(** [calls.iter().map(..)]: [None] is Rhai's unit. *)
Fixpoint parallel (calls : list Dynamic) w : H * RunState * list (option AgentMap) :=
  match calls with
  | [] => (w, [])
  | call :: calls' =>
      let opts := parallel_opts call in
      let '(w, r) := call_agent (ao_prompt opts) opts w in
      let '(w, rs) := parallel calls' w in
      (w, match r with Ok m => Some m | Err _ => None end :: rs)
  end.

Definition phase (title : Str) w : H * RunState := (w.1, (phase_status now title w.2).1).

Definition log (line : Str) w : H * RunState :=
  (host_log line w.1, set_log (rs_log w.2 ++ [line]) w.2).

Definition budget_map (s : RunState) : BudgetMap :=
  {| bm_total := Z.of_N (rs_budget s);
     bm_spent := Z.of_N (rs_spent s);
     bm_reserved := 0;
     bm_remaining := Z.of_N (rs_budget s - rs_spent s) |}.

Definition complete (value : Dynamic) w : H * RunState :=
  (w.1, set_completed (match from_dynamic value with Ok json => Some json | Err _ => None end) w.2).

Definition json_encode (value : Dynamic) : Str :=
  match from_dynamic value with Ok json => json_text json | Err _ => lit "null" end.

(** [eval_ast_with_scope]: the world the body leaves, and the error it ends
    with, [ErrorTerminated] being no error. *)
Fixpoint eval (sc : script) w : H * RunState * option Str :=
  match sc with
  | Finish => (w, None)
  | Raise error => (w, Some error)
  | CallAgent prompt k =>
      let '(w, r) := call_agent prompt AgentOpts_default w in eval (k r) w
  | CallAgentWith prompt opts k =>
      let '(w, r) := call_agent prompt (opts_from opts) w in eval (k r) w
  | CallParallel calls k => let '(w, rs) := parallel calls w in eval (k rs) w
  | CallPhase title k => eval k (phase title w)
  | CallLog line k => eval k (log line w)
  | CallBudget k => eval (k (budget_map w.2)) w
  | CallComplete value => (complete value w, None)
  | CallJsonEncode value k => eval (k (json_encode value)) w
  end.

Definition get_or_insert_failure (error : option Str) (s : RunState) : RunState :=
  match error, rs_failure s with
  | Some e, None => set_failure (Some e) s
  | _, _ => s
  end.

(** [run] once the script is compiled. *)
Definition run_script (budget : N) (meta : Meta) (sc : script) (host : H) : H * ScriptRun :=
  let '(host, s, error) := eval sc (host, new (now 0) 1 budget) in
  let s := close_phase now None (get_or_insert_failure error s) in
  let '(s, finished_at) := read_clock now s in
  (host, settle now meta finished_at s).

Definition run `{!RhaiEval} (budget : N) (source : Str) (args : Json) (host : H)
    : H * result Str ScriptRun :=
  match meta_of source with
  | Err e => (host, Err e)
  | Ok meta =>
      match compile source with
      | Err e => (host, Err (lit "compile failed: " ++ e))
      | Ok ast =>
          let sc := script_of ast (default dynamic_unit (to_dynamic args)) in
          let '(host, r) := run_script budget meta sc host in (host, Ok r)
      end
  end.
End engine.

(** [ScriptEngine::with_budget]. *)
Definition with_budget (budget : N) : N := N.min 1024 (N.max 1 budget).
End ScriptEngine.

(** [CannedHost]: the number of calls it answered, at most the budget's 1024. *)
Record CannedHost : Type := mkCannedHost { canned_calls : N }.

#[export] Instance CannedHost_host : ScriptHost CannedHost := {
  host_agent _ h :=
    let calls := (canned_calls h + 1)%N in
    (mkCannedHost calls, mkAgentOutcome (lit "validate-" ++ show_N calls) true (lit "ok") 0 0);
  host_log _ h := h;
}.

(** [ScriptEngine::validate]. *)
Definition validate_script {X : Externs} {R : Rhai} `{!RhaiEval} (now : nat -> Instant) (budget : N)
    (source : Str) (args : Json) : result Str ValidationReport :=
  (let? run := (ScriptEngine.run now budget source args (mkCannedHost 0)).2 in
   Ok {| vr_meta := sr_meta run;
         vr_status := sr_status run;
         vr_phases := sr_phases run;
         vr_calls := length (sr_calls run) |})%goble.
