(* ===== verification/WorkflowScriptProps.v ===== *)
(** * What a script run promises

    The agent budget, the status a run settles to, the timeline of its phases,
    the scan for blocking calls, and what compiling a script into a workflow
    gives. *)

From S2P Require Import Prelude Workflow WorkflowScript.

Module ScriptProps.
Import RunStates ScriptEngine.

(** ** Specifications *)

(** A host that also keeps what it was asked, oldest first. *)
Record Asked (H : Type) : Type := mkAsked { asked_host : H; asked : list AgentOpts }.
Arguments mkAsked {H} _ _.
Arguments asked_host {H} _.
Arguments asked {H} _.

#[export] Instance Asked_host {H} `{!ScriptHost H} : ScriptHost (Asked H) := {
  host_agent opts h :=
    let '(host, outcome) := host_agent opts (asked_host h) in
    (mkAsked host (asked h ++ [opts]), outcome);
  host_log line h := mkAsked (host_log line (asked_host h)) (asked h);
}.

Section specs.
Context {X : Externs} {R : Rhai} {H : Type} `{!ScriptHost H} (now : nat -> Instant).

Definition is_unit {A} (r : option A) : bool := match r with None => true | Some _ => false end.

(** Some agent call of the body found the budget spent. *)
Fixpoint refused (sc : script) (w : H * RunState) : bool :=
  match sc with
  | Finish | Raise _ | CallComplete _ => false
  | CallAgent prompt k =>
      match call_agent now prompt AgentOpts_default w with
      | (w, Ok m) => refused (k (Ok m)) w
      | (_, Err _) => true
      end
  | CallAgentWith prompt opts k =>
      match call_agent now prompt (opts_from opts) w with
      | (w, Ok m) => refused (k (Ok m)) w
      | (_, Err _) => true
      end
  | CallParallel calls k =>
      let '(w, rs) := parallel now calls w in
      existsb is_unit rs || refused (k rs) w
  | CallPhase title k => refused k (phase now title w)
  | CallLog line k => refused k (log line w)
  | CallBudget k => refused (k (budget_map w.2)) w
  | CallJsonEncode value k => refused (k (json_encode value)) w
  end.
End specs.

Section timeline.
Context {X : Externs} (le : Instant -> Instant -> Prop).

(** The phases follow one another between [lo] and [hi]: each starts no earlier
    than the one before ended, only the last may still be open. *)
Fixpoint timeline (lo : Instant) (ps : list PhaseRun) (hi : Instant) : Prop :=
  match ps with
  | [] => le lo hi
  | p :: ps' =>
      le lo (ph_started_at p) /\
      match ph_finished_at p with
      | Some t => le (ph_started_at p) t /\ timeline t ps' hi
      | None => ps' = [] /\ le (ph_started_at p) hi
      end
  end.
End timeline.

(** No phase is followed by one of the same title. *)
Fixpoint alternating {X : Externs} (ps : list PhaseRun) : Prop :=
  match ps with
  | p :: ((q :: _) as ps') => ph_title p <> ph_title q /\ alternating ps'
  | _ => True
  end.

(** ** Invariants of a run in progress *)

Section facts.
Context {X : Externs} {R : Rhai} {H : Type} `{!ScriptHost H} (now : nat -> Instant).
Implicit Types (s : RunState) (w : H * RunState) (sc : script).

(** Either no phase was opened, or the last one is open. *)
Definition open_is_last s : Prop :=
  (rs_phases s = [] /\ rs_open s = None) \/
  (exists ps p, rs_phases s = ps ++ [p] /\ rs_open s = Some (length ps) /\ ph_finished_at p = None).

(** [s] with other phases, the last one open, and [n] more clock readings. *)
Definition with_phases (ps : list PhaseRun) (n : nat) s : RunState :=
  mkRunState (rs_started_at s) (rs_budget s) (rs_spent s) (rs_log s) (rs_calls s) ps
    (Some (length ps - 1)) (rs_completed s) (rs_failure s) (n + rs_reads s).

Definition fresh (title : Str) (t : Instant) : PhaseRun :=
  mkPhaseRun title t None StepStatus.Succeeded.

Variant opens (title : Str) s : RunState -> Prop :=
| opens_same ps p : rs_phases s = ps ++ [p] -> ph_title p = title -> opens title s s
| opens_first : rs_phases s = [] ->
    opens title s (with_phases [fresh title (now (rs_reads s))] 1 s)
| opens_next ps p : rs_phases s = ps ++ [p] -> ph_finished_at p = None -> ph_title p <> title ->
    opens title s (with_phases (ps ++ [close_with None (now (rs_reads s)) p;
      fresh title (now (S (rs_reads s)))]) 2 s).

Lemma phase_status_opens title s : open_is_last s -> opens title s (phase_status now title s).1.
Proof.
  unfold phase_status. intros [[Hp Ho]|(ps & p & Hp & Ho & Hf)]; rewrite Ho.
  - replace (push_phase now title s).1 with (with_phases [fresh title (now (rs_reads s))] 1 s);
      [by apply opens_first|]. unfold push_phase, with_phases; simpl. by rewrite Hp.
  - rewrite Hp, list_lookup_middle by done. simpl. case_bool_decide as Ht.
    + simplify_eq. by eapply opens_same.
    + match goal with |- opens _ _ ?s' => replace s' with
        (with_phases (ps ++ [close_with None (now (rs_reads s)) p;
          fresh title (now (S (rs_reads s)))]) 2 s) end; [apply opens_next; naive_solver|].
      unfold close_phase, push_phase, with_phases. rewrite Ho. simpl. rewrite Hp.
      rewrite alter_app_r_alt, Nat.sub_diag by done. simpl. by rewrite <- app_assoc.
Qed.

Lemma opens_open title s s' : open_is_last s -> opens title s s' -> open_is_last s'.
Proof.
  intros Hs. destruct 1 as [ps p Hp _|Hp|ps p Hp Hf Ht]; [done| |]; right; unfold with_phases; simpl.
  - by eexists [], _.
  - eexists (ps ++ [_]), _. split; [by rewrite <- app_assoc|]. split; [|done].
    f_equal. rewrite !length_app. simpl. lia.
Qed.

(** What the phase operations leave alone. *)
Record same_accounts s s' : Prop := {
  sa_started : rs_started_at s' = rs_started_at s;
  sa_budget : rs_budget s' = rs_budget s;
  sa_spent : rs_spent s' = rs_spent s;
  sa_calls : rs_calls s' = rs_calls s;
  sa_failure : rs_failure s' = rs_failure s;
}.

Lemma phase_status_accounts title s : same_accounts s (phase_status now title s).1.
Proof.
  unfold phase_status, push_phase, close_phase.
  destruct (rs_open s); [case_bool_decide|]; by split.
Qed.

Lemma fail_here_accounts message s : same_accounts s (fail_here now message s).
Proof.
  unfold fail_here. destruct (rs_open s) as [i|]; [by split|].
  destruct (phase_status_accounts (lit "Run") s).
  destruct (rs_open (phase_status now (lit "Run") s).1); by split.
Qed.

(** ** The timeline *)

Context (le : Instant -> Instant -> Prop) `{!PreOrder le}.
Context (Hclock : forall i j, i <= j -> le (now i) (now j)).

Lemma timeline_extend lo ps hi hi' : le hi hi' -> timeline le lo ps hi -> timeline le lo ps hi'.
Proof.
  intros Hh. revert lo. induction ps as [|p ps IH]; intros lo; simpl; [by intros; etrans|].
  intros [Hl Hp]. split; [done|]. destruct (ph_finished_at p).
  - split; [apply Hp|]. apply IH, Hp.
  - split; [apply Hp|]. etrans; [apply Hp|done].
Qed.

Lemma timeline_close lo ps p st hi : timeline le lo (ps ++ [p]) hi -> ph_finished_at p = None ->
  timeline le lo (ps ++ [close_with st hi p]) hi.
Proof.
  revert lo. induction ps as [|q ps IH]; intros lo; simpl.
  - intros [Hl Hp] Hf. rewrite Hf in Hp. split; [done|]. by split; [apply Hp|].
  - intros [Hl Hq] Hf. split; [done|]. destruct (ph_finished_at q).
    + split; [apply Hq|]. by apply IH; [apply Hq|..].
    + destruct Hq as [Hq _]; by destruct ps.
Qed.

Lemma timeline_open lo ps p st hi hi' title : timeline le lo (ps ++ [p]) hi ->
  ph_finished_at p = None -> le hi hi' ->
  timeline le lo (ps ++ [close_with st hi p; fresh title hi']) hi'.
Proof.
  revert lo. induction ps as [|q ps IH]; intros lo; simpl.
  - intros [Hl Hp] Hf Hh. rewrite Hf in Hp. split; [done|]. split; [apply Hp|]. by repeat split.
  - intros [Hl Hq] Hf Hh. split; [done|]. destruct (ph_finished_at q).
    + split; [apply Hq|]. by apply IH; [apply Hq|..].
    + destruct Hq as [Hq _]; by destruct ps.
Qed.

Lemma timeline_edit lo ps p q hi : ph_started_at q = ph_started_at p ->
  ph_finished_at q = ph_finished_at p ->
  timeline le lo (ps ++ [p]) hi -> timeline le lo (ps ++ [q]) hi.
Proof.
  intros Hs Hf. revert lo. induction ps as [|x ps IH]; intros lo; simpl; [by rewrite Hs, Hf|].
  intros [Hl Hx]. split; [done|]. destruct (ph_finished_at x).
  - split; [apply Hx|]. apply IH, Hx.
  - destruct Hx as [Hx _]; by destruct ps.
Qed.

Lemma alternating_snoc ps p q : ph_title p = ph_title q ->
  alternating (ps ++ [p]) -> alternating (ps ++ [q]).
Proof.
  intros Ht. induction ps as [|x ps IH]; [done|]. destruct ps as [|y ps]; simpl in *.
  - by rewrite Ht.
  - intros [Hxy Hps]. split; [done|]. by apply IH.
Qed.

Lemma alternating_snoc2 ps p q : ph_title p <> ph_title q ->
  alternating (ps ++ [p]) -> alternating (ps ++ [p; q]).
Proof.
  intros Ht. induction ps as [|x ps IH]; [done|]. destruct ps as [|y ps]; simpl in *; [naive_solver|].
  intros [Hxy Hps]. split; [done|]. by apply IH.
Qed.

(** ** The invariant of the phases *)

Definition succeeded (p : PhaseRun) : Prop := ph_status p = StepStatus.Succeeded.
Definition no_failure s : Prop :=
  rs_failure s = None /\ Forall (fun c => ac_success c = true) (rs_calls s).

Record good s : Prop := {
  g_open : open_is_last s;
  g_time : timeline le (rs_started_at s) (rs_phases s) (now (rs_reads s));
  g_titles : alternating (rs_phases s);
  g_status : no_failure s -> Forall succeeded (rs_phases s);
}.

Lemma close_alternating ps p st t : alternating (ps ++ [p]) -> alternating (ps ++ [close_with st t p]).
Proof. by apply alternating_snoc. Qed.

Lemma good_opens title s s' : good s -> opens title s s' -> good s'.
Proof.
  intros [Ho Ht Ha Hs] Hop. pose proof (opens_open _ _ _ Ho Hop) as Ho'.
  destruct Hop as [ps p Hp _|Hp|ps p Hp Hf Hn]; [done| |]; split; try done; simpl in *;
    rewrite Hp in *; simpl in *.
  - split; [done|]. by split; [|apply Hclock; lia].
  - intros _. by repeat constructor.
  - eapply timeline_extend; [apply (Hclock (S (rs_reads s))); lia|].
    apply timeline_open; [done..|]. apply Hclock. lia.
  - apply alternating_snoc2; [done|]. by apply close_alternating.
  - intros Hnf. specialize (Hs Hnf). apply Forall_app in Hs as [H1 H2].
    apply Forall_app_2; [done|]. inversion H2; subst. by repeat constructor.
Qed.

Lemma good_phase_status title s : good s -> good (phase_status now title s).1.
Proof. intros Hs. eapply good_opens; [done|]. by apply phase_status_opens, Hs. Qed.

Lemma opens_last title s s' : opens title s s' -> open_is_last s' -> exists i, rs_open s' = Some i.
Proof.
  intros Hop [[Hp _]|(ps & p & _ & Hi & _)]; [|by eexists].
  destruct Hop as [? ? Hp'|?|? ? Hp']; simpl in *; try done.
  - by rewrite Hp in Hp'; apply app_cons_not_nil in Hp'.
  - by symmetry in Hp; apply app_cons_not_nil in Hp.
Qed.

Lemma good_fail message s : good s -> ~ no_failure s -> good (fail_here now message s).
Proof.
  intros Hg Hnf. unfold fail_here.
  assert (forall s i, good s -> ~ no_failure s -> rs_open s = Some i ->
    good (set_phases (alter (fail_phase message) i (rs_phases s)) s)) as Hedit.
  { clear. intros s i [Ho Ht Ha Hs] Hnf Hi. destruct Ho as [[_ ?]|(ps & p & Hp & Hi' & Hf)];
      [congruence|]. assert (i = length ps) as -> by congruence. rewrite Hp in *.
    assert (ph_title (fail_phase message p) = ph_title p /\
      ph_started_at (fail_phase message p) = ph_started_at p /\
      ph_finished_at (fail_phase message p) = ph_finished_at p) as (H1 & H2 & H3)
      by (unfold fail_phase; by destruct (ph_status p)).
    split; simpl; rewrite ?alter_app_r_alt, ?Nat.sub_diag by done; simpl.
    - right. eexists _, _. split_and!; [done..|]. congruence.
    - by apply (timeline_edit _ _ p).
    - by apply (alternating_snoc _ p).
    - done. }
  destruct (rs_open s) as [i|] eqn:Hi; [by apply Hedit|].
  pose proof (good_phase_status (lit "Run") s Hg) as Hg'.
  pose proof (phase_status_opens (lit "Run") s (g_open _ Hg)) as Hop.
  destruct (opens_last _ _ _ Hop (g_open _ Hg')) as [i Hi'].
  rewrite Hi'. apply Hedit; [done| |done].
  destruct (phase_status_accounts (lit "Run") s). unfold no_failure in *. congruence.
Qed.

(** ** One agent call *)

Record accounts (budget : N) s : Prop := {
  ac_budget : rs_budget s = budget;
  ac_spent : rs_spent s = N.of_nat (length (rs_calls s));
  ac_le : (rs_spent s <= budget)%N;
}.

Lemma accounts_same budget s s' : same_accounts s s' -> accounts budget s -> accounts budget s'.
Proof. intros [] []. split; congruence. Qed.

(** What a call does, on each branch. *)
Variant called (budget : N) (prompt : Str) (opts : AgentOpts) w :
    H * RunState * result Str AgentMap -> Prop :=
| called_refused s' : rs_calls s' = rs_calls w.2 -> rs_failure s' = Some (exhausted budget) ->
    (budget <= rs_spent w.2)%N ->
    called budget prompt opts w (w.1, s', Err (exhausted budget))
| called_answered h' s' outcome c : host_agent (with_prompt prompt opts) w.1 = (h', outcome) ->
    rs_calls s' = rs_calls w.2 ++ [c] -> ac_prompt c = prompt -> ac_success c = out_success outcome ->
    rs_failure s' = rs_failure w.2 ->
    called budget prompt opts w (h', s', Ok (agent_map outcome)).

Lemma record_call_accounts prompt opts outcome s :
  same_accounts (set_calls (rs_calls (record_call now prompt opts outcome s)) s)
    (record_call now prompt opts outcome s).
Proof.
  unfold record_call. destruct (out_success outcome); [by split|].
  match goal with |- context [fail_here now ?m ?s'] => destruct (fail_here_accounts m s') end.
  by split.
Qed.

Lemma record_call_calls prompt opts outcome s : exists c,
  rs_calls (record_call now prompt opts outcome s) = rs_calls s ++ [c] /\
  ac_prompt c = prompt /\ ac_success c = out_success outcome.
Proof.
  unfold record_call. destruct (out_success outcome); [by eexists|].
  match goal with |- context [fail_here now ?m ?s'] => rewrite (sa_calls _ _ (fail_here_accounts m s')) end.
  by eexists.
Qed.

Lemma call_agent_called budget prompt opts w : accounts budget w.2 ->
  called budget prompt opts w (call_agent now prompt opts w) /\
  accounts budget (call_agent now prompt opts w).1.2 /\
  rs_started_at (call_agent now prompt opts w).1.2 = rs_started_at w.2.
Proof.
  destruct w as [h s]. intros Ha. pose proof Ha as [Hb Hsp Hle]. simpl in *.
  unfold call_agent, admit_call. destruct (N.leb_spec (rs_budget s) (rs_spent s)) as [Hge|Hlt].
  - match goal with |- context [fail_here now ?m ?s'] =>
      pose proof (fail_here_accounts m s') as Hf end.
    split_and!; [|by eapply accounts_same|by apply Hf].
    rewrite Hb in *. apply (called_refused _ _ _ (h, s)); [apply Hf..|done].
  - set (opts' := with_prompt prompt opts). set (s1 := set_spent (rs_spent s + 1) s).
    set (s2 := match ao_phase opts' with Some _ => _ | None => s1 end).
    assert (same_accounts s1 s2) as H12.
    { unfold s2. destruct (ao_phase opts'); [apply phase_status_accounts|by split]. }
    destruct (host_agent opts' h) as [h' outcome] eqn:Hh. simpl.
    pose proof (record_call_accounts prompt opts' outcome s2) as H23.
    destruct (record_call_calls prompt opts' outcome s2) as (c & Hc & Hp & Hok).
    destruct H12 as [H1 H2 H3 H4 H5], H23 as [H6 H7 H8 H9 H10]. simpl in *. split_and!.
    + eapply (called_answered _ _ _ (h, s)); simpl; [done| |done|done|congruence]. congruence.
    + split; [congruence| |]; rewrite H8, H3.
      * rewrite Hc, H4, length_app. simpl. lia.
      * lia.
    + congruence.
Qed.

Lemma good_set_budgets s s' : good s -> rs_phases s' = rs_phases s -> rs_open s' = rs_open s ->
  rs_started_at s' = rs_started_at s -> rs_reads s' = rs_reads s ->
  (no_failure s' -> no_failure s) -> good s'.
Proof.
  intros [Ho Ht Ha Hs] Hp Hop Hst Hr Hn. split.
  - unfold open_is_last in *. by rewrite Hp, Hop.
  - by rewrite Hp, Hst, Hr.
  - by rewrite Hp.
  - rewrite Hp. naive_solver.
Qed.

Lemma no_failure_snoc s c : no_failure (set_calls (rs_calls s ++ [c]) s) -> no_failure s.
Proof. intros [Hf Hc]. split; [done|]. by apply Forall_app in Hc as [? _]. Qed.

Lemma good_call prompt opts w : good w.2 -> good (call_agent now prompt opts w).1.2.
Proof.
  destruct w as [h s]. intros Hg. unfold call_agent, admit_call. simpl in *.
  destruct (N.leb_spec (rs_budget s) (rs_spent s)) as [Hge|Hlt].
  - simpl. apply good_fail; [|by intros [? _]].
    apply (good_set_budgets s); try done. by intros [? _].
  - set (opts' := with_prompt prompt opts). set (s1 := set_spent (rs_spent s + 1) s).
    set (s2 := match ao_phase opts with Some phase => (phase_status now phase s1).1 | None => s1 end).
    assert (good s2) as Hg2.
    { assert (good s1) by by apply (good_set_budgets s).
      unfold s2. destruct (ao_phase opts); [by apply good_phase_status|done]. }
    destruct (host_agent opts' h) as [h' outcome]. simpl. unfold record_call.
    match goal with |- context [set_calls ?cs s2] => assert (good (set_calls cs s2)) as Hg3 end.
    { apply (good_set_budgets s2); try done. apply no_failure_snoc. }
    destruct (out_success outcome) eqn:Hok; [done|].
    apply good_fail; [done|]. intros [_ Hc]. simpl in Hc.
    apply Forall_app in Hc as [_ Hc]. inversion Hc; subst. simpl in *. congruence.
Qed.

(** ** Whole bodies *)

(** What every host call preserves, a body preserves. *)
Lemma parallel_preserves (P : H * RunState -> Prop) calls w :
  (forall prompt opts w, P w -> P (call_agent now prompt opts w).1) ->
  P w -> P (parallel now calls w).1.
Proof.
  intros Hc. revert w. induction calls as [|call calls IH]; intros w Hw; [done|]. cbn [parallel].
  specialize (Hc (ao_prompt (parallel_opts call)) (parallel_opts call) w Hw).
  destruct (call_agent _ _ _ w) as [w1 r]. specialize (IH w1 Hc). by destruct (parallel now calls w1).
Qed.

Lemma eval_preserves (P : H * RunState -> Prop) sc w :
  (forall prompt opts w, P w -> P (call_agent now prompt opts w).1) ->
  (forall title w, P w -> P (phase now title w)) ->
  (forall line w, P w -> P (log line w)) ->
  (forall value w, P w -> P (complete value w)) ->
  P w -> P (eval now sc w).1.
Proof.
  intros Hc Hp Hl Hv. revert w.
  induction sc as [|e|prompt k IH|prompt opts k IH|calls k IH|title k IH|line k IH|k IH|v|v k IH];
    intros w Hw; cbn [eval]; auto.
  - specialize (Hc prompt AgentOpts_default w Hw). destruct (call_agent _ _ _ w). auto.
  - specialize (Hc prompt (opts_from opts) w Hw). destruct (call_agent _ _ _ w). auto.
  - pose proof (parallel_preserves P calls w Hc Hw). destruct (parallel now calls w). auto.
  - by apply Hv.
Qed.

Lemma accounts_call budget prompt opts w :
  accounts budget w.2 -> accounts budget (call_agent now prompt opts w).1.2.
Proof. intros. by apply call_agent_called. Qed.

Lemma accounts_phase budget title w : accounts budget w.2 -> accounts budget (phase now title w).2.
Proof. apply accounts_same, phase_status_accounts. Qed.

(** Once a call was refused, the failure stays. *)
Definition spent_out (budget : N) w : Prop :=
  accounts budget w.2 /\ rs_failure w.2 = Some (exhausted budget).

Lemma spent_out_call budget prompt opts w :
  spent_out budget w -> spent_out budget (call_agent now prompt opts w).1.
Proof.
  intros [Ha Hf]. destruct (call_agent_called budget prompt opts w Ha) as (Hc & Ha' & _).
  split; [done|]. destruct Hc; simpl; congruence.
Qed.

Lemma spent_out_phase budget title w : spent_out budget w -> spent_out budget (phase now title w).
Proof.
  intros [Ha Hf]. split; [by apply accounts_phase|]. simpl.
  by rewrite (sa_failure _ _ (phase_status_accounts title w.2)).
Qed.

Lemma spent_out_eval budget sc w : spent_out budget w -> spent_out budget (eval now sc w).1.
Proof.
  apply eval_preserves; [apply spent_out_call|apply spent_out_phase|..];
    intros ? ? [[] Hf]; by repeat split.
Qed.

Lemma parallel_failure budget calls w : accounts budget w.2 ->
  accounts budget (parallel now calls w).1.2 /\
  rs_failure (parallel now calls w).1.2 =
    if existsb is_unit (parallel now calls w).2 then Some (exhausted budget) else rs_failure w.2.
Proof.
  revert w. induction calls as [|call calls IH]; intros w Ha; [done|]. cbn [parallel].
  destruct (call_agent_called budget (ao_prompt (parallel_opts call)) (parallel_opts call) w Ha)
    as (Hc & Ha' & _).
  destruct (call_agent _ _ _ w) as [w1 r]. simpl in Ha'. specialize (IH w1 Ha').
  destruct (parallel now calls w1) as [w2 rs] eqn:Hp. simpl in *. destruct IH as [Ha2 Hf2].
  split; [done|]. inversion Hc; subst; simpl in *; [|rewrite Hf2; by destruct (existsb _ _)].
  pose proof (parallel_preserves (spent_out budget) calls (w.1, s') (spent_out_call budget)) as Hso.
  rewrite Hp in Hso. simpl in Hso. by apply Hso.
Qed.

Lemma eval_failure budget sc w : accounts budget w.2 ->
  rs_failure (eval now sc w).1.2 =
    if refused now sc w then Some (exhausted budget) else rs_failure w.2.
Proof.
  revert w.
  assert (forall prompt opts k w, accounts budget w.2 ->
    (forall r w, accounts budget w.2 -> rs_failure (eval now (k r) w).1.2 =
       if refused now (k r) w then Some (exhausted budget) else rs_failure w.2) ->
    rs_failure (let '(w, r) := call_agent now prompt opts w in eval now (k r) w).1.2 =
    if match call_agent now prompt opts w with
       | (w, Ok m) => refused now (k (Ok m)) w | (_, Err _) => true end
    then Some (exhausted budget) else rs_failure w.2) as Hcall.
  { intros prompt opts k w Ha IH. destruct (call_agent_called budget prompt opts w Ha) as (Hc & Ha' & _).
    destruct (call_agent now prompt opts w) as [w1 r]. simpl in Ha'. inversion Hc; subst.
    - by apply (spent_out_eval budget).
    - rewrite IH by done. simpl. by destruct (refused _ _ _). }
  induction sc as [|e|prompt k IH|prompt opts k IH|calls k IH|title k IH|line k IH|k IH|v|v k IH];
    intros w Ha; cbn [eval refused]; try done; auto.
  - destruct (parallel_failure budget calls w Ha) as [Ha' Hf].
    destruct (parallel now calls w) as [w1 rs]. simpl in *.
    destruct (existsb is_unit rs); simpl; [by apply (spent_out_eval budget)|].
    by rewrite IH, Hf.
  - rewrite IH by by apply accounts_phase. simpl.
    by rewrite (sa_failure _ _ (phase_status_accounts title w.2)).
  - rewrite IH; [done|]. by destruct Ha.
Qed.

Lemma good_eval sc w : good w.2 -> good (eval now sc w).1.2.
Proof.
  apply (eval_preserves (fun w => good w.2)).
  - intros. by apply good_call.
  - intros. by apply good_phase_status.
  - intros line w' Hg. by apply (good_set_budgets w'.2).
  - intros v w' Hg. by apply (good_set_budgets w'.2).
Qed.

(** ** Closing the run *)

Definition finished (p : PhaseRun) : Prop := is_Some (ph_finished_at p).

Lemma timeline_finished lo ps p hi : timeline le lo (ps ++ [p]) hi -> Forall finished ps.
Proof.
  revert lo. induction ps as [|q ps IH]; intros lo; simpl; [constructor|].
  intros [_ Hq]. unfold finished at 1. destruct (ph_finished_at q) eqn:Hf.
  - constructor; [by rewrite Hf|]. eapply IH, Hq.
  - destruct Hq as [Hq _]. by destruct ps.
Qed.

Lemma good_close s : good s ->
  let s' := close_phase now None s in
  Forall finished (rs_phases s') /\ alternating (rs_phases s') /\
  timeline le (rs_started_at s') (rs_phases s') (now (rs_reads s')) /\
  (no_failure s' -> Forall succeeded (rs_phases s')) /\ rs_open s' = None.
Proof.
  intros [[[Hp Ho]|(ps & p & Hp & Ho & Hf)] Ht Ha Hs]; unfold close_phase; rewrite Ho; simpl;
    rewrite Hp in *.
  { by split_and!. }
  rewrite alter_app_r_alt, Nat.sub_diag by done. simpl. split_and!; [| | | |done].
  - apply Forall_app_2; [by eapply timeline_finished|]. repeat constructor. by eexists.
  - by apply close_alternating.
  - eapply timeline_extend; [apply (Hclock (rs_reads s)); lia|]. by apply timeline_close.
  - intros Hn. specialize (Hs Hn). apply Forall_app in Hs as [H1 H2]. apply Forall_app_2; [done|].
    inversion H2; subst. by repeat constructor.
Qed.
End facts.

(** ** Properties *)

Section properties.
Context {X : Externs} {R : Rhai} {H : Type} `{!ScriptHost H} (now : nat -> Instant).
Implicit Types (s : RunState) (sc : script).

(** The state [run_script] starts from. *)
Definition start_of (budget : N) (host : H) : H * RunState := (host, new (now 0) 1 budget).

Lemma start_accounts budget host : accounts budget (start_of budget host).2.
Proof. split; simpl; lia. Qed.

Lemma close_phase_accounts st s : same_accounts s (close_phase now st s).
Proof. unfold close_phase. by destruct (rs_open s). Qed.

Lemma close_phase_twice st s : close_phase now None (close_phase now st s) = close_phase now st s.
Proof. unfold close_phase at 2 3. by destruct (rs_open s) eqn:Ho; [|unfold close_phase; rewrite Ho]. Qed.

Lemma close_phase_rest s st : rs_completed (close_phase now st s) = rs_completed s /\
  rs_log (close_phase now st s) = rs_log s.
Proof. unfold close_phase. by destruct (rs_open s). Qed.

Lemma get_or_insert_cases error s :
  get_or_insert_failure error s =
    set_failure (match rs_failure s with Some f => Some f | None => error end) s.
Proof. unfold get_or_insert_failure. destruct s as [???????? [] ?]; by destruct error. Qed.

(** The host and the calls a run ends with are those of its body. *)
Lemma script_calls budget meta sc host :
  (run_script now budget meta sc host).1 = (eval now sc (start_of budget host)).1.1 /\
  sr_calls (run_script now budget meta sc host).2 = rs_calls (eval now sc (start_of budget host)).1.2.
Proof.
  unfold run_script. fold (start_of budget host).
  destruct (eval now sc (start_of budget host)) as [[h' s] error]. simpl. split; [done|].
  rewrite (sa_calls _ _ (close_phase_accounts _ _)). simpl.
  by rewrite (sa_calls _ _ (close_phase_accounts _ _)), get_or_insert_cases.
Qed.

(** The status a script run settles to. A body that ever met the spent
    budget fails with the budget's message, even if it caught the error and
    completed; otherwise an uncaught error is the failure; otherwise the first
    failed agent call; a run succeeds exactly when there is none of them.  The
    calls, log lines and output are those of the body. *)
Theorem script_run_status (budget : N) (meta : Meta) (sc : script) (host : H) :
  let '(host', r) := run_script now budget meta sc host in
  let '(host'', s, error) := eval now sc (start_of budget host) in
  host' = host'' /\ sr_meta r = meta /\
  sr_calls r = rs_calls s /\ sr_log r = rs_log s /\ sr_output r = rs_completed s /\
  sr_status r =
    if refused now sc (start_of budget host) then RunStatus.Failed (exhausted budget)
    else match error, List.find (fun call => negb (ac_success call)) (rs_calls s) with
         | Some e, _ => RunStatus.Failed e
         | None, Some call => RunStatus.Failed (ac_label call ++ lit ": agent call failed")
         | None, None => RunStatus.Succeeded
         end.
Proof.
  pose proof (eval_failure now budget sc (start_of budget host) (start_accounts _ _)) as Hf.
  unfold run_script. fold (start_of budget host).
  destruct (eval now sc (start_of budget host)) as [[h' s] error]. simpl in Hf. simpl.
  unfold settle. simpl. rewrite get_or_insert_cases.
  set (s1 := set_failure _ s).
  set (s2 := mkRunState _ _ _ _ _ _ _ _ _ _).
  assert (same_accounts s1 s2 /\ rs_completed s2 = rs_completed s1 /\ rs_log s2 = rs_log s1) as (Hs & Hc & Hl).
  { unfold s2. destruct (close_phase_accounts None s1), (close_phase_rest s1 None). by repeat split. }
  destruct (close_phase_accounts None s2) as [_ _ _ Hcalls Hfail].
  destruct (close_phase_rest s2 None) as [Hcomp Hlog].
  rewrite Hcalls, Hcomp, Hlog, Hc, Hl, (sa_calls _ _ Hs). split_and!; try done.
  unfold final_status. rewrite Hcalls, Hfail, (sa_calls _ _ Hs), (sa_failure _ _ Hs). simpl.
  rewrite Hf. destruct (refused _ _ _); [done|]. destruct error; [done|]. by destruct (List.find _ _).
Qed.

Lemma final_status_succeeded s : final_status s = RunStatus.Succeeded -> no_failure s.
Proof.
  unfold final_status, no_failure. destruct (rs_failure s); [done|].
  destruct (List.find _ _) eqn:Hc; [done|]. intros _. split; [done|].
  apply Forall_forall. intros c Hin. apply list_elem_of_In in Hin.
  pose proof (List.find_none _ _ Hc c Hin) as Hn. simpl in Hn.
  by apply negb_false_iff in Hn.
Qed.

(** the phases of a settled run. With a clock that never goes back, there is
    at least one phase, every phase is finished, they follow one another inside
    the run's own start and finish, no phase is followed by one of the same title,
    and when the run succeeded every phase did. *)
Theorem script_phases_timeline (le : Instant -> Instant -> Prop) (budget : N) (meta : Meta)
    (sc : script) (host : H) (Hle : PreOrder le)
    (Hclock : forall i j, i <= j -> le (now i) (now j)) :
  let r := (run_script now budget meta sc host).2 in
  sr_phases r <> [] /\ Forall finished (sr_phases r) /\
  timeline le (sr_started_at r) (sr_phases r) (sr_finished_at r) /\
  alternating (sr_phases r) /\
  (sr_status r = RunStatus.Succeeded -> Forall succeeded (sr_phases r)).
Proof.
  unfold run_script. fold (start_of budget host).
  assert (good now le (eval now sc (start_of budget host)).1.2) as Hg.
  { apply good_eval; [done..|]. split; simpl; [by left|apply Hclock; lia|done|by constructor]. }
  destruct (eval now sc (start_of budget host)) as [[h' s] error]. simpl in Hg. simpl.
  assert (good now le (get_or_insert_failure error s)) as Hg1.
  { rewrite get_or_insert_cases. eapply good_set_budgets; [exact Hg|done..|].
    intros [Hf Hc]. split; [|done]. simpl in Hf. by destruct (rs_failure s). }
  destruct (good_close now le Hclock _ Hg1) as (Hfin & Halt & Htime & Hst & Hop).
  set (s1 := close_phase now None (get_or_insert_failure error s)) in *.
  unfold settle. unfold close_phase at 1. simpl. rewrite Hop. simpl.
  case_bool_decide as Hp; simpl.
  - rewrite Hp in Htime. simpl in Htime. split_and!; try done.
    + repeat constructor. by eexists.
    + intros Hs. repeat constructor. unfold succeeded; simpl. by rewrite Hs.
  - split_and!; try done. intros Hs%final_status_succeeded. by apply Hst.
Qed.
End properties.

(** ** The budget *)

Section budget.
Context {X : Externs} {R : Rhai} {H : Type} `{!ScriptHost H} (now : nat -> Instant).

(** What the host was asked are the calls recorded. *)
Definition mirrored (w : Asked H * RunState) : Prop :=
  ao_prompt <$> asked w.1 = ac_prompt <$> rs_calls w.2.

Definition mirrored_within (budget : N) (w : Asked H * RunState) : Prop :=
  mirrored w /\ accounts budget w.2.

Lemma mirrored_call budget prompt opts w :
  mirrored_within budget w -> mirrored_within budget (call_agent now prompt opts w).1.
Proof.
  intros [Hm Ha]. destruct (call_agent_called now budget prompt opts w Ha) as (Hc & Ha' & _).
  split; [|done]. unfold mirrored in *. destruct Hc as [s' Hcalls _ _|h' s' o c Hh Hcalls Hp _ _]; simpl.
  - by rewrite Hcalls.
  - simpl in Hh. destruct (host_agent _ (asked_host w.1)). simplify_eq/=.
    by rewrite Hcalls, !fmap_app, Hm.
Qed.

(** The budget bounds the work. Whatever the body does, failed calls and
    caught errors included, the host is asked for at most [budget] agent calls,
    exactly the ones the run records, in order. *)
Theorem script_budget_bounds_host_calls (budget : N) (meta : Meta) (sc : script) (host : H) :
  let '(host', r) := run_script now budget meta sc (mkAsked host []) in
  (N.of_nat (length (asked host')) <= budget)%N /\
  ao_prompt <$> asked host' = ac_prompt <$> sr_calls r /\
  length (asked host') = length (sr_calls r).
Proof.
  pose proof (script_calls now budget meta sc (mkAsked host [])) as Hr.
  destruct (run_script now budget meta sc (mkAsked host [])) as [host' r].
  assert (mirrored_within budget (eval now sc (start_of now budget (mkAsked host []))).1) as [Hm [_ Hs Hl]].
  { apply eval_preserves.
    - intros. by apply mirrored_call.
    - intros title w [Hm Ha]. split; [|by apply accounts_phase]. unfold mirrored in *. simpl.
      by rewrite (sa_calls _ _ (phase_status_accounts now title w.2)).
    - intros line w [Hm []]. by repeat split.
    - intros v w [Hm []]. by repeat split.
    - split; [done|]. apply start_accounts. }
  simpl in Hr. destruct Hr as [-> ->]. unfold mirrored in Hm.
  assert (length (asked (eval now sc (start_of now budget (mkAsked host []))).1.1) =
    length (rs_calls (eval now sc (start_of now budget (mkAsked host []))).1.2)) as Hlen.
  { rewrite <- (length_fmap ao_prompt), Hm. apply length_fmap. }
  split_and!; [lia|done..].
Qed.
End budget.
End ScriptProps.

(** ** The scan for clock and blocking calls *)

Module ForbiddenProps.
Import Forbidden.

(** A reference lexer, one byte at a time: the tokens of the source outside
    strings and comments, a string or a comment leaving its opening byte. *)
Inductive token : Type := Word (w : list N) | Other (c : N).

Inductive mode : Type := Code | InString | InEscape | InComment | InWord (w : list N).

(** The byte [c], followed by [rest], in code. *)
Definition code_byte (c : N) (rest : list N) : list token * mode :=
  if bool_decide (c = DQUOTE) then ([Other c], InString)
  else if bool_decide (c = SLASH) && bool_decide (head rest = Some SLASH) then ([Other c], InComment)
  else if word_start c then ([], InWord [c])
  else ([Other c], Code).

Definition lex_byte (m : mode) (c : N) (rest : list N) : list token * mode :=
  match m with
  | Code => code_byte c rest
  | InString =>
      ([], if bool_decide (c = BACKSLASH) then InEscape
           else if bool_decide (c = DQUOTE) then Code else InString)
  | InEscape => ([], InString)
  | InComment => if bool_decide (c = NEWLINE) then code_byte c rest else ([], InComment)
  | InWord w =>
      if word_byte c then ([], InWord (w ++ [c]))
      else let '(ts, m) := code_byte c rest in (Word w :: ts, m)
  end.

Fixpoint lex (m : mode) (bytes : list N) : list token :=
  match bytes with
  | [] => match m with InWord w => [Word w] | _ => [] end
  | c :: rest => let '(ts, m) := lex_byte m c rest in ts ++ lex m rest
  end.

(** The next token that is not a blank. *)
Fixpoint next_token (ts : list token) : option token :=
  match ts with
  | Other c :: ts' => if is_ascii_whitespace c then next_token ts' else Some (Other c)
  | t :: _ => Some t
  | [] => None
  end.

Definition opens_call (t : option token) : bool :=
  match t with Some (Other c) => bool_decide (c = 40%N) | _ => false end.

(** The first call of a forbidden name. *)
Fixpoint first_call (ts : list token) : option Str :=
  match ts with
  | [] => None
  | Word w :: ts' =>
      if forbidden_word w && opens_call (next_token ts') then Some w else first_call ts'
  | Other _ :: ts' => first_call ts'
  end.

Fixpoint take_while (p : N -> bool) (l : list N) : list N :=
  match l with c :: l' => if p c then c :: take_while p l' else [] | [] => [] end.
Fixpoint drop_while (p : N -> bool) (l : list N) : list N :=
  match l with c :: l' => if p c then drop_while p l' else l | [] => [] end.

Lemma drop_lookup_cons (l : list N) i c : l !! i = Some c -> drop i l = c :: drop (S i) l.
Proof. apply drop_S. Qed.

Lemma length_drop_while p l : length (drop_while p l) <= length l.
Proof. induction l as [|c l IH]; simpl; [done|]. destruct (p c); simpl; lia. Qed.

(** The index loop finds where the run of [p] ends. *)
Lemma skip_while_spec p fuel bytes i : length (drop i bytes) <= fuel ->
  let j := skip_while p fuel bytes i in
  i <= j /\ drop j bytes = drop_while p (drop i bytes) /\
  take (j - i) (drop i bytes) = take_while p (drop i bytes).
Proof.
  revert i. induction fuel as [|fuel IH]; intros i Hf; simpl.
  - assert (drop i bytes = []) as -> by (apply nil_length_inv; lia). rewrite Nat.sub_diag. done.
  - destruct (bytes !! i) as [c|] eqn:Hc.
    + rewrite (drop_lookup_cons _ _ _ Hc) in *. simpl in *. destruct (p c) eqn:Hp.
      * destruct (IH (S i)) as (Hle & Hd & Ht); [lia|]. split_and!; [lia|done|].
        rewrite <- Ht. replace (skip_while p fuel bytes (S i) - i)
          with (S (skip_while p fuel bytes (S i) - S i)) by lia. done.
      * rewrite Nat.sub_diag. split_and!; [lia| |done]. by apply drop_lookup_cons.
    + assert (drop i bytes = []) as -> by (apply drop_ge, lookup_ge_None_1, Hc).
      by rewrite Nat.sub_diag.
Qed.

Lemma lex_word w l : lex (InWord w) l =
  Word (w ++ take_while word_byte l) :: lex Code (drop_while word_byte l).
Proof.
  revert w. induction l as [|c l IH]; intros w; simpl; [by rewrite app_nil_r|].
  destruct (word_byte c) eqn:Hc.
  - by rewrite IH, <- app_assoc.
  - rewrite app_nil_r. simpl. by destruct (code_byte c l).
Qed.

Lemma lex_comment l : lex InComment l =
  lex Code (drop_while (fun b => negb (bool_decide (b = NEWLINE))) l).
Proof.
  induction l as [|c l IH]; [done|]. cbn [lex lex_byte drop_while].
  destruct (bool_decide (c = NEWLINE)); [done|apply IH].
Qed.

Lemma word_start_byte c : word_start c = true -> word_byte c = true.
Proof.
  unfold word_start, word_byte, is_ascii_alphanumeric.
  by destruct (is_ascii_alphabetic c), (is_ascii_digit c), (bool_decide _).
Qed.

Lemma blank_code c rest : is_ascii_whitespace c = true -> code_byte c rest = ([Other c], Code).
Proof.
  intros Hc. apply bool_decide_eq_true in Hc.
  by repeat (apply elem_of_cons in Hc as [->|Hc]; [done|]); apply not_elem_of_nil in Hc.
Qed.

(** Looking for the parenthesis in the bytes or in the tokens is the same. *)
Lemma opens_call_lex l :
  opens_call (next_token (lex Code l)) =
    bool_decide (head (drop_while is_ascii_whitespace l) = Some 40%N).
Proof.
  induction l as [|c l IH]; [done|]. cbn [lex lex_byte drop_while].
  destruct (is_ascii_whitespace c) eqn:Hws.
  - rewrite blank_code by done. simpl. by rewrite Hws.
  - unfold code_byte. destruct (bool_decide_reflect (c = DQUOTE)) as [->|Hq]; [reflexivity|].
    destruct (bool_decide (c = SLASH) && bool_decide (head l = Some SLASH)) eqn:Hs.
    { apply andb_true_iff in Hs as [->%bool_decide_eq_true _]. done. }
    destruct (word_start c) eqn:Hw.
    + simpl. rewrite lex_word. simpl. symmetry. apply bool_decide_eq_false. intros [= ->]. done.
    + simpl. rewrite Hws. simpl. apply bool_decide_ext. naive_solver.
Qed.

Lemma first_call_word w l :
  first_call (lex (InWord w) l) =
    let word := w ++ take_while word_byte l in
    let rest := drop_while word_byte l in
    if forbidden_word word then
      if bool_decide (head (drop_while is_ascii_whitespace rest) = Some 40%N) then Some word
      else first_call (lex Code rest)
    else first_call (lex Code rest).
Proof.
  rewrite lex_word. cbn [first_call]. rewrite opens_call_lex. cbv zeta.
  by destruct (forbidden_word _), (bool_decide _).
Qed.

Lemma head_drop (l : list N) i : head (drop i l) = l !! i.
Proof. by rewrite head_lookup, lookup_drop, Nat.add_0_r. Qed.

Lemma scan_spec fuel bytes i : length (drop i bytes) <= fuel ->
  scan fuel bytes i false = first_call (lex Code (drop i bytes)) /\
  scan fuel bytes i true = first_call (lex InString (drop i bytes)).
Proof.
  revert i. induction fuel as [|fuel IH]; intros i Hf.
  { assert (drop i bytes = []) as -> by (apply nil_length_inv; lia). done. }
  destruct (bytes !! i) as [c|] eqn:Hc.
  2:{ simpl. rewrite Hc. assert (drop i bytes = []) as ->; [|done].
      by apply drop_ge, lookup_ge_None_1. }
  assert (i < length bytes) as Hi by by eapply lookup_lt_Some.
  rewrite length_drop in Hf. assert (forall j, i < j -> length (drop j bytes) <= fuel) as Hfuel.
  { intros j Hj. rewrite length_drop. lia. }
  cbn [scan]. rewrite Hc. rewrite (drop_lookup_cons _ _ _ Hc). cbn [lex lex_byte].
  rewrite Nat.add_1_r. replace (i + 2) with (S (S i)) by lia. split.
  - unfold code_byte. destruct (bool_decide_reflect (c = DQUOTE)) as [->|Hq]; [apply IH, Hfuel; lia|]. rewrite head_drop.
    destruct (bool_decide (c = SLASH) && bool_decide (bytes !! S i = Some SLASH)) eqn:Hs.
    + cbn [app first_call]. rewrite lex_comment.
      destruct (skip_while_spec (fun b => negb (bool_decide (b = NEWLINE))) (length bytes) bytes i)
        as (Hle & Hd & _); [rewrite length_drop; lia|].
      apply andb_true_iff in Hs as [->%bool_decide_eq_true _].
      rewrite (drop_lookup_cons _ _ _ Hc) in Hd. cbn [drop_while] in Hd.
      rewrite (bool_decide_false (SLASH = NEWLINE)) in Hd by done. simpl in Hd.
      rewrite <- Hd. apply IH, Hfuel.
      destruct (decide (i = skip_while (fun b => negb (bool_decide (b = NEWLINE))) (length bytes) bytes i))
        as [He|]; [|lia]. rewrite <- He, (drop_lookup_cons _ _ _ Hc) in Hd.
      apply (f_equal length) in Hd. simpl in Hd.
      pose proof (length_drop_while (fun b => negb (bool_decide (b = NEWLINE))) (drop (S i) bytes)). lia.
    + destruct (word_start c) eqn:Hw; [|by apply IH, Hfuel; lia].
      destruct (skip_while_spec word_byte (length bytes) bytes i) as (Hle & Hd & Ht);
        [rewrite length_drop; lia|].
      rewrite (drop_lookup_cons _ _ _ Hc) in Hd, Ht. cbn [drop_while take_while] in Hd, Ht.
      rewrite (word_start_byte c Hw) in Hd, Ht.
      cbn [app]. rewrite first_call_word. cbv zeta. simpl app.
      set (j := skip_while word_byte (length bytes) bytes i) in *.
      assert (i < j) as Hij.
      { destruct (decide (i = j)) as [He|]; [|lia]. rewrite <- He, Nat.sub_diag in Ht. done. }
      rewrite Ht, <- Hd.
      destruct (skip_while_spec is_ascii_whitespace (length bytes) bytes j) as (_ & Hd' & _);
        [rewrite length_drop; lia|].
      rewrite <- Hd', head_drop. destruct (IH j) as [-> _]; [by apply Hfuel|]. done.
  - destruct (bool_decide_reflect (c = BACKSLASH)) as [->|Hb]; simpl.
    + destruct (IH (S (S i))) as [_ ->]; [apply Hfuel; lia|].
      destruct (bytes !! S i) as [c'|] eqn:Hc'.
      * by rewrite (drop_lookup_cons _ _ _ Hc').
      * by rewrite !drop_ge by (apply lookup_ge_None_1 in Hc'; lia).
    + by destruct (bool_decide (c = DQUOTE)); apply IH, Hfuel; lia.
Qed.

(** The guard against clock and blocking calls is exact: for every source,
    scanning by index returns within the rounds it is given and finds what the
    reference lexer does, namely the first identifier [sleep] or [timestamp],
    outside strings and line comments, whose next non-blank byte opens a call.  A
    source that has one is no workflow script. *)
Theorem forbidden_call_exact `{Rhai} (source : Str) :
  forbidden_call source = first_call (lex Code (as_bytes source)) /\
  (first_call (lex Code (as_bytes source)) <> None -> exists e, meta_of source = Err e).
Proof.
  assert (forbidden_call source = first_call (lex Code (as_bytes source))) as Hf.
  { unfold forbidden_call.
    destruct (scan_spec (length (as_bytes source)) (as_bytes source) 0) as [-> _]; done. }
  split; [done|]. rewrite <- Hf. unfold meta_of.
  destruct (forbidden_call source); [by eexists|done].
Qed.
End ForbiddenProps.

(** ** Validation *)

Module ValidateProps.
Section validate.
Context {X : Externs} {R : Rhai}.
Implicit Types (w : Workflow).

Lemma duplicate_step_None seen steps :
  duplicate_step seen steps = None <->
  NoDup (st_id <$> steps) /\ forall st, st ∈ steps -> st_id st ∉ seen.
Proof.
  revert seen. induction steps as [|st steps IH]; intros seen; simpl.
  { split; [|done]. intros _. split; [constructor|]. by intros st ?%not_elem_of_nil. }
  case_bool_decide as Hin.
  - split; [done|]. intros [_ Hall]. exfalso. by eapply (Hall st); [by left|].
  - rewrite IH, NoDup_cons, list_elem_of_fmap. split.
    + intros [Hnd Hall]. split_and!; [|done|].
      * intros (st' & Hid & Hst'). apply (Hall st' Hst'). rewrite Hid. set_solver.
      * intros st' [->|Hst']%elem_of_cons; [done|]. specialize (Hall st' Hst'). set_solver.
    + intros [[Hn Hnd] Hall]. split; [done|]. intros st' Hst' [Heq%elem_of_singleton|Hs]%elem_of_union.
      * apply Hn. by exists st'.
      * apply (Hall st'); [by right|done].
Qed.

Lemma duplicate_free steps : duplicate_step ∅ steps = None <-> NoDup (st_id <$> steps).
Proof.
  rewrite duplicate_step_None. split; [by intros []|]. intros Hd. split; [done|]. intros. set_solver.
Qed.

Lemma duplicate_verdict (o : option StepId) :
  match o with Some id => Err (WorkflowError.DuplicateStepId id) | None => Ok tt end = Ok tt
  <-> o = None.
Proof. by destruct o. Qed.

Lemma duplicate_step_Some seen steps id : duplicate_step seen steps = Some id ->
  exists i st, steps !! i = Some st /\ st_id st = id /\
    (id ∈ seen \/ exists j st', j < i /\ steps !! j = Some st' /\ st_id st' = id).
Proof.
  revert seen. induction steps as [|st steps IH]; intros seen; simpl; [done|].
  case_bool_decide as Hin.
  - intros [= <-]. exists 0, st. split_and!; [done..|]. by left.
  - intros (i & st' & Hi & Hid & Hprev)%IH. exists (S i), st'. split_and!; [done..|].
    destruct Hprev as [[Heq%elem_of_singleton|Hs]%elem_of_union|(j & st2 & Hj & Hst2 & Hid2)].
    + right. exists 0, st. split_and!; [lia|done|done].
    + by left.
    + right. exists (S j), st2. split_and!; [lia|done|done].
Qed.

(** [validate] accepts exactly the runnable workflows: a script one whose body
    compiles and declares its [meta], or a step-list one with a step; and in both
    cases no two steps with the same id.  A duplicate it reports occurs twice. *)
Theorem validate_exact w :
  (validate_workflow w = Ok tt <->
    match wf_script w with
    | Some source => exists meta, meta_of source = Ok meta
    | None => wf_steps w <> []
    end /\ NoDup (st_id <$> wf_steps w)) /\
  (forall id, validate_workflow w = Err (WorkflowError.DuplicateStepId id) ->
    exists i j st st', i < j /\ wf_steps w !! i = Some st /\ wf_steps w !! j = Some st' /\
      st_id st = id /\ st_id st' = id).
Proof.
  unfold validate_workflow.
  assert (forall id, duplicate_step ∅ (wf_steps w) = Some id ->
    exists i j st st', i < j /\ wf_steps w !! i = Some st /\ wf_steps w !! j = Some st' /\
      st_id st = id /\ st_id st' = id) as Hsome.
  { intros id (i & st & Hi & Hid & [?|(j & st' & Hj & Hst' & Hid')])%duplicate_step_Some;
      [set_solver|]. by exists j, i, st', st. }
  rewrite <- duplicate_free. destruct (duplicate_step ∅ (wf_steps w)) as [id|];
    (destruct (wf_script w) as [source|]; [destruct (meta_of source)|case_bool_decide]); simpl;
    (split; [|intros ? [= <-] || intros ? [=]; by apply Hsome]); naive_solver.
Qed.

(** what attaching a script makes of a workflow: the name and the phases its
    [meta] declares, one step per phase, the id being the title's slug; the result
    validates exactly when the slugs are distinct. *)
Theorem with_script_steps (source : Str) w w' (Hw : with_script source w = Ok w') :
  exists meta, meta_of source = Ok meta /\ wf_name w' = meta_name meta /\
    wf_script w' = Some source /\ wf_id w' = wf_id w /\ wf_trigger w' = wf_trigger w /\
    st_name <$> wf_steps w' = pm_title <$> meta_phases meta /\
    (validate_workflow w' = Ok tt <-> NoDup ((fun p => slug (pm_title p)) <$> meta_phases meta)).
Proof.
  unfold with_script in Hw. destruct (meta_of source) as [meta|] eqn:Hm; simpl in Hw; [|done].
  case_bool_decide; [done|]. simplify_eq. exists meta. split_and!; try done; simpl.
  - by rewrite <- list_fmap_compose.
  - unfold validate_workflow. simpl. rewrite Hm. simpl.
    rewrite duplicate_verdict, duplicate_free, <- list_fmap_compose.
    replace ((st_id ∘ _) <$> meta_phases meta)
      with (mkStepId <$> ((fun p => slug (pm_title p)) <$> meta_phases meta))
      by by rewrite <- list_fmap_compose.
    split; [apply NoDup_fmap_1|]. apply NoDup_fmap_2. by intros ? ? [=].
Qed.
End validate.
End ValidateProps.

(** ** Witnesses *)

Module ScriptWitness.
Import RunStates ScriptEngine ScriptProps ValidateProps.
#[local] Existing Instance demo_externs.

(** A toy script language: a body is its text, its [meta] is fixed. *)
Definition demo_meta : Meta := mkMeta (lit "release") [] None
  [mkPhaseMeta (lit "Review") None; mkPhaseMeta (lit "review!") None].

#[local] Instance demo_rhai : @Rhai demo_externs := {|
  Ast := Str;
  Dynamic := Str;
  compile s := Ok s;
  eval_stub ast := Some ast;
  from_dynamic _ := Ok (tt : @Json demo_externs);
  meta_from_value _ := Ok demo_meta;
  to_dynamic _ := Some [];
  dynamic_unit := [];
  into_string d := Some d;
  try_cast_map _ := None;
  json_text _ := lit "null";
|}.

(** Two phases, a caught refusal in the second, then [complete]. *)
Definition demo_script : script :=
  CallPhase (lit "Check") (CallAgent (lit "run the tests") (fun _ =>
  CallPhase (lit "Ship") (CallAgent (lit "publish") (fun _ => CallComplete (lit "done"))))).

Definition demo_clock (i : nat) : @Instant demo_externs := i.

Definition demo_run : ScriptRun :=
  (run_script demo_clock 1 demo_meta demo_script (mkCannedHost 0)).2.

Theorem script_phases_timeline_witness :
  (ph_title <$> sr_phases demo_run) = [lit "Check"; lit "Ship"] /\
  @timeline demo_externs le (sr_started_at demo_run) (sr_phases demo_run) (sr_finished_at demo_run).
Proof.
  split; [by vm_compute|].
  apply (@script_phases_timeline demo_externs demo_rhai CannedHost _ demo_clock le 1 demo_meta
    demo_script (mkCannedHost 0)).
  - apply _.
  - unfold demo_clock. intros i j Hij. exact Hij.
Defined.

Definition demo_source : Str := lit "let meta = 1;".

Theorem with_script_steps_witness :
  exists w', with_script demo_source (WorkflowBuilder.new WorkflowId_default []) = Ok w' /\
    wf_name w' = lit "release".
Proof.
  destruct (with_script demo_source (WorkflowBuilder.new WorkflowId_default [])) as [w'|] eqn:Hw;
    [|by vm_compute in Hw].
  destruct (with_script_steps demo_source _ w' Hw) as (meta & Hm & Hn & _).
  exists w'. split; [done|]. rewrite Hn. by vm_compute in Hm; simplify_eq.
Defined.

(** The budget's refusal settles the run as failed although the body caught it
    and completed. *)
Theorem caught_refusal_still_fails :
  sr_status demo_run = RunStatus.Failed (exhausted 1) /\ sr_output demo_run = Some tt /\
  ph_status <$> sr_phases demo_run = [StepStatus.Succeeded; StepStatus.Failed (exhausted 1)].
Proof. split_and!; by vm_compute. Qed.

(** A script that [with_script] accepts and [validate] rejects: two of its phase
    titles have one slug. *)
Theorem with_script_accepts_duplicate_slugs :
  (let? w := with_script demo_source (WorkflowBuilder.new WorkflowId_default []) in
   Ok (validate_workflow w))%goble
  = Ok (Err (WorkflowError.DuplicateStepId (mkStepId (lit "review")))).
Proof. vm_compute. reflexivity. Qed.

(** An uncaught error of the body fails the run and leaves every phase, the open
    one included, marked as succeeded. *)
Theorem raised_error_leaves_phases_succeeded :
  let r := (run_script demo_clock 9 demo_meta
    (CallPhase (lit "Check") (Raise (lit "Function not found"))) (mkCannedHost 0)).2 in
  sr_status r = RunStatus.Failed (lit "Function not found") /\
  ph_status <$> sr_phases r = [StepStatus.Succeeded].
Proof. split; by vm_compute. Qed.
End ScriptWitness.
