(* ===== verification/DaemonProtocol.v ===== *)
(** * [crates/goble-daemon-protocol]: requests and frames

    The requests a client sends, and the frame both directions use.  Its framing
    is that of [HarnessProtocol.v], at this message type. *)

From S2P Require Import Prelude HarnessTypes HarnessProtocol Workflow.

Module DaemonRequest.
Inductive t {X : Externs} : Type :=
| RunHarness (turn : HarnessTurn)
| Resume (session_id : SessionId) (response : Str)
| ResumeCommand (session_id : SessionId) (decision : CommandDecision.t)
| Cancel (session_id : SessionId)
| ListHarnesses
| Snapshot
| Rewind (session_id : SessionId) (at_ : nat)
| Fork (session_id : SessionId) (at_ : nat) (new_session_id : SessionId)
| Replay (session_id : SessionId) (at_ : nat)
| Checkpoints (session_id : SessionId)
| Select (session_id : SessionId) (at_ : nat)
| Apply (session_id : SessionId) (at_ : nat)
| Release (session_id : SessionId) (at_ : nat)
| Discard (session_id : SessionId) (at_ : nat)
| RunWorkflow (request : WorkflowHostRequest).
End DaemonRequest.

Module DaemonMessage.
Inductive t {X : Externs} : Type :=
| Request (request : DaemonRequest.t)
| Event (event : DaemonEvent.t).
End DaemonMessage.
