(* ===== verification/DaemonWorkflow.v ===== *)
(** * [crates/goble-daemon], [workflow.rs] and the workflow half of [state/core.rs]

    The daemon-side halves of the workflow engine: the executors that answer a
    workflow step, or a script's [agent] call, with one harness turn
    ([HarnessStepExecutor], [ScriptTurnHost]), the seam they run it on
    ([run_turn_blocking]), and the host that journals requests, runs workflows and
    keeps their runs ([WorkflowHost]).

    The components meet at interfaces: a host is generic in its [StepExecutor] and
    [ScriptHost]; the executors are generic in the run seam; the daemon's seam is
    generic in the [HarnessRuntime] its registry holds. *)

From S2P Require Import Prelude HarnessTypes HarnessProtocol HarnessRuntime Workflow WorkflowScript.

(** ** The run seam *)

(** [TextRunSeam]: run a turn to its end, over the state running it changes. *)
Class TextRunSeam (W : Type) : Type := {
  run_text : HarnessTurn -> W -> W * (StepOutcome.t * Str);
}.

(** [RunSeam]: the same turn, its text dropped. *)
Definition run_seam {W} `{!TextRunSeam W} (turn : HarnessTurn) (w : W) : W * StepOutcome.t :=
  let '(w, (outcome, _)) := run_text turn w in (w, outcome).

(** The session of call [index], and the turn an executor runs for it. *)
Definition call_session (prefix : Str) (index : N) : SessionId :=
  mkSessionId (prefix ++ lit "-" ++ show_N index).

Definition seam_turn (harness_id : HarnessId) (project_id : ProjectId) (medium_id : MediumId)
    (prefix goal : Str) (index : N) : HarnessTurn :=
  with_scope project_id medium_id (new_turn harness_id (call_session prefix index) goal).

(** ** The executors

    Both keep a [Mutex<u64>] counter, read and bumped under one lock. *)

Record Seamed (W : Type) : Type := mkSeamed {
  sm_harness_id : HarnessId;
  sm_project_id : ProjectId;
  sm_medium_id : MediumId;
  sm_session_prefix : Str;
  sm_world : W;
  sm_counter : N;
}.
Arguments mkSeamed {W} _ _ _ _ _ _.
Arguments sm_harness_id {W} _.
Arguments sm_project_id {W} _.
Arguments sm_medium_id {W} _.
Arguments sm_session_prefix {W} _.
Arguments sm_world {W} _.
Arguments sm_counter {W} _.

Definition after_call {W} (w : W) (h : Seamed W) : Seamed W :=
  mkSeamed (sm_harness_id h) (sm_project_id h) (sm_medium_id h) (sm_session_prefix h) w
    (sm_counter h + 1).

(** The turn of the executor's next call. *)
Definition next_turn {W} (goal : Str) (h : Seamed W) : HarnessTurn :=
  seam_turn (sm_harness_id h) (sm_project_id h) (sm_medium_id h) (sm_session_prefix h) goal
    (sm_counter h).

Record ScriptTurnHost (W : Type) : Type := mkScriptTurnHost { script_seam : Seamed W }.
Arguments mkScriptTurnHost {W} _.
Arguments script_seam {W} _.

Record HarnessStepExecutor (W : Type) : Type := mkHarnessStepExecutor { step_seam : Seamed W }.
Arguments mkHarnessStepExecutor {W} _.
Arguments step_seam {W} _.

(** [ScriptTurnHost::new] and [HarnessStepExecutor::new]: the counter starts at 0. *)
Definition new_script_host {W} (harness_id : HarnessId) (project_id : ProjectId)
    (medium_id : MediumId) (session_prefix : Str) (w : W) : ScriptTurnHost W :=
  mkScriptTurnHost (mkSeamed harness_id project_id medium_id session_prefix w 0).
Definition new_step_executor {W} (harness_id : HarnessId) (project_id : ProjectId)
    (medium_id : MediumId) (session_prefix : Str) (w : W) : HarnessStepExecutor W :=
  mkHarnessStepExecutor (mkSeamed harness_id project_id medium_id session_prefix w 0).

(** [<ScriptTurnHost as ScriptHost>::agent]. *)
Definition turn_agent {W} `{!TextRunSeam W} (opts : AgentOpts) (host : ScriptTurnHost W)
    : ScriptTurnHost W * AgentOutcome :=
  let h := script_seam host in
  let index := sm_counter h in
  let '(w, (outcome, output)) := run_text (next_turn (ao_prompt opts) h) (sm_world h) in
  let '(success, error) :=
    match outcome with
    | StepOutcome.Succeeded => (true, None)
    | StepOutcome.Failed message => (false, Some message)
    end in
  (mkScriptTurnHost (after_call w h),
   {| out_agent_id := sm_session_prefix h ++ lit "-agent-" ++ show_N index;
      out_success := success;
      out_output := if bool_decide (trim output = []) then default [] error else output;
      out_tokens_used := 0;
      out_duration_ms := 0 |}).

#[export] Instance ScriptTurnHost_host {W} `{!TextRunSeam W} : ScriptHost (ScriptTurnHost W) := {
  host_agent := turn_agent;
  host_log _ h := h;
}.

(** [<HarnessStepExecutor as StepExecutor>::run]. *)
Definition turn_step {W} `{!TextRunSeam W} (step : Step) (e : HarnessStepExecutor W)
    : HarnessStepExecutor W * StepOutcome.t :=
  let h := step_seam e in
  let '(w, outcome) := run_seam (next_turn (st_name step) h) (sm_world h) in
  (mkHarnessStepExecutor (after_call w h), outcome).

#[export] Instance HarnessStepExecutor_executor {W} `{!TextRunSeam W}
    : StepExecutor (HarnessStepExecutor W) := { run_step := turn_step }.

(** ** The daemon's seam *)

Section seam.
Context {X : Externs} {H : Type} `{!HarnessRuntime H}.

(** The drain loop of [run_turn_blocking_with_output]. *)
Definition drain_event (acc : StepOutcome.t * Str) (event : HarnessServerEvent.t)
    : StepOutcome.t * Str :=
  let '(outcome, text) := acc in
  match event with
  | HarnessServerEvent.AssistantDelta _ delta => (outcome, text ++ delta)
  | HarnessServerEvent.Done _ => (StepOutcome.Succeeded, text)
  | HarnessServerEvent.Error _ message => (StepOutcome.Failed message, text)
  | _ => (outcome, text)
  end.

Definition run_turn_blocking_with_output (turn : HarnessTurn) (registry : gmap HarnessId H)
    : gmap HarnessId H * (StepOutcome.t * Str) :=
  let harness_id := turn_harness_id turn in
  match HarnessRegistry.resolve harness_id registry with
  | None =>
      (registry, (StepOutcome.Failed (lit "no harness resolved for " ++ harness_id_0 harness_id), []))
  | Some harness =>
      let '(harness, events) := h_run turn harness in
      (<[harness_id := harness]> registry,
       foldl drain_event (StepOutcome.Succeeded, []) events)
  end.

Definition run_turn_blocking (turn : HarnessTurn) (registry : gmap HarnessId H)
    : gmap HarnessId H * StepOutcome.t :=
  let '(registry, (outcome, _)) := run_turn_blocking_with_output turn registry in
  (registry, outcome).

(** The seam [install_workflow_executor] builds captures a weak reference: [None]
    once the daemon is gone. *)
#[export] Instance daemon_seam : TextRunSeam (option (gmap HarnessId H)) := {
  run_text turn daemon :=
    match daemon with
    | Some registry =>
        let '(registry, r) := run_turn_blocking_with_output turn registry in (Some registry, r)
    | None => (None, (StepOutcome.Failed (lit "daemon went away while running step"), []))
    end;
}.
End seam.

(** ** The host *)

Module WorkflowHosts.
Section host.
Context {X : Externs} {R : Rhai} `{!RhaiEval} {E S : Type} `{!StepExecutor E} `{!ScriptHost S}.

Record WorkflowHost : Type := mkWorkflowHost {
  wh_engine : E;
  wh_script_host : option S;
  wh_workflows : list Workflow;
  wh_journal : list WorkflowHostRequest;
  wh_runs : list WorkflowRun;
  wh_next_seq : N;
}.
Implicit Types (h : WorkflowHost).

Definition new (executor : E) : WorkflowHost := mkWorkflowHost executor None [] [] [] 0.

Definition with_script_host (host : S) h : WorkflowHost :=
  mkWorkflowHost (wh_engine h) (Some host) (wh_workflows h) (wh_journal h) (wh_runs h) (wh_next_seq h).

(** [anyhow] renders a [WorkflowError] with its [thiserror] message. *)
Definition render (e : WorkflowError.t) : Str :=
  match e with
  | WorkflowError.NoSteps id =>
      lit "workflow WorkflowId(" ++ debug_str (workflow_id_0 id) ++ lit ") has no steps"
  | WorkflowError.DuplicateStepId id => lit "step id " ++ step_id_0 id ++ lit " is duplicated"
  | WorkflowError.Script m => lit "workflow script is invalid: " ++ m
  | WorkflowError.Cron m => lit "invalid cron expression: " ++ m
  end.

Definition has_id (id : WorkflowId) (w : Workflow) : bool := bool_decide (wf_id w = id).

Definition register_workflow (w : Workflow) h : WorkflowHost * result Str unit :=
  match validate_workflow w with
  | Err e => (h, Err (render e))
  | Ok _ =>
      if existsb (has_id (wf_id w)) (wh_workflows h) then
        (h, Err (lit "workflow " ++ workflow_id_0 (wf_id w) ++ lit " is already registered"))
      else
        (mkWorkflowHost (wh_engine h) (wh_script_host h) (wh_workflows h ++ [w]) (wh_journal h)
           (wh_runs h) (wh_next_seq h), Ok tt)
  end.

Definition workflow (id : WorkflowId) h : option Workflow := List.find (has_id id) (wh_workflows h).

Definition with_seq (seq : N) (q : WorkflowHostRequest) : WorkflowHostRequest :=
  mkWorkflowHostRequest seq (hq_request_id q) (hq_workflow_id q) (hq_trigger q) (hq_payload q)
    (hq_submitted_at q).

Definition journal (request : WorkflowHostRequest) h : WorkflowHost * WorkflowHostRequest :=
  let entry := with_seq (wh_next_seq h) request in
  (mkWorkflowHost (wh_engine h) (wh_script_host h) (wh_workflows h) (wh_journal h ++ [entry])
     (wh_runs h) (wh_next_seq h + 1), entry).

Definition set_runners (e : E) (s : option S) h : WorkflowHost :=
  mkWorkflowHost e s (wh_workflows h) (wh_journal h) (wh_runs h) (wh_next_seq h).

Definition persist_run (r : WorkflowRun) h : WorkflowHost :=
  mkWorkflowHost (wh_engine h) (wh_script_host h) (wh_workflows h) (wh_journal h)
    (wh_runs h ++ [r]) (wh_next_seq h).

(** [execute]; [now] is the clock of the run. *)
Definition execute (now : nat -> Instant) (w : Workflow) (entry : WorkflowHostRequest) h
    : WorkflowHost * result Str WorkflowRun :=
  match wf_script w, wh_script_host h with
  | Some source, Some host =>
      let '(host, res) := ScriptEngine.run now DEFAULT_BUDGET source (hq_payload entry) host in
      let h := set_runners (wh_engine h) (Some host) h in
      match res with
      | Err e => (h, Err e)
      | Ok script =>
          let run := to_workflow_run script (wf_id w) in (persist_run run h, Ok run)
      end
  | Some _, None =>
      (h, Err (lit "workflow " ++ workflow_id_0 (wf_id w) ++
               lit " has a Rhai body but this host has no script runner"))
  | None, _ =>
      let '(e, run) := WorkflowEngine.run now w (wh_engine h) in
      (persist_run run (set_runners e (wh_script_host h) h), Ok run)
  end.

Definition run (now : nat -> Instant) (request : WorkflowHostRequest) h
    : WorkflowHost * result Str WorkflowRun :=
  let '(h, entry) := journal request h in
  match workflow (hq_workflow_id entry) h with
  | None => (h, Err (lit "no workflow registered for " ++ workflow_id_0 (hq_workflow_id entry)))
  | Some w => execute now w entry h
  end.

Definition run_workflow (now : nat -> Instant) (w : Workflow) (request : WorkflowHostRequest) h
    : WorkflowHost * result Str WorkflowRun :=
  let '(h, entry) := journal request h in execute now w entry h.

(** A call a client makes on a host. *)
Inductive call : Type :=
| Register (w : Workflow)
| Run (now : nat -> Instant) (request : WorkflowHostRequest)
| RunWorkflow (now : nat -> Instant) (w : Workflow) (request : WorkflowHostRequest).

Definition exec (c : call) h : WorkflowHost :=
  match c with
  | Register w => (register_workflow w h).1
  | Run now request => (run now request h).1
  | RunWorkflow now w request => (run_workflow now w request h).1
  end.

Definition requests (c : call) : list WorkflowHostRequest :=
  match c with
  | Register _ => []
  | Run _ request | RunWorkflow _ _ request => [request]
  end.

Definition exec_all (cs : list call) h : WorkflowHost := foldl (fun h c => exec c h) h cs.
End host.
Arguments WorkflowHost {X} E S.
End WorkflowHosts.

(** ** The daemon's slot for a host: [Arc<Mutex<Option<Arc<WorkflowHost>>>>] *)

Module DaemonWorkflows.
Import WorkflowHosts.
Section daemon.
Context {X : Externs} {R : Rhai} `{!RhaiEval} {E S : Type} `{!StepExecutor E} `{!ScriptHost S}.

Definition install_workflow_host (host : WorkflowHost E S) (slot : option (WorkflowHost E S))
    : option (WorkflowHost E S) := Some host.

(** [DaemonState::register_workflow]. *)
Definition register_on_daemon (w : Workflow) (slot : option (WorkflowHost E S))
    : option (WorkflowHost E S) * result Str unit :=
  match slot with
  | None => (None, Err (lit "no workflow host installed; install one first"))
  | Some host => let '(host, r) := register_workflow w host in (Some host, r)
  end.

(** [<DaemonState as DaemonPort>::run_workflow]. *)
Definition run_on_daemon (now : nat -> Instant) (request : WorkflowHostRequest)
    (slot : option (WorkflowHost E S)) : option (WorkflowHost E S) * result Str WorkflowRun :=
  match slot with
  | None => (None, Err (lit "no workflow host installed; install one before running workflows"))
  | Some host => let '(host, r) := run now request host in (Some host, r)
  end.
End daemon.

(** [install_workflow_executor]. *)
Definition install_workflow_executor {X : Externs} {S W} (harness_id : HarnessId)
    (project_id : ProjectId) (medium_id : MediumId) (session_prefix : Str) (daemon : W)
    (slot : option (WorkflowHost (HarnessStepExecutor W) S))
    : option (WorkflowHost (HarnessStepExecutor W) S) :=
  install_workflow_host (new (new_step_executor harness_id project_id medium_id session_prefix daemon)) slot.
End DaemonWorkflows.

(** ** Specifications and properties *)

Module SeamProps.
Section seam.
Context {X : Externs} {H : Type} `{!HarnessRuntime H}.

(** How a stream settles a turn: its last terminal event, success without one. *)
Definition settles (events : list HarnessServerEvent.t) : StepOutcome.t :=
  foldl (fun o ev => match ev with
    | HarnessServerEvent.Done _ => StepOutcome.Succeeded
    | HarnessServerEvent.Error _ m => StepOutcome.Failed m
    | _ => o
    end) StepOutcome.Succeeded events.

(** The assistant text of a stream. *)
Definition delta_text (ev : HarnessServerEvent.t) : Str :=
  match ev with HarnessServerEvent.AssistantDelta _ delta => delta | _ => [] end.
Definition stream_text (events : list HarnessServerEvent.t) : Str := events ≫= delta_text.

Lemma drain_spec events acc :
  foldl drain_event acc events =
    (foldl (fun o ev => match ev with
       | HarnessServerEvent.Done _ => StepOutcome.Succeeded
       | HarnessServerEvent.Error _ m => StepOutcome.Failed m
       | _ => o
       end) acc.1 events, acc.2 ++ stream_text events).
Proof.
  unfold stream_text. revert acc. induction events as [|ev events IH]; intros [o t]; simpl.
  - by rewrite app_nil_r.
  - rewrite IH. destruct ev; simpl; by rewrite <- ?app_assoc.
Qed.

(** the daemon's run seam. An unregistered harness fails the turn with a
    message naming it and runs nothing; a registered one runs exactly this turn,
    and the turn's outcome is the stream's last [Done] or [Error], whatever other
    events surround it, its text the concatenated assistant deltas.  A stream
    without a terminal event counts as succeeded. *)
Theorem run_turn_blocking_outcome (turn : HarnessTurn) (registry : gmap HarnessId H) :
  match HarnessRegistry.resolve (turn_harness_id turn) registry with
  | None =>
      run_turn_blocking_with_output turn registry =
        (registry, (StepOutcome.Failed
          (lit "no harness resolved for " ++ harness_id_0 (turn_harness_id turn)), []))
  | Some harness =>
      let '(harness', events) := h_run turn harness in
      run_turn_blocking_with_output turn registry =
        (<[turn_harness_id turn := harness']> registry, (settles events, stream_text events))
  end /\
  forall events, Forall (fun ev => match ev with
      HarnessServerEvent.Done _ | HarnessServerEvent.Error _ _ => False | _ => True end) events ->
    settles events = StepOutcome.Succeeded.
Proof.
  split.
  - unfold run_turn_blocking_with_output. destruct (HarnessRegistry.resolve _ _); [|done].
    destruct (h_run turn h) as [h' events]. by rewrite drain_spec.
  - unfold settles. induction 1 as [|ev events Hev _ IH]; [done|]. simpl. by destruct ev.
Qed.
End seam.
End SeamProps.

(** A seam that also keeps the turns it ran, oldest first. *)
Record Logged (W : Type) : Type := mkLogged { logged_world : W; logged : list HarnessTurn }.
Arguments mkLogged {W} _ _.
Arguments logged_world {W} _.
Arguments logged {W} _.

#[export] Instance Logged_seam {W} `{!TextRunSeam W} : TextRunSeam (Logged W) := {
  run_text turn w :=
    let '(w', r) := run_text turn (logged_world w) in (mkLogged w' (logged w ++ [turn]), r);
}.
