(* ===== verification/DaemonWorkflowProps.v ===== *)
(** * What the daemon's workflow host promises

    Every step and every script call runs as its own turn on its own session; the
    journal is a gap-free log of the requests; persisted runs are settled; and the
    pieces composed run a workflow end to end. *)

From S2P Require Import Prelude HarnessTypes HarnessProtocol HarnessRuntime Workflow WorkflowScript.
From S2P Require Import WorkflowScriptProps DaemonWorkflow.

Module DaemonWorkflowProps.
Import WorkflowHosts.

(** ** Sessions are never shared *)

Lemma lit_inj s t : lit s = lit t -> s = t.
Proof.
  revert t. induction s as [|a s IH]; intros [|b t]; simpl; try done.
  intros [= Hab Hst]. f_equal; [|by apply IH].
  rewrite <- (Ascii.ascii_N_embedding a), <- (Ascii.ascii_N_embedding b). by f_equal.
Qed.

Lemma call_session_inj prefix i j : call_session prefix i = call_session prefix j -> i = j.
Proof. intros [= H]. apply app_inv_head in H. simplify_eq/=. by apply lit_inj, (inj pretty) in H. Qed.

Section sessions.
Context {X : Externs} {W : Type} `{!TextRunSeam W} (now : nat -> Instant).
Context (hid : HarnessId) (pid : ProjectId) (mid : MediumId) (prefix : Str).

(** The turn of call number [i], on [goal]. *)
Definition turn_of (i : nat) (goal : Str) : HarnessTurn :=
  seam_turn hid pid mid prefix goal (N.of_nat i).

Lemma turns_NoDup {A} (goal : A -> Str) (l : list A) :
  NoDup (turn_session_id <$> imap (fun i x => turn_of i (goal x)) l).
Proof.
  apply NoDup_alt. intros i j sid. rewrite !list_lookup_fmap, !list_lookup_imap.
  destruct (l !! i), (l !! j); simpl; try done. intros [= Hi] [= Hj].
  assert (call_session prefix (N.of_nat i) = call_session prefix (N.of_nat j)) as H by congruence.
  apply call_session_inj in H. lia.
Qed.

(** The executor [h] ran the turns of [goals] so far. *)
Record ran (h : Seamed (Logged W)) (goals : list Str) : Prop := {
  ran_scope : sm_harness_id h = hid /\ sm_project_id h = pid /\ sm_medium_id h = mid /\
    sm_session_prefix h = prefix;
  ran_counter : sm_counter h = N.of_nat (length goals);
  ran_turns : logged (sm_world h) = imap turn_of goals;
}.

Lemma ran_next h goals goal w' r : ran h goals ->
  run_text (next_turn goal h) (sm_world h) = (w', r) -> ran (after_call w' h) (goals ++ [goal]).
Proof.
  intros [(Hh & Hp & Hm & Hs) Hc Ht] Hr. simpl in Hr.
  destruct (run_text _ (logged_world (sm_world h))) as [w2 r2]. simplify_eq. split.
  - done.
  - simpl. rewrite Hc, length_app. simpl. lia.
  - simpl. rewrite Ht, imap_app. simpl. rewrite Nat.add_0_r. unfold turn_of, next_turn.
    by rewrite Hc, Hh, Hp, Hm, Hs.
Qed.

(** every agent call of a script is one harness turn on a session of its own.
    Call [i] runs the prompt the run records as its [i]th, on the session
    [prefix-i], with the host's harness, project and medium; no two calls share a
    session. *)
Theorem script_calls_get_own_sessions `{!Rhai} (budget : N) (meta : Meta) (sc : script) (w : W) :
  let '(host, r) := ScriptEngine.run_script now budget meta sc
    (new_script_host hid pid mid prefix (mkLogged w [])) in
  let turns := logged (sm_world (script_seam host)) in
  turns = imap (fun i c => turn_of i (ac_prompt c)) (sr_calls r) /\
  NoDup (turn_session_id <$> turns).
Proof.
  set (host0 := new_script_host _ _ _ _ _).
  pose proof (ScriptProps.script_calls now budget meta sc host0) as Hr.
  destruct (ScriptEngine.run_script now budget meta sc host0) as [host r].
  set (w0 := ScriptProps.start_of now budget host0) in *.
  assert (let w1 := (ScriptEngine.eval now sc w0).1 in
    ran (script_seam w1.1) (ac_prompt <$> rs_calls w1.2) /\ ScriptProps.accounts budget w1.2) as [Hran _].
  { apply (ScriptProps.eval_preserves now (fun w1 => ran (script_seam w1.1) (ac_prompt <$> rs_calls w1.2) /\
      ScriptProps.accounts budget w1.2)).
    - intros prompt opts w1 [Hran Ha].
      destruct (ScriptProps.call_agent_called now budget prompt opts w1 Ha) as (Hc & Ha' & _).
      split; [|done]. destruct Hc as [s' Hcalls _ _|h' s' o c Hh Hcalls Hp _ _]; simpl.
      + by rewrite Hcalls.
      + rewrite Hcalls, fmap_app. simpl. rewrite Hp. simpl in Hh. unfold turn_agent in Hh.
        destruct (run_text _ (sm_world (script_seam w1.1))) as [w2 [out txt]] eqn:Hrun.
        destruct out; simplify_eq/=; by eapply ran_next.
    - intros title w1 [Hran Ha]. split; [|by apply ScriptProps.accounts_phase]. simpl.
      by rewrite (ScriptProps.sa_calls _ _ (ScriptProps.phase_status_accounts now title w1.2)).
    - intros line w1 [Hran []]. split; [exact Hran|by split].
    - intros v w1 [Hran []]. split; [exact Hran|by split].
    - split; [by split|apply ScriptProps.start_accounts]. }
  simpl in Hr. destruct Hr as [-> ->]. rewrite (ran_turns _ _ Hran), imap_fmap. split; [done|].
  apply turns_NoDup.
Qed.

Definition executed (x : StepExecution) : Prop := se_status x <> StepStatus.Skipped.

Lemma filter_skipped f (steps : list Step) started finished :
  filter executed (imap (fun i st => WorkflowEngine.execution (f i) st StepStatus.Skipped started finished) steps)
  = [].
Proof.
  revert f. induction steps as [|st steps IH]; intros f; [done|]. simpl.
  rewrite filter_cons_False by (unfold executed; simpl; by intros []). apply (IH (f ∘ S)).
Qed.

Lemma run_steps_ran index steps e goals : ran (step_seam e) goals ->
  let '(e', log, _) := WorkflowEngine.run_steps now index steps e in
  ran (step_seam e') (goals ++ (se_name <$> filter executed log)).
Proof.
  revert index e goals. induction steps as [|st steps IH]; intros index e goals Hran; simpl.
  { by rewrite app_nil_r. }
  unfold turn_step, run_seam.
  destruct (run_text _ (sm_world (step_seam e))) as [w' [o txt]] eqn:Hrun.
  pose proof (ran_next _ _ _ _ _ Hran Hrun) as Hran'. destruct o as [|m].
  - specialize (IH (S index) (mkHarnessStepExecutor (after_call w' (step_seam e))) _ Hran').
    destruct (WorkflowEngine.run_steps _ _ _ _) as [[e' log] failed].
    rewrite filter_cons_True by done. simpl. by rewrite <- app_assoc in IH.
  - rewrite filter_cons_True by done. simpl.
    rewrite (filter_skipped (fun i => S (index + i))). done.
Qed.

(** every step the engine executes is one harness turn on a session of its
    own: the [i]th executed step runs its name as the goal on session [prefix-i];
    skipped steps run nothing. *)
Theorem workflow_steps_get_own_sessions (wf : Workflow) (w : W) :
  let '(e, r) := WorkflowEngine.run now wf (new_step_executor hid pid mid prefix (mkLogged w [])) in
  let turns := logged (sm_world (step_seam e)) in
  turns = imap (fun i x => turn_of i (se_name x)) (filter executed (wr_steps r)) /\
  NoDup (turn_session_id <$> turns).
Proof.
  unfold WorkflowEngine.run. set (e0 := new_step_executor _ _ _ _ _).
  assert (ran (step_seam e0) []) as H0 by by split.
  pose proof (run_steps_ran 0 (wf_steps wf) e0 [] H0) as Hran.
  destruct (WorkflowEngine.run_steps now 0 (wf_steps wf) e0) as [[e log] failed].
  destruct (match failed with Some _ => _ | None => _ end) as [status finished_at]. simpl in *.
  rewrite (ran_turns _ _ Hran), imap_fmap. split; [done|]. apply turns_NoDup.
Qed.
End sessions.

(** ** The host *)

Section host.
Context {X : Externs} {R : Rhai} `{!RhaiEval} {E S : Type} `{!StepExecutor E} `{!ScriptHost S}.
Implicit Types (h : WorkflowHost E S) (c : call).

(** What [execute] leaves alone. *)
Lemma execute_frame now w entry h :
  wh_journal (execute now w entry h).1 = wh_journal h /\
  wh_next_seq (execute now w entry h).1 = wh_next_seq h /\
  wh_workflows (execute now w entry h).1 = wh_workflows h.
Proof.
  unfold execute. destruct (wf_script w), (wh_script_host h); try done.
  - destruct (ScriptEngine.run _ _ _ _ _) as [? []]; done.
  - by destruct (WorkflowEngine.run _ _ _).
  - by destruct (WorkflowEngine.run _ _ _).
Qed.

(** A numbered log of requests, and the counter beside it. *)
Definition numbered (qs : list WorkflowHostRequest) h : Prop :=
  wh_journal h = imap (fun i q => with_seq (N.of_nat i) q) qs /\
  wh_next_seq h = N.of_nat (length qs).

Lemma numbered_journal qs q h : numbered qs h -> numbered (qs ++ [q]) (journal q h).1.
Proof.
  intros [Hj Hn]. split; simpl.
  - rewrite Hj, imap_app, Hn. simpl. by rewrite Nat.add_0_r.
  - rewrite Hn, length_app. simpl. lia.
Qed.

Lemma numbered_execute qs now w entry h : numbered qs h -> numbered qs (execute now w entry h).1.
Proof. intros []. destruct (execute_frame now w entry h) as (Hj & Hn & _). split; congruence. Qed.

Lemma numbered_exec qs c h : numbered qs h -> numbered (qs ++ requests c) (exec c h).
Proof.
  intros Hq. destruct c as [w|now q|now w q]; simpl.
  - rewrite app_nil_r. unfold register_workflow. destruct (validate_workflow w); [|done].
    by destruct (existsb _ _).
  - pose proof (numbered_journal qs q h Hq). unfold run. destruct (journal q h) as [h1 entry].
    destruct (workflow _ h1); [by apply numbered_execute|done].
  - pose proof (numbered_journal qs q h Hq). unfold run_workflow. destruct (journal q h) as [h1 entry].
    by apply numbered_execute.
Qed.

(** the journal is a gap-free log. Whatever calls a new host serves, failed
    runs and refused registrations included, its journal holds exactly the
    requests submitted to [run] and [run_workflow], in order, numbered 0, 1, 2,
    ..., and the next number is their count. *)
Theorem journal_is_sequential (e : E) (s : option S) (cs : list call) :
  let h := exec_all cs (mkWorkflowHost e s [] [] [] 0) in
  wh_journal h = imap (fun i q => with_seq (N.of_nat i) q) (cs ≫= requests) /\
  wh_next_seq h = N.of_nat (length (cs ≫= requests)).
Proof.
  enough (forall qs h, numbered qs h -> numbered (qs ++ (cs ≫= requests)) (exec_all cs h)) as Hgen
    by by apply (Hgen []).
  unfold exec_all. induction cs as [|c cs IH]; intros qs h Hq; simpl; [by rewrite app_nil_r|].
  rewrite app_assoc. by apply IH, numbered_exec.
Qed.

(** A run as a client reads it: settled, its log numbered by position, every
    entry finished. *)
Record run_settled (r : WorkflowRun) : Prop := {
  settled_status : wr_status r <> RunStatus.Running;
  settled_finished : is_Some (wr_finished_at r);
  settled_index : forall i x, wr_steps r !! i = Some x -> se_index x = i;
  settled_steps : Forall (fun x => is_Some (se_finished_at x)) (wr_steps r);
}.

Lemma run_steps_shape now index steps (e : E) :
  let log := (WorkflowEngine.run_steps now index steps e).1.2 in
  (forall i x, log !! i = Some x -> se_index x = index + i) /\
  Forall (fun x => is_Some (se_finished_at x)) log.
Proof.
  revert index e. induction steps as [|st steps IH]; intros index e; simpl; [by split|].
  destruct (run_step st e) as [e' [|m]].
  - specialize (IH (Datatypes.S index) e'). destruct (WorkflowEngine.run_steps _ _ _ _) as [[e2 log] f].
    destruct IH as [Hi Hf]. simpl in *. split; [|constructor; [by eexists|done]].
    intros [|i] x Hx; simpl in Hx; [simplify_eq/=; lia|]. rewrite (Hi _ _ Hx). lia.
  - split; simpl.
    + intros [|i] x Hx; simpl in Hx; [simplify_eq/=; lia|].
      rewrite list_lookup_imap in Hx. destruct (steps !! i); simplify_eq/=. lia.
    + constructor; [by eexists|]. apply Forall_lookup. intros i x Hx.
      rewrite list_lookup_imap in Hx. destruct (steps !! i); simplify_eq/=. by eexists.
Qed.

Lemma engine_settled now w (e : E) : run_settled (WorkflowEngine.run now w e).2.
Proof.
  unfold WorkflowEngine.run. pose proof (run_steps_shape now 0 (wf_steps w) e) as [Hi Hf].
  destruct (WorkflowEngine.run_steps _ _ _ _) as [[e' log] [[m t]|]]; by split; [|eexists| |].
Qed.

Lemma final_status_settled (s : RunState) : RunStates.final_status s <> RunStatus.Running.
Proof. unfold RunStates.final_status. destruct (rs_failure s); [done|]. by destruct (List.find _ _). Qed.

Lemma script_settled (r : ScriptRun) id : sr_status r <> RunStatus.Running ->
  run_settled (to_workflow_run r id).
Proof.
  intros Hs. split; [done|by eexists| |]; simpl.
  - intros i x. rewrite list_lookup_imap. destruct (sr_phases r !! i); simpl; [|done]. by intros [= <-].
  - apply Forall_lookup. intros i x. rewrite list_lookup_imap.
    destruct (sr_phases r !! i) as [p|]; simpl; [|done]. intros [= <-]. simpl.
    destruct (ph_finished_at p); by eexists.
Qed.

Lemma script_run_settled now budget source args (host host' : S) r :
  ScriptEngine.run now budget source args host = (host', Ok r) -> sr_status r <> RunStatus.Running.
Proof.
  unfold ScriptEngine.run, ScriptEngine.run_script. destruct (meta_of source); [|done].
  destruct (compile source); [|done]. destruct (ScriptEngine.eval _ _ _) as [[h1 s1] err]. simpl.
  intros [= _ <-]. simpl. apply final_status_settled.
Qed.

(** What a served run appends to the ledger of runs, and what it returns. *)
Definition persisted (h h' : WorkflowHost E S) (id : WorkflowId) (res : result Str WorkflowRun) : Prop :=
  match res with
  | Ok r => wh_runs h' = wh_runs h ++ [r] /\ run_settled r /\ wr_workflow_id r = id
  | Err _ => wh_runs h' = wh_runs h
  end.

Lemma execute_persists now w entry h :
  persisted h (execute now w entry h).1 (wf_id w) (execute now w entry h).2.
Proof.
  unfold execute. destruct (wf_script w) as [source|]; [destruct (wh_script_host h) as [host|]|]; simpl.
  - destruct (ScriptEngine.run now DEFAULT_BUDGET source (hq_payload entry) host)
      as [host' [r|er]] eqn:Hr; simpl; [|done].
    split_and!; [done| |done]. by eapply script_settled, script_run_settled.
  - done.
  - pose proof (engine_settled now w (wh_engine h)) as Hs.
    pose proof (WorkflowEngine.engine_run_id now w (wh_engine h)) as Hid.
    destruct (WorkflowEngine.run now w (wh_engine h)) as [e r]. by split_and!.
Qed.

(** The workflows a host knows. *)
Record catalog h : Prop := {
  cat_ids : NoDup (wf_id <$> wh_workflows h);
  cat_valid : Forall (fun w => validate_workflow w = Ok tt) (wh_workflows h);
  cat_runs : Forall run_settled (wh_runs h);
}.

Lemma has_id_false id (ws : list Workflow) : existsb (has_id id) ws = false -> id ∉ wf_id <$> ws.
Proof.
  intros Hf (w & -> & Hw)%list_elem_of_fmap. apply list_elem_of_In in Hw.
  assert (existsb (has_id (wf_id w)) ws = true) as Ht; [|congruence].
  apply existsb_exists. exists w. split; [done|]. by apply bool_decide_eq_true.
Qed.

Lemma catalog_persisted h h' id res : catalog h -> wh_workflows h' = wh_workflows h ->
  persisted h h' id res -> catalog h'.
Proof.
  intros [Hi Hv Hr] Hw Hp. split; rewrite ?Hw; try done.
  destruct res; simpl in Hp; [|by rewrite Hp]. destruct Hp as (-> & Hs & _).
  apply Forall_app_2; [done|]. by constructor.
Qed.

Lemma catalog_exec c h : catalog h -> catalog (exec c h).
Proof.
  intros Hc. destruct c as [w|now q|now w q]; simpl.
  - unfold register_workflow. destruct (validate_workflow w) as [[]|] eqn:Hv; [|done].
    destruct (existsb _ _) eqn:He; [done|]. destruct Hc as [Hi Hva Hr]. split; simpl; [| |done].
    + rewrite fmap_app. apply NoDup_app. split_and!; [done| |by apply NoDup_singleton].
      intros id Hid ->%list_elem_of_singleton. by apply (has_id_false _ _ He).
    + apply Forall_app_2; [done|]. by constructor.
  - assert (catalog (journal q h).1) as Hj by by destruct Hc.
    unfold run. destruct (journal q h) as [h1 entry]. destruct (workflow _ h1) as [w|]; [|done].
    by eapply catalog_persisted; [done|apply execute_frame|apply execute_persists].
  - assert (catalog (journal q h).1) as Hj by by destruct Hc.
    unfold run_workflow. destruct (journal q h) as [h1 entry].
    by eapply catalog_persisted; [done|apply execute_frame|apply execute_persists].
Qed.

Lemma catalog_exec_all cs h : catalog h -> catalog (exec_all cs h).
Proof. unfold exec_all. revert h. induction cs; intros h Hc; simpl; [done|]. by apply IHcs, catalog_exec. Qed.

Lemma workflow_lookup h id w : NoDup (wf_id <$> wh_workflows h) ->
  workflow id h = Some w <-> w ∈ wh_workflows h /\ wf_id w = id.
Proof.
  unfold workflow. induction (wh_workflows h) as [|w0 ws IH]; intros Hnd; simpl.
  { split; [done|]. by intros [?%not_elem_of_nil _]. }
  apply NoDup_cons in Hnd as [Hn Hnd]. unfold has_id at 1. case_bool_decide as Hid.
  - split; [intros [= ->]; split; [by left|done]|].
    intros [[->|Hw]%elem_of_cons Hid']; [done|]. exfalso. apply Hn.
    rewrite Hid, <- Hid'. by apply list_elem_of_fmap_2.
  - rewrite IH by done. split.
    + intros [Hw Hid']. split; [by right|done].
    + intros [[->|Hw]%elem_of_cons Hid']; [done|]. by split.
Qed.

(** What a host keeps and returns. After any calls on a new host: the ids of
    its workflows are distinct and each validates; every persisted run is settled;
    and a further [run] is refused with nothing persisted when no such workflow is
    registered, and otherwise persists exactly the run it returns, which is the
    named workflow's and settled, or returns an error and persists nothing. *)
Theorem host_runs_are_settled (e : E) (s : option S) (cs : list call) (now : nat -> Instant)
    (q : WorkflowHostRequest) :
  let h := exec_all cs (mkWorkflowHost e s [] [] [] 0) in
  NoDup (wf_id <$> wh_workflows h) /\
  Forall (fun w => validate_workflow w = Ok tt) (wh_workflows h) /\
  Forall run_settled (wh_runs h) /\
  persisted h (run now q h).1 (hq_workflow_id q) (run now q h).2 /\
  ((forall w, w ∈ wh_workflows h -> wf_id w <> hq_workflow_id q) ->
     (run now q h).2 = Err (lit "no workflow registered for " ++ workflow_id_0 (hq_workflow_id q))).
Proof.
  intros h. assert (catalog h) as [Hi Hv Hr].
  { apply catalog_exec_all. split; simpl; constructor. }
  split_and!; try done.
  - unfold run. simpl. destruct (workflow _ _) as [w|] eqn:Hw; [|done].
    apply workflow_lookup in Hw as [_ <-]; [|done].
    match goal with |- persisted _ (execute _ _ ?en ?h1).1 _ _ =>
      pose proof (execute_persists now w en h1) as Hp end.
    done.
  - intros Hno. unfold run. simpl. destruct (workflow _ _) as [w|] eqn:Hw; [|done].
    apply workflow_lookup in Hw as [Hin Hid]; [|done]. by destruct (Hno w Hin).
Qed.
End host.

(** ** End to end *)

Section mock.
Context {X : Externs} (now : nat -> Instant).

Lemma mock_settles turn (m : MockHarness) : SeamProps.settles (mock_run turn m) = StepOutcome.Succeeded.
Proof. done. Qed.

Definition step_registry (e : HarnessStepExecutor (option (gmap HarnessId MockHarness)))
    : option (gmap HarnessId MockHarness) := sm_world (step_seam e).

Lemma mock_step step e registry : step_registry e = Some registry ->
  let hid := sm_harness_id (step_seam e) in
  exists e', sm_harness_id (step_seam e') = hid /\ step_registry e' = Some registry /\
  run_step step e = (e', match registry !! hid with
    | Some _ => StepOutcome.Succeeded
    | None => StepOutcome.Failed (lit "no harness resolved for " ++ harness_id_0 hid)
    end).
Proof.
  intros Hr hid. unfold step_registry in Hr. simpl. unfold turn_step, run_seam. simpl. rewrite Hr.
  unfold run_turn_blocking_with_output, HarnessRegistry.resolve. simpl. fold hid.
  destruct (registry !! hid) as [m|] eqn:Hm; simpl; eexists; (split; [|split; [|reflexivity]]); try done.
  unfold step_registry; simpl. by rewrite insert_id.
Qed.

(** the pieces composed, on the scripted harness. A workflow run through the
    daemon's seam succeeds at every step when the harness is registered, whatever
    reply it is scripted with; when it is not, the first step fails with a message
    naming it, the others are skipped, and the run fails with that message. *)
Theorem workflow_on_mock_harness (wf : Workflow) (hid : HarnessId) (pid : ProjectId) (mid : MediumId)
    (prefix : Str) (registry : gmap HarnessId MockHarness) :
  let r := (WorkflowEngine.run now wf (new_step_executor hid pid mid prefix (Some registry))).2 in
  let missing := lit "no harness resolved for " ++ harness_id_0 hid in
  match registry !! hid with
  | Some _ => wr_status r = RunStatus.Succeeded /\
      se_status <$> wr_steps r = replicate (length (wf_steps wf)) StepStatus.Succeeded
  | None => wf_steps wf <> [] -> wr_status r = RunStatus.Failed missing /\
      se_status <$> wr_steps r =
        StepStatus.Failed missing :: replicate (length (wf_steps wf) - 1) StepStatus.Skipped
  end.
Proof.
  cbv zeta. unfold WorkflowEngine.run. set (e0 := new_step_executor _ _ _ _ _).
  assert (step_registry e0 = Some registry /\ sm_harness_id (step_seam e0) = hid) as H0 by done.
  clearbody e0.
  destruct (registry !! hid) as [m|] eqn:Hm.
  - assert (forall steps index e, step_registry e = Some registry /\ sm_harness_id (step_seam e) = hid ->
      (WorkflowEngine.run_steps now index steps e).2 = None /\
      se_status <$> (WorkflowEngine.run_steps now index steps e).1.2 =
        replicate (length steps) StepStatus.Succeeded) as Hall.
    { induction steps as [|st steps IH]; intros index e [Hr Hh]; [done|]. simpl.
      destruct (mock_step st e registry Hr) as (e' & Hh' & Hr' & Hs). simpl in Hs. rewrite Hs, Hh, Hm.
      specialize (IH (Datatypes.S index) e'). destruct (WorkflowEngine.run_steps _ _ _ e') as [[e2 log] f].
      simpl in *. destruct IH as [-> IH]; [by rewrite Hh'|]. split; [done|]. f_equal. exact IH. }
    specialize (Hall (wf_steps wf) 0 e0 H0).
    destruct (WorkflowEngine.run_steps _ _ _ e0) as [[e2 log] f]. simpl in *. by destruct Hall as [-> ?].
  - intros Hne. destruct (wf_steps wf) as [|st steps]; [done|]. simpl. destruct H0 as [Hr Hh].
    destruct (mock_step st e0 registry Hr) as (e' & Hh' & Hr' & Hs). simpl in Hs. rewrite Hs, Hh, Hm.
    simpl. split; [done|]. f_equal. rewrite Nat.sub_0_r.
    apply list_eq. intros i. rewrite list_lookup_fmap, list_lookup_imap.
    destruct (steps !! i) as [x|] eqn:Hx; simpl.
    + symmetry. apply lookup_replicate_2. by eapply lookup_lt_Some.
    + symmetry. apply lookup_ge_None_2. rewrite length_replicate. by apply lookup_ge_None_1.
Qed.
End mock.
End DaemonWorkflowProps.
