(* ===== verification/VimWords.v ===== *)
(** * [crates/goble-ui/src/vim], [words.rs]: character classes and word motions

    Positions are character indices and a buffer the list of its characters.
    Every index the loops read is guarded by the loop's own bound. *)

From S2P Require Import Prelude.

(** ** Loops

    [while_up p fuel i] is [while p(i) { i += 1 }] for at most [fuel] rounds,
    [while_down p i] is [while i > 0 && p(i) { i -= 1 }]. *)

Fixpoint while_up (p : nat -> bool) (fuel i : nat) : nat :=
  match fuel with
  | O => i
  | S fuel => if p i then while_up p fuel (S i) else i
  end.

Fixpoint while_down (p : nat -> bool) (i : nat) : nat :=
  match i with
  | O => O
  | S i' => if p i then while_down p i' else i
  end.

Lemma while_up_spec p fuel i :
  let j := while_up p fuel i in
  i <= j <= i + fuel /\ (forall k, i <= k < j -> p k = true) /\ (j < i + fuel -> p j = false).
Proof.
  revert i. induction fuel as [|fuel IH]; intros i; simpl; [split_and!; lia|].
  destruct (p i) eqn:Hp.
  - destruct (IH (S i)) as (Hj & Hk & Hf). split_and!; [lia|lia| |intros; apply Hf; lia].
    intros k Hk'. destruct (decide (k = i)) as [->|]; [done|]. apply Hk. lia.
  - split_and!; try lia. done.
Qed.

Lemma while_down_spec p i :
  let j := while_down p i in
  j <= i /\ (forall k, j < k <= i -> p k = true) /\ (j = 0 \/ p j = false).
Proof.
  induction i as [|i IH]; simpl; [split_and!; [lia|lia|by left]|].
  destruct (p (S i)) eqn:Hp.
  - destruct IH as (Hj & Hk & Hf). split_and!; [lia| |done].
    intros k Hk'. destruct (decide (k = S i)) as [->|]; [done|]. apply Hk. lia.
  - split_and!; [lia|lia|by right].
Qed.

(** ** Character classes *)

Module CharKind.
Inductive t : Type := Word | Symbol | Whitespace.
End CharKind.

#[export] Instance CharKind_eq_dec : EqDecision CharKind.t.
Proof. solve_decision. Defined.

Module WordKind.
Inductive t : Type := Word | BigWord.
End WordKind.

Definition WORD_BOUNDARY_CHARS : list char :=
  lit "`~!@#$%^&*()-=+[{]}\|;:',.<>/?" ++ [DQUOTE; 171; 187]%N.

Definition kind_of (c : char) : CharKind.t :=
  if is_whitespace c then CharKind.Whitespace
  else if bool_decide (c ∈ WORD_BOUNDARY_CHARS) then CharKind.Symbol
  else CharKind.Word.

Definition continues (self other : CharKind.t) (kind : WordKind.t) : bool :=
  match kind with
  | WordKind.Word => bool_decide (self = other)
  | WordKind.BigWord =>
      bool_decide (self = other)
      || (bool_decide (self <> CharKind.Whitespace) && bool_decide (other <> CharKind.Whitespace))
  end.

(** [chars[i]] and its class. *)
Definition char_at (chars : list char) (i : nat) : char := default 0%N (chars !! i).
Definition kind_at (chars : list char) (i : nat) : CharKind.t := kind_of (char_at chars i).
Definition blank (k : CharKind.t) : bool := bool_decide (k = CharKind.Whitespace).

(** ** Motions *)

Fixpoint forward_loop (fuel : nat) (chars : list char) (kind : WordKind.t) (context : CharKind.t)
    (i : nat) : nat :=
  match fuel with
  | O => i
  | S fuel =>
      let i := S i in
      if bool_decide (length chars <= i) then length chars
      else
        let here := kind_at chars i in
        if negb (continues context here kind) && negb (blank here) then i
        else forward_loop fuel chars kind here i
  end.

Definition word_start_forward (chars : list char) (caret : nat) (kind : WordKind.t) : nat :=
  let len := length chars in
  if bool_decide (len <= caret) then caret
  else forward_loop len chars kind (kind_at chars caret) caret.

Definition word_start_backward (chars : list char) (caret : nat) (kind : WordKind.t) : nat :=
  if bool_decide (chars = []) then 0
  else
    let caret := caret `min` (length chars - 1) in
    if bool_decide (caret = 0) then 0
    else
      let i := while_down (fun i => blank (kind_at chars i)) (caret - 1) in
      let class := kind_at chars i in
      while_down (fun i => continues (kind_at chars (i - 1)) class kind) i.

Definition word_end_forward (chars : list char) (caret : nat) (kind : WordKind.t) : nat :=
  let len := length chars in
  if bool_decide (len = 0) then 0
  else
    let caret := caret `min` (len - 1) in
    let i := caret + 1 in
    if bool_decide (len <= i) then caret
    else
      let stops i :=
        let here := kind_at chars i in
        negb (continues here (kind_at chars (i + 1)) kind) && negb (blank here) in
      let i := while_up (fun i => bool_decide (i + 1 < len) && negb (stops i)) len i in
      if bool_decide (i + 1 < len) then i else len - 1.

Definition word_end_backward (chars : list char) (caret : nat) (kind : WordKind.t) : nat :=
  if bool_decide (chars = []) then 0
  else
    let caret := caret `min` (length chars - 1) in
    let class := kind_at chars caret in
    let i :=
      if blank class then caret
      else while_down (fun i => continues (kind_at chars (i - 1)) class kind) caret in
    if bool_decide (i = 0) then 0
    else
      let i := while_down (fun i => blank (kind_at chars i)) (i - 1) in
      let previous := kind_at chars i in
      while_up (fun i => bool_decide (i + 1 < length chars)
        && continues (kind_at chars (i + 1)) previous kind) (length chars) i.

(** ** What a word is

    A word starts at [i] when [i] holds a non-blank that does not continue the
    character before it, and ends at [i] when what follows does not continue it. *)

Section words.
Context (chars : list char) (kind : WordKind.t).

Definition starts_word (i : nat) : Prop :=
  i < length chars /\ kind_at chars i <> CharKind.Whitespace /\
  (i = 0 \/ continues (kind_at chars (i - 1)) (kind_at chars i) kind = false).

Definition ends_word (i : nat) : Prop :=
  i < length chars /\ kind_at chars i <> CharKind.Whitespace /\
  (i + 1 = length chars \/ continues (kind_at chars i) (kind_at chars (i + 1)) kind = false).

Lemma blank_true k : blank k = true <-> k = CharKind.Whitespace.
Proof. apply bool_decide_eq_true. Qed.
Lemma blank_false k : blank k = false <-> k <> CharKind.Whitespace.
Proof. apply bool_decide_eq_false. Qed.

Lemma continues_refl k : continues k k kind = true.
Proof. unfold continues. destruct kind; by rewrite bool_decide_true. Qed.

Lemma continues_blank k : continues k CharKind.Whitespace kind = true -> k = CharKind.Whitespace.
Proof. destruct kind, k; done. Qed.
Lemma blank_continues k : continues CharKind.Whitespace k kind = true -> k = CharKind.Whitespace.
Proof. destruct kind, k; done. Qed.

Lemma continues_sym a b : continues a b kind = continues b a kind.
Proof. by destruct kind, a, b. Qed.
Lemma continues_trans a b c :
  continues a b kind = true -> continues b c kind = true -> continues a c kind = true.
Proof. by destruct kind, a, b, c. Qed.

(** The first [P] after [i], or [none] when there is none: the shape of the forward
    motions' results. *)
Definition first_after (P : nat -> Prop) (none i j : nat) : Prop :=
  (i < j /\ P j /\ forall k, i < k < j -> ~ P k) \/ (j = none /\ forall k, i < k -> ~ P k).

Lemma forward_loop_spec fuel i : i < length chars -> length chars <= i + fuel ->
  first_after starts_word (length chars) i (forward_loop fuel chars kind (kind_at chars i) i).
Proof.
  revert i. induction fuel as [|fuel IH]; intros i Hi Hf; [lia|]. cbn [forward_loop]. cbv zeta.
  case_bool_decide as Hlen.
  { right. split; [done|]. intros k Hk [Hlt _]. lia. }
  destruct (continues (kind_at chars i) (kind_at chars (S i)) kind) eqn:Hc;
    [|destruct (blank (kind_at chars (S i))) eqn:Hb]; simpl.
  3:{ left. split_and!; [lia| |lia]. split; [lia|]. split; [by apply blank_false|]. right.
      by replace (S i - 1) with i by lia. }
  all: assert (~ starts_word (S i)) as Hno.
  1:{ intros (_ & _ & [?|Hc']); [lia|]. replace (S i - 1) with i in Hc' by lia. congruence. }
  2:{ intros (_ & Hb' & _). by apply blank_true in Hb. }
  all: destruct (IH (S i)) as [(Hj & HP & Hk)|[Hj Hk]]; [lia..|left|right].
  all: split_and!; try done; try lia; intros k Hk'; (destruct (decide (k = S i)) as [->|]; [done|]);
    apply Hk; lia.
Qed.

(** [w]/[W]: from a caret on a character it lands on the first start
    of a word after it, or at the end of the text when there is none. *)
Lemma word_start_forward_exact (caret : nat) (Hcaret : caret < length chars) :
  first_after starts_word (length chars) caret (word_start_forward chars caret kind).
Proof.
  unfold word_start_forward. rewrite bool_decide_false by lia. by apply forward_loop_spec; [|lia].
Qed.

Lemma word_start_forward_le caret : word_start_forward chars caret kind <= length chars `max` caret.
Proof.
  destruct (decide (caret < length chars)) as [Hc|Hc].
  - destruct (word_start_forward_exact caret Hc) as [(_ & [? _] & _)|[-> _]]; lia.
  - unfold word_start_forward. rewrite bool_decide_true; lia.
Qed.

(** [e]/[E]: it lands on the first end of a word after the caret, or on
    the last character when no word ends after it. *)
Lemma word_end_forward_exact (caret : nat) (Hcaret : caret < length chars) :
  first_after ends_word (length chars - 1) caret (word_end_forward chars caret kind).
Proof.
  unfold word_end_forward. rewrite bool_decide_false by lia. rewrite Nat.min_l by lia.
  case_bool_decide as Hlen.
  { right. split; [lia|]. intros k Hk [? _]. lia. }
  set (stops := fun i => negb (continues (kind_at chars i) (kind_at chars (i + 1)) kind)
    && negb (blank (kind_at chars i))).
  assert (forall i, i + 1 < length chars -> ends_word i <-> stops i = true) as Hst.
  { intros i Hi. unfold stops, ends_word. rewrite andb_true_iff, !negb_true_iff, blank_false. split.
    - intros (_ & Hb & [?|Hc]); [lia|done].
    - intros [Hc Hb]. split_and!; [lia|done|by right]. }
  set (p := fun i => bool_decide (i + 1 < length chars) && negb (stops i)).
  destruct (while_up_spec p (length chars) (caret + 1)) as (Hj & Hk & Hf).
  set (j := while_up p (length chars) (caret + 1)) in *. cbv zeta.
  match goal with |- context [while_up ?q ?f ?i] => change (while_up q f i) with j end.
  assert (j + 1 <= length chars) as Hjl.
  { destruct (decide (j = caret + 1)) as [->|]; [lia|].
    assert (p (j - 1) = true) as Hp by (apply Hk; lia).
    unfold p in Hp. apply andb_true_iff in Hp as [?%bool_decide_eq_true _]. lia. }
  assert (forall k, caret < k < j -> ~ ends_word k) as Hno.
  { intros k Hk'. specialize (Hk k ltac:(lia)). unfold p in Hk.
    apply andb_true_iff in Hk as [Hlt%bool_decide_eq_true Hns%negb_true_iff].
    rewrite Hst by done. congruence. }
  case_bool_decide as Hin.
  - left. split_and!; [lia| |done]. apply Hst; [done|].
    assert (p j = false) as Hp by (apply Hf; lia). unfold p in Hp.
    rewrite bool_decide_true in Hp by done. by destruct (stops j).
  - assert (j = length chars - 1) as -> by lia.
    destruct (decide (kind_at chars (length chars - 1) = CharKind.Whitespace)) as [Hw|Hw].
    + right. split; [done|]. intros k Hk'. destruct (decide (k < length chars - 1)); [apply Hno; lia|].
      intros (Hkl & Hkw & _). by assert (k = length chars - 1) as -> by lia.
    + left. split_and!; [lia| |done]. split; [lia|]. split; [done|]. left. lia.
Qed.

Lemma word_end_forward_lt caret : chars <> [] -> word_end_forward chars caret kind < length chars.
Proof.
  intros Hne. assert (0 < length chars) as Hlen by (destruct chars; simpl in *; [done|lia]).
  assert (word_end_forward chars caret kind = word_end_forward chars (caret `min` (length chars - 1)) kind) as ->.
  { unfold word_end_forward. by rewrite <- Nat.min_assoc, Nat.min_id. }
  destruct (word_end_forward_exact (caret `min` (length chars - 1))) as [(_ & [? _] & _)|[-> _]]; lia.
Qed.

(** The last [P] before [i], or 0 when there is none. *)
Definition last_before (P : nat -> Prop) (i j : nat) : Prop :=
  (j < i /\ P j /\ forall k, j < k < i -> ~ P k) \/ (j = 0 /\ forall k, k < i -> ~ P k).

(** [b]/[B]: it lands on the last start of a word before the caret, or
    at 0 when no word starts before it. *)
Lemma word_start_backward_exact (caret : nat) (Hcaret : caret < length chars) :
  last_before starts_word caret (word_start_backward chars caret kind).
Proof.
  unfold word_start_backward.
  rewrite bool_decide_false by (intros ->; simpl in *; lia). rewrite Nat.min_l by lia.
  case_bool_decide as H0; [subst; right; split; [done|]; lia|].
  destruct (while_down_spec (fun i => blank (kind_at chars i)) (caret - 1)) as (Hi & Hb & Hs).
  set (i := while_down (fun i => blank (kind_at chars i)) (caret - 1)) in *. cbv zeta. fold i.
  set (p := fun k => continues (kind_at chars (k - 1)) (kind_at chars i) kind).
  destruct (while_down_spec p i) as (Hj & Hc & Hst). set (j := while_down p i) in *.
  assert (forall k, j <= k <= i -> continues (kind_at chars k) (kind_at chars i) kind = true) as Hrun.
  { intros k Hk. destruct (decide (k = i)) as [->|]; [apply continues_refl|].
    specialize (Hc (S k) ltac:(lia)). unfold p in Hc. by replace (S k - 1) with k in Hc by lia. }
  assert (forall k, j < k < caret -> ~ starts_word k) as Hno.
  { intros k Hk (Hkl & Hkw & Hks). destruct (decide (k <= i)).
    - destruct Hks as [?|Hks]; [lia|].
      assert (continues (kind_at chars (k - 1)) (kind_at chars k) kind = true); [|congruence].
      apply (continues_trans _ (kind_at chars i)); [apply Hrun; lia|].
      rewrite continues_sym. apply Hrun. lia.
    - assert (blank (kind_at chars k) = true) as Hbk by (apply Hb; lia). by apply blank_true in Hbk. }
  destruct (decide (kind_at chars i = CharKind.Whitespace)) as [Hw|Hw].
  - assert (i = 0) as Hi0 by (destruct Hs as [?|Hs]; [done|]; by apply blank_false in Hs).
    assert (j = 0) as -> by lia. right. split; [done|]. intros k Hk.
    destruct (decide (k = 0)) as [->|]; [|apply Hno; lia].
    intros (_ & Hkw & _). by rewrite Hi0 in Hw.
  - left. split_and!; [lia| |done]. split; [lia|]. split.
    + intros Hjw. specialize (Hrun j ltac:(lia)). rewrite Hjw in Hrun. by apply blank_continues in Hrun.
    + destruct (decide (j = 0)); [by left|]. right. destruct Hst as [?|Hst]; [done|]. unfold p in Hst.
      destruct (continues (kind_at chars (j - 1)) (kind_at chars j) kind) eqn:Hcj; [|done].
      rewrite (continues_trans _ _ _ Hcj (Hrun j ltac:(lia))) in Hst. done.
Qed.

Lemma word_start_backward_le caret : word_start_backward chars caret kind <= caret.
Proof.
  unfold word_start_backward. case_bool_decide; [lia|]. case_bool_decide; [lia|]. cbv zeta.
  match goal with |- while_down ?p ?i <= _ => pose proof (while_down_spec p i) as (? & _) end.
  match goal with H : _ <= while_down ?p ?i |- _ => pose proof (while_down_spec p i) as (? & _) end.
  lia.
Qed.

Lemma word_end_backward_lt caret : chars <> [] -> word_end_backward chars caret kind < length chars.
Proof.
  intros Hne. assert (0 < length chars) as Hlen by (destruct chars; simpl in *; [done|lia]).
  unfold word_end_backward. rewrite bool_decide_false by done. cbv zeta.
  set (c := caret `min` (length chars - 1)).
  set (i := if blank _ then c else _).
  assert (i <= c) as Hi.
  { unfold i. destruct (blank _); [lia|]. apply while_down_spec. }
  case_bool_decide; [done|].
  set (d := while_down _ (i - 1)).
  assert (d <= i - 1) as Hd by apply while_down_spec.
  match goal with |- while_up ?p ?f d < _ =>
    destruct (while_up_spec p f d) as (Hj & Hk & _); set (j := while_up p f d) in * end.
  destruct (decide (j = d)) as [->|]; [lia|].
  specialize (Hk (j - 1) ltac:(lia)). apply andb_true_iff in Hk as [?%bool_decide_eq_true _]. lia.
Qed.
(** The word motions are exact, for words and for WORDs: from a caret on a
    character, [w] lands on the first start of a word after it (or at the end of the
    text when there is none), [e] on the first end of a word after it (or on the last
    character), and [b] on the last start of a word before it (or at 0). *)
Theorem word_motions_exact (caret : nat) (Hcaret : caret < length chars) :
  first_after starts_word (length chars) caret (word_start_forward chars caret kind) /\
  first_after ends_word (length chars - 1) caret (word_end_forward chars caret kind) /\
  last_before starts_word caret (word_start_backward chars caret kind).
Proof.
  split_and!; [by apply word_start_forward_exact|by apply word_end_forward_exact|
    by apply word_start_backward_exact].
Qed.
End words.

(** ** Witnesses *)

Module WordsWitness.
Definition line : list char := lit "foo(bar)  baz".

Lemma word_motions_exact_witness :
  (word_start_forward line 2 WordKind.Word, word_end_forward line 2 WordKind.Word,
   word_start_backward line 2 WordKind.Word) = (3, 3, 0) /\
  first_after (starts_word line WordKind.Word) (length line) 2 3 /\
  first_after (ends_word line WordKind.Word) (length line - 1) 2 3 /\
  last_before (starts_word line WordKind.Word) 2 0.
Proof.
  split; [vm_compute; reflexivity|].
  apply (word_motions_exact line WordKind.Word 2). vm_compute. lia.
Defined.

(** [ge] inside leading whitespace moves the caret forward, to its end. *)
Theorem word_end_backward_moves_forward : word_end_backward (lit "    foo") 1 WordKind.Word = 3.
Proof. reflexivity. Qed.
End WordsWitness.
