(* ===== verification/VimObjects.v ===== *)
(** * [crates/goble-ui/src/vim], [objects.rs]: text objects

    The ranges [i] and [a] hand to an operator, as half-open pairs of character
    indices, and the bracket search behind [%]. *)

From S2P Require Import Prelude VimWords.

(** ** Brackets and quotes *)

Module Bracket.
Inductive t : Type := Parenthesis | CurlyBrace | SquareBracket.
End Bracket.

Module Quote.
Inductive t : Type := Single | Double | Backtick.
End Quote.

#[export] Instance Bracket_eq_dec : EqDecision Bracket.t.
Proof. solve_decision. Defined.
#[export] Instance Quote_eq_dec : EqDecision Quote.t.
Proof. solve_decision. Defined.

Definition PAREN_OPEN : char := 40%N.
Definition PAREN_CLOSE : char := 41%N.
Definition CURLY_OPEN : char := 123%N.
Definition CURLY_CLOSE : char := 125%N.
Definition SQUARE_OPEN : char := 91%N.
Definition SQUARE_CLOSE : char := 93%N.

Definition bracket_chars (b : Bracket.t) : char * char :=
  match b with
  | Bracket.Parenthesis => (PAREN_OPEN, PAREN_CLOSE)
  | Bracket.CurlyBrace => (CURLY_OPEN, CURLY_CLOSE)
  | Bracket.SquareBracket => (SQUARE_OPEN, SQUARE_CLOSE)
  end.

(** [Bracket::of]: the bracket [c] names, and whether it opens its pair. *)
Definition bracket_of (c : char) : option (Bracket.t * bool) :=
  if bool_decide (c = PAREN_OPEN \/ c = PAREN_CLOSE) then
    Some (Bracket.Parenthesis, bool_decide (c = PAREN_OPEN))
  else if bool_decide (c = CURLY_OPEN \/ c = CURLY_CLOSE) then
    Some (Bracket.CurlyBrace, bool_decide (c = CURLY_OPEN))
  else if bool_decide (c = SQUARE_OPEN \/ c = SQUARE_CLOSE) then
    Some (Bracket.SquareBracket, bool_decide (c = SQUARE_OPEN))
  else None.

Definition quote_char (q : Quote.t) : char :=
  match q with Quote.Single => 39%N | Quote.Double => DQUOTE | Quote.Backtick => 96%N end.

Definition quote_of (c : char) : option Quote.t :=
  if bool_decide (c = 39%N) then Some Quote.Single
  else if bool_decide (c = DQUOTE) then Some Quote.Double
  else if bool_decide (c = 96%N) then Some Quote.Backtick
  else None.

Definition is_quote (q : Quote.t) (c : char) : bool := bool_decide (c = quote_char q).

(** The two loops of [matching_bracket]: forward from [i], and backward over what
    precedes [i]. *)
Fixpoint find_close (open close : char) (chars : list char) (fuel : nat) (depth : N) (i : nat)
    : option nat :=
  match fuel with
  | O => None
  | S fuel =>
      if bool_decide (i < length chars) then
        let c := char_at chars i in
        if bool_decide (c = open) then find_close open close chars fuel (depth + 1) (S i)
        else if bool_decide (c = close) then
          if bool_decide (depth = 0%N) then Some i
          else find_close open close chars fuel (depth - 1) (S i)
        else find_close open close chars fuel depth (S i)
      else None
  end.

Fixpoint find_open (open close : char) (chars : list char) (depth : N) (i : nat) : option nat :=
  match i with
  | O => None
  | S i' =>
      let c := char_at chars i' in
      if bool_decide (c = close) then find_open open close chars (depth + 1) i'
      else if bool_decide (c = open) then
        if bool_decide (depth = 0%N) then Some i'
        else find_open open close chars (depth - 1) i'
      else find_open open close chars depth i'
  end.

Definition matching_bracket (chars : list char) (at_ : nat) (bracket : Bracket.t)
    (from_opening : bool) : option nat :=
  let '(open, close) := bracket_chars bracket in
  if from_opening then find_close open close chars (length chars) 0 (at_ + 1)
  else find_open open close chars 0 at_.

(** ** Block objects *)

Notation range := (nat * nat)%type.

Definition a_block (chars : list char) (at_ : nat) (bracket : Bracket.t) : option range :=
  c ← chars !! at_;
  let enclosing :=
    end_ ← matching_bracket chars at_ bracket true;
    start ← matching_bracket chars end_ bracket false;
    Some (start, end_ + 1) in
  match bracket_of c with
  | Some (found, opens) =>
      if bool_decide (found = bracket) then
        other ← matching_bracket chars at_ bracket opens;
        let '(start, end_) := if bool_decide (at_ < other) then (at_, other) else (other, at_) in
        Some (start, end_ + 1)
      else enclosing
  | None => enclosing
  end.

Definition ws_at (chars : list char) (i : nat) : bool := is_whitespace (char_at chars i).
Definition newline_at (chars : list char) (i : nat) : bool := bool_decide (char_at chars i = NEWLINE).

Definition inner_block (chars : list char) (at_ : nat) (bracket : Bracket.t)
    (preserve_leading_padding : bool) : option range :=
  block ← a_block chars at_ bracket;
  let start := block.1 + 1 in
  let end_ := block.2 - 1 in
  let i := while_down (fun i => bool_decide (start < i) && ws_at chars (i - 1)
             && negb (newline_at chars (i - 1))) end_ in
  let end_ := if bool_decide (start < i) && newline_at chars (i - 1) then i - 1 else end_ in
  let start :=
    if preserve_leading_padding then
      let i := while_up (fun i => bool_decide (i < end_) && ws_at chars i
                 && negb (newline_at chars i)) (length chars) start in
      if bool_decide (i < end_) && newline_at chars i then i + 1 else start
    else start in
  Some (start, end_).

(** ** Word objects *)

Definition run_start (chars : list char) (context : CharKind.t) (kind : WordKind.t) (at_ : nat) : nat :=
  while_down (fun i => continues (kind_at chars (i - 1)) context kind) at_.
Definition run_end (chars : list char) (context : CharKind.t) (kind : WordKind.t) (at_ : nat) : nat :=
  while_up (fun i => bool_decide (i < length chars) && continues (kind_at chars i) context kind)
    (length chars) at_.

Definition inner_word (chars : list char) (at_ : nat) (kind : WordKind.t) : option range :=
  c ← chars !! at_;
  let context := kind_of c in
  Some (run_start chars context kind at_, run_end chars context kind at_).

Definition ws_start (chars : list char) (i : nat) : nat :=
  while_down (fun i => ws_at chars (i - 1)) i.
Definition ws_end (chars : list char) (i : nat) : nat :=
  while_up (fun i => bool_decide (i < length chars) && ws_at chars i) (length chars) i.

Definition a_word (chars : list char) (at_ : nat) (kind : WordKind.t) : option range :=
  c ← chars !! at_;
  let context := kind_of c in
  let start := run_start chars context kind at_ in
  let end_ := run_end chars context kind at_ in
  if bool_decide (context = CharKind.Whitespace) then
    match chars !! end_ with
    | None => Some (start, end_)
    | Some next => Some (start, run_end chars (kind_of next) kind end_)
    end
  else
    match chars !! end_ with
    | Some c => if is_whitespace c then Some (start, ws_end chars end_)
                else Some (ws_start chars start, end_)
    | None => Some (ws_start chars start, end_)
    end.

(** ** Lines *)

(** [iter().rposition]. *)
Definition rposition {A} (p : A -> bool) (l : list A) : option nat :=
  (fun i => length l - 1 - i) <$> position p (reverse l).

Definition is_newline (c : char) : bool := bool_decide (c = NEWLINE).

Definition line_range (chars : list char) (at_ : nat) : range :=
  let m := at_ `min` length chars in
  (from_option S 0 (rposition is_newline (take m chars)),
   from_option (fun i => m + i) (length chars) (position is_newline (drop m chars))).

Fixpoint line_ranges_from (start i : nat) (chars : list char) : list range :=
  match chars with
  | [] => [(start, i)]
  | c :: chars' =>
      if is_newline c then (start, i) :: line_ranges_from (i + 1) (S i) chars'
      else line_ranges_from start (S i) chars'
  end.

Definition line_ranges (chars : list char) : list range := line_ranges_from 0 0 chars.

Definition contains (r : range) (at_ : nat) : bool := bool_decide (r.1 <= at_ /\ at_ < r.2).

Definition line_index (lines : list range) (at_ : nat) : option nat :=
  match position (fun line => contains line at_) lines with
  | Some i => Some i
  | None => if bool_decide (length lines = 0) then None else Some (length lines - 1)
  end.

(** [chars[start..end]]. *)
Definition slice (chars : list char) (r : range) : list char := take (r.2 - r.1) (drop r.1 chars).

Definition line_is_blank (chars : list char) (line : range) : bool :=
  forallb is_whitespace (slice chars line).

(** ** Quote objects *)

Definition quote_at (chars : list char) (q : Quote.t) (i : nat) : bool := is_quote q (char_at chars i).

(** The first quote of [i..end), and the last of [start..i), as the loops find them. *)
Definition quote_ahead (chars : list char) (q : Quote.t) (end_ i : nat) : option nat :=
  let j := while_up (fun i => bool_decide (i < end_) && negb (quote_at chars q i)) (length chars) i in
  if bool_decide (j < end_) then Some j else None.
Definition quote_behind (chars : list char) (q : Quote.t) (start i : nat) : option nat :=
  let j := while_down (fun i => bool_decide (start < i) && negb (quote_at chars q (i - 1))) i in
  if bool_decide (start < j) then Some (j - 1) else None.

Definition a_quote (chars : list char) (at_ : nat) (q : Quote.t) : option range :=
  let line := line_range chars at_ in
  if from_option (is_quote q) false (chars !! at_) then
    let before := length (filter (fun c => is_quote q c = true) (slice chars (line.1, at_))) in
    if bool_decide (before mod 2 = 1) then
      (fun i => (i, at_ + 1)) <$> quote_behind chars q line.1 at_
    else (fun i => (at_, i + 1)) <$> quote_ahead chars q line.2 (at_ + 1)
  else
    match quote_behind chars q line.1 at_, quote_ahead chars q line.2 at_ with
    | Some start, Some end_ => Some (start, end_ + 1)
    | None, Some start => (fun i => (start, i + 1)) <$> quote_ahead chars q line.2 (start + 1)
    | _, None => None
    end.

Definition inner_quote (chars : list char) (at_ : nat) (q : Quote.t) : option range :=
  (fun r => (r.1 + 1, r.2 - 1)) <$> a_quote chars at_ q.

(** ** Paragraph objects *)

Definition line_at (lines : list range) (i : nat) : range := default (0, 0) (lines !! i).

Definition inner_paragraph (chars : list char) (at_ : nat) : option range :=
  let lines := line_ranges chars in
  index ← line_index lines at_;
  let first := while_down (fun i => negb (line_is_blank chars (line_at lines (i - 1)))) index in
  let last := while_up (fun i => bool_decide (i + 1 < length lines)
                && negb (line_is_blank chars (line_at lines (i + 1)))) (length lines) index in
  Some ((line_at lines first).1, (line_at lines last).2).

Definition a_paragraph (chars : list char) (at_ : nat) : option range :=
  text ← inner_paragraph chars at_;
  let lines := line_ranges chars in
  let above :=
    match List.find (fun line => bool_decide (line.2 + 1 = text.1) && line_is_blank chars line)
            (reverse lines) with
    | Some line => (line.1, text.2)
    | None => text
    end in
  match List.find (fun line => bool_decide (line.1 = text.2 + 1)) lines with
  | Some next => if line_is_blank chars next then Some (text.1, next.2) else Some above
  | None => Some above
  end.

(** ** Bracket matching

    [nesting k] is the depth the brackets of one kind reach before position [k]. *)

Module BracketProps.
Section bracket.
Context (chars : list char) (bracket : Bracket.t).

Definition open_char : char := (bracket_chars bracket).1.
Definition close_char : char := (bracket_chars bracket).2.

Definition weight (c : char) : Z :=
  if bool_decide (c = open_char) then 1 else if bool_decide (c = close_char) then -1 else 0.

Fixpoint nesting (k : nat) : Z :=
  match k with O => 0 | S k' => nesting k' + weight (char_at chars k') end.
#[local] Arguments nesting : simpl never.

Lemma open_close_ne : open_char <> close_char.
Proof. unfold open_char, close_char. by destruct bracket. Qed.

Lemma nesting_S k : nesting (S k) = (nesting k + weight (char_at chars k))%Z.
Proof. done. Qed.

Lemma weight_open : weight open_char = 1%Z.
Proof. unfold weight. by rewrite bool_decide_true. Qed.
Lemma weight_close : weight close_char = (-1)%Z.
Proof.
  unfold weight. rewrite bool_decide_false, bool_decide_true; [done..|].
  pose proof open_close_ne. congruence.
Qed.

Lemma weight_cases c : (c = open_char /\ weight c = 1%Z) \/ (c = close_char /\ weight c = (-1)%Z) \/
  (c <> open_char /\ c <> close_char /\ weight c = 0%Z).
Proof.
  unfold weight. case_bool_decide; [by left|]. case_bool_decide; [by right; left|by right; right].
Qed.

(** The forward search from [i]: the first position that closes [depth] levels
    more than it opens. *)
Lemma find_close_spec fuel depth i : length chars <= i + fuel ->
  match find_close open_char close_char chars fuel depth i with
  | Some j => i <= j < length chars /\ char_at chars j = close_char /\
      nesting (S j) = (nesting i - Z.of_N depth - 1)%Z /\
      (forall k, i <= k < j -> (nesting i - Z.of_N depth <= nesting (S k))%Z)
  | None => forall k, i <= k < length chars -> (nesting i - Z.of_N depth <= nesting (S k))%Z
  end.
Proof.
  revert depth i. induction fuel as [|fuel IH]; intros depth i Hf; cbn [find_close]; [lia|].
  case_bool_decide as Hi; [|lia]. cbv zeta.
  assert (forall d', (nesting (S i) - Z.of_N d' = nesting i - Z.of_N depth)%Z ->
    (nesting i - Z.of_N depth <= nesting (S i))%Z ->
    match find_close open_char close_char chars fuel d' (S i) with
    | Some j => i <= j < length chars /\ char_at chars j = close_char /\
        nesting (S j) = (nesting i - Z.of_N depth - 1)%Z /\
        (forall k, i <= k < j -> (nesting i - Z.of_N depth <= nesting (S k))%Z)
    | None => forall k, i <= k < length chars -> (nesting i - Z.of_N depth <= nesting (S k))%Z
    end) as Hstep.
  { intros d' Hd' Hle. specialize (IH d' (S i) ltac:(lia)).
    destruct (find_close open_char close_char chars fuel d' (S i)) as [j|].
    - destruct IH as (Hj & Hc & Hn & Hk). split_and!; [lia|lia|done|lia|].
      intros k Hk'. destruct (decide (k = i)) as [->|]; [done|]. specialize (Hk k ltac:(lia)). lia.
    - intros k Hk'. destruct (decide (k = i)) as [->|]; [done|]. specialize (IH k ltac:(lia)). lia. }
  pose proof (nesting_S i) as HS.
  destruct (weight_cases (char_at chars i)) as [[Hc Hw]|[[Hc Hw]|(Hno & Hnc & Hw)]]; rewrite Hw in HS.
  - rewrite bool_decide_true by done. apply Hstep; lia.
  - rewrite (bool_decide_false (_ = open_char)) by (rewrite Hc; pose proof open_close_ne; congruence).
    rewrite bool_decide_true by done. case_bool_decide as Hd.
    + subst depth. split_and!; [lia|lia|done|lia|lia].
    + apply Hstep; lia.
  - rewrite !bool_decide_false by done. apply Hstep; lia.
Qed.

(** The backward search from [i]: the last position before it that opens [depth]
    levels more than it closes. *)
Lemma find_open_spec depth i :
  match find_open open_char close_char chars depth i with
  | Some j => j < i /\ char_at chars j = open_char /\
      nesting j = (nesting i - Z.of_N depth - 1)%Z /\
      (forall k, j < k <= i -> (nesting i - Z.of_N depth <= nesting k)%Z)
  | None => forall k, k <= i -> (nesting i - Z.of_N depth <= nesting k)%Z
  end.
Proof.
  revert depth. induction i as [|i IH]; intros depth; cbn [find_open].
  { intros k Hk. assert (k = 0) as -> by lia. lia. }
  assert (forall d', (nesting i - Z.of_N d' = nesting (S i) - Z.of_N depth)%Z ->
    match find_open open_char close_char chars d' i with
    | Some j => j < S i /\ char_at chars j = open_char /\
        nesting j = (nesting (S i) - Z.of_N depth - 1)%Z /\
        (forall k, j < k <= S i -> (nesting (S i) - Z.of_N depth <= nesting k)%Z)
    | None => forall k, k <= S i -> (nesting (S i) - Z.of_N depth <= nesting k)%Z
    end) as Hstep.
  { intros d' Hd'. specialize (IH d').
    destruct (find_open open_char close_char chars d' i) as [j|].
    - destruct IH as (Hj & Hc & Hn & Hk). split_and!; [lia|done|lia|].
      intros k Hk'. destruct (decide (k = S i)) as [->|]; [lia|]. specialize (Hk k ltac:(lia)). lia.
    - intros k Hk'. destruct (decide (k = S i)) as [->|]; [lia|]. specialize (IH k ltac:(lia)). lia. }
  pose proof (nesting_S i) as HS. cbv zeta.
  destruct (weight_cases (char_at chars i)) as [[Hc Hw]|[[Hc Hw]|(Hno & Hnc & Hw)]]; rewrite Hw in HS.
  - rewrite (bool_decide_false (_ = close_char)) by (rewrite Hc; pose proof open_close_ne; congruence).
    rewrite bool_decide_true by done. case_bool_decide as Hd.
    + subst depth. split_and!; [lia|done|lia|]. intros k Hk. assert (k = S i) as -> by lia. lia.
    + apply Hstep. lia.
  - rewrite bool_decide_true by done. apply Hstep. lia.
  - rewrite !bool_decide_false by done. apply Hstep. lia.
Qed.

Lemma matching_forward at_ :
  match matching_bracket chars at_ bracket true with
  | Some j => at_ < j < length chars /\ char_at chars j = close_char /\
      nesting (S j) = (nesting (S at_) - 1)%Z /\
      (forall k, at_ < k < j -> (nesting (S at_) <= nesting (S k))%Z)
  | None => forall k, at_ < k < length chars -> (nesting (S at_) <= nesting (S k))%Z
  end.
Proof.
  unfold matching_bracket. pose proof (find_close_spec (length chars) 0 (at_ + 1)) as H.
  unfold open_char, close_char in *. destruct (bracket_chars bracket) as [op cl]. simpl in H.
  specialize (H ltac:(lia)). rewrite Nat.add_1_r in *.
  destruct (find_close op cl chars (length chars) 0 (S at_)) as [j|].
  - destruct H as (Hj & Hc & Hn & Hk). split_and!; [lia|lia|done|lia|].
    intros k Hk'. specialize (Hk k ltac:(lia)). lia.
  - intros k Hk'. specialize (H k ltac:(lia)). lia.
Qed.

Lemma matching_backward at_ :
  match matching_bracket chars at_ bracket false with
  | Some j => j < at_ /\ char_at chars j = open_char /\ nesting j = (nesting at_ - 1)%Z /\
      (forall k, j < k <= at_ -> (nesting at_ <= nesting k)%Z)
  | None => forall k, k <= at_ -> (nesting at_ <= nesting k)%Z
  end.
Proof.
  unfold matching_bracket. pose proof (find_open_spec 0 at_) as H.
  unfold open_char, close_char in *. destruct (bracket_chars bracket) as [op cl]. simpl in H.
  destruct (find_open op cl chars 0 at_) as [j|].
  - destruct H as (Hj & Hc & Hn & Hk). split_and!; [lia|done|lia|].
    intros k Hk'. specialize (Hk k ltac:(lia)). lia.
  - intros k Hk'. specialize (H k ltac:(lia)). lia.
Qed.

(** The backward search finds the only candidate that meets its specification. *)
Lemma backward_unique at_ j : j < at_ -> nesting j = (nesting at_ - 1)%Z ->
  (forall k, j < k <= at_ -> (nesting at_ <= nesting k)%Z) ->
  matching_bracket chars at_ bracket false = Some j.
Proof.
  intros Hj Hn Hk. pose proof (matching_backward at_) as H.
  destruct (matching_bracket chars at_ bracket false) as [j'|]; [|specialize (H j); lia].
  destruct H as (Hj' & _ & Hn' & Hk'). f_equal.
  destruct (decide (j' < j)); [specialize (Hk' j); lia|].
  destruct (decide (j < j')); [specialize (Hk j'); lia|]. lia.
Qed.

Lemma forward_unique at_ j : at_ < j < length chars -> nesting (S j) = (nesting (S at_) - 1)%Z ->
  (forall k, at_ < k < j -> (nesting (S at_) <= nesting (S k))%Z) ->
  matching_bracket chars at_ bracket true = Some j.
Proof.
  intros Hj Hn Hk. pose proof (matching_forward at_) as H.
  destruct (matching_bracket chars at_ bracket true) as [j'|]; [|specialize (H j); lia].
  destruct H as (Hj' & _ & Hn' & Hk'). f_equal.
  destruct (decide (j' < j)); [specialize (Hk j'); lia|].
  destruct (decide (j < j')); [specialize (Hk' j); lia|]. lia.
Qed.

Lemma matching_bracket_facts (at_ j : nat) (opens : bool) :
  at_ < length chars -> char_at chars at_ = (if opens then open_char else close_char) ->
  matching_bracket chars at_ bracket opens = Some j ->
  char_at chars j = (if opens then close_char else open_char) /\
  j < length chars /\ (if opens then at_ < j else j < at_) /\
  nesting (S (at_ `min` j)) = nesting (at_ `max` j) /\
  (forall k, at_ `min` j < k <= at_ `max` j -> (nesting (at_ `max` j) <= nesting k)%Z) /\
  matching_bracket chars j bracket (negb opens) = Some at_.
Proof.
  intros Hat Hc Hm. destruct opens; simpl.
  - pose proof (matching_forward at_) as H. rewrite Hm in H. destruct H as (Hj & Hcj & Hn & Hk).
    pose proof (nesting_S at_) as Ha. rewrite Hc, weight_open in Ha.
    pose proof (nesting_S j) as HSj. rewrite Hcj, weight_close in HSj.
    assert (forall k, at_ < k <= j -> (nesting j <= nesting k)%Z) as Hin.
    { intros k Hk'. destruct (decide (k = S at_)) as [->|]; [lia|].
      specialize (Hk (k - 1) ltac:(lia)). replace (S (k - 1)) with k in Hk by lia. lia. }
    rewrite Nat.min_l, Nat.max_r by lia. split_and!; [done|lia..|done|].
    apply backward_unique; [lia|lia|done].
  - pose proof (matching_backward at_) as H. rewrite Hm in H. destruct H as (Hj & Hcj & Hn & Hk).
    pose proof (nesting_S j) as HSj. rewrite Hcj, weight_open in HSj.
    pose proof (nesting_S at_) as Ha. rewrite Hc, weight_close in Ha.
    rewrite Nat.min_r, Nat.max_l by lia. split_and!; [done|lia|lia|lia|done|].
    apply forward_unique; [lia|lia|]. intros k Hk'. specialize (Hk (S k) ltac:(lia)). lia.
Qed.

(** [%] finds the pair, nested pairs counted: from a bracket the search lands on
    one of the other sort, with nothing but balanced text between them, and the
    search from there comes back to where it started. *)
Theorem matching_bracket_involutive (at_ j : nat) (opens : bool)
    (Hat : at_ < length chars)
    (Hc : char_at chars at_ = if opens then open_char else close_char)
    (Hm : matching_bracket chars at_ bracket opens = Some j) :
  char_at chars j = (if opens then close_char else open_char) /\
  j < length chars /\ (if opens then at_ < j else j < at_) /\
  nesting (S (at_ `min` j)) = nesting (at_ `max` j) /\
  (forall k, at_ `min` j < k <= at_ `max` j -> (nesting (at_ `max` j) <= nesting k)%Z) /\
  matching_bracket chars j bracket (negb opens) = Some at_.
Proof. by apply matching_bracket_facts. Qed.

Lemma bracket_of_found c opens : bracket_of c = Some (bracket, opens) ->
  c = if opens then open_char else close_char.
Proof.
  unfold bracket_of, open_char, close_char. repeat case_bool_decide; intros; simplify_eq/=; naive_solver.
Qed.

Lemma bracket_of_weight c : (forall opens, bracket_of c <> Some (bracket, opens)) -> weight c = 0%Z.
Proof.
  intros Hn. destruct (weight_cases c) as [[-> _]|[[-> _]|(_ & _ & Hw)]]; [| |done]; exfalso.
  - apply (Hn true). unfold open_char. by destruct bracket.
  - apply (Hn false). unfold close_char. by destruct bracket.
Qed.

(** An opening bracket at [a], the closing one at [b], balanced text between. *)
Definition paired (a b : nat) : Prop :=
  a < b < length chars /\ char_at chars a = open_char /\ char_at chars b = close_char /\
  nesting (S a) = nesting b /\ matching_bracket chars a bracket true = Some b.

Lemma matched_pair at_ j opens : at_ < length chars ->
  bracket_of (char_at chars at_) = Some (bracket, opens) ->
  matching_bracket chars at_ bracket opens = Some j -> paired (at_ `min` j) (at_ `max` j).
Proof.
  intros Hat Hof Hm. pose proof (bracket_of_found _ opens Hof) as Hc.
  destruct (matching_bracket_facts at_ j opens Hat Hc Hm) as (Hcj & Hj & Hlt & Hn & _ & Hback).
  destruct opens; simpl in Hback.
  - rewrite Nat.min_l, Nat.max_r in * by lia. by split_and!.
  - rewrite Nat.min_r, Nat.max_l in * by lia. by split_and!.
Qed.

Lemma enclosing_pair at_ i j : at_ < length chars -> weight (char_at chars at_) = 0%Z ->
  matching_bracket chars at_ bracket true = Some j ->
  matching_bracket chars j bracket false = Some i -> paired i j /\ i <= at_ < j.
Proof.
  intros Hat Hw Hf Hi. pose proof (matching_forward at_) as H. rewrite Hf in H.
  destruct H as (Hj & Hcj & Hn & Hk). pose proof (matching_backward j) as H. rewrite Hi in H.
  destruct H as (_ & _ & Hsn & Hkk).
  destruct (matching_bracket_facts j i false) as (Hcs & Hsl & Hlt & Hns & _ & Hback); [lia|done|done|].
  simpl in *. rewrite Nat.min_r, Nat.max_l in * by lia.
  pose proof (nesting_S at_) as HSa. rewrite Hw in HSa.
  pose proof (nesting_S j) as HSj. rewrite Hcj, weight_close in HSj.
  split; [unfold paired; split_and!; (done || lia)|]. split; [|lia].
  destruct (decide (i <= at_)); [done|]. exfalso. destruct (decide (i = S at_)) as [->|]; [lia|].
  specialize (Hk (i - 1) ltac:(lia)). replace (S (i - 1)) with i in Hk by lia. lia.
Qed.

Lemma a_block_pair at_ s e : a_block chars at_ bracket = Some (s, e) ->
  s <= at_ /\ at_ < e /\ 0 < e /\ paired s (e - 1).
Proof.
  unfold a_block. destruct (chars !! at_) as [c|] eqn:Hc; simpl; [|done].
  assert (at_ < length chars) as Hat by by eapply lookup_lt_Some.
  assert (char_at chars at_ = c) as Hca by (unfold char_at; by rewrite Hc).
  set (enclosing := matching_bracket chars at_ bracket true ≫= _).
  assert ((forall opens, bracket_of c <> Some (bracket, opens)) -> enclosing = Some (s, e) ->
    s <= at_ /\ at_ < e /\ 0 < e /\ paired s (e - 1)) as Henc.
  { intros Hno He. unfold enclosing in He.
    destruct (matching_bracket chars at_ bracket true) as [j|] eqn:Hf; simpl in He; [|done].
    destruct (matching_bracket chars j bracket false) as [i|] eqn:Hi; simpl in He; [|done].
    simplify_eq. replace (j + 1 - 1) with j by lia.
    destruct (enclosing_pair at_ s j Hat) as [Hp Hb]; [by apply bracket_of_weight|done..|].
    split_and!; try lia. done. }
  destruct (bracket_of c) as [[found opens]|] eqn:Hof; [|by apply Henc].
  case_bool_decide as Hfb; [|apply Henc; congruence]. subst found.
  destruct (matching_bracket chars at_ bracket opens) as [j|] eqn:Hm; simpl; [|done].
  rewrite <- Hca in Hof. pose proof (matched_pair at_ j opens Hat Hof Hm) as Hp.
  pose proof Hp as ([Hlt _] & _).
  case_bool_decide as Hltj; intros [= <- <-].
  - rewrite Nat.min_l, Nat.max_r in * by lia. rewrite Nat.add_sub. split_and!; try lia. done.
  - rewrite Nat.min_r, Nat.max_l in * by lia. rewrite Nat.add_sub. split_and!; try lia. done.
Qed.

(** [a(] and its kin select an enclosing pair: the range contains the caret,
    starts on the opening bracket and ends just after the closing one it matches,
    with nothing but balanced text between them. *)
Theorem a_block_encloses (at_ s e : nat) (Hb : a_block chars at_ bracket = Some (s, e)) :
  s <= at_ /\ at_ < e /\ paired s (e - 1).
Proof. by destruct (a_block_pair _ _ _ Hb) as (? & ? & _ & ?). Qed.
End bracket.
End BracketProps.

(** ** Every object names a range of the text *)

Module ObjectProps.
Section objects.
Context (chars : list char).
Notation len := (length chars).

Definition valid (r : range) : Prop := r.1 <= r.2 /\ r.2 <= len.

Lemma inner_block_valid at_ b padding r : inner_block chars at_ b padding = Some r -> valid r.
Proof.
  unfold inner_block. destruct (a_block chars at_ b) as [[s e]|] eqn:Hb; simpl; [|done].
  destruct (BracketProps.a_block_pair chars b at_ s e Hb) as (_ & _ & _ & ([Hlt Hle] & _)).
  set (p := fun i => bool_decide (s + 1 < i) && ws_at chars (i - 1) && negb (newline_at chars (i - 1))).
  destruct (while_down_spec p (e - 1)) as (Hi & _ & _). set (i := while_down p (e - 1)) in *.
  set (e' := if bool_decide (s + 1 < i) && newline_at chars (i - 1) then i - 1 else e - 1).
  assert (s + 1 <= e' /\ e' <= e - 1) as [Hse He].
  { unfold e'. case_bool_decide; simpl; [|lia]. destruct (newline_at chars (i - 1)); lia. }
  destruct padding; intros [= <-]; unfold valid; simpl; [|lia].
  match goal with |- context [while_up ?q ?f ?x] => set (j := while_up q f x) end.
  destruct (bool_decide (j < e') && newline_at chars j) eqn:Hj; simpl; [|lia].
  apply andb_true_iff in Hj as [?%bool_decide_eq_true _]. lia.
Qed.

Lemma run_start_le context kind at_ : run_start chars context kind at_ <= at_.
Proof. apply while_down_spec. Qed.

Lemma run_end_bounds context kind at_ : at_ <= len ->
  at_ <= run_end chars context kind at_ <= len.
Proof.
  intros Hat. unfold run_end.
  match goal with |- _ <= while_up ?p ?f at_ <= _ => destruct (while_up_spec p f at_) as (Hj & Hk & _) end.
  match goal with |- _ <= ?j <= _ => set (e := j) in * end. split; [lia|].
  destruct (decide (e = at_)) as [->|]; [done|].
  specialize (Hk (e - 1) ltac:(lia)). apply andb_true_iff in Hk as [?%bool_decide_eq_true _]. lia.
Qed.

Lemma ws_end_bounds i : i <= len -> i <= ws_end chars i <= len.
Proof.
  intros Hat. unfold ws_end.
  match goal with |- _ <= while_up ?p ?f i <= _ => destruct (while_up_spec p f i) as (Hj & Hk & _) end.
  match goal with |- _ <= ?j <= _ => set (e := j) in * end. split; [lia|].
  destruct (decide (e = i)) as [->|]; [done|].
  specialize (Hk (e - 1) ltac:(lia)). apply andb_true_iff in Hk as [?%bool_decide_eq_true _]. lia.
Qed.

Lemma ws_start_le i : ws_start chars i <= i.
Proof. apply while_down_spec. Qed.

(** A range around [at_]. *)
Definition around (at_ : nat) (r : range) : Prop := r.1 <= at_ /\ at_ <= r.2 /\ r.2 <= len.

Lemma inner_word_around at_ kind r : inner_word chars at_ kind = Some r -> around at_ r.
Proof.
  unfold inner_word. destruct (chars !! at_) as [c|] eqn:Hc; simpl; [|done]. intros [= <-].
  apply lookup_lt_Some in Hc. split; [apply run_start_le|]. apply run_end_bounds. lia.
Qed.

Lemma a_word_around at_ kind r : a_word chars at_ kind = Some r -> around at_ r.
Proof.
  unfold a_word. destruct (chars !! at_) as [c|] eqn:Hc; simpl; [|done].
  apply lookup_lt_Some in Hc. pose proof (run_start_le (kind_of c) kind at_) as Hs.
  destruct (run_end_bounds (kind_of c) kind at_ ltac:(lia)) as [He Hel].
  pose proof (ws_start_le (run_start chars (kind_of c) kind at_)) as Hws.
  set (s := run_start _ _ _ _) in *. set (e := run_end _ _ _ at_) in *.
  case_bool_decide; destruct (chars !! e) as [c'|] eqn:Hn; try (destruct (is_whitespace c'));
    intros [= <-]; unfold around; simpl; try lia;
    first [pose proof (run_end_bounds (kind_of c') kind e Hel); lia | pose proof (ws_end_bounds e Hel); lia].
Qed.

Lemma line_range_around at_ : at_ < len -> let r := line_range chars at_ in around at_ r.
Proof.
  intros Hat. unfold line_range, around. simpl. rewrite Nat.min_l by lia. split.
  - unfold rposition. destruct (position _ (reverse _)) as [i|] eqn:Hp; simpl; [|lia].
    apply position_lt in Hp. rewrite length_reverse, length_take in *. lia.
  - destruct (position is_newline (drop at_ chars)) as [i|] eqn:Hp; simpl; [|lia].
    apply position_lt in Hp. rewrite length_drop in Hp. lia.
Qed.

Lemma quote_ahead_Some q end_ i j : quote_ahead chars q end_ i = Some j -> i <= j < end_.
Proof.
  unfold quote_ahead. cbv zeta. match goal with |- context [while_up ?p ?f i] =>
    destruct (while_up_spec p f i) as (Hj & _) end.
  case_bool_decide; [|done]. intros [= <-]. lia.
Qed.

Lemma quote_behind_Some q start i j : quote_behind chars q start i = Some j -> start <= j < i.
Proof.
  unfold quote_behind. cbv zeta. match goal with |- context [while_down ?p i] =>
    destruct (while_down_spec p i) as (Hj & _) end.
  case_bool_decide; [|done]. intros [= <-]. lia.
Qed.

Lemma a_quote_valid at_ q r : at_ < len -> a_quote chars at_ q = Some r -> r.1 + 2 <= r.2 /\ r.2 <= len.
Proof.
  intros Hat. destruct (line_range_around at_ Hat) as (Hs & He & Hl). unfold a_quote. cbv zeta.
  generalize dependent (line_range chars at_). intros line Hs He Hl.
  destruct (chars !! at_) as [c|] eqn:Hc; cbn [from_option].
  2:{ by apply lookup_ge_None_1 in Hc; lia. }
  destruct (is_quote q c) eqn:Hq.
  - case_bool_decide; intros (i & Hi & ->)%fmap_Some; simpl.
    + apply quote_behind_Some in Hi. lia.
    + apply quote_ahead_Some in Hi. lia.
  - assert (quote_ahead chars q line.2 at_ <> Some at_) as Hne.
    { unfold quote_ahead. cbv zeta. match goal with |- context [while_up ?p ?f at_] =>
        destruct (while_up_spec p f at_) as (Hj & _ & Hf) end.
      case_bool_decide as Hlt; [|done]. intros [= Hj'].
      rewrite Hj' in Hf, Hlt. specialize (Hf ltac:(lia)).
      unfold quote_at, char_at in Hf. rewrite Hc in Hf.
      simpl in Hf. by rewrite Hq in Hf. }
    destruct (quote_behind chars q line.1 at_) as [s|] eqn:Hb,
      (quote_ahead chars q line.2 at_) as [e|] eqn:Ha; try done.
    + intros [= <-]. simpl. apply quote_behind_Some in Hb. apply quote_ahead_Some in Ha. lia.
    + intros (i & Hi & ->)%fmap_Some. simpl. apply quote_ahead_Some in Hi. lia.
Qed.

Lemma inner_quote_valid at_ q r : at_ < len -> inner_quote chars at_ q = Some r -> valid r.
Proof.
  unfold inner_quote. intros Hat (r' & Hr & ->)%fmap_Some. apply a_quote_valid in Hr; [|done].
  unfold valid; simpl. lia.
Qed.

Lemma line_ranges_from_valid start i l r : start <= i ->
  r ∈ line_ranges_from start i l -> start <= r.1 /\ r.1 <= r.2 /\ r.2 <= i + length l.
Proof.
  revert start i. induction l as [|c l IH]; intros start i Hs; simpl.
  - intros ->%list_elem_of_singleton. simpl. lia.
  - destruct (is_newline c).
    + intros [->|Hin]%elem_of_cons; [simpl; lia|]. apply IH in Hin; lia.
    + intros Hin%IH; lia.
Qed.

Lemma line_ranges_valid r : r ∈ line_ranges chars -> valid r.
Proof. intros Hin%line_ranges_from_valid; [|done]. unfold valid. simpl in *. lia. Qed.

Lemma line_at_valid i : i < length (line_ranges chars) -> valid (line_at (line_ranges chars) i).
Proof.
  unfold line_at. intros Hi. destruct (line_ranges chars !! i) as [r|] eqn:Hr.
  - apply line_ranges_valid. by eapply list_elem_of_lookup_2.
  - apply lookup_ge_None_1 in Hr. lia.
Qed.

(** The lines come in order. *)
Lemma line_ranges_from_ordered start i l a b ra rb : start <= i -> a < b ->
  line_ranges_from start i l !! a = Some ra -> line_ranges_from start i l !! b = Some rb ->
  ra.2 < rb.1.
Proof.
  revert start i a b. induction l as [|c l IH]; intros start i a b Hs Hab; simpl.
  - destruct a, b; simpl; try done; lia.
  - destruct (is_newline c); [|apply IH; lia]. destruct b as [|b]; [lia|]. simpl.
    destruct a as [|a]; simpl.
    + intros [= <-] Hb%list_elem_of_lookup_2. apply line_ranges_from_valid in Hb; simpl; lia.
    + apply IH; lia.
Qed.

Lemma line_at_ordered a b : a <= b -> b < length (line_ranges chars) ->
  (line_at (line_ranges chars) a).1 <= (line_at (line_ranges chars) b).2.
Proof.
  intros Hab Hb. destruct (line_at_valid b Hb) as [Hv _].
  destruct (decide (a = b)) as [->|]; [lia|].
  destruct (line_at_valid a ltac:(lia)) as [Hva _].
  destruct (lookup_lt_is_Some_2 (line_ranges chars) a ltac:(lia)) as [ra Hra].
  destruct (lookup_lt_is_Some_2 _ _ Hb) as [rb Hrb].
  pose proof (line_ranges_from_ordered 0 0 chars a b ra rb (le_n 0) ltac:(lia) Hra Hrb).
  unfold line_at in *. rewrite Hra, Hrb in *. simpl in *. lia.
Qed.

Lemma line_index_lt lines at_ i : line_index lines at_ = Some i -> i < length lines.
Proof.
  unfold line_index. destruct (position _ lines) as [j|] eqn:Hp.
  - intros [= <-]. by apply position_lt in Hp.
  - case_bool_decide; [done|]. intros [= <-]. lia.
Qed.

Lemma inner_paragraph_valid at_ r : inner_paragraph chars at_ = Some r -> valid r.
Proof.
  unfold inner_paragraph. destruct (line_index _ at_) as [i|] eqn:Hi; simpl; [|done].
  apply line_index_lt in Hi. intros [= <-]. unfold valid. simpl.
  match goal with |- context [while_down ?p i] => destruct (while_down_spec p i) as (Hf & _) end.
  match goal with |- context [while_up ?p ?f i] => destruct (while_up_spec p f i) as (Hl & Hk & _) end.
  set (first := while_down _ i) in *. set (last := while_up _ _ i) in *.
  assert (last < length (line_ranges chars)) as Hlast.
  { destruct (decide (last = i)) as [->|]; [done|]. specialize (Hk (last - 1) ltac:(lia)).
    apply andb_true_iff in Hk as [?%bool_decide_eq_true _]. lia. }
  split; [apply line_at_ordered; lia|]. by apply line_at_valid.
Qed.

Lemma a_paragraph_valid at_ r : a_paragraph chars at_ = Some r -> valid r.
Proof.
  unfold a_paragraph. destruct (inner_paragraph chars at_) as [t|] eqn:Ht; simpl; [|done].
  destruct (inner_paragraph_valid at_ t Ht) as [Ht1 Ht2].
  assert (forall x, Some (match List.find (fun line => bool_decide (line.2 + 1 = t.1) && line_is_blank chars line)
      (reverse (line_ranges chars)) with Some line => (line.1, t.2) | None => t end) = Some x -> valid x) as Habove.
  { intros x [= <-]. destruct (List.find _ _) as [line|] eqn:Hf; [|done].
    apply List.find_some in Hf as [Hin Hl]. apply andb_true_iff in Hl as [Hl%bool_decide_eq_true _].
    apply list_elem_of_In, elem_of_reverse, line_ranges_valid in Hin as [Hv _].
    unfold valid; simpl. lia. }
  destruct (List.find _ (line_ranges chars)) as [next|] eqn:Hf; [|apply Habove].
  destruct (line_is_blank chars next); [|apply Habove]. intros [= <-].
  apply List.find_some in Hf as [Hin Hl]. apply bool_decide_eq_true in Hl.
  apply list_elem_of_In, line_ranges_valid in Hin as [Hv Hv2]. unfold valid; simpl. lia.
Qed.
End objects.
End ObjectProps.

(** ** Concrete runs *)

Module ObjectsWitness.
(** [f(a[1], b)]. *)
Definition sample : list char :=
  [102; 40; 97; 91; 49; 93; 44; 32; 98; 41]%N.

Lemma matching_bracket_involutive_witness :
  matching_bracket sample 1 Bracket.Parenthesis true = Some 9 /\
  matching_bracket sample 9 Bracket.Parenthesis false = Some 1.
Proof.
  split; [vm_compute; reflexivity|].
  refine (proj2 (proj2 (proj2 (proj2 (proj2
    (BracketProps.matching_bracket_involutive sample Bracket.Parenthesis 1 9 true _ _ _))))));
    [vm_compute; lia|vm_compute; reflexivity..].
Defined.

Lemma a_block_encloses_witness :
  a_block sample 4 Bracket.Parenthesis = Some (1, 10) /\
  BracketProps.paired sample Bracket.Parenthesis 1 9.
Proof.
  split; [vm_compute; reflexivity|].
  refine (proj2 (proj2 (BracketProps.a_block_encloses sample Bracket.Parenthesis 4 1 10 _))).
  vm_compute; reflexivity.
Defined.

(** On a newline no line holds the caret, and the object is the last paragraph. *)
Theorem paragraph_on_newline_is_the_last :
  inner_paragraph (lit "ab" ++ [10; 10]%N ++ lit "cd") 3 = Some (4, 6).
Proof. vm_compute. reflexivity. Qed.
End ObjectsWitness.
