(* ===== verification/Vim.v ===== *)
(** * [crates/goble-ui/src/vim], [mod.rs]: the modal engine

    The engine's state, the buffer a key edits and the system clipboard are
    threaded explicitly ([Engine.st]); one definition per method.  Positions
    are [nat] and fit a [usize]; the typed counts are [N], saturated as the
    [u32] and [usize] they are in the source.  [.] replays keys through
    [normal], so the recursive part takes fuel and answers [None] when it runs
    out of it; every other path ignores the fuel. *)

From S2P Require Import Prelude VimWords VimObjects.

#[local] Open Scope goble_scope.

(** ** Data *)

Module MotionType.
Inductive t : Type := Charwise | Linewise.
End MotionType.

Inductive VimMode : Type :=
| Normal
| Insert
| Visual (kind : MotionType.t)
| Replace.

Inductive VimOutcome : Type := Passthrough | Consumed | Moved | Edited.

Module Case.
Inductive t : Type := Toggle | Lower | Upper.
End Case.

Record Register : Type := mkRegister { rg_text : Str; rg_linewise : bool }.
Definition Register_default : Register := mkRegister [] false.

Module Operator.
Inductive t : Type := Delete | Change | Yank | ToggleCase | Lowercase | Uppercase.
End Operator.

Record FindMotion : Type := mkFindMotion {
  fm_forward : bool;
  fm_before : bool;
  fm_target : char
}.

Module Pending.
Inductive t : Type :=
| Operator (operator : Operator.t)
| TextObject (operator : Operator.t) (around : bool)
| G
| Find (motion : FindMotion)
| OperatorFind (operator : Operator.t) (motion : FindMotion)
| Replace
| Register
| VisualObject (around : bool).
End Pending.
Notation Pending := Pending.t.

Record LastChange : Type := mkLastChange { lc_keys : list Str; lc_insert : Str }.

#[export] Instance MotionType_eq_dec : EqDecision MotionType.t.
Proof. solve_decision. Defined.
#[export] Instance VimMode_eq_dec : EqDecision VimMode.
Proof. solve_decision. Defined.
#[export] Instance VimOutcome_eq_dec : EqDecision VimOutcome.
Proof. solve_decision. Defined.
#[export] Instance Operator_eq_dec : EqDecision Operator.t.
Proof. solve_decision. Defined.

Definition UNDO_LIMIT : nat := 100.

(** [VimMode::label], [VimMode::is_insert]. *)
Definition label (m : VimMode) : Str :=
  match m with
  | Normal => lit "NORMAL"
  | Insert => lit "INSERT"
  | Visual MotionType.Charwise => lit "VISUAL"
  | Visual MotionType.Linewise => lit "V-LINE"
  | Replace => lit "REPLACE"
  end.
Definition is_insert (m : VimMode) : bool := bool_decide (m = Insert).

Definition operator_char (o : Operator.t) : char :=
  match o with
  | Operator.Delete => 100
  | Operator.Change => 99
  | Operator.Yank => 121
  | Operator.ToggleCase => 126
  | Operator.Lowercase => 117
  | Operator.Uppercase => 85
  end%N.

Definition operator_from_char (c : char) : option Operator.t :=
  if one_of c "d" then Some Operator.Delete
  else if one_of c "c" then Some Operator.Change
  else if one_of c "y" then Some Operator.Yank
  else None.

Record VimState : Type := mkVimState {
  vs_mode : VimMode;
  vs_anchor : nat;
  vs_pending : option Pending;
  vs_count : option N;
  vs_count2 : option N;
  vs_register : char;
  vs_registers : gmap N Register;
  vs_last_find : option FindMotion;
  vs_last_change : option LastChange;
  vs_command : list Str;
  vs_insert_keys : list Str;
  vs_insert_text : Str;
  vs_undo : list (Str * nat);
  vs_redo : list (Str * nat);
  vs_unnamed_clipboard : bool;
  vs_replaying : N
}.

(** Assignments to the fields. *)
Definition set_mode (x : VimMode) (s : VimState) : VimState :=
  mkVimState x (vs_anchor s) (vs_pending s) (vs_count s) (vs_count2 s) (vs_register s)
    (vs_registers s) (vs_last_find s) (vs_last_change s) (vs_command s) (vs_insert_keys s)
    (vs_insert_text s) (vs_undo s) (vs_redo s) (vs_unnamed_clipboard s) (vs_replaying s).
Definition set_anchor (x : nat) (s : VimState) : VimState :=
  mkVimState (vs_mode s) x (vs_pending s) (vs_count s) (vs_count2 s) (vs_register s)
    (vs_registers s) (vs_last_find s) (vs_last_change s) (vs_command s) (vs_insert_keys s)
    (vs_insert_text s) (vs_undo s) (vs_redo s) (vs_unnamed_clipboard s) (vs_replaying s).
Definition set_pending (x : option Pending) (s : VimState) : VimState :=
  mkVimState (vs_mode s) (vs_anchor s) x (vs_count s) (vs_count2 s) (vs_register s)
    (vs_registers s) (vs_last_find s) (vs_last_change s) (vs_command s) (vs_insert_keys s)
    (vs_insert_text s) (vs_undo s) (vs_redo s) (vs_unnamed_clipboard s) (vs_replaying s).
Definition set_count (x : option N) (s : VimState) : VimState :=
  mkVimState (vs_mode s) (vs_anchor s) (vs_pending s) x (vs_count2 s) (vs_register s)
    (vs_registers s) (vs_last_find s) (vs_last_change s) (vs_command s) (vs_insert_keys s)
    (vs_insert_text s) (vs_undo s) (vs_redo s) (vs_unnamed_clipboard s) (vs_replaying s).
Definition set_count2 (x : option N) (s : VimState) : VimState :=
  mkVimState (vs_mode s) (vs_anchor s) (vs_pending s) (vs_count s) x (vs_register s)
    (vs_registers s) (vs_last_find s) (vs_last_change s) (vs_command s) (vs_insert_keys s)
    (vs_insert_text s) (vs_undo s) (vs_redo s) (vs_unnamed_clipboard s) (vs_replaying s).
Definition set_register (x : char) (s : VimState) : VimState :=
  mkVimState (vs_mode s) (vs_anchor s) (vs_pending s) (vs_count s) (vs_count2 s) x
    (vs_registers s) (vs_last_find s) (vs_last_change s) (vs_command s) (vs_insert_keys s)
    (vs_insert_text s) (vs_undo s) (vs_redo s) (vs_unnamed_clipboard s) (vs_replaying s).
Definition set_registers (x : gmap N Register) (s : VimState) : VimState :=
  mkVimState (vs_mode s) (vs_anchor s) (vs_pending s) (vs_count s) (vs_count2 s)
    (vs_register s) x (vs_last_find s) (vs_last_change s) (vs_command s) (vs_insert_keys s)
    (vs_insert_text s) (vs_undo s) (vs_redo s) (vs_unnamed_clipboard s) (vs_replaying s).
Definition set_last_find (x : option FindMotion) (s : VimState) : VimState :=
  mkVimState (vs_mode s) (vs_anchor s) (vs_pending s) (vs_count s) (vs_count2 s) (vs_register s)
    (vs_registers s) x (vs_last_change s) (vs_command s) (vs_insert_keys s) (vs_insert_text s)
    (vs_undo s) (vs_redo s) (vs_unnamed_clipboard s) (vs_replaying s).
Definition set_last_change (x : option LastChange) (s : VimState) : VimState :=
  mkVimState (vs_mode s) (vs_anchor s) (vs_pending s) (vs_count s) (vs_count2 s) (vs_register s)
    (vs_registers s) (vs_last_find s) x (vs_command s) (vs_insert_keys s) (vs_insert_text s)
    (vs_undo s) (vs_redo s) (vs_unnamed_clipboard s) (vs_replaying s).
Definition set_command (x : list Str) (s : VimState) : VimState :=
  mkVimState (vs_mode s) (vs_anchor s) (vs_pending s) (vs_count s) (vs_count2 s) (vs_register s)
    (vs_registers s) (vs_last_find s) (vs_last_change s) x (vs_insert_keys s) (vs_insert_text s)
    (vs_undo s) (vs_redo s) (vs_unnamed_clipboard s) (vs_replaying s).
Definition set_insert_keys (x : list Str) (s : VimState) : VimState :=
  mkVimState (vs_mode s) (vs_anchor s) (vs_pending s) (vs_count s) (vs_count2 s) (vs_register s)
    (vs_registers s) (vs_last_find s) (vs_last_change s) (vs_command s) x (vs_insert_text s)
    (vs_undo s) (vs_redo s) (vs_unnamed_clipboard s) (vs_replaying s).
Definition set_insert_text (x : Str) (s : VimState) : VimState :=
  mkVimState (vs_mode s) (vs_anchor s) (vs_pending s) (vs_count s) (vs_count2 s) (vs_register s)
    (vs_registers s) (vs_last_find s) (vs_last_change s) (vs_command s) (vs_insert_keys s) x
    (vs_undo s) (vs_redo s) (vs_unnamed_clipboard s) (vs_replaying s).
Definition set_undo (x : list (Str * nat)) (s : VimState) : VimState :=
  mkVimState (vs_mode s) (vs_anchor s) (vs_pending s) (vs_count s) (vs_count2 s) (vs_register s)
    (vs_registers s) (vs_last_find s) (vs_last_change s) (vs_command s) (vs_insert_keys s)
    (vs_insert_text s) x (vs_redo s) (vs_unnamed_clipboard s) (vs_replaying s).
Definition set_redo (x : list (Str * nat)) (s : VimState) : VimState :=
  mkVimState (vs_mode s) (vs_anchor s) (vs_pending s) (vs_count s) (vs_count2 s) (vs_register s)
    (vs_registers s) (vs_last_find s) (vs_last_change s) (vs_command s) (vs_insert_keys s)
    (vs_insert_text s) (vs_undo s) x (vs_unnamed_clipboard s) (vs_replaying s).
Definition set_unnamed_clipboard (x : bool) (s : VimState) : VimState :=
  mkVimState (vs_mode s) (vs_anchor s) (vs_pending s) (vs_count s) (vs_count2 s) (vs_register s)
    (vs_registers s) (vs_last_find s) (vs_last_change s) (vs_command s) (vs_insert_keys s)
    (vs_insert_text s) (vs_undo s) (vs_redo s) x (vs_replaying s).
Definition set_replaying (x : N) (s : VimState) : VimState :=
  mkVimState (vs_mode s) (vs_anchor s) (vs_pending s) (vs_count s) (vs_count2 s) (vs_register s)
    (vs_registers s) (vs_last_find s) (vs_last_change s) (vs_command s) (vs_insert_keys s)
    (vs_insert_text s) (vs_undo s) (vs_redo s) (vs_unnamed_clipboard s) x.

Definition VimState_new : VimState :=
  mkVimState Insert 0 None None None DQUOTE ∅ None None [] [] [] [] [] false 0.

Definition is_pending (s : VimState) : bool :=
  bool_decide (vs_pending s <> None \/ vs_count s <> None \/ vs_count2 s <> None).

(** [VimState::reset]. *)
Definition reset (s : VimState) : VimState :=
  s |> set_pending None |> set_count None |> set_count2 None |> set_command []
    |> set_insert_keys [] |> set_insert_text [] |> set_mode Insert.

(** ** The buffer *)

Record VimBuffer : Type := mkVimBuffer { vb_text : Str; vb_caret : nat }.

Definition VimBuffer_new (text : Str) (caret : nat) : VimBuffer :=
  mkVimBuffer text (caret `min` length text).
Definition buffer_len (b : VimBuffer) : nat := length (vb_text b).

(** [chars.drain(start..end)]. *)
Definition drain (chars : list char) (start end_ : nat) : list char :=
  take start chars ++ drop end_ chars.

Definition buffer_delete (r : range) (b : VimBuffer) : VimBuffer :=
  let start := r.1 `min` buffer_len b in
  let end_ := r.2 `min` buffer_len b in
  if bool_decide (end_ <= start) then b
  else mkVimBuffer (drain (vb_text b) start end_) start.

(** The loop's one-by-one insertions put [text] at [at]. *)
Definition buffer_insert (at_ : nat) (text : Str) (b : VimBuffer) : VimBuffer :=
  let at_ := at_ `min` buffer_len b in
  mkVimBuffer (take at_ (vb_text b) ++ text ++ drop at_ (vb_text b)) (at_ + length text).

(** [(at + count).min(len)] and [at.saturating_sub(count)]. *)
Definition plus_count (at_ : nat) (count : N) (len : nat) : nat :=
  N.to_nat (N.min (N.of_nat at_ + count) (N.of_nat len)).
Definition minus_count (at_ : nat) (count : N) : nat := N.to_nat (N.of_nat at_ - count).

(** [iter_mut().take(end).skip(at)]. *)
Definition map_slice (f : char -> char) (start end_ : nat) (chars : list char) : list char :=
  take start chars ++ (f <$> slice chars (start, end_)) ++ drop end_ chars.

Definition buffer_replace_with (at_ : nat) (count : N) (c : char) (b : VimBuffer)
    : VimBuffer * bool :=
  if bool_decide (buffer_len b <= at_) then (b, false)
  else
    let end_ := plus_count at_ count (buffer_len b) in
    (mkVimBuffer (map_slice (fun _ => c) at_ end_ (vb_text b)) at_, true).

Definition buffer_slice (r : range) (b : VimBuffer) : Str :=
  let start := r.1 `min` buffer_len b in
  let end_ := r.2 `min` buffer_len b in
  if bool_decide (end_ <= start) then [] else slice (vb_text b) (start, end_).

(** The system clipboard, [Clipboard::read] and [Clipboard::write]. *)
Class Clipboard : Type := {
  CB : Type;
  cb_read : CB -> option Str * CB;
  cb_write : Str -> CB -> CB;
}.

Definition demo_clipboard : Clipboard :=
  {| CB := Str; cb_read t := (Some t, t); cb_write t _ := t |}.

Section case.
Context `{CharCase}.

Definition case_char (case : Case.t) (c : char) : char :=
  match case with
  | Case.Toggle =>
      if is_uppercase c then default c (head (to_lowercase c))
      else if is_lowercase c then default c (head (to_uppercase c))
      else c
  | Case.Lower => default c (head (to_lowercase c))
  | Case.Upper => default c (head (to_uppercase c))
  end.

Definition buffer_change_case (r : range) (case : Case.t) (b : VimBuffer) : VimBuffer * bool :=
  let start := r.1 `min` buffer_len b in
  let end_ := r.2 `min` buffer_len b in
  if bool_decide (end_ <= start) then (b, false)
  else (mkVimBuffer (map_slice (case_char case) start end_ (vb_text b)) start, true).
End case.

(** ** Positions and motions *)

(** [normal_caret]: where a normal-mode insertion point may sit. *)
Definition normal_caret (caret len : nat) : nat :=
  if bool_decide (len = 0) then 0 else caret `min` (len - 1).

Definition first_non_blank (chars : list char) : nat :=
  default 0 (position (fun c => negb (is_whitespace c)) chars).

Definition named_key (key : Str) : option Str :=
  if bool_decide (key = lit "Backspace" \/ key = lit "ArrowLeft") then Some (lit "h")
  else if bool_decide (key = lit "ArrowRight") then Some (lit "l")
  else if bool_decide (key = lit "ArrowUp" \/ key = lit "ArrowDown") then Some (lit "k")
  else if bool_decide (key = lit "Home") then Some (lit "0")
  else if bool_decide (key = lit "End") then Some (lit "$")
  else if bool_decide (key = lit "Delete") then Some (lit "x")
  else None.

Definition find_char (m : FindMotion) : char :=
  match fm_forward m, fm_before m with
  | true, false => 102
  | true, true => 116
  | false, false => 70
  | false, true => 84
  end%N.

Definition is_register_name (c : char) : bool :=
  is_ascii_alphabetic c || one_of c "+*_" || bool_decide (c = DQUOTE).

Definition word_kind (c : char) : WordKind.t :=
  if is_ascii_uppercase c then WordKind.BigWord else WordKind.Word.

Definition word_motion (c : char) (chars : list char) (at_ : nat) (kind : WordKind.t) : nat :=
  if one_of c "wW" then word_start_forward chars at_ kind
  else if one_of c "bB" then word_start_backward chars at_ kind
  else if one_of c "eE" then word_end_forward chars at_ kind
  else at_.

Definition matching_bracket_index (chars : list char) (at_ : nat) : option nat :=
  c ← chars !! at_;
  '(bracket, opening) ← bracket_of c;
  matching_bracket chars at_ bracket opening.

Definition repeat_motion (count : N) (caret : nat) (step : nat -> nat) : nat :=
  N.iter (N.max count 1) step caret.

(** The two loops of [find_index]. *)
Fixpoint find_forward (fuel : nat) (chars : list char) (target : char) (count seen : N) (i : nat)
    : option nat :=
  match fuel with
  | O => None
  | S fuel =>
      if bool_decide (i < length chars) then
        if bool_decide (char_at chars i = target) then
          let seen := (seen + 1)%N in
          if bool_decide (seen = N.max count 1) then Some i
          else find_forward fuel chars target count seen (i + 1)
        else find_forward fuel chars target count seen (i + 1)
      else None
  end.

Fixpoint find_backward (chars : list char) (target : char) (count seen : N) (i : nat)
    : option nat :=
  match i with
  | O => None
  | S i' =>
      if bool_decide (char_at chars i' = target) then
        let seen := (seen + 1)%N in
        if bool_decide (seen = N.max count 1) then Some i'
        else find_backward chars target count seen i'
      else find_backward chars target count seen i'
  end.

Definition find_index (chars : list char) (caret : nat) (motion : FindMotion) (count : N)
    : option nat :=
  if fm_forward motion then
    find_forward (length chars) chars (fm_target motion) count 0 (caret + 1)
  else find_backward chars (fm_target motion) count 0 caret.

Definition find_caret_index (chars : list char) (caret : nat) (motion : FindMotion) (count : N)
    : option nat :=
  found ← find_index chars caret motion count;
  Some (if fm_before motion then
          if fm_forward motion then found - 1 else (found + 1) `min` (length chars - 1)
        else found).

Definition find_operator_range (caret found : nat) (motion : FindMotion) (len : nat) : range :=
  if fm_forward motion then
    if fm_before motion then (caret, found) else (caret, (found + 1) `min` len)
  else if fm_before motion then ((found + 1) `min` len, caret)
  else (found, caret).

(** [VimState::text_object] reads nothing of the state. *)
Definition text_object (c : char) (around change : bool) (b : VimBuffer) : option range :=
  let chars := vb_text b in
  if bool_decide (chars = []) then None
  else
    let at_ := normal_caret (vb_caret b) (length chars) in
    if one_of c "w" then
      if around then a_word chars at_ WordKind.Word else inner_word chars at_ WordKind.Word
    else if one_of c "W" then
      if around then a_word chars at_ WordKind.BigWord else inner_word chars at_ WordKind.BigWord
    else if one_of c "p" then
      if around then a_paragraph chars at_ else inner_paragraph chars at_
    else if bool_decide (c ∈ [39; DQUOTE; 96]%N) then
      quote ← quote_of c;
      if around then a_quote chars at_ quote else inner_quote chars at_ quote
    else
      '(bracket, _) ← bracket_of c;
      if around then a_block chars at_ bracket else inner_block chars at_ bracket change.

Definition flip (m : FindMotion) : FindMotion :=
  mkFindMotion (negb (fm_forward m)) (fm_before m) (fm_target m).

Definition motion_range (c : char) (count : N) (last_find : option FindMotion) (b : VimBuffer)
    (change : bool) : option range :=
  let chars := vb_text b in
  if bool_decide (chars = []) then None
  else
    let len := length chars in
    let caret := normal_caret (vb_caret b) len in
    if one_of c "h" then Some (minus_count caret count, caret)
    else if one_of c "l " then Some (caret, plus_count caret count len)
    else if one_of c "wW" then
      let kind := word_kind c in
      if change then
        let target := repeat_motion count caret (fun at_ => word_end_forward chars at_ kind) in
        Some (caret, (target + 1) `min` len)
      else
        let target := repeat_motion count caret (fun at_ => word_start_forward chars at_ kind) in
        Some (caret `min` target, caret `max` target)
    else if one_of c "bB" then
      let target := repeat_motion count caret (fun at_ => word_start_backward chars at_ (word_kind c)) in
      Some (caret `min` target, caret `max` target)
    else if one_of c "eE" then
      let target := repeat_motion count caret (fun at_ => word_end_forward chars at_ (word_kind c)) in
      Some (caret, (target + 1) `min` len)
    else if one_of c "0" then Some (0, caret)
    else if one_of c "^" then
      let blank := first_non_blank chars in Some (blank `min` caret, blank `max` caret)
    else if one_of c "$" then Some (caret, len)
    else if one_of c "%" then
      other ← matching_bracket_index chars caret;
      Some (caret `min` other, caret `max` other + 1)
    else if one_of c ";," then
      motion ← last_find;
      let motion := if one_of c "," then flip motion else motion in
      found ← find_index chars caret motion count;
      Some (find_operator_range caret found motion len)
    else None.

(** [VimState::selection]. *)
Definition selection (caret len : nat) (s : VimState) : option range :=
  match vs_mode s with
  | Visual kind =>
      if bool_decide (len = 0) then None
      else match kind with
      | MotionType.Linewise => Some (0, len)
      | MotionType.Charwise =>
          Some ((vs_anchor s `min` caret) `min` (len - 1), (vs_anchor s `max` caret) `min` (len - 1) + 1)
      end
  | _ => None
  end.

(** [VimState::showcmd]. *)
Definition around_char (around : bool) : char := if around then 97%N else 105%N.
Definition showcmd (s : VimState) : Str :=
  from_option show_N [] (vs_count s) ++
  match vs_pending s with
  | Some (Pending.Operator operator) => [operator_char operator]
  | Some (Pending.TextObject operator around) => [operator_char operator; around_char around]
  | Some Pending.G => lit "g"
  | Some (Pending.OperatorFind operator motion) => [operator_char operator; find_char motion]
  | Some (Pending.Find motion) => [find_char motion]
  | Some Pending.Replace => lit "r"
  | Some Pending.Register => [DQUOTE]
  | Some (Pending.VisualObject around) => [around_char around]
  | None => []
  end ++
  from_option show_N [] (vs_count2 s).

(** ** The engine *)

Module Engine.
Section engine.
Context `{CharCase} `{Clipboard}.

(** What a method works on: [self], [buffer] and [clipboard]. *)
Record st : Type := mkSt { vim : VimState; buf : VimBuffer; clip : option CB }.
Definition on_vim (f : VimState -> VimState) (s : st) : st := mkSt (f (vim s)) (buf s) (clip s).
Definition on_buf (f : VimBuffer -> VimBuffer) (s : st) : st := mkSt (vim s) (f (buf s)) (clip s).
Definition set_caret (caret : nat) : st -> st :=
  on_buf (fun b => mkVimBuffer (vb_text b) caret).
Definition len (s : st) : nat := buffer_len (buf s).
Definition caret (s : st) : nat := vb_caret (buf s).

(** ** Recording and history *)

Definition record (key : Str) (v : VimState) : VimState :=
  if bool_decide (vs_replaying v = 0%N) then set_command (vs_command v ++ [key]) v else v.

Definition remember_change (insert : option Str) (v : VimState) : VimState :=
  if bool_decide (vs_replaying v = 0%N) then
    let keys := vs_command v in
    let v := set_command [] v in
    let '(insert, v) := match insert with
                        | Some text => (text, v)
                        | None => (vs_insert_text v, set_insert_text [] v)
                        end in
    v |> set_last_change (Some (mkLastChange keys insert)) |> set_insert_keys []
  else v.

(** [Vec::remove(0)] past the limit. *)
Definition snapshot (s : st) : st :=
  on_vim (fun v =>
    let undo := vs_undo v ++ [(vb_text (buf s), vb_caret (buf s))] in
    v |> set_undo (if bool_decide (UNDO_LIMIT < length undo) then drop 1 undo else undo)
      |> set_redo []) s.

Definition after_undo (s : st) : st * VimOutcome :=
  let s := on_vim (fun v => v |> set_mode Normal |> set_pending None
                              |> set_count None |> set_count2 None) s in
  (set_caret (normal_caret (caret s) (len s)) s, Edited).

Definition undo (s : st) : st * VimOutcome :=
  match last (vs_undo (vim s)) with
  | None => (s, Consumed)
  | Some (text, at_) =>
      let here := (vb_text (buf s), vb_caret (buf s)) in
      after_undo (s |> on_vim (fun v => v |> set_undo (removelast (vs_undo v))
                                          |> set_redo (vs_redo v ++ [here]))
                    |> on_buf (fun _ => mkVimBuffer text at_))
  end.

Definition redo (s : st) : st * VimOutcome :=
  match last (vs_redo (vim s)) with
  | None => (s, Consumed)
  | Some (text, at_) =>
      let here := (vb_text (buf s), vb_caret (buf s)) in
      after_undo (s |> on_vim (fun v => v |> set_redo (removelast (vs_redo v))
                                          |> set_undo (vs_undo v ++ [here]))
                    |> on_buf (fun _ => mkVimBuffer text at_))
  end.

(** ** Counts and registers *)

Definition next_count (slot : option N) (c : char) : option N :=
  let digit := default 0%N (to_digit10 c) in
  Some (u32_saturating_add (u32_saturating_mul (default 0%N slot) 10) digit).

Definition push_count (c : char) (v : VimState) : VimState :=
  if bool_decide (vs_pending v <> None) then set_count2 (next_count (vs_count2 v) c) v
  else set_count (next_count (vs_count v) c) v.

Definition counts (v : VimState) : N :=
  usize_saturating_mul (N.max (default 1%N (vs_count v)) 1) (N.max (default 1%N (vs_count2 v)) 1).
Definition clear_counts (v : VimState) : VimState := v |> set_count None |> set_count2 None.
Definition take_counts (s : st) : N * st := (counts (vim s), on_vim clear_counts s).

Definition clear_pending (v : VimState) : VimState :=
  v |> set_pending None |> set_count None |> set_count2 None |> set_command [].

Definition store_register (key : char) (text : Str) (linewise append : bool) (v : VimState)
    : VimState :=
  let entry := default Register_default (vs_registers v !! key) in
  let entry :=
    if append then
      let sep := linewise && negb (bool_decide (last (rg_text entry) = Some NEWLINE))
                   && negb (bool_decide (rg_text entry = [])) in
      mkRegister (rg_text entry ++ (if sep then [NEWLINE] else []) ++ text) linewise
    else mkRegister text linewise in
  set_registers (<[key := entry]> (vs_registers v)) v.

Definition UNDERSCORE : char := 95%N.

Definition write_register (name : char) (text : Str) (linewise : bool) (s : st) : st :=
  if bool_decide (name = UNDERSCORE) then s
  else
    let '(key, append) :=
      if is_ascii_uppercase name then (to_ascii_lowercase name, true) else (name, false) in
    let s := on_vim (store_register key text linewise append) s in
    let s := if bool_decide (key = DQUOTE) then s
             else on_vim (store_register DQUOTE text linewise false) s in
    if one_of name "+*" || (vs_unnamed_clipboard (vim s) && bool_decide (name = DQUOTE)) then
      mkSt (vim s) (buf s) (cb_write text <$> clip s)
    else s.

(** [clipboard.and_then(|clipboard| clipboard.read())]. *)
Definition read_clipboard (s : st) : option Str * st :=
  match clip s with
  | None => (None, s)
  | Some cb => let '(text, cb) := cb_read cb in (text, mkSt (vim s) (buf s) (Some cb))
  end.

Definition read_register (name : char) (s : st) : Register * st :=
  if bool_decide (name = UNDERSCORE) then (Register_default, s)
  else if one_of name "+*" then
    let '(text, s) := read_clipboard s in (mkRegister (default [] text) false, s)
  else
    let stored := default Register_default (vs_registers (vim s) !! name) in
    if bool_decide (name = DQUOTE) && vs_unnamed_clipboard (vim s) then
      match read_clipboard s with
      | (Some text, s) => if bool_decide (text <> rg_text stored) then (mkRegister text false, s)
                          else (stored, s)
      | (None, s) => (stored, s)
      end
    else (stored, s).

Definition used_register (s : st) : char * st :=
  (vs_register (vim s), on_vim (set_register DQUOTE) s).

(** ** Operators and motions *)

Definition apply_operator (operator : Operator.t) (r : range) (linewise : bool) (s : st)
    : st * VimOutcome :=
  let '(register, s) := used_register s in
  let text := buffer_slice r (buf s) in
  if bool_decide (text = []) then (s, Consumed)
  else
    match operator with
    | Operator.Yank => (set_caret r.1 (write_register register text linewise s), Moved)
    | Operator.Delete =>
        (s |> write_register register text linewise |> snapshot |> on_buf (buffer_delete r)
           |> on_vim (remember_change None), Edited)
    | Operator.Change =>
        (s |> write_register register text linewise |> snapshot |> on_buf (buffer_delete r)
           |> on_vim (fun v => v |> set_insert_keys (vs_command v) |> set_command []
                                 |> set_insert_text [] |> set_mode Insert), Edited)
    | Operator.ToggleCase | Operator.Lowercase | Operator.Uppercase =>
        let case := match operator with
                    | Operator.Lowercase => Case.Lower
                    | Operator.Uppercase => Case.Upper
                    | _ => Case.Toggle
                    end in
        let s := snapshot s in
        let '(b, changed) := buffer_change_case r case (buf s) in
        let s := on_buf (fun _ => b) s in
        if (changed : bool) then (on_vim (remember_change None) s, Edited) else (s, Consumed)
    end.

Definition move_caret (count : N) (step : list char -> nat -> nat) (s : st) : st * VimOutcome :=
  let s := on_vim clear_counts s in
  let chars := vb_text (buf s) in
  if bool_decide (chars = []) then (set_caret 0 s, Consumed)
  else
    let at_ := N.iter (N.max count 1) (step chars) (normal_caret (caret s) (length chars)) in
    (set_caret (at_ `min` (length chars - 1)) s, Moved).

Definition find_move (motion : FindMotion) (count : N) (s : st) : st * VimOutcome :=
  let chars := vb_text (buf s) in
  if bool_decide (chars = []) then (s, Consumed)
  else
    match find_caret_index chars (normal_caret (caret s) (length chars)) motion count with
    | Some at_ => (set_caret at_ s, Moved)
    | None => (s, Consumed)
    end.

(** An arm that opens with [let count = self.take_counts();]. *)
Definition take_and (f : N -> st -> st * VimOutcome) (s : st) : st * VimOutcome :=
  let '(count, s) := take_counts s in f count s.

(** The motions normal and visual mode share, each as it is written in both. *)
Definition move_left : st -> st * VimOutcome :=
  take_and (fun count => move_caret count (fun _ at_ => at_ - 1)).
Definition move_right : st -> st * VimOutcome :=
  take_and (fun count => move_caret count (fun chars at_ => (at_ + 1) `min` (length chars - 1))).
Definition move_word (c : char) : st -> st * VimOutcome :=
  take_and (fun count =>
    move_caret count (fun chars at_ => word_motion c chars at_ (word_kind c))).
Definition move_bracket : st -> st * VimOutcome :=
  take_and (fun count =>
    move_caret count (fun chars at_ => default at_ (matching_bracket_index chars at_))).
Definition start_find (c : char) : FindMotion := mkFindMotion (one_of c "ft") (one_of c "tT") 32.
Definition pend (p : Pending) (s : st) : st * VimOutcome :=
  (on_vim (set_pending (Some p)) s, Consumed).
Definition repeat_find (c : char) : st -> st * VimOutcome :=
  take_and (fun count s =>
    match vs_last_find (vim s) with
    | None => (s, Consumed)
    | Some motion => find_move (if one_of c "," then flip motion else motion) count s
    end).

(** [InsertAt], by the key that names it. *)
Definition enter_insert (c : char) (s : st) : st * VimOutcome :=
  let n := len s in
  let '(at_, moved) :=
    if one_of c "i" then (normal_caret (caret s) n, false)
    else if one_of c "a" then ((normal_caret (caret s) n + 1) `min` n, true)
    else if one_of c "I" then (first_non_blank (vb_text (buf s)), true)
    else (n, true) in
  let s := set_caret at_ s in
  let s := on_vim (fun v => v |> set_insert_keys (vs_command v) |> set_command []
                              |> set_insert_text [] |> set_mode Insert) s in
  (s, if (moved : bool) then Moved else Consumed).

(** [content.text.repeat(count)]. *)
Definition repeat_text (count : N) (text : Str) : Str := N.iter count (app text) [].

Definition paste (count : N) (before : bool) (s : st) : st * VimOutcome :=
  let '(register, s) := used_register s in
  let '(content, s) := read_register register s in
  if bool_decide (rg_text content = []) then (s, Consumed)
  else
    let text := repeat_text (N.max count 1) (rg_text content) in
    let at_ := normal_caret (caret s) (len s) in
    let at_ := if before then at_ else (at_ + 1) `min` len s in
    let s := on_buf (buffer_insert at_ text) (snapshot s) in
    let s := set_caret (normal_caret (caret s - 1) (len s)) s in
    (on_vim (remember_change None) s, Edited).

(** [(key.chars().next(), key.chars().nth(1))] is [(Some(c), None)]. *)
Definition single (key : Str) : option char :=
  match key with [c] => Some c | _ => None end.

Definition g_command (key : Str) (s : st) : st * VimOutcome :=
  match single key with
  | None => (s, Consumed)
  | Some c =>
      if one_of c "g" then move_caret 1 (fun chars _ => first_non_blank chars) s
      else if one_of c "eE" then
        take_and (fun count =>
          let kind := if one_of c "e" then WordKind.Word else WordKind.BigWord in
          move_caret count (fun chars at_ => word_end_backward chars at_ kind)) s
      else if one_of c "~uU" then
        take_and (fun count s =>
          let operator := if one_of c "u" then Operator.Lowercase
                          else if one_of c "U" then Operator.Uppercase
                          else Operator.ToggleCase in
          apply_operator operator (caret s, plus_count (caret s) count (len s)) false s) s
      else (s, Consumed)
  end.

(** ** Insert mode, replace mode and Escape *)

Definition finish_insert (v : VimState) : VimState :=
  let keys := vs_insert_keys v in
  let insert := vs_insert_text v in
  let v := v |> set_insert_keys [] |> set_insert_text [] in
  if bool_decide (keys = []) then set_command [] v
  else
    let v := if bool_decide (vs_replaying v = 0%N) then
               set_last_change (Some (mkLastChange keys insert)) v else v in
    set_command [] v.

Definition escape (s : st) : st * VimOutcome :=
  match vs_mode (vim s) with
  | Insert =>
      let s := on_vim (fun v => v |> finish_insert |> set_mode Normal |> clear_pending) s in
      (set_caret (normal_caret (caret s) (len s)) s, Consumed)
  | Visual _ | Replace =>
      let s := on_vim (fun v => v |> set_mode Normal |> clear_pending) s in
      (set_caret (normal_caret (caret s) (len s)) s, Consumed)
  | Normal =>
      if is_pending (vim s) then (on_vim clear_pending s, Consumed) else (s, Passthrough)
  end.

Definition insert (key : Str) (s : st) : st * VimOutcome :=
  if bool_decide (key = lit "Backspace") then
    if bool_decide (caret s = 0) then (s, Consumed)
    else
      (s |> snapshot |> on_buf (buffer_delete (caret s - 1, caret s))
         |> on_vim (fun v => set_insert_text (removelast (vs_insert_text v)) v), Edited)
  else if bool_decide (key = lit "Delete") then
    if bool_decide (len s <= caret s) then (s, Consumed)
    else (s |> snapshot |> on_buf (buffer_delete (caret s, caret s + 1)), Edited)
  else
    match single key with
    | None => (s, Passthrough)
    | Some c =>
        (s |> snapshot |> on_buf (buffer_insert (caret s) [c])
           |> on_vim (fun v => set_insert_text (vs_insert_text v ++ [c]) v), Edited)
    end.

Definition replace (key : Str) (s : st) : st * VimOutcome :=
  match single key with
  | None => (s, Passthrough)
  | Some c =>
      let s := snapshot (on_vim (fun v => v |> set_mode Normal |> clear_pending) s) in
      let '(b, replaced) := buffer_replace_with (caret s) 1 c (buf s) in
      if (replaced : bool) then
        let s := on_buf (fun _ => b) s in
        (set_caret ((caret s + 1) `min` (len s - 1)) s, Edited)
      else (s, Consumed)
  end.

(** ** Half-typed commands *)

Definition pending_operator_find (operator : Operator.t) (motion : FindMotion) (count : N) (s : st)
    : st * VimOutcome :=
  let s := on_vim (set_last_find (Some motion)) s in
  let chars := vb_text (buf s) in
  if bool_decide (chars = []) then (s, Consumed)
  else
    let at_ := normal_caret (caret s) (length chars) in
    match find_index chars at_ motion count with
    | Some found =>
        apply_operator operator (find_operator_range at_ found motion (length chars)) false s
    | None => (s, Consumed)
    end.

Definition pending_operator (operator : Operator.t) (key : Str) (s : st) : st * VimOutcome :=
  match single key with
  | None => (on_vim (set_pending None) s, Consumed)
  | Some c =>
      if is_ascii_digit c && (negb (one_of c "0") || bool_decide (vs_count2 (vim s) <> None)) then
        pend (Pending.Operator operator) (on_vim (push_count c) s)
      else if one_of c "ia" then pend (Pending.TextObject operator (one_of c "a")) s
      else if one_of c "fFtT" then pend (Pending.OperatorFind operator (start_find c)) s
      else
        let '(count, s) := take_counts s in
        let s := on_vim (set_pending None) s in
        if bool_decide (operator_from_char c = Some operator) then
          apply_operator operator (0, len s) true s
        else
          match motion_range c count (vs_last_find (vim s)) (buf s)
                  (bool_decide (operator = Operator.Change)) with
          | Some r => apply_operator operator r false s
          | None => (s, Consumed)
          end
  end.

Definition normal_pending (pending : Pending) (key : Str) (s : st) : st * VimOutcome :=
  match pending with
  | Pending.Register =>
      let s := on_vim (set_pending None) s in
      match single key with
      | Some c => if is_register_name c then (on_vim (set_register c) s, Consumed) else (s, Consumed)
      | None => (s, Consumed)
      end
  | Pending.Replace =>
      let '(count, s) := take_counts (on_vim (set_pending None) s) in
      match single key with
      | None => (s, Consumed)
      | Some c =>
          let s := snapshot s in
          let '(b, replaced) := buffer_replace_with (caret s) count c (buf s) in
          if (replaced : bool) then
            (s |> on_buf (fun _ => b) |> on_vim (remember_change None), Edited)
          else (s, Consumed)
      end
  | Pending.Find motion =>
      let '(count, s) := take_counts (on_vim (set_pending None) s) in
      match single key with
      | None => (s, Consumed)
      | Some c =>
          let motion := mkFindMotion (fm_forward motion) (fm_before motion) c in
          find_move motion count (on_vim (set_last_find (Some motion)) s)
      end
  | Pending.OperatorFind operator motion =>
      let '(count, s) := take_counts (on_vim (set_pending None) s) in
      match single key with
      | None => (s, Consumed)
      | Some c =>
          pending_operator_find operator (mkFindMotion (fm_forward motion) (fm_before motion) c) count s
      end
  | Pending.G => g_command key (on_vim (set_pending None) s)
  | Pending.VisualObject around =>
      let s := on_vim (set_pending None) s in
      match single key ≫= fun c => text_object c around false (buf s) with
      | Some r => (s |> on_vim (set_anchor r.1) |> set_caret (r.2 - 1), Moved)
      | None => (s, Consumed)
      end
  | Pending.TextObject operator around =>
      let '(_, s) := take_counts (on_vim (set_pending None) s) in
      match single key ≫= fun c =>
              text_object c around (bool_decide (operator = Operator.Change)) (buf s) with
      | Some r => apply_operator operator r false s
      | None => (s, Consumed)
      end
  | Pending.Operator operator => pending_operator operator key s
  end.

(** ** Normal mode *)

(** [normal_command] without its recursive arm, [.]. *)
Definition plain_command (c : char) (s : st) : st * VimOutcome :=
  let n := len s in
  if one_of c "h" then move_left s
  else if one_of c "l " then move_right s
  else if one_of c "jk" then take_and (fun _ s => (s, Consumed)) s
  else if one_of c "wWbBeE" then move_word c s
  else if one_of c "0" then move_caret 1 (fun _ _ => 0) s
  else if one_of c "^" then move_caret 1 (fun chars _ => first_non_blank chars) s
  else if one_of c "$" then move_caret 1 (fun chars _ => length chars - 1) s
  else if one_of c "G" then move_caret 1 (fun chars _ => first_non_blank chars) s
  else if one_of c "%" then move_bracket s
  else if one_of c "fFtT" then pend (Pending.Find (start_find c)) s
  else if one_of c ";," then repeat_find c s
  else if one_of c "g" then pend Pending.G s
  else if one_of c "iaIA" then enter_insert c s
  else if one_of c "oOJ" then (s, Consumed)
  else if one_of c "x" then
    take_and (fun count s =>
      apply_operator Operator.Delete (caret s, plus_count (caret s) count n) false s) s
  else if one_of c "X" then
    take_and (fun count s =>
      apply_operator Operator.Delete (minus_count (caret s) count, caret s) false s) s
  else if one_of c "D" then apply_operator Operator.Delete (caret s, n) false s
  else if one_of c "C" then apply_operator Operator.Change (caret s, n) false s
  else if one_of c "s" then
    take_and (fun count s =>
      apply_operator Operator.Change (caret s, plus_count (caret s) count n) false s) s
  else if one_of c "S" then apply_operator Operator.Change (0, n) true s
  else if one_of c "Y" then apply_operator Operator.Yank (0, n) true s
  else if one_of c "~" then
    take_and (fun count s =>
      let '(s, outcome) :=
        apply_operator Operator.ToggleCase (caret s, plus_count (caret s) count n) false s in
      (if bool_decide (outcome = Edited) then set_caret (plus_count (caret s) count (n - 1)) s else s,
       outcome)) s
  else if one_of c "r" then pend Pending.Replace s
  else if one_of c "R" then (on_vim (fun v => v |> clear_pending |> set_mode Replace) s, Consumed)
  else if one_of c "u" then take_and (fun _ => undo) s
  else if one_of c "pP" then take_and (fun count => paste count (one_of c "P")) s
  else if one_of c "dcy" then
    pend (Pending.Operator (default Operator.Delete (operator_from_char c))) s
  else if bool_decide (c = DQUOTE) then pend Pending.Register s
  else if one_of c "v" then
    (on_vim (fun v => v |> set_anchor (normal_caret (caret s) n)
                        |> set_mode (Visual MotionType.Charwise)) s, Consumed)
  else if one_of c "V" then
    (on_vim (fun v => v |> set_anchor 0 |> set_mode (Visual MotionType.Linewise)) s, Consumed)
  else (s, Consumed).

(** The loops of [dot]: the recorded keys, the recorded text, then Escape when
    the replay is left typing, as often as the count says. *)
Definition replay_keys (normal : Str -> st -> option (st * VimOutcome)) (keys : list Str)
    (s : st) (outcome : VimOutcome) : option (st * VimOutcome) :=
  foldl (fun acc key => '(s, _) ← acc; normal key s) (Some (s, outcome)) keys.

Definition replay_once (normal : Str -> st -> option (st * VimOutcome)) (change : LastChange)
    (s : st) (outcome : VimOutcome) : option (st * VimOutcome) :=
  '(s, outcome) ← replay_keys normal (lc_keys change) s outcome;
  let '(s, outcome) :=
    foldl (fun '(s, _) c => insert [c] s) (s, outcome) (lc_insert change) in
  Some (if bool_decide (vs_mode (vim s) = Insert) then (escape s).1 else s, outcome).

Definition dot (normal : Str -> st -> option (st * VimOutcome)) (s : st)
    : option (st * VimOutcome) :=
  match vs_last_change (vim s) with
  | None => Some (s, Consumed)
  | Some change =>
      let '(repeats, s) := take_counts s in
      let clipboard := clip s in
      let s := on_vim (fun v => set_replaying (vs_replaying v + 1) v) (mkSt (vim s) (buf s) None) in
      '(s, outcome) ← N.iter (N.max repeats 1)
                        (fun acc => '(s, outcome) ← acc; replay_once normal change s outcome)
                        (Some (s, Consumed));
      let s := on_vim (fun v => v |> set_replaying (vs_replaying v - 1)
                                  |> set_last_change (Some change)) s in
      Some (mkSt (vim s) (buf s) clipboard, outcome)
  end.

Definition normal_command (dot : st -> option (st * VimOutcome)) (c : char) (s : st)
    : option (st * VimOutcome) :=
  if one_of c "." then dot s else Some (plain_command c s).

Definition normal_with (dot : st -> option (st * VimOutcome)) (key : Str) (s : st)
    : option (st * VimOutcome) :=
  let key := default key (named_key key) in
  match vs_pending (vim s) with
  | Some pending => Some (normal_pending pending key (on_vim (record key) s))
  | None =>
      match single key with
      | None => Some (s, Passthrough)
      | Some c =>
          let s' := on_vim (record key) s in
          if is_ascii_digit c && (negb (one_of c "0") || bool_decide (vs_count (vim s) <> None)) then
            Some (on_vim (push_count c) s', Consumed)
          else normal_command dot c s'
      end
  end.

Fixpoint normal (fuel : nat) (key : Str) (s : st) : option (st * VimOutcome) :=
  normal_with (match fuel with O => fun _ => None | S fuel => dot (normal fuel) end) key s.

(** ** Visual mode *)

Definition visual_operator (c : char) : Operator.t :=
  if one_of c "dx" then Operator.Delete
  else if one_of c "cs" then Operator.Change
  else if one_of c "yY" then Operator.Yank
  else if one_of c "~" then Operator.ToggleCase
  else if one_of c "u" then Operator.Lowercase
  else Operator.Uppercase.

Definition visual_apply (c : char) (s : st) : st * VimOutcome :=
  let linewise := bool_decide (vs_mode (vim s) = Visual MotionType.Linewise) || one_of c "Y" in
  let range := selection (caret s) (len s) (vim s) in
  let s := on_vim (set_mode Normal) s in
  match range with
  | None => (s, Consumed)
  | Some r => apply_operator (visual_operator c) r linewise s
  end.

Definition visual_paste (s : st) : st * VimOutcome :=
  let '(register, s) := used_register s in
  let '(content, s) := read_register register s in
  match selection (caret s) (len s) (vim s) with
  | None => (on_vim (set_mode Normal) s, Consumed)
  | Some r =>
      let '(count, s) := take_counts s in
      let s := s |> on_vim (set_mode Normal) |> snapshot |> on_buf (buffer_delete r) in
      let s := on_buf (buffer_insert (caret s) (repeat_text (N.max count 1) (rg_text content))) s in
      (on_vim (remember_change None) s, Edited)
  end.

Definition visual_command (c : char) (s : st) : st * VimOutcome :=
  if one_of c "h" then move_left s
  else if one_of c "l " then move_right s
  else if one_of c "jk" then take_and (fun _ s => (s, Consumed)) s
  else if one_of c "wWbBeE" then move_word c s
  else if one_of c "0" then move_caret 1 (fun _ _ => 0) s
  else if one_of c "^" then move_caret 1 (fun chars _ => first_non_blank chars) s
  else if one_of c "$G" then move_caret 1 (fun chars _ => length chars - 1) s
  else if one_of c "%" then move_bracket s
  else if one_of c "fFtT" then pend (Pending.Find (start_find c)) s
  else if one_of c ";," then repeat_find c s
  else if one_of c "ia" then pend (Pending.VisualObject (one_of c "a")) s
  else if one_of c "o" then
    (s |> on_vim (set_anchor (caret s)) |> set_caret (vs_anchor (vim s)), Moved)
  else if one_of c "v" then
    (s |> on_vim (set_mode Normal) |> set_caret (normal_caret (caret s) (len s)), Consumed)
  else if one_of c "V" then
    (on_vim (fun v => v |> set_mode (Visual MotionType.Linewise) |> set_anchor 0) s, Consumed)
  else if one_of c "dxcsyY~uU" then visual_apply c s
  else if one_of c "pP" then visual_paste s
  else (s, Consumed).

Definition visual (key : Str) (s : st) : st * VimOutcome :=
  let key := default key (named_key key) in
  let s' := on_vim (record key) s in
  match vs_pending (vim s) with
  | Some (Pending.VisualObject around) => normal_pending (Pending.VisualObject around) key s'
  | _ =>
      match single key with
      | None => (s, Passthrough)
      | Some c => visual_command c s'
      end
  end.

(** ** One key *)

Record ModifiersState : Type := mkModifiersState {
  md_alt : bool;
  md_ctrl : bool;
  md_command : bool;
  md_shift : bool
}.

Definition handle (fuel : nat) (key : Str) (modifiers : ModifiersState) (s : st)
    : option (st * VimOutcome) :=
  if bool_decide (key = lit "Escape") || (md_ctrl modifiers && bool_decide (key = lit "[")) then
    Some (escape s)
  else if md_command modifiers then Some (s, Passthrough)
  else if md_ctrl modifiers then
    if bool_decide (vs_mode (vim s) = Normal) && bool_decide (key = lit "r" \/ key = lit "R") then
      Some (redo s)
    else Some (s, Passthrough)
  else if md_alt modifiers then
    Some (s, if is_insert (vs_mode (vim s)) then Passthrough else Consumed)
  else
    match vs_mode (vim s) with
    | Insert => Some (insert key s)
    | Replace => Some (replace key s)
    | Normal => normal fuel key s
    | Visual _ => Some (visual key s)
    end.

(** [TextArea::vim_key]: the field builds a buffer from its value and caret and
    takes back what the outcome says changed.  The result is the field's value
    and caret, with the engine's state and the clipboard beside them. *)
Definition vim_key (fuel : nat) (key : Str) (modifiers : ModifiersState) (field : st)
    : option (st * VimOutcome) :=
  '(s, outcome) ← handle fuel key modifiers
     (on_buf (fun b => VimBuffer_new (vb_text b) (vb_caret b)) field);
  let back b :=
    match outcome with
    | Moved => mkVimBuffer (vb_text b) (vb_caret (buf s) `min` buffer_len b)
    | Edited => VimBuffer_new (vb_text (buf s)) (vb_caret (buf s))
    | Passthrough | Consumed => b
    end in
  Some (mkSt (vim s) (back (buf field)) (clip s), outcome).
End engine.
End Engine.
