(* ===== verification/VimHistory.v ===== *)
(** * [crates/goble-ui/src/vim]: the undo history

    The undo history as an abstract zipper that every key of the engine refines. *)

From S2P Require Import Prelude VimWords VimObjects Vim.

#[local] Open Scope goble_scope.

(** ** The history a key makes

    [hist] is the undo stack, the text, and the redo stack.  An edit pushes the
    text it replaces and forgets the future, [u] and Ctrl-r walk one step. *)

Module History.
Import Engine.

Notation entry := (Str * nat)%type.
Record hist : Type := mkHist { past : list entry; present : Str; future : list entry }.

(** The oldest entry goes when the history is full. *)
Definition bounded (l : list entry) : list entry :=
  if bool_decide (UNDO_LIMIT < length l) then drop 1 l else l.

Inductive step : VimOutcome -> nat -> hist -> hist -> Prop :=
| step_stay o at_ h : o <> Edited -> step o at_ h h
| step_edit at_ h text : step Edited at_ h (mkHist (bounded (past h ++ [(present h, at_)])) text [])
| step_mark at_ h : step Consumed at_ h (mkHist (bounded (past h ++ [(present h, at_)])) (present h) [])
| step_back at_ h past' text c : past h = past' ++ [(text, c)] ->
    step Edited at_ h (mkHist past' text (future h ++ [(present h, at_)]))
| step_forward at_ h future' text c : future h = future' ++ [(text, c)] ->
    step Edited at_ h (mkHist (past h ++ [(present h, at_)]) text future').

Section history.
Context `{CharCase} `{Clipboard}.

Definition abs (s : st) : hist :=
  mkHist (vs_undo (vim s)) (vb_text (buf s)) (vs_redo (vim s)).

(** What one key does to the history. *)
Definition moves (s : st) (r : st * VimOutcome) : Prop := step r.2 (caret s) (abs s) (abs r.1).

Lemma moves_stay s s' o : o <> Edited -> abs s' = abs s -> moves s (s', o).
Proof. unfold moves. simpl. intros Ho ->. by apply step_stay. Qed.

Lemma abs_snapshot s : abs (snapshot s) =
  mkHist (bounded (vs_undo (vim s) ++ [(vb_text (buf s), caret s)])) (vb_text (buf s)) [].
Proof. done. Qed.

(** A snapshot, then an edit of the text that leaves the stacks alone. *)
Lemma moves_edit s s' : vs_undo (vim s') = vs_undo (vim (snapshot s)) ->
  vs_redo (vim s') = vs_redo (vim (snapshot s)) -> moves s (s', Edited).
Proof.
  intros Hu Hr. unfold moves. simpl. unfold abs at 2. rewrite Hu, Hr. apply (step_edit _ (abs s)).
Qed.

Lemma moves_mark s s' : abs s' = abs (snapshot s) -> moves s (s', Consumed).
Proof. unfold moves. cbn [fst snd]. intros ->. rewrite abs_snapshot. apply (step_mark _ (abs s)). Qed.

(** The caret a step starts from is a register of the entry pushed, so the
    assignments before it must leave it, the text and the stacks alone. *)
Lemma moves_from s s0 r : abs s0 = abs s -> caret s0 = caret s -> moves s0 r -> moves s r.
Proof. unfold moves. by intros -> ->. Qed.

(** ** Registers *)

(** The register a name writes to, and what one write leaves in [key]. *)
Definition register_key (name : char) : char :=
  if is_ascii_uppercase name then to_ascii_lowercase name else name.

Definition appended (old : Register) (text : Str) (linewise : bool) : Register :=
  mkRegister (rg_text old
    ++ (if linewise && negb (bool_decide (last (rg_text old) = Some NEWLINE))
             && negb (bool_decide (rg_text old = [])) then [NEWLINE] else [])
    ++ text) linewise.

Definition written (name : char) (text : Str) (linewise : bool) (m : gmap char Register)
    : gmap char Register :=
  if bool_decide (name = UNDERSCORE) then m
  else
    let key := register_key name in
    let m := <[key := if is_ascii_uppercase name
                      then appended (default Register_default (m !! key)) text linewise
                      else mkRegister text linewise]> m in
    if bool_decide (key = DQUOTE) then m else <[DQUOTE := mkRegister text linewise]> m.

Lemma set_registers_set_registers m m' v :
  set_registers m (set_registers m' v) = set_registers m v.
Proof. done. Qed.

Lemma set_registers_id v : set_registers (vs_registers v) v = v.
Proof. by destruct v. Qed.

Lemma mkSt_eta s : mkSt (vim s) (buf s) (clip s) = s.
Proof. by destruct s. Qed.

Lemma write_register_shape name text linewise s : exists cb,
  write_register name text linewise s =
  mkSt (set_registers (written name text linewise (vs_registers (vim s))) (vim s)) (buf s) cb.
Proof.
  unfold write_register, written, register_key. case_bool_decide as Hu.
  { exists (clip s). by rewrite set_registers_id, mkSt_eta. }
  destruct (is_ascii_uppercase name); simpl; unfold store_register, on_vim; simpl;
    (case_bool_decide; simpl; [|rewrite set_registers_set_registers]);
    case_match; eexists; done.
Qed.

Lemma read_register_shape name s : exists text cb,
  read_register name s = (text, mkSt (vim s) (buf s) cb).
Proof.
  unfold read_register, read_clipboard. case_bool_decide; [by eexists _, _; rewrite mkSt_eta|].
  destruct (one_of name "+*").
  - destruct (clip s) as [cb|]; [destruct (cb_read cb)|]; eexists _, _; [done|by rewrite mkSt_eta].
  - destruct (_ && _); [|by eexists _, _; rewrite mkSt_eta].
    destruct (clip s) as [cb|]; [destruct (cb_read cb) as [[text|] cb']|].
    + case_bool_decide; by eexists _, _.
    + by eexists _, _.
    + by eexists _, _; rewrite mkSt_eta.
Qed.

Lemma moves_refl s o : o <> Edited -> moves s (s, o).
Proof. intros. by apply moves_stay. Qed.

(** The bookkeeping of [.] stays out of the history. *)
Lemma remember_change_frame insert v :
  vs_undo (remember_change insert v) = vs_undo v /\ vs_redo (remember_change insert v) = vs_redo v.
Proof. unfold remember_change. case_bool_decide; [|done]. by destruct insert. Qed.

Lemma abs_remember insert s : abs (on_vim (remember_change insert) s) = abs s.
Proof. unfold abs. simpl. by destruct (remember_change_frame insert (vim s)) as [-> ->]. Qed.

Lemma abs_record key s : abs (on_vim (record key) s) = abs s.
Proof. unfold abs, record. simpl. by case_bool_decide. Qed.

Lemma abs_push_count c s : abs (on_vim (push_count c) s) = abs s.
Proof. unfold abs, push_count. simpl. by case_bool_decide. Qed.

Lemma moves_remember s s' o insert :
  moves s (s', o) -> moves s (on_vim (remember_change insert) s', o).
Proof. unfold moves. simpl. by rewrite abs_remember. Qed.

(** The shapes the operations of the engine have. *)
#[local] Opaque snapshot.

Lemma apply_operator_moves operator r linewise s : moves s (apply_operator operator r linewise s).
Proof.
  unfold apply_operator, used_register. case_bool_decide; [by apply moves_stay|].
  apply (moves_from s (on_vim (set_register DQUOTE) s)); [done..|].
  generalize (on_vim (set_register DQUOTE) s) (buffer_slice r (buf (on_vim (set_register DQUOTE) s))).
  clear. intros s' text. destruct operator; cbv zeta.
  1-3: destruct (write_register_shape (vs_register (vim s)) text linewise s') as [cb ->];
    match goal with |- moves _ ?r =>
      match r with context [mkSt (set_registers ?m _)] =>
        generalize m; intros regs end end;
    apply (moves_from s' (mkSt (set_registers regs (vim s')) (buf s') cb)); [done..|];
    generalize (mkSt (set_registers regs (vim s')) (buf s') cb); clear; intros s.
  - by apply moves_remember, moves_edit.
  - by apply moves_edit.
  - by apply moves_stay.
  - unfold buffer_change_case; case_bool_decide; [by apply moves_mark|by apply moves_remember, moves_edit].
  - unfold buffer_change_case; case_bool_decide; [by apply moves_mark|by apply moves_remember, moves_edit].
  - unfold buffer_change_case; case_bool_decide; [by apply moves_mark|by apply moves_remember, moves_edit].
Qed.

Lemma move_caret_moves count step s : moves s (move_caret count step s).
Proof. unfold move_caret. case_bool_decide; by apply moves_stay. Qed.

Lemma find_move_moves motion count s : moves s (find_move motion count s).
Proof.
  unfold find_move. case_bool_decide; [by apply moves_refl|].
  case_match; by apply moves_stay.
Qed.

Lemma enter_insert_moves c s : moves s (enter_insert c s).
Proof. unfold enter_insert. repeat case_match; simplify_eq/=; by apply moves_stay. Qed.

Lemma undo_moves s : moves s (undo s).
Proof.
  unfold undo. destruct (last (vs_undo (vim s))) as [[text at_]|] eqn:Hl; [|by apply moves_refl].
  apply last_Some in Hl as [l Hl]. unfold moves. simpl. unfold abs at 2. simpl.
  rewrite Hl. rewrite removelast_last. eapply (step_back _ (abs s)); done.
Qed.

Lemma redo_moves s : moves s (redo s).
Proof.
  unfold redo. destruct (last (vs_redo (vim s))) as [[text at_]|] eqn:Hl; [|by apply moves_refl].
  apply last_Some in Hl as [l Hl]. unfold moves. simpl. unfold abs at 2. simpl.
  rewrite Hl. rewrite removelast_last. eapply (step_forward _ (abs s)); done.
Qed.

Lemma paste_moves count before s : moves s (paste count before s).
Proof.
  unfold paste, used_register.
  destruct (read_register_shape (vs_register (vim s)) (on_vim (set_register DQUOTE) s)) as (t & cb & ->).
  case_bool_decide; [by apply moves_stay|]. by apply moves_remember, moves_edit.
Qed.

(** A state that differs in the counts alone. *)
Lemma take_and_moves f s : (forall n s, moves s (f n s)) -> moves s (take_and f s).
Proof. intros Hf. unfold take_and, take_counts. by eapply moves_from; [..|apply Hf]. Qed.

Lemma g_command_moves key s : moves s (g_command key s).
Proof.
  unfold g_command. destruct (single key) as [c|]; [|by apply moves_refl].
  destruct (one_of c "g"); [apply move_caret_moves|].
  destruct (one_of c "eE"); [apply take_and_moves; intros; apply move_caret_moves|].
  destruct (one_of c "~uU"); [|by apply moves_refl].
  apply take_and_moves; intros; apply apply_operator_moves.
Qed.

Lemma insert_moves key s : moves s (insert key s).
Proof.
  unfold insert. case_bool_decide; [case_bool_decide; [by apply moves_refl|by apply moves_edit]|].
  case_bool_decide; [case_bool_decide; [by apply moves_refl|by apply moves_edit]|].
  destruct (single key); [by apply moves_edit|by apply moves_refl].
Qed.

Lemma replace_moves key s : moves s (replace key s).
Proof.
  unfold replace. destruct (single key); [|by apply moves_refl].
  unfold buffer_replace_with. case_bool_decide; [by apply moves_mark|by apply moves_edit].
Qed.

Lemma escape_frame s : abs (escape s).1 = abs s.
Proof.
  unfold escape. destruct (vs_mode (vim s)); try done.
  - by case_match.
  - unfold finish_insert, abs. simpl. case_bool_decide; [done|]. simpl. by case_bool_decide.
Qed.

Lemma escape_moves s : moves s (escape s).
Proof.
  pose proof (escape_frame s) as Ha. destruct (escape s) as [s' o] eqn:He.
  apply moves_stay; [|done]. unfold escape in He. intros ->. repeat case_match; simplify_eq.
Qed.

Lemma pending_operator_moves operator key s : moves s (pending_operator operator key s).
Proof.
  unfold pending_operator, take_counts. destruct (single key) as [c|]; [|by apply moves_stay].
  destruct (_ && _); [apply moves_stay; [done|apply (abs_push_count c)]|].
  destruct (one_of c "ia"); [by apply moves_stay|].
  destruct (one_of c "fFtT"); [by apply moves_stay|].
  set (s' := on_vim (set_pending None) (on_vim clear_counts s)).
  apply (moves_from s s'); [done..|].
  case_bool_decide; [apply apply_operator_moves|].
  case_match; [apply apply_operator_moves|by apply moves_refl].
Qed.

Lemma normal_pending_moves pending key s : moves s (normal_pending pending key s).
Proof.
  unfold normal_pending, take_counts.
  assert (forall r, moves (on_vim clear_counts (on_vim (set_pending None) s)) r -> moves s r) as Hc
    by (intros r; by apply moves_from).
  destruct pending.
  - apply pending_operator_moves.
  - apply Hc. case_match; [apply apply_operator_moves|by apply moves_refl].
  - apply (moves_from s (on_vim (set_pending None) s)); [done..|]. apply g_command_moves.
  - apply Hc. destruct (single key); [|by apply moves_refl].
    match goal with |- moves ?s0 (find_move _ _ ?s1) => apply (moves_from s0 s1); [done..|] end.
    apply find_move_moves.
  - apply Hc. destruct (single key); [|by apply moves_refl]. unfold pending_operator_find.
    case_bool_decide; [by apply moves_stay|]. case_match; [|by apply moves_stay].
    match goal with |- moves ?s0 (apply_operator _ _ _ ?s1) => apply (moves_from s0 s1); [done..|] end.
    apply apply_operator_moves.
  - apply Hc. destruct (single key); [|by apply moves_refl]. unfold buffer_replace_with.
    case_bool_decide; [by apply moves_mark|by apply moves_remember, moves_edit].
  - repeat case_match; by apply moves_stay.
  - case_match; by apply moves_stay.
Qed.

Lemma toggle_moves count n s :
  moves s (let '(s, outcome) :=
    apply_operator Operator.ToggleCase (caret s, plus_count (caret s) count n) false s in
  (if bool_decide (outcome = Edited) then set_caret (plus_count (caret s) count (n - 1)) s else s,
   outcome)).
Proof.
  pose proof (apply_operator_moves Operator.ToggleCase (caret s, plus_count (caret s) count n) false s) as Hm.
  destruct (apply_operator _ _ _ s) as [s' o]. by case_bool_decide.
Qed.

Lemma repeat_find_moves c s : moves s (repeat_find c s).
Proof.
  apply take_and_moves; intros. case_match; [apply find_move_moves|by apply moves_refl].
Qed.

Lemma undo_last s text at_ : last (vs_undo (vim s)) = Some (text, at_) ->
  vb_text (buf (undo s).1) = text /\
  exists l, vs_redo (vim (undo s).1) = l ++ [(vb_text (buf s), caret s)].
Proof. intros Hl. unfold undo. rewrite Hl. simpl. eauto. Qed.

Lemma redo_last s text at_ : last (vs_redo (vim s)) = Some (text, at_) ->
  vb_text (buf (redo s).1) = text /\
  exists l, vs_undo (vim (redo s).1) = l ++ [(vb_text (buf s), caret s)].
Proof. intros Hl. unfold redo. rewrite Hl. simpl. eauto. Qed.

#[local] Opaque apply_operator move_caret enter_insert repeat_find undo redo paste take_and.

Ltac solve_moves :=
  match goal with
  | |- moves _ (if ?b then _ else _) => destruct b; [|]
  | |- moves _ (move_caret _ _ _) => apply move_caret_moves
  | |- moves _ (apply_operator _ _ _ _) => apply apply_operator_moves
  | |- moves _ (enter_insert _ _) => apply enter_insert_moves
  | |- moves _ (repeat_find _ _) => apply repeat_find_moves
  | |- moves _ (undo _) => apply undo_moves
  | |- moves _ (paste _ _ _) => apply paste_moves
  | |- moves _ (take_and _ _) => apply take_and_moves; intros
  | |- moves _ (_, _) => apply moves_stay; done
  | |- moves _ (let '(_, _) := apply_operator _ _ _ _ in _) => apply toggle_moves
  end.

Lemma plain_command_moves c s : moves s (plain_command c s).
Proof.
  unfold plain_command, move_left, move_right, move_word, move_bracket, pend.
  repeat solve_moves.
Qed.

Lemma visual_apply_moves c s : moves s (visual_apply c s).
Proof.
  unfold visual_apply. apply (moves_from s (on_vim (set_mode Normal) s)); [done..|].
  case_match; [apply apply_operator_moves|by apply moves_refl].
Qed.

Lemma visual_paste_moves s : moves s (visual_paste s).
Proof.
  unfold visual_paste, used_register, take_counts.
  destruct (read_register_shape (vs_register (vim s)) (on_vim (set_register DQUOTE) s)) as (t & cb & ->).
  case_match; [|by apply moves_stay].
  match goal with |- context [snapshot ?s0] => apply (moves_from s s0); [done..|] end.
  by apply moves_remember, moves_edit.
Qed.

Lemma visual_command_moves c s : moves s (visual_command c s).
Proof.
  unfold visual_command, move_left, move_right, move_word, move_bracket, pend.
  repeat match goal with
  | |- moves _ (visual_apply _ _) => apply visual_apply_moves
  | |- moves _ (visual_paste _) => apply visual_paste_moves
  | _ => solve_moves
  end.
Qed.

Lemma moves_record key s r : moves (on_vim (record key) s) r -> moves s r.
Proof. apply moves_from; [apply abs_record|done]. Qed.

Lemma visual_moves key s : moves s (visual key s).
Proof.
  unfold visual. set (key' := default key (named_key key)).
  assert (moves s match single key' with
                  | Some c => visual_command c (on_vim (record key') s)
                  | None => (s, Passthrough)
                  end) as Hc.
  { destruct (single key'); [apply (moves_record key'), visual_command_moves|by apply moves_refl]. }
  destruct (vs_pending (vim s)) as [[]|]; try exact Hc.
  apply (moves_record key'), normal_pending_moves.
Qed.

(** ** Keys, [.] included *)

Definition any_step (h h' : hist) : Prop := exists o at_, step o at_ h h'.

Lemma moves_any s r : moves s r -> rtc any_step (abs s) (abs r.1).
Proof. intros Hm. apply rtc_once. by exists r.2, (caret s). Qed.

(** The key is [.] as a command. *)
Definition replays (key : Str) (s : st) : Prop :=
  vs_mode (vim s) = Normal /\ vs_pending (vim s) = None /\ key = lit ".".

Lemma normal_with_moves dot key s r : normal_with dot key s = Some r ->
  moves s r \/ (vs_pending (vim s) = None /\ key = lit "." /\ dot (on_vim (record key) s) = Some r).
Proof.
  unfold normal_with. set (key' := default key (named_key key)).
  destruct (vs_pending (vim s)) as [pending|].
  { intros [= <-]. left. apply (moves_record key'), normal_pending_moves. }
  destruct (single key') as [c|] eqn:Hs; [|intros [= <-]; left; by apply moves_refl].
  destruct (_ && _).
  { intros [= <-]. left. apply (moves_record key'), moves_stay; [done|apply abs_push_count]. }
  unfold normal_command. destruct (one_of c ".") eqn:Hc.
  - intros Hd. right. apply one_of_spec, list_elem_of_singleton in Hc. subst c.
    assert (key' = lit ".") as Hk' by (by destruct key' as [|? []]; simplify_eq/=).
    assert (key = key') as Hk by (revert Hk'; unfold key', named_key; by repeat case_bool_decide).
    rewrite Hk. by rewrite Hk' in Hd |- *.
  - intros [= <-]. left. apply (moves_record key'), plain_command_moves.
Qed.

(** What every key of a replay keeps, the replay keeps: a preorder on the engine's
    states closed under the pieces [normal] is made of is closed under [normal]. *)
Section closed.
Context (R : relation st) `{!PreOrder R}.
Context (R_insert : forall key s, R s (insert key s).1)
  (R_escape : forall s, R s (escape s).1)
  (R_record : forall key s, R s (on_vim (record key) s))
  (R_count : forall c s, R s (on_vim (push_count c) s))
  (R_pending : forall pending key s, R s (normal_pending pending key s).1)
  (R_command : forall c s, R s (plain_command c s).1)
  (R_start : forall n s, R s (mkSt (set_replaying n (clear_counts (vim s))) (buf s) None))
  (R_end : forall n change cb s,
    R s (mkSt (set_last_change change (set_replaying n (vim s))) (buf s) cb)).

Lemma replay_keys_closed normal keys s o r :
  (forall key s r, normal key s = Some r -> R s r.1) ->
  replay_keys normal keys s o = Some r -> R s r.1.
Proof using R PreOrder0.
  intros Hn. unfold replay_keys.
  assert (forall acc, (forall r, acc = Some r -> R s r.1) ->
    forall r, foldl (fun acc key => '(s, _) ← acc; normal key s) acc keys = Some r -> R s r.1) as Hf.
  { induction keys as [|key keys IH]; intros acc Ha r' Hr; simpl in Hr; [by apply Ha|].
    eapply IH; [|exact Hr]. intros r'' Hr''. destruct acc as [[s1 o1]|]; simpl in Hr''; [|done].
    etrans; [apply (Ha _ eq_refl)|by eapply Hn]. }
  apply Hf. by intros ? [= <-].
Qed.

Lemma typed_closed text s o : R s (foldl (fun '(s, _) c => insert [c] s) (s, o) text).1.
Proof using R PreOrder0 R_insert.
  revert s o. induction text as [|c text IH]; intros s o; simpl; [done|].
  pose proof (R_insert [c] s) as Hm. destruct (insert [c] s) as [s' o'].
  etrans; [exact Hm|apply IH].
Qed.

Lemma replay_once_closed normal change s o r :
  (forall key s r, normal key s = Some r -> R s r.1) ->
  replay_once normal change s o = Some r -> R s r.1.
Proof using R PreOrder0 R_insert R_escape.
  intros Hn. unfold replay_once.
  destruct (replay_keys normal (lc_keys change) s o) as [[s1 o1]|] eqn:Hk; [|done].
  apply replay_keys_closed in Hk; [|done]. simpl in Hk |- *.
  pose proof (typed_closed (lc_insert change) s1 o1) as Ht.
  destruct (foldl _ (s1, o1) (lc_insert change)) as [s2 o2]. intros [= <-]. simpl in *.
  etrans; [exact Hk|]. etrans; [exact Ht|].
  case_bool_decide; [apply R_escape|done].
Qed.

Lemma dot_closed normal s r :
  (forall key s r, normal key s = Some r -> R s r.1) -> dot normal s = Some r -> R s r.1.
Proof using R PreOrder0 R_insert R_escape R_start R_end.
  intros Hn. unfold dot, take_counts.
  destruct (vs_last_change (vim s)) as [change|]; [|by intros [= <-]].
  match goal with |- context [Some (?s0, Consumed)] => set (start := s0) end.
  assert (R s start) as Hs by (exact (R_start (vs_replaying (vim s) + 1) s)).
  assert (forall n r, N.iter n (fun acc => '(s, o) ← acc; replay_once normal change s o)
    (Some (start, Consumed)) = Some r -> R start r.1) as Hi.
  { intros n. induction n as [|n IH] using N.peano_ind; [by intros r' [= <-]|].
    rewrite N.iter_succ. intros r' Hr.
    destruct (N.iter n _ _) as [[s1 o1]|]; simpl in Hr; [|done].
    etrans; [apply (IH _ eq_refl)|by eapply replay_once_closed]. }
  destruct (N.iter _ _ _) as [[s1 o1]|] eqn:Hr; simpl; [|done]. apply Hi in Hr.
  intros [= <-]. etrans; [exact Hs|]. etrans; [exact Hr|].
  exact (R_end (vs_replaying (vim s1) - 1) (Some change) (clip s) s1).
Qed.

Lemma normal_with_closed dot key s r : (forall s r, dot s = Some r -> R s r.1) ->
  normal_with dot key s = Some r -> R s r.1.
Proof using R PreOrder0 R_record R_count R_pending R_command.
  intros Hd. unfold normal_with. set (key' := default key (named_key key)).
  pose proof (R_record key' s) as Hrec.
  destruct (vs_pending (vim s)) as [pending|].
  { intros [= <-]. etrans; [exact Hrec|apply R_pending]. }
  destruct (single key') as [c|]; [|by intros [= <-]].
  destruct (_ && _).
  { intros [= <-]. etrans; [exact Hrec|apply R_count]. }
  unfold normal_command. destruct (one_of c ".").
  - intros Hr%Hd. by etrans.
  - intros [= <-]. etrans; [exact Hrec|apply R_command].
Qed.

Lemma normal_closed fuel key s r : normal fuel key s = Some r -> R s r.1.
Proof.
  revert key s r. induction fuel as [|fuel IH]; intros key s r; cbn [normal];
    apply normal_with_closed; [done|]. intros s' r'. by apply dot_closed.
Qed.
End closed.

Lemma normal_steps fuel key s r : normal fuel key s = Some r -> rtc any_step (abs s) (abs r.1).
Proof.
  assert (PreOrder (fun s s' => rtc any_step (abs s) (abs s'))) as Hpre
    by (split; [by intros ?|intros ???; apply transitivity]).
  apply (normal_closed (fun s s' => rtc any_step (abs s) (abs s'))); intros;
    try (by apply moves_any, insert_moves || by apply moves_any, escape_moves
      || by apply moves_any, normal_pending_moves || by apply moves_any, plain_command_moves).
  - by rewrite abs_record.
  - by rewrite abs_push_count.
  - done.
  - done.
Qed.

Lemma handle_cases fuel key modifiers s r : handle fuel key modifiers s = Some r ->
  moves s r \/ (replays key s /\ normal fuel key s = Some r).
Proof.
  unfold handle. repeat case_match; intros Hr; simplify_eq;
    try (left; apply escape_moves || apply redo_moves || apply insert_moves || apply replace_moves
      || apply visual_moves); try (left; by apply moves_refl).
  destruct fuel as [|fuel]; pose proof Hr as Hn; simpl in Hr;
    apply normal_with_moves in Hr as [Hm|(Hp & Hk & Hd)]; try (by left); right; by split_and!.
Qed.

(** C3: Undo is a zipper and every key walks it: whatever is pressed, in whatever
    mode, the undo stack, the text and the redo stack evolve by edits that push the
    text they replace (at most [UNDO_LIMIT] of them kept) and by single steps back
    and forward; and a key other than [.] makes exactly one such step, which
    changes the text only when the key reports [Edited]. *)
Theorem handle_refines_history (fuel : nat) (key : Str) (modifiers : ModifiersState) (s : st)
    (r : st * VimOutcome) (Hr : handle fuel key modifiers s = Some r) :
  rtc any_step (abs s) (abs r.1) /\ (~ replays key s -> step r.2 (caret s) (abs s) (abs r.1)).
Proof.
  apply handle_cases in Hr as [Hm|[Hk Hn]].
  - split; [by apply moves_any|done].
  - split; [by apply normal_steps in Hn|done].
Qed.

Lemma step_text_kept o at_ h h' : step o at_ h h' -> o <> Edited -> present h' = present h.
Proof. by destruct 1. Qed.

Lemma last_bounded l e : last (bounded (l ++ [e])) = Some e.
Proof.
  unfold bounded. case_bool_decide; [|apply last_snoc].
  destruct l as [|x l]; simpl; [|apply last_snoc]. unfold UNDO_LIMIT in *. simpl in *. lia.
Qed.

(** Every edit can be taken back and made again: after a key that reports
    [Edited] (any but [.], which makes several), [u] brings back the text from
    before it and Ctrl-r makes the edit again; after [u] itself it is Ctrl-r that
    brings the text back, and [u] that undoes again. *)
Theorem edit_is_reversible (fuel : nat) (key : Str) (modifiers : ModifiersState) (s s' : st)
    (Hr : handle fuel key modifiers s = Some (s', Edited)) (Hk : ~ replays key s) :
  exists back forth, (back, forth) ∈ [(undo, redo); (redo, undo)] /\
    vb_text (buf (back s').1) = vb_text (buf s) /\
    vb_text (buf (forth (back s').1).1) = vb_text (buf s').
Proof.
  assert (moves s (s', Edited)) as Hm.
  { apply handle_cases in Hr as [Hm|[Hk' _]]; [done|by destruct (Hk Hk')]. }
  unfold moves in Hm. simpl in Hm.
  assert (exists h', step Edited (caret s) (abs s) h' /\ vs_undo (vim s') = past h' /\
    vs_redo (vim s') = future h') as (h' & Hs & Hu & Hf) by (by exists (abs s')). clear Hm.
  assert (forall text at_, last (past h') = Some (text, at_) -> text = vb_text (buf s) ->
    exists back forth, (back, forth) ∈ [(undo, redo); (redo, undo)] /\
    vb_text (buf (back s').1) = vb_text (buf s) /\
    vb_text (buf (forth (back s').1).1) = vb_text (buf s')) as Hundo.
  { intros text at_ Hl ->. rewrite <- Hu in Hl. destruct (undo_last s' _ _ Hl) as [Ht [l Hl']].
    exists undo, redo. split; [set_solver|]. split; [done|].
    by eapply (redo_last (undo s').1); rewrite Hl', last_snoc. }
  inversion Hs; subst; simpl in *; [done| | |].
  - by eapply Hundo; [apply last_bounded|].
  - assert (last (vs_redo (vim s')) = Some (vb_text (buf s), caret s)) as Hl
      by (by rewrite Hf, last_snoc).
    destruct (redo_last s' _ _ Hl) as [Ht [l Hl']].
    exists redo, undo. split; [set_solver|]. split; [done|].
    by eapply (undo_last (redo s').1); rewrite Hl', last_snoc.
  - by eapply Hundo; [apply last_snoc|].
Qed.

End history.
End History.

(** ** Concrete runs *)

Module HistoryWitness.
Import Engine.
#[local] Existing Instance ascii_case.
#[local] Existing Instance demo_clipboard.

Definition no_modifiers : ModifiersState := mkModifiersState false false false false.
Definition typed : st := mkSt (set_mode Normal VimState_new) (mkVimBuffer (lit "abc") 1) None.
Definition after_x : st :=
  from_option fst typed (handle 0 (lit "x") no_modifiers typed).

Lemma x_runs : handle 0 (lit "x") no_modifiers typed = Some (after_x, Edited).
Proof. reflexivity. Qed.

Lemma handle_refines_history_witness :
  vb_text (buf after_x) = lit "ac" /\
  rtc History.any_step (History.abs typed) (History.abs after_x).
Proof.
  split; [vm_compute; reflexivity|].
  exact (proj1 (History.handle_refines_history 0 (lit "x") no_modifiers typed (after_x, Edited) x_runs)).
Defined.

Lemma edit_is_reversible_witness :
  exists back forth, (back, forth) ∈ [(undo, redo); (redo, undo)] /\
    vb_text (buf (back after_x).1) = lit "abc" /\
    vb_text (buf (forth (back after_x).1).1) = lit "ac".
Proof.
  exact (History.edit_is_reversible 0 (lit "x") no_modifiers typed after_x x_runs
    ltac:(intros (_ & _ & Hk); discriminate Hk)).
Defined.
End HistoryWitness.
