(* ===== verification/VimEdit.v ===== *)
(** * [crates/goble-ui/src/vim]: ranges, operators and registers

    The ranges motions and text objects hand to an operator lie in the text, an
    operator changes that range and nothing else, and what it deleted can be put
    back. *)

From S2P Require Import Prelude VimWords VimObjects Vim VimHistory.
Import Engine.

#[local] Open Scope goble_scope.

(** ** Ranges *)

Module RangeProps.
Import ObjectProps.

Lemma normal_caret_lt c n : 0 < n -> normal_caret c n < n.
Proof. intros. unfold normal_caret. case_bool_decide; lia. Qed.

Lemma normal_caret_le c n : normal_caret c n <= n.
Proof. unfold normal_caret. case_bool_decide; lia. Qed.

Lemma normal_caret_idemp c n : normal_caret (normal_caret c n) n = normal_caret c n.
Proof. unfold normal_caret. repeat case_bool_decide; lia. Qed.

Lemma plus_count_bounds a count n : a <= n -> a <= plus_count a count n <= n.
Proof. unfold plus_count. lia. Qed.

Lemma minus_count_le a count : minus_count a count <= a.
Proof. unfold minus_count. lia. Qed.

Lemma iter_invariant {A} (P : A -> Prop) f (n : N) x :
  P x -> (forall y, P y -> P (f y)) -> P (N.iter n f x).
Proof.
  intros Hx Hf. induction n as [|n IH] using N.peano_ind; [done|]. rewrite N.iter_succ. auto.
Qed.

Section ranges.
Context (chars : list char).
Notation len := (length chars).

Lemma matching_bracket_lt at_ b opens j : at_ < len ->
  matching_bracket chars at_ b opens = Some j -> j < len.
Proof.
  intros Hat Hm. destruct opens.
  - pose proof (BracketProps.matching_forward chars b at_) as H. rewrite Hm in H. lia.
  - pose proof (BracketProps.matching_backward chars b at_) as H. rewrite Hm in H. lia.
Qed.

Lemma word_end_forward_ge at_ kind : at_ < len -> at_ <= word_end_forward chars at_ kind < len.
Proof.
  intros Hat. destruct (word_end_forward_exact chars kind at_ Hat) as [(? & [? _] & _)|[-> _]]; lia.
Qed.

Lemma repeat_motion_invariant (P : nat -> Prop) count at_ step :
  P at_ -> (forall i, P i -> P (step i)) -> P (repeat_motion count at_ step).
Proof. apply iter_invariant. Qed.

Lemma find_forward_Some fuel target count seen i j :
  find_forward fuel chars target count seen i = Some j -> i <= j < len.
Proof.
  revert seen i. induction fuel as [|fuel IH]; intros seen i; simpl; [done|].
  repeat case_bool_decide; intros Hj; simplify_eq; try lia; apply IH in Hj; lia.
Qed.

Lemma find_backward_Some target count seen i j :
  find_backward chars target count seen i = Some j -> j < i.
Proof.
  revert seen. induction i as [|i IH]; intros seen; simpl; [done|].
  repeat case_bool_decide; intros Hj; simplify_eq; try lia; apply IH in Hj; lia.
Qed.

Lemma find_index_Some at_ motion count j : at_ < len -> find_index chars at_ motion count = Some j ->
  (if fm_forward motion then at_ < j else j < at_) /\ j < len.
Proof.
  intros Hat. unfold find_index. destruct (fm_forward motion); intros Hj.
  - apply find_forward_Some in Hj. lia.
  - apply find_backward_Some in Hj. lia.
Qed.

(** A range the caret bounds: what an operator takes from a motion. *)
Lemma find_operator_range_around at_ motion count j : at_ < len ->
  find_index chars at_ motion count = Some j ->
  around chars at_ (find_operator_range at_ j motion len).
Proof.
  intros Hat Hj. apply find_index_Some in Hj; [|done]. unfold find_operator_range, around.
  destruct (fm_forward motion), (fm_before motion); simpl; lia.
Qed.
End ranges.

Lemma motion_range_around c count last_find b change r :
  motion_range c count last_find b change = Some r ->
  around (vb_text b) (normal_caret (vb_caret b) (buffer_len b)) r.
Proof.
  unfold motion_range, buffer_len. case_bool_decide as Hne; [done|].
  set (chars := vb_text b) in *. cbv zeta.
  assert (0 < length chars) as Hlen by (destruct chars; [done|simpl; lia]).
  pose proof (normal_caret_lt (vb_caret b) (length chars) Hlen) as Hc.
  set (at_ := normal_caret (vb_caret b) (length chars)) in *. unfold around.
  pose proof (plus_count_bounds at_ count (length chars) ltac:(lia)).
  pose proof (minus_count_le at_ count).
  assert (forall kind, at_ <= repeat_motion count at_ (fun i => word_end_forward chars i kind) < length chars)
    as Hend.
  { intros kind. apply repeat_motion_invariant; [lia|]. intros i Hi.
    pose proof (word_end_forward_ge chars i kind ltac:(lia)). lia. }
  assert (forall kind, repeat_motion count at_ (fun i => word_start_forward chars i kind) <= length chars)
    as Hstart.
  { intros kind. apply repeat_motion_invariant; [lia|]. intros i Hi.
    pose proof (word_start_forward_le chars kind i). lia. }
  assert (forall kind, repeat_motion count at_ (fun i => word_start_backward chars i kind) <= at_) as Hback.
  { intros kind. apply repeat_motion_invariant; [lia|]. intros i Hi.
    pose proof (word_start_backward_le chars kind i). lia. }
  assert (first_non_blank chars < length chars) as Hblank.
  { unfold first_non_blank. destruct (position _ chars) eqn:Hp; simpl; [by eapply position_lt|done]. }
  destruct (one_of c "h"); [intros [= <-]; simpl; lia|].
  destruct (one_of c "l "); [intros [= <-]; simpl; lia|].
  destruct (one_of c "wW").
  { specialize (Hend (word_kind c)). specialize (Hstart (word_kind c)).
    destruct change; intros [= <-]; simpl; lia. }
  destruct (one_of c "bB"); [specialize (Hback (word_kind c)); intros [= <-]; simpl; lia|].
  destruct (one_of c "eE"); [specialize (Hend (word_kind c)); intros [= <-]; simpl; lia|].
  destruct (one_of c "0"); [intros [= <-]; simpl; lia|].
  destruct (one_of c "^"); [intros [= <-]; simpl; lia|].
  destruct (one_of c "$"); [intros [= <-]; simpl; lia|].
  destruct (one_of c "%").
  { unfold matching_bracket_index. intros (j & Hj & [= <-])%bind_Some.
    apply bind_Some in Hj as (ch & _ & Hj). apply bind_Some in Hj as ([br opening] & _ & Hj).
    apply matching_bracket_lt in Hj; [|done]. simpl. lia. }
  destruct (one_of c ";,"); [|done].
  intros (motion & _ & (j & Hj & [= <-])%bind_Some)%bind_Some. by eapply find_operator_range_around.
Qed.

Lemma text_object_valid c around change b r :
  text_object c around change b = Some r -> valid (vb_text b) r.
Proof.
  unfold text_object. case_bool_decide as Hne; [done|]. set (chars := vb_text b) in *. cbv zeta.
  assert (0 < length chars) as Hlen by (destruct chars; [done|simpl; lia]).
  pose proof (normal_caret_lt (vb_caret b) (length chars) Hlen) as Hc.
  set (at_ := normal_caret (vb_caret b) (length chars)) in *.
  assert (forall r, ObjectProps.around chars at_ r -> valid chars r) as Har.
  { unfold ObjectProps.around, valid. lia. }
  assert (forall r, r.1 + 2 <= r.2 /\ r.2 <= length chars -> valid chars r) as H2 by (unfold valid; lia).
  destruct (one_of c "w"); [destruct around; intros Hr; apply Har;
    [by eapply a_word_around|by eapply inner_word_around]|].
  destruct (one_of c "W"); [destruct around; intros Hr; apply Har;
    [by eapply a_word_around|by eapply inner_word_around]|].
  destruct (one_of c "p"); [destruct around; [apply a_paragraph_valid|apply inner_paragraph_valid]|].
  case_bool_decide.
  - intros (q & _ & Hr)%bind_Some. destruct around; [by eapply H2, a_quote_valid|by eapply inner_quote_valid].
  - intros ([br opening] & _ & Hr)%bind_Some. destruct around; [|by eapply inner_block_valid].
    destruct r as [s0 e0]. apply BracketProps.a_block_pair in Hr as (_ & _ & _ & [? _]).
    unfold valid. simpl. lia.
Qed.

(** An operator never leaves the text: the range a motion hands it contains the
    caret and lies inside the text, and so does the range of every text object --
    whatever the count, the key and the text. *)
Theorem operator_ranges_in_bounds (c : char) (count : N) (last_find : option FindMotion)
    (inner_or_around change : bool) (b : VimBuffer) :
  (forall r, motion_range c count last_find b change = Some r ->
    r.1 <= normal_caret (vb_caret b) (buffer_len b) <= r.2 /\ r.2 <= buffer_len b) /\
  (forall r, text_object c inner_or_around change b = Some r -> r.1 <= r.2 <= buffer_len b).
Proof.
  split; intros r Hr.
  - apply motion_range_around in Hr as (? & ? & ?). done.
  - by apply text_object_valid in Hr as [? ?].
Qed.
End RangeProps.

(** ** Operators *)

Module OperatorProps.
Import History.
Section operators.
Context `{CharCase} `{Clipboard}.
Notation text s := (vb_text (buf s)).

(** What an operator leaves of the characters it takes. *)
Definition transform (operator : Operator.t) (taken : Str) : Str :=
  match operator with
  | Operator.Delete | Operator.Change => []
  | Operator.Yank => taken
  | Operator.ToggleCase => case_char Case.Toggle <$> taken
  | Operator.Lowercase => case_char Case.Lower <$> taken
  | Operator.Uppercase => case_char Case.Upper <$> taken
  end.

Definition takes_register (operator : Operator.t) : bool :=
  match operator with
  | Operator.Delete | Operator.Change | Operator.Yank => true
  | _ => false
  end.

Lemma take_slice_drop (chars : list char) (r : range) : r.1 <= r.2 ->
  take r.1 chars ++ slice chars r ++ drop r.2 chars = chars.
Proof.
  intros Hr. unfold slice. replace (drop r.2 chars) with (drop (r.2 - r.1) (drop r.1 chars)).
  - by rewrite take_drop, take_drop.
  - rewrite drop_drop. f_equal. lia.
Qed.

Lemma buffer_slice_valid (r : range) b : r.1 < r.2 -> r.2 <= buffer_len b ->
  buffer_slice r b = slice (vb_text b) r /\ slice (vb_text b) r <> [].
Proof.
  intros Hlt Hle. unfold buffer_slice, buffer_len in *. rewrite !Nat.min_l by lia.
  rewrite bool_decide_false by lia. split; [by destruct r|].
  intros Heq%(f_equal length). unfold slice in Heq. rewrite length_take, length_drop in Heq. simpl in *. lia.
Qed.

Lemma buffer_delete_valid (r : range) b : r.1 < r.2 -> r.2 <= buffer_len b ->
  buffer_delete r b = mkVimBuffer (take r.1 (vb_text b) ++ drop r.2 (vb_text b)) r.1.
Proof.
  intros Hlt Hle. unfold buffer_delete, buffer_len, drain in *. rewrite !Nat.min_l by lia.
  by rewrite bool_decide_false by lia.
Qed.

Lemma buffer_change_case_valid (r : range) case b : r.1 < r.2 -> r.2 <= buffer_len b ->
  buffer_change_case r case b =
  (mkVimBuffer (take r.1 (vb_text b) ++ (case_char case <$> slice (vb_text b) r) ++ drop r.2 (vb_text b)) r.1,
   true).
Proof.
  intros Hlt Hle. unfold buffer_change_case, buffer_len, map_slice in *. rewrite !Nat.min_l by lia.
  rewrite bool_decide_false by lia. by destruct r.
Qed.

(** The state an operator leaves the engine in. *)
Definition operated (operator : Operator.t) (taken : Str) (linewise : bool) (v v' : VimState) : Prop :=
  vs_registers v' = (if takes_register operator
                     then written (vs_register v) taken linewise (vs_registers v)
                     else vs_registers v) /\
  vs_register v' = DQUOTE /\
  match operator with
  | Operator.Yank => v' = v |> set_register DQUOTE |> set_registers (vs_registers v')
  | Operator.Change =>
      vs_mode v' = Insert /\ vs_insert_keys v' = vs_command v /\ vs_insert_text v' = [] /\
      vs_command v' = [] /\ vs_last_change v' = vs_last_change v
  | _ =>
      vs_mode v' = vs_mode v /\
      (vs_replaying v = 0%N ->
       vs_last_change v' = Some (mkLastChange (vs_command v) (vs_insert_text v)) /\ vs_command v' = []) /\
      (vs_replaying v <> 0%N -> vs_last_change v' = vs_last_change v /\ vs_command v' = vs_command v)
  end.

Lemma remember_change_None v :
  (vs_replaying v = 0%N ->
     vs_last_change (remember_change None v) = Some (mkLastChange (vs_command v) (vs_insert_text v)) /\
     vs_command (remember_change None v) = []) /\
  (vs_replaying v <> 0%N -> remember_change None v = v) /\
  vs_registers (remember_change None v) = vs_registers v /\
  vs_register (remember_change None v) = vs_register v /\
  vs_mode (remember_change None v) = vs_mode v.
Proof. unfold remember_change. case_bool_decide; split_and!; intros; done. Qed.

(** An operator changes its range and nothing else: on a range of the text,
    [d] and [c] remove it, [y] leaves it, the case operators map it character by
    character, and the text before and after is untouched; the caret is left at the
    start of the range, [d], [c] and [y] put the range in the register the command
    named, which goes back to the unnamed one, [c] opens an insert session, and the
    command's keys become what [.] repeats. *)
Theorem apply_operator_exact (operator : Operator.t) (r : range) (linewise : bool) (s : st)
    (Hlt : r.1 < r.2) (Hle : r.2 <= len s) :
  let s' := (apply_operator operator r linewise s).1 in
  let taken := slice (text s) r in
  text s' = take r.1 (text s) ++ transform operator taken ++ drop r.2 (text s) /\
  caret s' = r.1 /\
  operated operator taken linewise (vim s) (vim s') /\
  (apply_operator operator r linewise s).2 = (if bool_decide (operator = Operator.Yank) then Moved else Edited).
Proof.
  unfold apply_operator, used_register. cbv zeta.
  destruct (buffer_slice_valid r (buf s) Hlt Hle) as [Hs Hne].
  change (buf (on_vim (set_register DQUOTE) s)) with (buf s). rewrite Hs.
  rewrite bool_decide_false by done. set (taken := slice (text s) r) in *.
  destruct (write_register_shape (vs_register (vim s)) taken linewise (on_vim (set_register DQUOTE) s)) as [cb Hw].
  destruct operator; unfold operated; cbn [takes_register transform];
    try rewrite Hw; try rewrite buffer_change_case_valid by done; unfold caret; simpl;
    rewrite ?buffer_delete_valid by done; simpl.
  2: split_and!; done.
  2:{ split_and!; try done. by rewrite take_slice_drop by lia. }
  all: match goal with |- context [remember_change None ?v] =>
      pose proof (remember_change_None v) as (H1 & H2 & H3 & H4 & H5); simpl in * end.
  all: split_and!; try done; try (by rewrite H3); try (by rewrite H4); try (by rewrite H5).
  all: intros Hr; by rewrite H2.
Qed.

(** ** Registers *)

(** The unnamed register holds whatever was written last, under any name but [_]. *)
Lemma written_unnamed name content linewise m : name <> UNDERSCORE ->
  written name content linewise m !! DQUOTE = Some (mkRegister content linewise).
Proof.
  intros Hn. unfold written. rewrite bool_decide_false by done. cbv zeta.
  case_bool_decide as Hk; [|by rewrite lookup_insert_eq].
  rewrite Hk, lookup_insert_eq. unfold register_key in Hk.
  destruct (is_ascii_uppercase name) eqn:Hu; [|done].
  unfold to_ascii_lowercase in Hk. rewrite Hu in Hk. unfold is_ascii_uppercase, DQUOTE in *.
  apply andb_true_iff in Hu as [?%N.leb_le ?%N.leb_le]. lia.
Qed.

Lemma iter_one_repeat content : repeat_text (N.max 1 1) content = content.
Proof. unfold repeat_text. simpl. by rewrite app_nil_r. Qed.

Lemma delete_state (r : range) linewise s : r.1 < r.2 -> r.2 <= len s ->
  let s' := (apply_operator Operator.Delete r linewise s).1 in
  buf s' = mkVimBuffer (take r.1 (text s) ++ drop r.2 (text s)) r.1 /\
  vs_registers (vim s') = written (vs_register (vim s)) (slice (text s) r) linewise (vs_registers (vim s)) /\
  vs_register (vim s') = DQUOTE /\
  vs_unnamed_clipboard (vim s') = vs_unnamed_clipboard (vim s).
Proof.
  intros Hlt Hle. destruct (buffer_slice_valid r (buf s) Hlt Hle) as [Hs Hne].
  unfold apply_operator, used_register. cbv zeta.
  change (buf (on_vim (set_register DQUOTE) s)) with (buf s). rewrite Hs, bool_decide_false by done.
  destruct (write_register_shape (vs_register (vim s)) (slice (text s) r) linewise
    (on_vim (set_register DQUOTE) s)) as [cb Hw]. rewrite Hw. simpl.
  rewrite buffer_delete_valid by done.
  match goal with |- context [remember_change None ?v] =>
    destruct (remember_change_None v) as (_ & _ & -> & -> & _);
    assert (vs_unnamed_clipboard (remember_change None v) = vs_unnamed_clipboard v) as ->
      by (unfold remember_change; by case_bool_decide) end.
  done.
Qed.

Lemma paste_unnamed before content lw s : vs_register (vim s) = DQUOTE ->
  vs_unnamed_clipboard (vim s) = false ->
  vs_registers (vim s) !! DQUOTE = Some (mkRegister content lw) -> content <> [] ->
  let at_ := normal_caret (caret s) (len s) in
  let at_ := if (before : bool) then at_ else (at_ + 1) `min` len s in
  buf (paste 1 before s).1 =
  mkVimBuffer (take at_ (text s) ++ content ++ drop at_ (text s))
    (normal_caret (at_ + length content - 1) (length content + len s)).
Proof.
  intros Hr Hu Hm Hne. cbv zeta. unfold paste, used_register, read_register. rewrite Hr.
  rewrite bool_decide_false by done. replace (one_of DQUOTE "+*") with false by done.
  change (vim (on_vim (set_register DQUOTE) s)) with (set_register DQUOTE (vim s)).
  change (vs_unnamed_clipboard (set_register DQUOTE (vim s))) with (vs_unnamed_clipboard (vim s)).
  change (vs_registers (set_register DQUOTE (vim s))) with (vs_registers (vim s)).
  rewrite Hm, Hu, andb_false_r. cbn [default rg_text]. cbv zeta. rewrite bool_decide_false by done.
  rewrite iter_one_repeat. unfold caret, len, buffer_len, set_caret, buffer_insert. simpl.
  set (c := normal_caret (vb_caret (buf s)) (length (text s))).
  assert (c <= length (text s)) by apply RangeProps.normal_caret_le.
  set (a := if before then c else _). assert (a <= length (text s)) by (unfold a; destruct before; lia).
  unfold buffer_len. rewrite Nat.min_l by lia. f_equal. f_equal.
  rewrite !length_app, length_take, length_drop. lia.
Qed.

(** What was deleted can be put back: after [d] on a range of the text, whatever
    register it went to, [P] restores the text when something follows the range, and
    [p] when the range ended the text, and the caret lands on the last character put
    -- with the system clipboard kept out of the unnamed register. *)
Theorem delete_then_put_restores (r : range) (linewise : bool) (s : st)
    (Hlt : r.1 < r.2) (Hle : r.2 <= len s)
    (Hname : vs_register (vim s) <> UNDERSCORE) (Hclip : vs_unnamed_clipboard (vim s) = false) :
  let s' := (apply_operator Operator.Delete r linewise s).1 in
  let s'' := (paste 1 (bool_decide (r.2 < len s)) s').1 in
  text s'' = text s /\ caret s'' = r.2 - 1.
Proof.
  cbv zeta. destruct (delete_state r linewise s Hlt Hle) as (Hb & Hm & Hr & Hu).
  set (s' := (apply_operator Operator.Delete r linewise s).1) in *.
  destruct (buffer_slice_valid r (buf s) Hlt Hle) as [_ Hne].
  rewrite Hclip in Hu. pose proof (written_unnamed _ (slice (text s) r) linewise (vs_registers (vim s)) Hname)
    as Hw. rewrite <- Hm in Hw.
  pose proof (paste_unnamed (bool_decide (r.2 < len s)) _ _ s' Hr Hu Hw Hne) as Hp. cbv zeta in Hp.
  unfold caret at 1. rewrite Hp. simpl. clear Hp.
  assert (length (slice (text s) r) = r.2 - r.1) as Hls.
  { unfold slice. rewrite length_take, length_drop. unfold len, buffer_len in Hle. lia. }
  assert (len s' = r.1 + (len s - r.2)) as Hl.
  { unfold len, buffer_len in *. rewrite Hb. simpl. rewrite length_app, length_take, length_drop. lia. }
  assert (caret s' = r.1) as Hc by (unfold caret; by rewrite Hb).
  match goal with |- take ?x _ ++ _ = _ /\ _ => assert (x = r.1) as -> end.
  { rewrite Hc, Hl. unfold normal_caret. repeat case_bool_decide; lia. }
  rewrite Hls, Hl. rewrite Hb. simpl. split.
  - rewrite take_app_le, drop_app_le by (rewrite length_take; unfold len, buffer_len in Hle; lia).
    rewrite take_take, Nat.min_id, skipn_firstn_comm, Nat.sub_diag. simpl.
    apply take_slice_drop. lia.
  - unfold normal_caret. rewrite bool_decide_false by lia. lia.
Qed.
End operators.
End OperatorProps.

(** ** Finding a character *)

Module FindProps.
Section find.
Context (chars : list char).
Notation len := (length chars).

(** How often [target] occurs in the [n] positions from [i]. *)
Fixpoint occurrences (target : char) (i n : nat) : N :=
  match n with
  | O => 0
  | S n => (if bool_decide (char_at chars i = target) then 1 else 0) + occurrences target (S i) n
  end.

Lemma occurrences_last target i n : occurrences target i (S n) =
  (occurrences target i n + if bool_decide (char_at chars (i + n) = target) then 1 else 0)%N.
Proof.
  revert i. induction n as [|n IH]; intros i; [simpl; rewrite Nat.add_0_r; lia|].
  change (occurrences target i (S (S n))) with
    ((if bool_decide (char_at chars i = target) then 1 else 0) + occurrences target (S i) (S n))%N.
  rewrite IH. simpl. replace (S (i + n)) with (i + S n) by lia. lia.
Qed.

Lemma find_forward_spec fuel target count seen i : len <= i + fuel -> (seen < N.max count 1)%N ->
  match find_forward fuel chars target count seen i with
  | Some j => i <= j < len /\ char_at chars j = target /\
      (seen + occurrences target i (S j - i) = N.max count 1)%N
  | None => (seen + occurrences target i (len - i) < N.max count 1)%N
  end.
Proof.
  revert seen i. induction fuel as [|fuel IH]; intros seen i Hf Hs; cbn [find_forward].
  { replace (len - i) with 0 by lia. simpl. lia. }
  case_bool_decide as Hi; [|replace (len - i) with 0 by lia; simpl; lia].
  assert (forall seen', (seen' = seen + if bool_decide (char_at chars i = target) then 1 else 0)%N ->
    (seen' < N.max count 1)%N ->
    match find_forward fuel chars target count seen' (i + 1) with
    | Some j => i <= j < len /\ char_at chars j = target /\
        (seen + occurrences target i (S j - i) = N.max count 1)%N
    | None => (seen + occurrences target i (len - i) < N.max count 1)%N
    end) as Hstep.
  { intros seen' -> Hs'. specialize (IH _ (i + 1) ltac:(lia) Hs').
    destruct (find_forward _ _ _ _ _ _) as [j|].
    - destruct IH as (Hj & Hc & Ho). split_and!; [lia|lia|done|].
      replace (S j - i) with (S (S j - (i + 1))) by lia. cbn [occurrences].
      replace (S i) with (i + 1) by lia. lia.
    - replace (len - i) with (S (len - (i + 1))) by lia. cbn [occurrences].
      replace (S i) with (i + 1) by lia. lia. }
  destruct (bool_decide (char_at chars i = target)) eqn:Hc; [|apply Hstep; lia]. cbv zeta.
  apply bool_decide_eq_true in Hc. case_bool_decide as Hd; [|apply Hstep; lia].
  split_and!; [lia|lia|done|]. replace (S i - i) with 1 by lia. simpl.
  rewrite bool_decide_true by done. lia.
Qed.

Lemma find_backward_spec target count seen i : (seen < N.max count 1)%N ->
  match find_backward chars target count seen i with
  | Some j => j < i /\ char_at chars j = target /\
      (seen + occurrences target j (i - j) = N.max count 1)%N
  | None => (seen + occurrences target 0 i < N.max count 1)%N
  end.
Proof.
  revert seen. induction i as [|i IH]; intros seen Hs; cbn [find_backward]; [simpl; lia|].
  assert (forall seen', (seen' = seen + if bool_decide (char_at chars i = target) then 1 else 0)%N ->
    (seen' < N.max count 1)%N ->
    match find_backward chars target count seen' i with
    | Some j => j < S i /\ char_at chars j = target /\
        (seen + occurrences target j (S i - j) = N.max count 1)%N
    | None => (seen + occurrences target 0 (S i) < N.max count 1)%N
    end) as Hstep.
  { intros seen' -> Hs'. specialize (IH _ Hs').
    destruct (find_backward _ _ _ _ _) as [j|].
    - destruct IH as (Hj & Hc & Ho). split_and!; [lia|done|].
      replace (S i - j) with (S (i - j)) by lia. rewrite occurrences_last.
      replace (j + (i - j)) with i by lia. lia.
    - rewrite occurrences_last. simpl. lia. }
  destruct (bool_decide (char_at chars i = target)) eqn:Hc; [|apply Hstep; lia]. cbv zeta.
  apply bool_decide_eq_true in Hc. case_bool_decide as Hd; [|apply Hstep; lia].
  split_and!; [lia|done|]. replace (S i - i) with 1 by lia. simpl.
  rewrite bool_decide_true by done. lia.
Qed.

(** [f], [F] and their repeats find the count-th occurrence: the search lands on
    the character asked for, strictly after (or before) the caret, with exactly the
    count's number of occurrences passed, and it fails only when fewer remain; a
    count of 0 is read as 1. *)
Theorem find_index_exact (caret : nat) (motion : FindMotion) (count : N) :
  let target := fm_target motion in
  match find_index chars caret motion count with
  | Some j =>
      char_at chars j = target /\
      if fm_forward motion then
        caret < j < len /\ occurrences target (caret + 1) (j - caret) = N.max count 1
      else j < caret /\ occurrences target j (caret - j) = N.max count 1
  | None =>
      if fm_forward motion then (occurrences target (caret + 1) (len - (caret + 1)) < N.max count 1)%N
      else (occurrences target 0 caret < N.max count 1)%N
  end.
Proof.
  unfold find_index. cbv zeta. destruct (fm_forward motion).
  - pose proof (find_forward_spec len (fm_target motion) count 0 (caret + 1)) as H.
    destruct (find_forward _ _ _ _ _ _) as [j|].
    + destruct H as (Hj & Hc & Ho); [lia..|]. split; [done|]. split; [lia|].
      replace (j - caret) with (S j - (caret + 1)) by lia. lia.
    + apply H; lia.
  - pose proof (find_backward_spec (fm_target motion) count 0 caret) as H.
    destruct (find_backward _ _ _ _ _) as [j|].
    + destruct H as (Hj & Hc & Ho); [lia|]. split_and!; [done|lia|lia].
    + apply H; lia.
Qed.
End find.
End FindProps.

(** ** Concrete runs *)

Module EditWitness.
#[local] Existing Instance ascii_case.
#[local] Existing Instance demo_clipboard.

Definition session (t : string) (at_ : nat) : st :=
  mkSt (set_mode Normal VimState_new) (mkVimBuffer (lit t) at_) None.

Lemma apply_operator_exact_witness :
  let r := apply_operator Operator.Change (4, 7) false (session "foo bar baz" 5) in
  vb_text (buf r.1) = lit "foo " ++ [] ++ lit " baz" /\ r.2 = Edited.
Proof.
  destruct (OperatorProps.apply_operator_exact Operator.Change (4, 7) false (session "foo bar baz" 5))
    as (Ht & _ & _ & Ho); [vm_compute; lia|vm_compute; lia|].
  split; [exact Ht|exact Ho].
Defined.

Lemma delete_then_put_restores_witness :
  let s' := (apply_operator Operator.Delete (4, 7) false (session "foo bar" 5)).1 in
  vb_text (buf s') = lit "foo " /\ vb_text (buf (paste 1 false s').1) = lit "foo bar" /\
  caret (paste 1 false s').1 = 6.
Proof.
  split; [vm_compute; reflexivity|].
  apply (OperatorProps.delete_then_put_restores (4, 7) false (session "foo bar" 5));
    [vm_compute; lia|vm_compute; lia|vm_compute; discriminate|reflexivity].
Defined.
End EditWitness.
