(* ===== verification/VimDot.v ===== *)
(** * [crates/goble-ui/src/vim]: what [.] repeats

    When the replay behind [.] ends and when it does not, and the insert session it
    types again; then concrete runs of keys whose replay surprises. *)

From S2P Require Import Prelude VimWords VimObjects Vim VimHistory VimEdit.
Import Engine.

#[local] Open Scope goble_scope.

Module DotProps.
Import History.
Section dot.
Context `{CharCase} `{Clipboard}.
Notation text s := (vb_text (buf s)).

(** ** Termination *)

Lemma named_key_not_dot key : key <> lit "." -> default key (named_key key) <> lit ".".
Proof. intros Hk. unfold named_key. by repeat case_bool_decide. Qed.

Lemma normal_with_plain dot dot' key s : key <> lit "." \/ vs_pending (vim s) <> None ->
  normal_with dot key s = normal_with dot' key s /\ is_Some (normal_with dot key s).
Proof.
  intros Hk. unfold normal_with. set (key' := default key (named_key key)).
  destruct (vs_pending (vim s)) as [pending|]; [by eauto|].
  destruct Hk as [Hk|?]; [|done]. apply named_key_not_dot in Hk. fold key' in Hk.
  destruct key' as [|c [|]]; simpl; [by eauto| |by eauto].
  destruct (_ && _); [by eauto|]. unfold normal_command.
  destruct (one_of c ".") eqn:Hc; [|by eauto].
  apply one_of_spec, list_elem_of_singleton in Hc. by subst c.
Qed.

Lemma normal_plain fuel fuel' key s : key <> lit "." \/ vs_pending (vim s) <> None ->
  normal fuel key s = normal fuel' key s /\ is_Some (normal fuel key s).
Proof.
  intros Hk. destruct fuel, fuel'; simpl; by apply normal_with_plain.
Qed.

Lemma bind_step_total {A B} (f g : A -> B -> option (A * B)) (acc : option (A * B)) :
  is_Some acc -> (forall a b, f a b = g a b /\ is_Some (f a b)) ->
  ('(a, b) ← acc; f a b) = ('(a, b) ← acc; g a b) /\ is_Some ('(a, b) ← acc; f a b).
Proof. intros [[a b] ->] Hf. simpl. apply Hf. Qed.

Lemma replay_keys_plain fuel fuel' keys s o : Forall (fun key => key <> lit ".") keys ->
  replay_keys (normal fuel) keys s o = replay_keys (normal fuel') keys s o /\
  is_Some (replay_keys (normal fuel) keys s o).
Proof.
  intros Hks. unfold replay_keys.
  assert (is_Some (Some (s, o))) as Ha by eauto. revert Ha.
  generalize (Some (s, o)). induction Hks as [|key keys Hk _ IH]; intros acc Ha; [done|]. simpl.
  destruct (bind_step_total (fun s _ => normal fuel key s) (fun s _ => normal fuel' key s) acc Ha)
    as [Heq Hs]; [intros; apply normal_plain; by left|].
  rewrite <- Heq. by apply IH.
Qed.

Lemma replay_once_plain fuel fuel' change s o :
  Forall (fun key => key <> lit ".") (lc_keys change) ->
  replay_once (normal fuel) change s o = replay_once (normal fuel') change s o /\
  is_Some (replay_once (normal fuel) change s o).
Proof.
  intros Hks. unfold replay_once.
  destruct (replay_keys_plain fuel fuel' _ s o Hks) as [<- [[s1 o1] ->]]. simpl.
  destruct (foldl _ (s1, o1) (lc_insert change)). eauto.
Qed.

Lemma dot_plain fuel fuel' s :
  (forall change, vs_last_change (vim s) = Some change -> Forall (fun key => key <> lit ".") (lc_keys change)) ->
  dot (normal fuel) s = dot (normal fuel') s /\ is_Some (dot (normal fuel) s).
Proof.
  intros Hks. unfold dot. destruct (vs_last_change (vim s)) as [change|]; [|by eauto].
  specialize (Hks change eq_refl). simpl.
  match goal with |- context [Some (?s0, Consumed)] => set (start := s0) end.
  set (loop f := N.iter (N.max (counts (vim s)) 1)
    (fun acc => '(s, o) ← acc; replay_once (normal f) change s o) (Some (start, Consumed))).
  assert (loop fuel = loop fuel' /\ is_Some (loop fuel)) as [Heq [[s1 o1] Hs]].
  { unfold loop. generalize (N.max (counts (vim s)) 1). intros n.
    induction n as [|n IH] using N.peano_ind; [by eauto|]. rewrite !N.iter_succ.
    destruct IH as [<- Hs]. apply bind_step_total; [done|]. intros. by apply replay_once_plain. }
  unfold loop in *. rewrite <- Heq, Hs. simpl. eauto.
Qed.

(** [.] as a command reads [last_change] and replays. *)
Lemma normal_dot fuel s : vs_pending (vim s) = None ->
  normal (S fuel) (lit ".") s = dot (normal fuel) (on_vim (record (lit ".")) s).
Proof.
  intros Hp. change (normal (S fuel) (lit ".") s) with (normal_with (dot (normal fuel)) (lit ".") s).
  unfold normal_with. rewrite Hp. done.
Qed.

Lemma record_last_change key v : vs_last_change (record key v) = vs_last_change v.
Proof. unfold record. by case_bool_decide. Qed.

(** Every key returns, and one replay deep is enough: unless the change being
    repeated holds a [.] among its keys, a key gives a result for any fuel from 1 up,
    and the same one. *)
Theorem keys_return (fuel : nat) (key : Str) (modifiers : ModifiersState) (s : st)
    (Hfuel : 1 <= fuel)
    (Hkeys : forall change, vs_last_change (vim s) = Some change ->
      Forall (fun key => key <> lit ".") (lc_keys change)) :
  is_Some (handle 1 key modifiers s) /\ handle fuel key modifiers s = handle 1 key modifiers s.
Proof.
  assert (normal fuel key s = normal 1 key s /\ is_Some (normal 1 key s)) as [Hn Hs].
  { destruct (decide (key = lit "." /\ vs_pending (vim s) = None)) as [[-> Hp]|Hk].
    - destruct fuel as [|fuel]; [lia|]. rewrite !normal_dot by done.
      set (s0 := on_vim (record (lit ".")) s).
      assert (forall change, vs_last_change (vim s0) = Some change ->
        Forall (fun key => key <> lit ".") (lc_keys change)) as Hk0.
      { intros change. simpl. rewrite record_last_change. apply Hkeys. }
      destruct (dot_plain 0 fuel s0 Hk0) as [Heq Hs]. by rewrite <- Heq.
    - assert (key <> lit "." \/ vs_pending (vim s) <> None) as Hk'.
      { destruct (decide (key = lit ".")); [right|by left]. naive_solver. }
      split; by apply (normal_plain _ 1). }
  unfold handle. repeat case_match; split; eauto.
Qed.

(** ** The replay that never ends *)

Lemma replay_keys_None (normal : Str -> st -> option (st * VimOutcome)) (keys : list Str) : foldl (fun acc key => '(s, _) ← acc; normal key s) None keys =
  @None (st * VimOutcome).
Proof. by induction keys. Qed.

Lemma iter_bind_None {A B} (f : A -> B -> option (A * B)) (acc : option (A * B)) n :
  ('(a, b) ← acc; f a b) = None -> (0 < n)%N -> N.iter n (fun acc => '(a, b) ← acc; f a b) acc = None.
Proof.
  intros Hf Hn. replace n with (N.succ (n - 1)) by lia. rewrite N.iter_succ_r, Hf.
  apply (RangeProps.iter_invariant (fun r => r = None)); [done|]. by intros ? ->.
Qed.

(** C38: A change that holds the [.] key repeats for ever: when the first key to
    replay is itself [.], pressing [.] calls itself without end, and no depth of
    calls gives a result. *)
Theorem dot_of_dot_diverges (fuel : nat) (s : st) (change : LastChange) (rest : list Str)
    (Hlast : vs_last_change (vim s) = Some change) (Hkeys : lc_keys change = lit "." :: rest)
    (Hmode : vs_mode (vim s) = Normal) (Hpending : vs_pending (vim s) = None) :
  handle fuel (lit ".") (mkModifiersState false false false false) s = None.
Proof.
  assert (normal fuel (lit ".") s = None) as Hn; [|by unfold handle; rewrite Hmode].
  clear Hmode. revert s Hlast Hpending. induction fuel as [|fuel IH]; intros s Hlast Hpending.
  { simpl. unfold normal_with. by rewrite Hpending. }
  rewrite normal_dot by done. unfold dot. simpl. rewrite record_last_change, Hlast. simpl.
  match goal with |- context [Some (?s0, Consumed)] => set (start := s0) end.
  rewrite (iter_bind_None (fun s o => replay_once (normal fuel) change s o)); [done| |lia].
  simpl. unfold replay_once, replay_keys. rewrite Hkeys. simpl.
  change (normal fuel _ start) with (normal fuel (lit ".") start).
  rewrite (IH start), replay_keys_None; [done|..].
  - simpl. by rewrite record_last_change.
  - simpl. unfold record. by case_bool_decide.
Qed.
End dot.
End DotProps.

(** ** An insert session typed again *)

Module TypingProps.
Section typing.
Context `{CharCase} `{Clipboard}.
Notation text s := (vb_text (buf s)).

Definition no_modifiers : ModifiersState := mkModifiersState false false false false.

(** Keys pressed one after the other. *)
Definition run (fuel : nat) (keys : list Str) (s : st) : option st :=
  foldl (fun acc key => s ← acc; fst <$> handle fuel key no_modifiers s) (Some s) keys.

Definition type_text (w : Str) (s : st) : st := foldl (fun s c => (insert [c] s).1) s w.

(** [w] put into [t] at [at_]. *)
Definition put (at_ : nat) (w t : Str) : Str := take at_ t ++ w ++ drop at_ t.

Lemma length_put at_ w t : length (put at_ w t) = length w + length t.
Proof. unfold put. rewrite !length_app, length_take, length_drop. lia. Qed.

Lemma insert_char c s : caret s <= len s -> exists u r,
  insert [c] s = (mkSt (vim s |> set_insert_text (vs_insert_text (vim s) ++ [c]) |> set_undo u |> set_redo r)
    (mkVimBuffer (put (caret s) [c] (text s)) (caret s + 1)) (clip s), Edited).
Proof.
  intros Hc. unfold insert. rewrite !bool_decide_false by done. simpl.
  unfold snapshot, on_buf, on_vim, buffer_insert, caret. simpl.
  unfold caret, len, buffer_len in *. rewrite Nat.min_l by lia. by eexists _, _.
Qed.

Lemma put_put at_ w w' t : at_ <= length t ->
  put (at_ + length w) w' (put at_ w t) = put at_ (w ++ w') t.
Proof.
  intros Hat. unfold put. rewrite !app_assoc.
  assert (length (take at_ t ++ w) = at_ + length w) as Hl by (rewrite length_app, length_take; lia).
  rewrite take_app_le, drop_app_le by lia. rewrite <- Hl, firstn_all, drop_all. by simpl.
Qed.

Lemma type_text_shape w s : caret s <= len s -> exists u r,
  type_text w s =
  mkSt (vim s |> set_insert_text (vs_insert_text (vim s) ++ w) |> set_undo u |> set_redo r)
    (mkVimBuffer (put (caret s) w (text s)) (caret s + length w)) (clip s).
Proof.
  revert s. induction w as [|c w IH]; intros s Hc.
  { exists (vs_undo (vim s)), (vs_redo (vim s)). simpl. rewrite app_nil_r, Nat.add_0_r.
    unfold put. simpl. rewrite take_drop. destruct s as [v b cb]. by destruct v, b. }
  unfold type_text. simpl. destruct (insert_char c s Hc) as (u & r & ->).
  match goal with |- exists _ _, foldl _ ?s1 w = _ =>
    destruct (IH s1) as (u' & r' & Heq) end.
  { unfold caret, len, buffer_len in *. simpl. rewrite length_put. simpl. lia. }
  exists u', r'. etrans; [exact Heq|]. simpl.
  match goal with |- context [caret (mkSt ?v (mkVimBuffer ?t ?c) ?cb)] =>
    change (caret (mkSt v (mkVimBuffer t c) cb)) with c end.
  f_equal.
  - by rewrite <- app_assoc.
  - unfold len, buffer_len in Hc. f_equal; [|lia].
    change (caret s + 1) with (caret s + length [c]). by rewrite put_put.
Qed.

Lemma typed_state w s o : (foldl (fun '(s, _) c => insert [c] s) (s, o) w).1 = type_text w s.
Proof.
  revert s o. induction w as [|c w IH]; intros s o; [done|]. simpl.
  rewrite (surjective_pairing (insert [c] s)). by rewrite IH.
Qed.

Lemma run_app fuel keys keys' s : run fuel (keys ++ keys') s = (s ← run fuel keys s; run fuel keys' s).
Proof.
  unfold run. rewrite foldl_app. destruct (foldl _ (Some s) keys); [done|]. simpl.
  by induction keys'.
Qed.

Lemma run_typed fuel w s : vs_mode (vim s) = Insert -> caret s <= len s ->
  run fuel ((fun c => [c]) <$> w) s = Some (type_text w s).
Proof.
  revert s. induction w as [|c w IH]; intros s Hm Hc; [done|].
  assert (handle fuel [c] no_modifiers s = Some (insert [c] s)) as Hh.
  { unfold handle. rewrite bool_decide_false by done. simpl. by rewrite Hm. }
  destruct (insert_char c s Hc) as (u & r & Hi).
  change (run fuel ((fun c => [c]) <$> c :: w) s) with
    (foldl (fun acc key => s ← acc; fst <$> handle fuel key no_modifiers s)
       (fst <$> handle fuel [c] no_modifiers s) ((fun c => [c]) <$> w)).
  rewrite Hh. change (type_text (c :: w) s) with (type_text w (insert [c] s).1).
  change (run fuel ((fun c => [c]) <$> w) (insert [c] s).1 = Some (type_text w (insert [c] s).1)).
  rewrite Hi. cbn [fst]. apply IH; [done|].
  unfold caret, len, buffer_len in *. simpl. rewrite length_put. simpl. lia.
Qed.

(** [i] as a command, and Escape out of the session it opens. *)
Lemma press_i fuel s : vs_mode (vim s) = Normal -> vs_pending (vim s) = None -> exists v,
  normal fuel (lit "i") s =
    Some (mkSt v (mkVimBuffer (text s) (normal_caret (caret s) (len s))) (clip s), Consumed) /\
  vs_mode v = Insert /\ vs_insert_text v = [] /\ vs_replaying v = vs_replaying (vim s) /\
  vs_last_change v = vs_last_change (vim s) /\
  (vs_replaying (vim s) = 0%N -> vs_insert_keys v = vs_command (vim s) ++ [lit "i"]).
Proof.
  intros Hm Hp. assert (forall dot, normal_with dot (lit "i") s = Some (plain_command 105 (on_vim (record (lit "i")) s)))
    as Hn by (intros; unfold normal_with; by rewrite Hp).
  assert (normal fuel (lit "i") s = Some (plain_command 105 (on_vim (record (lit "i")) s))) as ->
    by (destruct fuel; apply Hn).
  eexists. split; [reflexivity|]. simpl. unfold record. by case_bool_decide.
Qed.

Lemma leave_session s : vs_mode (vim s) = Insert -> exists v,
  (escape s).1 = mkSt v (mkVimBuffer (text s) (normal_caret (caret s) (len s))) (clip s) /\
  vs_mode v = Normal /\ vs_pending v = None /\ vs_count v = None /\ vs_count2 v = None /\
  vs_replaying v = vs_replaying (vim s) /\
  (vs_replaying (vim s) = 0%N -> vs_insert_keys (vim s) <> [] ->
   vs_last_change v = Some (mkLastChange (vs_insert_keys (vim s)) (vs_insert_text (vim s)))).
Proof.
  intros Hm. unfold escape. rewrite Hm. eexists. split; [reflexivity|]. simpl.
  unfold finish_insert. case_bool_decide; [done|]. simpl. by case_bool_decide.
Qed.

(** The session [i] opens, [w] typed in it, and Escape, as the keys and as [.] runs them. *)
Definition session_text (w : Str) (s : st) : Str := put (normal_caret (caret s) (len s)) w (text s).
Definition session_caret (w : Str) (s : st) : nat :=
  normal_caret (normal_caret (caret s) (len s) + length w) (length (session_text w s)).

Lemma session_state fuel w s : vs_mode (vim s) = Normal -> vs_pending (vim s) = None -> exists s1 s2 v,
  normal fuel (lit "i") s = Some (s1, Consumed) /\ vs_mode (vim s1) = Insert /\ caret s1 <= len s1 /\
  type_text w s1 = s2 /\ vs_mode (vim s2) = Insert /\
  (escape s2).1 = mkSt v (mkVimBuffer (session_text w s) (session_caret w s)) (clip s) /\
  vs_mode v = Normal /\ vs_pending v = None /\ vs_count v = None /\ vs_count2 v = None /\
  vs_replaying v = vs_replaying (vim s) /\
  (vs_replaying (vim s) = 0%N ->
   vs_last_change v = Some (mkLastChange (vs_command (vim s) ++ [lit "i"]) w)).
Proof.
  intros Hm Hp. destruct (press_i fuel s Hm Hp) as (v1 & Hi & Hm1 & Ht1 & Hr1 & _ & Hk1).
  set (s1 := mkSt v1 (mkVimBuffer (text s) (normal_caret (caret s) (len s))) (clip s)) in *.
  assert (caret s1 <= len s1) as Hc1 by apply RangeProps.normal_caret_le.
  destruct (type_text_shape w s1 Hc1) as (u & r & Ht).
  destruct (leave_session (type_text w s1)) as (v & He & Hv); [by rewrite Ht|].
  exists s1, (type_text w s1), v. rewrite He. rewrite Ht in Hv |- *. simpl in Hv |- *.
  destruct Hv as (? & ? & ? & ? & Hrv & Hl). rewrite Ht1 in Hl.
  split_and!; try done; [congruence|].
  intros Hr. rewrite Hl; [by rewrite Hk1|congruence|rewrite Hk1 by done; by destruct (vs_command (vim s))].
Qed.

(** [.] types an insertion again: from normal mode, [i], any text and Escape put
    the text at the caret, and [.] puts the same text in once more at the place the
    caret was left, without a key of it being read as a command, and ends in normal
    mode with the change still the one to repeat. *)
Theorem dot_types_again (w : Str) (s : st)
    (Hmode : vs_mode (vim s) = Normal) (Hpending : vs_pending (vim s) = None)
    (Hcommand : vs_command (vim s) = []) (Hreplaying : vs_replaying (vim s) = 0%N) :
  let at1 := normal_caret (caret s) (len s) in
  let text1 := put at1 w (text s) in
  let at2 := normal_caret (at1 + length w) (length text1) in
  exists s', run 1 ([lit "i"] ++ ((fun c => [c]) <$> w) ++ [lit "Escape"; lit "."]) s = Some s' /\
    text s' = put at2 w text1 /\
    vs_mode (vim s') = Normal /\
    vs_last_change (vim s') = Some (mkLastChange [lit "i"] w).
Proof.
  cbv zeta. rewrite run_app. change (run 1 [lit "i"] s) with (fst <$> handle 1 (lit "i") no_modifiers s).
  assert (handle 1 (lit "i") no_modifiers s = normal 1 (lit "i") s) as -> by (unfold handle; by rewrite Hmode).
  destruct (session_state 1 w s Hmode Hpending)
    as (s1 & s2 & v & -> & Hm1 & Hc1 & Ht & Hm2 & He & Hv & Hvp & Hvc & Hvc2 & Hvr & Hvl).
  cbn [fmap option_fmap option_map fst mbind option_bind].
  rewrite run_app, run_typed, Ht by done. cbn [mbind option_bind].
  specialize (Hvl Hreplaying). rewrite Hcommand in Hvl. rewrite Hreplaying in Hvr. change ([] ++ [lit "i"]) with [lit "i"] in Hvl.
  set (s3 := (escape s2).1) in *.
  assert (run 1 [lit "Escape"; lit "."] s2 = fst <$> normal 1 (lit ".") s3) as ->.
  { change (run 1 [lit "Escape"; lit "."] s2) with (fst <$> handle 1 (lit ".") no_modifiers s3).
    unfold handle. rewrite He. simpl. by rewrite Hv. }
  rewrite He. rewrite DotProps.normal_dot by done. unfold dot.
  set (s4 := on_vim (record (lit ".")) _).
  assert (vs_last_change (vim s4) = Some (mkLastChange [lit "i"] w)) as ->
    by (simpl; by rewrite DotProps.record_last_change).
  assert (take_counts s4 = (1%N, on_vim clear_counts s4)) as ->.
  { unfold take_counts, counts. f_equal. simpl. unfold record.
    case_bool_decide; simpl; by rewrite Hvc, Hvc2. }
  match goal with |- context [N.iter (N.max 1 1) ?f ?x] =>
    change (N.iter (N.max 1 1) f x) with (f x) end.
  set (s5 := on_vim _ (mkSt _ _ None)). unfold replay_once, replay_keys. cbn [lc_keys lc_insert foldl mbind option_bind].
  assert (vs_mode (vim s5) = Normal /\ vs_pending (vim s5) = None) as [Hm5 Hp5].
  { simpl. unfold record. by case_bool_decide. }
  destruct (session_state 0 w s5 Hm5 Hp5)
    as (s6 & s7 & v7 & -> & _ & _ & Ht7 & Hm7 & He7 & Hv7 & _).
  cbn [mbind option_bind]. pose proof (typed_state w s6 Consumed) as Hty.
  destruct (foldl _ (s6, Consumed) w) as [s8 o8]. simpl in Hty. subst s8. rewrite Ht7.
  rewrite bool_decide_true by done. cbn [mbind option_bind fmap option_fmap option_map fst].
  eexists. split; [reflexivity|]. rewrite He7. simpl.
  split_and!; [|done|done]. change (session_text w s5) with
    (put (normal_caret (session_caret w s) (length (session_text w s))) w (session_text w s)).
  unfold session_caret. by rewrite RangeProps.normal_caret_idemp.
Qed.
End typing.
End TypingProps.

(** ** Concrete runs *)

Module DotWitness.
#[local] Existing Instance ascii_case.
#[local] Existing Instance demo_clipboard.
Import TypingProps.

Definition field (t : string) (at_ : nat) : st :=
  mkSt (set_mode Normal VimState_new) (mkVimBuffer (lit t) at_) None.

(** [x], [.] and [x] leave [.] among the keys to repeat. *)
Definition after_x_dot_x : st :=
  default (field "" 0) (run 1 [lit "x"; lit "."; lit "x"] (field "abcdef" 0)).

Lemma keys_return_witness :
  is_Some (handle 1 (lit ".") no_modifiers (default (field "" 0) (run 1 [lit "x"] (field "abc" 0)))) /\
  handle 9 (lit ".") no_modifiers (default (field "" 0) (run 1 [lit "x"] (field "abc" 0))) =
  handle 1 (lit ".") no_modifiers (default (field "" 0) (run 1 [lit "x"] (field "abc" 0))).
Proof.
  apply (DotProps.keys_return 9); [lia|].
  intros change Hc. vm_compute in Hc. injection Hc as <-. repeat constructor; discriminate.
Defined.

Lemma dot_of_dot_diverges_witness :
  vb_text (buf after_x_dot_x) = lit "def" /\
  forall fuel, handle fuel (lit ".") no_modifiers after_x_dot_x = None.
Proof.
  split; [vm_compute; reflexivity|]. intros fuel.
  apply (DotProps.dot_of_dot_diverges fuel after_x_dot_x (mkLastChange [lit "."; lit "x"] []) [lit "x"]);
    vm_compute; reflexivity.
Defined.

Lemma dot_types_again_witness :
  exists s', run 1 ([lit "i"] ++ ((fun c => [c]) <$> lit "ab") ++ [lit "Escape"; lit "."]) (field "xyz" 1)
    = Some s' /\ vb_text (buf s') = lit "xababyz".
Proof.
  destruct (dot_types_again (lit "ab") (field "xyz" 1)) as (s' & Hr & Ht & _ & _);
    [reflexivity..|]. exists s'. split; [exact Hr|]. etrans; [exact Ht|]. vm_compute. reflexivity.
Defined.

(** The last key of a sequence typed into a field that starts in normal mode. *)
Definition last_key (keys : list Str) (key : Str) (s : st) : option (Str * nat * VimMode * VimOutcome) :=
  s ← foldl (fun acc key => s ← acc; fst <$> vim_key 1 key no_modifiers s) (Some s) keys;
  '(s, outcome) ← vim_key 1 key no_modifiers s;
  Some (vb_text (buf s), vb_caret (buf s), vs_mode (vim s), outcome).

(** [.] reports the outcome of the last key it replays: the edits of [5.] on a text
    that runs out before are dropped by the field, which shows the text undone. *)
Theorem dot_edits_can_be_dropped :
  last_key [lit "x"; lit "5"] (lit ".") (field "abc" 0) = Some (lit "bc", 0, Normal, Consumed).
Proof. vm_compute. reflexivity. Qed.

(** A motion typed before a change is repeated with it. *)
Theorem dot_repeats_the_motion_before :
  last_key [lit "l"; lit "x"] (lit ".") (field "abcdef" 0) = Some (lit "acef", 2, Normal, Edited).
Proof. vm_compute. reflexivity. Qed.

(** [.] after a visual change is replayed as normal-mode keys: nothing is changed
    and the field is left in visual mode, with an operator pending. *)
Theorem dot_after_visual_change :
  last_key [lit "v"; lit "l"; lit "d"] (lit ".") (field "abcdef" 0) =
    Some (lit "cdef", 0, Visual MotionType.Charwise, Consumed).
Proof. vm_compute. reflexivity. Qed.

(** In visual mode the character after [f] is read as a command. *)
Theorem visual_find_runs_its_target :
  last_key [lit "v"; lit "f"] (lit "x") (field "abcxyz" 0) = Some (lit "bcxyz", 0, Normal, Edited).
Proof. vm_compute. reflexivity. Qed.

(** Escape's caret is computed and then lost: the field keeps one past the text. *)
Theorem escape_caret_is_lost :
  last_key [lit "a"; lit "b"] (lit "Escape") (field "" 0) = Some (lit "b", 1, Normal, Consumed).
Proof. vm_compute. reflexivity. Qed.
End DotWitness.
