(* ===== verification/VimInvariant.v ===== *)
(** * [crates/goble-ui/src/vim]: the invariant a field keeps

    Whatever keys are typed, the caret stays in the text, the typed counts fit
    their width, the history stays bounded and restorable, and only the names a
    register can have are ever stored. *)

From S2P Require Import Prelude VimWords VimObjects Vim VimHistory VimEdit.
Import Engine History.

#[local] Open Scope goble_scope.

Module Invariant.
Section invariant.
Context `{CharCase} `{Clipboard}.

(** The names [write_register] stores under. *)
Definition register_slot (k : char) : bool :=
  is_ascii_lowercase k || one_of k "+*" || bool_decide (k = DQUOTE).

Definition caret_ok (b : VimBuffer) : Prop := vb_caret b <= buffer_len b.

Definition count_ok (c : option N) : Prop := (default 0%N c <= u32_max)%N.

Definition vim_ok (v : VimState) : Prop :=
  count_ok (vs_count v) /\ count_ok (vs_count2 v) /\
  map_Forall (fun k _ => register_slot k = true) (vs_registers v) /\
  is_register_name (vs_register v) = true.

(** Every text the history can bring back comes with a caret that lies in it. *)
Definition hist_ok (h : hist) : Prop :=
  length (past h) + length (future h) <= UNDO_LIMIT /\
  Forall (fun e => e.2 <= length e.1) (past h ++ future h).

Definition ok (s : st) : Prop := vim_ok (vim s) /\ caret_ok (buf s) /\ hist_ok (abs s).

(** ** The history *)

Lemma bounded_ok (P : entry -> Prop) l e : length l <= UNDO_LIMIT -> Forall P l -> P e ->
  length (bounded (l ++ [e])) <= UNDO_LIMIT /\ Forall P (bounded (l ++ [e])).
Proof.
  intros Hl Hf He. assert (Forall P (l ++ [e])) by (apply Forall_app; split; [done|by repeat constructor]).
  unfold bounded. case_bool_decide; rewrite ?length_drop, length_app in *; simpl in *.
  - split; [lia|by apply Forall_drop].
  - split; [lia|done].
Qed.

Lemma step_hist_ok o at_ h h' : step o at_ h h' -> at_ <= length (present h) -> hist_ok h -> hist_ok h'.
Proof.
  intros Hs Hat [Hl Hf]. apply Forall_app in Hf as [Hp Hn]. unfold hist_ok.
  destruct Hs as [| | |??? text c Heq|??? text c Heq]; simpl; rewrite ?app_nil_r, ?Nat.add_0_r.
  - by rewrite Forall_app.
  - by apply bounded_ok; [lia|..].
  - by apply bounded_ok; [lia|..].
  - rewrite Heq in *. rewrite !length_app in *. simpl in *. rewrite !Forall_app in *.
    destruct Hp as [? _]. split_and!; [lia|done|done|by repeat constructor].
  - rewrite Heq in *. rewrite !length_app in *. simpl in *. rewrite !Forall_app in *.
    destruct Hn as [? _]. split_and!; [lia|done|by repeat constructor|done].
Qed.

(** An operation that walks the history keeps it, so only the rest is left to show. *)
Lemma keeps_ok s r : moves s r -> (vim_ok (vim s) -> caret_ok (buf s) -> vim_ok (vim r.1) /\ caret_ok (buf r.1)) ->
  ok s -> ok r.1.
Proof.
  intros Hm Hr (Hv & Hc & Hh). destruct (Hr Hv Hc) as [Hv' Hc']. split_and!; [done|done|].
  by eapply step_hist_ok.
Qed.

(** ** The buffer and the registers *)

Lemma buffer_delete_ok r b : caret_ok b -> caret_ok (buffer_delete r b).
Proof.
  unfold buffer_delete, caret_ok. case_bool_decide as Hc; [done|]. intros _. simpl.
  unfold buffer_len in *. simpl. unfold drain. rewrite length_app, length_take, length_drop. lia.
Qed.

Lemma buffer_insert_ok at_ w b : caret_ok (buffer_insert at_ w b).
Proof.
  unfold buffer_insert, caret_ok, buffer_len. simpl.
  rewrite !length_app, length_take, length_drop. lia.
Qed.

Lemma map_slice_length f start end_ (chars : list char) : start <= end_ -> end_ <= length chars ->
  length (map_slice f start end_ chars) = length chars.
Proof.
  intros. unfold map_slice, slice. rewrite !length_app, length_fmap, !length_take, !length_drop. simpl. lia.
Qed.

Lemma buffer_replace_ok at_ count c b : caret_ok b ->
  caret_ok (buffer_replace_with at_ count c b).1 /\
  buffer_len (buffer_replace_with at_ count c b).1 = buffer_len b.
Proof.
  unfold buffer_replace_with. case_bool_decide as Hc; [done|]. intros _. unfold caret_ok, buffer_len in *. simpl.
  rewrite map_slice_length; [lia|unfold plus_count; lia..].
Qed.

Lemma buffer_change_case_ok r case b : caret_ok b -> caret_ok (buffer_change_case r case b).1.
Proof.
  unfold buffer_change_case. case_bool_decide as Hc; [done|]. intros _. unfold caret_ok, buffer_len in *. simpl.
  rewrite map_slice_length; lia.
Qed.

Lemma buffer_slice_nonempty r b : buffer_slice r b <> [] -> r.1 <= buffer_len b.
Proof. unfold buffer_slice. case_bool_decide; [done|]. lia. Qed.

Lemma written_ok name content linewise m : is_register_name name = true ->
  map_Forall (fun k _ => register_slot k = true) m ->
  map_Forall (fun k _ => register_slot k = true) (written name content linewise m).
Proof.
  intros Hn Hm. unfold written. case_bool_decide as Hu; [done|]. cbv zeta.
  assert (register_slot (register_key name) = true) as Hk.
  { unfold is_register_name in Hn. unfold register_slot, register_key.
    destruct (is_ascii_uppercase name) eqn:Hup.
    - unfold to_ascii_lowercase. rewrite Hup. unfold is_ascii_uppercase, is_ascii_lowercase in *.
      apply andb_true_iff in Hup as [?%N.leb_le ?%N.leb_le].
      apply orb_true_iff. left. apply orb_true_iff. left. apply andb_true_iff. rewrite !N.leb_le. lia.
    - unfold is_ascii_alphabetic in Hn. rewrite Hup in Hn. simpl in Hn.
      apply orb_true_iff in Hn as [Hn|Hn]; [|by rewrite Hn, orb_true_r].
      apply orb_true_iff in Hn as [Hn|Hn]; [by rewrite Hn|].
      replace (one_of name "+*") with true; [by rewrite orb_true_r|]. symmetry. apply one_of_spec.
      apply one_of_spec in Hn. unfold UNDERSCORE in Hu. set_solver. }
  case_bool_decide; [by apply map_Forall_insert_2|].
  by apply map_Forall_insert_2; [|apply map_Forall_insert_2].
Qed.

Lemma set_registers_ok m v : vim_ok v -> map_Forall (fun k _ => register_slot k = true) m ->
  vim_ok (set_registers m v).
Proof. by intros (? & ? & _ & ?). Qed.

Lemma unnamed_ok v : vim_ok v -> vim_ok (set_register DQUOTE v).
Proof. by intros (? & ? & ? & _). Qed.

Lemma remember_ok insert v : vim_ok v -> vim_ok (remember_change insert v).
Proof. unfold remember_change. case_bool_decide; [|done]. by destruct insert. Qed.

Lemma record_ok key v : vim_ok v -> vim_ok (record key v).
Proof. unfold record. by case_bool_decide. Qed.

Lemma clear_counts_ok v : vim_ok v -> vim_ok (clear_counts v).
Proof. by intros (_ & _ & ? & ?). Qed.

Lemma push_count_ok c v : vim_ok v -> vim_ok (push_count c v).
Proof.
  assert (forall slot, count_ok (next_count slot c)) as Hn.
  { intros slot. unfold count_ok, next_count, u32_saturating_add. simpl. lia. }
  intros (H1 & H2 & ? & ?). unfold push_count. case_bool_decide; (split_and!; [try apply Hn; done..|done|done]).
Qed.

Lemma finish_insert_ok v : vim_ok v -> vim_ok (finish_insert v).
Proof. unfold finish_insert. case_bool_decide; [done|]. simpl. by case_bool_decide. Qed.

Lemma normal_caret_ok c t : caret_ok (mkVimBuffer t (normal_caret c (length t))).
Proof. unfold caret_ok, buffer_len. simpl. apply RangeProps.normal_caret_le. Qed.

(** ** The operations *)

Definition tidy (s : st) : Prop := vim_ok (vim s) /\ caret_ok (buf s).

Lemma write_register_tidy name content linewise s : is_register_name name = true -> tidy s ->
  tidy (write_register name content linewise s).
Proof.
  intros Hn [Hv Hb]. destruct (write_register_shape name content linewise s) as [cb ->].
  split; [|done]. simpl. apply set_registers_ok; [done|]. apply written_ok; [done|].
  apply Hv.
Qed.

Lemma snapshot_tidy s : tidy s -> tidy (snapshot s).
Proof. done. Qed.
#[local] Opaque snapshot.

Lemma apply_operator_tidy operator r linewise s : tidy s -> tidy (apply_operator operator r linewise s).1.
Proof.
  intros [Hv Hb]. unfold apply_operator, used_register.
  assert (tidy (on_vim (set_register DQUOTE) s)) as Ht by (split; [by apply unnamed_ok|done]).
  change (buf (on_vim (set_register DQUOTE) s)) with (buf s).
  case_bool_decide as Hne; [done|]. apply buffer_slice_nonempty in Hne.
  assert (is_register_name (vs_register (vim s)) = true) as Hn by apply Hv.
  pose proof (write_register_tidy _ (buffer_slice r (buf s)) linewise _ Hn Ht) as Hw.
  destruct operator; cbv zeta; simpl.
  1: apply snapshot_tidy in Hw as [? ?]; split; [by apply remember_ok|by apply buffer_delete_ok].
  1: apply snapshot_tidy in Hw as [? ?]; split; [done|by apply buffer_delete_ok].
  1: destruct Hw as [? _]; split; [done|];
     destruct (write_register_shape (vs_register (vim s)) (buffer_slice r (buf s)) linewise
       (on_vim (set_register DQUOTE) s)) as [cb ->]; exact Hne.
  all: match goal with |- context [buffer_change_case ?r ?c (buf ?s0)] =>
    pose proof (snapshot_tidy _ Ht) as [Hv' Hb'];
    pose proof (buffer_change_case_ok r c (buf s0) Hb') as Hcc;
    destruct (buffer_change_case r c (buf s0)) as [b []] end.
  all: simpl in Hcc; split; try done; by apply remember_ok.
Qed.

Lemma take_and_tidy f s : (forall n s', buf s' = buf s -> tidy s' -> tidy (f n s').1) -> tidy s ->
  tidy (take_and f s).1.
Proof. intros Hf [Hv Hb]. apply Hf; [done|]. split; [by apply clear_counts_ok|done]. Qed.

Lemma move_caret_tidy count f s : tidy s -> tidy (move_caret count f s).1.
Proof.
  intros [Hv Hb]. unfold move_caret. case_bool_decide as Hne; (split; [by apply clear_counts_ok|]);
    unfold caret_ok, buffer_len in *; simpl; lia.
Qed.

Lemma find_move_tidy motion count s : tidy s -> tidy (find_move motion count s).1.
Proof.
  intros [Hv Hb]. unfold find_move. case_bool_decide as Hne; [done|].
  destruct (find_caret_index _ _ motion count) as [at_|] eqn:Hf; [|done]. split; [done|].
  unfold caret_ok, buffer_len. simpl. unfold find_caret_index in Hf.
  apply bind_Some in Hf as (found & Hi & [= <-]).
  apply RangeProps.find_index_Some in Hi as [_ Hi].
  - destruct (fm_before motion), (fm_forward motion); lia.
  - apply RangeProps.normal_caret_lt. destruct (vb_text (buf s)); [done|simpl; lia].
Qed.

Lemma enter_insert_tidy c s : tidy s -> tidy (enter_insert c s).1.
Proof.
  intros [Hv Hb]. unfold enter_insert.
  assert (first_non_blank (vb_text (buf s)) <= len s) as Hf.
  { unfold first_non_blank, len, buffer_len. destruct (position _ _) eqn:Hp; simpl; [|lia].
    apply position_lt in Hp. lia. }
  pose proof (RangeProps.normal_caret_le (caret s) (len s)) as Hc.
  destruct (one_of c "i"), (one_of c "a"), (one_of c "I"); (split; [done|]);
    unfold caret_ok, len, buffer_len in *; simpl; lia.
Qed.

Lemma undo_tidy s : tidy s -> tidy (undo s).1.
Proof.
  intros [Hv Hb]. unfold undo. destruct (last (vs_undo (vim s))) as [[text at_]|]; [|done].
  split; [|apply normal_caret_ok]. by destruct Hv as (_ & _ & ? & ?).
Qed.

Lemma redo_tidy s : tidy s -> tidy (redo s).1.
Proof.
  intros [Hv Hb]. unfold redo. destruct (last (vs_redo (vim s))) as [[text at_]|]; [|done].
  split; [|apply normal_caret_ok]. by destruct Hv as (_ & _ & ? & ?).
Qed.

Lemma paste_tidy count before s : tidy s -> tidy (paste count before s).1.
Proof.
  intros [Hv Hb]. unfold paste, used_register.
  destruct (read_register_shape (vs_register (vim s)) (on_vim (set_register DQUOTE) s)) as (t & cb & ->).
  case_bool_decide; (split; [try apply remember_ok; by apply unnamed_ok|]); [done|]. apply normal_caret_ok.
Qed.

Lemma insert_tidy key s : tidy s -> tidy (insert key s).1.
Proof.
  intros Ht. pose proof (snapshot_tidy s Ht) as [Hv Hb]. unfold insert.
  case_bool_decide; [case_bool_decide; [done|split; [done|by apply buffer_delete_ok]]|].
  case_bool_decide; [case_bool_decide; [done|split; [done|by apply buffer_delete_ok]]|].
  destruct (single key); [|done]. split; [done|apply buffer_insert_ok].
Qed.

Lemma replace_tidy key s : tidy s -> tidy (replace key s).1.
Proof.
  intros [Hv Hb]. unfold replace. destruct (single key) as [c|]; [|done].
  assert (tidy (on_vim (fun v => v |> set_mode Normal |> clear_pending) s)) as Ht.
  { split; [|done]. by destruct Hv as (_ & _ & ? & ?). }
  apply snapshot_tidy in Ht. set (s0 := snapshot _) in *. destruct Ht as [Hv0 Hb0].
  destruct (buffer_replace_ok (caret s0) 1 c (buf s0) Hb0) as [Hr Hl].
  destruct (buffer_replace_with (caret s0) 1 c (buf s0)) as [b []]; [|done].
  split; [done|]. unfold caret_ok, len, buffer_len in *. simpl in *. lia.
Qed.

Lemma escape_tidy s : tidy s -> tidy (escape s).1.
Proof.
  intros [Hv Hb]. unfold escape. destruct (vs_mode (vim s)).
  - destruct (is_pending (vim s)); [|done]. split; [|done]. by destruct Hv as (_ & _ & ? & ?).
  - split; [|apply normal_caret_ok]. apply (finish_insert_ok (vim s)) in Hv. by destruct Hv as (_ & _ & ? & ?).
  - split; [|apply normal_caret_ok]. by destruct Hv as (_ & _ & ? & ?).
  - split; [|apply normal_caret_ok]. by destruct Hv as (_ & _ & ? & ?).
Qed.

(** Toggling the case leaves the length alone. *)
Lemma toggle_length r linewise s : len (apply_operator Operator.ToggleCase r linewise s).1 = len s.
Proof.
  unfold apply_operator, used_register. case_bool_decide; [done|]. cbv zeta.
  unfold buffer_change_case. case_bool_decide; [done|].
  unfold len, buffer_len in *. simpl in *. rewrite map_slice_length; [done|lia..].
Qed.

Lemma toggle_tidy count n s : tidy s -> n <= len s ->
  tidy (let '(s, outcome) :=
    apply_operator Operator.ToggleCase (caret s, plus_count (caret s) count n) false s in
  (if bool_decide (outcome = Edited) then set_caret (plus_count (caret s) count (n - 1)) s else s,
   outcome)).1.
Proof.
  intros Ht Hn. pose proof (apply_operator_tidy Operator.ToggleCase (caret s, plus_count (caret s) count n)
    false s Ht) as Hs. pose proof (toggle_length (caret s, plus_count (caret s) count n) false s) as Hl.
  destruct (apply_operator _ _ _ s) as [s' o]. simpl in Hs, Hl |- *. case_bool_decide; [|done].
  destruct Hs as [Hv Hb]. split; [done|]. unfold caret_ok, len, buffer_len, plus_count in *. simpl. lia.
Qed.

#[local] Opaque apply_operator move_caret enter_insert undo redo paste take_and find_move.

Lemma g_command_tidy key s : tidy s -> tidy (g_command key s).1.
Proof.
  intros Ht. unfold g_command. destruct (single key) as [c|]; [|done].
  destruct (one_of c "g"); [by apply move_caret_tidy|].
  destruct (one_of c "eE"); [apply take_and_tidy; [intros; by apply move_caret_tidy|done]|].
  destruct (one_of c "~uU"); [|done].
  apply take_and_tidy; [intros; by apply apply_operator_tidy|done].
Qed.

Lemma cleared_tidy s : tidy s -> tidy (on_vim clear_counts (on_vim (set_pending None) s)).
Proof. intros [Hv Hb]. split; [by apply clear_counts_ok|done]. Qed.

Lemma pending_operator_tidy operator key s : tidy s -> tidy (pending_operator operator key s).1.
Proof.
  intros [Hv Hb]. unfold pending_operator, take_counts. destruct (single key) as [c|]; [|done].
  destruct (_ && _); [split; [by apply (push_count_ok c) in Hv|done]|].
  destruct (one_of c "ia"); [done|]. destruct (one_of c "fFtT"); [done|].
  set (s' := on_vim (set_pending None) (on_vim clear_counts s)).
  assert (tidy s') by (split; [by apply clear_counts_ok|done]).
  case_bool_decide; [by apply apply_operator_tidy|].
  destruct (motion_range _ _ _ _ _); [by apply apply_operator_tidy|done].
Qed.

Lemma normal_pending_tidy pending key s : tidy s -> tidy (normal_pending pending key s).1.
Proof.
  intros Ht. pose proof (cleared_tidy s Ht) as Hc. unfold normal_pending, take_counts.
  set (s0 := on_vim clear_counts _) in *. destruct pending.
  - by apply pending_operator_tidy.
  - destruct (_ ≫= _); [by apply apply_operator_tidy|done].
  - by apply g_command_tidy.
  - destruct (single key); [|done]. by apply find_move_tidy.
  - destruct (single key); [|done]. unfold pending_operator_find. case_bool_decide; [done|].
    destruct (find_index _ _ _ _); [by apply apply_operator_tidy|done].
  - destruct (single key) as [c|]; [|done]. apply snapshot_tidy in Hc as [Hv0 Hb0].
    set (s1 := snapshot s0) in *.
    destruct (buffer_replace_ok (caret s1) (counts (vim (on_vim (set_pending None) s))) c (buf s1) Hb0) as [Hr Hl].
    destruct (buffer_replace_with (caret s1) _ c (buf s1)) as [b []]; [|done].
    split; [by apply remember_ok|done].
  - destruct (single key) as [c|]; [|done]. destruct (is_register_name c) eqn:Hr; [|done].
    destruct Ht as [(? & ? & ? & _) ?]. done.
  - destruct (single key ≫= _) as [r|] eqn:Hr; [|done]. destruct Ht as [Hv Hb]. split; [done|].
    apply bind_Some in Hr as (c & _ & Hr). apply RangeProps.text_object_valid in Hr as [? ?].
    unfold caret_ok, buffer_len in *. simpl in *. lia.
Qed.

Ltac solve_tidy :=
  match goal with
  | |- tidy (if ?b then _ else _).1 => destruct b; [|]
  | |- tidy (move_caret _ _ _).1 => by apply move_caret_tidy
  | |- tidy (apply_operator _ _ _ _).1 => by apply apply_operator_tidy
  | |- tidy (enter_insert _ _).1 => by apply enter_insert_tidy
  | |- tidy (find_move _ _ _).1 => by apply find_move_tidy
  | |- tidy (undo _).1 => by apply undo_tidy
  | |- tidy (paste _ _ _).1 => by apply paste_tidy
  | |- tidy (take_and _ _).1 => apply take_and_tidy; [intros|done]
  | |- tidy (_, _).1 => done
  end.

Lemma repeat_find_tidy c s : tidy s -> tidy (repeat_find c s).1.
Proof.
  intros Ht. unfold repeat_find. solve_tidy. destruct (vs_last_find _); [solve_tidy|done].
Qed.


Lemma plain_command_tidy c s : tidy s -> tidy (plain_command c s).1.
Proof.
  intros Ht. unfold plain_command, move_left, move_right, move_word, move_bracket, pend.
  repeat match goal with
  | |- tidy (repeat_find _ _).1 => by apply repeat_find_tidy
  | Hb : buf _ = buf _ |- tidy (let '(_, _) := apply_operator _ _ _ _ in _).1 =>
      apply toggle_tidy; [done|unfold len; by rewrite Hb]
  | |- tidy (on_vim (fun v => v |> clear_pending |> set_mode Replace) _, _).1 =>
      split; [by destruct Ht as [(_ & _ & ? & ?) _]|by apply Ht]
  | _ => solve_tidy
  end.
Qed.

Lemma visual_apply_tidy c s : tidy s -> tidy (visual_apply c s).1.
Proof.
  intros Ht. unfold visual_apply. destruct (selection _ _ _); [by apply apply_operator_tidy|done].
Qed.

Lemma visual_paste_tidy s : tidy s -> tidy (visual_paste s).1.
Proof.
  intros [Hv Hb]. unfold visual_paste, used_register, take_counts.
  destruct (read_register_shape (vs_register (vim s)) (on_vim (set_register DQUOTE) s)) as (t & cb & ->).
  destruct (selection _ _ _); [|split; [by apply unnamed_ok|done]].
  split; [|apply buffer_insert_ok]. apply remember_ok. by destruct Hv as (_ & _ & ? & _).
Qed.

(** [o] swaps the caret with an anchor the text may have outgrown: it reports
    [Moved], and the field cuts the caret to the text. *)
Lemma visual_command_tidy c s : tidy s ->
  vim_ok (vim (visual_command c s).1) /\
  (caret_ok (buf (visual_command c s).1) \/ (visual_command c s).2 = Moved).
Proof.
  intros Ht. assert (forall r : st * VimOutcome, tidy r.1 -> vim_ok (vim r.1) /\ (caret_ok (buf r.1) \/ r.2 = Moved))
    as Hr by (intros r [? ?]; eauto).
  unfold visual_command, move_left, move_right, move_word, move_bracket, pend.
  repeat match goal with
  | |- vim_ok (vim (if ?b then _ else _).1) /\ _ => destruct b
  | |- vim_ok (vim (_, Moved).1) /\ _ => split; [apply Ht|by right]
  | |- vim_ok (vim ?r.1) /\ _ => apply (Hr r)
  | |- tidy (repeat_find _ _).1 => by apply repeat_find_tidy
  | |- tidy (visual_apply _ _).1 => by apply visual_apply_tidy
  | |- tidy (visual_paste _).1 => by apply visual_paste_tidy
  | _ => solve_tidy
  end.
  split; [apply Ht|apply normal_caret_ok].
Qed.

Lemma record_tidy key s : tidy s -> tidy (on_vim (record key) s).
Proof. intros [Hv Hb]. split; [by apply record_ok|done]. Qed.

Lemma visual_tidy key s : tidy s ->
  vim_ok (vim (visual key s).1) /\ (caret_ok (buf (visual key s).1) \/ (visual key s).2 = Moved).
Proof.
  intros Ht. unfold visual. set (key' := default key (named_key key)).
  pose proof (record_tidy key' s Ht) as Hrec.
  destruct (vs_pending (vim s)) as [[]|];
    try (destruct (single key'); [by apply visual_command_tidy|destruct Ht; eauto]).
  destruct (normal_pending_tidy (Pending.VisualObject around) key' _ Hrec). eauto.
Qed.

(** ** Every key *)

Lemma ok_tidy s : ok s -> tidy s.
Proof. by intros (? & ? & _). Qed.

Lemma moves_ok s r : moves s r -> (tidy s -> tidy r.1) -> ok s -> ok r.1.
Proof. intros Hm Hr. apply keeps_ok; [done|]. intros. by apply Hr. Qed.

Lemma normal_ok fuel key s r : normal fuel key s = Some r -> ok s -> ok r.1.
Proof.
  assert (PreOrder (fun s s' : st => ok s -> ok s')) as Hpre by (split; [by intros ??|intros ???; auto]).
  apply (normal_closed (fun s s' => ok s -> ok s')); clear.
  - intros key s. apply moves_ok; [apply insert_moves|apply insert_tidy].
  - intros s. apply moves_ok; [apply escape_moves|apply escape_tidy].
  - intros key s (Hv & Hb & Hh). split_and!; [by apply record_ok|done|by rewrite abs_record].
  - intros c s (Hv & Hb & Hh). split_and!; [by apply push_count_ok|done|by rewrite abs_push_count].
  - intros p key s. apply moves_ok; [apply normal_pending_moves|apply normal_pending_tidy].
  - intros c s. apply moves_ok; [apply plain_command_moves|apply plain_command_tidy].
  - intros n s (Hv & Hb & Hh). split_and!; [by apply (clear_counts_ok (vim s))|done|done].
  - by intros n change cb s (Hv & Hb & Hh).
Qed.

Lemma handle_ok fuel key modifiers s r : handle fuel key modifiers s = Some r -> ok s ->
  vim_ok (vim r.1) /\ hist_ok (abs r.1) /\ (caret_ok (buf r.1) \/ r.2 = Moved).
Proof.
  intros Hr Hok. pose proof (ok_tidy s Hok) as Ht.
  assert (hist_ok (abs r.1)) as Hh.
  { apply handle_cases in Hr as [Hm|[_ Hn]]; [|by apply normal_ok in Hn as (_ & _ & ?)].
    eapply step_hist_ok; [exact Hm|apply Hok|apply Hok]. }
  assert (vim_ok (vim r.1) /\ (caret_ok (buf r.1) \/ r.2 = Moved)) as [? ?]; [|done]. clear Hh.
  assert (forall r : st * VimOutcome, tidy r.1 -> vim_ok (vim r.1) /\ (caret_ok (buf r.1) \/ r.2 = Moved))
    as Hd by (intros r' [? ?]; eauto).
  revert Hr. unfold handle.
  destruct (_ || _); [intros [= <-]; by apply Hd, escape_tidy|].
  destruct (md_command modifiers); [intros [= <-]; by apply Hd|].
  destruct (md_ctrl modifiers); [destruct (_ && _); intros [= <-]; apply Hd; [by apply redo_tidy|done]|].
  destruct (md_alt modifiers); [intros [= <-]; by apply Hd|].
  destruct (vs_mode (vim s)).
  - intros Hn. apply normal_ok in Hn as (? & ? & _); [by apply Hd|done].
  - intros [= <-]. by apply Hd, insert_tidy.
  - intros [= <-]. by apply visual_tidy.
  - intros [= <-]. by apply Hd, replace_tidy.
Qed.

(** C40: Every key keeps the field well formed, [.] and its replays included: the caret
    stays in the text, the counts typed so far fit 32 bits, undo and redo together
    hold at most [UNDO_LIMIT] texts, each with a caret that lies in it, and only
    lowercase letters, [+], [*] and the unnamed register are ever stored. *)
Theorem vim_key_keeps_invariant (fuel : nat) (key : Str) (modifiers : ModifiersState)
    (field : st) (r : st * VimOutcome)
    (Hr : vim_key fuel key modifiers field = Some r) (Hok : ok field) : ok r.1.
Proof.
  unfold vim_key in Hr. set (s0 := on_buf _ field) in Hr.
  assert (ok s0) as Hok0.
  { destruct Hok as (? & ? & ?). split_and!; [done| |done]. unfold caret_ok, buffer_len. simpl. lia. }
  destruct (handle fuel key modifiers s0) as [[s o]|] eqn:Hh; simpl in Hr; [|done].
  injection Hr as <-. simpl. pose proof (handle_ok _ _ _ _ _ Hh Hok0) as (Hv & Hhist & Hc). simpl in *.
  split_and!; [done| |done]. destruct Hok as (_ & Hb & _).
  destruct o; simpl; try done; unfold caret_ok, buffer_len; simpl; lia.
Qed.
End invariant.
End Invariant.

(** ** A concrete run *)

Module InvariantWitness.
#[local] Existing Instance ascii_case.
#[local] Existing Instance demo_clipboard.

Definition no_modifiers : ModifiersState := mkModifiersState false false false false.
Definition fresh : st := mkSt VimState_new (mkVimBuffer (lit "ab") 2) None.
Definition after_c : st := from_option fst fresh (vim_key 0 (lit "c") no_modifiers fresh).

Lemma vim_key_keeps_invariant_witness :
  vb_text (buf after_c) = lit "abc" /\ Invariant.ok after_c.
Proof.
  split; [vm_compute; reflexivity|].
  apply (Invariant.vim_key_keeps_invariant 0 (lit "c") no_modifiers fresh (after_c, Edited)).
  - reflexivity.
  - assert (Invariant.vim_ok (vim fresh)) as Hv.
    { split; [discriminate|]. split; [discriminate|]. split; [apply map_Forall_empty|reflexivity]. }
    split; [exact Hv|]. split; [vm_compute; lia|]. split; [vm_compute; lia|constructor].
Defined.
End InvariantWitness.
