(* ===== verification/TermOsc.v ===== *)
(** * OSC observation

    [goble-terminal/src/osc.rs]: the tap that reads the working directory ([OSC 7])
    and the prompt markers ([OSC 133]) out of the PTY stream without consuming a
    byte of it, and what the tap promises. *)

From S2P Require Import Prelude Bytes.

Open Scope goble_scope.

Module OscTap.

(** Upper bound on one [OSC] body. *)
Definition MAX_BODY : nat := N.to_nat (8 * 1024).
#[global] Opaque MAX_BODY.

Inductive PromptMarker : Type :=
| PromptStart
| CommandStart
| OutputStart
| CommandEnd (exit_code : option Z).

Inductive OscEvent : Type :=
| WorkingDirectory (path : Str)
| Prompt (marker : PromptMarker).

Inductive State : Type :=
| Ground
| Escape
| Body (body : Bytes) (esc : bool).

Record t : Type := mk { state : State; dropped : nat }.

Definition new : t := mk Ground 0.

Definition PERCENT : byte := 37%N.
Definition SEMICOLON : byte := 59%N.
Definition RBRACKET : byte := 93%N.

Definition hex_digit (b : byte) : option N :=
  if in_range 48 57 b then Some (b - 48)%N
  else if in_range 97 102 b then Some (b - 97 + 10)%N
  else if in_range 65 70 b then Some (b - 65 + 10)%N
  else None.

(** The loop of [percent_decode]: an escape needs both of its digits. *)
Fixpoint percent_bytes (l : Bytes) : Bytes :=
  match l with
  | [] => []
  | b :: l' =>
      match l' with
      | h :: lo :: rest =>
          if (b =? PERCENT)%N then
            match hex_digit h, hex_digit lo with
            | Some high, Some low => (high * 16 + low)%N :: percent_bytes rest
            | _, _ => b :: percent_bytes l'
            end
          else b :: percent_bytes l'
      | _ => b :: percent_bytes l'
      end
  end.

Definition percent_decode (input : Str) : Str :=
  from_utf8_lossy (percent_bytes (as_bytes input)).

(** The path starts at the first slash after the scheme: the authority is
    dropped. *)
Definition path_from_uri (uri : Str) : option Str :=
  match strip_prefix (lit "file://") uri with
  | Some rest =>
      match position (fun c => (c =? SLASH)%N) rest with
      | Some index => Some (percent_decode (drop index rest))
      | None => None
      end
  | None => None
  end.

Definition command_exit_code (rest : Bytes) : option Z :=
  match split_once rest SEMICOLON with
  | Some (_, value) =>
      if bool_decide (value = []) then None
      else match from_utf8 value with
           | Some text => parse_i32 (trim text)
           | None => None
           end
  | None => None
  end.

Definition decode (body : Bytes) : option OscEvent :=
  match split_once body SEMICOLON with
  | Some (number, rest) =>
      if bool_decide (number = lit "7") then
        match from_utf8 rest with
        | Some uri => WorkingDirectory <$> path_from_uri uri
        | None => None
        end
      else if bool_decide (number = lit "133") then
        match rest with
        | b :: _ =>
            if (b =? 65)%N then Some (Prompt PromptStart)
            else if (b =? 66)%N then Some (Prompt CommandStart)
            else if (b =? 67)%N then Some (Prompt OutputStart)
            else if (b =? 68)%N then Some (Prompt (CommandEnd (command_exit_code rest)))
            else None
        | [] => None
        end
      else None
  | None => None
  end.

Definition finish (body : Bytes) (events : list OscEvent) : list OscEvent :=
  match decode body with
  | Some event => events ++ [event]
  | None => events
  end.

(** One byte of the loop of [tap], the push on [passthrough] left to [tap]. *)
Definition step (s : t * list OscEvent) (b : byte) : t * list OscEvent :=
  let '(tap, events) := s in
  match state tap with
  | Ground => if (b =? ESC)%N then (mk Escape (dropped tap), events) else (tap, events)
  | Escape =>
      if (b =? RBRACKET)%N then (mk (Body [] false) (dropped tap), events)
      else if (b =? ESC)%N then (tap, events)
      else (mk Ground (dropped tap), events)
  | Body body esc =>
      if esc then
        if (b =? BACKSLASH)%N then (mk Ground (dropped tap), finish body events)
        else if (b =? ESC)%N then (tap, events)
        else (mk Ground (S (dropped tap)), events)
      else if (b =? BEL)%N then (mk Ground (dropped tap), finish body events)
      else if (b =? ESC)%N then (mk (Body body true) (dropped tap), events)
      else if MAX_BODY <=? length body then (mk Ground (S (dropped tap)), events)
      else (mk (Body (body ++ [b]) false) (dropped tap), events)
  end.

(** [OscTap::tap]: the tap after [input], what [passthrough] becomes, and the
    events recognised. *)
Definition tap (s : t) (input passthrough : Bytes) : t * Bytes * list OscEvent :=
  let '(s', events) := scan step (s, []) input in
  (s', foldl (fun out b => out ++ [b]) passthrough input, events).

(** [OscTap::flush]. *)
Definition flush (s : t) : t :=
  match state s with
  | Ground => s
  | Escape => mk Ground (dropped s)
  | Body _ _ => mk Ground (S (dropped s))
  end.

End OscTap.

(** ** What the tap promises *)

Module OscProps.
Import OscTap.

Lemma push_all (out l : Bytes) : foldl (fun out b => out ++ [b]) out l = out ++ l.
Proof.
  revert out. induction l as [|b l IH]; intros out; simpl; [by rewrite app_nil_r|].
  by rewrite IH, <- (assoc_L (++)).
Qed.

(** The events so far do not influence a step, which only adds to them. *)
Lemma step_events s events b :
  step (s, events) b = ((step (s, []) b).1, events ++ (step (s, []) b).2).
Proof.
  unfold step, finish. destruct s as [[| |body esc] d]; simpl;
    repeat case_match; simpl; by rewrite ?app_nil_r.
Qed.

Lemma scan_events s events l :
  scan step (s, events) l = ((scan step (s, []) l).1, events ++ (scan step (s, []) l).2).
Proof. apply scan_adds, step_events. Qed.

Lemma tap_eq s input out :
  tap s input out = ((scan step (s, []) input).1, out ++ input, (scan step (s, []) input).2).
Proof. unfold tap. rewrite push_all. by destruct (scan step (s, []) input). Qed.

(** Two reads are one read of both. *)
Lemma tap_app s a b out :
  tap s (a ++ b) out =
    (let '(s1, out1, ev1) := tap s a out in
     let '(s2, out2, ev2) := tap s1 b out1 in (s2, out2, ev1 ++ ev2)).
Proof.
  rewrite !tap_eq, scan_app. destruct (scan step (s, []) a) as [s1 ev1]; simpl.
  rewrite (scan_events s1 ev1 b). by rewrite (assoc_L (++)).
Qed.

(** Reads one after the other, as a session makes them. *)
Fixpoint tap_all (s : t) (reads : list Bytes) (out : Bytes) : t * Bytes * list OscEvent :=
  match reads with
  | [] => (s, out, [])
  | r :: reads' =>
      let '(s1, out1, ev1) := tap s r out in
      let '(s2, out2, ev2) := tap_all s1 reads' out1 in (s2, out2, ev1 ++ ev2)
  end.

(** Whatever the state and however the stream is cut into reads, the tap gives back
    every byte it was given, in order and nothing else, and it recognises the same
    events and ends in the same state as on the whole stream in one read. *)
Theorem osc_tap_is_transparent s reads out :
  tap_all s reads out = tap s (concat reads) out /\
  (tap s (concat reads) out).1.2 = out ++ concat reads.
Proof.
  split; [|by rewrite tap_eq]. revert s out.
  induction reads as [|r reads IH]; intros s out; simpl.
  { rewrite tap_eq. simpl. by rewrite app_nil_r. }
  rewrite tap_app. destruct (tap s r out) as [[s1 out1] ev1]. by rewrite IH.
Qed.

Lemma step_body_plain body d events b :
  b <> BEL -> b <> ESC -> length body < MAX_BODY ->
  step (mk (Body body false) d, events) b = (mk (Body (body ++ [b]) false) d, events).
Proof.
  intros Hbel Hesc Hlen. unfold step, state, dropped.
  rewrite (proj2 (N.eqb_neq _ _) Hbel), (proj2 (N.eqb_neq _ _) Hesc).
  by rewrite (proj2 (Nat.leb_gt _ _)).
Qed.

Lemma scan_body body rest d events :
  Forall (fun b => b <> BEL /\ b <> ESC) rest -> length body + length rest <= MAX_BODY ->
  scan step (mk (Body body false) d, events) rest = (mk (Body (body ++ rest) false) d, events).
Proof.
  intros Hrest. revert body. induction Hrest as [|b rest [Hbel Hesc] _ IH]; intros body Hlen.
  { by rewrite app_nil_r. }
  simpl length in Hlen. rewrite scan_cons, step_body_plain by (done || lia).
  rewrite IH by (rewrite length_app; simpl; lia). by rewrite <- (assoc_L (++)).
Qed.

Lemma scan_escapes body d events n :
  scan step (mk (Body body true) d, events) (replicate n ESC) = (mk (Body body true) d, events).
Proof. induction n; [done|]. unfold scan in *. simpl. by rewrite IHn. Qed.

(** The two ways a body ends: [BEL], or [ESC \] with any number of escapes before
    the backslash. *)
Inductive terminator : Bytes -> Prop :=
| term_bel : terminator [BEL]
| term_st n : terminator (ESC :: replicate n ESC ++ [BACKSLASH]).

Lemma scan_terminator body d events term :
  terminator term ->
  scan step (mk (Body body false) d, events) term = (mk Ground d, finish body events).
Proof.
  intros []; [done|]. rewrite app_comm_cons, scan_app.
  change (ESC :: replicate n ESC) with ([ESC] ++ replicate n ESC). rewrite scan_app.
  change (scan step (mk (Body body false) d, events) [ESC]) with (mk (Body body true) d, events).
  by rewrite scan_escapes.
Qed.

(** A complete sequence seen between other output is recognised: [ESC \]], a body of at most
    [MAX_BODY] bytes without escapes or bells, and either terminator yield what the
    body decodes to and nothing when it is someone else's, whatever the escapes before
    it; the tap is back in its ground state and nothing counts as dropped. *)
Theorem osc_sequence_is_observed body term n d out :
  terminator term -> Forall (fun b => b <> BEL /\ b <> ESC) body -> length body <= MAX_BODY ->
  tap (mk Ground d) (replicate (S n) ESC ++ RBRACKET :: body ++ term) out =
    (mk Ground d, out ++ replicate (S n) ESC ++ RBRACKET :: body ++ term,
     option_list (decode body)).
Proof.
  intros Hterm Hbody Hlen. rewrite tap_eq, scan_app.
  assert (scan step (mk Ground d, []) (replicate (S n) ESC) = (mk Escape d, [])) as ->.
  { unfold scan. simpl. clear. by induction n. }
  change (RBRACKET :: body ++ term) with ([RBRACKET] ++ body ++ term).
  rewrite !scan_app. change (scan step (mk Escape d, []) [RBRACKET]) with (mk (Body [] false) d, @nil OscEvent).
  rewrite scan_body, scan_terminator by done. unfold finish. simpl.
  by destruct (decode body).
Qed.

(** ** Bounds *)

Definition bounded (s : t) : Prop :=
  match state s with
  | Body body _ => length body <= MAX_BODY /\ Forall (fun b => b <> BEL /\ b <> ESC) body
  | _ => True
  end.

Lemma step_bounded s events b : bounded s -> bounded (step (s, events) b).1.
Proof.
  unfold bounded, step. destruct s as [[| |body esc] d]; simpl; intros Hb;
    repeat case_match; simplify_eq/=; try done.
  { split; [lia|constructor]. }
  destruct Hb as [Hlen Hall].
  repeat match goal with H : (_ =? _)%N = false |- _ => apply N.eqb_neq in H end.
  repeat match goal with H : (_ <=? _) = false |- _ => apply Nat.leb_gt in H end.
  rewrite length_app, Forall_app. simpl. split; [lia|]. split; [done|]. by repeat constructor.
Qed.

(** The memory the tap holds is bounded whatever the stream: a reachable body never
    exceeds [MAX_BODY] bytes and never holds an escape or a bell. *)
Lemma reachable_bounded input out s' out' ev :
  tap new input out = (s', out', ev) -> bounded s'.
Proof.
  rewrite tap_eq. intros [= <- <- <-].
  apply (scan_invariant step (fun s => bounded s.1)); [|done].
  intros [s ev] b. apply step_bounded.
Qed.

(** ** The path round trip *)

Definition hex_char (d : N) : byte := if (d <? 10)%N then (48 + d)%N else (55 + d)%N.

(** How a shell escapes a path: byte by byte, the [safe] ones as they are. *)
Definition percent_encode (safe : byte -> bool) (path : Str) : Str :=
  as_bytes path ≫= fun b =>
    if safe b then [b] else [PERCENT; hex_char (b / 16); hex_char (b mod 16)].

Lemma hex_digit_char d : (d < 16)%N -> hex_digit (hex_char d) = Some d.
Proof.
  intros Hd. unfold hex_char, hex_digit, in_range. decide_tests. all: f_equal; lia.
Qed.

Lemma percent_bytes_plain b l : b <> PERCENT -> percent_bytes (b :: l) = b :: percent_bytes l.
Proof.
  intros Hb. destruct l as [|h [|lo rest]]; try done.
  cbn [percent_bytes]. by rewrite (proj2 (N.eqb_neq _ _) Hb).
Qed.

Lemma percent_bytes_encode safe l :
  (forall b, safe b = true -> b <> PERCENT) -> Forall is_byte l ->
  percent_bytes (l ≫= fun b =>
    if safe b then [b] else [PERCENT; hex_char (b / 16); hex_char (b mod 16)]) = l.
Proof.
  intros Hsafe. induction 1 as [|b l Hb _ IH]; [done|]. cbn [mbind list_bind].
  destruct (safe b) eqn:Hs.
  - rewrite <- app_comm_cons, percent_bytes_plain by auto. by rewrite app_nil_l, IH.
  - unfold is_byte in Hb. simpl app. cbn [percent_bytes]. rewrite N.eqb_refl.
    rewrite hex_digit_char by (apply N.Div0.div_lt_upper_bound; lia).
    rewrite hex_digit_char by (apply N.mod_lt; done). rewrite IH. f_equal.
    pose proof (N.div_mod b 16 ltac:(done)). lia.
Qed.

Lemma percent_encode_ascii safe path :
  (forall b, safe b = true -> (b < 128)%N) -> Forall is_byte (as_bytes path) ->
  Forall (fun c => (c < 128)%N) (percent_encode safe path).
Proof.
  intros Hsafe Hp. apply Forall_bind. eapply Forall_impl; [exact Hp|]. intros b Hb. simpl.
  unfold is_byte in Hb.
  assert (forall d, (d < 16)%N -> (hex_char d < 128)%N) as Hhex.
  { intros d Hd. unfold hex_char. case_match; lia. }
  destruct (safe b) eqn:Hs; repeat constructor; auto.
  all: apply Hhex; first [apply N.Div0.div_lt_upper_bound; lia|by apply N.mod_lt].
Qed.

Lemma strip_prefix_app p l : strip_prefix p (p ++ l) = Some l.
Proof. induction p; simpl; [done|]. by rewrite N.eqb_refl. Qed.

(** The working directory survives its escaping: for a path of Unicode scalar values from
    the root, whatever ASCII bytes other than % the shell leaves unescaped (the slash
    among them) and whatever authority it names, [OSC 7] with the escaped URI reports
    exactly that path. *)
Theorem working_directory_roundtrip safe host path :
  (forall b, safe b = true -> (b < 128)%N /\ b <> PERCENT) -> safe SLASH = true ->
  Forall (fun c => (c < 128)%N /\ c <> SLASH) host ->
  Forall (fun c => is_scalar c = true) path ->
  decode (lit "7;file://" ++ host ++ percent_encode safe (SLASH :: path))
    = Some (WorkingDirectory (SLASH :: path)).
Proof.
  intros Hsafe Hslash Hhost Hpath.
  assert (Forall (fun c => is_scalar c = true) (SLASH :: path)) as Hall by by constructor.
  set (uri := lit "file://" ++ host ++ percent_encode safe (SLASH :: path)).
  assert (from_utf8 uri = Some uri) as Huri.
  { apply from_utf8_ascii. apply Forall_app; split; [by repeat constructor|].
    apply Forall_app; split; [eapply Forall_impl; [done|naive_solver]|].
    apply percent_encode_ascii; [naive_solver|by apply as_bytes_bytes]. }
  unfold decode. change (lit "7;file://" ++ _) with (lit "7" ++ SEMICOLON :: uri).
  rewrite split_once_app by set_solver. simpl bool_decide. rewrite Huri.
  unfold path_from_uri, uri. rewrite strip_prefix_app.
  assert (percent_encode safe (SLASH :: path) = SLASH :: percent_encode safe path) as Henc.
  { unfold percent_encode. rewrite as_bytes_cons. simpl. by rewrite Hslash. }
  assert (position (fun c => (c =? SLASH)%N) (host ++ percent_encode safe (SLASH :: path))
          = Some (length host)) as ->.
  { rewrite Henc. clear -Hhost. induction Hhost as [|c host [_ Hc] _ IH]; [done|].
    simpl. by rewrite (proj2 (N.eqb_neq _ _) Hc), IH. }
  rewrite drop_app_length. simpl. do 2 f_equal. unfold percent_decode.
  rewrite as_bytes_ascii by (apply percent_encode_ascii; [naive_solver|by apply as_bytes_bytes]).
  unfold percent_encode. rewrite percent_bytes_encode by (naive_solver || by apply as_bytes_bytes).
  by rewrite from_utf8_lossy_as_bytes.
Qed.

End OscProps.

Module OscWitness.
Import OscTap OscProps.

Lemma osc_sequence_is_observed_witness :
  tap (mk Ground 0) ([ESC; ESC] ++ RBRACKET :: lit "133;D; 130 " ++ [ESC; ESC; BACKSLASH]) [] =
    (mk Ground 0, [ESC; ESC] ++ RBRACKET :: lit "133;D; 130 " ++ [ESC; ESC; BACKSLASH],
     [Prompt (CommandEnd (Some 130%Z))]).
Proof.
  apply (osc_sequence_is_observed (lit "133;D; 130 ") [ESC; ESC; BACKSLASH] 1 0 []).
  - exact (term_st 1).
  - repeat constructor; discriminate.
  - apply Nat.leb_le. vm_compute. reflexivity.
Defined.

Lemma working_directory_roundtrip_witness :
  decode (lit "7;file://" ++ lit "host" ++
          percent_encode (fun b => is_ascii_alphanumeric b || (b =? SLASH)%N) (lit "/My Code" ++ [233%N]))
    = Some (WorkingDirectory (lit "/My Code" ++ [233%N])).
Proof.
  apply (working_directory_roundtrip (fun b => is_ascii_alphanumeric b || (b =? SLASH)%N)
           (lit "host") (lit "My Code" ++ [233%N])).
  - intros b. unfold is_ascii_alphanumeric, is_ascii_alphabetic, is_ascii_uppercase,
      is_ascii_lowercase, is_ascii_digit, SLASH, PERCENT. decide_tests. all: intros _; lia.
  - reflexivity.
  - repeat constructor; discriminate.
  - repeat constructor.
Defined.

End OscWitness.
