(* ===== verification/TermHooks.v ===== *)
(** * The shell-integration hook channel

    [goble-terminal/src/hooks.rs]: our envelope in the PTY stream,
    [ESC P $ d <hex(JSON)> ESC \], the tap that lifts envelopes out of the stream,
    and the codec of one hook.  The crates [hex] and [serde_json] are parameters
    ([HookCodec]), with what the code relies on in [HookCodecLaws]. *)

From S2P Require Import Prelude Bytes.

Open Scope goble_scope.

Module HookTap.

Record InitShellValue : Type := mkInitShell {
  session_id : option Str;
  shell : option Str;
  host : option Str;
  cwd : option Str;
  honor_ps1 : option bool;
}.

Record BootstrappedValue : Type := mkBootstrapped { version : option Str }.

Record PrecmdValue : Type := mkPrecmd {
  pc_pwd : option Str;
  pc_git_branch : option Str;
  pc_rprompt : option Str;
  pc_session_id : option Str;
  pc_virtual_env : option Str;
  pc_conda_env : option Str;
  pc_node_version : option Str;
  pc_honor_ps1 : option bool;
}.

Record PreexecValue : Type := mkPreexec { command : option Str }.

Record CommandFinishedValue : Type := mkFinished {
  exit_code : Z;
  next_block_id : option Str;
}.

Record InputBufferValue : Type := mkInputBuffer { buffer : Str; cursor : option N }.

Inductive HookEvent : Type :=
| InitShell (value : InitShellValue)
| Bootstrapped (value : BootstrappedValue)
| Precmd (value : PrecmdValue)
| Preexec (value : PreexecValue)
| CommandFinished (value : CommandFinishedValue)
| InputBuffer (value : InputBufferValue)
| Clear.

Inductive HookError : Type :=
| BadHex
| BadJson (message : Str)
| TooLarge.

(** The two crates the codec goes through. *)
Class HookCodec : Type := {
  hex_encode : Bytes -> Bytes;
  hex_decode : Bytes -> option Bytes;
  hook_to_json : HookEvent -> Bytes;
  hook_from_json : Bytes -> result Str HookEvent;
}.

(** What [hex] and [serde_json] document: two lower case digits per byte, and that
    each decoder inverts its encoder. *)
Class HookCodecLaws (C : HookCodec) : Prop := {
  hex_decode_encode l : Forall is_byte l -> hex_decode (hex_encode l) = Some l;
  length_hex_encode l : length (hex_encode l) = 2 * length l;
  hex_encode_digits l :
    Forall (fun b => in_range 48 57 b = true \/ in_range 97 102 b = true) (hex_encode l);
  json_roundtrip e : hook_from_json (hook_to_json e) = Ok e;
  json_bytes e : Forall is_byte (hook_to_json e);
}.

Definition PREFIX : Bytes := [ESC; 80; 36; 100]%N.
Definition STRING_TERMINATOR : Bytes := [ESC; BACKSLASH].

(** Upper bound on a single hook payload. *)
Definition MAX_BODY : nat := N.to_nat (64 * 1024).
#[global] Opaque MAX_BODY.

Inductive State : Type :=
| Ground
| Prefix (prefix : Bytes)
| Body (body : Bytes).

Record t : Type := mk { state : State; dropped : nat }.

Definition new : t := mk Ground 0.

Section codec.
Context {C : HookCodec}.

Definition encode_hook (event : HookEvent) : Bytes :=
  PREFIX ++ hex_encode (hook_to_json event) ++ STRING_TERMINATOR.

Definition decode_hook (body : Bytes) : result HookError HookEvent :=
  if MAX_BODY <? length body then Err TooLarge
  else let? json := ok_or BadHex (hex_decode body) in
       result_map_err BadJson (hook_from_json json).

(** A completed body: an event at the offset reached, or one more dropped. *)
Definition complete (d : nat) (out : Bytes) (hooks : list (nat * HookEvent)) (payload : Bytes)
    : t * Bytes * list (nat * HookEvent) :=
  match decode_hook payload with
  | Ok event => (mk Ground d, out, hooks ++ [(length out, event)])
  | Err _ => (mk Ground (S d), out, hooks)
  end.

(** One byte of the loop of [tap_ordered]. *)
Definition step (s : t * Bytes * list (nat * HookEvent)) (b : byte)
    : t * Bytes * list (nat * HookEvent) :=
  let '(tap, out, hooks) := s in
  match state tap with
  | Ground =>
      if (b =? ESC)%N then (mk (Prefix [ESC]) (dropped tap), out, hooks)
      else (tap, out ++ [b], hooks)
  | Prefix prefix =>
      let prefix := prefix ++ [b] in
      if negb (starts_with PREFIX prefix) then (mk Ground (dropped tap), out ++ prefix, hooks)
      else if length prefix =? length PREFIX then (mk (Body []) (dropped tap), out, hooks)
      else (mk (Prefix prefix) (dropped tap), out, hooks)
  | Body body =>
      let after_escape := bool_decide (last body = Some ESC) in
      let body := body ++ [b] in
      if ends_with body STRING_TERMINATOR then
        complete (dropped tap) out hooks (take (length body - length STRING_TERMINATOR) body)
      else if after_escape && negb (b =? BACKSLASH)%N
      then (mk Ground (S (dropped tap)), out, hooks)
      else if MAX_BODY <? length body then (mk Ground (S (dropped tap)), out, hooks)
      else (mk (Body body) (dropped tap), out, hooks)
  end.

(** [HookTap::tap_ordered]. *)
Definition tap_ordered (s : t) (input passthrough : Bytes) : t * Bytes * list (nat * HookEvent) :=
  scan step (s, passthrough, []) input.

(** [HookTap::tap]. *)
Definition tap (s : t) (input passthrough : Bytes) : t * Bytes * list HookEvent :=
  let '(s', out, hooks) := tap_ordered s input passthrough in (s', out, snd <$> hooks).

(** [HookTap::flush]. *)
Definition flush (s : t) (passthrough : Bytes) : t * Bytes * list HookEvent :=
  match state s with
  | Ground => (s, passthrough, [])
  | Prefix prefix => (mk Ground (dropped s), passthrough ++ prefix, [])
  | Body body =>
      if ends_with body STRING_TERMINATOR then
        match decode_hook (take (length body - length STRING_TERMINATOR) body) with
        | Ok event => (mk Ground (dropped s), passthrough, [event])
        | Err _ => (mk Ground (S (dropped s)), passthrough, [])
        end
      else if bool_decide (body = []) then (mk Ground (dropped s), passthrough, [])
      else (mk Ground (S (dropped s)), passthrough, [])
  end.

End codec.
End HookTap.

(** ** What the tap promises *)

Module HookProps.
Import HookTap.

Section props.
Context {C : HookCodec}.

(** What one byte adds, seen from an empty output. *)
Definition adds (s : t) (b : byte) : t * Bytes * list (nat * HookEvent) := step (s, [], []) b.

Definition shift (n : nat) (hooks : list (nat * HookEvent)) : list (nat * HookEvent) :=
  (fun '(k, e) => (n + k, e)) <$> hooks.

(** The output so far only moves the offsets. *)
Lemma step_adds s out hooks b :
  step (s, out, hooks) b =
    ((adds s b).1.1, out ++ (adds s b).1.2, hooks ++ shift (length out) (adds s b).2).
Proof.
  unfold adds, step, complete, shift. destruct s as [[|p|body] d]; simpl;
    repeat case_match; simpl; rewrite ?app_nil_r, ?Nat.add_0_r; done.
Qed.

Lemma shift_shift n m hooks : shift n (shift m hooks) = shift (n + m) hooks.
Proof.
  unfold shift. rewrite <- list_fmap_compose. apply list_fmap_ext. intros i [k e] _. simpl.
  f_equal. lia.
Qed.

Lemma tap_ordered_nil s out : tap_ordered s [] out = (s, out, []).
Proof. done. Qed.

Lemma scan_shift s out hooks l :
  scan step (s, out, hooks) l =
    ((tap_ordered s l []).1.1, out ++ (tap_ordered s l []).1.2,
     hooks ++ shift (length out) (tap_ordered s l []).2).
Proof.
  unfold tap_ordered. revert s out hooks.
  induction l as [|b l IH]; intros s out hooks; [simpl; by rewrite !app_nil_r|].
  rewrite !scan_cons, step_adds. unfold adds. destruct (step (s, [], []) b) as [[s' o'] h'].
  simpl. rewrite IH, (IH s' o' h'). simpl. unfold shift. rewrite fmap_app, !(assoc_L (++)).
  f_equal. f_equal. fold (shift (length o') (scan step (s', [], []) l).2).
  fold (shift (length out) (shift (length o') (scan step (s', [], []) l).2)).
  rewrite shift_shift, length_app. done.
Qed.

Lemma tap_ordered_shift s l out :
  tap_ordered s l out =
    ((tap_ordered s l []).1.1, out ++ (tap_ordered s l []).1.2,
     shift (length out) (tap_ordered s l []).2).
Proof. unfold tap_ordered at 1. by rewrite scan_shift. Qed.

(** Two reads are one read of both, offsets included. *)
Lemma tap_ordered_app s a b out :
  tap_ordered s (a ++ b) out =
    (let '(s1, out1, h1) := tap_ordered s a out in
     let '(s2, out2, h2) := tap_ordered s1 b out1 in (s2, out2, h1 ++ h2)).
Proof.
  unfold tap_ordered. rewrite scan_app. destruct (scan step (s, out, []) a) as [[s1 out1] h1].
  rewrite (scan_shift s1 out1 h1), (scan_shift s1 out1 []). done.
Qed.

Lemma tap_ordered_cons s b l out :
  tap_ordered s (b :: l) out =
    (let '(s1, out1, h1) := step (s, out, []) b in
     let '(s2, out2, h2) := tap_ordered s1 l out1 in (s2, out2, h1 ++ h2)).
Proof. apply (tap_ordered_app s [b] l out). Qed.

(** ** Envelopes *)

Lemma ends_with_terminator body b :
  ends_with (body ++ [b]) STRING_TERMINATOR
    = bool_decide (last body = Some ESC) && (b =? BACKSLASH)%N.
Proof.
  apply eq_true_iff_eq. rewrite ends_with_spec, andb_true_iff, bool_decide_eq_true, N.eqb_eq.
  unfold STRING_TERMINATOR. split.
  - intros [p Hp]. change [ESC; BACKSLASH] with ([ESC] ++ [BACKSLASH]) in Hp.
    rewrite (assoc_L (++)) in Hp. apply app_inj_tail in Hp as [-> ->]. by rewrite last_snoc.
  - intros [Hl ->]. apply last_Some in Hl as [p ->]. exists p. by rewrite <- (assoc_L (++)).
Qed.

Lemma last_no_escape (p : Bytes) : ESC ∉ p -> last p <> Some ESC.
Proof. intros Hp Hl. apply Hp. apply last_Some in Hl as [q ->]. set_solver. Qed.

Lemma scan_payload d out hooks body p :
  ESC ∉ body -> ESC ∉ p -> length body + length p <= MAX_BODY ->
  scan step (mk (Body body) d, out, hooks) p = (mk (Body (body ++ p)) d, out, hooks).
Proof.
  revert body. induction p as [|b p IH]; intros body Hbody Hp Hlen; [by rewrite app_nil_r|].
  apply not_elem_of_cons in Hp as [Hb Hp]. simpl in Hlen.
  rewrite scan_cons. unfold step at 2. cbn [state dropped]. rewrite ends_with_terminator.
  rewrite (bool_decide_eq_false_2 (last body = Some ESC)) by by apply last_no_escape.
  rewrite (proj2 (Nat.ltb_ge _ _)) by (rewrite length_app; simpl; lia). simpl.
  rewrite IH; [by rewrite <- (assoc_L (++))|set_solver|done|rewrite length_app; simpl; lia].
Qed.

Lemma step_escape_in_body d out hooks p :
  ESC ∉ p -> S (length p) <= MAX_BODY ->
  step (mk (Body p) d, out, hooks) ESC = (mk (Body (p ++ [ESC])) d, out, hooks).
Proof.
  intros Hp Hlen. unfold step. cbn [state dropped]. rewrite ends_with_terminator.
  rewrite (bool_decide_eq_false_2 (last p = Some ESC)) by by apply last_no_escape.
  rewrite (proj2 (Nat.ltb_ge _ _)) by (rewrite length_app; simpl; lia). done.
Qed.

Lemma scan_terminated d out hooks p :
  ESC ∉ p -> S (length p) <= MAX_BODY ->
  scan step (mk (Body p) d, out, hooks) STRING_TERMINATOR = complete d out hooks p.
Proof.
  intros Hp Hlen. unfold STRING_TERMINATOR. rewrite !scan_cons, scan_nil, step_escape_in_body by done.
  unfold step. cbn [state dropped]. rewrite ends_with_terminator, last_snoc. simpl.
  f_equal.
  rewrite <- (assoc_L (++)), length_app. simpl. rewrite Nat.add_sub. apply take_app_length.
Qed.

Lemma scan_prefix d out hooks :
  scan step (mk Ground d, out, hooks) PREFIX = (mk (Body []) d, out, hooks).
Proof. done. Qed.

Lemma scan_plain d out hooks l :
  ESC ∉ l -> scan step (mk Ground d, out, hooks) l = (mk Ground d, out ++ l, hooks).
Proof.
  revert out. induction l as [|b l IH]; intros out Hl; [by rewrite app_nil_r|].
  apply not_elem_of_cons in Hl as [Hb Hl]. rewrite scan_cons. unfold step at 2. cbn [state].
  rewrite (proj2 (N.eqb_neq b ESC)) by congruence.
  rewrite IH by done. by rewrite <- (assoc_L (++)).
Qed.

(** A body that outgrows [MAX_BODY] is dropped at the byte that does so; the rest of
    the envelope is output like any other. *)
Lemma scan_overlong d out hooks p :
  ESC ∉ p -> MAX_BODY <= length p ->
  scan step (mk (Body []) d, out, hooks) (p ++ STRING_TERMINATOR) =
    (mk Ground (S d), out ++ drop (S MAX_BODY) (p ++ STRING_TERMINATOR), hooks).
Proof.
  intros Hp Hlen. rewrite <- (take_drop MAX_BODY p) at 1. rewrite <- (assoc_L (++)), scan_app.
  assert ((ESC ∉ take MAX_BODY p) /\ (ESC ∉ drop MAX_BODY p)) as [Ht Hd]
    by by rewrite <- not_elem_of_app, take_drop.
  rewrite scan_payload; [|set_solver|done|rewrite length_take; simpl; lia]. simpl app at 1.
  replace (drop (S MAX_BODY) (p ++ STRING_TERMINATOR))
    with (drop 1 (drop MAX_BODY p ++ STRING_TERMINATOR)).
  2:{ by rewrite <- drop_app_le, drop_drop, Nat.add_comm. }
  assert (length (take MAX_BODY p) = MAX_BODY) as Hl by (rewrite length_take; lia).
  clear Hp Hlen. generalize dependent (drop MAX_BODY p). intros r Hr.
  assert (forall b, step (mk (Body (take MAX_BODY p)) d, out, hooks) b
                    = (mk Ground (S d), out, hooks)) as Hstep.
  { intros b. unfold step. cbn [state dropped]. rewrite ends_with_terminator.
    rewrite (bool_decide_eq_false_2 (last _ = Some ESC)) by by apply last_no_escape. simpl.
    rewrite (proj2 (Nat.ltb_lt _ _)) by (rewrite length_app; simpl; lia). done. }
  destruct r as [|b r].
  - change ([] ++ STRING_TERMINATOR) with (ESC :: [BACKSLASH]). rewrite scan_cons, Hstep.
    apply (scan_plain (S d) out hooks [BACKSLASH]). set_solver.
  - rewrite <- app_comm_cons, scan_cons, Hstep, scan_app, scan_plain by set_solver.
    rewrite skipn_cons, drop_0, (assoc_L (++)). done.
Qed.

(** C39: Every outcome of an envelope that begins outside any other and whose payload has no
    escape: shorter than [MAX_BODY] it is decoded, and a hook that decodes is delivered at
    the offset reached while one that does not is counted and leaves no byte; at [MAX_BODY]
    bytes or more it is counted once and the bytes past the bound come out as terminal
    output. *)
Theorem hook_envelope_outcome d out p :
  ESC ∉ p ->
  tap_ordered (mk Ground d) (PREFIX ++ p ++ STRING_TERMINATOR) out =
    if length p <? MAX_BODY then
      match decode_hook p with
      | Ok event => (mk Ground d, out, [(length out, event)])
      | Err _ => (mk Ground (S d), out, [])
      end
    else (mk Ground (S d), out ++ drop (S MAX_BODY) (p ++ STRING_TERMINATOR), []).
Proof.
  intros Hp. unfold tap_ordered. rewrite scan_app, scan_prefix.
  destruct (Nat.ltb_spec (length p) MAX_BODY) as [Hlen|Hlen].
  - rewrite scan_app, scan_payload by (set_solver || (simpl; lia)).
    rewrite app_nil_l, scan_terminated by (done || lia). unfold complete.
    by destruct (decode_hook p).
  - by rewrite scan_overlong.
Qed.

(** ** Output of other programs *)

(** Output the tap has no part in: plain bytes, and escapes that stop being our prefix at
    some byte. *)
Inductive foreign : Bytes -> Prop :=
| foreign_nil : foreign []
| foreign_plain b l : b <> ESC -> foreign l -> foreign (b :: l)
| foreign_escape n b l :
    1 <= n <= 3 -> PREFIX !! n <> Some b -> foreign l -> foreign (take n PREFIX ++ b :: l).

Lemma scan_foreign d out hooks l :
  foreign l -> scan step (mk Ground d, out, hooks) l = (mk Ground d, out ++ l, hooks).
Proof.
  intros Hl. revert out. induction Hl as [|b l Hb _ IH|n b l Hn Hb _ IH]; intros out.
  - by rewrite app_nil_r.
  - change (b :: l) with ([b] ++ l). rewrite scan_app, scan_plain by set_solver.
    rewrite IH. by rewrite <- (assoc_L (++)).
  - assert (scan step (mk Ground d, out, hooks) (take n PREFIX ++ [b])
            = (mk Ground d, out ++ take n PREFIX ++ [b], hooks)) as Htok.
    { unfold PREFIX in *. assert (n = 1 \/ n = 2 \/ n = 3) as [-> | [-> | ->]] by lia.
      all: unfold scan; simpl in *; unfold starts_with, PREFIX; simpl; rewrite bool_decide_eq_false_2 by congruence; done. }
    change (b :: l) with ([b] ++ l). rewrite (assoc_L (++)), scan_app, Htok, IH.
    by rewrite <- !(assoc_L (++)).
Qed.

Definition held (s : t) : Bytes :=
  match state s with Ground => [] | Prefix p => p | Body body => PREFIX ++ body end.

Definition bounded (s : t) : Prop :=
  match state s with
  | Ground => True
  | Prefix p => exists n, 1 <= n <= 3 /\ p = take n PREFIX
  | Body body => length body <= MAX_BODY
  end.

(** What the three outcomes of a byte do to a held prefix. *)
Lemma step_prefix d out hooks n b :
  1 <= n <= 3 ->
  step (mk (Prefix (take n PREFIX)) d, out, hooks) b =
    if bool_decide (PREFIX !! n = Some b) then
      (mk (if n =? 3 then Body [] else Prefix (take (S n) PREFIX)) d, out, hooks)
    else (mk Ground d, out ++ take n PREFIX ++ [b], hooks).
Proof.
  intros Hn. assert (n = 1 \/ n = 2 \/ n = 3) as [-> | [-> | ->]] by lia.
  all: unfold step, starts_with, PREFIX; simpl; repeat case_bool_decide; simplify_eq/=; done.
Qed.

Lemma hook_step_bounded s out hooks b :
  bounded s ->
  bounded (step (s, out, hooks) b).1.1 /\
  (step (s, out, hooks) b).1.2 ++ held (step (s, out, hooks) b).1.1
    `sublist_of` (out ++ held s) ++ [b].
Proof.
  destruct s as [[|p|body] d]; intros Hs.
  - unfold step. cbn [state dropped].
    destruct (N.eqb_spec b ESC) as [->|]; simpl; unfold held; simpl; rewrite ?app_nil_r.
    + split; [exists 1; split; [lia|done]|done].
    + done.
  - destruct Hs as (n & Hn & ->). rewrite step_prefix by done. simpl. case_bool_decide.
    + assert (n = 1 \/ n = 2 \/ n = 3) as [-> | [-> | ->]] by lia; unfold PREFIX in *; simplify_eq/=;
        unfold held; simpl; rewrite <- ?(assoc_L (++)); (split; [|done]).
      * exists 2. split; [lia|done].
      * exists 3. split; [lia|done].
      * unfold bounded. simpl. lia.
    + unfold held. simpl. rewrite app_nil_r, <- !(assoc_L (++)). done.
  - unfold bounded in Hs. simpl in Hs. unfold step, held. cbn [state dropped].
    assert (forall (e : bool) d', bounded (mk Ground d') /\
      out ++ [] `sublist_of` (out ++ PREFIX ++ body) ++ [b]) as Hdrop.
    { intros _ d'. split; [done|]. rewrite app_nil_r, <- (assoc_L (++)).
      apply sublist_inserts_r. done. }
    repeat case_match; unfold complete in *; repeat case_match; simplify_eq/=; try by apply (Hdrop true).
    match goal with H : (_ <? _) = false |- _ => apply Nat.ltb_ge in H end.
    split; [done|]. by rewrite <- (assoc_L (++)).
Qed.

(** Whatever the stream, the tap holds at most a proper prefix of its introducer or a body
    of [MAX_BODY] bytes, and what it has passed on followed by what it holds is a
    subsequence of what it was given: it reorders nothing and invents nothing. *)
Theorem hook_tap_bounds input out :
  let '(s', out', _) := tap_ordered new input out in
  bounded s' /\ out' ++ held s' `sublist_of` out ++ input.
Proof.
  unfold tap_ordered. rewrite <- (app_nil_l input).
  induction input as [|b input IH] using rev_ind.
  - simpl. unfold held. simpl. rewrite app_nil_r. done.
  - rewrite (assoc_L (++)), scan_app. destruct (scan step (new, out, []) ([] ++ input)) as [[s' o] h].
    destruct IH as [Hb Hsub]. rewrite scan_cons, scan_nil.
    pose proof (hook_step_bounded s' o h b Hb) as [Hb' Hsub'].
    destruct (step (s', o, h) b) as [[s2 o2] h2]. simpl in *. split; [done|].
    etrans; [exact Hsub'|]. rewrite (assoc_L (++)). by apply sublist_app.
Qed.

(** A stream that never contains our introducer reaches the parser verbatim, foreign device
    controls and split or truncated escapes included: no hook, nothing dropped, and at
    every point the bytes passed on and those still held are the stream so far, which
    [flush] completes. *)
Theorem foreign_stream_is_verbatim input out :
  (forall a b, input <> a ++ PREFIX ++ b) ->
  let '(s', out', hooks) := tap_ordered new input out in
  hooks = [] /\ dropped s' = 0 /\ out' ++ held s' = out ++ input /\
  flush s' out' = (new, out ++ input, []).
Proof.
  intros Hno. unfold tap_ordered.
  assert (exists o1, let '(s', out', hooks) := scan step (new, out, []) input in
    hooks = [] /\ dropped s' = 0 /\ out' = out ++ o1 /\ input = o1 ++ held s' /\
    (state s' = Ground \/ exists n, 1 <= n <= 3 /\ state s' = Prefix (take n PREFIX))) as [o1 H].
  { induction input as [|b input IH] using rev_ind.
    { exists []. rewrite scan_nil, app_nil_r. naive_solver. }
    rewrite scan_app.
    destruct IH as [o1 IH].
    { intros a c ->. apply (Hno a (c ++ [b])). by rewrite <- !(assoc_L (++)). }
    destruct (scan step (new, out, []) input) as [[[st d] o] h]. unfold held in IH.
    simpl in IH. destruct IH as (-> & -> & -> & Hin & Hst). rewrite scan_cons, scan_nil.
    destruct Hst as [-> | (n & Hn & ->)].
    - rewrite app_nil_r in Hin. subst o1. unfold step. cbn [state dropped].
      destruct (N.eqb_spec b ESC) as [->|]; simpl; unfold held; simpl.
      + exists input. do 4 (split; [done|]). right. exists 1. split; [lia|done].
      + exists (input ++ [b]). rewrite app_nil_r, <- (assoc_L (++)). naive_solver.
    - rewrite step_prefix by done. case_bool_decide as Hb.
      + apply take_S_r in Hb as Htake.
        rewrite Hin, <- (assoc_L (++)), <- Htake in Hno |- *. exists o1.
        destruct (Nat.eqb_spec n 3) as [->|Hn3].
        { exfalso. by apply (Hno o1 []). }
        simpl. unfold held. simpl. do 4 (split; [done|]). right. exists (S n). split; [lia|done].
      + exists (input ++ [b]). simpl. unfold held. simpl.
        rewrite app_nil_r, Hin, <- !(assoc_L (++)). naive_solver. }
  destruct (scan step (new, out, []) input) as [[[st d] o] h]. simpl in H.
  destruct H as (-> & -> & -> & -> & Hst). do 2 (split; [done|]). rewrite <- (assoc_L (++)).
  split; [done|]. unfold flush, held in *. simpl in *.
  destruct Hst as [-> | (n & _ & ->)]; simpl in *; by rewrite ?app_nil_r, <- ?(assoc_L (++)).
Qed.
(** ** The round trip *)

(** Reads one after the other, all writing to one [passthrough]. *)
Fixpoint tap_reads (s : t) (reads : list Bytes) (out : Bytes) : t * Bytes * list (nat * HookEvent) :=
  match reads with
  | [] => (s, out, [])
  | r :: reads' =>
      let '(s1, out1, h1) := tap_ordered s r out in
      let '(s2, out2, h2) := tap_reads s1 reads' out1 in (s2, out2, h1 ++ h2)
  end.

Lemma tap_reads_concat s reads out : tap_reads s reads out = tap_ordered s (concat reads) out.
Proof.
  revert s out. induction reads as [|r reads IH]; intros s out; [done|]. simpl.
  rewrite tap_ordered_app. destruct (tap_ordered s r out) as [[s1 out1] h1]. by rewrite IH.
Qed.

(** A session as its writer sees it: output of other programs and hooks. *)
Inductive segment : Type :=
| Text (l : Bytes)
| Envelope (event : HookEvent).

Definition encode_segment (g : segment) : Bytes :=
  match g with Text l => l | Envelope event => encode_hook event end.

Definition segment_text (g : segment) : Bytes :=
  match g with Text l => l | Envelope _ => [] end.

(** The hooks of a session, each at the amount of output before it. *)
Fixpoint segment_hooks (n : nat) (gs : list segment) : list (nat * HookEvent) :=
  match gs with
  | [] => []
  | Text l :: gs' => segment_hooks (n + length l) gs'
  | Envelope event :: gs' => (n, event) :: segment_hooks n gs'
  end.

(** What can be sent: output without our introducer, and hooks whose payload, two
    digits for each byte of JSON, stays below the bound. *)
Definition sendable (g : segment) : Prop :=
  match g with
  | Text l => foreign l
  | Envelope event => 2 * length (hook_to_json event) < MAX_BODY
  end.

Context {L : HookCodecLaws C}.

Lemma hex_no_escape l : ESC ∉ hex_encode l.
Proof.
  intros H. pose proof (hex_encode_digits l) as Hd. rewrite Forall_forall in Hd.
  by destruct (Hd ESC H).
Qed.

Lemma decode_encode_hook event :
  2 * length (hook_to_json event) < MAX_BODY ->
  decode_hook (hex_encode (hook_to_json event)) = Ok event.
Proof.
  intros Hlen. unfold decode_hook. rewrite length_hex_encode.
  rewrite (proj2 (Nat.ltb_ge _ _)) by lia.
  rewrite hex_decode_encode by apply json_bytes. simpl. by rewrite json_roundtrip.
Qed.

Lemma tap_envelope d out event :
  2 * length (hook_to_json event) < MAX_BODY ->
  tap_ordered (mk Ground d) (encode_hook event) out = (mk Ground d, out, [(length out, event)]).
Proof.
  intros Hlen. unfold tap_ordered, encode_hook. rewrite scan_app, scan_prefix, scan_app.
  pose proof (hex_no_escape (hook_to_json event)) as Hno.
  pose proof (length_hex_encode (hook_to_json event)) as Hl.
  rewrite scan_payload; [|set_solver|done|simpl; lia].
  rewrite app_nil_l, scan_terminated by (done || lia).
  unfold complete. by rewrite decode_encode_hook.
Qed.

(** A session survives the wire: however the stream of its segments is cut into reads,
    the output of other programs comes out verbatim, every hook comes out once, in
    order and at the amount of output that precedes it, and nothing is dropped. *)
Theorem hook_stream_roundtrip gs reads d out :
  Forall sendable gs -> concat reads = concat (encode_segment <$> gs) ->
  tap_reads (mk Ground d) reads out =
    (mk Ground d, out ++ concat (segment_text <$> gs), segment_hooks (length out) gs).
Proof.
  intros Hgs Hreads. rewrite tap_reads_concat, Hreads. clear reads Hreads. revert out.
  induction Hgs as [|g gs Hg _ IH]; intros out; [by rewrite app_nil_r|].
  rewrite !fmap_cons. cbn [concat]. rewrite tap_ordered_app. destruct g as [l|event]; simpl in *.
  - unfold tap_ordered at 1. rewrite scan_foreign by done.
    by rewrite IH, length_app, <- (assoc_L (++)).
  - by rewrite tap_envelope, IH by done.
Qed.

(** Where the code misses an envelope: when the bytes just before it are a strict
    prefix of the introducer (a lone escape, say), the byte that breaks the prefix is
    the envelope's own escape, which is released with it; the hook is lost and its hex
    reaches the screen. *)
Lemma envelope_after_partial_prefix_leaks n d out event :
  1 <= n <= 3 ->
  tap_ordered (mk Ground d) (take n PREFIX ++ encode_hook event) out =
    (mk Ground d, out ++ take n PREFIX ++ encode_hook event, []).
Proof.
  intros Hn. apply scan_foreign. unfold encode_hook.
  change PREFIX with (ESC :: [80; 36; 100]%N) at 2. simpl app.
  apply foreign_escape; [done| |].
  { unfold PREFIX. assert (n = 1 \/ n = 2 \/ n = 3) as [-> | [-> | ->]] by lia; done. }
  do 3 (apply foreign_plain; [done|]).
  pose proof (hex_no_escape (hook_to_json event)) as Hno. revert Hno.
  induction (hex_encode (hook_to_json event)) as [|b l IH]; intros Hno.
  - apply (foreign_escape 1 BACKSLASH []); [lia|done|constructor].
  - apply not_elem_of_cons in Hno as [Hb Hno]. apply foreign_plain; [congruence|auto].
Qed.

End props.
End HookProps.

(** ** A concrete codec

    Two digits a byte as the [hex] crate writes and reads them, and for the JSON text a
    stand-in that any injective printer could be: the binary numeral of the hook's
    code. *)

Module HookDemo.
Import HookTap HookProps.

Definition digit_char (d : N) : byte := if (d <? 10)%N then (48 + d)%N else (87 + d)%N.
Definition char_digit (b : byte) : option N :=
  if in_range 48 57 b then Some (b - 48)%N
  else if in_range 97 102 b then Some (b - 87)%N
  else if in_range 65 70 b then Some (b - 55)%N
  else None.

(** A byte has two digits; what is no byte is read modulo 256. *)
Fixpoint demo_hex (l : Bytes) : Bytes :=
  match l with
  | [] => []
  | b :: l' => digit_char (b mod 256 / 16) :: digit_char (b mod 16) :: demo_hex l'
  end.

Fixpoint demo_hex_decode (l : Bytes) : option Bytes :=
  match l with
  | [] => Some []
  | h :: lo :: l' =>
      match char_digit h, char_digit lo, demo_hex_decode l' with
      | Some a, Some b, Some r => Some ((a * 16 + b)%N :: r)
      | _, _, _ => None
      end
  | _ => None
  end.

Fixpoint positive_bits (p : positive) : Bytes :=
  match p with
  | xH => []
  | xO p => 48%N :: positive_bits p
  | xI p => 49%N :: positive_bits p
  end.

Fixpoint bits_positive (l : Bytes) : positive :=
  match l with
  | [] => xH
  | b :: l' => if (b =? 48)%N then xO (bits_positive l') else xI (bits_positive l')
  end.

Abbreviation hook_tuple :=
  ((option Str * option Str * option Str * option Str * option bool) + option Str
   + (option Str * option Str * option Str * option Str * option Str * option Str * option Str * option bool)
   + option Str + (Z * option Str) + (Str * option N) + unit)%type (only parsing).

Definition to_tuple (e : HookEvent) : hook_tuple :=
  match e with
  | InitShell v => inl (inl (inl (inl (inl (inl
      (session_id v, shell v, host v, cwd v, honor_ps1 v))))))
  | Bootstrapped v => inl (inl (inl (inl (inl (inr (version v))))))
  | Precmd v => inl (inl (inl (inl (inr
      (pc_pwd v, pc_git_branch v, pc_rprompt v, pc_session_id v, pc_virtual_env v,
       pc_conda_env v, pc_node_version v, pc_honor_ps1 v)))))
  | Preexec v => inl (inl (inl (inr (command v))))
  | CommandFinished v => inl (inl (inr (exit_code v, next_block_id v)))
  | InputBuffer v => inl (inr (buffer v, cursor v))
  | Clear => inr tt
  end.

Definition of_tuple (t : hook_tuple) : HookEvent :=
  match t with
  | inl (inl (inl (inl (inl (inl (a, b, c, d, e)))))) => InitShell (mkInitShell a b c d e)
  | inl (inl (inl (inl (inl (inr a))))) => Bootstrapped (mkBootstrapped a)
  | inl (inl (inl (inl (inr (a, b, c, d, e, f, g, h))))) => Precmd (mkPrecmd a b c d e f g h)
  | inl (inl (inl (inr a))) => Preexec (mkPreexec a)
  | inl (inl (inr (a, b))) => CommandFinished (mkFinished a b)
  | inl (inr (a, b)) => InputBuffer (mkInputBuffer a b)
  | inr _ => Clear
  end.

Lemma of_to_tuple e : of_tuple (to_tuple e) = e.
Proof. by destruct e as [[]|[]|[]|[]|[]|[]|]. Qed.

Definition demo_to_json (e : HookEvent) : Bytes := positive_bits (encode (to_tuple e)).
Definition demo_from_json (l : Bytes) : result Str HookEvent :=
  match decode (A := hook_tuple) (bits_positive l) with
  | Some t => Ok (of_tuple t)
  | None => Err (lit "invalid hook")
  end.

#[export] Instance demo_codec : HookCodec :=
  {| hex_encode := demo_hex; hex_decode := demo_hex_decode;
     hook_to_json := demo_to_json; hook_from_json := demo_from_json |}.

Lemma char_digit_char d : (d < 16)%N -> char_digit (digit_char d) = Some d.
Proof. intros Hd. unfold digit_char, char_digit, in_range. decide_tests. all: f_equal; lia. Qed.

Lemma digit_char_range d :
  (d < 16)%N -> in_range 48 57 (digit_char d) = true \/ in_range 97 102 (digit_char d) = true.
Proof. intros Hd. unfold digit_char, in_range. decide_tests. all: auto. Qed.

Lemma demo_digits_bound b : (b mod 256 / 16 < 16)%N /\ (b mod 16 < 16)%N.
Proof.
  split; [apply N.Div0.div_lt_upper_bound|]; by apply N.mod_lt.
Qed.

Lemma demo_hex_roundtrip l : Forall is_byte l -> demo_hex_decode (demo_hex l) = Some l.
Proof.
  induction 1 as [|b l Hb _ IH]; [done|]. simpl.
  destruct (demo_digits_bound b). rewrite !char_digit_char, IH by done. do 2 f_equal.
  rewrite (N.mod_small b 256) by done. pose proof (N.div_mod b 16 ltac:(done)). lia.
Qed.

Lemma demo_hex_digits l :
  Forall (fun b => in_range 48 57 b = true \/ in_range 97 102 b = true) (demo_hex l).
Proof.
  induction l as [|b l IH]; simpl; [done|]. destruct (demo_digits_bound b).
  by repeat (apply Forall_cons; split; [by apply digit_char_range|]).
Qed.

Lemma length_demo_hex l : length (demo_hex l) = 2 * length l.
Proof. induction l as [|b l IH]; simpl; lia. Qed.

Lemma positive_bits_bytes p : Forall is_byte (positive_bits p).
Proof. induction p; simpl; repeat constructor; done. Qed.

Lemma bits_positive_bits p : bits_positive (positive_bits p) = p.
Proof. induction p; simpl; congruence. Qed.

Lemma demo_json_roundtrip e : demo_from_json (demo_to_json e) = Ok e.
Proof.
  unfold demo_from_json, demo_to_json. rewrite bits_positive_bits, decode_encode.
  by rewrite of_to_tuple.
Qed.

#[export] Instance demo_codec_laws : HookCodecLaws demo_codec.
Proof.
  split.
  - apply demo_hex_roundtrip.
  - apply length_demo_hex.
  - apply demo_hex_digits.
  - apply demo_json_roundtrip.
  - intros e. apply positive_bits_bytes.
Qed.

End HookDemo.

Module HookWitness.
Import HookTap HookProps HookDemo.

Definition finished7 : HookEvent := CommandFinished (mkFinished 7 None).

(** A session in two reads, cut inside the second hook. *)
Definition session : list segment :=
  [Text (lit "ls"); Envelope finished7; Text (ESC :: lit "[0m$ "); Envelope Clear].

Lemma short_payload n : (N.of_nat n <? 65536)%N = true -> n < MAX_BODY.
Proof.
  intros H%N.ltb_lt. Transparent MAX_BODY. unfold MAX_BODY. Opaque MAX_BODY. lia.
Qed.

Lemma session_sendable : Forall sendable session.
Proof.
  assert (forall l : Bytes, ESC ∉ l -> foreign l) as Hplain.
  { induction l; [constructor|]. intros [? ?]%not_elem_of_cons. by constructor; auto. }
  apply Forall_cons; split; [by apply Hplain, absent|].
  apply Forall_cons; split; [apply short_payload; vm_compute; reflexivity|].
  apply Forall_cons; split.
  { apply (foreign_escape 1); [lia|done|]. by apply Hplain, absent. }
  apply Forall_cons; split; [apply short_payload; vm_compute; reflexivity|constructor].
Qed.

Lemma hook_stream_roundtrip_witness :
  tap_reads new [take 20 (concat (encode_segment <$> session));
                 drop 20 (concat (encode_segment <$> session))] [] =
    (new, lit "ls" ++ ESC :: lit "[0m$ ", [(2, finished7); (8, Clear)]).
Proof.
  apply (hook_stream_roundtrip session).
  - exact session_sendable.
  - vm_compute. reflexivity.
Defined.

Lemma hook_envelope_outcome_witness :
  (ESC ∉ lit "zz") /\
  tap_ordered new (PREFIX ++ lit "zz" ++ STRING_TERMINATOR) [] = (mk Ground 1, [], []).
Proof.
  assert (ESC ∉ lit "zz") as H by by apply absent.
  split; [exact H|]. rewrite (hook_envelope_outcome 0 [] (lit "zz") H). reflexivity.
Defined.

Definition version_report : Bytes := ESC :: lit "P>|goble" ++ STRING_TERMINATOR.

Lemma foreign_stream_is_verbatim_witness :
  let '(s', out', hooks) := tap_ordered new version_report [] in
  hooks = [] /\ dropped s' = 0 /\ out' ++ held s' = version_report /\
  flush s' out' = (new, version_report, []).
Proof.
  apply (foreign_stream_is_verbatim version_report []). intros a b Heq.
  do 11 (destruct a as [|? a]; [discriminate Heq|]; injection Heq as _ Heq).
  by destruct a.
Defined.

End HookWitness.
