(* ===== verification/TermCells.v ===== *)
(** * Cells, colours and captured lines

    [goble-terminal]: the cell model ([screen/cell.rs]), colour resolution
    ([palette.rs]), the line-oriented rendering of captured output ([ansi.rs]) and
    the search over rows ([screen/search.rs]).

    The vendored VT parser is outside: captured output is the sequence of handler
    calls it makes ([Call]).  So is the [regex] crate ([Regex]): a compiled pattern
    is known by the matches it finds. *)

From S2P Require Import Prelude Bytes.

Open Scope goble_scope.

(** ** The cell model *)

Module Cells.

(** [vte::ansi::NamedColor], as [palette.rs] takes it apart. *)
Inductive NamedColor : Type :=
| Black | Red | Green | Yellow | Blue | Magenta | Cyan | White
| BrightBlack | BrightRed | BrightGreen | BrightYellow
| BrightBlue | BrightMagenta | BrightCyan | BrightWhite
| Foreground | Background | Cursor
| DimBlack | DimRed | DimGreen | DimYellow | DimBlue | DimMagenta | DimCyan | DimWhite
| BrightForeground | DimForeground.

#[export] Instance NamedColor_eq_dec : EqDecision NamedColor.
Proof. solve_decision. Defined.

Inductive ScreenColor : Type :=
| Named (c : NamedColor)
| Indexed (i : N)
| Rgb (r g b : N).

#[export] Instance ScreenColor_eq_dec : EqDecision ScreenColor.
Proof. solve_decision. Defined.

Definition is_default (c : ScreenColor) : bool :=
  match c with
  | Named (Foreground | BrightForeground | Background | Cursor | DimForeground) => true
  | _ => false
  end.

Inductive Underline : Type := NoUnderline | Single | Double | Curly | Dotted | Dashed.

#[export] Instance Underline_eq_dec : EqDecision Underline.
Proof. solve_decision. Defined.

Record CellAttrs : Type := mkAttrs {
  bold : bool;
  dim : bool;
  italic : bool;
  underline : Underline;
  underline_color : option ScreenColor;
  inverse : bool;
  hidden : bool;
  strikeout : bool;
  wide : bool;
  wide_spacer : bool;
  leading_wide_spacer : bool;
  wrapline : bool;
}.

Definition default_attrs : CellAttrs :=
  mkAttrs false false false NoUnderline None false false false false false false false.

#[export] Instance CellAttrs_eq_dec : EqDecision CellAttrs.
Proof. solve_decision. Defined.

Definition SPACE : char := 32%N.

Record ScreenCell : Type := mkCell {
  ch : char;
  fg : ScreenColor;
  bg : ScreenColor;
  attrs : CellAttrs;
  zerowidth : Str;
  hyperlink : option Str;
}.

#[export] Instance ScreenCell_eq_dec : EqDecision ScreenCell.
Proof. solve_decision. Defined.

Definition default_cell : ScreenCell :=
  mkCell SPACE (Named Foreground) (Named Background) default_attrs [] None.

(** A [ScreenLine] is the cells of one row. *)
Abbreviation ScreenLine := (list ScreenCell) (only parsing).

Definition is_spacer (c : ScreenCell) : bool :=
  wide_spacer (attrs c) || leading_wide_spacer (attrs c).

Definition cell_text (c : ScreenCell) : Str :=
  (if is_spacer c then [] else [ch c]) ++ zerowidth c.

(** [ScreenLine::text]. *)
Definition line_text (l : ScreenLine) : Str := trim_end (l ≫= cell_text).

(** The cell predicate of [ansi.rs] and of [ScreenLine::is_blank]. *)
Definition is_blank (c : ScreenCell) : bool :=
  (ch c =? SPACE)%N && bool_decide (zerowidth c = []).

(** [ScreenLine::is_blank]. *)
Definition line_is_blank (l : ScreenLine) : bool := forallb is_blank l.

End Cells.

(** ** Colours *)

Module Palette.
Import Cells.

Abbreviation rgb := (N * N * N)%type (only parsing).

Definition ANSI_16 : list rgb :=
  [(0, 0, 0); (205, 0, 0); (0, 205, 0); (205, 205, 0);
   (0, 0, 238); (205, 0, 205); (0, 205, 205); (229, 229, 229);
   (127, 127, 127); (255, 0, 0); (0, 255, 0); (255, 255, 0);
   (92, 92, 255); (255, 0, 255); (0, 255, 255); (255, 255, 255)]%N.

Definition DIM : N := 2.

(** [ansi] is an array of sixteen colours. *)
Record t : Type := mk {
  foreground : rgb;
  background : rgb;
  cursor : rgb;
  ansi : list rgb;
}.

Definition xterm : t := mk (229, 229, 229)%N (0, 0, 0)%N (229, 229, 229)%N ANSI_16.

Definition with_defaults (p : t) (fg bg cur : rgb) : t := mk fg bg cur (ansi p).

Definition channel (value : N) : N := (value * DIM / 3)%N.
Definition dimmed (color : rgb) : rgb :=
  let '(r, g, b) := color in (channel r, channel g, channel b).

Definition dim_variant (n : NamedColor) : bool :=
  match n with
  | DimBlack | DimRed | DimGreen | DimYellow | DimBlue | DimMagenta | DimCyan | DimWhite
  | DimForeground => true
  | _ => false
  end.

(** Indexing the array of sixteen. *)
Definition ansi_at (p : t) (i : nat) : rgb := default (0, 0, 0)%N (ansi p !! i).

Definition level (value : N) : N := if (value =? 0)%N then 0%N else (55 + 40 * value)%N.

(** [Palette::indexed]; [index] is a [u8]. *)
Definition indexed (p : t) (index : N) : rgb :=
  if (index <=? 15)%N then ansi_at p (N.to_nat index)
  else if (index <=? 231)%N then
    let index := (index - 16)%N in
    (level (index / 36), level (index mod 36 / 6), level (index mod 6))
  else
    let level := (8 + 10 * (index - 232))%N in (level, level, level).

(** The entry of the table a name stands for. *)
Definition named_index (n : NamedColor) : option nat :=
  match n with
  | Black | DimBlack => Some 0 | Red | DimRed => Some 1
  | Green | DimGreen => Some 2 | Yellow | DimYellow => Some 3
  | Blue | DimBlue => Some 4 | Magenta | DimMagenta => Some 5
  | Cyan | DimCyan => Some 6 | White | DimWhite => Some 7
  | BrightBlack => Some 8 | BrightRed => Some 9 | BrightGreen => Some 10
  | BrightYellow => Some 11 | BrightBlue => Some 12 | BrightMagenta => Some 13
  | BrightCyan => Some 14 | BrightWhite => Some 15
  | _ => None
  end.

Definition named (p : t) (n : NamedColor) : rgb :=
  match named_index n with
  | Some i => let color := ansi_at p i in if dim_variant n then dimmed color else color
  | None =>
      match n with
      | Background => background p
      | Cursor => cursor p
      | DimForeground => dimmed (foreground p)
      | _ => foreground p
      end
  end.

Definition rgb_of (p : t) (c : ScreenColor) : rgb :=
  match c with
  | Rgb r g b => (r, g, b)
  | Indexed i => indexed p i
  | Named n => named p n
  end.

Definition cell_colors (p : t) (cell : ScreenCell) : rgb * rgb :=
  let fg0 := rgb_of p (fg cell) in
  let bg0 := rgb_of p (bg cell) in
  let '(fg1, bg1) := if inverse (attrs cell) then (bg0, fg0) else (fg0, bg0) in
  let fg2 := if dim (attrs cell) then dimmed fg1 else fg1 in
  let fg3 := if hidden (attrs cell) then bg1 else fg2 in
  (fg3, bg1).

End Palette.

(** ** Captured output as lines *)

Module Ansi.
Import Cells.

Definition MAX_ROWS : nat := N.to_nat 50000.
Definition MAX_COLUMNS : nat := N.to_nat 8192.
#[global] Opaque MAX_ROWS MAX_COLUMNS.

(** [vte::ansi::Color] and [Attr]; [OtherAttr] stands for the blink attributes, which
    the sink ignores. *)
Inductive Color : Type :=
| CNamed (n : NamedColor)
| CSpec (r g b : N)
| CIndexed (i : N).

Inductive Attr : Type :=
| Reset | Bold | Dim | Italic
| AUnderline | DoubleUnderline | Undercurl | DottedUnderline | DashedUnderline
| Reverse | Hidden | Strike
| CancelBold | CancelBoldDim | CancelItalic | CancelUnderline | CancelReverse
| CancelHidden | CancelStrike
| AForeground (c : Color) | ABackground (c : Color) | UnderlineColor (c : option Color)
| OtherAttr.

(** The calls of [vte::ansi::Handler] the sink implements; the others do nothing. *)
Inductive Call : Type :=
| Input (c : char)
| Linefeed
| Newline
| CarriageReturn
| Backspace
| PutTab (count : nat)
| TerminalAttribute (a : Attr).

Record t : Type := mk {
  rows : list ScreenLine;
  row : nat;
  col : nat;
  pen : ScreenCell;
}.

(** The pen is the cell the attributes in force would write, its character aside: the
    fields [fg], [bg], [bold] .. [strikeout] of [LineSink]. *)
Definition new : t := mk [[]] 0 0 default_cell.

Definition cell (s : t) (c : char) : ScreenCell :=
  mkCell c (fg (pen s)) (bg (pen s)) (attrs (pen s)) [] None.

(** [while row.len() <= col push; row[col] = cell]. *)
Definition write_at (col : nat) (c : ScreenCell) (r : ScreenLine) : ScreenLine :=
  <[col := c]> (r ++ replicate (S col - length r) default_cell).

Definition put (s : t) (c : char) : t :=
  if MAX_COLUMNS <=? col s then s
  else
    let rows := if length (rows s) <=? row s then rows s ++ [[]] else rows s in
    mk (alter (write_at (col s) (cell s c)) (row s) rows) (row s) (S (col s)) (pen s).

Definition newline (s : t) : t :=
  let row := S (row s) in
  let rows := rows s ++ replicate (S row - length (rows s)) [] in
  if MAX_ROWS <=? row then mk (drop 1 rows) (pred row) 0 (pen s)
  else mk rows row 0 (pen s).

Definition map_color (c : Color) : ScreenColor :=
  match c with CNamed n => Named n | CSpec r g b => Rgb r g b | CIndexed i => Indexed i end.

Definition set_attrs (f : CellAttrs -> CellAttrs) (c : ScreenCell) : ScreenCell :=
  mkCell (ch c) (fg c) (bg c) (f (attrs c)) (zerowidth c) (hyperlink c).
Definition set_bold (v : bool) (a : CellAttrs) : CellAttrs :=
  mkAttrs v (dim a) (italic a) (underline a) (underline_color a) (inverse a) (hidden a)
    (strikeout a) (wide a) (wide_spacer a) (leading_wide_spacer a) (wrapline a).
Definition set_dim (v : bool) (a : CellAttrs) : CellAttrs :=
  mkAttrs (bold a) v (italic a) (underline a) (underline_color a) (inverse a) (hidden a)
    (strikeout a) (wide a) (wide_spacer a) (leading_wide_spacer a) (wrapline a).
Definition set_italic (v : bool) (a : CellAttrs) : CellAttrs :=
  mkAttrs (bold a) (dim a) v (underline a) (underline_color a) (inverse a) (hidden a)
    (strikeout a) (wide a) (wide_spacer a) (leading_wide_spacer a) (wrapline a).
Definition set_underline (v : Underline) (a : CellAttrs) : CellAttrs :=
  mkAttrs (bold a) (dim a) (italic a) v (underline_color a) (inverse a) (hidden a)
    (strikeout a) (wide a) (wide_spacer a) (leading_wide_spacer a) (wrapline a).
Definition set_underline_color (v : option ScreenColor) (a : CellAttrs) : CellAttrs :=
  mkAttrs (bold a) (dim a) (italic a) (underline a) v (inverse a) (hidden a)
    (strikeout a) (wide a) (wide_spacer a) (leading_wide_spacer a) (wrapline a).
Definition set_inverse (v : bool) (a : CellAttrs) : CellAttrs :=
  mkAttrs (bold a) (dim a) (italic a) (underline a) (underline_color a) v (hidden a)
    (strikeout a) (wide a) (wide_spacer a) (leading_wide_spacer a) (wrapline a).
Definition set_hidden (v : bool) (a : CellAttrs) : CellAttrs :=
  mkAttrs (bold a) (dim a) (italic a) (underline a) (underline_color a) (inverse a) v
    (strikeout a) (wide a) (wide_spacer a) (leading_wide_spacer a) (wrapline a).
Definition set_strikeout (v : bool) (a : CellAttrs) : CellAttrs :=
  mkAttrs (bold a) (dim a) (italic a) (underline a) (underline_color a) (inverse a) (hidden a)
    v (wide a) (wide_spacer a) (leading_wide_spacer a) (wrapline a).
Definition set_fg (v : ScreenColor) (c : ScreenCell) : ScreenCell :=
  mkCell (ch c) v (bg c) (attrs c) (zerowidth c) (hyperlink c).
Definition set_bg (v : ScreenColor) (c : ScreenCell) : ScreenCell :=
  mkCell (ch c) (fg c) v (attrs c) (zerowidth c) (hyperlink c).

(** [terminal_attribute], on the pen. *)
Definition terminal_attribute (a : Attr) (p : ScreenCell) : ScreenCell :=
  match a with
  | Reset => default_cell
  | Bold => set_attrs (set_bold true) p
  | Dim => set_attrs (set_dim true) p
  | Italic => set_attrs (set_italic true) p
  | AUnderline => set_attrs (set_underline Single) p
  | DoubleUnderline => set_attrs (set_underline Double) p
  | Undercurl => set_attrs (set_underline Curly) p
  | DottedUnderline => set_attrs (set_underline Dotted) p
  | DashedUnderline => set_attrs (set_underline Dashed) p
  | Reverse => set_attrs (set_inverse true) p
  | Hidden => set_attrs (set_hidden true) p
  | Strike => set_attrs (set_strikeout true) p
  | CancelBold => set_attrs (set_bold false) p
  | CancelBoldDim => set_attrs (set_dim false) (set_attrs (set_bold false) p)
  | CancelItalic => set_attrs (set_italic false) p
  | CancelUnderline => set_attrs (set_underline_color None) (set_attrs (set_underline NoUnderline) p)
  | CancelReverse => set_attrs (set_inverse false) p
  | CancelHidden => set_attrs (set_hidden false) p
  | CancelStrike => set_attrs (set_strikeout false) p
  | AForeground c => set_fg (map_color c) p
  | ABackground c => set_bg (map_color c) p
  | UnderlineColor c => set_attrs (set_underline_color (map_color <$> c)) p
  | OtherAttr => p
  end.

Definition call (s : t) (c : Call) : t :=
  match c with
  | Input c => put s c
  | Linefeed | Newline => newline s
  | CarriageReturn => mk (rows s) (row s) 0 (pen s)
  | Backspace => mk (rows s) (row s) (col s - 1) (pen s)
  | PutTab count => mk (rows s) (row s) ((col s / 8 + max count 1) * 8) (pen s)
  | TerminalAttribute a => mk (rows s) (row s) (col s) (terminal_attribute a (pen s))
  end.

(** [while cells.last().is_some_and(is_blank) { cells.pop(); }] *)
Fixpoint pop_blank (l : ScreenLine) : ScreenLine :=
  match l with
  | c :: l' => if is_blank c then pop_blank l' else l
  | [] => []
  end.
Definition trim_cells (l : ScreenLine) : ScreenLine := reverse (pop_blank (reverse l)).

Definition finish (s : t) : list ScreenLine :=
  let rows := match last (rows s) with
              | Some r => if forallb is_blank r then take (pred (length (rows s))) (rows s)
                          else rows s
              | None => rows s
              end in
  trim_cells <$> rows.

(** [render_lines] of the bytes the parser turns into [calls]; no bytes, no lines. *)
Definition render_calls (calls : list Call) : list ScreenLine := finish (foldl call new calls).

Definition render_lines (parse : Bytes -> list Call) (bytes : Bytes) : list ScreenLine :=
  match bytes with
  | [] => []
  | _ => render_calls (parse bytes)
  end.

End Ansi.

(** ** Search *)

Module Search.
Import Cells.

(** The [regex] crate and the case table: [find_iter] gives byte ranges of the text. *)
Class Regex : Type := {
  regex : Type;
  regex_escape : Str -> Str;
  regex_build : Str -> bool -> result Str regex;
  find_iter : regex -> Str -> list (nat * nat);
  char_is_uppercase : char -> bool;
}.

Record SearchOptions : Type := mkOptions { use_regex : bool; case_sensitive : option bool }.

Definition literal : SearchOptions := mkOptions false None.
Definition regex_options : SearchOptions := mkOptions true None.

Record SearchMatch : Type := mkMatch { line : nat; col : nat; len : nat; text : Str }.

Inductive SearchError : Type := InvalidRegex (message : Str).

(** The characters of [s] that lie in its first [n] bytes: [s[..n].chars()]. *)
Fixpoint chars_upto (n : nat) (s : Str) : Str :=
  match s with
  | c :: s' => let w := length (encode_utf8 c) in
               if w <=? n then c :: chars_upto (n - w) s' else []
  | [] => []
  end.

(** One cell's characters with their column and width. *)
Definition cell_columns (column : nat) (c : ScreenCell) : list (char * nat * nat) :=
  if is_spacer c then []
  else (ch c, column, if wide (attrs c) then 2 else 1)
       :: ((fun mark => (mark, column, 0)) <$> zerowidth c).

Fixpoint row_columns (column : nat) (l : ScreenLine) : list (char * nat * nat) :=
  match l with
  | [] => []
  | c :: l' => cell_columns column c ++ row_columns (S column) l'
  end.

(** The text the search compares, and the column and width of each of its characters;
    the row's trailing blanks are cut off. *)
Definition char_columns (l : ScreenLine) : Str * list nat * list nat :=
  let all := row_columns 0 l in
  let text := trim_end ((fun x => x.1.1) <$> all) in
  let count := length text in
  (text, take count ((fun x => x.1.2) <$> all), take count ((fun x => x.2) <$> all)).

Section search.
Context {R : Regex}.

(** The match [found] of a row's text, as cells. *)
Definition match_cells (line_index : nat) (text : Str) (columns widths : list nat)
    (found : nat * nat) : option SearchMatch :=
  let '(start, stop) := found in
  if start =? stop then None
  else
    let first := length (chars_upto start text) in
    let last := length (chars_upto stop text) in
    match columns !! first with
    | None => None
    | Some col =>
        let stop_col := default col (columns !! (last - 1)) + default 1 (widths !! (last - 1)) in
        Some (mkMatch line_index col (stop_col - col) (drop first (chars_upto stop text)))
    end.

Definition search_row (re : regex) (line_index : nat) (l : ScreenLine) : list SearchMatch :=
  let '(text, columns, widths) := char_columns l in
  omap (match_cells line_index text columns widths) (find_iter re text).

Definition search_lines (lines : list ScreenLine) (query : Str) (options : SearchOptions)
    : result SearchError (list SearchMatch) :=
  if bool_decide (query = []) then Ok []
  else
    let sensitive := default (existsb char_is_uppercase query) (case_sensitive options) in
    let pattern := if use_regex options then query else regex_escape query in
    let? re := result_map_err InvalidRegex (regex_build pattern (negb sensitive)) in
    Ok (concat (imap (search_row re) lines)).

End search.
End Search.
