(* ===== verification/TermCellsProps.v ===== *)
(** * What cells, captured lines and search promise

    The line model stays within its bounds whatever a stream does; attributes never
    change the text; plain text comes out as its lines; and a search match names
    exactly the cells its text is drawn in. *)

From S2P Require Import Prelude Bytes TermCells.

Open Scope goble_scope.

Module AnsiProps.
Import Cells Ansi.

Lemma length_write_at c cell r :
  length (write_at c cell r) = max (length r) (S c).
Proof. unfold write_at. rewrite length_insert, length_app, length_replicate. lia. Qed.

(** The caret's row exists, and neither dimension passes its bound. *)
Record bounded (s : t) : Prop := {
  bounded_row : row s < length (rows s);
  bounded_rows : length (rows s) <= MAX_ROWS;
  bounded_cols : Forall (fun r => length r <= MAX_COLUMNS) (rows s);
}.

Lemma max_rows_pos : 1 < MAX_ROWS.
Proof. apply Nat.ltb_lt. vm_compute. reflexivity. Qed.

Lemma new_bounded : bounded new.
Proof. pose proof max_rows_pos. split; simpl; [lia..|]. repeat constructor. simpl. lia. Qed.

Lemma put_bounded s c : bounded s -> bounded (put s c).
Proof.
  intros [Hr Hrs Hc]. unfold put. destruct (Nat.leb_spec MAX_COLUMNS (col s)); [done|].
  rewrite (proj2 (Nat.leb_gt _ _)) by done.
  split; simpl; rewrite ?length_alter; [done..|].
  apply Forall_alter; [done|]. intros r _ Hlen. rewrite length_write_at. lia.
Qed.

Lemma newline_bounded s : bounded s -> bounded (newline s).
Proof.
  intros [Hr Hrs Hc]. unfold newline.
  assert (length (rows s ++ replicate (S (S (row s)) - length (rows s)) []) =
          max (length (rows s)) (S (S (row s)))) as Hlen.
  { rewrite length_app, length_replicate. lia. }
  assert (Forall (fun r => length r <= MAX_COLUMNS)
            (rows s ++ replicate (S (S (row s)) - length (rows s)) [])) as Hall.
  { apply Forall_app. split; [done|]. apply Forall_replicate. simpl. lia. }
  destruct (Nat.leb_spec MAX_ROWS (S (row s))); split; simpl.
  - rewrite length_drop, Hlen. lia.
  - rewrite length_drop, Hlen. lia.
  - by apply Forall_drop.
  - rewrite Hlen. lia.
  - rewrite Hlen. lia.
  - done.
Qed.

Lemma call_bounded s c : bounded s -> bounded (call s c).
Proof.
  intros Hs. destruct c; simpl; auto using put_bounded, newline_bounded; by destruct Hs.
Qed.

Lemma calls_bounded calls s : bounded s -> bounded (foldl call s calls).
Proof. revert s. induction calls; simpl; auto using call_bounded. Qed.

Lemma pop_blank_suffix l : exists k, l = k ++ pop_blank l /\ forallb is_blank k = true.
Proof.
  induction l as [|c l (k & Hk & Hb)]; simpl; [by exists []|].
  destruct (is_blank c) eqn:Hc; [|by exists []].
  exists (c :: k). simpl. rewrite Hc, Hb, <- Hk. done.
Qed.

Lemma trim_cells_prefix l : exists k, l = trim_cells l ++ k /\ forallb is_blank k = true.
Proof.
  unfold trim_cells. destruct (pop_blank_suffix (reverse l)) as (k & Hk & Hb).
  exists (reverse k). split.
  - by rewrite <- reverse_app, <- Hk, reverse_involutive.
  - apply forallb_forall. rewrite forallb_forall in Hb. intros c Hc. apply Hb.
    apply list_elem_of_In. apply list_elem_of_In in Hc. by apply elem_of_reverse.
Qed.

Lemma trim_cells_last l c : last (trim_cells l) = Some c -> is_blank c = false.
Proof.
  unfold trim_cells. rewrite last_reverse. induction (reverse l) as [|c' l' IH]; simpl; [done|].
  destruct (is_blank c') eqn:Hc; [done|]. simpl. congruence.
Qed.

(** Whatever calls the parser makes, the line model keeps the caret on an existing row, at
    most [MAX_ROWS] rows and [MAX_COLUMNS] columns, and the lines it ends with keep the
    bounds and end in no blank cell. *)
Theorem captured_lines_bounded calls :
  bounded (foldl call new calls) /\
  length (render_calls calls) <= MAX_ROWS /\
  Forall (fun l => length l <= MAX_COLUMNS /\ forall c, last l = Some c -> is_blank c = false)
    (render_calls calls).
Proof.
  pose proof (calls_bounded calls new new_bounded) as Hb. split; [done|].
  unfold render_calls, finish. destruct Hb as [_ Hrs Hc]. generalize dependent (foldl call new calls).
  intros s Hrs Hc. rewrite length_fmap.
  set (rs := match last (rows s) with Some r => _ | None => _ end).
  assert (rs `prefix_of` rows s) as [k Hk].
  { unfold rs. repeat case_match; try done. apply prefix_take. }
  rewrite Hk in Hrs, Hc. rewrite length_app in Hrs. split; [lia|].
  apply Forall_app in Hc as [Hc _]. apply Forall_fmap. eapply Forall_impl; [exact Hc|].
  intros r Hr. simpl. split; [|apply trim_cells_last].
  destruct (trim_cells_prefix r) as (k' & Hk' & _). rewrite Hk', length_app in Hr. lia.
Qed.

(** ** Attributes and text *)

(** What a cell contributes to the text. *)
Abbreviation shape c := (ch c, zerowidth c, is_spacer c) (only parsing).
Definition shape_of (c : ScreenCell) : char * Str * bool := shape c.

Abbreviation row_shape := (fmap (M := list) shape_of) (only parsing).

(** The same text at the same places, whatever the pens. *)
Record same_text (s s' : t) : Prop := {
  same_rows : row_shape <$> rows s = row_shape <$> rows s';
  same_row : row s = row s';
  same_col : col s = col s';
  same_pen : is_spacer (pen s) = false /\ is_spacer (pen s') = false;
}.

Lemma fmap_shape_length (l l' : ScreenLine) :
  shape_of <$> l = shape_of <$> l' -> length l = length l'.
Proof. intros H. apply (f_equal length) in H. by rewrite !length_fmap in H. Qed.

Lemma same_text_put s s' c : same_text s s' -> same_text (put s c) (put s' c).
Proof.
  intros [Hrs Hr Hc [Hp Hp']]. unfold put. rewrite <- Hc, <- Hr.
  assert (length (rows s) = length (rows s')) as Hl.
  { apply (f_equal length) in Hrs. by rewrite !length_fmap in Hrs. }
  rewrite <- Hl. case_match; [by split|].
  assert (forall rs rs' : list ScreenLine, row_shape <$> rs = row_shape <$> rs' ->
    row_shape <$> alter (write_at (col s) (cell s c)) (row s) rs =
    row_shape <$> alter (write_at (col s) (cell s' c)) (row s) rs') as Halt.
  { intros rs rs' Hrows. apply list_eq. intros i. apply (f_equal (.!! i)) in Hrows.
    rewrite !list_lookup_fmap in *. destruct (decide (row s = i)) as [->|].
    - rewrite !list_lookup_alter, !decide_True by done.
      destruct (rs !! i) as [r|], (rs' !! i) as [r'|]; simplify_eq/=; try done. f_equal.
      unfold write_at. rewrite !list_fmap_insert, !fmap_app, !fmap_replicate.
      rewrite (fmap_shape_length r r') by done. unfold cell, shape_of, is_spacer in *. simpl.
      rewrite Hp, Hp'. congruence.
    - by rewrite !list_lookup_alter_ne. }
  split; simpl; [|congruence|congruence|done].
  apply Halt. case_match; [|done]. by rewrite !fmap_app, Hrs.
Qed.

Lemma same_text_newline s s' : same_text s s' -> same_text (newline s) (newline s').
Proof.
  intros [Hrs Hr Hc Hp]. unfold newline. rewrite <- Hr.
  assert (length (rows s) = length (rows s')) as Hl.
  { apply (f_equal length) in Hrs. by rewrite !length_fmap in Hrs. }
  rewrite <- Hl.
  assert (row_shape <$> rows s ++ replicate (S (S (row s)) - length (rows s)) [] =
          row_shape <$> rows s' ++ replicate (S (S (row s)) - length (rows s)) []) as Hrows.
  { by rewrite !fmap_app, Hrs. }
  case_match; split; simpl; try done.
  by rewrite !fmap_drop, Hrows.
Qed.

Lemma terminal_attribute_spacer a p :
  is_spacer p = false -> is_spacer (terminal_attribute a p) = false.
Proof. by destruct a. Qed.

Lemma same_text_call s s' c : same_text s s' -> same_text (call s c) (call s' c).
Proof.
  intros Hs. destruct c; simpl; auto using same_text_put, same_text_newline;
    destruct Hs as [Hrs Hr Hc [Hp Hp']]; split; simpl; auto using terminal_attribute_spacer.
  all: congruence.
Qed.

Definition is_attribute (c : Call) : bool :=
  match c with TerminalAttribute _ => true | _ => false end.

Lemma same_text_attribute s s' a :
  same_text s s' -> same_text (call s (TerminalAttribute a)) s'.
Proof.
  intros [Hrs Hr Hc [Hp Hp']]. split; simpl; auto using terminal_attribute_spacer.
Qed.

Lemma same_text_calls calls s s' :
  same_text s s' ->
  same_text (foldl call s calls) (foldl call s' (filter (fun c => is_attribute c = false) calls)).
Proof.
  revert s s'. induction calls as [|c calls IH]; intros s s' Hs; [done|]. cbn [foldl].
  destruct c; rewrite ?filter_cons_True by done; cbn [foldl]; auto using same_text_call.
  rewrite filter_cons_False by done. auto using same_text_attribute.
Qed.

Lemma is_blank_shape c c' : shape_of c = shape_of c' -> is_blank c = is_blank c'.
Proof. unfold shape_of, is_blank. by intros [= -> -> _]. Qed.

Lemma forallb_shape (l l' : ScreenLine) :
  shape_of <$> l = shape_of <$> l' -> forallb is_blank l = forallb is_blank l'.
Proof.
  revert l'. induction l as [|c l IH]; intros [|c' l']; simpl; try done.
  intros [= H]. rewrite (IH l'), (is_blank_shape c c') by (done || unfold shape_of; congruence). done.
Qed.

Lemma trim_cells_shape (l l' : ScreenLine) :
  shape_of <$> l = shape_of <$> l' -> shape_of <$> trim_cells l = shape_of <$> trim_cells l'.
Proof.
  intros H. unfold trim_cells. rewrite !fmap_reverse. f_equal.
  apply (f_equal reverse) in H. rewrite <- !fmap_reverse in H.
  revert H. generalize (reverse l'), (reverse l). clear. intros l' l. revert l'.
  induction l as [|c l IH]; intros [|c' l']; simpl; try done.
  intros [= H1 H2 H3 H4]. rewrite (is_blank_shape c c') by (unfold shape_of; congruence).
  destruct (is_blank c'); [auto|]. simpl. unfold shape_of at 1 3. congruence.
Qed.

Lemma line_text_shape (l l' : ScreenLine) :
  shape_of <$> l = shape_of <$> l' -> line_text l = line_text l'.
Proof.
  intros H. unfold line_text. f_equal. revert l' H.
  induction l as [|c l IH]; intros [|c' l'] H; try done.
  rewrite !fmap_cons in H. injection H as H1 H2 H3 H4.
  rewrite !bind_cons, (IH l') by done. unfold cell_text. by rewrite H1, H2, H3.
Qed.

Lemma finish_same_text s s' :
  same_text s s' -> line_text <$> finish s = line_text <$> finish s'.
Proof.
  intros [Hrs _ _ _]. unfold finish. rewrite <- !list_fmap_compose.
  assert (forall rs rs' : list ScreenLine, row_shape <$> rs = row_shape <$> rs' ->
    line_text ∘ trim_cells <$> rs = line_text ∘ trim_cells <$> rs') as Hlines.
  { induction rs as [|r rs IH]; intros [|r' rs']; simpl; try done. intros [= Hr Hrs'].
    f_equal; [|auto]. by apply line_text_shape, trim_cells_shape. }
  apply Hlines.
  assert (length (rows s) = length (rows s')) as Hl.
  { apply (f_equal length) in Hrs. by rewrite !length_fmap in Hrs. }
  apply (f_equal last) in Hrs as Hlast. rewrite !fmap_last in Hlast.
  destruct (last (rows s)) as [r|], (last (rows s')) as [r'|]; simplify_eq/=; try done.
  rewrite (forallb_shape r r') by done. case_match; [|done].
  by rewrite !fmap_take, Hrs, Hl.
Qed.

(** Attributes paint and never edit: the text of the captured lines is the text of the
    same calls without the attribute ones. *)
Theorem attributes_keep_the_text calls :
  line_text <$> render_calls calls =
  line_text <$> render_calls (filter (fun c => is_attribute c = false) calls).
Proof. apply finish_same_text, same_text_calls. by split. Qed.

(** ** Plain text *)

(** A cell with nothing but a character. *)
Definition plain (c : char) : ScreenCell := cell new c.
Definition plain_row (l : Str) : ScreenLine := plain <$> l.

(** The calls of a text: its lines, a line feed between each and the next. *)
Fixpoint text_calls (l : Str) (ls : list Str) : list Call :=
  (Input <$> l) ++ match ls with [] => [] | l' :: ls' => Linefeed :: text_calls l' ls' end.

Lemma write_at_end c r : write_at (length r) c r = r ++ [c].
Proof.
  unfold write_at. replace (S (length r) - length r) with 1 by lia. simpl.
  by rewrite insert_app_r_alt, Nat.sub_diag by lia.
Qed.

Lemma put_end rs r c :
  length r < MAX_COLUMNS ->
  put (mk (rs ++ [r]) (length rs) (length r) default_cell) c =
    mk (rs ++ [r ++ [plain c]]) (length rs) (length (r ++ [plain c])) default_cell.
Proof.
  intros Hr. unfold put. cbn [col row rows]. rewrite (proj2 (Nat.leb_gt _ _)) by done.
  rewrite (proj2 (Nat.leb_gt _ _)) by (rewrite length_app; simpl; lia).
  rewrite alter_app_r_alt, Nat.sub_diag by lia. simpl.
  rewrite write_at_end, length_app. f_equal. simpl. lia.
Qed.

Lemma put_line rs r l :
  length r + length l <= MAX_COLUMNS ->
  foldl call (mk (rs ++ [r]) (length rs) (length r) default_cell) (Input <$> l) =
    mk (rs ++ [r ++ (plain <$> l)]) (length rs) (length (r ++ (plain <$> l))) default_cell.
Proof.
  revert r. induction l as [|c l IH]; intros r Hlen; [by rewrite app_nil_r|].
  simpl length in Hlen. rewrite !fmap_cons. cbn [foldl call]. rewrite put_end by lia.
  rewrite IH by (rewrite length_app; simpl; lia). by rewrite <- (assoc_L (++)).
Qed.

Lemma put_row rs l :
  length l <= MAX_COLUMNS ->
  foldl call (mk (rs ++ [[]]) (length rs) 0 default_cell) (Input <$> l) =
    mk (rs ++ [plain_row l]) (length rs) (length (plain_row l)) default_cell.
Proof. exact (put_line rs [] l). Qed.

Lemma newline_end rs r c :
  S (S (length rs)) <= MAX_ROWS ->
  newline (mk (rs ++ [r]) (length rs) c default_cell) =
    mk ((rs ++ [r]) ++ [[]]) (length (rs ++ [r])) 0 default_cell.
Proof.
  intros Hlen. unfold newline. cbn [row rows pen]. rewrite (proj2 (Nat.leb_gt _ _)) by lia.
  rewrite length_app. simpl. replace (length rs + 1) with (S (length rs)) by lia.
  by replace (S (S (length rs)) - S (length rs)) with 1 by lia.
Qed.

Lemma text_calls_rows rs l ls :
  length rs + S (length ls) <= MAX_ROWS ->
  Forall (fun l => length l <= MAX_COLUMNS) (l :: ls) ->
  exists r c, foldl call (mk (rs ++ [[]]) (length rs) 0 default_cell) (text_calls l ls) =
    mk (rs ++ (plain_row <$> (l :: ls))) r c default_cell.
Proof.
  revert rs l. induction ls as [|l' ls IH]; intros rs l Hlen Hall;
    apply Forall_cons in Hall as [Hl Hls]; cbn [text_calls]; rewrite foldl_app;
    rewrite put_row by done.
  - by eexists _, _.
  - cbn [foldl call]. simpl length in Hlen. rewrite newline_end by lia.
    destruct (IH (rs ++ [plain_row l]) l') as (r & c & ->);
      [rewrite length_app; simpl; lia|done|].
    exists r, c. by rewrite <- (assoc_L (++)).
Qed.

Lemma trim_start_app_white k l :
  Forall (fun c => is_whitespace c = true) k -> trim_start (k ++ l) = trim_start l.
Proof. induction 1 as [|c k Hc _ IH]; [done|]. simpl. by rewrite Hc. Qed.

Lemma trim_end_app_white l k :
  Forall (fun c => is_whitespace c = true) k -> trim_end (l ++ k) = trim_end l.
Proof.
  intros Hk. unfold trim_end. rewrite reverse_app, trim_start_app_white; [done|].
  by apply Forall_reverse.
Qed.

Lemma plain_text l : (plain <$> l) ≫= cell_text = l.
Proof. induction l as [|c l IH]; [done|]. rewrite fmap_cons, bind_cons, IH. done. Qed.

Lemma forallb_blank_plain l :
  forallb is_blank (plain <$> l) = true -> Forall (fun c => c = SPACE) l.
Proof.
  intros H. apply Forall_forall. intros c Hc.
  rewrite forallb_forall in H. specialize (H (plain c)).
  assert (is_blank (plain c) = true) as Hb.
  { apply H, list_elem_of_In. by apply list_elem_of_fmap_2. }
  unfold is_blank in Hb. apply andb_true_iff in Hb as [Hb _]. by apply N.eqb_eq in Hb.
Qed.

Lemma line_text_trim_plain l : line_text (trim_cells (plain_row l)) = trim_end l.
Proof.
  destruct (trim_cells_prefix (plain_row l)) as (k & Hk & Hb).
  apply fmap_app_inv in Hk as (l1 & l2 & Hl1 & Hl2 & ->). rewrite Hl1.
  unfold line_text. rewrite plain_text, trim_end_app_white; [done|].
  rewrite Hl2 in Hb. apply forallb_blank_plain in Hb.
  eapply Forall_impl; [exact Hb|]. by intros c ->.
Qed.

(** [str::lines] of a text given by its lines, as the renderer sees it: the last line
    is not one when it is blank. *)
Definition shown_lines (l : Str) (ls : list Str) : list Str :=
  let all := l :: ls in
  if forallb (fun c => (c =? SPACE)%N) (List.last all []) then take (length ls) all else all.

(** Plain text comes out as its lines: within the bounds, the captured lines of a text
    read as its lines with trailing blanks cut, the last one left out when it is empty
    or blank. *)
Theorem plain_text_renders_as_lines l ls :
  S (length ls) <= MAX_ROWS -> Forall (fun l => length l <= MAX_COLUMNS) (l :: ls) ->
  line_text <$> render_calls (text_calls l ls) = trim_end <$> shown_lines l ls.
Proof.
  intros Hlen Hall. unfold render_calls, new.
  destruct (text_calls_rows [] l ls) as (r & c & Hcalls); [done|done|].
  rewrite app_nil_l in Hcalls. cbn [app length] in Hcalls. rewrite Hcalls.
  unfold finish. cbn [rows].
  assert (forall all : list Str,
    line_text <$> (trim_cells <$> (plain_row <$> all)) = trim_end <$> all) as Hrows.
  { intros all. rewrite <- !list_fmap_compose. apply list_fmap_ext. intros i x _.
    apply line_text_trim_plain. }
  unfold shown_lines. rewrite fmap_last.
  assert (exists x, last (l :: ls) = Some x /\ List.last (l :: ls) [] = x) as (x & Hx & ->).
  { clear. revert l. induction ls as [|l' ls IH]; intros l; [by exists l|apply IH]. }
  rewrite Hx. cbn [fmap option_fmap option_map].
  assert (forallb is_blank (plain_row x) = forallb (fun c => (c =? SPACE)%N) x) as ->.
  { clear. induction x as [|c x IH]; [done|]. simpl. rewrite <- IH. unfold is_blank. simpl.
    by rewrite andb_true_r. }
  rewrite length_fmap. case_match; [|apply Hrows].
  rewrite <- fmap_take. apply (Hrows (take (length ls) (l :: ls))).
Qed.

End AnsiProps.

(** ** Search *)

Module SearchProps.
Import Cells Search.

(** What the [regex] crate documents: a match is a range of the text on character
    boundaries. *)
Class RegexLaws (R : Regex) : Prop := {
  find_iter_ranges re s a b :
    (a, b) ∈ find_iter re s ->
    exists p m q, s = p ++ m ++ q /\ a = length (as_bytes p) /\ b = length (as_bytes (p ++ m));
}.

(** A row without combining marks, where a wide cell is followed by its spacer. *)
Record plain_wide_row (l : ScreenLine) : Prop := {
  row_no_marks : Forall (fun c => zerowidth c = []) l;
  row_wide i c :
    l !! i = Some c -> is_spacer c = false -> wide (attrs c) = true ->
    exists c', l !! S i = Some c' /\ is_spacer c' = true;
}.

Lemma encode_utf8_nonempty c : 0 < length (encode_utf8 c).
Proof. unfold encode_utf8. repeat case_match; simpl; lia. Qed.

Lemma chars_upto_app p q : chars_upto (length (as_bytes p)) (p ++ q) = p.
Proof.
  induction p as [|c p IH]; simpl app.
  - destruct q as [|c q]; [done|]. simpl. pose proof (encode_utf8_nonempty c).
    by rewrite (proj2 (Nat.leb_gt _ _)).
  - rewrite as_bytes_cons, length_app. cbn [chars_upto].
    rewrite (proj2 (Nat.leb_le _ _)) by lia.
    by replace (length (encode_utf8 c) + length (as_bytes p) - length (encode_utf8 c))
      with (length (as_bytes p)) by lia; rewrite IH.
Qed.

Lemma row_columns_app k l l' :
  row_columns k (l ++ l') = row_columns k l ++ row_columns (k + length l) l'.
Proof.
  revert k. induction l as [|c l IH]; intros k; simpl; [by rewrite Nat.add_0_r|].
  by rewrite IH, <- (assoc_L (++)), Nat.add_succ_r.
Qed.

Lemma row_columns_chars k l :
  Forall (fun c => zerowidth c = []) l ->
  (fun x => x.1.1) <$> row_columns k l = l ≫= cell_text.
Proof.
  intros Hl. revert k. induction Hl as [|c l Hc _ IH]; intros k; [done|].
  rewrite bind_cons. cbn [row_columns]. rewrite fmap_app, IH. f_equal.
  unfold cell_columns, cell_text. rewrite Hc. by destruct (is_spacer c).
Qed.

(** Where an entry comes from: its own cell, with one entry for each character of the
    cells before it. *)
Lemma row_columns_lookup l k i x col w :
  Forall (fun c => zerowidth c = []) l -> row_columns k l !! i = Some (x, k + col, w) ->
  exists c, l !! col = Some c /\ is_spacer c = false /\ w = (if wide (attrs c) then 2 else 1) /\
    length (take col l ≫= cell_text) = i.
Proof.
  intros Hl. revert k i col. induction Hl as [|c l Hc Hl IH]; intros k i col; [done|].
  cbn [row_columns]. unfold cell_columns. rewrite Hc.
  assert (forall i', row_columns (S k) l !! i' = Some (x, k + col, w) ->
    exists col', col = S col') as Hpos.
  { intros i' Hi'. destruct col as [|col']; [|by exists col'].
    exfalso. clear -Hi'. revert Hi'. rewrite Nat.add_0_r. generalize (Nat.lt_succ_diag_r k).
    generalize (S k) as k'. revert i'.
    induction l as [|c l IH]; intros i' k' Hk; [done|]. cbn [row_columns].
    unfold cell_columns. intros H. apply lookup_app_Some in H as [H|[_ H]].
    - case_match; [done|]. destruct i' as [|i']; simplify_eq/=; [lia|].
      apply list_lookup_fmap_Some in H as (? & ? & ?). simplify_eq. lia.
    - eapply (IH _ (S k')); [|exact H]. lia. }
  destruct (is_spacer c) eqn:Hs; simpl.
  - intros H. destruct (Hpos _ H) as [col' ->]. rewrite Nat.add_succ_r in H.
    destruct (IH (S k) i col' H) as (c' & Hc' & Hs' & Hw & Hlen).
    exists c'. split; [done|]. split; [done|]. split; [done|].
    rewrite firstn_cons, bind_cons, length_app, Hlen. unfold cell_text. by rewrite Hs, Hc.
  - destruct i as [|i]; simpl.
    + intros H. injection H as _ Hcol Hw. assert (col = 0) as -> by lia. by exists c.
    + intros H. destruct (Hpos _ H) as [col' ->]. rewrite Nat.add_succ_r in H.
      destruct (IH (S k) i col' H) as (c' & Hc' & Hs' & Hw & Hlen).
      exists c'. split; [done|]. split; [done|]. split; [done|].
      rewrite firstn_cons, bind_cons, length_app, Hlen. unfold cell_text. by rewrite Hs, Hc.
Qed.

Lemma trim_start_suffix l : exists k, l = k ++ trim_start l.
Proof.
  induction l as [|c l [k Hk]]; [by exists []|]. simpl. case_match; [|by exists []].
  exists (c :: k). simpl. congruence.
Qed.

Lemma trim_end_prefix l : exists k, l = trim_end l ++ k.
Proof.
  unfold trim_end. destruct (trim_start_suffix (reverse l)) as [k Hk]. exists (reverse k).
  by rewrite <- reverse_app, <- Hk, reverse_involutive.
Qed.

(** The text of the cells up to and with an entry's cell is the text up to and with its
    character. *)
Lemma take_cells_text l i x col w :
  plain_wide_row l -> row_columns 0 l !! i = Some (x, col, w) ->
  take col l ≫= cell_text = take i (l ≫= cell_text) /\
  take (col + w) l ≫= cell_text = take (S i) (l ≫= cell_text) /\ col + w <= length l /\ 0 < w.
Proof.
  intros [Hz Hwide] Hi. destruct (row_columns_lookup l 0 i x col w Hz Hi) as (c & Hc & Hs & -> & Hlen).
  assert (forall n, take n l ≫= cell_text = take (length (take n l ≫= cell_text)) (l ≫= cell_text))
    as Hpre.
  { intros n. rewrite <- (take_drop n l) at 3. by rewrite bind_app, take_app_length. }
  assert (zerowidth c = []) as Hzc by (rewrite Forall_lookup in Hz; by eapply Hz).
  assert (length (take (S col) l ≫= cell_text) = S i) as Hlen1.
  { rewrite (take_S_r _ _ _ Hc), bind_app, length_app, Hlen, bind_singleton. unfold cell_text.
    rewrite Hs, Hzc. simpl. lia. }
  assert (length (take (col + (if wide (attrs c) then 2 else 1)) l ≫= cell_text) = S i /\
          col + (if wide (attrs c) then 2 else 1) <= length l) as [Hlen2 Hle].
  { destruct (wide (attrs c)) eqn:Hw.
    - destruct (Hwide col c Hc Hs Hw) as (c' & Hc' & Hs').
      assert (zerowidth c' = []) as Hzc' by (rewrite Forall_lookup in Hz; by eapply Hz).
      replace (col + 2) with (S (S col)) by lia. apply lookup_lt_Some in Hc' as Hlt.
      rewrite (take_S_r _ _ _ Hc'), bind_app, length_app, Hlen1, bind_singleton. unfold cell_text.
      rewrite Hs', Hzc'. simpl. lia.
    - rewrite Nat.add_1_r. apply lookup_lt_Some in Hc. auto. }
  split; [by rewrite Hpre, Hlen|]. split; [by rewrite Hpre, Hlen2|].
  split; [done|]. case_match; lia.
Qed.

Section search.
Context {R : Regex} {L : RegexLaws R}.

Lemma search_row_spells re n l m :
  plain_wide_row l -> m ∈ search_row re n l ->
  line m = n /\ 0 < len m /\ col m + len m <= length l /\
  take (len m) (drop (col m) l) ≫= cell_text = text m.
Proof.
  intros Hrow. unfold search_row, char_columns.
  rewrite list_elem_of_omap. intros ([a b] & Hab & Hm).
  apply find_iter_ranges in Hab as (p & mt & q & Hs & -> & ->).
  rewrite row_columns_chars in * by apply Hrow. unfold match_cells in Hm.
  destruct (Nat.eqb_spec (length (as_bytes p)) (length (as_bytes (p ++ mt)))) as [|Hne]; [done|].
  rewrite Hs in Hm. rewrite chars_upto_app, (assoc_L (++)), chars_upto_app in Hm.
  assert (mt <> []) as Hmt by (intros ->; by rewrite app_nil_r in Hne).
  assert (length mt <> 0) by by destruct mt.
  destruct (trim_end_prefix (l ≫= cell_text)) as [k Hk]. rewrite Hs in Hk.
  assert (length (row_columns 0 l) = length (l ≫= cell_text)) as Hlenc.
  { rewrite <- (row_columns_chars 0 l) by apply Hrow. by rewrite length_fmap. }
  assert (length (l ≫= cell_text) = length p + length mt + length q + length k) as Hlt.
  { rewrite Hk, !length_app. lia. }
  set (i := length p) in *. set (j := length (p ++ mt) - 1) in *.
  assert (j = i + length mt - 1) as Hj by (unfold i, j; rewrite length_app; lia).
  destruct (row_columns 0 l !! i) as [[[x1 c1] w1]|] eqn:Hi; [|apply lookup_ge_None in Hi; lia].
  destruct (row_columns 0 l !! j) as [[[x2 c2] w2]|] eqn:Hjl; [|apply lookup_ge_None in Hjl; lia].
  rewrite !(lookup_take_lt _ (length ((p ++ mt) ++ q))) in Hm by (rewrite !length_app; unfold i in *; lia).
  rewrite !list_lookup_fmap, Hi, Hjl in Hm. simpl in Hm. injection Hm as <-. simpl.
  split; [done|].
  destruct (take_cells_text l i x1 c1 w1 Hrow Hi) as (Ht1 & _ & _ & _).
  destruct (take_cells_text l j x2 c2 w2 Hrow Hjl) as (_ & Ht2 & Hle & Hw2).
  replace (S j) with (length (p ++ mt)) in Ht2 by (unfold j; rewrite length_app; lia).
  rewrite Hk in Ht1, Ht2. unfold i in Ht1. rewrite <- !(assoc_L (++)), take_app_length in Ht1.
  rewrite (assoc_L (++) p), <- (assoc_L (++)), take_app_length in Ht2.
  assert (c1 < c2 + w2) as Hlt1.
  { destruct (Nat.lt_ge_cases c1 (c2 + w2)) as [|Hge]; [done|]. exfalso.
    replace (take c1 l) with (take (c2 + w2) l ++ take (c1 - (c2 + w2)) (drop (c2 + w2) l)) in Ht1
      by (rewrite take_take_drop; f_equal; lia).
    rewrite bind_app, Ht2 in Ht1. apply (f_equal length) in Ht1.
    rewrite !length_app in Ht1. lia. }
  split; [lia|]. split; [lia|]. unfold i. rewrite drop_app_length.
  replace (take (c2 + w2) l) with (take c1 l ++ take (c2 + w2 - c1) (drop c1 l)) in Ht2
    by (rewrite take_take_drop; f_equal; lia).
  rewrite bind_app, Ht1 in Ht2. by apply (inj (p ++.)) in Ht2.
Qed.


(** A search names cells: on rows without combining marks, whatever the pattern and the
    mode, every match lies on a row searched, inside it, covers at least one cell, and
    the cells it covers, wide ones with their spacer, spell exactly the text matched. *)
Theorem search_matches_spell_their_text lines query options found m :
  Forall plain_wide_row lines -> search_lines lines query options = Ok found -> m ∈ found ->
  exists l, lines !! line m = Some l /\ 0 < len m /\ col m + len m <= length l /\
    take (len m) (drop (col m) l) ≫= cell_text = text m.
Proof.
  intros Hrows. unfold search_lines. case_match; [intros [= <-] []%not_elem_of_nil|].
  match goal with |- (let? re := ?r in _) = _ -> _ => destruct r as [re|] end; [|done].
  intros [= <-] Hm. apply list_elem_of_In, in_concat in Hm as (ms & Hms & Hm).
  apply list_elem_of_In, list_elem_of_lookup in Hms as [n Hn]. rewrite list_lookup_imap in Hn.
  destruct (lines !! n) as [l|] eqn:Hl; simplify_eq/=. apply list_elem_of_In in Hm.
  assert (plain_wide_row l) as Hrow by (rewrite Forall_lookup in Hrows; by eapply Hrows).
  destruct (search_row_spells re n l m Hrow Hm) as (-> & ?). by exists l.
Qed.

End search.
End SearchProps.

(** ** On concrete rows *)

Module CellsWitness.
Import Cells Ansi AnsiProps Search SearchProps.

(** A pattern that stands for itself: every occurrence, as byte ranges. *)
Fixpoint occurrences (q p s : Str) : list (nat * nat) :=
  (if starts_with s q then [(length (as_bytes p), length (as_bytes (p ++ q)))] else [])
  ++ match s with [] => [] | c :: s' => occurrences q (p ++ [c]) s' end.

Definition demo_regex : Regex :=
  {| regex := Str; regex_escape q := q; regex_build q _ := Ok q;
     find_iter q s := occurrences q [] s; char_is_uppercase := is_ascii_uppercase |}.
#[local] Existing Instance demo_regex.

Lemma occurrences_ranges q p s a b :
  (a, b) ∈ occurrences q p s ->
  exists p' s', p ++ s = p' ++ q ++ s' /\ a = length (as_bytes p') /\ b = length (as_bytes (p' ++ q)).
Proof.
  revert p. induction s as [|c s IH]; intros p; simpl; rewrite elem_of_app; intros [H|H].
  2: by apply elem_of_nil in H.
  3: { destruct (IH _ H) as (p' & s' & Hs & ?). exists p', s'. by rewrite <- (assoc_L (++)) in Hs. }
  all: case_match eqn:Hq; [|by apply elem_of_nil in H].
  all: apply list_elem_of_singleton in H as [= -> ->]; apply bool_decide_eq_true in Hq.
  - exists p, []. destruct q; [by rewrite !app_nil_r|done].
  - exists p, (drop (length q) (c :: s)). split; [|done]. f_equal.
    rewrite <- (take_drop (length q) (c :: s)) at 1. by rewrite Hq.
Qed.

#[local] Instance demo_regex_laws : RegexLaws demo_regex.
Proof.
  constructor. intros re s a b H. apply occurrences_ranges in H as (p & q & Hs & ?).
  by exists p, re, q.
Qed.

Definition wide_cell (c : char) : ScreenCell :=
  mkCell c (Named Foreground) (Named Background)
    (mkAttrs false false false NoUnderline None false false false true false false false) [] None.
Definition spacer_cell : ScreenCell :=
  mkCell SPACE (Named Foreground) (Named Background)
    (mkAttrs false false false NoUnderline None false false false false true false false) [] None.

(** "a", two wide characters, "b". *)
Definition wide_row : ScreenLine :=
  [plain 97%N; wide_cell 26085%N; spacer_cell; wide_cell 26412%N; spacer_cell; plain 98%N].

Lemma wide_row_plain : plain_wide_row wide_row.
Proof.
  split; [repeat constructor|]. intros i c Hi Hs Hw.
  do 6 (destruct i as [|i]; [simplify_eq/=; eauto|]). done.
Qed.

Lemma search_matches_spell_their_text_witness :
  exists l, [wide_row] !! 0 = Some l /\ 0 < 4 /\ 1 + 4 <= length l /\
    take 4 (drop 1 l) ≫= cell_text = [26085; 26412]%N.
Proof.
  apply (search_matches_spell_their_text [wide_row] [26085; 26412]%N literal
           [mkMatch 0 1 4 [26085; 26412]%N] (mkMatch 0 1 4 [26085; 26412]%N)).
  - repeat constructor; apply wide_row_plain.
  - reflexivity.
  - by apply list_elem_of_singleton.
Defined.

Lemma plain_text_renders_as_lines_witness :
  line_text <$> render_calls (text_calls (lit "one ") [[]; lit "two"; []]) =
    [lit "one"; []; lit "two"].
Proof.
  apply (plain_text_renders_as_lines (lit "one ") [[]; lit "two"; []]).
  - apply Nat.leb_le. vm_compute. reflexivity.
  - repeat (apply Forall_cons; split); [..|done]; apply Nat.leb_le; vm_compute; reflexivity.
Defined.

(** Where the code differs from its comments: a match that ends in a combining mark has
    its last cell left out, here all of it; and a line of painted blanks is dropped
    with the background it painted. *)
Lemma marked_match_loses_its_cell :
  let e_acute := mkCell 101%N (Named Foreground) (Named Background) default_attrs [769%N] None in
  search_lines [[e_acute]] [101; 769]%N literal = Ok [mkMatch 0 0 0 [101; 769]%N].
Proof. reflexivity. Qed.

Lemma painted_blanks_are_dropped :
  render_calls [TerminalAttribute (ABackground (CNamed Red)); Input SPACE; Input SPACE] = [] /\
  render_calls [Input SPACE] = [].
Proof. split; reflexivity. Qed.

End CellsWitness.
