(* ===== verification/TermSixel.v ===== *)
(** * Sixel decoding

    [goble-terminal/src/image.rs], [decode_sixel]: palette operators, repeats, bands and
    raster attributes over a byte stream, into RGBA pixels; with the decoder's
    termination and the bounds it keeps, and the one it does not. *)

From S2P Require Import Prelude Bytes.

Open Scope goble_scope.

Module Sixel.

Definition MAX_SIXEL_DIMENSION : N := 16384.
Definition MAX_SIXEL_PIXELS : N := 8000000.

Abbreviation pixel := (N * N * N * N)%type (only parsing).

Definition DEFAULT_SIXEL_PALETTE : list (N * N * N) :=
  [(0, 0, 0); (205, 0, 0); (0, 205, 0); (205, 205, 0);
   (0, 0, 238); (205, 0, 205); (0, 205, 205); (229, 229, 229);
   (127, 127, 127); (255, 0, 0); (0, 255, 0); (255, 255, 0);
   (92, 92, 255); (255, 0, 255); (0, 255, 255); (255, 255, 255)]%N.

Definition TRANSPARENT : pixel := (0, 0, 0, 0)%N.

(** The registers, by number. *)
Definition Palette : Type := gmap N pixel.

Definition default_palette : Palette :=
  list_to_map (imap (fun i '(r, g, b) => (N.of_nat i, (r, g, b, 255%N))) DEFAULT_SIXEL_PALETTE).

Record Raster : Type := mkRaster {
  rows : list (list pixel);
  max_x : option nat;
  max_y : option nat;
}.

Definition empty_raster : Raster := mkRaster [] None None.

(** [current.map_or(v, |c| c.max(v))]. *)
Definition raise (o : option nat) (v : nat) : option nat :=
  Some (match o with Some c => max c v | None => v end).

(** [if line.len() <= x { line.resize(x + 1, TRANSPARENT) } line[x] = color]. *)
Definition set_pixel (color : pixel) (line : list pixel) (x : nat) : list pixel :=
  <[x := color]> (line ++ replicate (S x - length line) TRANSPARENT).

Definition paint (x repeat : nat) (color : pixel) (line : list pixel) : list pixel :=
  foldl (set_pixel color) line (seq x repeat).

(** One of the six offsets of [draw]. *)
Definition draw_offset (x y repeat : nat) (bits : N) (color : pixel) (r : option Raster)
    (offset : nat) : option Raster :=
  match r with
  | None => None
  | Some r =>
      if negb (N.testbit bits (N.of_nat offset)) then Some r
      else
        let row := y + offset in
        if (MAX_SIXEL_DIMENSION <=? N.of_nat row)%N then None
        else
          let rows := rows r ++ replicate (S row - length (rows r)) [] in
          Some (mkRaster (alter (paint x repeat color) row rows) (max_x r) (raise (max_y r) row))
  end.

(** [SixelRaster::draw]; the position and the repeat fit no saturation in 64 bits. *)
Definition draw (r : Raster) (x y : nat) (sixel : byte) (repeat : nat) (palette : Palette)
    (current : N) : option Raster :=
  let bits := (sixel - 63)%N in
  let color := default (0, 0, 0, 255)%N (palette !! current) in
  if (MAX_SIXEL_DIMENSION <? N.of_nat (x + repeat))%N
     || (MAX_SIXEL_PIXELS <? N.of_nat (x + repeat) * N.of_nat (y + 6))%N
  then None
  else
    match foldl (draw_offset x y repeat bits color) (Some r) [0; 1; 2; 3; 4; 5] with
    | None => None
    | Some r =>
        if (bits =? 0)%N then Some r
        else Some (mkRaster (rows r) (raise (max_x r) (x + repeat - 1)) (max_y r))
    end.

(** [parse_number]: at least one digit, saturating in 32 bits; with the bytes after. *)
Fixpoint take_digits (value : N) (l : Bytes) : N * Bytes :=
  match l with
  | b :: l' =>
      if is_ascii_digit b
      then take_digits (u32_saturating_add (u32_saturating_mul value 10) (b - 48)) l'
      else (value, l)
  | [] => (value, [])
  end.
Definition parse_number (l : Bytes) : option (N * Bytes) :=
  match l with
  | b :: _ => if is_ascii_digit b then Some (take_digits 0 l) else None
  | [] => None
  end.

Definition SEMICOLON : byte := 59%N.

(** Up to [limit] numbers separated by semicolons; a semicolon asks for another one
    unless the limit is reached. *)
Fixpoint read_numbers (limit : nat) (l : Bytes) : option (list N * Bytes) :=
  match limit with
  | O => Some ([], l)
  | S limit' =>
      match parse_number l with
      | None => None
      | Some (value, rest) =>
          match rest with
          | b :: rest' =>
              if (b =? SEMICOLON)%N then
                match read_numbers limit' rest' with
                | Some (values, rest'') => Some (value :: values, rest'')
                | None => None
                end
              else Some ([value], rest)
          | [] => Some ([value], [])
          end
      end
  end.

Arguments read_numbers : simpl never.

Definition to_byte (value : N) : N := (N.min value 100 * 255 / 100)%N.

(** A palette command: select a register and, with five numbers, define it.  The
    values are truncated to 16 bits. *)
Definition select_color (values : list N) (palette : Palette) (current : N) : Palette * N :=
  let values := (fun v => v mod 65536)%N <$> values in
  match values with
  | [] => (palette, current)
  | pc :: _ =>
      match values with
      | _ :: _ :: r :: g :: b :: _ =>
          (<[pc := (to_byte r, to_byte g, to_byte b, 255%N)]> palette, pc)
      | _ => (palette, pc)
      end
  end.

Record Decoder : Type := mkDecoder {
  palette : Palette;
  current : N;
  raster : Raster;
  x : nat;
  y : nat;
}.

Definition start : Decoder := mkDecoder default_palette 0 empty_raster 0 0.

Definition is_sixel (b : byte) : bool := in_range 63 126 b.

Definition advance (d : Decoder) (sixel : byte) (repeat : nat) : option Decoder :=
  match draw (raster d) (x d) (y d) sixel repeat (palette d) (current d) with
  | Some r => Some (mkDecoder (palette d) (current d) r (x d + repeat) (y d))
  | None => None
  end.

(** One turn of the loop of [decode_sixel]: the next operator and the bytes after it;
    [None] abandons the image. *)
Definition operator (d : Decoder) (b : byte) (rest : Bytes) : option (Decoder * Bytes) :=
  if (b =? 33)%N then (* ! *)
    match parse_number rest with
    | None => None
    | Some (count, rest) =>
        let repeat := N.to_nat (N.min (N.max count 1) MAX_SIXEL_DIMENSION) in
        match rest with
        | [] => Some (d, [])
        | sixel :: rest =>
            if is_sixel sixel then
              match advance d sixel repeat with Some d => Some (d, rest) | None => None end
            else Some (d, rest)
        end
    end
  else if (b =? 35)%N then (* # *)
    match read_numbers (S (length rest)) rest with
    | None => None
    | Some (values, rest) =>
        let '(palette, current) := select_color values (palette d) (current d) in
        Some (mkDecoder palette current (raster d) (x d) (y d), rest)
    end
  else if (b =? 34)%N then (* raster attributes *)
    match read_numbers 4 rest with
    | None => None
    | Some (values, rest) =>
        match values !! 3 with
        | Some height =>
            if (MAX_SIXEL_DIMENSION <? height)%N then None else Some (d, rest)
        | None => Some (d, rest)
        end
    end
  else if (b =? 36)%N then (* $ *)
    Some (mkDecoder (palette d) (current d) (raster d) 0 (y d), rest)
  else if (b =? 45)%N then (* - *)
    if (MAX_SIXEL_DIMENSION <=? N.of_nat (y d + 6))%N then None
    else Some (mkDecoder (palette d) (current d) (raster d) 0 (y d + 6), rest)
  else if is_sixel b then
    match advance d b 1 with Some d => Some (d, rest) | None => None end
  else Some (d, rest).

(** The loop, by fuel: the outer [None] says that the fuel ran out. *)
Fixpoint run (fuel : nat) (d : Decoder) (data : Bytes) : option (option Decoder) :=
  match data with
  | [] => Some (Some d)
  | b :: rest =>
      match fuel with
      | O => None
      | S fuel =>
          match operator d b rest with
          | Some (d, rest) => run fuel d rest
          | None => Some None
          end
      end
  end.

Definition pixel_bytes (p : pixel) : Bytes := let '(r, g, b, a) := p in [r; g; b; a].

(** [row.get(x).unwrap_or(&TRANSPARENT)] for each [x] below [width]. *)
Definition row_bytes (width : nat) (row : list pixel) : Bytes :=
  seq 0 width ≫= fun x => pixel_bytes (default TRANSPARENT (row !! x)).

(** What remains of [decode_sixel] after its loop. *)
Definition emit (r : Raster) : option (N * N * Bytes) :=
  match max_x r, max_y r with
  | Some mx, Some my =>
      let width := S mx in
      let height := S my in
      if (MAX_SIXEL_DIMENSION <? N.of_nat width)%N || (MAX_SIXEL_DIMENSION <? N.of_nat height)%N
      then None
      else Some (N.of_nat width, N.of_nat height, take height (rows r) ≫= row_bytes width)
  | _, _ => None
  end.

Definition decode_sixel (data : Bytes) : option (N * N * Bytes) :=
  match run (length data) start data with
  | Some (Some d) => emit (raster d)
  | _ => None
  end.

End Sixel.

Module SixelProps.
Import Sixel.

(** ** Termination *)

Lemma take_digits_length v l : length (take_digits v l).2 <= length l.
Proof.
  revert v. induction l as [|b l IH]; intros v; simpl; [lia|]. case_match; simpl; [|lia].
  etrans; [apply IH|]. lia.
Qed.

Lemma parse_number_length l v rest : parse_number l = Some (v, rest) -> length rest < length l.
Proof.
  unfold parse_number. destruct l as [|b l]; [done|]. destruct (is_ascii_digit b) eqn:Hb; [|done].
  simpl. rewrite Hb. intros [= H]. pose proof (take_digits_length (u32_saturating_add (u32_saturating_mul 0 10) (b - 48)) l) as Hl.
  rewrite H in Hl. simpl in Hl. lia.
Qed.

Lemma read_numbers_length limit l values rest :
  read_numbers limit l = Some (values, rest) -> length rest <= length l.
Proof.
  revert l values. induction limit as [|limit IH]; intros l values; unfold read_numbers; [by intros [= _ <-]|]; fold read_numbers.
  destruct (parse_number l) as [[v r]|] eqn:Hp; [|done]. apply parse_number_length in Hp.
  destruct r as [|b r]; [intros [= _ <-]; simpl; lia|].
  case_match; [|intros [= _ <-]; lia].
  destruct (read_numbers limit r) as [[vs r']|] eqn:Hr; [|done]. intros [= _ <-].
  apply IH in Hr. simpl in Hp. lia.
Qed.

Lemma operator_length d b rest d' rest' :
  operator d b rest = Some (d', rest') -> length rest' <= length rest.
Proof.
  unfold operator. intros H. repeat case_match; simplify_eq/=; try lia.
  all: repeat match goal with
    | H : parse_number _ = Some _ |- _ => apply parse_number_length in H; simpl in H
    | H : read_numbers _ _ = Some _ |- _ => apply read_numbers_length in H
    end; lia.
Qed.

Lemma run_total fuel d data :
  length data <= fuel -> exists r, run fuel d data = Some r.
Proof.
  revert d data. induction fuel as [|fuel IH]; intros d data Hlen; destruct data as [|b rest];
    simpl in *; try (by eexists); [lia|].
  destruct (operator d b rest) as [[d' rest']|] eqn:Hop; [|by eexists].
  apply operator_length in Hop. apply IH. lia.
Qed.

Lemma run_more fuel fuel' d data r :
  run fuel d data = Some r -> fuel <= fuel' -> run fuel' d data = Some r.
Proof.
  revert fuel' d data. induction fuel as [|fuel IH]; intros [|fuel'] d [|b rest] H Hle;
    simpl in *; try done; [lia|].
  destruct (operator d b rest) as [[d' rest']|]; [|done]. apply IH; [done|lia].
Qed.

(** The sixel decoder returns on every stream: one turn per byte is enough fuel, and more
    changes nothing. *)
Theorem sixel_decoder_terminates data d fuel :
  length data <= fuel ->
  exists r, run fuel d data = Some r /\ run (length data) d data = Some r.
Proof.
  intros Hlen. destruct (run_total (length data) d data) as [r Hr]; [done|].
  exists r. split; [by eapply run_more|done].
Qed.

(** ** Bounds *)

(** The rows reach down to [max_y], and both maxima stay below the dimension cap. *)
Record raster_ok (r : Raster) : Prop := {
  ok_rows my : max_y r = Some my -> my < length (rows r);
  ok_max_y my : max_y r = Some my -> (N.of_nat my < MAX_SIXEL_DIMENSION)%N;
  ok_max_x mx : max_x r = Some mx -> (N.of_nat mx < MAX_SIXEL_DIMENSION)%N;
}.

Lemma draw_offset_ok x y repeat bits color r offset r' :
  raster_ok r -> draw_offset x y repeat bits color (Some r) offset = Some r' -> raster_ok r'.
Proof.
  intros [Hr Hy Hx]. unfold draw_offset. repeat case_match; intros [= <-]; [by split|].
  match goal with H : (_ <=? _)%N = false |- _ => apply N.leb_gt in H end.
  split; simpl; rewrite ?length_alter, ?length_app, ?length_replicate.
  - unfold raise. intros my [= <-]. destruct (max_y r) as [c|] eqn:Hc; [|lia].
    specialize (Hr c eq_refl). lia.
  - unfold raise. intros my [= <-]. destruct (max_y r) as [c|] eqn:Hc; [|lia].
    specialize (Hy c eq_refl). lia.
  - done.
Qed.

Lemma draw_ok r x y sixel repeat palette current r' :
  raster_ok r -> 0 < repeat -> draw r x y sixel repeat palette current = Some r' -> raster_ok r'.
Proof.
  intros Hr Hrep. unfold draw. set (color := default _ _). clearbody color.
  destruct (orb _ _) eqn:Hor; [done|]. apply orb_false_iff in Hor as [Hdim _].
  apply N.ltb_ge in Hdim.
  set (step := draw_offset x y repeat (sixel - 63) color).
  assert (forall l o, (forall r, o = Some r -> raster_ok r) ->
    forall r', foldl step o l = Some r' -> raster_ok r') as Hfold.
  { induction l as [|offset l IH]; intros o Ho r1; simpl; [apply Ho|]. apply IH.
    intros r2. destruct o as [r0|]; [|done]. apply draw_offset_ok. by apply Ho. }
  specialize (Hfold [0; 1; 2; 3; 4; 5] (Some r)).
  destruct (foldl step (Some r) [0; 1; 2; 3; 4; 5]) as [r1|]; [|done].
  specialize (Hfold ltac:(naive_solver) r1 eq_refl). case_match; intros [= <-]; [done|].
  destruct Hfold as [Hr1 Hy1 Hx1]. split; simpl; [done..|].
  unfold raise. intros mx [= <-]. destruct (max_x r1) as [c|] eqn:Hc; [|lia].
  specialize (Hx1 c eq_refl). lia.
Qed.

Lemma operator_ok d b rest d' rest' :
  raster_ok (raster d) -> operator d b rest = Some (d', rest') -> raster_ok (raster d').
Proof.
  assert (forall d sixel repeat d', raster_ok (raster d) -> 0 < repeat ->
    advance d sixel repeat = Some d' -> raster_ok (raster d')) as Hadv.
  { intros d0 sixel repeat d1 H0 Hrep. unfold advance. case_match eqn:Hd; [|done].
    intros [= <-]. simpl. by eapply draw_ok. }
  intros Hd. unfold operator. intros H.
  repeat case_match; simplify_eq/=; try done; eapply Hadv; try done; try lia.
  unfold MAX_SIXEL_DIMENSION. lia.
Qed.

Lemma run_ok fuel d data d' :
  raster_ok (raster d) -> run fuel d data = Some (Some d') -> raster_ok (raster d').
Proof.
  revert d data. induction fuel as [|fuel IH]; intros d [|b rest] Hd; simpl; try by intros [= <-].
  destruct (operator d b rest) as [[d1 rest1]|] eqn:Hop; [|done].
  apply IH. by eapply operator_ok.
Qed.

Lemma length_row_bytes width row : length (row_bytes width row) = 4 * width.
Proof.
  unfold row_bytes. pose proof (length_seq width 0) as Hlen. revert Hlen.
  generalize (seq 0 width). intros l <-.
  induction l as [|i l IH]; [done|]. rewrite bind_cons, length_app, IH.
  unfold pixel_bytes. destruct (default TRANSPARENT (row !! i)) as [[[??]?]?]. simpl. lia.
Qed.

Lemma length_rows_bytes width (rs : list (list pixel)) :
  length (rs ≫= row_bytes width) = 4 * width * length rs.
Proof.
  induction rs as [|r rs IH]; [simpl; lia|]. rewrite bind_cons, length_app, length_row_bytes, IH.
  simpl. lia.
Qed.

Lemma emit_size r width height rgba :
  raster_ok r -> emit r = Some (width, height, rgba) ->
  (1 <= width <= MAX_SIXEL_DIMENSION)%N /\ (1 <= height <= MAX_SIXEL_DIMENSION)%N /\
  N.of_nat (length rgba) = (4 * width * height)%N.
Proof.
  intros [Hr Hy Hx]. unfold emit.
  destruct (max_x r) as [mx|]; [|done]. destruct (max_y r) as [my|]; [|done].
  destruct (orb _ _) eqn:Hor; [done|]. apply orb_false_iff in Hor as [Hw%N.ltb_ge Hh%N.ltb_ge].
  intros [= <- <- <-]. split; [lia|]. split; [lia|].
  specialize (Hr my eq_refl).
  by rewrite length_rows_bytes, length_take, Nat.min_l, !Nat2N.inj_mul by lia.
Qed.

(** What a decoded sixel image measures: both dimensions between 1 and
    [MAX_SIXEL_DIMENSION], and exactly four bytes for each of its pixels. *)
Theorem sixel_image_is_well_formed data width height rgba :
  decode_sixel data = Some (width, height, rgba) ->
  (1 <= width <= MAX_SIXEL_DIMENSION)%N /\ (1 <= height <= MAX_SIXEL_DIMENSION)%N /\
  N.of_nat (length rgba) = (4 * width * height)%N.
Proof.
  unfold decode_sixel. destruct (run (length data) start data) as [[d|]|] eqn:Hrun; try done.
  apply emit_size. eapply run_ok; [|exact Hrun]. by split.
Qed.

Lemma sixel_image_is_well_formed_witness :
  (1 <= 2 <= MAX_SIXEL_DIMENSION)%N /\ (1 <= 1 <= MAX_SIXEL_DIMENSION)%N /\
  N.of_nat (length [205; 0; 0; 255; 205; 0; 0; 255]%N) = (4 * 2 * 1)%N.
Proof.
  apply (sixel_image_is_well_formed (lit "#1!2@") 2 1 [205; 0; 0; 255; 205; 0; 0; 255]%N).
  vm_compute. reflexivity.
Defined.

Lemma sixel_decoder_terminates_witness :
  exists r, run 100 start (lit "#1;2;0;0;0!3~-$?") = Some r /\
    run (length (lit "#1;2;0;0;0!3~-$?")) start (lit "#1;2;0;0;0!3~-$?") = Some r.
Proof. apply sixel_decoder_terminates. simpl. lia. Defined.

(** The pixel cap holds for each stroke and not for the image: one stroke to the right
    in the first band and one below the left edge pass the test each, and the image
    has more than [MAX_SIXEL_PIXELS] pixels. *)
Definition tall_and_wide : Bytes := lit "!3000@" ++ replicate 500 45%N ++ lit "@".

Lemma sixel_pixel_cap_is_not_kept :
  exists rgba, decode_sixel tall_and_wide = Some (3000%N, 3001%N, rgba) /\
    (MAX_SIXEL_PIXELS < 3000 * 3001)%N.
Proof.
  unfold decode_sixel.
  assert (exists d, run (length tall_and_wide) start tall_and_wide = Some (Some d) /\
    max_x (raster d) = Some 2999 /\ max_y (raster d) = Some 3000) as (d & -> & Hx & Hy).
  { set (o := run _ _ _).
    assert (match o with Some (Some d) =>
      bool_decide (max_x (raster d) = Some 2999) && bool_decide (max_y (raster d) = Some 3000)
      | _ => false end = true) as H by (vm_compute; reflexivity).
    destruct o as [[d|]|]; try done. apply andb_true_iff in H as [Hx Hy].
    apply bool_decide_eq_true in Hx, Hy. by exists d. }
  unfold emit. rewrite Hx, Hy. eexists. split; [reflexivity|]. vm_compute. reflexivity.
Qed.

End SixelProps.
