(* ===== verification/TermImage.v ===== *)
(** * In-band images

    [goble-terminal/src/image.rs]: the bounded cache of placements, and the tap that
    lifts kitty graphics commands and sixel streams out of the PTY bytes, with the store
    of transmissions it keeps.  The crates [base64] and [image] are parameters
    ([ImageCodecs]).  Sizes in bytes are [N]; a product of dimensions wraps at 64 bits,
    as it does in the release profile. *)

From S2P Require Import Prelude Bytes Text TermSixel.

Open Scope goble_scope.

Module Image.

Definition DEFAULT_IMAGE_CACHE_IMAGES : nat := 32.
Definition DEFAULT_IMAGE_CACHE_BYTES : N := 32 * 1024 * 1024.
Definition MAX_SEQUENCE_BYTES : N := 16 * 1024 * 1024.
Definition MAX_IMAGE_PIXELS : N := 8000000.

(** [base64::STANDARD.decode], and [image::load_from_memory_with_format] with
    [into_rgba8]: the dimensions and the pixels of a PNG file. *)
Class ImageCodecs : Type := {
  base64_decode : Bytes -> option Bytes;
  png_decode : Bytes -> option (N * N * Bytes);
}.

Inductive ImageFormat : Type := KittyPng | KittyRgb | KittyRgba | SixelFormat.

Definition blen (l : Bytes) : N := N.of_nat (length l).

Record ImageEvent : Type := mkEvent {
  id : N;
  format : ImageFormat;
  width : N;
  height : N;
  payload : Bytes;
  rgba : option Bytes;
  columns : option N;
  rows : option N;
  display : bool;
}.

(** A product in [usize]. *)
Definition usize_mul (a b : N) : N := (a * b) mod 18446744073709551616.

Definition is_renderable (e : ImageEvent) : bool :=
  match rgba e with
  | Some pixels => (blen pixels =? usize_mul (usize_mul (width e) (height e)) 4)%N
  | None => false
  end.

(** ** The placement cache *)

Record CachedImage : Type := mkCached {
  ci_event : ImageEvent;   (** id, format, dimensions, payload, columns and rows *)
  ci_rgba : Bytes;
  ci_row : nat;
  ci_column : nat;
  ci_sequence : N;
}.

Definition ci_id (i : CachedImage) : N := id (ci_event i).
Definition ci_cost (i : CachedImage) : N := (blen (payload (ci_event i)) + blen (ci_rgba i))%N.

Record ImageCache : Type := mkCache {
  images : list CachedImage;
  max_images : nat;
  max_bytes : N;
  bytes : N;
  next_sequence : N;
}.

Definition cache_new (max_images : nat) (max_bytes : N) : ImageCache :=
  mkCache [] max_images max_bytes 0 0.
Definition cache_default : ImageCache :=
  cache_new DEFAULT_IMAGE_CACHE_IMAGES DEFAULT_IMAGE_CACHE_BYTES.

Definition cache_clear (c : ImageCache) : ImageCache :=
  mkCache [] (max_images c) (max_bytes c) 0 (next_sequence c).

Definition cost_of (l : list CachedImage) : N := foldr (fun i n => (ci_cost i + n)%N) 0%N l.

(** [ImageCache::remove]. *)
Definition cache_remove (c : ImageCache) (i : N) : ImageCache :=
  let removed := cost_of (filter (fun im => ci_id im = i) (images c)) in
  mkCache (filter (fun im => ci_id im <> i) (images c)) (max_images c) (max_bytes c)
    (bytes c - removed) (next_sequence c).

(** The two loops of [enforce_bounds]: pop from the front while over a bound. *)
Fixpoint evict_images (max : nat) (l : list CachedImage) (b : N) : list CachedImage * N :=
  match l with
  | i :: l' => if (0 <? max) && (max <? length l) then evict_images max l' (b - ci_cost i)
               else (l, b)
  | [] => ([], b)
  end.
Fixpoint evict_bytes (max : N) (l : list CachedImage) (b : N) : list CachedImage * N :=
  match l with
  | i :: l' => if (0 <? max)%N && (max <? b)%N then evict_bytes max l' (b - ci_cost i) else (l, b)
  | [] => ([], b)
  end.
Definition enforce_bounds (c : ImageCache) : ImageCache :=
  let '(l1, b1) := evict_images (max_images c) (images c) (bytes c) in
  let '(l2, b2) := evict_bytes (max_bytes c) l1 b1 in
  mkCache l2 (max_images c) (max_bytes c) b2 (next_sequence c).

(** [ImageCache::insert]. *)
Definition cache_insert (c : ImageCache) (event : ImageEvent) (row column : nat)
    : ImageCache * option N :=
  if negb (display event) || negb (is_renderable event) then (c, None)
  else
    match rgba event with
    | None => (c, None)
    | Some pixels =>
        let cost := (blen (payload event) + blen pixels)%N in
        if (0 <? max_bytes c)%N && (max_bytes c <? cost)%N then (c, None)
        else
          let c := cache_remove c (id event) in
          let image := mkCached event pixels row column (next_sequence c) in
          let c := mkCache (images c ++ [image]) (max_images c) (max_bytes c) (bytes c + cost)
                     ((next_sequence c + 1) mod 18446744073709551616) in
          (enforce_bounds c, Some (id event))
    end.

Record ImagePlacement : Type := mkPlacement {
  pl_image : CachedImage;   (** all its fields but the row *)
  pl_row : nat;
}.

(** [ImageCache::visible]. *)
Definition cache_visible (c : ImageCache) (history display_offset screen_lines : nat)
    : list ImagePlacement :=
  let top := history - display_offset in
  let bottom := top + screen_lines in
  (fun i => mkPlacement i (ci_row i - top)) <$>
    filter (fun i => top <= ci_row i /\ ci_row i < bottom) (images c).

(** ** The tap *)

Inductive ImageDelete : Type :=
| DeleteImage (i : N)
| AllPlacements
| DeleteAll.

Inductive ImageChunk : Type :=
| ChunkBytes (l : Bytes)
| ChunkImage (e : ImageEvent)
| ChunkDelete (d : ImageDelete).

Inductive BodyKind : Type := Apc | Dcs.

#[export] Instance BodyKind_eq_dec : EqDecision BodyKind.
Proof. solve_decision. Defined.

Definition intro (k : BodyKind) : Bytes :=
  match k with Apc => [ESC; 95%N] | Dcs => [ESC; 80%N] end.

Inductive TapState : Type :=
| Ground
| Escape
| Body (kind : BodyKind) (body : Bytes) (esc : bool).

Record PendingKitty : Type := mkPending { pk_id : N; pk_control : Str; pk_payload : Str }.

Record StoredImage : Type := mkStored { st_event : ImageEvent; st_bytes : N }.

Record t : Type := mk {
  state : TapState;
  next_id : N;
  pending : option PendingKitty;
  stored : list StoredImage;
  stored_bytes : N;
  dropped : nat;
}.

Definition new : t := mk Ground 1 None [] 0 0.

Definition set_state (s : TapState) (p : t) : t :=
  mk s (next_id p) (pending p) (stored p) (stored_bytes p) (dropped p).
Definition set_next_id (n : N) (p : t) : t :=
  mk (state p) n (pending p) (stored p) (stored_bytes p) (dropped p).
Definition set_pending (o : option PendingKitty) (p : t) : t :=
  mk (state p) (next_id p) o (stored p) (stored_bytes p) (dropped p).
Definition set_stored (l : list StoredImage) (b : N) (p : t) : t :=
  mk (state p) (next_id p) (pending p) l b (dropped p).
Definition drop_one (p : t) : t :=
  mk (state p) (next_id p) (pending p) (stored p) (stored_bytes p) (S (dropped p)).

Definition ST : Bytes := [ESC; BACKSLASH].

(** [push_bytes]: joined to the bytes just before. *)
Fixpoint push_bytes (out : list ImageChunk) (l : Bytes) : list ImageChunk :=
  match out with
  | [] => [ChunkBytes l]
  | [ChunkBytes existing] => [ChunkBytes (existing ++ l)]
  | c :: out' => c :: push_bytes out' l
  end.

Definition EQUALS : char := 61%N.
Definition SEMICOLON : byte := 59%N.

(** [control_fields]: the fields whose key is one byte; a later one wins. *)
Definition control_fields (control : Str) : gmap N Str :=
  foldl (fun fields pair =>
    match split_once pair EQUALS with
    | Some ([key], value) => if (key <? 128)%N then <[key := value]> fields else fields
    | _ => fields
    end) ∅ (split_on COMMA control).

Definition key (s : string) : N := default 0%N (head (lit s)).
Definition field_u32 (fields : gmap N Str) (k : string) : option N :=
  fields !! key k ≫= parse_unsigned u32_max.
Definition field_size (fields : gmap N Str) (k : string) : option N :=
  match fields !! key k ≫= parse_unsigned usize_max with
  | Some n => if (0 <? n)%N then Some n else None
  | None => None
  end.
Definition field_char (fields : gmap N Str) (k : string) : option char := fields !! key k ≫= head.

Inductive KittyOutcome : Type :=
| OImage (e : ImageEvent)
| ODelete (d : ImageDelete)
| OIgnored
| OPending
| ODropped.

(** [take_id]. *)
Definition take_id (p : t) (wanted : option N) : t * N :=
  match wanted with
  | Some i =>
      if (i =? 0)%N then
        (set_next_id (N.max ((next_id p + 1) mod 4294967296) 1) p, next_id p)
      else (set_next_id (N.max (next_id p) (u32_saturating_add i 1)) p, i)
  | None => (set_next_id (N.max ((next_id p + 1) mod 4294967296) 1) p, next_id p)
  end.

(** The two loops at the end of [store]. *)
Fixpoint evict_count (l : list StoredImage) (b : N) : list StoredImage * N :=
  match l with
  | i :: l' => if DEFAULT_IMAGE_CACHE_IMAGES <? length l then evict_count l' (b - st_bytes i)
               else (l, b)
  | [] => ([], b)
  end.
Fixpoint evict_size (l : list StoredImage) (b : N) : list StoredImage * N :=
  match l with
  | i :: l' => if (DEFAULT_IMAGE_CACHE_BYTES <? b)%N && (1 <? length l)
               then evict_size l' (b - st_bytes i) else (l, b)
  | [] => ([], b)
  end.

Definition has_id (i : N) (s : StoredImage) : bool := (id (st_event s) =? i)%N.

(** [remove_stored]: the first entry with the id. *)
Definition remove_stored (p : t) (i : N) : t :=
  match position (has_id i) (stored p) with
  | Some index =>
      let old := from_option st_bytes 0%N (stored p !! index) in
      set_stored (delete index (stored p)) (stored_bytes p - old) p
  | None => p
  end.

Definition clear_stored (p : t) : t := set_stored [] 0 p.

(** [store]; what the saturating sum cannot reach is 2 to the 64. *)
Definition store_event (p : t) (event : ImageEvent) : t :=
  let b := (blen (payload event) + from_option blen 0%N (rgba event))%N in
  if (DEFAULT_IMAGE_CACHE_BYTES <? b)%N then p
  else
    let p := remove_stored p (id event) in
    let l := stored p ++ [mkStored event b] in
    let '(l1, b1) := evict_count l (N.min (stored_bytes p + b) u64_max) in
    let '(l2, b2) := evict_size l1 b1 in
    set_stored l2 b2 p.

(** [delete_image]. *)
Definition delete_image (p : t) (fields : gmap N Str) (i : N) : t * KittyOutcome :=
  match field_char fields "d" with
  | Some c =>
      if (c =? key "a")%N then (clear_stored p, ODelete DeleteAll)
      else if (c =? key "A")%N then (p, ODelete AllPlacements)
      else if one_of c "IPp" then
        if (i =? 0)%N then (p, OIgnored) else (p, ODelete (DeleteImage i))
      else if (c =? key "i")%N then
        if (i =? 0)%N then (clear_stored p, ODelete DeleteAll)
        else (remove_stored p i, ODelete (DeleteImage i))
      else (p, ODropped)
  | None =>
      if (i =? 0)%N then (clear_stored p, ODelete DeleteAll)
      else (remove_stored p i, ODelete (DeleteImage i))
  end.

(** [u32::from_be_bytes]. *)
Definition be32 (l : Bytes) : N := foldl (fun n b => n * 256 + b)%N 0%N l.

Definition PNG_MAGIC : Bytes := [137; 80; 78; 71; 13; 10; 26; 10]%N.

(** RGB triples to RGBA quadruples. *)
Fixpoint add_alpha (l : Bytes) : Bytes :=
  match l with
  | r :: g :: b :: l' => r :: g :: b :: 255%N :: add_alpha l'
  | _ => []
  end.

Section tap.
Context {C : ImageCodecs}.

(** The pixels of a transmission: dimensions and RGBA bytes. *)
Definition decode_pixels (f : ImageFormat) (declared_width declared_height : N) (data : Bytes)
    : option (N * N * Bytes) :=
  match f with
  | KittyPng =>
      if (blen data <? 24)%N || negb (bool_decide (take 8 data = PNG_MAGIC)) then None
      else
        let w := be32 (take 4 (drop 16 data)) in
        let h := be32 (take 4 (drop 20 data)) in
        if (w =? 0)%N || (h =? 0)%N || (MAX_IMAGE_PIXELS <? w * h)%N then None
        else png_decode data
  | KittyRgb =>
      if (declared_width =? 0)%N || (declared_height =? 0)%N then None
      else
        let expected := usize_mul (usize_mul declared_width declared_height) 3 in
        if (blen data <? expected)%N then None
        else Some (declared_width, declared_height, add_alpha (take (N.to_nat expected) data))
  | KittyRgba =>
      if (declared_width =? 0)%N || (declared_height =? 0)%N then None
      else
        let expected := usize_mul (usize_mul declared_width declared_height) 4 in
        if (blen data <? expected)%N then None
        else Some (declared_width, declared_height, take (N.to_nat expected) data)
  | SixelFormat => None
  end.

Definition format_of (fields : gmap N Str) : option ImageFormat :=
  match field_u32 fields "f" with
  | Some f => if (f =? 100)%N then Some KittyPng
              else if (f =? 24)%N then Some KittyRgb
              else if (f =? 32)%N then Some KittyRgba
              else None
  | None => Some KittyRgba
  end.

(** The end of [parse_kitty]: a transmission decoded, stored and delivered. *)
Definition transmit (p : t) (fields : gmap N Str) (requested_id : N) (is_display : bool)
    (text : Str) : t * KittyOutcome :=
  match format_of fields with
  | None => (p, ODropped)
  | Some f =>
      match base64_decode (as_bytes text) with
      | None => (p, ODropped)
      | Some data =>
          if (MAX_SEQUENCE_BYTES <? blen data)%N then (p, ODropped)
          else
            match decode_pixels f (default 0%N (field_u32 fields "s"))
                    (default 0%N (field_u32 fields "v")) data with
            | None => (p, ODropped)
            | Some (w, h, pixels) =>
                let '(p, i) := take_id p (Some requested_id) in
                let event := mkEvent i f w h data (Some pixels) (field_size fields "c")
                               (field_size fields "r") is_display in
                (store_event p event, OImage event)
            end
      end
  end.

(** Display of an image stored earlier. *)
Definition place (p : t) (fields : gmap N Str) (requested_id : N) : t * KittyOutcome :=
  match List.find (has_id requested_id) (stored p) with
  | None => (p, ODropped)
  | Some s =>
      let e := st_event s in
      let pick (o d : option N) := match o with Some _ => o | None => d end in
      (p, OImage (mkEvent (id e) (format e) (width e) (height e) (payload e) (rgba e)
                    (pick (field_size fields "c") (columns e))
                    (pick (field_size fields "r") (rows e)) true))
  end.

(** The control text and the payload of a body after its [G]. *)
Definition split_body (body : Bytes) : option (Str * Str) :=
  match split_once body SEMICOLON with
  | Some (c, d) =>
      match from_utf8 c, from_utf8 d with
      | Some c, Some d => Some (c, d)
      | _, _ => None
      end
  | None => match from_utf8 body with Some c => Some (c, []) | None => None end
  end.

(** A complete command, its chunks joined: [initial_action] and [i] are of the last
    chunk, [control] of the first. *)
Definition execute (p : t) (initial_action : option char) (i : N) (control text : Str)
    : t * KittyOutcome :=
  let fields := control_fields control in
  let action := match initial_action with
                | Some a => Some a
                | None => field_char fields "a"
                end in
  let requested_id := N.max i (default 0%N (field_u32 fields "i")) in
  match action with
  | Some c =>
      if (c =? key "d")%N then delete_image p fields requested_id
      else if (c =? key "q")%N then (p, OIgnored)
      else if (c =? key "p")%N then place p fields requested_id
      else if (c =? key "t")%N then transmit p fields requested_id false text
      else if (c =? key "T")%N then transmit p fields requested_id true text
      else (p, ODropped)
  | None => transmit p fields requested_id false text
  end.

(** [parse_kitty]. *)
Definition parse_kitty (p : t) (body : Bytes) : t * KittyOutcome :=
  match strip_prefix [71%N] body with
  | None => (p, ODropped)
  | Some body =>
      match split_body body with
      | None => (p, ODropped)
      | Some (control, text) =>
          let fields := control_fields control in
          let initial_action := field_char fields "a" in
          let more := bool_decide (fields !! key "m" = Some (lit "1")) in
          let i := default 0%N (field_u32 fields "i") in
          if more then
            match pending p with
            | Some k => (set_pending (Some (mkPending (pk_id k) (pk_control k) (pk_payload k ++ text))) p, OPending)
            | None => (set_pending (Some (mkPending i control text)) p, OPending)
            end
          else
            match pending p with
            | Some k => execute (set_pending None p) initial_action i (pk_control k) (pk_payload k ++ text)
            | None => execute p initial_action i control text
            end
      end
  end.

(** [sixel_payload]. *)
Definition sixel_payload (body : Bytes) : option Bytes :=
  match split_once body 113 with
  | Some (params, data) =>
      if forallb (fun b => is_ascii_digit b || (b =? SEMICOLON)%N) params then Some data else None
  | None => None
  end.

(** [finish_body]. *)
Definition finish_body (p : t) (kind : BodyKind) (body : Bytes) (out : list ImageChunk)
    : t * list ImageChunk :=
  let pass := out ++ [ChunkBytes (intro kind ++ body ++ ST)] in
  let '(p, out) :=
    match kind with
    | Apc =>
        if bool_decide (head body = Some 71%N) then
          let '(p, outcome) := parse_kitty p body in
          match outcome with
          | OImage e => (p, out ++ [ChunkImage e])
          | ODelete d => (p, out ++ [ChunkDelete d])
          | OIgnored | OPending => (p, out)
          | ODropped => (drop_one p, out)
          end
        else (p, pass)
    | Dcs =>
        match sixel_payload body with
        | Some data =>
            match Sixel.decode_sixel data with
            | Some (w, h, pixels) =>
                let '(p, i) := take_id p None in
                (p, out ++ [ChunkImage (mkEvent i SixelFormat w h data (Some pixels) None None true)])
            | None => (drop_one p, out)
            end
        | None => (p, pass)
        end
    end in
  (set_state Ground p, out).

(** [ImageTap::step]. *)
Definition step (s : t * list ImageChunk) (b : byte) : t * list ImageChunk :=
  let '(p, out) := s in
  match state p with
  | Ground =>
      if (b =? ESC)%N then (set_state Escape p, out) else (p, push_bytes out [b])
  | Escape =>
      if (b =? 95)%N then (set_state (Body Apc [] false) p, out)
      else if (b =? 80)%N then (set_state (Body Dcs [] false) p, out)
      else if (b =? ESC)%N then (p, push_bytes out [ESC])
      else (set_state Ground p, push_bytes out [ESC; b])
  | Body kind body esc =>
      if esc then
        if (b =? BACKSLASH)%N then finish_body p kind body out
        else (set_state Ground p, out ++ [ChunkBytes (intro kind ++ body ++ [ESC; b])])
      else if (b =? ESC)%N then (set_state (Body kind body true) p, out)
      else if bool_decide (kind = Apc) && (b =? BEL)%N then finish_body p kind body out
      else
        let body := body ++ [b] in
        if (MAX_SEQUENCE_BYTES <? blen body)%N then
          (set_state Ground (drop_one p),
           if bool_decide (kind = Dcs) then out ++ [ChunkBytes (intro kind ++ body)] else out)
        else (set_state (Body kind body esc) p, out)
  end.

(** [ImageTap::tap]. *)
Definition tap (p : t) (input : Bytes) : t * list ImageChunk := scan step (p, []) input.

(** [ImageTap::flush]. *)
Definition flush (p : t) : t * list ImageChunk :=
  let out := match state p with
             | Ground => []
             | Escape => [ChunkBytes [ESC]]
             | Body kind body _ => [ChunkBytes (intro kind ++ body)]
             end in
  let p' := set_state Ground (set_pending None p) in
  (match pending p with Some _ => drop_one p' | None => p' end, out).

End tap.
End Image.
