(* ===== verification/TermImageProps.v ===== *)
(** * What the image tap and its caches promise

    The placement cache and the store of transmissions stay within their bounds and
    account for every byte; the tap's result does not depend on how the stream is cut;
    what is not an image comes out verbatim; a transmission in chunks is the
    transmission in one piece. *)

From S2P Require Import Prelude Bytes TermSixel TermImage.

Open Scope goble_scope.

Module ImageProps.
Import Image.

(** ** The placement cache *)

Lemma cost_of_app l l' : cost_of (l ++ l') = (cost_of l + cost_of l')%N.
Proof. induction l as [|i l IH]; simpl; [done|]. rewrite IH. lia. Qed.

Lemma cost_of_filter_split i l :
  (cost_of (filter (fun im => ci_id im = i) l) + cost_of (filter (fun im => ci_id im <> i) l)
   = cost_of l)%N.
Proof.
  induction l as [|im l IH]; [done|]. destruct (decide (ci_id im = i)).
  - rewrite filter_cons_True, filter_cons_False by naive_solver. simpl. lia.
  - rewrite filter_cons_False, filter_cons_True by naive_solver. simpl. lia.
Qed.

Lemma evict_images_spec max l b :
  b = cost_of l ->
  exists k, evict_images max l b = (drop k l, cost_of (drop k l)) /\
    (0 < max -> length (drop k l) <= max) /\
    (0 < k -> 0 < max /\ max < length (drop (pred k) l)).
Proof.
  intros ->. induction l as [|i l (k & Hev & Hmax & Hmin)]; simpl.
  { exists 0. simpl. split; [done|]. split; lia. }
  destruct ((0 <? max) && _) eqn:Hc.
  - apply andb_true_iff in Hc as [Hpos%Nat.ltb_lt Hlen%Nat.ltb_lt].
    replace (ci_cost i + cost_of l - ci_cost i)%N with (cost_of l) by lia.
    exists (S k). rewrite Hev. split; [done|]. split; [done|]. intros _.
    destruct k as [|k]; [done|]. apply Hmin. lia.
  - exists 0. split; [done|]. split; [|lia]. intros Hpos.
    apply andb_false_iff in Hc as [Hc|Hc]; [apply Nat.ltb_ge in Hc; lia|].
    by apply Nat.ltb_ge in Hc.
Qed.

Lemma evict_bytes_spec max l b :
  b = cost_of l ->
  exists k, evict_bytes max l b = (drop k l, cost_of (drop k l)) /\
    ((0 < max)%N -> (cost_of (drop k l) <= max)%N) /\
    (0 < k -> (0 < max)%N /\ (max < cost_of (drop (pred k) l))%N).
Proof.
  intros ->. induction l as [|i l (k & Hev & Hmax & Hmin)]; simpl.
  { exists 0. simpl. split; [done|]. split; lia. }
  destruct ((0 <? max)%N && _) eqn:Hc.
  - apply andb_true_iff in Hc as [Hpos%N.ltb_lt Hlen%N.ltb_lt].
    replace (ci_cost i + cost_of l - ci_cost i)%N with (cost_of l) by lia.
    exists (S k). rewrite Hev. split; [done|]. split; [done|]. intros _.
    destruct k as [|k]; [done|]. apply Hmin. lia.
  - exists 0. split; [done|]. split; [|lia]. intros Hpos.
    apply andb_false_iff in Hc as [Hc|Hc]; [apply N.ltb_ge in Hc; lia|].
    by apply N.ltb_ge in Hc.
Qed.

(** The cache within its bounds: one placement for an id, every one drawable, no byte
    unaccounted for. *)
Record cache_ok (c : ImageCache) : Prop := {
  ok_ids : NoDup (ci_id <$> images c);
  ok_bytes : bytes c = cost_of (images c);
  ok_count : 0 < max_images c -> length (images c) <= max_images c;
  ok_budget : (0 < max_bytes c)%N -> (bytes c <= max_bytes c)%N;
  ok_drawable : Forall (fun i => rgba (ci_event i) = Some (ci_rgba i) /\
                               is_renderable (ci_event i) = true) (images c);
}.

Lemma cache_new_ok mi mb : cache_ok (cache_new mi mb).
Proof. split; simpl; try lia; constructor. Qed.

Lemma cache_clear_ok c : cache_ok (cache_clear c).
Proof. split; simpl; try lia; constructor. Qed.

Lemma NoDup_fmap_filter {A B} (f : A -> B) (P : A -> Prop) `{forall x, Decision (P x)} l :
  NoDup (f <$> l) -> NoDup (f <$> filter P l).
Proof.
  induction l as [|x l IH]; [done|]. rewrite fmap_cons, NoDup_cons. intros [Hx Hl].
  destruct (decide (P x)); [rewrite filter_cons_True by done|rewrite filter_cons_False by done; auto].
  rewrite fmap_cons, NoDup_cons. split; [|auto]. intros (y & Hy & Hin)%list_elem_of_fmap.
  apply list_elem_of_filter in Hin as [_ Hin]. apply Hx. rewrite Hy. by apply list_elem_of_fmap_2.
Qed.

Lemma length_filter_le {A} (P : A -> Prop) `{forall x, Decision (P x)} l :
  length (filter P l) <= length l.
Proof. apply sublist_length, sublist_filter. Qed.

Lemma cache_remove_ok c i : cache_ok c -> cache_ok (cache_remove c i).
Proof.
  intros [Hids Hb Hcount Hbud Hdraw]. pose proof (cost_of_filter_split i (images c)) as Hsplit.
  split; simpl.
  - by apply NoDup_fmap_filter.
  - lia.
  - intros Hpos. specialize (Hcount Hpos).
    pose proof (length_filter_le (fun im => ci_id im <> i) (images c)). lia.
  - intros Hpos. specialize (Hbud Hpos). lia.
  - rewrite Forall_forall in *. intros im [_ Him]%list_elem_of_filter. auto.
Qed.

(** Eviction of a list whose last entry fits on its own: the last stays. *)
Lemma enforce_bounds_spec l x mi mb b ns :
  b = cost_of (l ++ [x]) -> ((0 < mb)%N -> (ci_cost x <= mb)%N) ->
  exists k, enforce_bounds (mkCache (l ++ [x]) mi mb b ns) =
      mkCache (drop k l ++ [x]) mi mb (cost_of (drop k l ++ [x])) ns /\
    (0 < mi -> length (drop k l ++ [x]) <= mi) /\
    ((0 < mb)%N -> (cost_of (drop k l ++ [x]) <= mb)%N) /\
    (0 < k -> let one_more := drop (pred k) l ++ [x] in
              (0 < mi /\ mi < length one_more) \/ ((0 < mb)%N /\ (mb < cost_of one_more)%N)).
Proof.
  intros Hb Hx. unfold enforce_bounds. cbn [images max_images max_bytes bytes next_sequence].
  destruct (evict_images_spec mi _ _ Hb) as (k1 & -> & Hmax1 & Hmin1).
  destruct (evict_bytes_spec mb (drop k1 (l ++ [x])) _ eq_refl) as (k2 & -> & Hmax2 & Hmin2).
  rewrite drop_drop in *.
  assert (forall k, k <= length l -> drop k (l ++ [x]) = drop k l ++ [x]) as Hdrop.
  { intros k Hk. by rewrite drop_app_le. }
  assert (k1 <= length l) as Hk1.
  { destruct k1 as [|k1]; [lia|]. destruct (Hmin1 ltac:(lia)) as [Hp Hlt].
    rewrite length_drop, length_app in Hlt. simpl in Hlt. lia. }
  assert (k1 + k2 <= length l) as Hk.
  { destruct k2 as [|k2]; [lia|]. destruct (Hmin2 ltac:(lia)) as [Hp Hlt].
    destruct (Nat.le_gt_cases (k1 + S k2) (length l)) as [|Hgt]; [done|]. exfalso.
    simpl pred in Hlt. specialize (Hx Hp).
    rewrite drop_app_ge in Hlt by lia. destruct (k1 + k2 - length l) as [|n]; simpl in Hlt; [lia|].
    rewrite drop_nil in Hlt. simpl in Hlt. lia. }
  exists (k1 + k2). rewrite (Hdrop (k1 + k2) Hk) in *. rewrite (Hdrop k1 Hk1) in Hmax1.
  split; [done|]. split.
  { intros Hp. specialize (Hmax1 Hp). rewrite length_app, length_drop in *. lia. }
  split; [done|]. intros Hpos. destruct k2 as [|k2].
  - rewrite Nat.add_0_r in *. left. destruct (Hmin1 Hpos) as [? Hlt]. by rewrite Hdrop in Hlt by lia.
  - right. destruct (Hmin2 ltac:(lia)) as [? Hlt]. split; [done|].
    simpl pred in Hlt. rewrite Hdrop in Hlt by lia.
    by replace (pred (k1 + S k2)) with (k1 + k2) by lia.
Qed.

(** What an insertion does, on every branch.  Without display, without drawable pixels or
    above the byte budget on its own, the image is refused and the cache unchanged.
    Otherwise its id is given back, an older placement of the same id goes, the new one
    comes last and stays, the rest keeps its order, and the oldest are evicted only as
    long as a bound demands it; a cache within its bounds stays within them. *)
Theorem cache_insert_exact c event row column :
  cache_ok c ->
  let '(c', result) := cache_insert c event row column in
  cache_ok c' /\
  let refused := display event = false \/ is_renderable event = false \/
                 exists pixels, rgba event = Some pixels /\ (0 < max_bytes c)%N /\
                   (max_bytes c < blen (payload event) + blen pixels)%N in
  (refused /\ c' = c /\ result = None) \/
  (~ refused /\ result = Some (id event) /\
   exists pixels k,
     rgba event = Some pixels /\
     let kept := filter (fun im => ci_id im <> id event) (images c) in
     let added := mkCached event pixels row column (next_sequence c) in
     images c' = drop k kept ++ [added] /\
     (0 < k -> let one_more := drop (pred k) kept ++ [added] in
               (0 < max_images c /\ max_images c < length one_more) \/
               ((0 < max_bytes c)%N /\ (max_bytes c < cost_of one_more)%N))).
Proof.
  intros Hok. unfold cache_insert.
  destruct (display event) eqn:Hd; [|simpl; split; [done|]; left; naive_solver].
  destruct (is_renderable event) eqn:Hr; [|simpl; split; [done|]; left; naive_solver].
  simpl negb. simpl orb. cbv iota.
  destruct (rgba event) as [pixels|] eqn:Hp; [|unfold is_renderable in Hr; by rewrite Hp in Hr].
  destruct ((0 <? max_bytes c)%N && _) eqn:Hc.
  { apply andb_true_iff in Hc as [Hpos%N.ltb_lt Hlt%N.ltb_lt]. split; [done|]. left.
    split; [|done]. right. right. by exists pixels. }
  set (kept := filter (fun im => ci_id im <> id event) (images c)).
  set (added := mkCached event pixels row column (next_sequence c)).
  pose proof (cache_remove_ok c (id event) Hok) as [Hids Hb _ _ Hdraw].
  simpl in Hids, Hb, Hdraw. fold kept in Hids, Hb, Hdraw.
  destruct (enforce_bounds_spec kept added (max_images c) (max_bytes c)
    (bytes (cache_remove c (id event)) + (blen (payload event) + blen pixels))
    ((next_sequence c + 1) mod 18446744073709551616)) as (k & Hen & Hmi & Hmb & Hmin).
  { unfold cache_remove. cbn [bytes]. rewrite Hb, cost_of_app. f_equal.
    cbn [cost_of foldr]. unfold ci_cost. cbn [ci_event ci_rgba added]. lia. }
  { intros Hpos. apply andb_false_iff in Hc as [Hc|Hc]; apply N.ltb_ge in Hc; [lia|].
    by unfold ci_cost. }
  simpl in Hen. simpl. fold kept added. rewrite Hen. split.
  - split; simpl; [|done..|].
    + rewrite fmap_app, NoDup_app. split; [|split; [|by apply NoDup_singleton]].
      * rewrite <- (take_drop k kept), fmap_app, NoDup_app in Hids. apply Hids.
      * intros i Hi ->%list_elem_of_singleton.
        apply list_elem_of_fmap in Hi as (im & Him & Hin).
        assert (im ∈ kept) as Hk by (rewrite <- (take_drop k kept); set_solver).
        apply list_elem_of_filter in Hk as [Hne _]. by apply Hne.
    + apply Forall_app. split; [by apply Forall_drop|]. by repeat constructor.
  - right. split; [|split; [done|by exists pixels, k]].
    intros [|[|(px & Hpx & Hpos & Hlt)]]; [congruence..|]. simplify_eq.
    apply andb_false_iff in Hc as [Hc|Hc]; apply N.ltb_ge in Hc; lia.
Qed.

(** ** The store of transmissions *)

Definition stored_cost (l : list StoredImage) : N := foldr (fun s n => (st_bytes s + n)%N) 0%N l.

Lemma stored_cost_app l l' : stored_cost (l ++ l') = (stored_cost l + stored_cost l')%N.
Proof. induction l as [|i l IH]; simpl; [done|]. rewrite IH. lia. Qed.

(** What an entry costs is what it holds, and one entry fits the budget. *)
Definition entry_ok (s : StoredImage) : Prop :=
  st_bytes s = (blen (payload (st_event s)) + from_option blen 0%N (rgba (st_event s)))%N /\
  (st_bytes s <= DEFAULT_IMAGE_CACHE_BYTES)%N.

Record entries_ok (l : list StoredImage) (b : N) : Prop := {
  en_ids : NoDup ((fun s => id (st_event s)) <$> l);
  en_bytes : b = stored_cost l;
  en_entries : Forall entry_ok l;
}.

Record store_ok (p : t) : Prop := {
  so_entries : entries_ok (stored p) (stored_bytes p);
  so_count : length (stored p) <= DEFAULT_IMAGE_CACHE_IMAGES;
  so_budget : (stored_bytes p <= DEFAULT_IMAGE_CACHE_BYTES)%N;
}.

Lemma entries_ok_tail s l b : entries_ok (s :: l) b -> entries_ok l (b - st_bytes s).
Proof.
  intros [Hids -> Hall]. apply NoDup_cons in Hids as [_ Hids]. apply Forall_cons in Hall as [_ Hall].
  split; [done|simpl; lia|done].
Qed.

Lemma evict_count_ok l b :
  entries_ok l b ->
  entries_ok (evict_count l b).1 (evict_count l b).2 /\
  length (evict_count l b).1 <= DEFAULT_IMAGE_CACHE_IMAGES.
Proof.
  revert b. induction l as [|s l IH]; intros b Hl; [split; [done|simpl; lia]|].
  cbn [evict_count]. destruct (Nat.ltb_spec DEFAULT_IMAGE_CACHE_IMAGES (length (s :: l))).
  - apply IH. by apply entries_ok_tail in Hl.
  - done.
Qed.

Lemma evict_size_ok l b :
  entries_ok l b ->
  entries_ok (evict_size l b).1 (evict_size l b).2 /\
  length (evict_size l b).1 <= length l /\
  ((evict_size l b).2 <= DEFAULT_IMAGE_CACHE_BYTES)%N.
Proof.
  revert b. induction l as [|s l IH]; intros b Hl.
  { split; [done|]. destruct Hl as [_ -> _]. split; simpl; [lia|done]. }
  cbn [evict_size]. destruct ((DEFAULT_IMAGE_CACHE_BYTES <? b)%N && _) eqn:Hc.
  - apply entries_ok_tail in Hl as Ht. destruct (IH _ Ht) as (? & ? & ?).
    split; [done|]. split; [simpl; lia|done].
  - split; [done|]. split; [done|]. simpl. apply andb_false_iff in Hc as [Hc|Hc].
    + by apply N.ltb_ge in Hc.
    + apply Nat.ltb_ge in Hc. destruct l as [|s' l]; [|simpl in Hc; lia].
      destruct Hl as [_ -> Hall]. apply Forall_cons in Hall as [[_ He] _]. simpl. lia.
Qed.

(** Any entry taken out. *)
Lemma entries_ok_delete l b i :
  entries_ok l b ->
  entries_ok (delete i l) (b - from_option st_bytes 0%N (l !! i)).
Proof.
  intros [Hids -> Hall]. destruct (l !! i) as [s|] eqn:Hi; simpl.
  2:{ rewrite N.sub_0_r, delete_take_drop, take_ge, drop_ge, app_nil_r
        by (apply lookup_ge_None in Hi; lia). by split. }
  assert (exists l1 l2, l = l1 ++ s :: l2 /\ delete i l = l1 ++ l2) as (l1 & l2 & -> & ->).
  { exists (take i l), (drop (S i) l). rewrite delete_take_drop. by rewrite take_drop_middle. }
  split.
  - rewrite fmap_app, fmap_cons in Hids. rewrite fmap_app.
    eapply sublist_NoDup; [exact Hids|]. apply sublist_app; [done|]. by apply sublist_cons.
  - rewrite !stored_cost_app. simpl. lia.
  - apply Forall_app in Hall as [H1 [_ H2]%Forall_cons]. by apply Forall_app.
Qed.

Lemma remove_stored_ok p i : store_ok p -> store_ok (remove_stored p i).
Proof.
  intros [Hen Hc Hb]. unfold remove_stored. destruct (position _ _) as [k|] eqn:Hk; [|done].
  apply position_lt in Hk. split; simpl.
  - by apply entries_ok_delete.
  - rewrite delete_take_drop, length_app, length_take, length_drop. lia.
  - lia.
Qed.

Lemma clear_stored_ok p : store_ok (clear_stored p).
Proof. split; simpl; [split|..]; simpl; try lia; constructor. Qed.

(** After a removal nobody has the id. *)
Lemma remove_stored_absent p i :
  store_ok p -> i ∉ (fun s => id (st_event s)) <$> stored (remove_stored p i).
Proof.
  intros [[Hids _ _] _ _] (s & -> & Hin)%list_elem_of_fmap. unfold remove_stored in Hin.
  destruct (position _ _) as [k|] eqn:Hk; simpl in Hin.
  - apply position_Some in Hk as [(x & Hx & Hid) _]. unfold has_id in Hid. apply N.eqb_eq in Hid.
    rewrite delete_take_drop in Hin. rewrite <- (take_drop_middle _ _ _ Hx) in Hids.
    rewrite fmap_app, fmap_cons, NoDup_app, NoDup_cons in Hids.
    destruct Hids as (_ & Hdis & Hnot & _). rewrite Hid in Hdis, Hnot.
    apply elem_of_app in Hin as [Hin|Hin]; [apply (Hdis (id (st_event s)))|apply Hnot].
    all: first [by apply (list_elem_of_fmap_2 (fun s => id (st_event s)))|by left].
  - apply list_elem_of_lookup in Hin as [k Hin].
    pose proof (proj1 (position_None _ _) Hk k s Hin) as Hid. unfold has_id in Hid.
    by rewrite N.eqb_refl in Hid.
Qed.

Lemma store_event_ok p e : store_ok p -> store_ok (store_event p e).
Proof.
  intros Hp. unfold store_event.
  set (b := (blen (payload e) + from_option blen 0%N (rgba e))%N).
  destruct (N.ltb_spec DEFAULT_IMAGE_CACHE_BYTES b) as [|Hle]; [done|].
  pose proof (remove_stored_absent p (id e) Hp) as Habs.
  apply (remove_stored_ok _ (id e)) in Hp as [Hen Hc Hb].
  set (q := remove_stored p (id e)) in *.
  assert (entries_ok (stored q ++ [mkStored e b]) (N.min (stored_bytes q + b) u64_max)) as Hnew.
  { rewrite N.min_l by (unfold DEFAULT_IMAGE_CACHE_BYTES, u64_max in *; lia).
    destruct Hen as [Hids Hbytes Hall]. split.
    - rewrite fmap_app, NoDup_app. split; [done|]. split; [|by apply NoDup_singleton].
      intros i Hi ->%list_elem_of_singleton. done.
    - rewrite stored_cost_app. simpl. lia.
    - apply Forall_app. split; [done|]. repeat constructor. done. }
  apply evict_count_ok in Hnew as [H1 Hlen1]. destruct (evict_count _ _) as [l1 b1]. simpl in *.
  apply evict_size_ok in H1 as (H2 & Hlen2 & Hb2). destruct (evict_size _ _) as [l2 b2]. simpl in *.
  split; simpl; [done|lia|done].
Qed.

Lemma store_ok_same p p' :
  stored p' = stored p -> stored_bytes p' = stored_bytes p -> store_ok p -> store_ok p'.
Proof. intros H1 H2 [Hen Hc Hb]. split; by rewrite ?H1, ?H2. Qed.

Ltac keep_store :=
  match goal with H : store_ok _ |- _ => simple refine (store_ok_same _ _ _ _ H); reflexivity end.

Lemma take_id_store p w : store_ok p -> store_ok (take_id p w).1.
Proof. unfold take_id. intros Hp. repeat case_match; keep_store. Qed.

Section tap.
Context {C : ImageCodecs}.

Lemma transmit_ok p f i d text : store_ok p -> store_ok (transmit p f i d text).1.
Proof.
  intros Hp. unfold transmit. repeat (case_match; try done). simpl.
  apply store_event_ok. match goal with H : take_id ?p ?w = (?q, _) |- _ =>
    change q with (q, n1).1; rewrite <- H end.
  by apply take_id_store.
Qed.

Lemma delete_image_ok p f i : store_ok p -> store_ok (delete_image p f i).1.
Proof.
  intros Hp. unfold delete_image. repeat case_match; simpl; auto using clear_stored_ok, remove_stored_ok.
Qed.

Lemma execute_ok p a i control text : store_ok p -> store_ok (execute p a i control text).1.
Proof.
  intros Hp. unfold execute. repeat case_match; simpl; auto using transmit_ok, delete_image_ok.
  all: unfold place; repeat case_match; done.
Qed.

Lemma parse_kitty_ok p body : store_ok p -> store_ok (parse_kitty p body).1.
Proof.
  intros Hp. unfold parse_kitty. repeat case_match; try done.
  all: try (apply execute_ok); keep_store.
Qed.

Lemma finish_body_ok p kind body out : store_ok p -> store_ok (finish_body p kind body out).1.
Proof.
  intros Hp. unfold finish_body.
  assert (store_ok (parse_kitty p body).1) as Hk by by apply parse_kitty_ok.
  destruct (parse_kitty p body) as [p1 outcome]. simpl in Hk.
  assert (store_ok (take_id p None).1) as Ht by by apply take_id_store.
  repeat case_match; simplify_eq/=; try done; keep_store.
Qed.

Lemma step_ok s b : store_ok s.1 -> store_ok (step s b).1.
Proof.
  destruct s as [p out]. simpl. intros Hp.
  pose proof (fun kind body => finish_body_ok p kind body out Hp) as Hfin.
  repeat case_match; simpl; auto; keep_store.
Qed.

(** However a program floods the terminal, the transmissions retained for a later
    display have distinct ids, number at most [DEFAULT_IMAGE_CACHE_IMAGES], and the byte
    count kept for them is exactly what they hold and at most
    [DEFAULT_IMAGE_CACHE_BYTES]. *)
Theorem image_store_is_bounded input : store_ok (tap new input).1.
Proof.
  unfold tap. apply (scan_invariant step (fun s => store_ok s.1)); [intros; by apply step_ok|].
  split; simpl; [split|..]; simpl; try lia; constructor.
Qed.

(** ** Chunks as one ordered stream *)

(** What the screen receives, in order; how bytes are grouped does not count. *)
Inductive item : Type :=
| IByte (b : byte)
| IImage (e : ImageEvent)
| IDelete (d : ImageDelete).

Definition chunk_items (c : ImageChunk) : list item :=
  match c with
  | ChunkBytes l => IByte <$> l
  | ChunkImage e => [IImage e]
  | ChunkDelete d => [IDelete d]
  end.
Definition flatten (chunks : list ImageChunk) : list item := chunks ≫= chunk_items.

Lemma flatten_app c c' : flatten (c ++ c') = flatten c ++ flatten c'.
Proof. apply bind_app. Qed.

Lemma flatten_push out l : flatten (push_bytes out l) = flatten out ++ (IByte <$> l).
Proof.
  induction out as [|c out IH]; [unfold flatten; simpl; by rewrite app_nil_r|].
  unfold flatten in *. rewrite bind_cons. destruct out as [|c' out].
  - destruct c; rewrite ?bind_cons, ?bind_nil, ?app_nil_r; simpl; rewrite ?app_nil_r; try done.
    by rewrite fmap_app.
  - assert (push_bytes (c :: c' :: out) l = c :: push_bytes (c' :: out) l) as -> by by destruct c.
    by rewrite bind_cons, IH, (assoc_L (++)).
Qed.

(** Same state, and the same items after different output. *)
Definition extends (out : list ImageChunk) (r r0 : t * list ImageChunk) : Prop :=
  r.1 = r0.1 /\ flatten r.2 = flatten out ++ flatten r0.2.

Lemma extends_same (out : list ImageChunk) (p : t) (l : list ImageChunk) :
  extends out (p, out ++ l) (p, l).
Proof. split; [done|]. apply flatten_app. Qed.

Lemma extends_push out p l : extends out (p, push_bytes out l) (p, push_bytes [] l).
Proof. split; [done|]. cbn [snd]. by rewrite !flatten_push. Qed.

Lemma extends_nil out p : extends out (p, out) (p, []).
Proof. split; [done|]. simpl. by rewrite app_nil_r. Qed.

#[local] Hint Resolve extends_same extends_push extends_nil : core.

Lemma finish_body_extends p kind body out :
  extends out (finish_body p kind body out) (finish_body p kind body []).
Proof.
  unfold finish_body. destruct (parse_kitty p body) as [p1 outcome].
  repeat case_match; simplify_eq/=; first [apply extends_same|apply extends_nil].
Qed.

Lemma step_extends p out b : extends out (step (p, out) b) (step (p, []) b).
Proof.
  unfold step. repeat case_match; simplify_eq/=; auto using finish_body_extends;
    first [apply extends_same|apply extends_nil|apply extends_push].
Qed.

Lemma scan_extends p out l : extends out (scan step (p, out) l) (scan step (p, []) l).
Proof.
  revert p out. induction l as [|b l IH]; intros p out; [apply extends_nil|].
  rewrite !scan_cons. destruct (step_extends p out b) as [H1 H2].
  destruct (step (p, out) b) as [q o], (step (p, []) b) as [q' o']. simpl in *. subst q'.
  destruct (IH q o) as [H3 H4], (IH q o') as [H5 H6]. split; [congruence|].
  by rewrite H4, H6, H2, (assoc_L (++)).
Qed.

(** It does not matter how the bytes are cut into reads: two reads leave the tap in the
    state one read of both leaves it, and hand the screen the same bytes, images and
    deletes in the same order. *)
Theorem image_tap_ignores_chunking p a b :
  let '(p1, c1) := tap p a in
  let '(p2, c2) := tap p1 b in
  (tap p (a ++ b)).1 = p2 /\ flatten (tap p (a ++ b)).2 = flatten (c1 ++ c2).
Proof.
  unfold tap. rewrite scan_app. destruct (scan step (p, []) a) as [p1 c1].
  destruct (scan_extends p1 c1 b) as [H1 H2]. destruct (scan step (p1, []) b) as [p2 c2].
  split; [done|]. by rewrite flatten_app.
Qed.

(** ** What is not an image *)

(** A complete control string that is not for the tap. *)
Definition other_string (kind : BodyKind) (body : Bytes) : Prop :=
  Forall (fun b => b <> ESC /\ b <> BEL) body /\ (blen body <= MAX_SEQUENCE_BYTES)%N /\
  match kind with
  | Apc => head body <> Some 71%N
  | Dcs => sixel_payload body = None
  end.

(** Output the tap has no part in: plain bytes, escapes that open neither kind of
    string, and complete strings that are neither kitty's nor sixel. *)
Inductive foreign : Bytes -> Prop :=
| foreign_nil : foreign []
| foreign_plain b l : b <> ESC -> foreign l -> foreign (b :: l)
| foreign_escape n b l :
    b <> ESC -> b <> 95%N -> b <> 80%N -> foreign l ->
    foreign (replicate (S n) ESC ++ b :: l)
| foreign_string kind body l :
    other_string kind body -> foreign l -> foreign (intro kind ++ body ++ ST ++ l).

Lemma scan_string_body p kind body rest out :
  Forall (fun b => b <> ESC /\ b <> BEL) rest -> (blen (body ++ rest) <= MAX_SEQUENCE_BYTES)%N ->
  scan step (set_state (Body kind body false) p, out) rest
    = (set_state (Body kind (body ++ rest) false) p, out).
Proof.
  intros Hrest. revert body. induction Hrest as [|b rest [Hesc Hbel] _ IH]; intros body Hlen.
  { by rewrite app_nil_r. }
  rewrite scan_cons.
  assert (step (set_state (Body kind body false) p, out) b
          = (set_state (Body kind (body ++ [b]) false) p, out)) as ->.
  { unfold step. cbn [state set_state]. rewrite (proj2 (N.eqb_neq _ _) Hesc), (proj2 (N.eqb_neq _ _) Hbel).
    rewrite andb_false_r. rewrite (proj2 (N.ltb_ge _ _)); [done|].
    unfold blen in *. rewrite !length_app in *. simpl in *. lia. }
  rewrite IH by by rewrite <- (assoc_L (++)). by rewrite <- (assoc_L (++)).
Qed.

Lemma scan_string p kind body out :
  state p = Ground -> other_string kind body ->
  scan step (p, out) (intro kind ++ body ++ ST)
    = (p, out ++ [ChunkBytes (intro kind ++ body ++ ST)]).
Proof.
  intros Hst (Hb & Hlen & Hother). rewrite !scan_app.
  assert (scan step (p, out) (intro kind) = (set_state (Body kind [] false) p, out)) as ->.
  { destruct p as [st ? ? ? ? ?]. simpl in Hst. subst. by destruct kind. }
  rewrite scan_string_body by done. unfold ST. rewrite !scan_cons, scan_nil.
  assert (step (set_state (Body kind ([] ++ body) false) p, out) ESC
          = (set_state (Body kind body true) p, out)) as -> by done.
  assert (step (set_state (Body kind body true) p, out) BACKSLASH
          = finish_body (set_state (Body kind body true) p) kind body out) as -> by done.
  unfold finish_body. destruct kind.
  - rewrite bool_decide_eq_false_2 by done. destruct p. simpl in *. by subst.
  - rewrite Hother. destruct p. simpl in *. by subst.
Qed.

Lemma scan_doubled_escapes p out n :
  exists out', scan step (set_state Escape p, out) (replicate n ESC) = (set_state Escape p, out') /\
    flatten out' = flatten out ++ (IByte <$> replicate n ESC).
Proof.
  revert out. induction n as [|n IH]; intros out; [exists out; by rewrite app_nil_r|].
  destruct (IH (push_bytes out [ESC])) as (out' & Hs & Hf). exists out'. split; [exact Hs|].
  by rewrite Hf, flatten_push, <- (assoc_L (++)).
Qed.

(** Output that is not an image reaches the parser verbatim, control strings of other
    protocols and runs of escapes included, and the tap is as it was. *)
Theorem foreign_output_is_verbatim p input :
  state p = Ground -> foreign input ->
  (tap p input).1 = p /\ flatten (tap p input).2 = IByte <$> input.
Proof.
  intros Hst Hin. unfold tap.
  assert (forall out, (scan step (p, out) input).1 = p /\
    flatten (scan step (p, out) input).2 = flatten out ++ (IByte <$> input)) as H.
  { induction Hin as [|b l Hb _ IH|n b l H1 H2 H3 _ IH|kind body l Hs _ IH]; intros out.
    - by rewrite app_nil_r.
    - rewrite scan_cons.
      assert (step (p, out) b = (p, push_bytes out [b])) as ->.
      { unfold step. rewrite Hst. by rewrite (proj2 (N.eqb_neq _ _) Hb). }
      destruct (IH (push_bytes out [b])) as [? ->]. split; [done|].
      by rewrite flatten_push, <- (assoc_L (++)).
    - rewrite scan_app. change (replicate (S n) ESC) with ([ESC] ++ replicate n ESC).
      rewrite scan_app.
      assert (scan step (p, out) [ESC] = (set_state Escape p, out)) as ->.
      { unfold scan. simpl. by rewrite Hst. }
      destruct (scan_doubled_escapes p out n) as (out' & -> & Hf). rewrite scan_cons.
      assert (step (set_state Escape p, out') b = (p, push_bytes out' [ESC; b])) as ->.
      { unfold step. cbn [state set_state].
        rewrite (proj2 (N.eqb_neq _ _) H1), (proj2 (N.eqb_neq _ _) H2), (proj2 (N.eqb_neq _ _) H3).
        destruct p. simpl in *. by subst. }
      destruct (IH (push_bytes out' [ESC; b])) as [? ->]. split; [done|].
      rewrite flatten_push, Hf, <- !(assoc_L (++)). f_equal. rewrite <- !fmap_app. f_equal.
      change [ESC; b] with ([ESC] ++ [b]). rewrite !(assoc_L (++)), <- replicate_cons_app.
      by rewrite <- !(assoc_L (++)).
    - rewrite !(assoc_L (++)), <- (assoc_L (++) (intro kind)), scan_app, scan_string by done.
      destruct (IH (out ++ [ChunkBytes (intro kind ++ body ++ ST)])) as [? ->]. split; [done|].
      rewrite flatten_app, <- (assoc_L (++)). f_equal. unfold flatten. rewrite bind_singleton.
      simpl chunk_items. by rewrite <- fmap_app, <- !(assoc_L (++)). }
  by destruct (H []).
Qed.

(** ** Transmissions *)

(** A kitty body with both its parts, as text. *)
Definition kitty_body (control text : Str) : Bytes := 71%N :: control ++ SEMICOLON :: text.

Definition ascii (s : Str) : Prop := Forall (fun c => (c < 128)%N) s.

Lemma split_kitty_body control text :
  ascii control -> ascii text -> SEMICOLON ∉ control ->
  split_body (control ++ SEMICOLON :: text) = Some (control, text).
Proof.
  intros Hc Ht Hs. unfold split_body. rewrite split_once_app by done.
  by rewrite !from_utf8_ascii.
Qed.

(** Fields that agree on every key but [m]. *)
Definition agree (f f' : gmap N Str) : Prop := forall k, k <> key "m" -> f !! k = f' !! k.

Lemma delete_image_agree p f f' i : agree f f' -> delete_image p f i = delete_image p f' i.
Proof. intros H. unfold delete_image, field_char. by rewrite (H (key "d")). Qed.

Lemma transmit_agree p f f' i d text : agree f f' -> transmit p f i d text = transmit p f' i d text.
Proof.
  intros H. unfold transmit, format_of, field_u32, field_size.
  by rewrite (H (key "f")), (H (key "s")), (H (key "v")), (H (key "c")), (H (key "r")).
Qed.

Lemma place_agree p f f' i : agree f f' -> place p f i = place p f' i.
Proof. intros H. unfold place, field_size. by rewrite (H (key "c")), (H (key "r")). Qed.

(** The command of the last chunk, which names neither action nor image, is the command
    of the first. *)
Lemma execute_agree p c0 c1 text :
  let f0 := control_fields c0 in
  agree (control_fields c1) f0 ->
  execute p None 0 c1 text
    = execute p (field_char f0 "a") (default 0%N (field_u32 f0 "i")) c0 text.
Proof.
  intros f0 H. unfold execute. fold f0.
  assert (field_char (control_fields c1) "a" = field_char f0 "a") as ->
    by (unfold field_char; by rewrite H).
  assert (field_u32 (control_fields c1) "i" = field_u32 f0 "i") as ->
    by (unfold field_u32; by rewrite H).
  replace (N.max 0 (default 0%N (field_u32 f0 "i"))) with (default 0%N (field_u32 f0 "i")) by lia.
  rewrite N.max_id. destruct (field_char f0 "a") as [a|].
  all: rewrite ?(delete_image_agree _ _ _ _ H), ?(place_agree _ _ _ _ H),
    ?(transmit_agree _ _ _ _ true _ H), ?(transmit_agree _ _ _ _ false _ H).
  all: done.
Qed.

(** Commands one after the other, with what each came to. *)
Fixpoint commands (p : t) (bodies : list Bytes) : t * list KittyOutcome :=
  match bodies with
  | [] => (p, [])
  | body :: bodies' =>
      let '(p1, o) := parse_kitty p body in
      let '(p2, os) := commands p1 bodies' in (p2, o :: os)
  end.

Lemma set_pending_id p : pending p = None -> set_pending None p = p.
Proof. destruct p. simpl. by intros ->. Qed.

Lemma parse_middle p k text :
  pending p = Some k -> ascii text ->
  parse_kitty p (kitty_body (lit "m=1") text)
    = (set_pending (Some (mkPending (pk_id k) (pk_control k) (pk_payload k ++ text))) p, OPending).
Proof.
  intros Hp Ht. unfold parse_kitty, kitty_body. cbn [strip_prefix].
  rewrite N.eqb_refl, split_kitty_body; [|by repeat constructor|done|by apply absent].
  rewrite bool_decide_eq_true_2 by by vm_compute. by rewrite Hp.
Qed.

Lemma parse_last p k text :
  pending p = Some k -> ascii text ->
  parse_kitty p (kitty_body (lit "m=0") text)
    = execute (set_pending None p) None 0 (pk_control k) (pk_payload k ++ text).
Proof.
  intros Hp Ht. unfold parse_kitty, kitty_body. cbn [strip_prefix].
  rewrite N.eqb_refl, split_kitty_body; [|by repeat constructor|done|by apply absent].
  rewrite bool_decide_eq_false_2 by by vm_compute. by rewrite Hp.
Qed.

Lemma parse_fresh p control text :
  pending p = None -> ascii control -> ascii text -> SEMICOLON ∉ control ->
  let f := control_fields control in
  parse_kitty p (kitty_body control text) =
    if bool_decide (f !! key "m" = Some (lit "1")) then
      (set_pending (Some (mkPending (default 0%N (field_u32 f "i")) control text)) p, OPending)
    else execute p (field_char f "a") (default 0%N (field_u32 f "i")) control text.
Proof.
  intros Hp Hc Ht Hs. unfold parse_kitty, kitty_body. cbn [strip_prefix].
  by rewrite N.eqb_refl, split_kitty_body, Hp.
Qed.

Lemma commands_rest q ident c1 sent ts tn :
  Forall ascii ts -> ascii tn ->
  commands (set_pending (Some (mkPending ident c1 sent)) q)
    ((kitty_body (lit "m=1") <$> ts) ++ [kitty_body (lit "m=0") tn])
  = ((execute (set_pending None q) None 0 c1 (sent ++ concat ts ++ tn)).1,
     replicate (length ts) OPending
       ++ [(execute (set_pending None q) None 0 c1 (sent ++ concat ts ++ tn)).2]).
Proof.
  intros Hts Htn. revert sent. induction Hts as [|t0 ts Ht _ IH]; intros sent.
  - simpl fmap. rewrite !app_nil_l. cbn [commands].
    rewrite (parse_last _ (mkPending ident c1 sent)) by done. cbn [pk_control pk_payload concat].
    change (set_pending None (set_pending _ q)) with (set_pending None q).
    by destruct (execute _ _ _ _ _).
  - rewrite fmap_cons, <- app_comm_cons. cbn [commands].
    rewrite (parse_middle _ (mkPending ident c1 sent)) by done. cbn [pk_id pk_control pk_payload].
    change (set_pending ?o (set_pending _ q)) with (set_pending o q).
    rewrite IH. cbn [concat length replicate]. by rewrite <- !(assoc_L (++)).
Qed.

(** A transmission in chunks is the transmission in one piece: the first chunk with the
    whole control text and [m=1], any number of continuations, and a last one with
    [m=0] leave the tap in the state, and deliver the outcome, of the same command sent
    at once; until then every chunk is only awaited. *)
Theorem chunked_transmission_is_whole p c0 c1 t0 ts tn :
  pending p = None ->
  ascii c0 -> ascii c1 -> SEMICOLON ∉ c0 -> SEMICOLON ∉ c1 -> Forall ascii (t0 :: tn :: ts) ->
  agree (control_fields c1) (control_fields c0) ->
  control_fields c1 !! key "m" = Some (lit "1") ->
  control_fields c0 !! key "m" <> Some (lit "1") ->
  commands p (kitty_body c1 t0 :: (kitty_body (lit "m=1") <$> ts) ++ [kitty_body (lit "m=0") tn])
    = (let '(p', outcome) := parse_kitty p (kitty_body c0 (t0 ++ concat ts ++ tn)) in
       (p', replicate (S (length ts)) OPending ++ [outcome])).
Proof.
  intros Hp Hc0 Hc1 Hs0 Hs1 Hall Hag Hm1 Hm0.
  apply Forall_cons in Hall as [Ht0 [Htn Hts]%Forall_cons].
  assert (ascii (t0 ++ concat ts ++ tn)) as Htext.
  { unfold ascii. rewrite !Forall_app. split; [done|]. split; [|done].
    clear -Hts. induction Hts; simpl; [constructor|]. by apply Forall_app. }
  cbn [commands]. rewrite !parse_fresh by done.
  rewrite bool_decide_eq_true_2, bool_decide_eq_false_2 by done.
  rewrite commands_rest by done. rewrite set_pending_id by done.
  rewrite (execute_agree p c0 c1) by done. by destruct (execute _ _ _ _ _).
Qed.

(** Raw RGBA arrives as it was sent: the declared dimensions, exactly the declared
    pixels, and drawable. *)
Lemma transmit_rgba_exact p f i w h d text data :
  format_of f = Some KittyRgba -> base64_decode (as_bytes text) = Some data ->
  field_u32 f "s" = Some w -> field_u32 f "v" = Some h -> (0 < w)%N -> (0 < h)%N ->
  (w * h * 4 = blen data)%N -> (blen data <= MAX_SEQUENCE_BYTES)%N ->
  exists e, (transmit p f i d text).2 = OImage e /\ width e = w /\ height e = h /\
    rgba e = Some data /\ display e = d /\ is_renderable e = true.
Proof.
  intros Hf Hb Hw Hh Hw0 Hh0 Hlen Hmax. unfold transmit. rewrite Hf, Hb, Hw, Hh.
  rewrite (proj2 (N.ltb_ge _ _)) by done. cbn [default decode_pixels from_option Datatypes.id].
  rewrite (proj2 (N.eqb_neq w 0)), (proj2 (N.eqb_neq h 0)) by lia. cbn [orb].
  assert (usize_mul (usize_mul w h) 4 = blen data) as Hmul.
  { unfold MAX_SEQUENCE_BYTES in Hmax. unfold usize_mul.
    rewrite (N.mod_small (w * h)) by lia. by rewrite N.mod_small by lia. }
  rewrite Hmul, N.ltb_irrefl.
  assert (take (N.to_nat (blen data)) data = data) as ->.
  { apply take_ge. unfold blen. lia. }
  destruct (take_id p (Some i)) as [q j] eqn:Hid. eexists. split; [reflexivity|].
  do 4 (split; [done|]). unfold is_renderable. simpl. by rewrite Hmul, N.eqb_refl.
Qed.

Lemma transmit_dropped p f i d text : dropped (transmit p f i d text).1 = dropped p.
Proof.
  unfold transmit. repeat (case_match; try done). simpl.
  assert (forall p i, dropped (remove_stored p i) = dropped p) as Hrem.
  { intros. unfold remove_stored. by case_match. }
  assert (forall p e, dropped (store_event p e) = dropped p) as Hstore.
  { intros. unfold store_event. repeat case_match; try done. simpl. apply Hrem. }
  rewrite Hstore. unfold take_id in *. by repeat case_match; simplify_eq/=.
Qed.

(** An image sent raw is the image drawn: an [a=T,f=32] command whose text decodes to
    exactly the declared pixels, found in its escape sequence after any output, comes out
    as one image with those dimensions and those pixels, to be displayed and drawable,
    and nothing of the sequence reaches the parser. *)
Theorem kitty_rgba_roundtrip p control text w h data :
  state p = Ground -> pending p = None ->
  ascii control -> ascii text -> SEMICOLON ∉ control ->
  Forall (fun b => b <> ESC /\ b <> BEL) (control ++ text) ->
  (blen (kitty_body control text) <= MAX_SEQUENCE_BYTES)%N ->
  let f := control_fields control in
  f !! key "a" = Some (lit "T") -> f !! key "m" <> Some (lit "1") ->
  format_of f = Some KittyRgba -> field_u32 f "s" = Some w -> field_u32 f "v" = Some h ->
  base64_decode (as_bytes text) = Some data -> (0 < w)%N -> (0 < h)%N ->
  (w * h * 4 = blen data)%N -> (blen data <= MAX_SEQUENCE_BYTES)%N ->
  exists e, flatten (tap p (intro Apc ++ kitty_body control text ++ ST)).2 = [IImage e] /\
    width e = w /\ height e = h /\ rgba e = Some data /\ display e = true /\
    is_renderable e = true /\ dropped (tap p (intro Apc ++ kitty_body control text ++ ST)).1 = dropped p.
Proof.
  intros Hst Hp Hc Ht Hs Hno Hlen f Ha Hm Hf Hw Hh Hb Hw0 Hh0 Hsize Hmax.
  set (q := set_state (Body Apc (kitty_body control text) true) p).
  assert (tap p (intro Apc ++ kitty_body control text ++ ST)
          = finish_body q Apc (kitty_body control text) []) as ->.
  { unfold tap. rewrite !scan_app.
    assert (scan step (p, []) (intro Apc) = (set_state (Body Apc [] false) p, [])) as ->.
    { destruct p as [st ? ? ? ? ?]. simpl in Hst. by subst. }
    rewrite scan_string_body; [|unfold kitty_body|done].
    - done.
    - apply Forall_app in Hno as [Hno1 Hno2]. constructor; [done|].
      apply Forall_app. split; [done|]. by constructor. }
  unfold finish_body. rewrite bool_decide_eq_true_2 by done.
  rewrite parse_fresh by done. fold f. rewrite bool_decide_eq_false_2 by done.
  assert (field_char f "a" = Some (key "T")) as -> by (unfold field_char; by rewrite Ha).
  change (execute q (Some (key "T")) ?i control text) with (transmit q f (N.max i (default 0%N (field_u32 f "i"))) true text).
  set (i := N.max _ _).
  destruct (transmit_rgba_exact q f i w h true text data)
    as (e & He & Hew & Heh & Her & Hed & Hren); [done..|].
  pose proof (transmit_dropped q f i true text) as Hdrop.
  destruct (transmit q f i true text) as [q' o]. simpl in He, Hdrop. subst o.
  by exists e.
Qed.

End tap.
End ImageProps.

(** ** Concrete streams *)

Module ImageWitness.
Import Image ImageProps.

Definition b64_value (c : byte) : option N :=
  if is_ascii_uppercase c then Some (c - 65)%N
  else if is_ascii_lowercase c then Some (c - 71)%N
  else if is_ascii_digit c then Some (c + 4)%N
  else if (c =? 43)%N then Some 62%N
  else if (c =? 47)%N then Some 63%N
  else None.

Definition b64_group (a b c d : N) : Bytes :=
  [a * 4 + b / 16; (b mod 16) * 16 + c / 4; (c mod 4) * 64 + d]%N.

(** Standard base64 with padding; no PNG. *)
Fixpoint demo_base64 (l : Bytes) : option Bytes :=
  match l with
  | [] => Some []
  | a :: b :: c :: d :: l' =>
      match b64_value a, b64_value b, b64_value c, b64_value d, l' with
      | Some a, Some b, Some c, Some d, _ => app (b64_group a b c d) <$> demo_base64 l'
      | Some a, Some b, Some c, None, [] =>
          if (d =? EQUALS)%N then Some (take 2 (b64_group a b c 0)) else None
      | Some a, Some b, None, None, [] =>
          if (c =? EQUALS)%N && (d =? EQUALS)%N then Some (take 1 (b64_group a b 0 0)) else None
      | _, _, _, _, _ => None
      end
  | _ => None
  end.

#[local] Instance demo_codecs : ImageCodecs :=
  {| base64_decode := demo_base64; png_decode _ := None |}.

Definition apc (s : string) : Bytes := intro Apc ++ lit s ++ ST.

Definition red : ImageEvent :=
  mkEvent 7 KittyRgba 1 1 [255; 0; 0; 255]%N (Some [255; 0; 0; 255]%N) None None true.

Lemma cache_insert_exact_witness :
  cache_ok (fst (cache_insert (cache_new 2 64) red 3 0)).
Proof. exact (proj1 (cache_insert_exact (cache_new 2 64) red 3 0 (cache_new_ok 2 64))). Defined.

Lemma foreign_output_is_verbatim_witness :
  (tap new (lit "a" ++ [ESC; ESC] ++ lit "[0m" ++ intro Dcs ++ lit "$qm" ++ ST)).1 = new /\
  flatten (tap new (lit "a" ++ [ESC; ESC] ++ lit "[0m" ++ intro Dcs ++ lit "$qm" ++ ST)).2
    = IByte <$> (lit "a" ++ [ESC; ESC] ++ lit "[0m" ++ intro Dcs ++ lit "$qm" ++ ST).
Proof.
  apply foreign_output_is_verbatim; [reflexivity|].
  apply foreign_plain; [discriminate|]. apply (foreign_escape 1); [discriminate..|].
  do 2 (apply foreign_plain; [discriminate|]).
  apply (foreign_string Dcs (lit "$qm") []); [|constructor].
  split; [repeat constructor; discriminate|]. split; [|reflexivity]. vm_compute. discriminate.
Defined.

Definition one_red : string := "a=T,f=32,s=1,v=1,i=7".

Lemma chunked_transmission_is_whole_witness :
  commands new (kitty_body (lit "a=T,f=32,s=1,v=1,i=7,m=1") (lit "/w")
                :: (kitty_body (lit "m=1") <$> [lit "AA"]) ++ [kitty_body (lit "m=0") (lit "/w==")])
    = (let '(p', outcome) := parse_kitty new (kitty_body (lit one_red) (lit "/wAA/w==")) in
       (p', [OPending; OPending; outcome])).
Proof.
  apply (chunked_transmission_is_whole new (lit one_red) (lit "a=T,f=32,s=1,v=1,i=7,m=1")
           (lit "/w") [lit "AA"] (lit "/w==")).
  - reflexivity.
  - repeat constructor.
  - repeat constructor.
  - by apply absent.
  - by apply absent.
  - repeat constructor.
  - intros k Hk.
    assert (control_fields (lit "a=T,f=32,s=1,v=1,i=7,m=1")
            = <[key "m" := lit "1"]> (control_fields (lit one_red))) as -> by reflexivity.
    by apply lookup_insert_ne.
  - reflexivity.
  - vm_compute. discriminate.
Defined.

Lemma kitty_rgba_roundtrip_witness :
  exists e, flatten (tap new (intro Apc ++ kitty_body (lit one_red) (lit "/wAA/w==") ++ ST)).2
      = [IImage e] /\
    width e = 1%N /\ height e = 1%N /\ rgba e = Some [255; 0; 0; 255]%N /\ display e = true /\
    is_renderable e = true /\
    dropped (tap new (intro Apc ++ kitty_body (lit one_red) (lit "/wAA/w==") ++ ST)).1 = dropped new.
Proof.
  apply (kitty_rgba_roundtrip new (lit one_red) (lit "/wAA/w==") 1 1 [255; 0; 0; 255]%N);
    try reflexivity.
  - repeat constructor.
  - repeat constructor.
  - by apply absent.
  - repeat constructor; discriminate.
  - vm_compute. discriminate.
  - vm_compute. discriminate.
  - vm_compute. discriminate.
Defined.

(** Where the code does not do what it says. *)

(** The size of a raw image is computed in 64 bits without a check: two dimensions whose
    product with four wraps to nothing give an image of 2^62 pixels without a byte, which
    passes for drawable. *)
Lemma raw_dimensions_wrap :
  exists e, flatten (tap new (apc "Ga=T,f=32,s=2147483648,v=2147483648;")).2 = [IImage e] /\
    (width e * height e = 4611686018427387904)%N /\ rgba e = Some [] /\ is_renderable e = true.
Proof. eexists. vm_compute. split; [reflexivity|done]. Qed.

(** Chunks are joined in the order they come and not by image id: the last chunk of
    image 2 completes image 1. *)
Lemma chunks_are_not_joined_by_id :
  exists e, flatten (tap new (apc "Ga=T,f=32,s=1,v=1,i=1,m=1;/wAA" ++ apc "Gi=2,m=0;/w==")).2
    = [IImage e] /\ id e = 2%N /\ rgba e = Some [255; 0; 0; 255]%N.
Proof. eexists. vm_compute. split; [reflexivity|done]. Qed.

(** An escape held inside a string is lost when the stream ends there. *)
Lemma flush_loses_the_escape :
  (flush (tap new (intro Dcs ++ lit "1$r" ++ [ESC])).1).2 = [ChunkBytes (intro Dcs ++ lit "1$r")].
Proof. reflexivity. Qed.

(** A string of another protocol that ends in a bell comes out with another terminator. *)
Lemma bell_is_rewritten :
  flatten (tap new (intro Apc ++ lit "note" ++ [BEL])).2 = IByte <$> (intro Apc ++ lit "note" ++ ST).
Proof. reflexivity. Qed.

End ImageWitness.
