(* ===== verification/TermScreen.v ===== *)
(** * Screens

    [goble-terminal/src/screen]: one terminal surface ([surface.rs]), the events and
    questions it raises ([event.rs]), its size and policy ([size.rs], [config.rs]).  The
    vendored VT emulator behind a screen is the class [Vt]: its grid is a state that
    bytes advance, with the rows, cursor and modes that can be read off it, and
    [VtLaws] has what it promises: bytes may come in any pieces, and scrolling moves the
    display within the history. *)

From S2P Require Import Prelude Bytes TermCells TermImage TermImageProps.

Open Scope goble_scope.

Module Screen.
Import Cells.

Record ScreenSize : Type := mkSize { size_columns : nat; screen_lines : nat }.

#[export] Instance ScreenSize_eq_dec : EqDecision ScreenSize.
Proof. solve_decision. Defined.

Definition BLOCK_HISTORY : N := 50000.

Record ScreenConfig : Type := mkConfig { history : N; allow_clipboard_read : bool }.

Definition config_block : ScreenConfig := mkConfig BLOCK_HISTORY false.
Definition config_scrolling (history : N) : ScreenConfig := mkConfig history false.
Definition with_clipboard_read (c : ScreenConfig) : ScreenConfig := mkConfig (history c) true.

(** [alacritty_terminal::event::Event]; three of them carry the formatter of their
    answer. *)
Inductive VtEvent : Type :=
| VtTitle (title : Str)
| VtResetTitle
| VtClipboardStore (text : Str)
| VtClipboardLoad (fmt : Str -> Str)
| VtPtyWrite (text : Str)
| VtTextAreaSizeRequest (fmt : N -> N -> N -> N -> Str)
| VtColorRequest (index : N) (fmt : N * N * N -> Str)
| VtMouseCursorDirty
| VtWakeup
| VtBell
| VtCursorBlinkingChange
| VtExit
| VtChildExit (code : option Z).

Inductive ScreenEvent : Type :=
| Title (title : Str)
| ResetTitle
| Bell
| CursorBlinkingChange
| ClipboardStore (text : Str)
| PtyWrite (text : Str)
| QueryPending
| MouseCursorDirty
| Wakeup
| Exit
| ChildExit (code : Z).

Inductive ScreenQuery : Type :=
| ClipboardLoad (fmt : Str -> Str)
| ColorRequest (index : N) (fmt : N * N * N -> Str)
| TextAreaSize (fmt : N -> N -> N -> N -> Str).

Definition clipboard_reply (q : ScreenQuery) (text : Str) : option Str :=
  match q with ClipboardLoad fmt => Some (fmt text) | _ => None end.

Definition color_reply (q : ScreenQuery) (index : N) (rgb : N * N * N) : option Str :=
  match q with
  | ColorRequest wanted fmt => if (wanted =? index)%N then Some (fmt rgb) else None
  | _ => None
  end.

Definition text_area_reply (q : ScreenQuery) (columns lines cell_width cell_height : N)
    : option Str :=
  match q with
  | TextAreaSize fmt => Some (fmt columns lines cell_width cell_height)
  | _ => None
  end.

Definition color_index (q : ScreenQuery) : option N :=
  match q with ColorRequest index _ => Some index | _ => None end.

(** The two queues of [ScreenEvents]. *)
Record Queues : Type := mkQueues { queue : list ScreenEvent; queries : list ScreenQuery }.

Definition push (e : ScreenEvent) (q : Queues) : Queues := mkQueues (queue q ++ [e]) (queries q).
Definition push_query (e : ScreenQuery) (q : Queues) : Queues :=
  push QueryPending (mkQueues (queue q) (queries q ++ [e])).

(** [EventListener::send_event]. *)
Definition send_event (q : Queues) (e : VtEvent) : Queues :=
  match e with
  | VtTitle title => push (Title title) q
  | VtResetTitle => push ResetTitle q
  | VtClipboardStore text => push (ClipboardStore text) q
  | VtClipboardLoad fmt => push_query (ClipboardLoad fmt) q
  | VtPtyWrite text => push (PtyWrite text) q
  | VtTextAreaSizeRequest fmt => push_query (TextAreaSize fmt) q
  | VtColorRequest index fmt => push_query (ColorRequest index fmt) q
  | VtMouseCursorDirty => push MouseCursorDirty q
  | VtWakeup => push Wakeup q
  | VtBell => push Bell q
  | VtCursorBlinkingChange => push CursorBlinkingChange q
  | VtExit => push Exit q
  | VtChildExit code => push (ChildExit (default (-1)%Z code)) q
  end.

(** The vendored emulator: [Term] with its [Processor]. *)
Class Vt : Type := {
  term : Type;
  term_new : ScreenSize -> ScreenConfig -> term;
  term_advance : term -> Bytes -> term * list VtEvent;
  term_resize : term -> ScreenSize -> term * list VtEvent;
  term_scroll : term -> Z -> term * list VtEvent;
  is_alt : term -> bool;
  cursor_point : term -> Z * nat;       (** grid line, negative in the history; column *)
  cursor_viewport : term -> nat * nat;  (** line and column within the viewport, else zeros *)
  grid_history : term -> nat;
  grid_lines : term -> nat;
  grid_display_offset : term -> nat;
  visible_rows : term -> list ScreenLine;
  content_rows : term -> list ScreenLine;  (** history, then the screen *)
}.

Class VtLaws (V : Vt) : Prop := {
  term_advance_app t a b :
    term_advance t (a ++ b) =
      (let '(t1, e1) := term_advance t a in
       let '(t2, e2) := term_advance t1 b in (t2, e1 ++ e2));
  term_advance_nil t : term_advance t [] = (t, []);
  display_offset_bound t : grid_display_offset t <= grid_history t;
  scroll_offset t d :
    grid_display_offset (term_scroll t d).1
      = Z.to_nat (Z.max 0 (Z.min (Z.of_nat (grid_history t)) (Z.of_nat (grid_display_offset t) + d)));
  scroll_history t d :
    grid_history (term_scroll t d).1 = grid_history t /\ grid_lines (term_scroll t d).1 = grid_lines t;
}.

Section screen.
Context {V : Vt} {C : Image.ImageCodecs}.

Record t : Type := mk {
  grid : term;
  listener : Queues;
  size : ScreenSize;
  image_tap : Image.t;
  images : Image.ImageCache;
  frozen : bool;
  dropped_bytes : nat;
  revision : N;
}.

Definition bump (n : N) : N := (n + 1) mod 18446744073709551616.

Definition new (size : ScreenSize) (config : ScreenConfig) : t :=
  mk (term_new size config) (mkQueues [] []) size Image.new Image.cache_default false 0 0.

(** The grid after a call into the emulator, whose events reach the listener. *)
Definition set_grid (r : term * list VtEvent) (s : t) : t :=
  mk r.1 (foldl send_event (listener s) r.2) (size s) (image_tap s) (images s) (frozen s)
    (dropped_bytes s) (revision s).
Definition set_images (c : Image.ImageCache) (s : t) : t :=
  mk (grid s) (listener s) (size s) (image_tap s) c (frozen s) (dropped_bytes s) (revision s).
Definition set_tap (p : Image.t) (s : t) : t :=
  mk (grid s) (listener s) (size s) p (images s) (frozen s) (dropped_bytes s) (revision s).
Definition bump_revision (s : t) : t :=
  mk (grid s) (listener s) (size s) (image_tap s) (images s) (frozen s) (dropped_bytes s)
    (bump (revision s)).

Definition resize (s : t) (sz : ScreenSize) : t :=
  let s := set_grid (term_resize (grid s) sz) s in
  bump_revision (mk (grid s) (listener s) sz (image_tap s) (images s) (frozen s)
                   (dropped_bytes s) (revision s)).

(** [Screen::advance]: a change of grid clears the placements. *)
Definition advance (s : t) (bytes : Bytes) : t :=
  let alt := is_alt (grid s) in
  let s := set_grid (term_advance (grid s) bytes) s in
  if bool_decide (is_alt (grid s) = alt) then s
  else set_images (Image.cache_clear (images s)) s.

Definition delete_images (s : t) (d : Image.ImageDelete) : t :=
  match d with
  | Image.DeleteImage i => set_images (Image.cache_remove (images s) i) s
  | Image.DeleteAll | Image.AllPlacements => set_images (Image.cache_clear (images s)) s
  end.

Definition placement_cell (s : t) : nat * nat :=
  let '(line, column) := cursor_point (grid s) in
  (grid_history (grid s) + Z.to_nat (Z.max line 0), column).

Definition on_chunk (s : t) (c : Image.ImageChunk) : t :=
  match c with
  | Image.ChunkBytes bytes => advance s bytes
  | Image.ChunkImage e =>
      let '(row, column) := placement_cell s in
      set_images (Image.cache_insert (images s) e row column).1 s
  | Image.ChunkDelete d => delete_images s d
  end.

(** [Screen::feed]. *)
Definition feed (s : t) (bytes : Bytes) : t :=
  if frozen s then
    mk (grid s) (listener s) (size s) (image_tap s) (images s) true
      (dropped_bytes s + length bytes) (revision s)
  else
    let '(p, chunks) := Image.tap (image_tap s) bytes in
    bump_revision (foldl on_chunk (set_tap p s) chunks).

Definition RIS : Bytes := [ESC; 99%N].

(** [Screen::reset]: [RIS] goes to the parser directly. *)
Definition reset (s : t) : t :=
  let s := mk (grid s) (listener s) (size s) Image.new (Image.cache_clear (images s)) false
             (dropped_bytes s) (revision s) in
  bump_revision (set_grid (term_advance (grid s) RIS) s).

Definition freeze (s : t) : t :=
  mk (grid s) (listener s) (size s) (image_tap s) (images s) true (dropped_bytes s) (revision s).

Definition drain_events (s : t) : t * list ScreenEvent :=
  (mk (grid s) (mkQueues [] (queries (listener s))) (size s) (image_tap s) (images s) (frozen s)
     (dropped_bytes s) (revision s), queue (listener s)).
Definition drain_queries (s : t) : t * list ScreenQuery :=
  (mk (grid s) (mkQueues (queue (listener s)) []) (size s) (image_tap s) (images s) (frozen s)
     (dropped_bytes s) (revision s), queries (listener s)).

Definition display_offset (s : t) : nat := grid_display_offset (grid s).
Definition history_size (s : t) : nat := grid_history (grid s).
Definition total_lines (s : t) : nat := grid_lines (grid s).
Definition content_lines (s : t) : list ScreenLine := content_rows (grid s).
Definition lines (s : t) : list ScreenLine := visible_rows (grid s).
Definition line_at (s : t) (index : nat) : option ScreenLine :=
  if total_lines s <=? index then None else content_lines s !! index.

Definition visible_images (s : t) : list Image.ImagePlacement :=
  Image.cache_visible (images s) (history_size s) (display_offset s) (screen_lines (size s)).

Definition visible_row_of (s : t) (line : nat) : option nat :=
  let top := history_size s - display_offset s in
  if line <? top then None
  else let row := line - top in if row <? screen_lines (size s) then Some row else None.

Definition scroll_display (s : t) (d : Z) : t := set_grid (term_scroll (grid s) d) s.

(** [i32::try_from(n).unwrap_or(i32::MAX)]. *)
Definition clamp_i32 (n : nat) : Z := Z.min (Z.of_nat n) 2147483647.

Definition scroll_to_line (s : t) (line : nat) : t :=
  let rows := max (screen_lines (size s)) 1 in
  let top := history_size s - display_offset s in
  let bottom := top + (rows - 1) in
  if line <? top then scroll_display s (clamp_i32 (top - line))
  else if bottom <? line then scroll_display s (- clamp_i32 (line - bottom))
  else s.

Definition cursor_line (s : t) : nat :=
  history_size s - display_offset s + (cursor_viewport (grid s)).1.
Definition cursor_column (s : t) : nat := (cursor_viewport (grid s)).2.

(** [Screen::text]: the visible rows, less trailing empty ones. *)
Fixpoint pop_empty (l : list Str) : list Str :=
  match l with
  | [] :: l' => pop_empty l'
  | _ => l
  end.
Fixpoint join (sep : Str) (l : list Str) : Str :=
  match l with
  | [] => []
  | [s] => s
  | s :: l' => s ++ sep ++ join sep l'
  end.
Definition pop_empty_last (l : list Str) : list Str := reverse (pop_empty (reverse l)).
Definition text (s : t) : Str := join [NEWLINE] (pop_empty_last (line_text <$> lines s)).

Definition search `{Search.Regex} (s : t) (query : Str) (options : Search.SearchOptions)
    : result Search.SearchError (list Search.SearchMatch) :=
  Search.search_lines (content_lines s) query options.

End screen.
Arguments t {_}.
End Screen.

(** ** What a screen promises *)

Module ScreenProps.
Import Screen.

Section props.
Context {V : Vt} {L : VtLaws V} {C : Image.ImageCodecs}.

(** Screens that differ at most in their image placements and in the revision counter,
    the two things the grouping of bytes into reads can touch. *)
Record eqv (s s' : t) : Prop := {
  eqv_grid : grid s = grid s';
  eqv_listener : listener s = listener s';
  eqv_size : size s = size s';
  eqv_tap : image_tap s = image_tap s';
  eqv_frozen : frozen s = frozen s';
  eqv_dropped : dropped_bytes s = dropped_bytes s';
}.

#[export] Instance eqv_equivalence : Equivalence eqv.
Proof.
  split.
  - by split.
  - intros s s' []. by split.
  - intros s s' s'' [] []. split; congruence.
Qed.

Lemma set_images_eqv c s : eqv (set_images c s) s.
Proof. by split. Qed.

Lemma bump_eqv s : eqv (bump_revision s) s.
Proof. by split. Qed.

#[export] Instance set_grid_proper r : Proper (eqv ==> eqv) (set_grid r).
Proof. intros s s' [? Hl ? ? ? ?]. split; simpl; congruence. Qed.

#[export] Instance set_tap_proper p : Proper (eqv ==> eqv) (set_tap p).
Proof. intros s s' []. by split. Qed.

#[export] Instance freeze_proper : Proper (eqv ==> eqv) freeze.
Proof. intros s s' []. by split. Qed.

#[export] Instance resize_proper : Proper (eqv ==> eq ==> eqv) resize.
Proof.
  intros s s' [Hg Hl Hs Ht Hf Hd] sz ? <-. unfold resize. rewrite Hg. split; simpl; congruence.
Qed.

#[export] Instance reset_proper : Proper (eqv ==> eqv) reset.
Proof. intros s s' [Hg Hl Hs Ht Hf Hd]. unfold reset. split; simpl; congruence. Qed.

(** What an item does to a screen, placements aside. *)
Definition on_item (s : t) (i : ImageProps.item) : t :=
  match i with
  | ImageProps.IByte b => set_grid (term_advance (grid s) [b]) s
  | _ => s
  end.

#[export] Instance on_item_proper : Proper (eqv ==> eq ==> eqv) on_item.
Proof.
  intros s s' Hs i ? <-. destruct i as [b|e|d]; simpl; [|done|done].
  rewrite (eqv_grid _ _ Hs). by rewrite Hs.
Qed.

Lemma on_items_proper s s' l : eqv s s' -> eqv (foldl on_item s l) (foldl on_item s' l).
Proof. revert s s'. induction l as [|i l IH]; intros s s' Hs; [done|]. simpl. apply IH. by rewrite Hs. Qed.

Lemma set_grid_app s a b :
  set_grid (term_advance (grid s) (a ++ b)) s
  = (let s1 := set_grid (term_advance (grid s) a) s in set_grid (term_advance (grid s1) b) s1).
Proof.
  rewrite term_advance_app. destruct (term_advance (grid s) a) as [t1 e1]. unfold set_grid at 2 3.
  simpl. destruct (term_advance t1 b) as [t2 e2]. unfold set_grid. simpl. by rewrite foldl_app.
Qed.

Lemma on_bytes s l :
  foldl on_item s (ImageProps.IByte <$> l) = set_grid (term_advance (grid s) l) s.
Proof.
  revert s. induction l as [|b l IH]; intros s.
  - rewrite term_advance_nil. by destruct s.
  - rewrite fmap_cons. cbn [foldl on_item]. rewrite IH. change (b :: l) with ([b] ++ l).
    by rewrite set_grid_app.
Qed.

Lemma on_chunk_items s c :
  eqv (on_chunk s c) (foldl on_item s (ImageProps.chunk_items c)).
Proof.
  destruct c as [l|e|d]; cbn [on_chunk ImageProps.chunk_items].
  - rewrite on_bytes. unfold advance. case_bool_decide; [done|]. apply set_images_eqv.
  - simpl. destruct (placement_cell s). apply set_images_eqv.
  - by destruct d; apply set_images_eqv.
Qed.

Lemma on_chunks_items s chunks :
  eqv (foldl on_chunk s chunks) (foldl on_item s (ImageProps.flatten chunks)).
Proof.
  assert (forall s0, eqv s0 s ->
    eqv (foldl on_chunk s0 chunks) (foldl on_item s (ImageProps.flatten chunks))) as H; [|by apply H].
  revert s. induction chunks as [|c chunks IH]; intros s s0 Hs; [done|].
  unfold ImageProps.flatten in *. rewrite bind_cons, foldl_app. cbn [foldl]. apply IH.
  rewrite on_chunk_items. by apply on_items_proper.
Qed.

(** A feed, as the items of its bytes. *)
Lemma feed_items s l :
  frozen s = false ->
  eqv (feed s l)
    (foldl on_item (set_tap (Image.tap (image_tap s) l).1 s)
       (ImageProps.flatten (Image.tap (image_tap s) l).2)).
Proof.
  intros Hf. unfold feed. rewrite Hf. destruct (Image.tap (image_tap s) l) as [p chunks].
  rewrite bump_eqv. apply on_chunks_items.
Qed.

#[export] Instance feed_proper : Proper (eqv ==> eq ==> eqv) feed.
Proof.
  intros s s' Hs l ? <-. destruct (frozen s) eqn:Hf.
  - unfold feed. rewrite <- (eqv_frozen _ _ Hs), Hf. destruct Hs. split; simpl; congruence.
  - rewrite feed_items by done. rewrite feed_items by (by rewrite <- (eqv_frozen _ _ Hs)).
    replace (image_tap s') with (image_tap s) by apply (eqv_tap _ _ Hs).
    apply on_items_proper. by apply set_tap_proper.
Qed.

Lemma on_items_tap s p l :
  foldl on_item (set_tap p s) l = set_tap p (foldl on_item s l).
Proof. revert s. induction l as [|i l IH]; intros s; [done|]. simpl. rewrite <- IH. by destruct i. Qed.

Lemma on_items_keep s l :
  image_tap (foldl on_item s l) = image_tap s /\ frozen (foldl on_item s l) = frozen s.
Proof.
  revert s. induction l as [|i l IH]; intros s; [done|]. simpl.
  destruct (IH (on_item s i)) as [-> ->]. by destruct i.
Qed.

(** A screen is a function of its bytes: fed in two pieces or in one, frozen or not, it has
    the same grid and scrollback, the same events and questions pending, the same decoder
    state and the same count of discarded bytes. *)
Lemma feed_app_eqv s a b : eqv (feed (feed s a) b) (feed s (a ++ b)).
Proof.
  destruct (frozen s) eqn:Hf.
  { unfold feed. rewrite Hf. simpl. split; simpl; try done. rewrite length_app. lia. }
  assert (Image.tap (image_tap s) (a ++ b) = scan Image.step (Image.tap (image_tap s) a) b) as Htap.
  { unfold Image.tap. apply scan_app. }
  destruct (Image.tap (image_tap s) a) as [p chunks] eqn:Ha.
  pose proof (feed_items s a Hf) as Hfa. rewrite Ha in Hfa. cbn [fst snd] in Hfa.
  rewrite Hfa, (feed_items s (a ++ b)), Htap by done.
  rewrite feed_items by (by destruct (on_items_keep (set_tap p s) (ImageProps.flatten chunks)) as [_ ->]).
  destruct (on_items_keep (set_tap p s) (ImageProps.flatten chunks)) as [-> _]. simpl image_tap.
  destruct (ImageProps.scan_extends p chunks b) as [H1 H2]. rewrite H1, H2.
  fold (Image.tap p b). rewrite foldl_app, !on_items_tap. reflexivity.
Qed.

(** ** Scrolling *)

(** Scrolling to a row of the content shows it: whatever the display offset, the row is in
    the viewport afterwards, in the top row when it was above and in the bottom row when
    it was below, and the display does not move when it was already visible. *)
Theorem scroll_to_line_shows_it s line :
  0 < screen_lines (size s) -> total_lines s = history_size s + screen_lines (size s) ->
  (Z.of_nat (total_lines s) < 2147483648)%Z -> line < total_lines s ->
  visible_row_of (scroll_to_line s line) line =
    match visible_row_of s line with
    | Some row => Some row
    | None => Some (if line <? history_size s - display_offset s then 0
                    else screen_lines (size s) - 1)
    end.
Proof.
  intros Hrows Htot Hmax Hline.
  pose proof (display_offset_bound (grid s)) as Hoff.
  assert (forall d, size (scroll_display s d) = size s) as Hsize by done.
  assert (forall d, history_size (scroll_display s d) = history_size s) as Hhist
    by (intros d; apply (scroll_history (grid s) d)).
  pose proof (scroll_offset (grid s)) as Hdisp.
  unfold scroll_to_line, visible_row_of. unfold display_offset, history_size, total_lines in *.
  destruct (Nat.ltb_spec line (grid_history (grid s) - grid_display_offset (grid s))) as [Hlt|Hge].
  - rewrite Hhist, Hsize. change (grid (scroll_display s ?d)) with (term_scroll (grid s) d).1.
    rewrite Hdisp. unfold clamp_i32.
    match goal with |- context [Z.to_nat ?z] =>
      replace (Z.to_nat z) with (grid_history (grid s) - line) by lia end.
    replace (grid_history (grid s) - (grid_history (grid s) - line)) with line by lia.
    rewrite Nat.ltb_irrefl, Nat.sub_diag. by rewrite (proj2 (Nat.ltb_lt _ _)).
  - rewrite (Nat.max_l _ 1) by lia.
    set (top := grid_history (grid s) - grid_display_offset (grid s)) in *.
    destruct (Nat.ltb_spec (top + (screen_lines (size s) - 1)) line) as [Hbelow|Hin].
    + rewrite Hhist, Hsize. change (grid (scroll_display s ?d)) with (term_scroll (grid s) d).1.
      rewrite Hdisp. unfold clamp_i32.
      match goal with |- context [Z.to_nat ?z] =>
        replace (Z.to_nat z) with (grid_display_offset (grid s)
          - (line - (top + (screen_lines (size s) - 1)))) by lia end.
      rewrite (proj2 (Nat.ltb_ge _ _)) by lia. rewrite (proj2 (Nat.ltb_lt _ _)) by lia.
      rewrite (proj2 (Nat.ltb_ge _ _)) by lia. f_equal. lia.
    + fold top. rewrite (proj2 (Nat.ltb_ge line top)) by lia.
      by rewrite (proj2 (Nat.ltb_lt _ _)) by lia.
Qed.

Lemma advance_grid s l : grid (advance s l) = (term_advance (grid s) l).1.
Proof. unfold advance. by case_bool_decide. Qed.

Lemma advance_images s l :
  images (advance s l) =
    if bool_decide (is_alt (grid (advance s l)) = is_alt (grid s)) then images s
    else Image.cache_clear (images s).
Proof. rewrite advance_grid. unfold advance. simpl. by case_bool_decide. Qed.

(** A program that enters and leaves the alternate screen keeps the placements when both
    happen within one read, and loses them when a read ends between the two: the swap is
    looked for at the ends of a chunk only. *)
Lemma alt_screen_swap_within_a_read s a b :
  is_alt (grid s) = false ->
  is_alt (grid (advance s a)) = true ->
  is_alt (grid (advance (advance s a) b)) = false ->
  images (advance s (a ++ b)) = images s
  /\ images (advance (advance s a) b) = Image.cache_clear (Image.cache_clear (images s)).
Proof.
  intros Hs Ha Hb. rewrite (advance_images (advance s a)), (advance_images s a), Hs, Ha, Hb.
  split; [|done]. rewrite advance_images, Hs. case_bool_decide as H; [done|]. destruct H.
  rewrite <- Hb, !advance_grid, term_advance_app.
  destruct (term_advance (grid s) a) as [g1 e1]. simpl. by destruct (term_advance g1 b).
Qed.

End props.
End ScreenProps.

(** ** A small emulator

    An emulator that keeps [VtLaws]: it prints every byte in a cell of its own, breaks
    rows at line feeds, clears at [RIS], and has an alternate screen between the bytes
    [SO] and [SI]. *)

Module VtDemo.
Import Cells Screen.

Record state : Type := mkState {
  st_size : ScreenSize;
  st_text : Bytes;
  st_offset : nat;
  st_alt : bool;
}.

Definition put (s : state) (b : byte) : state :=
  if (b =? 14)%N then mkState (st_size s) (st_text s) (st_offset s) true
  else if (b =? 15)%N then mkState (st_size s) (st_text s) (st_offset s) false
  else if (b =? 99)%N && bool_decide (last (st_text s) = Some ESC)
  then mkState (st_size s) [] 0 (st_alt s)
  else mkState (st_size s) (st_text s ++ [b]) (st_offset s) (st_alt s).

(** [str::lines] of the text, kept row by row. *)
Fixpoint split_rows (row l : Bytes) : list Bytes :=
  match l with
  | [] => [row]
  | b :: l' => if (b =? NEWLINE)%N then row :: split_rows [] l' else split_rows (row ++ [b]) l'
  end.

Definition rows_of (s : state) : list Bytes := split_rows [] (st_text s).
Definition history_of (s : state) : nat := length (rows_of s) - screen_lines (st_size s).
Definition to_line (row : Bytes) : list ScreenCell :=
  (fun b => mkCell b (Named Foreground) (Named Background) default_attrs [] None) <$> row.

Definition offset_of (s : state) : nat := min (st_offset s) (history_of s).

#[export] Instance demo_vt : Vt := {|
  term := state;
  term_new size _ := mkState size [] 0 false;
  term_advance s bytes := (foldl put s bytes, []);
  term_resize s size := (mkState size (st_text s) (st_offset s) (st_alt s), []);
  term_scroll s d :=
    (mkState (st_size s) (st_text s)
       (Z.to_nat (Z.max 0 (Z.min (Z.of_nat (history_of s)) (Z.of_nat (offset_of s) + d))))
       (st_alt s), []);
  is_alt := st_alt;
  cursor_point s :=
    (Z.of_nat (length (rows_of s) - 1) - Z.of_nat (history_of s), length (default [] (last (rows_of s))))%Z;
  cursor_viewport s := (length (rows_of s) - 1 - history_of s, 0);
  grid_history := history_of;
  grid_lines s := history_of s + screen_lines (st_size s);
  grid_display_offset := offset_of;
  visible_rows s :=
    to_line <$> take (screen_lines (st_size s)) (drop (history_of s - offset_of s) (rows_of s));
  content_rows s := to_line <$> rows_of s;
|}.

#[export] Instance demo_vt_laws : VtLaws demo_vt.
Proof.
  split.
  - intros s a b. simpl. by rewrite foldl_app.
  - done.
  - intros s. simpl. unfold offset_of. lia.
  - intros s d. simpl. unfold offset_of. unfold history_of, rows_of in *. simpl. lia.
  - done.
Qed.

End VtDemo.

Module ScreenWitness.
Import Screen ScreenProps VtDemo.
#[local] Existing Instance ImageWitness.demo_codecs.

Definition demo_screen : t := new (mkSize 10 2) (config_scrolling 100).

Definition five_rows : t :=
  feed demo_screen [65; 10; 66; 10; 67; 10; 68; 10; 69]%N.

Lemma scroll_to_line_shows_it_witness :
  visible_row_of (scroll_to_line five_rows 0) 0 = Some 0 /\ text five_rows = [68; 10; 69]%N.
Proof.
  split; [|vm_compute; reflexivity].
  rewrite (scroll_to_line_shows_it five_rows 0); [reflexivity|..]; vm_compute; first [reflexivity|lia].
Defined.

End ScreenWitness.
