(* ===== verification/TermBlocks.v ===== *)
(** * Command blocks

    [goble-terminal/src/blocks]: a session as a list of blocks, one per command, each
    with its two screens.  [state.rs], [id.rs], [visibility.rs], [tool.rs] and [event.rs]
    are the data of Module [Blocks], [block.rs] is Module [Block] and [list.rs] is Module
    [BlockList].

    A read of the clocks is an argument, [Clock].  [BlockList::active_block] indexes the
    vector and would panic out of range; here it is an option, and the operations leave
    the list alone in the case that [TermBlocksProps.v] shows is never reached. *)

From S2P Require Import Prelude Bytes TermHooks TermCells TermImage TermScreen.

Open Scope goble_scope.

Module Blocks.

Abbreviation BlockId := N (only parsing).

Inductive BlockOwner : Type :=
| User
| Agent (conversation_id call_id : Str).

#[export] Instance BlockOwner_eq_dec : EqDecision BlockOwner.
Proof. solve_decision. Defined.

Inductive BlockState : Type :=
| BeforeExecution
| Executing
| DoneWithExecution
| DoneWithNoExecution
| Background
| Static.

#[export] Instance BlockState_eq_dec : EqDecision BlockState.
Proof. solve_decision. Defined.

(** [BlockState::is_done]. *)
Definition state_is_done (s : BlockState) : bool :=
  match s with DoneWithExecution | DoneWithNoExecution => true | _ => false end.

Definition accepts_output (s : BlockState) : bool :=
  match s with BeforeExecution | Executing | Background | Static => true | _ => false end.

Inductive BlockKind : Type :=
| Shell
| AgentView (conversation_id label : Str).

#[export] Instance BlockKind_eq_dec : EqDecision BlockKind.
Proof. solve_decision. Defined.

Definition is_shell (k : BlockKind) : bool := match k with Shell => true | _ => false end.

Inductive BlockView : Type :=
| TerminalView
| AgentConversation (conversation_id : Str).

Record BlockVisibility : Type := mkVisibility { terminal : bool; conversations : gset Str }.

#[export] Instance BlockVisibility_eq_dec : EqDecision BlockVisibility.
Proof. solve_decision. Defined.

Definition visibility_terminal : BlockVisibility := mkVisibility true ∅.
Definition visibility_agent (conversation_id : Str) : BlockVisibility :=
  mkVisibility false {[ conversation_id ]}.

Definition is_in_conversation (v : BlockVisibility) (conversation_id : Str) : bool :=
  bool_decide (conversation_id ∈ conversations v).

Definition is_visible_in (v : BlockVisibility) (view : BlockView) : bool :=
  match view with
  | TerminalView => terminal v
  | AgentConversation c => is_in_conversation v c
  end.

(** [BlockVisibility::associate]; false when the set had it already. *)
Definition associate (v : BlockVisibility) (c : Str) : BlockVisibility * bool :=
  (mkVisibility (terminal v) ({[ c ]} ∪ conversations v), negb (is_in_conversation v c)).

Inductive ToolOutcome : Type :=
| Finished (exit_code : Z)
| StillRunning.

#[export] Instance ToolOutcome_eq_dec : EqDecision ToolOutcome.
Proof. solve_decision. Defined.

Record ToolResult : Type := mkToolResult {
  tr_block : BlockId;
  tr_conversation_id : Str;
  tr_call_id : Str;
  tr_command : Str;
  tr_output : Str;
  tr_outcome : ToolOutcome;
}.

(** [ToolResult::exit_code], [is_failure] and [is_still_running]. *)
Definition tool_exit_code (r : ToolResult) : option Z :=
  match tr_outcome r with Finished code => Some code | StillRunning => None end.
Definition is_failure (r : ToolResult) : bool :=
  match tool_exit_code r with Some code => negb (code =? 0)%Z | None => false end.
Definition is_still_running (r : ToolResult) : bool := bool_decide (tr_outcome r = StillRunning).

Record BlockLine : Type := mkBlockLine { bl_block : BlockId; bl_line : Cells.ScreenLine }.

Inductive BlockEvent : Type :=
| SessionInitialized (session_id shell : option Str)
| Bootstrapped
| BlockStarted (id : BlockId)
| BlockFinished (id : BlockId) (exit_code : Z) (failed : bool)
| MetadataUpdated (id : BlockId)
| InputBufferChanged (buffer : Str) (cursor : option N)
| Cleared (removed : nat)
| ToolResultEvent (r : ToolResult).

(** One reading of [Instant::now] and of [SystemTime::now], in nanoseconds. *)
Record Clock : Type := mkClock { instant : N; wall : N }.

Record BlockMetadata : Type := mkMetadata {
  pwd : option Str;
  git_branch : option Str;
  rprompt : option Str;
  md_session_id : option Str;
  virtual_env : option Str;
  conda_env : option Str;
  node_version : option Str;
}.

Definition default_metadata : BlockMetadata := mkMetadata None None None None None None None.

End Blocks.

(** ** One block *)

Module Block.
Import Blocks.

Section block.
Context {V : Screen.Vt} {C : Image.ImageCodecs}.

Record t : Type := mk {
  id : BlockId;
  index : nat;
  kind : BlockKind;
  visibility : BlockVisibility;
  owner : BlockOwner;
  state : BlockState;
  command : Screen.t;
  output : Screen.t;
  command_text : Str;
  exit_code : option Z;
  metadata : BlockMetadata;
  honor_ps1 : bool;
  started_at : option N;
  started_wall : option N;
  finished_at : option N;
  dropped_bytes : nat;
}.

Definition new (id : BlockId) (index : nat) (size : Screen.ScreenSize) (state : BlockState) : t :=
  mk id index Shell visibility_terminal User state
    (Screen.new size Screen.config_block) (Screen.new size Screen.config_block)
    [] None default_metadata false None None None 0.

(** [Block { kind, ..block }] and its siblings. *)
Definition set_kind (k : BlockKind) (b : t) : t :=
  mk (id b) (index b) k (visibility b) (owner b) (state b) (command b) (output b)
    (command_text b) (exit_code b) (metadata b) (honor_ps1 b) (started_at b) (started_wall b)
    (finished_at b) (dropped_bytes b).
Definition set_index (i : nat) (b : t) : t :=
  mk (id b) i (kind b) (visibility b) (owner b) (state b) (command b) (output b)
    (command_text b) (exit_code b) (metadata b) (honor_ps1 b) (started_at b) (started_wall b)
    (finished_at b) (dropped_bytes b).
Definition set_visibility (v : BlockVisibility) (b : t) : t :=
  mk (id b) (index b) (kind b) v (owner b) (state b) (command b) (output b)
    (command_text b) (exit_code b) (metadata b) (honor_ps1 b) (started_at b) (started_wall b)
    (finished_at b) (dropped_bytes b).
Definition set_owner (o : BlockOwner) (b : t) : t :=
  mk (id b) (index b) (kind b) (visibility b) o (state b) (command b) (output b)
    (command_text b) (exit_code b) (metadata b) (honor_ps1 b) (started_at b) (started_wall b)
    (finished_at b) (dropped_bytes b).
Definition set_state (s : BlockState) (b : t) : t :=
  mk (id b) (index b) (kind b) (visibility b) (owner b) s (command b) (output b)
    (command_text b) (exit_code b) (metadata b) (honor_ps1 b) (started_at b) (started_wall b)
    (finished_at b) (dropped_bytes b).
Definition set_screens (c o : Screen.t) (b : t) : t :=
  mk (id b) (index b) (kind b) (visibility b) (owner b) (state b) c o
    (command_text b) (exit_code b) (metadata b) (honor_ps1 b) (started_at b) (started_wall b)
    (finished_at b) (dropped_bytes b).
Definition drop_bytes (n : nat) (b : t) : t :=
  mk (id b) (index b) (kind b) (visibility b) (owner b) (state b) (command b) (output b)
    (command_text b) (exit_code b) (metadata b) (honor_ps1 b) (started_at b) (started_wall b)
    (finished_at b) (dropped_bytes b + n).

Definition agent_view (id : BlockId) (index : nat) (size : Screen.ScreenSize)
    (conversation_id label : Str) : t :=
  set_kind (AgentView conversation_id label) (new id index size Static).

Definition conversation_id (b : t) : option Str :=
  match kind b with Shell => None | AgentView c _ => Some c end.
Definition label (b : t) : option Str :=
  match kind b with Shell => None | AgentView _ l => Some l end.

Definition is_done (b : t) : bool := state_is_done (state b).
Definition has_failed (b : t) : bool :=
  match exit_code b with Some code => negb (code =? 0)%Z | None => false end.

(** [Instant::duration_since] saturates at zero. *)
Definition duration (b : t) : option N :=
  finished ← finished_at b; started ← started_at b; Some (finished - started)%N.
Definition elapsed (now : Clock) (b : t) : option N :=
  if bool_decide (state b = Executing)
  then started ← started_at b; Some (instant now - started)%N
  else None.

(** [str::strip_suffix]. *)
Definition strip_suffix (s suffix : Str) : option Str :=
  reverse <$> strip_prefix (reverse suffix) (reverse s).

Definition prompt_text (b : t) : option Str :=
  let cmd := trim_end (command_text b) in
  if bool_decide (cmd = []) then None
  else prompt ← strip_suffix (trim_end (Screen.text (command b))) cmd;
       let prompt := trim_end prompt in
       if bool_decide (prompt = []) then None else Some prompt.

(** [Block::feed]: the state says which screen owns the bytes. *)
Definition feed (bytes : Bytes) (b : t) : t :=
  if negb (is_shell (kind b)) then drop_bytes (length bytes) b
  else match state b with
       | BeforeExecution => set_screens (Screen.feed (command b) bytes) (output b) b
       | Executing | Background | Static =>
           set_screens (command b) (Screen.feed (output b) bytes) b
       | DoneWithExecution | DoneWithNoExecution => drop_bytes (length bytes) b
       end.

Definition preexec (now : Clock) (cmd : Str) (b : t) : t :=
  if bool_decide (state b = Executing) then b
  else mk (id b) (index b) (kind b) (visibility b) (owner b) Executing (command b) (output b)
         cmd (exit_code b) (metadata b) (honor_ps1 b) (Some (instant now)) (Some (wall now))
         (finished_at b) (dropped_bytes b).

Definition promote_to_background (b : t) : t :=
  if bool_decide (state b = Executing) then set_state Background b else b.

Definition freeze (b : t) : t :=
  set_screens (Screen.freeze (command b)) (Screen.freeze (output b)) b.

Definition has_output (b : t) : bool := negb (bool_decide (Screen.text (output b) = [])).

Definition finish (now : Clock) (code : Z) (b : t) : t :=
  let s := if bool_decide (trim (command_text b) = []) && negb (has_output b)
           then DoneWithNoExecution else DoneWithExecution in
  freeze (mk (id b) (index b) (kind b) (visibility b) (owner b) s (command b) (output b)
            (command_text b) (Some code) (metadata b) (honor_ps1 b) (started_at b)
            (started_wall b) (Some (instant now)) (dropped_bytes b)).

Definition clear (b : t) : t := set_screens (command b) (Screen.reset (output b)) b.

Definition resize (size : Screen.ScreenSize) (b : t) : t :=
  set_screens (Screen.resize (command b) size) (Screen.resize (output b) size) b.

Definition set_metadata (v : HookTap.PrecmdValue) (b : t) : t :=
  mk (id b) (index b) (kind b) (visibility b) (owner b) (state b) (command b) (output b)
    (command_text b) (exit_code b)
    (mkMetadata (HookTap.pc_pwd v) (HookTap.pc_git_branch v) (HookTap.pc_rprompt v)
       (HookTap.pc_session_id v) (HookTap.pc_virtual_env v) (HookTap.pc_conda_env v)
       (HookTap.pc_node_version v))
    (default (honor_ps1 b) (HookTap.pc_honor_ps1 v))
    (started_at b) (started_wall b) (finished_at b) (dropped_bytes b).

(** [trimmed]: blank rows go from both ends. *)
Fixpoint skip_blank (l : list Cells.ScreenLine) : list Cells.ScreenLine :=
  match l with
  | row :: l' => if Cells.line_is_blank row then skip_blank l' else l
  | [] => []
  end.
Definition trimmed (l : list Cells.ScreenLine) : list Cells.ScreenLine :=
  skip_blank (reverse (skip_blank (reverse l))).

Definition command_lines (b : t) : list Cells.ScreenLine := trimmed (Screen.content_lines (command b)).
Definition output_lines (b : t) : list Cells.ScreenLine := trimmed (Screen.content_lines (output b)).
Definition lines (b : t) : list Cells.ScreenLine := command_lines b ++ output_lines b.
Definition visible_lines (b : t) : nat := length (lines b).
Definition output_text (b : t) : Str :=
  Screen.join [NEWLINE] (Cells.line_text <$> output_lines b).
Definition text (b : t) : Str :=
  Screen.join [NEWLINE] (Screen.pop_empty_last (Cells.line_text <$> lines b)).

End block.
Arguments t {_}.
End Block.

(** ** The blocks of a session *)

Module BlockList.
Import Blocks.

Record SessionInfo : Type := mkSession {
  session_id : option Str;
  shell : option Str;
  host : option Str;
  cwd : option Str;
  si_honor_ps1 : bool;
}.

Record PendingClaim : Type := mkClaim { claim_block : BlockId; claim_owner : BlockOwner }.

Section list.
Context {V : Screen.Vt} {C : Image.ImageCodecs}.

Record t : Type := mk {
  blocks : list Block.t;
  active : nat;
  size : Screen.ScreenSize;
  next_id : N;
  session : SessionInfo;
  bootstrapped : bool;
  input_buffer : Str;
  input_cursor : option N;
  gaps : list BlockId;
  pending_claim : option PendingClaim;
}.

Definition new (size : Screen.ScreenSize) : t :=
  mk [Block.new 1 0 size Static] 0 size 2 (mkSession None None None None false) false [] None [] None.

Definition with_blocks (f : list Block.t -> list Block.t) (l : t) : t :=
  mk (f (blocks l)) (active l) (size l) (next_id l) (session l) (bootstrapped l) (input_buffer l)
    (input_cursor l) (gaps l) (pending_claim l).
Definition set_session (s : SessionInfo) (l : t) : t :=
  mk (blocks l) (active l) (size l) (next_id l) s (bootstrapped l) (input_buffer l)
    (input_cursor l) (gaps l) (pending_claim l).
Definition set_claim (c : option PendingClaim) (l : t) : t :=
  mk (blocks l) (active l) (size l) (next_id l) (session l) (bootstrapped l) (input_buffer l)
    (input_cursor l) (gaps l) c.

Definition active_block (l : t) : option Block.t := blocks l !! active l.

(** An update of [active_block_mut]. *)
Definition on_active (f : Block.t -> Block.t) (l : t) : t := with_blocks (alter f (active l)) l.

Definition get (l : t) (id : BlockId) : option Block.t :=
  snd <$> list_find (fun b => Block.id b = id) (blocks l).

Definition dropped_bytes (l : t) : nat := foldl Nat.add 0 (Block.dropped_bytes <$> blocks l).

Definition claim_next_pre_exec (l : t) (id : BlockId) (owner : BlockOwner) : t * bool :=
  match active_block l with
  | Some a =>
      if negb (Block.id a =? id)%N || negb (bool_decide (Block.state a = BeforeExecution))
      then (l, false)
      else (set_claim (Some (mkClaim id owner)) l, true)
  | None => (l, false)
  end.

Definition resize (sz : Screen.ScreenSize) (l : t) : t :=
  let l := with_blocks (fmap (Block.resize sz)) l in
  mk (blocks l) (active l) sz (next_id l) (session l) (bootstrapped l) (input_buffer l)
    (input_cursor l) (gaps l) (pending_claim l).

Definition feed (bytes : Bytes) (l : t) : t :=
  if bool_decide (bytes = []) then l else on_active (Block.feed bytes) l.

Definition push_block (l : t) : t :=
  mk (blocks l ++ [Block.new (next_id l) (length (blocks l)) (size l) BeforeExecution])
    (length (blocks l)) (size l) (next_id l + 1) (session l) (bootstrapped l) (input_buffer l)
    (input_cursor l) (gaps l) (pending_claim l).

Definition tool_result (l : t) (index : nat) (outcome : ToolOutcome) : option ToolResult :=
  b ← blocks l !! index;
  match Block.owner b with
  | User => None
  | Agent conversation call =>
      Some (mkToolResult (Block.id b) conversation call (Block.command_text b)
              (Block.output_text b) outcome)
  end.

Definition tool_event (r : option ToolResult) : list BlockEvent :=
  match r with Some r => [ToolResultEvent r] | None => [] end.

Definition init_shell (v : HookTap.InitShellValue) (l : t) : t * list BlockEvent :=
  let s := session l in
  let s := mkSession (HookTap.session_id v) (HookTap.shell v) (HookTap.host v)
             (match HookTap.cwd v with Some d => Some d | None => cwd s end)
             (default (si_honor_ps1 s) (HookTap.honor_ps1 v)) in
  (set_session s l, [SessionInitialized (session_id s) (shell s)]).

Definition on_bootstrapped (l : t) : t * list BlockEvent :=
  if bootstrapped l then (l, [])
  else (push_block (mk (blocks l) (active l) (size l) (next_id l) (session l) true (input_buffer l)
                      (input_cursor l) (gaps l) (pending_claim l)), [Bootstrapped]).

(** [if value.pwd.is_some() { self.session.cwd = value.pwd.clone(); }] *)
Definition update_cwd (pwd : option Str) (l : t) : t :=
  match pwd with
  | Some d =>
      let s := session l in
      set_session (mkSession (session_id s) (shell s) (host s) (Some d) (si_honor_ps1 s)) l
  | None => l
  end.

(** The shell moved on: the active block keeps its command, and a new one starts. *)
Definition promote_active (a : Block.t) (l : t) : t * list BlockEvent :=
  if bool_decide (Block.state a = Executing) then
    let promoted := active l in
    let l := on_active Block.promote_to_background l in
    (push_block l, tool_event (tool_result l promoted StillRunning))
  else (l, []).

Definition on_precmd (v : HookTap.PrecmdValue) (l : t) : t * list BlockEvent :=
  let l := update_cwd (HookTap.pc_pwd v) l in
  match active_block l with
  | None => (l, [])
  | Some a =>
      let '(l, events) := promote_active a l in
      let l := on_active (Block.set_metadata v) l in
      match active_block l with
      | Some a => (l, events ++ [MetadataUpdated (Block.id a)])
      | None => (l, events)
      end
  end.

Definition on_preexec (now : Clock) (v : HookTap.PreexecValue) (l : t) : t * list BlockEvent :=
  let claim := pending_claim l in
  let l := set_claim None l in
  match active_block l with
  | None => (l, [])
  | Some a =>
      let l := match claim with
               | Some c => if (claim_block c =? Block.id a)%N
                           then on_active (Block.set_owner (claim_owner c)) l else l
               | None => l
               end in
      (on_active (Block.preexec now (default [] (HookTap.command v))) l, [BlockStarted (Block.id a)])
  end.

Definition on_command_finished (now : Clock) (code : Z) (l : t) : t * list BlockEvent :=
  let finished := active l in
  let l := on_active (Block.finish now code) l in
  match active_block l with
  | None => (l, [])
  | Some a =>
      (push_block l,
       BlockFinished (Block.id a) code (Block.has_failed a)
         :: tool_event (tool_result l finished (Finished code)))
  end.

(** [blocks.drain(..active)], with the blocks left renumbered. *)
Definition drain_earlier (l : t) : t :=
  if 0 <? active l then
    mk (imap Block.set_index (drop (active l) (blocks l))) 0 (size l) (next_id l) (session l)
      (bootstrapped l) (input_buffer l) (input_cursor l) (gaps l) (pending_claim l)
  else l.

Definition on_clear (l : t) : t * list BlockEvent :=
  let removed := active l in
  let l := on_active Block.clear (drain_earlier l) in
  match active_block l with
  | None => (l, [])
  | Some a =>
      let gaps' := if bool_decide (Block.id a ∈ gaps l) then gaps l else gaps l ++ [Block.id a] in
      (mk (blocks l) (active l) (size l) (next_id l) (session l) (bootstrapped l) (input_buffer l)
         (input_cursor l) gaps' (pending_claim l), [Cleared removed])
  end.

Definition on_input_buffer (v : HookTap.InputBufferValue) (l : t) : t * list BlockEvent :=
  (mk (blocks l) (active l) (size l) (next_id l) (session l) (bootstrapped l) (HookTap.buffer v)
     (HookTap.cursor v) (gaps l) (pending_claim l),
   [InputBufferChanged (HookTap.buffer v) (HookTap.cursor v)]).

(** [BlockList::apply]. *)
Definition apply (now : Clock) (event : HookTap.HookEvent) (l : t) : t * list BlockEvent :=
  match event with
  | HookTap.InitShell v => init_shell v l
  | HookTap.Bootstrapped _ => on_bootstrapped l
  | HookTap.Precmd v => on_precmd v l
  | HookTap.Preexec v => on_preexec now v l
  | HookTap.CommandFinished v => on_command_finished now (HookTap.exit_code v) l
  | HookTap.InputBuffer v => on_input_buffer v l
  | HookTap.Clear => on_clear l
  end.

Definition push_agent_view_block (conversation_id label : Str) (l : t) : t * BlockId :=
  (mk (blocks l ++ [Block.agent_view (next_id l) (length (blocks l)) (size l) conversation_id label])
     (active l) (size l) (next_id l + 1) (session l) (bootstrapped l) (input_buffer l)
     (input_cursor l) (gaps l) (pending_claim l), next_id l).

(** [iter_mut().find]: the update of the first block with an id. *)
Definition on_block (id : BlockId) (f : Block.t -> Block.t) (l : t) : t :=
  match list_find (fun b => Block.id b = id) (blocks l) with
  | Some (i, _) => with_blocks (alter f i) l
  | None => l
  end.

Definition associate_with_conversation (id : BlockId) (conversation_id : Str) (l : t) : t * bool :=
  (on_block id (fun b => Block.set_visibility (associate (Block.visibility b) conversation_id).1 b) l,
   match get l id with
   | Some b => (associate (Block.visibility b) conversation_id).2
   | None => false
   end).

Definition set_visibility (id : BlockId) (v : BlockVisibility) (l : t) : t * bool :=
  (on_block id (Block.set_visibility v) l, bool_decide (is_Some (get l id))).

(** The filter of [visible_blocks]. *)
Definition shown_in (view : BlockView) (b : Block.t) : bool :=
  match view with
  | AgentConversation c =>
      negb (bool_decide (Block.conversation_id b = Some c)) && is_visible_in (Block.visibility b) view
  | TerminalView => is_visible_in (Block.visibility b) view
  end.

Definition visible_blocks (view : BlockView) (l : t) : list Block.t :=
  base.filter (fun b => shown_in view b = true) (blocks l).

Definition block_rows (b : Block.t) : list BlockLine := mkBlockLine (Block.id b) <$> Block.lines b.
Definition lines (l : t) : list BlockLine := blocks l ≫= block_rows.
Definition visible_lines (view : BlockView) (l : t) : list BlockLine :=
  visible_blocks view l ≫= block_rows.
Definition total_lines (l : t) : nat := length (lines l).
Definition text (l : t) : Str :=
  Screen.join [NEWLINE; NEWLINE] (base.filter (fun s => s ≠ []) (Block.text <$> blocks l)).

End list.
Arguments t {_}.
End BlockList.
