(* ===== verification/TermBlocksProps.v ===== *)
(** * What the block list promises

    The invariant of a session, the life of a claimed command, the isolation of finished
    blocks and the content of a tool result, over every sequence of the operations of
    [list.rs] ([op], [run]). *)

From S2P Require Import Prelude Bytes TermHooks TermCells TermImage TermImageProps TermScreen TermBlocks.

Open Scope goble_scope.

Module BlockProps.
Import Blocks BlockList.

Section props.
Context {V : Screen.Vt} {C : Image.ImageCodecs}.

(** The operations of a list and their interleavings. *)
Inductive op : Type :=
| Feed (bytes : Bytes)
| Apply (now : Clock) (event : HookTap.HookEvent)
| Claim (id : BlockId) (owner : BlockOwner)
| Resize (size : Screen.ScreenSize)
| PushCard (conversation label : Str)
| Associate (id : BlockId) (conversation : Str)
| SetVisibility (id : BlockId) (v : BlockVisibility).

Definition do_op (l : t) (o : op) : t * list BlockEvent :=
  match o with
  | Feed bytes => (feed bytes l, [])
  | Apply now event => apply now event l
  | Claim id owner => ((claim_next_pre_exec l id owner).1, [])
  | Resize sz => (resize sz l, [])
  | PushCard c n => ((push_agent_view_block c n l).1, [])
  | Associate id c => ((associate_with_conversation id c l).1, [])
  | SetVisibility id v => ((set_visibility id v l).1, [])
  end.

Definition step (s : t * list BlockEvent) (o : op) : t * list BlockEvent :=
  ((do_op s.1 o).1, s.2 ++ (do_op s.1 o).2).
Definition run (l : t) (ops : list op) : t * list BlockEvent := foldl step (l, []) ops.

Lemma run_nil l : run l [] = (l, []).
Proof. done. Qed.

Lemma run_snoc l ops o :
  run l (ops ++ [o]) = ((do_op (run l ops).1 o).1, (run l ops).2 ++ (do_op (run l ops).1 o).2).
Proof. unfold run. by rewrite foldl_app. Qed.

Lemma sorted_nodup l : StronglySorted N.lt l -> NoDup l.
Proof.
  intros Hs. induction Hs as [|x l Hl IH Hx]; constructor; [|done].
  intros Hin. rewrite Forall_forall in Hx. specialize (Hx _ Hin). lia.
Qed.

(** ** One block *)

Definition is_live (s : BlockState) : bool :=
  match s with Static | BeforeExecution | Executing => true | _ => false end.
Definition has_started (s : BlockState) : bool :=
  match s with Static | BeforeExecution => false | _ => true end.

(** A block has an exit code and frozen screens exactly when it is done, belongs to the
    agent only once its command has started, and a card is never run. *)
Record block_ok (b : Block.t) : Prop := {
  ok_exit : is_Some (Block.exit_code b) <-> Block.is_done b = true;
  ok_frozen : Block.is_done b = true ->
    Screen.frozen (Block.command b) = true /\ Screen.frozen (Block.output b) = true;
  ok_owner : Block.owner b <> User -> has_started (Block.state b) = true;
  ok_card : is_shell (Block.kind b) = false -> Block.state b = Static /\ Block.owner b = User;
}.

(** The part of a block that its place in the list is read from. *)
Definition place (b : Block.t) : BlockId * nat * BlockKind := (Block.id b, Block.index b, Block.kind b).

Lemma new_block_ok id index sz s : is_live s = true -> s <> Executing -> block_ok (Block.new id index sz s).
Proof. intros Hs Hx. split; simpl; try done; destruct s; naive_solver. Qed.

Lemma card_ok id index sz c n : block_ok (Block.agent_view id index sz c n).
Proof. split; simpl; naive_solver. Qed.

Lemma feed_place bytes b : place (Block.feed bytes b) = place b.
Proof. unfold Block.feed. by destruct (negb _), (Block.state b). Qed.

Lemma feed_state bytes b : Block.state (Block.feed bytes b) = Block.state b.
Proof. unfold Block.feed. by destruct (negb _), (Block.state b) eqn:?. Qed.

Lemma screen_feed_frozen s bytes : Screen.frozen s = true -> Screen.frozen (Screen.feed s bytes) = true.
Proof. unfold Screen.feed. by intros ->. Qed.

Lemma feed_ok bytes b : block_ok b -> block_ok (Block.feed bytes b).
Proof.
  intros [He Hf Ho Hc]. unfold Block.feed.
  destruct (is_shell (Block.kind b)) eqn:Hk; simpl; [|split; simpl; naive_solver].
  unfold Block.is_done in *. destruct (Block.state b) eqn:Hs; split; unfold Block.is_done; simpl; rewrite ?Hs; naive_solver.
Qed.

Lemma preexec_place now cmd b : place (Block.preexec now cmd b) = place b.
Proof. unfold Block.preexec. by case_bool_decide. Qed.

Lemma preexec_ok now cmd b :
  is_live (Block.state b) = true -> is_shell (Block.kind b) = true -> block_ok b ->
  block_ok (Block.preexec now cmd b).
Proof.
  intros Hl Hk Hok. unfold Block.preexec. case_bool_decide; [done|]. destruct Hok as [He Hf Ho Hc].
  unfold Block.is_done in *. destruct (Block.state b); try done; split; simpl; naive_solver.
Qed.

Lemma finish_ok now code b :
  is_shell (Block.kind b) = true -> block_ok b ->
  block_ok (Block.finish now code b).
Proof.
  intros Hk [He Hf Ho Hc]. unfold Block.finish.
  destruct (_ && _); (split; simpl; [by split; eauto|done|done|by rewrite Hk]).
Qed.

Lemma promote_ok b : block_ok b -> block_ok (Block.promote_to_background b).
Proof.
  intros [He Hf Ho Hc]. unfold Block.promote_to_background. case_bool_decide as Hs; [|split; assumption].
  unfold Block.is_done in *. rewrite Hs in *. split; simpl; naive_solver.
Qed.

Lemma set_metadata_ok v b : block_ok b -> block_ok (Block.set_metadata v b).
Proof. intros []. split; assumption. Qed.
Lemma set_visibility_ok v b : block_ok b -> block_ok (Block.set_visibility v b).
Proof. intros []. split; assumption. Qed.
Lemma set_index_ok i b : block_ok b -> block_ok (Block.set_index i b).
Proof. intros []. split; assumption. Qed.
Lemma resize_ok sz b : block_ok b -> block_ok (Block.resize sz b).
Proof. intros []. split; assumption. Qed.

Lemma clear_ok b : is_live (Block.state b) = true -> block_ok b -> block_ok (Block.clear b).
Proof.
  intros Hl [He Hf Ho Hc]. split; try done. simpl. unfold Block.is_done in *. simpl.
  by destruct (Block.state b).
Qed.

(** ** The invariant *)

Record core (l : t) : Prop := {
  core_index : forall i b, blocks l !! i = Some b -> Block.index b = i;
  core_ids : StronglySorted N.lt (Block.id <$> blocks l);
  core_next : Forall (fun b => Block.id b < next_id l)%N (blocks l);
  core_blocks : Forall block_ok (blocks l);
}.

Record inv (l : t) : Prop := {
  inv_core : core l;
  inv_active : exists a, active_block l = Some a /\ is_shell (Block.kind a) = true
    /\ is_live (Block.state a) = true;
  inv_cards : forall i b, active l < i -> blocks l !! i = Some b -> is_shell (Block.kind b) = false;
}.

Lemma alter_fmap_same {B} (g : Block.t -> B) f i (l : list Block.t) :
  (forall b, l !! i = Some b -> g (f b) = g b) -> g <$> alter f i l = g <$> l.
Proof.
  intros Hg. apply list_eq. intros j. rewrite !list_lookup_fmap.
  destruct (decide (i = j)) as [<-|Hij]; [|by rewrite list_lookup_alter_ne].
  rewrite list_lookup_alter_eq. destruct (l !! i) as [b|] eqn:Hb; [|done]. cbn. f_equal. by apply Hg.
Qed.

Lemma forall_alter (P : Block.t -> Prop) f i l :
  Forall P l -> (forall b, l !! i = Some b -> P b -> P (f b)) -> Forall P (alter f i l).
Proof.
  intros Hl Hf. apply Forall_lookup. intros j b Hj. rewrite Forall_lookup in Hl.
  destruct (decide (i = j)) as [<-|Hij].
  - rewrite list_lookup_alter_eq in Hj. apply fmap_Some in Hj as (b' & Hb' & ->). eauto.
  - rewrite list_lookup_alter_ne in Hj by done. eauto.
Qed.

(** Facts read from the places of the blocks only. *)
Lemma place_lookup (bs bs' : list Block.t) i b :
  place <$> bs' = place <$> bs -> bs' !! i = Some b ->
  exists b0, bs !! i = Some b0 /\ place b = place b0.
Proof.
  intros Hp Hb. assert ((place <$> bs') !! i = Some (place b)) as H by (by rewrite list_lookup_fmap, Hb).
  rewrite Hp, list_lookup_fmap in H. apply fmap_Some in H as (b0 & ? & ?). eauto.
Qed.

Lemma place_ids (bs bs' : list Block.t) :
  place <$> bs' = place <$> bs -> Block.id <$> bs' = Block.id <$> bs.
Proof.
  intros Hp. assert (forall l : list Block.t, Block.id <$> l = (fun p : N * nat * BlockKind => p.1.1) <$> (place <$> l)) as H.
  { intros l. by rewrite <- list_fmap_compose. }
  by rewrite !H, Hp.
Qed.

Lemma core_with_blocks l f :
  core l -> place <$> f (blocks l) = place <$> blocks l -> Forall block_ok (f (blocks l)) ->
  core (with_blocks f l).
Proof.
  intros [Hi Hs Hn Hb] Hp Hok. split; simpl; [|by rewrite (place_ids _ _ Hp)| |done].
  - intros i b Hlk. apply (place_lookup _ _ _ _ Hp) in Hlk as (b0 & H0 & Hpl).
    injection Hpl as _ -> _. eauto.
  - apply Forall_lookup. intros i b Hlk. apply (place_lookup _ _ _ _ Hp) in Hlk as (b0 & H0 & Hpl).
    injection Hpl as -> _ _. rewrite Forall_lookup in Hn. eauto.
Qed.

Lemma core_on_active l f :
  core l -> (forall b, place (f b) = place b) ->
  (forall a, active_block l = Some a -> block_ok a -> block_ok (f a)) -> core (on_active f l).
Proof.
  intros Hc Hp Hok. apply core_with_blocks; [done|by apply alter_fmap_same|].
  apply forall_alter; [apply Hc|]. eauto.
Qed.

(** An update of the active block that leaves it live. *)
Lemma inv_on_active l f :
  inv l -> (forall b, place (f b) = place b) ->
  (forall a, active_block l = Some a -> is_shell (Block.kind a) = true ->
     is_live (Block.state a) = true -> block_ok a ->
     block_ok (f a) /\ is_live (Block.state (f a)) = true) ->
  inv (on_active f l).
Proof.
  intros [Hc (a & Ha & Hk & Hl) Hd] Hp Hf. split.
  - apply core_on_active; [done..|]. intros b Hb Hok. rewrite Ha in Hb. injection Hb as <-. by apply Hf.
  - exists (f a). unfold active_block in *. simpl. rewrite list_lookup_alter_eq, Ha. split; [done|].
    assert (block_ok a) as Hok.
    { pose proof (core_blocks _ Hc) as H. rewrite Forall_lookup in H. eauto. }
    pose proof (Hp a) as Hpa. injection Hpa as _ _ ->. split; [done|]. by apply Hf.
  - intros i b Hi Hb. simpl in *. rewrite list_lookup_alter_ne in Hb by lia. eauto.
Qed.

(** An update that leaves every block where it is and its state alone. *)
Lemma inv_with_blocks l f :
  inv l -> place <$> f (blocks l) = place <$> blocks l ->
  Block.state <$> f (blocks l) = Block.state <$> blocks l -> Forall block_ok (f (blocks l)) ->
  inv (with_blocks f l).
Proof.
  intros [Hc (a & Ha & Hk & Hl) Hd] Hp Hs Hok. split; [by apply core_with_blocks| |].
  - unfold active_block in *. simpl.
    assert ((place <$> f (blocks l)) !! active l = Some (place a)) as H.
    { by rewrite Hp, list_lookup_fmap, Ha. }
    rewrite list_lookup_fmap in H. apply fmap_Some in H as (a' & Ha' & Hpa).
    assert ((Block.state <$> f (blocks l)) !! active l = Some (Block.state a)) as H.
    { by rewrite Hs, list_lookup_fmap, Ha. }
    rewrite list_lookup_fmap, Ha' in H. injection H as H. injection Hpa as _ _ Hka.
    exists a'. rewrite <- Hka, H. done.
  - intros i b Hi Hb. apply (place_lookup _ _ _ _ Hp) in Hb as (b0 & H0 & Hpl).
    injection Hpl as _ _ ->. eauto.
Qed.

Lemma core_snoc l b :
  core l -> Block.id b = next_id l -> Block.index b = length (blocks l) -> block_ok b ->
  forall a sz s bt ib ic g c, core (mk (blocks l ++ [b]) a sz (next_id l + 1) s bt ib ic g c).
Proof.
  intros [Hi Hs Hn Hb] Hid Hix Hok a sz s bt ib ic g c. split; simpl.
  - intros i b' H. apply lookup_app_Some in H as [H|[Hl H]]; [eauto|].
    apply list_lookup_singleton_Some in H as [Hz <-]. lia.
  - rewrite fmap_app. apply StronglySorted_app. split_and!; [|done|by repeat constructor].
    intros x y Hx Hy. apply list_elem_of_fmap in Hx as (b' & -> & Hb').
    apply list_elem_of_singleton in Hy as ->. rewrite Forall_forall in Hn.
    rewrite Hid. by apply Hn.
  - apply Forall_app. split; [|repeat constructor; simpl; lia].
    eapply Forall_impl; [exact Hn|]. simpl. lia.
  - apply Forall_app. auto.
Qed.

Lemma push_block_inv l : core l -> inv (push_block l).
Proof.
  intros Hc. split; simpl.
  - apply core_snoc; [done..|]. by apply new_block_ok.
  - eexists. unfold active_block. simpl. rewrite lookup_app_r, Nat.sub_diag by done. by simpl.
  - intros i b Hi Hb. apply lookup_lt_Some in Hb. rewrite length_app in Hb. simpl in Hb. lia.
Qed.

Lemma core_ext l l' :
  blocks l' = blocks l -> next_id l' = next_id l -> core l -> core l'.
Proof. intros Hb Hn [H1 H2 H3 H4]. by split; rewrite ?Hb, ?Hn. Qed.

Lemma inv_ext l l' :
  blocks l' = blocks l -> active l' = active l -> next_id l' = next_id l -> inv l -> inv l'.
Proof.
  intros Hb Ha Hn [Hc Hl Hd]. split; [by apply (core_ext l)| |].
  - unfold active_block. by rewrite Hb, Ha.
  - by rewrite Hb, Ha.
Qed.

Lemma new_inv sz : inv (new sz).
Proof.
  split; [split; simpl|..].
  - intros i b H. apply list_lookup_singleton_Some in H as [<- <-]. done.
  - repeat constructor.
  - repeat constructor.
  - repeat constructor; try done; naive_solver.
  - by eexists.
  - intros i b H Hb. apply list_lookup_singleton_Some in Hb as [Hi _]. simpl in H. lia.
Qed.

Lemma feed_inv bytes l : inv l -> inv (feed bytes l).
Proof.
  intros Hl. unfold feed. case_bool_decide; [done|].
  apply inv_on_active; [done|apply feed_place|]. intros a Ha Hk Hs Hok.
  by rewrite feed_state; split; [apply feed_ok|].
Qed.

Lemma card_inv c n l : inv l -> inv (push_agent_view_block c n l).1.
Proof.
  intros [Hc (a & Ha & Hk & Hs) Hd]. unfold push_agent_view_block. simpl. split.
  - apply core_snoc; [done..|]. apply card_ok.
  - exists a. unfold active_block in *. simpl. split; [|done].
    by apply lookup_app_l_Some.
  - simpl. intros i b Hi Hb. apply lookup_app_Some in Hb as [Hb|[_ Hb]]; [eauto|].
    by apply list_lookup_singleton_Some in Hb as [_ <-].
Qed.

Lemma on_block_inv id f l :
  inv l -> (forall b, place (f b) = place b) -> (forall b, Block.state (f b) = Block.state b) ->
  (forall b, block_ok b -> block_ok (f b)) -> inv (on_block id f l).
Proof.
  intros Hl Hp Hs Hok. unfold on_block. destruct (list_find _ _) as [[i b]|]; [|done].
  apply inv_with_blocks; [done|by apply alter_fmap_same..|].
  apply forall_alter; [exact (core_blocks _ (inv_core _ Hl))|auto].
Qed.

Lemma resize_inv sz l : inv l -> inv (resize sz l).
Proof.
  intros Hl. apply (inv_ext (with_blocks (fmap (Block.resize sz)) l)); [done..|].
  apply inv_with_blocks; [done|by rewrite <- list_fmap_compose..|].
  apply Forall_fmap. eapply Forall_impl; [exact (core_blocks _ (inv_core _ Hl))|]. apply resize_ok.
Qed.

Lemma active_ok l a : inv l -> active_block l = Some a -> block_ok a.
Proof.
  intros Hl Ha. pose proof (core_blocks _ (inv_core _ Hl)) as H. rewrite Forall_lookup in H. eauto.
Qed.

Lemma active_on_active f l : active_block (on_active f l) = f <$> active_block l.
Proof. unfold active_block. simpl. by rewrite list_lookup_alter_eq. Qed.

(** A claim gives the active block its owner as its command starts. *)
Lemma start_ok now cmd o b :
  is_live (Block.state b) = true -> is_shell (Block.kind b) = true -> block_ok b ->
  let b' := Block.preexec now cmd (Block.set_owner o b) in
  block_ok b' /\ is_live (Block.state b') = true.
Proof.
  intros Hl Hk [He Hf Ho Hc] b'. subst b'. unfold Block.preexec. simpl. unfold Block.is_done in *.
  case_bool_decide as Hs.
  - split; [|simpl; by rewrite Hs]. rewrite Hs in *.
    split; unfold Block.is_done; simpl; rewrite ?Hs; naive_solver.
  - split; [|done]. split; unfold Block.is_done; simpl; destruct (Block.state b); naive_solver.
Qed.

Lemma on_active_compose f g l : on_active f (on_active g l) = on_active (fun b => f (g b)) l.
Proof.
  unfold on_active, with_blocks. simpl. f_equal. apply list_eq. intros j.
  destruct (decide (active l = j)) as [<-|Hj]; [|by rewrite !list_lookup_alter_ne].
  rewrite !list_lookup_alter_eq. by destruct (blocks l !! active l).
Qed.

Lemma preexec_inv now v l : inv l -> inv (on_preexec now v l).1.
Proof.
  intros Hl. unfold on_preexec. pose proof (inv_active _ Hl) as (a & Ha & _).
  change (active_block (set_claim None l)) with (active_block l). rewrite Ha. simpl.
  assert (inv (set_claim None l)) as Hl' by (by apply (inv_ext l)).
  assert (forall g, (forall b, g b = b \/ exists o, g b = Block.set_owner o b) ->
    inv (on_active (fun b => Block.preexec now (default [] (HookTap.command v)) (g b))
           (set_claim None l))) as H.
  { intros g Hg. apply inv_on_active; [done|..].
    - intros b. rewrite preexec_place. by destruct (Hg b) as [->|[o ->]].
    - intros b Hb Hk Hs Hok. destruct (Hg b) as [->|[o ->]]; [|by apply start_ok].
      split; [by apply preexec_ok|]. unfold Block.preexec. by case_bool_decide. }
  destruct (pending_claim l) as [c|]; [destruct (claim_block c =? Block.id a)%N|].
  - rewrite on_active_compose. apply (H (Block.set_owner (claim_owner c))). eauto.
  - apply (H id). auto.
  - apply (H id). auto.
Qed.

Lemma update_cwd_inv d l : inv l -> inv (update_cwd d l).
Proof. intros Hl. destruct d; [|done]. by apply (inv_ext l). Qed.

Lemma promote_inv a l : inv l -> inv (promote_active a l).1.
Proof.
  intros Hl. unfold promote_active. case_bool_decide; [|done]. simpl.
  apply push_block_inv, core_on_active; [apply Hl|..].
  - intros b. unfold Block.promote_to_background. by case_bool_decide.
  - intros b _. apply promote_ok.
Qed.

Lemma precmd_inv v l : inv l -> inv (on_precmd v l).1.
Proof.
  intros Hl. unfold on_precmd. apply (update_cwd_inv (HookTap.pc_pwd v)) in Hl. revert Hl.
  generalize (update_cwd (HookTap.pc_pwd v) l). clear l. intros l Hl.
  destruct (active_block l) as [a|]; [|done]. apply (promote_inv a) in Hl.
  destruct (promote_active a l) as [l' ev]. simpl in *.
  assert (inv (on_active (Block.set_metadata v) l')) as Hm.
  { apply inv_on_active; [done..|]. intros. split; [by apply set_metadata_ok|done]. }
  by destruct (active_block _).
Qed.

Lemma finished_inv now code l : inv l -> inv (on_command_finished now code l).1.
Proof.
  intros Hl. unfold on_command_finished. rewrite active_on_active.
  pose proof (inv_active _ Hl) as (a & Ha & Hk & Hs). rewrite Ha. simpl.
  apply push_block_inv, core_on_active; [apply Hl|done|].
  intros b Hb Hok. rewrite Ha in Hb. injection Hb as <-. by apply finish_ok.
Qed.

Lemma core_drain n l a sz s bt ib ic g c :
  core l -> core (mk (imap Block.set_index (drop n (blocks l))) a sz (next_id l) s bt ib ic g c).
Proof.
  intros [Hi Hs Hn Hb]. split; simpl.
  - intros i b H. rewrite list_lookup_imap in H. by apply fmap_Some in H as (b0 & _ & ->).
  - rewrite fmap_imap. rewrite (imap_ext _ (const Block.id)) by done. rewrite imap_const.
    rewrite fmap_drop. rewrite <- (take_drop n (Block.id <$> blocks l)) in Hs.
    by apply StronglySorted_app in Hs as (_ & _ & ?).
  - apply Forall_lookup. intros i b H. rewrite list_lookup_imap in H.
    apply fmap_Some in H as (b0 & H & ->). rewrite lookup_drop in H. rewrite Forall_lookup in Hn. apply (Hn _ _ H).
  - apply Forall_lookup. intros i b H. rewrite list_lookup_imap in H.
    apply fmap_Some in H as (b0 & H & ->). rewrite lookup_drop in H. rewrite Forall_lookup in Hb.
    apply set_index_ok. eauto.
Qed.

Lemma drain_inv l : inv l -> inv (drain_earlier l).
Proof.
  intros Hl. unfold drain_earlier. destruct (Nat.ltb_spec 0 (active l)); [|done].
  pose proof Hl as [Hc (a & Ha & Hk & Hs) Hd]. split; [by apply core_drain|..].
  - exists (Block.set_index 0 a). unfold active_block in *. simpl.
    by rewrite list_lookup_imap, lookup_drop, Nat.add_0_r, Ha.
  - simpl. intros i b Hi Hb. rewrite list_lookup_imap in Hb. apply fmap_Some in Hb as (b0 & Hb & ->).
    rewrite lookup_drop in Hb. refine (Hd _ _ _ Hb). lia.
Qed.

Lemma clear_inv l : inv l -> inv (on_clear l).1.
Proof.
  intros Hl. unfold on_clear. apply drain_inv in Hl.
  assert (inv (on_active Block.clear (drain_earlier l))) as Hclear.
  { apply inv_on_active; [done..|]. intros a Ha Hk Hs Hok. split; [by apply clear_ok|done]. }
  destruct (active_block _); [|done]. by apply (inv_ext (on_active Block.clear (drain_earlier l))).
Qed.

Lemma apply_inv now e l : inv l -> inv (apply now e l).1.
Proof.
  intros Hl. destruct e as [v|v|v|v|v|v|]; simpl.
  - by apply (inv_ext l).
  - unfold on_bootstrapped. destruct (bootstrapped l); [done|]. apply push_block_inv.
    by apply (core_ext l), Hl.
  - by apply precmd_inv.
  - by apply preexec_inv.
  - by apply finished_inv.
  - by apply (inv_ext l).
  - by apply clear_inv.
Qed.

Lemma do_op_inv l o : inv l -> inv (do_op l o).1.
Proof.
  intros Hl. destruct o as [bytes|now e|id ow|sz|c n|id c|id v]; simpl.
  - by apply feed_inv.
  - by apply apply_inv.
  - unfold claim_next_pre_exec. destruct (active_block l); [|done]. destruct (_ || _); [done|].
    by apply (inv_ext l).
  - by apply resize_inv.
  - by apply (card_inv c n).
  - apply on_block_inv; [done..|]. intros b. apply set_visibility_ok.
  - apply on_block_inv; [done..|]. intros b. apply set_visibility_ok.
Qed.

Lemma run_inv l ops : inv l -> inv (run l ops).1.
Proof.
  intros Hl. induction ops as [|o ops IH] using rev_ind; [done|]. rewrite run_snoc. by apply do_op_inv.
Qed.

(** C26: The invariant of a session, whatever the shell and the application do and in
    whatever order: one block is active, it is a shell block that can still change, and
    every block after it is a conversation's card; the blocks are numbered by position and
    carry ascending ids that are never used twice; a block has an exit code exactly when it
    is done, its screens are frozen then, an agent owns it only once its command started,
    and a card is never run. *)
Theorem block_list_invariant sz ops : inv (run (new sz) ops).1.
Proof. apply run_inv, new_inv. Qed.

(** ** What one operation can touch *)

Definition reshaped (s s' : Screen.t) : Prop := exists sz, s' = Screen.resize s sz.

(** [b'] is [b] at a later time, with nothing run in it and nothing printed: at most
    renumbered, shown in other views, and reshaped with the window. *)
Record untouched (b b' : Block.t) : Prop := {
  un_id : Block.id b' = Block.id b;
  un_kind : Block.kind b' = Block.kind b;
  un_owner : Block.owner b' = Block.owner b;
  un_state : Block.state b' = Block.state b;
  un_text : Block.command_text b' = Block.command_text b;
  un_exit : Block.exit_code b' = Block.exit_code b;
  un_metadata : Block.metadata b' = Block.metadata b;
  un_times : Block.duration b' = Block.duration b /\ Block.started_wall b' = Block.started_wall b;
  un_command : rtc reshaped (Block.command b) (Block.command b');
  un_output : rtc reshaped (Block.output b) (Block.output b');
}.

#[export] Instance untouched_preorder : PreOrder untouched.
Proof.
  split.
  - intros b. by split.
  - intros b b1 b2 [] []. split; try congruence; [naive_solver congruence|by etrans..].
Qed.

Lemma set_index_untouched i b : untouched b (Block.set_index i b).
Proof. by split. Qed.
Lemma set_visibility_untouched v b : untouched b (Block.set_visibility v b).
Proof. by split. Qed.
Lemma resize_untouched sz b : untouched b (Block.resize sz b).
Proof. split; try done; simpl; apply rtc_once; by eexists. Qed.

(** The same, shown in the same views. *)
Definition kept (b b' : Block.t) : Prop := untouched b b' /\ Block.visibility b' = Block.visibility b.

(** Where a block of the list after an operation comes from: it is new, or an old one [K]
    relates it to, or the active one, which gets a claim's owner only when [started]; a
    new one is a card only when [carded]. *)
Inductive origin (K : Block.t -> Block.t -> Prop) (started carded : Prop) (l : t) (b' : Block.t) : Prop :=
| origin_new : (next_id l <= Block.id b')%N -> Block.owner b' = User ->
    Block.visibility b' = visibility_terminal -> (Block.kind b' = Shell \/ carded) -> origin K started carded l b'
| origin_kept b : b ∈ blocks l -> K b b' -> origin K started carded l b'
| origin_active a : active_block l = Some a -> Block.id b' = Block.id a ->
    Block.kind b' = Block.kind a -> Block.visibility b' = Block.visibility a ->
    (Block.owner b' = Block.owner a \/
     started /\ exists c, pending_claim l = Some c /\ claim_block c = Block.id a
       /\ Block.owner b' = claim_owner c) ->
    origin K started carded l b'.

Lemma origin_impl (K K' : Block.t -> Block.t -> Prop) (S S' T T' : Prop) l b' :
  (forall b, K b b' -> K' b b') -> (S -> S') -> (T -> T') ->
  origin K S T l b' -> origin K' S' T' l b'.
Proof.
  intros HK HS HT [Hn Ho Hv Hk|b Hb Hu|a Ha Hi Hk Hv Ho].
  - apply origin_new; naive_solver.
  - apply (origin_kept _ _ _ _ _ b); auto.
  - apply (origin_active _ _ _ _ _ a); naive_solver.
Qed.

Lemma elem_alter (f : Block.t -> Block.t) i (bs : list Block.t) b' :
  b' ∈ alter f i bs -> b' ∈ bs \/ exists b, bs !! i = Some b /\ b' = f b.
Proof.
  intros [j Hj]%list_elem_of_lookup. destruct (decide (i = j)) as [<-|Hij].
  - rewrite list_lookup_alter_eq in Hj. apply fmap_Some in Hj. naive_solver.
  - rewrite list_lookup_alter_ne in Hj by done. left. by eapply list_elem_of_lookup_2.
Qed.

Lemma origin_same (S : Prop) l b : b ∈ blocks l -> origin kept S False l b.
Proof. intros Hb. by apply (origin_kept _ _ _ _ _ b). Qed.

Lemma origin_push l b' :
  b' ∈ blocks (push_block l) ->
  b' ∈ blocks l \/ (next_id l <= Block.id b')%N /\ Block.owner b' = User
    /\ Block.visibility b' = visibility_terminal /\ Block.kind b' = Shell.
Proof.
  simpl. intros [?|Hb]%elem_of_app; [auto|]. apply list_elem_of_singleton in Hb as ->. right. by simpl.
Qed.

(** The active block and what it is updated to. *)
Lemma elem_on_active l f b' :
  b' ∈ blocks (on_active f l) -> b' ∈ blocks l \/ exists a, active_block l = Some a /\ b' = f a.
Proof. apply elem_alter. Qed.

(** An update of the active block that keeps who and what it is. *)
Definition same_block (f : Block.t -> Block.t) : Prop :=
  forall b, place (f b) = place b /\ Block.owner (f b) = Block.owner b
    /\ Block.visibility (f b) = Block.visibility b.

Lemma origin_on_active (S : Prop) l f b' :
  same_block f -> b' ∈ blocks (on_active f l) -> origin kept S False l b'.
Proof.
  intros Hf Hb. apply elem_on_active in Hb as [Hb|(a & Ha & ->)]; [by apply origin_same|].
  destruct (Hf a) as (Hp & Ho & Hv). injection Hp as Hi _ Hk.
  apply (origin_active _ _ _ _ _ a); auto.
Qed.

Lemma feed_same bytes : same_block (Block.feed bytes).
Proof. intros b. unfold Block.feed. by destruct (negb _), (Block.state b) eqn:?. Qed.
Lemma promote_same : same_block Block.promote_to_background.
Proof. intros b. unfold Block.promote_to_background. by case_bool_decide. Qed.
Lemma preexec_same now cmd : same_block (Block.preexec now cmd).
Proof. intros b. unfold Block.preexec. by case_bool_decide. Qed.

Lemma precmd_origin v l b' : b' ∈ blocks (on_precmd v l).1 -> origin kept False False l b'.
Proof.
  unfold on_precmd. set (l1 := update_cwd (HookTap.pc_pwd v) l).
  assert (blocks l1 = blocks l /\ active_block l1 = active_block l /\ next_id l1 = next_id l)
    as (Hb1 & Ha1 & Hn1) by (subst l1; unfold active_block; by destruct (HookTap.pc_pwd v)).
  assert (forall f b, same_block f -> b ∈ blocks (on_active f l1) -> origin kept False False l b) as Hup.
  { intros f b Hf Hb. apply elem_on_active in Hb as [Hb|(a' & Ha' & ->)].
    - rewrite Hb1 in Hb. by apply origin_same.
    - destruct (Hf a') as (Hp & Ho & Hv). injection Hp as Hi _ Hk.
      apply (origin_active _ _ _ _ _ a'); [congruence|auto..]. }
  destruct (active_block l1) as [a|] eqn:Ha; [|simpl; rewrite Hb1; apply origin_same].
  unfold promote_active. case_bool_decide as Hx; cbv beta iota zeta.
  - intros Hb. assert (b' ∈ blocks (on_active (Block.set_metadata v)
      (push_block (on_active Block.promote_to_background l1)))) as Hb2
      by (by destruct (active_block _) in Hb). clear Hb.
    apply elem_on_active in Hb2 as [Hb2|(a' & Ha' & ->)].
    + apply origin_push in Hb2 as [Hb2|(Hn & Ho & Hv & Hk)].
      * eapply Hup; [apply promote_same|exact Hb2].
      * apply origin_new; [by rewrite <- Hn1|auto..].
    + unfold active_block in Ha'. simpl in Ha'. rewrite lookup_app_r, Nat.sub_diag in Ha' by done.
      injection Ha' as <-. apply origin_new; simpl; [lia|auto..].
  - intros Hb. apply (Hup (Block.set_metadata v)); [done|]. by destruct (active_block _) in Hb.
Qed.

Lemma preexec_origin now v l b' : b' ∈ blocks (on_preexec now v l).1 -> origin kept True False l b'.
Proof.
  unfold on_preexec. change (active_block (set_claim None l)) with (active_block l).
  destruct (active_block l) as [a|] eqn:Ha; [|simpl; apply origin_same].
  set (cmd := default [] (HookTap.command v)). cbv beta iota zeta. cbn [fst].
  assert (forall g, b' ∈ blocks (on_active (fun b => Block.preexec now cmd (g b)) (set_claim None l)) ->
    place (g a) = place a -> Block.visibility (g a) = Block.visibility a ->
    (Block.owner (g a) = Block.owner a \/ exists c, pending_claim l = Some c /\
       claim_block c = Block.id a /\ Block.owner (g a) = claim_owner c) -> origin kept True False l b') as H.
  { intros g Hb Hp Hv Ho. apply elem_on_active in Hb as [Hb|(a' & Ha' & ->)]; [by apply origin_same|].
    change (active_block l = Some a') in Ha'. rewrite Ha in Ha'. injection Ha' as <-.
    destruct (preexec_same now cmd (g a)) as (E1 & E2 & E3). rewrite Hp in E1. injection E1 as Ei _ Ek.
    apply (origin_active _ _ _ _ _ a); [done..|congruence|]. rewrite E2. naive_solver. }
  destruct (pending_claim l) as [c|] eqn:Hc; [destruct (claim_block c =? Block.id a)%N eqn:E|].
  - rewrite on_active_compose. intros Hb. apply (H (Block.set_owner (claim_owner c)) Hb); [done..|].
    apply N.eqb_eq in E. eauto.
  - intros Hb. apply (H id Hb); auto.
  - intros Hb. apply (H id Hb); auto.
Qed.

Lemma finished_origin now code l b' :
  b' ∈ blocks (on_command_finished now code l).1 -> origin kept False False l b'.
Proof.
  unfold on_command_finished. cbv zeta. destruct (active_block (on_active _ l)); simpl fst.
  - intros [Hb|(Hn & Ho & Hv & Hk)]%origin_push; [|apply origin_new; auto].
    by apply (origin_on_active _ _ (Block.finish now code)).
  - by apply (origin_on_active _ _ (Block.finish now code)).
Qed.

Lemma drain_active l : active_block (drain_earlier l) = Block.set_index 0 <$> active_block l
  \/ active_block (drain_earlier l) = active_block l.
Proof.
  unfold drain_earlier. destruct (0 <? active l); [left|by right]. unfold active_block. simpl.
  by rewrite list_lookup_imap, lookup_drop, Nat.add_0_r.
Qed.

Lemma drain_elem l b' : b' ∈ blocks (drain_earlier l) -> exists b, b ∈ blocks l /\ kept b b'.
Proof.
  unfold drain_earlier. destruct (0 <? active l); [|by eexists].
  simpl. intros [i Hi]%list_elem_of_lookup. rewrite list_lookup_imap in Hi.
  apply fmap_Some in Hi as (b & Hb & ->). rewrite lookup_drop in Hb. exists b.
  split; [by eapply list_elem_of_lookup_2|split; [apply set_index_untouched|done]].
Qed.

Lemma clear_origin l b' : b' ∈ blocks (on_clear l).1 -> origin kept False False l b'.
Proof.
  unfold on_clear. intros Hb. assert (b' ∈ blocks (on_active Block.clear (drain_earlier l))) as Hb2
    by (by destruct (active_block _) in Hb).
  apply elem_on_active in Hb2 as [Hb2|(a & Ha & ->)].
  - apply drain_elem in Hb2 as (b & ? & ?). by apply (origin_kept _ _ _ _ _ b).
  - destruct (drain_active l) as [E|E]; rewrite E in Ha; [|by apply (origin_active _ _ _ _ _ a); auto].
    apply fmap_Some in Ha as (a0 & Ha0 & ->). apply (origin_active _ _ _ _ _ a0); auto.
Qed.

Definition is_preexec (e : HookTap.HookEvent) : Prop :=
  match e with HookTap.Preexec _ => True | _ => False end.

Lemma apply_origin now e l b' : b' ∈ blocks (apply now e l).1 -> origin kept (is_preexec e) False l b'.
Proof.
  destruct e as [v|v|v|v|v|v|]; simpl;
    [apply origin_same| |apply precmd_origin|apply preexec_origin|apply finished_origin
    |apply origin_same|apply clear_origin].
  unfold on_bootstrapped. destruct (bootstrapped l); [apply origin_same|].
  intros [Hb|(Hn & Ho & Hv & Hk)]%origin_push; [by apply origin_same|apply origin_new; auto].
Qed.

(** Every block after an operation is new, or an old one left alone, or the active one. *)
Lemma do_op_origin l o b' : b' ∈ blocks (do_op l o).1 -> origin untouched True True l b'.
Proof.
  assert (origin kept True False l b' -> origin untouched True True l b') as Hk.
  { apply origin_impl; [|done..]. by intros b []. }
  assert (b' ∈ blocks l -> origin untouched True True l b') as Hsame by (intros Hb; by apply Hk, origin_same).
  assert (forall id f, (forall b, untouched b (f b)) -> b' ∈ blocks (on_block id f l) ->
    origin untouched True True l b') as Hblock.
  { intros id f Hf. unfold on_block. destruct (list_find _ _) as [[i b0]|]; [|done].
    intros [Hb|(a & Ha & ->)]%elem_alter; [by apply Hsame|].
    apply (origin_kept _ _ _ _ _ a); [by eapply list_elem_of_lookup_2|done]. }
  destruct o as [bytes|now e|id ow|sz|c n|id c|id v]; simpl.
  - unfold feed. case_bool_decide; [done|]. intros Hb. apply Hk. revert Hb.
    apply origin_on_active, feed_same.
  - intros Hb%apply_origin. apply Hk. revert Hb. apply origin_impl; naive_solver.
  - unfold claim_next_pre_exec. destruct (active_block l); [|done]. by destruct (_ || _).
  - intros (b & -> & Hb)%list_elem_of_fmap. apply (origin_kept _ _ _ _ _ b); [done|apply resize_untouched].
  - intros [Hb|Hb]%elem_of_app; [by apply Hsame|].
    apply list_elem_of_singleton in Hb as ->. apply origin_new; simpl; [lia|auto..].
  - apply Hblock. intros b. apply set_visibility_untouched.
  - apply Hblock. intros b. apply set_visibility_untouched.
Qed.

(** ** Progress of the active block *)

Definition active_id (l : t) : N := match active_block l with Some a => Block.id a | None => 0 end.

Definition tool_results (events : list BlockEvent) : list ToolResult :=
  omap (fun e => match e with ToolResultEvent r => Some r | _ => None end) events.

Lemma tool_results_app e1 e2 : tool_results (e1 ++ e2) = tool_results e1 ++ tool_results e2.
Proof. apply omap_app. Qed.

Lemma active_id_lt l : inv l -> (active_id l < next_id l)%N.
Proof.
  intros Hl. pose proof (inv_active _ Hl) as (a & Ha & _). unfold active_id. rewrite Ha.
  pose proof (core_next _ (inv_core _ Hl)) as H. rewrite Forall_lookup in H. by apply (H _ _ Ha).
Qed.

Lemma active_id_on_active f l :
  (forall b, Block.id (f b) = Block.id b) -> active_id (on_active f l) = active_id l.
Proof. intros Hf. unfold active_id. rewrite active_on_active. destruct (active_block l); simpl; auto. Qed.

Lemma active_id_push l : active_id (push_block l) = next_id l.
Proof. unfold active_id, active_block. simpl. by rewrite lookup_app_r, Nat.sub_diag. Qed.

Lemma active_id_drain l : active_id (drain_earlier l) = active_id l.
Proof. unfold active_id. destruct (drain_active l) as [-> | ->]; by destruct (active_block l). Qed.

Lemma active_id_on_block id f l :
  (forall b, Block.id (f b) = Block.id b) -> active_id (on_block id f l) = active_id l.
Proof.
  intros Hf. unfold on_block. destruct (list_find _ _) as [[i b]|]; [|done].
  unfold active_id, active_block. simpl. destruct (decide (i = active l)) as [->|Hi].
  - rewrite list_lookup_alter_eq. destruct (blocks l !! active l); simpl; auto.
  - by rewrite list_lookup_alter_ne.
Qed.

Lemma tool_result_of l i o r :
  tool_result l i o = Some r -> exists b, blocks l !! i = Some b /\ tr_block r = Block.id b
    /\ Block.owner b = Agent (tr_conversation_id r) (tr_call_id r)
    /\ tr_command r = Block.command_text b /\ tr_output r = Block.output_text b /\ tr_outcome r = o.
Proof.
  unfold tool_result. destruct (blocks l !! i) as [b|]; [|done]. simpl.
  destruct (Block.owner b) as [|c k] eqn:Ho; [done|]. intros [= <-]. eauto 10.
Qed.

Lemma tool_event_results r : tool_results (tool_event r) = match r with Some r => [r] | None => [] end.
Proof. by destruct r. Qed.

(** How an operation moves on: the active block stays and no result is given, or the
    session starts its first prompt, or the active block is left for a new one, with its
    result if an agent owns it. *)
Inductive moves (l l' : t) (ev : list BlockEvent) : Prop :=
| stays : active_id l' = active_id l -> tool_results ev = [] -> moves l l' ev
| starts : (next_id l <= active_id l')%N -> tool_results ev = [] -> moves l l' ev
| leaves a a0 o : (next_id l <= active_id l')%N -> active_block l = Some a ->
    Block.id a0 = Block.id a -> Block.owner a0 = Block.owner a ->
    tool_results ev = match Block.owner a0 with
                      | User => []
                      | Agent c k => [mkToolResult (Block.id a0) c k (Block.command_text a0)
                                        (Block.output_text a0) o]
                      end ->
    moves l l' ev.

Lemma leave_result l f o a :
  active_block l = Some a ->
  tool_results (tool_event (tool_result (on_active f l) (active l) o))
  = match Block.owner (f a) with
    | User => []
    | Agent c k => [mkToolResult (Block.id (f a)) c k (Block.command_text (f a))
                      (Block.output_text (f a)) o]
    end.
Proof.
  intros Ha. rewrite tool_event_results. unfold tool_result.
  change (blocks (on_active f l) !! active l) with (active_block (on_active f l)).
  rewrite active_on_active, Ha. simpl. by destruct (Block.owner (f a)).
Qed.

Lemma precmd_moves v l : inv l -> moves l (on_precmd v l).1 (on_precmd v l).2.
Proof.
  intros Hl. unfold on_precmd. set (l1 := update_cwd (HookTap.pc_pwd v) l).
  assert (active_block l1 = active_block l /\ next_id l1 = next_id l /\ active l1 = active l)
    as (Ha1 & Hn1 & Hi1) by (subst l1; unfold active_block; by destruct (HookTap.pc_pwd v)).
  pose proof (inv_active _ Hl) as (a & Ha & _). rewrite Ha1, Ha. unfold promote_active.
  case_bool_decide as Hx; cbv beta iota zeta.
  - set (lp := push_block (on_active Block.promote_to_background l1)).
    assert (active_id (on_active (Block.set_metadata v) lp) = next_id l) as Hid.
    { rewrite active_id_on_active by done. subst lp. by rewrite active_id_push. }
    assert (forall e, tool_results [e] = [] -> moves l (on_active (Block.set_metadata v) lp)
      (tool_event (tool_result (on_active Block.promote_to_background l1) (active l1) StillRunning) ++ [e])) as H.
    { intros e He. destruct (promote_same a) as (E1 & E2 & _). injection E1 as E1 _ _.
      apply (leaves _ _ _ a (Block.promote_to_background a) StillRunning); [lia|done..|].
      rewrite tool_results_app, He, app_nil_r. apply leave_result. congruence. }
    destruct (active_block (on_active _ lp)) as [a'|] eqn:Ha'; [by apply H|].
    unfold active_id in Hid. rewrite Ha' in Hid. pose proof (active_id_lt _ Hl). lia.
  - assert (active_id (on_active (Block.set_metadata v) l1) = active_id l) as Hid.
    { rewrite active_id_on_active by done. unfold active_id. by rewrite Ha1. }
    destruct (active_block (on_active _ l1)); by apply stays.
Qed.

Lemma finished_moves now code l :
  inv l -> moves l (on_command_finished now code l).1 (on_command_finished now code l).2.
Proof.
  intros Hl. unfold on_command_finished. pose proof (inv_active _ Hl) as (a & Ha & _).
  rewrite active_on_active, Ha. simpl.
  apply (leaves _ _ _ a (Block.finish now code a) (Finished code)); [by rewrite active_id_push|done..|].
  exact (leave_result l (Block.finish now code) (Finished code) a Ha).
Qed.

Lemma preexec_active_id now v l : active_id (on_preexec now v l).1 = active_id l.
Proof.
  unfold on_preexec. change (active_block (set_claim None l)) with (active_block l).
  destruct (active_block l) as [a|] eqn:Ha; [|done]. simpl.
  destruct (pending_claim l) as [c|]; [destruct (_ =? _)%N|]; rewrite ?on_active_compose;
    rewrite active_id_on_active; try done; intros b; unfold Block.preexec; by case_bool_decide.
Qed.

Lemma clear_active_id l : active_id (on_clear l).1 = active_id l.
Proof.
  unfold on_clear. rewrite <- (active_id_drain l), <- (active_id_on_active Block.clear (drain_earlier l)) by done.
  by destruct (active_block (on_active _ _)).
Qed.

Lemma clear_results l : tool_results (on_clear l).2 = [].
Proof. unfold on_clear. by destruct (active_block _). Qed.

Lemma do_op_moves l o : inv l -> moves l (do_op l o).1 (do_op l o).2.
Proof.
  intros Hl. destruct o as [bytes|now e|id ow|sz|c n|id c|id v]; simpl.
  - apply stays; [|done]. unfold feed. case_bool_decide; [done|]. apply active_id_on_active.
    intros b. pose proof (feed_place bytes b) as Hp. by injection Hp as ? _ _.
  - destruct e as [v|v|v|v|v|v|]; simpl.
    + by apply stays.
    + unfold on_bootstrapped. destruct (bootstrapped l); [by apply stays|].
      apply starts; [|done]. simpl fst. by rewrite active_id_push.
    + by apply precmd_moves.
    + apply stays; [apply preexec_active_id|]. unfold on_preexec. by destruct (active_block _).
    + by apply finished_moves.
    + by apply stays.
    + apply stays; [apply clear_active_id|apply clear_results].
  - apply stays; [|done]. unfold claim_next_pre_exec. destruct (active_block l); [|done]. by destruct (_ || _).
  - apply stays; [|done]. unfold active_id, active_block. simpl. rewrite list_lookup_fmap.
    by destruct (blocks l !! active l).
  - apply stays; [|done]. pose proof (inv_active _ Hl) as (a & Ha & _).
    unfold active_id, active_block in *. simpl. by rewrite (lookup_app_l_Some _ _ _ _ Ha), Ha.
  - apply stays; [|done]. by apply active_id_on_block.
  - apply stays; [|done]. by apply active_id_on_block.
Qed.

Lemma do_op_next l o : (next_id l <= next_id (do_op l o).1)%N.
Proof.
  destruct o as [bytes|now e|id ow|sz|c n|id c|id v]; simpl; try lia.
  - unfold feed. by case_bool_decide.
  - destruct e as [v|v|v|v|v|v|]; simpl; try lia.
    + unfold on_bootstrapped. destruct (bootstrapped l); simpl; lia.
    + unfold on_precmd, promote_active.
      assert (next_id (update_cwd (HookTap.pc_pwd v) l) = next_id l) as E by (by destruct (HookTap.pc_pwd v)).
      destruct (active_block _) as [a|]; simpl; [|lia].
      case_bool_decide; destruct (active_block _); simpl; lia.
    + unfold on_preexec. destruct (active_block _); simpl; [|lia].
      destruct (pending_claim l); [destruct (_ =? _)%N|]; simpl; lia.
    + unfold on_command_finished. destruct (active_block _); simpl; lia.
    + unfold on_clear, drain_earlier. destruct (active_block _), (0 <? active l); simpl; lia.
  - unfold claim_next_pre_exec. destruct (active_block l); [|done]. by destruct (_ || _).
  - unfold on_block. by destruct (list_find _ _) as [[]|].
  - unfold on_block. by destruct (list_find _ _) as [[]|].
Qed.

Lemma do_op_pending l o c :
  pending_claim (do_op l o).1 = Some c ->
  pending_claim l = Some c \/ o = Claim (claim_block c) (claim_owner c).
Proof.
  destruct o as [bytes|now e|id ow|sz|cv n|id cv|id v]; simpl; auto.
  - unfold feed. case_bool_decide; auto.
  - destruct e as [v|v|v|v|v|v|]; simpl; auto.
    + unfold on_bootstrapped. destruct (bootstrapped l); auto.
    + unfold on_precmd, promote_active.
      assert (pending_claim (update_cwd (HookTap.pc_pwd v) l) = pending_claim l) as E
        by (by destruct (HookTap.pc_pwd v)).
      destruct (active_block _) as [a|]; simpl; [|rewrite E; auto].
      case_bool_decide; destruct (active_block _); simpl; rewrite E; auto.
    + unfold on_preexec. destruct (active_block _); simpl; [|done].
      destruct (pending_claim l); [destruct (_ =? _)%N|]; done.
    + unfold on_command_finished. destruct (active_block _); auto.
    + unfold on_clear, drain_earlier. destruct (active_block _), (0 <? active l); auto.
  - unfold claim_next_pre_exec. destruct (active_block l); [|auto]. destruct (_ || _); simpl; [auto|].
    intros [= <-]. by right.
  - unfold on_block. destruct (list_find _ _) as [[]|]; auto.
  - unfold on_block. destruct (list_find _ _) as [[]|]; auto.
Qed.

Lemma same_id l b b' :
  inv l -> b ∈ blocks l -> b' ∈ blocks l -> Block.id b' = Block.id b -> b' = b.
Proof.
  intros Hl [i Hi]%list_elem_of_lookup [j Hj]%list_elem_of_lookup Hid.
  pose proof (core_ids _ (inv_core _ Hl)) as Hs.
  assert (i = j) as ->; [|congruence].
  assert ((Block.id <$> blocks l) !! i = Some (Block.id b)) as H1 by (by rewrite list_lookup_fmap, Hi).
  assert ((Block.id <$> blocks l) !! j = Some (Block.id b)) as H2 by (by rewrite list_lookup_fmap, Hj, <- Hid).
  eapply NoDup_lookup; [|exact H1|exact H2]. by apply sorted_nodup.
Qed.

Lemma moves_mono l l' ev : inv l -> moves l l' ev -> (active_id l <= active_id l')%N.
Proof. intros Hl%active_id_lt []; lia. Qed.

(** Isolation.  A block that is not the active one is out of reach for good: whatever is
    printed, run, claimed, cleared or associated afterwards, as long as the list still holds
    it it is the same command with the same owner, exit code, duration and screens, at most
    renumbered, shown in other views, and reshaped with the window. *)
Theorem only_the_active_block_changes l ops b b' :
  inv l -> b ∈ blocks l -> Block.id b <> active_id l ->
  b' ∈ blocks (run l ops).1 -> Block.id b' = Block.id b -> untouched b b'.
Proof.
  intros Hl Hb Hna.
  assert (Block.id b < next_id l)%N as Hlt.
  { pose proof (core_next _ (inv_core _ Hl)) as H. rewrite Forall_forall in H. auto. }
  enough ((next_id l <= next_id (run l ops).1)%N /\ Block.id b <> active_id (run l ops).1 /\
    (forall b', b' ∈ blocks (run l ops).1 -> Block.id b' = Block.id b -> untouched b b')) as H by (apply H).
  clear b'. induction ops as [|o ops IH] using rev_ind.
  { split_and!; [done..|]. intros b' Hb' Hid. by rewrite (same_id _ _ _ Hl Hb Hb') by done. }
  destruct IH as (IHn & IHa & IH). rewrite run_snoc. simpl. set (l1 := (run l ops).1) in *.
  assert (inv l1) as Hl1 by (by apply run_inv). pose proof (do_op_next l1 o) as Hn.
  split_and!; [lia| |].
  - pose proof (do_op_moves l1 o Hl1) as [->| |]; [done|lia..].
  - intros b' Hb' Hid. apply do_op_origin in Hb' as [Hnew _ _ _|b0 Hb0 Hu|a Ha Hida _ _ _].
    + lia.
    + etrans; [apply IH; [exact Hb0|]|exact Hu]. by rewrite <- (un_id _ _ Hu).
    + destruct IHa. unfold active_id. rewrite Ha. congruence.
Qed.

(** ** Tool results *)

Record traced (ops : list op) (l : t) (ev : list BlockEvent) : Prop := {
  tr_inv : inv l;
  tr_sorted : StronglySorted N.lt (tr_block <$> tool_results ev);
  tr_below : Forall (fun r => tr_block r < active_id l)%N (tool_results ev);
  tr_owner b c k : b ∈ blocks l -> Block.owner b = Agent c k -> Claim (Block.id b) (Agent c k) ∈ ops;
  tr_pending c : pending_claim l = Some c -> Claim (claim_block c) (claim_owner c) ∈ ops;
  tr_claimed : Forall (fun r => Claim (tr_block r) (Agent (tr_conversation_id r) (tr_call_id r)) ∈ ops)
                 (tool_results ev);
}.

Lemma traced_step ops l ev o :
  traced ops l ev -> traced (ops ++ [o]) (do_op l o).1 (ev ++ (do_op l o).2).
Proof.
  intros [Hl Hs Hb Ho Hp Hc]. pose proof (do_op_moves l o Hl) as Hm.
  pose proof (active_id_lt _ Hl) as Hlt. pose proof (moves_mono _ _ _ Hl Hm) as Hmono.
  assert (Forall (fun r => tr_block r < active_id (do_op l o).1)%N (tool_results ev)) as Hb'.
  { eapply Forall_impl; [exact Hb|]. simpl. lia. }
  assert (Forall (fun r => Claim (tr_block r) (Agent (tr_conversation_id r) (tr_call_id r)) ∈ ops ++ [o])
            (tool_results ev)) as Hc'.
  { eapply Forall_impl; [exact Hc|]. intros r Hr. apply elem_of_app. by left. }
  split; rewrite ?tool_results_app.
  - by apply do_op_inv.
  - destruct Hm as [_ ->|_ ->|a a0 oc Hn Ha Hi Hw ->]; rewrite ?app_nil_r; [done..|].
    destruct (Block.owner a0); rewrite ?app_nil_r; [done|]. rewrite fmap_app.
    apply StronglySorted_app. split_and!; [|done|by repeat constructor].
    intros x y (r & -> & Hr)%list_elem_of_fmap ->%list_elem_of_singleton. simpl.
    rewrite Forall_forall in Hb. specialize (Hb r Hr). unfold active_id in Hb. rewrite Ha in Hb. lia.
  - destruct Hm as [_ ->|_ ->|a a0 oc Hn Ha Hi Hw ->]; rewrite ?app_nil_r; [done..|].
    apply Forall_app. split; [done|]. destruct (Block.owner a0); repeat constructor. simpl.
    unfold active_id in Hlt. rewrite Ha in Hlt. lia.
  - intros b' c k Hb1 Hw. apply elem_of_app.
    destruct (do_op_origin l o b' Hb1) as [_ Hu _ _|b Hb0 Hu|a Ha Hi _ _ [Ho'|(_ & cl & Hcl & Hid & Ho')]].
    + congruence.
    + left. rewrite (un_id _ _ Hu). apply Ho; [done|]. by rewrite <- (un_owner _ _ Hu).
    + left. rewrite Hi. apply Ho; [by eapply list_elem_of_lookup_2|congruence].
    + left. rewrite Hi, <- Hid, <- Hw, Ho'. by apply Hp.
  - intros c Hc0. apply elem_of_app. apply do_op_pending in Hc0 as [Hc0| ->]; [left; auto|right].
    by apply list_elem_of_singleton.
  - destruct Hm as [_ ->|_ ->|a a0 oc Hn Ha Hi Hw ->]; rewrite ?app_nil_r; [done..|].
    apply Forall_app. split; [done|]. destruct (Block.owner a0) as [|c k] eqn:Ha0; repeat constructor. simpl.
    apply elem_of_app. left. rewrite Hi. apply Ho; [by eapply list_elem_of_lookup_2|congruence].
Qed.

Lemma run_traced sz ops : traced ops (run (new sz) ops).1 (run (new sz) ops).2.
Proof.
  induction ops as [|o ops IH] using rev_ind; [|rewrite run_snoc; by apply traced_step].
  split; [apply new_inv|constructor|constructor|..|constructor].
  - simpl. intros b c k ->%list_elem_of_singleton. done.
  - done.
Qed.

(** A tool result answers one call.  In every history of a session the blocks that give a
    tool result do so in ascending order, hence each at most once, and a result is given
    only to the conversation and call that claimed its very block. *)
Theorem tool_results_answer_once sz ops :
  let results := tool_results (run (new sz) ops).2 in
  StronglySorted N.lt (tr_block <$> results)
  /\ NoDup (tr_block <$> results)
  /\ Forall (fun r => Claim (tr_block r) (Agent (tr_conversation_id r) (tr_call_id r)) ∈ ops) results.
Proof.
  intros results. destruct (run_traced sz ops) as [_ Hs _ _ _ Hc]. split_and!; [done| |done].
  by apply sorted_nodup.
Qed.

(** ** The life of a claimed command *)

(** Operations that do not end a command. *)
Definition quiet (o : op) : bool :=
  match o with
  | Apply _ (HookTap.Precmd _) | Apply _ (HookTap.CommandFinished _) => false
  | _ => true
  end.

(** The command [cmd] of [owner] runs in the block [id]. *)
Record running (l : t) (id : N) (owner : BlockOwner) (cmd : Str) (a : Block.t) : Prop := {
  run_active : active_block l = Some a;
  run_id : Block.id a = id;
  run_owner : Block.owner a = owner;
  run_state : Block.state a = Executing;
  run_text : Block.command_text a = cmd;
  run_claim : pending_claim l = None;
  run_boot : bootstrapped l = true;
}.

Lemma running_on_active l id ow cmd a f :
  running l id ow cmd a ->
  Block.id (f a) = Block.id a -> Block.owner (f a) = Block.owner a ->
  Block.state (f a) = Executing -> Block.command_text (f a) = Block.command_text a ->
  running (on_active f l) id ow cmd (f a).
Proof.
  intros [Ha Hi Ho Hs Ht Hc Hb] Ei Eo Es Et. split; simpl; try congruence.
  by rewrite active_on_active, Ha.
Qed.

Lemma running_ext l l' id ow cmd a :
  active_block l' = active_block l -> pending_claim l' = pending_claim l ->
  bootstrapped l' = bootstrapped l -> running l id ow cmd a -> running l' id ow cmd a.
Proof. intros E1 E2 E3 []. by split; rewrite ?E1, ?E2, ?E3. Qed.

Lemma running_on_block l i f id ow cmd a :
  (forall b, untouched b (f b)) -> running l id ow cmd a ->
  exists a', running (on_block i f l) id ow cmd a'.
Proof.
  intros Hf Hr. unfold on_block. destruct (list_find _ _) as [[j b]|]; [|by exists a].
  destruct Hr as [Ha Hi Ho Hs Ht Hc Hb]. unfold active_block in Ha. destruct (decide (j = active l)) as [->|Hj].
  - destruct (Hf a). exists (f a). split; simpl; try congruence.
    unfold active_block. simpl. by rewrite list_lookup_alter_eq, Ha.
  - exists a. split; try done. unfold active_block. simpl. by rewrite list_lookup_alter_ne.
Qed.

Lemma running_feed l bytes id ow cmd a :
  running l id ow cmd a ->
  exists a', running (feed bytes l) id ow cmd a'.
Proof.
  intros Hr. unfold feed. case_bool_decide; [by exists a|]. exists (Block.feed bytes a).
  assert (Block.owner (Block.feed bytes a) = Block.owner a
    /\ Block.command_text (Block.feed bytes a) = Block.command_text a) as [Ho Ht].
  { unfold Block.feed. by destruct (negb _), (Block.state a) eqn:?. }
  pose proof (feed_place bytes a) as Hp. injection Hp as Hi _ _.
  apply running_on_active; [done..|rewrite feed_state; by apply Hr|done].
Qed.

Lemma running_clear l id ow cmd a :
  running l id ow cmd a -> exists a', running (on_clear l).1 id ow cmd a'.
Proof.
  intros Hr.
  assert (exists a1, running (drain_earlier l) id ow cmd a1) as [a1 H1].
  { destruct (drain_active l) as [E|E]; [exists (Block.set_index 0 a)|exists a];
      destruct Hr as [Ha Hi Ho Hs Ht Hc Hb];
      (split; [rewrite E, Ha; done|try done..]); unfold drain_earlier; by destruct (0 <? active l). }
  exists (Block.clear a1). unfold on_clear.
  pose proof (running_on_active _ _ _ _ _ Block.clear H1 eq_refl eq_refl (run_state _ _ _ _ _ H1) eq_refl) as H2.
  rewrite (run_active _ _ _ _ _ H2). by eapply running_ext; [..|exact H2].
Qed.

Lemma running_quiet l o id ow cmd a :
  quiet o = true -> running l id ow cmd a ->
  (exists a', running (do_op l o).1 id ow cmd a') /\ tool_results (do_op l o).2 = [].
Proof.
  intros Hq Hr. pose proof Hr as [Ha Hi Ho Hs Ht Hc Hb].
  destruct o as [bytes|now e|i w|sz|c n|i c|i v]; simpl.
  - split; [by eapply running_feed|done].
  - destruct e as [v|v|v|v|v|v|]; simpl in *; try done.
    + split; [|done]. exists a. by eapply running_ext; [..|exact Hr].
    + unfold on_bootstrapped. rewrite Hb. eauto.
    + unfold on_preexec. change (active_block (set_claim None l)) with (active_block l).
      rewrite Ha, Hc. simpl. split; [|done]. exists (Block.preexec now (default [] (HookTap.command v)) a).
      assert (Block.preexec now (default [] (HookTap.command v)) a = a) as E
        by (unfold Block.preexec; by rewrite bool_decide_true).
      by apply running_on_active; rewrite ?E.
    + split; [|done]. exists a. by eapply running_ext; [..|exact Hr].
    + split; [exact (running_clear _ _ _ _ _ Hr)|apply clear_results].
  - split; [|done]. unfold claim_next_pre_exec. rewrite Ha, Hs. simpl. rewrite orb_true_r. eauto.
  - split; [|done]. exists (Block.resize sz a). split; simpl; try done.
    unfold active_block in *. simpl. by rewrite list_lookup_fmap, Ha.
  - split; [|done]. exists a. split; try done. unfold active_block in *. simpl. by apply lookup_app_l_Some.
  - split; [|done]. eapply running_on_block; [intros b; apply set_visibility_untouched|exact Hr].
  - split; [|done]. eapply running_on_block; [intros b; apply set_visibility_untouched|exact Hr].
Qed.

Lemma running_run l ops id ow cmd a :
  Forall (fun o => quiet o = true) ops -> running l id ow cmd a ->
  (exists a', running (run l ops).1 id ow cmd a') /\ tool_results (run l ops).2 = [].
Proof.
  intros Hq Hr. induction ops as [|o ops IH] using rev_ind; [eauto|].
  apply Forall_app in Hq as [Hq Ho]. rewrite Forall_singleton in Ho.
  destruct (IH Hq) as [[a1 H1] E1]. rewrite run_snoc. simpl. rewrite tool_results_app, E1.
  by apply (running_quiet _ _ _ _ _ a1).
Qed.

(** What may happen between a claim and the command it is for: anything but another claim
    and the hooks of a command. *)
Definition idle (o : op) : bool :=
  match o with
  | Claim _ _ | Apply _ (HookTap.Preexec _) => false
  | _ => quiet o
  end.

(** The active block [id] waits at its prompt with a claim of [owner] on it. *)
Record awaiting (l : t) (id : N) (owner : BlockOwner) (a : Block.t) : Prop := {
  wait_active : active_block l = Some a;
  wait_id : Block.id a = id;
  wait_state : Block.state a = BeforeExecution;
  wait_claim : pending_claim l = Some (mkClaim id owner);
  wait_boot : bootstrapped l = true;
}.

Lemma awaiting_ext l l' id ow a :
  active_block l' = active_block l -> pending_claim l' = pending_claim l ->
  bootstrapped l' = bootstrapped l -> awaiting l id ow a -> awaiting l' id ow a.
Proof. intros E1 E2 E3 []. by split; rewrite ?E1, ?E2, ?E3. Qed.

Lemma awaiting_on_active l id ow a f :
  awaiting l id ow a -> Block.id (f a) = Block.id a -> Block.state (f a) = Block.state a ->
  awaiting (on_active f l) id ow (f a).
Proof. intros [Ha Hi Hs Hc Hb] Ei Es. split; simpl; try congruence. by rewrite active_on_active, Ha. Qed.

Lemma awaiting_on_block l i f id ow a :
  (forall b, untouched b (f b)) -> awaiting l id ow a -> exists a', awaiting (on_block i f l) id ow a'.
Proof.
  intros Hf Hr. unfold on_block. destruct (list_find _ _) as [[j b]|]; [|by exists a].
  destruct Hr as [Ha Hi Hs Hc Hb]. unfold active_block in Ha. destruct (decide (j = active l)) as [->|Hj].
  - destruct (Hf a). exists (f a). split; simpl; try congruence.
    unfold active_block. simpl. by rewrite list_lookup_alter_eq, Ha.
  - exists a. split; try done. unfold active_block. simpl. by rewrite list_lookup_alter_ne.
Qed.

Lemma awaiting_clear l id ow a : awaiting l id ow a -> exists a', awaiting (on_clear l).1 id ow a'.
Proof.
  intros Hr. assert (exists a1, awaiting (drain_earlier l) id ow a1) as [a1 H1].
  { destruct (drain_active l) as [E|E]; [exists (Block.set_index 0 a)|exists a];
      destruct Hr as [Ha Hi Hs Hc Hb];
      (split; [rewrite E, Ha; done|try done..]); unfold drain_earlier; by destruct (0 <? active l). }
  exists (Block.clear a1). unfold on_clear.
  pose proof (awaiting_on_active _ _ _ _ Block.clear H1 eq_refl eq_refl) as H2.
  rewrite (wait_active _ _ _ _ H2). by eapply awaiting_ext; [..|exact H2].
Qed.

Lemma awaiting_idle l o id ow a :
  idle o = true -> awaiting l id ow a ->
  (exists a', awaiting (do_op l o).1 id ow a') /\ tool_results (do_op l o).2 = [].
Proof.
  intros Hq Hr. pose proof Hr as [Ha Hi Hs Hc Hb].
  destruct o as [bytes|now e|i w|sz|c n|i c|i v]; simpl; try done.
  - split; [|done]. unfold feed. case_bool_decide; [by exists a|]. exists (Block.feed bytes a).
    pose proof (feed_place bytes a) as Hp. injection Hp as E _ _.
    by apply awaiting_on_active; rewrite ?feed_state.
  - destruct e as [v|v|v|v|v|v|]; simpl in *; try done.
    + split; [|done]. exists a. by eapply awaiting_ext; [..|exact Hr].
    + unfold on_bootstrapped. rewrite Hb. eauto.
    + split; [|done]. exists a. by eapply awaiting_ext; [..|exact Hr].
    + split; [exact (awaiting_clear _ _ _ _ Hr)|apply clear_results].
  - split; [|done]. exists (Block.resize sz a). split; simpl; try done.
    unfold active_block in *. simpl. by rewrite list_lookup_fmap, Ha.
  - split; [|done]. exists a. split; try done. unfold active_block in *. simpl. by apply lookup_app_l_Some.
  - split; [|done]. eapply awaiting_on_block; [intros b; apply set_visibility_untouched|exact Hr].
  - split; [|done]. eapply awaiting_on_block; [intros b; apply set_visibility_untouched|exact Hr].
Qed.

Lemma awaiting_run l ops id ow a :
  Forall (fun o => idle o = true) ops -> awaiting l id ow a ->
  (exists a', awaiting (run l ops).1 id ow a') /\ tool_results (run l ops).2 = [].
Proof.
  intros Hq Hr. induction ops as [|o ops IH] using rev_ind; [eauto|].
  apply Forall_app in Hq as [Hq Ho]. rewrite Forall_singleton in Ho.
  destruct (IH Hq) as [[a1 H1] E1]. rewrite run_snoc. simpl. rewrite tool_results_app, E1.
  by apply (awaiting_idle _ _ _ _ a1).
Qed.

Lemma awaiting_started now cmd l id ow a :
  awaiting l id ow a ->
  exists a', running (apply now (HookTap.Preexec (HookTap.mkPreexec cmd)) l).1 id ow (default [] cmd) a'.
Proof.
  intros [Ha Hi Hs Hc Hb]. simpl. unfold on_preexec.
  change (active_block (set_claim None l)) with (active_block l).
  rewrite Ha, Hc. simpl. rewrite Hi, N.eqb_refl, on_active_compose.
  eexists. split; [rewrite active_on_active; unfold active_block in *; simpl; by rewrite Ha|..];
    try done; unfold Block.preexec; simpl; by rewrite bool_decide_false by congruence.
Qed.

(** The hooks that end a command, and what they say of it. *)
Inductive closes : HookTap.HookEvent -> ToolOutcome -> Prop :=
| close_finished v : closes (HookTap.CommandFinished v) (Finished (HookTap.exit_code v))
| close_prompt v : closes (HookTap.Precmd v) StillRunning.

Lemma running_closed now e oc l id conv call cmd a :
  inv l -> closes e oc -> running l id (Agent conv call) cmd a ->
  tool_results (apply now e l).2 = [mkToolResult id conv call cmd (Block.output_text a) oc].
Proof.
  intros Hl Hcl [Ha Hi Ho Hs Ht Hc Hb]. destruct Hcl as [v|v]; simpl.
  - unfold on_command_finished. rewrite active_on_active, Ha. simpl.
    etrans; [exact (leave_result l _ _ a Ha)|]. simpl. by rewrite Ho, Hi, Ht.
  - unfold on_precmd. set (l1 := update_cwd (HookTap.pc_pwd v) l).
    assert (active_block l1 = active_block l) as Ha1 by (subst l1; unfold active_block; by destruct (HookTap.pc_pwd v)).
    rewrite Ha1, Ha. unfold promote_active. rewrite bool_decide_true by done. cbv beta iota zeta.
    assert (forall e, tool_results [e] = [] -> tool_results (tool_event (tool_result
      (on_active Block.promote_to_background l1) (active l1) StillRunning) ++ [e])
      = [mkToolResult id conv call cmd (Block.output_text a) StillRunning]) as H.
    { intros e He. rewrite tool_results_app, He, app_nil_r, (leave_result _ _ _ a) by congruence.
      unfold Block.promote_to_background. rewrite bool_decide_true by done. simpl. by rewrite Ho, Hi, Ht. }
    destruct (active_block (on_active (Block.set_metadata v) _)) as [a'|] eqn:Ha';
      [by apply (H (MetadataUpdated (Block.id a')))|].
    exfalso. revert Ha'. rewrite active_on_active. unfold active_block. simpl.
    rewrite lookup_app_r, Nat.sub_diag by done. done.
Qed.

(** C4: Every claimed command is answered.  When the active block of a bootstrapped session
    waits at its prompt, the claim of an agent's call on it is accepted.  If no second claim
    and no other hook of a command comes before the shell starts one, that command runs in
    that block; and whatever happens until the shell reports an exit code or its next
    prompt, no result comes before that hook, and that hook gives exactly one: for that
    block, conversation and call, with the command line, everything the block's output
    shows, and the exit code or the fact that the command still runs. *)
Theorem claimed_command_is_answered l a conv call before now cmd ops now' close outcome :
  inv l -> bootstrapped l = true -> active_block l = Some a -> Block.state a = BeforeExecution ->
  Forall (fun o => idle o = true) before -> Forall (fun o => quiet o = true) ops ->
  closes close outcome ->
  let claimed := claim_next_pre_exec l (Block.id a) (Agent conv call) in
  let waited := run claimed.1 before in
  let started := (apply now (HookTap.Preexec (HookTap.mkPreexec cmd)) waited.1).1 in
  let ran := run started ops in
  claimed.2 = true /\ tool_results waited.2 = [] /\ tool_results ran.2 = [] /\
  exists b, active_block ran.1 = Some b /\ Block.id b = Block.id a /\
    tool_results (apply now' close ran.1).2
      = [mkToolResult (Block.id a) conv call (default [] cmd) (Block.output_text b) outcome].
Proof.
  intros Hl Hb Ha Hs Hbefore Hq Hclose claimed waited started ran. subst claimed waited started ran.
  assert (claim_next_pre_exec l (Block.id a) (Agent conv call)
    = (set_claim (Some (mkClaim (Block.id a) (Agent conv call))) l, true)) as Hclaim.
  { unfold claim_next_pre_exec. by rewrite Ha, N.eqb_refl, Hs. }
  pose proof (do_op_inv l (Claim (Block.id a) (Agent conv call)) Hl) as Hlc. simpl in Hlc.
  rewrite Hclaim in *. simpl in Hlc. split; [done|]. cbn [fst]. set (l1 := set_claim _ l) in *.
  assert (awaiting l1 (Block.id a) (Agent conv call) a) as H1 by done.
  destruct (awaiting_run _ before _ _ _ Hbefore H1) as [[a1 Hw] E0]. split; [done|].
  destruct (awaiting_started now cmd _ _ _ _ Hw) as [a2 H2].
  destruct (running_run _ ops _ _ _ a2 Hq H2) as [[b Hr] E]. split; [done|]. exists b.
  split_and!; [apply Hr..|]. apply running_closed; [by apply run_inv, apply_inv, run_inv|done..].
Qed.

(** ** Lists that read the same *)

Section readings.
Context {L : Screen.VtLaws V}.
Import ScreenProps.

(** Blocks that differ at most in the clock readings and in what [ScreenProps.eqv] leaves
    open. *)
Record beqv (b b' : Block.t) : Prop := {
  be_place : place b = place b';
  be_visibility : Block.visibility b = Block.visibility b';
  be_owner : Block.owner b = Block.owner b';
  be_state : Block.state b = Block.state b';
  be_text : Block.command_text b = Block.command_text b';
  be_exit : Block.exit_code b = Block.exit_code b';
  be_metadata : Block.metadata b = Block.metadata b' /\ Block.honor_ps1 b = Block.honor_ps1 b';
  be_dropped : Block.dropped_bytes b = Block.dropped_bytes b';
  be_command : ScreenProps.eqv (Block.command b) (Block.command b');
  be_output : ScreenProps.eqv (Block.output b) (Block.output b');
}.

#[export] Instance beqv_equivalence : Equivalence beqv.
Proof.
  split.
  - intros b. by split.
  - intros b b' [? ? ? ? ? ? [] ? ? ?]. split; done || by symmetry.
  - intros b b1 b2 [? ? ? ? ? ? [] ? ? ?] [? ? ? ? ? ? [] ? ? ?]. split; try congruence; [|by etrans..].
    split; congruence.
Qed.

Record leqv (l l' : t) : Prop := {
  le_blocks : Forall2 beqv (blocks l) (blocks l');
  le_active : active l = active l';
  le_size : size l = size l';
  le_next : next_id l = next_id l';
  le_session : session l = session l';
  le_boot : bootstrapped l = bootstrapped l';
  le_input : input_buffer l = input_buffer l' /\ input_cursor l = input_cursor l';
  le_gaps : gaps l = gaps l';
  le_claim : pending_claim l = pending_claim l';
}.

#[export] Instance leqv_equivalence : Equivalence leqv.
Proof.
  split.
  - intros l. by split.
  - intros l l' [? ? ? ? ? ? [] ? ?]. split; done || by symmetry.
  - intros l l1 l2 [? ? ? ? ? ? [] ? ?] [? ? ? ? ? ? [] ? ?]. split; try congruence; [by etrans|].
    split; congruence.
Qed.

Lemma feed_beqv bytes b b' : beqv b b' -> beqv (Block.feed bytes b) (Block.feed bytes b').
Proof.
  intros [Hp Hv Ho Hs Ht He [Hm Hh] Hd Hc Hu]. injection Hp as Hi Hx Hk. unfold Block.feed.
  rewrite <- Hk, <- Hs.
  destruct (negb (is_shell (Block.kind b))); [|destruct (Block.state b) eqn:Hst]; split; simpl;
    unfold place; simpl; try congruence; try done; try (by apply feed_proper); try (by split); by f_equal.
Qed.

Lemma feed_feed_beqv x y b : beqv (Block.feed y (Block.feed x b)) (Block.feed (x ++ y) b).
Proof.
  unfold Block.feed. destruct (negb (is_shell (Block.kind b))) eqn:Hk.
  { simpl. rewrite Hk. split; simpl; try done. rewrite length_app. lia. }
  destruct (Block.state b) eqn:Hs; simpl; rewrite Hk, Hs; split; simpl; rewrite ?Hs; try done;
    try (by apply feed_app_eqv); rewrite length_app; lia.
Qed.

Lemma output_text_beqv b b' : beqv b b' -> Block.output_text b = Block.output_text b'.
Proof.
  intros Hb. unfold Block.output_text, Block.output_lines, Screen.content_lines.
  by rewrite (eqv_grid _ _ (be_output _ _ Hb)).
Qed.

Lemma has_output_beqv b b' : beqv b b' -> Block.has_output b = Block.has_output b'.
Proof.
  intros Hb. unfold Block.has_output, Screen.text, Screen.lines.
  by rewrite (eqv_grid _ _ (be_output _ _ Hb)).
Qed.

(** The updates of one block, clocks aside. *)
Ltac beqv_update :=
  intros [Hp Hv Ho Hs Ht He [Hm Hh] Hd Hc Hu]; injection Hp as Hi Hx Hk; split; simpl;
  unfold place; simpl; rewrite ?Hs, ?Ht, ?Hh; try congruence; try done; try (by split); try (by f_equal).

Lemma set_owner_beqv o b b' : beqv b b' -> beqv (Block.set_owner o b) (Block.set_owner o b').
Proof. beqv_update. Qed.
Lemma set_index_beqv i b b' : beqv b b' -> beqv (Block.set_index i b) (Block.set_index i b').
Proof. beqv_update. Qed.
Lemma set_visibility_beqv v b b' :
  beqv b b' -> beqv (Block.set_visibility v b) (Block.set_visibility v b').
Proof. beqv_update. Qed.
Lemma set_metadata_beqv v b b' : beqv b b' -> beqv (Block.set_metadata v b) (Block.set_metadata v b').
Proof. beqv_update. Qed.
Lemma clear_beqv b b' : beqv b b' -> beqv (Block.clear b) (Block.clear b').
Proof. beqv_update. by apply reset_proper. Qed.
Lemma resize_beqv sz b b' : beqv b b' -> beqv (Block.resize sz b) (Block.resize sz b').
Proof. beqv_update; by apply resize_proper. Qed.

Lemma preexec_beqv now now' cmd b b' :
  beqv b b' -> beqv (Block.preexec now cmd b) (Block.preexec now' cmd b').
Proof.
  intros Hb. unfold Block.preexec. rewrite <- (be_state _ _ Hb). case_bool_decide; [done|].
  revert Hb. beqv_update.
Qed.

Lemma promote_beqv b b' :
  beqv b b' -> beqv (Block.promote_to_background b) (Block.promote_to_background b').
Proof.
  intros Hb. unfold Block.promote_to_background. rewrite <- (be_state _ _ Hb).
  case_bool_decide; [|done]. revert Hb. beqv_update.
Qed.

Lemma finish_beqv now now' code b b' :
  beqv b b' -> beqv (Block.finish now code b) (Block.finish now' code b').
Proof.
  intros Hb. pose proof (has_output_beqv _ _ Hb) as Hout. unfold Block.finish.
  rewrite Hout, (be_text _ _ Hb). revert Hb. beqv_update; by apply freeze_proper.
Qed.

(** The updates of a list. *)
Lemma active_leqv l l' :
  leqv l l' -> option_Forall2 beqv (active_block l) (active_block l').
Proof. intros Hl. unfold active_block. rewrite <- (le_active _ _ Hl). apply Forall2_lookup, Hl. Qed.

Lemma alter_beqv f f' i bs bs' :
  (forall b b', beqv b b' -> beqv (f b) (f' b')) -> Forall2 beqv bs bs' ->
  Forall2 beqv (alter f i bs) (alter f' i bs').
Proof.
  intros Hf Hbs. apply Forall2_lookup. intros j. rewrite Forall2_lookup in Hbs. specialize (Hbs j).
  destruct (decide (i = j)) as [<-|Hij]; [|by rewrite !list_lookup_alter_ne].
  rewrite !list_lookup_alter_eq. destruct Hbs; simpl; constructor; auto.
Qed.

Lemma on_active_leqv f f' l l' :
  (forall b b', beqv b b' -> beqv (f b) (f' b')) -> leqv l l' -> leqv (on_active f l) (on_active f' l').
Proof.
  intros Hf [Hb Ha ? ? ? ? [] ? ?]. split; simpl; try done. rewrite <- Ha. by apply alter_beqv.
Qed.

Lemma feed_leqv bytes l l' : leqv l l' -> leqv (feed bytes l) (feed bytes l').
Proof.
  intros Hl. unfold feed. case_bool_decide; [done|]. apply on_active_leqv; [|done]. apply feed_beqv.
Qed.

Lemma feed_feed_leqv x y l : leqv (feed y (feed x l)) (feed (x ++ y) l).
Proof.
  unfold feed at 2 3. case_bool_decide as Hx; [subst; simpl; unfold feed; done|].
  unfold feed. case_bool_decide as Hy; [subst; by rewrite app_nil_r, bool_decide_false|].
  rewrite bool_decide_false by (destruct x; done). rewrite on_active_compose.
  split; try done. simpl. apply Forall2_lookup. intros j.
  destruct (decide (active l = j)) as [<-|Hij]; [|by rewrite !list_lookup_alter_ne].
  rewrite !list_lookup_alter_eq. destruct (blocks l !! active l); simpl; constructor.
  apply feed_feed_beqv.
Qed.

Lemma push_leqv l l' : leqv l l' -> leqv (push_block l) (push_block l').
Proof.
  intros [Hb Ha Hz Hn ? ? [] ? ?]. pose proof (Forall2_length _ _ _ Hb) as Hlen.
  split; simpl; try congruence; [|by split]. rewrite Hlen, Hn, Hz.
  apply Forall2_app; [done|]. by repeat constructor.
Qed.

Lemma tool_result_leqv l l' i o : leqv l l' -> tool_result l i o = tool_result l' i o.
Proof.
  intros Hl. unfold tool_result. pose proof (le_blocks _ _ Hl) as Hb. rewrite Forall2_lookup in Hb.
  destruct (Hb i) as [b b' Hbb|]; [|done]. simpl.
  pose proof (be_place _ _ Hbb) as Hp. injection Hp as -> _ _.
  by rewrite (be_owner _ _ Hbb), (be_text _ _ Hbb), (output_text_beqv _ _ Hbb).
Qed.

(** Two operations that give the same events and lists that read the same. *)
Definition reqv (r r' : t * list BlockEvent) : Prop := leqv r.1 r'.1 /\ r.2 = r'.2.

Lemma update_cwd_leqv d l l' : leqv l l' -> leqv (update_cwd d l) (update_cwd d l').
Proof. intros [? ? ? ? Hs ? [] ? ?]. destruct d; split; simpl; try done; by rewrite Hs. Qed.

Lemma promote_reqv a a' l l' :
  beqv a a' -> leqv l l' -> reqv (promote_active a l) (promote_active a' l').
Proof.
  intros Ha Hl. unfold promote_active. rewrite <- (be_state _ _ Ha). case_bool_decide; [|done].
  assert (leqv (on_active Block.promote_to_background l) (on_active Block.promote_to_background l')) as Hp.
  { apply on_active_leqv; [|done]. apply promote_beqv. }
  split; simpl; [by apply push_leqv|].
  by rewrite (tool_result_leqv _ _ (active l) StillRunning Hp), (le_active _ _ Hl).
Qed.

Lemma beqv_id b b' : beqv b b' -> Block.id b = Block.id b'.
Proof. intros Hb. pose proof (be_place _ _ Hb) as Hp. by injection Hp. Qed.

Lemma precmd_reqv v l l' : leqv l l' -> reqv (on_precmd v l) (on_precmd v l').
Proof.
  intros Hl. unfold on_precmd. apply (update_cwd_leqv (HookTap.pc_pwd v)) in Hl. revert Hl.
  generalize (update_cwd (HookTap.pc_pwd v) l) (update_cwd (HookTap.pc_pwd v) l'). clear l l'.
  intros l l' Hl. destruct (active_leqv _ _ Hl) as [a a' Ha|]; [|done].
  destruct (promote_reqv _ _ _ _ Ha Hl) as [H1 H2].
  destruct (promote_active a l) as [l1 e1], (promote_active a' l') as [l1' e1']. simpl in *. subst e1'.
  assert (leqv (on_active (Block.set_metadata v) l1) (on_active (Block.set_metadata v) l1')) as Hm.
  { apply on_active_leqv; [|done]. apply set_metadata_beqv. }
  destruct (active_leqv _ _ Hm) as [b b' Hb|]; [|done]. by rewrite (beqv_id _ _ Hb).
Qed.

Lemma preexec_reqv now now' v l l' : leqv l l' -> reqv (on_preexec now v l) (on_preexec now' v l').
Proof.
  intros Hl. unfold on_preexec. rewrite <- (le_claim _ _ Hl).
  assert (leqv (set_claim None l) (set_claim None l')) as Hc by (by destruct Hl).
  destruct (active_leqv _ _ Hc) as [a a' Ha|]; [|done]. rewrite <- (beqv_id _ _ Ha).
  split; [|done]. simpl. apply on_active_leqv; [intros b b'; apply preexec_beqv|].
  destruct (pending_claim l) as [c|]; [|done]. destruct (_ =? _)%N; [|done].
  apply on_active_leqv; [|done]. apply set_owner_beqv.
Qed.

Lemma finished_reqv now now' code l l' :
  leqv l l' -> reqv (on_command_finished now code l) (on_command_finished now' code l').
Proof.
  intros Hl. unfold on_command_finished.
  assert (leqv (on_active (Block.finish now code) l) (on_active (Block.finish now' code) l')) as Hf.
  { apply on_active_leqv; [|done]. apply finish_beqv. }
  rewrite <- (le_active _ _ Hl), <- (tool_result_leqv _ _ (active l) (Finished code) Hf).
  destruct (active_leqv _ _ Hf) as [a a' Ha|]; [|done].
  split; simpl; [by apply push_leqv|].
  unfold Block.has_failed. by rewrite <- (be_exit _ _ Ha), (beqv_id _ _ Ha).
Qed.

Lemma drain_leqv l l' : leqv l l' -> leqv (drain_earlier l) (drain_earlier l').
Proof.
  intros Hl. unfold drain_earlier. rewrite <- (le_active _ _ Hl). case_match; [|done].
  destruct Hl as [Hb Ha Hz Hn ? ? [] ? ?]. split; simpl; try done.
  apply Forall2_lookup. intros i. rewrite !list_lookup_imap, !lookup_drop.
  rewrite Forall2_lookup in Hb. destruct (Hb (active l + i)); simpl; constructor.
  by apply set_index_beqv.
Qed.

Lemma clear_reqv l l' : leqv l l' -> reqv (on_clear l) (on_clear l').
Proof.
  intros Hl. unfold on_clear. rewrite <- (le_active _ _ Hl).
  assert (leqv (on_active Block.clear (drain_earlier l)) (on_active Block.clear (drain_earlier l'))) as Hc.
  { apply on_active_leqv; [|by apply drain_leqv]. apply clear_beqv. }
  destruct (active_leqv _ _ Hc) as [a a' Ha|]; [|done]. split; [|done].
  rewrite <- (beqv_id _ _ Ha). destruct Hc as [? ? ? ? ? ? [] Hg ?]. split; simpl; try done.
  simpl in Hg. by rewrite Hg.
Qed.

(** A hook reads the blocks, not the clock. *)
Lemma apply_reqv now now' e l l' : leqv l l' -> reqv (apply now e l) (apply now' e l').
Proof.
  intros Hl. destruct e as [v|v|v|v|v|v|]; simpl.
  - destruct Hl as [? ? ? ? Hs ? [] ? ?]. split; [|done].
    split; simpl; try done. by rewrite Hs.
  - unfold on_bootstrapped. rewrite <- (le_boot _ _ Hl). destruct (bootstrapped l); [done|].
    split; [|done]. apply push_leqv. destruct Hl as [? ? ? ? ? ? [] ? ?]. by split.
  - by apply precmd_reqv.
  - by apply preexec_reqv.
  - by apply finished_reqv.
  - destruct Hl as [? ? ? ? ? ? [] ? ?]. by split.
  - by apply clear_reqv.
Qed.

Lemma on_block_leqv id f l l' :
  (forall b b', beqv b b' -> beqv (f b) (f b')) -> leqv l l' -> leqv (on_block id f l) (on_block id f l').
Proof.
  intros Hf Hl. unfold on_block. pose proof (le_blocks _ _ Hl) as Hb.
  assert (fst <$> list_find (fun b => Block.id b = id) (blocks l)
    = fst <$> list_find (fun b => Block.id b = id) (blocks l')) as Hfind.
  { induction Hb as [|b b' bs bs' Hbb Hbs IH]; [done|]. simpl. rewrite <- (beqv_id _ _ Hbb).
    destruct (decide (Block.id b = id)); [done|]. revert IH.
    destruct (list_find _ bs) as [[i x]|], (list_find _ bs') as [[i' x']|]; simpl; congruence. }
  revert Hfind. destruct (list_find _ (blocks l)) as [[i x]|], (list_find _ (blocks l')) as [[i' x']|];
    simpl; intros [=]; [subst i'|done].
  destruct Hl as [? ? ? ? ? ? [] ? ?]. split; simpl; try done. by apply alter_beqv.
Qed.

Lemma get_leqv l l' id : leqv l l' -> option_Forall2 beqv (get l id) (get l' id).
Proof.
  intros Hl. unfold get. induction (le_blocks _ _ Hl) as [|b b' bs bs' Hbb Hbs IH]; [constructor|].
  simpl. rewrite <- (beqv_id _ _ Hbb). destruct (decide (Block.id b = id)); [by constructor|].
  revert IH. destruct (list_find _ bs) as [[i x]|], (list_find _ bs') as [[i' x']|]; simpl; auto.
Qed.

End readings.

End props.
End BlockProps.

(** ** Sessions on the small emulator *)

Module BlocksWitness.
Import Blocks BlockList BlockProps.
#[local] Existing Instance ImageWitness.demo_codecs.
#[local] Existing Instance VtDemo.demo_vt.

Definition now : Clock := mkClock 5 1000.
Definition no_precmd : HookTap.PrecmdValue := HookTap.mkPrecmd None None None None None None None None.
Definition finished_with (code : Z) : HookTap.HookEvent :=
  HookTap.CommandFinished (HookTap.mkFinished code None).
Definition preexec_of (cmd : string) : HookTap.HookEvent :=
  HookTap.Preexec (HookTap.mkPreexec (Some (lit cmd))).

(** A login banner, the handshake, and the first prompt. *)
Definition at_prompt : t :=
  (run (new (Screen.mkSize 20 4))
     [Feed (lit "hello"); Apply now (HookTap.Bootstrapped (HookTap.mkBootstrapped None));
      Apply now (HookTap.Precmd no_precmd); Feed (lit "$ ")]).1.

Definition prompt_block : Block.t := default (Block.new 0 0 (Screen.mkSize 0 0) Static) (active_block at_prompt).
Definition banner_block : Block.t := default prompt_block (blocks at_prompt !! 0).

Lemma claimed_command_is_answered_witness :
  exists b, Block.output_text b = lit "hi" /\
    tool_results (apply now (finished_with 3)
      (run (apply now (preexec_of "echo hi")
              (run (claim_next_pre_exec at_prompt (Block.id prompt_block) (Agent (lit "c") (lit "k"))).1
                 [Feed (lit "echo hi")]).1).1
           [Feed (lit "hi")]).1).2
    = [mkToolResult 2 (lit "c") (lit "k") (lit "echo hi") (lit "hi") (Finished 3)].
Proof.
  destruct (claimed_command_is_answered at_prompt prompt_block (lit "c") (lit "k") [Feed (lit "echo hi")] now
    (Some (lit "echo hi")) [Feed (lit "hi")] now (finished_with 3) (Finished 3)) as (_ & _ & _ & b & Hb & _ & H).
  - apply run_inv, new_inv.
  - reflexivity.
  - reflexivity.
  - reflexivity.
  - repeat constructor.
  - repeat constructor.
  - apply close_finished.
  - exists b. assert (Block.output_text b = lit "hi") as E; [|split; [exact E|]].
    + revert Hb. vm_compute. by intros [= <-].
    + etrans; [exact H|]. by rewrite E.
Defined.

Lemma only_the_active_block_changes_witness :
  let later := (run at_prompt [Apply now (preexec_of "ls"); Feed (lit "x"); Apply now (finished_with 0)]).1 in
  untouched banner_block (default prompt_block (blocks later !! 0)) /\ length (blocks later) = 3.
Proof.
  split; [|vm_compute; reflexivity].
  apply (only_the_active_block_changes at_prompt [Apply now (preexec_of "ls"); Feed (lit "x"); Apply now (finished_with 0)]).
  - apply run_inv, new_inv.
  - apply (list_elem_of_lookup_2 _ 0). vm_compute. reflexivity.
  - vm_compute. discriminate.
  - apply (list_elem_of_lookup_2 _ 0). vm_compute. reflexivity.
  - vm_compute. reflexivity.
Defined.

(** An agent's command that runs when the shell's handshake comes is never answered: the
    handshake opens a new prompt block and the exit code finishes that one.  It takes a
    prompt and a command before the handshake. *)
Lemma handshake_loses_the_result :
  let early := (run (new (Screen.mkSize 20 4))
    [Apply now (preexec_of "setup"); Apply now (HookTap.Precmd no_precmd)]).1 in
  let claimed := claim_next_pre_exec early 2 (Agent (lit "c") (lit "k")) in
  let later := run claimed.1 [Apply now (preexec_of "make");
    Apply now (HookTap.Bootstrapped (HookTap.mkBootstrapped None));
    Apply now (finished_with 0)] in
  claimed.2 = true /\ tool_results later.2 = [] /\
  (Block.state <$> get later.1 2) = Some Executing /\
  (Block.owner <$> get later.1 2) = Some (Agent (lit "c") (lit "k")) /\
  (Block.exit_code <$> get later.1 3) = Some (Some 0%Z).
Proof. vm_compute. repeat split. Qed.

End BlocksWitness.
