(* ===== verification/TermEmulator.v ===== *)
(** * The emulator of a pane

    [app/src/emulator.rs]: the VT state behind a terminal pane.  A byte read from the pty
    goes through the hook tap ([TermHooks.v]), the OSC tap ([TermOsc.v]), the block list
    ([TermBlocks.v]) and the screen ([TermScreen.v]).  [display_path] and
    [home_directory] are those of [app/src/state/paths.rs]; the process environment and
    the clocks are arguments. *)

From S2P Require Import Prelude Bytes TermOsc TermHooks TermCells TermImage TermScreen TermBlocks.

Open Scope goble_scope.

Module Emulator.
Import Blocks.

Definition SCROLLBACK : N := 10000.

Section emulator.
Context {V : Screen.Vt} {C : Image.ImageCodecs} {H : HookTap.HookCodec}.

Record t : Type := mk {
  screen : Screen.t;
  hooks : HookTap.t;
  osc : OscTap.t;
  hook_events : list HookTap.HookEvent;
  osc_events : list OscTap.OscEvent;
  blocks : BlockList.t;
  block_events : list BlockEvent;
  replies : Bytes;
  columns : nat;
  screen_lines : nat;
}.

Definition new (columns screen_lines : nat) : t :=
  let size := Screen.mkSize columns screen_lines in
  mk (Screen.new size (Screen.config_scrolling SCROLLBACK)) HookTap.new OscTap.new [] []
    (BlockList.new size) [] [] columns screen_lines.

Definition set_screen (s : Screen.t) (e : t) : t :=
  mk s (hooks e) (osc e) (hook_events e) (osc_events e) (blocks e) (block_events e) (replies e)
    (columns e) (screen_lines e).
Definition set_hooks (h : HookTap.t) (e : t) : t :=
  mk (screen e) h (osc e) (hook_events e) (osc_events e) (blocks e) (block_events e) (replies e)
    (columns e) (screen_lines e).
Definition set_blocks (l : BlockList.t) (e : t) : t :=
  mk (screen e) (hooks e) (osc e) (hook_events e) (osc_events e) l (block_events e) (replies e)
    (columns e) (screen_lines e).
Definition set_replies (r : Bytes) (e : t) : t :=
  mk (screen e) (hooks e) (osc e) (hook_events e) (osc_events e) (blocks e) (block_events e) r
    (columns e) (screen_lines e).

(** [Emulator::associate_owner]. *)
Definition associate_owner (l : BlockList.t) (id : BlockId) : BlockList.t :=
  match Block.owner <$> BlockList.get l id with
  | Some (Agent conversation _) => (BlockList.associate_with_conversation id conversation l).1
  | _ => l
  end.

Definition on_block_event (l : BlockList.t) (event : BlockEvent) : BlockList.t :=
  match event with BlockStarted id => associate_owner l id | _ => l end.

(** A slice of the staged bytes: observed by the OSC tap, then fed to the blocks. *)
Definition feed_slice (s : t * Bytes) (slice : Bytes) : t * Bytes :=
  let '(e, passthrough) := s in
  let '(tap, passthrough', events) := OscTap.tap (osc e) slice passthrough in
  (mk (screen e) (hooks e) tap (hook_events e) (osc_events e ++ events)
     (BlockList.feed (drop (length passthrough) passthrough') (blocks e)) (block_events e)
     (replies e) (columns e) (screen_lines e), passthrough').

(** A hook, applied where it came. *)
Definition apply_hook (now : Clock) (hook : HookTap.HookEvent) (e : t) : t :=
  let '(l, events) := BlockList.apply now hook (blocks e) in
  mk (screen e) (hooks e) (osc e) (hook_events e ++ [hook]) (osc_events e)
    (foldl on_block_event l events) (block_events e ++ events) (replies e) (columns e)
    (screen_lines e).

(** One turn of the loop of [feed]: the bytes before the hook, then the hook. *)
Definition on_hook (staged : Bytes) (s : t * Bytes * nat) (h : nat * HookTap.HookEvent * Clock)
    : t * Bytes * nat :=
  let '(e, passthrough, cursor) := s in
  let '(offset, hook, now) := h in
  let offset := min offset (length staged) in
  let '(e, passthrough, cursor) :=
    if cursor <? offset
    then (feed_slice (e, passthrough) (take (offset - cursor) (drop cursor staged)), offset)
    else (e, passthrough, cursor) in
  (apply_hook now hook e, passthrough, cursor).

(** [Emulator::feed]; [clock k] is what the clocks read at the [k]-th hook of the call. *)
Definition feed (clock : nat -> Clock) (bytes : Bytes) (e : t) : t :=
  let '(tap, staged, found) := HookTap.tap_ordered (hooks e) bytes [] in
  let timed := imap (fun k h => (h, clock k)) found in
  let '(e, passthrough, cursor) := foldl (on_hook staged) (set_hooks tap e, [], 0) timed in
  let '(e, passthrough) :=
    if cursor <? length staged then feed_slice (e, passthrough) (drop cursor staged)
    else (e, passthrough) in
  set_screen (Screen.feed (screen e) passthrough) e.

Definition resize (cols lines : nat) (e : t) : t :=
  if bool_decide ((cols, lines) = (columns e, screen_lines e)) then e
  else
    let size := Screen.mkSize cols lines in
    mk (Screen.resize (screen e) size) (hooks e) (osc e) (hook_events e) (osc_events e)
      (BlockList.resize size (blocks e)) (block_events e) (replies e) cols lines.

Definition bootstrapped (e : t) : bool := BlockList.bootstrapped (blocks e).

Definition has_running_command (e : t) : bool :=
  existsb (fun b => bool_decide (Block.state b = Executing)) (BlockList.blocks (blocks e)).

Definition running_command (e : t) : option Str :=
  b ← snd <$> list_find (fun b => Block.state b = Executing) (BlockList.blocks (blocks e));
  if bool_decide (Block.command_text b = []) then None else Some (Block.command_text b).

(** [Emulator::line_len]: the end of the last cell that is not blank. *)
Definition cell_end (l : Cells.ScreenLine) : nat :=
  foldl (fun e (ic : nat * Cells.ScreenCell) =>
           let '(column, cell) := ic in
           if Cells.is_blank cell then e
           else column + (if Cells.wide (Cells.attrs cell) then 2 else 1))
    0 (imap pair l).
Definition line_len (index : nat) (e : t) : nat :=
  match Screen.line_at (screen e) index with Some l => cell_end l | None => 0 end.

Definition copy_start_cell (e : t) : nat * nat :=
  (min (Screen.cursor_line (screen e)) (Screen.total_lines (screen e) - 1),
   Screen.cursor_column (screen e)).

Definition absolute_line (row : nat) (e : t) : option nat :=
  let top := Screen.history_size (screen e) - Screen.display_offset (screen e) in
  let line := top + row in
  if line <? Screen.total_lines (screen e) then Some line else None.

Definition scroll (lines : Z) (e : t) : t := set_screen (Screen.scroll_display (screen e) lines) e.

Definition take_hook_events (e : t) : t * list HookTap.HookEvent :=
  (mk (screen e) (hooks e) (osc e) [] (osc_events e) (blocks e) (block_events e) (replies e)
     (columns e) (screen_lines e), hook_events e).
Definition take_block_events (e : t) : t * list BlockEvent :=
  (mk (screen e) (hooks e) (osc e) (hook_events e) (osc_events e) (blocks e) [] (replies e)
     (columns e) (screen_lines e), block_events e).
Definition take_osc_events (e : t) : t * list OscTap.OscEvent :=
  (mk (screen e) (hooks e) (osc e) (hook_events e) [] (blocks e) (block_events e) (replies e)
     (columns e) (screen_lines e), osc_events e).
Definition take_replies (e : t) : t * Bytes := (set_replies [] e, replies e).

(** ** What a view draws *)

Record AgentViewCard : Type := mkCard { card_conversation_id : Str; card_label : Str }.

Record VisibleBlock : Type := mkVisible {
  vb_id : BlockId;
  vb_owner : BlockOwner;
  vb_command : Str;
  vb_output : Str;
  vb_state : BlockState;
  vb_exit_code : option Z;
  vb_pwd : option Str;
  vb_git_branch : option Str;
  vb_duration : option N;
  vb_started_at : option N;
  vb_prompt : option Str;
  vb_card : option AgentViewCard;
}.

(** [std::env::var]. *)
Abbreviation Env := (string -> option Str) (only parsing).

Definition SLASH : char := 47%N.
Definition TILDE : char := 126%N.

(** [str::trim_end_matches('/')]. *)
Fixpoint drop_slashes (l : Str) : Str :=
  match l with
  | c :: l' => if (c =? SLASH)%N then drop_slashes l' else l
  | [] => []
  end.
Definition trim_slashes (s : Str) : Str := reverse (drop_slashes (reverse s)).

Definition home_in (env : Env) (key : string) : option Str :=
  value ← env key;
  let value := trim_slashes value in
  if bool_decide (value = []) then None else Some value.
Definition home_directory (env : Env) : option Str :=
  match home_in env "HOME" with Some h => Some h | None => home_in env "USERPROFILE" end.

Definition display_path (env : Env) (path : Str) : Str :=
  match home_directory env with
  | None => path
  | Some home =>
      match strip_prefix home path with
      | Some [] => [TILDE]
      | Some (c :: rest) => if (c =? SLASH)%N then TILDE :: c :: rest else path
      | None => path
      end
  end.

(** [host.split('.').next()]. *)
Fixpoint short_host (host : Str) : Str :=
  match host with
  | [] => []
  | c :: host' => if (c =? 46)%N then [] else c :: short_host host'
  end.

Definition synthesized_prompt (env : Env) (host shell : option Str) (b : Block.t) : option Str :=
  pwd ← pwd (Block.metadata b);
  let cwd := display_path env pwd in
  user ← match env "USER" with Some u => Some u | None => env "LOGNAME" end;
  let sigil := match shell with
               | Some s => if starts_with s (lit "bash")
                           then if bool_decide (user = lit "root") then lit "#" else lit "$"
                           else lit "%"
               | None => lit "%"
               end in
  Some match host with
       | Some host => user ++ lit "@" ++ host ++ lit " " ++ cwd ++ lit " " ++ sigil
       | None => cwd ++ lit " " ++ sigil
       end.

Definition view_block (env : Env) (now : Clock) (host shell : option Str) (b : Block.t) : VisibleBlock :=
  mkVisible (Block.id b) (Block.owner b) (Block.command_text b) (Block.output_text b)
    (Block.state b) (Block.exit_code b) (pwd (Block.metadata b)) (git_branch (Block.metadata b))
    (match Block.duration b with Some d => Some d | None => Block.elapsed now b end)
    (Block.started_wall b)
    (match Block.prompt_text b with
     | Some p => Some p
     | None => synthesized_prompt env host shell b
     end)
    (c ← Block.conversation_id b; Some (mkCard c (default [] (Block.label b)))).

Definition visible_blocks (env : Env) (now : Clock) (view : BlockView) (e : t) : list VisibleBlock :=
  let session := BlockList.session (blocks e) in
  let host := h ← short_host <$> BlockList.host session;
              if bool_decide (h = []) then None else Some h in
  view_block env now host (BlockList.shell session) <$> BlockList.visible_blocks view (blocks e).

Definition block_output_lines_of (id : BlockId) (e : t) : option (list Cells.ScreenLine) :=
  Block.output_lines <$> BlockList.get (blocks e) id.

Record FinishedBlock : Type := mkFinishedBlock {
  fb_owner : BlockOwner;
  fb_duration : option N;
  ran_a_command : bool;
}.

Definition finished_block (id : BlockId) (e : t) : option FinishedBlock :=
  b ← BlockList.get (blocks e) id;
  Some (mkFinishedBlock (Block.owner b) (Block.duration b)
          (negb (bool_decide (trim (Block.command_text b) = [])))).

(** ** Conversations *)

Definition push_agent_view_block (conversation_id label : Str) (e : t) : t * BlockId :=
  match list_find (fun b => Block.conversation_id b = Some conversation_id)
          (BlockList.blocks (blocks e)) with
  | Some (_, existing) => (e, Block.id existing)
  | None => let '(l, id) := BlockList.push_agent_view_block conversation_id label (blocks e) in
            (set_blocks l e, id)
  end.

Definition claim_active_block (owner : BlockOwner) (e : t) : t * bool :=
  match BlockList.active_block (blocks e) with
  | Some a => let '(l, ok) := BlockList.claim_next_pre_exec (blocks e) (Block.id a) owner in
              (set_blocks l e, ok)
  | None => (e, false)
  end.

Definition run_block_for_conversation (conversation_id : Str) (e : t) : t * bool :=
  match BlockList.active_block (blocks e) with
  | Some a =>
      if negb (bool_decide (Block.state a = BeforeExecution)) then (e, false)
      else let '(l, ok) := BlockList.set_visibility (Block.id a) (visibility_agent conversation_id)
                             (blocks e) in
           (set_blocks l e, ok)
  | None => (e, false)
  end.

(** ** Answers *)

(** [u8::try_from(index).unwrap_or(u8::MAX)]. *)
Definition to_u8 (index : N) : N := if (index <? 256)%N then index else 255%N.
Definition as_u16 (n : nat) : N := (N.of_nat n mod 65536)%N.

Definition answer (e : t) (palette : Palette.t) (cell : N * N) (q : Screen.ScreenQuery) : option Str :=
  match Screen.color_index q with
  | Some index =>
      let index := to_u8 index in
      Screen.color_reply q index (Palette.indexed palette index)
  | None =>
      match Screen.text_area_reply q (as_u16 (columns e)) (as_u16 (screen_lines e)) cell.1 cell.2 with
      | Some reply => Some reply
      | None => Screen.clipboard_reply q []
      end
  end.

(** What one event does to the replies and to the events handed on. *)
Definition on_screen_event (s : Bytes * list Screen.ScreenEvent) (event : Screen.ScreenEvent)
    : Bytes * list Screen.ScreenEvent :=
  match event with
  | Screen.PtyWrite bytes => (s.1 ++ as_bytes bytes, s.2)
  | Screen.QueryPending => s
  | other => (s.1, s.2 ++ [other])
  end.

Definition pump (palette : Palette.t) (cell : N * N) (e : t) : t * list Screen.ScreenEvent :=
  let '(s, drained) := Screen.drain_events (screen e) in
  let '(replies, events) := foldl on_screen_event (replies e, []) drained in
  let '(s, queries) := Screen.drain_queries s in
  let e := set_replies replies (set_screen s e) in
  (set_replies (foldl (fun r q => match answer e palette cell q with
                                  | Some reply => r ++ as_bytes reply
                                  | None => r
                                  end) replies queries) e, events).

End emulator.
Arguments t {_}.
End Emulator.
