(* ===== verification/TermEmulatorProps.v ===== *)
(** * What the emulator promises

    The emulator against a byte-at-a-time reference, the views of a conversation, the
    cards, and the answers to a program's questions. *)

From S2P Require Import Prelude Bytes TermOsc TermHooks TermCells TermImage TermImageProps TermScreen TermBlocks TermBlocksProps TermEmulator.

Open Scope goble_scope.

Module EmulatorProps.
Import Blocks Emulator.
#[local] Existing Instance ScreenProps.eqv_equivalence.
#[local] Existing Instance BlockProps.leqv_equivalence.
#[local] Arguments feed_slice : simpl never.

Section props.
Context {V : Screen.Vt} {L : Screen.VtLaws V} {C : Image.ImageCodecs} {H : HookTap.HookCodec}.

(** Emulators that differ at most in image placements, the revision counter and the clock
    readings of their blocks. *)
Record eqv (e e' : t) : Prop := {
  ee_screen : ScreenProps.eqv (screen e) (screen e');
  ee_hooks : hooks e = hooks e';
  ee_osc : osc e = osc e';
  ee_hook_events : hook_events e = hook_events e';
  ee_osc_events : osc_events e = osc_events e';
  ee_blocks : BlockProps.leqv (blocks e) (blocks e');
  ee_block_events : block_events e = block_events e';
  ee_replies : replies e = replies e';
  ee_columns : columns e = columns e';
  ee_lines : screen_lines e = screen_lines e';
}.

#[export] Instance eqv_equivalence : Equivalence eqv.
Proof.
  split.
  - intros e. by split.
  - intros e e' []. split; done || by symmetry.
  - intros e e1 e2 [] []. split; try congruence; by etrans.
Qed.

(** ** The reference: one byte at a time *)

(** The bytes that pass the hook tap, as every consumer but the screen sees them. *)
Definition observe (l : Bytes) (e : t) : t :=
  let r := scan OscTap.step (osc e, []) l in
  mk (screen e) (hooks e) r.1 (hook_events e) (osc_events e ++ r.2) (BlockList.feed l (blocks e))
    (block_events e) (replies e) (columns e) (screen_lines e).

(** A byte of the stream: what it releases is observed, drawn, and then the hook it
    completes is applied. *)
Definition ref_byte (now : Clock) (e : t) (b : byte) : t :=
  let '(tap, out, found) := HookTap.step (hooks e, [], []) b in
  let e := set_screen (Screen.feed (screen e) out) (observe out (set_hooks tap e)) in
  foldl (fun e h => apply_hook now h.2 e) e found.

Lemma observe_nil e : observe [] e = e.
Proof.
  unfold observe. rewrite scan_nil. simpl. unfold BlockList.feed. simpl. rewrite app_nil_r.
  by destruct e.
Qed.

Lemma observe_app a b e : eqv (observe b (observe a e)) (observe (a ++ b) e).
Proof.
  unfold observe. rewrite scan_app. destruct (scan OscTap.step (osc e, []) a) as [s1 ev1] eqn:Ha.
  cbn [fst snd osc]. rewrite (OscProps.scan_events s1 ev1 b).
  split; simpl; try done; [by rewrite (assoc_L (++))|].
  apply BlockProps.feed_feed_leqv.
Qed.

#[export] Instance observe_proper l : Proper (eqv ==> eqv) (observe l).
Proof.
  intros e e' []. unfold observe. split; simpl; try done; try congruence.
  by apply BlockProps.feed_leqv.
Qed.

Lemma feed_slice_eq e out slice : feed_slice (e, out) slice = (observe slice e, out ++ slice).
Proof. unfold feed_slice, observe. rewrite OscProps.tap_eq. by rewrite drop_app_length. Qed.

Lemma on_block_event_leqv l l' ev :
  BlockProps.leqv l l' -> BlockProps.leqv (on_block_event l ev) (on_block_event l' ev).
Proof.
  intros Hl. destruct ev; simpl; try done. unfold associate_owner.
  destruct (BlockProps.get_leqv _ _ id Hl) as [b b' Hb|]; [|done]. simpl.
  rewrite <- (BlockProps.be_owner _ _ Hb). destruct (Block.owner b); [done|].
  apply BlockProps.on_block_leqv; [|done]. intros b1 b1' Hb1.
  rewrite <- (BlockProps.be_visibility _ _ Hb1). by apply BlockProps.set_visibility_beqv.
Qed.

Lemma apply_hook_eqv now now' hook e e' : eqv e e' -> eqv (apply_hook now hook e) (apply_hook now' hook e').
Proof.
  intros []. unfold apply_hook.
  destruct (BlockProps.apply_reqv now now' hook _ _ ee_blocks0) as [H1 H2].
  destruct (BlockList.apply now hook (blocks e)) as [l ev],
    (BlockList.apply now' hook (blocks e')) as [l' ev']. simpl in *. subst ev'.
  split; simpl; try done; try congruence.
  clear -H1 L. revert l l' H1. induction ev as [|x ev IH]; intros l l' Hl; [done|]. simpl.
  apply IH. by apply on_block_event_leqv.
Qed.

Lemma set_screen_eqv s s' e e' :
  ScreenProps.eqv s s' -> eqv e e' -> eqv (set_screen s e) (set_screen s' e').
Proof. intros Hs []. by split. Qed.

Lemma set_hooks_eqv h e e' : eqv e e' -> eqv (set_hooks h e) (set_hooks h e').
Proof. intros []. by split. Qed.

#[export] Instance ref_byte_proper now : Proper (eqv ==> eq ==> eqv) (ref_byte now).
Proof.
  intros e e' He b ? <-. unfold ref_byte. rewrite <- (ee_hooks _ _ He).
  destruct (HookTap.step (hooks e, [], []) b) as [[tap out] found].
  assert (eqv (set_screen (Screen.feed (screen e) out) (observe out (set_hooks tap e)))
              (set_screen (Screen.feed (screen e') out) (observe out (set_hooks tap e')))) as He1.
  { apply set_screen_eqv; [apply ScreenProps.feed_proper; [apply He|done]|].
    by apply observe_proper, set_hooks_eqv. }
  revert He1. generalize (set_screen (Screen.feed (screen e) out) (observe out (set_hooks tap e))),
    (set_screen (Screen.feed (screen e') out) (observe out (set_hooks tap e'))).
  induction found as [|h found IH]; intros x x' Hx; [done|]. simpl. apply IH. by apply apply_hook_eqv.
Qed.

Lemma ref_bytes_eqv now l e e' :
  eqv e e' -> eqv (foldl (ref_byte now) e l) (foldl (ref_byte now) e' l).
Proof.
  revert e e'. induction l as [|b l IH]; intros e e' He; [done|]. simpl. apply IH. by rewrite He.
Qed.

(** ** A call of [feed] *)

(** The loop of [feed], with the slices between the hooks spelt out. *)
Fixpoint slices (staged : Bytes) (e : t) (cursor : nat)
    (timed : list (nat * HookTap.HookEvent * Clock)) : t :=
  match timed with
  | [] => observe (drop cursor staged) e
  | (offset, hook, now) :: timed' =>
      slices staged (apply_hook now hook (observe (take (offset - cursor) (drop cursor staged)) e))
        offset timed'
  end.

(** Offsets that do not go back and stay within [n]. *)
Fixpoint ascending (n cursor : nat) (found : list (nat * HookTap.HookEvent)) : Prop :=
  match found with
  | [] => cursor <= n
  | (offset, _) :: found' => cursor <= offset /\ ascending n offset found'
  end.

Lemma ascending_bound n cursor found : ascending n cursor found -> cursor <= n.
Proof. revert cursor. induction found as [|[o h] found IH]; intros cursor; simpl; [done|]. intros [? ?%IH]. lia. Qed.

Lemma ascending_mono n m cursor found : n <= m -> ascending n cursor found -> ascending m cursor found.
Proof. intros Hn. revert cursor. induction found as [|[o h] found IH]; simpl; intros cursor; [lia|naive_solver]. Qed.

Lemma ascending_snoc n cursor found h : ascending n cursor found -> ascending n cursor (found ++ [(n, h)]).
Proof.
  revert cursor. induction found as [|[o h'] found IH]; simpl; intros cursor; [lia|naive_solver].
Qed.

Lemma on_hooks_slices staged e cursor timed :
  ascending (length staged) cursor (fst <$> timed) ->
  (let '(e', out, cursor') := foldl (on_hook staged) (e, take cursor staged, cursor) timed in
   if cursor' <? length staged then feed_slice (e', out) (drop cursor' staged) else (e', out))
  = (slices staged e cursor timed, staged).
Proof.
  revert e cursor. induction timed as [|[[offset hook] now] timed IH]; intros e cursor Hasc.
  - simpl in *. destruct (Nat.ltb_spec cursor (length staged)).
    + by rewrite feed_slice_eq, take_drop.
    + rewrite drop_ge, observe_nil by lia. by rewrite take_ge.
  - rewrite fmap_cons in Hasc. destruct Hasc as [Hle Hasc]. pose proof (ascending_bound _ _ _ Hasc) as Hb.
    cbn [foldl slices]. unfold on_hook at 2. rewrite (Nat.min_l offset) by done.
    assert ((if cursor <? offset
             then (feed_slice (e, take cursor staged) (take (offset - cursor) (drop cursor staged)), offset)
             else (e, take cursor staged, cursor))
      = (observe (take (offset - cursor) (drop cursor staged)) e, take offset staged, offset)) as ->.
    { destruct (Nat.ltb_spec cursor offset).
      - rewrite feed_slice_eq, take_take_drop. by replace (cursor + (offset - cursor)) with offset by lia.
      - assert (cursor = offset) as -> by lia. by rewrite Nat.sub_diag, take_0, observe_nil. }
    by apply IH.
Qed.

Lemma slices_eqv staged e e' cursor timed timed' :
  eqv e e' -> fst <$> timed = fst <$> timed' ->
  eqv (slices staged e cursor timed) (slices staged e' cursor timed').
Proof.
  revert e e' cursor timed'. induction timed as [|[[o h] c] timed IH]; intros e e' cursor [|[[o' h'] c'] timed'] He;
    try done; simpl.
  - intros _. by apply observe_proper.
  - intros [= <- <- Ht]. apply IH; [|done]. by apply apply_hook_eqv, observe_proper.
Qed.

Lemma slices_app staged o e cursor timed :
  ascending (length staged) cursor (fst <$> timed) ->
  eqv (slices (staged ++ o) e cursor timed) (observe o (slices staged e cursor timed)).
Proof.
  revert e cursor. induction timed as [|[[offset hook] now] timed IH]; intros e cursor Hasc; simpl.
  - simpl in Hasc. rewrite drop_app_le by done. symmetry. apply observe_app.
  - rewrite fmap_cons in Hasc. destruct Hasc as [Hle Hasc]. pose proof (ascending_bound _ _ _ Hasc).
    rewrite drop_app_le by lia. rewrite take_app_le by (rewrite length_drop; lia). by apply IH.
Qed.

Lemma slices_snoc staged e cursor timed hook now :
  ascending (length staged) cursor (fst <$> timed) ->
  slices staged e cursor (timed ++ [(length staged, hook, now)])
  = apply_hook now hook (slices staged e cursor timed).
Proof.
  revert e cursor. induction timed as [|[[offset h] c] timed IH]; intros e cursor Hasc; simpl.
  - rewrite drop_all, observe_nil. by rewrite take_ge by (rewrite length_drop; lia).
  - rewrite fmap_cons in Hasc. destruct Hasc as [Hle Hasc]. by apply IH.
Qed.

(** What the loop neither reads nor writes. *)
Lemma slices_frame staged e cursor timed :
  screen (slices staged e cursor timed) = screen e /\
  forall h, slices staged (set_hooks h e) cursor timed = set_hooks h (slices staged e cursor timed).
Proof.
  revert e cursor. induction timed as [|[[offset hook] now] timed IH]; intros e cursor; simpl; [done|].
  destruct (IH (apply_hook now hook (observe (take (offset - cursor) (drop cursor staged)) e)) offset) as [IH1 IH2].
  split.
  - rewrite IH1. unfold apply_hook. by destruct (BlockList.apply _ _ _).
  - intros h. rewrite <- IH2. f_equal. unfold apply_hook. simpl. by destruct (BlockList.apply _ _ _).
Qed.

Lemma slices_hooks staged h e cursor timed :
  slices staged (set_hooks h e) cursor timed = set_hooks h (slices staged e cursor timed).
Proof. apply slices_frame. Qed.

Lemma feed_slices clock l e :
  let '(tap, staged, found) := HookTap.tap_ordered (hooks e) l [] in
  ascending (length staged) 0 found ->
  feed clock l e = set_screen (Screen.feed (screen e) staged)
    (slices staged (set_hooks tap e) 0 (imap (fun k h => (h, clock k)) found)).
Proof.
  destruct (HookTap.tap_ordered (hooks e) l []) as [[tap staged] found] eqn:Htap. intros Hasc.
  unfold feed. rewrite Htap.
  assert (fst <$> imap (fun k h => (h, clock k)) found = found) as Hf.
  { rewrite fmap_imap. rewrite (imap_ext _ (const id)) by done. by rewrite imap_const, list_fmap_id. }
  pose proof (on_hooks_slices staged (set_hooks tap e) 0 (imap (fun k h => (h, clock k)) found)) as Hs.
  rewrite Hf, take_0 in Hs. specialize (Hs Hasc).
  destruct (foldl (on_hook staged) (set_hooks tap e, [], 0) _) as [[e1 out1] c1].
  rewrite Hs. by rewrite (proj1 (slices_frame _ _ _ _)).
Qed.

(** A byte gives output or completes a hook, not both. *)
Lemma step_cases s b :
  (exists s' out, HookTap.step (s, [], []) b = (s', out, [])) \/
  (exists s' event, HookTap.step (s, [], []) b = (s', [], [(0, event)])).
Proof.
  unfold HookTap.step, HookTap.complete. destruct s as [[|p|body] d]; simpl;
    repeat case_match; simpl; eauto.
Qed.

Lemma tap_snoc s l b :
  HookTap.tap_ordered s (l ++ [b]) [] =
    (let '(s1, out1, h1) := HookTap.tap_ordered s l [] in
     let '(s2, out2, h2) := HookTap.step (s1, [], []) b in
     (s2, out1 ++ out2, h1 ++ HookProps.shift (length out1) h2)).
Proof.
  unfold HookTap.tap_ordered. rewrite scan_app. destruct (scan HookTap.step (s, [], []) l) as [[s1 out1] h1].
  rewrite scan_cons, scan_nil, HookProps.step_adds. unfold HookProps.adds.
  by destruct (HookTap.step (s1, [], []) b) as [[s2 out2] h2].
Qed.

Lemma app_timed {A B} (timed : list (A * B)) found h :
  fst <$> timed = found ++ [h] -> exists timed1 c, timed = timed1 ++ [(h, c)] /\ fst <$> timed1 = found.
Proof.
  induction timed as [|[h' c] timed1 _] using rev_ind; [by destruct found|].
  rewrite fmap_app. simpl. intros [H1 H2]%app_inj_tail. subst. eauto.
Qed.

Lemma screen_feed_nil s : ScreenProps.eqv (Screen.feed s []) s.
Proof.
  unfold Screen.feed. destruct (Screen.frozen s) eqn:Hf; [|by split].
  by split; simpl.
Qed.

Lemma apply_hook_screen now hook s e :
  apply_hook now hook (set_screen s e) = set_screen s (apply_hook now hook e).
Proof. unfold apply_hook. simpl. by destruct (BlockList.apply _ _ _). Qed.

Lemma apply_hook_hooks now hook h e :
  apply_hook now hook (set_hooks h e) = set_hooks h (apply_hook now hook e).
Proof. unfold apply_hook. simpl. by destruct (BlockList.apply _ _ _). Qed.

Lemma feed_ref now l e :
  let '(tap, staged, found) := HookTap.tap_ordered (hooks e) l [] in
  ascending (length staged) 0 found /\
  forall timed, fst <$> timed = found ->
    eqv (set_screen (Screen.feed (screen e) staged) (slices staged (set_hooks tap e) 0 timed))
        (foldl (ref_byte now) e l) /\
    hooks (foldl (ref_byte now) e l) = tap.
Proof.
  induction l as [|b l IH] using rev_ind.
  - simpl. split; [lia|]. intros [|]; [intros _|done]. simpl. rewrite observe_nil. split; [|done].
    split; simpl; try done. apply screen_feed_nil.
  - rewrite tap_snoc, foldl_app. cbn [foldl].
    destruct (HookTap.tap_ordered (hooks e) l []) as [[tap staged] found]. destruct IH as [Hasc IH].
    set (e1 := foldl (ref_byte now) e l) in *.
    destruct (step_cases tap b) as [(tap' & out & Hstep)|(tap' & event & Hstep)]; rewrite Hstep; simpl.
    + rewrite app_nil_r. split; [rewrite length_app; eapply ascending_mono; [|exact Hasc]; lia|].
      intros timed Ht. destruct (IH timed Ht) as [He1 Hh1]. unfold ref_byte. rewrite Hh1, Hstep. simpl.
      split; [|done].
      rewrite <- Ht in Hasc. rewrite slices_hooks in He1. rewrite slices_hooks.
      etrans; [|apply set_screen_eqv; [apply ScreenProps.feed_proper; [apply (ee_screen _ _ He1)|done]|
                 apply observe_proper, set_hooks_eqv, He1]].
      refine (set_screen_eqv _ _ _ _ _ (set_hooks_eqv tap' _ _ (slices_app _ out e 0 _ Hasc))).
      symmetry. apply ScreenProps.feed_app_eqv.
    + rewrite app_nil_r, Nat.add_0_r. split; [by apply ascending_snoc|].
      intros timed Ht. destruct (app_timed _ _ _ Ht) as (timed1 & c & -> & Ht1).
      destruct (IH timed1 Ht1) as [He1 Hh1]. unfold ref_byte. rewrite Hh1, Hstep. simpl.
      rewrite <- Ht1 in Hasc. rewrite slices_snoc by done.
      rewrite slices_hooks in He1. rewrite slices_hooks, observe_nil, apply_hook_screen, !apply_hook_hooks.
      split; [|done].
      pose proof (apply_hook_eqv c now event _ _ He1) as Hx.
      rewrite apply_hook_screen, apply_hook_hooks in Hx.
      refine (set_screen_eqv _ _ _ _ _ (set_hooks_eqv tap' _ _ Hx)).
      etrans; [apply (ee_screen _ _ He1)|]. symmetry. apply screen_feed_nil.
Qed.

Lemma feed_bytes now clock l e : eqv (feed clock l e) (foldl (ref_byte now) e l).
Proof.
  pose proof (feed_slices clock l e) as Hf. pose proof (feed_ref now l e) as Hr.
  destruct (HookTap.tap_ordered (hooks e) l []) as [[tap staged] found]. destruct Hr as [Hasc Hr].
  rewrite Hf by done. apply Hr. rewrite fmap_imap. rewrite (imap_ext _ (const id)) by done.
  by rewrite imap_const, list_fmap_id.
Qed.

(** C27: However the pty stream is cut into reads, hook envelopes and OSC sequences split
    anywhere, the emulator ends like the reference that takes the bytes one at a time: each
    byte is observed, drawn and fed to the block that is active then, and each hook is
    applied at its place in the stream.  The grid, the blocks with their outputs and tool
    results, and all pending events agree; left open are the image placements, which do
    depend on the cut ([alt_screen_swap_within_a_read] in TermScreen.v), the revision
    counters and the clock readings of the blocks. *)
Theorem emulator_feed_is_bytewise now (reads : list (Bytes * (nat -> Clock))) e :
  eqv (foldl (fun e r => feed r.2 r.1 e) e reads)
      (foldl (ref_byte now) e (concat (fst <$> reads))).
Proof.
  revert e. induction reads as [|[l clock] reads IH]; intros e; [done|]. simpl.
  rewrite IH, foldl_app. apply ref_bytes_eqv, feed_bytes.
Qed.

(** ** Views and cards *)

(** What the reader thread and the application do with an emulator. *)
Inductive op : Type :=
| Feed (clock : nat -> Clock) (bytes : Bytes)
| Claim (owner : BlockOwner)
| RunFor (conversation : Str)
| PushCard (conversation label : Str)
| Resize (cols lines : nat)
| Scroll (lines : Z)
| Pump (palette : Palette.t) (cell : N * N).

Definition do_op (e : t) (o : op) : t :=
  match o with
  | Feed clock bytes => feed clock bytes e
  | Claim owner => (claim_active_block owner e).1
  | RunFor c => (run_block_for_conversation c e).1
  | PushCard c n => (push_agent_view_block c n e).1
  | Resize cols lines => resize cols lines e
  | Scroll lines => scroll lines e
  | Pump palette cell => (pump palette cell e).1
  end.

Definition run (e : t) (ops : list op) : t := foldl do_op e ops.

(** Where the blocks are shown, given the conversations commands were typed in. *)
Record views_except (typed : Str -> Prop) (open : N -> Prop) (l : BlockList.t) : Prop := {
  vw_inv : BlockProps.inv l;
  vw_conversation b c : b ∈ BlockList.blocks l -> c ∈ conversations (Block.visibility b) ->
    (exists k, Block.owner b = Agent c k) \/ typed c;
  vw_terminal b : b ∈ BlockList.blocks l ->
    terminal (Block.visibility b) = true \/ exists c, typed c /\ c ∈ conversations (Block.visibility b);
  vw_owner b c k : b ∈ BlockList.blocks l -> Block.owner b = Agent c k ->
    c ∈ conversations (Block.visibility b) \/ open (Block.id b);
  vw_cards b b' c : b ∈ BlockList.blocks l -> b' ∈ BlockList.blocks l ->
    Block.conversation_id b = Some c -> Block.conversation_id b' = Some c -> Block.id b = Block.id b';
  vw_card_shown b : b ∈ BlockList.blocks l -> is_shell (Block.kind b) = false ->
    Block.visibility b = visibility_terminal;
  vw_pending c b : BlockList.pending_claim l = Some c -> b ∈ BlockList.blocks l ->
    Block.id b = BlockList.claim_block c -> Block.owner b = User;
}.

Definition views (typed : Str -> Prop) : BlockList.t -> Prop := views_except typed (fun _ => False).

(** The fields of a block the views read. *)
Definition seen (b : Block.t) : BlockKind * BlockOwner * BlockVisibility :=
  (Block.kind b, Block.owner b, Block.visibility b).

(** A list whose blocks read like blocks of another. *)
Lemma views_from typed (open open' : N -> Prop) l l' :
  views_except typed open l -> BlockProps.inv l' ->
  (forall b', b' ∈ BlockList.blocks l' ->
     (exists b, b ∈ BlockList.blocks l /\ Block.id b' = Block.id b /\ seen b' = seen b) \/
     Block.kind b' = Shell /\ Block.owner b' = User /\ Block.visibility b' = visibility_terminal) ->
  (forall i, open i -> open' i) ->
  (forall c, BlockList.pending_claim l' = Some c -> BlockList.pending_claim l = Some c) ->
  views_except typed open' l'.
Proof.
  intros [Hi Hc Ht Ho Hu Hs Hp] Hi' Hfrom Hopen Hpend. split; [done|..].
  - intros b' c Hb Hcv. destruct (Hfrom _ Hb) as [(b & Hb0 & _ & [= Ek Eo Ev])|(_ & _ & Ev)].
    + rewrite Eo, Ev in *. eauto.
    + rewrite Ev in Hcv. by apply elem_of_empty in Hcv.
  - intros b' Hb. destruct (Hfrom _ Hb) as [(b & Hb0 & _ & [= Ek Eo Ev])|(_ & _ & Ev)]; rewrite Ev; eauto.
  - intros b' c k Hb. destruct (Hfrom _ Hb) as [(b & Hb0 & Ei & [= Ek Eo Ev])|(_ & Eo & _)]; rewrite Eo.
    + rewrite Ei, Ev. intros Hw. destruct (Ho _ _ _ Hb0 Hw); auto.
    + done.
  - intros b1 b2 c H1 H2 C1 C2.
    destruct (Hfrom _ H1) as [(a1 & A1 & E1 & [= K1 _ _])|(K1 & _)];
      [|unfold Block.conversation_id in C1; by rewrite K1 in C1].
    destruct (Hfrom _ H2) as [(a2 & A2 & E2 & [= K2 _ _])|(K2 & _)];
      [|unfold Block.conversation_id in C2; by rewrite K2 in C2].
    rewrite E1, E2. unfold Block.conversation_id in C1, C2. rewrite K1 in C1. rewrite K2 in C2.
    by apply (Hu a1 a2 c).
  - intros b' Hb. destruct (Hfrom _ Hb) as [(b & Hb0 & _ & [= Ek _ Ev])|(Ek & _)]; rewrite Ek; [|done].
    rewrite Ev. eauto.
  - intros c b' Hcl Hb Hid. apply Hpend in Hcl.
    destruct (Hfrom _ Hb) as [(b & Hb0 & Ei & [= _ Eo _])|(_ & Eo & _)]; [|done].
    rewrite Eo. apply (Hp c); congruence.
Qed.

Lemma views_same typed l l' :
  views typed l -> BlockProps.inv l' -> BlockList.blocks l' = BlockList.blocks l ->
  BlockList.pending_claim l' = BlockList.pending_claim l -> views typed l'.
Proof.
  intros Hv Hi Hb Hp. apply (views_from _ (fun _ => False) _ l); [done..| |done|by rewrite Hp].
  intros b' H'. rewrite Hb in H'. left. by exists b'.
Qed.

Lemma feed_views typed bytes l : views typed l -> views typed (BlockList.feed bytes l).
Proof.
  intros Hv. pose proof (vw_inv _ _ _ Hv) as Hi. apply (views_from _ (fun _ => False) _ l);
    [done|by apply BlockProps.feed_inv| |done|unfold BlockList.feed; by case_bool_decide].
  intros b' Hb. left. unfold BlockList.feed in Hb. case_bool_decide; [by exists b'|].
  apply BlockProps.elem_on_active in Hb as [Hb|(a & Ha & ->)]; [by exists b'|].
  exists a. destruct (BlockProps.feed_same bytes a) as ([= E1 _ E2] & E3 & E4).
  split_and!; [by eapply list_elem_of_lookup_2|done|]. unfold seen. congruence.
Qed.

(** Only a [Preexec] starts a block, and it starts the active one. *)
Lemma apply_started now e l :
  (BlockProps.is_preexec e -> exists l0, BlockList.apply now e l
     = (l0, match BlockList.active_block l with Some a => [BlockStarted (Block.id a)] | None => [] end)) /\
  (~ BlockProps.is_preexec e -> forall l0, foldl on_block_event l0 (BlockList.apply now e l).2 = l0).
Proof.
  split.
  - destruct e; try done. intros _. simpl. unfold BlockList.on_preexec.
    change (BlockList.active_block (BlockList.set_claim None l)) with (BlockList.active_block l).
    destruct (BlockList.active_block l); by eexists.
  - destruct e as [v|v|v|v|v|v|]; simpl; try done.
    + intros _ l0. unfold BlockList.on_bootstrapped. by destruct (BlockList.bootstrapped l).
    + intros _ l0. unfold BlockList.on_precmd, BlockList.promote_active.
      destruct (BlockList.active_block _) as [a|]; [|done]. case_bool_decide; simpl.
      * destruct (BlockList.active_block (BlockList.on_active (Block.set_metadata v) _)); simpl;
          rewrite ?foldl_app; destruct (BlockList.tool_result _ _ _); done.
      * by destruct (BlockList.active_block _).
    + intros _ l0. unfold BlockList.on_command_finished. destruct (BlockList.active_block _); [|done].
      simpl. by destruct (BlockList.tool_result _ _ _).
    + intros _ l0. unfold BlockList.on_clear. by destruct (BlockList.active_block _).
Qed.

(** The blocks after an owner is associated. *)
Lemma associate_owner_elem l id b' :
  BlockProps.inv l -> b' ∈ BlockList.blocks (associate_owner l id) ->
  exists b, b ∈ BlockList.blocks l /\ BlockProps.untouched b b' /\
    ((Block.id b <> id \/ Block.owner b = User) /\ Block.visibility b' = Block.visibility b \/
     exists c k, Block.id b = id /\ Block.owner b = Agent c k /\
       Block.visibility b' = (associate (Block.visibility b) c).1).
Proof.
  intros Hi Hb. pose proof (BlockProps.core_ids _ (BlockProps.inv_core _ Hi)) as Hs.
  assert (forall b0, b0 ∈ BlockList.blocks l -> Block.id b0 <> id \/ Block.owner b0 = User ->
    exists b, b ∈ BlockList.blocks l /\ BlockProps.untouched b b0 /\
    ((Block.id b <> id \/ Block.owner b = User) /\ Block.visibility b0 = Block.visibility b \/
     exists c k, Block.id b = id /\ Block.owner b = Agent c k /\
       Block.visibility b0 = (associate (Block.visibility b) c).1)) as Hsame.
  { intros b0 Hb0 Ho. exists b0. split_and!; [done| |by left]. by apply BlockProps.untouched_preorder. }
  unfold associate_owner, BlockList.get in Hb.
  destruct (list_find (fun b => Block.id b = id) (BlockList.blocks l)) as [[i b0]|] eqn:Hf; simpl in Hb.
  - pose proof Hf as (Hi0 & Hid & _)%list_find_Some.
    pose proof (list_elem_of_lookup_2 _ _ _ Hi0) as Hin.
    destruct (Block.owner b0) as [|c k] eqn:Hw.
    { apply Hsame; [done|]. destruct (decide (Block.id b' = id)) as [E|]; [|by left].
      right. rewrite <- Hw. f_equal. apply (BlockProps.same_id l); [done..|congruence]. }
    unfold BlockList.on_block in Hb. rewrite Hf in Hb. simpl in Hb.
    apply list_elem_of_lookup in Hb as [j Hj]. destruct (decide (i = j)) as [<-|Hij].
    + rewrite list_lookup_alter_eq, Hi0 in Hj. injection Hj as <-. exists b0.
      split_and!; [done|apply BlockProps.set_visibility_untouched|right; eauto].
    + rewrite list_lookup_alter_ne in Hj by done. apply Hsame; [by eapply list_elem_of_lookup_2|].
      left. intros E. apply Hij. apply BlockProps.sorted_nodup in Hs.
      apply (NoDup_lookup _ _ _ id Hs); rewrite list_lookup_fmap; [rewrite Hi0|rewrite Hj]; simpl; congruence.
  - apply Hsame; [done|]. left. apply list_find_None in Hf. rewrite Forall_forall in Hf. by apply Hf.
Qed.

Lemma associate_views typed l id :
  views_except typed (eq id) l -> views typed (associate_owner l id).
Proof.
  intros Hv. pose proof Hv as [Hi Hc Ht Ho Hu Hs Hp].
  assert (BlockProps.inv (associate_owner l id)) as Hi'.
  { unfold associate_owner. destruct (Block.owner <$> BlockList.get l id) as [[|c k]|]; [done| |done].
    apply BlockProps.on_block_inv; [done..|]. intros b. apply BlockProps.set_visibility_ok. }
  split; [done|..].
  - intros b' c Hb Hcv. apply associate_owner_elem in Hb as (b & Hb & Hun & Hcase); [|done].
    rewrite (BlockProps.un_owner _ _ Hun). destruct Hcase as [[_ E]|(c' & k & _ & Hw & E)]; rewrite E in Hcv.
    + eauto.
    + apply elem_of_union in Hcv as [->%elem_of_singleton|Hcv]; eauto.
  - intros b' Hb. apply associate_owner_elem in Hb as (b & Hb & Hun & Hcase); [|done].
    destruct Hcase as [[_ E]|(c' & k & _ & Hw & E)]; rewrite E; [eauto|]. simpl.
    destruct (Ht _ Hb) as [|(c & ? & ?)]; [auto|]. right. exists c. split; [done|]. by apply elem_of_union_r.
  - intros b' c k Hb Hw. left. apply associate_owner_elem in Hb as (b & Hb & Hun & Hcase); [|done].
    rewrite (BlockProps.un_owner _ _ Hun) in Hw.
    destruct Hcase as [[Hn E]|(c' & k' & _ & Hw' & E)]; rewrite E.
    + destruct (Ho _ _ _ Hb Hw) as [|Heq]; [done|]. destruct Hn as [Hn|Hn]; congruence.
    + assert (c' = c) as -> by congruence. simpl. set_solver.
  - intros b1 b2 c H1 H2 C1 C2.
    apply associate_owner_elem in H1 as (a1 & A1 & U1 & _); [|done].
    apply associate_owner_elem in H2 as (a2 & A2 & U2 & _); [|done].
    rewrite (BlockProps.un_id _ _ U1), (BlockProps.un_id _ _ U2).
    unfold Block.conversation_id in C1, C2. rewrite (BlockProps.un_kind _ _ U1) in C1.
    rewrite (BlockProps.un_kind _ _ U2) in C2. by apply (Hu a1 a2 c).
  - intros b' Hb Hk. apply associate_owner_elem in Hb as (b & Hb & Hun & Hcase); [|done].
    rewrite (BlockProps.un_kind _ _ Hun) in Hk. destruct Hcase as [[_ E]|(c' & k' & _ & Hw & _)].
    + rewrite E. eauto.
    + pose proof (BlockProps.core_blocks _ (BlockProps.inv_core _ Hi)) as Hok.
      rewrite Forall_forall in Hok. destruct (BlockProps.ok_card _ (Hok _ Hb) Hk). congruence.
  - intros c b' Hcl Hb Hid. apply associate_owner_elem in Hb as (b & Hb & Hun & _); [|done].
    rewrite (BlockProps.un_owner _ _ Hun). apply (Hp c); [|done|by rewrite <- (BlockProps.un_id _ _ Hun)].
    rewrite <- Hcl. unfold associate_owner.
    destruct (Block.owner <$> BlockList.get l id) as [[|c' k']|]; [done| |done].
    unfold BlockList.associate_with_conversation, BlockList.on_block. simpl.
    by destruct (list_find _ _) as [[]|].
Qed.

Lemma active_id_of l a : BlockList.active_block l = Some a -> BlockProps.active_id l = Block.id a.
Proof. unfold BlockProps.active_id. by intros ->. Qed.

(** A hook leaves every block in the views it was in. *)
Lemma apply_views_other typed now e l :
  ~ BlockProps.is_preexec e -> views typed l -> views typed (BlockList.apply now e l).1.
Proof.
  intros He Hv. pose proof (vw_inv _ _ _ Hv) as Hi.
  apply (views_from _ (fun _ => False) _ l); [done|by apply BlockProps.apply_inv| |done|].
  - intros b' Hb. apply BlockProps.apply_origin in Hb
      as [Hn Ho Hw [Hk|[]]|b Hb [Hun Hvis]|a Ha Hid Hk Hvis [Ho|[Hp _]]]; [by right| | |done].
    + left. exists b. destruct Hun. split_and!; [done..|]. unfold seen. congruence.
    + left. exists a. split_and!; [by eapply list_elem_of_lookup_2|done|]. unfold seen. congruence.
  - intros c Hc. by destruct (BlockProps.do_op_pending l (BlockProps.Apply now e) c Hc).
Qed.

(** A [Preexec] leaves them too, but for the new owner of the block it starts. *)
Lemma apply_views_preexec typed now v l :
  views typed l ->
  views_except typed (eq (BlockProps.active_id l)) (BlockList.apply now (HookTap.Preexec v) l).1.
Proof.
  intros Hv. pose proof Hv as [Hi Hc Ht Ho Hu Hs Hp].
  set (l' := (BlockList.apply now (HookTap.Preexec v) l).1).
  assert (BlockList.pending_claim l' = None) as Hnone.
  { subst l'. simpl. unfold BlockList.on_preexec. destruct (BlockList.active_block _); [simpl|done].
    destruct (BlockList.pending_claim l); [destruct (_ =? _)%N|]; done. }
  assert (forall b', b' ∈ BlockList.blocks l' ->
    (Block.kind b' = Shell /\ Block.owner b' = User /\ Block.visibility b' = visibility_terminal) \/
    exists b, b ∈ BlockList.blocks l /\ Block.id b' = Block.id b /\ Block.kind b' = Block.kind b /\
      Block.visibility b' = Block.visibility b /\
      (Block.owner b' = Block.owner b \/
       BlockProps.active_id l = Block.id b /\ Block.owner b = User)) as Hfrom.
  { intros b' Hb. apply BlockProps.apply_origin in Hb
      as [Hn Hw Hvis [Hk|[]]|b Hb [Hun Hvis]|a Ha Hid Hk Hvis How]; [by left| |].
    - right. exists b. destruct Hun. auto 10.
    - right. pose proof (list_elem_of_lookup_2 _ _ _ Ha) as Hin. exists a. split_and!; [done..|].
      destruct How as [|(_ & c & Hcl & Hcid & _)]; [by left|right].
      split; [by apply active_id_of|]. by apply (Hp c). }
  split; [by apply BlockProps.apply_inv|..].
  - intros b' c Hb Hcv. destruct (Hfrom _ Hb) as [(_ & _ & Ev)|(b & Hb0 & _ & _ & Ev & Hw)]; rewrite Ev in Hcv.
    + by apply elem_of_empty in Hcv.
    + destruct (Hc _ _ Hb0 Hcv) as [[k Hk]|]; [|by right]. left. exists k.
      destruct Hw as [Hw|[_ Hw]]; congruence.
  - intros b' Hb. destruct (Hfrom _ Hb) as [(_ & _ & Ev)|(b & Hb0 & _ & _ & Ev & _)]; rewrite Ev; eauto.
  - intros b' c k Hb Hw. destruct (Hfrom _ Hb) as [(_ & Eo & _)|(b & Hb0 & Ei & _ & Ev & Ho')]; [congruence|].
    destruct Ho' as [Eo|[Ea _]]; [|right; congruence]. rewrite Ev. left.
    destruct (Ho b c k Hb0) as [|[]]; [congruence|done].
  - intros b1 b2 c H1 H2 C1 C2. unfold Block.conversation_id in C1, C2.
    destruct (Hfrom _ H1) as [(K1 & _)|(a1 & A1 & E1 & K1 & _)]; rewrite K1 in C1; [done|].
    destruct (Hfrom _ H2) as [(K2 & _)|(a2 & A2 & E2 & K2 & _)]; rewrite K2 in C2; [done|].
    rewrite E1, E2. by apply (Hu a1 a2 c).
  - intros b' Hb Hk. destruct (Hfrom _ Hb) as [(K & _)|(b & Hb0 & _ & K & Ev & _)]; rewrite K in Hk; [done|].
    rewrite Ev. eauto.
  - intros c b' Hcl. congruence.
Qed.

Lemma apply_hook_views typed now hook e :
  views typed (blocks e) -> views typed (blocks (apply_hook now hook e)).
Proof.
  intros Hv. unfold apply_hook.
  destruct (apply_started now hook (blocks e)) as [Hpre Hother].
  destruct (BlockList.apply now hook (blocks e)) as [l ev] eqn:Ha. simpl.
  destruct hook as [v|v|v|v|v|v|];
    try (rewrite Hother by (intros []); change l with (l, ev).1; rewrite <- Ha; by apply apply_views_other; [intros []|]).
  destruct (Hpre I) as [l0 [= -> ->]].
  pose proof (apply_views_preexec typed now v _ Hv) as Hpv. rewrite Ha in Hpv. simpl in Hpv.
  pose proof (BlockProps.inv_active _ (vw_inv _ _ _ Hv)) as (a & Hact & _). rewrite Hact. simpl.
  apply associate_views. by rewrite <- (active_id_of _ _ Hact).
Qed.

Lemma slices_views typed staged e cursor timed :
  views typed (blocks e) -> views typed (blocks (slices staged e cursor timed)).
Proof.
  revert e cursor. induction timed as [|[[o h] now] timed IH]; intros e cursor Hv; simpl.
  - by apply feed_views.
  - by apply IH, apply_hook_views, feed_views.
Qed.

Lemma feed_call_views typed clock l e : views typed (blocks e) -> views typed (blocks (feed clock l e)).
Proof.
  intros Hv. pose proof (feed_slices clock l e) as Hf. pose proof (feed_ref (clock 0) l e) as Hr.
  destruct (HookTap.tap_ordered (hooks e) l []) as [[tap staged] found]. destruct Hr as [Hasc _].
  rewrite Hf by done. by apply slices_views.
Qed.

Lemma views_mono (typed typed' : Str -> Prop) l :
  (forall c, typed c -> typed' c) -> views typed l -> views typed' l.
Proof. 
  intros Ht [Hi Hc Hte Ho Hu Hs Hp]. split; try done.
  - intros b c Hb Hin. destruct (Hc b c Hb Hin); auto.
  - intros b Hb. destruct (Hte b Hb) as [|(c & ? & ?)]; eauto.
Qed.

Lemma run_for_views typed c e :
  typed c -> views typed (blocks e) -> views typed (blocks (run_block_for_conversation c e).1).
Proof.
  intros Hty Hv. pose proof Hv as [Hi Hc Ht Ho Hu Hs Hp]. unfold run_block_for_conversation.
  pose proof (BlockProps.inv_active _ Hi) as (a & Ha & Hk & _). rewrite Ha.
  case_bool_decide as Hst; [|done]. simpl.
  pose proof (BlockProps.active_ok _ _ Hi Ha) as Hok.
  assert (Block.owner a = User) as Hown.
  { destruct (decide (Block.owner a = User)) as [|Hn]; [done|].
    pose proof (BlockProps.ok_owner _ Hok Hn) as Hs1. by rewrite Hst in Hs1. }
  pose proof (list_elem_of_lookup_2 _ _ _ Ha) as Hin.
  assert (BlockProps.inv (BlockList.on_block (Block.id a) (Block.set_visibility (visibility_agent c)) (blocks e))) as Hi'.
  { apply BlockProps.on_block_inv; [done..|]. intros b. apply BlockProps.set_visibility_ok. }
  assert (forall b', b' ∈ BlockList.blocks (BlockList.on_block (Block.id a)
      (Block.set_visibility (visibility_agent c)) (blocks e)) ->
    b' ∈ BlockList.blocks (blocks e) \/ b' = Block.set_visibility (visibility_agent c) a) as Hfrom.
  { intros b'. unfold BlockList.on_block.
    destruct (list_find _ _) as [[i b0]|] eqn:Hf; [|by left].
    apply list_find_Some in Hf as (Hi0 & Hid & _). simpl.
    intros [Hb|(b1 & Hb1 & ->)]%BlockProps.elem_alter; [by left|]. right. f_equal.
    apply (BlockProps.same_id (blocks e)); [done..|by eapply list_elem_of_lookup_2|congruence]. }
  assert (BlockList.pending_claim (BlockList.on_block (Block.id a)
    (Block.set_visibility (visibility_agent c)) (blocks e)) = BlockList.pending_claim (blocks e)) as Hpe.
  { unfold BlockList.on_block. by destruct (list_find _ _) as [[]|]. }
  split; [done|..].
  - intros b' c' [Hb| ->]%Hfrom Hcv; [eauto|]. simpl in Hcv. apply elem_of_singleton in Hcv as ->. by right.
  - intros b' [Hb| ->]%Hfrom; [eauto|]. right. exists c. split; [done|]. simpl. set_solver.
  - intros b' c' k [Hb| ->]%Hfrom Hw; [eauto|]. simpl in Hw. congruence.
  - intros b1 b2 c' [H1| ->]%Hfrom [H2| ->]%Hfrom; [by apply Hu| | |done];
      intros C1 C2; unfold Block.conversation_id in *; simpl in *; destruct (Block.kind a); done.
  - intros b' [Hb| ->]%Hfrom Hk'; [eauto|]. simpl in Hk'. congruence.
  - intros cl b' Hcl [Hb| ->]%Hfrom Hid; [|done]. rewrite Hpe in Hcl. eauto.
Qed.

Lemma push_card_views typed c n e :
  views typed (blocks e) -> views typed (blocks (push_agent_view_block c n e).1).
Proof.
  intros Hv. pose proof Hv as [Hi Hc Ht Ho Hu Hs Hp]. unfold push_agent_view_block.
  destruct (list_find _ _) as [[i b0]|] eqn:Hf; [done|]. apply list_find_None in Hf.
  rewrite Forall_forall in Hf. simpl. split; [by apply (BlockProps.card_inv c n)|..]; simpl.
  - intros b c' [Hb|Hb]%elem_of_app; [eauto|]. apply list_elem_of_singleton in Hb as ->.
    simpl. by intros ?%elem_of_empty.
  - intros b [Hb|Hb]%elem_of_app; [eauto|]. apply list_elem_of_singleton in Hb as ->. by left.
  - intros b c' k [Hb|Hb]%elem_of_app; [eauto|]. by apply list_elem_of_singleton in Hb as ->.
  - intros b b' c' [Hb|Hb]%elem_of_app [Hb'|Hb']%elem_of_app C1 C2.
    + by apply (Hu b b' c').
    + apply list_elem_of_singleton in Hb' as ->. injection C2 as <-. by destruct (Hf b Hb).
    + apply list_elem_of_singleton in Hb as ->. injection C1 as <-. by destruct (Hf b' Hb').
    + apply list_elem_of_singleton in Hb as ->. by apply list_elem_of_singleton in Hb' as ->.
  - intros b [Hb|Hb]%elem_of_app; [eauto|]. by apply list_elem_of_singleton in Hb as ->.
  - intros cl b Hcl [Hb|Hb]%elem_of_app; [eauto|]. by apply list_elem_of_singleton in Hb as ->.
Qed.

Lemma claim_views typed owner e :
  views typed (blocks e) -> views typed (blocks (claim_active_block owner e).1).
Proof.
  intros Hv. pose proof Hv as [Hi Hc Ht Ho Hu Hs Hp]. unfold claim_active_block.
  destruct (BlockList.active_block (blocks e)) as [a|] eqn:Ha; [|done].
  unfold BlockList.claim_next_pre_exec. rewrite Ha, N.eqb_refl. simpl.
  case_bool_decide as Hst; simpl; [|done]. split; try done; [by apply (BlockProps.inv_ext (blocks e))|].
  intros c b [= <-] Hb Hid. simpl in Hid.
  assert (b = a) as -> by (apply (BlockProps.same_id (blocks e)); [done|by eapply list_elem_of_lookup_2|done..]).
  destruct (decide (Block.owner a = User)) as [|Hn]; [done|].
  pose proof (BlockProps.ok_owner _ (BlockProps.active_ok _ _ Hi Ha) Hn) as Hs1. by rewrite Hst in Hs1.
Qed.

Lemma resize_views typed cols lines e :
  views typed (blocks e) -> views typed (blocks (resize cols lines e)).
Proof.
  intros Hv. unfold resize. case_bool_decide; [done|]. simpl.
  apply (views_from _ (fun _ => False) _ (blocks e)); [done|by apply BlockProps.resize_inv, Hv| |done..].
  intros b' (b & -> & Hb)%list_elem_of_fmap. left. by exists b.
Qed.

Definition typed_in (ops : list op) (c : Str) : Prop := RunFor c ∈ ops.

Lemma do_op_views ops e o :
  views (typed_in ops) (blocks e) -> views (typed_in (ops ++ [o])) (blocks (do_op e o)).
Proof.
  intros Hv. apply (views_mono _ (typed_in (ops ++ [o]))) in Hv;
    [|intros c Hc; apply elem_of_app; by left].
  destruct o as [clock bytes|w|c|c n|cols lines|z|p cell]; simpl.
  - by apply feed_call_views.
  - by apply claim_views.
  - apply run_for_views; [|done]. apply elem_of_app. right. by apply list_elem_of_singleton.
  - by apply push_card_views.
  - by apply resize_views.
  - done.
  - unfold pump. destruct (Screen.drain_events (screen e)), (foldl on_screen_event _ _),
      (Screen.drain_queries _). done.
Qed.

Lemma new_views cols lines : views (typed_in []) (blocks (new cols lines)).
Proof.
  split; simpl; [apply BlockProps.new_inv|..].
  - intros b c ->%list_elem_of_singleton. simpl. by intros ?%elem_of_empty.
  - intros b ->%list_elem_of_singleton. by left.
  - by intros b c k ->%list_elem_of_singleton.
  - by intros b b' c ->%list_elem_of_singleton ->%list_elem_of_singleton.
  - by intros b ->%list_elem_of_singleton.
  - done.
Qed.

Lemma run_views cols lines ops : views (typed_in ops) (blocks (run (new cols lines) ops)).
Proof.
  induction ops as [|o ops IH] using rev_ind; [apply new_views|].
  unfold run. rewrite foldl_app. by apply do_op_views.
Qed.

(** Conversations do not see each other or the terminal.  In every history of a pane, a
    block is drawn in a conversation's agent view only if an agent ran it for that very
    conversation or a command was typed in that conversation; an agent's command is always
    drawn in its own conversation's view; a block is missing from the terminal's view only
    when it was typed in a conversation, which draws it; and a conversation's card is drawn
    in the terminal and in no agent view. *)
Theorem agent_views_are_exact cols lines ops b c :
  let shown v := BlockList.shown_in v b = true in
  b ∈ BlockList.blocks (blocks (run (new cols lines) ops)) ->
  (shown (AgentConversation c) -> (exists k, Block.owner b = Agent c k) \/ RunFor c ∈ ops) /\
  (forall k, Block.owner b = Agent c k -> shown (AgentConversation c)) /\
  (~ shown TerminalView -> exists c', RunFor c' ∈ ops /\ shown (AgentConversation c')) /\
  (is_shell (Block.kind b) = false -> shown TerminalView /\ ~ shown (AgentConversation c)).
Proof.
  intros shown Hb. subst shown. simpl.
  destruct (run_views cols lines ops) as [Hi Hc Ht Ho Hu Hs _].
  pose proof (BlockProps.core_blocks _ (BlockProps.inv_core _ Hi)) as Hok.
  rewrite Forall_forall in Hok. specialize (Hok _ Hb).
  assert (forall c', (negb (bool_decide (Block.conversation_id b = Some c'))
            && is_in_conversation (Block.visibility b) c' = true)
    <-> is_shell (Block.kind b) = true /\ c' ∈ conversations (Block.visibility b)) as Hshown.
  { intros c'. unfold is_in_conversation, Block.conversation_id.
    rewrite andb_true_iff, negb_true_iff, bool_decide_eq_false, bool_decide_eq_true.
    split; [|intros [Hk Hin]; by destruct (Block.kind b)].
    intros [Hn Hin]. split; [|done]. destruct (Block.kind b) eqn:Hk; [done|].
    exfalso. rewrite (Hs b Hb) in Hin by (by rewrite Hk). by apply elem_of_empty in Hin. }
  split_and!.
  - intros [_ Hin]%Hshown. by apply Hc.
  - intros k Hw. destruct (Ho _ _ _ Hb Hw) as [Hin|[]]. apply Hshown. split; [|done].
    destruct (is_shell (Block.kind b)) eqn:Hk; [done|]. destruct (BlockProps.ok_card _ Hok Hk). congruence.
  - intros Hn. destruct (Ht _ Hb) as [|(c' & Hty & Hin)]; [done|]. exists c'. split; [done|].
    apply Hshown. split; [|done]. destruct (is_shell (Block.kind b)) eqn:Hk; [done|].
    rewrite (Hs b Hb Hk) in Hin. by apply elem_of_empty in Hin.
  - intros Hk. rewrite (Hs b Hb Hk). split; [done|]. intros Hn. apply andb_true_iff in Hn as [_ Hn]. unfold is_in_conversation in Hn.
    apply bool_decide_eq_true in Hn. by apply elem_of_empty in Hn.
Qed.

(** One conversation leaves one card: in every history of a pane there are never two
    cards of the same conversation; asking for a conversation's card gives the block that
    is its card; and asking again gives the same one and changes nothing. *)
Theorem one_card_per_conversation cols lines ops c n n' :
  let e := run (new cols lines) ops in
  (forall b b', b ∈ BlockList.blocks (blocks e) -> b' ∈ BlockList.blocks (blocks e) ->
     Block.conversation_id b = Some c -> Block.conversation_id b' = Some c -> b = b') /\
  let '(e1, id) := push_agent_view_block c n e in
  (exists b, b ∈ BlockList.blocks (blocks e1) /\ Block.id b = id /\ Block.conversation_id b = Some c) /\
  push_agent_view_block c n' e1 = (e1, id).
Proof.
  intros e. pose proof (run_views cols lines ops) as [Hi Hc Ht Ho Hu Hs _]. fold e in Hi, Hu. split.
  { intros b b' Hb Hb' C1 C2. symmetry. apply (BlockProps.same_id (blocks e)); [done..|]. by apply (Hu b' b c). }
  unfold push_agent_view_block at 1.
  destruct (list_find _ (BlockList.blocks (blocks e))) as [[i b0]|] eqn:Hf.
  - pose proof Hf as (Hb0 & Hc0 & _)%list_find_Some. split.
    + exists b0. split_and!; [by eapply list_elem_of_lookup_2|done..].
    + unfold push_agent_view_block. by rewrite Hf.
  - simpl. split.
    + eexists. split_and!; [apply elem_of_app; right; by apply list_elem_of_singleton|done..].
    + unfold push_agent_view_block. simpl. rewrite list_find_app_r by done. simpl.
      by rewrite decide_True.
Qed.

(** ** Answers *)

Definition event_bytes (event : Screen.ScreenEvent) : Bytes :=
  match event with Screen.PtyWrite text => as_bytes text | _ => [] end.
Definition handed_on (event : Screen.ScreenEvent) : bool :=
  match event with Screen.PtyWrite _ | Screen.QueryPending => false | _ => true end.
Definition answer_bytes (e : t) (palette : Palette.t) (cell : N * N) (q : Screen.ScreenQuery) : Bytes :=
  match answer e palette cell q with Some reply => as_bytes reply | None => [] end.

Lemma screen_events_eq r evs l :
  foldl on_screen_event (r, evs) l
  = (r ++ (l ≫= event_bytes), evs ++ base.filter (fun x => handed_on x = true) l).
Proof.
  revert r evs. induction l as [|x l IH]; intros r evs; [by rewrite !app_nil_r|].
  rewrite bind_cons, filter_cons. cbn [foldl].
  destruct x; simpl; rewrite IH; simpl; by rewrite <- ?(assoc_L (++)).
Qed.

Lemma answers_eq e palette cell r l :
  foldl (fun r q => match answer e palette cell q with Some reply => r ++ as_bytes reply | None => r end) r l
  = r ++ (l ≫= answer_bytes e palette cell).
Proof.
  revert r. induction l as [|q l IH]; intros r; [by rewrite app_nil_r|].
  rewrite bind_cons. cbn [foldl]. rewrite IH. unfold answer_bytes at 2.
  destruct (answer e palette cell q); simpl; by rewrite <- ?(assoc_L (++)).
Qed.

(** Pumping a pane empties both queues of its screen: what the screen wants written goes
    to the replies in order, then the answers in the order of the questions; every other
    event is handed to the caller, in order.  Every question is answered, the text area
    with the pane's size and the caller's cell and the clipboard with nothing, but for the
    colours past the table of 256: the foreground, background and cursor a program asks
    for by number 256, 257 and 258 get no answer. *)
Theorem pump_answers palette cell e :
  let q := Screen.listener (screen e) in
  let '(e', events) := pump palette cell e in
  Screen.listener (screen e') = Screen.mkQueues [] [] /\
  replies e' = replies e ++ (Screen.queue q ≫= event_bytes)
                 ++ (Screen.queries q ≫= answer_bytes e palette cell) /\
  events = base.filter (fun x => handed_on x = true) (Screen.queue q) /\
  (forall question, answer e palette cell question = None <->
     exists index fmt, question = Screen.ColorRequest index fmt /\ (256 <= index)%N) /\
  (forall index fmt, (index < 256)%N ->
     answer e palette cell (Screen.ColorRequest index fmt) = Some (fmt (Palette.indexed palette index))).
Proof.
  intros q. unfold pump, Screen.drain_events, Screen.drain_queries. rewrite screen_events_eq. simpl.
  split_and!; [done| |done|..].
  - rewrite answers_eq. by rewrite <- (assoc_L (++)).
  - intros question. destruct question as [fmt|index fmt|fmt]; unfold answer; simpl;
      [split; [done|naive_solver]| |split; [done|naive_solver]].
    unfold to_u8. destruct (N.ltb_spec index 256) as [Hlt|Hge].
    + rewrite N.eqb_refl. split; [done|]. intros (i & f & [= <- <-] & Hi). lia.
    + destruct (N.eqb_spec index 255); [lia|]. split; [eauto|done].
  - intros index fmt Hlt. unfold answer. simpl. unfold to_u8.
    by rewrite (proj2 (N.ltb_lt _ _) Hlt), N.eqb_refl.
Qed.

(** ** A tool call, from the claim to its result *)

Section codec.
Context {HL : HookTap.HookCodecLaws H}.

Lemma tap_ground d n l l' :
  HookTap.tap_ordered (HookTap.mk HookTap.Ground d) (l ++ l') n
  = (let '(s1, out1, h1) := HookTap.tap_ordered (HookTap.mk HookTap.Ground d) l n in
     let '(s2, out2, h2) := HookTap.tap_ordered s1 l' out1 in (s2, out2, h1 ++ h2)).
Proof. apply HookProps.tap_ordered_app. Qed.

(** The stream of one command: the hook that starts it, what it prints, and the hook that
    reports its exit code. *)
Definition command_stream (cmd : option Str) (body : Bytes) (code : HookTap.CommandFinishedValue) : Bytes :=
  HookTap.encode_hook (HookTap.Preexec (HookTap.mkPreexec cmd)) ++ body
    ++ HookTap.encode_hook (HookTap.CommandFinished code).

Lemma command_stream_tap d cmd body code :
  2 * length (HookTap.hook_to_json (HookTap.Preexec (HookTap.mkPreexec cmd))) < HookTap.MAX_BODY ->
  2 * length (HookTap.hook_to_json (HookTap.CommandFinished code)) < HookTap.MAX_BODY ->
  HookProps.foreign body ->
  HookTap.tap_ordered (HookTap.mk HookTap.Ground d) (command_stream cmd body code) []
  = (HookTap.mk HookTap.Ground d, body,
     [(0, HookTap.Preexec (HookTap.mkPreexec cmd)); (length body, HookTap.CommandFinished code)]).
Proof.
  intros H1 H2 Hb. unfold command_stream.
  rewrite tap_ground, HookProps.tap_envelope by done. rewrite tap_ground.
  unfold HookTap.tap_ordered at 1. rewrite HookProps.scan_foreign by done. simpl.
  by rewrite HookProps.tap_envelope.
Qed.

Lemma associate_active l id b :
  BlockList.active_block l = Some b ->
  exists v, BlockList.active_block (associate_owner l id) = Some (Block.set_visibility v b).
Proof.
  intros Hb. assert (Block.set_visibility (Block.visibility b) b = b) as Heta by (by destruct b).
  unfold associate_owner, BlockList.associate_with_conversation, BlockList.on_block.
  destruct (Block.owner <$> BlockList.get l id) as [[|c k]|]; [by exists (Block.visibility b); rewrite Heta| |
    by exists (Block.visibility b); rewrite Heta].
  destruct (list_find _ _) as [[i b0]|]; [|by exists (Block.visibility b); rewrite Heta].
  unfold BlockList.active_block in *. simpl. destruct (decide (i = BlockList.active l)) as [->|Hi].
  - rewrite list_lookup_alter_eq, Hb. by eexists.
  - rewrite list_lookup_alter_ne by done. exists (Block.visibility b). by rewrite Heta.
Qed.

(** A claimed command starts in the active block. *)
Lemma claimed_start now cmd ow l a :
  BlockList.active_block l = Some a -> Block.state a = BeforeExecution ->
  let r := BlockList.apply now (HookTap.Preexec (HookTap.mkPreexec cmd))
             (BlockList.set_claim (Some (BlockList.mkClaim (Block.id a) ow)) l) in
  r.2 = [BlockStarted (Block.id a)] /\
  BlockList.active_block r.1 = Some (Block.preexec now (default [] cmd) (Block.set_owner ow a)).
Proof.
  intros Ha Hs. simpl. unfold BlockList.on_preexec.
  match goal with |- context [BlockList.active_block (BlockList.set_claim None ?x)] =>
    change (BlockList.active_block (BlockList.set_claim None x)) with (BlockList.active_block l) end.
  rewrite Ha. simpl. rewrite N.eqb_refl, BlockProps.on_active_compose. split; [done|].
  rewrite BlockProps.active_on_active. unfold BlockList.active_block in *. simpl. by rewrite Ha.
Qed.

(** What an executing block prints. *)
Lemma running_print l b body :
  BlockList.active_block l = Some b -> Block.state b = Executing -> is_shell (Block.kind b) = true ->
  exists b', BlockList.active_block (BlockList.feed body l) = Some b' /\
    Block.id b' = Block.id b /\ Block.owner b' = Block.owner b /\
    Block.command_text b' = Block.command_text b /\
    Block.output_text b' = Screen.join [NEWLINE] (Cells.line_text <$>
      Block.trimmed (Screen.content_lines (Screen.feed (Block.output b) body))).
Proof.
  intros Hb Hs Hk. unfold BlockList.feed. case_bool_decide as Hnil.
  - subst body. exists b. split_and!; [done..|]. unfold Block.output_text, Block.output_lines.
    unfold Screen.content_lines. by rewrite (ScreenProps.eqv_grid _ _ (screen_feed_nil (Block.output b))).
  - rewrite BlockProps.active_on_active, Hb. eexists. split; [done|].
    unfold Block.feed. by rewrite Hk, Hs.
Qed.

Lemma finished_events now code l b conv call :
  BlockList.active_block l = Some b -> Block.owner b = Agent conv call ->
  (BlockList.on_command_finished now code l).2
  = [BlockFinished (Block.id b) code (negb (code =? 0)%Z);
     ToolResultEvent (mkToolResult (Block.id b) conv call (Block.command_text b)
       (Block.output_text b) (Finished code))].
Proof.
  intros Hb Ho. unfold BlockList.on_command_finished. rewrite BlockProps.active_on_active, Hb. simpl.
  unfold BlockList.tool_result.
  change (BlockList.blocks (BlockList.on_active (Block.finish now code) l) !! BlockList.active l)
    with (BlockList.active_block (BlockList.on_active (Block.finish now code) l)).
  rewrite BlockProps.active_on_active, Hb. simpl. by rewrite Ho.
Qed.

(** C5: A tool call, end to end.  At a prompt, with the tap between two hooks, the
    application claims the active block for an agent's call and the shell runs the command.
    The next read of the stream holds the command's two hooks, neither payload over the
    tap's cap, around what the command prints, which holds no hook prefix of ours and does
    not end inside one.  From those bytes the pane reports the start, the exit code and one
    tool result for that conversation and call, whose output is the text the block's screen
    shows of exactly what was printed between the hooks; and the pane's own screen sees
    those bytes and nothing of the hooks. *)
Theorem tool_call_end_to_end d cmd body code conv call clock e a :
  BlockProps.inv (blocks e) -> hooks e = HookTap.mk HookTap.Ground d ->
  BlockList.active_block (blocks e) = Some a -> Block.state a = BeforeExecution ->
  2 * length (HookTap.hook_to_json (HookTap.Preexec (HookTap.mkPreexec cmd))) < HookTap.MAX_BODY ->
  2 * length (HookTap.hook_to_json (HookTap.CommandFinished code)) < HookTap.MAX_BODY ->
  HookProps.foreign body ->
  let '(e1, claimed) := claim_active_block (Agent conv call) e in
  let e2 := feed clock (command_stream cmd body code) e1 in
  claimed = true /\
  block_events e2 = block_events e ++
    [BlockStarted (Block.id a);
     BlockFinished (Block.id a) (HookTap.exit_code code) (negb (HookTap.exit_code code =? 0)%Z);
     ToolResultEvent (mkToolResult (Block.id a) conv call (default [] cmd)
       (Screen.join [NEWLINE] (Cells.line_text <$>
          Block.trimmed (Screen.content_lines (Screen.feed (Block.output a) body))))
       (Finished (HookTap.exit_code code)))] /\
  screen e2 = Screen.feed (screen e) body.
Proof.
  intros Hi Hh Ha Hs H1 H2 Hb.
  pose proof (BlockProps.inv_active _ Hi) as (a' & Ha' & Hk & _). rewrite Ha in Ha'. injection Ha' as <-.
  unfold claim_active_block, BlockList.claim_next_pre_exec. rewrite Ha, N.eqb_refl, Hs. simpl.
  split; [done|]. set (e1 := set_blocks _ e).
  pose proof (feed_slices clock (command_stream cmd body code) e1) as Hf.
  assert (hooks e1 = HookTap.mk HookTap.Ground d) as Hh1 by done. rewrite Hh1 in Hf.
  rewrite (command_stream_tap d cmd body code H1 H2 Hb) in Hf. rewrite Hf by (simpl; lia). clear Hf.
  split; [|done]. simpl. rewrite Nat.sub_0_r, drop_0, take_0, observe_nil.
  rewrite (take_ge body) by lia. unfold apply_hook at 2.
  destruct (claimed_start (clock 0) cmd (Agent conv call) (blocks e) a Ha Hs) as [Hev Hact].
  change (blocks (set_hooks _ e1)) with
    (BlockList.set_claim (Some (BlockList.mkClaim (Block.id a) (Agent conv call))) (blocks e)).
  destruct (BlockList.apply (clock 0) _ _) as [l2 ev2]. simpl in Hev, Hact. subst ev2. simpl.
  destruct (associate_active l2 (Block.id a) _ Hact) as [v Hv].
  destruct (running_print _ _ body Hv) as (b & Hb1 & Hid & How & Htx & Hout);
    [unfold Block.preexec; by case_bool_decide|unfold Block.preexec; by case_bool_decide|].
  pose proof (finished_events (clock 1) (HookTap.exit_code code) _ b conv call Hb1) as Hfin.
  unfold apply_hook. simpl.
  destruct (BlockList.on_command_finished _ _ _) as [l5 ev5]. simpl in *.
  unfold Block.preexec in *. simpl in *. rewrite Hs in *. simpl in *.
  by rewrite Hfin, Hid, Htx, Hout, <- (assoc_L (++)).
Qed.

End codec.

End props.
End EmulatorProps.

(** ** A pane on the small emulator *)

Module EmulatorWitness.
Import Blocks Emulator EmulatorProps HookDemo.
#[local] Existing Instance ImageWitness.demo_codecs.
#[local] Existing Instance VtDemo.demo_vt.
#[local] Existing Instance VtDemo.demo_vt_laws.

Definition clock (k : nat) : Clock := mkClock (N.of_nat k) 1000.

Definition handshake : Bytes :=
  HookTap.encode_hook (HookTap.Bootstrapped (HookTap.mkBootstrapped None))
    ++ HookTap.encode_hook (HookTap.Precmd BlocksWitness.no_precmd).

Definition ready : t := run (new 20 4) [Feed clock handshake].

(** A stream cut in the middle of the handshake. *)
Definition cut_reads : list (Bytes * (nat -> Clock)) :=
  [(take 30 handshake, clock); (drop 30 handshake, clock)].

Lemma emulator_feed_is_bytewise_witness :
  eqv (foldl (fun e r => feed r.2 r.1 e) (new 20 4) cut_reads)
      (foldl (ref_byte (clock 0)) (new 20 4) (concat (fst <$> cut_reads)))
  /\ bootstrapped (foldl (fun e r => feed r.2 r.1 e) (new 20 4) cut_reads) = true.
Proof.
  split; [|vm_compute; reflexivity].
  exact (emulator_feed_is_bytewise (clock 0) cut_reads (new 20 4)).
Defined.

Definition ls_done : HookTap.CommandFinishedValue := HookTap.mkFinished 2 None.

Definition session : list op :=
  [Feed clock handshake; PushCard (lit "chat") (lit "Chat"); Claim (Agent (lit "chat") (lit "k1"));
   Feed clock (command_stream (Some (lit "ls")) (lit "a.txt") ls_done)].

Definition a_block : Block.t := Block.new 0 0 (Screen.mkSize 0 0) Static.
Definition the_block (i : nat) : Block.t := default a_block (BlockList.blocks (blocks (run (new 20 4) session)) !! i).

Lemma agent_views_are_exact_witness :
  BlockList.shown_in (AgentConversation (lit "chat")) (the_block 1) = true /\
  Block.owner (the_block 1) = Agent (lit "chat") (lit "k1").
Proof.
  assert (Block.owner (the_block 1) = Agent (lit "chat") (lit "k1")) as How by (vm_compute; reflexivity).
  split; [|exact How].
  destruct (agent_views_are_exact 20 4 session (the_block 1) (lit "chat")) as (_ & H & _).
  - apply (list_elem_of_lookup_2 _ 1). vm_compute. reflexivity.
  - exact (H _ How).
Defined.

Lemma one_card_per_conversation_witness :
  push_agent_view_block (lit "chat") (lit "again")
    (push_agent_view_block (lit "chat") (lit "Chat") (run (new 20 4) session)).1
  = ((push_agent_view_block (lit "chat") (lit "Chat") (run (new 20 4) session)).1, 3%N).
Proof.
  pose proof (one_card_per_conversation 20 4 session (lit "chat") (lit "Chat") (lit "again")) as [_ H].
  destruct (push_agent_view_block _ (lit "Chat") _) as [e1 id] eqn:He. destruct H as [_ H].
  simpl. assert (id = 3%N) as <-; [|exact H].
  transitivity (snd (push_agent_view_block (lit "chat") (lit "Chat") (run (new 20 4) session))).
  - by rewrite He.
  - vm_compute. reflexivity.
Defined.

Lemma plain_foreign (l : Bytes) : ESC ∉ l -> HookProps.foreign l.
Proof. induction l; [constructor|]. intros [? ?]%not_elem_of_cons. by constructor; auto. Qed.

Definition ready_block : Block.t := default a_block (BlockList.active_block (blocks ready)).

Lemma tool_call_end_to_end_witness :
  block_events (feed clock (command_stream (Some (lit "ls")) (lit "a.txt") ls_done)
                  (claim_active_block (Agent (lit "chat") (lit "k1")) ready).1)
  = block_events ready ++
    [BlockStarted 2; BlockFinished 2 2 true;
     ToolResultEvent (mkToolResult 2 (lit "chat") (lit "k1") (lit "ls") (lit "a.txt") (Finished 2))].
Proof.
  pose proof (tool_call_end_to_end 0 (Some (lit "ls")) (lit "a.txt") ls_done (lit "chat") (lit "k1")
    clock ready ready_block) as H.
  destruct (claim_active_block (Agent (lit "chat") (lit "k1")) ready) as [e1 claimed].
  destruct H as (_ & H & _).
  - exact (vw_inv _ _ _ (run_views 20 4 [Feed clock handshake])).
  - vm_compute. reflexivity.
  - vm_compute. reflexivity.
  - vm_compute. reflexivity.
  - apply HookWitness.short_payload. vm_compute. reflexivity.
  - apply HookWitness.short_payload. vm_compute. reflexivity.
  - by apply plain_foreign, absent.
  - etrans; [exact H|]. vm_compute. reflexivity.
Defined.

(** A pane whose screen wants a report written and a colour answered. *)
Definition asking : t :=
  set_screen (Screen.mk (Screen.grid (screen (new 20 4)))
    (Screen.mkQueues [Screen.PtyWrite (lit "r"); Screen.Bell; Screen.QueryPending]
       [Screen.ColorRequest 1 (fun c => show_N c.1.1)]) (Screen.mkSize 20 4) Image.new
    Image.cache_default false 0 0) (new 20 4).

Lemma pump_answers_witness :
  answer asking Palette.xterm (8, 16)%N (Screen.ColorRequest 1 (fun c => show_N c.1.1)) = Some (lit "205") /\
  replies (pump Palette.xterm (8, 16)%N asking).1 = lit "r205".
Proof.
  pose proof (pump_answers Palette.xterm (8, 16)%N asking) as H.
  destruct (pump Palette.xterm (8, 16)%N asking) as [e' events] eqn:He.
  destruct H as (_ & Hr & _ & _ & Ha). split.
  - exact (Ha 1%N (fun c => show_N c.1.1) eq_refl).
  - etrans; [exact Hr|]. vm_compute. reflexivity.
Defined.

(** A program that asks for the default background, colour 257, is not answered. *)
Lemma default_colours_get_no_reply :
  answer (new 20 4) Palette.xterm (8, 16)%N (Screen.ColorRequest 257 (fun _ => lit "rgb")) = None.
Proof. reflexivity. Qed.

End EmulatorWitness.
