(* ===== verification/TermKeys.v ===== *)
(** * Keys, pastes and the mouse

    [goble-terminal/src/keys.rs] and [mouse.rs]: what a key press, a paste, a change of
    focus or a pointer report writes to the pty, in the legacy xterm encodings.
    A [u8] or [u32] is an [N]; the sums the encoders make stay within a byte, which
    [legacy_mouse_bytes_fit] proves where it is not plain from the literals. *)

From S2P Require Import Prelude Bytes.

Open Scope goble_scope.

Module Keys.

Record Modifiers : Type := mkMods { shift : bool; alt : bool; ctrl : bool }.

#[export] Instance Modifiers_eq_dec : EqDecision Modifiers.
Proof. solve_decision. Defined.

Definition NONE : Modifiers := mkMods false false false.

Definition any (m : Modifiers) : bool := shift m || alt m || ctrl m.

(** [self.shift as u8]. *)
Definition as_u8 (b : bool) : N := if b then 1 else 0.

Definition xterm (m : Modifiers) : N := (1 + as_u8 (shift m) + 2 * as_u8 (alt m) + 4 * as_u8 (ctrl m))%N.

Record TermMode : Type := mkMode {
  app_cursor : bool;
  bracketed_paste : bool;
  focus_reporting : bool;
  mouse_click : bool;
  mouse_drag : bool;
  mouse_motion : bool;
  sgr_mouse : bool;
}.

Definition mode_none : TermMode := mkMode false false false false false false false.

Definition mouse_reported (m : TermMode) : bool := mouse_click m || mouse_drag m || mouse_motion m.

Inductive Key : Type :=
| Char (c : char)
| Enter | Tab | BackTab | Backspace | Escape
| Up | Down | Right | Left | Home | End_ | PageUp | PageDown | Insert | Delete
| Function_ (n : N).

#[export] Instance Key_eq_dec : EqDecision Key.
Proof. solve_decision. Defined.

Definition CSI : Bytes := [ESC; 91%N].
Definition SS3 : Bytes := [ESC; 79%N].

Definition push_number (value : N) : Bytes :=
  (if (100 <=? value)%N then [48 + value / 100]%N else [])
    ++ (if (10 <=? value)%N then [48 + (value / 10) mod 10]%N else [])
    ++ [48 + value mod 10]%N.

Definition push_modifier (m : Modifiers) : Bytes := lit "1;" ++ push_number (xterm m).

Definition cursor_key (code : byte) (m : Modifiers) (mode : TermMode) : Bytes :=
  if any m then CSI ++ push_modifier m ++ [code]
  else if app_cursor mode then SS3 ++ [code]
  else CSI ++ [code].

Definition tilde_key (number : N) (m : Modifiers) : Bytes :=
  CSI ++ push_number number ++ (if any m then lit ";" ++ push_number (xterm m) else []) ++ lit "~".

(** The numbers of [F5] to [F20]. *)
Definition function_number (n : N) : N :=
  match n with
  | 5 => 15 | 6 => 17 | 7 => 18 | 8 => 19 | 9 => 20 | 10 => 21 | 11 => 23 | 12 => 24
  | 13 => 25 | 14 => 26 | 15 => 28 | 16 => 29 | 17 => 31 | 18 => 32 | 19 => 33 | _ => 34
  end%N.

Definition function_key (n : N) (m : Modifiers) : Bytes :=
  if in_range 1 4 n then
    let code := (80 + (n - 1))%N in
    if any m then CSI ++ push_modifier m ++ [code] else SS3 ++ [code]
  else if in_range 5 20 n then tilde_key (function_number n) m
  else [].

Definition to_ascii_uppercase (c : char) : char := if is_ascii_lowercase c then (c - 32)%N else c.

(** The C0 control of Ctrl and a character. *)
Definition c0_for (c : char) : option byte :=
  let upper := to_ascii_uppercase c in
  if is_ascii_uppercase upper then Some (upper - 65 + 1)%N
  else if one_of upper "@ " then Some 0%N
  else if (upper =? 91)%N then Some 27%N
  else if (upper =? 92)%N then Some 28%N
  else if (upper =? 93)%N then Some 29%N
  else if (upper =? 94)%N then Some 30%N
  else if (upper =? 95)%N then Some 31%N
  else if (upper =? 63)%N then Some 127%N
  else None.

Definition esc_if (b : bool) : Bytes := if b then [ESC] else [].

Definition encode_char (c : char) (m : Modifiers) : Bytes :=
  match (if ctrl m && negb (alt m) && negb (shift m) then c0_for c else None) with
  | Some b => [b]
  | None => esc_if (alt m) ++ encode_utf8 c
  end.

(** [KeyEncoder::encode]. *)
Definition encode (key : Key) (m : Modifiers) (mode : TermMode) : Bytes :=
  match key with
  | Char c => encode_char c m
  | Enter => esc_if (alt m) ++ [13%N]
  | Escape => ESC :: esc_if (alt m)
  | Backspace => esc_if (alt m) ++ [127%N]
  | Tab => if shift m then CSI ++ lit "Z" else esc_if (alt m) ++ [9%N]
  | BackTab => CSI ++ lit "Z"
  | Up => cursor_key 65 m mode
  | Down => cursor_key 66 m mode
  | Right => cursor_key 67 m mode
  | Left => cursor_key 68 m mode
  | Home => cursor_key 72 m mode
  | End_ => cursor_key 70 m mode
  | PageUp => tilde_key 5 m
  | PageDown => tilde_key 6 m
  | Insert => tilde_key 2 m
  | Delete => tilde_key 3 m
  | Function_ n => function_key n m
  end.

(** [KeyEncoder::focus]. *)
Definition focus (gained : bool) (mode : TermMode) : option Bytes :=
  if negb (focus_reporting mode) then None
  else Some (if gained then CSI ++ lit "I" else CSI ++ lit "O").

(** [str::replace("\r\n", "\r")] and the two replacements of one character. *)
Fixpoint replace_crlf (s : Str) : Str :=
  match s with
  | c :: ((d :: s'') as s') =>
      if (c =? 13)%N && (d =? 10)%N then 13%N :: replace_crlf s'' else c :: replace_crlf s'
  | _ => s
  end.
Definition replace_lf (s : Str) : Str := (fun c => if (c =? NEWLINE)%N then 13%N else c) <$> s.
Definition drop_escapes (s : Str) : Str := base.filter (fun c => c <> ESC) s.

Definition PASTE_START : Bytes := CSI ++ lit "200~".
Definition PASTE_END : Bytes := CSI ++ lit "201~".

(** [KeyEncoder::paste]. *)
Definition paste (text : Str) (mode : TermMode) : Bytes :=
  if bracketed_paste mode then PASTE_START ++ as_bytes (drop_escapes text) ++ PASTE_END
  else as_bytes (replace_lf (replace_crlf text)).

End Keys.

(** ** The mouse *)

Module Mouse.
Import Keys.

Inductive MouseButton : Type := LeftButton | MiddleButton | RightButton.

#[export] Instance MouseButton_eq_dec : EqDecision MouseButton.
Proof. solve_decision. Defined.

Inductive MouseAction : Type :=
| Press (b : MouseButton)
| Release (b : MouseButton)
| Drag (b : MouseButton)
| Move
| WheelUp
| WheelDown.

#[export] Instance MouseAction_eq_dec : EqDecision MouseAction.
Proof. solve_decision. Defined.

Definition code (a : MouseAction) : N :=
  match a with
  | Press b | Release b | Drag b =>
      match b with LeftButton => 0 | MiddleButton => 1 | RightButton => 2 end
  | Move => 3
  | WheelUp => 64
  | WheelDown => 65
  end%N.

Definition is_release (a : MouseAction) : bool := match a with Release _ => true | _ => false end.
Definition is_motion (a : MouseAction) : bool := match a with Drag _ | Move => true | _ => false end.

Definition LEGACY_MAX : N := 223.

Definition allowed (a : MouseAction) (mode : TermMode) : bool :=
  if negb (mouse_reported mode) then false
  else match a with
       | Move => mouse_motion mode
       | Drag _ => mouse_drag mode || mouse_motion mode
       | Press _ | Release _ | WheelUp | WheelDown => true
       end.

(** [mouse.rs]'s own [push_number], of a [u32]. *)
Definition push_number (value : N) : Bytes :=
  (if (1000 <=? value)%N then [48 + (value / 1000) mod 10]%N else [])
    ++ (if (100 <=? value)%N then [48 + (value / 100) mod 10]%N else [])
    ++ (if (10 <=? value)%N then [48 + (value / 10) mod 10]%N else [])
    ++ [48 + value mod 10]%N.

(** The button code with the motion and modifier bits. *)
Definition full_code (a : MouseAction) (m : Modifiers) : N :=
  (code a + (if is_motion a then 32 else 0) + (if shift m then 4 else 0)
     + (if alt m then 8 else 0) + (if ctrl m then 16 else 0))%N.

Definition as_u32 (n : N) : N := (n mod 4294967296)%N.

(** [encode_mouse]. *)
Definition encode_mouse (a : MouseAction) (column line : N) (m : Modifiers) (mode : TermMode)
    : option Bytes :=
  if negb (allowed a mode) then None
  else
    let code := full_code a m in
    let column := (column + 1)%N in
    let line := (line + 1)%N in
    if sgr_mouse mode then
      Some (CSI ++ lit "<" ++ push_number code ++ lit ";" ++ push_number (as_u32 column) ++ lit ";"
              ++ push_number (as_u32 line) ++ (if is_release a then lit "m" else lit "M"))
    else
      let legacy_code := if is_release a then 3%N else code in
      Some (CSI ++ lit "M" ++ [32 + legacy_code; 32 + N.min column LEGACY_MAX;
                               32 + N.min line LEGACY_MAX]%N).

End Mouse.

(** ** The program's end of the wire

    How an application reads what the encoders write: the xterm forms of the special keys
    and the SGR form of a pointer report. *)

Module Reader.
Import Keys Mouse.

(** Decimal digits at the head. *)
Fixpoint digits (acc : N) (l : Bytes) : N * Bytes :=
  match l with
  | b :: l' => if in_range 48 57 b then digits (acc * 10 + (b - 48))%N l' else (acc, l)
  | [] => (acc, [])
  end.

Definition final_key (b : byte) : option Key :=
  match b with
  | 65 => Some Up | 66 => Some Down | 67 => Some Right | 68 => Some Left
  | 72 => Some Home | 70 => Some End_
  | 80 => Some (Function_ 1) | 81 => Some (Function_ 2)
  | 82 => Some (Function_ 3) | 83 => Some (Function_ 4)
  | _ => None
  end%N.

Definition number_key (n : N) : option Key :=
  match n with
  | 2 => Some Insert | 3 => Some Delete | 5 => Some PageUp | 6 => Some PageDown
  | 15 => Some (Function_ 5) | 17 => Some (Function_ 6) | 18 => Some (Function_ 7)
  | 19 => Some (Function_ 8) | 20 => Some (Function_ 9) | 21 => Some (Function_ 10)
  | 23 => Some (Function_ 11) | 24 => Some (Function_ 12) | 25 => Some (Function_ 13)
  | 26 => Some (Function_ 14) | 28 => Some (Function_ 15) | 29 => Some (Function_ 16)
  | 31 => Some (Function_ 17) | 32 => Some (Function_ 18) | 33 => Some (Function_ 19)
  | 34 => Some (Function_ 20)
  | _ => None
  end%N.

Definition mods_of (parameter : N) : Modifiers :=
  let bits := (parameter - 1)%N in
  mkMods (N.testbit bits 0) (N.testbit bits 1) (N.testbit bits 2).

(** The key a final byte ends, after a first parameter. *)
Definition finish_key (n : N) (m : Modifiers) (final : Bytes) : option (Key * Modifiers) :=
  match final with
  | [b] => key ← (if (b =? 126)%N then number_key n else if (n =? 1)%N then final_key b else None);
           Some (key, m)
  | _ => None
  end.

Definition read_key (l : Bytes) : option (Key * Modifiers) :=
  match l with
  | [e; o; b] =>
      if (e =? ESC)%N && ((o =? 79)%N || (o =? 91)%N) then key ← final_key b; Some (key, NONE) else None
  | e :: o :: rest =>
      if (e =? ESC)%N && (o =? 91)%N then
        let '(n, rest) := digits 0 rest in
        match rest with
        | s :: rest' =>
            if (s =? 59)%N then let '(k, rest') := digits 0 rest' in finish_key n (mods_of k) rest'
            else finish_key n NONE rest
        | [] => None
        end
      else None
  | _ => None
  end.

Definition button_of (n : N) : MouseButton :=
  match n with 0 => LeftButton | 1 => MiddleButton | _ => RightButton end%N.

(** The action and the modifiers of an SGR button code. *)
Definition action_of (n : N) (release : bool) : MouseAction :=
  let button := (n mod 4)%N in
  if N.testbit n 6 then (if (button =? 0)%N then WheelUp else WheelDown)
  else if N.testbit n 5 then (if (button =? 3)%N then Move else Drag (button_of button))
  else if release then Release (button_of button) else Press (button_of button).

Definition read_sgr (l : Bytes) : option (MouseAction * Modifiers * N * N) :=
  match l with
  | e :: o :: lt :: rest =>
      if (e =? ESC)%N && (o =? 91)%N && (lt =? 60)%N then
        match digits 0 rest with
        | (n, s1 :: rest) =>
            match digits 0 rest with
            | (column, s2 :: rest) =>
                match digits 0 rest with
                | (line, [final]) =>
                    if (s1 =? 59)%N && (s2 =? 59)%N && ((final =? 77)%N || (final =? 109)%N) then
                      Some (action_of n (final =? 109)%N,
                            mkMods (N.testbit n 2) (N.testbit n 3) (N.testbit n 4),
                            (column - 1)%N, (line - 1)%N)
                    else None
                | _ => None
                end
            | _ => None
            end
        | _ => None
        end
      else None
  | _ => None
  end.

End Reader.

Module KeyProps.
Import Keys Mouse Reader.

(** The keys with a sequence of their own. *)
Definition special (key : Key) : bool :=
  match key with
  | Up | Down | Right | Left | Home | End_ | PageUp | PageDown | Insert | Delete => true
  | Function_ n => in_range 1 20 n
  | _ => false
  end.

Definition all_mods : list Modifiers :=
  s ← [false; true]; a ← [false; true]; c ← [false; true]; [mkMods s a c].

Lemma all_mods_spec m : m ∈ all_mods.
Proof. destruct m as [[] [] []]; apply (bool_decide_unpack _); vm_compute; exact I. Qed.

Definition function_keys : list N := N.of_nat <$> seq 1 20.

Lemma function_keys_spec n : in_range 1 20 n = true -> n ∈ function_keys.
Proof.
  unfold in_range. intros H. apply andb_true_iff in H as [H1%N.leb_le H2%N.leb_le].
  apply list_elem_of_fmap. exists (N.to_nat n). rewrite elem_of_seq. lia.
Qed.

Lemma function_keys_read :
  Forall (fun n => Forall (fun m => read_key (function_key n m) = Some (Function_ n, m)) all_mods)
    function_keys.
Proof. apply (bool_decide_unpack _). vm_compute. exact I. Qed.

(** Special keys are never confused: for each of the cursor, editing and function keys
    [F1] to [F20], under any modifiers and in either cursor mode, the program reads back
    exactly the key and the modifiers that were pressed. *)
Theorem special_key_roundtrip key m mode :
  special key = true -> read_key (encode key m mode) = Some (key, m).
Proof.
  intros Hk. destruct key; try done; simpl encode;
    try (destruct m as [[] [] []]; unfold cursor_key; simpl; by destruct (app_cursor mode)).
  pose proof function_keys_read as H. rewrite Forall_forall in H.
  specialize (H n (function_keys_spec n Hk)). rewrite Forall_forall in H. apply H, all_mods_spec.
Qed.

(** ** Pastes *)

(** A character below 128 is in no other character's bytes. *)
Lemma utf8_small b c : (b < 128)%N -> b ∈ encode_utf8 c -> c = b.
Proof.
  intros Hb. unfold encode_utf8.
  destruct (N.ltb_spec c 128), (N.ltb_spec c 2048), (N.ltb_spec c 65536);
    rewrite ?elem_of_cons, elem_of_nil; intuition;
    match goal with Hx : b = (_ + ?x)%N |- _ => generalize dependent x end; intros; lia.
Qed.

Lemma paste_body_no_escape text : ESC ∉ as_bytes (drop_escapes text).
Proof.
  unfold as_bytes. intros (c & Hb & Hc)%list_elem_of_bind. apply list_elem_of_filter in Hc as [Hc _].
  by apply (utf8_small ESC) in Hb.
Qed.

Lemma replace_crlf_id s : 13%N ∉ s -> replace_crlf s = s.
Proof.
  induction s as [|c s IH]; [done|]. intros [Hc Hs]%not_elem_of_cons. destruct s as [|d s]; [done|].
  simpl. rewrite (proj2 (N.eqb_neq c 13)) by congruence. simpl. f_equal. by apply IH.
Qed.

(** The closing bracket, where the body has no escape. *)
Lemma only_end body p q :
  ESC ∉ body -> PASTE_START ++ body ++ PASTE_END = p ++ PASTE_END ++ q -> q = [].
Proof.
  intros Hb Heq.
  assert ((PASTE_START ++ body ++ PASTE_END) !! length p = Some ESC) as Hat.
  { rewrite Heq, lookup_app_r, Nat.sub_diag by done. done. }
  assert (length p <> 0) as Hp.
  { intros Hp. apply nil_length_inv in Hp. subst p. simpl in Heq. discriminate. }
  destruct (decide (length p < length PASTE_START)) as [Hs|Hs].
  { rewrite lookup_app_l in Hat by done. revert Hs Hat Hp. generalize (length p). clear.
    intros n Hs Hat Hp. simpl in Hs. do 6 (destruct n as [|n]; [done|]). lia. }
  destruct (decide (length p < length PASTE_START + length body)) as [Hl|Hl].
  { rewrite lookup_app_r, lookup_app_l in Hat by lia. destruct Hb. by eapply list_elem_of_lookup_2. }
  apply (f_equal length) in Heq. rewrite !length_app in Heq. destruct q; [done|]. simpl in *. lia.
Qed.

(** A paste stays a paste.  Bracketed, the text travels between the two brackets without
    its escape characters, so that the closing bracket is found at the end and nowhere
    before, and is otherwise what was copied.  Unbracketed, no line feed reaches the shell,
    and a text that has no line ends is sent unchanged. *)
Theorem paste_is_contained text mode :
  (bracketed_paste mode = true ->
     (exists body, paste text mode = PASTE_START ++ body ++ PASTE_END /\ (ESC ∉ body) /\
        (Forall (fun c => is_scalar c = true) text -> from_utf8 body = Some (drop_escapes text))) /\
     forall p q, paste text mode = p ++ PASTE_END ++ q -> q = []) /\
  (bracketed_paste mode = false ->
     (NEWLINE ∉ paste text mode) /\
     ((NEWLINE ∉ text) -> (13%N ∉ text) -> paste text mode = as_bytes text)).
Proof.
  unfold paste. split; intros ->.
  - split.
    + exists (as_bytes (drop_escapes text)). split_and!; [done|apply paste_body_no_escape|].
      intros Ht. apply from_utf8_as_bytes, Forall_forall. intros c [_ Hc]%list_elem_of_filter.
      rewrite Forall_forall in Ht. auto.
    + intros p q. apply only_end, paste_body_no_escape.
  - split.
    + unfold as_bytes. intros (c & Hb & Hc)%list_elem_of_bind.
      apply (utf8_small NEWLINE) in Hb as ->; [|done].
      apply list_elem_of_fmap in Hc as (d & Hd & _). revert Hd.
      destruct (N.eqb_spec d NEWLINE); [discriminate|congruence].
    + intros Hn Hr. f_equal. rewrite replace_crlf_id by done. unfold replace_lf.
      rewrite <- (list_fmap_id text) at 2. apply list_fmap_ext. intros i c Hc. simpl.
      destruct (N.eqb_spec c NEWLINE) as [->|]; [|done].
      destruct Hn. by eapply list_elem_of_lookup_2.
Qed.

(** ** Pointer reports *)

Lemma digits_step acc b l : in_range 48 57 b = true -> digits acc (b :: l) = digits (acc * 10 + (b - 48)) l.
Proof. intros Hb. simpl. by rewrite Hb. Qed.

Lemma digit_in_range d : (d < 10)%N -> in_range 48 57 (48 + d) = true.
Proof. intros Hd. unfold in_range. decide_tests. Qed.

Lemma base10_digits v :
  (v < 10000)%N ->
  exists d3 d2 d1 d0, (d0 < 10 /\ d1 < 10 /\ d2 < 10 /\ d3 < 10)%N /\
    v = (d3 * 1000 + d2 * 100 + d1 * 10 + d0)%N /\
    (v mod 10 = d0)%N /\ ((v / 10) mod 10 = d1)%N /\ ((v / 100) mod 10 = d2)%N /\
    ((v / 1000) mod 10 = d3)%N.
Proof.
  intros Hv. exists ((v / 1000) mod 10)%N, ((v / 100) mod 10)%N, ((v / 10) mod 10)%N, (v mod 10)%N.
  assert (v / 100 = v / 10 / 10)%N as H1 by (rewrite N.Div0.div_div; done).
  assert (v / 1000 = v / 10 / 10 / 10)%N as H2 by (rewrite !N.Div0.div_div; done).
  rewrite H1, H2.
  pose proof (N.div_mod v 10 ltac:(done)). pose proof (N.div_mod (v / 10) 10 ltac:(done)).
  pose proof (N.div_mod (v / 10 / 10) 10 ltac:(done)). pose proof (N.div_mod (v / 10 / 10 / 10) 10 ltac:(done)).
  pose proof (N.mod_lt v 10 ltac:(done)). pose proof (N.mod_lt (v / 10) 10 ltac:(done)).
  pose proof (N.mod_lt (v / 10 / 10) 10 ltac:(done)). pose proof (N.mod_lt (v / 10 / 10 / 10) 10 ltac:(done)).
  clear H1 H2. generalize dependent ((v / 10 / 10 / 10) mod 10)%N.
  generalize dependent (v / 10 / 10 / 10 / 10)%N.
  generalize dependent (v / 10 / 10 / 10)%N. generalize dependent ((v / 10 / 10) mod 10)%N.
  generalize dependent (v / 10 / 10)%N. generalize dependent ((v / 10) mod 10)%N.
  generalize dependent (v / 10)%N. generalize dependent (v mod 10)%N.
  intros. repeat split; lia.
Qed.

(** A number below ten thousand is read back, up to the byte after it. *)
Lemma digits_push_number v b l :
  (v < 10000)%N -> in_range 48 57 b = false ->
  digits 0 (Mouse.push_number v ++ b :: l) = (v, b :: l).
Proof.
  intros Hv Hb. unfold Mouse.push_number.
  destruct (base10_digits v Hv) as (d3 & d2 & d1 & d0 & (? & ? & ? & ?) & Hsum & -> & -> & -> & ->).
  assert (forall acc, digits acc (b :: l) = (acc, b :: l)) as Hend by (intros acc; simpl; by rewrite Hb).
  destruct (N.leb_spec 1000 v), (N.leb_spec 100 v), (N.leb_spec 10 v); try lia; simpl app;
    repeat (rewrite digits_step by (by apply digit_in_range)); rewrite Hend; f_equal; lia.
Qed.

Lemma full_code_bound a m : (full_code a m <= 93)%N.
Proof. by destruct m as [[] [] []], a as [[]|[]|[]| | |]; vm_compute. Qed.

Lemma full_code_read a m :
  action_of (full_code a m) (is_release a) = a /\
  mkMods (N.testbit (full_code a m) 2) (N.testbit (full_code a m) 3) (N.testbit (full_code a m) 4) = m.
Proof. by destruct m as [[] [] []], a as [[]|[]|[]| | |]. Qed.

(** A pointer report in the SGR form says what happened: the program reads back the
    action with its button, the modifiers and the cell, for every action the negotiated mode
    asks for and every cell of a screen of up to 9998 columns and lines; and nothing is
    sent for an action it did not ask for. *)
Theorem sgr_mouse_roundtrip a column line m mode :
  sgr_mouse mode = true -> (column < 9999)%N -> (line < 9999)%N ->
  match encode_mouse a column line m mode with
  | Some report => allowed a mode = true /\ read_sgr report = Some (a, m, column, line)
  | None => allowed a mode = false
  end.
Proof.
  intros Hs Hc Hl. unfold encode_mouse. destruct (allowed a mode); [|done]. rewrite Hs. split; [done|].
  unfold as_u32. rewrite !N.mod_small by lia.
  pose proof (full_code_bound a m). unfold CSI. simpl app. unfold read_sgr. simpl.
  rewrite digits_push_number by (done || lia). cbv beta iota.
  rewrite digits_push_number by (done || lia). cbv beta iota.
  destruct (full_code_read a m) as [Ha Hm].
  destruct (is_release a); rewrite digits_push_number by (done || lia); simpl;
    rewrite Ha, Hm; do 2 f_equal; try (f_equal; lia); lia.
Qed.

(** A legacy report is six bytes that never overflow: the button and each coordinate,
    offset by 32, lie between 32 and 255; coordinates up to 222 are exact and those past it
    all read 222; and a release loses its button. *)
Theorem legacy_mouse_bytes_fit a column line m mode report :
  sgr_mouse mode = false -> encode_mouse a column line m mode = Some report ->
  exists b x y, report = CSI ++ lit "M" ++ [b; x; y] /\
    Forall (fun v => 32 <= v < 256)%N [b; x; y] /\
    (x - 33 = N.min column 222)%N /\ (y - 33 = N.min line 222)%N /\
    (b - 32 = if is_release a then 3 else full_code a m)%N.
Proof.
  intros Hs. unfold encode_mouse. rewrite Hs. destruct (negb (allowed a mode)); [done|].
  intros [= <-]. pose proof (full_code_bound a m). unfold LEGACY_MAX.
  eexists _, _, _. split; [done|]. split_and!; [|lia..|destruct (is_release a); lia].
  repeat constructor; destruct (is_release a); lia.
Qed.

End KeyProps.

Module KeyWitness.
Import Keys Mouse Reader KeyProps.

Lemma special_key_roundtrip_witness :
  read_key (encode (Function_ 12) (mkMods true false true) mode_none) = Some (Function_ 12, mkMods true false true).
Proof. apply special_key_roundtrip. reflexivity. Defined.

Definition sgr_mode : TermMode := mkMode false false false true false false true.
Definition legacy_mode : TermMode := mkMode false false false true false false false.

Lemma sgr_mouse_roundtrip_witness :
  encode_mouse (Release MiddleButton) 119 30 (mkMods false true false) sgr_mode
    = Some (ESC :: lit "[<9;120;31m") /\
  read_sgr (ESC :: lit "[<9;120;31m") = Some (Release MiddleButton, mkMods false true false, 119, 30)%N.
Proof.
  assert (encode_mouse (Release MiddleButton) 119 30 (mkMods false true false) sgr_mode
    = Some (ESC :: lit "[<9;120;31m")) as He by (vm_compute; reflexivity).
  split; [exact He|].
  pose proof (sgr_mouse_roundtrip (Release MiddleButton) 119 30 (mkMods false true false) sgr_mode) as H.
  rewrite He in H. destruct H as [_ H]; [reflexivity..|exact H].
Defined.

Lemma legacy_mouse_bytes_fit_witness :
  exists b x y, CSI ++ lit "M" ++ [35; 255; 38]%N = CSI ++ lit "M" ++ [b; x; y] /\
    Forall (fun v => 32 <= v < 256)%N [b; x; y].
Proof.
  destruct (legacy_mouse_bytes_fit (Release LeftButton) 500 5 NONE legacy_mode
    (CSI ++ lit "M" ++ [35; 255; 38]%N)) as (b & x & y & H1 & H2 & _); [reflexivity..|].
  exists b, x, y. split; [exact H1|exact H2].
Defined.

Definition bracketed_mode : TermMode := mkMode false true false false false false false.

Lemma paste_is_contained_witness :
  (exists body, paste (ESC :: lit "[201~rm") bracketed_mode = PASTE_START ++ body ++ PASTE_END
     /\ (ESC ∉ body) /\ from_utf8 body = Some (lit "[201~rm")) /\
  paste (lit "ls") mode_none = lit "ls".
Proof.
  split.
  - destruct (paste_is_contained (ESC :: lit "[201~rm") bracketed_mode) as [H _].
    destruct (H eq_refl) as [(body & Hp & Hb & Hu) _]. exists body. split; [exact Hp|].
    split; [exact Hb|]. rewrite Hu; [reflexivity|repeat constructor].
  - destruct (paste_is_contained (lit "ls") mode_none) as [_ H].
    destruct (H eq_refl) as [_ Hv]. rewrite Hv; [reflexivity|by apply absent..].
Defined.

(** The SGR form drops the ten thousands: column 9999 is reported as column zero. *)
Lemma sgr_column_wraps :
  encode_mouse (Press LeftButton) 9999 0 NONE sgr_mode = Some (ESC :: lit "[<0;0000;1M").
Proof. reflexivity. Qed.

(** A bracketed paste keeps its line feeds. *)
Lemma bracketed_newline_is_kept :
  paste [NEWLINE] bracketed_mode = PASTE_START ++ [NEWLINE] ++ PASTE_END.
Proof. reflexivity. Qed.

End KeyWitness.
