(* ===== verification/TextDiff.v ===== *)
(** * The diff of a file change

    [Diff] is [goble-core/src/harness/text_diff.rs], which the file tools record a
    change with; [Hunks] is [goble-ui/src/elements/diff/model.rs], which reads the text
    back, and the hunks [tool_body.rs] makes of an edit that recorded none. *)

From S2P Require Import Prelude Bytes Text.

Local Open Scope nat_scope.

(** An [as u32] cast, and an addition on [u32] in a release build. *)
Definition as_u32 (n : nat) : N := (N.of_nat n mod 4294967296)%N.
Definition u32_add (a b : N) : N := ((a + b) mod 4294967296)%N.

Module Diff.
Definition DIFF_CONTEXT : nat := 3.
Definition MAX_TABLE_CELLS : N := 1000000.

Inductive Op : Type := Equal | Remove | Add.
Inductive RowKind : Type := Context | Removed | Added.

#[export] Instance Op_eq_dec : EqDecision Op.
Proof. solve_decision. Defined.
#[export] Instance RowKind_eq_dec : EqDecision RowKind.
Proof. solve_decision. Defined.

Record Row : Type := mkRow {
  kind : RowKind;
  old_line : option N;
  new_line : option N;
  text : Str;
}.

(** The line table of [middle_ops]: row [i], column [j] holds the length of the longest
    common subsequence of the lines from [i] and from [j] on.  Rows are filled from the
    last one up, each from its end. *)
Fixpoint table_row (x : Str) (new : list Str) (below : list nat) : list nat :=
  match new, below with
  | y :: new', b :: below' =>
      let rest := table_row x new' below' in
      (if bool_decide (x = y) then default 0 (head below') + 1
       else b `max` default 0 (head rest)) :: rest
  | _, _ => [0]
  end.

Fixpoint table (old new : list Str) : list (list nat) :=
  match old with
  | [] => [replicate (length new + 1) 0]
  | x :: old' =>
      let rest := table old' new in
      table_row x new (default [] (head rest)) :: rest
  end.

Definition cell (t : list (list nat)) (i j : nat) : nat :=
  default 0 (row ← t !! i; row !! j).

(** The walk through the table, from [i] and [j]: the lines from there on are [old] and
    [new]. *)
Fixpoint walk (t : list (list nat)) (old new : list Str) (i j : nat) {struct old} : list Op :=
  match old with
  | [] => replicate (length new) Add
  | x :: old' =>
      (fix walk_new (new : list Str) (j : nat) {struct new} : list Op :=
         match new with
         | [] => replicate (length old) Remove
         | y :: new' =>
             if bool_decide (x = y) then Equal :: walk t old' new' (S i) (S j)
             else if cell t i (S j) <=? cell t (S i) j then Remove :: walk t old' new (S i) j
             else Add :: walk_new new' (S j)
         end) new j
  end.

Definition middle_ops (old new : list Str) : list Op :=
  if bool_decide (old = []) then replicate (length new) Add
  else if bool_decide (new = []) then replicate (length old) Remove
  else if (MAX_TABLE_CELLS <? usize_saturating_mul (N.of_nat (length old)) (N.of_nat (length new)))%N
  then replicate (length old) Remove ++ replicate (length new) Add
  else walk (table old new) old new 0 0.

(** The loops of [diff_ops]: how many lines the two begin with in common; the second
    loop runs on what the first left, from the ends. *)
Fixpoint common (old new : list Str) : nat :=
  match old, new with
  | x :: old', y :: new' => if bool_decide (x = y) then S (common old' new') else 0
  | _, _ => 0
  end.

Definition diff_ops (old new : list Str) : list Op :=
  let prefix := common old new in
  let old' := drop prefix old in
  let new' := drop prefix new in
  let suffix := common (reverse old') (reverse new') in
  replicate prefix Equal
    ++ middle_ops (take (length old' - suffix) old') (take (length new' - suffix) new')
    ++ replicate suffix Equal.

(** One turn of the loop of [rows]; [None] where an index is out of range. *)
Definition row_of (old new : list Str) (op : Op) (i j : nat) : option (Row * nat * nat) :=
  match op with
  | Equal =>
      l ← old !! i;
      Some (mkRow Context (Some (u32_add (as_u32 i) 1)) (Some (u32_add (as_u32 j) 1)) l, S i, S j)
  | Remove =>
      l ← old !! i; Some (mkRow Removed (Some (u32_add (as_u32 i) 1)) None l, S i, j)
  | Add =>
      l ← new !! j; Some (mkRow Added None (Some (u32_add (as_u32 j) 1)) l, i, S j)
  end.

Fixpoint rows_from (old new : list Str) (ops : list Op) (i j : nat) : option (list Row) :=
  match ops with
  | [] => Some []
  | op :: ops' =>
      '(row, i, j) ← row_of old new op i j;
      rs ← rows_from old new ops' i j;
      Some (row :: rs)
  end.
Definition rows (old new : list Str) (ops : list Op) : option (list Row) := rows_from old new ops 0 0.

(** One turn of the first loop of [render]. *)
Definition push_range (context n : nat) (ranges : list (nat * nat)) (row : nat * Row)
    : list (nat * nat) :=
  let '(index, r) := row in
  if bool_decide (kind r = Context) then ranges
  else
    let start := index - context in
    let stop := (index + context + 1) `min` n in
    match last ranges with
    | Some (_, last_stop) =>
        if start <=? last_stop
        then alter (fun range => (range.1, stop)) (pred (length ranges)) ranges
        else ranges ++ [(start, stop)]
    | None => ranges ++ [(start, stop)]
    end.

Definition ranges (context : nat) (rs : list Row) : list (nat * nat) :=
  foldl (push_range context (length rs)) [] (imap pair rs).

(** [iter().find_map]. *)
Fixpoint find_map {A B} (f : A -> option B) (l : list A) : option B :=
  match l with
  | [] => None
  | x :: l' => match f x with Some y => Some y | None => find_map f l' end
  end.

Definition range_text (start : N) (count : nat) : Str :=
  if bool_decide (count = 1) then show_N start
  else show_N start ++ COMMA :: show_N (N.of_nat count).

(** The range of a hunk on one side: its first line there, or the line it follows, and
    how many lines it has there. *)
Definition side_start (side : Row -> option N) (before range : list Row) : N :=
  default (default 0%N (find_map side (reverse before))) (find_map side range).
Definition side_count (side : Row -> option N) (range : list Row) : nat :=
  length (base.filter (fun r => is_Some (side r)) range).

Definition sign (k : RowKind) : char :=
  match k with Context => 32%N | Removed => 45%N | Added => 43%N end.

Definition row_text (r : Row) : Str := sign (kind r) :: text r ++ [NEWLINE].

Definition hunk_header (before range : list Row) : Str :=
  lit "@@ -" ++ range_text (side_start old_line before range) (side_count old_line range)
  ++ lit " +" ++ range_text (side_start new_line before range) (side_count new_line range)
  ++ lit " @@".

Definition render_range (rs : list Row) (range : nat * nat) : Str :=
  let before := take range.1 rs in
  let body := drop range.1 (take range.2 rs) in
  hunk_header before body ++ [NEWLINE] ++ (body ≫= row_text).

Definition render (rs : list Row) (context : nat) : Str := ranges context rs ≫= render_range rs.

Definition unified_diff_with_context (old new : Str) (context : nat) : option Str :=
  if bool_decide (old = new) then Some []
  else
    let old_lines := str_lines old in
    let new_lines := str_lines new in
    rs ← rows old_lines new_lines (diff_ops old_lines new_lines);
    Some (render rs context).

Definition unified_diff (old new : Str) : option Str := unified_diff_with_context old new DIFF_CONTEXT.
End Diff.

Module Hunks.
Inductive DiffLineKind : Type := Context | Added | Removed.

#[export] Instance DiffLineKind_eq_dec : EqDecision DiffLineKind.
Proof. solve_decision. Defined.

Record DiffLine : Type := mkLine {
  kind : DiffLineKind;
  old_line : option N;
  new_line : option N;
  text : Str;
}.

Record Hunk : Type := mkHunk {
  old_start : N;
  old_count : N;
  new_start : N;
  new_count : N;
  section : Str;
  lines : list DiffLine;
}.

(** [Hunk::count] and what counts with it. *)
Definition count (k : DiffLineKind) (h : Hunk) : nat :=
  length (base.filter (fun l => kind l = k) (lines h)).
Definition added := count Added.
Definition removed := count Removed.
Definition context := count Context.

(** [parse_range]: a third part is not looked at. *)
Definition parse_u32 (s : Str) : option N := parse_unsigned u32_max s.

Definition parse_range (token : Str) : option (N * N) :=
  let token := trim_start_matches (fun c => (c =? MINUS)%N || (c =? PLUS)%N) token in
  match split_on COMMA token with
  | [] => None
  | first :: rest =>
      start ← parse_u32 (trim first);
      count ← match rest with
              | [] => Some 1%N
              | second :: _ => parse_u32 (trim second)
              end;
      Some (start, count)
  end.

Definition MARK : Str := lit "@@".

Definition parse_hunk_header (line : Str) : option Hunk :=
  rest ← strip_prefix MARK line;
  end_ ← find_str rest MARK;
  let section := trim (drop (end_ + 2) rest) in
  match split_whitespace (take end_ rest) with
  | old :: new :: _ =>
      '(old_start, old_count) ← parse_range old;
      '(new_start, new_count) ← parse_range new;
      Some (mkHunk old_start old_count new_start new_count section [])
  | _ => None
  end.

(** The locals of the loop of [parse_unified_diff]. *)
Record State : Type := mkState {
  hunks : list Hunk;
  current : option Hunk;
  consumed_old : N;
  consumed_new : N;
}.

Definition start : State := mkState [] None 0 0.

(** The first byte of a body line tells its kind; any other line is skipped. *)
Definition line_kind (raw : Str) : option (DiffLineKind * Str) :=
  match raw with
  | c :: text =>
      if (c =? 32)%N then Some (Context, text)
      else if (c =? PLUS)%N then Some (Added, text)
      else if (c =? MINUS)%N then Some (Removed, text)
      else None
  | [] => None
  end.

Definition push_line (k : DiffLineKind) (text : Str) (h : Hunk) (s : State) : State :=
  let old_line := if bool_decide (k = Added) then None
                  else Some (u32_add (old_start h) (consumed_old s)) in
  let new_line := if bool_decide (k = Removed) then None
                  else Some (u32_add (new_start h) (consumed_new s)) in
  let h := mkHunk (old_start h) (old_count h) (new_start h) (new_count h) (section h)
             (lines h ++ [mkLine k old_line new_line text]) in
  mkState (hunks s) (Some h)
    (if bool_decide (k = Added) then consumed_old s else u32_add (consumed_old s) 1)
    (if bool_decide (k = Removed) then consumed_new s else u32_add (consumed_new s) 1).

Definition close (s : State) : list Hunk :=
  hunks s ++ match current s with Some h => [h] | None => [] end.

(** One turn of the loop. *)
Definition parse_line (s : State) (raw : Str) : State :=
  if starts_with raw MARK then
    match parse_hunk_header raw with
    | Some h => mkState (close s) (Some h) 0 0
    | None => mkState (close s) None (consumed_old s) (consumed_new s)
    end
  else
    match current s with
    | None => s
    | Some h =>
        if ((old_count h <=? consumed_old s) && (new_count h <=? consumed_new s))%N
        then mkState (close s) None (consumed_old s) (consumed_new s)
        else match line_kind raw with
             | Some (k, text) => push_line k text h s
             | None => s
             end
    end.

Definition parse_unified_diff (input : Str) : list Hunk :=
  close (foldl parse_line start (str_lines input)).

Definition format_range (start count : N) : Str :=
  if (count =? 1)%N then show_N start else show_N start ++ COMMA :: show_N count.

(** [Hunk::header]. *)
Definition header (h : Hunk) : Str :=
  lit "@@ -" ++ format_range (old_start h) (old_count h)
  ++ lit " +" ++ format_range (new_start h) (new_count h) ++ lit " @@"
  ++ (if bool_decide (section h = []) then [] else 32%N :: section h).

Inductive DiffRow : Type :=
| HunkHeader (old_start old_count new_start new_count : N) (section : Str)
| Gap (skipped : nat)
| Line (line : DiffLine).

Definition skipped_between (prev next : Hunk) : nat :=
  let prev_end := u32_saturating_add (old_start prev) (old_count prev) in
  N.to_nat (old_start next - prev_end).

Definition hunk_rows (h : Hunk) : list DiffRow :=
  HunkHeader (old_start h) (old_count h) (new_start h) (new_count h) (section h)
    :: (Line <$> lines h).

(** [build_rows]: [prev] is the hunk before, if any. *)
Fixpoint rows_after (prev : option Hunk) (hs : list Hunk) : list DiffRow :=
  match hs with
  | [] => []
  | h :: hs' =>
      match prev with Some p => [Gap (skipped_between p h)] | None => [] end
      ++ hunk_rows h ++ rows_after (Some h) hs'
  end.
Definition build_rows (hs : list Hunk) : list DiffRow := rows_after None hs.

(** [edit_hunks]: an edit with no recorded diff. *)
Definition edit_hunks (old_text new_text : Str) : list Hunk :=
  let removed := str_lines old_text in
  let added := str_lines new_text in
  let lines :=
    imap (fun i text => mkLine Removed (Some (u32_add (as_u32 i) 1)) None text) removed
    ++ imap (fun i text => mkLine Added None (Some (u32_add (as_u32 i) 1)) text) added in
  if bool_decide (lines = []) then []
  else [mkHunk 1 (as_u32 (length removed)) 1 (as_u32 (length added)) [] lines].

(** [recorded_diffstat] and [recorded_hunks]. *)
Definition recorded_diffstat (diff : Str) : Str :=
  let hs := parse_unified_diff diff in
  let a := sum_list (added <$> hs) in
  let r := sum_list (removed <$> hs) in
  if (a =? 0) && (r =? 0) then []
  else lit " +" ++ show_N (N.of_nat a) ++ lit "/-" ++ show_N (N.of_nat r).

Definition recorded_hunks (diff : option Str) : option (list Hunk) :=
  d ← diff;
  let hs := parse_unified_diff d in
  if bool_decide (hs = []) then None else Some hs.
End Hunks.
