(* ===== verification/TextDiffProps.v ===== *)
(** * What a recorded diff promises

    [LcsProps]: the line edits turn one text into the other and keep as many lines as any
    edit script could.  [RowProps]: the numbered rows and the hunks cut from them.
    [DiffProps]: the text of a diff, read back, patches the old lines into the new ones. *)

From S2P Require Import Prelude Bytes Text TextDiff.

Local Open Scope nat_scope.

Module LcsProps.
Import Diff.

(** An edit script from [old] to [new]. *)
Inductive script : list Str -> list Str -> list Op -> Prop :=
| script_nil : script [] [] []
| script_equal x old new ops : script old new ops -> script (x :: old) (x :: new) (Equal :: ops)
| script_remove x old new ops : script old new ops -> script (x :: old) new (Remove :: ops)
| script_add y old new ops : script old new ops -> script old (y :: new) (Add :: ops).

#[local] Hint Constructors script : goble.

(** How many lines a script keeps. *)
Definition kept (ops : list Op) : nat := length (base.filter (fun o => o = Equal) ops).

(** No common subsequence is longer than [k]. *)
Definition bound (k : nat) (old new : list Str) : Prop :=
  forall c, c `sublist_of` old -> c `sublist_of` new -> length c <= k.

(** The length of the longest common subsequence, by its recurrence. *)
Fixpoint lcs (old new : list Str) {struct old} : nat :=
  match old with
  | [] => 0
  | x :: old' =>
      (fix lcs_new (new : list Str) : nat :=
         match new with
         | [] => 0
         | y :: new' => if bool_decide (x = y) then S (lcs old' new')
                        else lcs old' new `max` lcs_new new'
         end) new
  end.

Lemma lcs_nil_r old : lcs old [] = 0.
Proof. by destruct old. Qed.

Lemma lcs_cons x old y new :
  lcs (x :: old) (y :: new)
  = if bool_decide (x = y) then S (lcs old new) else lcs old (y :: new) `max` lcs (x :: old) new.
Proof. done. Qed.

Lemma kept_app a b : kept (a ++ b) = kept a + kept b.
Proof. unfold kept. by rewrite filter_app, length_app. Qed.

Lemma kept_cons o ops : kept (o :: ops) = (if decide (o = Equal) then 1 else 0) + kept ops.
Proof. unfold kept. rewrite filter_cons. by case_decide. Qed.

Lemma kept_replicate n o : kept (replicate n o) = if decide (o = Equal) then n else 0.
Proof.
  induction n as [|n IH]; simpl; [by case_decide|]. rewrite kept_cons, IH. by case_decide.
Qed.

(** ** Common subsequences *)

Lemma sublist_tail x (c l : list Str) : c `sublist_of` x :: l -> tail c `sublist_of` l.
Proof.
  intros [Hc|(c' & -> & Hc)]%sublist_cons_r; [|done].
  destruct c as [|y c]; [done|]. simpl. trans (y :: c); [by apply sublist_cons|done].
Qed.

Lemma bound_cons k x old new : bound k old new -> bound (S k) (x :: old) (x :: new).
Proof.
  intros Hb c Ho%sublist_tail Hn%sublist_tail. specialize (Hb _ Ho Hn).
  destruct c; simpl in *; lia.
Qed.

Lemma sublist_reverse (a b : list Str) : a `sublist_of` b -> reverse a `sublist_of` reverse b.
Proof.
  induction 1 as [|x a b _ IH|x a b _ IH]; [done|..]; rewrite !reverse_cons.
  - by apply sublist_app.
  - by apply sublist_inserts_r.
Qed.

Lemma bound_reverse k old new : bound k (reverse old) (reverse new) -> bound k old new.
Proof.
  intros Hb c Ho%sublist_reverse Hn%sublist_reverse. rewrite <- length_reverse. by apply Hb.
Qed.

Lemma bound_prefix k pre old new :
  bound k old new -> bound (length pre + k) (pre ++ old) (pre ++ new).
Proof. intros Hb. induction pre as [|x pre IH]; simpl; [done|]. by apply bound_cons. Qed.

Lemma bound_affixes k pre suf old new :
  bound k old new -> bound (length pre + k + length suf) (pre ++ old ++ suf) (pre ++ new ++ suf).
Proof.
  intros Hb. rewrite <- Nat.add_assoc. apply bound_prefix, bound_reverse.
  rewrite !reverse_app, Nat.add_comm, <- (length_reverse suf).
  apply bound_prefix, bound_reverse. by rewrite !reverse_involutive.
Qed.

Lemma bound_lcs old new : bound (lcs old new) old new.
Proof.
  revert new. induction old as [|x old IH]; intros new.
  { intros c Ho%sublist_nil_r _. by subst. }
  induction new as [|y new IHn].
  { intros c _ Hn%sublist_nil_r. by subst. }
  rewrite lcs_cons. case_bool_decide as Hxy; [subst; by apply bound_cons|].
  intros c Ho Hn. pose proof Ho as [Ho'|(c' & -> & Ho')]%sublist_cons_r.
  - specialize (IH _ c Ho' Hn). lia.
  - apply sublist_cons_r in Hn as [Hn|(c'' & [= <- <-] & _)]; [|done].
    specialize (IHn _ Ho Hn). lia.
Qed.

(** What a script keeps is a common subsequence. *)
Lemma script_kept_sublist old new ops :
  script old new ops ->
  exists c, length c = kept ops /\ c `sublist_of` old /\ c `sublist_of` new.
Proof.
  induction 1 as [|x old new ops _ (c & Hl & Ho & Hn)|x old new ops _ (c & Hl & Ho & Hn)
                 |y old new ops _ (c & Hl & Ho & Hn)].
  - by exists [].
  - exists (x :: c). rewrite kept_cons, <- Hl. split_and!; [done|by constructor..].
  - exists c. rewrite kept_cons. split_and!; [done|by constructor|done].
  - exists c. rewrite kept_cons. split_and!; [done|done|by constructor].
Qed.

(** ** The table *)

Fixpoint lcs_row (old new : list Str) : list nat :=
  match new with
  | [] => [lcs old []]
  | _ :: new' => lcs old new :: lcs_row old new'
  end.

Fixpoint lcs_table (old new : list Str) : list (list nat) :=
  match old with
  | [] => [lcs_row [] new]
  | _ :: old' => lcs_row old new :: lcs_table old' new
  end.

Lemma head_lcs_row old new : head (lcs_row old new) = Some (lcs old new).
Proof. by destruct new. Qed.

Lemma head_lcs_table old new : head (lcs_table old new) = Some (lcs_row old new).
Proof. by destruct old. Qed.

Lemma table_row_spec x old new : table_row x new (lcs_row old new) = lcs_row (x :: old) new.
Proof.
  induction new as [|y new IH]; [done|]. cbn [table_row lcs_row].
  rewrite IH, !head_lcs_row, lcs_cons. cbn. by rewrite Nat.add_1_r.
Qed.

Lemma table_spec old new : table old new = lcs_table old new.
Proof.
  induction old as [|x old IH]; simpl.
  - f_equal. rewrite Nat.add_1_r. induction new as [|y new IH]; [done|]. simpl. by rewrite <- IH.
  - rewrite IH, head_lcs_table. simpl. by rewrite table_row_spec.
Qed.

Lemma lookup_lcs_row old new j :
  j <= length new -> lcs_row old new !! j = Some (lcs old (drop j new)).
Proof.
  revert j. induction new as [|y new IH]; intros [|j] Hj; simpl in *; try done; [lia|].
  apply IH. lia.
Qed.

Lemma lookup_lcs_table old new i :
  i <= length old -> lcs_table old new !! i = Some (lcs_row (drop i old) new).
Proof.
  revert i. induction old as [|x old IH]; intros [|i] Hi; simpl in *; try done; [lia|].
  apply IH. lia.
Qed.

Lemma cell_spec old new i j :
  i <= length old -> j <= length new ->
  cell (table old new) i j = lcs (drop i old) (drop j new).
Proof.
  intros Hi Hj. unfold cell. rewrite table_spec, lookup_lcs_table by done. simpl.
  by rewrite lookup_lcs_row.
Qed.

(** ** The walk *)

Lemma walk_nil_r t x old i j : walk t (x :: old) [] i j = replicate (length (x :: old)) Remove.
Proof. done. Qed.

Lemma walk_cons t x old y new i j :
  walk t (x :: old) (y :: new) i j
  = if bool_decide (x = y) then Equal :: walk t old new (S i) (S j)
    else if cell t i (S j) <=? cell t (S i) j then Remove :: walk t old (y :: new) (S i) j
    else Add :: walk t (x :: old) new i (S j).
Proof. done. Qed.

Lemma script_removes old : script old [] (replicate (length old) Remove).
Proof. induction old; simpl; auto with goble. Qed.

Lemma script_adds new : script [] new (replicate (length new) Add).
Proof. induction new; simpl; auto with goble. Qed.

Lemma walk_script t old new i j : script old new (walk t old new i j).
Proof.
  revert new i j. induction old as [|x old IH]; intros new i j; [apply script_adds|].
  revert j. induction new as [|y new IHn]; intros j; [apply script_removes|].
  rewrite walk_cons. case_bool_decide; [subst; auto with goble|]. case_match; auto with goble.
Qed.

(** [t] holds the lengths for the lines from [i] and [j] on. *)
Definition holds (t : list (list nat)) (old new : list Str) (i j : nat) : Prop :=
  forall a b, a <= length old -> b <= length new ->
    cell t (i + a) (j + b) = lcs (drop a old) (drop b new).

Lemma holds_old t x old new i j : holds t (x :: old) new i j -> holds t old new (S i) j.
Proof.
  intros H a b Ha Hb. specialize (H (S a) b). rewrite Nat.add_succ_r in H.
  apply H; simpl; lia.
Qed.

Lemma holds_new t old y new i j : holds t old (y :: new) i j -> holds t old new i (S j).
Proof.
  intros H a b Ha Hb. specialize (H a (S b)). rewrite Nat.add_succ_r in H.
  apply H; simpl; lia.
Qed.

Lemma walk_kept t old new i j : holds t old new i j -> kept (walk t old new i j) = lcs old new.
Proof.
  revert new i j. induction old as [|x old IH]; intros new i j Ht.
  { simpl. by rewrite kept_replicate. }
  revert j Ht. induction new as [|y new IHn]; intros j Ht.
  { rewrite walk_nil_r, kept_replicate. done. }
  rewrite walk_cons, lcs_cons. case_bool_decide as Hxy.
  { rewrite kept_cons, IH; [done|]. by eapply holds_old, holds_new. }
  pose proof (Ht 1 0 ltac:(simpl; lia) ltac:(simpl; lia)) as H1.
  pose proof (Ht 0 1 ltac:(simpl; lia) ltac:(simpl; lia)) as H2.
  rewrite !Nat.add_1_r, !Nat.add_0_r in H1, H2. cbn [drop] in H1, H2. rewrite !drop_0 in H1, H2.
  destruct (Nat.leb_spec (cell t i (S j)) (cell t (S i) j)) as [Hle|Hlt]; rewrite kept_cons.
  - rewrite IH by by eapply holds_old. case_decide; [done|]. lia.
  - rewrite IHn by by eapply holds_new. case_decide; [done|]. lia.
Qed.

(** ** The edits of two texts *)

(** The table is within its bound. *)
Definition small (old new : list Str) : Prop :=
  (N.of_nat (length old) * N.of_nat (length new) <= MAX_TABLE_CELLS)%N.

Lemma middle_script old new : script old new (middle_ops old new).
Proof.
  unfold middle_ops. case_bool_decide; [subst; apply script_adds|].
  case_bool_decide; [subst; apply script_removes|]. case_match; [|apply walk_script].
  clear. induction old; simpl; [apply script_adds|by constructor].
Qed.

Lemma middle_kept old new : small old new -> bound (kept (middle_ops old new)) old new.
Proof.
  intros Hs. unfold middle_ops. case_bool_decide as Ho.
  { intros c Hc%sublist_length _. subst. simpl in Hc. lia. }
  case_bool_decide as Hn.
  { intros c _ Hc%sublist_length. subst. simpl in Hc. lia. }
  assert ((MAX_TABLE_CELLS <? usize_saturating_mul (N.of_nat (length old)) (N.of_nat (length new)))%N
          = false) as ->.
  { apply N.ltb_ge. unfold small, usize_saturating_mul in *. lia. }
  rewrite walk_kept; [apply bound_lcs|]. intros a b Ha Hb. by apply cell_spec.
Qed.

Lemma common_spec old new :
  let n := common old new in
  n <= length old /\ n <= length new /\ take n old = take n new.
Proof.
  revert new. induction old as [|x old IH]; intros [|y new]; simpl; try (split_and!; (done || lia)).
  case_bool_decide; simpl; [|split_and!; (done || lia)].
  destruct (IH new) as (H1 & H2 & H3). subst. rewrite H3. split_and!; [lia..|done].
Qed.

(** The edits of [diff_ops]: the lines in common at both ends stay. *)
Lemma diff_ops_split old new :
  exists pre mid mid' suf,
    old = pre ++ mid ++ suf /\ new = pre ++ mid' ++ suf /\
    diff_ops old new
      = replicate (length pre) Equal ++ middle_ops mid mid' ++ replicate (length suf) Equal.
Proof.
  destruct (common_spec old new) as (Ho & Hn & Hpre).
  unfold diff_ops. set (n := common old new) in *.
  set (old' := drop n old). set (new' := drop n new).
  destruct (common_spec (reverse old') (reverse new')) as (Ho' & Hn' & Hsuf).
  set (m := common (reverse old') (reverse new')) in *. rewrite !length_reverse in Ho', Hn'.
  rewrite !take_reverse in Hsuf. apply (inj reverse) in Hsuf.
  exists (take n old), (take (length old' - m) old'), (take (length new' - m) new'),
    (drop (length old' - m) old').
  split_and!.
  - rewrite (take_drop _ old'). unfold old'. by rewrite take_drop.
  - rewrite Hsuf, (take_drop _ new'), Hpre. unfold new'. by rewrite take_drop.
  - rewrite length_take, length_drop. repeat f_equal; lia.
Qed.

Lemma script_affixes pre suf old new ops :
  script old new ops ->
  script (pre ++ old ++ suf) (pre ++ new ++ suf)
    (replicate (length pre) Equal ++ ops ++ replicate (length suf) Equal).
Proof.
  intros Hs. induction pre as [|x pre IH]; simpl; [|by constructor].
  induction Hs; simpl; [|by constructor..]. induction suf; simpl; by constructor.
Qed.

Lemma diff_ops_script old new : script old new (diff_ops old new).
Proof.
  destruct (diff_ops_split old new) as (pre & mid & mid' & suf & -> & -> & ->).
  apply script_affixes, middle_script.
Qed.

Lemma diff_ops_kept old new : small old new -> bound (kept (diff_ops old new)) old new.
Proof.
  intros Hs. destruct (diff_ops_split old new) as (pre & mid & mid' & suf & Ho & Hn & ->).
  rewrite !kept_app, !kept_replicate. simpl. rewrite Nat.add_assoc, Ho, Hn.
  apply bound_affixes, middle_kept. subst. unfold small in *. rewrite !length_app in Hs. nia.
Qed.

(** C33: A recorded change turns the old lines into the new ones, and the lines it keeps are
    a common subsequence; as long as the line table stays within its bound no common
    subsequence is longer. *)
Theorem diff_keeps_the_most (old new : list Str) :
  script old new (diff_ops old new) /\
  (exists c, length c = kept (diff_ops old new) /\ c `sublist_of` old /\ c `sublist_of` new) /\
  ((N.of_nat (length old) * N.of_nat (length new) <= MAX_TABLE_CELLS)%N ->
   forall c, c `sublist_of` old -> c `sublist_of` new -> length c <= kept (diff_ops old new)).
Proof.
  pose proof (diff_ops_script old new) as Hd.
  split_and!; [done|by eapply script_kept_sublist|intros Hs; by apply diff_ops_kept].
Qed.

Lemma diff_keeps_the_most_witness :
  let old := lit <$> ["a"; "b"; "c"; "d"]%string in
  let new := lit <$> ["a"; "c"; "b"; "d"]%string in
  kept (diff_ops old new) = 3 /\ script old new (diff_ops old new) /\
  (forall c, c `sublist_of` old -> c `sublist_of` new -> length c <= kept (diff_ops old new)).
Proof.
  destruct (diff_keeps_the_most (lit <$> ["a"; "b"; "c"; "d"]%string) (lit <$> ["a"; "c"; "b"; "d"]%string))
    as (Hs & _ & Hm).
  split; [by vm_compute|]. split; [exact Hs|]. apply Hm. by vm_compute.
Defined.
End LcsProps.

Module RowProps.
Import Diff LcsProps.

(** The number of line [i], counted from 0. *)
Definition num (i : nat) : N := u32_add (as_u32 i) 1.

Definition old_side (rs : list Row) : list Str := text <$> base.filter (fun r => kind r <> Added) rs.
Definition new_side (rs : list Row) : list Str := text <$> base.filter (fun r => kind r <> Removed) rs.

(** Rows numbered from lines [i] and [j] on. *)
Fixpoint numbered (i j : nat) (rs : list Row) : Prop :=
  match rs with
  | [] => True
  | r :: rs' =>
      match kind r with
      | Context => old_line r = Some (num i) /\ new_line r = Some (num j) /\ numbered (S i) (S j) rs'
      | Removed => old_line r = Some (num i) /\ new_line r = None /\ numbered (S i) j rs'
      | Added => old_line r = None /\ new_line r = Some (num j) /\ numbered i (S j) rs'
      end
  end.

Definition row_kind (op : Op) : RowKind :=
  match op with Equal => Context | Remove => Removed | Add => Added end.

Lemma old_side_cons r rs :
  old_side (r :: rs) = match kind r with Added => old_side rs | _ => text r :: old_side rs end.
Proof. unfold old_side. rewrite filter_cons. case_decide; destruct (kind r); naive_solver. Qed.

Lemma new_side_cons r rs :
  new_side (r :: rs) = match kind r with Removed => new_side rs | _ => text r :: new_side rs end.
Proof. unfold new_side. rewrite filter_cons. case_decide; destruct (kind r); naive_solver. Qed.

Lemma old_side_app a b : old_side (a ++ b) = old_side a ++ old_side b.
Proof. unfold old_side. by rewrite filter_app, fmap_app. Qed.

Lemma new_side_app a b : new_side (a ++ b) = new_side a ++ new_side b.
Proof. unfold new_side. by rewrite filter_app, fmap_app. Qed.

Lemma drop_cons_lookup {A} i (l : list A) x l' :
  drop i l = x :: l' -> l !! i = Some x /\ drop (S i) l = l'.
Proof.
  intros H. split.
  - rewrite <- (Nat.add_0_r i), <- lookup_drop, H. done.
  - by rewrite <- Nat.add_1_r, <- drop_drop, H.
Qed.

(** The indices of [rows] stay in range, and its rows are the two texts, numbered. *)
Lemma rows_from_spec old new ops all all' i j :
  script old new ops -> drop i all = old -> drop j all' = new ->
  exists rs, rows_from all all' ops i j = Some rs /\ kind <$> rs = row_kind <$> ops /\
    numbered i j rs /\ old_side rs = old /\ new_side rs = new.
Proof.
  intros Hs. revert i j. induction Hs as [|x old new ops _ IH|x old new ops _ IH|y old new ops _ IH];
    intros i j Hi Hj; cbn [rows_from row_of].
  - by exists [].
  - apply drop_cons_lookup in Hi as [-> Hi]. apply drop_cons_lookup in Hj as [_ Hj].
    destruct (IH (S i) (S j) Hi Hj) as (rs & Hrs & Hk & Hn & Ho & Hw). cbn. rewrite Hrs.
    eexists. split; [done|]. rewrite old_side_cons, new_side_cons. cbn. by rewrite Ho, Hw, <- Hk.
  - apply drop_cons_lookup in Hi as [-> Hi].
    destruct (IH (S i) j Hi Hj) as (rs & Hrs & Hk & Hn & Ho & Hw). cbn. rewrite Hrs.
    eexists. split; [done|]. rewrite old_side_cons, new_side_cons. cbn. by rewrite Ho, Hw, <- Hk.
  - apply drop_cons_lookup in Hj as [-> Hj].
    destruct (IH i (S j) Hi Hj) as (rs & Hrs & Hk & Hn & Ho & Hw). cbn. rewrite Hrs.
    eexists. split; [done|]. rewrite old_side_cons, new_side_cons. cbn. by rewrite Ho, Hw, <- Hk.
Qed.

Lemma rows_spec old new :
  exists rs, rows old new (diff_ops old new) = Some rs /\
    kind <$> rs = row_kind <$> diff_ops old new /\
    numbered 0 0 rs /\ old_side rs = old /\ new_side rs = new.
Proof. apply (rows_from_spec old new); [apply diff_ops_script|by rewrite drop_0..]. Qed.

Lemma numbered_app i j a b :
  numbered i j (a ++ b)
  <-> numbered i j a /\ numbered (i + length (old_side a)) (j + length (new_side a)) b.
Proof.
  revert i j. induction a as [|r a IH]; intros i j; simpl.
  - rewrite !Nat.add_0_r. naive_solver.
  - rewrite old_side_cons, new_side_cons.
    destruct (kind r); simpl; rewrite IH, ?Nat.add_succ_comm, <- ?Nat.add_succ_r; naive_solver.
Qed.

Lemma num_lt i : (N.of_nat i < u32_max)%N -> num i = N.of_nat (S i).
Proof.
  intros H. unfold num, u32_add, as_u32. unfold u32_max in H.
  rewrite !N.mod_small; [lia|lia|rewrite N.mod_small; lia].
Qed.

(** ** The other way round *)

Definition swap_kind (k : RowKind) : RowKind :=
  match k with Context => Context | Removed => Added | Added => Removed end.
Definition swap (r : Row) : Row := mkRow (swap_kind (kind r)) (new_line r) (old_line r) (text r).

Lemma old_side_swap rs : old_side (swap <$> rs) = new_side rs.
Proof.
  induction rs as [|r rs IH]; [done|]. rewrite fmap_cons, old_side_cons, new_side_cons, IH.
  simpl. by destruct (kind r).
Qed.

Lemma new_side_swap rs : new_side (swap <$> rs) = old_side rs.
Proof.
  induction rs as [|r rs IH]; [done|]. rewrite fmap_cons, old_side_cons, new_side_cons, IH.
  simpl. by destruct (kind r).
Qed.

Lemma numbered_swap i j rs : numbered i j rs -> numbered j i (swap <$> rs).
Proof.
  revert i j. induction rs as [|r rs IH]; intros i j; simpl; [done|].
  destruct (kind r); simpl; naive_solver.
Qed.

(** ** The two numbers of a hunk *)

Lemma find_map_app {A B} (f : A -> option B) a b :
  find_map f (a ++ b) = match find_map f a with Some y => Some y | None => find_map f b end.
Proof. induction a as [|x a IH]; simpl; [done|]. by destruct (f x). Qed.

Lemma find_map_old i j rs :
  numbered i j rs ->
  find_map old_line rs = if bool_decide (old_side rs = []) then None else Some (num i).
Proof.
  revert i j. induction rs as [|r rs IH]; intros i j; simpl; [done|].
  rewrite old_side_cons. destruct (kind r); intros (Ho & Hn & Hr); rewrite Ho; try done.
  by eapply IH.
Qed.

Lemma find_map_old_last i j rs :
  numbered i j rs ->
  find_map old_line (reverse rs)
  = match length (old_side rs) with 0 => None | S n => Some (num (i + n)) end.
Proof.
  revert i j. induction rs as [|r rs IH] using rev_ind; intros i j; [done|].
  rewrite numbered_app, reverse_app, find_map_app, old_side_app, length_app.
  intros [Hrs Hr]. cbn [numbered] in Hr. change (reverse [r]) with [r].
  cbn [find_map]. rewrite old_side_cons.
  destruct (kind r); destruct Hr as (-> & _); cbn; rewrite ?Nat.add_0_r, ?Nat.add_1_r; try done.
  by eapply IH.
Qed.

Lemma side_count_old i j rs : numbered i j rs -> side_count old_line rs = length (old_side rs).
Proof.
  unfold side_count. revert i j. induction rs as [|r rs IH]; intros i j; simpl; [done|].
  rewrite filter_cons, old_side_cons.
  destruct (kind r); intros (-> & _ & Hr); simpl; [f_equal|f_equal|]; by eapply IH.
Qed.

(** What a hunk's first number means: the lines before the hunk. *)
Definition lines_before (start count : N) : nat :=
  N.to_nat (if (count =? 0)%N then start else start - 1)%N.

(** The number [side_start] gives, when line numbers fit. *)
Definition start_number (before range : nat) : N :=
  if decide (range = 0) then N.of_nat before else N.of_nat (S before).

Lemma side_start_old i j before range :
  numbered 0 0 before -> numbered i j range -> i = length (old_side before) ->
  (N.of_nat (i + length (old_side range)) <= u32_max)%N ->
  side_start old_line before range = start_number i (length (old_side range)).
Proof.
  intros Hb Hr Hi Hmax. unfold side_start, start_number.
  rewrite (find_map_old _ _ _ Hr), (find_map_old_last _ _ _ Hb).
  destruct (old_side range) as [|l ls]; cbn in *.
  - rewrite <- Hi in *. clear Hi. destruct i as [|i]; [done|]. cbn. apply num_lt. lia.
  - apply num_lt. lia.
Qed.

Lemma lines_before_start before range :
  lines_before (start_number before range) (N.of_nat range) = before.
Proof.
  unfold lines_before, start_number. case_decide as H.
  - subst. simpl. lia.
  - rewrite (proj2 (N.eqb_neq _ _)) by lia. lia.
Qed.

Lemma side_start_new i j before range :
  numbered 0 0 before -> numbered i j range -> j = length (new_side before) ->
  (N.of_nat (j + length (new_side range)) <= u32_max)%N ->
  side_start new_line before range = start_number j (length (new_side range)).
Proof.
  intros Hb%numbered_swap Hr%numbered_swap Hj Hmax.
  rewrite <- !old_side_swap in *. rewrite <- (side_start_old j i (swap <$> before)) by done.
  unfold side_start. f_equal.
  - f_equal. rewrite <- fmap_reverse. induction (reverse before) as [|r l IH]; [done|]. simpl.
    by rewrite IH.
  - clear. induction range as [|r l IH]; [done|]. simpl. by rewrite IH.
Qed.

Lemma side_count_new i j rs : numbered i j rs -> side_count new_line rs = length (new_side rs).
Proof.
  intros H%numbered_swap. rewrite <- old_side_swap, <- (side_count_old _ _ _ H).
  unfold side_count. clear. induction rs as [|r rs IH]; [done|].
  rewrite fmap_cons, !filter_cons. simpl. case_decide; simpl; by rewrite IH.
Qed.
End RowProps.

(** ** The ranges of rows [render] shows *)

Module RangeProps.
Import Diff.

(** Ranges in order inside [n] rows, from [lo] on, with a row or more between two. *)
Fixpoint chain (n lo : nat) (rs : list (nat * nat)) : Prop :=
  match rs with
  | [] => True
  | (s, e) :: rs' => lo <= s /\ s < e /\ e <= n /\ chain n (S e) rs'
  end.

Definition shown (k : nat) (rs : list (nat * nat)) : Prop :=
  exists r, r ∈ rs /\ r.1 <= k < r.2.

Definition changed (rs : list Row) (k : nat) : Prop :=
  exists r, rs !! k = Some r /\ kind r <> Context.

Definition near (ctx : nat) (rs : list Row) (k : nat) : Prop :=
  exists c, changed rs c /\ k <= c + ctx /\ c <= k + ctx.

Definition lower (lo : nat) (rs : list (nat * nat)) : nat :=
  match last rs with Some r => S r.2 | None => lo end.

Lemma lower_snoc lo rs r : lower lo (rs ++ [r]) = S r.2.
Proof. unfold lower. by rewrite last_snoc. Qed.

Lemma chain_snoc n lo rs s e :
  chain n lo (rs ++ [(s, e)]) <-> chain n lo rs /\ lower lo rs <= s /\ s < e /\ e <= n.
Proof.
  revert lo. induction rs as [|[s' e'] rs IH]; intros lo; simpl; [unfold lower; simpl; lia|].
  rewrite IH. assert (lower lo ((s', e') :: rs) = lower (S e') rs) as ->; [|tauto].
  unfold lower. rewrite last_cons. by destruct (last rs).
Qed.

Lemma shown_snoc k rs s e : shown k (rs ++ [(s, e)]) <-> shown k rs \/ s <= k < e.
Proof.
  unfold shown. setoid_rewrite elem_of_app. setoid_rewrite list_elem_of_singleton.
  naive_solver.
Qed.

Lemma changed_snoc rs r k :
  changed (rs ++ [r]) k <-> changed rs k \/ (k = length rs /\ kind r <> Context).
Proof.
  unfold changed. setoid_rewrite lookup_snoc_Some. split.
  - intros (r' & [[_ Hl]|[-> ->]] & Hk); eauto.
  - intros [(r' & Hl & Hk)|[-> Hk]]; [|by eauto]. exists r'. split; [|done]. left.
    split; [|done]. by eapply lookup_lt_Some.
Qed.

Lemma near_snoc ctx rs r k :
  near ctx (rs ++ [r]) k
  <-> near ctx rs k \/ (kind r <> Context /\ k <= length rs + ctx /\ length rs <= k + ctx).
Proof.
  unfold near. setoid_rewrite changed_snoc. split.
  - intros (c & [Hc|[-> Hc]] & H); eauto.
  - intros [(c & Hc & H)|(Hc & H)]; eauto 7.
Qed.

(** What the ranges found among the first rows [a] of [n] say. *)
Record found (ctx n : nat) (a : list Row) (R : list (nat * nat)) : Prop := mkFound {
  found_chain : chain n 0 R;
  found_bound : Forall (fun r => r.1 <= length a - ctx /\ r.2 <= length a + ctx) R;
  found_shown : forall k, k < n -> shown k R <-> near ctx a k;
}.

Lemma alter_snoc {A} (f : A -> A) l x : alter f (pred (length (l ++ [x]))) (l ++ [x]) = l ++ [f x].
Proof.
  rewrite length_app, Nat.add_comm. simpl. rewrite alter_app_r_alt by lia.
  by rewrite Nat.sub_diag.
Qed.

(** A range added at the end, or joined with the last one. *)
Lemma push_range_found ctx n a r R :
  length a < n -> found ctx n a R -> found ctx n (a ++ [r]) (push_range ctx n R (length a, r)).
Proof.
  intros Hn [Hc Hb Hs]. unfold push_range. case_bool_decide as Hk.
  { split; [done| |].
    - eapply Forall_impl; [exact Hb|]. intros [s e]. rewrite length_app. simpl. lia.
    - intros k Hkn. rewrite near_snoc, Hs by done. naive_solver. }
  set (start := length a - ctx). set (stop := (length a + ctx + 1) `min` n).
  destruct R as [|[s e] R _] using rev_ind.
  { simpl. split.
    - simpl. lia.
    - constructor; [|done]. rewrite length_app. simpl. lia.
    - intros k Hkn. rewrite near_snoc, <- Hs by done. unfold shown. split.
      + intros (r' & ->%list_elem_of_singleton & Hr). simpl in Hr. right. split_and!; [done|lia..].
      + intros [(r' & Hr & _)|(_ & H)]; [by apply elem_of_nil in Hr|].
        exists (start, stop). split; [by apply list_elem_of_singleton|]. simpl. lia. }
  rewrite last_snoc. apply chain_snoc in Hc as (Hc & Hlo & Hse & He).
  apply Forall_app in Hb as [Hb [[Hs1 He1] _]%Forall_cons]. simpl in Hs1, He1.
  assert (Forall (fun r0 => r0.1 <= length (a ++ [r]) - ctx /\ r0.2 <= length (a ++ [r]) + ctx) R) as Hb'.
  { eapply Forall_impl; [exact Hb|]. intros [s' e']. rewrite length_app. simpl. lia. }
  destruct (Nat.leb_spec start e) as [Hle|Hlt].
  - rewrite alter_snoc. simpl. split.
    + apply chain_snoc. split_and!; [done|done|lia..].
    + apply Forall_app_2; [done|]. constructor; [|done]. rewrite length_app. simpl. lia.
    + intros k Hkn. rewrite near_snoc, <- Hs, !shown_snoc by done. split; [|intuition lia].
      intros [H|H]; [by left; left|]. destruct (decide (k < e)); [left; right; lia|].
      right. split_and!; [done|lia..].
  - split.
    + rewrite !chain_snoc, lower_snoc. simpl. split_and!; (done || lia).
    + apply Forall_app_2; [apply Forall_app_2; [done|]|]; (constructor; [|done]);
        rewrite length_app; simpl; lia.
    + intros k Hkn. rewrite near_snoc, <- Hs, !(shown_snoc k _ start) by done. intuition lia.
Qed.

Lemma ranges_found ctx rs : found ctx (length rs) rs (ranges ctx rs).
Proof.
  unfold ranges.
  cut (forall n, length rs <= n -> found ctx n rs (foldl (push_range ctx n) [] (imap pair rs)));
    [by eauto|].
  induction rs as [|r rs IH] using rev_ind; intros n Hn.
  - split; [done|done|]. intros k _. split; [intros (r & Hr & _); by apply elem_of_nil in Hr|].
    by intros (c & (r & Hr & _) & _).
  - rewrite length_app in Hn. simpl in Hn. rewrite imap_app, foldl_app.
    cbn -[push_range]. rewrite Nat.add_0_r. apply push_range_found; [lia|]. apply IH. lia.
Qed.

(** A row is shown exactly when a changed row is within the context, and the ranges are in
    order and do not touch. *)
Lemma ranges_spec ctx rs :
  chain (length rs) 0 (ranges ctx rs) /\
  forall k, k < length rs -> shown k (ranges ctx rs) <-> near ctx rs k.
Proof. by destruct (ranges_found ctx rs). Qed.
End RangeProps.

(** ** Reading a diff back *)

Module ParseProps.
Import Diff RowProps RangeProps Hunks.

Definition line_kind_of (k : RowKind) : DiffLineKind :=
  match k with Diff.Context => Context | Diff.Removed => Removed | Diff.Added => Added end.

Definition line_of (r : Row) : DiffLine :=
  mkLine (line_kind_of (Diff.kind r)) (Diff.old_line r) (Diff.new_line r) (Diff.text r).

Definition slice (rs : list Row) (range : nat * nat) : list Row := drop range.1 (take range.2 rs).

(** The hunk a range of rows stands for. *)
Definition hunk_of (rs : list Row) (range : nat * nat) : Hunk :=
  let before := take range.1 rs in
  let body := slice rs range in
  mkHunk (side_start Diff.old_line before body) (N.of_nat (side_count Diff.old_line body))
    (side_start Diff.new_line before body) (N.of_nat (side_count Diff.new_line body)) []
    (line_of <$> body).

Definition raw_row (r : Row) : Str := sign (Diff.kind r) :: Diff.text r.
Definition raw_hunk (rs : list Row) (range : nat * nat) : list Str :=
  hunk_header (take range.1 rs) (slice rs range) :: (raw_row <$> slice rs range).

Lemma end_lines_app a b : end_lines (a ++ b) = end_lines a ++ end_lines b.
Proof. apply bind_app. Qed.

Lemma render_lines rs ctx : render rs ctx = end_lines (ranges ctx rs ≫= raw_hunk rs).
Proof.
  unfold render. induction (ranges ctx rs) as [|r R IH]; [done|].
  rewrite !bind_cons, end_lines_app, IH. f_equal. unfold render_range, raw_hunk, end_lines, slice.
  rewrite bind_cons. rewrite <- app_assoc. f_equal. simpl. f_equal.
  induction (drop r.1 (take r.2 rs)) as [|x l IHl]; [done|].
  rewrite bind_cons, fmap_cons, bind_cons, IHl. done.
Qed.

(** *** The header *)

Lemma range_text_parses m start count :
  m = MINUS \/ m = PLUS -> (start <= u32_max)%N -> (N.of_nat count <= u32_max)%N ->
  parse_range (m :: range_text start count) = Some (start, N.of_nat count).
Proof.
  intros Hm Hs Hc. unfold parse_range. simpl.
  assert ((m =? MINUS) || (m =? PLUS) = true)%N as -> by (destruct Hm; by subst).
  assert (forall s, trim_start_matches (fun c => (c =? MINUS) || (c =? PLUS))%N (show_N start ++ s)
                    = show_N start ++ s) as Ht.
  { intros s. destruct (show_N_digits start) as (Hne & Hd & _).
    destruct (show_N start) as [|c t]; [done|]. apply Forall_cons in Hd as [Hd _]. simpl.
    rewrite !(proj2 (N.eqb_neq _ _)); [done|intros ->..]; done. }
  assert (COMMA ∉ show_N start) as Hcs by by apply show_N_not_elem.
  unfold range_text. case_bool_decide as H1.
  - subst. rewrite <- (app_nil_r (show_N start)), Ht, app_nil_r, split_on_absent by done.
    cbn. rewrite trim_no_blank by apply show_N_not_blank.
    unfold parse_u32. by rewrite parse_show_N.
  - rewrite Ht, split_on_app, split_on_absent by (done || by apply show_N_not_elem). cbn.
    rewrite !trim_no_blank by apply show_N_not_blank.
    unfold parse_u32. by rewrite !parse_show_N.
Qed.

Lemma range_text_elem c start count :
  c ∈ range_text start count -> is_ascii_digit c = true \/ c = COMMA.
Proof.
  assert (forall n, c ∈ show_N n -> is_ascii_digit c = true) as Hd.
  { intros n Hin. destruct (show_N_digits n) as (_ & Hd & _). by rewrite Forall_forall in Hd; apply Hd. }
  unfold range_text. case_bool_decide; [by eauto|].
  intros [Hc|[Hc|Hc]%elem_of_cons]%elem_of_app; eauto.
Qed.

Lemma range_text_word start count : field (range_text start count).
Proof.
  split.
  - unfold range_text. destruct (show_N_digits start) as (Hne & _). case_bool_decide; [done|].
    by destruct (show_N start).
  - apply Forall_forall. intros c [Hc| ->]%range_text_elem; [by apply digit_not_blank|done].
Qed.

Lemma split_two a b :
  field a -> field b -> split_whitespace (32%N :: a ++ 32%N :: b ++ [32%N]) = [a; b].
Proof.
  intros [Ha Ha'] [Hb Hb']. unfold split_whitespace. simpl.
  rewrite split_from_app by done. simpl. rewrite bool_decide_false by done.
  rewrite split_from_app by done. simpl. by rewrite bool_decide_false.
Qed.

Lemma header_parses before body i j :
  numbered 0 0 before -> numbered i j body ->
  i = length (old_side before) -> j = length (new_side before) ->
  (N.of_nat (i + length (old_side body)) <= u32_max)%N ->
  (N.of_nat (j + length (new_side body)) <= u32_max)%N ->
  parse_hunk_header (hunk_header before body)
  = Some (mkHunk (start_number i (length (old_side body))) (N.of_nat (length (old_side body)))
            (start_number j (length (new_side body))) (N.of_nat (length (new_side body))) [] []).
Proof.
  intros Hb Hr Hi Hj Hmi Hmj. unfold hunk_header.
  rewrite (side_start_old i j), (side_start_new i j), (side_count_old i j), (side_count_new i j) by done.
  set (o := range_text _ _). set (n := range_text _ _).
  assert (start_number i (length (old_side body)) <= u32_max)%N as Hso.
  { unfold start_number. case_decide; lia. }
  assert (start_number j (length (new_side body)) <= u32_max)%N as Hsn.
  { unfold start_number. case_decide; lia. }
  set (mid := 32%N :: (MINUS :: o) ++ 32%N :: (PLUS :: n) ++ [32%N]).
  assert (lit "@@ -" ++ o ++ lit " +" ++ n ++ lit " @@" = MARK ++ mid ++ MARK) as ->.
  { unfold mid. cbn. do 4 f_equal. rewrite <- app_assoc. f_equal. cbn. by rewrite <- app_assoc. }
  assert (64%N ∉ mid) as Hat.
  { assert (64%N ∉ o) as Ho by by intros [?|?]%range_text_elem.
    assert (64%N ∉ n) as Hn by by intros [?|?]%range_text_elem.
    unfold mid, MINUS, PLUS. clearbody o n. set_solver. }
  assert (strip_prefix MARK (MARK ++ mid ++ MARK) = Some (mid ++ MARK)) as Hp by done.
  assert (find_str (mid ++ MARK) MARK = Some (length mid)) as Hf by by apply (find_str_app mid 64 [64%N]).
  unfold parse_hunk_header. rewrite Hp. cbn [mbind option_bind]. rewrite Hf. cbn [mbind option_bind].
  rewrite take_app_length, drop_ge by (rewrite length_app; simpl; lia).
  unfold mid. rewrite split_two.
  - unfold o, n. rewrite !range_text_parses by (lia || by auto). done.
  - destruct (range_text_word (start_number i (length (old_side body))) (length (old_side body))).
    split; [done|by constructor].
  - destruct (range_text_word (start_number j (length (new_side body))) (length (new_side body))).
    split; [done|by constructor].
Qed.

(** *** The body *)

Lemma u32_add_small a b : (a + b <= u32_max)%N -> u32_add a b = (a + b)%N.
Proof. intros H. unfold u32_add, u32_max in *. apply N.mod_small. lia. Qed.

Definition add_lines (h : Hunk) (ls : list DiffLine) : Hunk :=
  mkHunk (old_start h) (old_count h) (new_start h) (new_count h) (section h) (lines h ++ ls).

(** The numbers of a hunk agree with where the parser is in it: lines [i] and [j] come next,
    [co] and [cn] were taken, and [o] and [n] remain. *)
Definition at_line (h : Hunk) (co cn : N) (i j o n : nat) : Prop :=
  (o <> 0 -> (old_start h + co)%N = N.of_nat (S i)) /\
  (n <> 0 -> (new_start h + cn)%N = N.of_nat (S j)) /\
  (co + N.of_nat o = old_count h)%N /\ (cn + N.of_nat n = new_count h)%N /\
  (N.of_nat (i + o) <= u32_max)%N /\ (N.of_nat (j + n) <= u32_max)%N /\
  (old_count h <= u32_max)%N /\ (new_count h <= u32_max)%N.

Lemma raw_row_no_mark r : starts_with (raw_row r) MARK = false.
Proof. unfold starts_with, raw_row. by destruct (Diff.kind r). Qed.

Lemma line_kind_raw r : line_kind (raw_row r) = Some (line_kind_of (Diff.kind r), Diff.text r).
Proof. unfold raw_row. by destruct (Diff.kind r). Qed.

Lemma parse_row hs h co cn i j r rs :
  numbered i j (r :: rs) ->
  at_line h co cn i j (length (old_side (r :: rs))) (length (new_side (r :: rs))) ->
  exists co' cn' i' j',
    parse_line (mkState hs (Some h) co cn) (raw_row r)
      = mkState hs (Some (add_lines h [line_of r])) co' cn' /\
    numbered i' j' rs /\
    at_line (add_lines h [line_of r]) co' cn' i' j' (length (old_side rs)) (length (new_side rs)).
Proof.
  rewrite old_side_cons, new_side_cons. unfold parse_line, at_line.
  rewrite raw_row_no_mark, line_kind_raw. cbn [current consumed_old consumed_new hunks].
  intros Hn Ha. destruct r as [k ol nl tx]. cbn in Hn, Ha |- *.
  destruct k; cbn in Hn, Ha |- *; destruct Hn as (-> & -> & Hn);
    destruct Ha as (Ho & Hw & Hco & Hcn & Hi & Hj & Hmo & Hmn).
  - rewrite (proj2 (N.leb_gt _ _)) by lia. cbn. exists (co + 1)%N, (cn + 1)%N, (S i), (S j).
    split_and!; [|done|lia..].
    unfold push_line. cbn. rewrite (u32_add_small co 1), (u32_add_small cn 1) by lia.
    rewrite !u32_add_small, Ho, Hw, !num_lt by lia. done.
  - rewrite (proj2 (N.leb_gt _ _)) by lia. cbn. exists (co + 1)%N, cn, (S i), j.
    split_and!; [|done|lia..].
    unfold push_line. cbn. rewrite (u32_add_small co 1) by lia.
    rewrite (u32_add_small (old_start h) co), Ho, !num_lt by lia. done.
  - rewrite (andb_comm (_ <=? _)%N), (proj2 (N.leb_gt _ _)) by lia. cbn. exists co, (cn + 1)%N, i, (S j).
    split_and!; [|done|lia..].
    unfold push_line. cbn. rewrite (u32_add_small cn 1) by lia.
    rewrite (u32_add_small (new_start h) cn), Hw, !num_lt by lia. done.
Qed.

Lemma parse_body hs h co cn i j body :
  numbered i j body ->
  at_line h co cn i j (length (old_side body)) (length (new_side body)) ->
  exists co' cn', foldl parse_line (mkState hs (Some h) co cn) (raw_row <$> body)
    = mkState hs (Some (add_lines h (line_of <$> body))) co' cn'.
Proof.
  revert h co cn i j. induction body as [|r body IH]; intros h co cn i j Hn Ha.
  { exists co, cn. simpl. unfold add_lines. rewrite app_nil_r. by destruct h. }
  destruct (parse_row hs h co cn i j r body Hn Ha) as (co' & cn' & i' & j' & Hp & Hn' & Ha').
  destruct (IH _ _ _ _ _ Hn' Ha') as (co'' & cn'' & IH'). exists co'', cn''.
  rewrite fmap_cons. simpl. rewrite Hp, IH'. f_equal. unfold add_lines. cbn. by rewrite <- app_assoc.
Qed.

(** *** The whole text *)

(** Rows numbered from the first line of either text, few enough for a [u32]. *)
Record numbers_fit (rs : list Row) : Prop := mkFit {
  fit_numbered : numbered 0 0 rs;
  fit_old : (N.of_nat (length (old_side rs)) <= u32_max)%N;
  fit_new : (N.of_nat (length (new_side rs)) <= u32_max)%N;
}.

Lemma slice_split rs s e :
  s <= e -> rs = take s rs ++ slice rs (s, e) ++ drop e rs.
Proof.
  intros H. unfold slice. cbn. rewrite <- (take_drop e rs) at 1.
  rewrite app_assoc. f_equal. rewrite <- (take_drop s (take e rs)) at 1.
  by rewrite take_take, Nat.min_l.
Qed.

(** What a slice of numbered rows is numbered from. *)
Lemma slice_numbered rs s e :
  s <= e -> numbers_fit rs ->
  let i := length (old_side (take s rs)) in
  let j := length (new_side (take s rs)) in
  numbered 0 0 (take s rs) /\ numbered i j (slice rs (s, e)) /\
  (N.of_nat (i + length (old_side (slice rs (s, e)))) <= u32_max)%N /\
  (N.of_nat (j + length (new_side (slice rs (s, e)))) <= u32_max)%N.
Proof.
  intros Hse [Hn Ho Hw]. rewrite (slice_split rs s e Hse) in Hn, Ho, Hw.
  rewrite !numbered_app in Hn. rewrite !old_side_app, !length_app in Ho.
  rewrite !new_side_app, !length_app in Hw.
  destruct Hn as (Hb & Hs & _). split_and!; [done|done|lia|lia].
Qed.

Lemma hunk_of_fields rs s e :
  s <= e -> numbers_fit rs ->
  let i := length (old_side (take s rs)) in
  let j := length (new_side (take s rs)) in
  let o := length (old_side (slice rs (s, e))) in
  let n := length (new_side (slice rs (s, e))) in
  hunk_of rs (s, e)
  = mkHunk (start_number i o) (N.of_nat o) (start_number j n) (N.of_nat n) []
      (line_of <$> slice rs (s, e)).
Proof.
  intros Hse Hf. destruct (slice_numbered rs s e Hse Hf) as (Hb & Hs & Ho & Hw).
  intros i j o n. unfold hunk_of. cbn [fst].
  by rewrite (side_start_old _ _ _ _ Hb Hs eq_refl Ho), (side_start_new _ _ _ _ Hb Hs eq_refl Hw),
    (side_count_old _ _ _ Hs), (side_count_new _ _ _ Hs).
Qed.

Lemma parse_raw_hunk rs s e st :
  s <= e -> numbers_fit rs ->
  close (foldl parse_line st (raw_hunk rs (s, e))) = close st ++ [hunk_of rs (s, e)].
Proof.
  intros Hse Hf. rewrite hunk_of_fields by done.
  destruct (slice_numbered rs s e Hse Hf) as (Hb & Hs & Ho & Hw).
  unfold raw_hunk. cbn [foldl]. unfold parse_line at 2.
  assert (forall b r, starts_with (hunk_header b r) MARK = true) as -> by done.
  cbn [fst]. rewrite (header_parses _ _ _ _ Hb Hs) by done.
  edestruct (parse_body (close st)) as (co & cn & Hp); [exact Hs| |rewrite Hp; done].
  unfold at_line, start_number.
  cbn [old_start old_count new_start new_count].
  split_and!; try lia; intros ?; (rewrite decide_False by done); lia.
Qed.

Lemma parse_raw_hunks rs R st :
  Forall (fun r => r.1 <= r.2) R -> numbers_fit rs ->
  close (foldl parse_line st (R ≫= raw_hunk rs)) = close st ++ (hunk_of rs <$> R).
Proof.
  intros HR Hf. revert st. induction HR as [|[s e] R Hse _ IH]; intros st.
  - simpl. by rewrite app_nil_r.
  - rewrite bind_cons, foldl_app, IH, parse_raw_hunk, fmap_cons by done. by rewrite <- app_assoc.
Qed.

Lemma chain_ordered n lo R : chain n lo R -> Forall (fun r => r.1 <= r.2) R.
Proof.
  revert lo. induction R as [|[s e] R IH]; intros lo; simpl; [by constructor|].
  intros (_ & H & _ & HR). constructor; [simpl; lia|by eapply IH].
Qed.

Lemma raw_hunk_plain rs range :
  Forall (fun r => plain_line (Diff.text r)) rs -> Forall plain_line (raw_hunk rs range).
Proof.
  intros Hp. constructor.
  - unfold hunk_header. split.
    + rewrite !not_elem_of_app. split_and!; try (by intros [?|?]%range_text_elem); set_solver.
    + by rewrite !app_assoc, last_app.
  - apply Forall_fmap. unfold slice. apply Forall_drop, Forall_take.
    eapply Forall_impl; [exact Hp|]. intros r [Hn Hr]. unfold raw_row. split.
    + apply not_elem_of_cons. split; [by destruct (Diff.kind r)|done].
    + cbn. rewrite last_cons. destruct (last (Diff.text r)) eqn:E; [congruence|].
      by destruct (Diff.kind r).
Qed.

(** The text of the hunks reads back as the hunks. *)
Lemma parse_render rs ctx :
  numbers_fit rs -> Forall (fun r => plain_line (Diff.text r)) rs ->
  parse_unified_diff (render rs ctx) = hunk_of rs <$> ranges ctx rs.
Proof.
  intros Hf Hp. unfold parse_unified_diff. rewrite render_lines, lines_end_lines.
  - apply (parse_raw_hunks rs (ranges ctx rs) start); [|done].
    eapply chain_ordered, ranges_spec.
  - induction (ranges ctx rs) as [|r R IH]; [constructor|]. rewrite bind_cons.
    apply Forall_app_2; [by apply raw_hunk_plain|done].
Qed.
End ParseProps.

(** ** Patching *)

Module DiffProps.
Import Diff RowProps RangeProps Hunks ParseProps.

(** The reference patcher: what a list of hunks does to the lines of a text.  A context or
    removed line must be the line the text has there. *)
Fixpoint patch_lines (ls : list DiffLine) (old : list Str) : option (list Str * list Str) :=
  match ls with
  | [] => Some ([], old)
  | l :: ls' =>
      match kind l, old with
      | Added, _ => '(out, rest) ← patch_lines ls' old; Some (text l :: out, rest)
      | _, [] => None
      | k, x :: old' =>
          if bool_decide (x = text l) then
            '(out, rest) ← patch_lines ls' old';
            Some (if bool_decide (k = Context) then x :: out else out, rest)
          else None
      end
  end.

(** [pos] lines of the text were passed. *)
Fixpoint patch_from (pos : nat) (hs : list Hunk) (old : list Str) : option (list Str) :=
  match hs with
  | [] => Some old
  | h :: hs' =>
      let first := lines_before (old_start h) (old_count h) in
      if (pos <=? first) && (first - pos <=? length old) then
        '(out, rest) ← patch_lines (lines h) (drop (first - pos) old);
        tail ← patch_from (first + N.to_nat (old_count h)) hs' rest;
        Some (take (first - pos) old ++ out ++ tail)
      else None
  end.
Definition patch (hs : list Hunk) (old : list Str) : option (list Str) := patch_from 0 hs old.

(** The hunks the other way round. *)
Definition swap_line (l : DiffLine) : DiffLine :=
  mkLine (match kind l with Context => Context | Added => Removed | Removed => Added end)
    (new_line l) (old_line l) (text l).
Definition undo (h : Hunk) : Hunk :=
  mkHunk (new_start h) (new_count h) (old_start h) (old_count h) (section h)
    (swap_line <$> lines h).

Lemma patch_body body rest :
  patch_lines (line_of <$> body) (old_side body ++ rest) = Some (new_side body, rest).
Proof.
  induction body as [|r body IH]; [done|].
  rewrite fmap_cons, old_side_cons, new_side_cons. destruct r as [k ol nl tx].
  destruct k; cbn; rewrite ?bool_decide_true by done; by rewrite IH.
Qed.

(** Context rows are the same on both sides. *)
Lemma context_sides rs :
  Forall (fun r => Diff.kind r = Diff.Context) rs -> old_side rs = new_side rs.
Proof.
  induction 1 as [|r rs Hr _ IH]; [done|]. rewrite old_side_cons, new_side_cons, Hr. by rewrite IH.
Qed.

(** Outside the ranges nothing changed. *)
Definition hidden_context (rs : list Row) (lo : nat) (R : list (nat * nat)) : Prop :=
  forall k r, lo <= k -> rs !! k = Some r -> ~ shown k R -> Diff.kind r = Diff.Context.

Lemma forall_slice {A} (P : A -> Prop) (l : list A) lo n :
  (forall k x, lo <= k < lo + n -> l !! k = Some x -> P x) -> Forall P (take n (drop lo l)).
Proof.
  intros H. apply Forall_lookup_2. intros i x [Hi Hn]%lookup_take_Some.
  rewrite lookup_drop in Hi. apply (H (lo + i)); [lia|done].
Qed.

Lemma chain_lower n lo R r : chain n lo R -> r ∈ R -> lo <= r.1.
Proof.
  revert lo. induction R as [|[s e] R IH]; intros lo; [by intros _ ?%elem_of_nil|].
  intros (Hlo & Hse & _ & HR) [->|Hr]%elem_of_cons; [done|]. specialize (IH _ HR Hr). lia.
Qed.

Lemma chain_weaken n lo lo' R : lo' <= lo -> chain n lo R -> chain n lo' R.
Proof. destruct R as [|[s e] R]; simpl; [done|]. intros H (? & ? & ? & ?). split_and!; (done || lia). Qed.

(** The rows from [lo] on, the first range being [s] to [e]. *)
Lemma rows_split rs lo s e :
  lo <= s -> s <= e -> e <= length rs ->
  let gap := take (s - lo) (drop lo rs) in
  drop lo rs = gap ++ slice rs (s, e) ++ drop e rs /\
  take s rs = take lo rs ++ gap /\ take e rs = take s rs ++ slice rs (s, e).
Proof.
  intros Hlo Hse He gap.
  assert (take e rs = take s rs ++ slice rs (s, e)) as Hte.
  { unfold slice. cbn. rewrite <- (take_drop s (take e rs)) at 1. by rewrite take_take, Nat.min_l. }
  assert (take s rs = take lo rs ++ gap) as Hts.
  { unfold gap. rewrite take_take_drop. f_equal. lia. }
  split_and!; [|done|done].
  apply (app_inv_head (take lo rs)). rewrite take_drop, (app_assoc (take lo rs)), <- Hts, app_assoc, <- Hte.
  by rewrite take_drop.
Qed.

Lemma hidden_gap rs lo s e R :
  chain (length rs) (S e) R -> lo <= s -> s < e -> hidden_context rs lo ((s, e) :: R) ->
  Forall (fun r => Diff.kind r = Diff.Context) (take (s - lo) (drop lo rs)) /\
  hidden_context rs e R.
Proof.
  intros Hc Hlo Hse Hh. split.
  - apply forall_slice. intros k r Hk Hr. apply (Hh k); [lia|done|].
    intros (x & [->|Hx]%elem_of_cons & Hin); simpl in *; [lia|].
    pose proof (chain_lower _ _ _ _ Hc Hx). lia.
  - intros k r Hk Hr Hs. apply (Hh k); [lia|done|].
    intros (x & [->|Hx]%elem_of_cons & Hin); simpl in *; [lia|]. apply Hs. by exists x.
Qed.

Lemma patch_ranges rs R lo :
  numbers_fit rs -> chain (length rs) lo R -> hidden_context rs lo R ->
  patch_from (length (old_side (take lo rs))) (hunk_of rs <$> R) (old_side (drop lo rs))
  = Some (new_side (drop lo rs)).
Proof.
  intros Hf. revert lo. induction R as [|[s e] R IH]; intros lo Hc Hh.
  - simpl. f_equal. apply context_sides. rewrite <- (take_ge (drop lo rs) (length rs)).
    2: { rewrite length_drop. lia. }
    apply forall_slice. intros k r Hk Hr. apply (Hh k); [lia|done|].
    intros (x & Hx & _). by apply elem_of_nil in Hx.
  - destruct Hc as (Hlo & Hse & He & Hc).
    destruct (hidden_gap _ _ _ _ _ Hc Hlo Hse Hh) as [Hgap Hh'].
    specialize (IH e (chain_weaken _ (S e) e _ ltac:(lia) Hc) Hh').
    destruct (rows_split rs lo s e Hlo ltac:(lia) He) as (Hall & Hs & Hte).
    apply context_sides in Hgap.
    rewrite fmap_cons. cbn [patch_from]. rewrite hunk_of_fields by (lia || done).
    cbn [old_start old_count lines]. rewrite lines_before_start, Nat2N.id.
    rewrite Hall. revert Hs Hte Hgap IH. generalize (take (s - lo) (drop lo rs)) as gap.
    generalize (slice rs (s, e)) as body. intros body gap -> -> Hgap IH.
    rewrite !old_side_app, !new_side_app, !length_app in *.
    rewrite Nat.add_sub' , (proj2 (Nat.leb_le _ _)), (proj2 (Nat.leb_le _ _)) by lia. cbn [andb].
    rewrite drop_app_length, take_app_length, patch_body. cbn.
    rewrite IH. cbn. by rewrite Hgap.
Qed.

(** Hunks cut from rows turn the old side into the new one. *)
Lemma patch_rows rs ctx :
  numbers_fit rs -> patch (hunk_of rs <$> ranges ctx rs) (old_side rs) = Some (new_side rs).
Proof.
  intros Hf. destruct (ranges_spec ctx rs) as [Hc Hs].
  apply (patch_ranges rs (ranges ctx rs) 0 Hf Hc).
  intros k r _ Hr Hk. destruct (decide (Diff.kind r = Diff.Context)) as [|Hn]; [done|].
  exfalso. apply Hk, Hs; [by eapply lookup_lt_Some|]. exists k. split; [by exists r|lia].
Qed.

(** ** The other way round *)

Lemma line_of_swap r : line_of (swap r) = swap_line (line_of r).
Proof. unfold line_of, swap_line, swap. cbn. by destruct (Diff.kind r). Qed.

Lemma swap_context r : (Diff.kind (swap r) = Diff.Context) <-> (Diff.kind r = Diff.Context).
Proof. cbn. by destruct (Diff.kind r). Qed.

Lemma ranges_swap ctx rs : ranges ctx (swap <$> rs) = ranges ctx rs.
Proof.
  unfold ranges. rewrite length_fmap. generalize (length rs) as n. intros n.
  induction rs as [|r rs IH] using rev_ind; [done|].
  rewrite fmap_app, !imap_app, !foldl_app, IH, length_fmap. cbn -[swap]. unfold push_range.
  by rewrite (bool_decide_ext _ _ (swap_context r)).
Qed.

Lemma numbers_fit_swap rs : numbers_fit rs -> numbers_fit (swap <$> rs).
Proof.
  intros [Hn Ho Hw]. split; [by apply numbered_swap|by rewrite old_side_swap|by rewrite new_side_swap].
Qed.

Lemma hunk_of_swap rs s e :
  s <= e -> numbers_fit rs -> hunk_of (swap <$> rs) (s, e) = undo (hunk_of rs (s, e)).
Proof.
  intros Hse Hf. rewrite !hunk_of_fields by (done || by apply numbers_fit_swap).
  assert (slice (swap <$> rs) (s, e) = swap <$> slice rs (s, e)) as ->.
  { unfold slice. cbn. by rewrite fmap_drop, fmap_take. }
  rewrite <- fmap_take, !old_side_swap, !new_side_swap. unfold undo. cbn. f_equal.
  rewrite <- !list_fmap_compose. apply list_fmap_ext. intros _ r _. apply line_of_swap.
Qed.

Lemma undo_rows rs ctx :
  numbers_fit rs -> patch (undo <$> (hunk_of rs <$> ranges ctx rs)) (new_side rs) = Some (old_side rs).
Proof.
  intros Hf. pose proof (patch_rows (swap <$> rs) ctx (numbers_fit_swap rs Hf)) as Hp.
  rewrite old_side_swap, new_side_swap, ranges_swap in Hp. rewrite <- Hp. f_equal.
  rewrite <- list_fmap_compose. pose proof (chain_ordered _ _ _ (proj1 (ranges_spec ctx rs))) as Hc.
  clear Hp. induction Hc as [|[s e] R Hse _ IH]; [done|]. rewrite !fmap_cons, hunk_of_swap by done.
  by rewrite IH.
Qed.

(** ** The round trip *)

(** The lines a diff can carry: its reader takes a carriage return before a line feed off. *)
Definition carried (s : Str) : Prop := Forall (fun l => last l <> Some RETURN) (str_lines s).

Definition few_lines (s : Str) : Prop := (N.of_nat (length (str_lines s)) <= u32_max)%N.

Lemma old_side_plain (P : Str -> Prop) rs :
  Forall P (old_side rs) -> Forall P (new_side rs) -> Forall (fun r => P (Diff.text r)) rs.
Proof.
  induction rs as [|r rs IH]; [by constructor|]. rewrite old_side_cons, new_side_cons.
  destruct (Diff.kind r); rewrite ?Forall_cons; intuition.
Qed.

(** The rows of two texts. *)
Lemma text_rows old new :
  carried old -> carried new -> few_lines old -> few_lines new ->
  exists rs,
    rows (str_lines old) (str_lines new) (diff_ops (str_lines old) (str_lines new)) = Some rs /\
    Diff.kind <$> rs = row_kind <$> diff_ops (str_lines old) (str_lines new) /\
    old_side rs = str_lines old /\ new_side rs = str_lines new /\
    numbers_fit rs /\ Forall (fun r => plain_line (Diff.text r)) rs.
Proof.
  intros Ho Hn Hfo Hfn.
  destruct (rows_spec (str_lines old) (str_lines new)) as (rs & Hrs & Hk & Hnum & Hso & Hsn).
  exists rs. split_and!; [done..| |].
  - split; [done|by rewrite Hso|by rewrite Hsn].
  - assert (forall s, carried s -> Forall plain_line (str_lines s)) as Hp.
    { intros s Hs. apply Forall_and. split; [apply lines_no_newline|done]. }
    apply old_side_plain; [rewrite Hso|rewrite Hsn]; by apply Hp.
Qed.

Lemma diff_patches old new ctx :
  carried old -> carried new -> few_lines old -> few_lines new ->
  exists d, unified_diff_with_context old new ctx = Some d /\
    patch (parse_unified_diff d) (str_lines old) = Some (str_lines new) /\
    patch (undo <$> parse_unified_diff d) (str_lines new) = Some (str_lines old).
Proof.
  intros Ho Hn Hfo Hfn. unfold unified_diff_with_context. case_bool_decide as Heq.
  { subst. by exists []. }
  destruct (text_rows old new Ho Hn Hfo Hfn) as (rs & Hrs & _ & Hso & Hsn & Hf & Hp).
  rewrite Hrs. eexists. split; [done|]. rewrite parse_render, <- Hso, <- Hsn by done.
  split; [by apply patch_rows|by apply undo_rows].
Qed.

(** C34: The diff a file tool records is the change it made.  Whatever the two texts and the
    width of the context, the diff is produced; the transcript reads the text back into
    hunks; and the hunks patch the lines of the old text into those of the new one, and,
    taken the other way round, the new ones back into the old, as long as no line ends in
    a carriage return and the lines can be numbered. *)
Theorem diff_roundtrip old new ctx :
  carried old -> carried new -> few_lines old -> few_lines new ->
  exists d, unified_diff_with_context old new ctx = Some d /\
    patch (parse_unified_diff d) (str_lines old) = Some (str_lines new) /\
    patch (undo <$> parse_unified_diff d) (str_lines new) = Some (str_lines old).
Proof. apply diff_patches. Qed.

(** ** The diffstat *)

Definition count_kind (k : RowKind) (rs : list Row) : nat :=
  length (base.filter (fun r => Diff.kind r = k) rs).

Lemma count_kind_app k a b : count_kind k (a ++ b) = count_kind k a + count_kind k b.
Proof. unfold count_kind. by rewrite filter_app, length_app. Qed.

Lemma count_hidden k rs :
  k <> Diff.Context -> Forall (fun r => Diff.kind r = Diff.Context) rs -> count_kind k rs = 0.
Proof.
  intros Hk. unfold count_kind. induction 1 as [|r rs Hr _ IH]; [done|].
  rewrite filter_cons_False; [done|congruence].
Qed.

Lemma count_line_of k rs :
  length (base.filter (fun l => kind l = line_kind_of k) (line_of <$> rs)) = count_kind k rs.
Proof.
  unfold count_kind. induction rs as [|r rs IH]; [done|].
  rewrite fmap_cons, !filter_cons. cbn [line_of kind].
  case_decide as H1; case_decide as H2; simpl; rewrite ?IH; try done;
    exfalso; by destruct (Diff.kind r), k.
Qed.

Lemma count_ranges k rs R lo :
  k <> Diff.Context -> chain (length rs) lo R -> hidden_context rs lo R ->
  sum_list (count (line_kind_of k) <$> (hunk_of rs <$> R)) = count_kind k (drop lo rs).
Proof.
  intros Hk. revert lo. induction R as [|[s e] R IH]; intros lo Hc Hh.
  - simpl. symmetry. apply count_hidden; [done|]. rewrite <- (take_ge (drop lo rs) (length rs)).
    2: { rewrite length_drop. lia. }
    apply forall_slice. intros i r Hi Hr. apply (Hh i); [lia|done|].
    intros (x & Hx & _). by apply elem_of_nil in Hx.
  - destruct Hc as (Hlo & Hse & He & Hc).
    destruct (hidden_gap _ _ _ _ _ Hc Hlo Hse Hh) as [Hgap Hh'].
    destruct (rows_split rs lo s e Hlo ltac:(lia) He) as (-> & _ & _).
    rewrite !fmap_cons. cbn [sum_list]. rewrite (IH e) by (done || by eapply chain_weaken; [|exact Hc]; lia).
    rewrite !count_kind_app, (count_hidden k _ Hk Hgap). cbn. f_equal.
    unfold count, hunk_of. cbn [lines]. apply count_line_of.
Qed.

(** How many edits of a kind the two texts take. *)
Definition edits (o : Op) (old new : Str) : nat :=
  length (base.filter (fun o' => o' = o) (diff_ops (str_lines old) (str_lines new))).

Lemma count_rows o rs ops :
  Diff.kind <$> rs = row_kind <$> ops ->
  count_kind (row_kind o) rs = length (base.filter (fun o' => o' = o) ops).
Proof.
  unfold count_kind. revert ops. induction rs as [|r rs IH]; intros [|o' ops]; try done.
  rewrite !fmap_cons. intros [= Hr Hk]. rewrite !filter_cons, Hr.
  case_decide as H1; case_decide as H2; simpl; rewrite <- ?(IH _ Hk); try done;
    exfalso; by destruct o', o.
Qed.

(** The diffstat of a row is the change: the added and removed lines the transcript
    counts in the recorded diff are the additions and removals of the smallest edit, and
    nothing is stated when there are none. *)
Theorem diffstat_is_exact old new ctx :
  old <> new -> carried old -> carried new -> few_lines old -> few_lines new ->
  exists d, unified_diff_with_context old new ctx = Some d /\
    recorded_diffstat d
      = if (edits Add old new =? 0) && (edits Remove old new =? 0) then []
        else lit " +" ++ show_N (N.of_nat (edits Add old new))
             ++ lit "/-" ++ show_N (N.of_nat (edits Remove old new)).
Proof.
  intros Heq Ho Hn Hfo Hfn. unfold unified_diff_with_context. rewrite bool_decide_false by done.
  destruct (text_rows old new Ho Hn Hfo Hfn) as (rs & Hrs & Hk & _ & _ & Hf & Hp).
  rewrite Hrs. eexists. split; [done|]. unfold recorded_diffstat.
  rewrite parse_render by done. destruct (ranges_spec ctx rs) as [Hc Hs].
  assert (hidden_context rs 0 (ranges ctx rs)) as Hh.
  { intros k r _ Hr Hns. destruct (decide (Diff.kind r = Diff.Context)) as [|Hx]; [done|].
    exfalso. apply Hns, Hs; [by eapply lookup_lt_Some|]. exists k. split; [by exists r|lia]. }
  rewrite (count_ranges Diff.Added rs _ 0), (count_ranges Diff.Removed rs _ 0), drop_0 by done.
  unfold edits. by rewrite <- (count_rows Add rs _ Hk), <- (count_rows Remove rs _ Hk).
Qed.

(** ** The gaps *)

(** A range shown for a context of a line or more ends, when rows follow it, on a row that
    did not change, and so does it begin when rows come before. *)
Lemma boundary_context ctx rs k r :
  0 < ctx -> rs !! k = Some r -> shown k (ranges ctx rs) ->
  (~ shown (S k) (ranges ctx rs) /\ S k < length rs \/
   exists k', k = S k' /\ ~ shown k' (ranges ctx rs)) ->
  Diff.kind r = Diff.Context.
Proof.
  intros Hctx Hr Hk Hb. destruct (ranges_spec ctx rs) as [_ Hs].
  destruct (decide (Diff.kind r = Diff.Context)) as [|Hn]; [done|]. exfalso.
  pose proof (lookup_lt_Some _ _ _ Hr) as Hlt.
  assert (changed rs k) as Hch by by exists r.
  destruct Hb as [[Hb Hl]|(k' & -> & Hb)]; apply Hb, Hs; try lia; (eexists; split; [exact Hch|lia]).
Qed.

Lemma chain_app n lo R R' :
  chain n lo (R ++ R') -> chain n lo R /\ exists lo', lo <= lo' /\ chain n lo' R'.
Proof.
  revert lo. induction R as [|[s e] R IH]; intros lo; simpl; [by eauto|].
  intros (Hlo & Hse & He & HR). destruct (IH _ HR) as (Hc & lo' & Hle & Hc').
  split; [done|]. exists lo'. split; [lia|done].
Qed.

Lemma not_shown_between n R R' s e s' e' k :
  chain n 0 (R ++ (s, e) :: (s', e') :: R') -> e <= k < s' ->
  ~ shown k (R ++ (s, e) :: (s', e') :: R').
Proof.
  intros Hc Hk ([x y] & Hx & Hin). simpl in Hin.
  rewrite cons_middle, app_assoc in Hc. pose proof Hc as Hc2.
  apply chain_app in Hc as (Hc1 & lo & _ & Hs' & _ & _ & HR').
  rewrite cons_middle, app_assoc in Hx. apply elem_of_app in Hx as [Hx|[[= -> ->]|Hx]%elem_of_cons].
  - apply elem_of_app in Hx as [Hx|[= -> ->]%list_elem_of_singleton]; [|lia].
    clear - Hc1 Hx Hin Hk. revert Hc1. generalize 0 as lo. induction R as [|[a b] R IH]; intros lo.
    { by apply elem_of_nil in Hx. }
    simpl. intros (_ & Hab & _ & Hc). apply elem_of_cons in Hx as [[= -> ->]|Hx]; [|by eapply IH].
    assert (s ∈ (fst <$> (R ++ [(s, e)]))) as Hs by (rewrite fmap_app; set_solver).
    apply list_elem_of_fmap in Hs as ([a' b'] & Hs & Hin'). simpl in Hs. subst a'.
    pose proof (chain_lower _ _ _ (s, e) Hc ltac:(apply elem_of_app; right; by left)). simpl in *.
    apply chain_snoc in Hc as (_ & _ & ? & _). lia.
  - lia.
  - pose proof (chain_lower _ _ _ _ HR' Hx). simpl in *.
    assert (s' < e') by (clear - Hc2; by apply chain_app in Hc2 as (_ & ? & _ & _ & ? & _)). lia.
Qed.

Lemma old_side_nonempty rs r : r ∈ rs -> Diff.kind r = Diff.Context -> length (old_side rs) <> 0.
Proof.
  intros Hr Hk. assert (Diff.text r ∈ old_side rs) as Hin.
  { apply list_elem_of_fmap. exists r. split; [done|]. apply list_elem_of_filter. by rewrite Hk. }
  by destruct (old_side rs); [apply elem_of_nil in Hin|].
Qed.

Lemma old_side_context rs :
  Forall (fun r => Diff.kind r = Diff.Context) rs -> length (old_side rs) = length rs.
Proof. induction 1 as [|r rs Hr _ IH]; [done|]. rewrite old_side_cons, Hr. simpl. by rewrite IH. Qed.

Lemma elem_of_slice rs s e k r : s <= k < e -> rs !! k = Some r -> r ∈ slice rs (s, e).
Proof.
  intros Hk Hr. apply list_elem_of_lookup. exists (k - s). unfold slice. cbn.
  rewrite lookup_drop, lookup_take_lt by lia. by replace (s + (k - s)) with k by lia.
Qed.

(** The number a gap states, from the numbers of the two hunks. *)
Lemma skipped_spec rs s e s' e' :
  numbers_fit rs -> s < e -> e <= s' -> s' < e' -> e' <= length rs ->
  length (old_side (slice rs (s, e))) <> 0 -> length (old_side (slice rs (s', e'))) <> 0 ->
  Forall (fun r => Diff.kind r = Diff.Context) (take (s' - e) (drop e rs)) ->
  skipped_between (hunk_of rs (s, e)) (hunk_of rs (s', e')) = s' - e.
Proof.
  intros Hf Hse Hes Hse' He' Ho Ho' Hgap.
  destruct (slice_numbered rs s' e' ltac:(lia) Hf) as (_ & _ & Hmax & _).
  destruct (rows_split rs 0 s e ltac:(lia) ltac:(lia) ltac:(lia)) as (_ & _ & Hte).
  destruct (rows_split rs e s' e' ltac:(lia) ltac:(lia) ltac:(lia)) as (_ & Hts & _).
  rewrite !hunk_of_fields by (done || lia). unfold skipped_between, start_number. cbn [old_start old_count].
  rewrite !decide_False by done. rewrite Hts, Hte, !old_side_app, !length_app in *.
  rewrite (old_side_context _ Hgap), length_take, length_drop in *.
  unfold u32_saturating_add. lia.
Qed.

(** The gap between two hunks says how many lines it leaves out.  With a line of context
    or more, the number the transcript computes from the headers of two successive hunks is
    the number of lines neither shows, and none of those changed. *)
Theorem gaps_are_exact ctx rs R s e s' e' R' :
  0 < ctx -> numbers_fit rs -> ranges ctx rs = R ++ (s, e) :: (s', e') :: R' ->
  0 < s' - e /\
  Forall (fun r => Diff.kind r = Diff.Context) (take (s' - e) (drop e rs)) /\
  skipped_between (hunk_of rs (s, e)) (hunk_of rs (s', e')) = s' - e.
Proof.
  intros Hctx Hf HR. destruct (ranges_spec ctx rs) as [Hc Hs]. pose proof Hc as Hc2. rewrite HR in Hc2.
  pose proof (chain_app _ _ _ _ Hc2) as (_ & lo & _ & Hse & Hel & He & Hes & Hse' & He' & _).
  assert (forall k, e <= k < s' -> ~ shown k (ranges ctx rs)) as Hns.
  { intros k Hk. rewrite HR. by apply (not_shown_between (length rs)). }
  assert (Forall (fun r => Diff.kind r = Diff.Context) (take (s' - e) (drop e rs))) as Hgap.
  { apply forall_slice. intros k r Hk Hr. destruct (decide (Diff.kind r = Diff.Context)) as [|Hn]; [done|].
    exfalso. apply (Hns k); [lia|]. apply Hs; [by eapply lookup_lt_Some|]. exists k. split; [by exists r|lia]. }
  split_and!; [lia|done|]. apply skipped_spec; try (done || lia).
  - destruct (lookup_lt_is_Some_2 rs (e - 1) ltac:(lia)) as [r Hr].
    apply (old_side_nonempty _ r); [by apply (elem_of_slice _ _ _ (e - 1)); [lia|]|].
    apply (boundary_context ctx rs (e - 1)); [done|done| |].
    + rewrite HR. exists (s, e). split; [set_solver|simpl; lia].
    + left. replace (S (e - 1)) with e by lia. split; [apply Hns; lia|lia].
  - destruct (lookup_lt_is_Some_2 rs s' ltac:(lia)) as [r Hr].
    apply (old_side_nonempty _ r); [by apply (elem_of_slice _ _ _ s'); [lia|]|].
    apply (boundary_context ctx rs s'); [done|done| |].
    + rewrite HR. exists (s', e'). split; [set_solver|simpl; lia].
    + right. exists (s' - 1). split; [lia|]. apply Hns. lia.
Qed.
End DiffProps.

(** ** On concrete texts *)

Module DiffWitness.
Import DiffProps Hunks ParseProps.

(** A text of one-character lines. *)
Definition lines_of_chars (s : string) : Str := end_lines ((fun c => [c]) <$> lit s).

Definition before : Str := lines_of_chars "abcdefghijklmnop".
Definition after : Str := lines_of_chars "aXcdefghijklmnYZp".

Lemma before_lines : carried before /\ carried after /\ few_lines before /\ few_lines after.
Proof.
  split_and!; try by vm_compute.
  - unfold carried. vm_compute str_lines. repeat constructor; done.
  - unfold carried. vm_compute str_lines. repeat constructor; done.
Qed.

Lemma diff_roundtrip_witness :
  exists d, Diff.unified_diff_with_context before after 1 = Some d /\
    length (parse_unified_diff d) = 2 /\
    patch (parse_unified_diff d) (str_lines before) = Some (str_lines after).
Proof.
  destruct before_lines as (H1 & H2 & H3 & H4).
  destruct (diff_roundtrip before after 1 H1 H2 H3 H4) as (d & Hd & Hp & _).
  exists d. split_and!; [done| |done].
  assert (Some d = Diff.unified_diff_with_context before after 1) as He by done.
  vm_compute in He. injection He as ->. by vm_compute.
Defined.

Lemma diffstat_is_exact_witness :
  exists d, Diff.unified_diff_with_context before after 3 = Some d /\
    recorded_diffstat d = lit " +3/-2".
Proof.
  destruct before_lines as (H1 & H2 & H3 & H4).
  destruct (diffstat_is_exact before after 3 ltac:(done) H1 H2 H3 H4) as (d & Hd & Hs).
  exists d. split; [done|]. rewrite Hs. by vm_compute.
Defined.

Definition demo_rows : list Diff.Row :=
  default [] (Diff.rows (str_lines before) (str_lines after)
                (Diff.diff_ops (str_lines before) (str_lines after))).

Lemma demo_fit : numbers_fit demo_rows.
Proof. split; vm_compute; repeat split; done. Qed.

Lemma gaps_are_exact_witness :
  Diff.ranges 1 demo_rows = [(0, 4); (14, 19)] /\
  skipped_between (hunk_of demo_rows (0, 4)) (hunk_of demo_rows (14, 19)) = 10.
Proof.
  split; [by vm_compute|].
  apply (gaps_are_exact 1 demo_rows [] 0 4 14 19 []); [lia|apply demo_fit|by vm_compute].
Defined.

(** What the diff does not carry: a change of line ends only is recorded as an empty diff,
    and a carriage return inside a line's end is taken off when the diff is read. *)
Lemma line_ends_have_no_diff :
  Diff.unified_diff (lit "a") (lines_of_chars "a") = Some [] /\
  Diff.unified_diff [97; 13; 10]%N [97; 10]%N = Some [].
Proof. split; by vm_compute. Qed.

Lemma returns_are_not_carried :
  let d := default [] (Diff.unified_diff [] [97; 13; 13; 10]%N) in
  str_lines [97; 13; 13; 10]%N = [[97; 13]]%N /\
  patch (parse_unified_diff d) [] = Some [[97%N]].
Proof. split; by vm_compute. Qed.

(** Without context a hunk that only adds names the line it follows, which the gap takes
    for the first one it shows. *)
Lemma gap_without_context :
  let d := default [] (Diff.unified_diff_with_context (lines_of_chars "abcde") (lines_of_chars "axbcye") 0) in
  (fun r => match r with Gap n => Some n | _ => None end) <$> build_rows (parse_unified_diff d)
  = [None; None; Some 3; None; None; None].
Proof. by vm_compute. Qed.
End DiffWitness.
