(* ===== verification/FileTools.v ===== *)
(** * The file tools of the internal harness

    [Fs] is what the tools use of [std::fs] and [std::path] on Linux: a tree of files,
    directories and symbolic links, and how the system resolves a path in it.  [Tools] is
    [goble-core/src/harness/files.rs], from the arguments of a call to the new tree: reading,
    writing, editing and deleting a file inside the workspace. *)

From S2P Require Import Prelude Bytes Text TextDiff.

Local Open Scope nat_scope.

Module Fs.
(** A path is read as its components; [.] and empty ones are not among them.  Paths are
    absolute here: the tools join every path to the workspace directory first. *)
Inductive Component : Type := ParentDir | Normal (name : Str).
Abbreviation Path := (list Component) (only parsing).
(** Where a file or directory is: the names from the root. *)
Abbreviation Loc := (list Str) (only parsing).

#[export] Instance Component_eq_dec : EqDecision Component.
Proof. solve_decision. Defined.

Definition component_of (s : Str) : option Component :=
  if bool_decide (s = [] \/ s = lit ".") then None
  else if bool_decide (s = lit "..") then Some ParentDir else Some (Normal s).

Definition components (s : Str) : Path := omap component_of (split_on SLASH s).
Definition is_absolute (s : Str) : bool := bool_decide (head s = Some SLASH).

(** [Path::join], [Path::parent], [Path::file_name], [Path::starts_with]. *)
Definition join (base : Path) (s : Str) : Path :=
  if is_absolute s then components s else base ++ components s.
Definition parent (p : Path) : option Path :=
  match p with [] => None | _ => Some (take (pred (length p)) p) end.
Definition file_name (p : Path) : option Str :=
  match last p with Some (Normal n) => Some n | _ => None end.
Definition path_starts_with (p base : Path) : bool := bool_decide (take (length base) p = base).

Definition component_str (c : Component) : Str :=
  match c with ParentDir => lit ".." | Normal n => n end.
Definition path_str (p : Path) : Str :=
  match p with [] => [SLASH] | _ => p ≫= fun c => SLASH :: component_str c end.

Definition of_loc (l : Loc) : Path := Normal <$> l.

Inductive Node : Type :=
| File (content : Bytes)
| Dir
| Link (absolute : bool) (target : Path).

Abbreviation t := (gmap (list Str) Node) (only parsing).

Inductive io_error : Type :=
| NotFound | NotADirectory | IsADirectory | FilesystemLoop | AlreadyExists | InvalidData.

Definition node_at (fs : t) (l : Loc) : option Node :=
  match l with [] => Some Dir | _ => fs !! l end.
Definition is_dir (fs : t) (l : Loc) : bool :=
  match node_at fs l with Some Dir => true | _ => false end.

(** A directory's parent; the root is its own. *)
Definition up (l : Loc) : Loc := take (pred (length l)) l.

(** Where the system ends walking the components from a location, links followed, at most
    [links] of them.  The last component need not exist. *)
Fixpoint target (links : nat) (fs : t) : Loc -> Path -> result io_error Loc :=
  fix go (l : Loc) (p : Path) {struct p} : result io_error Loc :=
    match p with
    | [] => Ok l
    | ParentDir :: p' => if is_dir fs l then go (up l) p' else Err NotADirectory
    | Normal n :: p' =>
        if is_dir fs l then
          match fs !! (l ++ [n]) with
          | Some (Link absolute to) =>
              match links with
              | O => Err FilesystemLoop
              | S links => target links fs (if absolute then [] else l) (to ++ p')
              end
          | Some _ => go (l ++ [n]) p'
          | None => if bool_decide (p' = []) then Ok (l ++ [n]) else Err NotFound
          end
        else Err NotADirectory
    end.

(** [MAXSYMLINKS]. *)
Definition MAX_LINKS : nat := 40.

Definition locate (fs : t) (p : Path) : result io_error Loc := target MAX_LINKS fs [] p.

(** The location of what a path names, when that exists. *)
Definition resolve (fs : t) (p : Path) : result io_error Loc :=
  match locate fs p with
  | Ok l => match node_at fs l with Some _ => Ok l | None => Err NotFound end
  | Err e => Err e
  end.

(** [Path::exists], [Path::is_dir], [Path::canonicalize]. *)
Definition exists_ (fs : t) (p : Path) : bool := match resolve fs p with Ok _ => true | Err _ => false end.
Definition path_is_dir (fs : t) (p : Path) : bool :=
  match resolve fs p with Ok l => is_dir fs l | Err _ => false end.
Definition canonicalize (fs : t) (p : Path) : result io_error Path := result_map of_loc (resolve fs p).

Definition read_to_string (fs : t) (p : Path) : result io_error Str :=
  match resolve fs p with
  | Ok l =>
      match node_at fs l with
      | Some (File content) => ok_or InvalidData (from_utf8 content)
      | _ => Err IsADirectory
      end
  | Err e => Err e
  end.

(** [fs::write] creates a file that is not there, through a link whose target is not. *)
Definition write (fs : t) (p : Path) (content : Bytes) : result io_error t :=
  match locate fs p with
  | Ok l => if is_dir fs l then Err IsADirectory else Ok (<[l := File content]> fs)
  | Err e => Err e
  end.

(** The entry a path names in its directory, not followed when it is a link: what [mkdir]
    and [unlink] act on. *)
Definition entry (fs : t) (p : Path) : result io_error (option Loc) :=
  let dir := default [] (parent p) in
  match resolve fs dir with
  | Ok l =>
      if is_dir fs l then Ok ((fun n => l ++ [n]) <$> file_name p) else Err NotADirectory
  | Err e => Err e
  end.

Definition create_dir (fs : t) (p : Path) : result io_error t :=
  match entry fs p with
  | Ok (Some l) => match fs !! l with Some _ => Err AlreadyExists | None => Ok (<[l := Dir]> fs) end
  | Ok None => Err AlreadyExists
  | Err e => Err e
  end.

Definition remove_file (fs : t) (p : Path) : result io_error t :=
  match entry fs p with
  | Ok (Some l) =>
      match fs !! l with
      | Some Dir => Err IsADirectory
      | Some _ => Ok (delete l fs)
      | None => Err NotFound
      end
  | Ok None => Err IsADirectory
  | Err e => Err e
  end.

(** [DirBuilder::create_dir_all]: [n] components of the path are left to try. *)
Fixpoint create_dir_all_from (n : nat) (fs : t) (p : Path) : result io_error t :=
  match create_dir fs p with
  | Ok fs => Ok fs
  | Err NotFound =>
      match n, parent p with
      | S n, Some dir =>
          match create_dir_all_from n fs dir with
          | Ok fs =>
              match create_dir fs p with
              | Ok fs => Ok fs
              | Err e => if path_is_dir fs p then Ok fs else Err e
              end
          | Err e => Err e
          end
      | _, _ => Err NotFound
      end
  | Err e => if path_is_dir fs p then Ok fs else Err e
  end.
Definition create_dir_all (fs : t) (p : Path) : result io_error t :=
  create_dir_all_from (length p) fs p.
End Fs.

Module Tools.
Import Fs.

Section tools.
Context {X : Externs} (io_message : io_error -> Str).

Definition debug_path (p : Path) : Str := debug_str (path_str p).

(** [with_context]: the message is the context's. *)
Definition context {A} (message : Str) (r : result io_error A) : result Str A :=
  result_map_err (fun _ => message) r.
Definition io {A} (r : result io_error A) : result Str A := result_map_err io_message r.

Definition MAX_RECORDED_DIFF : nat := 256 * 1024.

Record ToolOutcome : Type := mkOutcome { output : Str; diff : option Str }.

Definition with_diff (output : Str) (diff : option Str) : ToolOutcome :=
  mkOutcome output
    (d ← diff;
     if bool_decide (d <> []) && (length (as_bytes d) <=? MAX_RECORDED_DIFF) then Some d else None).

(** The loop of [canonicalize_loose], on the components from the last: the deepest ancestor
    that exists and the names below it, the last first. *)
Fixpoint existing_ancestor (fs : t) (rev_path : Path) (tail : list Str) : option (Path * list Str) :=
  if exists_ fs (reverse rev_path) then Some (reverse rev_path, tail)
  else match rev_path with
       | Normal n :: rest => existing_ancestor fs rest (tail ++ [n])
       | _ => None
       end.

Definition canonicalize_loose (fs : t) (p : Path) : Path :=
  match existing_ancestor fs (reverse p) [] with
  | Some (existing, tail) =>
      match canonicalize fs existing with Ok c => c | Err _ => existing end
        ++ (Normal <$> reverse tail)
  | None => p
  end.

Definition canonical_base (fs : t) (workspace_dir : Path) : Path :=
  match canonicalize fs workspace_dir with Ok c => c | Err _ => workspace_dir end.

Definition resolve_path (fs : t) (path : Str) (workspace_dir : Path) : result Str Path :=
  let resolved := join workspace_dir path in
  let base := canonical_base fs workspace_dir in
  let c := canonicalize_loose fs resolved in
  if path_starts_with c base then Ok c
  else Err (lit "path " ++ debug_str path ++ lit " escapes workspace directory " ++ debug_path base).

(** [str::replacen(old, new, 1)]. *)
Definition replace_first (s old new : Str) : Str :=
  match find_str s old with
  | Some i => take i s ++ new ++ drop (i + length old) s
  | None => s
  end.

(** Arguments are what [args["name"].as_str()] gives. *)
Definition read_file (fs : t) (path : option Str) (workspace_dir : Path) : result Str Str :=
  (let? path := ok_or (lit "path is required") path in
   let? path := resolve_path fs path workspace_dir in
   context (lit "failed to read " ++ debug_path path) (read_to_string fs path))%goble.

(** The text a write replaces: none when it cannot be read, empty when there is no file.
    A diff is always produced ([TextDiffProps.RowProps.rows_spec]). *)
Definition previous_text (fs : t) (path : Path) : option Str :=
  match read_to_string fs path with
  | Ok text => Some text
  | Err _ => if exists_ fs path then None else Some []
  end.

Definition write_file (fs : t) (path content : option Str) (workspace_dir : Path)
    : result Str (t * ToolOutcome) :=
  (let? path := ok_or (lit "path is required") path in
   let? content := ok_or (lit "content is required") content in
   let? path := resolve_path fs path workspace_dir in
   let previous := previous_text fs path in
   let? fs := match parent path with
              | Some dir => io (create_dir_all fs dir)
              | None => Ok fs
              end in
   let? fs := context (lit "failed to write " ++ debug_path path)
                (write fs path (as_bytes content)) in
   let diff := previous ≫= fun previous => Diff.unified_diff previous content in
   Ok (fs, with_diff (lit "wrote " ++ debug_path path) diff))%goble.

Definition edit_file (fs : t) (path old_text new_text : option Str) (workspace_dir : Path)
    : result Str (t * ToolOutcome) :=
  (let? path := ok_or (lit "path is required") path in
   let? old_text := ok_or (lit "old_text is required") old_text in
   let? new_text := ok_or (lit "new_text is required") new_text in
   let? path := resolve_path fs path workspace_dir in
   let? content := context (lit "failed to read " ++ debug_path path) (read_to_string fs path) in
   let replaced := replace_first content old_text new_text in
   if bool_decide (replaced = content) then Err (lit "old_text not found in file")
   else
     let? fs := context (lit "failed to write " ++ debug_path path)
                  (write fs path (as_bytes replaced)) in
     Ok (fs, with_diff (lit "edited " ++ debug_path path) (Diff.unified_diff content replaced)))%goble.

Definition delete_file (fs : t) (path : option Str) (workspace_dir : Path)
    : result Str (t * ToolOutcome) :=
  (let? path := ok_or (lit "path is required") path in
   let? path := resolve_path fs path workspace_dir in
   let removed := match read_to_string fs path with Ok text => Some text | Err _ => None end in
   let? fs := context (lit "failed to delete " ++ debug_path path) (remove_file fs path) in
   let diff := removed ≫= fun removed => Diff.unified_diff removed [] in
   Ok (fs, with_diff (lit "deleted " ++ debug_path path) diff))%goble.
End tools.
End Tools.
