(* ===== verification/FileToolsProps.v ===== *)
(** * What the file tools promise

    [FsProps]: how paths resolve when links are, or are not, in the way.  [ToolProps]: which
    file a tool touches, and what it leaves and reports.  [ToolWitness] evaluates the tools
    on small trees, among them those on which a tool leaves the workspace. *)

From S2P Require Import Prelude Bytes Text TextDiff TextDiffProps FileTools.

Local Open Scope nat_scope.

Module FsProps.
Import Fs.

Definition not_link (fs : t) (l : list Str) : Prop :=
  forall absolute to, fs !! l <> Some (Link absolute to).

(** Every directory above a location is one. *)
Definition above (fs : t) (l : list Str) : Prop :=
  forall k, k < length l -> is_dir fs (take k l) = true.

(** No link on the way to a location. *)
Definition link_free (fs : t) (l : list Str) : Prop := forall k, not_link fs (take k l).

(** A location as [canonicalize] gives it. *)
Record real (fs : t) (l : list Str) : Prop := mkReal {
  real_above : above fs l;
  real_not_link : not_link fs l;
  real_exists : is_Some (node_at fs l);
}.

Lemma target_nil links fs l : target links fs l [] = Ok l.
Proof. by destruct links. Qed.

Lemma target_up links fs l p :
  target links fs l (ParentDir :: p)
  = if is_dir fs l then target links fs (up l) p else Err NotADirectory.
Proof. by destruct links. Qed.

Lemma target_name links fs l n p :
  target links fs l (Normal n :: p)
  = if is_dir fs l then
      match fs !! (l ++ [n]) with
      | Some (Link absolute to) =>
          match links with
          | O => Err FilesystemLoop
          | S links => target links fs (if absolute then [] else l) (to ++ p)
          end
      | Some _ => target links fs (l ++ [n]) p
      | None => if bool_decide (p = []) then Ok (l ++ [n]) else Err NotFound
      end
    else Err NotADirectory.
Proof. by destruct links. Qed.

Lemma is_dir_node fs l : is_dir fs l = true <-> node_at fs l = Some Dir.
Proof. unfold is_dir. destruct (node_at fs l) as [[]|]; naive_solver. Qed.

Lemma is_dir_not_link fs l : is_dir fs l = true -> l <> [] -> not_link fs l.
Proof. intros H%is_dir_node Hl a to. destruct l; [done|]. simpl in H. congruence. Qed.

Lemma above_snoc fs l n : above fs l -> is_dir fs l = true -> above fs (l ++ [n]).
Proof.
  intros Ha Hd k Hk. rewrite length_app in Hk. simpl in Hk.
  destruct (decide (k = length l)) as [->|Hn]; [by rewrite take_app_length|].
  rewrite take_app_le by lia. apply Ha. lia.
Qed.

Lemma above_up fs l : above fs l -> above fs (up l).
Proof.
  intros Ha k Hk. unfold up in *. rewrite length_take in Hk. rewrite take_take, Nat.min_l by lia.
  apply Ha. lia.
Qed.

Lemma root_not_link fs l : fs !! ([] : list Str) = None -> l = [] -> not_link fs l.
Proof. intros H -> a to. by rewrite H. Qed.

(** The root is not an entry of its own. *)
Definition rooted (fs : t) : Prop := fs !! ([] : list Str) = None.

Lemma dir_not_link fs l : rooted fs -> is_dir fs l = true -> not_link fs l.
Proof. intros Hr Hd. destruct l as [|n l]; [by apply root_not_link|by apply is_dir_not_link]. Qed.

(** Where a walk ends, directories are above and no link is. *)
Lemma target_sound links fs l p r :
  rooted fs -> above fs l -> not_link fs l -> target links fs l p = Ok r ->
  above fs r /\ not_link fs r.
Proof.
  intros Hroot. revert l p. induction links as [|links IHl]; intros l p; revert l;
    (induction p as [|c p IHp]; intros l Ha Hn; [rewrite target_nil; by intros [= <-]|]);
    destruct c as [|n]; rewrite ?target_up, ?target_name; (destruct (is_dir fs l) eqn:Hd; [|done]).
  1,3: apply IHp; [by apply above_up|]; destruct l as [|x l]; [by apply root_not_link|];
    apply dir_not_link, Ha; [done|simpl; lia].
  all: destruct (fs !! (l ++ [n])) as [[content| |absolute to]|] eqn:Hf.
  all: try done.
  all: try (apply IHp; [by apply above_snoc|intros a to; congruence]).
  all: try (case_bool_decide; [|done]; intros [= <-]; split; [by apply above_snoc|intros a to; congruence]).
  destruct absolute; apply IHl; try done; [intros k Hk; simpl in Hk; lia|by apply root_not_link].
Qed.

Lemma locate_sound fs p r : rooted fs -> locate fs p = Ok r -> above fs r /\ not_link fs r.
Proof.
  intros Hr. apply target_sound; [done|intros k Hk; simpl in Hk; lia|by apply root_not_link].
Qed.

Lemma resolve_sound fs p r : rooted fs -> resolve fs p = Ok r -> locate fs p = Ok r /\ real fs r.
Proof.
  intros Hr. unfold resolve. destruct (locate fs p) as [l|e] eqn:Hl; [|done].
  destruct (node_at fs l) eqn:Hn; [|done]. intros [= <-].
  destruct (locate_sound _ _ _ Hr Hl). split; [done|]. by split.
Qed.

(** Along a location without links a walk can only end there. *)
Lemma target_link_free links fs a b r :
  (forall k, k <= length b -> not_link fs (a ++ take k b)) ->
  target links fs a (of_loc b) = Ok r -> r = a ++ b.
Proof.
  revert a. induction b as [|n b IH]; intros a Hl.
  - unfold of_loc. simpl. rewrite target_nil, app_nil_r. by intros [= <-].
  - unfold of_loc. rewrite fmap_cons, target_name. destruct (is_dir fs a); [|done].
    pose proof (Hl 1 ltac:(simpl; lia)) as H1. simpl in H1. rewrite take_0 in H1.
    assert (target links fs (a ++ [n]) (of_loc b) = Ok r -> r = a ++ n :: b) as Hgo.
    { intros Hr. rewrite (IH (a ++ [n])); [by rewrite <- app_assoc| |done].
      intros k Hk. rewrite <- app_assoc. apply (Hl (S k)). simpl. lia. }
    destruct (fs !! (a ++ [n])) as [[content| |absolute to]|] eqn:Hf; try done.
    { by destruct (H1 absolute to). }
    case_bool_decide as Hb; [|done]. destruct b; [by intros [= <-]|done].
Qed.

Lemma locate_link_free fs l r : link_free fs l -> locate fs (of_loc l) = Ok r -> r = l.
Proof. intros Hl. apply (target_link_free _ _ []). intros k _. apply Hl. Qed.

(** A canonical location resolves to itself. *)
Lemma target_real links fs a b :
  (forall k, k < length b -> is_dir fs (a ++ take k b) = true) -> not_link fs (a ++ b) ->
  target links fs a (of_loc b) = Ok (a ++ b).
Proof.
  revert a. induction b as [|n b IH]; intros a Hd Hn.
  - unfold of_loc. simpl. by rewrite target_nil, app_nil_r.
  - unfold of_loc. rewrite fmap_cons, target_name.
    pose proof (Hd 0 ltac:(simpl; lia)) as H0. rewrite take_0, app_nil_r in H0. rewrite H0.
    assert (target links fs (a ++ [n]) (of_loc b) = Ok (a ++ n :: b)) as Hgo.
    { rewrite IH; [by rewrite <- app_assoc| |by rewrite <- app_assoc].
      intros k Hk. rewrite <- app_assoc. apply (Hd (S k)). simpl. lia. }
    destruct (decide (b = [])) as [->|Hb].
    + destruct (fs !! (a ++ [n])) as [[content| |absolute to]|] eqn:Hf; try done.
      by destruct (Hn absolute to).
    + pose proof (Hd 1 ltac:(destruct b; [done|simpl; lia])) as H1. simpl in H1. rewrite take_0 in H1.
      apply is_dir_node in H1. destruct (a ++ [n]) as [|x l] eqn:E; [by destruct a|].
      simpl in H1. rewrite H1. done.
Qed.

Lemma resolve_real fs l : real fs l -> resolve fs (of_loc l) = Ok l.
Proof.
  intros [Ha Hn [node He]]. unfold resolve, locate.
  rewrite (target_real _ _ [] l); simpl; [by rewrite He|done|done].
Qed.

Lemma real_link_free fs l : rooted fs -> real fs l -> link_free fs l.
Proof.
  intros Hr [Ha Hn _] k. destruct (decide (k < length l)) as [Hk|Hk].
  - by apply dir_not_link, Ha.
  - by rewrite take_ge by lia.
Qed.
End FsProps.

Module ToolProps.
Import Fs FsProps Tools.

Section props.
Context {X : Externs} (io_message : io_error -> Str).

#[export] Instance Normal_inj : Inj (=) (=) Normal.
Proof. by intros a b [=]. Qed.

Lemma of_loc_inj a b : of_loc a = of_loc b -> a = b.
Proof. apply (inj (fmap Normal)). Qed.

Lemma starts_with_base l base :
  path_starts_with (of_loc l) (of_loc base) = bool_decide (base `prefix_of` l).
Proof.
  unfold path_starts_with, of_loc. apply bool_decide_ext. rewrite length_fmap, <- fmap_take. split.
  - intros H%of_loc_inj. exists (drop (length base) l). rewrite <- H at 1. by rewrite take_drop.
  - intros [k ->]. by rewrite take_app_length.
Qed.

Lemma canonical_base_spec fs ws base : resolve fs ws = Ok base -> canonical_base fs ws = of_loc base.
Proof. unfold canonical_base, canonicalize. by intros ->. Qed.

Lemma existing_ancestor_eq fs rp tail :
  existing_ancestor fs rp tail
  = if exists_ fs (reverse rp) then Some (reverse rp, tail)
    else match rp with
         | Normal n :: rest => existing_ancestor fs rest (tail ++ [n])
         | _ => None
         end.
Proof. by destruct rp. Qed.

Lemma existing_ancestor_spec fs rp tail e tl :
  existing_ancestor fs rp tail = Some (e, tl) ->
  exists_ fs e = true /\ exists names, rp = (Normal <$> names) ++ reverse e /\ tl = tail ++ names.
Proof.
  revert tail. induction rp as [|c rp IH]; intros tail; cbn [existing_ancestor].
  - destruct (exists_ fs (reverse [])) eqn:He; [|done]. intros [= <- <-]. split; [done|].
    exists []. split; [done|by rewrite app_nil_r].
  - destruct (exists_ fs (reverse (c :: rp))) eqn:He.
    + intros [= <- <-]. split; [done|]. exists [].
      split; [by rewrite reverse_involutive|by rewrite app_nil_r].
    + destruct c as [|n]; [done|]. intros (Hx & names & -> & ->)%IH. split; [done|].
      exists (n :: names). split; [done|by rewrite <- app_assoc].
Qed.

(** The deepest ancestor of a path that exists is the path. *)
Lemma canonicalize_loose_exists fs p l :
  resolve fs p = Ok l -> canonicalize_loose fs p = of_loc l.
Proof.
  intros Hr. unfold canonicalize_loose.
  assert (exists_ fs p = true) as He by (unfold exists_; by rewrite Hr).
  assert (existing_ancestor fs (reverse p) [] = Some (p, [])) as ->.
  { by rewrite existing_ancestor_eq, reverse_involutive, He. }
  unfold canonicalize. rewrite Hr. simpl. by rewrite app_nil_r.
Qed.

(** The guard of the file tools is exact on what exists: for a path the system resolves,
    through whatever links and parent components, it gives the true location of the file
    when that is in the workspace and refuses it otherwise. *)
Theorem resolve_path_exact fs path ws base l :
  resolve fs ws = Ok base -> resolve fs (join ws path) = Ok l ->
  resolve_path fs path ws
  = if bool_decide (base `prefix_of` l) then Ok (of_loc l)
    else Err (lit "path " ++ debug_str path ++ lit " escapes workspace directory "
                ++ debug_path (of_loc base)).
Proof.
  intros Hb Hl. unfold resolve_path.
  by rewrite (canonical_base_spec _ _ _ Hb), (canonicalize_loose_exists _ _ _ Hl), starts_with_base.
Qed.

(** ** Reading and editing *)

Lemma read_real fs l : real fs l ->
  read_to_string fs (of_loc l) =
    match node_at fs l with Some (File b) => ok_or InvalidData (from_utf8 b) | _ => Err IsADirectory end.
Proof. intros Hr. unfold read_to_string. by rewrite resolve_real. Qed.

Lemma write_real fs l c :
  real fs l -> write fs (of_loc l) c = if is_dir fs l then Err IsADirectory else Ok (<[l := File c]> fs).
Proof.
  intros Hr. unfold write. pose proof (resolve_real fs l Hr) as Hl. unfold resolve in Hl.
  destruct (locate fs (of_loc l)) as [l'|]; [|done]. destruct (node_at fs l'); [|done].
  by injection Hl as ->.
Qed.

Lemma file_node fs l b : node_at fs l = Some (File b) -> l <> [] /\ fs !! l = Some (File b).
Proof. by destruct l. Qed.

Lemma find_str_Some s pat i :
  find_str s pat = Some i -> i <= length s /\ s = take i s ++ pat ++ drop (i + length pat) s.
Proof.
  revert i. induction s as [|c s IH]; intros i; cbn [find_str].
  - case_bool_decide; [subst|done]. by intros [= <-].
  - unfold starts_with. case_bool_decide as Hp.
    + intros [= <-]. split; [lia|]. cbn [Nat.add]. rewrite take_0. cbn [app].
      rewrite <- Hp at 1. by rewrite take_drop.
    + destruct (find_str s pat) as [j|] eqn:Hf; [|done]. intros [= <-].
      destruct (IH j eq_refl) as [Hj Hs]. simpl. split; [lia|]. by f_equal.
Qed.

Lemma replace_first_spec s old new :
  replace_first s old new = s \/
  exists before after, s = before ++ old ++ after /\ find_str s old = Some (length before) /\
    replace_first s old new = before ++ new ++ after.
Proof.
  unfold replace_first. destruct (find_str s old) as [i|] eqn:Hf; [|by left]. right.
  destruct (find_str_Some _ _ _ Hf) as [Hi Hs]. exists (take i s), (drop (i + length old) s).
  split_and!; [done| |done]. f_equal.
  by rewrite length_take, Nat.min_l.
Qed.

Lemma with_diff_Some msg d d' : diff (with_diff msg d) = Some d' -> d = Some d'.
Proof. unfold with_diff. simpl. destruct d; simpl; [|done]. by case_match; intros [= ->]. Qed.

(** C32: An edit changes one file and says how.  Editing a path that exists succeeds only on
    a file of the workspace whose text holds [old_text]; the tree it leaves is the one
    before with the first occurrence replaced in that file and nothing else touched.  When
    no line of either text ends in a carriage return and the lines can be numbered, there
    is a diff that, read back by the transcript, patches the lines the file had into the
    lines it has, and it is recorded unless it is empty or over the recorded size. *)
Theorem edit_changes_one_file fs ws base path old new fs' out :
  rooted fs -> resolve fs ws = Ok base -> exists_ fs (join ws path) = true ->
  edit_file fs (Some path) (Some old) (Some new) ws = Ok (fs', out) ->
  exists l b before after,
    base `prefix_of` l /\ fs !! l = Some (File b) /\
    from_utf8 b = Some (before ++ old ++ after) /\
    find_str (before ++ old ++ after) old = Some (length before) /\
    fs' = <[l := File (as_bytes (before ++ new ++ after))]> fs /\
    (DiffProps.carried (before ++ old ++ after) -> DiffProps.carried (before ++ new ++ after) ->
     DiffProps.few_lines (before ++ old ++ after) -> DiffProps.few_lines (before ++ new ++ after) ->
     exists d,
       DiffProps.patch (Hunks.parse_unified_diff d) (str_lines (before ++ old ++ after))
         = Some (str_lines (before ++ new ++ after)) /\
       diff out = if bool_decide (d <> []) && (length (as_bytes d) <=? MAX_RECORDED_DIFF) then Some d else None).
Proof.
  intros Hroot Hb He. unfold exists_ in He. destruct (resolve fs (join ws path)) as [l|] eqn:Hl; [|done].
  destruct (resolve_sound _ _ _ Hroot Hl) as [_ Hreal].
  unfold edit_file. simpl. rewrite (resolve_path_exact _ _ _ _ _ Hb Hl).
  case_bool_decide as Hpre; [|done]. rewrite read_real by done. unfold context.
  destruct (node_at fs l) as [[b| |]|] eqn:Hn; try done. simpl.
  destruct (from_utf8 b) as [content|] eqn:Hu; [|done]. simpl. case_bool_decide as Hrep; [done|].
  destruct (replace_first_spec content old new) as [?|(before & after & Hc & Hf & Hr)]; [done|].
  destruct (file_node _ _ _ Hn) as [Hne Hfl]. rewrite write_real by done.
  unfold is_dir. rewrite Hn. simpl. rewrite Hr. intros [= <- <-].
  exists l, b, before, after. rewrite Hc in Hu, Hf. split_and!; try done. rewrite Hc.
  intros H1 H2 H3 H4. destruct (DiffProps.diff_patches _ _ Diff.DIFF_CONTEXT H1 H2 H3 H4) as (d & Hd & Hp & _).
  exists d. split; [done|]. unfold with_diff, Diff.unified_diff. by rewrite Hd.
Qed.

(** ** Writing a new file *)

Lemma of_loc_snoc l n : of_loc (l ++ [n]) = of_loc l ++ [Normal n].
Proof. unfold of_loc. by rewrite fmap_app. Qed.

Lemma parent_of_loc l n : parent (of_loc (l ++ [n])) = Some (of_loc l).
Proof.
  rewrite of_loc_snoc. unfold parent. destruct (of_loc l ++ [Normal n]) eqn:E; [by destruct (of_loc l)|].
  rewrite <- E, length_app, Nat.add_1_r. simpl. by rewrite take_app_length.
Qed.

Lemma file_name_of_loc l n : file_name (of_loc (l ++ [n])) = Some n.
Proof. unfold file_name. by rewrite of_loc_snoc, last_snoc. Qed.

Lemma link_free_prefix fs l k : link_free fs (l ++ k) -> link_free fs l.
Proof.
  intros Hl i. specialize (Hl (i `min` length l)). rewrite take_app_le in Hl by lia.
  destruct (decide (i < length l)) as [Hi|Hi]; [by rewrite Nat.min_l in Hl by lia|].
  rewrite Nat.min_r in Hl by lia. rewrite firstn_all in Hl. by rewrite take_ge by lia.
Qed.

(** The directories a tree gained on the way to a location. *)
Definition grown (fs fs1 : t) (l : list Str) : Prop :=
  forall x, fs1 !! x = fs !! x
    \/ (x <> [] /\ x `prefix_of` l /\ fs !! x = None /\ fs1 !! x = Some Dir).

Lemma grown_refl fs l : grown fs fs l.
Proof. by left. Qed.

Lemma grown_link_free fs fs1 l k : grown fs fs1 l -> link_free fs k -> link_free fs1 k.
Proof.
  intros Hg Hk i a to Hf. destruct (Hg (take i k)) as [He|(_ & _ & _ & He)]; [|congruence].
  rewrite He in Hf. by apply (Hk i a to).
Qed.

Lemma create_dir_spec fs l fs1 :
  link_free fs l -> create_dir fs (of_loc l) = Ok fs1 ->
  l <> [] /\ fs !! l = None /\ fs1 = <[l := Dir]> fs.
Proof.
  intros Hl. unfold create_dir, entry. destruct l as [|n l _] using rev_ind; [by simpl|].
  rewrite parent_of_loc, file_name_of_loc. cbn [default from_option id]. unfold resolve.
  destruct (locate fs (of_loc l)) as [r|] eqn:Hr; [|done].
  apply locate_link_free in Hr; [|by eapply link_free_prefix]. subst r.
  destruct (node_at fs l); [|done]. destruct (is_dir fs l); [|done]. cbn [fmap option_fmap option_map].
  destruct (fs !! (l ++ [n])) eqn:Hf; [done|]. intros [= <-]. split; [by destruct l|done].
Qed.

Lemma create_dir_grown fs fs0 l k fs1 :
  grown fs fs0 k -> k `prefix_of` l -> length k < length l -> link_free fs l ->
  create_dir fs0 (of_loc l) = Ok fs1 -> grown fs fs1 l.
Proof.
  intros Hg Hk Hlt Hl Hc. apply create_dir_spec in Hc as (Hne & Hn & ->); [|by eapply grown_link_free].
  intros x. destruct (decide (x = l)) as [->|Hx].
  - right. split_and!; [done|done| |by rewrite lookup_insert_eq].
    destruct (Hg l) as [<-|(_ & Hp%prefix_length & _)]; [done|lia].
  - rewrite lookup_insert_ne by done. destruct (Hg x) as [He|(Hx1 & Hx2 & Hx3 & Hx4)]; [by left|].
    right. split_and!; [done|by trans k|done|done].
Qed.

Lemma create_dir_all_grown n fs l fs1 :
  link_free fs l -> create_dir_all_from n fs (of_loc l) = Ok fs1 -> grown fs fs1 l.
Proof.
  revert l fs1. induction n as [|n IH]; intros l fs1 Hl; simpl;
    destruct (create_dir fs (of_loc l)) as [fs2|[]] eqn:Hc; try done.
  all: try (case_match; [|done]; intros [= <-]; apply grown_refl).
  1,2: intros [= <-]; apply create_dir_spec in Hc as (Hne & Hn & ->); [|done];
    intros x; destruct (decide (x = l)) as [->|Hx];
    [right; by rewrite lookup_insert_eq|left; by rewrite lookup_insert_ne].
  destruct l as [|a l _] using rev_ind; [done|]. rewrite parent_of_loc.
  destruct (create_dir_all_from n fs (of_loc l)) as [fs0|] eqn:Hr; [|done].
  apply IH in Hr; [|by eapply link_free_prefix].
  destruct (create_dir fs0 (of_loc (l ++ [a]))) as [fs3|] eqn:Hc'.
  - intros [= <-]. eapply create_dir_grown; [exact Hr|by apply prefix_app_r| |done|exact Hc'].
    rewrite length_app. simpl. lia.
  - case_match; [|done]. intros [= <-]. intros x. destruct (Hr x) as [He|(H1 & H2 & H3 & H4)]; [by left|].
    right. split_and!; [done|by apply prefix_app_r|done|done].
Qed.

(** Without parent components a path always has an ancestor that exists: the root. *)
Lemma canonicalize_loose_names fs p :
  ParentDir ∉ p -> exists l, canonicalize_loose fs p = of_loc l.
Proof.
  intros Hp. unfold canonicalize_loose.
  destruct (existing_ancestor fs (reverse p) []) as [[e tl]|] eqn:He.
  - apply existing_ancestor_spec in He as [Hx (names & _ & ->)]. unfold exists_ in Hx. unfold canonicalize.
    destruct (resolve fs e) as [l|]; [|done]. simpl. exists (l ++ reverse names).
    unfold of_loc. by rewrite fmap_app.
  - exfalso. rewrite <- (reverse_involutive p) in Hp. revert He Hp. generalize (reverse p) as rp.
    generalize (@nil Str) as tl. intros tl rp. revert tl.
    induction rp as [|c rp IH]; intros tl; rewrite existing_ancestor_eq; [done|].
    case_match; [done|]. destruct c as [|n].
    + intros _ Hp. apply Hp. rewrite reverse_cons. set_solver.
    + intros He Hp. eapply IH; [exact He|]. rewrite reverse_cons in Hp. set_solver.
Qed.

Lemma base_prefix fs base l x :
  rooted fs -> real fs base -> base `prefix_of` l -> x `prefix_of` l -> x <> [] -> fs !! x = None ->
  base `prefix_of` x.
Proof.
  intros Hroot [Ha _ _] Hb Hx Hne Hn. destruct (prefix_weak_total _ _ _ Hb Hx) as [|[k Hk]]; [done|].
  destruct k as [|a k]; [by rewrite app_nil_r in Hk; subst|].
  assert (is_dir fs x = true) as Hd.
  { replace x with (take (length x) base) by (by rewrite Hk, take_app_length). apply Ha.
    rewrite Hk, length_app. simpl. lia. }
  apply is_dir_node in Hd. destruct x; [done|]. simpl in Hd. congruence.
Qed.

(** C31: A write stays in the workspace.  For a path that names no parent directory and
    resolves to a place no symbolic link leads to, whatever has to be created on the way,
    a successful write changes nothing outside the workspace's true location: it puts the
    text in one file inside and adds directories inside, and leaves every other entry of
    the tree as it was. *)
Theorem write_stays_inside fs ws base path content fs' out :
  rooted fs -> resolve fs ws = Ok base -> ParentDir ∉ join ws path ->
  (forall l, resolve_path fs path ws = Ok (of_loc l) -> link_free fs l) ->
  write_file io_message fs (Some path) (Some content) ws = Ok (fs', out) ->
  exists l, base `prefix_of` l /\ fs' !! l = Some (File (as_bytes content)) /\
    forall x, x <> l -> fs' !! x = fs !! x
      \/ (base `prefix_of` x /\ fs !! x = None /\ fs' !! x = Some Dir).
Proof.
  intros Hroot Hb Hp Hlinks. destruct (canonicalize_loose_names fs _ Hp) as [l Hl].
  unfold write_file. cbn [ok_or]. unfold resolve_path in *.
  rewrite Hl, (canonical_base_spec _ _ _ Hb), starts_with_base in *.
  case_bool_decide as Hpre; [|done]. specialize (Hlinks l eq_refl).
  destruct (resolve_sound _ _ _ Hroot Hb) as [_ Hreal].
  destruct l as [|n l _] using rev_ind.
  { simpl. by destruct (write fs [] (as_bytes content)) eqn:Hw. }
  rewrite parent_of_loc.
  destruct (create_dir_all fs (of_loc l)) as [fs1|] eqn:Hc; [|done]. cbn [io result_map_err].
  apply create_dir_all_grown in Hc; [|by eapply link_free_prefix].
  unfold context, write. destruct (locate fs1 (of_loc (l ++ [n]))) as [r|] eqn:Hr; [|done].
  apply locate_link_free in Hr; [|by eapply grown_link_free]. subst r.
  destruct (is_dir fs1 (l ++ [n])); [done|]. cbn [result_map_err]. intros [= <- _].
  exists (l ++ [n]). split_and!; [done|by rewrite lookup_insert_eq|].
  intros x Hx. rewrite lookup_insert_ne by done.
  destruct (Hc x) as [|(H1 & H2 & H3 & H4)]; [by left|]. right. split_and!; [|done|done].
  eapply base_prefix; try done. by apply prefix_app_r.
Qed.

(** ** Writing to a file that is there *)

(** Replacing a file's content leads no path elsewhere. *)
Lemma is_dir_content fs l b c k :
  fs !! l = Some (File b) -> is_dir (<[l := File c]> fs) k = is_dir fs k.
Proof.
  intros Hl. unfold is_dir, node_at. destruct k as [|n k]; [done|].
  destruct (decide (n :: k = l)) as [->|Hk]; [|by rewrite lookup_insert_ne by congruence].
  by rewrite lookup_insert_eq, Hl.
Qed.

Lemma target_content fs l b c links a p :
  fs !! l = Some (File b) -> target links (<[l := File c]> fs) a p = target links fs a p.
Proof.
  intros Hl. revert a p. induction links as [|links IHl]; intros a p; revert a;
    (induction p as [|x p IHp]; intros a; [by rewrite !target_nil|]); destruct x as [|n];
    rewrite ?target_up, ?target_name, ?(is_dir_content _ _ _ _ _ Hl), ?IHp; try done;
    (destruct (decide (a ++ [n] = l)) as [->|Hn];
      [rewrite lookup_insert_eq, Hl|rewrite lookup_insert_ne by congruence; by repeat case_match]);
    done.
Qed.

Lemma resolve_content fs l b c p :
  fs !! l = Some (File b) -> resolve (<[l := File c]> fs) p = resolve fs p.
Proof.
  intros Hl. unfold resolve, locate. rewrite (target_content fs l b c _ _ _ Hl).
  destruct (target MAX_LINKS fs [] p) as [k|]; [|done].
  unfold node_at. destruct k as [|n k]; [done|].
  destruct (decide (n :: k = l)) as [->|Hk]; [|by rewrite lookup_insert_ne by congruence].
  by rewrite lookup_insert_eq, Hl.
Qed.

Lemma create_dir_exists fs l :
  rooted fs -> real fs l -> is_dir fs l = true -> create_dir_all fs (of_loc l) = Ok fs.
Proof.
  intros Hroot Hr Hd. pose proof (resolve_real fs l Hr) as Hl.
  assert (path_is_dir fs (of_loc l) = true) as Hp by (unfold path_is_dir; by rewrite Hl).
  assert (create_dir fs (of_loc l) = Err AlreadyExists) as Hc.
  { unfold create_dir, entry. destruct l as [|n l _] using rev_ind; [done|].
    rewrite parent_of_loc, file_name_of_loc. cbn [default from_option id].
    destruct Hr as [Ha Hn He]. pose proof (Ha (length l)) as Hu.
    rewrite take_app_length, length_app in Hu. specialize (Hu ltac:(simpl; lia)).
    rewrite (resolve_real fs l).
    - rewrite Hu. cbn. apply is_dir_node in Hd. destruct (l ++ [n]) eqn:E; [by destruct l|].
      simpl in Hd. by rewrite Hd.
    - split.
      + intros k Hk. specialize (Ha k). rewrite length_app, take_app_le in Ha by lia.
        apply Ha. simpl. lia.
      + by apply dir_not_link.
      + apply is_dir_node in Hu. by rewrite Hu. }
  unfold create_dir_all. destruct (length (of_loc l)); simpl; by rewrite Hc, Hp.
Qed.

Lemma real_up fs l n : rooted fs -> real fs (l ++ [n]) -> is_dir fs l = true /\ real fs l.
Proof.
  intros Hroot [Ha Hn He]. assert (is_dir fs l = true) as Hu.
  { rewrite <- (take_app_length l [n]). apply Ha. rewrite length_app. simpl. lia. }
  split; [done|]. split; [|by apply dir_not_link|apply is_dir_node in Hu; by rewrite Hu].
  intros k Hk. specialize (Ha k). rewrite length_app, take_app_le in Ha by lia. apply Ha. simpl. lia.
Qed.

(** What a write to a path that exists leaves. *)
Lemma write_existing fs ws base path content l fs' out :
  rooted fs -> resolve fs ws = Ok base -> resolve fs (join ws path) = Ok l ->
  write_file io_message fs (Some path) (Some content) ws = Ok (fs', out) ->
  base `prefix_of` l /\ (exists b, fs !! l = Some (File b)) /\ fs' = <[l := File (as_bytes content)]> fs.
Proof.
  intros Hroot Hb Hl. destruct (resolve_sound _ _ _ Hroot Hl) as [_ Hreal].
  unfold write_file. cbn [ok_or]. rewrite (resolve_path_exact _ _ _ _ _ Hb Hl).
  case_bool_decide as Hpre; [|done].
  assert (match parent (of_loc l) with
          | Some dir => io io_message (create_dir_all fs dir) | None => Ok fs end = Ok fs) as ->.
  { destruct l as [|n l _] using rev_ind; [done|]. rewrite parent_of_loc.
    destruct (real_up _ _ _ Hroot Hreal) as [Hd Hr]. by rewrite create_dir_exists. }
  unfold context. rewrite write_real by done. destruct (is_dir fs l) eqn:Hd; [done|].
  cbn [result_map_err]. intros [= <- _]. split_and!; [done| |done].
  destruct Hreal as [_ Hn [node He]]. unfold is_dir in Hd. rewrite He in Hd.
  destruct node as [b| |a to]; [|done|]; destruct l; try done; [by exists b|].
  by destruct (Hn a to).
Qed.

(** What a tool writes is what the next tool reads.  After a successful write to a path
    that exists, reading the path gives the text written, and every path that names another
    file, through links or not, reads as it did. *)
Theorem written_text_is_read fs ws base path content l fs' out :
  rooted fs -> resolve fs ws = Ok base -> resolve fs (join ws path) = Ok l ->
  Forall (fun c => is_scalar c = true) content ->
  write_file io_message fs (Some path) (Some content) ws = Ok (fs', out) ->
  read_file fs' (Some path) ws = Ok content /\
  forall other k, resolve fs (join ws other) = Ok k -> k <> l ->
    read_file fs' (Some other) ws = read_file fs (Some other) ws.
Proof.
  intros Hroot Hb Hl Hs Hw.
  destruct (write_existing _ _ _ _ _ _ _ _ Hroot Hb Hl Hw) as (Hpre & [b Hf] & ->).
  assert (forall p, resolve (<[l := File (as_bytes content)]> fs) p = resolve fs p) as Hres
    by (intros p; by apply (resolve_content fs l b)).
  assert (forall k, real fs k -> resolve fs (of_loc k) = Ok k) as Hreal by apply resolve_real.
  split.
  - unfold read_file. cbn [ok_or]. rewrite (resolve_path_exact _ path ws base l) by by rewrite Hres.
    rewrite bool_decide_true by done. unfold context, read_to_string. rewrite Hres, Hreal.
    + unfold node_at. destruct l as [|n l]; [by rewrite Hroot in Hf|].
      rewrite lookup_insert_eq. simpl. by rewrite from_utf8_as_bytes.
    + by apply (resolve_sound fs (join ws path)).
  - intros other k Hk Hne. unfold read_file. cbn [ok_or].
    rewrite !(resolve_path_exact _ other ws base k) by (by rewrite ?Hres).
    case_bool_decide; [|done]. unfold context, read_to_string. rewrite Hres, Hreal.
    + unfold node_at. destruct k as [|n k]; [done|]. by rewrite lookup_insert_ne by congruence.
    + by apply (resolve_sound fs (join ws other)).
Qed.

(** A deletion removes one file of the workspace.  Deleting a path that exists succeeds
    only on a file of the workspace, takes that entry away and no other, and the diff it
    records, read back, takes the lines the file had to none. *)
Theorem delete_removes_one_file fs ws base path l fs' out :
  rooted fs -> resolve fs ws = Ok base -> resolve fs (join ws path) = Ok l ->
  delete_file fs (Some path) ws = Ok (fs', out) ->
  base `prefix_of` l /\ fs' = delete l fs /\
  exists b, fs !! l = Some (File b) /\
    forall text d, from_utf8 b = Some text -> diff out = Some d ->
      DiffProps.carried text -> DiffProps.few_lines text ->
      DiffProps.patch (Hunks.parse_unified_diff d) (str_lines text) = Some [].
Proof.
  intros Hroot Hb Hl. destruct (resolve_sound _ _ _ Hroot Hl) as [_ Hreal].
  unfold delete_file. cbn [ok_or]. rewrite (resolve_path_exact _ _ _ _ _ Hb Hl).
  case_bool_decide as Hpre; [|done]. rewrite read_real by done. unfold remove_file, entry.
  destruct l as [|n l _] using rev_ind; [done|]. rewrite parent_of_loc, file_name_of_loc.
  destruct (real_up _ _ _ Hroot Hreal) as [Hd Hr]. cbn [default from_option id].
  rewrite (resolve_real fs l Hr), Hd. cbn.
  destruct Hreal as [_ Hn _]. unfold node_at. destruct (l ++ [n]) as [|x k] eqn:E; [by destruct l|].
  destruct (fs !! (x :: k)) as [[b| |a to]|] eqn:Hf; try done; [|by destruct (Hn a to)].
  intros [= <- <-]. split_and!; [done|done|]. exists b. split; [done|].
  intros text d Ht Hdiff Hc Hfew. rewrite Ht in Hdiff. apply with_diff_Some in Hdiff. cbn in Hdiff.
  destruct (DiffProps.diff_patches text [] Diff.DIFF_CONTEXT) as (d' & Hd' & Hp & _); try done.
  { by constructor. }
  unfold Diff.unified_diff in Hdiff. rewrite Hdiff in Hd'. by injection Hd' as ->.
Qed.
End props.
End ToolProps.

(** ** On small trees *)

Module ToolWitness.
Import Fs FsProps Tools ToolProps.

#[local] Instance externs : Externs := demo_externs.

Definition loc (s : string) : list Str := omap (fun c => match c with Normal n => Some n | _ => None end)
  (components (lit s)).
Definition message (e : io_error) : Str := [].

(** [/w] is the workspace; a link in it leads inside, another outside to nothing. *)
Definition tree : t :=
  <[loc "/w" := Dir]> (<[loc "/w/src" := Dir]> (<[loc "/w/src/a" := File (lit "one two one")]>
  (<[loc "/w/in" := Link false (components (lit "src"))]>
  (<[loc "/w/new" := Link true (components (lit "/etc/new"))]>
  (<[loc "/etc" := Dir]> (<[loc "/etc/passwd" := File (lit "root")]> ∅)))))).

Definition ws : Path := components (lit "/w").

(** The result of a tool, for a call that succeeds. *)
Definition result_of (r : result Str (t * ToolOutcome)) : t * ToolOutcome :=
  match r with Ok r => r | Err _ => (∅, mkOutcome [] None) end.
Definition succeeds (r : result Str (t * ToolOutcome)) : bool :=
  match r with Ok _ => true | Err _ => false end.

Lemma result_of_ok r : succeeds r = true -> r = Ok ((result_of r).1, (result_of r).2).
Proof. by destruct r as [[fs out]|]. Qed.

Definition edited : t * ToolOutcome :=
  result_of (edit_file tree (Some (lit "in/../src/a")) (Some (lit "one")) (Some (lit "1")) ws).

Lemma edited_text before after l (b : Bytes) :
  tree !! l = Some (File b) -> from_utf8 b = Some (before ++ lit "one" ++ after) ->
  edited.1 = <[l := File (as_bytes (before ++ lit "1" ++ after))]> tree ->
  find_str (before ++ lit "one" ++ after) (lit "one") = Some (length before) ->
  before = [] /\ after = lit " two one".
Proof.
  intros Hl Hb He Hf. destruct (decide (l = loc "/w/src/a")) as [-> | Hne].
  - assert (tree !! loc "/w/src/a" = Some (File (lit "one two one"))) as Ha by by vm_compute.
    assert (b = lit "one two one") as -> by congruence.
    assert (from_utf8 (lit "one two one") = Some (lit "one two one")) as Hu by by vm_compute.
    assert (before ++ lit "one" ++ after = lit "one two one") as Hb' by congruence. rewrite Hb' in Hf.
    assert (find_str (lit "one two one") (lit "one") = Some 0) as Hz by by vm_compute.
    assert (length before = 0) as Hlen by congruence. apply nil_length_inv in Hlen as ->. split; [done|].
    simpl in Hb'. by injection Hb' as ->.
  - exfalso. assert (edited.1 !! loc "/w/src/a" = tree !! loc "/w/src/a") as H.
    { rewrite He. by apply lookup_insert_ne. }
    by vm_compute in H.
Qed.

Lemma edit_changes_one_file_witness :
  edited.1 !! loc "/w/src/a" = Some (File (lit "1 two one")) /\
  exists d, diff edited.2 = Some d /\
    DiffProps.patch (Hunks.parse_unified_diff d) (str_lines (lit "one two one"))
      = Some (str_lines (lit "1 two one")).
Proof.
  split; [by vm_compute|].
  destruct (edit_changes_one_file tree ws (loc "/w") (lit "in/../src/a") (lit "one") (lit "1")
              edited.1 edited.2) as (l & b & before & after & _ & Hl & Hb & Hf & He & Hd);
    [by vm_compute|by vm_compute|by vm_compute|apply result_of_ok; by vm_compute|].
  destruct (edited_text before after l b Hl Hb He Hf) as [-> ->].
  destruct Hd as (d & Hp & Hrec);
    [apply (bool_decide_unpack _); by vm_compute|apply (bool_decide_unpack _); by vm_compute
    |by vm_compute|by vm_compute|].
  exists d. split; [|exact Hp]. revert Hrec. destruct (bool_decide (d <> []) && _); [done|].
  intros Hno. by vm_compute in Hno.
Defined.

Lemma resolve_path_exact_witness :
  resolve_path tree (lit "in/a") ws = Ok (of_loc (loc "/w/src/a")) /\
  exists e, resolve_path tree (lit "../etc/passwd") ws = Err e.
Proof.
  split.
  - exact (resolve_path_exact tree (lit "in/a") ws (loc "/w") (loc "/w/src/a")
             ltac:(by vm_compute) ltac:(by vm_compute)).
  - eexists. exact (resolve_path_exact tree (lit "../etc/passwd") ws (loc "/w") (loc "/etc/passwd")
             ltac:(by vm_compute) ltac:(by vm_compute)).
Defined.

Definition written : t * ToolOutcome :=
  result_of (write_file message tree (Some (lit "out/b/c")) (Some (lit "text")) ws).

Lemma out_link_free l :
  resolve_path tree (lit "out/b/c") ws = Ok (of_loc l) -> link_free tree l.
Proof.
  intros Hl. assert (resolve_path tree (lit "out/b/c") ws = Ok (of_loc (loc "/w/out/b/c"))) as H
    by by vm_compute.
  rewrite H in Hl. injection Hl as Hl. apply (of_loc_inj (loc "/w/out/b/c")) in Hl. subst l.
  intros [|[|[|[|[|k]]]]] a to; by vm_compute.
Qed.

Lemma write_stays_inside_witness :
  written.1 !! loc "/w/out/b/c" = Some (File (lit "text")) /\
  exists l, loc "/w" `prefix_of` l /\ written.1 !! l = Some (File (lit "text")).
Proof.
  split; [by vm_compute|].
  destruct (write_stays_inside message tree ws (loc "/w") (lit "out/b/c") (lit "text")
              written.1 written.2) as (l & Hp & Hl & _);
    [by vm_compute|by vm_compute|by apply (bool_decide_unpack _); vm_compute|apply out_link_free
    |apply result_of_ok; by vm_compute|].
  exact (ex_intro _ l (conj Hp Hl)).
Defined.

Definition rewritten : t * ToolOutcome :=
  result_of (write_file message tree (Some (lit "in/a")) (Some (lit "text")) ws).

Lemma written_text_is_read_witness :
  read_file rewritten.1 (Some (lit "in/a")) ws = Ok (lit "text").
Proof.
  apply (written_text_is_read message tree ws (loc "/w") (lit "in/a") (lit "text") (loc "/w/src/a")
           rewritten.1 rewritten.2);
    [by vm_compute|by vm_compute|by vm_compute|by repeat constructor|apply result_of_ok; by vm_compute].
Defined.

Definition deleted : t * ToolOutcome :=
  result_of (delete_file tree (Some (lit "in/a")) ws).

Lemma delete_removes_one_file_witness :
  loc "/w" `prefix_of` loc "/w/src/a" /\ deleted.1 = delete (loc "/w/src/a") tree.
Proof.
  destruct (delete_removes_one_file tree ws (loc "/w") (lit "in/a") (loc "/w/src/a")
              deleted.1 deleted.2) as (Hp & Hd & _);
    [by vm_compute|by vm_compute|by vm_compute|apply result_of_ok; by vm_compute|].
  exact (conj Hp Hd).
Defined.

(** ** Where a tool leaves the workspace

    A parent component below a directory that is not there yet hides from the guard: no
    ancestor is found, the path is compared as it is spelt, and creating the directory
    makes the rest of it lead outside. *)
Lemma dots_escape :
  (result_of (write_file message tree (Some (lit "x/../../etc/passwd")) (Some (lit "me")) ws)).1
    !! loc "/etc/passwd" = Some (File (lit "me")).
Proof. by vm_compute. Qed.

(** A link to nothing does not exist for the guard, and a write goes through it. *)
Lemma dangling_link_escapes :
  (result_of (write_file message tree (Some (lit "new")) (Some (lit "me")) ws)).1
    !! loc "/etc/new" = Some (File (lit "me")).
Proof. by vm_compute. Qed.

(** A path over too many links does not exist for the guard, which then asks for the last
    component from a place closer to it. *)
Fixpoint chain_of_links (n : nat) (fs : t) : t :=
  match n with
  | O => fs
  | S n => <[loc "/w" ++ [show_N (N.of_nat n)] :=
             Link false [Normal (if bool_decide (n = 39) then lit "src" else show_N (N.of_nat (S n)))]]>
           (chain_of_links n fs)
  end.

Definition deep_tree : t :=
  <[loc "/w/src/out" := Link true (components (lit "/etc/passwd"))]> (chain_of_links 40 tree).

Lemma long_chain_escapes :
  (exists e, read_file deep_tree (Some (lit "src/out")) ws = Err e) /\
  read_file deep_tree (Some (lit "0/out")) ws = Ok (lit "root").
Proof. split; [by eexists; vm_compute|by vm_compute]. Qed.

(** An edit that changes nothing is reported as one that found nothing. *)
Lemma same_text_is_not_found :
  edit_file tree (Some (lit "src/a")) (Some (lit "one")) (Some (lit "one")) ws
  = Err (lit "old_text not found in file").
Proof. by vm_compute. Qed.
End ToolWitness.
