(* ===== verification/AgentStore.v ===== *)
(** * The agent's data: messages, tool calls, events and the tables a turn writes

    [goble-core/src/llm/types.rs] and [harness/types.rs], and of [goble-core/src/store]
    the chat, mission, ask and command tables the reasoning loop reads and writes.  A
    table is the list of its rows in insertion order.  Rows of a conversation are read
    [ORDER BY created_at]: the clock is taken not to run backwards, so that order is the
    insertion order and the column is left out. *)

From S2P Require Import Prelude Text.

(** What the agent reads of a [serde_json::Value]: a string member, a member that is an
    array with its strings, a boolean member, the text of the value. *)
Class JsonView {X : Externs} : Type := {
  json_eq :: EqDecision Json;
  as_str_at : Json -> Str -> option Str;
  as_strs_at : Json -> Str -> option (list Str);
  as_bool_at : Json -> Str -> option bool;
  json_text : Json -> Str;
}.

Section types.
Context {X : Externs}.

(** ** Model messages *)

Record LlmToolCall : Type := mkCall { call_id : Str; call_name : Str; arguments : Json }.

#[export] Instance LlmToolCall_eq_dec `{EqDecision Json} : EqDecision LlmToolCall.
Proof. solve_decision. Defined.

Inductive Role : Type := System | User | Assistant | Tool.

#[export] Instance Role_eq_dec : EqDecision Role.
Proof. solve_decision. Defined.

Inductive ToolCallStatus : Type := Pending | Running | Finished | Error.

#[export] Instance ToolCallStatus_eq_dec : EqDecision ToolCallStatus.
Proof. solve_decision. Defined.

Record Message : Type := mkMessage {
  role : Role;
  content : Str;
  tool_calls : option (list LlmToolCall);
  tool_call_id : option Str;
  tool_status : option ToolCallStatus;
  reasoning_content : option Str;
}.

(** A message of one of the roles that carry text alone. *)
Definition text_message (r : Role) (s : Str) : Message := mkMessage r s None None None None.

Record ToolDefinition : Type := mkTool { tool_name : Str; description : Str; parameters : Json }.

(** The temperature, always [None] here, is left out. *)
Record CompletionRequest : Type := mkRequest {
  req_provider : Str;
  req_model : Str;
  messages : list Message;
  tools : list ToolDefinition;
}.

Definition new_request (provider model : Str) : CompletionRequest := mkRequest provider model [] [].
Definition with_system (s : Str) (r : CompletionRequest) : CompletionRequest :=
  mkRequest (req_provider r) (req_model r) (messages r ++ [text_message System s]) (tools r).
Definition with_messages (ms : list Message) (r : CompletionRequest) : CompletionRequest :=
  mkRequest (req_provider r) (req_model r) ms (tools r).
Definition with_tools (ts : list ToolDefinition) (r : CompletionRequest) : CompletionRequest :=
  mkRequest (req_provider r) (req_model r) (messages r) ts.

Record TokenUsage : Type := mkUsage { input : N; cached : option N; output : N }.

Record CompletionResponse : Type := mkResponse {
  resp_content : Str;
  resp_tool_calls : list LlmToolCall;
  usage : option TokenUsage;
}.

Inductive CompletionStreamEvent : Type :=
| SDelta (delta : Str)
| SReasoning (delta : Str)
| SToolCalls (calls : list LlmToolCall)
| SUsage (u : TokenUsage)
| SDone
| SError (message : Str).

(** ** Recorded calls and events *)

Record ChatToolCall : Type := mkRecord {
  rec_id : Str;
  rec_name : Str;
  rec_arguments : Json;
  status : ToolCallStatus;
  result_ : option Str;
  diff : option Str;
}.

Definition planned (call : LlmToolCall) : ChatToolCall :=
  mkRecord (call_id call) (call_name call) (arguments call) Pending None None.
(** A recorded call read back as a call: [serde] drops the other members. *)
Definition to_call (r : ChatToolCall) : LlmToolCall :=
  mkCall (rec_id r) (rec_name r) (rec_arguments r).
Definition set_status (s : ToolCallStatus) (r : ChatToolCall) : ChatToolCall :=
  mkRecord (rec_id r) (rec_name r) (rec_arguments r) s (result_ r) (diff r).
Definition settle (s : ToolCallStatus) (body : Str) (d : option Str) (r : ChatToolCall)
    : ChatToolCall :=
  mkRecord (rec_id r) (rec_name r) (rec_arguments r) s (Some body) d.

Inductive HarnessEvent : Type :=
| AssistantDelta (delta : Str)
| ToolCallStarted (id name : Str) (arguments : Json)
| ToolCallFinished (id result : Str)
| ToolCallError (id message : Str)
| ThinkingModeChanged (mode : Str)
| ReasoningStarted (step : nat) (mode : Str)
| ReasoningDelta (delta : Str)
| ReasoningDone (step : nat) (mode content decision : Str)
| AskUser (question : Str) (quick_replies : list Str)
| CommandProposed (id : Str) (candidates : list Str) (cwd : Str)
| SubAgentSpawned (chat_id subagent_id subagent_type description parent_call_id : Str)
    (run_in_background : bool)
| SubAgentProgress (chat_id subagent_id status activity : Str) (turns tool_calls tokens duration_ms : N)
| SubAgentFinished (chat_id subagent_id status : Str) (output error : option Str)
    (duration_ms turns tool_calls tokens : N)
| MissionUpdated (mission_id status : Str)
| TokenUsed (chat_id : Str) (u : TokenUsage)
| Done
| Failed (message : Str).

(** The user's decision on a proposed command. *)
Inductive CommandDecision : Type := Approve (text : Str) | Edit (text : Str) | Reject (reason : Str).

Inductive ThinkingMode : Type :=
| Direct | Contemplating | Ruminating | Baking | Reflecting | Verifying | Debugging
| Synthesizing | Planning.

Definition mode_str (m : ThinkingMode) : Str :=
  lit match m with
      | Direct => "direct" | Contemplating => "contemplating" | Ruminating => "ruminating"
      | Baking => "baking" | Reflecting => "reflecting" | Verifying => "verifying"
      | Debugging => "debugging" | Synthesizing => "synthesizing" | Planning => "planning"
      end.

Definition all_modes : list ThinkingMode :=
  [Direct; Contemplating; Ruminating; Baking; Reflecting; Verifying; Debugging; Synthesizing; Planning].

(** [ThinkingMode::from_str]. *)
Definition parse_mode (s : Str) : option ThinkingMode :=
  List.find (fun m => bool_decide (mode_str m = s)) all_modes.

Lemma parse_mode_str m : parse_mode (mode_str m) = Some m.
Proof. by destruct m. Qed.

(** ** The tables *)

(** A row of [chat_messages]; [tool_calls] is its JSON text. *)
Record Row : Type := mkRow {
  row_id : Str;
  row_chat : Str;
  row_role : Str;
  row_content : Str;
  row_tool_calls : option Str;
  row_reasoning : option Str;
}.

Record Mission : Type := mkMission {
  m_id : Str; m_chat : Str; m_goal : Str; m_status : Str; m_plan : option Str; m_workflow : option Str;
}.

Record StepRow : Type := mkStepRow {
  sr_mission : Str; sr_index : nat; sr_mode : Str; sr_content : Str;
  sr_decision : option Str; sr_tool_calls : option Str;
}.

Record AskRow : Type := mkAskRow {
  ask_id : Str; ask_chat : Str; ask_question : Str; ask_replies : Str; ask_status : Str;
}.

Record CommandRow : Type := mkCommandRow {
  cmd_call : Str; cmd_chat : Str; cmd_message : Str; cmd_status : Str;
}.

Record Store : Type := mkStore {
  rows : list Row;
  missions : list Mission;
  step_rows : list StepRow;
  asks : list AskRow;
  commands : list CommandRow;
  chat_usage : gmap Str TokenUsage;
}.

Definition set_rows (l : list Row) (s : Store) : Store :=
  mkStore l (missions s) (step_rows s) (asks s) (commands s) (chat_usage s).
Definition set_missions (l : list Mission) (s : Store) : Store :=
  mkStore (rows s) l (step_rows s) (asks s) (commands s) (chat_usage s).
Definition set_step_rows (l : list StepRow) (s : Store) : Store :=
  mkStore (rows s) (missions s) l (asks s) (commands s) (chat_usage s).
Definition set_asks (l : list AskRow) (s : Store) : Store :=
  mkStore (rows s) (missions s) (step_rows s) l (commands s) (chat_usage s).
Definition set_commands (l : list CommandRow) (s : Store) : Store :=
  mkStore (rows s) (missions s) (step_rows s) (asks s) l (chat_usage s).
Definition set_usage (u : gmap Str TokenUsage) (s : Store) : Store :=
  mkStore (rows s) (missions s) (step_rows s) (asks s) (commands s) u.

(** *** Messages *)

Definition insert_chat_message (id chat_id role content : Str) (tool_calls : option Str) (s : Store)
    : Store :=
  set_rows (rows s ++ [mkRow id chat_id role content tool_calls None]) s.

Definition list_chat_messages (chat_id : Str) (s : Store) : list Row :=
  base.filter (fun r => row_chat r = chat_id) (rows s).

(** [UPDATE chat_messages ... WHERE id = message_id]. *)
Definition update_row (message_id : Str) (f : Row -> Row) (s : Store) : Store :=
  set_rows ((fun r => if bool_decide (row_id r = message_id) then f r else r) <$> rows s) s.

Definition append_content (delta : Str) (r : Row) : Row :=
  mkRow (row_id r) (row_chat r) (row_role r) (row_content r ++ delta) (row_tool_calls r) (row_reasoning r).
Definition put_tool_calls (json : Str) (r : Row) : Row :=
  mkRow (row_id r) (row_chat r) (row_role r) (row_content r) (Some json) (row_reasoning r).
Definition put_reasoning (text : Str) (r : Row) : Row :=
  mkRow (row_id r) (row_chat r) (row_role r) (row_content r) (row_tool_calls r) (Some text).

Definition append_chat_message_content (message_id delta : Str) : Store -> Store :=
  update_row message_id (append_content delta).
Definition set_chat_message_tool_calls (message_id json : Str) : Store -> Store :=
  update_row message_id (put_tool_calls json).
Definition set_chat_message_reasoning (message_id text : Str) : Store -> Store :=
  update_row message_id (put_reasoning text).

(** The chains of thought of a conversation; an empty one is absent. *)
Definition list_chat_message_reasoning (chat_id : Str) (s : Store) : gmap Str Str :=
  list_to_map (omap (fun r =>
    match row_reasoning r with
    | Some text => if bool_decide (text = []) then None else Some (row_id r, text)
    | None => None
    end) (list_chat_messages chat_id s)).

(** *** Usage *)

Definition add_chat_usage (id : Str) (u : TokenUsage) (s : Store) : Store :=
  match chat_usage s !! id with
  | Some t =>
      set_usage (<[id := mkUsage (input t + input u)
                           (match cached u with
                            | None => cached t
                            | Some c => Some (default 0 (cached t) + c)
                            end)
                           (output t + output u)]> (chat_usage s)) s
  | None => s
  end%N.

(** *** Missions and their steps *)

(** [INSERT ... ON CONFLICT(id) DO UPDATE]. *)
Definition insert_mission (m : Mission) (s : Store) : Store :=
  set_missions
    (if bool_decide (m_id m ∈ m_id <$> missions s)
     then (fun x => if bool_decide (m_id x = m_id m) then m else x) <$> missions s
     else missions s ++ [m]) s.

(** [updated_at DESC]: the rows are kept oldest first, a change moves none, and a
    conversation has at most one mission that is not done. *)
Definition list_missions (s : Store) : list Mission := reverse (missions s).

Definition insert_reasoning_step (r : StepRow) (s : Store) : Store :=
  set_step_rows (step_rows s ++ [r]) s.
Definition step_le (a b : StepRow) : Prop := sr_index a <= sr_index b.
#[export] Instance step_le_dec : RelDecision step_le.
Proof. intros a b. unfold step_le. apply _. Defined.
Definition list_reasoning_steps (mission_id : Str) (s : Store) : list StepRow :=
  sort_by step_le
    (base.filter (fun r => sr_mission r = mission_id) (step_rows s)).

(** *** Pending asks and commands *)

Definition PENDING : Str := lit "pending".

Definition insert_pending_ask (a : AskRow) (s : Store) : Store := set_asks (asks s ++ [a]) s.
Definition get_pending_ask (chat_id : Str) (s : Store) : option AskRow :=
  last (base.filter (fun a => ask_chat a = chat_id /\ ask_status a = PENDING) (asks s)).
Definition resolve_pending_ask (id status : Str) (s : Store) : Store :=
  set_asks ((fun a => if bool_decide (ask_id a = id)
                      then mkAskRow (ask_id a) (ask_chat a) (ask_question a) (ask_replies a) status
                      else a) <$> asks s) s.

(** [INSERT ... ON CONFLICT(call_id) DO UPDATE]. *)
Definition insert_pending_command (c : CommandRow) (s : Store) : Store :=
  set_commands
    (if bool_decide (cmd_call c ∈ cmd_call <$> commands s)
     then (fun x => if bool_decide (cmd_call x = cmd_call c) then c else x) <$> commands s
     else commands s ++ [c]) s.
Definition get_pending_command (chat_id : Str) (s : Store) : option CommandRow :=
  head (base.filter (fun c => cmd_chat c = chat_id /\ cmd_status c = PENDING) (commands s)).
Definition resolve_pending_command (id status : Str) (s : Store) : Store :=
  set_commands ((fun c => if bool_decide (cmd_call c = id)
                          then mkCommandRow (cmd_call c) (cmd_chat c) (cmd_message c) status
                          else c) <$> commands s) s.
End types.
