(* ===== verification/Commands.v ===== *)
(** * Command lines: what a proposal shows and what an approval runs

    [goble-core/src/harness/runner.rs] ([shell_line], [split_command_line], [quote_arg],
    the runner's [run_line]), [commands.rs] and the placeholders of [credentials.rs].  A
    runner is the function that runs an executable with its arguments. *)

From S2P Require Import Prelude Text AgentStore.

Module Shell.

Definition QUOTE : char := 39%N.
Definition BACKSLASH : char := 92%N.

(** The characters a shell would interpret. *)
Definition SPECIAL : Str := lit "'" ++ [DQUOTE] ++ lit "\$`;&|<>()*?[]{}!~#".

Definition needs_quoting (arg : Str) : bool :=
  bool_decide (arg = []) || existsb (fun c => is_whitespace c || bool_decide (c ∈ SPECIAL)) arg.

(** [arg.replace('\'', "'\\''")]. *)
Definition escape_quotes (s : Str) : Str :=
  s ≫= fun c => if (c =? QUOTE)%N then [QUOTE; BACKSLASH; QUOTE; QUOTE] else [c].

Definition quote_arg (arg : Str) : Str :=
  if needs_quoting arg then QUOTE :: escape_quotes arg ++ [QUOTE] else arg.

Definition shell_line (command : Str) (args : list Str) : option Str :=
  let command := trim command in
  if bool_decide (command = []) then None
  else Some (command ++ (args ≫= fun arg => 32%N :: quote_arg arg)).

(** The scanner of [split_command_line]: the words so far, the word being read and
    whether there is one, and the quote that is open.  A backslash takes the next
    character as it is. *)
Fixpoint split_words (s : Str) (quote : option char) (current : Str) (in_word : bool) : list Str :=
  match s with
  | [] => if in_word then [current] else []
  | c :: s' =>
      match quote with
      | Some q =>
          if (c =? q)%N then split_words s' None current in_word
          else if (q =? DQUOTE)%N && (c =? BACKSLASH)%N then
            match s' with
            | n :: s'' => split_words s'' quote (current ++ [n]) in_word
            | [] => split_words s' quote current in_word
            end
          else split_words s' quote (current ++ [c]) in_word
      | None =>
          if (c =? QUOTE)%N || (c =? DQUOTE)%N then split_words s' (Some c) current true
          else if (c =? BACKSLASH)%N then
            match s' with
            | n :: s'' => split_words s'' None (current ++ [n]) true
            | [] => split_words s' None current true
            end
          else if is_whitespace c then
            if in_word then current :: split_words s' None [] false
            else split_words s' None current in_word
          else split_words s' None (current ++ [c]) true
      end
  end.

Definition split_command_line (line : Str) : option (Str * list Str) :=
  match split_words line None [] false with
  | command :: args => if bool_decide (command = []) then None else Some (command, args)
  | [] => None
  end.

(** The default [run_line] of a runner. *)
Definition run_line {A} (run : Str -> list Str -> result Str A) (line : Str) : result Str A :=
  match split_command_line line with
  | Some (command, args) => run command args
  | None => Err (lit "the command line is empty")
  end.
End Shell.

Module Credentials.

Definition OPEN : Str := lit "{{credential:".
Definition CLOSE : Str := lit "}}".

Definition unknown (name : Str) : Str :=
  lit "unknown credential `" ++ name ++ lit "`; use the `credentials` tool to list stored credentials".

(** The loop of [expand_credential_refs]; each turn but the last consumes a placeholder,
    so the length of the text is fuel enough ([expand_from_fuel]). *)
Fixpoint expand_from (fuel : nat) (get : Str -> option Str) (rest : Str) : result Str Str :=
  match fuel with
  | O => Ok rest
  | S fuel =>
      match find_str rest OPEN with
      | None => Ok rest
      | Some pos =>
          let tail := drop (pos + length OPEN) rest in
          match find_str tail CLOSE with
          | None => Ok (take pos rest ++ OPEN ++ tail)
          | Some end_ =>
              let name := trim (take end_ tail) in
              match get name with
              | Some value =>
                  result_map (fun s => take pos rest ++ value ++ s)
                    (expand_from fuel get (drop (end_ + 2) tail))
              | None => Err (unknown name)
              end
          end
      end
  end.

Definition expand_credential_refs (get : Str -> option Str) (s : Str) : result Str Str :=
  expand_from (length s) get s.
End Credentials.

Module Commands.
Import Shell Credentials.

Section commands.
Context {X : Externs} `{!JsonView}.

Definition COMMAND_TOOL : Str := lit "run_command".

Definition command_of (args : Json) : Str := default [] (as_str_at args (lit "command")).
Definition args_of (args : Json) : list Str := default [] (as_strs_at args (lit "args")).

(** The lines a [run_command] call proposes: one, or none for an empty command. *)
Definition command_candidates (call : LlmToolCall) : list Str :=
  match shell_line (command_of (arguments call)) (args_of (arguments call)) with
  | Some line => [line]
  | None => []
  end.

(** [collect::<Result<Vec<_>>>()]. *)
Fixpoint expand_all (get : Str -> option Str) (args : list Str) : result Str (list Str) :=
  match args with
  | [] => Ok []
  | a :: args =>
      (let? a := expand_credential_refs get a in
       let? args := expand_all get args in Ok (a :: args))%goble
  end.

(** The immediate path: placeholders are replaced in each word. *)
Definition run_command {A} (get : Str -> option Str) (run : Str -> list Str -> result Str A)
    (args : Json) : result Str A :=
  (let? command := expand_credential_refs get (command_of args) in
   let? cmd_args := expand_all get (args_of args) in
   run command cmd_args)%goble.

(** The approved path: placeholders are replaced in the line, which is then split. *)
Definition run_approved_command {A} (get : Str -> option Str) (run : Str -> list Str -> result Str A)
    (line : Str) : result Str A :=
  (let? line := expand_credential_refs get line in run_line run line)%goble.
End commands.
End Commands.

(** ** What the quoting guarantees *)

Module ShellProps.
Import Shell.

Lemma needs_quoting_false arg :
  needs_quoting arg = false <->
  arg <> [] /\ Forall (fun c => is_whitespace c = false /\ c ∉ SPECIAL) arg.
Proof.
  unfold needs_quoting. rewrite orb_false_iff, bool_decide_eq_false.
  split; intros [Hne H]; (split; [done|]).
  - induction arg as [|c arg IH]; [done|]. cbn in H. bool_to_prop. constructor; [done|].
    destruct arg; [done|]. by apply IH.
  - clear Hne. induction H as [|c arg [Hw Hs] _ IH]; [done|]. cbn. by rewrite Hw, bool_decide_false.
Qed.

Lemma plain_char c :
  c ∉ SPECIAL -> (c =? QUOTE)%N = false /\ (c =? DQUOTE)%N = false /\ (c =? BACKSLASH)%N = false.
Proof.
  intros H. split_and!; apply N.eqb_neq; intros ->; apply H; apply (bool_decide_unpack _); by vm_compute.
Qed.

Lemma split_words_plain w s cur b :
  Forall (fun c => is_whitespace c = false /\ c ∉ SPECIAL) w -> w <> [] ->
  split_words (w ++ s) None cur b = split_words s None (cur ++ w) true.
Proof.
  intros Hw. revert cur b. induction Hw as [|c w [Hc Hs] Hw IH]; intros cur b Hne; [done|].
  cbn [app split_words]. destruct (plain_char _ Hs) as (-> & -> & ->). cbn. rewrite Hc.
  destruct w as [|c' w]; [done|].
  rewrite IH by done. by rewrite <- app_assoc.
Qed.

Lemma escape_quotes_app s t : escape_quotes (s ++ t) = escape_quotes s ++ escape_quotes t.
Proof. apply bind_app. Qed.

Lemma escape_quotes_id s : QUOTE ∉ s -> escape_quotes s = s.
Proof.
  unfold escape_quotes. induction s as [|c s IH]; [done|]. intros [Hc Hs]%not_elem_of_cons.
  rewrite bind_cons, IH by done. by rewrite (proj2 (N.eqb_neq _ _)) by congruence.
Qed.

Lemma split_words_quoted a s cur :
  split_words (escape_quotes a ++ QUOTE :: s) (Some QUOTE) cur true
  = split_words s None (cur ++ a) true.
Proof.
  revert cur. induction a as [|c a IH]; intros cur.
  - cbn. by rewrite app_nil_r.
  - unfold escape_quotes. rewrite bind_cons, <- app_assoc. fold (escape_quotes a).
    destruct (N.eqb_spec c QUOTE) as [->|Hc].
    + cbn. rewrite IH. by rewrite <- app_assoc.
    + cbn [app split_words]. rewrite (proj2 (N.eqb_neq _ _) Hc). cbn [andb N.eqb].
      change ((QUOTE =? DQUOTE)%N) with false. cbn [andb]. rewrite IH. by rewrite <- app_assoc.
Qed.

(** [q] is read as the one word [a], wherever it stands. *)
Definition spells (q a : Str) : Prop :=
  forall s, split_words (q ++ s) None [] false = split_words s None a true.

Lemma spells_quoted a : spells (QUOTE :: escape_quotes a ++ [QUOTE]) a.
Proof. intros s. cbn. rewrite <- app_assoc. cbn [app]. by rewrite split_words_quoted. Qed.

Lemma spells_quote_arg a : spells (quote_arg a) a.
Proof.
  unfold quote_arg. destruct (needs_quoting a) eqn:Hq; [apply spells_quoted|].
  apply needs_quoting_false in Hq as [Hne Hq]. intros s. by rewrite split_words_plain.
Qed.

(** Words after spaces are read back as those words. *)
Lemma split_words_args qs args cur :
  Forall2 spells qs args ->
  split_words (qs ≫= fun q => 32%N :: q) None cur true = cur :: args.
Proof.
  intros H. revert cur. induction H as [|q a qs args Hq _ IH]; intros cur; [done|].
  rewrite bind_cons. change ((32%N :: q) ++ (qs ≫= fun q => 32%N :: q))
    with (32%N :: (q ++ (qs ≫= fun q => 32%N :: q))).
  cbn [split_words]. change (is_whitespace 32) with true. cbn. by rewrite Hq, IH.
Qed.

Lemma trim_start_plain w : Forall (fun c => is_whitespace c = false) w -> trim_start w = w.
Proof. intros H. destruct H as [|c w Hc _]; [done|]. cbn. by rewrite Hc. Qed.

Lemma trim_plain w : Forall (fun c => is_whitespace c = false) w -> trim w = w.
Proof.
  intros H. unfold trim, trim_end. rewrite (trim_start_plain w) by done.
  rewrite trim_start_plain; [apply reverse_involutive|].
  rewrite Forall_forall in H |- *. intros c Hc. apply H. by apply elem_of_reverse.
Qed.

Lemma shell_line_plain w args :
  needs_quoting w = false ->
  shell_line w args = Some (w ++ ((quote_arg <$> args) ≫= fun q => 32%N :: q)).
Proof.
  intros [Hne H]%needs_quoting_false. unfold shell_line.
  rewrite trim_plain by (eapply Forall_impl; [done|naive_solver]).
  rewrite bool_decide_false by done. do 2 f_equal. induction args as [|a args IH]; [done|].
  by rewrite fmap_cons, !bind_cons, IH.
Qed.

Lemma split_line w qs args :
  needs_quoting w = false -> Forall2 spells qs args ->
  split_command_line (w ++ (qs ≫= fun q => 32%N :: q)) = Some (w, args).
Proof.
  intros [Hne H]%needs_quoting_false Hqs. unfold split_command_line.
  rewrite split_words_plain, (split_words_args _ _ _ Hqs) by done. cbn.
  by rewrite bool_decide_false.
Qed.

(** A proposal is the call: whatever the arguments hold, spaces, quotes and
    operators included, the line shown for approval is split back into the executable
    and the very arguments the model asked for. *)
Theorem proposal_roundtrip command args :
  needs_quoting command = false ->
  exists line, shell_line command args = Some line /\
    split_command_line line = Some (command, args).
Proof.
  intros H. eexists. split; [by apply shell_line_plain|]. apply split_line; [done|].
  induction args; constructor; [apply spells_quote_arg|done].
Qed.

Lemma proposal_roundtrip_witness :
  exists line, shell_line (lit "grep") [lit "it's"; []; lit "$HOME *"] = Some line /\
    split_command_line line = Some (lit "grep", [lit "it's"; []; lit "$HOME *"]).
Proof. apply proposal_roundtrip. by vm_compute. Defined.

(** A command of several words is split as well: the approved line runs its first word. *)
Lemma command_words_are_split :
  (shell_line (lit "git status") [] ≫= split_command_line) = Some (lit "git", [lit "status"]).
Proof. by vm_compute. Qed.
End ShellProps.

(** ** Placeholders *)

Module CredentialProps.
Import Shell ShellProps Credentials Commands.

Lemma find_str_length s p i : find_str s p = Some i -> i + length p <= length s.
Proof.
  revert i. induction s as [|c s IH]; intros i; cbn [find_str].
  - case_bool_decide; [|done]. intros [= <-]. by subst.
  - unfold starts_with. case_bool_decide as H.
    + intros [= <-]. rewrite <- H at 1. rewrite length_take. cbn. lia.
    + destruct (find_str s p) as [j|] eqn:E; [|done]. cbn. intros [= <-].
      specialize (IH j eq_refl). lia.
Qed.

(** The fuel is the length of the text: more changes nothing. *)
Lemma expand_from_fuel get n s :
  length s <= n -> expand_from n get s = expand_credential_refs get s.
Proof.
  unfold expand_credential_refs. remember (length s) as m eqn:Hm.
  assert (length s <= m) as Hs by lia. clear Hm. revert m n s Hs.
  assert (forall m n s, length s <= m -> m <= n -> expand_from n get s = expand_from m get s) as H.
  { induction m as [|m IH]; intros n s Hs Hn.
    { destruct s; [|cbn in Hs; lia]. by destruct n. }
    destruct n as [|n]; [lia|]. cbn [expand_from].
    destruct (find_str s OPEN) as [pos|] eqn:Hp; [|done].
    destruct (find_str (drop _ s) CLOSE) as [e|] eqn:He; [|done].
    destruct (get _); [|done]. f_equal. apply find_str_length in Hp.
    apply IH; [|lia]. rewrite !length_drop. change (length OPEN) with 13 in *. lia. }
  intros m n s Hs Hn. by apply H.
Qed.

Lemma find_str_skip s t p :
  (forall i, i < length s -> starts_with (drop i (s ++ t)) p = false) ->
  find_str (s ++ t) p = (fun n => length s + n) <$> find_str t p.
Proof.
  induction s as [|c s IH]; intros H; cbn [app].
  { cbn. by destruct (find_str t p). }
  cbn [find_str]. pose proof (H 0 ltac:(cbn; lia)) as H0. cbn in H0.
  change (c :: (s ++ t)) with (c :: s ++ t). rewrite H0.
  rewrite IH by (intros i Hi; apply (H (S i)); cbn; lia).
  by destruct (find_str t p).
Qed.

Lemma starts_with_head s p c : head s = Some c -> head p <> Some c -> p <> [] -> starts_with s p = false.
Proof.
  unfold starts_with. intros Hs Hp Hne. apply bool_decide_eq_false. intros H. apply Hp.
  destruct s as [|x s]; [done|]. destruct p as [|y p]; [done|]. cbn in *. congruence.
Qed.

Lemma find_str_plain c p s t :
  head p = Some c -> c ∉ s -> find_str (s ++ t) p = (fun n => length s + n) <$> find_str t p.
Proof.
  intros Hp Hs. apply find_str_skip. intros i Hi.
  destruct (lookup_lt_is_Some_2 s i Hi) as [x Hx].
  rewrite drop_app_le by lia. apply (starts_with_head _ _ x).
  - by rewrite head_lookup, lookup_app_l, lookup_drop, Nat.add_0_r by (rewrite length_drop; lia).
  - rewrite Hp. intros [= ->]. apply Hs. by apply (list_elem_of_lookup_2 _ i).
  - by destruct p.
Qed.

Lemma result_map_compose {A B C} (f : A -> B) (g : B -> C) (r : result Str A) :
  result_map g (result_map f r) = result_map (fun x => g (f x)) r.
Proof. by destruct r. Qed.

Lemma result_map_ext {A B} (f g : A -> B) (r : result Str A) :
  (forall x, f x = g x) -> result_map f r = result_map g r.
Proof. intros H. destruct r; cbn; by rewrite ?H. Qed.

Definition BRACE : char := 123%N.

(** Text without an opening brace is copied. *)
Lemma expand_text get s t :
  BRACE ∉ s -> expand_credential_refs get (s ++ t) = result_map (app s) (expand_credential_refs get t).
Proof.
  intros Hs. unfold expand_credential_refs at 1.
  destruct (length (s ++ t)) as [|n] eqn:Hn.
  { destruct s; [|done]. by destruct t. }
  rewrite <- (expand_from_fuel get (S n) t) by (rewrite length_app in Hn; lia).
  cbn [expand_from]. rewrite (find_str_plain BRACE) by done.
  destruct (find_str t OPEN) as [pos|]; cbn [fmap option_fmap option_map]; [|done].
  rewrite <- Nat.add_assoc, drop_app_add. destruct (find_str (drop _ t) CLOSE) as [e|].
  - destruct (get _); [|done]. rewrite result_map_compose. apply result_map_ext. intros x.
    by rewrite take_app_add, <- app_assoc.
  - cbn [result_map]. by rewrite take_app_add, <- app_assoc.
Qed.

Lemma starts_with_app p t : starts_with (p ++ t) p = true.
Proof. unfold starts_with. rewrite take_app_length. by apply bool_decide_true. Qed.

Definition END_BRACE : char := 125%N.

(** A placeholder is replaced by the credential it names. *)
Lemma expand_ref get name t :
  END_BRACE ∉ name ->
  expand_credential_refs get (OPEN ++ name ++ CLOSE ++ t)
  = match get (trim name) with
    | Some value => result_map (app value) (expand_credential_refs get t)
    | None => Err (unknown (trim name))
    end.
Proof.
  intros Hn. unfold expand_credential_refs at 1.
  replace (length (OPEN ++ name ++ CLOSE ++ t)) with (S (12 + length (name ++ CLOSE ++ t)))
    by (rewrite (length_app OPEN); cbn; lia).
  set (n := 12 + length (name ++ CLOSE ++ t)). cbn [expand_from].
  assert (find_str (OPEN ++ name ++ CLOSE ++ t) OPEN = Some 0) as ->.
  { change (OPEN ++ name ++ CLOSE ++ t) with (BRACE :: (tail OPEN ++ name ++ CLOSE ++ t)).
    cbn [find_str]. change (BRACE :: (tail OPEN ++ name ++ CLOSE ++ t))
      with (OPEN ++ name ++ CLOSE ++ t). by rewrite starts_with_app. }
  rewrite Nat.add_0_l, drop_app_length. cbn [take app].
  rewrite (find_str_plain END_BRACE) by done.
  assert (find_str (CLOSE ++ t) CLOSE = Some 0) as ->.
  { change (CLOSE ++ t) with (END_BRACE :: (tail CLOSE ++ t)). cbn [find_str].
    change (END_BRACE :: (tail CLOSE ++ t)) with (CLOSE ++ t). by rewrite starts_with_app. }
  cbn [fmap option_fmap option_map]. rewrite Nat.add_0_r, take_app_length.
  rewrite <- drop_drop, drop_app_length. change 2 with (length CLOSE). rewrite drop_app_length.
  rewrite expand_from_fuel by (subst n; rewrite !length_app; lia). by destruct (get _).
Qed.

(** *** Arguments with placeholders *)

Inductive piece : Type := Text (s : Str) | Ref (name : Str).

Definition piece_str (p : piece) : Str :=
  match p with Text s => s | Ref name => OPEN ++ name ++ CLOSE end.
Definition render (ps : list piece) : Str := ps ≫= piece_str.

(** Text holds no opening brace; a name no closing brace and no quote. *)
Definition piece_ok (p : piece) : Prop :=
  match p with Text s => (BRACE ∉ s) | Ref name => (END_BRACE ∉ name) /\ (QUOTE ∉ name) end.

(** What a rendered argument stands for. *)
Fixpoint value_of (get : Str -> option Str) (ps : list piece) : result Str Str :=
  match ps with
  | [] => Ok []
  | Text s :: ps => result_map (app s) (value_of get ps)
  | Ref name :: ps =>
      match get (trim name) with
      | Some value => result_map (app value) (value_of get ps)
      | None => Err (unknown (trim name))
      end
  end.

Definition and_then (r : result Str Str) (k : result Str Str) : result Str Str :=
  match r with Ok a => result_map (app a) k | Err e => Err e end.

Lemma and_then_map f r k :
  and_then (result_map (app f) r) k = result_map (app f) (and_then r k).
Proof. destruct r, k; cbn; by rewrite <- ?app_assoc. Qed.

Lemma expand_render get ps t :
  Forall piece_ok ps ->
  expand_credential_refs get (render ps ++ t)
  = and_then (value_of get ps) (expand_credential_refs get t).
Proof.
  unfold render. induction 1 as [|[s|name] ps Hp _ IH].
  - cbn [mbind list_bind app value_of and_then]. by destruct (expand_credential_refs get t).
  - rewrite bind_cons, <- app_assoc. cbn [piece_str]. rewrite expand_text, IH by done.
    cbn [value_of]. by rewrite and_then_map.
  - rewrite bind_cons. cbn [piece_str]. destruct Hp as [Hp _].
    rewrite <- !app_assoc, expand_ref by done. cbn [value_of].
    destruct (get (trim name)); [|done]. by rewrite IH, and_then_map.
Qed.

Definition escape_piece (p : piece) : piece :=
  match p with Text s => Text (escape_quotes s) | Ref name => Ref name end.

Lemma escape_quotes_elem c s : c <> BACKSLASH -> c ∈ escape_quotes s -> c ∈ s.
Proof.
  intros Hc. unfold escape_quotes. rewrite list_elem_of_bind. intros (x & Hx & Hxs).
  destruct (x =? QUOTE)%N eqn:E; [apply N.eqb_eq in E|]; set_solver.
Qed.

Lemma escape_piece_ok ps : Forall piece_ok ps -> Forall piece_ok (escape_piece <$> ps).
Proof.
  intros H. apply Forall_fmap. eapply Forall_impl; [done|]. intros [s|name] Hp; [|done]. cbn in *.
  intros Hs. apply Hp. by apply escape_quotes_elem.
Qed.

Lemma escape_render ps :
  Forall piece_ok ps -> escape_quotes (render ps) = render (escape_piece <$> ps).
Proof.
  unfold render. induction 1 as [|[s|name] ps Hp _ IH]; [done|..];
    rewrite fmap_cons, !bind_cons, escape_quotes_app, IH; cbn [escape_piece piece_str]; [done|].
  f_equal. apply escape_quotes_id. destruct Hp as [_ Hp].
  rewrite !not_elem_of_app. split_and!; [|done|]; intros H; apply (bool_decide_pack _) in H; by vm_compute in H.
Qed.

Lemma value_escape get ps a :
  (forall name value, get name = Some value -> QUOTE ∉ value) ->
  value_of get ps = Ok a -> value_of get (escape_piece <$> ps) = Ok (escape_quotes a).
Proof.
  intros Hg. revert a. induction ps as [|[s|name] ps IH]; intros a; cbn [value_of fmap list_fmap escape_piece].
  - by intros [= <-].
  - destruct (value_of get ps) as [b|]; [|done]. intros [= <-].
    rewrite (IH b) by done. cbn. by rewrite escape_quotes_app.
  - destruct (get (trim name)) as [value|] eqn:E; [|done].
    destruct (value_of get ps) as [b|]; [|done]. intros [= <-].
    rewrite (IH b) by done. cbn. rewrite escape_quotes_app, (escape_quotes_id value); [done|eauto].
Qed.

Lemma value_escape_err get ps e :
  value_of get ps = Err e -> value_of get (escape_piece <$> ps) = Err e.
Proof.
  induction ps as [|[s|name] ps IH]; cbn [value_of fmap list_fmap escape_piece]; [done|..].
  - destruct (value_of get ps); [done|]. intros [= ->]. by rewrite IH.
  - destruct (get (trim name)); [|done].
    destruct (value_of get ps); [done|]. intros [= ->]. by rewrite IH.
Qed.

(** The placeholder is not a word the shell would leave alone. *)
Lemma no_braces_unquoted ps :
  needs_quoting (render ps) = false -> Forall (fun p => exists s, p = Text s) ps.
Proof.
  intros [_ H]%needs_quoting_false. apply Forall_forall. intros [s|name] Hp; [by eexists|].
  assert (BRACE ∈ render ps) as Hb.
  { unfold render. apply list_elem_of_bind. exists (Ref name). split; [|done]. cbn. by left. }
  rewrite Forall_forall in H. destruct (H _ Hb) as [_ Hs]. exfalso. apply Hs.
  apply (bool_decide_unpack _). by vm_compute.
Qed.

Lemma value_of_text get ps :
  Forall (fun p => exists s, p = Text s) ps -> value_of get ps = Ok (render ps).
Proof.
  unfold render. induction 1 as [|? ps [s ->] _ IH]; [done|]. cbn [value_of]. by rewrite IH, bind_cons.
Qed.

(** A word of the proposal expands to a word that spells the argument's value. *)
Lemma expand_word get ps t :
  Forall piece_ok ps -> (forall name value, get name = Some value -> QUOTE ∉ value) ->
  match value_of get ps with
  | Ok a => exists q, spells q a /\
      expand_credential_refs get (quote_arg (render ps) ++ t)
      = result_map (app q) (expand_credential_refs get t)
  | Err e => expand_credential_refs get (quote_arg (render ps) ++ t) = Err e
  end.
Proof.
  intros Hps Hg. unfold quote_arg. destruct (needs_quoting (render ps)) eqn:Hq.
  - rewrite escape_render by done.
    change (QUOTE :: render (escape_piece <$> ps) ++ [QUOTE])
      with ([QUOTE] ++ render (escape_piece <$> ps) ++ [QUOTE]).
    rewrite <- !app_assoc, expand_text by (intros ?; set_solver).
    rewrite expand_render by (by apply escape_piece_ok).
    rewrite (expand_text _ [QUOTE]) by (intros ?; set_solver).
    destruct (value_of get ps) as [a|e] eqn:Ev.
    + exists (QUOTE :: escape_quotes a ++ [QUOTE]). split; [apply spells_quoted|].
      rewrite (value_escape _ _ a) by done. cbn [and_then]. rewrite !result_map_compose.
      apply result_map_ext. intros x. cbn. by rewrite <- app_assoc.
    + by rewrite (value_escape_err _ _ e).
  - rewrite value_of_text by (by apply no_braces_unquoted).
    exists (render ps). split; [|].
    + pose proof (spells_quote_arg (render ps)) as H. unfold quote_arg in H. by rewrite Hq in H.
    + rewrite expand_render by done. by rewrite value_of_text by (by apply no_braces_unquoted).
Qed.

Lemma expand_words get pss :
  Forall (Forall piece_ok) pss -> (forall name value, get name = Some value -> QUOTE ∉ value) ->
  match expand_all get (render <$> pss) with
  | Ok args => exists qs, Forall2 spells qs args /\
      expand_credential_refs get ((quote_arg <$> (render <$> pss)) ≫= fun q => 32%N :: q)
      = Ok (qs ≫= fun q => 32%N :: q)
  | Err e =>
      expand_credential_refs get ((quote_arg <$> (render <$> pss)) ≫= fun q => 32%N :: q) = Err e
  end.
Proof.
  intros Hpss Hg. induction Hpss as [|ps pss Hps _ IH]; [by exists []|].
  cbn [fmap list_fmap expand_all]. rewrite bind_cons.
  match goal with |- context [expand_credential_refs get (?w ++ ?t)] => set (rest := t) in * end.
  change ((32%N :: quote_arg (render ps)) ++ rest) with ([32%N] ++ quote_arg (render ps) ++ rest).
  pose proof (expand_word get ps rest Hps Hg) as Hw.
  assert (expand_credential_refs get (render ps) = value_of get ps) as ->.
  { rewrite <- (app_nil_r (render ps)), expand_render by done.
    destruct (value_of get ps); cbn; by rewrite ?app_nil_r. }
  rewrite expand_text by (intros ?; set_solver).
  destruct (value_of get ps) as [a|e]; [|by rewrite Hw].
  destruct Hw as (q & Hq & ->). destruct (expand_all get (render <$> pss)) as [args|e].
  - destruct IH as (qs & Hqs & ->). exists (q :: qs). split; [by constructor|]. by rewrite bind_cons.
  - by rewrite IH.
Qed.

Section approval.
Context {X : Externs} `{!JsonView} {A : Type} (get : Str -> option Str)
  (run : Str -> list Str -> result Str A).

(** Approving a command changes nothing about it: for a one-word executable, and
    credentials without a single quote, running the proposed line after an approval runs
    what the call would have run at once, placeholders replaced, with the same executable and
    arguments, and refuses it with the same message when a credential is unknown. *)
Theorem approval_runs_the_call call line pss :
  (forall name value, get name = Some value -> QUOTE ∉ value) ->
  needs_quoting (command_of (arguments call)) = false ->
  args_of (arguments call) = render <$> pss -> Forall (Forall piece_ok) pss ->
  command_candidates call = [line] ->
  run_approved_command get run line = run_command get run (arguments call).
Proof.
  intros Hg Hc Ha Hps. unfold command_candidates. rewrite shell_line_plain by done.
  intros [= <-]. unfold run_approved_command, run_command. rewrite Ha.
  assert (BRACE ∉ command_of (arguments call)) as Hb.
  { apply needs_quoting_false in Hc as [_ Hc]. intros Hb. rewrite Forall_forall in Hc.
    apply (Hc _ Hb). apply (bool_decide_unpack _). by vm_compute. }
  rewrite expand_text by done.
  rewrite <- (app_nil_r (command_of (arguments call))) at 2. rewrite expand_text by done. cbn.
  rewrite !app_nil_r. pose proof (expand_words get pss Hps Hg) as Hw.
  destruct (expand_all get (render <$> pss)) as [args|e]; [|by rewrite Hw].
  destruct Hw as (qs & Hqs & ->). cbn. unfold run_line.
  by rewrite (split_line _ _ args Hc).
Qed.
End approval.

(** *** On a concrete call *)

Section demo.
#[local] Instance externs : Externs :=
  {| Json := Str * list Str; Instant := nat; to_rfc3339 _ := []; debug_str s := s |}.
#[local] Program Instance view : JsonView :=
  {| json_eq := _; as_str_at j _ := Some j.1; as_strs_at j _ := Some j.2; as_bool_at _ _ := None;
     json_text _ := [] |}.

Definition login : LlmToolCall :=
  mkCall (lit "1") COMMAND_TOOL (lit "curl", [lit "-u"; lit "me:{{credential: key }}"; lit "it's"]).
Definition secret (value : Str) (name : Str) : option Str :=
  if bool_decide (name = lit "key") then Some value else None.
Definition argv (command : Str) (args : list Str) : result Str (list Str) := Ok (command :: args).

Definition proposed : Str := default [] (head (command_candidates login)).

Lemma approval_runs_the_call_witness :
  run_approved_command (secret (lit "a b")) argv proposed
  = Ok [lit "curl"; lit "-u"; lit "me:a b"; lit "it's"].
Proof.
  rewrite (approval_runs_the_call (secret (lit "a b")) argv login proposed
    [[Text (lit "-u")]; [Text (lit "me:"); Ref (lit " key ")]; [Text (lit "it's")]]).
  - by vm_compute.
  - unfold secret. intros name value. case_bool_decide; [|done]. intros [= <-] Hq.
    apply (bool_decide_pack _) in Hq. by vm_compute in Hq.
  - by vm_compute.
  - by vm_compute.
  - repeat constructor; intros Hq; apply (bool_decide_pack _) in Hq; by vm_compute in Hq.
  - by vm_compute.
Defined.

(** A credential with a single quote leaves the quotes the proposal put around it: the
    approved line runs other arguments than the call. *)
Lemma quoted_credential_splits :
  run_approved_command (secret (lit "a' -o '/tmp/x")) argv proposed
    = Ok [lit "curl"; lit "-u"; lit "me:a"; lit "-o"; lit "/tmp/x"; lit "it's"] /\
  run_command (secret (lit "a' -o '/tmp/x")) argv (arguments login)
    = Ok [lit "curl"; lit "-u"; lit "me:a' -o '/tmp/x"; lit "it's"].
Proof. split; by vm_compute. Qed.
End demo.
End CredentialProps.
