(* ===== verification/Mission.v ===== *)
(** * The reasoning loop: one turn of the agent

    [goble-core/src/reasoning] ([mission.rs], [resume.rs], [history.rs], [persist.rs],
    [prompts.rs], [classify.rs], [types.rs]) under the wrappers of
    [harness/mod.rs] ([run_turn], [resume_turn], [resume_command]).

    A turn is a generator of events.  Its consumer, [with_subagent_lifecycle], passes
    each event on and drops the generator at the first [Done] or [Error]: a [yield_] of
    one of them is where the run ends.  [recorded_usage] looks at each event before it is
    passed on.  (The events of sub-agents the wrapper merges in are modelled in
    [SubAgents.v].) *)

From S2P Require Import Prelude Text AgentStore Commands.
Import Commands.

(** ** Types of a mission *)

Definition MAX_REASONING_STEPS : nat := 6.
Definition MAX_EXECUTION_STEPS : nat := 8.

Inductive ReasoningDecision : Type := Continue | Execute | AskTheUser | DecidedDone.

#[export] Instance ReasoningDecision_eq_dec : EqDecision ReasoningDecision.
Proof. solve_decision. Defined.

Section mission.
Context {X : Externs} `{!JsonView} `{!CharCase}.

Record ReasoningStep : Type := mkStep {
  st_step : nat;
  st_mode : ThinkingMode;
  st_content : Str;
  st_decision : ReasoningDecision;
  st_tool_calls : list LlmToolCall;
}.

Record PendingAsk : Type := mkAsk { pa_id : Str; pa_question : Str; pa_replies : list Str }.

Record MissionState : Type := mkMissionState {
  ms_row : Mission;
  ms_steps : list ReasoningStep;
  ms_ask : option PendingAsk;
}.

(** ** What surrounds a turn

    The provider, the tool handlers and the runner answer the [n]-th request made to
    them; the cancel bit is read and a statement is refused (a full disk, a key that is
    taken) at the [n]-th time.  [new_uuid] is [Uuid::new_v4] and the codecs are
    [serde_json]'s.  A tool handler may write other conversations' rows. *)

Class Surroundings : Type := {
  complete_stream : nat -> CompletionRequest -> result Str (list CompletionStreamEvent);
  execute_tool_call : nat -> LlmToolCall -> Store -> Store * result Str (Str * option Str);
  run_argv : nat -> Str -> list Str -> result Str Str;
  get_credential : Str -> option Str;
  cancelled : nat -> bool;
  refused : nat -> option Str;
  new_uuid : nat -> Str;
  enc_records : list ChatToolCall -> Str;
  dec_records : Str -> option (list ChatToolCall);
  enc_calls : list LlmToolCall -> Str;
  dec_calls : Str -> option (list LlmToolCall);
  enc_decision : ReasoningDecision -> Str;
  dec_decision : Str -> option ReasoningDecision;
}.

(** The arguments of a turn: the harness's settings and handles.  The texts of the
    system prompt and of the tool definitions are carried, not spelt out. *)
Record Turn : Type := mkTurn {
  chat_id : Str;
  provider : Str;
  model : Str;
  reasoning_enabled : bool;
  auto_approve : bool;
  workspace_dir : Str;
  HARNESS_SYSTEM_PROMPT : Str;
  tool_definitions : list ToolDefinition;
  reasoning_tools : list ToolDefinition;
}.

Context `{!Surroundings}.

(** ** The state of a run and its effects *)

Record World : Type := mkWorld {
  store : Store;
  events : list HarnessEvent;           (** what the consumer was given *)
  requests : list CompletionRequest;    (** what the provider was asked *)
  executed : list LlmToolCall;          (** the calls whose handler ran *)
  lines : list Str;                     (** the command lines run on an approval *)
  uuids : nat;
  statements : nat;
  cancel_reads : nat;
}.

Definition new_world (s : Store) : World := mkWorld s [] [] [] [] 0 0 0.

Definition set_store (s : Store) (w : World) : World :=
  mkWorld s (events w) (requests w) (executed w) (lines w) (uuids w) (statements w) (cancel_reads w).
Definition push_event (e : HarnessEvent) (w : World) : World :=
  mkWorld (store w) (events w ++ [e]) (requests w) (executed w) (lines w) (uuids w) (statements w)
    (cancel_reads w).
Definition push_request (r : CompletionRequest) (w : World) : World :=
  mkWorld (store w) (events w) (requests w ++ [r]) (executed w) (lines w) (uuids w) (statements w)
    (cancel_reads w).
Definition push_executed (c : LlmToolCall) (w : World) : World :=
  mkWorld (store w) (events w) (requests w) (executed w ++ [c]) (lines w) (uuids w) (statements w)
    (cancel_reads w).
Definition push_line (l : Str) (w : World) : World :=
  mkWorld (store w) (events w) (requests w) (executed w) (lines w ++ [l]) (uuids w) (statements w)
    (cancel_reads w).
Definition tick_uuid (w : World) : World :=
  mkWorld (store w) (events w) (requests w) (executed w) (lines w) (S (uuids w)) (statements w)
    (cancel_reads w).
Definition tick_statement (w : World) : World :=
  mkWorld (store w) (events w) (requests w) (executed w) (lines w) (uuids w) (S (statements w))
    (cancel_reads w).
Definition tick_cancel (w : World) : World :=
  mkWorld (store w) (events w) (requests w) (executed w) (lines w) (uuids w) (statements w)
    (S (cancel_reads w)).

(** A run goes on with a value, or has ended: the generator returned or was dropped. *)
Inductive flow (A : Type) : Type := Next (a : A) | Ended.
#[global] Arguments Next {A} a.
#[global] Arguments Ended {A}.

Definition M (A : Type) : Type := World -> World * flow A.

#[export] Instance M_ret : MRet M := fun A a w => (w, Next a).
#[export] Instance M_bind : MBind M := fun A B k m w =>
  match m w with
  | (w, Next a) => k a w
  | (w, Ended) => (w, Ended)
  end.

(** The generator's [return]. *)
Definition return_ {A} : M A := fun w => (w, Ended).

(** A statement that writes: [None] when it did, the error it is refused with otherwise. *)
Definition statement (f : Store -> Store) : M (option Str) := fun w =>
  match refused (statements w) with
  | Some e => (tick_statement w, Next (Some e))
  | None => (set_store (f (store w)) (tick_statement w), Next None)
  end.
Definition query {A} (f : Store -> A) : M (result Str A) := fun w =>
  match refused (statements w) with
  | Some e => (tick_statement w, Next (Err e))
  | None => (tick_statement w, Next (Ok (f (store w))))
  end.

Definition ends_turn (e : HarnessEvent) : bool :=
  match e with Done | Failed _ => true | _ => false end.

(** [Harness::recorded_usage]. *)
Definition recorded_usage (e : HarnessEvent) : M HarnessEvent :=
  match e with
  | TokenUsed id u =>
      r ← statement (add_chat_usage id u);
      mret match r with Some message => Failed message | None => e end
  | _ => mret e
  end.

Definition pass_on (out : HarnessEvent) (last : bool) : M unit := fun w =>
  (push_event out w, if last then Ended else Next tt).

Definition yield_ (e : HarnessEvent) : M unit :=
  out ← recorded_usage e; pass_on out (ends_turn e).

Definition fail {A} (message : Str) : M A := _ ← yield_ (Failed message); return_.

(** [if let Err(e) = ... { yield Error; return; }]. *)
Definition or_fail (m : M (option Str)) : M unit :=
  r ← m; match r with Some message => fail message | None => mret tt end.
Definition or_fail_with {A} (m : M (result Str A)) : M A :=
  r ← m; match r with Err message => fail message | Ok a => mret a end.

Definition is_cancelled : M bool := fun w => (tick_cancel w, Next (cancelled (cancel_reads w))).
Definition uuid : M Str := fun w => (tick_uuid w, Next (new_uuid (uuids w))).
Definition complete (r : CompletionRequest) : M (result Str (list CompletionStreamEvent)) := fun w =>
  (push_request r w, Next (complete_stream (length (requests w)) r)).
Definition execute_call (c : LlmToolCall) : M (result Str (Str * option Str)) := fun w =>
  let '(s, r) := execute_tool_call (length (executed w)) c (store w) in
  (set_store s (push_executed c w), Next r).

(** [Store::insert_chat_message]: the row, then the conversation's [updated_at]. *)
Definition insert_message (id chat role content : Str) (calls : option Str) : M (option Str) :=
  r ← statement (insert_chat_message id chat role content calls);
  match r with Some e => mret (Some e) | None => statement (fun s => s) end.

(** ** Missions in the store *)

Definition DONE : Str := lit "done".

Definition step_of_row (r : StepRow) : ReasoningStep :=
  mkStep (sr_index r) (default Direct (parse_mode (sr_mode r))) (sr_content r)
    (default Continue (sr_decision r ≫= dec_decision))
    (default [] (sr_tool_calls r ≫= dec_calls)).

Definition ask_of_row (a : AskRow) : PendingAsk :=
  mkAsk (ask_id a) (ask_question a) (split_on NEWLINE (ask_replies a)).

(** An open mission of the conversation, as the newest row has it. *)
Definition open_mission (chat : Str) (ms : list Mission) : option Mission :=
  List.find (fun m => bool_decide (m_chat m = chat) && negb (bool_decide (m_status m = DONE))) ms.

Definition load_or_create_mission (chat goal : Str) : M (result Str MissionState) :=
  r ← query list_missions;
  match r with
  | Err e => mret (Err e)
  | Ok ms =>
      match open_mission chat ms with
      | Some m =>
          r ← query (list_reasoning_steps (m_id m));
          match r with
          | Err e => mret (Err e)
          | Ok rows =>
              r ← query (get_pending_ask chat);
              mret (result_map (fun ask => mkMissionState m (step_of_row <$> rows) (ask_of_row <$> ask)) r)
          end
      | None =>
          id ← uuid;
          let m := mkMission id chat goal (lit "clarifying") None None in
          r ← statement (insert_mission m);
          mret match r with Some e => Err e | None => Ok (mkMissionState m [] None) end
      end
  end.

Definition persist_reasoning_step (mission_id : Str) (s : ReasoningStep) : M (option Str) :=
  _ ← uuid;
  statement (insert_reasoning_step
    (mkStepRow mission_id (st_step s) (mode_str (st_mode s)) (st_content s)
       (Some (enc_decision (st_decision s))) (Some (enc_calls (st_tool_calls s))))).

Definition persist_tool_call_records (message_id : Str) (records : list ChatToolCall) : M (option Str) :=
  statement (set_chat_message_tool_calls message_id (enc_records records)).

(** ** The history a request carries *)

Definition TOOL : Str := lit "tool".
Definition ASSISTANT : Str := lit "assistant".
Definition USER : Str := lit "user".
Definition TOOL_CALLS : Str := lit "tool_calls".

(** [str::split_once('\n')]. *)
Definition split_once (s : Str) : option (Str * Str) :=
  match position (fun c => (c =? NEWLINE)%N) s with
  | Some i => Some (take i s, drop (S i) s)
  | None => None
  end.

Definition records_of (r : Row) : list ChatToolCall :=
  match row_tool_calls r with Some json => default [] (dec_records json) | None => [] end.

Definition carries_calls (r : Row) : bool :=
  bool_decide (row_role r = ASSISTANT) || bool_decide (row_role r = TOOL_CALLS).

Definition statuses (rs : list Row) : gmap Str ToolCallStatus :=
  list_to_map (reverse ((fun r => (rec_id r, status r)) <$> (rs ≫= records_of))).

Definition answered (rs : list Row) : list Str :=
  omap (fun r => fst <$> split_once (row_content r)) (base.filter (fun r => row_role r = TOOL) rs).

Definition paired (rs : list Row) : list Str :=
  base.filter (fun id => id ∈ answered rs)
    (rec_id <$> (base.filter (fun r => carries_calls r = true) rs ≫= records_of)).

Definition role_of (s : Str) : Role :=
  if bool_decide (s = lit "system") then System
  else if bool_decide (s = ASSISTANT) || bool_decide (s = TOOL_CALLS) then Assistant
  else if bool_decide (s = TOOL) then Tool
  else User.

Definition kept_calls (ids : list Str) (r : Row) : option (list LlmToolCall) :=
  if carries_calls r then
    calls ← (row_tool_calls r ≫= dec_calls);
    Some (base.filter (fun c => call_id c ∈ ids) calls)
  else None.

Definition message_of (rs : list Row) (reasoning : gmap Str Str) (r : Row) : option Message :=
  let ids := paired rs in
  if bool_decide (row_role r = TOOL) then
    match split_once (row_content r) with
    | Some (id, rest) =>
        if bool_decide (id ∈ ids)
        then Some (mkMessage Tool rest None (Some id) (statuses rs !! id) (reasoning !! row_id r))
        else None
    | None => None
    end
  else
    let keep calls := Some (mkMessage (role_of (row_role r)) (row_content r) calls None None
                              (reasoning !! row_id r)) in
    match kept_calls ids r with
    | Some [] => if bool_decide (row_content r = []) then None else keep None
    | calls => keep calls
    end.

Definition history_of (rs : list Row) (reasoning : gmap Str Str) : list Message :=
  omap (message_of rs reasoning) rs.

Definition build_history (chat : Str) : M (list Message) :=
  r ← query (list_chat_messages chat);
  match r with
  | Err _ => mret []
  | Ok rs =>
      r ← query (list_chat_message_reasoning chat);
      mret (history_of rs match r with Ok m => m | Err _ => ∅ end)
  end.

(** ** Prompts and classification *)

Definition mode_prompt (m : ThinkingMode) : Str :=
  lit match m with
      | Direct => "Think briefly and then act or reply."
      | Contemplating => "Explore multiple angles and viewpoints before deciding. Do not commit yet."
      | Ruminating => "Let the problem sit. Revisit assumptions, constraints, and edge cases."
      | Baking => "Allow the idea to mature. Synthesize partial thoughts without rushing to a conclusion."
      | Reflecting => "Check what you already know, what is missing, and whether the goal is clear."
      | Verifying => "Validate facts, plan consistency, and tool availability before acting."
      | Debugging => "Diagnose why the previous approach might fail or what could go wrong."
      | Synthesizing => "Combine gathered information into a coherent plan or answer."
      | Planning => "Break the goal into concrete steps, tools, and dependencies."
      end.

Definition show_nat (n : nat) : Str := show_N (N.of_nat n).
Definition NL : Str := [NEWLINE].

Definition build_reasoning_prompt (mode : ThinkingMode) (goal : Str) (steps : list ReasoningStep) : Str :=
  lit "You are in thinking mode: " ++ mode_str mode ++ lit "." ++ NL ++ mode_prompt mode ++ NL ++ NL
  ++ lit "You are orchestrating a complex task. You may call reasoning tools: set_thinking_mode, continue_thinking, execute, ask_user, create_mission, update_mission." ++ NL
  ++ lit "Rules:" ++ NL
  ++ lit "- If you need more information, call ask_user." ++ NL
  ++ lit "- If you need to keep reasoning, call continue_thinking or set_thinking_mode." ++ NL
  ++ lit "- When you are ready to act (call tools, create agents/workflows, deploy), call execute." ++ NL
  ++ lit "- Track the overall goal using create_mission / update_mission." ++ NL ++ NL
  ++ lit "Current goal: " ++ goal ++ NL ++ NL
  ++ (if bool_decide (steps = []) then []
      else lit "Previous reasoning steps:" ++ NL
           ++ (take 4 (reverse steps) ≫= fun s =>
                 lit "- [" ++ show_nat (st_step s) ++ lit "] " ++ mode_str (st_mode s) ++ lit " -> "
                 ++ enc_decision (st_decision s) ++ NL)
           ++ NL).

Definition build_execution_prompt (goal : Str) (steps : list ReasoningStep) : Str :=
  lit "You are now executing. The goal is: " ++ goal ++ NL ++ NL ++ lit "Reasoning summary:" ++ NL
  ++ (take 6 (reverse steps) ≫= fun s =>
        lit "- [" ++ show_nat (st_step s) ++ lit "] " ++ mode_str (st_mode s) ++ lit ": "
        ++ take 200 (st_content s) ++ NL)
  ++ NL ++ lit "Use available tools to create agents, workflows, discover MCPs, install/connect MCPs, deploy to workers, and schedule workflows." ++ NL
  ++ lit "Only call a tool when you have enough information. If still missing info, ask the user instead." ++ NL.

Definition triggers : list Str := lit <$>
  ["agent"; "workflow"; "mcp"; "deploy"; "schedule"; "cron"; "worker"; "orchestr"; "automate";
   "build a"; "create a"; "mission"; "plan"; "multiple steps"; "complex"]%string.

Definition is_orchestration_goal (prompt : Str) : bool :=
  let prompt_lower := prompt ≫= to_lowercase in
  existsb (fun t => bool_decide (is_Some (find_str prompt_lower t))) triggers.

(** What the planning reply's calls decide; the last one that decides wins. *)
Definition parse_reasoning_call (acc : ReasoningDecision * ThinkingMode) (call : LlmToolCall)
    : ReasoningDecision * ThinkingMode :=
  let '(decision, mode) := acc in
  let named s := bool_decide (call_name call = lit s) in
  if named "set_thinking_mode"%string then
    (decision, default mode (as_str_at (arguments call) (lit "mode") ≫= parse_mode))
  else if named "continue_thinking"%string then (Continue, mode)
  else if named "execute"%string then (Execute, mode)
  else if named "ask_user"%string then (AskTheUser, mode)
  else if named "create_mission"%string || named "update_mission"%string then (Continue, mode)
  else acc.
Definition parse_reasoning_tool_calls (calls : list LlmToolCall) (mode : ThinkingMode)
    : ReasoningDecision * ThinkingMode :=
  foldl parse_reasoning_call (Continue, mode) calls.

(** The question of the first [ask_user] call; none when it carries no question. *)
Definition asked (calls : list LlmToolCall) : option (Str * list Str) :=
  call ← List.find (fun c => bool_decide (call_name c = lit "ask_user")) calls;
  question ← as_str_at (arguments call) (lit "question");
  Some (question, default [] (as_strs_at (arguments call) (lit "quick_replies"))).
Definition extract_ask_user (calls : list LlmToolCall) : M (option PendingAsk) :=
  match asked calls with
  | Some (question, quick_replies) => id ← uuid; mret (Some (mkAsk id question quick_replies))
  | None => mret None
  end.

(** [join("\n")]. *)
Fixpoint join_lines (ls : list Str) : Str :=
  match ls with
  | [] => []
  | [l] => l
  | l :: ls => l ++ NEWLINE :: join_lines ls
  end.

(** ** The reasoning phase *)

Context (t : Turn).

(** One planning reply, read to its end: its text and its calls. *)
Fixpoint read_plan (evs : list CompletionStreamEvent) (content : Str) (calls : list LlmToolCall)
    : M (Str * list LlmToolCall) :=
  match evs with
  | [] => mret (content, calls)
  | ev :: evs =>
      c ← is_cancelled;
      if (c : bool) then fail (lit "cancelled") else
      match ev with
      | SDelta delta => _ ← yield_ (ReasoningDelta delta); read_plan evs (content ++ delta) calls
      | SReasoning _ => read_plan evs content calls
      | SToolCalls calls => read_plan evs content calls
      | SUsage u => _ ← yield_ (TokenUsed (chat_id t) u); read_plan evs content calls
      | SDone => mret (content, calls)
      | SError message => fail message
      end
  end.

Definition reasoning_request (history : list Message) (mode : ThinkingMode) (m : MissionState)
    : CompletionRequest :=
  with_tools (reasoning_tools t) (with_messages history
    (with_system (build_reasoning_prompt mode (m_goal (ms_row m)) (ms_steps m))
      (with_system (HARNESS_SYSTEM_PROMPT t) (new_request (provider t) (model t))))).

Definition push_step (s : ReasoningStep) (m : MissionState) : MissionState :=
  mkMissionState (ms_row m) (ms_steps m ++ [s]) (ms_ask m).

(** What follows an [ask_user] decision: with a question, the turn suspends on it or,
    under auto-approve, answers it itself. *)
Definition suspend_on_ask (calls : list LlmToolCall) (m : MissionState) : M unit :=
  ask ← extract_ask_user calls;
  match ask with
  | None => mret tt
  | Some ask =>
      if auto_approve t then
        id ← uuid;
        or_fail (insert_message id (chat_id t) USER
          (lit "(auto-approved; no answer to: " ++ pa_question ask ++ lit ")") None)
      else
        _ ← or_fail (statement (insert_pending_ask
               (mkAskRow (pa_id ask) (chat_id t) (pa_question ask) (join_lines (pa_replies ask)) PENDING)));
        _ ← yield_ (AskUser (pa_question ask) (pa_replies ask));
        return_
  end.

(** The loop of the reasoning phase, [steps_left] steps from its bound: the mode, the mission
    and the decision it goes on with. *)
Fixpoint reason (steps_left : nat) (step : nat) (mode : ThinkingMode) (m : MissionState)
    : M (ThinkingMode * MissionState * ReasoningDecision) :=
  match steps_left with
  | O => mret (mode, m, Execute)
  | S steps_left =>
      c ← is_cancelled;
      if (c : bool) then fail (lit "cancelled") else
      history ← build_history (chat_id t);
      _ ← yield_ (ReasoningStarted step (mode_str mode));
      evs ← or_fail_with (complete (reasoning_request history mode m));
      plan ← read_plan evs [] [];
      let '(content, calls) := plan in
      let '(decision, mode) := parse_reasoning_tool_calls calls mode in
      let s := mkStep step mode content decision calls in
      _ ← or_fail (persist_reasoning_step (m_id (ms_row m)) s);
      let m := push_step s m in
      _ ← yield_ (ReasoningDone step (mode_str mode) content (enc_decision decision));
      if bool_decide (decision = Execute) || bool_decide (decision = DecidedDone)
      then mret (mode, m, decision)
      else
        _ ← (if bool_decide (decision = AskTheUser) then suspend_on_ask calls m else mret tt);
        reason steps_left (S step) mode m
  end.

(** ** The execution phase *)

(** A reply as it streams: its text, its chain of thought, its calls and the row that
    holds it. *)
Record Reply : Type := mkReply {
  assistant_content : Str;
  assistant_reasoning : Str;
  reply_calls : list LlmToolCall;
  assistant_msg_id : option Str;
}.

Definition record_delta (delta : Str) (r : Reply) : M Reply :=
  match assistant_msg_id r with
  | Some id =>
      _ ← or_fail (statement (append_chat_message_content id delta));
      mret (mkReply (assistant_content r ++ delta) (assistant_reasoning r) (reply_calls r) (Some id))
  | None =>
      id ← uuid;
      _ ← or_fail (insert_message id (chat_id t) ASSISTANT delta None);
      mret (mkReply (assistant_content r ++ delta) (assistant_reasoning r) (reply_calls r) (Some id))
  end.

Fixpoint read_reply (evs : list CompletionStreamEvent) (r : Reply) : M Reply :=
  match evs with
  | [] => mret r
  | ev :: evs =>
      c ← is_cancelled;
      if (c : bool) then _ ← yield_ (Failed (lit "cancelled")); mret r else
      match ev with
      | SDelta delta =>
          r ← record_delta delta r;
          _ ← yield_ (AssistantDelta delta);
          read_reply evs r
      | SReasoning delta =>
          read_reply evs (mkReply (assistant_content r) (assistant_reasoning r ++ delta) (reply_calls r)
                            (assistant_msg_id r))
      | SToolCalls calls =>
          read_reply evs (mkReply (assistant_content r) (assistant_reasoning r) calls (assistant_msg_id r))
      | SUsage u => _ ← yield_ (TokenUsed (chat_id t) u); read_reply evs r
      | SDone => mret r
      | SError message => fail message
      end
  end.

Definition record_reasoning (r : Reply) (id : option Str) : M unit :=
  match id with
  | Some id =>
      if bool_decide (assistant_reasoning r = []) then mret tt
      else or_fail (statement (set_chat_message_reasoning id (assistant_reasoning r)))
  | None => mret tt
  end.

(** The row the planned calls are attached to, made when the reply had no text. *)
Definition record_calls (r : Reply) (records : list ChatToolCall) : M Str :=
  match assistant_msg_id r with
  | Some id =>
      _ ← or_fail (statement (set_chat_message_tool_calls id (enc_records records)));
      mret id
  | None =>
      id ← uuid;
      _ ← or_fail (insert_message id (chat_id t) ASSISTANT [] (Some (enc_records records)));
      mret id
  end.

Definition tool_row (id body : Str) : Str := id ++ NEWLINE :: body.

(** The command gate: the proposal is recorded, the rest of the batch dropped, and the
    turn suspends. *)
Definition propose_command (call : LlmToolCall) (index : nat) (records : list ChatToolCall) (msg : Str)
    : M unit :=
  let records := truncate (index + 1) records in
  _ ← or_fail (persist_tool_call_records msg records);
  _ ← or_fail (statement (insert_pending_command (mkCommandRow (call_id call) (chat_id t) msg PENDING)));
  _ ← yield_ (CommandProposed (call_id call) (command_candidates call) (workspace_dir t));
  return_.

(** One call of the batch run to its outcome: its tool row, its record, its event. *)
Definition run_call (call : LlmToolCall) (index : nat) (records : list ChatToolCall) (msg : Str)
    : M (list ChatToolCall) :=
  r ← execute_call call;
  id ← uuid;
  let '(body, status, d) :=
    match r with Ok (output, d) => (output, Finished, d) | Err e => (e, Error, None) end in
  _ ← or_fail (insert_message id (chat_id t) TOOL (tool_row (call_id call) body) None);
  let records := alter (settle status body d) index records in
  _ ← or_fail (persist_tool_call_records msg records);
  _ ← yield_ (match status with
              | Finished => ToolCallFinished (call_id call) body
              | _ => ToolCallError (call_id call) body
              end);
  mret records.

Fixpoint run_calls (calls : list LlmToolCall) (index : nat) (records : list ChatToolCall) (msg : Str)
    : M unit :=
  match calls with
  | [] => mret tt
  | call :: calls =>
      c ← is_cancelled;
      if (c : bool) then yield_ (Failed (lit "cancelled")) else
      let records := alter (set_status Running) index records in
      _ ← or_fail (persist_tool_call_records msg records);
      _ ← yield_ (ToolCallStarted (call_id call) (call_name call) (arguments call));
      if negb (auto_approve t) && bool_decide (call_name call = COMMAND_TOOL)
      then propose_command call index records msg
      else
        records ← run_call call index records msg;
        run_calls calls (S index) records msg
  end.

Definition execution_request (history : list Message) (m : MissionState) : CompletionRequest :=
  with_tools (tool_definitions t) (with_messages
    (history ++ [text_message System (build_execution_prompt (m_goal (ms_row m)) (ms_steps m))])
    (with_system (HARNESS_SYSTEM_PROMPT t) (new_request (provider t) (model t)))).

(** The loop of the execution phase, [turns_left] iterations from its bound. *)
Fixpoint execute (turns_left : nat) (prev : list LlmToolCall) (m : MissionState) : M unit :=
  c ← is_cancelled;
  if (c : bool) then fail (lit "cancelled") else
  match turns_left with
  | O => fail (lit "too many execution iterations")
  | S turns_left =>
      history ← build_history (chat_id t);
      evs ← or_fail_with (complete (execution_request history m));
      r ← read_reply evs (mkReply [] [] [] None);
      _ ← record_reasoning r (assistant_msg_id r);
      if bool_decide (reply_calls r = []) then mret tt
      else if bool_decide (assistant_content r = []) && bool_decide (reply_calls r = prev) then mret tt
      else
        let records := planned <$> reply_calls r in
        msg ← record_calls r records;
        _ ← record_reasoning r (Some msg);
        _ ← run_calls (reply_calls r) 0 records msg;
        execute turns_left (if bool_decide (assistant_content r = []) then reply_calls r else prev) m
  end.

(** ** The turn *)

Definition persist_mission (m : Mission) : M (option Str) := statement (insert_mission m).

Definition enable_reasoning (m : MissionState) : bool :=
  reasoning_enabled t
  && (is_orchestration_goal (m_goal (ms_row m)) || negb (bool_decide (ms_steps m = []))
      || bool_decide (is_Some (ms_ask m))).

Definition close_mission (m : Mission) : Mission :=
  mkMission (m_id m) (m_chat m) (m_goal m) DONE (m_plan m) (m_workflow m).

Definition run_mission (prompt : Str) : M unit :=
  m ← or_fail_with (load_or_create_mission (chat_id t) prompt);
  _ ← yield_ (MissionUpdated (m_id (ms_row m)) (m_status (ms_row m)));
  let mode := match last (ms_steps m) with Some s => st_mode s | None => Direct end in
  planned ← (if enable_reasoning m then reason MAX_REASONING_STEPS 0 mode m
             else mret (mode, m, Execute));
  let '(mode, m, decision) := planned in
  if enable_reasoning m && bool_decide (decision = DecidedDone) then _ ← yield_ Done; return_
  else
    _ ← execute MAX_EXECUTION_STEPS [] m;
    let row := close_mission (ms_row m) in
    _ ← or_fail (persist_mission row);
    _ ← yield_ (MissionUpdated (m_id row) (m_status row));
    yield_ Done.

Definition run_turn (prompt : Str) : M unit :=
  id ← uuid;
  _ ← or_fail (insert_message id (chat_id t) USER prompt None);
  run_mission prompt.

(** ** Resuming a suspended turn *)

(** [reasoning_enabled] as the resumed turn is given it. *)
Definition with_reasoning_on (t : Turn) : Turn :=
  mkTurn (chat_id t) (provider t) (model t) true (auto_approve t) (workspace_dir t)
    (HARNESS_SYSTEM_PROMPT t) (tool_definitions t) (reasoning_tools t).

(** The line a stored credential adds to an answer. *)
Definition credential_note (name : Str) : Str :=
  NL ++ lit "Credential stored as " ++ name ++ lit ". Reference it in run_command as {{credential:"
  ++ name ++ lit "}}.".

Definition answer_text (question response : Str) (credential : option Str) : Str :=
  lit "Answer to question '" ++ question ++ lit "': " ++ response
  ++ match credential with Some name => credential_note name | None => [] end.

(** The answer of a question.  A credential goes to the vault, which is outside; a blank
    name is replaced by a generated one ([cred_name]). *)
Definition resume_turn (response : Str) (credential : option (Str * Str)) (cred_name : Str)
    (run_turn : Str -> M unit) : M unit :=
  r ← query (get_pending_ask (chat_id t));
  match r with
  | Ok (Some ask) =>
      _ ← or_fail (statement (resolve_pending_ask (ask_id ask) (lit "answered")));
      let name := credential ≫= fun c => Some (if bool_decide (trim c.1 = []) then cred_name else c.1) in
      _ ← match credential with Some _ => or_fail (statement (fun s => s)) | None => mret tt end;
      id ← uuid;
      _ ← or_fail (insert_message id (chat_id t) USER (answer_text (ask_question ask) response name) None);
      run_turn response
  | _ => fail (lit "no pending ask for chat")
  end.

(** [record_command_outcome]. *)
Definition record_command_outcome (message_id call : Str) (status : ToolCallStatus) (body : Str)
    : M (option Str) :=
  id ← uuid;
  r ← insert_message id (chat_id t) TOOL (tool_row call body) None;
  match r with
  | Some e => mret (Some e)
  | None =>
      if bool_decide (message_id = []) then mret None
      else
        r ← query (list_chat_messages (chat_id t));
        match r with
        | Err e => mret (Some e)
        | Ok rs =>
            match List.find (fun r => bool_decide (row_id r = message_id)) rs ≫= row_tool_calls with
            | Some json =>
                let records := default [] (dec_records json) in
                match position (fun r => bool_decide (rec_id r = call)) records with
                | Some i =>
                    persist_tool_call_records message_id
                      (alter (fun r => settle status body (diff r) r) i records)
                | None => mret None
                end
            | None => mret None
            end
        end
  end.

Definition rejection (reason : Str) : Str :=
  if bool_decide (trim reason = []) then lit "rejected by user" else lit "rejected by user: " ++ reason.

(** [run_approved_command] through the runner. *)
Definition run_approved (text : Str) : M (result Str Str) := fun w =>
  (push_line text w,
   Next (run_approved_command get_credential (run_argv (length (lines w))) text)).

Definition decided (d : CommandDecision) : M (result Str Str) :=
  match d with
  | Reject reason => mret (Err (rejection reason))
  | Approve text | Edit text => run_approved text
  end.

(** The decision on a proposed command; then the mission goes on. *)
Definition resume_command (d : CommandDecision) : M unit :=
  r ← query (get_pending_command (chat_id t));
  match r with
  | Ok (Some c) =>
      _ ← or_fail (statement (resolve_pending_command (cmd_call c) (lit "resolved")));
      outcome ← decided d;
      let '(status, body) :=
        match outcome with Ok value => (Finished, value) | Err e => (Error, e) end in
      _ ← or_fail (record_command_outcome (cmd_message c) (cmd_call c) status body);
      _ ← yield_ (match status with
                  | Finished => ToolCallFinished (cmd_call c) body
                  | _ => ToolCallError (cmd_call c) body
                  end);
      r ← query list_missions;
      let goal := match r with
                  | Ok ms => default [] (m_goal <$> open_mission (chat_id t) ms)
                  | Err _ => []
                  end in
      run_mission goal
  | _ => fail (lit "no pending command for chat")
  end.
End mission.

(** A resumed question runs a whole turn, with reasoning on. *)
Definition resume_mission_turn {X : Externs} `{!JsonView} `{!CharCase} `{!Surroundings} (t : Turn) (response : Str)
    (credential : option (Str * Str)) (cred_name : Str) : M unit :=
  resume_turn t response credential cred_name (run_turn (with_reasoning_on t)).
