(* ===== verification/MissionProps.v ===== *)
(** * What a turn of the agent guarantees

    The proofs go through three views of a computation: the relation it keeps between
    the world before and after ([respects]), the events it ends with ([settling]), and a
    Hoare triple ([triple]) for what the store holds. *)

From S2P Require Import Prelude Text AgentStore Commands Mission.
Import Commands.

Section logic.
Context {X : Externs} {HJ : JsonView} {HC : CharCase} {HS : Surroundings}.

(** ** Relations a computation keeps *)

Definition respects {A} (T : relation World) (m : M A) : Prop := forall w, T w (m w).1.

(** A relation that no effect but a model call or a handler can break. *)
Class Benign (T : relation World) : Prop := {
  benign_pre :: PreOrder T;
  benign_event e w : T w (push_event e w);
  benign_store s w : T w (set_store s w);
  benign_uuid w : T w (tick_uuid w);
  benign_statement w : T w (tick_statement w);
  benign_cancel w : T w (tick_cancel w);
}.

Lemma respects_ret {A} T `{!Benign T} (a : A) : respects T (mret a).
Proof. intros w. cbn. reflexivity. Qed.

Lemma respects_return {A} T `{!Benign T} : respects T (return_ (A := A)).
Proof. intros w. cbn. reflexivity. Qed.

Lemma respects_bind {A B} T `{!Benign T} (m : M A) (k : A -> M B) :
  respects T m -> (forall a, respects T (k a)) -> respects T (m ≫= k).
Proof.
  intros Hm Hk w. unfold mbind, M_bind. specialize (Hm w). destruct (m w) as [w' [a|]]; [|done].
  etrans; [exact Hm|apply Hk].
Qed.

Lemma respects_statement T `{!Benign T} f : respects T (statement f).
Proof.
  intros w. unfold statement. case_match; [apply benign_statement|].
  etrans; [apply benign_statement|apply benign_store].
Qed.

Lemma respects_query {A} T `{!Benign T} (f : Store -> A) : respects T (query f).
Proof. intros w. unfold query. case_match; apply benign_statement. Qed.

Lemma respects_pass_on T `{!Benign T} e b : respects T (pass_on e b).
Proof. intros w. apply benign_event. Qed.

Lemma respects_uuid T `{!Benign T} : respects T uuid.
Proof. intros w. apply benign_uuid. Qed.

Lemma respects_is_cancelled T `{!Benign T} : respects T is_cancelled.
Proof. intros w. apply benign_cancel. Qed.

(** ** Triples

    From a world in [P], a computation goes on with a value and a world in [Q], or ends
    the run in a world in [E]. *)

Definition triple {A} (P : World -> Prop) (m : M A) (Q : A -> World -> Prop) (E : World -> Prop)
    : Prop :=
  forall w, P w -> match m w with (w', Next a) => Q a w' | (w', Ended) => E w' end.

Lemma triple_bind {A B} P (m : M A) (k : A -> M B) R Q E :
  triple P m R E -> (forall a, triple (R a) (k a) Q E) -> triple P (m ≫= k) Q E.
Proof.
  intros Hm Hk w Hw. unfold mbind, M_bind. specialize (Hm w Hw).
  destruct (m w) as [w' [a|]]; [|done]. by apply Hk.
Qed.

Lemma triple_ret {A} P (a : A) Q E : (forall w, P w -> Q a w) -> triple P (mret a) Q E.
Proof. intros Hpq w Hw. by apply Hpq. Qed.

Lemma triple_weaken {A} P P' (m : M A) Q Q' E E' :
  triple P' m Q' E' -> (forall w, P w -> P' w) -> (forall a w, Q' a w -> Q a w) ->
  (forall w, E' w -> E w) -> triple P m Q E.
Proof.
  intros Hm Hp Hq He w Hw. specialize (Hm w (Hp w Hw)). destruct (m w) as [w' [a|]]; auto.
Qed.

Lemma triple_pre {A} P P' (m : M A) Q E : (forall w, P w -> P' w) -> triple P' m Q E -> triple P m Q E.
Proof. intros Hp Hm w Hw. apply Hm. by apply Hp. Qed.

Lemma triple_respects {A} T P (m : M A) :
  respects T m -> (forall w w', P w -> T w w' -> P w') -> triple P m (fun _ => P) P.
Proof.
  intros Hm Ht w Hw. specialize (Hm w). destruct (m w) as [w' [a|]]; by eapply Ht.
Qed.

Lemma triple_final {A} P (m : M A) R w :
  triple P m (fun _ => R) R -> P w -> R (m w).1.
Proof. intros Hm Hw. specialize (Hm w Hw). by destruct (m w) as [w' [a|]]. Qed.
End logic.

Create HintDb respects discriminated.
#[export] Hint Extern 0 (Benign _) => first [assumption|typeclasses eauto] : respects.
#[export] Hint Resolve respects_ret respects_return respects_statement respects_query
  respects_pass_on respects_uuid respects_is_cancelled : respects.

(** Takes a computation apart into its effects. *)
Ltac respects_step :=
  first
  [ progress intros
  | solve [eauto 4 with respects]
  | apply respects_bind; [solve [eauto with respects]| |]
  | match goal with |- respects _ (match ?x with _ => _ end) => destruct x end
  | match goal with |- respects _ (if ?x then _ else _) => destruct x end ].
Ltac respects_tac := repeat respects_step.

Section benign.
Context {X : Externs} {HJ : JsonView} {HC : CharCase} {HS : Surroundings}.
Context (T : relation World) {HT : Benign T}.

Lemma respects_yield e : respects T (yield_ e).
Proof. unfold yield_, recorded_usage. respects_tac. Qed.
Hint Resolve respects_yield : respects.

Lemma respects_fail {A} s : respects T (fail (A := A) s).
Proof. unfold fail. respects_tac. Qed.
Hint Resolve respects_fail : respects.

Lemma respects_or_fail m : respects T m -> respects T (or_fail m).
Proof. unfold or_fail. respects_tac. Qed.

Lemma respects_or_fail_with {A} (m : M (result Str A)) : respects T m -> respects T (or_fail_with m).
Proof. unfold or_fail_with. respects_tac. Qed.
Hint Resolve respects_or_fail respects_or_fail_with : respects.

Lemma respects_insert_message id chat role content calls :
  respects T (insert_message id chat role content calls).
Proof. unfold insert_message. respects_tac. Qed.
Hint Resolve respects_insert_message : respects.

Lemma respects_load chat goal : respects T (load_or_create_mission chat goal).
Proof. unfold load_or_create_mission. respects_tac. Qed.

Lemma respects_history chat : respects T (build_history chat).
Proof. unfold build_history. respects_tac. Qed.

Lemma respects_persist_step id s : respects T (persist_reasoning_step id s).
Proof. unfold persist_reasoning_step. respects_tac. Qed.

Lemma respects_extract calls : respects T (extract_ask_user calls).
Proof. unfold extract_ask_user. respects_tac. Qed.
Hint Resolve respects_load respects_history respects_persist_step respects_extract : respects.

Lemma respects_read_plan t evs content calls : respects T (read_plan t evs content calls).
Proof.
  revert content calls. induction evs as [|ev evs IH]; intros; cbn [read_plan]; respects_tac.
Qed.

Lemma respects_suspend t calls m : respects T (suspend_on_ask t calls m).
Proof. unfold suspend_on_ask. respects_tac. Qed.

Lemma respects_record_delta t delta r : respects T (record_delta t delta r).
Proof. unfold record_delta. respects_tac. Qed.
Hint Resolve respects_read_plan respects_suspend respects_record_delta : respects.

Lemma respects_read_reply t evs r : respects T (read_reply t evs r).
Proof. revert r. induction evs as [|ev evs IH]; intros; cbn [read_reply]; respects_tac. Qed.

Lemma respects_record_reasoning r id : respects T (record_reasoning r id).
Proof. unfold record_reasoning. respects_tac. Qed.

Lemma respects_record_calls t r records : respects T (record_calls t r records).
Proof. unfold record_calls. respects_tac. Qed.

Lemma respects_propose t call index records msg : respects T (propose_command t call index records msg).
Proof. unfold propose_command, persist_tool_call_records. respects_tac. Qed.
Hint Resolve respects_read_reply respects_record_reasoning respects_record_calls respects_propose
  : respects.

(** The handlers and the provider are the rest. *)

Lemma respects_run_call t call index records msg :
  (forall w, T w (push_executed call w)) -> respects T (run_call t call index records msg).
Proof.
  intros Hx. unfold run_call, persist_tool_call_records. apply respects_bind; [done| |respects_tac].
  intros w. unfold execute_call. destruct (execute_tool_call _ _ _) as [s r]. cbn.
  etrans; [apply Hx|apply benign_store].
Qed.

Lemma respects_run_calls t calls index records msg :
  (forall call w, negb (auto_approve t) && bool_decide (call_name call = COMMAND_TOOL) = false ->
                  T w (push_executed call w)) ->
  respects T (run_calls t calls index records msg).
Proof.
  intros Hx. revert index records. induction calls as [|call calls IH]; intros;
    cbn [run_calls]; unfold persist_tool_call_records; [respects_tac|].
  apply respects_bind; [done|respects_tac|intros c].
  destruct c; [respects_tac|]. apply respects_bind; [done|respects_tac|intros _].
  apply respects_bind; [done|respects_tac|intros _].
  destruct (negb _ && _) eqn:E; [respects_tac|].
  apply respects_bind; [done|apply respects_run_call; eauto|intros; apply IH].
Qed.

Lemma respects_complete r : (forall w, T w (push_request r w)) -> respects T (complete r).
Proof. intros Hr w. apply Hr. Qed.
End benign.

#[export] Hint Resolve respects_yield respects_fail respects_or_fail respects_or_fail_with
  respects_insert_message respects_load respects_history respects_persist_step respects_extract
  respects_read_plan respects_suspend respects_record_delta respects_read_reply
  respects_record_reasoning respects_record_calls respects_propose respects_run_calls
  respects_complete : respects.

Section calls.
Context {X : Externs} {HJ : JsonView} {HC : CharCase} {HS : Surroundings}.
Context (T : relation World) {HT : Benign T} (t : Turn).
Hypothesis Hrequest : forall r w, T w (push_request r w).
Hypothesis Hexecuted : forall call w,
  negb (auto_approve t) && bool_decide (call_name call = COMMAND_TOOL) = false ->
  T w (push_executed call w).

Lemma respects_reason n step mode m : respects T (reason t n step mode m).
Proof.
  revert step mode m. induction n as [|n IH]; intros; cbn [reason]; respects_tac.
Qed.

Lemma respects_execute n prev m : respects T (execute t n prev m).
Proof. revert prev. induction n as [|n IH]; intros; cbn [execute]; respects_tac. Qed.
Hint Resolve respects_reason respects_execute : respects.

Lemma respects_run_mission prompt : respects T (run_mission t prompt).
Proof. unfold run_mission, persist_mission. respects_tac. Qed.
Hint Resolve respects_run_mission : respects.

Lemma respects_run_turn prompt : respects T (run_turn t prompt).
Proof. unfold run_turn. respects_tac. Qed.
End calls.

(** ** Commands wait for an approval *)

Module GateProps.
Section gate.
Context {X : Externs} {HJ : JsonView} {HC : CharCase} {HS : Surroundings}.

(** Nothing was run but calls of other tools. *)
Definition gated (w w' : World) : Prop :=
  lines w' = lines w /\
  exists cs, executed w' = executed w ++ cs /\ Forall (fun c => call_name c <> COMMAND_TOOL) cs.

#[local] Instance gated_benign : Benign gated.
Proof.
  split; try (intros; split; [done|exists []; by rewrite app_nil_r]).
  split.
  - intros w. split; [done|]. exists []. by rewrite app_nil_r.
  - intros w1 w2 w3 [Hl1 (c1 & He1 & H1)] [Hl2 (c2 & He2 & H2)]. split; [congruence|].
    exists (c1 ++ c2). split; [by rewrite He2, He1, app_assoc|by apply Forall_app].
Qed.

Lemma gated_request r w : gated w (push_request r w).
Proof. split; [done|]. exists []. by rewrite app_nil_r. Qed.

Lemma gated_executed (t : Turn) call w :
  auto_approve t = false ->
  negb (auto_approve t) && bool_decide (call_name call = COMMAND_TOOL) = false ->
  gated w (push_executed call w).
Proof.
  intros -> Hb. split; [done|]. exists [call]. split; [done|]. constructor; [|done].
  by case_bool_decide.
Qed.

Lemma run_mission_gated t prompt w : auto_approve t = false -> gated w (run_mission t prompt w).1.
Proof.
  intros Ha. apply (respects_run_mission gated); [apply gated_request|].
  intros. by apply (gated_executed t).
Qed.

(** What the handlers ran, whatever lines were. *)
Definition handlers (w w' : World) : Prop :=
  exists cs, executed w' = executed w ++ cs /\ Forall (fun c => call_name c <> COMMAND_TOOL) cs.

#[local] Instance handlers_benign : Benign handlers.
Proof.
  split; try (intros; exists []; by rewrite app_nil_r).
  split.
  - intros w. exists []. by rewrite app_nil_r.
  - intros w1 w2 w3 (c1 & He1 & H1) (c2 & He2 & H2).
    exists (c1 ++ c2). split; [by rewrite He2, He1, app_assoc|by apply Forall_app].
Qed.

Lemma respects_record_outcome T `{!Benign T} t message_id call s body :
  respects T (record_command_outcome t message_id call s body).
Proof. unfold record_command_outcome, persist_tool_call_records. respects_tac. Qed.
Hint Resolve respects_record_outcome : respects.

Lemma gated_handlers w w' : gated w w' -> handlers w w'.
Proof. by intros [_ H]. Qed.

Lemma resume_command_gated t d w : auto_approve t = false -> handlers w (resume_command t d w).1.
Proof.
  intros Ha. assert (forall m, respects handlers (run_mission t m)) as Hm.
  { intros m. apply (respects_run_mission handlers); intros; apply gated_handlers;
      [apply gated_request|by apply (gated_executed t)]. }
  assert (respects handlers (decided d)) as Hd.
  { destruct d; cbn; try apply (respects_ret handlers); intros w'; exists []; by rewrite app_nil_r. }
  revert w. change (respects handlers (resume_command t d)). unfold resume_command.
  respects_tac.
Qed.

(** A decision is taken when a proposed command waits and neither its lookup nor the
    statement that resolves it is refused. *)
Definition takes_decision (t : Turn) (w : World) : bool :=
  bool_decide (is_Some (get_pending_command (chat_id t) (store w))) &&
  bool_decide (refused (statements w) = None) && bool_decide (refused (S (statements w)) = None).

(** The line a decision lets run. *)
Definition decided_line (d : CommandDecision) : list Str :=
  match d with Approve text | Edit text => [text] | Reject _ => [] end.

Lemma after_decision_gated t (c : CommandRow) outcome : auto_approve t = false ->
  respects gated (
      let '(status, body) :=
        match outcome with Ok value => (Finished, value) | Err e => (Error, e) end in
      _ ← or_fail (record_command_outcome t (cmd_message c) (cmd_call c) status body);
      _ ← yield_ (match status with
                  | Finished => ToolCallFinished (cmd_call c) body
                  | _ => ToolCallError (cmd_call c) body
                  end);
      r ← query list_missions;
      let goal := match r with
                  | Ok ms => default [] (m_goal <$> open_mission (chat_id t) ms)
                  | Err _ => []
                  end in
      run_mission t goal).
Proof.
  intros Ha. assert (forall m, respects gated (run_mission t m)) as Hm by (intros m w'; by apply run_mission_gated).
  respects_tac.
Qed.

Lemma fail_lines message w : lines (fail (A := unit) message w).1 = lines w.
Proof. assert (respects gated (fail (A := unit) message)) as H by respects_tac. by destruct (H w). Qed.

Lemma bind_next {A B} (m : M A) (k : A -> M B) w w' a : m w = (w', Next a) -> (m ≫= k) w = k a w'.
Proof. unfold mbind, M_bind. by intros ->. Qed.

Lemma or_fail_lines (m : M (option Str)) (k : unit -> M unit) w w' e :
  m w = (w', Next (Some e)) -> lines ((or_fail m ≫= k) w).1 = lines w'.
Proof.
  intros Hm. unfold or_fail. unfold mbind at 1, M_bind at 1. rewrite (bind_next _ _ _ _ _ Hm).
  pose proof (fail_lines e w') as Hf. destruct (fail e w') as [w2 [a |]] eqn:E; [| done].
  exfalso. revert E. unfold fail, mbind, M_bind. by destruct (yield_ _ _) as [? []].
Qed.

Lemma decided_lines d w : exists outcome w',
  decided d w = (w', Next outcome) /\ lines w' = lines w ++ decided_line d.
Proof. destruct d; do 2 eexists; (split; [reflexivity |]); [done | done | simpl; by rewrite app_nil_r]. Qed.

Lemma resume_command_lines t d w :
  auto_approve t = false ->
  lines (resume_command t d w).1 = lines w ++ (if takes_decision t w then decided_line d else []).
Proof.
  intros Ha. unfold resume_command, takes_decision. destruct (refused (statements w)) as [e |] eqn:H1.
  { rewrite (bind_next _ _ w (tick_statement w) (Err e)) by (unfold query; by rewrite H1).
    rewrite fail_lines, (bool_decide_false (Some e = None)), andb_false_r, app_nil_r by done. done. }
  rewrite (bind_next _ _ w (tick_statement w) (Ok (get_pending_command (chat_id t) (store w))))
    by (unfold query; by rewrite H1).
  destruct (get_pending_command _ _) as [c |]; cycle 1.
  { rewrite fail_lines, (bool_decide_false (is_Some _)), app_nil_r by (by intros []). done. }
  destruct (refused (S (statements w))) as [e |] eqn:H2.
  { erewrite or_fail_lines by (unfold statement; simpl; by rewrite H2).
    rewrite (bool_decide_false (Some e = None)), andb_false_r, app_nil_r by done. done. }
  erewrite bind_next by (unfold or_fail, mbind, M_bind, statement; simpl; by rewrite H2).
  rewrite !bool_decide_true by done. set (w1 := set_store _ _).
  destruct (decided_lines d w1) as (outcome & w2 & Hd & Hw2). rewrite (bind_next _ _ _ _ _ Hd).
  etrans; [apply (after_decision_gated t c outcome Ha w2) | by rewrite Hw2].
Qed.

End gate.
End GateProps.

(** ** A turn ends, and says how *)

Module TurnProps.
Section turn.
Context {X : Externs} {HJ : JsonView} {HC : CharCase} {HS : Surroundings}.

(** *** Model calls *)

Definition costs {A} (n : nat) (m : M A) : Prop :=
  forall w, length (requests (m w).1) <= length (requests w) + n.

Definition no_request (w w' : World) : Prop := requests w' = requests w.

#[export] Instance no_request_benign : Benign no_request.
Proof.
  split; try done. split; [done|]. intros w1 w2 w3 H1 H2. unfold no_request in *. congruence.
Qed.

Lemma costs_bind {A B} n1 n2 (m : M A) (k : A -> M B) :
  costs n1 m -> (forall a, costs n2 (k a)) -> costs (n1 + n2) (m ≫= k).
Proof.
  intros Hm Hk w. unfold mbind, M_bind. specialize (Hm w).
  destruct (m w) as [w' [a|]]; cbn in *; [|lia]. specialize (Hk a w'). lia.
Qed.

Lemma costs_free {A} n (m : M A) : respects no_request m -> costs n m.
Proof. intros H w. rewrite (H w). lia. Qed.

Lemma costs_then {A B} n (m : M A) (k : A -> M B) :
  respects no_request m -> (forall a, costs n (k a)) -> costs n (m ≫= k).
Proof. intros Hm Hk. apply (costs_bind 0 n); [by apply costs_free|done]. Qed.

Lemma costs_complete r : costs 1 (or_fail_with (complete r)).
Proof.
  unfold or_fail_with. apply (costs_bind 1 0); [intros w; cbn; rewrite length_app; cbn; lia|].
  intros [|]; apply costs_free; respects_tac.
Qed.

Lemma run_calls_asks_nothing t calls index records msg :
  respects no_request (run_calls t calls index records msg).
Proof. apply (respects_run_calls no_request). by intros. Qed.
#[local] Hint Resolve run_calls_asks_nothing : respects.

Lemma costs_reason t n step mode m : costs n (reason t n step mode m).
Proof.
  revert step mode m. induction n as [|n IH]; intros step mode m; cbn [reason].
  { apply costs_free. respects_tac. }
  apply costs_then; [respects_tac|intros []]; [apply costs_free; respects_tac|].
  apply costs_then; [respects_tac|intros history]. apply costs_then; [respects_tac|intros _].
  apply (costs_bind 1 n); [apply costs_complete|intros evs].
  apply costs_then; [respects_tac|intros [content calls]].
  destruct (parse_reasoning_tool_calls _ _) as [decision mode'].
  apply costs_then; [respects_tac|intros _]. apply costs_then; [respects_tac|intros _].
  case_match; [apply costs_free; respects_tac|]. apply costs_then; [respects_tac|intros _; apply IH].
Qed.

Lemma costs_execute t n prev m : costs n (execute t n prev m).
Proof.
  revert prev. induction n as [|n IH]; intros prev; cbn [execute].
  { apply costs_free. respects_tac. }
  apply costs_then; [respects_tac|intros []]; [apply costs_free; respects_tac|].
  apply costs_then; [respects_tac|intros history].
  apply (costs_bind 1 n); [apply costs_complete|intros evs].
  apply costs_then; [respects_tac|intros r]. apply costs_then; [respects_tac|intros _].
  case_match; [apply costs_free; respects_tac|]. case_match; [apply costs_free; respects_tac|].
  apply costs_then; [respects_tac|intros msg]. apply costs_then; [respects_tac|intros _].
  apply costs_then; [respects_tac|intros _]. apply IH.
Qed.

(** *** How a run ends *)

Definition settles (e : HarnessEvent) : Prop :=
  match e with
  | Done | Failed _ | AskUser _ _ | CommandProposed _ _ _ => True
  | _ => False
  end.

(** The events a computation adds: none of them is a [Done], unless it ends the run, and
    a run it ends ends with an event that settles. *)
Definition settling {A} (m : M A) : Prop := forall w,
  match m w with
  | (w', Next _) => exists evs, events w' = events w ++ evs /\ (Done ∉ evs)
  | (w', Ended) => exists evs e, events w' = events w ++ evs ++ [e] /\ (Done ∉ evs) /\ settles e
  end.

Lemma settling_ret {A} (a : A) : settling (mret a).
Proof. intros w. cbn. exists []. rewrite app_nil_r. set_solver. Qed.

Lemma settling_bind {A B} (m : M A) (k : A -> M B) :
  settling m -> (forall a, settling (k a)) -> settling (m ≫= k).
Proof.
  intros Hm Hk w. unfold mbind, M_bind. specialize (Hm w). destruct (m w) as [w1 [a|]]; [|done].
  destruct Hm as (evs1 & He1 & Hd1). specialize (Hk a w1). destruct (k a w1) as [w2 [b|]].
  - destruct Hk as (evs2 & -> & Hd2). exists (evs1 ++ evs2). rewrite He1, app_assoc. set_solver.
  - destruct Hk as (evs2 & e & -> & Hd2 & He). exists (evs1 ++ evs2), e.
    rewrite He1, !app_assoc. set_solver.
Qed.

Definition silent (w w' : World) : Prop := events w' = events w.

Lemma settling_silent {A} (m : M A) : (forall w, exists a, (m w).2 = Next a) ->
  (forall w, silent w (m w).1) -> settling m.
Proof.
  intros Hn Hs w. specialize (Hn w) as [a Hn]. specialize (Hs w). destruct (m w) as [w' f]. cbn in *.
  subst f. exists []. rewrite app_nil_r. split; [done|set_solver].
Qed.

Lemma settling_statement f : settling (statement f).
Proof. apply settling_silent; intros w; unfold statement; case_match; by eauto. Qed.
Lemma settling_query {A} (f : Store -> A) : settling (query f).
Proof. apply settling_silent; intros w; unfold query; case_match; by eauto. Qed.
Lemma settling_uuid : settling uuid.
Proof. apply settling_silent; intros w; by eauto. Qed.
Lemma settling_is_cancelled : settling is_cancelled.
Proof. apply settling_silent; intros w; by eauto. Qed.
Lemma settling_complete r : settling (complete r).
Proof. apply settling_silent; intros w; by eauto. Qed.
Lemma settling_execute_call c : settling (execute_call c).
Proof. apply settling_silent; intros w; unfold execute_call; case_match; by eauto. Qed.

(** An event on its own: the run ends only with one that settles. *)
Lemma settling_pass_on e : settling (pass_on e (ends_turn e)).
Proof.
  intros w. unfold pass_on. destruct (ends_turn e) eqn:He.
  - exists [], e. split; [done|]. split; [set_solver|by destruct e].
  - exists [e]. split; [done|]. rewrite list_elem_of_singleton. by intros <-.
Qed.

Lemma settling_yield e : settling (yield_ e).
Proof.
  assert (forall e', settling (_ ← mret e; pass_on e' (ends_turn e'))) as Hp.
  { intros e'. apply settling_bind; [apply settling_ret|intros _; apply settling_pass_on]. }
  destruct e; try apply (settling_pass_on _). cbn. unfold yield_, recorded_usage. cbn.
  intros w. unfold statement, pass_on, mbind, M_bind, mret, M_ret. destruct (refused _); cbn;
    (eexists [_]; split; [reflexivity|]; set_solver).
Qed.

(** An event that settles, and the generator's return. *)
Lemma settling_last {A} e : settles e -> settling (_ ← yield_ e; return_ (A := A)).
Proof.
  intros He w. destruct e; cbn in He; try done;
    (eexists [], _; cbn; split; [reflexivity|set_solver]).
Qed.

Lemma settling_fail {A} s : settling (fail (A := A) s).
Proof. by apply settling_last. Qed.
End turn.

Create HintDb settling discriminated.
#[export] Hint Resolve settling_ret settling_statement settling_query settling_uuid
  settling_is_cancelled settling_complete settling_execute_call settling_yield settling_fail
  : settling.

(** Takes a computation apart into its effects. *)
Ltac settling_step :=
  first
  [ progress intros
  | solve [eauto 4 with settling]
  | apply settling_last; exact I
  | apply settling_bind
  | match goal with |- settling (match ?x with _ => _ end) => destruct x end
  | match goal with |- settling (if ?x then _ else _) => destruct x end ].
Ltac settling_tac := repeat settling_step.

Section ends.
Context {X : Externs} {HJ : JsonView} {HC : CharCase} {HS : Surroundings} (t : Turn).

Lemma settling_or_fail m : settling m -> settling (or_fail m).
Proof. unfold or_fail. settling_tac. Qed.
Lemma settling_or_fail_with {A} (m : M (result Str A)) : settling m -> settling (or_fail_with m).
Proof. unfold or_fail_with. settling_tac. Qed.
Hint Resolve settling_or_fail settling_or_fail_with : settling.

Lemma settling_insert_message id chat role content calls :
  settling (insert_message id chat role content calls).
Proof. unfold insert_message. settling_tac. Qed.
Lemma settling_history chat : settling (build_history chat).
Proof. unfold build_history. settling_tac. Qed.
Lemma settling_extract calls : settling (extract_ask_user calls).
Proof. unfold extract_ask_user. settling_tac. Qed.
Hint Resolve settling_insert_message settling_history settling_extract : settling.

Lemma settling_load chat goal : settling (load_or_create_mission chat goal).
Proof. unfold load_or_create_mission. settling_tac. Qed.

Lemma settling_read_plan evs content calls : settling (read_plan t evs content calls).
Proof. revert content calls. induction evs as [|ev evs IH]; intros; cbn [read_plan]; settling_tac. Qed.

Lemma settling_suspend calls m : settling (suspend_on_ask t calls m).
Proof. unfold suspend_on_ask. settling_tac. Qed.
Hint Resolve settling_load settling_read_plan settling_suspend : settling.

Lemma settling_persist_step id s : settling (persist_reasoning_step id s).
Proof. unfold persist_reasoning_step. settling_tac. Qed.
Hint Resolve settling_persist_step : settling.

Lemma settling_reason n step mode m : settling (reason t n step mode m).
Proof. revert step mode m. induction n as [|n IH]; intros; cbn [reason]; settling_tac. Qed.

Lemma settling_record_delta delta r : settling (record_delta t delta r).
Proof. unfold record_delta. settling_tac. Qed.
Hint Resolve settling_reason settling_record_delta : settling.

Lemma settling_read_reply evs r : settling (read_reply t evs r).
Proof. revert r. induction evs as [|ev evs IH]; intros; cbn [read_reply]; settling_tac. Qed.

Lemma settling_record_reasoning r id : settling (record_reasoning r id).
Proof. unfold record_reasoning. settling_tac. Qed.

Lemma settling_record_calls r records : settling (record_calls t r records).
Proof. unfold record_calls. settling_tac. Qed.

Lemma settling_propose call index records msg : settling (propose_command t call index records msg).
Proof. unfold propose_command, persist_tool_call_records. settling_tac. Qed.

Lemma settling_run_call call index records msg : settling (run_call t call index records msg).
Proof. unfold run_call, persist_tool_call_records. settling_tac. Qed.
Hint Resolve settling_read_reply settling_record_reasoning settling_record_calls settling_propose
  settling_run_call : settling.

Lemma settling_run_calls calls index records msg : settling (run_calls t calls index records msg).
Proof.
  revert index records. induction calls as [|call calls IH]; intros; cbn [run_calls];
    unfold persist_tool_call_records; settling_tac.
Qed.
Hint Resolve settling_run_calls : settling.

Lemma settling_execute n prev m : settling (execute t n prev m).
Proof. revert prev. induction n as [|n IH]; intros; cbn [execute]; settling_tac. Qed.
Hint Resolve settling_execute : settling.

Lemma settling_run_mission prompt : settling (run_mission t prompt).
Proof. unfold run_mission, persist_mission. settling_tac. Qed.
Hint Resolve settling_run_mission : settling.

Lemma settling_run_turn prompt : settling (run_turn t prompt).
Proof. unfold run_turn. settling_tac. Qed.

(** Nothing follows: the run is over. *)
Definition always_ends {A} (m : M A) : Prop := forall w, (m w).2 = Ended.

Lemma always_ends_bind {A B} (m : M A) (k : A -> M B) :
  (forall a, always_ends (k a)) -> always_ends (m ≫= k).
Proof. intros Hk w. unfold mbind, M_bind. destruct (m w) as [w' [a|]]; [apply Hk|done]. Qed.

Lemma always_ends_done : always_ends (yield_ Done).
Proof. done. Qed.

Lemma run_mission_ends prompt : always_ends (run_mission t prompt).
Proof.
  unfold run_mission. do 3 (apply always_ends_bind; intros ?). case_match. case_match.
  case_match; repeat (apply always_ends_bind; intros ?); [done|apply always_ends_done].
Qed.

Lemma run_turn_ends prompt : always_ends (run_turn t prompt).
Proof. unfold run_turn. do 2 (apply always_ends_bind; intros ?). apply run_mission_ends. Qed.

(** C8: Every turn ends and says how.  Whatever the provider streams, the tools answer,
    the store refuses and whenever it is cancelled, a turn makes at most fourteen model
    calls, its stream ends, and its last event is [Done], an error, a question for the
    user or a proposed command; no [Done] comes before it. *)
Theorem turn_settles prompt w :
  (run_turn t prompt w).2 = Ended /\
  length (requests (run_turn t prompt w).1)
    <= length (requests w) + (MAX_REASONING_STEPS + MAX_EXECUTION_STEPS) /\
  exists evs e, events (run_turn t prompt w).1 = events w ++ evs ++ [e] /\ (Done ∉ evs) /\ settles e.
Proof.
  split; [apply run_turn_ends|]. split.
  - assert (forall m, costs (MAX_REASONING_STEPS + MAX_EXECUTION_STEPS) (run_mission t m)) as Hc.
    { intros m. unfold run_mission, persist_mission.
      do 2 (apply costs_then; [respects_tac|intros ?]).
      apply costs_bind; [case_match; [apply costs_reason|apply costs_free; respects_tac]|].
      intros [[mode ms] decision]. case_match; [apply costs_free; respects_tac|].
      apply (costs_bind MAX_EXECUTION_STEPS 0); [apply costs_execute|intros ?]. apply costs_free. respects_tac. }
    revert w. unfold run_turn. apply costs_then; [respects_tac|intros id].
    apply costs_then; [respects_tac|intros _]. apply Hc.
  - pose proof (settling_run_turn prompt w) as H. pose proof (run_turn_ends prompt w) as He.
    destruct (run_turn t prompt w) as [w' f]. cbn in *. by subst f.
Qed.
End ends.
End TurnProps.

(** ** The history a request carries *)

Module HistoryProps.
Section history.
Context {X : Externs} {HJ : JsonView} {HC : CharCase} {HS : Surroundings}.

Lemma kept_calls_message rs reasoning r m cs :
  message_of rs reasoning r = Some m -> tool_calls m = Some cs -> kept_calls (paired rs) r = Some cs.
Proof.
  unfold message_of. case_bool_decide; repeat case_match; intros [= <-]; cbn; congruence.
Qed.

Lemma kept_calls_paired ids r cs c : kept_calls ids r = Some cs -> c ∈ cs -> call_id c ∈ ids.
Proof.
  unfold kept_calls. destruct (carries_calls r); [|done].
  destruct (row_tool_calls r ≫= dec_calls) as [l|]; cbn; [|done].
  intros [= <-] [Hc _]%list_elem_of_filter. done.
Qed.

Lemma message_of_kept rs reasoning r c cs :
  kept_calls (paired rs) r = Some (c :: cs) ->
  exists m, message_of rs reasoning r = Some m /\ tool_calls m = Some (c :: cs).
Proof.
  intros Hk. unfold message_of. case_bool_decide as Hr.
  - unfold kept_calls, carries_calls in Hk. by rewrite Hr in Hk.
  - rewrite Hk. by eexists.
Qed.

Lemma message_of_answer rs reasoning r m id :
  message_of rs reasoning r = Some m -> tool_call_id m = Some id -> id ∈ paired rs.
Proof.
  unfold message_of. case_bool_decide; repeat case_match; try case_bool_decide;
    by intros [= <-]; cbn; intros [= <-].
Qed.

Lemma answer_of_paired rs reasoning id :
  id ∈ paired rs ->
  exists r m, r ∈ rs /\ message_of rs reasoning r = Some m /\ role m = Tool /\
    tool_call_id m = Some id.
Proof.
  intros Hid. pose proof Hid as Ha. unfold paired in Ha.
  apply list_elem_of_filter in Ha as [Ha _].
  unfold answered in Ha. apply list_elem_of_omap in Ha as (r & Hr & Hs).
  apply list_elem_of_filter in Hr as [Hrole Hr]. exists r.
  destruct (split_once (row_content r)) as [[id' rest]|] eqn:E; [|done]. injection Hs as <-.
  unfold message_of. rewrite (bool_decide_true _ Hrole), E, bool_decide_true by done.
  by eexists.
Qed.

Lemma call_of_paired rs id :
  (forall json l, dec_records json = Some l -> dec_calls json = Some (to_call <$> l)) ->
  id ∈ paired rs ->
  exists r cs c, r ∈ rs /\ kept_calls (paired rs) r = Some cs /\ c ∈ cs /\ call_id c = id.
Proof.
  intros Hcodec Hid. pose proof Hid as Hp. unfold paired in Hp.
  apply list_elem_of_filter in Hp as [_ Hp].
  apply list_elem_of_fmap in Hp as (x & Hx & Hp). apply list_elem_of_bind in Hp as (r & Hxr & Hr).
  apply list_elem_of_filter in Hr as [Hc Hr]. unfold records_of in Hxr.
  destruct (row_tool_calls r) as [json|] eqn:Ej; [|set_solver].
  destruct (dec_records json) as [l|] eqn:El; cbn in Hxr; [|set_solver].
  exists r, (base.filter (fun c => call_id c ∈ paired rs) (to_call <$> l)), (to_call x).
  unfold kept_calls. rewrite Hc, Ej. cbn. rewrite (Hcodec _ _ El). split_and!; [done|done| |done].
  apply list_elem_of_filter. split; [cbn; by rewrite <- Hx|by apply list_elem_of_fmap_2].
Qed.

(** C9: The history is one a provider accepts.  Whatever rows a conversation holds, every
    call an assistant message of its history carries is answered by a tool message of that
    history, every tool message answers a call some assistant message carries, and a row
    that is neither an assistant's nor a tool's is sent with its text unchanged.  The
    hypothesis is [serde]'s: a recorded call also reads as a call. *)
Theorem history_is_paired rs reasoning :
  (forall json l, dec_records json = Some l -> dec_calls json = Some (to_call <$> l)) ->
  (forall m cs c, m ∈ history_of rs reasoning -> tool_calls m = Some cs -> c ∈ cs ->
     exists m', m' ∈ history_of rs reasoning /\ role m' = Tool /\ tool_call_id m' = Some (call_id c)) /\
  (forall m id, m ∈ history_of rs reasoning -> tool_call_id m = Some id ->
     exists m' cs c, m' ∈ history_of rs reasoning /\ tool_calls m' = Some cs /\ c ∈ cs /\
       call_id c = id) /\
  (forall r, r ∈ rs -> carries_calls r = false -> row_role r <> TOOL ->
     mkMessage (role_of (row_role r)) (row_content r) None None None (reasoning !! row_id r)
       ∈ history_of rs reasoning).
Proof.
  intros Hcodec. unfold history_of. split_and!.
  - intros m cs c (r & Hr & Hm)%list_elem_of_omap Hcs Hc.
    apply (kept_calls_paired (paired rs) r cs) in Hc; [|by eapply kept_calls_message].
    destruct (answer_of_paired rs reasoning _ Hc) as (r' & m' & Hr' & Hm' & ? & ?).
    exists m'. split; [apply list_elem_of_omap; by exists r'|done].
  - intros m id (r & Hr & Hm)%list_elem_of_omap Hid.
    destruct (call_of_paired rs id Hcodec) as (r' & cs & c & Hr' & Hk & Hc & <-);
      [by eapply message_of_answer|].
    destruct cs as [|c' cs]; [set_solver|].
    destruct (message_of_kept _ reasoning _ _ _ Hk) as (m' & Hm' & Hcs).
    exists m', (c' :: cs), c. split; [apply list_elem_of_omap; by exists r'|done].
  - intros r Hr Hc Ht. apply list_elem_of_omap. exists r. split; [done|].
    unfold message_of, kept_calls. by rewrite bool_decide_false, Hc.
Qed.

(** [with_messages] replaces the messages, so the system prompts put into a request before
    it are never sent. *)
Lemma system_prompt_is_dropped t history mode m :
  messages (reasoning_request t history mode m) = history /\
  messages (execution_request t history m)
  = history ++ [text_message System (build_execution_prompt (m_goal (ms_row m)) (ms_steps m))].
Proof. done. Qed.
End history.
End HistoryProps.
