(* ===== verification/MissionStream.v ===== *)
(** * The stored conversation is the streamed one

    A turn writes its reply to the store and streams it to the surface, and the two are
    not the same code.  Here the stream is the specification: [show] is what a surface
    does with an event, and a turn keeps the stored conversation equal to the events
    shown one after the other ([Synced]).  A computation that neither writes a spoken
    row nor emits a spoken event is [quiet], and the rest are the four places of
    [Mission.v] that do both. *)

From S2P Require Import Prelude Text AgentStore Commands Mission MissionProps.
Import Commands.

Section stream.
Context {X : Externs} {HJ : JsonView} {HC : CharCase} {HS : Surroundings} (t : Turn).

(** ** What is shown and what is stored *)

(** What the surface has: the settled entries, and the reply being streamed. *)
Record Shown : Type := mkShown { settled : list (Str * Str); streaming : option Str }.

Definition shown (v : Shown) : list (Str * Str) :=
  settled v ++ match streaming v with Some text => [(ASSISTANT, text)] | None => [] end.

Definition show (v : Shown) (e : HarnessEvent) : Shown :=
  match e with
  | AssistantDelta delta => mkShown (settled v) (Some (default [] (streaming v) ++ delta))
  | ToolCallStarted _ _ _ => mkShown (shown v) None
  | ToolCallFinished id body | ToolCallError id body =>
      mkShown (shown v ++ [(TOOL, tool_row id body)]) None
  | _ => v
  end.

(** Entries without text are not shown. *)
Definition visible (l : list (Str * Str)) : list (Str * Str) := base.filter (fun x => x.2 <> []) l.

Definition spoken (r : Row) : bool :=
  bool_decide (row_role r = ASSISTANT) || bool_decide (row_role r = TOOL).

(** The spoken rows of the conversation: id, role, text. *)
Definition spoken_rows (s : Store) : list (Str * (Str * Str)) :=
  (fun r => (row_id r, (row_role r, row_content r)))
    <$> base.filter (fun r => spoken r = true) (list_chat_messages (chat_id t) s).

Definition transcript (s : Store) : list (Str * Str) := (spoken_rows s).*2.

Lemma visible_app l k : visible (l ++ k) = visible l ++ visible k.
Proof. apply filter_app. Qed.

(** ** The writes *)

Lemma spoken_rows_insert id role content calls s :
  spoken_rows (insert_chat_message id (chat_id t) role content calls s)
  = spoken_rows s
    ++ (if bool_decide (role = ASSISTANT) || bool_decide (role = TOOL) then [(id, (role, content))] else []).
Proof.
  unfold spoken_rows, list_chat_messages, insert_chat_message. cbn [rows set_rows].
  rewrite !filter_app, fmap_app. f_equal. rewrite filter_cons_True by done. cbn [base.filter].
  rewrite filter_cons. case_decide as Hd; unfold spoken in Hd; cbn [row_role] in Hd.
  - by rewrite Hd.
  - by destruct (_ || _).
Qed.

Lemma spoken_rows_update id f (g : Str -> Str) s :
  (forall r, row_id (f r) = row_id r /\ row_chat (f r) = row_chat r /\ row_role (f r) = row_role r /\
             row_content (f r) = g (row_content r)) ->
  spoken_rows (update_row id f s)
  = (fun x => if bool_decide (x.1 = id) then (x.1, (x.2.1, g x.2.2)) else x) <$> spoken_rows s.
Proof.
  intros Hf. unfold spoken_rows, list_chat_messages, update_row. cbn [rows set_rows].
  induction (rows s) as [|r l IH]; [done|]. rewrite fmap_cons.
  destruct (Hf r) as (Hi & Hc & Hr & Hx).
  rewrite !(filter_cons _ _ (_ <$> _)), !(filter_cons _ r l).
  set (r' := if bool_decide (row_id r = id) then f r else r).
  assert (row_chat r' = row_chat r) as -> by (unfold r'; by case_bool_decide).
  case_decide; [|exact IH]. rewrite !filter_cons.
  assert (spoken r' = spoken r) as Hs by (unfold r'; case_bool_decide; unfold spoken; by rewrite ?Hr).
  do 2 case_decide; [|congruence|congruence|exact IH]. rewrite !fmap_cons, IH. f_equal. unfold r'. cbn.
  case_bool_decide; [|done]. by rewrite Hi, Hr, Hx.
Qed.

Lemma spoken_rows_same id f s :
  (forall r, row_id (f r) = row_id r /\ row_chat (f r) = row_chat r /\ row_role (f r) = row_role r /\
             row_content (f r) = row_content r) ->
  spoken_rows (update_row id f s) = spoken_rows s.
Proof.
  intros Hf. rewrite (spoken_rows_update id f (fun x => x)) by done.
  rewrite <- (list_fmap_id (spoken_rows s)) at 2. apply list_fmap_ext. intros i [a [b c]] _. cbn.
  by case_bool_decide.
Qed.

Lemma spoken_rows_usage id u s : spoken_rows (add_chat_usage id u s) = spoken_rows s.
Proof. unfold add_chat_usage. by case_match. Qed.

Lemma spoken_rows_append id delta pre role content s :
  spoken_rows s = pre ++ [(id, (role, content))] -> id ∉ pre.*1 ->
  spoken_rows (append_chat_message_content id delta s) = pre ++ [(id, (role, content ++ delta))].
Proof.
  intros Hs Hid. unfold append_chat_message_content.
  rewrite (spoken_rows_update id _ (fun x => x ++ delta)) by done. rewrite Hs, fmap_app. f_equal.
  - rewrite <- (list_fmap_id pre) at 2. apply list_fmap_ext. intros i x Hx. cbn.
    rewrite bool_decide_false; [done|]. intros <-. apply Hid. apply list_elem_of_fmap.
    exists x. split; [done|]. by eapply list_elem_of_lookup_2.
  - cbn. by rewrite bool_decide_true.
Qed.

(** ** In step *)

Context (base : list (Str * Str)).

Definition replay (w : World) : Shown := foldl show (mkShown base None) (events w).

(** No row has an id that is still to be drawn. *)
Definition Fresh (w : World) : Prop :=
  forall n x, uuids w <= n -> x ∈ spoken_rows (store w) -> x.1 <> new_uuid n.

(** The rows show what the surface has; [open] is the row of the reply being streamed. *)
Definition matches (v : Shown) (open : option Str) (rs : list (Str * (Str * Str))) : Prop :=
  match open, streaming v with
  | None, None => visible (rs.*2) = visible (settled v)
  | Some id, Some text =>
      exists pre, rs = pre ++ [(id, (ASSISTANT, text))] /\ id ∉ pre.*1 /\
        visible (pre.*2) = visible (settled v)
  | _, _ => False
  end.

Definition Synced (open : option Str) (w : World) : Prop :=
  Fresh w /\ matches (replay w) open (spoken_rows (store w)).

Definition in_sync (w : World) : Prop := exists open, Synced open w.

Lemma matches_visible v open rs : matches v open rs -> visible (rs.*2) = visible (shown v).
Proof.
  unfold matches, shown. destruct open, (streaming v); try done.
  - intros (pre & -> & _ & H). by rewrite fmap_app, !visible_app, H.
  - by rewrite app_nil_r.
Qed.

Lemma matches_close v open rs :
  matches v open rs -> matches (mkShown (shown v) None) None rs.
Proof. intros H. by apply matches_visible in H. Qed.

Lemma replay_push e w : replay (push_event e w) = show (replay w) e.
Proof. unfold replay. cbn. by rewrite foldl_snoc. Qed.

(** ** Quiet computations *)

Definition quiet (w w' : World) : Prop :=
  spoken_rows (store w') = spoken_rows (store w) /\ uuids w <= uuids w' /\ replay w' = replay w.

#[export] Instance quiet_preorder : PreOrder quiet.
Proof.
  split; [by intros w; split_and!|].
  intros w1 w2 w3 (H1 & Hu1 & He1) (H2 & Hu2 & He2). split_and!; [congruence|lia|congruence].
Qed.

Lemma Synced_quiet open w w' : Synced open w -> quiet w w' -> Synced open w'.
Proof.
  intros [Hf Hm] (Hl & Hu & He). split; [|by rewrite He, Hl].
  intros n x Hn. rewrite Hl. apply Hf. lia.
Qed.

Lemma Synced_push_quiet e open w w' :
  Synced open (push_event e w) -> quiet w w' -> Synced open (push_event e w').
Proof.
  intros H (Hl & Hu & He). apply (Synced_quiet _ _ _ H). split_and!; [done|done|].
  by rewrite !replay_push, He.
Qed.

Definition hushed {A} (m : M A) : Prop := forall w, quiet w (m w).1.

Lemma hushed_ret {A} (a : A) : hushed (mret a).
Proof. by intros w. Qed.

Lemma hushed_return {A} : hushed (return_ (A := A)).
Proof. by intros w. Qed.

Lemma hushed_bind {A B} (m : M A) (k : A -> M B) :
  hushed m -> (forall a, hushed (k a)) -> hushed (m ≫= k).
Proof.
  intros Hm Hk w. unfold mbind, M_bind. specialize (Hm w). destruct (m w) as [w' [a|]]; [|done].
  etrans; [exact Hm|apply Hk].
Qed.

Lemma hushed_statement f : (forall s, spoken_rows (f s) = spoken_rows s) -> hushed (statement f).
Proof. intros Hf w. unfold statement. case_match; [done|]. by split_and!; cbn. Qed.

Lemma hushed_query {A} (f : Store -> A) : hushed (query f).
Proof. intros w. unfold query. by case_match. Qed.

Lemma hushed_uuid : hushed uuid.
Proof. intros w. split_and!; cbn; [done|lia|done]. Qed.

Lemma hushed_is_cancelled : hushed is_cancelled.
Proof. by intros w. Qed.

Lemma hushed_complete r : hushed (complete r).
Proof. by intros w. Qed.

Lemma hushed_pass_on e b : (forall v, show v e = v) -> hushed (pass_on e b).
Proof. intros He w. split_and!; [done..|]. unfold pass_on; cbn [fst].
  by rewrite replay_push.
Qed.
End stream.

Create HintDb hushed discriminated.
#[export] Hint Resolve hushed_ret hushed_return hushed_query hushed_uuid hushed_is_cancelled
  hushed_complete : hushed.
#[export] Hint Extern 1 (hushed _ _ (pass_on _ _)) => by apply hushed_pass_on : hushed.
#[export] Hint Extern 1 (hushed _ _ (statement _)) =>
  apply hushed_statement; intros; first [done|by apply spoken_rows_same] : hushed.

(** Takes a computation apart into its effects. *)
Ltac hushed_step :=
  first
  [ progress intros
  | solve [eauto 4 with hushed]
  | apply hushed_bind
  | match goal with |- hushed _ _ (match ?x with _ => _ end) => destruct x end
  | match goal with |- hushed _ _ (if ?x then _ else _) => destruct x end ].
Ltac hushed_tac := repeat hushed_step.

Section turn.
Context {X : Externs} {HJ : JsonView} {HC : CharCase} {HS : Surroundings} (t : Turn).
Context (base : list (Str * Str)).
#[local] Notation hushed := (hushed t base).
#[local] Notation Synced := (Synced t base).
#[local] Notation in_sync := (in_sync t base).

Lemma hushed_yield e : (forall v, show v e = v) -> hushed (yield_ e).
Proof.
  intros He. destruct e; try apply (hushed_pass_on t base _ _ He). unfold yield_, recorded_usage. cbn.
  intros w. unfold statement, mbind, M_bind, mret, M_ret.
  destruct (refused _); split_and!; cbn -[replay push_event];
    rewrite ?replay_push; try done.
  apply spoken_rows_usage.
Qed.
Hint Extern 1 (MissionStream.hushed _ _ (yield_ _)) => by apply hushed_yield : hushed.

Lemma hushed_fail {A} s : hushed (fail (A := A) s).
Proof. unfold fail. hushed_tac. Qed.
Hint Resolve hushed_fail : hushed.

Lemma hushed_or_fail m : hushed m -> hushed (or_fail m).
Proof. unfold or_fail. hushed_tac. Qed.
Lemma hushed_or_fail_with {A} (m : M (result Str A)) : hushed m -> hushed (or_fail_with m).
Proof. unfold or_fail_with. hushed_tac. Qed.
Hint Resolve hushed_or_fail hushed_or_fail_with : hushed.

Lemma hushed_user_message id content calls : hushed (insert_message id (chat_id t) USER content calls).
Proof.
  unfold insert_message. apply hushed_bind; [|hushed_tac]. apply hushed_statement. intros s.
  by rewrite spoken_rows_insert, app_nil_r.
Qed.
Hint Resolve hushed_user_message : hushed.

Lemma hushed_load chat goal : hushed (load_or_create_mission chat goal).
Proof. unfold load_or_create_mission. hushed_tac. Qed.
Lemma hushed_history chat : hushed (build_history chat).
Proof. unfold build_history. hushed_tac. Qed.
Lemma hushed_extract calls : hushed (extract_ask_user calls).
Proof. unfold extract_ask_user. hushed_tac. Qed.
Lemma hushed_read_plan evs content calls : hushed (read_plan t evs content calls).
Proof. revert content calls. induction evs as [|ev evs IH]; intros; cbn [read_plan]; hushed_tac. Qed.
Hint Resolve hushed_load hushed_history hushed_extract hushed_read_plan : hushed.

Lemma hushed_suspend calls m : hushed (suspend_on_ask t calls m).
Proof. unfold suspend_on_ask. hushed_tac. Qed.
Lemma hushed_persist_step id s : hushed (persist_reasoning_step id s).
Proof. unfold persist_reasoning_step. hushed_tac. Qed.
Lemma hushed_persist_calls id records : hushed (persist_tool_call_records id records).
Proof. unfold persist_tool_call_records. hushed_tac. Qed.
Lemma hushed_record_reasoning r id : hushed (record_reasoning r id).
Proof. unfold record_reasoning. hushed_tac. Qed.
Hint Resolve hushed_suspend hushed_persist_step hushed_persist_calls hushed_record_reasoning : hushed.

(** The reasoning phase speaks to nobody. *)
Lemma hushed_reason n step mode m : hushed (reason t n step mode m).
Proof. revert step mode m. induction n as [|n IH]; intros; cbn [reason]; hushed_tac. Qed.

Lemma hushed_propose call index records msg : hushed (propose_command t call index records msg).
Proof. unfold propose_command. hushed_tac. Qed.
Hint Resolve hushed_reason hushed_propose : hushed.

(** ** The computations that speak *)

Hypothesis Hrefused : forall n, refused n = None.
Hypothesis Huuid : forall m n, new_uuid m = new_uuid n -> m = n.
Hypothesis Htools : forall n c s,
  spoken_rows t (execute_tool_call n c s).1 = spoken_rows t s.

Lemma triple_hushed {A} open (m : M A) : hushed m -> triple (Synced open) m (fun _ => Synced open) in_sync.
Proof.
  intros Hm w Hw. specialize (Hm w). apply (Synced_quiet _ _ _ _ _ Hw) in Hm.
  destruct (m w) as [w' [a|]]; [done|by exists open].
Qed.

Lemma triple_hushed_sync {A} (m : M A) : hushed m -> triple in_sync m (fun _ => in_sync) in_sync.
Proof.
  intros Hm w [open Hw]. pose proof (triple_hushed open m Hm w Hw) as H.
  destruct (m w) as [w' [a|]]; [by exists open|done].
Qed.

Lemma triple_write f P P' E :
  (forall w, P w -> P' (set_store (f (store w)) (tick_statement w))) ->
  triple P (or_fail (statement f)) (fun _ => P') E.
Proof.
  intros Hp w Hw. unfold or_fail, statement, mbind, M_bind. rewrite Hrefused. cbn. by apply Hp.
Qed.

Lemma triple_yield e P E :
  ends_turn e = false -> (forall id u, e <> TokenUsed id u) ->
  triple (fun w => P (push_event e w)) (yield_ e) (fun _ => P) E.
Proof.
  intros He Hu w Hw. unfold yield_, recorded_usage, mbind, M_bind, pass_on, mret, M_ret.
  rewrite He. destruct e; try done. by destruct (Hu chat_id u).
Qed.

(** A row put at the end, and not shown yet. *)
Definition Added (open : option Str) (id role content : Str) (w : World) : Prop :=
  Fresh t w /\ exists rs,
    spoken_rows t (store w) = rs ++ [(id, (role, content))] /\ id ∉ rs.*1 /\
    matches (replay base w) open rs.

Definition Drawn (open : option Str) (id : Str) (w : World) : Prop :=
  Synced open w /\ id ∉ (spoken_rows t (store w)).*1 /\ forall n, uuids w <= n -> id <> new_uuid n.

Lemma triple_uuid open E : triple (Synced open) uuid (Drawn open) E.
Proof.
  intros w Hw. cbn. split_and!.
  - apply (Synced_quiet _ _ _ _ _ Hw), (hushed_uuid t base).
  - intros (x & Hx & Hin)%list_elem_of_fmap. destruct Hw as [Hf _]. by apply (Hf (uuids w) x) in Hin.
  - intros n Hn Heq. apply Huuid in Heq. cbn in Hn. lia.
Qed.

Lemma triple_insert open id role content calls E :
  role = ASSISTANT \/ role = TOOL ->
  triple (Drawn open id) (or_fail (insert_message id (chat_id t) role content calls))
    (fun _ => Added open id role content) E.
Proof.
  intros Hr w ([Hf Hm] & Hid & Hn).
  unfold or_fail, insert_message, statement, mbind, M_bind. rewrite Hrefused. cbn -[insert_chat_message].
  rewrite Hrefused. cbn -[insert_chat_message].
  assert (spoken_rows t (insert_chat_message id (chat_id t) role content calls (store w))
          = spoken_rows t (store w) ++ [(id, (role, content))]) as Hs.
  { rewrite spoken_rows_insert. by destruct Hr as [-> | ->]. }
  split; [|by exists (spoken_rows t (store w))].
  intros n x Hu. cbn -[insert_chat_message]. rewrite Hs, elem_of_app, list_elem_of_singleton.
  intros [Hx| ->]; [by apply Hf|by apply Hn].
Qed.

Lemma Added_delta id delta w :
  Added None id ASSISTANT delta w -> Synced (Some id) (push_event (AssistantDelta delta) w).
Proof.
  intros (Hf & rs & Hs & Hid & Hm). split; [exact Hf|]. rewrite replay_push. cbn [store push_event].
  rewrite Hs. unfold matches in *. cbn. destruct (streaming _); [done|]. by exists rs.
Qed.

Lemma Added_empty id w : Added None id ASSISTANT [] w -> Synced None w.
Proof.
  intros (Hf & rs & Hs & Hid & Hm). split; [exact Hf|]. unfold matches in *.
  destruct (streaming _); [done|]. by rewrite Hs, fmap_app, visible_app, Hm, app_nil_r.
Qed.

(** The event a finished or failed call is shown by. *)
Definition outcome_event (s : ToolCallStatus) (id body : Str) : HarnessEvent :=
  match s with Finished => ToolCallFinished id body | _ => ToolCallError id body end.

Lemma Added_tool s row id body w :
  Added None row TOOL (tool_row id body) w -> Synced None (push_event (outcome_event s id body) w).
Proof.
  intros (Hf & rs & Hs & Hid & Hm). split; [exact Hf|]. rewrite replay_push. cbn [store push_event].
  rewrite Hs. apply matches_visible in Hm. unfold matches.
  destruct s; cbn [show outcome_event streaming settled];
    by rewrite fmap_app, !visible_app, Hm.
Qed.

Lemma Synced_started open id name args w :
  Synced open w -> Synced None (push_event (ToolCallStarted id name args) w).
Proof.
  intros [Hf Hm]. split; [exact Hf|]. rewrite replay_push. by apply (matches_close _ open).
Qed.

(** A delta appended to the row of the reply. *)
Lemma Synced_append id delta w :
  Synced (Some id) w ->
  Synced (Some id) (push_event (AssistantDelta delta)
    (set_store (append_chat_message_content id delta (store w)) (tick_statement w))).
Proof.
  intros [Hf Hm]. unfold Synced, MissionStream.Synced. rewrite replay_push. cbn [store push_event set_store].
  unfold matches in Hm. change (replay base (set_store _ _)) with (replay base w).
  destruct (streaming (replay base w)) as [text|] eqn:Ht; [|done].
  destruct Hm as (pre & Hs & Hid & Hv).
  pose proof (spoken_rows_append t id delta pre ASSISTANT text _ Hs Hid) as Ha. split.
  - intros n x Hn. cbn [store push_event set_store]. rewrite Ha, elem_of_app, list_elem_of_singleton.
    intros [Hx| ->].
    + apply (Hf n x Hn). rewrite Hs. by apply elem_of_app; left.
    + apply (Hf n (id, (ASSISTANT, text)) Hn). rewrite Hs. apply elem_of_app. right. by left.
  - unfold matches. cbn [show streaming settled]. rewrite Ht. by exists pre.
Qed.

(** ** The turn *)

Lemma triple_failed message Q : triple in_sync (yield_ (Failed message)) Q in_sync.
Proof.
  intros w Hw. apply (triple_hushed_sync (yield_ (Failed message)) ltac:(hushed_tac) w Hw).
Qed.

Lemma triple_fail {A} open message Q : triple (Synced open) (fail (A := A) message) Q in_sync.
Proof.
  eapply (triple_bind _ _ _ (fun _ _ => False)); [|by intros [] w].
  intros w Hw. apply triple_failed. by exists open.
Qed.

Lemma triple_record_delta delta r :
  triple (Synced (assistant_msg_id r)) (record_delta t delta r)
    (fun r' w => Synced (assistant_msg_id r') (push_event (AssistantDelta delta) w)) in_sync.
Proof.
  unfold record_delta. destruct (assistant_msg_id r) as [id|] eqn:Hr.
  - eapply (triple_bind _ _ _
      (fun _ w => Synced (Some id) (push_event (AssistantDelta delta) w))).
    + apply triple_write. intros w. apply Synced_append.
    + intros []. by apply triple_ret.
  - eapply triple_bind; [apply triple_uuid|intros id].
    eapply triple_bind; [apply triple_insert; by left|intros []].
    apply triple_ret. intros w. apply Added_delta.
Qed.

Lemma triple_read_reply evs r :
  triple (Synced (assistant_msg_id r)) (read_reply t evs r)
    (fun r' => Synced (assistant_msg_id r')) in_sync.
Proof.
  revert r. induction evs as [|ev evs IH]; intros r; cbn [read_reply]; [by apply triple_ret|].
  eapply triple_bind; [apply triple_hushed; auto with hushed|intros c]. destruct c.
  { eapply triple_bind; [apply triple_hushed; hushed_tac|intros []]. by apply triple_ret. }
  destruct ev as [delta|delta|calls|u| |message].
  - eapply triple_bind; [apply triple_record_delta|intros r'].
    eapply triple_bind; [by apply triple_yield|intros []]. apply IH.
  - apply (IH (mkReply _ _ _ _)).
  - apply (IH (mkReply _ _ _ _)).
  - eapply triple_bind; [apply triple_hushed; hushed_tac|intros []]. apply IH.
  - by apply triple_ret.
  - apply triple_fail.
Qed.

Lemma triple_record_calls r records :
  triple (Synced (assistant_msg_id r)) (record_calls t r records)
    (fun _ => in_sync) in_sync.
Proof.
  unfold record_calls. destruct (assistant_msg_id r) as [id|].
  - eapply triple_bind; [apply triple_hushed; hushed_tac|intros []]. apply triple_ret. by exists (Some id).
  - eapply triple_bind; [apply triple_uuid|intros id].
    eapply triple_bind; [apply triple_insert; by left|intros []].
    apply triple_ret. intros w Hw. exists None. by eapply Added_empty.
Qed.

Lemma triple_run_call call index records msg :
  triple (Synced None) (run_call t call index records msg) (fun _ => Synced None) in_sync.
Proof.
  unfold run_call. eapply (triple_bind _ _ _ (fun _ => Synced None)).
  { intros w [Hf Hm]. unfold execute_call. pose proof (Htools (length (executed w)) call (store w)) as Hs.
    destruct (execute_tool_call _ _ _) as [s r]. cbn in Hs. unfold Synced, MissionStream.Synced, Fresh.
    cbn [store set_store]. rewrite Hs. by split. }
  intros r. eapply triple_bind; [apply triple_uuid|intros id].
  destruct (match r with Ok _ => _ | Err _ => _ end) as [[body st] d].
  eapply triple_bind; [apply triple_insert; by right|intros []].
  eapply (triple_bind _ _ _ (fun _ w => Synced None (push_event (outcome_event st (call_id call) body) w))).
  { apply triple_write. intros w Hw. apply (Added_tool st) in Hw.
    apply (Synced_push_quiet _ _ _ _ _ _ Hw). split_and!; [by apply spoken_rows_same|done|done]. }
  intros []. eapply (triple_bind _ _ _ (fun _ => Synced None)); [|intros []; by apply triple_ret].
  change (match st with Finished => _ | _ => _ end) with (outcome_event st (call_id call) body).
  apply triple_yield; by destruct st.
Qed.

Lemma triple_run_calls calls index records msg :
  triple (fun w => Synced None w \/ calls <> [] /\ in_sync w) (run_calls t calls index records msg)
    (fun _ => Synced None) in_sync.
Proof.
  revert index records. induction calls as [|call calls IH]; intros index records; cbn [run_calls].
  { apply triple_ret. by intros w [Hw|[? _]]. }
  apply (triple_pre _ in_sync); [intros w [Hw|[_ Hw]]; [by exists None|done]|].
  eapply triple_bind; [apply triple_hushed_sync; auto with hushed|intros c]. destruct c.
  { apply triple_failed. }
  eapply triple_bind; [apply triple_hushed_sync; hushed_tac|intros []].
  eapply (triple_bind _ _ _ (fun _ => Synced None)).
  { eapply triple_pre; [|by apply (triple_yield _ (Synced None))].
    intros w [open Hw]. by eapply Synced_started. }
  intros []. destruct (negb _ && _).
  - apply triple_hushed. hushed_tac.
  - eapply triple_bind; [apply triple_run_call|intros records'].
    eapply triple_pre; [|apply IH]. by left.
Qed.

Lemma triple_execute n prev m :
  triple (Synced None) (execute t n prev m) (fun _ => in_sync) in_sync.
Proof.
  revert prev. induction n as [|n IH]; intros prev; cbn [execute];
    (eapply triple_bind; [apply triple_hushed; auto with hushed|intros c]);
    (destruct c; [apply triple_fail|]).
  { apply triple_fail. }
  eapply triple_bind; [apply triple_hushed; auto with hushed|intros history].
  eapply triple_bind; [apply triple_hushed; hushed_tac|intros evs].
  eapply triple_bind; [apply (triple_read_reply evs (mkReply [] [] [] None))|intros r].
  eapply triple_bind; [apply triple_hushed; hushed_tac|intros []].
  case_bool_decide as Hc; [apply triple_ret; intros w Hw; by eexists|].
  case_match; [apply triple_ret; intros w Hw; by eexists|].
  eapply triple_bind; [apply triple_record_calls|intros msg].
  eapply triple_bind; [apply triple_hushed_sync; hushed_tac|intros []].
  eapply (triple_bind _ _ _ (fun _ => Synced None)); [|intros []; apply IH].
  eapply triple_pre; [|apply triple_run_calls]. by right.
Qed.

Lemma triple_run_mission prompt :
  triple (Synced None) (run_mission t prompt) (fun _ => in_sync) in_sync.
Proof.
  unfold run_mission, persist_mission.
  eapply triple_bind; [apply triple_hushed; hushed_tac|intros m].
  eapply triple_bind; [apply triple_hushed; hushed_tac|intros []].
  eapply triple_bind; [apply triple_hushed; hushed_tac|intros [[mode ms] decision]].
  case_match.
  { eapply triple_pre; [|apply triple_hushed_sync; hushed_tac]. intros w Hw. by eexists. }
  eapply triple_bind; [apply triple_execute|intros []]. apply triple_hushed_sync. hushed_tac.
Qed.

Lemma run_turn_in_sync prompt s :
  base = transcript t s -> (forall n x, x ∈ spoken_rows t s -> x.1 <> new_uuid n) ->
  in_sync (run_turn t prompt (new_world s)).1.
Proof.
  intros Hb Hf. apply (triple_final (Synced None)).
  - unfold run_turn. eapply (triple_bind _ _ _ (fun _ => Synced None)); [apply triple_hushed; auto with hushed|intros id].
    eapply triple_bind; [apply triple_hushed; hushed_tac|intros []]. apply triple_run_mission.
  - split; [intros n x _; by apply Hf|]. unfold matches, replay. cbn. by rewrite Hb.
Qed.
End turn.

Section theorem.
Context {X : Externs} {HJ : JsonView} {HC : CharCase} {HS : Surroundings}.

(** C7: The stored conversation is the streamed one.  When no statement is refused, drawn
    ids are distinct and not in use, and the tools leave the conversation's rows alone, then
    wherever a turn ends - done, failed, cancelled or suspended - the assistant and tool
    rows it leaves are, in order and text for text, what its events show; rows and entries
    without text are left out of the comparison. *)
Theorem transcript_matches_stream t prompt s :
  (forall n, refused n = None) ->
  (forall m n, new_uuid m = new_uuid n -> m = n) ->
  (forall n x, x ∈ spoken_rows t s -> x.1 <> new_uuid n) ->
  (forall n c s', spoken_rows t (execute_tool_call n c s').1 = spoken_rows t s') ->
  let w := (run_turn t prompt (new_world s)).1 in
  visible (transcript t (store w))
  = visible (shown (foldl show (mkShown (transcript t s) None) (events w))).
Proof.
  intros Hr Hu Hf Ht. cbn zeta.
  destruct (run_turn_in_sync t (transcript t s) Hr Hu Ht prompt s eq_refl Hf) as (open & _ & Hm).
  by apply matches_visible in Hm.
Qed.
End theorem.

(** ** On a concrete turn

    A provider whose first reply calls a tool, proposes a command and calls another tool,
    and whose later replies are text. *)

Module Demo.
#[export] Instance externs : Externs :=
  {| Json := Str * list Str; Instant := nat; to_rfc3339 _ := []; debug_str s := s |}.
#[export] Program Instance view : JsonView :=
  {| json_eq := _; as_str_at j _ := Some j.1; as_strs_at j _ := Some j.2; as_bool_at _ _ := None;
     json_text j := j.1 |}.
#[export] Existing Instance ascii_case.

(** A record as a tuple, for a codec. *)
Definition status_code (s : ToolCallStatus) : N :=
  match s with Pending => 0 | Running => 1 | Finished => 2 | Error => 3 end%N.
Definition status_of (n : N) : ToolCallStatus :=
  match n with 0 => Pending | 1 => Running | 2 => Finished | _ => Error end%N.
Definition flat : Type := Str * Str * (Str * list Str) * N * option Str * option Str.
Definition to_tuple (r : ChatToolCall) : flat :=
  (rec_id r, rec_name r, rec_arguments r, status_code (status r), result_ r, diff r).
Definition of_tuple (x : flat) : ChatToolCall :=
  let '(i, n, a, s, b, d) := x in mkRecord i n a (status_of s) b d.

Definition encode_records (l : list ChatToolCall) : Str := [Npos (encode (to_tuple <$> l))].
Definition decode_records (s : Str) : option (list ChatToolCall) :=
  match s with
  | [Npos p] => option_map (List.map of_tuple) (decode p : option (list flat))
  | _ => None
  end.

Definition call (id name : string) : LlmToolCall := mkCall (lit id) (lit name) (lit "ls", [lit "-l"]).

Definition reply (n : nat) : list CompletionStreamEvent :=
  match n with
  | O => [SDelta (lit "Let me "); SDelta (lit "look."); SUsage (mkUsage 3 None 2);
          SToolCalls [call "1" "list_files"; call "2" "run_command"; call "3" "list_files"]; SDone]
  | _ => [SDelta (lit "Here."); SDone]
  end.

#[export] Instance surroundings : Surroundings :=
  {| complete_stream n _ := Ok (reply n);
     execute_tool_call _ c s := (s, Ok (lit "ran " ++ call_name c, None));
     run_argv _ command args := Ok (command ++ concat args);
     get_credential _ := None; cancelled _ := false; refused _ := None; new_uuid n := show_N (N.of_nat n);
     enc_records := encode_records; dec_records := decode_records;
     enc_calls l := encode_records (List.map planned l);
     dec_calls s := option_map (List.map to_call) (decode_records s);
     enc_decision _ := []; dec_decision _ := None |}.

Definition turn : Turn :=
  mkTurn (lit "chat") (lit "provider") (lit "model") false false (lit "/w") (lit "system") [] [].
Definition empty : Store := mkStore [] [] [] [] [] ∅.
Definition first : World := (run_turn turn (lit "what is here?") (new_world empty)).1.
Definition second : World := (resume_command turn (Approve (lit "ls")) first).1.

(** The first turn runs the first tool and suspends on the command; the approved line is
    run and the second turn answers. *)
Example demo_run :
  executed first = [call "1" "list_files"] /\ lines first = [] /\
  last (events first) = Some (CommandProposed (lit "2") [lit "ls -l"] (lit "/w")) /\
  executed second = executed first /\ lines second = [lit "ls"] /\
  transcript turn (store second)
  = [(ASSISTANT, lit "Let me look."); (TOOL, lit "1" ++ NEWLINE :: lit "ran list_files");
     (TOOL, lit "2" ++ NEWLINE :: lit "ls"); (ASSISTANT, lit "Here.")].
Proof. by vm_compute. Qed.

(** An answered question leaves two user rows: the answer, and the bare response again as
    the prompt of the turn it resumes. *)
Lemma an_answer_is_recorded_twice :
  let s := insert_pending_ask (mkAskRow (lit "q") (lit "chat") (lit "Which one?") [] PENDING) empty in
  let w := (resume_mission_turn turn (lit "the first") None [] (new_world s)).1 in
  row_content <$> base.filter (fun r => row_role r = USER) (rows (store w))
  = [lit "Answer to question 'Which one?': the first"; lit "the first"].
Proof. by vm_compute. Qed.

Lemma show_N_inj m n : show_N m = show_N n -> m = n.
Proof.
  intros H. pose proof (proj2 (proj2 (show_N_digits m))) as Hm.
  rewrite H, (proj2 (proj2 (show_N_digits n))) in Hm. congruence.
Qed.

Lemma transcript_matches_stream_witness :
  transcript turn (store first)
    = [(ASSISTANT, lit "Let me look."); (TOOL, lit "1" ++ NEWLINE :: lit "ran list_files")] /\
  visible (transcript turn (store first))
  = visible (shown (foldl show (mkShown (transcript turn empty) None) (events first))).
Proof.
  split; [by vm_compute|].
  apply (transcript_matches_stream turn (lit "what is here?") empty).
  - done.
  - intros m n H. apply Nat2N.inj. by apply show_N_inj.
  - intros n x Hx. by apply elem_of_nil in Hx.
  - done.
Defined.


(** The rows of the second turn's end. *)
Definition rows_after : list Row := list_chat_messages (lit "chat") (store second).

Lemma history_is_paired_witness :
  length (base.filter (fun m => role m = Tool) (history_of rows_after ∅)) = 2 /\
  forall m cs c, m ∈ history_of rows_after ∅ -> tool_calls m = Some cs -> c ∈ cs ->
    exists m', m' ∈ history_of rows_after ∅ /\ role m' = Tool /\ tool_call_id m' = Some (call_id c).
Proof.
  split; [by vm_compute|].
  refine (proj1 (HistoryProps.history_is_paired rows_after ∅ _)).
  intros json l Hl. cbn in *. by rewrite Hl.
Defined.
End Demo.
