(* ===== verification/SubAgents.v ===== *)
(** * Sub-agents: the record, the registry and the child's run

    [goble-core/src/subagent.rs] (Module [Record_]), [subagent_run/cancel.rs],
    [registry.rs] and [events.rs] (Module [Registry]) and [budget.rs], [run.rs],
    [host.rs] with [harness/agents.rs] [spawn_subagent] (Module [Child]).

    Counters are [u32] and [u64] and wrap as they do in a release build.  Times are
    nanoseconds; an operation that reads the clock takes the reading. *)

From S2P Require Import Prelude Text FileTools AgentStore Commands Mission.
Import Commands.

(** ** The record of a child *)

Module Record_.

Definition MAX_SUBAGENT_DEPTH : N := 3.
Definition can_spawn_subagent (depth : N) : bool := (depth <? MAX_SUBAGENT_DEPTH)%N.

Definition SUBAGENTS_DIR : Str := lit "subagents".
Definition child_cwd (id : Str) (workspace_root : list Fs.Component) : list Fs.Component :=
  Fs.join (Fs.join workspace_root SUBAGENTS_DIR) id.

Definition wrap32 (n : N) : N := (n mod 2 ^ 32)%N.
Definition wrap64 (n : N) : N := (n mod 2 ^ 64)%N.

Record SubAgentBudget : Type := mkBudget { max_turns : N; max_tool_calls : N; max_tokens : N }.

Record SubAgentSpec : Type := mkSpec {
  id : Str;
  parent_chat_id : Str;
  parent_call_id : Str;
  description : Str;
  subagent_type : Str;
  prompt : Str;
  cwd : list Fs.Component;
  run_in_background : bool;
  depth : N;
  budget : SubAgentBudget;
}.

Inductive BudgetExhaustion : Type := Turns (limit : N) | ToolCalls (limit : N) | Tokens (limit : N).

Definition exhaustion (b : SubAgentBudget) (turns tool_calls tokens : N) : option BudgetExhaustion :=
  if (max_turns b <=? turns)%N then Some (Turns (max_turns b))
  else if (max_tool_calls b <=? tool_calls)%N then Some (ToolCalls (max_tool_calls b))
  else if (max_tokens b <=? tokens)%N then Some (Tokens (max_tokens b))
  else None.

Definition resource (e : BudgetExhaustion) : Str :=
  lit match e with Turns _ => "turns" | ToolCalls _ => "tool_calls" | Tokens _ => "tokens" end.

(** [BudgetExhaustion]'s [Display]. *)
Definition exhaustion_text (e : BudgetExhaustion) : Str :=
  lit "sub-agent budget exhausted: "
  ++ match e with
     | Turns l => show_N l ++ lit " turns (max_turns)"
     | ToolCalls l => show_N l ++ lit " tool calls (max_tool_calls)"
     | Tokens l => show_N l ++ lit " tokens (max_tokens)"
     end.

Inductive SubAgentStatus : Type :=
| Initializing
| Active (turns tool_calls tokens : N) (activity : Str)  (** [Running] *)
| Completed (output : Str) (duration_ms turns tool_calls tokens : N)
| Broke (error : Str)                                    (** [Failed] *)
| Cancelled (reason : Str).

#[export] Instance SubAgentStatus_eq_dec : EqDecision SubAgentStatus.
Proof. solve_decision. Defined.

Definition is_running (s : SubAgentStatus) : bool :=
  match s with Initializing | Active _ _ _ _ => true | _ => false end.
Definition is_terminal (s : SubAgentStatus) : bool := negb (is_running s).

Definition counts (s : SubAgentStatus) : N * N * N :=
  match s with
  | Active turns tool_calls tokens _ | Completed _ _ turns tool_calls tokens => (turns, tool_calls, tokens)
  | _ => (0, 0, 0)%N
  end.

(** [text.replace(['\n', '\r'], " ")]. *)
Definition one_line (text : Str) : Str :=
  (fun c => if (c =? 10)%N || (c =? 13)%N then 32%N else c) <$> text.

Definition DOT : Str := [32; 183; 32]%N.  (** [ · ] *)
Definition counters (turns tool_calls tokens : N) : Str :=
  show_N turns ++ lit " turns" ++ DOT ++ show_N tool_calls ++ lit " tool calls" ++ DOT
  ++ show_N tokens ++ lit " tokens".

Definition activity_label (s : SubAgentStatus) : Str :=
  one_line match s with
  | Initializing => lit "initializing"
  | Active turns tool_calls tokens activity =>
      let base := counters turns tool_calls tokens in
      if bool_decide (activity = []) then base else base ++ DOT ++ activity
  | Completed _ duration_ms turns tool_calls tokens =>
      lit "completed in " ++ show_N duration_ms ++ lit " ms" ++ DOT ++ counters turns tool_calls tokens
  | Broke error => lit "failed: " ++ error
  | Cancelled reason => lit "cancelled: " ++ reason
  end.

Record SubAgentRecord : Type := mkSubRecord {
  spec : SubAgentSpec;
  status : SubAgentStatus;
  started_at : Z;
  finished_at : option Z;
}.

Definition put_status (s : SubAgentStatus) (r : SubAgentRecord) : SubAgentRecord :=
  mkSubRecord (spec r) s (started_at r) (finished_at r).

(** A terminal status and the moment it was reached. *)
Definition stamp (s : SubAgentStatus) (now : Z) (r : SubAgentRecord) : SubAgentRecord :=
  mkSubRecord (spec r) s (started_at r) (Some now).

Definition new_record (s : SubAgentSpec) (now : Z) : SubAgentRecord := mkSubRecord s Initializing now None.

Definition begin_running (r : SubAgentRecord) : SubAgentRecord :=
  match status r with
  | Initializing => put_status (Active 0 0 0 []) r
  | _ => r
  end.

Definition set_activity (activity : Str) (r : SubAgentRecord) : SubAgentRecord :=
  match status r with
  | Active turns tool_calls tokens _ => put_status (Active turns tool_calls tokens activity) r
  | _ => r
  end.

(** [(end - start).num_milliseconds().max(0) as u64]: truncated towards zero. *)
Definition ms_between (start stop : Z) : N := Z.to_N (Z.max 0 (Z.quot (stop - start) 1000000)).

Definition finish_terminal (make : Str -> SubAgentStatus) (text : Str) (now : Z) (r : SubAgentRecord)
    : SubAgentRecord :=
  if is_terminal (status r) then r else stamp (make text) now r.

Definition fail (error : Str) : Z -> SubAgentRecord -> SubAgentRecord := finish_terminal Broke error.
Definition cancel (reason : Str) : Z -> SubAgentRecord -> SubAgentRecord :=
  finish_terminal Cancelled reason.

Definition complete (output : Str) (now : Z) (r : SubAgentRecord) : SubAgentRecord :=
  if is_terminal (status r) then r
  else
    let '(turns, tool_calls, tokens) := counts (status r) in
    stamp (Completed output (ms_between (started_at r) now) turns tool_calls tokens) now r.

(** The counters are raised, then held against the budget. *)
Definition charge (turns tool_calls tokens : N) (now : Z) (r : SubAgentRecord)
    : SubAgentRecord * option BudgetExhaustion :=
  if is_terminal (status r) then (r, None)
  else
    let r := begin_running r in
    let r := match status r with
             | Active ct cc ctk activity =>
                 put_status (Active (wrap32 (ct + turns)) (wrap32 (cc + tool_calls))
                               (wrap64 (ctk + tokens)) activity) r
             | _ => r
             end in
    let '(ct, cc, ctk) := counts (status r) in
    match exhaustion (budget (spec r)) ct cc ctk with
    | Some e => (fail (exhaustion_text e) now r, Some e)
    | None => (r, None)
    end.

Definition charge_turn : Z -> SubAgentRecord -> SubAgentRecord * option BudgetExhaustion := charge 1 0 0.
Definition charge_tool_call : Z -> SubAgentRecord -> SubAgentRecord * option BudgetExhaustion :=
  charge 0 1 0.
Definition charge_tokens (added : N) : Z -> SubAgentRecord -> SubAgentRecord * option BudgetExhaustion :=
  charge 0 0 added.

Definition elapsed_ms_at (now : Z) (r : SubAgentRecord) : N :=
  ms_between (started_at r) (default now (finished_at r)).
Definition duration_ms (r : SubAgentRecord) : option N := ms_between (started_at r) <$> finished_at r.

End Record_.

(** ** The registry *)

Module Registry.
Import Record_.

Definition PARENT_CANCEL_REASON : Str := lit "cancelled by the parent agent".

(** *** The stop bit of a child

    [own] and [reason] are this child's; the parent's bit is shared by the whole tree and
    an argument of what reads it. *)
Record ChildCancel : Type := mkCancel { own : bool; kill_reason : option Str }.

Definition new_cancel : ChildCancel := mkCancel false None.

Definition fire (reason : Str) (c : ChildCancel) : ChildCancel :=
  if own c then c else mkCancel true (Some reason).

Definition signal (parent : bool) (c : ChildCancel) : option Str :=
  if own c then Some (default PARENT_CANCEL_REASON (kill_reason c))
  else if parent then Some PARENT_CANCEL_REASON else None.

(** *** Token spend *)

Definition MAX64 : N := 2 ^ 64 - 1.
Definition saturating_add (a b : N) : N := N.min (a + b) MAX64.

(** A [UsageBuckets] has the fields of a [TokenUsage]. *)
Definition no_usage : TokenUsage := mkUsage 0 None 0.

Definition fold_usage (self other : TokenUsage) : TokenUsage :=
  mkUsage (saturating_add (input self) (input other))
    (match cached other with
     | Some c => Some (saturating_add (default 0%N (cached self)) c)
     | None => cached self
     end)
    (saturating_add (output self) (output other)).

(** [N]'s subtraction stops at zero, as [saturating_sub]. *)
Definition since (self other : TokenUsage) : TokenUsage :=
  mkUsage (input self - input other)%N
    (match cached self, cached other with
     | Some mine, Some theirs => Some (mine - theirs)%N
     | mine, _ => mine
     end)
    (output self - output other)%N.

Definition is_zero (u : TokenUsage) : bool :=
  ((input u =? 0) && (output u =? 0) && (default 0 (cached u) =? 0))%N.

Record ChildUsage : Type := mkChildUsage { total : TokenUsage; reported : TokenUsage }.

Record ChildEntry : Type := mkEntry {
  record : SubAgentRecord;
  stop : ChildCancel;
  spent : ChildUsage;
}.

Definition entry_id (e : ChildEntry) : Str := id (spec (record e)).
Definition entry_parent (e : ChildEntry) : Str := parent_chat_id (spec (record e)).

Section registry.
Context {X : Externs}.

(** *** Lifecycle events *)

Definition status_kind (s : SubAgentStatus) : Str :=
  lit match s with
      | Initializing => "initializing"
      | Active _ _ _ _ => "running"
      | Completed _ _ _ _ _ => "completed"
      | Broke _ => "failed"
      | Cancelled _ => "cancelled"
      end.

Definition subagent_spawned (r : SubAgentRecord) : HarnessEvent :=
  SubAgentSpawned (parent_chat_id (spec r)) (id (spec r)) (subagent_type (spec r))
    (description (spec r)) (parent_call_id (spec r)) (run_in_background (spec r)).

Definition subagent_token_usage (chat_id : Str) (u : TokenUsage) : HarnessEvent := TokenUsed chat_id u.

Definition subagent_progress (now : Z) (r : SubAgentRecord) : HarnessEvent :=
  let '(turns, tool_calls, tokens) := counts (status r) in
  SubAgentProgress (parent_chat_id (spec r)) (id (spec r)) (status_kind (status r))
    (match status r with Active _ _ _ activity => activity | _ => [] end)
    turns tool_calls tokens (elapsed_ms_at now r).

(** The outcome of a terminal record; of another one the code panics. *)
Definition outcome (s : SubAgentStatus) : option (option Str * option Str) :=
  match s with
  | Completed output _ _ _ _ => Some (Some output, None)
  | Broke error => Some (None, Some error)
  | Cancelled reason => Some (None, Some reason)
  | _ => None
  end.

Definition subagent_finished (r : SubAgentRecord) : option HarnessEvent :=
  let '(turns, tool_calls, tokens) := counts (status r) in
  (fun '(output, error) =>
     SubAgentFinished (parent_chat_id (spec r)) (id (spec r)) (status_kind (status r)) output error
       (default 0%N (duration_ms r)) turns tool_calls tokens) <$> outcome (status r).

(** *** The state

    [channels] are the sinks turns have attached, oldest first: what was sent to each and
    whether its turn still listens.  [sink] is the attached one. *)
Record Channel : Type := mkChannel { sent : list HarnessEvent; listening : bool }.

Record SubAgentRegistry : Type := mkRegistry {
  children : list ChildEntry;
  sink : option nat;
  channels : list Channel;
}.

Definition no_children : SubAgentRegistry := mkRegistry [] None [].

Definition set_children (l : list ChildEntry) (r : SubAgentRegistry) : SubAgentRegistry :=
  mkRegistry l (sink r) (channels r).

(** [UnboundedSender::send]: nothing happens once the receiver is gone. *)
Definition send_to (k : nat) (e : HarnessEvent) (r : SubAgentRegistry) : SubAgentRegistry :=
  mkRegistry (children r) (sink r)
    (alter (fun c => if listening c then mkChannel (sent c ++ [e]) true else c) k (channels r)).

Definition emit (e : HarnessEvent) (r : SubAgentRegistry) : SubAgentRegistry :=
  match sink r with Some k => send_to k e r | None => r end.

Definition emit_all (es : list HarnessEvent) (r : SubAgentRegistry) : SubAgentRegistry :=
  foldl (fun r e => emit e r) r es.

(** *** Operations *)

Definition owed (e : ChildEntry) : option HarnessEvent :=
  let u := since (total (spent e)) (reported (spent e)) in
  if is_zero u then None else Some (subagent_token_usage (entry_parent e) u).

Definition settle_spend (e : ChildEntry) : ChildEntry :=
  if is_zero (since (total (spent e)) (reported (spent e))) then e
  else mkEntry (record e) (stop e) (mkChildUsage (total (spent e)) (total (spent e))).

(** [attach_event_sink]: the spend no turn has heard goes to the new sink, which then
    becomes the attached one. *)
Definition attach_event_sink (r : SubAgentRegistry) : SubAgentRegistry :=
  mkRegistry (settle_spend <$> children r) (Some (length (channels r)))
    (channels r ++ [mkChannel (omap owed (children r)) true]).

(** The turn of a sink ends: its receiver is dropped.  The sink stays attached. *)
Definition drop_receiver (k : nat) (r : SubAgentRegistry) : SubAgentRegistry :=
  mkRegistry (children r) (sink r) (alter (fun c => mkChannel (sent c) false) k (channels r)).

Definition index_of (i : Str) (l : list ChildEntry) : option nat :=
  position (fun e => bool_decide (entry_id e = i)) l.

(** [note_child_usage], the sink having been read already: it is cloned under one lock,
    the spend noted under another. *)
Definition note_with (sender : option nat) (child_id parent_chat_id : Str) (u : TokenUsage)
    (r : SubAgentRegistry) : SubAgentRegistry :=
  let note e := mkEntry (record e) (stop e)
                  (mkChildUsage (fold_usage (total (spent e)) u)
                     (match sender with
                      | Some _ => fold_usage (reported (spent e)) u
                      | None => reported (spent e)
                      end)) in
  let r := match index_of child_id (children r) with
           | Some i => set_children (alter note i (children r)) r
           | None => r
           end in
  match sender with
  | Some k => send_to k (subagent_token_usage parent_chat_id u) r
  | None => r
  end.

Definition note_child_usage (child_id parent_chat_id : Str) (u : TokenUsage) (r : SubAgentRegistry)
    : SubAgentRegistry :=
  note_with (sink r) child_id parent_chat_id u r.

Definition register (rec : SubAgentRecord) (c : ChildCancel) (r : SubAgentRegistry) : SubAgentRegistry :=
  if existsb (fun e => bool_decide (entry_id e = id (spec rec))) (children r) then r
  else emit (subagent_spawned rec)
         (set_children (children r ++ [mkEntry rec c (mkChildUsage no_usage no_usage)]) r).

Definition records (r : SubAgentRegistry) : list SubAgentRecord := record <$> children r.

Definition snapshot (i : Str) (r : SubAgentRegistry) : option SubAgentRecord :=
  record <$> List.find (fun e => bool_decide (entry_id e = i)) (children r).
(** The event of an applied write. *)
Definition written (now : Z) (rec : SubAgentRecord) : list HarnessEvent :=
  if is_terminal (status rec) then match subagent_finished rec with Some e => [e] | None => [] end
  else [subagent_progress now rec].

Definition publish (now : Z) (rec : SubAgentRecord) (r : SubAgentRegistry) : SubAgentRegistry :=
  match index_of (id (spec rec)) (children r) with
  | Some i =>
      match children r !! i with
      | Some e =>
          if is_terminal (status (record e)) then r
          else emit_all (written now rec)
                 (set_children (<[i := mkEntry rec (stop e) (spent e)]> (children r)) r)
      | None => r
      end
  | None => r
  end.

(** The walk of a kill: the entries, and the records it has terminalised.  The clock is
    read once for each of those.  Every level ends a record, so [fuel] above the number of
    live entries is enough. *)
Definition kill (reason : Str) (now : Z) (e : ChildEntry) : ChildEntry :=
  mkEntry (cancel reason now (record e)) (fire reason (stop e)) (spent e).

Definition nested (i : Str) (l : list ChildEntry) : list Str :=
  entry_id <$> base.filter (fun e => entry_parent e = i) l.

Fixpoint cancel_entry (fuel : nat) (clock : nat -> Z) (reason : Str) (i : Str)
    (st : list ChildEntry * list SubAgentRecord) : list ChildEntry * list SubAgentRecord * bool :=
  match fuel with
  | O => (st, false)
  | S fuel =>
      let '(l, cancelled) := st in
      match index_of i l ≫= fun k => e ← l !! k; Some (k, e) with
      | Some (k, e) =>
          if is_terminal (status (record e)) then (st, false)
          else
            let e := kill reason (clock (length cancelled)) e in
            let l := <[k := e]> l in
            (foldl (fun st n => (cancel_entry fuel clock reason n st).1)
               (l, cancelled ++ [record e]) (nested i l), true)
      | None => (st, false)
      end
  end.

Definition walk (clock : nat -> Z) (reason : Str) (i : Str) (l : list ChildEntry)
    : list ChildEntry * list SubAgentRecord * bool :=
  cancel_entry (S (length l)) clock reason i (l, []).

(** [SubAgentRegistry::cancel]. *)
Definition cancel_child (clock : nat -> Z) (i reason : Str) (r : SubAgentRegistry) : SubAgentRegistry * bool :=
  let '(l, cancelled, hit) := walk clock reason i (children r) in
  (emit_all (omap subagent_finished cancelled) (set_children l r), hit).

Definition cancel_all (clock : nat -> Z) (reason : Str) (r : SubAgentRegistry) : SubAgentRegistry :=
  let '(l, cancelled) :=
    foldl (fun st i => (cancel_entry (S (length (children r))) clock reason i st).1)
      (children r, []) (entry_id <$> children r) in
  emit_all (omap subagent_finished cancelled) (set_children l r).
End registry.
End Registry.

(** ** The run of a child *)

Module Child.
Import Record_ Registry.

Definition default_child_budget : SubAgentBudget := mkBudget 8 16 100000.

Section child.
Context {X : Externs} {HJ : JsonView} {HC : CharCase} {HS : Surroundings}.

(** *** What surrounds it

    The model answers one completion at a time; the [n]-th stop check reads [signals n];
    the model and the tools may unwind.  [Mission]'s surroundings are the rest. *)
Class ChildSurroundings : Type := {
  complete_once : nat -> CompletionRequest -> result Str CompletionResponse;
  signals : nat -> option Str;
  model_unwinds : nat -> option Str;
  tool_unwinds : nat -> option Str;
  clock : nat -> Z;
}.

Context {HH : ChildSurroundings}.

(** The handles a child runs with, and the tool definitions of the harness. *)
Record ChildDeps : Type := mkDeps {
  provider : Str;
  model : Str;
  system_prompt : Str;
  harness_tools : list ToolDefinition;
  mcp_tools : option (list ToolDefinition);
  generic_mcp_call : ToolDefinition;
}.

(** [World] is the state of [Mission.v]: the store, the requests, the calls run. *)
Record ChildWorld : Type := mkChildWorld {
  world : World;
  rec : SubAgentRecord;
  published : list SubAgentRecord;
  noted : list TokenUsage;
  checks : nat;
  readings : nat;
}.

Inductive flow (A : Type) : Type := On (a : A) | Returned | Unwound (message : Str).
#[global] Arguments On {A} a.
#[global] Arguments Returned {A}.
#[global] Arguments Unwound {A} message.

Definition C (A : Type) : Type := ChildWorld -> ChildWorld * flow A.

#[export] Instance C_ret : MRet C := fun A a w => (w, On a).
#[export] Instance C_bind : MBind C := fun A B k m w =>
  match m w with
  | (w, On a) => k a w
  | (w, Returned) => (w, Returned)
  | (w, Unwound message) => (w, Unwound message)
  end.

Definition done {A} : C A := fun w => (w, Returned).
Definition unwind {A} (message : Str) : C A := fun w => (w, Unwound message).

Definition set_world (b : World) (w : ChildWorld) : ChildWorld :=
  mkChildWorld b (rec w) (published w) (noted w) (checks w) (readings w).
Definition set_rec (r : SubAgentRecord) (w : ChildWorld) : ChildWorld :=
  mkChildWorld (world w) r (published w) (noted w) (checks w) (readings w).

(** An effect of [Mission.v]; those used here go on. *)
Definition lift {A} (m : M A) : C A := fun w =>
  match m (world w) with
  | (b, Next a) => (set_world b w, On a)
  | (b, Ended) => (set_world b w, Returned)
  end.

Definition now : C Z := fun w =>
  (mkChildWorld (world w) (rec w) (published w) (noted w) (checks w) (S (readings w)), On (clock (readings w))).
Definition get : C SubAgentRecord := fun w => (w, On (rec w)).
Definition put (r : SubAgentRecord) : C unit := fun w => (set_rec r w, On tt).
Definition publish_ : C unit := fun w =>
  (mkChildWorld (world w) (rec w) (published w ++ [rec w]) (noted w) (checks w) (readings w), On tt).
Definition note (u : TokenUsage) : C unit := fun w =>
  (mkChildWorld (world w) (rec w) (published w) (noted w ++ [u]) (checks w) (readings w), On tt).
Definition check : C (option Str) := fun w =>
  (mkChildWorld (world w) (rec w) (published w) (noted w) (S (checks w)) (readings w), On (signals (checks w))).

(** [record.fail(...); return]. *)
Definition fail_child {A} (message : Str) : C A :=
  t ← now; r ← get; _ ← put (fail message t r); done.
Definition recorded (what : Str) (m : M (option Str)) : C unit :=
  r ← lift m; match r with Some e => fail_child (what ++ lit ": " ++ e) | None => mret tt end.

(** [stop_if_cancelled]. *)
Definition stop_if_cancelled : C unit :=
  s ← check;
  match s with
  | None => mret tt
  | Some reason =>
      t ← now; r ← get; _ ← put (cancel reason t r); _ ← publish_; done
  end.

(** [if record.charge_*().is_err() { publish; return }]. *)
Definition charged (f : Z -> SubAgentRecord -> SubAgentRecord * option BudgetExhaustion) : C unit :=
  t ← now; r ← get;
  let '(r, e) := f t r in
  _ ← put r;
  match e with Some _ => _ ← publish_; done | None => mret tt end.

Definition SPAWN_SUBAGENT_TOOL : Str := lit "spawn_subagent".

Definition child_tool_definitions (d : ChildDeps) (depth : N) : list ToolDefinition :=
  (if can_spawn_subagent depth then harness_tools d
   else base.filter (fun t => tool_name t <> SPAWN_SUBAGENT_TOOL) (harness_tools d))
  ++ default [] (mcp_tools d) ++ [generic_mcp_call d].

Definition child_system_prompt (d : ChildDeps) (s : SubAgentSpec) : Str :=
  lit "You are a sub-agent (type " ++ subagent_type s ++ lit ") spawned for one routine: "
  ++ description s ++ lit "." ++ NL
  ++ lit "You work in your own directory (" ++ Fs.path_str (cwd s)
  ++ lit ") and your own conversation; the agent that spawned you only sees your final reply." ++ NL
  ++ lit "Use tools until the routine is done, then answer with the result as plain text." ++ NL ++ NL
  ++ system_prompt d.

Definition div_ceil4 (n : nat) : N := (N.of_nat n + 3) / 4.
Definition estimate_tokens (r : CompletionResponse) : N :=
  div_ceil4 (length (resp_content r)
             + sum_list ((fun c => length (call_name c) + length (json_text (arguments c)))
                           <$> resp_tool_calls r)).

(** A model call and a tool call may unwind. *)
Definition ask_model (r : CompletionRequest) : C (result Str CompletionResponse) := fun w =>
  let n := length (requests (world w)) in
  let w := set_world (push_request r (world w)) w in
  match model_unwinds n with
  | Some message => (w, Unwound message)
  | None => (w, On (complete_once n r))
  end.

Definition call_tool (c : LlmToolCall) : C (result Str (Str * option Str)) := fun w =>
  match tool_unwinds (length (executed (world w))) with
  | Some message => (set_world (push_executed c (world w)) w, Unwound message)
  | None => lift (execute_call c) w
  end.

(** The row of a message in the child's own conversation. *)
Definition child_row (what role content : Str) (calls : option Str) : C Str :=
  id ← lift uuid; r ← get;
  _ ← recorded what (insert_message id (Record_.id (spec r)) role content calls);
  mret id.

(** One call of a reply. *)
Definition run_child_call (call : LlmToolCall) (index : nat) (records : list ChatToolCall) (msg : Str)
    : C (list ChatToolCall * Message) :=
  _ ← stop_if_cancelled;
  _ ← charged charge_tool_call;
  r ← get; _ ← put (set_activity (lit "running " ++ call_name call) r); _ ← publish_;
  result ← call_tool call;
  let '(body, st, d) :=
    match result with Ok (output, d) => (output, Finished, d) | Err e => (e, Error, None) end in
  _ ← child_row (lit "failed to record the child tool result") TOOL (tool_row (call_id call) body) None;
  let records := alter (settle st body d) index records in
  _ ← recorded (lit "failed to record the child tool status") (persist_tool_call_records msg records);
  mret (records, mkMessage Tool body None (Some (call_id call)) (Some st) None).

Fixpoint run_child_calls (calls : list LlmToolCall) (index : nat) (records : list ChatToolCall) (msg : Str)
    (history : list Message) : C (list Message) :=
  match calls with
  | [] => mret history
  | call :: calls =>
      r ← run_child_call call index records msg;
      let '(records, m) := r in
      run_child_calls calls (S index) records msg (history ++ [m])
  end.

(** The reply of one model call, with its spend noted. *)
Definition ask_child (d : ChildDeps) (history : list Message) : C CompletionResponse :=
  r ← get;
  let request := with_tools (child_tool_definitions d (depth (spec r)))
                   (with_messages history (new_request (provider d) (model d))) in
  result ← ask_model request;
  match result with
  | Err e => fail_child (lit "sub-agent model call failed: " ++ e)
  | Ok response =>
      _ ← match usage response with Some u => note u | None => mret tt end;
      mret response
  end.

(** One turn of the child: the history it goes on with, unless it ended. *)
Definition child_turn (d : ChildDeps) (history : list Message) : C (list Message) :=
  _ ← stop_if_cancelled;
  _ ← charged charge_turn;
  _ ← publish_;
  response ← ask_child d history;
  _ ← stop_if_cancelled;
  _ ← charged (charge_tokens (match usage response with
                              | Some u => output u
                              | None => estimate_tokens response
                              end));
  let calls := resp_tool_calls response in
  let records := planned <$> calls in
  msg ← child_row (lit "failed to record the child reply") ASSISTANT (resp_content response)
          (if bool_decide (calls = []) then None else Some (enc_records records));
  let history :=
    history ++ [mkMessage Assistant (resp_content response)
                  (if bool_decide (calls = []) then None else Some calls) None None None] in
  if bool_decide (calls = []) then
    t ← now; r ← get; _ ← put (complete (resp_content response) t r); done
  else run_child_calls calls 0 records msg history.

(** The loop; [fuel] turns at most.  Every turn is charged, and the charge that reaches the
    budget ends the run, so one more than the budget is enough. *)
Fixpoint child_turns (fuel : nat) (d : ChildDeps) (history : list Message) : C unit :=
  match fuel with
  | O => mret tt
  | S fuel => history ← child_turn d history; child_turns fuel d history
  end.

Definition run_child_turn (d : ChildDeps) : C unit :=
  r ← get;
  _ ← child_row (lit "failed to record the child prompt") USER (prompt (spec r)) None;
  child_turns (S (N.to_nat (max_turns (budget (spec r))))) d
    [text_message System (child_system_prompt d (spec r)); text_message User (prompt (spec r))].

(** [run_child_task]: a run that unwinds leaves a failed record, and what was reached is
    published and sent. *)
Definition run_child_task (d : ChildDeps) (w : ChildWorld) : ChildWorld :=
  let '(w, f) := run_child_turn d w in
  let w := match f with
           | Unwound message =>
               if is_terminal (status (rec w)) then w
               else set_rec (fail (lit "sub-agent " ++ id (spec (rec w)) ++ lit " panicked: " ++ message)
                               (clock (readings w)) (rec w)) w
           | _ => w
           end in
  (publish_ w).1.
End child.

(** *** The spawn *)

Section spawn.
Context {X : Externs} {HJ : JsonView}.

(** The arguments of the call and where its turn runs. *)
Record SpawnTurn : Type := mkSpawnTurn { chat : Str; turn_depth : N; turn_workspace : list Fs.Component }.

(** The spec of the child and the tree with its directory, or the refusal.  [fresh] is the
    generated id; [refused] is what the statement that inserts its chat answers. *)
Definition plan_child (fs : gmap (list Str) Fs.Node) (fresh : Str) (refused : option Str)
    (call : LlmToolCall) (t : SpawnTurn) : result Str (gmap (list Str) Fs.Node * SubAgentSpec) :=
  let args := arguments call in
  (let? description := ok_or (lit "description is required") (as_str_at args (lit "description")) in
   let? prompt := ok_or (lit "prompt is required") (as_str_at args (lit "prompt")) in
   let? kind := ok_or (lit "subagent_type is required") (as_str_at args (lit "subagent_type")) in
   let background := default false (as_bool_at args (lit "run_in_background")) in
   if negb (can_spawn_subagent (turn_depth t)) then
     Err (lit "sub-agent spawn refused at depth " ++ show_N (turn_depth t) ++ lit " (limit "
          ++ show_N MAX_SUBAGENT_DEPTH ++ lit ")")
   else
     let? cwd := match as_str_at args (lit "cwd") with
                 | Some path => Tools.resolve_path fs path (turn_workspace t)
                 | None => Ok (child_cwd fresh (turn_workspace t))
                 end in
     let? fs := Tools.context (lit "failed to create child cwd " ++ Tools.debug_path cwd)
                  (Fs.create_dir_all fs cwd) in
     match refused with
     | Some e => Err e
     | None =>
         Ok (fs, mkSpec fresh (chat t) (call_id call) description kind prompt cwd background
                   (turn_depth t + 1) default_child_budget)
     end)%goble.

(** [SubAgentHost::spawn_child]: what it registers. *)
Definition spawn_child (s : SubAgentSpec) (now : Z) (r : SubAgentRegistry) : SubAgentRegistry :=
  register (begin_running (new_record s now)) new_cancel r.

(** How the wait for a foreground child ends: its record, the deadline, an aborted task. *)
Inductive Waited : Type := Delivered (r : SubAgentRecord) | Elapsed | Aborted.

Definition child_label (i : Str) (r : SubAgentRegistry) : Str :=
  match snapshot i r with Some c => activity_label (status c) | None => lit "initializing" end.

(** A live status as [{:?}] prints it. *)
Definition debug_status (turns tool_calls tokens : N) (activity : Str) : Str :=
  lit "Running { turns: " ++ show_N turns ++ lit ", tool_calls: " ++ show_N tool_calls
  ++ lit ", tokens: " ++ show_N tokens ++ lit ", activity: " ++ debug_str activity ++ lit " }".

Definition terminal_result (s : SubAgentStatus) : result Str Str :=
  match s with
  | Completed output _ _ _ _ => Ok output
  | Broke error => Err error
  | Cancelled reason => Err reason
  | Initializing => Err (lit "sub-agent ended without a terminal status: Initializing")
  | Active turns tool_calls tokens activity =>
      Err (lit "sub-agent ended without a terminal status: "
           ++ debug_status turns tool_calls tokens activity)
  end.

(** The tool's answer; [r] is the registry when it answers. *)
Definition spawn_reply (s : SubAgentSpec) (wait_seconds : N) (w : Waited) (r : SubAgentRegistry)
    : result Str Str :=
  if run_in_background s then
    Ok (lit "sub-agent " ++ id s ++ lit " running in the background (" ++ child_label (id s) r
        ++ lit "). Its record carries its activity and output; read it instead of waiting.")
  else
    match w with
    | Delivered rec => terminal_result (status rec)
    | Elapsed =>
        Ok (lit "sub-agent " ++ id s ++ lit " is still running after " ++ show_N wait_seconds
            ++ lit "s and moved to the background (" ++ child_label (id s) r
            ++ lit "). Its record carries its activity and output.")
    | Aborted =>
        match snapshot (id s) r with
        | Some rec => terminal_result (status rec)
        | None => Err (lit "sub-agent " ++ id s ++ lit " ended without a record")
        end
    end.
End spawn.
End Child.

(** ** The merged stream of a turn

    [with_subagent_lifecycle]: the sink is polled before the turn, so what it holds at the
    [i]-th poll, [arrivals !! i], goes before the turn's [i]-th event; the turn's first
    [Done] or [Error] is its last event, and what the sink holds then is drained. *)
Fixpoint with_subagent_lifecycle {X : Externs} (arrivals : list (list HarnessEvent)) (turn : list HarnessEvent)
    : list HarnessEvent :=
  match turn with
  | [] => concat arrivals
  | e :: turn =>
      hd [] arrivals ++ e ::
      (if ends_turn e then concat (tl arrivals) else with_subagent_lifecycle (tl arrivals) turn)
  end.
