(* ===== verification/SubAgentsProps.v ===== *)
(** * What sub-agents guarantee

    Module [RegistryProps]: first outcomes are final whatever threads do to the registry,
    and a kill ends the live tree below its target.  Module [ChildProps]: a child's run is
    bounded by its budget and always ends. *)

From S2P Require Import Prelude Text FileTools AgentStore Commands Mission MissionProps SubAgents.
Import Record_ Registry.

(** ** The record *)

Module RecordProps.

(** A live record is below every limit of its budget. *)
Definition within (r : SubAgentRecord) : Prop :=
  match status r with
  | Active turns tool_calls tokens _ =>
      (turns < max_turns (budget (spec r)))%N /\ (tool_calls < max_tool_calls (budget (spec r)))%N /\
      (tokens < max_tokens (budget (spec r)))%N
  | _ => True
  end.

Lemma finish_terminal_spec make text now r : spec (finish_terminal make text now r) = spec r.
Proof. unfold finish_terminal. by destruct (is_terminal _). Qed.

Lemma spec_fail e now r : spec (fail e now r) = spec r.
Proof. apply finish_terminal_spec. Qed.

Lemma spec_cancel reason now r : spec (cancel reason now r) = spec r.
Proof. apply finish_terminal_spec. Qed.

Lemma terminal_complete o now r : is_terminal (status (complete o now r)) = true.
Proof. unfold complete. destruct (is_terminal (status r)) eqn:E; [done|]. by destruct (counts _) as [[??]?]. Qed.

Lemma spec_complete o now r : spec (complete o now r) = spec r.
Proof. unfold complete. destruct (is_terminal (status r)) eqn:E; [done|]. by destruct (counts _) as [[??]?]. Qed.

Lemma terminal_fail e now r : is_terminal (status (fail e now r)) = true.
Proof. unfold fail, finish_terminal. by destruct (is_terminal (status r)) eqn:E. Qed.

Lemma terminal_cancel reason now r : is_terminal (status (cancel reason now r)) = true.
Proof. unfold cancel, finish_terminal. by destruct (is_terminal (status r)) eqn:E. Qed.

Lemma exhaustion_none b t c k :
  exhaustion b t c k = None -> (t < max_turns b /\ c < max_tool_calls b /\ k < max_tokens b)%N.
Proof.
  unfold exhaustion. destruct (N.leb_spec (max_turns b) t); [done|].
  destruct (N.leb_spec (max_tool_calls b) c); [done|]. destruct (N.leb_spec (max_tokens b) k); [done|].
  done.
Qed.

(** A charge of a running record raises its counters, or ends it. *)
Lemma charge_active t c k a dt dc dk now r :
  status r = Active t c k a ->
  let r' := (charge dt dc dk now r).1 in
  spec r' = spec r /\
  match (charge dt dc dk now r).2 with
  | Some e =>
      status r' = Broke (exhaustion_text e) /\
      exhaustion (budget (spec r)) (wrap32 (t + dt)) (wrap32 (c + dc)) (wrap64 (k + dk)) = Some e
  | None =>
      status r' = Active (wrap32 (t + dt)) (wrap32 (c + dc)) (wrap64 (k + dk)) a /\ within r'
  end.
Proof.
  intros Hs. unfold charge, begin_running. rewrite Hs.
  cbn [is_terminal is_running negb]. rewrite Hs. cbn [put_status status counts spec].
  destruct (exhaustion _ _ _ _) as [e|] eqn:E; cbn [fst snd spec status put_status]; [done|].
  apply exhaustion_none in E. unfold within. cbn. done.
Qed.
End RecordProps.

(** ** The registry *)

Module RegistryProps.
Import RecordProps.
Section registry.
Context {X : Externs}.

(** *** Steps

    One critical section or one send of any thread.  A sink read before is used after, so
    [note_with] takes any. *)
Inductive step : SubAgentRegistry -> SubAgentRegistry -> Prop :=
| step_attach r : step r (attach_event_sink r)
| step_drop k r : step r (drop_receiver k r)
| step_note sender i c u r : step r (note_with sender i c u r)
| step_register rec c r : step r (register rec c r)
| step_publish now rec r : step r (publish now rec r)
| step_cancel clock i reason r : step r (cancel_child clock i reason r).1
| step_cancel_all clock reason r : step r (cancel_all clock reason r).

(** An entry as a later state has it: the same child, and the same record once it ended. *)
Definition later (e e' : ChildEntry) : Prop :=
  entry_id e' = entry_id e /\ (is_terminal (status (record e)) = true -> record e' = record e).

Definition grows (l l' : list ChildEntry) : Prop :=
  forall k e, l !! k = Some e -> exists e', l' !! k = Some e' /\ later e e'.

#[export] Instance later_preorder : PreOrder later.
Proof.
  split; [by intros e|]. intros e1 e2 e3 [Hi1 Hr1] [Hi2 Hr2]. split; [congruence|].
  intros Ht. rewrite Hr2; [by apply Hr1|]. by rewrite Hr1.
Qed.

#[export] Instance grows_preorder : PreOrder grows.
Proof.
  split; [intros l k e He; by exists e|]. intros l1 l2 l3 H1 H2 k e He.
  destruct (H1 _ _ He) as (e2 & He2 & Hl2). destruct (H2 _ _ He2) as (e3 & He3 & Hl3).
  exists e3. split; [done|]. by etrans.
Qed.

Lemma grows_map l f : (forall e, later e (f e)) -> grows l (f <$> l).
Proof. intros Hf k e He. exists (f e). by rewrite list_lookup_fmap, He. Qed.

Lemma grows_alter l f k : (forall e, later e (f e)) -> grows l (alter f k l).
Proof.
  intros Hf j e He. rewrite list_lookup_alter. destruct (decide (k = j)) as [->|Hj].
  - exists (f e). by rewrite He.
  - exists e. done.
Qed.

Lemma grows_insert l k e e' : l !! k = Some e -> later e e' -> grows l (<[k := e']> l).
Proof.
  intros He Hl j x Hx. destruct (decide (k = j)) as [->|Hj].
  - rewrite He in Hx. injection Hx as <-. exists e'.
    by rewrite list_lookup_insert_eq by (by eapply lookup_lt_Some).
  - exists x. by rewrite list_lookup_insert_ne.
Qed.

Lemma grows_app l l' : grows l (l ++ l').
Proof. intros k e He. exists e. split; [by apply lookup_app_l_Some|done]. Qed.

Lemma later_same e e' : record e' = record e -> later e e'.
Proof. intros Hr. split; [by unfold entry_id; rewrite Hr|done]. Qed.

Lemma later_kill reason now e : later e (kill reason now e).
Proof.
  split; unfold entry_id, kill, cancel, finish_terminal; cbn; by destruct (is_terminal _).
Qed.

(** *** Sends change no entry *)

Lemma children_emit e r : children (emit e r) = children r.
Proof. unfold emit. by destruct (sink r). Qed.

Lemma children_emit_all es r : children (emit_all es r) = children r.
Proof.
  revert r. unfold emit_all. induction es as [|e es IH]; intros r; [done|]. cbn [foldl].
  by rewrite IH, children_emit.
Qed.

Lemma index_of_Some i l k :
  index_of i l = Some k -> exists e, l !! k = Some e /\ entry_id e = i.
Proof.
  unfold index_of. intros H. apply position_Some in H as [(e & He & Hp) _].
  exists e. split; [done|]. by apply bool_decide_eq_true in Hp.
Qed.
(** *** The walk of a kill *)

(** Some live entries of the first list are killed in the second. *)
Definition killed_at (reason : Str) (e e' : ChildEntry) : Prop :=
  is_terminal (status (record e)) = false /\ exists now, e' = kill reason now e.

Lemma walk_entry fuel clock reason i l cancelled k e :
  index_of i l = Some k -> l !! k = Some e -> is_terminal (status (record e)) = false ->
  cancel_entry (S fuel) clock reason i (l, cancelled)
  = (let e' := kill reason (clock (length cancelled)) e in
     let l' := <[k := e']> l in
     (foldl (fun st n => (cancel_entry fuel clock reason n st).1) (l', cancelled ++ [record e'])
        (nested i l'), true)).
Proof.
  intros Hi He Ht. cbn [cancel_entry]. rewrite Hi. cbn [mbind option_bind]. rewrite He.
  cbn [mbind option_bind]. by rewrite Ht.
Qed.

Lemma walk_ended fuel clock reason i l cancelled k e :
  index_of i l = Some k -> l !! k = Some e -> is_terminal (status (record e)) = true ->
  cancel_entry (S fuel) clock reason i (l, cancelled) = ((l, cancelled), false).
Proof.
  intros Hi He Ht. cbn [cancel_entry]. rewrite Hi. cbn [mbind option_bind]. rewrite He.
  cbn [mbind option_bind]. by rewrite Ht.
Qed.

Lemma walk_unknown fuel clock reason i l cancelled :
  index_of i l = None -> cancel_entry (S fuel) clock reason i (l, cancelled) = ((l, cancelled), false).
Proof. intros Hi. cbn [cancel_entry]. by rewrite Hi. Qed.

(** What any number of nested walks keep, each walk keeps. *)
Lemma cancel_entry_ind (R : list ChildEntry * list SubAgentRecord -> list ChildEntry * list SubAgentRecord -> Prop)
    clock reason :
  PreOrder R ->
  (forall k e l cancelled, l !! k = Some e -> is_terminal (status (record e)) = false ->
     let e' := kill reason (clock (length cancelled)) e in
     R (l, cancelled) (<[k := e']> l, cancelled ++ [record e'])) ->
  forall fuel i st, R st (cancel_entry fuel clock reason i st).1.
Proof.
  intros HR Hk fuel. induction fuel as [|fuel IH]; intros i [l cancelled]; [cbn; reflexivity|].
  destruct (index_of i l) as [k|] eqn:Hi; [|by rewrite walk_unknown].
  destruct (index_of_Some _ _ _ Hi) as (e & He & _).
  destruct (is_terminal (status (record e))) eqn:Ht.
  { by rewrite (walk_ended _ _ _ _ _ _ k e). }
  rewrite (walk_entry fuel clock reason i l cancelled k e) by done. cbn [fst].
  etrans; [by apply (Hk k e l cancelled)|].
  generalize (<[k := kill reason (clock (length cancelled)) e]> l, cancelled ++ [record (kill reason (clock (length cancelled)) e)]).
  induction (nested i _) as [|n ns IHns]; intros st; cbn [foldl]; [reflexivity|].
  etrans; [apply IH|apply IHns].
Qed.

Lemma cancel_entry_grows fuel clock reason i st :
  grows st.1 (cancel_entry fuel clock reason i st).1.1.
Proof.
  apply (cancel_entry_ind (fun st st' => grows st.1 st'.1)).
  - split; [intros ?; reflexivity|intros ? ? ?; apply transitivity].
  - intros k e l cancelled He Ht. cbn. apply (grows_insert _ _ e); [done|apply later_kill].
Qed.

Lemma foldl_cancel_grows fuel clock reason ids st :
  grows st.1 (foldl (fun st i => (cancel_entry fuel clock reason i st).1) st ids).1.
Proof.
  revert st. induction ids as [|i ids IH]; intros st; cbn [foldl]; [reflexivity|].
  etrans; [apply cancel_entry_grows|apply IH].
Qed.

(** *** First outcomes are final *)

Lemma step_grows r r' : step r r' -> grows (children r) (children r').
Proof.
  destruct 1 as [r|k r|sender i c u r|rec c r|now rec r|clock i reason r|clock reason r].
  - apply grows_map. intros e. unfold settle_spend. case_match; [done|]. by apply later_same.
  - done.
  - unfold note_with. destruct (index_of i (children r)) as [k|], sender; cbn;
      try done; apply grows_alter; intros e; by apply later_same.
  - unfold register. case_match; [done|]. rewrite children_emit. apply grows_app.
  - unfold publish. destruct (index_of _ _) as [k|] eqn:Hi; [|done].
    destruct (index_of_Some _ _ _ Hi) as (e & He & Hid). rewrite He.
    destruct (is_terminal (status (record e))) eqn:Ht; [done|]. rewrite children_emit_all.
    apply (grows_insert _ _ e); [done|]. split; [done|]. by rewrite Ht.
  - unfold cancel_child. pose proof (cancel_entry_grows (S (length (children r))) clock reason i (children r, [])) as H.
    unfold walk. destruct (cancel_entry _ _ _ _ _) as [[l cs] hit]. cbn. by rewrite children_emit_all.
  - unfold cancel_all.
    pose proof (foldl_cancel_grows (S (length (children r))) clock reason (entry_id <$> children r) (children r, [])) as H.
    destruct (foldl _ _ _) as [l cs]. by rewrite children_emit_all.
Qed.

(** Ids are unique. *)
Definition distinct (r : SubAgentRegistry) : Prop := NoDup (entry_id <$> children r).

Lemma cancel_entry_ids fuel clock reason i st :
  entry_id <$> (cancel_entry fuel clock reason i st).1.1 = entry_id <$> st.1.
Proof.
  symmetry. apply (cancel_entry_ind (fun st st' => entry_id <$> st.1 = entry_id <$> st'.1)).
  - split; [by intros ?|intros ? ? ?; apply transitivity].
  - intros k e l cancelled He Ht. cbn. rewrite list_fmap_insert. symmetry.
    apply list_insert_id. rewrite list_lookup_fmap, He. cbn. f_equal. symmetry.
    apply (later_kill reason).
Qed.
Lemma index_of_None i l : index_of i l = None -> i ∉ entry_id <$> l.
Proof.
  unfold index_of. rewrite position_None. intros H (e & -> & He)%list_elem_of_fmap.
  apply list_elem_of_lookup in He as [k He]. specialize (H _ _ He). by rewrite bool_decide_true in H.
Qed.

Lemma step_distinct r r' : step r r' -> distinct r -> distinct r'.
Proof.
  unfold distinct. intros Hs Hd.
  destruct Hs as [r|k r|sender i c u r|rec c r|now rec r|clock i reason r|clock reason r].
  - cbn. rewrite <- list_fmap_compose. erewrite list_fmap_ext; [exact Hd|]. intros k e _. cbn.
    unfold settle_spend. by case_match.
  - done.
  - unfold note_with. destruct (index_of i (children r)) as [k|], sender; cbn; try done;
      (rewrite (list_fmap_alter _ _ (fun x => x)); [by rewrite list_alter_id|by apply Forall_true]).
  - unfold register. destruct (existsb _ _) eqn:He; [done|]. rewrite children_emit. cbn.
    rewrite fmap_app, NoDup_app. split_and!; [done| |apply NoDup_singleton].
    intros x Hx. cbn. rewrite list_elem_of_singleton. intros ->.
    apply list_elem_of_fmap in Hx as (e & He' & Hin).
    apply not_true_iff_false in He. apply He. apply existsb_exists. exists e.
    split; [by apply list_elem_of_In|]. by apply bool_decide_true.
  - unfold publish. destruct (index_of _ _) as [k|] eqn:Hi; [|done].
    destruct (index_of_Some _ _ _ Hi) as (e & He & Hid). rewrite He. case_match; [done|].
    rewrite children_emit_all. cbn. rewrite list_fmap_insert, list_insert_id; [done|].
    rewrite list_lookup_fmap, He. cbn. by rewrite Hid.
  - pose proof (cancel_entry_ids (S (length (children r))) clock reason i (children r, [])) as H.
    unfold cancel_child, walk. destruct (cancel_entry _ _ _ _ _) as [[l cs] hit]. cbn in *.
    rewrite children_emit_all. cbn. by rewrite H.
  - unfold cancel_all. set (fuel := S _).
    assert (forall ids st, entry_id <$> (foldl (fun st i => (cancel_entry fuel clock reason i st).1) st ids).1
                           = entry_id <$> st.1) as H.
    { induction ids as [|i ids IH]; intros st; cbn [foldl]; [done|]. by rewrite IH, cancel_entry_ids. }
    specialize (H (entry_id <$> children r) (children r, [])). destruct (foldl _ _ _) as [l cs]. cbn in *.
    rewrite children_emit_all. cbn. by rewrite H.
Qed.

Lemma find_grows i l l' e :
  grows l l' -> List.find (fun e => bool_decide (entry_id e = i)) l = Some e ->
  exists e', List.find (fun e => bool_decide (entry_id e = i)) l' = Some e' /\ later e e'.
Proof.
  revert l'. induction l as [|x l IH]; intros l' Hg; [done|].
  destruct (Hg 0 x eq_refl) as (x' & Hx & Hl). destruct l' as [|y l']; [done|].
  injection Hx as ->. cbn [List.find]. rewrite (proj1 Hl). case_bool_decide.
  - intros [= <-]. by exists x'.
  - apply IH. intros k z Hz. by apply (Hg (S k)).
Qed.

(** C35: First outcomes are final.  Whatever its threads do in whatever order, the registry
    lists each child once, never loses one, and a child that was read as completed, failed
    or cancelled is the same record ever after. *)
Theorem first_outcome_is_final r r' i rec :
  rtc step no_children r -> rtc step r r' -> snapshot i r = Some rec ->
  distinct r' /\ exists rec', snapshot i r' = Some rec' /\ id (spec rec') = id (spec rec) /\
    (is_terminal (status rec) = true -> rec' = rec).
Proof.
  intros H0 Hs Hi. split.
  - assert (rtc step no_children r') as H by (by etrans). clear H0 Hs Hi.
    assert (distinct no_children) as Hd by apply NoDup_nil_2. induction H; [done|].
    apply IHrtc. by eapply step_distinct.
  - assert (grows (children r) (children r')) as Hg.
    { clear H0 Hi. induction Hs; [done|]. etrans; [by apply step_grows|done]. }
    unfold snapshot in *. destruct (List.find _ (children r)) as [e|] eqn:He; [|done].
    injection Hi as <-. destruct (find_grows _ _ _ _ Hg He) as (e' & He' & Hid & Hr).
    exists (record e'). by rewrite He'.
Qed.
End registry.
End RegistryProps.

(** ** What a kill ends *)

Module KillProps.
Import RecordProps RegistryProps.
Section kill.
Context {X : Externs}.

Definition live (e : ChildEntry) : Prop := is_terminal (status (record e)) = false.

#[export] Instance live_dec e : Decision (live e).
Proof. unfold live. apply _. Defined.

(** The live tree under a child: the child, and the live children of each of its nodes. *)
Inductive Under (l : list ChildEntry) (i : Str) : ChildEntry -> Prop :=
| under_root e : e ∈ l -> entry_id e = i -> live e -> Under l i e
| under_child p e : Under l i p -> e ∈ l -> entry_parent e = entry_id p -> live e -> Under l i e.

Lemma Under_live l i e : Under l i e -> e ∈ l /\ live e.
Proof. by destruct 1. Qed.

(** *** What every walk keeps of the shape *)

Definition shape (e e' : ChildEntry) : Prop :=
  spec (record e') = spec (record e) /\ (live e' -> live e).

Lemma shape_kill reason now e : shape e (kill reason now e).
Proof.
  split; cbn; unfold cancel; [apply finish_terminal_spec|].
  unfold live, kill. cbn. by rewrite terminal_cancel.
Qed.

Lemma kill_ended reason now e : ~ live (kill reason now e).
Proof. unfold live, kill. cbn. by rewrite terminal_cancel. Qed.

#[export] Instance shape_preorder : PreOrder shape.
Proof.
  split; [by intros e|]. intros e1 e2 e3 [H1 L1] [H2 L2]. split; [congruence|auto].
Qed.

Notation shapes := (Forall2 shape).


Lemma shapes_kill reason now l k e : l !! k = Some e -> shapes l (<[k := kill reason now e]> l).
Proof.
  intros He. apply Forall2_lookup. intros j. destruct (decide (k = j)) as [<-|Hj].
  - rewrite He, list_lookup_insert_eq by (by eapply lookup_lt_Some). constructor. apply shape_kill.
  - rewrite list_lookup_insert_ne by done. destruct (l !! j); by constructor.
Qed.

Lemma walk_shapes fuel clock reason i st : shapes st.1 (cancel_entry fuel clock reason i st).1.1.
Proof.
  apply (cancel_entry_ind (fun st st' => shapes st.1 st'.1)).
  - split; [intros ?; reflexivity|intros ? ? ?; apply transitivity].
  - intros k e l cancelled He Ht. by apply shapes_kill.
Qed.

Lemma foldl_shapes fuel clock reason ns st :
  shapes st.1 (foldl (fun st n => (cancel_entry fuel clock reason n st).1) st ns).1.
Proof.
  revert st. induction ns as [|n ns IH]; intros st; cbn [foldl]; [reflexivity|].
  etrans; [apply walk_shapes|apply IH].
Qed.

Lemma shapes_elem l l' e' : shapes l l' -> e' ∈ l' -> exists k e, l !! k = Some e /\ l' !! k = Some e' /\ shape e e'.
Proof.
  intros Hs (k & Hk)%list_elem_of_lookup. destruct (Forall2_lookup_r _ _ _ _ _ Hs Hk) as (e & He & Hsh).
  by exists k, e.
Qed.

Lemma shapes_ids l l' : shapes l l' -> entry_id <$> l' = entry_id <$> l.
Proof.
  induction 1 as [|e e' l l' [Hs _] _ IH]; [done|]. cbn. rewrite IH. unfold entry_id. by rewrite Hs.
Qed.

(** *** How long a walk is *)

Definition live_count (l : list ChildEntry) : nat := length (base.filter live l).

Lemma shapes_count l l' : shapes l l' -> live_count l' <= live_count l.
Proof.
  unfold live_count. induction 1 as [|e e' l l' [_ Hl] _ IH]; [done|]. rewrite !filter_cons.
  repeat case_decide; cbn; [lia| |lia|lia]. exfalso. auto.
Qed.

Lemma kill_count l k e e' : l !! k = Some e -> live e -> ~ live e' -> live_count (<[k := e']> l) < live_count l.
Proof.
  intros Hk Hl Hd. unfold live_count. rewrite <- (take_drop_middle l k e) at 2 by done.
  rewrite insert_take_drop by (by eapply lookup_lt_Some).
  rewrite !filter_app, !length_app, (filter_cons _ e'), (filter_cons _ e).
  rewrite decide_False, decide_True by done. cbn. lia.
Qed.

(** *** What it leaves live *)

(** The children of what a walk killed have ended. *)
Definition closed (l l' : list ChildEntry) : Prop :=
  forall k e e', l !! k = Some e -> live e -> l' !! k = Some e' -> ~ live e' ->
    forall c, c ∈ l' -> entry_parent c = entry_id e -> ~ live c.

Lemma closed_refl l : closed l l.
Proof. intros k e e' He Hl He'. rewrite He in He'. injection He' as <-. done. Qed.

Lemma closed_trans l l1 l2 : shapes l l1 -> shapes l1 l2 -> closed l l1 -> closed l1 l2 -> closed l l2.
Proof.
  intros Hs1 Hs2 Hc1 Hc2 k e e2 He Hl He2 Hd c Hc Hp.
  destruct (Forall2_lookup_l _ _ _ _ _ Hs1 He) as (e1 & He1 & [Hsp _]).
  destruct (decide (live e1)) as [Hl1|Hd1].
  - apply (Hc2 k e1 e2); [done..|]. rewrite Hp. unfold entry_id. by rewrite Hsp.
  - destruct (shapes_elem _ _ _ Hs2 Hc) as (j & c1 & Hc1' & _ & [Hcs Hcl]). intros Hlc.
    apply (Hc1 k e e1 He Hl He1 Hd1 c1); [by eapply list_elem_of_lookup_2| |by auto].
    rewrite <- Hp. unfold entry_parent. by rewrite Hcs.
Qed.

Definition ended (n : Str) (l : list ChildEntry) : Prop := forall e, e ∈ l -> entry_id e = n -> ~ live e.

Lemma ended_shapes n l l' : shapes l l' -> ended n l -> ended n l'.
Proof.
  intros Hs Hn e' He' Hid Hl. destruct (shapes_elem _ _ _ Hs He') as (k & e & He & _ & [Hsp Hsl]).
  apply (Hn e); [by eapply list_elem_of_lookup_2| |by auto]. rewrite <- Hid. unfold entry_id. by rewrite Hsp.
Qed.

Lemma distinct_lookup l j k x y :
  NoDup (entry_id <$> l) -> l !! j = Some x -> l !! k = Some y -> entry_id x = entry_id y -> j = k.
Proof.
  intros Hd Hj Hk He. apply (NoDup_lookup _ _ _ (entry_id x) Hd); rewrite list_lookup_fmap.
  - by rewrite Hj.
  - by rewrite Hk, He.
Qed.

Lemma walks_close fuel clock reason ns st :
  (forall n st, NoDup (entry_id <$> st.1) -> live_count st.1 < fuel ->
     let st' := (cancel_entry fuel clock reason n st).1 in closed st.1 st'.1 /\ ended n st'.1) ->
  NoDup (entry_id <$> st.1) -> live_count st.1 < fuel ->
  let st' := foldl (fun st n => (cancel_entry fuel clock reason n st).1) st ns in
  closed st.1 st'.1 /\ forall n, n ∈ ns -> ended n st'.1.
Proof.
  intros IH. revert st. induction ns as [|n ns IHns]; intros st Hd Hf; cbn [foldl].
  { split; [apply closed_refl|]. intros n Hn. by apply elem_of_nil in Hn. }
  destruct (IH n st Hd Hf) as [Hc He]. pose proof (walk_shapes fuel clock reason n st) as Hs.
  destruct (IHns (cancel_entry fuel clock reason n st).1) as [Hc' He'].
  { by rewrite (shapes_ids _ _ Hs). }
  { apply shapes_count in Hs. lia. }
  pose proof (foldl_shapes fuel clock reason ns (cancel_entry fuel clock reason n st).1) as Hs'.
  split; [by eapply closed_trans|]. intros m [-> |Hm]%elem_of_cons; [by eapply ended_shapes|by apply He'].
Qed.

Lemma walk_closes fuel clock reason n st :
  NoDup (entry_id <$> st.1) -> live_count st.1 < fuel ->
  let st' := (cancel_entry fuel clock reason n st).1 in closed st.1 st'.1 /\ ended n st'.1.
Proof.
  revert n st. induction fuel as [|fuel IH]; intros n [l cs] Hd Hf; cbn [fst] in *; [lia|].
  destruct (index_of n l) as [k|] eqn:Hi.
  2: { rewrite walk_unknown by done. split; [apply closed_refl|]. intros e He Hid _.
       apply (index_of_None _ _ Hi). rewrite <- Hid. by apply list_elem_of_fmap_2. }
  destruct (index_of_Some _ _ _ Hi) as (e & He & Hid).
  assert (forall l' e', shapes l l' -> l' !! k = Some e' -> ~ live e' -> ended n l') as Hended.
  { intros l' e' Hs Hk Hl x (j & Hj)%list_elem_of_lookup Hx.
    assert (entry_id e' = n) as Hn.
    { destruct (Forall2_lookup_lr _ _ _ _ _ _ Hs He Hk) as [Hsp _].
      rewrite <- Hid. unfold entry_id. by rewrite Hsp. }
    assert (j = k) as ->; [|congruence].
    eapply (distinct_lookup l'); [by rewrite (shapes_ids _ _ Hs)|done|done|congruence]. }
  destruct (is_terminal (status (record e))) eqn:Ht.
  { rewrite (walk_ended _ _ _ _ _ _ k e) by done. split; [apply closed_refl|].
    apply (Hended l e); [reflexivity|done|]. unfold live. by rewrite Ht. }
  rewrite (walk_entry fuel clock reason n l cs k e) by done. cbn zeta. cbn [fst].
  set (e' := kill reason _ e). set (l1 := <[k := e']> l).
  assert (shapes l l1) as Hs1 by (by apply shapes_kill).
  assert (live_count l1 < live_count l) as Hcount by (apply (kill_count _ _ e); [done|done|apply kill_ended]).
  destruct (walks_close fuel clock reason (nested n l1) (l1, cs ++ [record e']) IH) as [Hc Hn].
  { cbn. by rewrite (shapes_ids _ _ Hs1). }
  { cbn [fst]. lia. }
  pose proof (foldl_shapes fuel clock reason (nested n l1) (l1, cs ++ [record e'])) as Hs2.
  set (st' := foldl _ _ _) in *. cbn [fst] in *.
  assert (l1 !! k = Some e') as Hk1 by (apply list_lookup_insert_eq; by eapply lookup_lt_Some).
  destruct (Forall2_lookup_l _ _ _ _ _ Hs2 Hk1) as (e2 & Hk2 & [Hsp2 Hl2]).
  split; [|apply (Hended _ e2); [by etrans|done|intros Hl; by apply Hl2, kill_ended in Hl]].
  intros j x x2 Hx Hlx Hx2 Hdx c Hc' Hp. destruct (decide (j = k)) as [->|Hj].
  - rewrite He in Hx. injection Hx as <-.
    destruct (shapes_elem _ _ _ Hs2 Hc') as (m & c1 & Hc1 & _ & [Hcs Hcl]).
    apply (Hn (entry_id c1)); [|done|by unfold entry_id; rewrite Hcs].
    unfold nested. apply list_elem_of_fmap_2. apply list_elem_of_filter.
    split; [|by eapply list_elem_of_lookup_2]. rewrite <- Hid, <- Hp. unfold entry_parent. by rewrite Hcs.
  - apply (Hc j x x2); [by unfold l1; rewrite list_lookup_insert_ne|done..].
Qed.

(** *** What it ends *)

(** The walk so far, from [l0]: an entry is as it was, or is a live node of the tree killed
    once, and then its record is listed. *)
Definition killed_in (reason : Str) (l0 : list ChildEntry) (i : Str)
    (st : list ChildEntry * list SubAgentRecord) : Prop :=
  length st.1 = length l0 /\
  (forall k e0, l0 !! k = Some e0 ->
     st.1 !! k = Some e0 \/
     (Under l0 i e0 /\ exists now, st.1 !! k = Some (kill reason now e0) /\
        record (kill reason now e0) ∈ st.2)) /\
  NoDup ((fun r => id (spec r)) <$> st.2) /\
  (forall x, x ∈ st.2 -> exists k e0 now, l0 !! k = Some e0 /\ Under l0 i e0 /\
     st.1 !! k = Some (kill reason now e0) /\ x = record (kill reason now e0)).

Lemma killed_in_kill reason l0 i l cs k e0 now :
  NoDup (entry_id <$> l0) -> killed_in reason l0 i (l, cs) ->
  l0 !! k = Some e0 -> l !! k = Some e0 -> Under l0 i e0 ->
  killed_in reason l0 i (<[k := kill reason now e0]> l, cs ++ [record (kill reason now e0)]).
Proof.
  intros Hd (Hlen & Hk & Hn & Hx) H0 Hl Hu. unfold killed_in. cbn [fst snd] in *.
  assert (k < length l) as Hlt by (by eapply lookup_lt_Some).
  assert (live e0) as Hlive by apply (Under_live _ _ _ Hu).
  split_and!.
  - by rewrite length_insert.
  - intros j x Hj. destruct (decide (k = j)) as [<-|Hne].
    + right. rewrite H0 in Hj. injection Hj as <-. split; [done|]. exists now.
      rewrite list_lookup_insert_eq by done. set_solver.
    + rewrite list_lookup_insert_ne by done. destruct (Hk j x Hj) as [?|(? & t & ? & ?)]; [by left|right].
      split; [done|]. exists t. split; [done|]. set_solver.
  - rewrite fmap_app, NoDup_app. split_and!; [done| |apply NoDup_singleton].
    intros y Hy Hy'. apply list_elem_of_singleton in Hy'. apply list_elem_of_fmap in Hy as (x & -> & Hxin).
    destruct (Hx _ Hxin) as (j & x0 & t & Hj & _ & Hjl & ->).
    assert (j = k) as ->.
    { eapply (distinct_lookup l0); [done|done|done|]. unfold entry_id.
      destruct (shape_kill reason t x0) as [Hs1 _], (shape_kill reason now e0) as [Hs2 _].
      cbn in *. rewrite Hs1 in Hy'. by rewrite Hs2 in Hy'. }
    rewrite Hl in Hjl. injection Hjl as ->. by apply (kill_ended reason t x0).
  - intros x [Hxin|Hxin]%elem_of_app.
    + destruct (Hx _ Hxin) as (j & x0 & t & Hj & Hu' & Hjl & ->).
      exists j, x0, t. split_and!; [done..| |done]. rewrite list_lookup_insert_ne; [done|].
      intros <-. rewrite Hl in Hjl. injection Hjl as ->. by apply (kill_ended reason t x0).
    + apply list_elem_of_singleton in Hxin as ->. exists k, e0, now.
      by rewrite list_lookup_insert_eq.
Qed.

(** A walk that starts at nodes of the tree stays in it. *)
Definition aims (l0 : list ChildEntry) (i n : Str) : Prop :=
  forall e0, e0 ∈ l0 -> entry_id e0 = n -> live e0 -> Under l0 i e0.

Lemma walk_stays fuel clock reason l0 i n st :
  NoDup (entry_id <$> l0) -> aims l0 i n -> killed_in reason l0 i st ->
  killed_in reason l0 i (cancel_entry fuel clock reason n st).1.
Proof.
  intros Hd. revert n st. induction fuel as [|fuel IH]; intros n [l cs] Ha Hst; [done|].
  destruct (index_of n l) as [k|] eqn:Hi; [|by rewrite walk_unknown].
  destruct (index_of_Some _ _ _ Hi) as (e & He & Hid).
  destruct (is_terminal (status (record e))) eqn:Ht; [by rewrite (walk_ended _ _ _ _ _ _ k e)|].
  rewrite (walk_entry fuel clock reason n l cs k e) by done. cbn zeta. cbn [fst].
  assert (l0 !! k = Some e /\ Under l0 i e) as [H0 Hu].
  { destruct Hst as (Hlen & Hk & _). cbn in *.
    destruct (lookup_lt_is_Some_2 l0 k) as [e0 He0]; [rewrite <- Hlen; by eapply lookup_lt_Some|].
    destruct (Hk _ _ He0) as [Hs|(_ & t & Hs & _)]; rewrite He in Hs; injection Hs as ->.
    - split; [done|]. apply Ha; [by eapply list_elem_of_lookup_2|done|done].
    - by destruct (kill_ended reason t e0). }
  apply (killed_in_kill _ _ _ _ _ _ _ (clock (length cs)) Hd Hst H0 He) in Hu as Hst'.
  set (e' := kill reason _ e) in *. set (l1 := <[k := e']> l) in *.
  assert (forall c, c ∈ nested n l1 -> aims l0 i c) as Hns.
  { intros c (c1 & -> & Hc1)%list_elem_of_fmap e0 He0 Hide Hl0.
    apply list_elem_of_filter in Hc1 as [Hp Hc1]. apply (under_child _ _ e); [done|done| |done].
    apply list_elem_of_lookup in Hc1 as [j Hj]. apply list_elem_of_lookup in He0 as [j0 Hj0].
    destruct Hst' as (Hlen & Hk & _). cbn in Hlen, Hk.
    destruct (lookup_lt_is_Some_2 l0 j) as [x0 Hx0]; [rewrite <- Hlen; by eapply lookup_lt_Some|].
    assert (spec (record c1) = spec (record x0)) as Hsp.
    { destruct (Hk _ _ Hx0) as [Hs|(_ & t & Hs & _)]; rewrite Hj in Hs; injection Hs as ->; [done|].
      apply shape_kill. }
    assert (j0 = j) as ->.
    { eapply (distinct_lookup l0); [done|done|done|]. rewrite Hide. unfold entry_id. by rewrite Hsp. }
    rewrite Hx0 in Hj0. injection Hj0 as ->. rewrite Hid. unfold entry_parent in *. by rewrite <- Hsp. }
  revert Hst' Hns. generalize (l1, cs ++ [record e']) as st. generalize (nested n l1) as ns. clear -IH.
  induction ns as [|c ns IHns]; intros st Hst Hns; cbn [foldl]; [done|].
  apply IHns; [|set_solver]. apply IH; [apply Hns; set_solver|done].
Qed.

Lemma walk_hit clock reason i l l' cs hit :
  NoDup (entry_id <$> l) -> walk clock reason i l = (l', cs, hit) ->
  hit = true <-> exists e, e ∈ l /\ entry_id e = i /\ live e.
Proof.
  intros Hd Hw. unfold walk in Hw. destruct (index_of i l) as [k|] eqn:Hi.
  - destruct (index_of_Some _ _ _ Hi) as (e & Hke & Hid).
    destruct (is_terminal (status (record e))) eqn:Ht.
    + rewrite (walk_ended _ _ _ _ _ _ k e) in Hw by done. injection Hw as <- <- <-.
      split; [done|]. intros (x & (j & Hj)%list_elem_of_lookup & Hxi & Hl).
      assert (j = k) as -> by (eapply (distinct_lookup l); [done..|congruence]).
      unfold live in Hl. congruence.
    + rewrite (walk_entry _ _ _ _ _ _ k e) in Hw by done. injection Hw as _ <-.
      split; [|done]. intros _. exists e. split; [by eapply list_elem_of_lookup_2|done].
  - rewrite walk_unknown in Hw by done. injection Hw as <- <- <-. split; [done|].
    intros (x & Hin & Hxi & _). exfalso. apply (index_of_None _ _ Hi). rewrite <- Hxi.
    by apply list_elem_of_fmap_2.
Qed.

(** C36: A kill ends what can be reached from its target through live children, and nothing
    else.  Cancelling a child moves that child, every live child of it, every live child of
    those and so on to [Cancelled] with the given reason, fires the stop bit of each, leaves
    every other entry as it was, and hands out the record of each, once, for its finished
    event; it reports a hit exactly when the child was live.  (A live child below one that
    has ended is not reached: [kill_misses_under_an_ended_child].) *)
Theorem kill_ends_the_live_tree clock reason i l l' cs hit :
  NoDup (entry_id <$> l) -> walk clock reason i l = (l', cs, hit) ->
  length l' = length l /\
  (forall k e, l !! k = Some e ->
     (Under l i e /\ exists now, l' !! k = Some (kill reason now e) /\ record (kill reason now e) ∈ cs) \/
     (~ Under l i e /\ l' !! k = Some e)) /\
  NoDup ((fun r => id (spec r)) <$> cs) /\
  (forall x, x ∈ cs -> exists k e now, l !! k = Some e /\ Under l i e /\ x = record (kill reason now e)) /\
  (hit = true <-> exists e, e ∈ l /\ entry_id e = i /\ live e).
Proof.
  intros Hd Hw. pose proof (walk_hit clock reason i l l' cs hit Hd Hw) as Hhit. unfold walk in Hw.
  assert (killed_in reason l i (l', cs)) as (Hlen & Hk & Hn & Hx).
  { change (l', cs) with (l', cs, hit).1. rewrite <- Hw. apply walk_stays; [done| |].
    - intros e He Hid Hl. by apply under_root.
    - unfold killed_in. split_and!; [done|by left|apply NoDup_nil_2|]. intros x Hx. by apply elem_of_nil in Hx. }
  pose proof (walk_closes (S (length l)) clock reason i (l, []) Hd) as Hc. cbn [fst] in Hc.
  rewrite Hw in Hc. destruct Hc as [Hc He]; [unfold live_count; pose proof (length_filter live l); lia|].
  cbn [fst snd] in *.
  assert (forall e, Under l i e -> forall k, l !! k = Some e -> l' !! k <> Some e) as Hall.
  { induction 1 as [e Hin Hid Hl|p e Hp IH Hin Hpar Hl]; intros k Hke Hke'.
    - apply (He e); [by eapply list_elem_of_lookup_2|done|done].
    - destruct (proj1 (list_elem_of_lookup _ _) (proj1 (Under_live _ _ _ Hp))) as [j Hj].
      specialize (IH j Hj). destruct (Hk j p Hj) as [Hs|(_ & t & Hs & _)]; [done|].
      apply (Hc j p _ Hj (proj2 (Under_live _ _ _ Hp)) Hs (kill_ended _ _ _) e); [|done|done].
      by eapply list_elem_of_lookup_2. }
  split_and!; [done| |done| |].
  - intros k e Hke. destruct (Hk k e Hke) as [Hs|Hs]; [|by left]. right. split; [|done].
    intros Hu. by apply (Hall e Hu k).
  - intros x Hin. destruct (Hx x Hin) as (k & e & t & ? & ? & _ & ?). by exists k, e, t.
  - exact Hhit.
Qed.
End kill.

(** *** On a concrete tree *)

Section demo.
#[local] Instance externs : Externs := demo_externs.

Definition demo_spec (i parent : string) : SubAgentSpec :=
  mkSpec (lit i) (lit parent) [] [] [] [] [] true 1 (mkBudget 8 16 100000).
Definition demo_entry (i parent : string) (s : SubAgentStatus) : ChildEntry :=
  mkEntry (mkSubRecord (demo_spec i parent) s 0 None) new_cancel (mkChildUsage no_usage no_usage).
Definition busy : SubAgentStatus := Active 1 2 30 [].
Definition at_ (n : nat) : Z := Z.of_nat n.

(** [a] has the children [b] and [c], [b] the child [d], and [c] ended. *)
Definition tree : list ChildEntry :=
  [demo_entry "a" "chat" busy; demo_entry "b" "a" busy; demo_entry "c" "a" (Completed [] 0 1 0 9);
   demo_entry "d" "b" busy; demo_entry "e" "chat" busy].

Definition statuses (l : list ChildEntry) : list bool := (fun e => is_running (status (record e))) <$> l.

Definition after_kill : list ChildEntry * list SubAgentRecord * bool :=
  walk at_ (lit "stop") (lit "a") tree.

Lemma kill_ends_the_live_tree_witness :
  statuses after_kill.1.1 = [false; false; false; false; true] /\
  NoDup ((fun r => id (spec r)) <$> after_kill.1.2) /\ after_kill.2 = true.
Proof.
  destruct (kill_ends_the_live_tree at_ (lit "stop") (lit "a") tree
    after_kill.1.1 after_kill.1.2 after_kill.2) as (_ & _ & Hn & _ & Hh).
  - apply (bool_decide_unpack _). by vm_compute.
  - by vm_compute.
  - split; [by vm_compute|]. split; [exact Hn|]. apply Hh.
    exists (demo_entry "a" "chat" busy). split; [by left|done].
Defined.

Definition registry_of (l : list ChildEntry) : SubAgentRegistry := mkRegistry l None [].

Lemma first_outcome_is_final_witness :
  let r := register (mkSubRecord (demo_spec "a" "chat") busy 0 None) new_cancel no_children in
  let r1 := (cancel_child at_ (lit "a") (lit "stop") r).1 in
  let r2 := publish 5 (mkSubRecord (demo_spec "a" "chat") (Completed (lit "late") 0 1 0 9) 0 (Some 5%Z)) r1 in
  exists rec, snapshot (lit "a") r2 = Some rec /\ status rec = Cancelled (lit "stop").
Proof.
  cbn zeta.
  set (r := register _ _ _). set (r1 := (cancel_child _ _ _ r).1). set (r2 := publish _ _ r1).
  destruct (RegistryProps.first_outcome_is_final r1 r2 (lit "a")
    (mkSubRecord (demo_spec "a" "chat") (Cancelled (lit "stop")) 0 (Some 0%Z))) as (_ & rec & Hs & _ & Hr).
  - eapply rtc_l; [apply RegistryProps.step_register|]. eapply rtc_l; [|apply rtc_refl].
    apply RegistryProps.step_cancel.
  - eapply rtc_l; [|apply rtc_refl]. apply RegistryProps.step_publish.
  - by vm_compute.
  - exists rec. split; [exact Hs|]. by rewrite Hr.
Defined.

(** A live child of an ended one is missed: the walk does not pass the ended child. *)
Lemma kill_misses_under_an_ended_child :
  statuses (walk at_ (lit "stop") (lit "a")
    [demo_entry "a" "chat" busy; demo_entry "b" "a" (Completed [] 0 1 0 9); demo_entry "c" "b" busy]).1.1
  = [false; false; true].
Proof. by vm_compute. Qed.

(** So is a child that a killed one registers afterwards, from the spawn it was in. *)
Lemma kill_misses_a_late_child :
  let r := (cancel_child at_ (lit "a") (lit "stop") (registry_of [demo_entry "a" "chat" busy])).1 in
  let r := register (record (demo_entry "b" "a" busy)) new_cancel r in
  statuses (children r) = [false; true] /\ (stop <$> children r) = [mkCancel true (Some (lit "stop")); new_cancel].
Proof. by vm_compute. Qed.

(** The sink of an ended turn stays attached, so what a child spends between two turns is
    taken for reported: the next turn is told nothing, and no turn heard it. *)
Lemma spend_between_turns_is_lost :
  let r := registry_of [demo_entry "a" "chat" busy] in
  let r := drop_receiver 0 (attach_event_sink r) in
  let r := note_child_usage (lit "a") (lit "chat") (mkUsage 7 None 5) r in
  let r := attach_event_sink r in
  (total <$> (spent <$> children r)) = [mkUsage 7 None 5] /\ (sent <$> channels r) = [[]; []].
Proof. by vm_compute. Qed.

(** The same happens to a child that read the old sink before the new turn attached. *)
Lemma spend_at_an_attach_is_lost :
  let r := drop_receiver 0 (attach_event_sink (registry_of [demo_entry "a" "chat" busy])) in
  let sender := sink r in
  let r := note_with sender (lit "a") (lit "chat") (mkUsage 7 None 5) (attach_event_sink r) in
  (sent <$> channels (attach_event_sink r)) = [[]; []; []].
Proof. by vm_compute. Qed.
End demo.
End KillProps.

(** ** The run of a child *)

Module ChildProps.
Import RecordProps Child.
Section child.
Context {X : Externs} {HJ : JsonView} {HC : CharCase} {HS : Surroundings} {HH : ChildSurroundings}.

(** *** Triples

    What the properties read of a state: the record, and how many model calls and tool
    calls were made.  [ER] and [EU] hold where the run returns and where it unwinds. *)
Definition View : Type := SubAgentRecord * nat * nat.
Definition view (w : ChildWorld) : View :=
  (rec w, length (requests (world w)), length (executed (world w))).

Definition ctriple {A} (P : View -> Prop) (m : C A) (Q : A -> View -> Prop) (ER EU : View -> Prop) : Prop :=
  forall w, P (view w) ->
    match m w with
    | (w', On a) => Q a (view w')
    | (w', Returned) => ER (view w')
    | (w', Unwound _) => EU (view w')
    end.

Lemma ctriple_bind {A B} P (m : C A) (k : A -> C B) R Q ER EU :
  ctriple P m R ER EU -> (forall a, ctriple (R a) (k a) Q ER EU) -> ctriple P (m ≫= k) Q ER EU.
Proof.
  intros Hm Hk w Hw. unfold mbind, C_bind. specialize (Hm w Hw).
  destruct (m w) as [w' [a| |e]]; [by apply Hk|done..].
Qed.

Lemma ctriple_ret {A} (P : View -> Prop) (a : A) Q ER EU : (forall v, P v -> Q a v) -> ctriple P (mret a) Q ER EU.
Proof. intros H w Hw. by apply H. Qed.

Lemma ctriple_pre {A} (P P' : View -> Prop) (m : C A) Q ER EU :
  (forall v, P v -> P' v) -> ctriple P' m Q ER EU -> ctriple P m Q ER EU.
Proof. intros H Hm w Hw. by apply Hm, H. Qed.

(** A computation that goes on and touches none of what is read. *)
Definition calm {A} (m : C A) : Prop := forall w, view (m w).1 = view w /\ exists a, (m w).2 = On a.

Lemma ctriple_calm {A} P (m : C A) ER EU : calm m -> ctriple P m (fun _ => P) ER EU.
Proof.
  intros Hm w Hw. destruct (Hm w) as [Hv [a Ha]]. destruct (m w) as [w' f]. cbn in *. subst f. by rewrite Hv.
Qed.

Lemma calm_now : calm now.
Proof. intros w. split; [done|by eexists]. Qed.
Lemma calm_publish : calm publish_.
Proof. intros w. split; [done|by eexists]. Qed.
Lemma calm_note u : calm (note u).
Proof. intros w. split; [done|by eexists]. Qed.
Lemma calm_check : calm check.
Proof. intros w. split; [done|by eexists]. Qed.

(** [Mission.v]'s effects: those a child uses go on, and ask and run nothing. *)
Definition apart (w w' : World) : Prop := requests w' = requests w /\ executed w' = executed w.

#[export] Instance apart_benign : Benign apart.
Proof.
  split; try done. split; [done|]. intros w1 w2 w3 [H1 H1'] [H2 H2']. unfold apart. split; congruence.
Qed.

Definition goes_on {A} (m : M A) : Prop := forall w, exists a, (m w).2 = Next a.

Lemma calm_lift {A} (m : M A) : respects apart m -> goes_on m -> calm (lift m).
Proof.
  intros Hm Hg w. unfold lift. destruct (Hm (world w)) as [Hr He]. destruct (Hg (world w)) as [a Ha].
  destruct (m (world w)) as [b f]. cbn in *. subst f. split; [|by exists a].
  unfold view. cbn. by rewrite Hr, He.
Qed.

Lemma goes_on_statement f : goes_on (statement f).
Proof. intros w. unfold statement. case_match; by eexists. Qed.

Lemma goes_on_insert id chat role content calls : goes_on (insert_message id chat role content calls).
Proof.
  intros w. unfold insert_message, mbind, M_bind, statement. destruct (refused (statements w)); [by eexists|].
  cbn. destruct (refused _); by eexists.
Qed.

Lemma calm_uuid : calm (lift uuid).
Proof. apply calm_lift; [respects_tac|by intros w; eexists]. Qed.

Lemma calm_insert id chat role content calls : calm (lift (insert_message id chat role content calls)).
Proof. apply calm_lift; [respects_tac|apply goes_on_insert]. Qed.

Lemma calm_persist id records : calm (lift (persist_tool_call_records id records)).
Proof. unfold persist_tool_call_records. apply calm_lift; [respects_tac|apply goes_on_statement]. Qed.

Lemma ctriple_get P ER EU : ctriple P get (fun r v => P v /\ r = v.1.1) ER EU.
Proof. by intros w Hw. Qed.

Lemma ctriple_put (Q : View -> Prop) r ER EU : ctriple (fun v => Q (r, v.1.2, v.2)) (put r) (fun _ => Q) ER EU.
Proof. by intros w Hw. Qed.

(** *** The bounds *)

Context (s : SubAgentSpec) (R0 E0 : nat).

Definition turns_left : nat := pred (N.to_nat (max_turns (budget s))).
Definition calls_left : nat := pred (N.to_nat (max_tool_calls (budget s))).

Definition Bounded (v : View) : Prop :=
  spec v.1.1 = s /\ v.1.2 <= R0 + turns_left /\ v.2 <= E0 + calls_left.
Definition Settled (v : View) : Prop := Bounded v /\ is_terminal (status v.1.1) = true.

(** [t] turns are charged; [dr] of their model calls and [de] of the charged tool calls are
    still to be made. *)
Definition Charged (t : N) (dr de : nat) (v : View) : Prop :=
  spec v.1.1 = s /\ exists c k a, status v.1.1 = Active t c k a /\
    dr + v.1.2 = R0 + N.to_nat t /\ de + v.2 = E0 + N.to_nat c /\
    N.to_nat t <= turns_left /\ N.to_nat c <= calls_left.

#[local] Notation cdo P m Q := (ctriple P m Q Settled Bounded).

Lemma Charged_bounded t dr de v : Charged t dr de v -> Bounded v.
Proof. intros (Hs & c & k & a & _ & Hr & He & Ht & Hc). split; [done|]. lia. Qed.

Lemma cdo_fail {A} P message Q : (forall v, P v -> Bounded v) -> cdo P (fail_child (A := A) message) Q.
Proof.
  intros HP. unfold fail_child. eapply ctriple_bind; [apply ctriple_calm, calm_now|intros t].
  eapply ctriple_bind; [apply ctriple_get|intros r].
  eapply (ctriple_bind _ _ _ (fun _ => Settled)); [|by intros [] w Hw].
  eapply ctriple_pre; [|apply ctriple_put]. intros v [Hv ->]. apply HP in Hv as (Hs & Hr & He).
  split; [split; cbn; [by rewrite spec_fail|done]|]. apply terminal_fail.
Qed.

Lemma cdo_stop P : (forall v, P v -> Bounded v) -> cdo P stop_if_cancelled (fun _ => P).
Proof.
  intros HP. unfold stop_if_cancelled. eapply ctriple_bind; [apply ctriple_calm, calm_check|intros [reason|]].
  - eapply ctriple_bind; [apply ctriple_calm, calm_now|intros t].
    eapply ctriple_bind; [apply ctriple_get|intros r].
    eapply (ctriple_bind _ _ _ (fun _ => Settled)).
    { eapply ctriple_pre; [|apply ctriple_put]. intros v [Hv ->]. apply HP in Hv as (Hs & Hr & He).
      split; [split; cbn; [by rewrite spec_cancel|done]|]. apply terminal_cancel. }
    intros []. eapply ctriple_bind; [apply ctriple_calm, calm_publish|]. by intros [] w Hw.
  - by apply ctriple_ret.
Qed.

Lemma cdo_recorded P what m : (forall v, P v -> Bounded v) -> calm (lift m) -> cdo P (recorded what m) (fun _ => P).
Proof.
  intros HP Hm. unfold recorded. eapply ctriple_bind; [by apply ctriple_calm|intros [e|]].
  - by apply cdo_fail.
  - by apply ctriple_ret.
Qed.

Lemma cdo_row P what role content calls :
  (forall v, P v -> Bounded v) -> cdo P (child_row what role content calls) (fun _ => P).
Proof.
  intros HP. unfold child_row. eapply ctriple_bind; [apply ctriple_calm, calm_uuid|intros i].
  eapply ctriple_bind; [apply ctriple_get|intros r].
  eapply ctriple_bind; [apply cdo_recorded; [intros v [Hv _]; by apply HP|apply calm_insert]|intros []].
  apply ctriple_ret. by intros v [Hv _].
Qed.

(** A charge that fits goes on with raised counters; one that does not ends the run. *)
Lemma cdo_charged P dt dc dk (Q : View -> Prop) :
  (forall v, P v -> Bounded v) ->
  (forall r r' n e t, P (r, n, e) -> charge dt dc dk t r = (r', None) -> Q (r', n, e)) ->
  (forall r r' n e t x, P (r, n, e) -> charge dt dc dk t r = (r', Some x) ->
     spec r' = spec r /\ is_terminal (status r') = true) ->
  cdo P (charged (charge dt dc dk)) (fun _ => Q).
Proof.
  intros HP HQ HE. unfold charged. eapply ctriple_bind; [apply ctriple_calm, calm_now|intros t].
  eapply ctriple_bind; [apply ctriple_get|intros r]. destruct (charge dt dc dk t r) as [r' x] eqn:Hc.
  eapply (ctriple_bind _ _ _ (fun _ v => match x with Some _ => Settled v | None => Q v end)).
  { eapply ctriple_pre; [|apply (ctriple_put (fun v => match x with Some _ => Settled v | None => Q v end))].
    intros [[r0 n] e] [Hv ->]. cbn in *. destruct x as [x|]; [|by eapply HQ].
    destruct (HE _ _ _ _ _ _ Hv Hc) as [Hsp Ht]. apply HP in Hv as (Hs & Hn & He).
    split; [|done]. cbn in *. split; cbn; [by rewrite Hsp|done]. }
  intros []. destruct x; [|by apply ctriple_ret].
  eapply ctriple_bind; [apply ctriple_calm, calm_publish|]. by intros [] w Hw.
Qed.

(** *** The charges of a child *)

Hypothesis Hturns : (max_turns (budget s) < 2 ^ 32)%N.
Hypothesis Hcalls : (max_tool_calls (budget s) < 2 ^ 32)%N.

Lemma wrap32_small n : (n < 2 ^ 32)%N -> wrap32 n = n.
Proof. apply N.mod_small. Qed.

Lemma charge_Charged t dr de dt dc dk now r n e :
  (dt <= 1)%N -> (dc <= 1)%N -> Charged t dr de (r, n, e) ->
  match charge dt dc dk now r with
  | (r', None) => Charged (t + dt) (dr + N.to_nat dt) (de + N.to_nat dc) (r', n, e)
  | (r', Some _) => spec r' = spec r /\ is_terminal (status r') = true
  end.
Proof.
  intros Ht Hc (Hs & c & k & a & Ha & Hr & He & Htl & Hcl). cbn [fst snd] in *.
  unfold turns_left, calls_left in *.
  pose proof (charge_active t c k a dt dc dk now r Ha) as [Hsp Hm].
  destruct (charge dt dc dk now r) as [r' [x|]]; cbn [fst snd] in *.
  - destruct Hm as [Hm _]. by rewrite Hm.
  - destruct Hm as [Hm Hw]. unfold within in Hw. rewrite Hm, Hsp, Hs in Hw.
    rewrite !wrap32_small in * by lia. destruct Hw as (Hw1 & Hw2 & _).
    split; cbn [fst snd]; [by rewrite Hsp|]. exists (c + dc)%N, (wrap64 (k + dk)), a. cbn [fst snd]. split; [done|].
    unfold turns_left, calls_left. lia.
Qed.

Lemma cdo_charge t dr de dt dc dk :
  (dt <= 1)%N -> (dc <= 1)%N ->
  cdo (Charged t dr de) (charged (charge dt dc dk))
    (fun _ => Charged (t + dt) (dr + N.to_nat dt) (de + N.to_nat dc)).
Proof.
  intros Ht Hc. apply cdo_charged; [apply Charged_bounded|..].
  - intros r r' n e now Hv He. pose proof (charge_Charged _ _ _ dt dc dk now _ _ _ Ht Hc Hv) as H. by rewrite He in H.
  - intros r r' n e now x Hv He. pose proof (charge_Charged _ _ _ dt dc dk now _ _ _ Ht Hc Hv) as H. by rewrite He in H.
Qed.

Lemma cdo_ask t de request :
  cdo (Charged t 1 de) (ask_model request) (fun _ => Charged t 0 de).
Proof.
  intros w Hw. unfold ask_model.
  assert (Charged t 0 de (view (set_world (push_request request (world w)) w))) as H.
  { destruct Hw as (Hs & c & k & a & Ha & Hr & He & Ht & Hc). split; [done|]. exists c, k, a.
    unfold view in *. cbn in *. rewrite length_app. cbn. split_and!; [done|lia..]. }
  destruct (model_unwinds _); [by eapply Charged_bounded|done].
Qed.

Lemma cdo_call_tool t dr call :
  cdo (Charged t dr 1) (call_tool call) (fun _ => Charged t dr 0).
Proof.
  intros w Hw. unfold call_tool.
  assert (forall r, r = rec w -> Charged t dr 0
           (r, length (requests (world w)), length (executed (world w) ++ [call]))) as H.
  { intros r ->. destruct Hw as (Hs & c & k & a & Ha & Hr & He & Ht & Hc). split; [done|]. exists c, k, a.
    unfold view in *. cbn in *. rewrite length_app. cbn. split_and!; [done|lia..]. }
  destruct (tool_unwinds _); [by eapply Charged_bounded, H|].
  unfold lift, execute_call. destruct (execute_tool_call _ _ _) as [st r]. by apply H.
Qed.

Lemma status_set_activity x r t c k a :
  status r = Active t c k a -> status (set_activity x r) = Active t c k x /\ spec (set_activity x r) = spec r.
Proof. intros H. unfold set_activity. by rewrite H. Qed.

Lemma cdo_run_call t call index records msg :
  cdo (Charged t 0 0) (run_child_call call index records msg) (fun _ => Charged t 0 0).
Proof.
  unfold run_child_call. eapply ctriple_bind; [apply cdo_stop, Charged_bounded|intros []].
  eapply ctriple_bind; [apply (cdo_charge t 0 0 0 1 0); done|intros []].
  rewrite N.add_0_r. change (0 + N.to_nat 0) with 0. change (0 + N.to_nat 1) with 1.
  eapply ctriple_bind; [apply ctriple_get|intros r].
  eapply (ctriple_bind _ _ _ (fun _ => Charged t 0 1)).
  { eapply ctriple_pre; [|apply ctriple_put]. intros [[r0 n] e] [(Hs & c & k & a & Ha & Hr & He) ->].
    cbn [fst snd] in *.
    destruct (status_set_activity (lit "running " ++ call_name call) r0 _ _ _ _ Ha) as [Hst Hsp].
    split; cbn [fst snd]; [by rewrite Hsp|]. by exists c, k, (lit "running " ++ call_name call). }
  intros []. eapply ctriple_bind; [apply ctriple_calm, calm_publish|intros []].
  eapply ctriple_bind; [apply cdo_call_tool|intros result].
  destruct (match result with Ok _ => _ | Err _ => _ end) as [[body st] d].
  eapply ctriple_bind; [apply cdo_row, Charged_bounded|intros id].
  eapply ctriple_bind; [apply cdo_recorded; [apply Charged_bounded|apply calm_persist]|intros []].
  by apply ctriple_ret.
Qed.

Lemma cdo_run_calls t calls index records msg history :
  cdo (Charged t 0 0) (run_child_calls calls index records msg history) (fun _ => Charged t 0 0).
Proof.
  revert index records history. induction calls as [|call calls IH]; intros index records history;
    cbn [run_child_calls]; [by apply ctriple_ret|].
  eapply ctriple_bind; [apply cdo_run_call|intros [records' m]]. apply IH.
Qed.

Lemma cdo_turn t d history :
  cdo (Charged t 0 0) (child_turn d history) (fun _ => Charged (t + 1) 0 0).
Proof.
  unfold child_turn. eapply ctriple_bind; [apply cdo_stop, Charged_bounded|intros []].
  eapply ctriple_bind; [apply (cdo_charge t 0 0 1 0 0); done|intros []].
  change (0 + N.to_nat 1) with 1. change (0 + N.to_nat 0) with 0.
  eapply ctriple_bind; [apply ctriple_calm, calm_publish|intros []].
  eapply (ctriple_bind _ _ _ (fun _ => Charged (t + 1) 0 0)).
  { unfold ask_child. eapply ctriple_bind; [apply ctriple_get|intros r].
    eapply ctriple_bind; [eapply ctriple_pre; [|apply cdo_ask]; by intros v [Hv _]|intros [response|e]].
    - eapply ctriple_bind; [apply ctriple_calm; destruct (usage response); [apply calm_note|by intros w; split; [|eexists]]|].
      intros []. by apply ctriple_ret.
    - apply cdo_fail, Charged_bounded. }
  intros response. eapply ctriple_bind; [apply cdo_stop, Charged_bounded|intros []].
  eapply ctriple_bind; [apply (cdo_charge (t + 1) 0 0 0 0); done|intros []].
  rewrite N.add_0_r. change (0 + N.to_nat 0) with 0.
  eapply ctriple_bind; [apply cdo_row, Charged_bounded|intros msg].
  case_bool_decide; [|apply cdo_run_calls].
  eapply ctriple_bind; [apply ctriple_calm, calm_now|intros now'].
  eapply ctriple_bind; [apply ctriple_get|intros r].
  eapply (ctriple_bind _ _ _ (fun _ => Settled)); [|by intros [] w Hw].
  eapply ctriple_pre; [|apply ctriple_put]. intros v [Hv ->]. apply Charged_bounded in Hv as (Hs & Hr & He).
  split; [split; cbn; [by rewrite spec_complete|done]|]. apply terminal_complete.
Qed.

(** The fuel is enough: the loop never runs out of it. *)
Lemma cdo_turns fuel t d history :
  N.to_nat (max_turns (budget s)) < fuel + N.to_nat t ->
  cdo (Charged t 0 0) (child_turns fuel d history) (fun _ _ => False).
Proof.
  revert t history. induction fuel as [|fuel IH]; intros t history Hf; cbn [child_turns].
  - apply ctriple_ret. intros v (_ & c & k & a & _ & _ & _ & Ht & _). unfold turns_left in Ht. lia.
  - eapply ctriple_bind; [apply cdo_turn|intros history']. apply IH. lia.
Qed.

Lemma cdo_run d :
  cdo (Charged 0 0 0) (run_child_turn d) (fun _ _ => False).
Proof.
  unfold run_child_turn. eapply ctriple_bind; [apply ctriple_get|intros r].
  eapply (ctriple_bind _ _ _ (fun _ v => Charged 0 0 0 v /\ spec r = s)).
  { eapply ctriple_pre; [|apply cdo_row].
    - intros v [Hv ->]. split; [done|]. apply Hv.
    - intros v [Hv _]. by eapply Charged_bounded. }
  intros _. intros w [Hw Hr]. rewrite Hr.
  by apply (cdo_turns (S (N.to_nat (max_turns (budget s)))) 0 d _ ltac:(lia) w).
Qed.
End child.

(** *** A child always settles *)

Section settles.
Context {X : Externs} {HJ : JsonView} {HC : CharCase} {HS : Surroundings} {HH : ChildSurroundings}.

Lemma find_index i l : List.find (fun e => bool_decide (entry_id e = i)) l = index_of i l ≫= fun k => l !! k.
Proof.
  unfold index_of. induction l as [|e l IH]; [done|]. cbn [List.find position].
  case_bool_decide; [done|]. rewrite IH. by destruct (position _ l).
Qed.

Lemma publish_settles now rec r :
  is_Some (snapshot (id (spec rec)) r) -> is_terminal (status rec) = true ->
  exists rec', snapshot (id (spec rec)) (publish now rec r) = Some rec' /\ is_terminal (status rec') = true.
Proof.
  unfold snapshot, publish. rewrite !find_index. destruct (index_of _ (children r)) as [k|] eqn:Hi; [|by intros []].
  destruct (RegistryProps.index_of_Some _ _ _ Hi) as (e & He & Hid). cbn. rewrite He. intros _ Ht.
  destruct (is_terminal (status (record e))) eqn:Hd.
  - exists (record e). by rewrite Hi; cbn; rewrite He.
  - exists rec. rewrite RegistryProps.children_emit_all. cbn [children set_children].
    assert (index_of (id (spec rec)) (<[k := mkEntry rec (stop e) (spent e)]> (children r)) = Some k) as ->.
    { unfold index_of in *. apply position_Some. apply position_Some in Hi as [_ Hlt].
      rewrite list_lookup_insert_eq by (by eapply lookup_lt_Some). split.
      - eexists. split; [done|]. by apply bool_decide_true.
      - intros j x Hj. rewrite list_lookup_insert_ne by lia. by apply Hlt. }
    cbn. by rewrite list_lookup_insert_eq by (by eapply lookup_lt_Some).
Qed.

Lemma publish_all_settles now i l rec r :
  id (spec rec) = i -> is_terminal (status rec) = true -> is_Some (snapshot i r) ->
  exists rec', snapshot i (foldl (fun r x => publish now x r) r (l ++ [rec])) = Some rec' /\
    is_terminal (status rec') = true.
Proof.
  intros <- Ht Hs. rewrite foldl_snoc. apply publish_settles; [|done].
  revert r Hs. induction l as [|x l IH]; intros r Hs; cbn [foldl]; [done|]. apply IH.
  pose proof (RegistryProps.step_grows _ _ (RegistryProps.step_publish now x r)) as Hg.
  unfold snapshot in *. destruct Hs as [y Hy]. destruct (List.find _ (children r)) as [e|] eqn:He; [|done].
  destruct (RegistryProps.find_grows _ _ _ _ Hg He) as (e' & -> & _). by eexists.
Qed.

(** C37: A child's run ends within its budget, and is seen to end.  Whatever the model
    answers, the tools return, the store refuses, whenever it is killed and even where it
    unwinds, a child with a budget of [n] turns and [m] tool calls makes fewer than [n] model
    calls and runs fewer than [m] tools, its loop ends, its record is terminal and is what
    it publishes last, so that a registry that lists the child shows it ended. *)
Theorem child_run_is_bounded d w a r now :
  let s := spec (rec w) in
  status (rec w) = Active 0 0 0 a ->
  (0 < max_turns (budget s) < 2 ^ 32)%N -> (0 < max_tool_calls (budget s) < 2 ^ 32)%N ->
  is_Some (snapshot (id s) r) ->
  let w' := run_child_task d w in
  length (requests (world w')) < length (requests (world w)) + N.to_nat (max_turns (budget s)) /\
  length (executed (world w')) < length (executed (world w)) + N.to_nat (max_tool_calls (budget s)) /\
  is_terminal (status (rec w')) = true /\ last (published w') = Some (rec w') /\
  exists rec', snapshot (id s) (foldl (fun r x => publish now x r) r (published w')) = Some rec' /\
    is_terminal (status rec') = true.
Proof.
  intros s Ha Ht Hc Hr w'.
  assert (Charged s (length (requests (world w))) (length (executed (world w))) 0 0 0 (view w)) as H0.
  { split; [done|]. exists 0%N, 0%N, a. unfold turns_left, calls_left. cbn. split_and!; [done|lia..]. }
  pose proof (cdo_run s _ _ (proj2 Ht) (proj2 Hc) d w H0) as Hrun.
  assert (exists w1, w' = (publish_ w1).1 /\
            Settled s (length (requests (world w))) (length (executed (world w))) (view w1))
    as (w1 & Hw' & ((Hs & Hq & He) & Hterm)).
  { unfold w', run_child_task. destruct (run_child_turn d w) as [w1 [u| |m]]; [done|by exists w1|].
    destruct (is_terminal (status (rec w1))) eqn:E; [by exists w1|].
    eexists. split; [done|]. destruct Hrun as (Hs & Hq & He).
    split; [split; [cbn; by rewrite spec_fail|done]|]. apply terminal_fail. }
  clear Hrun. subst w'. rewrite Hw'. unfold turns_left, calls_left, view in *. cbn in *.
  split_and!; [lia|lia|done|by rewrite last_snoc|].
  apply publish_all_settles; [by rewrite Hs|done|done].
Qed.
End settles.

(** *** On a concrete child *)

Section demo.
#[local] Instance externs : Externs := demo_externs.
#[local] Program Instance no_json : JsonView :=
  {| as_str_at _ _ := None; as_strs_at _ _ := None; as_bool_at _ _ := None; json_text _ := [] |}.
#[local] Existing Instance ascii_case.

Definition chatty : LlmToolCall := @mkCall externs (lit "1") (lit "list_files") tt.

#[local] Instance surroundings : Surroundings :=
  {| complete_stream _ _ := Ok []; execute_tool_call _ _ s := (s, Ok ([], None)); run_argv _ _ _ := Ok [];
     get_credential _ := None; cancelled _ := false; refused _ := None; new_uuid n := show_N (N.of_nat n);
     enc_records _ := []; dec_records _ := None; enc_calls _ := []; dec_calls _ := None;
     enc_decision _ := []; dec_decision _ := None |}.

(** A model that calls a tool in every reply. *)
#[local] Instance child_surroundings : ChildSurroundings :=
  {| complete_once _ _ := Ok (mkResponse (lit "again") [chatty] None); signals _ := None;
     model_unwinds _ := None; tool_unwinds _ := None; clock n := Z.of_nat n |}.

Definition start : ChildWorld :=
  mkChildWorld (new_world (mkStore [] [] [] [] [] ∅)) (mkSubRecord (KillProps.demo_spec "a" "chat") (Active 0 0 0 []) 0 None)
    [] [] 0 0.
Definition deps : ChildDeps := mkDeps [] [] [] [] None (@mkTool externs [] [] tt).
Definition listed : SubAgentRegistry := register (rec start) new_cancel no_children.

Lemma child_run_is_bounded_witness :
  length (requests (world (run_child_task deps start))) = 7 /\
  length (executed (world (run_child_task deps start))) = 7 /\
  status (rec (run_child_task deps start)) = Broke (exhaustion_text (Turns 8)) /\
  length (requests (world (run_child_task deps start))) < 0 + N.to_nat 8.
Proof.
  split_and!; [by vm_compute..|].
  exact (proj1 (child_run_is_bounded deps start [] listed 0%Z eq_refl ltac:(done) ltac:(done)
    ltac:(by eexists))).
Defined.
End demo.
End ChildProps.

(** ** Spawns and merged streams *)

Module SpawnProps.
Import Child.
Section spawn.
Context {X : Externs} {HJ : JsonView}.

(** A spawned child is one level below its spawner and never past the limit, belongs to
    the turn's conversation, and works inside the workspace: in its own directory, or in
    one the workspace check of the file tools has passed. *)
Lemma spawned_child_is_confined fs fresh refused call t fs' s :
  plan_child fs fresh refused call t = Ok (fs', s) ->
  depth s = (turn_depth t + 1)%N /\ (depth s <= MAX_SUBAGENT_DEPTH)%N /\
  parent_chat_id s = chat t /\ id s = fresh /\
  (cwd s = child_cwd fresh (turn_workspace t) \/
   Fs.path_starts_with (cwd s) (Tools.canonical_base fs (turn_workspace t)) = true).
Proof.
  unfold plan_child. cbn zeta. destruct (ok_or _ (as_str_at _ (lit "description"))) as [description|]; [|done].
  destruct (ok_or _ (as_str_at _ (lit "prompt"))) as [prompt|]; [|done].
  destruct (ok_or _ (as_str_at _ (lit "subagent_type"))) as [kind|]; [|done].
  destruct (can_spawn_subagent (turn_depth t)) eqn:Hd; cbn [negb]; [|done].
  assert (turn_depth t + 1 <= MAX_SUBAGENT_DEPTH)%N as Hdepth.
  { unfold can_spawn_subagent in Hd. apply N.ltb_lt in Hd. lia. }
  assert (forall c, match as_str_at (arguments call) (lit "cwd") with
                    | Some path => Tools.resolve_path fs path (turn_workspace t)
                    | None => Ok (child_cwd fresh (turn_workspace t))
                    end = Ok c ->
          c = child_cwd fresh (turn_workspace t) \/
          Fs.path_starts_with c (Tools.canonical_base fs (turn_workspace t)) = true) as Hcwd.
  { intros c. destruct (as_str_at _ _) as [path|]; [|by intros [= <-]; left].
    unfold Tools.resolve_path. cbn zeta. destruct (Fs.path_starts_with _ _) eqn:Hp; [|done].
    intros [= <-]. by right. }
  destruct (match as_str_at _ _ with Some _ => _ | None => _ end) as [c|]; [|done].
  destruct (Tools.context _ _) as [fs1|]; [|done]. destruct refused; [done|]. intros [= <- <-].
  cbn [depth parent_chat_id id cwd]. split_and!; [done..|]. by apply Hcwd.
Qed.

(** At the limit the spawn tool is not among the harness's own tools. *)
Lemma spawn_tool_withheld d n t :
  can_spawn_subagent n = false -> t ∈ child_tool_definitions d n -> tool_name t = SPAWN_SUBAGENT_TOOL ->
  t ∈ default [] (mcp_tools d) \/ t = generic_mcp_call d.
Proof.
  unfold child_tool_definitions. intros ->. rewrite !elem_of_app, list_elem_of_filter, list_elem_of_singleton.
  naive_solver.
Qed.

(** The turn's own events up to the first that ends it, in order. *)
Fixpoint until_end (turn : list HarnessEvent) : list HarnessEvent :=
  match turn with
  | [] => []
  | e :: turn => e :: (if ends_turn e then [] else until_end turn)
  end.

(** What the sinks hold is added between the turn's events; none is lost or reordered. *)
Lemma lifecycle_keeps_the_turn arrivals turn :
  until_end turn `sublist_of` with_subagent_lifecycle arrivals turn.
Proof.
  revert arrivals. induction turn as [|e turn IH]; intros arrivals; cbn [until_end with_subagent_lifecycle].
  { apply sublist_nil_l. }
  apply (sublist_inserts_l (hd [] arrivals)). apply sublist_skip.
  destruct (ends_turn e); [apply sublist_nil_l|apply IH].
Qed.
End spawn.
End SpawnProps.
