(* ===== verification/Floats.v ===== *)
(** Single-precision numbers.

    [f32] is IEEE 754 binary32, as the Standard Library's [SpecFloat] computes
    it (24 bits of significand, exponents below 128).  A literal is a rounded
    quotient of two integers that are exact in the format, which is the nearest
    number to the decimal, as the compiler reads it.  The payload of a NaN is
    not modelled: the code never looks at one. *)

From Stdlib Require Import ZArith SpecFloat.
From S2P Require Import Prelude.

Open Scope Z_scope.

Abbreviation f32 := spec_float (only parsing).
Definition prec : Z := 24.
Definition emax : Z := 128.

Definition f32_of_Z (z : Z) : f32 := binary_normalize prec emax z 0 false.

(** [as f32] on an unsigned count. *)
Definition f32_of_nat (n : nat) : f32 := f32_of_Z (Z.of_nat n).

(** The literal [n / d], [d] a power of ten. *)
Definition f32_lit (n : Z) (d : Z) : f32 := SFdiv prec emax (f32_of_Z n) (f32_of_Z d).

Definition fadd : f32 -> f32 -> f32 := SFadd prec emax.
Definition fsub : f32 -> f32 -> f32 := SFsub prec emax.
Definition fmul : f32 -> f32 -> f32 := SFmul prec emax.
Definition fdiv : f32 -> f32 -> f32 := SFdiv prec emax.
Definition flt (a b : f32) : bool := SFltb a b.
Definition fle (a b : f32) : bool := SFleb a b.
Definition is_nan (a : f32) : bool := match a with S754_nan => true | _ => false end.

Definition f0 : f32 := f32_of_Z 0.
Definition f1 : f32 := f32_of_Z 1.
Definition f2 : f32 := f32_of_Z 2.
Definition f_half : f32 := f32_lit 5 10.

(** [f32::max], [f32::min]: the other argument when one is a NaN. *)
Definition fmax (a b : f32) : f32 :=
  if is_nan a then b else if is_nan b then a else if flt a b then b else a.
Definition fmin (a b : f32) : f32 :=
  if is_nan a then b else if is_nan b then a else if flt b a then b else a.

(** [f32::clamp]: two comparisons, so a NaN passes through. *)
Definition fclamp (a lo hi : f32) : f32 :=
  if flt a lo then lo else if flt hi a then hi else a.

Definition fabs : f32 -> f32 := SFabs.

(** ** Facts *)

Definition within (lo hi a : f32) : Prop := fle lo a = true /\ fle a hi = true.

Lemma compare_total (a b : f32) :
  is_nan a = false -> is_nan b = false -> exists c, SFcompare a b = Some c.
Proof. destruct a, b; naive_solver. Qed.

Lemma compare_swap (a b : f32) : SFcompare b a = CompOpp <$> SFcompare a b.
Proof.
  destruct a as [[] | [] | | [] m e], b as [[] | [] | | [] m' e']; try done; simpl.
  all: rewrite (Z.compare_antisym e e'); destruct (e ?= e'); simpl; try done.
  all: f_equal; change (Pos.compare_cont Eq) with Pos.compare;
    rewrite (Pos.compare_antisym m m'); by destruct (Pos.compare m m').
Qed.

(** Where a number is not below another, the other is not above it. *)
Lemma not_flt_fle (a b : f32) :
  is_nan a = false -> is_nan b = false -> flt a b = false -> fle b a = true.
Proof.
  intros Ha Hb. unfold flt, fle, SFltb, SFleb. rewrite (compare_swap a b).
  destruct (compare_total a b Ha Hb) as [[] ->]; done.
Qed.

Lemma flt_fle (a b : f32) : flt a b = true -> fle a b = true.
Proof. unfold flt, fle, SFltb, SFleb. by destruct (SFcompare a b) as [[] |]. Qed.

Lemma fle_refl (a : f32) : is_nan a = false -> fle a a = true.
Proof.
  intros Ha. apply not_flt_fle; [done | done |].
  destruct a as [[] | [] | | [] m e]; try done; unfold flt, SFltb; simpl;
    rewrite Z.compare_refl; change (Pos.compare_cont Eq) with Pos.compare;
    by rewrite Pos.compare_refl.
Qed.

Lemma flt_not_nan (a b : f32) : flt a b = true -> is_nan a = false /\ is_nan b = false.
Proof. unfold flt, SFltb. by destruct a, b. Qed.
Lemma fle_not_nan (a b : f32) : fle a b = true -> is_nan a = false /\ is_nan b = false.
Proof. unfold fle, SFleb. by destruct a, b. Qed.

(** A clamped number is between the bounds, unless it was no number. *)
Lemma fclamp_within (a lo hi : f32) :
  fle lo hi = true -> is_nan a = false -> within lo hi (fclamp a lo hi).
Proof.
  intros Hb Ha. destruct (fle_not_nan _ _ Hb) as [Hlo Hhi].
  unfold fclamp, within. destruct (flt a lo) eqn:E1.
  - split; [by apply fle_refl | done].
  - destruct (flt hi a) eqn:E2.
    + split; [done | by apply fle_refl].
    + split; by apply not_flt_fle.
Qed.

Lemma fclamp_nan (lo hi : f32) : fclamp S754_nan lo hi = S754_nan.
Proof. unfold fclamp, flt, SFltb; simpl. by destruct hi. Qed.

(** A number already between the bounds is left alone. *)
Lemma fclamp_id (a lo hi : f32) : within lo hi a -> fclamp a lo hi = a.
Proof.
  intros [H1 H2]. unfold fclamp.
  assert (forall x y, fle x y = true -> flt y x = false) as Hanti.
  { intros x y. unfold fle, flt, SFltb, SFleb. rewrite (compare_swap x y).
    by destruct (SFcompare x y) as [[] |]. }
  by rewrite (Hanti _ _ H1), (Hanti _ _ H2).
Qed.
