(* ===== verification/Panes.v ===== *)
(** Pane trees and spaces (app/src/ui/pane.rs): what a tab of the window holds.

    [Geometry] is the layouts' arithmetic, [Tree] the binary tree of panes,
    [Space] a tab: its tree, its layout and its floating windows.

    A method that takes [&mut self] and answers whether it found its target is
    a function to an [option]: [None] is the answer [false] with the tree as it
    was.  The four methods that rewrite one leaf share [Tree.update_leaf]; each
    is that walk with its own replacement.  Identifiers are [u64] and the
    counter that allocates them is incremented with the wrap-around of the
    release build. *)

From Stdlib Require Import ZArith SpecFloat.
From stdpp Require Import base list.
From S2P Require Import Prelude Floats.

Open Scope nat_scope.

(** ** Rectangles of the [euclid] crate

    The layouts build rectangles and read their edges through the crate. *)
Class Euclid : Type := {
  RectF : Type;
  rectf : f32 -> f32 -> f32 -> f32 -> RectF;  (** x, y, width, height *)
  min_x : RectF -> f32;
  min_y : RectF -> f32;
  max_x : RectF -> f32;
  max_y : RectF -> f32;
  width : RectF -> f32;
  height : RectF -> f32;
  center : RectF -> f32 * f32;
}.

(** A concrete choice, to evaluate the model on: the crate's documented fields. *)
Definition demo_euclid : Euclid :=
  {| RectF := f32 * f32 * (f32 * f32);
     rectf x y w h := (x, y, (w, h));
     min_x r := r.1.1; min_y r := r.1.2;
     max_x r := fadd r.1.1 r.2.1; max_y r := fadd r.1.2 r.2.2;
     width r := r.2.1; height r := r.2.2;
     center r := (fadd r.1.1 (fdiv r.2.1 f2), fadd r.1.2 (fdiv r.2.2 f2)) |}.

(** [euclid::Vector2D]. *)
Record Vector2F : Type := vec2f { vx : f32; vy : f32 }.

(** The pane counter: [*next_id += 1]. *)
Definition bump (n : N) : N := ((n + 1) mod 2 ^ 64)%N.

Inductive LayoutKind : Type := Bsp | MasterStack | Floating | Carousel.

Inductive SettingsCategory : Type :=
| Profile | Appearance | Mouse | EditorInput | AgentApproval | Environment
| Connections | Models | Updates | Advanced.

Inductive TabColor : Type := Red | Green | Yellow | Blue | Magenta | Cyan.

Inductive PaneKind : Type :=
| Chat
| Terminal
| Worker
| File (path : Str)
| Settings (page : SettingsCategory)
| Diff (cwd : Str).

Inductive SplitDir : Type := Horizontal | Vertical.
Inductive DropSide : Type := Left | Right | Top | Bottom.
Inductive NavDir : Type := NavUp | NavDown | NavLeft | NavRight.

#[export] Instance LayoutKind_eq_dec : EqDecision LayoutKind.
Proof. solve_decision. Defined.
#[export] Instance SettingsCategory_eq_dec : EqDecision SettingsCategory.
Proof. solve_decision. Defined.
#[export] Instance PaneKind_eq_dec : EqDecision PaneKind.
Proof. solve_decision. Defined.
#[export] Instance SplitDir_eq_dec : EqDecision SplitDir.
Proof. solve_decision. Defined.
#[export] Instance DropSide_eq_dec : EqDecision DropSide.
Proof. solve_decision. Defined.

(** [LayoutKind::cycle]. *)
Definition cycle (l : LayoutKind) : LayoutKind :=
  match l with
  | Bsp => MasterStack
  | MasterStack => Floating
  | Floating => Carousel
  | Carousel => Bsp
  end.

(** [LayoutKind::label]. *)
Definition label (l : LayoutKind) : Str :=
  match l with
  | Bsp => lit "BSP"
  | MasterStack => lit "Master stack"
  | Floating => lit "Floating"
  | Carousel => lit "Carousel"
  end.

(** [DropSide::split_dir], [DropSide::leads]. *)
Definition split_dir (s : DropSide) : SplitDir :=
  match s with Left | Right => Horizontal | Top | Bottom => Vertical end.
Definition leads (s : DropSide) : bool :=
  match s with Left | Top => true | Right | Bottom => false end.

Record PaneDropTarget : Type := mkDropTarget { target_pane : N; target_side : DropSide }.

(** A normalized rectangle of a floating window. *)
Record PaneRect : Type := mkRect { rx : f32; ry : f32; rw : f32; rh : f32 }.

Record FloatingPane : Type :=
  mkFloating { pane_id : N; rect : PaneRect; minimized : bool }.

Inductive FloatingDragMode : Type := DragMove | DragResize.

Record FloatingDrag : Type := mkFloatingDrag {
  drag_pane : N;
  drag_mode : FloatingDragMode;
  drag_start : Vector2F;
  drag_original : PaneRect;
  drag_area : Vector2F;
}.

(** ** The layouts' arithmetic *)

Module Geometry.
Definition MIN_W : f32 := f32_lit 2 10.
Definition MIN_H : f32 := f32_lit 2 10.
Definition MIN_PX : f32 := f32_of_Z 120.

(** [PaneRect::clamped]. *)
Definition clamped (r : PaneRect) : PaneRect :=
  let w := fclamp (rw r) MIN_W f1 in
  let h := fclamp (rh r) MIN_H f1 in
  let x := fclamp (rx r) f0 (fmax (fsub f1 w) f0) in
  let y := fclamp (ry r) f0 (fmax (fsub f1 h) f0) in
  mkRect x y w h.

(** [PaneRect::dragged]. *)
Definition dragged (r : PaneRect) (mode : FloatingDragMode) (delta area : Vector2F) : PaneRect :=
  let dx := fdiv (vx delta) (fmax (vx area) f1) in
  let dy := fdiv (vy delta) (fmax (vy area) f1) in
  let r' :=
    match mode with
    | DragMove => mkRect (fadd (rx r) dx) (fadd (ry r) dy) (rw r) (rh r)
    | DragResize => mkRect (rx r) (ry r) (fadd (rw r) dx) (fadd (rh r) dy)
    end in
  clamped r'.

(** [FloatingDrag::rect_at]. *)
Definition rect_at (d : FloatingDrag) (position : Vector2F) : PaneRect :=
  let delta := vec2f (fsub (vx position) (vx (drag_start d)))
                     (fsub (vy position) (vy (drag_start d))) in
  dragged (drag_original d) (drag_mode d) delta (drag_area d).

(** [default_floating_rect]: a cascade of eight steps. *)
Definition default_floating_rect (index : nat) : PaneRect :=
  let step := fmul (f32_lit 4 100) (f32_of_nat (index mod 8)) in
  mkRect (fadd (f32_lit 8 100) step) (fadd (f32_lit 8 100) step) (f32_lit 62 100) (f32_lit 55 100).

Section Rects.
Context {euclid : Euclid}.

(** [PaneRect::to_pixels], [PaneRect::to_rect]. *)
Definition to_pixels (r : PaneRect) (area : Vector2F) : RectF :=
  let rect := clamped r in
  let max_w := fmax (vx area) f1 in
  let max_h := fmax (vy area) f1 in
  let w := fmin (fmax (fmul (rw rect) max_w) MIN_PX) max_w in
  let h := fmin (fmax (fmul (rh rect) max_h) MIN_PX) max_h in
  let x := fclamp (fmul (rx rect) max_w) f0 (fmax (fsub max_w w) f0) in
  let y := fclamp (fmul (ry rect) max_h) f0 (fmax (fsub max_h h) f0) in
  rectf x y w h.
Definition to_rect (r : PaneRect) : RectF :=
  let rect := clamped r in rectf (rx rect) (ry rect) (rw rect) (rh rect).

Definition DROP_SIDE_THRESHOLD : f32 := f32_lit 18 100.

(** [drop_side_in]. *)
Definition drop_side_in (pane : RectF) (position : Vector2F) : option DropSide :=
  let dx := fdiv (fsub (vx position) (center pane).1) (fmax (width pane) f1) in
  let dy := fdiv (fsub (vy position) (center pane).2) (fmax (height pane) f1) in
  if flt (fmax (fabs dx) (fabs dy)) DROP_SIDE_THRESHOLD then None
  else if flt (fabs dx) (fabs dy) then Some (if flt f0 dy then Bottom else Top)
  else Some (if flt f0 dx then Right else Left).

(** [interactive::contains]. *)
Definition contains (bounds : RectF) (position : Vector2F) : bool :=
  fle (min_x bounds) (vx position) && fle (vx position) (max_x bounds)
  && fle (min_y bounds) (vy position) && fle (vy position) (max_y bounds).

(** [pane_drop_target]; [bounds] in the order the map is iterated. *)
Fixpoint pane_drop_target (bounds : list (N * RectF)) (position : Vector2F) (dragged : N)
  : option PaneDropTarget :=
  match bounds with
  | [] => None
  | (id, rect) :: rest =>
      if bool_decide (id = dragged) || negb (contains rect position)
      then pane_drop_target rest position dragged
      else match drop_side_in rect position with
           | Some side => Some (mkDropTarget id side)
           | None => pane_drop_target rest position dragged
           end
  end.

(** [drop_ghost_rect]. *)
Definition drop_ghost_rect (pane : RectF) (side : DropSide) : RectF :=
  let half_w := fdiv (width pane) f2 in
  let half_h := fdiv (height pane) f2 in
  match side with
  | Left => rectf (min_x pane) (min_y pane) half_w (height pane)
  | Right => rectf (fadd (min_x pane) half_w) (min_y pane) half_w (height pane)
  | Top => rectf (min_x pane) (min_y pane) (width pane) half_h
  | Bottom => rectf (min_x pane) (fadd (min_y pane) half_h) (width pane) half_h
  end.

Definition MASTER_RATIO : f32 := f32_lit 6 10.

(** [master_stack_regions]. *)
Definition master_stack_regions (leaves : list (N * PaneKind)) : list (N * RectF) :=
  match leaves with
  | [] => []
  | (master, _) :: rest =>
      (master, rectf f0 f0 MASTER_RATIO f1)
      :: (let height := fdiv f1 (f32_of_nat (length rest)) in
          imap (fun index leaf =>
                  (leaf.1, rectf MASTER_RATIO (fmul (f32_of_nat index) height)
                                 (fsub f1 MASTER_RATIO) height)) rest)
  end.

Definition CAROUSEL_WINDOW_WIDTH : f32 := f32_lit 58 100.
Definition CAROUSEL_WINDOW_HEIGHT : f32 := f32_lit 84 100.
Definition CAROUSEL_STEP : f32 := f32_lit 16 100.

(** The draw order: a farther window before a nearer one. *)
Definition farther (a b : N * RectF * f32) : Prop := flt a.2 b.2 = false.

#[export] Instance farther_dec : RelDecision farther.
Proof. intros a b. unfold farther. apply _. Defined.

(** [carousel_regions]. *)
Definition carousel_regions (leaves : list (N * PaneKind)) (focused : N) : list (N * RectF) :=
  match leaves with
  | [] => []
  | _ =>
      let focus_index :=
        default 0 (position (fun leaf => bool_decide (leaf.1 = focused)) leaves) in
      let w := fmin CAROUSEL_WINDOW_WIDTH f1 in
      let h := fmin CAROUSEL_WINDOW_HEIGHT f1 in
      let y := fdiv (fsub f1 h) f2 in
      let placed :=
        imap (fun index leaf =>
                let offset := fsub (f32_of_nat index) (f32_of_nat focus_index) in
                let distance := fabs offset in
                let x := fclamp (fadd (fsub f_half (fdiv w f2)) (fmul offset CAROUSEL_STEP))
                                f0 (fmax (fsub f1 w) f0) in
                (leaf.1, rectf x y w h, distance)) leaves in
      fst <$> sort_by farther placed
  end.
End Rects.
End Geometry.

(** ** The tree of panes *)

Inductive Pane : Type :=
| Leaf (id : N) (kind : PaneKind)
| Split (id : N) (dir : SplitDir) (ratio : f32) (first second : Pane).

Module Tree.
Definition id (p : Pane) : N := match p with Leaf id _ | Split id _ _ _ _ => id end.

Fixpoint first_leaf_id (p : Pane) : N :=
  match p with
  | Leaf id _ => id
  | Split _ _ _ first _ => first_leaf_id first
  end.

Fixpoint max_id (p : Pane) : N :=
  match p with
  | Leaf id _ => id
  | Split id _ _ first second => N.max (N.max id (max_id first)) (max_id second)
  end.

Fixpoint contains_leaf (p : Pane) (target : N) : bool :=
  match p with
  | Leaf id _ => bool_decide (id = target)
  | Split _ _ _ first second => contains_leaf first target || contains_leaf second target
  end.

Fixpoint leaf_count (p : Pane) : nat :=
  match p with
  | Leaf _ _ => 1
  | Split _ _ _ first second => leaf_count first + leaf_count second
  end.

(** The walks that push onto [out], by what they push. *)
Fixpoint leaves (p : Pane) : list (N * PaneKind) :=
  match p with
  | Leaf id kind => [(id, kind)]
  | Split _ _ _ first second => leaves first ++ leaves second
  end.

Fixpoint file_leaves (p : Pane) : list (N * Str) :=
  match p with
  | Leaf id (File path) => [(id, path)]
  | Leaf _ _ => []
  | Split _ _ _ first second => file_leaves first ++ file_leaves second
  end.

Fixpoint diff_leaves (p : Pane) : list (N * Str) :=
  match p with
  | Leaf id (Diff cwd) => [(id, cwd)]
  | Leaf _ _ => []
  | Split _ _ _ first second => diff_leaves first ++ diff_leaves second
  end.

(** [collect_pane_ids]: every node, the split before its halves. *)
Fixpoint collect_pane_ids (p : Pane) : list N :=
  match p with
  | Leaf id _ => [id]
  | Split id _ _ first second => id :: collect_pane_ids first ++ collect_pane_ids second
  end.

(** [collect_leaf_ids], and [collect_leaf_pane_ids] by what it pushes. *)
Fixpoint collect_leaf_ids (p : Pane) : list N :=
  match p with
  | Leaf id _ => [id]
  | Split _ _ _ first second => collect_leaf_ids first ++ collect_leaf_ids second
  end.

Fixpoint collect_chat_leaf_pane_ids (p : Pane) : list N :=
  match p with
  | Leaf id Chat => [id]
  | Leaf _ _ => []
  | Split _ _ _ first second =>
      collect_chat_leaf_pane_ids first ++ collect_chat_leaf_pane_ids second
  end.

Definition is_leaf (p : Pane) (target : N) : bool :=
  match p with Leaf id _ => bool_decide (id = target) | Split _ _ _ _ _ => false end.

(** The child next to [target] in this very split, on [side] of it. *)
Definition near_child (first second : Pane) (target : N) (side : DropSide) : option Pane :=
  match side with
  | Left | Top => if is_leaf second target then Some first else None
  | Right | Bottom => if is_leaf first target then Some second else None
  end.

Fixpoint sibling_on_side (p : Pane) (target : N) (side : DropSide) : option N :=
  match p with
  | Leaf _ _ => None
  | Split _ dir _ first second =>
      let below :=
        match sibling_on_side first target side with
        | Some s => Some s
        | None => sibling_on_side second target side
        end in
      match (if bool_decide (dir = split_dir side)
             then near_child first second target side else None) with
      | Some sibling => if is_leaf sibling (id sibling) then Some (id sibling) else None
      | None => below
      end
  end.

(** The walk to the leaf [target], the first half before the second, and the
    tree with [f] of that leaf in its place. *)
Fixpoint update_leaf (f : N -> PaneKind -> Pane) (target : N) (p : Pane) : option Pane :=
  match p with
  | Leaf id kind => if bool_decide (id = target) then Some (f id kind) else None
  | Split id dir ratio first second =>
      match update_leaf f target first with
      | Some first' => Some (Split id dir ratio first' second)
      | None => Split id dir ratio first <$> update_leaf f target second
      end
  end.

Definition insert_leaf_beside (target : N) (dir : SplitDir) (moved_first : bool)
    (split_id : N) (moved : Pane) : Pane -> option Pane :=
  update_leaf (fun id kind =>
    if moved_first then Split split_id dir f_half moved (Leaf id kind)
    else Split split_id dir f_half (Leaf id kind) moved) target.

Definition set_leaf_kind (target : N) (kind : PaneKind) : Pane -> option Pane :=
  update_leaf (fun id _ => Leaf id kind) target.

Definition split_leaf (target : N) (dir : SplitDir) (split_id second_id : N) : Pane -> option Pane :=
  update_leaf (fun id kind =>
    Split split_id dir f_half (Leaf id kind) (Leaf second_id kind)) target.

Definition split_leaf_into (target : N) (dir : SplitDir) (split_id second_id : N)
    (second_kind : PaneKind) : Pane -> option Pane :=
  update_leaf (fun id kind =>
    Split split_id dir f_half (Leaf id kind) (Leaf second_id second_kind)) target.

Fixpoint settings_leaf (p : Pane) : option N :=
  match p with
  | Leaf id (Settings _) => Some id
  | Leaf _ _ => None
  | Split _ _ _ first second =>
      match settings_leaf first with Some id => Some id | None => settings_leaf second end
  end.

Fixpoint leaf_kind (p : Pane) (target : N) : option PaneKind :=
  match p with
  | Leaf id kind => if bool_decide (id = target) then Some kind else None
  | Split _ _ _ first second =>
      match leaf_kind first target with Some k => Some k | None => leaf_kind second target end
  end.

Fixpoint set_all_dirs (dir : SplitDir) (p : Pane) : Pane :=
  match p with
  | Leaf _ _ => p
  | Split id _ ratio first second =>
      Split id dir ratio (set_all_dirs dir first) (set_all_dirs dir second)
  end.

Definition MIN_RATIO : f32 := f32_lit 5 100.
Definition MAX_RATIO : f32 := f32_lit 95 100.

Fixpoint set_ratio (target : N) (ratio : f32) (p : Pane) : option Pane :=
  match p with
  | Leaf _ _ => None
  | Split id dir r first second =>
      if bool_decide (id = target)
      then Some (Split id dir (fclamp ratio MIN_RATIO MAX_RATIO) first second)
      else match set_ratio target ratio first with
           | Some first' => Some (Split id dir r first' second)
           | None => Split id dir r first <$> set_ratio target ratio second
           end
  end.

(** [remove_leaf]: the tree without the leaf, and a leaf of the side that
    survives; [None] when there is no such leaf below a split. *)
Fixpoint remove_leaf (target : N) (p : Pane) : option (Pane * N) :=
  match p with
  | Leaf _ _ => None
  | Split id dir ratio first second =>
      if is_leaf first target then Some (second, first_leaf_id second)
      else if is_leaf second target then Some (first, first_leaf_id first)
      else match remove_leaf target first with
           | Some (first', next) => Some (Split id dir ratio first' second, next)
           | None =>
               match remove_leaf target second with
               | Some (second', next) => Some (Split id dir ratio first second', next)
               | None => None
               end
           end
  end.

Section Regions.
Context {euclid : Euclid}.

(** [collect_regions], by what it pushes. *)
Fixpoint collect_regions (p : Pane) (rect : RectF) : list (N * RectF) :=
  match p with
  | Leaf id _ => [(id, rect)]
  | Split _ dir ratio first second =>
      let '(first_rect, second_rect) :=
        match dir with
        | Horizontal =>
            let split_x := fadd (min_x rect) (fmul (width rect) ratio) in
            (rectf (min_x rect) (min_y rect) (fsub split_x (min_x rect)) (height rect),
             rectf split_x (min_y rect) (fsub (max_x rect) split_x) (height rect))
        | Vertical =>
            let split_y := fadd (min_y rect) (fmul (height rect) ratio) in
            (rectf (min_x rect) (min_y rect) (width rect) (fsub split_y (min_y rect)),
             rectf (min_x rect) split_y (width rect) (fsub (max_y rect) split_y))
        end in
      collect_regions first first_rect ++ collect_regions second second_rect
  end.

Definition leaf_regions (p : Pane) : list (N * RectF) :=
  collect_regions p (rectf f0 f0 f1 f1).
End Regions.
End Tree.

(** ** A space: a tab and its panes *)

Record Space : Type := mkSpace {
  name : Str;
  named : bool;
  root : Pane;
  medium : Str;
  color : option TabColor;
  layout : LayoutKind;
  floating : list FloatingPane;
}.

Definition set_root (r : Pane) (s : Space) : Space :=
  mkSpace (name s) (named s) r (medium s) (color s) (layout s) (floating s).
Definition set_floating (f : list FloatingPane) (s : Space) : Space :=
  mkSpace (name s) (named s) (root s) (medium s) (color s) (layout s) f.

Module Space_.
Definition LOCAL : Str := lit "local".

(** [Space::new], [Space::unnamed], [Space::with_medium], [Space::with_color]. *)
Definition new (name : Str) (root : Pane) : Space := mkSpace name true root LOCAL None Bsp [].
Definition unnamed (root : Pane) : Space := mkSpace [] false root LOCAL None Bsp [].
Definition with_medium (m : Str) (s : Space) : Space :=
  mkSpace (name s) (named s) (root s) m (color s) (layout s) (floating s).
Definition with_color (c : option TabColor) (s : Space) : Space :=
  mkSpace (name s) (named s) (root s) (medium s) c (layout s) (floating s).

Definition set_minimized (b : bool) (p : FloatingPane) : FloatingPane :=
  mkFloating (pane_id p) (rect p) b.
Definition set_rect (r : PaneRect) (p : FloatingPane) : FloatingPane :=
  mkFloating (pane_id p) r (minimized p).

Definition is_pane (id : N) (p : FloatingPane) : bool := bool_decide (pane_id p = id).

(** [iter_mut().find(..)]: the first entry of the pane, rewritten. *)
Fixpoint alter_pane (id : N) (f : FloatingPane -> FloatingPane) (l : list FloatingPane)
  : list FloatingPane :=
  match l with
  | [] => []
  | p :: l' => if is_pane id p then f p :: l' else p :: alter_pane id f l'
  end.

(** The entries of panes the tree still has. *)
Definition retained (s : Space) : list FloatingPane :=
  base.filter (fun p => existsb (fun leaf => bool_decide (leaf.1 = pane_id p))
                          (Tree.leaves (root s))) (floating s).

(** A rectangle for every leaf that has none, by the leaf's place in the row. *)
Fixpoint place (index : nat) (leaves : list (N * PaneKind)) (l : list FloatingPane)
  : list FloatingPane :=
  match leaves with
  | [] => l
  | (id, _) :: rest =>
      place (S index) rest
        (if existsb (is_pane id) l then l
         else l ++ [mkFloating id (Geometry.default_floating_rect index) false])
  end.

Definition recompute_layout (s : Space) : Space :=
  if bool_decide (layout s = Floating)
  then set_floating (place 0 (Tree.leaves (root s)) (retained s)) s
  else set_floating (retained s) s.

(** [Space::split], [Space::split_with_kind]: the counter is spent either way. *)
Definition split_by (make : N -> N -> Pane -> option Pane) (s : Space) (next_id : N)
  : Space * N * option N :=
  let split_id := next_id in
  let second_id := bump split_id in
  let next_id := bump second_id in
  match make split_id second_id (root s) with
  | Some r => (recompute_layout (set_root r s), next_id, Some second_id)
  | None => (s, next_id, None)
  end.
Definition split (target : N) (dir : SplitDir) : Space -> N -> Space * N * option N :=
  split_by (Tree.split_leaf target dir).
Definition split_with_kind (target : N) (dir : SplitDir) (second_kind : PaneKind)
  : Space -> N -> Space * N * option N :=
  split_by (fun split_id second_id => Tree.split_leaf_into target dir split_id second_id second_kind).

(** [Space::set_ratio], [Space::set_leaf_kind]; [None] is the answer [false]. *)
Definition set_ratio (split_id : N) (ratio : f32) (s : Space) : option Space :=
  (fun r => set_root r s) <$> Tree.set_ratio split_id ratio (root s).
Definition set_leaf_kind (target : N) (kind : PaneKind) (s : Space) : option Space :=
  (fun r => set_root r s) <$> Tree.set_leaf_kind target kind (root s).
Definition set_layout_direction (dir : SplitDir) (s : Space) : Space :=
  set_root (Tree.set_all_dirs dir (root s)) s.

Definition set_layout (l : LayoutKind) (s : Space) : Space :=
  let f := if bool_decide (l = Floating) then floating s
           else set_minimized false <$> floating s in
  recompute_layout
    (mkSpace (name s) (named s) (root s) (medium s) (color s) l f).

Definition floating_pane (s : Space) (id : N) : option FloatingPane :=
  snd <$> list_find (is_pane id) (floating s).
Definition floating_rect (s : Space) (id : N) : option PaneRect := rect <$> floating_pane s id.
Definition set_floating_rect (id : N) (r : PaneRect) (s : Space) : Space :=
  set_floating (alter_pane id (set_rect (Geometry.clamped r)) (floating s)) s.

Definition raise_pane (id : N) (s : Space) : Space :=
  match list_find (is_pane id) (floating s) with
  | Some (index, p) => set_floating (delete index (floating s) ++ [p]) s
  | None => s
  end.
Definition minimize_pane (id : N) (s : Space) : Space :=
  set_floating (alter_pane id (set_minimized true) (floating s)) s.
Definition restore_pane (id : N) (s : Space) : Space :=
  raise_pane id (set_floating (alter_pane id (set_minimized false) (floating s)) s).

Definition pane_minimized (s : Space) (id : N) : bool :=
  match floating_pane s id with Some p => minimized p | None => false end.
Definition minimized_panes (s : Space) : list (N * PaneRect) :=
  if bool_decide (layout s = Floating)
  then (fun p => (pane_id p, rect p)) <$>
         base.filter (fun p => minimized p && Tree.contains_leaf (root s) (pane_id p)) (floating s)
  else [].
Definition visible_leaf_ids (s : Space) : list N :=
  base.filter (fun id => negb (pane_minimized s id)) (Tree.leaves (root s)).*1.

Definition leaf_kind (s : Space) : N -> option PaneKind := Tree.leaf_kind (root s).
Definition settings_leaf (s : Space) : option N := Tree.settings_leaf (root s).
Definition diff_leaf_for (s : Space) (cwd : Str) : option N :=
  fst <$> head (base.filter (fun leaf => leaf.2 = cwd) (Tree.diff_leaves (root s))).

Definition close (target : N) (s : Space) : Space * option N :=
  match Tree.remove_leaf target (root s) with
  | Some (r, next) =>
      let s := set_root r s in
      let s := set_floating (base.filter (fun p => pane_id p <> target) (floating s)) s in
      (recompute_layout s, Some next)
  | None => (s, None)
  end.

(** [Space::move_pane]: the space, the counter, and whether the tree changed. *)
Definition move_pane (pane target_id : N) (side : DropSide) (s : Space) (next_id : N)
  : Space * N * bool :=
  if bool_decide (pane = target_id) then (s, next_id, false) else
  match Tree.leaf_kind (root s) pane with
  | None => (s, next_id, false)
  | Some kind =>
      match Tree.leaf_kind (root s) target_id with
      | None => (s, next_id, false)
      | Some _ =>
          if bool_decide (Tree.sibling_on_side (root s) target_id side = Some pane)
          then (s, next_id, false) else
          match Tree.remove_leaf pane (root s) with
          | None => (s, next_id, false)
          | Some (r, _) =>
              let split_id := next_id in
              let next_id := bump next_id in
              match Tree.insert_leaf_beside target_id (split_dir side) (leads side) split_id
                      (Leaf pane kind) r with
              | Some r => (recompute_layout (set_root r s), next_id, true)
              | None => (set_root r s, next_id, false)
              end
          end
      end
  end.

Section Focus.
Context {euclid : Euclid}.

Definition layout_regions (s : Space) : list (N * RectF) :=
  match layout s with
  | Bsp => Tree.leaf_regions (root s)
  | MasterStack => Geometry.master_stack_regions (Tree.leaves (root s))
  | Floating =>
      (fun p => (pane_id p, Geometry.to_rect (rect p))) <$>
        base.filter (fun p => negb (minimized p) && Tree.contains_leaf (root s) (pane_id p))
          (floating s)
  | Carousel =>
      let leaves := Tree.leaves (root s) in
      Geometry.carousel_regions leaves (default 0%N (fst <$> head leaves))
  end.

Definition center_x (r : RectF) : f32 := fadd (min_x r) (fmul (width r) f_half).
Definition center_y (r : RectF) : f32 := fadd (min_y r) (fmul (height r) f_half).
Definition EPS : f32 := f32_lit 1 1000000.

(** How far [r] is from [current] in [dir], and how far off its axis; [None] for
    a region that is not wholly on that side. *)
Definition distances (dir : NavDir) (current r : RectF) : option (f32 * f32) :=
  match dir with
  | NavUp => if fle (max_y r) (min_y current)
             then Some (fsub (min_y current) (max_y r), fabs (fsub (center_x r) (center_x current)))
             else None
  | NavDown => if fle (max_y current) (min_y r)
               then Some (fsub (min_y r) (max_y current), fabs (fsub (center_x r) (center_x current)))
               else None
  | NavLeft => if fle (max_x r) (min_x current)
               then Some (fsub (min_x current) (max_x r), fabs (fsub (center_y r) (center_y current)))
               else None
  | NavRight => if fle (max_x current) (min_x r)
                then Some (fsub (min_x r) (max_x current), fabs (fsub (center_y r) (center_y current)))
                else None
  end.

Definition better (best : option (N * f32 * f32)) (primary secondary : f32) : bool :=
  match best with
  | None => true
  | Some (_, bp, bs) =>
      flt primary (fsub bp EPS)
      || (flt (fabs (fsub primary bp)) EPS && flt secondary (fsub bs EPS))
  end.

Fixpoint nearest (from : N) (dir : NavDir) (current : RectF) (regions : list (N * RectF))
    (best : option (N * f32 * f32)) : option (N * f32 * f32) :=
  match regions with
  | [] => best
  | (id, r) :: rest =>
      nearest from dir current rest
        (if bool_decide (id = from) then best else
         match distances dir current r with
         | None => best
         | Some (primary, secondary) =>
             if better best primary secondary then Some (id, primary, secondary) else best
         end)
  end.

(** [Space::navigate]. *)
Definition navigate (s : Space) (from : N) (dir : NavDir) : option N :=
  if bool_decide (layout s = Carousel) then
    let leaves := Tree.leaves (root s) in
    if length leaves <? 2 then None else
    match position (fun leaf => bool_decide (leaf.1 = from)) leaves with
    | None => None
    | Some index =>
        let step := match dir with NavLeft | NavUp => length leaves - 1 | NavRight | NavDown => 1 end in
        fst <$> leaves !! ((index + step) mod length leaves)
    end
  else
    let regions := layout_regions s in
    match list_find (fun r => r.1 = from) regions with
    | None => None
    | Some (_, (_, current)) =>
        (fun best => best.1.1) <$> nearest from dir current regions None
    end.
End Focus.
End Space_.
