(* ===== verification/PanesProps.v ===== *)
(** Properties of pane trees and spaces: what each gesture does to the panes of a
    tab, and that a tab stays well formed under all of them. *)

From Stdlib Require Import ZArith SpecFloat.
From stdpp Require Import base list.
From S2P Require Import Prelude Floats Panes.

Open Scope nat_scope.

Abbreviation ids := Tree.collect_pane_ids.
Abbreviation leaf_ids p := ((Tree.leaves p).*1).

(** ** The walks of a tree *)

Module TreeProps.
Lemma collect_leaf_ids_leaves p : Tree.collect_leaf_ids p = leaf_ids p.
Proof. induction p as [| ??? a IHa b IHb]; simpl; [done |]. by rewrite IHa, IHb, fmap_app. Qed.

Lemma leaf_count_leaves p : Tree.leaf_count p = length (Tree.leaves p).
Proof. induction p as [| ??? a IHa b IHb]; simpl; [done |]. by rewrite IHa, IHb, length_app. Qed.

Lemma leaves_sublist p : leaf_ids p `sublist_of` ids p.
Proof.
  induction p as [| ??? a IHa b IHb]; simpl; [done |].
  rewrite fmap_app. by apply sublist_cons, sublist_app.
Qed.

Lemma NoDup_leaf_ids p : NoDup (ids p) -> NoDup (leaf_ids p).
Proof. intros H. eapply sublist_NoDup; [exact H | apply leaves_sublist]. Qed.

Lemma leaf_id_in_ids p t : t ∈ leaf_ids p -> t ∈ ids p.
Proof. intros H. eapply elem_of_sublist; [exact H | apply leaves_sublist]. Qed.

Lemma contains_leaf_spec p t : Tree.contains_leaf p t = true <-> t ∈ leaf_ids p.
Proof.
  induction p as [i k | ??? a IHa b IHb]; simpl.
  - rewrite bool_decide_eq_true, list_elem_of_singleton. naive_solver.
  - by rewrite orb_true_iff, IHa, IHb, fmap_app, elem_of_app.
Qed.

Lemma contains_leaf_false p t : Tree.contains_leaf p t = false <-> t ∉ leaf_ids p.
Proof. rewrite <- contains_leaf_spec. by destruct (Tree.contains_leaf p t). Qed.

Lemma leaf_kind_elem p t k : Tree.leaf_kind p t = Some k -> (t, k) ∈ Tree.leaves p.
Proof.
  induction p as [i k' | ??? a IHa b IHb]; simpl.
  - case_bool_decide; intros [=]; subst. by apply list_elem_of_singleton.
  - rewrite elem_of_app. destruct (Tree.leaf_kind a t); naive_solver.
Qed.

Lemma leaf_kind_contains p t : is_Some (Tree.leaf_kind p t) <-> t ∈ leaf_ids p.
Proof.
  induction p as [i k | ??? a IHa b IHb]; simpl.
  - rewrite list_elem_of_singleton. case_bool_decide; subst; split; intros; naive_solver.
  - rewrite fmap_app, elem_of_app, <- IHa, <- IHb.
    destruct (Tree.leaf_kind a t); [naive_solver |].
    split; [by right | by intros [[? [=]] |]].
Qed.

(** A leaf is found with the kind it has, where the identifiers differ. *)
Lemma leaf_kind_NoDup p t k :
  NoDup (leaf_ids p) -> (t, k) ∈ Tree.leaves p -> Tree.leaf_kind p t = Some k.
Proof.
  intros Hnd Hin.
  destruct (proj2 (leaf_kind_contains p t)) as [k' Hk']; [by eapply list_elem_of_fmap_2' |].
  rewrite Hk'. f_equal. apply leaf_kind_elem in Hk'.
  apply list_elem_of_lookup in Hin as [i Hi], Hk' as [j Hj].
  assert (i = j) as ->; [| congruence].
  eapply NoDup_lookup; [exact Hnd | by rewrite list_lookup_fmap, Hi | by rewrite list_lookup_fmap, Hj].
Qed.

Lemma first_leaf_elem p : Tree.first_leaf_id p ∈ leaf_ids p.
Proof.
  induction p as [| ??? a IHa b IHb]; simpl; [by apply list_elem_of_singleton |].
  rewrite fmap_app, elem_of_app. by left.
Qed.

Lemma is_leaf_spec p t : Tree.is_leaf p t = true <-> exists k, p = Leaf t k.
Proof.
  destruct p; simpl; [| naive_solver].
  rewrite bool_decide_eq_true. naive_solver.
Qed.

Lemma max_id_bound p i : i ∈ ids p -> (i <= Tree.max_id p)%N.
Proof.
  induction p as [i' | i' ?? a IHa b IHb]; simpl.
  - rewrite list_elem_of_singleton. lia.
  - rewrite elem_of_cons, elem_of_app. intros [-> | [H | H]]; [lia | apply IHa in H; lia | apply IHb in H; lia].
Qed.

Lemma max_id_elem p : Tree.max_id p ∈ ids p.
Proof.
  induction p as [i' | i' ?? a IHa b IHb]; simpl; [by apply list_elem_of_singleton |].
  rewrite elem_of_cons, elem_of_app.
  destruct (N.max_spec (N.max i' (Tree.max_id a)) (Tree.max_id b)) as [[_ ->] | [_ ->]]; [by right; right |].
  destruct (N.max_spec i' (Tree.max_id a)) as [[_ ->] | [_ ->]]; [by right; left | by left].
Qed.

(** *** Rewriting one leaf *)

(** The leaf found is replaced where it stands; every other node stays. *)
Lemma update_leaf_spec f t p p' :
  Tree.update_leaf f t p = Some p' ->
  exists k l1 l2 m1 m2,
    Tree.leaves p = l1 ++ (t, k) :: l2 /\ Tree.leaves p' = l1 ++ Tree.leaves (f t k) ++ l2 /\
    ids p = m1 ++ t :: m2 /\ ids p' = m1 ++ ids (f t k) ++ m2 /\ Tree.leaf_kind p t = Some k.
Proof.
  revert p'. induction p as [i k | i d r a IHa b IHb]; intros p'; simpl.
  - case_bool_decide; intros [=]; subst. exists k, [], [], [], []. by rewrite !app_nil_r.
  - destruct (Tree.update_leaf f t a) as [a' |] eqn:Ea.
    + intros [=]; subst. destruct (IHa _ eq_refl) as (k & l1 & l2 & m1 & m2 & H1 & H2 & H3 & H4 & H5).
      exists k, l1, (l2 ++ Tree.leaves b), (i :: m1), (m2 ++ ids b). simpl.
      rewrite H1, H2, H3, H4, H5. split_and!; [by simplify_list_eq .. | done].
    + destruct (Tree.update_leaf f t b) as [b' |] eqn:Eb; simpl; intros [=]; subst.
      destruct (IHb _ eq_refl) as (k & l1 & l2 & m1 & m2 & H1 & H2 & H3 & H4 & H5).
      exists k, (Tree.leaves a ++ l1), l2, (i :: ids a ++ m1), m2. simpl.
      rewrite H1, H2, H3, H4. split_and!; [by simplify_list_eq .. |].
      replace (Tree.leaf_kind a t) with (@None PaneKind); [done |].
      clear -Ea. induction a as [j k' | j d' r' a1 IH1 a2 IH2]; simpl in *; [by case_bool_decide |].
      destruct (Tree.update_leaf f t a1); [done |]. destruct (Tree.update_leaf f t a2); [done |].
      by rewrite <- IH1, <- IH2.
Qed.

Lemma update_leaf_is_Some f t p : t ∈ leaf_ids p -> is_Some (Tree.update_leaf f t p).
Proof.
  induction p as [i k | i d r a IHa b IHb]; simpl.
  - rewrite list_elem_of_singleton. intros ->. rewrite bool_decide_eq_true_2; [by eexists | done].
  - rewrite fmap_app, elem_of_app.
    destruct (Tree.update_leaf f t a); [by eexists |].
    intros [H | H]; [by destruct (IHa H) |].
    destruct (IHb H) as [b' ->]. by eexists.
Qed.

Lemma update_leaf_None f t p : t ∉ leaf_ids p -> Tree.update_leaf f t p = None.
Proof.
  intros Ht. destruct (Tree.update_leaf f t p) as [p' |] eqn:E; [| done].
  apply update_leaf_spec in E as (k & l1 & l2 & _ & _ & H & _).
  exfalso. apply Ht. rewrite H, fmap_app, elem_of_app. right. by left.
Qed.
End TreeProps.

(** *** Taking a leaf away *)

Module RemoveProps.
Import TreeProps.

(** The leaf goes with the split it was in, and every other leaf keeps its place
    in the row; the focus moves to a leaf that stays. *)
Lemma remove_leaf_spec t p p' next :
  Tree.remove_leaf t p = Some (p', next) ->
  exists k l1 l2 sid, Tree.leaves p = l1 ++ (t, k) :: l2 /\ Tree.leaves p' = l1 ++ l2 /\
    ids p ≡ₚ t :: sid :: ids p' /\ next ∈ leaf_ids p'.
Proof.
  revert p' next. induction p as [i k | i d r a IHa b IHb]; intros p' next; simpl; [done |].
  destruct (Tree.is_leaf a t) eqn:Ea.
  { intros [=]; subst. apply is_leaf_spec in Ea as [k ->]. exists k, [], (Tree.leaves p'), i.
    split_and!; [done | done | apply Permutation_swap | apply first_leaf_elem]. }
  destruct (Tree.is_leaf b t) eqn:Eb.
  { intros [=]; subst. apply is_leaf_spec in Eb as [k ->]. exists k, (Tree.leaves p'), [], i.
    split_and!; [done | by rewrite app_nil_r | | apply first_leaf_elem].
    simpl. rewrite <- Permutation_cons_append. apply Permutation_swap. }
  destruct (Tree.remove_leaf t a) as [[a' n] |].
  { intros [=]; subst. destruct (IHa _ _ eq_refl) as (k & l1 & l2 & sid & H1 & H2 & H3 & H4).
    exists k, l1, (l2 ++ Tree.leaves b), sid. simpl. rewrite H1, H3, fmap_app, elem_of_app.
    split_and!; [by rewrite <- app_assoc | by rewrite H2, <- app_assoc | simpl; by rewrite (Permutation_swap i), (Permutation_swap i) | by left]. }
  destruct (Tree.remove_leaf t b) as [[b' n] |]; [| done].
  intros [=]; subst. destruct (IHb _ _ eq_refl) as (k & l1 & l2 & sid & H1 & H2 & H3 & H4).
  exists k, (Tree.leaves a ++ l1), l2, sid. simpl. rewrite H1, H3, fmap_app, elem_of_app.
  split_and!; [by rewrite <- app_assoc | by rewrite H2, <- app_assoc | | by right].
  rewrite <- !Permutation_middle. by rewrite (Permutation_swap i), (Permutation_swap i).
Qed.

Lemma remove_leaf_absent t p : t ∉ leaf_ids p -> Tree.remove_leaf t p = None.
Proof.
  intros Ht. destruct (Tree.remove_leaf t p) as [[p' n] |] eqn:E; [| done].
  apply remove_leaf_spec in E as (k & l1 & l2 & sid & H & _).
  exfalso. apply Ht. rewrite H, fmap_app, elem_of_app. right. by left.
Qed.

(** Only the last pane of a tree cannot be taken away. *)
Lemma remove_leaf_is_Some t p :
  t ∈ leaf_ids p -> 1 < Tree.leaf_count p -> is_Some (Tree.remove_leaf t p).
Proof.
  induction p as [i k | i d r a IHa b IHb]; simpl; [lia |]. intros Ht _.
  rewrite fmap_app, elem_of_app in Ht.
  assert (forall q, Tree.is_leaf q t = false -> t ∈ leaf_ids q -> 1 < Tree.leaf_count q) as Hcount.
  { intros [j k | j d' r' q1 q2] Hq Hin; simpl in *.
    - apply list_elem_of_singleton in Hin. subst. by rewrite bool_decide_eq_true_2 in Hq.
    - assert (forall q, 1 <= Tree.leaf_count q) as H1.
      { intros q. induction q; simpl; lia. }
      pose proof (H1 q1). pose proof (H1 q2). lia. }
  destruct (Tree.is_leaf a t) eqn:Ea; [by eexists |].
  destruct (Tree.is_leaf b t) eqn:Eb; [by eexists |].
  destruct (Tree.remove_leaf t a) as [[a' n] |]; [by eexists |].
  destruct Ht as [Ht | Ht].
  { destruct (IHa Ht); [by apply Hcount | done]. }
  destruct (IHb Ht) as [[b' n] ->]; [by apply Hcount | by eexists].
Qed.

(** A tree a leaf was rewritten in to a split is a split. *)
Lemma update_leaf_split f t p p' u :
  Tree.update_leaf f t p = Some p' -> (forall k, Tree.is_leaf (f t k) u = false) ->
  Tree.is_leaf p' u = false.
Proof.
  destruct p as [i k | i d r a b]; simpl.
  - case_bool_decide; intros [=]; subst. naive_solver.
  - destruct (Tree.update_leaf f t a); [by intros [=]; subst |].
    by destruct (Tree.update_leaf f t b); intros [=]; subst.
Qed.

(** Splitting a leaf and closing the new one is the identity. *)
Lemma remove_split_leaf t d sid new k p p' :
  new ∉ leaf_ids p -> Tree.split_leaf_into t d sid new k p = Some p' ->
  Tree.remove_leaf new p' = Some (p, t).
Proof.
  unfold Tree.split_leaf_into. set (f := fun id kind => _).
  revert p'. induction p as [i k' | i d' r a IHa b IHb]; intros p' Hnew; simpl.
  - simpl in Hnew. rewrite list_elem_of_singleton in Hnew.
    case_bool_decide; intros [=]; subst. simpl.
    by rewrite bool_decide_eq_false_2, bool_decide_eq_true_2 by done.
  - simpl in Hnew. rewrite fmap_app, elem_of_app in Hnew.
    assert (forall q, new ∉ leaf_ids q -> Tree.is_leaf q new = false) as Hno.
    { intros q Hq. destruct (Tree.is_leaf q new) eqn:E; [| done].
      apply is_leaf_spec in E as [? ->]. exfalso. apply Hq. by left. }
    destruct (Tree.update_leaf f t a) as [a' |] eqn:Ea.
    + intros [=]; subst. simpl.
      rewrite (update_leaf_split _ _ _ _ new Ea) by done.
      rewrite (Hno b) by naive_solver. by rewrite (IHa a') by naive_solver.
    + destruct (Tree.update_leaf f t b) as [b' |] eqn:Eb; intros [=]; subst. simpl.
      rewrite (Hno a) by naive_solver. rewrite (update_leaf_split _ _ _ _ new Eb) by done.
      rewrite (remove_leaf_absent new a) by naive_solver. by rewrite (IHb b') by naive_solver.
Qed.

(** *** The neighbour of a leaf *)

Lemma sibling_contains p t side s :
  Tree.sibling_on_side p t side = Some s -> t ∈ leaf_ids p /\ s ∈ leaf_ids p.
Proof.
  induction p as [i k | i d r a IHa b IHb]; simpl; [done |]. rewrite fmap_app, !elem_of_app.
  assert (forall q, Tree.is_leaf q t = true -> t ∈ leaf_ids q) as Hin.
  { intros q Hq. apply is_leaf_spec in Hq as [? ->]. by left. }
  assert (forall q x, (if Tree.is_leaf q (Tree.id q) then Some (Tree.id q) else None) = Some x ->
            x ∈ leaf_ids q) as Hid.
  { intros [] x; simpl; [case_bool_decide; intros [=]; subst; by left | done]. }
  destruct (if bool_decide _ then _ else _) as [sib |] eqn:E.
  - case_bool_decide; [| done]. unfold Tree.near_child in E. intros Hs%Hid.
    destruct side, (Tree.is_leaf b t) eqn:Eb, (Tree.is_leaf a t) eqn:Ea;
      simplify_eq; eauto.
  - destruct (Tree.sibling_on_side a t side); naive_solver.
Qed.

(** A leaf inserted beside another is its neighbour on that side. *)
Lemma insert_sibling t side sid m k p p' :
  NoDup (leaf_ids p) ->
  Tree.insert_leaf_beside t (split_dir side) (leads side) sid (Leaf m k) p = Some p' ->
  Tree.sibling_on_side p' t side = Some m.
Proof.
  unfold Tree.insert_leaf_beside. set (f := fun id kind => _).
  assert (forall u k, Tree.is_leaf (f u k) t = false) as Hf by (subst f; intros; simpl; by case_match).
  revert p'. induction p as [i k' | i d' r a IHa b IHb]; intros p' Hnd; simpl.
  - case_bool_decide; intros [=]; subst. subst f; simpl.
    destruct side; simpl; by repeat (rewrite bool_decide_eq_true_2 by done; simpl).
  - simpl in Hnd. rewrite fmap_app in Hnd. apply NoDup_app in Hnd as (Ha & Hab & Hb).
    assert (forall q, t ∉ leaf_ids q -> Tree.is_leaf q t = false) as Hno.
    { intros q Hq. destruct (Tree.is_leaf q t) eqn:E; [| done].
      apply is_leaf_spec in E as [? ->]. exfalso. apply Hq. by left. }
    destruct (Tree.update_leaf f t a) as [a' |] eqn:Ea.
    + intros [=]; subst. simpl.
      assert (t ∈ leaf_ids a) as Hta.
      { destruct (update_leaf_spec _ _ _ _ Ea) as (? & l1 & l2 & _ & _ & -> & _).
        rewrite fmap_app, elem_of_app. right. by left. }
      rewrite (IHa a') by done. unfold Tree.near_child.
      rewrite (update_leaf_split _ _ _ _ t Ea), (Hno b) by (try done; by apply Hab).
      by destruct side, (bool_decide _).
    + destruct (Tree.update_leaf f t b) as [b' |] eqn:Eb; intros [=]; subst. simpl.
      assert (t ∉ leaf_ids a) as Hta.
      { intros H. by destruct (update_leaf_is_Some f t a H) as [? ?]; congruence. }
      rewrite (IHb b') by done. unfold Tree.near_child.
      rewrite (update_leaf_split _ _ _ _ t Eb), (Hno a) by done.
      destruct (Tree.sibling_on_side a t side) as [x |] eqn:Es.
      { by apply sibling_contains in Es as [? _]. }
      by destruct side, (bool_decide _).
Qed.
End RemoveProps.

(** ** A tab stays well formed *)

Module SpaceProps.
Import TreeProps RemoveProps.

Definition float_ids (s : Space) : list N := pane_id <$> floating s.

(** What the code keeps of a tab: every node has an identifier of its own, below
    the counter; a floating entry names a leaf, one entry a leaf; and in the
    floating layout every leaf has one. *)
Record Wf (next_id : N) (s : Space) : Prop := {
  wf_nodup : NoDup (ids (root s));
  wf_bound : Forall (fun i => i < next_id)%N (ids (root s));
  wf_floating : NoDup (float_ids s);
  wf_floating_leaf i : i ∈ float_ids s -> i ∈ leaf_ids (root s);
  wf_floats i : layout s = Floating -> i ∈ leaf_ids (root s) -> i ∈ float_ids s;
}.

Lemma existsb_elem {A} (f : A -> N) (l : list A) i :
  existsb (fun x => bool_decide (f x = i)) l = true <-> i ∈ f <$> l.
Proof.
  rewrite existsb_exists, list_elem_of_fmap. setoid_rewrite bool_decide_eq_true.
  setoid_rewrite list_elem_of_In. naive_solver.
Qed.

Lemma retained_elem s i : i ∈ pane_id <$> Space_.retained s <-> i ∈ float_ids s /\ i ∈ leaf_ids (root s).
Proof.
  unfold Space_.retained, float_ids. rewrite !list_elem_of_fmap.
  setoid_rewrite list_elem_of_filter. setoid_rewrite Is_true_true.
  setoid_rewrite existsb_elem. setoid_rewrite list_elem_of_fmap. naive_solver.
Qed.

Section Filters.
Context {A : Type}.
Implicit Types (l : list A).

Lemma filter_fmap_sublist {B} (f : A -> B) (P : A -> Prop) `{!forall x, Decision (P x)} l :
  (f <$> base.filter P l) `sublist_of` (f <$> l).
Proof.
  induction l as [| x l IH]; [done |]. rewrite filter_cons.
  case_decide; simpl; [by apply sublist_skip | by apply sublist_cons].
Qed.

Lemma filter_same (P Q : A -> Prop) `{!forall x, Decision (P x)} `{!forall x, Decision (Q x)} l :
  (forall x, x ∈ l -> P x <-> Q x) -> base.filter P l = base.filter Q l.
Proof.
  induction l as [| x l IH]; intros Hin; [done |]. rewrite !filter_cons.
  rewrite IH by (intros; apply Hin; by right).
  assert (P x <-> Q x) by (apply Hin; by left). repeat case_decide; tauto.
Qed.

Lemma filter_true (P : A -> Prop) `{!forall x, Decision (P x)} l :
  (forall x, x ∈ l -> P x) -> base.filter P l = l.
Proof.
  induction l as [| x l IH]; intros Hin; [done |]. rewrite filter_cons, decide_True by (apply Hin; by left).
  rewrite IH by (intros; apply Hin; by right). done.
Qed.

Lemma Forall_filter (P Q : A -> Prop) `{!forall x, Decision (P x)} l :
  Forall Q l -> Forall Q (base.filter P l).
Proof. rewrite !Forall_forall. intros Hq x [_ Hx]%list_elem_of_filter. by apply Hq. Qed.

Lemma filter_false (P : A -> Prop) `{!forall x, Decision (P x)} l :
  (forall x, x ∈ l -> ~ P x) -> base.filter P l = [].
Proof.
  induction l as [| x l IH]; intros Hin; [done |]. rewrite filter_cons, decide_False by (apply Hin; by left).
  apply IH. intros; apply Hin; by right.
Qed.
End Filters.

Lemma place_spec l : forall index leaves,
  NoDup (leaves.*1) ->
  exists news, Space_.place index leaves l = l ++ news /\
    pane_id <$> news = base.filter (fun i => i ∉ pane_id <$> l) leaves.*1 /\
    Forall (fun p => minimized p = false) news.
Proof.
  intros index leaves. revert index l.
  induction leaves as [| [i k] leaves IH]; intros index l Hnd.
  { exists []. simpl. by rewrite app_nil_r. }
  rewrite fmap_cons in Hnd |- *. cbn [fst Space_.place] in *.
  apply NoDup_cons in Hnd as [Hi Hnd]. rewrite filter_cons.
  destruct (existsb (Space_.is_pane i) l) eqn:E.
  - apply (existsb_elem pane_id) in E. rewrite decide_False by naive_solver. by apply IH.
  - assert (i ∉ pane_id <$> l) as Hl by (rewrite <- existsb_elem; unfold Space_.is_pane in E; by rewrite E).
    rewrite decide_True by done.
    destruct (IH (S index) (l ++ [mkFloating i (Geometry.default_floating_rect index) false]) Hnd)
      as (news & -> & Hids & Hmin).
    exists (mkFloating i (Geometry.default_floating_rect index) false :: news).
    rewrite <- app_assoc. split_and!; [done | | by constructor].
    rewrite fmap_cons, Hids. f_equal. apply filter_same. intros x Hx. rewrite fmap_app, elem_of_app.
    cbn [fmap list_fmap pane_id].
    rewrite list_elem_of_singleton. naive_solver.
Qed.

(** What [recompute_layout] does to the entries: those of panes that are gone
    leave, the rest keep their order and rectangles, new ones join on top. *)
Lemma recompute_spec s :
  NoDup (leaf_ids (root s)) ->
  exists news, Space_.recompute_layout s = set_floating (Space_.retained s ++ news) s /\
    Forall (fun p => minimized p = false) news /\
    (pane_id <$> news = if decide (layout s = Floating)
                        then base.filter (fun i => i ∉ float_ids s) (leaf_ids (root s)) else []).
Proof.
  intros Hnd. unfold Space_.recompute_layout. case_bool_decide as Hl.
  - destruct (place_spec (Space_.retained s) 0 _ Hnd) as (news & -> & Hids & Hmin).
    exists news. split_and!; [done | done |]. rewrite decide_True, Hids by done.
    apply filter_same. intros i Hi.
    rewrite retained_elem. naive_solver.
  - exists []. rewrite decide_False by done. by rewrite app_nil_r.
Qed.

(** Recomputing makes a tab well formed whatever its entries were. *)
Lemma recompute_wf next_id s :
  NoDup (ids (root s)) -> Forall (fun i => i < next_id)%N (ids (root s)) -> NoDup (float_ids s) ->
  Wf next_id (Space_.recompute_layout s).
Proof.
  intros Hids Hlt Hfl. pose proof (NoDup_leaf_ids _ Hids) as Hleaf.
  destruct (recompute_spec s Hleaf) as (news & -> & _ & Hnew).
  assert (forall i, i ∈ pane_id <$> news -> i ∈ leaf_ids (root s) /\ i ∉ float_ids s) as Hin.
  { intros i. rewrite Hnew. case_decide; [| by intros ?%elem_of_nil].
    rewrite list_elem_of_filter. naive_solver. }
  constructor; [done | done | | |]; unfold float_ids; simpl.
  - rewrite fmap_app. apply NoDup_app. split_and!.
    + eapply sublist_NoDup; [exact Hfl | apply filter_fmap_sublist].
    + intros i Hi Hn. apply Hin in Hn as [_ Hn]. by apply Hn, retained_elem.
    + rewrite Hnew. case_decide; [by apply NoDup_filter | constructor].
  - intros i. rewrite fmap_app, elem_of_app, retained_elem. naive_solver.
  - intros i Hl Hi. rewrite fmap_app, elem_of_app, retained_elem, Hnew, decide_True by done.
    rewrite list_elem_of_filter. destruct (decide (i ∈ float_ids s)); naive_solver.
Qed.

Lemma recompute_root s : root (Space_.recompute_layout s) = root s.
Proof. unfold Space_.recompute_layout. by case_bool_decide. Qed.

Lemma wf_root_leaves next_id s : Wf next_id s -> NoDup (leaf_ids (root s)).
Proof. intros H. apply NoDup_leaf_ids, (wf_nodup _ _ H). Qed.

(** A well formed tab's layout is recomputed already. *)
Lemma recompute_id next_id s : Wf next_id s -> Space_.recompute_layout s = s.
Proof.
  intros H. destruct (recompute_spec s (wf_root_leaves _ _ H)) as (news & -> & _ & Hn).
  assert (news = []) as ->.
  { apply (fmap_nil_inv pane_id). rewrite Hn. case_decide as Hl; [| done].
    apply filter_false. intros i Hi Hno. by apply Hno, (wf_floats _ _ H). }
  rewrite app_nil_r. unfold Space_.retained. rewrite filter_true; [by destruct s |].
  intros p Hp. apply Is_true_true, existsb_elem.
  apply (wf_floating_leaf _ _ H). by apply list_elem_of_fmap_2.
Qed.
End SpaceProps.

(** ** The gestures of a tab *)

Module Gestures.
Import TreeProps RemoveProps SpaceProps.

Lemma bump_small n : (n + 1 < 2 ^ 64)%N -> bump n = (n + 1)%N.
Proof. apply N.mod_small. Qed.

(** What both ways of splitting do to the tree. *)
Definition splits (make : N -> N -> Pane -> option Pane) : Prop :=
  forall sid new p p', make sid new p = Some p' ->
    exists t k k' l1 l2,
      Tree.leaves p = l1 ++ (t, k) :: l2 /\ Tree.leaves p' = l1 ++ (t, k) :: (new, k') :: l2 /\
      ids p' ≡ₚ sid :: new :: ids p.

Lemma split_ids (sid new t : N) m1 m2 :
  m1 ++ [sid; t; new] ++ m2 ≡ₚ sid :: new :: m1 ++ t :: m2.
Proof. simpl. by rewrite <- Permutation_middle, (Permutation_swap new t m2), <- Permutation_middle. Qed.

Lemma split_leaf_into_splits t d k' : splits (fun sid new => Tree.split_leaf_into t d sid new k').
Proof.
  intros sid new p p' H.
  apply update_leaf_spec in H as (k & l1 & l2 & m1 & m2 & H1 & H2 & H3 & H4 & _).
  exists t, k, k', l1, l2. split_and!; [done | done |]. rewrite H3, H4. apply split_ids.
Qed.

Lemma split_leaf_splits t d : splits (Tree.split_leaf t d).
Proof.
  intros sid new p p' H.
  apply update_leaf_spec in H as (k & l1 & l2 & m1 & m2 & H1 & H2 & H3 & H4 & _).
  exists t, k, k, l1, l2. split_and!; [done | done |]. rewrite H3, H4. apply split_ids.
Qed.

Lemma wf_weaken next next' s : (next <= next')%N -> Wf next s -> Wf next' s.
Proof.
  intros Hle []. constructor; try done. eapply Forall_impl; [done |]. simpl. lia.
Qed.

Lemma fresh_not_in next i (l : list N) : Forall (fun i => i < next)%N l -> (next <= i)%N -> i ∉ l.
Proof. rewrite Forall_forall. intros H Hi Hin. specialize (H i Hin). simpl in H. lia. Qed.

Lemma split_by_wf make s next s' next' new :
  splits make -> Wf next s -> (next + 2 < 2 ^ 64)%N ->
  Space_.split_by make s next = (s', next', new) -> Wf next' s' /\ (next <= next' <= next + 2)%N.
Proof.
  intros Hm Hwf Hn. unfold Space_.split_by.
  rewrite (bump_small next), (bump_small (next + 1)) by lia.
  destruct (make _ _ _) as [r |] eqn:E; intros [=]; subst.
  - apply Hm in E as (t & k & k' & l1 & l2 & _ & _ & H3).
    destruct Hwf as [Hnd Hlt Hfl _ _]. split; [| lia].
    apply recompute_wf; simpl; [rewrite H3 | rewrite H3 | done].
    + apply (fresh_not_in next next) in Hlt as Hf; [| lia].
      apply (fresh_not_in next (next + 1)) in Hlt as Hf'; [| lia].
      rewrite !NoDup_cons, elem_of_cons. split_and!; [intros [? | ?]; [lia | done] | done | done].
    + rewrite !Forall_cons. split_and!; [lia | lia |]. eapply Forall_impl; [done |]. simpl. lia.
  - split; [| lia]. apply (wf_weaken next); [lia | done].
Qed.

(** An operation on the entries that keeps which panes have one. *)
Lemma set_floating_wf next s l :
  pane_id <$> l ≡ₚ float_ids s -> Wf next s -> Wf next (set_floating l s).
Proof.
  intros Hp []. constructor; simpl; unfold float_ids in *; simpl; try done.
  - by rewrite Hp.
  - intros i. rewrite Hp. auto.
  - intros i ??. rewrite Hp. auto.
Qed.

Lemma alter_pane_ids i f l :
  (forall p, pane_id (f p) = pane_id p) -> pane_id <$> Space_.alter_pane i f l = pane_id <$> l.
Proof.
  intros Hf. induction l as [| p l IH]; [done |]. cbn [Space_.alter_pane].
  destruct (Space_.is_pane i p); rewrite !fmap_cons; by rewrite ?Hf, ?IH.
Qed.

Lemma raise_wf next i s : Wf next s -> Wf next (Space_.raise_pane i s).
Proof.
  intros H. unfold Space_.raise_pane. destruct (list_find _ _) as [[n p] |] eqn:E; [| done].
  apply set_floating_wf; [| done]. apply list_find_Some in E as (E & _).
  apply fmap_Permutation. rewrite <- Permutation_cons_append. symmetry. by apply delete_Permutation.
Qed.

Lemma alter_wf next i f s :
  (forall p, pane_id (f p) = pane_id p) -> Wf next s ->
  Wf next (set_floating (Space_.alter_pane i f (floating s)) s).
Proof. intros Hf. apply set_floating_wf. by rewrite alter_pane_ids. Qed.

(** An operation on the tree that keeps its nodes and the row of its leaves. *)
Lemma set_root_wf next r s :
  ids r = ids (root s) -> leaf_ids r = leaf_ids (root s) -> Wf next s -> Wf next (set_root r s).
Proof.
  intros Hi Hl []. constructor; simpl; unfold float_ids in *; simpl; rewrite ?Hi; try done;
    intros i; rewrite Hl; auto.
Qed.

Lemma set_leaf_kind_wf next t k s s' :
  Space_.set_leaf_kind t k s = Some s' -> Wf next s -> Wf next s'.
Proof.
  unfold Space_.set_leaf_kind. intros (r & Hr & ->)%fmap_Some_1.
  apply update_leaf_spec in Hr as (k' & l1 & l2 & m1 & m2 & H1 & H2 & H3 & H4 & _).
  apply set_root_wf; [by rewrite H3, H4 | by rewrite H1, H2, !fmap_app].
Qed.

Lemma set_ratio_nodes t q p p' :
  Tree.set_ratio t q p = Some p' -> ids p' = ids p /\ Tree.leaves p' = Tree.leaves p.
Proof.
  revert p'. induction p as [i k | i d r a IHa b IHb]; intros p'; simpl; [done |].
  case_bool_decide; [by intros [=]; subst |].
  destruct (Tree.set_ratio t q a) as [a' |].
  - intros [=]; subst. simpl. by destruct (IHa _ eq_refl) as [-> ->].
  - intros (b' & Hb & ->)%fmap_Some_1. simpl. by destruct (IHb _ Hb) as [-> ->].
Qed.

Lemma set_all_dirs_nodes d p :
  ids (Tree.set_all_dirs d p) = ids p /\ Tree.leaves (Tree.set_all_dirs d p) = Tree.leaves p.
Proof. induction p as [| ??? a [IH1 IH2] b [IH3 IH4]]; simpl; [done |]. by rewrite IH1, IH2, IH3, IH4. Qed.

Lemma recompute_again_wf next s : Wf next s -> Wf next (Space_.recompute_layout s).
Proof. intros []. by apply recompute_wf. Qed.

Lemma set_layout_wf next l s : Wf next s -> Wf next (Space_.set_layout l s).
Proof.
  intros []. unfold Space_.set_layout. apply recompute_wf; [done | done |].
  unfold float_ids in *. simpl. case_bool_decide; [done |]. by rewrite <- list_fmap_compose.
Qed.

Lemma close_wf next t s s' n : Space_.close t s = (s', n) -> Wf next s -> Wf next s'.
Proof.
  unfold Space_.close. destruct (Tree.remove_leaf t (root s)) as [[r m] |] eqn:E; intros [=]; subst; [| done].
  apply remove_leaf_spec in E as (k & l1 & l2 & sid & H1 & H2 & H3 & H4). intros [Hnd Hlt Hfl _ _].
  rewrite H3 in Hnd, Hlt. rewrite !NoDup_cons in Hnd. rewrite !Forall_cons in Hlt.
  apply recompute_wf; simpl; [tauto | tauto |].
  unfold float_ids in *. eapply sublist_NoDup; [exact Hfl | apply filter_fmap_sublist].
Qed.

(** What a move does, on both answers. *)
Lemma move_pane_spec pane target side s next s' next' ok :
  Wf next s -> (next + 1 < 2 ^ 64)%N ->
  Space_.move_pane pane target side s next = (s', next', ok) ->
  (ok = false /\ s' = s /\ next' = next) \/
  (ok = true /\ next' = (next + 1)%N /\ Wf next' s' /\ Tree.leaves (root s') ≡ₚ Tree.leaves (root s) /\
   Tree.sibling_on_side (root s') target side = Some pane /\ layout s' = layout s).
Proof.
  intros Hwf Hn. unfold Space_.move_pane. rewrite bump_small by lia.
  case_bool_decide as Hpt; [intros [=]; subst; by left |].
  destruct (Tree.leaf_kind (root s) pane) as [k |] eqn:Ek; [| intros [=]; subst; by left].
  destruct (Tree.leaf_kind (root s) target) as [kt |] eqn:Et; [| intros [=]; subst; by left].
  case_bool_decide; [intros [=]; subst; by left |].
  destruct (Tree.remove_leaf pane (root s)) as [[r m] |] eqn:Er; [| intros [=]; subst; by left].
  apply remove_leaf_spec in Er as (k' & l1 & l2 & sid & H1 & H2 & H3 & _).
  pose proof (wf_root_leaves _ _ Hwf) as Hleaf. destruct Hwf as [Hnd Hlt Hfl _ _].
  assert (k' = k) as ->.
  { assert (Tree.leaf_kind (root s) pane = Some k') as He; [| congruence].
    apply leaf_kind_NoDup; [done |]. rewrite H1, elem_of_app. right. by left. }
  rewrite H3, !NoDup_cons in Hnd. destruct Hnd as (Hp & Hs & Hnd).
  rewrite H3, !Forall_cons in Hlt. destruct Hlt as (Hpn & Hsn & Hlt).
  assert (target ∈ leaf_ids r) as Htr.
  { apply leaf_kind_elem in Et. rewrite H1 in Et. rewrite H2, fmap_app, elem_of_app.
    rewrite elem_of_app, elem_of_cons in Et.
    destruct Et as [Et | [[=] | Et]]; [left | done | right]; by eapply list_elem_of_fmap_2'. }
  destruct (Tree.insert_leaf_beside _ _ _ _ _ r) as [r' |] eqn:Ei.
  2: { destruct (update_leaf_is_Some (fun id kind => if leads side
         then Split next (split_dir side) f_half (Leaf pane k) (Leaf id kind)
         else Split next (split_dir side) f_half (Leaf id kind) (Leaf pane k)) target r Htr) as [? Hs'].
       unfold Tree.insert_leaf_beside in Ei. congruence. }
  intros [=]; subst. right.
  pose proof (insert_sibling _ _ _ _ _ _ _ (NoDup_leaf_ids _ Hnd) Ei) as Hsib.
  apply update_leaf_spec in Ei as (kt' & m1 & m2 & n1 & n2 & H5 & H6 & H7 & H8 & _).
  assert (Tree.leaves r' ≡ₚ Tree.leaves (root s)) as Hleaves.
  { rewrite H1, <- Permutation_middle, <- H2, H5, H6. destruct (leads side); simpl; solve_Permutation. }
  assert (ids r' ≡ₚ next :: pane :: ids r) as Hids.
  { rewrite H7, H8. destruct (leads side); simpl; solve_Permutation. }
  destruct (recompute_spec (set_root r' s)) as (news & Hrec & _); [simpl; by rewrite Hleaves |].
  split_and!; [done | done | | by rewrite Hrec | by rewrite Hrec | by rewrite Hrec].
  apply recompute_wf; simpl; [| | done].
  - rewrite Hids, !NoDup_cons, elem_of_cons.
    apply (fresh_not_in next next) in Hlt as Hf; [| lia].
    split_and!; [intros [-> | ?]; [lia | done] | set_solver | done].
  - rewrite Hids, !Forall_cons. split_and!; [lia | lia |]. eapply Forall_impl; [done |]. simpl. lia.
Qed.
(** A move allocates at most the split it makes. *)
Lemma move_pane_nodes pane target side s next s' next' ok :
  Space_.move_pane pane target side s next = (s', next', ok) ->
  Wf next s -> (next + 1 < 2 ^ 64)%N ->
  forall x, x ∈ ids (root s') -> x ∈ ids (root s) \/ (next <= x)%N.
Proof.
  intros H Hwf Hn x. revert H. unfold Space_.move_pane.
  repeat (case_match; try by (intros [=]; subst; by left)).
  all: intros [=]; subst;
    match goal with E : Tree.remove_leaf _ _ = _ |- _ =>
      apply remove_leaf_spec in E as (k' & l1 & l2 & sid & _ & _ & Hr & _) end.
  - rewrite recompute_root. simpl.
    match goal with E : Tree.insert_leaf_beside _ _ _ _ _ _ = _ |- _ =>
      apply update_leaf_spec in E as (kt' & m1 & m2 & n1 & n2 & _ & _ & Hi & Hi' & _) end.
    rewrite Hi', Hr, Hi. destruct (leads side); simpl;
      rewrite !elem_of_app, !elem_of_cons, !elem_of_app, !elem_of_cons; naive_solver lia.
  - simpl. rewrite Hr. intros. left. by do 2 right.
Qed.
End Gestures.

(** The gestures a tab takes, with the counter that allocates its identifiers. *)
Inductive Gesture : Type :=
| GSplit (target : N) (dir : SplitDir)
| GSplitInto (target : N) (dir : SplitDir) (kind : PaneKind)
| GClose (target : N)
| GMove (pane target : N) (side : DropSide)
| GShow (target : N) (kind : PaneKind)
| GRatio (split : N) (ratio : f32)
| GDirection (dir : SplitDir)
| GLayout (l : LayoutKind)
| GRecompute
| GRect (pane : N) (r : PaneRect)
| GRaise (pane : N)
| GMinimize (pane : N)
| GRestore (pane : N).

Definition gesture (g : Gesture) (s : Space) (next : N) : Space * N :=
  match g with
  | GSplit t d => (Space_.split t d s next).1
  | GSplitInto t d k => (Space_.split_with_kind t d k s next).1
  | GClose t => ((Space_.close t s).1, next)
  | GMove p t side => (Space_.move_pane p t side s next).1
  | GShow t k => (default s (Space_.set_leaf_kind t k s), next)
  | GRatio t q => (default s (Space_.set_ratio t q s), next)
  | GDirection d => (Space_.set_layout_direction d s, next)
  | GLayout l => (Space_.set_layout l s, next)
  | GRecompute => (Space_.recompute_layout s, next)
  | GRect p r => (Space_.set_floating_rect p r s, next)
  | GRaise p => (Space_.raise_pane p s, next)
  | GMinimize p => (Space_.minimize_pane p s, next)
  | GRestore p => (Space_.restore_pane p s, next)
  end.

Module TabTheorems.
Import TreeProps RemoveProps SpaceProps Gestures.

(** A tab is well formed after every gesture: each node keeps an identifier
    of its own below the counter, the floating entries name distinct panes the
    tree has, and in the floating layout every pane has an entry.  The counter
    only grows, by at most two, while it is below [2^64 - 2]. *)
Theorem tab_stays_well_formed (g : Gesture) (s s' : Space) (next next' : N) :
  Wf next s -> (next + 2 < 2 ^ 64)%N -> gesture g s next = (s', next') ->
  Wf next' s' /\ (next <= next' <= next + 2)%N.
Proof.
  intros Hwf Hn. destruct g; simpl; intros Hg.
  - destruct (Space_.split _ _ _ _) as [[s1 n1] r] eqn:E. simplify_eq/=.
    eapply split_by_wf; [apply split_leaf_splits | done ..].
  - destruct (Space_.split_with_kind _ _ _ _ _) as [[s1 n1] r] eqn:E. simplify_eq/=.
    eapply split_by_wf; [apply split_leaf_into_splits | done ..].
  - simplify_eq. split; [| lia]. by eapply close_wf; [apply surjective_pairing |].
  - destruct (Space_.move_pane _ _ _ _ _) as [[s1 n1] r] eqn:E. simplify_eq/=.
    apply move_pane_spec in E as [(_ & -> & ->) | (_ & -> & H & _)]; [| | done | lia];
      (split; [done | lia]).
  - simplify_eq. split; [| lia]. destruct (Space_.set_leaf_kind _ _ s) eqn:E; [| done].
    by eapply set_leaf_kind_wf.
  - simplify_eq. split; [| lia]. unfold Space_.set_ratio.
    destruct (Tree.set_ratio _ _ (root s)) eqn:E; [| done]; simpl.
    apply set_ratio_nodes in E as [? E]. apply set_root_wf; [done | by rewrite E | done].
  - simplify_eq. split; [| lia].
    destruct (set_all_dirs_nodes dir (root s)) as [? E]. apply set_root_wf; [done | by rewrite E | done].
  - simplify_eq. split; [by apply set_layout_wf | lia].
  - simplify_eq. split; [by apply recompute_again_wf | lia].
  - simplify_eq. split; [by apply alter_wf | lia].
  - simplify_eq. split; [by apply raise_wf | lia].
  - simplify_eq. split; [by apply alter_wf | lia].
  - simplify_eq. split; [by apply raise_wf, alter_wf | lia].
Qed.

(** Moving a pane beside another either changes nothing, or keeps exactly
    the panes the tab had, with what they show, and puts the pane on the side of
    the target it was dropped on, so that dropping it there again changes
    nothing. *)
Theorem move_keeps_every_pane (pane target : N) (side : DropSide) (s s' : Space) (next next' : N)
    (ok : bool) :
  Wf next s -> (next + 1 < 2 ^ 64)%N ->
  Space_.move_pane pane target side s next = (s', next', ok) ->
  if ok then
    Tree.leaves (root s') ≡ₚ Tree.leaves (root s) /\
    Tree.sibling_on_side (root s') target side = Some pane /\
    Space_.move_pane pane target side s' next' = (s', next', false)
  else s' = s /\ next' = next.
Proof.
  intros Hwf Hn H. apply move_pane_spec in H as [(-> & -> & ->) | (-> & _ & _ & Hl & Hs & _)]; try done.
  split_and!; [done | done |]. unfold Space_.move_pane.
  rewrite (bool_decide_eq_true_2 _ Hs). by repeat case_match.
Qed.

(** Splitting a pane and closing the pane that opened gives the tab back as
    it was, with the focus where it came from. *)
Theorem split_then_close (target new next next' : N) (dir : SplitDir) (kind : PaneKind)
    (s s' : Space) :
  Wf next s -> (next + 2 < 2 ^ 64)%N ->
  Space_.split_with_kind target dir kind s next = (s', next', Some new) ->
  Space_.close new s' = (s, Some target).
Proof.
  intros Hwf Hn. unfold Space_.split_with_kind, Space_.split_by.
  rewrite (bump_small next), (bump_small (next + 1)) by lia.
  destruct (Tree.split_leaf_into _ _ _ _ _ _) as [r |] eqn:E; intros [=]; subst.
  assert (next + 1 ∉ ids (root s))%N as Hfresh by (eapply fresh_not_in; [apply Hwf | lia]).
  assert (next + 1 ∉ leaf_ids (root s))%N as Hleaf by (intros ?%leaf_id_in_ids; done).
  pose proof (remove_split_leaf _ _ _ _ _ _ _ Hleaf E) as Hrm.
  apply split_leaf_into_splits in E as (t & k & k' & l1 & l2 & H1 & H2 & H3).
  assert (leaf_ids r ≡ₚ (next + 1)%N :: leaf_ids (root s)) as Hl.
  { rewrite H1, H2, !fmap_app, !fmap_cons. cbn [fst]. solve_Permutation. }
  destruct (recompute_spec (set_root r s)) as (news & -> & _ & Hnew).
  { simpl. rewrite Hl, NoDup_cons. split; [done | apply (wf_root_leaves _ _ Hwf)]. }
  unfold Space_.close. cbn [root set_root set_floating]. rewrite Hrm. f_equal.
  match goal with |- Space_.recompute_layout (set_floating ?l _) = _ =>
    assert (l = floating s) as -> end.
  { simpl. rewrite filter_app. rewrite (filter_false _ news), app_nil_r.
    - unfold Space_.retained. simpl. rewrite !filter_true; [done | |].
      + intros p Hp. apply Is_true_true, existsb_elem. rewrite Hl. right.
        apply (wf_floating_leaf _ _ Hwf). by apply list_elem_of_fmap_2.
      + intros p [_ Hp]%list_elem_of_filter He. apply Hleaf. rewrite <- He.
        apply (wf_floating_leaf _ _ Hwf). by apply list_elem_of_fmap_2.
    - intros p Hp Hne. apply Hne. apply (list_elem_of_fmap_2 pane_id) in Hp. rewrite Hnew in Hp.
      simpl in Hp. case_decide; [| by apply elem_of_nil in Hp].
      apply list_elem_of_filter in Hp as [Hp1 Hp2]. rewrite Hl, elem_of_cons in Hp2.
      destruct Hp2 as [-> | Hp2]; [done |]. exfalso. by apply Hp1, (wf_floats _ _ Hwf). }
  destruct s. by apply (recompute_id next).
Qed.
End TabTheorems.

(** ** Where the focus goes *)

Module FocusProps.
Import TreeProps RemoveProps SpaceProps.
Section Focus.
Context {euclid : Euclid}.

(** [r] lies wholly on the [dir] side of [current]. *)
Definition beyond (dir : NavDir) (current r : RectF) : bool :=
  match dir with
  | NavUp => fle (max_y r) (min_y current)
  | NavDown => fle (max_y current) (min_y r)
  | NavLeft => fle (max_x r) (min_x current)
  | NavRight => fle (max_x current) (min_x r)
  end.

Lemma distances_beyond dir current r :
  beyond dir current r = match Space_.distances dir current r with Some _ => true | None => false end.
Proof. destruct dir; cbn [beyond Space_.distances]; by destruct (fle _ _). Qed.

(** A pane [nearest] may name. *)
Definition candidate (from : N) (dir : NavDir) (current : RectF) (c : N * RectF) : Prop :=
  c.1 <> from /\ beyond dir current c.2 = true.

(** What [nearest] names is what it was given or a candidate of the row, and it
    names nothing only when the row has none. *)
Definition settled from dir current (regions : list (N * RectF)) best (b : option (N * f32 * f32)) :=
  match b with
  | Some b => best = Some b \/ exists r, (b.1.1, r) ∈ regions /\ candidate from dir current (b.1.1, r)
  | None => best = None /\ forall c, c ∈ regions -> ~ candidate from dir current c
  end.

Lemma settled_cons_skip from dir current c regions best b :
  ~ candidate from dir current c ->
  settled from dir current regions best b -> settled from dir current (c :: regions) best b.
Proof.
  intros Hc. destruct b as [b |]; simpl.
  - intros [H | (r & Hin & H)]; [by left | right]. exists r. split; [by right | done].
  - intros [-> H]. split; [done |]. intros c' [-> | Hin]%elem_of_cons; eauto.
Qed.

Lemma nearest_settled from dir current regions best :
  settled from dir current regions best (Space_.nearest from dir current regions best).
Proof.
  revert best. induction regions as [| [i r] regions IH]; intros best; simpl.
  { destruct best; simpl; [by left | split; [done |]]. by intros ? ?%elem_of_nil. }
  case_bool_decide as Hi; [apply settled_cons_skip, IH; by intros [] |].
  pose proof (distances_beyond dir current r) as Hb.
  destruct (Space_.distances dir current r) as [[p q] |]; cycle 1.
  { apply settled_cons_skip, IH. intros [_ H]. simpl in H. congruence. }
  assert (candidate from dir current (i, r)) as Hc by done.
  assert ((i, r) ∈ (i, r) :: regions) as Hin by (by left).
  destruct (Space_.better best p q) eqn:E.
  - specialize (IH (Some (i, p, q))). destruct (Space_.nearest _ _ _ _ _) as [b |]; simpl in *.
    + destruct IH as [[= <-] | (r' & H1 & H2)]; right; [by exists r |].
      exists r'. split; [by right | done].
    + by destruct IH as [? _].
  - specialize (IH best). destruct (Space_.nearest _ _ _ _ _) as [b |]; simpl in *.
    + destruct IH as [-> | (r' & H1 & H2)]; [by left | right].
      exists r'. split; [by right | done].
    + destruct IH as [-> _]. by simpl in E.
Qed.

(** *** The panes a layout places *)

Lemma collect_regions_ids p rect : (Tree.collect_regions p rect).*1 = leaf_ids p.
Proof.
  revert rect. induction p as [| i d r a IHa b IHb]; intros rect; simpl; [done |].
  destruct d; simpl; by rewrite !fmap_app, IHa, IHb.
Qed.

Lemma master_stack_ids leaves : (Geometry.master_stack_regions leaves).*1 = leaves.*1.
Proof.
  destruct leaves as [| [m k] rest]; [done |]. unfold Geometry.master_stack_regions.
  rewrite !fmap_cons. cbn [fst]. f_equal. rewrite fmap_imap.
  apply list_eq. intros n. rewrite list_lookup_imap, list_lookup_fmap. by destruct (rest !! n).
Qed.

(** Every layout but the floating one places every pane once; the floating one
    places the windows that are not docked. *)
Lemma layout_regions_ids s :
  layout s <> Carousel ->
  (Space_.layout_regions s).*1 =
    if decide (layout s = Floating)
    then pane_id <$> base.filter (fun p => negb (minimized p) && Tree.contains_leaf (root s) (pane_id p))
                       (floating s)
    else leaf_ids (root s).
Proof.
  intros Hc. unfold Space_.layout_regions. destruct (layout s) eqn:E; try done; case_decide; try done.
  - apply collect_regions_ids.
  - apply master_stack_ids.
  - by rewrite <- list_fmap_compose.
Qed.

Lemma find_pane_NoDup (l : list FloatingPane) p :
  NoDup (pane_id <$> l) -> p ∈ l -> exists n, list_find (Space_.is_pane (pane_id p)) l = Some (n, p).
Proof.
  intros Hnd Hin. destruct (list_find_elem_of (Space_.is_pane (pane_id p)) l p) as [[n q] E];
    [done | by apply Is_true_true, bool_decide_eq_true_2 |].
  exists n. rewrite E. repeat f_equal. apply list_find_Some in E as (Hq & Hid & _).
  apply Is_true_true, bool_decide_eq_true in Hid. apply list_elem_of_lookup in Hin as [m Hm].
  assert (n = m) as ->; [| congruence].
  eapply NoDup_lookup; [done | by rewrite list_lookup_fmap, Hq | by rewrite list_lookup_fmap, Hm, Hid].
Qed.

(** On screen: a leaf of the tree, and no docked window. *)
Definition on_screen (s : Space) (i : N) : Prop :=
  i ∈ leaf_ids (root s) /\ (layout s = Floating -> Space_.pane_minimized s i = false).

Lemma regions_on_screen next s i :
  Wf next s -> layout s <> Carousel -> i ∈ (Space_.layout_regions s).*1 -> on_screen s i.
Proof.
  intros Hwf Hc. rewrite layout_regions_ids by done. unfold on_screen. case_decide as Hl; [| done].
  intros (p & -> & [[Hm Hin]%Is_true_true%andb_true_iff Hp]%list_elem_of_filter)%list_elem_of_fmap.
  split; [by apply contains_leaf_spec |]. intros _.
  unfold Space_.pane_minimized, Space_.floating_pane.
  destruct (find_pane_NoDup (floating s) p) as [n ->]; [apply Hwf | done |].
  simpl. by apply negb_true_iff.
Qed.

(** An arrow moves the focus to another pane that is on screen and lies
    wholly on that side of the focused one; it stays put only when no pane of
    the layout does, or when the focused pane is not placed at all. *)
Theorem arrow_finds_a_pane_that_way (s : Space) (next from : N) (dir : NavDir) :
  Wf next s -> layout s <> Carousel ->
  match Space_.navigate s from dir with
  | Some to =>
      to <> from /\ on_screen s to /\
      exists current r, (from, current) ∈ Space_.layout_regions s /\
        (to, r) ∈ Space_.layout_regions s /\ beyond dir current r = true
  | None =>
      from ∉ (Space_.layout_regions s).*1 \/
      exists current, (from, current) ∈ Space_.layout_regions s /\
        forall to r, (to, r) ∈ Space_.layout_regions s -> to <> from -> beyond dir current r = false
  end.
Proof.
  intros Hwf Hc. unfold Space_.navigate. rewrite bool_decide_eq_false_2 by done.
  destruct (list_find _ _) as [[n [i current]] |] eqn:E.
  - apply list_find_Some in E as (Hn & Hi & _). simpl in Hi. subst i.
    apply list_elem_of_lookup_2 in Hn.
    pose proof (nearest_settled from dir current (Space_.layout_regions s) None) as H.
    destruct (Space_.nearest _ _ _ _ _) as [b |]; simpl in *.
    + destruct H as [? | (r & Hin & Hne & Hb)]; [done |].
      split_and!; [done | | by exists current, r].
      eapply regions_on_screen; [done | done |]. by eapply list_elem_of_fmap_2'.
    + right. exists current. split; [done |]. intros to r Hin Hne. apply not_true_iff_false. intros Hb.
      by apply (proj2 H (to, r)).
  - left. apply list_find_None in E. intros (c & -> & Hin)%list_elem_of_fmap.
    rewrite Forall_forall in E. by apply (E c).
Qed.

(** *** The carousel *)

Lemma lookup_fst_elem {A B} (l : list (A * B)) n a b : l !! n = Some (a, b) -> a ∈ l.*1.
Proof. intros H. apply list_elem_of_lookup. exists n. by rewrite list_lookup_fmap, H. Qed.

Lemma position_lookup (leaves : list (N * PaneKind)) n i k :
  NoDup leaves.*1 -> leaves !! n = Some (i, k) ->
  position (fun leaf => bool_decide (leaf.1 = i)) leaves = Some n.
Proof.
  revert n. induction leaves as [| [j k'] leaves IH]; intros n Hnd Hn; [done |].
  rewrite fmap_cons, NoDup_cons in Hnd. destruct Hnd as [Hj Hnd].
  destruct n as [| n]; simpl in *; simplify_eq; [by rewrite bool_decide_eq_true_2 |].
  rewrite bool_decide_eq_false_2; [by rewrite (IH n) |].
  intros ->. apply Hj. by eapply lookup_fst_elem.
Qed.

Lemma position_Some_lookup {A} (p : A -> bool) l n :
  position p l = Some n -> exists x, l !! n = Some x /\ p x = true.
Proof.
  revert n. induction l as [| x l IH]; intros n; simpl; [done |].
  destruct (p x) eqn:E; [intros [=]; subst; by exists x |].
  intros (m & Hm & ->)%fmap_Some_1. destruct (IH _ Hm) as (y & ? & ?). by exists y.
Qed.

Definition opposite (dir : NavDir) : NavDir :=
  match dir with NavUp => NavDown | NavDown => NavUp | NavLeft => NavRight | NavRight => NavLeft end.

Lemma ring_back n len step : n < len -> step <= len -> 0 < step ->
  ((n + step) mod len + (len - step)) mod len = n.
Proof.
  intros Hn Hs H0. destruct (decide (n + step < len)).
  - rewrite (Nat.mod_small (n + step)) by lia. replace (n + step + (len - step)) with (n + 1 * len) by lia.
    rewrite Nat.Div0.mod_add. by apply Nat.mod_small.
  - replace (n + step) with ((n + step - len) + 1 * len) at 1 by lia. rewrite Nat.Div0.mod_add.
    rewrite (Nat.mod_small (n + step - len)) by lia. replace (n + step - len + (len - step)) with n by lia.
    by apply Nat.mod_small.
Qed.

(** The carousel is a ring: with two panes or more every arrow moves the
    focus, and the opposite arrow moves it back. *)
Theorem carousel_arrows_are_inverse (s : Space) (next from : N) (dir : NavDir) :
  Wf next s -> layout s = Carousel -> from ∈ leaf_ids (root s) -> 1 < Tree.leaf_count (root s) ->
  exists to, Space_.navigate s from dir = Some to /\ to ∈ leaf_ids (root s) /\
    Space_.navigate s to (opposite dir) = Some from.
Proof.
  intros Hwf Hl Hin Hn. rewrite leaf_count_leaves in Hn. pose proof (wf_root_leaves _ _ Hwf) as Hnd.
  unfold Space_.navigate. rewrite bool_decide_eq_true_2 by done.
  destruct (Nat.ltb_spec (length (Tree.leaves (root s))) 2) as [? | _]; [lia |].
  set (l := Tree.leaves (root s)) in *. apply list_elem_of_lookup in Hin as [n Hi].
  rewrite list_lookup_fmap in Hi. apply fmap_Some in Hi as ([i k] & Hi & ->).
  pose proof (lookup_lt_Some _ _ _ Hi) as Hlt. simpl.
  rewrite (position_lookup l n i k) by done.
  set (step := fun d => match d with NavLeft | NavUp => length l - 1 | NavRight | NavDown => 1 end).
  assert (forall d, 0 < step d <= length l) as Hstep by (intros []; simpl; lia).
  assert (step (opposite dir) = length l - step dir) as Hop by (destruct dir; simpl; lia).
  fold (step dir) (step (opposite dir)).
  destruct (lookup_lt_is_Some_2 l ((n + step dir) mod length l)) as [[j k'] Hj].
  { apply Nat.mod_upper_bound. lia. }
  exists j. rewrite Hj. split_and!; [done | by eapply lookup_fst_elem |].
  rewrite (position_lookup l _ j k' Hnd Hj), Hop, ring_back by (try done; apply Hstep).
  by rewrite Hi.
Qed.
End Focus.
End FocusProps.

(** ** Where windows may sit *)

Module BoundsProps.
Import TreeProps RemoveProps SpaceProps Gestures.

(** Between two bounds, or not a number at all. *)
Definition in_bounds (lo hi a : f32) : Prop := is_nan a = true \/ within lo hi a.

(** A window inside the unit square, no smaller than a fifth of it either way. *)
Definition rect_ok (r : PaneRect) : Prop :=
  in_bounds Geometry.MIN_W f1 (rw r) /\ in_bounds Geometry.MIN_H f1 (rh r) /\
  in_bounds f0 (fmax (fsub f1 (rw r)) f0) (rx r) /\ in_bounds f0 (fmax (fsub f1 (rh r)) f0) (ry r).

Fixpoint ratios (p : Pane) : list f32 :=
  match p with
  | Leaf _ _ => []
  | Split _ _ q a b => q :: ratios a ++ ratios b
  end.

Definition ratio_ok (q : f32) : Prop := in_bounds Tree.MIN_RATIO Tree.MAX_RATIO q.

Definition InBounds (s : Space) : Prop :=
  Forall (fun p => rect_ok (rect p)) (floating s) /\ Forall ratio_ok (ratios (root s)).

Lemma fclamp_in_bounds a lo hi : fle lo hi = true -> in_bounds lo hi (fclamp a lo hi).
Proof.
  intros Hb. destruct (is_nan a) eqn:E; [left | right; by apply fclamp_within].
  destruct a; try done. by rewrite fclamp_nan.
Qed.

Lemma fle_fmax_0 a : fle f0 (fmax a f0) = true.
Proof.
  unfold fmax. destruct (is_nan a) eqn:Ea; [done |]. simpl. destruct (flt a f0) eqn:E; [done |].
  by apply not_flt_fle.
Qed.

Lemma clamped_ok r : rect_ok (Geometry.clamped r).
Proof.
  unfold rect_ok, Geometry.clamped. simpl.
  split_and!; apply fclamp_in_bounds; try apply fle_fmax_0; reflexivity.
Qed.

Definition within_bool (lo hi a : f32) : bool := fle lo a && fle a hi.
Definition rect_inside (r : PaneRect) : bool :=
  within_bool Geometry.MIN_W f1 (rw r) && within_bool Geometry.MIN_H f1 (rh r)
  && within_bool f0 (fmax (fsub f1 (rw r)) f0) (rx r)
  && within_bool f0 (fmax (fsub f1 (rh r)) f0) (ry r).

Lemma rect_inside_ok r : rect_inside r = true -> rect_ok r.
Proof.
  unfold rect_inside, within_bool, rect_ok, in_bounds, within. rewrite !andb_true_iff. tauto.
Qed.

Lemma default_rects_inside :
  forallb (fun n => rect_inside (Geometry.default_floating_rect n)) (seq 0 8) = true.
Proof. by vm_compute. Qed.

Lemma default_rect_ok n : rect_ok (Geometry.default_floating_rect n).
Proof.
  pose proof default_rects_inside as H. rewrite forallb_forall in H.
  pose proof (Nat.mod_upper_bound n 8) as Hn.
  assert (Geometry.default_floating_rect n = Geometry.default_floating_rect (n mod 8)) as ->.
  { unfold Geometry.default_floating_rect. by rewrite Nat.Div0.mod_mod. }
  apply rect_inside_ok, H, in_seq. lia.
Qed.

Lemma half_ok : ratio_ok f_half.
Proof. right. split; by vm_compute. Qed.

Lemma place_ok index leaves l :
  Forall (fun p => rect_ok (rect p)) l -> Forall (fun p => rect_ok (rect p)) (Space_.place index leaves l).
Proof.
  revert index l. induction leaves as [| [i k] leaves IH]; intros index l H; simpl; [done |].
  apply IH. destruct (existsb _ l); [done |]. apply Forall_app. split; [done |].
  constructor; [apply default_rect_ok | done].
Qed.

Lemma recompute_in_bounds s : InBounds s -> InBounds (Space_.recompute_layout s).
Proof.
  intros [Hf Hr]. split; [| by unfold Space_.recompute_layout; case_bool_decide].
  unfold Space_.recompute_layout.
  assert (Forall (fun p => rect_ok (rect p)) (Space_.retained s)) by (by apply Forall_filter).
  case_bool_decide; simpl; [by apply place_ok | done].
Qed.

(** Replacing a leaf keeps the other splits' ratios. *)
Lemma update_leaf_ratios f t p p' :
  (forall k, Forall ratio_ok (ratios (f t k))) -> Tree.update_leaf f t p = Some p' ->
  Forall ratio_ok (ratios p) -> Forall ratio_ok (ratios p').
Proof.
  intros Hf. revert p'. induction p as [i k | i d r a IHa b IHb]; intros p'; simpl.
  - by case_bool_decide; intros [=]; subst.
  - destruct (Tree.update_leaf f t a) as [a' |]; [intros [=]; subst |
      intros (b' & Hb & ->)%fmap_Some_1]; simpl; rewrite !Forall_cons, !Forall_app; naive_solver.
Qed.

Lemma remove_leaf_ratios t p p' n :
  Tree.remove_leaf t p = Some (p', n) -> Forall ratio_ok (ratios p) -> Forall ratio_ok (ratios p').
Proof.
  revert p' n. induction p as [i k | i d r a IHa b IHb]; intros p' n; simpl; [done |].
  rewrite Forall_cons, Forall_app.
  destruct (Tree.is_leaf a t); [intros [=]; subst; tauto |].
  destruct (Tree.is_leaf b t); [intros [=]; subst; tauto |].
  destruct (Tree.remove_leaf t a) as [[a' m] |].
  { intros [=]; subst; simpl. rewrite Forall_cons, Forall_app. naive_solver. }
  destruct (Tree.remove_leaf t b) as [[b' m] |]; [| done].
  intros [=]; subst; simpl. rewrite Forall_cons, Forall_app. naive_solver.
Qed.

Lemma set_ratio_ratios t q p p' :
  Tree.set_ratio t q p = Some p' -> Forall ratio_ok (ratios p) -> Forall ratio_ok (ratios p').
Proof.
  revert p'. induction p as [i k | i d r a IHa b IHb]; intros p'; simpl; [done |].
  case_bool_decide.
  { intros [=]; subst. simpl. rewrite !Forall_cons. intros [_ ?]. split; [| done].
    by apply fclamp_in_bounds. }
  destruct (Tree.set_ratio t q a) as [a' |]; [intros [=]; subst |
    intros (b' & Hb & ->)%fmap_Some_1]; simpl; rewrite !Forall_cons, !Forall_app; naive_solver.
Qed.

Lemma set_all_dirs_ratios d p : ratios (Tree.set_all_dirs d p) = ratios p.
Proof. induction p as [| ??? a IHa b IHb]; simpl; [done |]. by rewrite IHa, IHb. Qed.

Lemma alter_pane_ok i f l :
  (forall p, rect_ok (rect p) -> rect_ok (rect (f p))) ->
  Forall (fun p => rect_ok (rect p)) l -> Forall (fun p => rect_ok (rect p)) (Space_.alter_pane i f l).
Proof.
  intros Hf. induction 1 as [| p l Hp Hl IH]; simpl; [done |].
  destruct (Space_.is_pane i p); constructor; auto.
Qed.

Lemma raise_in_bounds i s : InBounds s -> InBounds (Space_.raise_pane i s).
Proof.
  intros [Hf Hr]. unfold Space_.raise_pane. destruct (list_find _ _) as [[n p] |] eqn:E; [| done].
  apply list_find_Some in E as (E & _). split; [| done]. simpl.
  apply Forall_app. split; [by apply Forall_delete | constructor; [| done]].
  by eapply (Forall_lookup_1 (fun p => rect_ok (rect p))).
Qed.

Lemma split_by_in_bounds make s next :
  (forall sid new p', make sid new (root s) = Some p' -> Forall ratio_ok (ratios (root s)) ->
     Forall ratio_ok (ratios p')) ->
  InBounds s -> InBounds (Space_.split_by make s next).1.1.
Proof.
  intros Hm [Hf Hr]. unfold Space_.split_by. destruct (make _ _ _) as [r |] eqn:E; simpl; [| done].
  apply recompute_in_bounds. split; [done | by eapply Hm].
Qed.

Lemma move_in_bounds pane target side s next :
  InBounds s -> InBounds (Space_.move_pane pane target side s next).1.1.
Proof.
  intros H. unfold Space_.move_pane. repeat (case_match; simpl; try done).
  all: destruct H as [Hf Hr];
    match goal with E : Tree.remove_leaf _ _ = _ |- _ => apply remove_leaf_ratios in E as Hp; [| done] end.
  - apply recompute_in_bounds. split; [done |]. simpl.
    match goal with E : Tree.insert_leaf_beside _ _ _ _ _ _ = _ |- _ =>
      apply update_leaf_ratios in E; [done | | done] end.
    intros k'. destruct (leads side); simpl; constructor; try done; apply half_ok.
  - by split.
Qed.

(** No gesture parks a window where it cannot be reached: every floating
    rectangle stays inside the unit square and at least a fifth of it on either
    axis, and every divider stays within 5 % and 95 % of its split — but for a
    coordinate that is not a number, which clamping does not touch. *)
Theorem windows_stay_reachable (g : Gesture) (s : Space) (next : N) :
  InBounds s -> InBounds (gesture g s next).1.
Proof.
  intros H. pose proof H as [Hf Hr]. destruct g; simpl.
  - apply split_by_in_bounds; [| done]. intros sid new p' E. eapply update_leaf_ratios, E.
    intros k. repeat constructor; apply half_ok.
  - apply split_by_in_bounds; [| done]. intros sid new p' E. eapply update_leaf_ratios, E.
    intros k. repeat constructor; apply half_ok.
  - unfold Space_.close. destruct (Tree.remove_leaf _ _) as [[r n] |] eqn:E; [| done]. simpl.
    apply recompute_in_bounds. split; [by apply Forall_filter | by eapply remove_leaf_ratios].
  - by apply move_in_bounds.
  - unfold Space_.set_leaf_kind. destruct (Tree.set_leaf_kind _ _ _) as [r |] eqn:E; simpl; [| done].
    split; [done |]. eapply update_leaf_ratios, Hr; [| done]. by intros k; constructor.
  - unfold Space_.set_ratio. destruct (Tree.set_ratio _ _ _) as [r |] eqn:E; simpl; [| done].
    split; [done | by eapply set_ratio_ratios].
  - split; [done |]. simpl. by rewrite set_all_dirs_ratios.
  - apply recompute_in_bounds. split; [| done]. simpl. case_bool_decide; [done |].
    by apply Forall_fmap.
  - by apply recompute_in_bounds.
  - split; [| done]. apply alter_pane_ok; [intros; apply clamped_ok | done].
  - by apply raise_in_bounds.
  - split; [| done]. by apply alter_pane_ok.
  - apply raise_in_bounds. split; [| done]. by apply alter_pane_ok.
Qed.
End BoundsProps.
