(* ===== verification/Workspace.v ===== *)
(** The window's workspace (app/src/state/ui_state, app/src/actions, app/src/control):
    the tabs, which pane holds the focus, what each pane owns, and the gestures
    that reshape them.

    The state is [UiState], the fields of the app's state these operations read or
    write, in groups.  It leaves out what only draws: hover flags, scroll offsets,
    selections, menus and the settings rail's focus.  The operations are those of a
    window without a store ([desktop] is [None]): with one, each also re-reads the
    transcript of the pane on screen and saves the layout, and saving is
    [Persistence.save_panes].  An identifier lookup in a tree that holds the space
    at its index is total here, as [spaces[index]] is where the code guards it. *)

From Stdlib Require Import ZArith SpecFloat.
From stdpp Require Import base gmap list.
From S2P Require Import Prelude Floats Panes.

Open Scope nat_scope.

(** Types of the app and its libraries whose values these operations only store
    and copy: transcript rows, questions, proposals. *)
Class Ui : Type := {
  ChatMessage : Type;
  AskUserUi : Type;
  CommandProposalUi : Type;
}.

Definition demo_ui : Ui :=
  {| ChatMessage := nat; AskUserUi := nat; CommandProposalUi := nat |}.

Inductive AppTab : Type :=
| TabChat | TabProjects | TabWorkflows | TabExecutions | TabTimeline | TabCosts | TabMcps.

#[export] Instance AppTab_eq_dec : EqDecision AppTab.
Proof. solve_decision. Defined.

Record PaneSession : Type := mkSession {
  conversation_id : Str;
  draft : Str;
  path : Str;
  daemon_session_id : Str;
}.

Record SshSession : Type := mkSsh {
  host : Str; user : Str; port : N; alias : option Str;
}.
Record SshPaneBinding : Type := mkBinding {
  host_name : option Str; session : option SshSession; reconnect : option Str;
}.

(** [TerminalRegistry]: [sessions], [input], [modes] and [ui] by the panes that
    have one; [killed] is the panes whose daemon session was killed, in order. *)
Record TerminalRegistry : Type := mkTerminal {
  sessions : gset N;
  input : gset N;
  modes : gset N;
  ssh_sessions : gmap N SshSession;
  session_ids : gmap N Str;
  term_ui : gset N;
  killed : list N;
}.

Inductive InboxKind : Type := Approval | Question | Done | Error | Agent | Task.
#[export] Instance InboxKind_eq_dec : EqDecision InboxKind.
Proof. solve_decision. Defined.

(** A file buffer: the live text and the text on disk.  The caret, the line
    count and the change stamp are not part of it. *)
Record FileBuffer : Type := mkBuffer {
  buf_path : Str;
  text : Str;
  saved : Str;
  dirty : bool;
  read_only : option Str;
  written : bool;
  buf_error : option Str;
  buf_status : option Str;
}.

(** The disk: what each file holds, and the reason the system refuses to write
    one.  A refused write leaves the file as it was. *)
Record Fs : Type := mkFs { contents : gmap Str Str; refuses : Str -> option Str }.
Definition fs_write (p t : Str) (d : Fs) : Fs + Str :=
  match refuses d p with
  | Some e => inr e
  | None => inl (mkFs (<[p := t]> (contents d)) (refuses d))
  end.

(** A lifted pane; the ghost's title is not part of it. *)
Record PaneDrag : Type := mkPaneDrag {
  lifted : N;
  source_space : nat;
  origin : Vector2F;
  drag_position : Vector2F;
  drop_index : option nat;
  drop_target : option PaneDropTarget;
}.

Record PaneMove : Type := mkMove { tab : nat; reset_pane : option N }.
Inductive PaneDrop : Type := NewTab (m : PaneMove) | MovedInSpace | Cancelled.

Section Ui.
Context {ui : Ui} {externs : Externs}.

Record InboxItem : Type := mkInbox {
  inbox_id : Str;
  inbox_pane : N;
  inbox_space : nat;
  inbox_conversation : Str;
  inbox_kind : InboxKind;
  inbox_title : Str;
  inbox_detail : Str;
  inbox_created_at : Instant;
  acknowledged : bool;
}.

(** The fields of a pane's runtime the workspace reads. *)
Record PaneRuntime : Type := mkRuntime {
  rt_messages : list ChatMessage;
  rt_pending_ask : option AskUserUi;
  rt_pending_command : option CommandProposalUi;
  rt_queued_prompt : option Str;
  rt_busy : bool;
}.

(** A conversation of the sidebar. *)
Record ConversationEntry : Type := mkEntry { entry_id : Str; entry_name : Str }.

(** The tab strip and the focus. *)
Record Tabs : Type := mkTabs {
  spaces : list Space;
  active_space : nat;
  active_pane_id : N;
  next_pane_id : N;
  maximized_pane : option N;
  current_tab : AppTab;
}.

(** The pointer gestures in progress. *)
Record Drags : Type := mkDrags {
  pane_drag : option PaneDrag;
  dragging_pane_id : option N;
  floating_drag : option FloatingDrag;
}.

(** What panes own, by pane. *)
Record Owned : Type := mkOwned {
  pane_sessions : gmap N PaneSession;
  pane_runtime : gmap N PaneRuntime;
  sub_agent_views : gset N;
  pane_workers : gset N;
  pane_ssh : gmap N SshPaneBinding;
  ssh_reconnect_prompt : option (N * Str);
  inbox : list InboxItem;
  inbox_index : nat;
  inbox_error : option Str;
  next_inbox_id : N;
  terminal : TerminalRegistry;
  pane_attachments : gmap N (list Str);
}.

(** Open files; the buffers in the order the map is iterated. *)
Record Files : Type := mkFiles {
  pane_open_files : gmap N (list Str);
  file_buffers : list ((N * Str) * FileBuffer);
  pending_close_pane : option N;
  pending_close_file : option (N * Str);
  auto_save_on_close : bool;
  disk : Fs;
}.

(** What the window shows of the active pane. *)
Record Front : Type := mkFront {
  conversations : list ConversationEntry;
  selected_id : option Str;
  composer_draft : Str;
  composer_path : Str;
  composer_focused : bool;
  chat_messages : list ChatMessage;
  pending_ask : option AskUserUi;
  queued_prompt : option Str;
  agent_busy : bool;
}.

Record UiState : Type := mkUi {
  tabs : Tabs;
  drags : Drags;
  owned : Owned;
  file_state : Files;
  front : Front;
}.

Definition on_tabs (f : Tabs -> Tabs) (s : UiState) : UiState :=
  mkUi (f (tabs s)) (drags s) (owned s) (file_state s) (front s).
Definition on_drags (f : Drags -> Drags) (s : UiState) : UiState :=
  mkUi (tabs s) (f (drags s)) (owned s) (file_state s) (front s).
Definition on_owned (f : Owned -> Owned) (s : UiState) : UiState :=
  mkUi (tabs s) (drags s) (f (owned s)) (file_state s) (front s).
Definition on_file_state (f : Files -> Files) (s : UiState) : UiState :=
  mkUi (tabs s) (drags s) (owned s) (f (file_state s)) (front s).
Definition on_front (f : Front -> Front) (s : UiState) : UiState :=
  mkUi (tabs s) (drags s) (owned s) (file_state s) (f (front s)).

Definition set_spaces (x : list Space) : UiState -> UiState := on_tabs (fun r => mkTabs x
  (active_space r) (active_pane_id r) (next_pane_id r) (maximized_pane r) (current_tab r)).
Definition set_active_space (x : nat) : UiState -> UiState := on_tabs (fun r => mkTabs (spaces r)
  x (active_pane_id r) (next_pane_id r) (maximized_pane r) (current_tab r)).
Definition set_active_pane_id (x : N) : UiState -> UiState := on_tabs (fun r => mkTabs (spaces r)
  (active_space r) x (next_pane_id r) (maximized_pane r) (current_tab r)).
Definition set_next_pane_id (x : N) : UiState -> UiState := on_tabs (fun r => mkTabs (spaces r)
  (active_space r) (active_pane_id r) x (maximized_pane r) (current_tab r)).
Definition set_maximized_pane (x : option N) : UiState -> UiState := on_tabs (fun r => mkTabs
  (spaces r) (active_space r) (active_pane_id r) (next_pane_id r) x (current_tab r)).
Definition set_current_tab (x : AppTab) : UiState -> UiState := on_tabs (fun r => mkTabs (spaces
  r) (active_space r) (active_pane_id r) (next_pane_id r) (maximized_pane r) x).

Definition set_pane_drag (x : option PaneDrag) : UiState -> UiState := on_drags (fun r => mkDrags
  x (dragging_pane_id r) (floating_drag r)).
Definition set_dragging_pane_id (x : option N) : UiState -> UiState := on_drags (fun r => mkDrags
  (pane_drag r) x (floating_drag r)).
Definition set_floating_drag (x : option FloatingDrag) : UiState -> UiState := on_drags (fun r =>
  mkDrags (pane_drag r) (dragging_pane_id r) x).

Definition set_pane_sessions (x : gmap N PaneSession) : UiState -> UiState := on_owned (fun r =>
  mkOwned x (pane_runtime r) (sub_agent_views r) (pane_workers r) (pane_ssh r)
  (ssh_reconnect_prompt r) (inbox r) (inbox_index r) (inbox_error r) (next_inbox_id r) (terminal
  r) (pane_attachments r)).
Definition set_pane_runtime (x : gmap N PaneRuntime) : UiState -> UiState := on_owned (fun r =>
  mkOwned (pane_sessions r) x (sub_agent_views r) (pane_workers r) (pane_ssh r)
  (ssh_reconnect_prompt r) (inbox r) (inbox_index r) (inbox_error r) (next_inbox_id r) (terminal
  r) (pane_attachments r)).
Definition set_sub_agent_views (x : gset N) : UiState -> UiState := on_owned (fun r => mkOwned
  (pane_sessions r) (pane_runtime r) x (pane_workers r) (pane_ssh r) (ssh_reconnect_prompt r)
  (inbox r) (inbox_index r) (inbox_error r) (next_inbox_id r) (terminal r) (pane_attachments r)).
Definition set_pane_workers (x : gset N) : UiState -> UiState := on_owned (fun r => mkOwned
  (pane_sessions r) (pane_runtime r) (sub_agent_views r) x (pane_ssh r) (ssh_reconnect_prompt r)
  (inbox r) (inbox_index r) (inbox_error r) (next_inbox_id r) (terminal r) (pane_attachments r)).
Definition set_pane_ssh (x : gmap N SshPaneBinding) : UiState -> UiState := on_owned (fun r =>
  mkOwned (pane_sessions r) (pane_runtime r) (sub_agent_views r) (pane_workers r) x
  (ssh_reconnect_prompt r) (inbox r) (inbox_index r) (inbox_error r) (next_inbox_id r) (terminal
  r) (pane_attachments r)).
Definition set_ssh_reconnect_prompt (x : option (N * Str)) : UiState -> UiState := on_owned (fun r
  => mkOwned (pane_sessions r) (pane_runtime r) (sub_agent_views r) (pane_workers r) (pane_ssh r)
  x (inbox r) (inbox_index r) (inbox_error r) (next_inbox_id r) (terminal r) (pane_attachments
  r)).
Definition set_inbox (x : list InboxItem) : UiState -> UiState := on_owned (fun r => mkOwned
  (pane_sessions r) (pane_runtime r) (sub_agent_views r) (pane_workers r) (pane_ssh r)
  (ssh_reconnect_prompt r) x (inbox_index r) (inbox_error r) (next_inbox_id r) (terminal r)
  (pane_attachments r)).
Definition set_inbox_index (x : nat) : UiState -> UiState := on_owned (fun r => mkOwned
  (pane_sessions r) (pane_runtime r) (sub_agent_views r) (pane_workers r) (pane_ssh r)
  (ssh_reconnect_prompt r) (inbox r) x (inbox_error r) (next_inbox_id r) (terminal r)
  (pane_attachments r)).
Definition set_inbox_error (x : option Str) : UiState -> UiState := on_owned (fun r => mkOwned
  (pane_sessions r) (pane_runtime r) (sub_agent_views r) (pane_workers r) (pane_ssh r)
  (ssh_reconnect_prompt r) (inbox r) (inbox_index r) x (next_inbox_id r) (terminal r)
  (pane_attachments r)).
Definition set_next_inbox_id (x : N) : UiState -> UiState := on_owned (fun r => mkOwned
  (pane_sessions r) (pane_runtime r) (sub_agent_views r) (pane_workers r) (pane_ssh r)
  (ssh_reconnect_prompt r) (inbox r) (inbox_index r) (inbox_error r) x (terminal r)
  (pane_attachments r)).
Definition set_terminal (x : TerminalRegistry) : UiState -> UiState := on_owned (fun r => mkOwned
  (pane_sessions r) (pane_runtime r) (sub_agent_views r) (pane_workers r) (pane_ssh r)
  (ssh_reconnect_prompt r) (inbox r) (inbox_index r) (inbox_error r) (next_inbox_id r) x
  (pane_attachments r)).
Definition set_pane_attachments (x : gmap N (list Str)) : UiState -> UiState := on_owned (fun r =>
  mkOwned (pane_sessions r) (pane_runtime r) (sub_agent_views r) (pane_workers r) (pane_ssh r)
  (ssh_reconnect_prompt r) (inbox r) (inbox_index r) (inbox_error r) (next_inbox_id r) (terminal r) x).

Definition set_pane_open_files (x : gmap N (list Str)) : UiState -> UiState := on_file_state (fun
  r => mkFiles x (file_buffers r) (pending_close_pane r) (pending_close_file r)
  (auto_save_on_close r) (disk r)).
Definition set_file_buffers (x : list ((N * Str) * FileBuffer)) : UiState -> UiState :=
  on_file_state (fun r => mkFiles (pane_open_files r) x (pending_close_pane r) (pending_close_file
  r) (auto_save_on_close r) (disk r)).
Definition set_pending_close_pane (x : option N) : UiState -> UiState := on_file_state (fun r =>
  mkFiles (pane_open_files r) (file_buffers r) x (pending_close_file r) (auto_save_on_close r)
  (disk r)).
Definition set_pending_close_file (x : option (N * Str)) : UiState -> UiState := on_file_state
  (fun r => mkFiles (pane_open_files r) (file_buffers r) (pending_close_pane r) x
  (auto_save_on_close r) (disk r)).
Definition set_auto_save_on_close (x : bool) : UiState -> UiState := on_file_state (fun r =>
  mkFiles (pane_open_files r) (file_buffers r) (pending_close_pane r) (pending_close_file r) x
  (disk r)).
Definition set_disk (x : Fs) : UiState -> UiState := on_file_state (fun r => mkFiles
  (pane_open_files r) (file_buffers r) (pending_close_pane r) (pending_close_file r)
  (auto_save_on_close r) x).

Definition set_conversations (x : list ConversationEntry) : UiState -> UiState := on_front (fun r
  => mkFront x (selected_id r) (composer_draft r) (composer_path r) (composer_focused r)
  (chat_messages r) (pending_ask r) (queued_prompt r) (agent_busy r)).
Definition set_selected_id (x : option Str) : UiState -> UiState := on_front (fun r => mkFront
  (conversations r) x (composer_draft r) (composer_path r) (composer_focused r) (chat_messages r)
  (pending_ask r) (queued_prompt r) (agent_busy r)).
Definition set_composer_draft (x : Str) : UiState -> UiState := on_front (fun r => mkFront
  (conversations r) (selected_id r) x (composer_path r) (composer_focused r) (chat_messages r)
  (pending_ask r) (queued_prompt r) (agent_busy r)).
Definition set_composer_path (x : Str) : UiState -> UiState := on_front (fun r => mkFront
  (conversations r) (selected_id r) (composer_draft r) x (composer_focused r) (chat_messages r)
  (pending_ask r) (queued_prompt r) (agent_busy r)).
Definition set_composer_focused (x : bool) : UiState -> UiState := on_front (fun r => mkFront
  (conversations r) (selected_id r) (composer_draft r) (composer_path r) x (chat_messages r)
  (pending_ask r) (queued_prompt r) (agent_busy r)).
Definition set_chat_messages (x : list ChatMessage) : UiState -> UiState := on_front (fun r =>
  mkFront (conversations r) (selected_id r) (composer_draft r) (composer_path r) (composer_focused
  r) x (pending_ask r) (queued_prompt r) (agent_busy r)).
Definition set_pending_ask (x : option AskUserUi) : UiState -> UiState := on_front (fun r =>
  mkFront (conversations r) (selected_id r) (composer_draft r) (composer_path r) (composer_focused
  r) (chat_messages r) x (queued_prompt r) (agent_busy r)).
Definition set_queued_prompt (x : option Str) : UiState -> UiState := on_front (fun r => mkFront
  (conversations r) (selected_id r) (composer_draft r) (composer_path r) (composer_focused r)
  (chat_messages r) (pending_ask r) x (agent_busy r)).
Definition set_agent_busy (x : bool) : UiState -> UiState := on_front (fun r => mkFront
  (conversations r) (selected_id r) (composer_draft r) (composer_path r) (composer_focused r)
  (chat_messages r) (pending_ask r) (queued_prompt r) x).

(** ** Looking a pane up *)

Definition holds (id : N) (s : Space) : bool := Tree.contains_leaf (root s) id.

(** [UiState::space_index_of_pane], [space_of_pane]. *)
Definition space_index_of_pane (st : UiState) (id : N) : option nat :=
  position (holds id) (spaces (tabs st)).

Definition active (st : UiState) : option Space := spaces (tabs st) !! active_space (tabs st).

(** Rewrite the space at an index. *)
Definition on_space (i : nat) (f : Space -> Space) (st : UiState) : UiState :=
  set_spaces (alter f i (spaces (tabs st))) st.

Definition focus (id : N) : UiState -> UiState := set_active_pane_id id.

(** [UiState::pane_is_viewer]. *)
Definition pane_is_viewer (st : UiState) (id : N) : bool :=
  existsb (fun s => bool_decide (Space_.leaf_kind s id = Some Worker)) (spaces (tabs st)).

Definition pane_owns_conversation (st : UiState) (id : N) : bool :=
  match pane_sessions (owned st) !! id with
  | Some s => negb (bool_decide (conversation_id s = []))
  | None => false
  end.

Definition pane_conversation_id (st : UiState) (id : N) : option Str :=
  match pane_sessions (owned st) !! id with
  | Some s => if bool_decide (conversation_id s = [])
              then (if bool_decide (id = active_pane_id (tabs st)) then selected_id (front st) else None)
              else Some (conversation_id s)
  | None => if bool_decide (id = active_pane_id (tabs st)) then selected_id (front st) else None
  end.

(** ** The focus *)

(** [UiState::focus_pane]. *)
Definition focus_pane (id : N) (st : UiState) : UiState :=
  let st := if bool_decide (active_pane_id (tabs st) = id) then st else set_maximized_pane None st in
  let st := focus id st in
  match pane_runtime (owned st) !! id with
  | Some rt =>
      if bool_decide (is_Some (rt_pending_command rt)) || bool_decide (is_Some (rt_pending_ask rt))
      then set_composer_focused false st else st
  | None => st
  end.

(** [UiState::sync_active_view]. *)
Definition sync_active_view (st : UiState) : UiState :=
  let st :=
    match pane_sessions (owned st) !! active_pane_id (tabs st) with
    | Some s =>
        let st := if bool_decide (conversation_id s = []) then st
                  else set_selected_id (Some (conversation_id s)) st in
        set_composer_path (path s) (set_composer_draft (draft s) st)
    | None => st
    end in
  let rt := pane_runtime (owned st) !! active_pane_id (tabs st) in
  set_agent_busy (match rt with Some r => rt_busy r | None => false end)
    (set_queued_prompt (rt ≫= rt_queued_prompt)
      (set_pending_ask (rt ≫= rt_pending_ask)
        (set_chat_messages (match rt with Some r => rt_messages r | None => [] end) st))).
End Ui.

(** ** The inbox *)

Module Inbox.
Section Inbox.
Context {ui : Ui} {externs : Externs}.
(** [UiState::push_inbox]. *)
Definition push_inbox (item : InboxItem) (st : UiState) : UiState * bool :=
  let o := owned st in
  if existsb (fun e => bool_decide (inbox_id e = inbox_id item)) (inbox o) then (st, false) else
  if negb (bool_decide (inbox_conversation item = []))
     && existsb (fun e => negb (acknowledged e) && bool_decide (inbox_kind e = inbox_kind item)
                          && bool_decide (inbox_conversation e = inbox_conversation item)) (inbox o)
  then (st, false) else
  (set_inbox_error None (set_inbox_index 0 (set_inbox (item :: inbox o) st)), true).

(** [UiState::raise_inbox]; [now] is the clock's reading. *)
Definition raise_inbox (pane : N) (conversation : Str) (kind : InboxKind) (title detail : Str)
    (now : Instant) (st : UiState) : UiState * Str :=
  let id := lit "inbox-" ++ show_N (next_inbox_id (owned st)) in
  let st := set_next_inbox_id (bump (next_inbox_id (owned st))) st in
  let space := default (active_space (tabs st)) (space_index_of_pane st pane) in
  let item := mkInbox id pane space conversation kind title detail now false in
  ((push_inbox item st).1, id).

Definition acknowledge (e : InboxItem) : InboxItem :=
  mkInbox (inbox_id e) (inbox_pane e) (inbox_space e) (inbox_conversation e) (inbox_kind e)
    (inbox_title e) (inbox_detail e) (inbox_created_at e) true.

Definition ack_inbox (id : Str) (st : UiState) : UiState * bool :=
  match list_find (fun e => inbox_id e = id) (inbox (owned st)) with
  | None => (st, false)
  | Some (i, e) =>
      if acknowledged e then (st, false)
      else (set_inbox (<[i := acknowledge e]> (inbox (owned st))) st, true)
  end.

Definition unread_inbox_count (st : UiState) : nat :=
  length (base.filter (fun e => acknowledged e = false) (inbox (owned st))).

Definition ack_all (st : UiState) : UiState * nat :=
  (set_inbox (acknowledge <$> inbox (owned st)) st, unread_inbox_count st).

Definition clamp_inbox_index (st : UiState) : UiState :=
  set_inbox_index
    (match inbox (owned st) with
     | [] => 0
     | l => Nat.min (inbox_index (owned st)) (length l - 1)
     end) st.

Definition prune_inbox_for_pane (pane : N) (st : UiState) : UiState :=
  let before := length (inbox (owned st)) in
  let st := set_inbox (base.filter (fun e => inbox_pane e <> pane) (inbox (owned st))) st in
  if bool_decide (length (inbox (owned st)) = before) then st
  else set_inbox_error None (clamp_inbox_index st).

(** [UiState::jump_to_inbox_item]. *)
Definition jump_to_inbox_item (index : nat) (st : UiState) : UiState * bool :=
  match inbox (owned st) !! index with
  | None => (set_inbox_error (Some (lit "No inbox item is selected.")) st, false)
  | Some item =>
      let pane := inbox_pane item in
      match space_index_of_pane st pane with
      | None =>
          (set_inbox_error (Some (lit "Pane " ++ show_N pane
             ++ lit " is no longer open; the item has nothing to jump to.")) st, false)
      | Some space =>
          let st := set_inbox_error None st in
          let item := mkInbox (inbox_id item) pane space (inbox_conversation item) (inbox_kind item)
                        (inbox_title item) (inbox_detail item) (inbox_created_at item)
                        (acknowledged item) in
          let st := set_inbox (<[index := item]> (inbox (owned st))) st in
          let st := on_space space Space_.recompute_layout (set_active_space space st) in
          (sync_active_view (set_current_tab TabChat (focus pane st)), true)
      end
  end.
End Inbox.
End Inbox.

(** ** What a pane owns *)

Module Ownership.
Section Ownership.
Context {ui : Ui} {externs : Externs}.

(** [TerminalRegistry::kill_pane]. *)
Definition kill_pane (id : N) (t : TerminalRegistry) : TerminalRegistry :=
  mkTerminal (sessions t ∖ {[ id ]}) (input t ∖ {[ id ]}) (modes t ∖ {[ id ]})
    (delete id (ssh_sessions t)) (delete id (session_ids t)) (term_ui t ∖ {[ id ]})
    (if bool_decide (id ∈ sessions t) then killed t ++ [id] else killed t).

(** [UiState::forget_pane]. *)
Definition forget_pane (id : N) (st : UiState) : UiState :=
  let o := owned st in
  let st := set_pane_sessions (delete id (pane_sessions o)) st in
  let st := set_pane_runtime (delete id (pane_runtime o)) st in
  let st := set_sub_agent_views (sub_agent_views o ∖ {[ id ]}) st in
  let st := set_pane_workers (pane_workers o ∖ {[ id ]}) st in
  let st := set_pane_ssh (delete id (pane_ssh o)) st in
  let st := match ssh_reconnect_prompt o with
            | Some (p, _) => if bool_decide (p = id) then set_ssh_reconnect_prompt None st else st
            | None => st
            end in
  let st := Inbox.prune_inbox_for_pane id st in
  set_terminal (kill_pane id (terminal (owned st))) st.

(** [UiState::attach_pane_file]. *)
Definition attach_pane_file (id : N) (file : Str) (st : UiState) : UiState :=
  let files := default [] (pane_attachments (owned st) !! id) in
  set_pane_attachments
    (<[id := if bool_decide (file ∈ files) then files else files ++ [file]]> (pane_attachments (owned st))) st.

(** [UiState::bind_pane_new_conversation] without a store. *)
Definition bind_pane_new_conversation (id : N) (st : UiState) : UiState :=
  let conversation := lit "pane-" ++ show_N id in
  let s := default (mkSession [] [] [] []) (pane_sessions (owned st) !! id) in
  set_pane_sessions
    (<[id := mkSession conversation (draft s) (path s) (daemon_session_id s)]> (pane_sessions (owned st))) st.

(** [UiState::set_active_pane_path]; the branch label and the shell's pending
    reports of its directory are not part of the state. *)
Definition set_active_pane_path (p : Str) (st : UiState) : UiState :=
  let id := active_pane_id (tabs st) in
  let s := match pane_sessions (owned st) !! id with
           | Some s => mkSession (conversation_id s) (draft s) p (daemon_session_id s)
           | None => mkSession [] (composer_draft (front st)) p []
           end in
  set_composer_path p (set_pane_sessions (<[id := s]> (pane_sessions (owned st))) st).

End Ownership.
End Ownership.

(** ** File buffers *)

Module Buffers.
Section Buffers.
Context {ui : Ui} {externs : Externs}.
(** [FileBuffer::save]: the buffer and the disk after it, and whether it wrote. *)
Definition fail (m : Str) (b : FileBuffer) : FileBuffer :=
  mkBuffer (buf_path b) (text b) (saved b) (dirty b) (read_only b) (written b) (Some m) None.

Definition save (b : FileBuffer) (d : Fs) : FileBuffer * Fs * bool :=
  match read_only b with
  | Some reason => (fail (lit "Not saved: this file is " ++ reason ++ lit ".") b, d, false)
  | None =>
      match fs_write (buf_path b) (text b) d with
      | inr e => (fail (lit "Not saved: " ++ e) b, d, false)
      | inl d' => (mkBuffer (buf_path b) (text b) (text b) false (read_only b) true None
                     (Some (lit "saved")), d', true)
      end
  end.

(** [save_pane_files]: a write that fails stops the rest. *)
Fixpoint save_pane (id : N) (l : list ((N * Str) * FileBuffer)) (d : Fs)
  : list ((N * Str) * FileBuffer) * Fs * bool :=
  match l with
  | [] => ([], d, true)
  | (key, b) :: rest =>
      if bool_decide (key.1 = id) && dirty b then
        match save b d with
        | (b', d', true) =>
            let '(rest', d'', ok) := save_pane id rest d' in ((key, b') :: rest', d'', ok)
        | (b', d', false) => ((key, b') :: rest, d', false)
        end
      else let '(rest', d', ok) := save_pane id rest d in ((key, b) :: rest', d', ok)
  end.

Definition save_pane_files (id : N) (st : UiState) : UiState * bool :=
  let '(l, d, ok) := save_pane id (file_buffers (file_state st)) (disk (file_state st)) in
  (set_disk d (set_file_buffers l st), ok).

Definition file_pane_dirty (st : UiState) (id : N) : bool :=
  existsb (fun e => bool_decide (e.1.1 = id) && dirty e.2) (file_buffers (file_state st)).

Definition find_buffer (st : UiState) (key : N * Str) : option (nat * ((N * Str) * FileBuffer)) :=
  list_find (fun e => e.1 = key) (file_buffers (file_state st)).

Definition file_buffer_dirty (st : UiState) (id : N) (p : Str) : bool :=
  match find_buffer st (id, p) with Some (_, (_, b)) => dirty b | None => false end.

Definition save_file (id : N) (p : Str) (st : UiState) : UiState * bool :=
  match find_buffer st (id, p) with
  | Some (i, (key, b)) =>
      if dirty b then
        let '(b', d, ok) := save b (disk (file_state st)) in
        (set_disk d (set_file_buffers (<[i := (key, b')]> (file_buffers (file_state st))) st), ok)
      else (st, true)
  | None => (st, true)
  end.

Definition drop_pane_buffers (id : N) (st : UiState) : UiState :=
  set_file_buffers (base.filter (fun e => e.1.1 <> id) (file_buffers (file_state st))) st.
End Buffers.
End Buffers.

(** ** Closing *)

Module Closing.
Import Ownership Buffers.
Section Closing.
Context {ui : Ui} {externs : Externs}.

(** [UiState::close_pane]. *)
Definition close_pane (id : N) (st : UiState) : UiState :=
  match space_index_of_pane st id with
  | None => st
  | Some i =>
      let was_active := bool_decide (active_space (tabs st) = i)
                        && bool_decide (active_pane_id (tabs st) = id) in
      let next := spaces (tabs st) !! i ≫= fun s => (Space_.close id s).2 in
      let st := on_space i (fun s => (Space_.close id s).1) st in
      let st := forget_pane id st in
      let st := drop_pane_buffers id st in
      let st := set_pane_open_files (delete id (pane_open_files (file_state st))) st in
      let st := if bool_decide (maximized_pane (tabs st) = Some id) then set_maximized_pane None st else st in
      let st := match next with
                | Some n => if was_active then focus n st else st
                | None => st
                end in
      sync_active_view st
  end.

(** [UiState::request_close_pane]. *)
Definition request_close_pane (id : N) (st : UiState) : UiState :=
  if file_pane_dirty st id then
    if auto_save_on_close (file_state st) then
      let '(st, ok) := save_pane_files id st in
      if ok then close_pane id st else st
    else set_pending_close_pane (Some id) st
  else close_pane id st.

Definition close_pending_pane_save (st : UiState) : UiState :=
  match pending_close_pane (file_state st) with
  | None => st
  | Some id =>
      let '(st, ok) := save_pane_files id st in
      if ok then close_pane id (set_pending_close_pane None st) else st
  end.

Definition close_pending_pane_discard (st : UiState) : UiState :=
  match pending_close_pane (file_state st) with
  | None => st
  | Some id => close_pane id (drop_pane_buffers id (set_pending_close_pane None st))
  end.

Definition cancel_pending_pane_close : UiState -> UiState := set_pending_close_pane None.

(** [UiState::close_file_now]. *)
Definition close_file_now (id : N) (p : Str) (st : UiState) : UiState :=
  let st := if bool_decide (pending_close_file (file_state st) = Some (id, p))
            then set_pending_close_file None st else st in
  match space_index_of_pane st id with
  | None => st
  | Some i =>
      match spaces (tabs st) !! i ≫= fun s => Space_.leaf_kind s id with
      | Some (File shown) =>
          match pane_open_files (file_state st) !! id with
          | None => if bool_decide (shown = p) then close_pane id st else st
          | Some files =>
              match position (fun f => bool_decide (f = p)) files with
              | None => st
              | Some index =>
                  let remaining := delete index files in
                  let st := set_pane_open_files (<[id := remaining]> (pane_open_files (file_state st))) st in
                  let st := set_file_buffers
                              (base.filter (fun e => e.1 <> (id, p)) (file_buffers (file_state st))) st in
                  match remaining with
                  | [] => close_pane id (set_pane_open_files (delete id (pane_open_files (file_state st))) st)
                  | _ =>
                      if bool_decide (shown = p) then
                        match remaining !! Nat.min (index - 1) (length remaining - 1) with
                        | Some next =>
                            sync_active_view
                              (on_space i (fun s => default s (Space_.set_leaf_kind id (File next) s)) st)
                        | None => st
                        end
                      else st
                  end
              end
          end
      | _ => st
      end
  end.

(** [UiState::request_close_file] and the file dialog's answers. *)
Definition request_close_file (id : N) (p : Str) (st : UiState) : UiState :=
  if file_buffer_dirty st id p then
    if auto_save_on_close (file_state st) then
      let '(st, ok) := save_file id p st in
      if ok then close_file_now id p st else st
    else set_pending_close_file (Some (id, p)) st
  else close_file_now id p st.

Definition close_pending_file_save (st : UiState) : UiState :=
  match pending_close_file (file_state st) with
  | None => st
  | Some (id, p) =>
      let '(st, ok) := save_file id p st in
      if ok then close_file_now id p (set_pending_close_file None st) else st
  end.

Definition close_pending_file_discard (st : UiState) : UiState :=
  match pending_close_file (file_state st) with
  | None => st
  | Some (id, p) => close_file_now id p (set_pending_close_file None st)
  end.

Definition cancel_pending_file_close : UiState -> UiState := set_pending_close_file None.

(** The close dialog's three buttons. *)
Definition on_close_unsaved_save (st : UiState) : UiState :=
  close_pending_pane_save (close_pending_file_save st).
Definition on_close_unsaved_discard (st : UiState) : UiState :=
  close_pending_pane_discard (close_pending_file_discard st).
Definition on_close_unsaved_cancel (st : UiState) : UiState :=
  cancel_pending_pane_close (cancel_pending_file_close st).
End Closing.
End Closing.

(** ** What a tab is called *)

Module Labels.
Section Labels.
Context {ui : Ui} {externs : Externs}.
(** [home_directory]: the first of [HOME] and [USERPROFILE] that is not empty
    once its trailing slashes are gone. *)
Fixpoint trim_slashes (s : Str) : Str :=
  match s with
  | [] => []
  | c :: s' =>
      match trim_slashes s' with
      | [] => if bool_decide (c = SLASH) then [] else [c]
      | r => c :: r
      end
  end.
Definition home_directory (vars : list (option Str)) : option Str :=
  head (base.filter (fun v => v <> []) (trim_slashes <$> omap (fun v => v) vars)).

(** [display_path]. *)
Definition display_path (home : option Str) (p : Str) : Str :=
  match home with
  | None => p
  | Some h =>
      if starts_with p h then
        match drop (length h) p with
        | [] => lit "~"
        | c :: rest => if bool_decide (c = SLASH) then lit "~" ++ c :: rest else p
        end
      else p
  end.

Definition NEW_CONVERSATION_TITLE : Str := lit "New conversation".
Definition NEW_AGENT_TAB_LABEL : Str := lit "New Agent".

(** [UiState::pane_subject]. *)
Definition pane_subject (st : UiState) (id : N) : Str :=
  let subject :=
    match pane_conversation_id st id ≫= (fun c =>
            snd <$> list_find (fun e => entry_id e = c) (conversations (front st))) with
    | Some e => trim (entry_name e)
    | None => []
    end in
  if bool_decide (subject = [] \/ subject = NEW_CONVERSATION_TITLE) then NEW_AGENT_TAB_LABEL else subject.

(** [UiState::pane_working_path]. *)
Definition pane_working_path (st : UiState) (id : N) : Str :=
  match pane_sessions (owned st) !! id with
  | Some s => if bool_decide (trim (path s) = []) then composer_path (front st) else path s
  | None => composer_path (front st)
  end.

(** The naming rule [space_label] and [pane_title] share. *)
Definition kind_label (home : option Str) (st : UiState) (id : N) (kind : option PaneKind) : Str :=
  match kind with
  | Some Chat => pane_subject st id
  | Some (File p) => display_path home p
  | Some (Diff _) => lit "Changes"
  | Some Worker => pane_subject st id
  | _ => display_path home (pane_working_path st id)
  end.

(** [UiState::space_focused_pane]. *)
Definition space_focused_pane (st : UiState) (index : nat) (s : Space) : N :=
  if bool_decide (index = active_space (tabs st))
     && Tree.contains_leaf (root s) (active_pane_id (tabs st))
  then active_pane_id (tabs st) else Tree.first_leaf_id (root s).

Definition space_label (home : option Str) (st : UiState) (index : nat) : Str :=
  match spaces (tabs st) !! index with
  | None => []
  | Some s =>
      if named s then name s
      else let id := space_focused_pane st index s in
           kind_label home st id (Space_.leaf_kind s id)
  end.

(** The kind of a pane, in the first space that has it. *)
Fixpoint find_kind (l : list Space) (id : N) : option PaneKind :=
  match l with
  | [] => None
  | s :: l' => match Space_.leaf_kind s id with Some k => Some k | None => find_kind l' id end
  end.
Definition pane_title (home : option Str) (st : UiState) (id : N) : Str :=
  kind_label home st id (find_kind (spaces (tabs st)) id).

Definition set_name (n : Str) (s : Space) : Space :=
  mkSpace n (named s) (root s) (medium s) (color s) (layout s) (floating s).
Definition set_named (b : bool) (s : Space) : Space :=
  mkSpace (name s) b (root s) (medium s) (color s) (layout s) (floating s).

(** [UiState::refresh_space_labels]: a label is derived from no other label, so
    the loop over the indices is a map. *)
Definition refresh_space_labels (home : option Str) (st : UiState) : UiState :=
  set_spaces (imap (fun index s => if named s then s else set_name (space_label home st index) s)
                (spaces (tabs st))) st.

(** [UiState::rename_active_space]. *)
Definition rename_active_space (n : Str) (st : UiState) : UiState :=
  let n := trim n in
  if bool_decide (n = []) then st
  else on_space (active_space (tabs st)) (fun s => set_named true (set_name n s)) st.

(** The tab menu's "Reset name". *)
Definition reset_name (index : nat) : UiState -> UiState := on_space index (set_named false).
End Labels.
End Labels.

(** ** Opening and closing panes and tabs *)

Module Opening.
Import Ownership Labels.
Section Opening.
Context {ui : Ui} {externs : Externs}.
(** The app's directories: [home_directory ()], and where a new pane starts
    ([default_pane_path]). *)
Context (home : option Str) (default_path : Str).

Definition push_space (s : Space) (st : UiState) : UiState :=
  set_spaces (spaces (tabs st) ++ [s]) st.

(** Take an identifier off the counter. *)
Definition take_id (st : UiState) : UiState * N :=
  (set_next_pane_id (bump (next_pane_id (tabs st))) st, next_pane_id (tabs st)).

(** [Space::split_with_kind] on a space of the state. *)
Definition split_space (i : nat) (target : N) (dir : SplitDir) (kind : PaneKind) (st : UiState)
  : UiState * option N :=
  match spaces (tabs st) !! i with
  | None => (st, None)
  | Some s =>
      let '(s', next, new) := Space_.split_with_kind target dir kind s (next_pane_id (tabs st)) in
      (set_next_pane_id next (on_space i (fun _ => s') st), new)
  end.

(** [split_active_pane]. *)
Definition split_active_pane (dir : SplitDir) (kind : PaneKind) (st : UiState) : UiState :=
  match split_space (active_space (tabs st)) (active_pane_id (tabs st)) dir kind st with
  | (st, Some new) =>
      sync_active_view
        (set_active_pane_path default_path (bind_pane_new_conversation new (focus_pane new st)))
  | (st, None) => st
  end.

(** [UiState::show_file_in_pane], [active_pane_shows_file]. *)
Definition show_file_in_pane (id : N) (p : Str) (st : UiState) : UiState * bool :=
  match space_index_of_pane st id with
  | None => (st, false)
  | Some i =>
      match spaces (tabs st) !! i ≫= fun s => Space_.leaf_kind s id with
      | Some (File showing) =>
          let files := default [] (pane_open_files (file_state st) !! id) in
          let files := match files with [] => [showing] | _ => files end in
          let files := if bool_decide (p ∈ files) then files else files ++ [p] in
          let st := set_pane_open_files (<[id := files]> (pane_open_files (file_state st))) st in
          (on_space i (fun s => default s (Space_.set_leaf_kind id (File p) s)) st, true)
      | _ => (st, false)
      end
  end.

Definition active_pane_shows_file (st : UiState) : bool :=
  match active st ≫= fun s => Space_.leaf_kind s (active_pane_id (tabs st)) with
  | Some (File _) => true
  | _ => false
  end.

(** [open_file_pane]. *)
Definition open_file_pane (p : Str) (st : UiState) : UiState :=
  if active_pane_shows_file st then
    sync_active_view (show_file_in_pane (active_pane_id (tabs st)) p st).1
  else
    match split_space (active_space (tabs st)) (active_pane_id (tabs st)) Horizontal (File p) st with
    | (st, Some new) =>
        let st := set_pane_open_files (<[new := [p]]> (pane_open_files (file_state st))) st in
        sync_active_view (focus_pane new st)
    | (st, None) => st
    end.

(** [open_diff_pane]; which changed file the review shows is not part of the
    state. *)
Definition open_diff_pane (source : N) (st : UiState) : UiState :=
  let cwd := pane_working_path st source in
  if bool_decide (trim cwd = []) then st else
  match active st with
  | None => st
  | Some s =>
      match Space_.diff_leaf_for s cwd with
      | Some id => focus_pane id st
      | None =>
          let anchor := if Tree.contains_leaf (root s) source then source
                        else active_pane_id (tabs st) in
          match split_space (active_space (tabs st)) anchor Horizontal (Diff cwd) st with
          | (st, Some new) => sync_active_view (focus_pane new st)
          | (st, None) => st
          end
      end
  end.

(** [on_add_space]: a terminal in a tab of its own. *)
Definition add_space (medium : Str) (st : UiState) : UiState :=
  let '(st, id) := take_id st in
  let st := push_space (Space_.with_medium medium (Space_.unnamed (Leaf id Terminal))) st in
  let st := focus id (set_active_space (length (spaces (tabs st)) - 1) st) in
  sync_active_view (refresh_space_labels home (set_active_pane_path default_path st)).

(** [close_space_at]. *)
Definition close_space_at (index : nat) (st : UiState) : UiState :=
  match spaces (tabs st) !! index with
  | None => st
  | Some closed =>
      let st := set_spaces (delete index (spaces (tabs st))) st in
      let st := foldl (fun st id => forget_pane id st) st (Tree.collect_leaf_ids (root closed)) in
      match spaces (tabs st) with
      | [] =>
          let '(st, id) := take_id st in
          let st := push_space (Space_.unnamed (Leaf id Chat)) st in
          let st := focus id (set_active_space 0 st) in
          sync_active_view (refresh_space_labels home (bind_pane_new_conversation id st))
      | _ =>
          let a := active_space (tabs st) in
          let a := if index <? a then a - 1
                   else if bool_decide (index = a) then Nat.min a (length (spaces (tabs st)) - 1) else a in
          let st := set_active_space a st in
          let st := match spaces (tabs st) !! a with
                    | Some s => focus (Tree.first_leaf_id (root s)) st
                    | None => st
                    end in
          sync_active_view st
      end
  end.

(** The tab menu's "Close others": from the far end inwards. *)
Definition close_others (index : nat) (st : UiState) : UiState :=
  if length (spaces (tabs st)) <=? index then st else
  let after := reverse (seq (index + 1) (length (spaces (tabs st)) - (index + 1))) in
  let before := reverse (seq 0 index) in
  foldl (fun st i => close_space_at i st) (foldl (fun st i => close_space_at i st) st after) before.

(** *** The settings tab *)

Fixpoint settings_from (index : nat) (l : list Space) : option (nat * N) :=
  match l with
  | [] => None
  | s :: l' => match Space_.settings_leaf s with
               | Some id => Some (index, id)
               | None => settings_from (S index) l'
               end
  end.
Definition settings_pane (st : UiState) : option (nat * N) := settings_from 0 (spaces (tabs st)).

Definition settings_page (st : UiState) : SettingsCategory :=
  match settings_pane st ≫= (fun '(i, id) => spaces (tabs st) !! i ≫= fun s => Space_.leaf_kind s id) with
  | Some (Settings page) => page
  | _ => Appearance
  end.

Definition settings_set_page (page : SettingsCategory) (st : UiState) : UiState :=
  match settings_pane st with
  | None => st
  | Some (i, id) => on_space i (fun s => default s (Space_.set_leaf_kind id (Settings page) s)) st
  end.

Definition open_settings_tab (st : UiState) : UiState :=
  let st := set_current_tab TabChat st in
  match settings_pane st with
  | Some (i, id) =>
      if bool_decide (active_space (tabs st) = i) && bool_decide (active_pane_id (tabs st) = id)
      then st
      else sync_active_view (focus id (set_active_space i st))
  | None =>
      let '(st, id) := take_id st in
      let st := push_space (Space_.new (lit "Settings") (Leaf id (Settings Appearance))) st in
      let st := focus id (set_active_space (length (spaces (tabs st)) - 1) st) in
      sync_active_view (refresh_space_labels home st)
  end.

(** *** Moving along the strip *)

(** [on_select_space]. *)
Definition select_space (index : nat) (st : UiState) : UiState :=
  match spaces (tabs st) !! index with
  | None => sync_active_view st
  | Some s =>
      let st := on_space index Space_.recompute_layout (set_active_space index st) in
      sync_active_view (focus (Tree.first_leaf_id (root s)) st)
  end.

(** [UiState::switch_space]: the state and whether the active space moved. *)
Definition switch_space (delta : Z) (st : UiState) : UiState * bool :=
  let len := length (spaces (tabs st)) in
  if len <=? 1 then (st, false) else
  let target := Z.to_nat ((Z.of_nat (active_space (tabs st)) + delta) mod Z.of_nat len) in
  if bool_decide (target = active_space (tabs st)) then (st, false) else
  let st := on_space target Space_.recompute_layout (set_active_space target st) in
  (match spaces (tabs st) !! target with
   | Some s => focus (Tree.first_leaf_id (root s)) st
   | None => st
   end, true).

(** [UiState::begin_space_rename], the part that brings the tab forward. *)
Definition begin_space_rename (index : nat) (st : UiState) : UiState :=
  match spaces (tabs st) !! index with
  | None => st
  | Some s =>
      if bool_decide (active_space (tabs st) = index) then st
      else sync_active_view (focus (Tree.first_leaf_id (root s)) (set_active_space index st))
  end.

(** [UiState::reorder_space]. *)
Definition reorder_space (from to : nat) (st : UiState) : UiState :=
  let l := spaces (tabs st) in
  let len := length l in
  if bool_decide (from = to) || (len <=? from) || (len <=? to) then st else
  match l !! from with
  | None => st
  | Some s =>
      let l' := delete from l in
      let st := set_spaces (take to l' ++ s :: drop to l') st in
      let a := active_space (tabs st) in
      if bool_decide (a = from) then set_active_space to st
      else if (a <? from) && (to <=? a) then set_active_space (a + 1) st
      else if (from <? a) && (a <=? to) then set_active_space (a - 1) st
      else st
  end.

(** [UiState::set_space_layout], [cycle_space_layout]. *)
Definition set_space_layout (index : nat) (l : LayoutKind) (st : UiState) : UiState * bool :=
  match spaces (tabs st) !! index with
  | None => (st, false)
  | Some _ =>
      let st := on_space index (Space_.set_layout l) st in
      (if bool_decide (active_space (tabs st) = index) then set_floating_drag None st else st, true)
  end.

Definition cycle_space_layout (st : UiState) : UiState * LayoutKind :=
  match active st with
  | None => (st, Bsp)
  | Some s => let next := cycle (layout s) in
              ((set_space_layout (active_space (tabs st)) next st).1, next)
  end.
End Opening.
End Opening.

(** ** Lifting and dropping panes *)

Module Moving.
Import Ownership Labels.
Section Moving.
Context {ui : Ui} {externs : Externs}.
Context (home : option Str).

Definition PANE_LIFT_THRESHOLD : f32 := f32_of_Z 4.
Definition moved (d : PaneDrag) : bool :=
  flt PANE_LIFT_THRESHOLD (fabs (fsub (vx (drag_position d)) (vx (origin d))))
  || flt PANE_LIFT_THRESHOLD (fabs (fsub (vy (drag_position d)) (vy (origin d)))).

(** [Vec::insert]. *)
Definition insert_at (i : nat) (s : Space) (l : list Space) : list Space := take i l ++ s :: drop i l.

(** [move_pane_to_new_space]. *)
Definition move_pane_to_new_space (l : list Space) (source : nat) (pane : N) (index : nat) (next_id : N)
  : list Space * N * option PaneMove :=
  match l !! source with
  | None => (l, next_id, None)
  | Some s =>
      match Space_.leaf_kind s pane with
      | None => (l, next_id, None)
      | Some kind =>
          let fresh_space := Space_.with_medium (medium s) (Space_.unnamed (Leaf pane kind)) in
          match Space_.close pane s with
          | (s', Some _) =>
              let l := <[source := s']> l in
              let tab := Nat.min index (length l) in
              (insert_at tab fresh_space l, next_id, Some (mkMove tab None))
          | (_, None) =>
              if 1 <? length l then
                let l := delete source l in
                let at_ := if source <? index then index - 1 else index in
                let tab := Nat.min at_ (length l) in
                (insert_at tab fresh_space l, next_id, Some (mkMove tab None))
              else
                let fresh := next_id in
                let next_id := bump next_id in
                let l := <[source := Space_.unnamed (Leaf fresh Chat)]> l in
                let tab := if source <? index then source + 1 else source in
                (insert_at tab fresh_space l, next_id, Some (mkMove tab (Some fresh)))
          end
      end
  end.

(** [UiState::begin_pane_lift]. *)
Definition begin_pane_lift (pane : N) (at_ : Vector2F) (st : UiState) : UiState :=
  if bool_decide (is_Some (dragging_pane_id (drags st))) then st else
  match active st with
  | None => st
  | Some s =>
      if Tree.contains_leaf (root s) pane
      then set_pane_drag (Some (mkPaneDrag pane (active_space (tabs st)) at_ at_ None None)) st
      else st
  end.

(** [UiState::drag_pane_to]. *)
Definition drag_pane_to (at_ : Vector2F) (index : option nat) (target : option PaneDropTarget)
    (st : UiState) : UiState :=
  match active st, pane_drag (drags st) with
  | Some s, Some d =>
      let valid := target ≫= fun t =>
        if Tree.contains_leaf (root s) (target_pane t) && negb (bool_decide (target_pane t = lifted d))
        then Some t else None in
      set_pane_drag (Some (mkPaneDrag (lifted d) (source_space d) (origin d) at_ index valid)) st
  | _, _ => st
  end.

(** [UiState::release_pane_drag]. *)
Definition release_pane_drag (index : option nat) (target : option PaneDropTarget) (st : UiState)
  : UiState * PaneDrop :=
  match pane_drag (drags st) with
  | None => (st, Cancelled)
  | Some d =>
      let st := set_pane_drag None st in
      match index, target with
      | Some i, _ =>
          match move_pane_to_new_space (spaces (tabs st)) (source_space d) (lifted d) i
                  (next_pane_id (tabs st)) with
          | (l, next, Some m) =>
              (focus (lifted d) (set_active_space (tab m) (set_next_pane_id next (set_spaces l st))),
               NewTab m)
          | (l, next, None) => (set_next_pane_id next (set_spaces l st), Cancelled)
          end
      | None, None => (st, Cancelled)
      | None, Some t =>
          match spaces (tabs st) !! source_space d with
          | None => (st, Cancelled)
          | Some s =>
              let '(s', next, ok) :=
                Space_.move_pane (lifted d) (target_pane t) (target_side t) s (next_pane_id (tabs st)) in
              let st := set_next_pane_id next (on_space (source_space d) (fun _ => s') st) in
              if ok then (focus (lifted d) (set_active_space (source_space d) st), MovedInSpace)
              else (st, Cancelled)
          end
      end
  end.

(** [UiState::drop_pane]. *)
Definition drop_pane (index : option nat) (st : UiState) : UiState * option PaneMove :=
  let target := pane_drag (drags st) ≫= drop_target in
  match release_pane_drag index target st with
  | (st, NewTab m) => (st, Some m)
  | (st, _) => (st, None)
  end.

(** [on_pane_drop]. *)
Definition on_pane_drop (index : option nat) (target : option PaneDropTarget) (st : UiState) : UiState :=
  match release_pane_drag index target st with
  | (st, MovedInSpace) => sync_active_view (refresh_space_labels home st)
  | (st, NewTab m) =>
      let st := match reset_pane m with Some fresh => bind_pane_new_conversation fresh st | None => st end in
      sync_active_view (refresh_space_labels home st)
  | (st, Cancelled) => st
  end.
End Moving.
End Moving.

(** ** Clicks, arrows, windows and dividers *)

Module Pointing.
Section Pointing.
Context {ui : Ui} {externs : Externs}.
Context {euclid : Euclid}.

Definition pane_activate (id : N) (st : UiState) : UiState :=
  let st := focus_pane id st in
  sync_active_view
    (on_space (active_space (tabs st))
       (fun s => if bool_decide (layout s = Floating) then Space_.raise_pane id s else s) st).

Definition pane_navigate (dir : NavDir) (st : UiState) : UiState :=
  if bool_decide (current_tab (tabs st) = TabChat) then
    match active st ≫= fun s => Space_.navigate s (active_pane_id (tabs st)) dir with
    | Some next => sync_active_view (focus_pane next st)
    | None => st
    end
  else st.

Definition pane_drag_start (id : N) : UiState -> UiState := set_dragging_pane_id (Some id).
Definition pane_drag_move (id : N) (ratio : f32) (st : UiState) : UiState :=
  on_space (active_space (tabs st)) (fun s => default s (Space_.set_ratio id ratio s)) st.
Definition pane_drag_end : UiState -> UiState := set_dragging_pane_id None.

Definition toggle_pane_maximized (id : N) (st : UiState) : UiState :=
  let retract := bool_decide (maximized_pane (tabs st) = Some id) in
  let expandable := match active st with Some s => 1 <? Tree.leaf_count (root s) | None => false end in
  if negb retract && negb expandable then st else
  let st := focus_pane id st in
  sync_active_view (set_maximized_pane (if retract then None else Some id) st).

Definition float_start (id : N) (mode : FloatingDragMode) (at_ area : Vector2F) (st : UiState) : UiState :=
  match active st ≫= fun s => Space_.floating_rect s id with
  | None => st
  | Some original =>
      let st := set_floating_drag (Some (mkFloatingDrag id mode at_ original area)) st in
      let st := focus_pane id st in
      on_space (active_space (tabs st)) (Space_.raise_pane id) st
  end.
Definition float_rect (id : N) (r : PaneRect) (st : UiState) : UiState :=
  on_space (active_space (tabs st)) (Space_.set_floating_rect id r) st.
Definition float_rect_end : UiState -> UiState := set_floating_drag None.

Definition float_minimize (id : N) (st : UiState) : UiState :=
  let active_id := active_pane_id (tabs st) in
  let st := on_space (active_space (tabs st)) (Space_.minimize_pane id) st in
  let next := if bool_decide (active_id = id)
              then active st ≫= fun s => head (Space_.visible_leaf_ids s) else None in
  let st := match floating_drag (drags st) with
            | Some d => if bool_decide (drag_pane d = id) then set_floating_drag None st else st
            | None => st
            end in
  match next with
  | Some n => sync_active_view (focus_pane n st)
  | None => st
  end.
Definition float_restore (id : N) (st : UiState) : UiState :=
  sync_active_view (focus_pane id (on_space (active_space (tabs st)) (Space_.restore_pane id) st)).
End Pointing.
End Pointing.

(** ** The control surface *)

Module Control.
Import Ownership.
Section Control.
Context {ui : Ui} {externs : Externs}.
Context (default_path : Str).

Inductive ControlError : Type :=
| MissingPane (id : N) | MissingSpace (index : nat)
| CouldNotSplit (id : N) | OnlyPane (id : N) (index : nat).

Inductive ControlPaneKind : Type := ControlChat | ControlTerminal.
Definition control_kind (k : ControlPaneKind) : PaneKind :=
  match k with ControlChat => Chat | ControlTerminal => Terminal end.

Inductive ControlLayout : Type :=
| LSingle | LHorizontal | LVertical | LBsp | LMasterStack | LFloating | LCarousel.

(** [layout_kind], [space_layout_kind]. *)
Definition layout_kind (p : Pane) : ControlLayout :=
  match p with
  | Leaf _ _ => LSingle
  | Split _ Horizontal _ _ _ => LHorizontal
  | Split _ Vertical _ _ _ => LVertical
  end.
Definition space_layout_kind (s : Space) : ControlLayout :=
  match layout s with
  | Bsp => layout_kind (root s)
  | MasterStack => LMasterStack
  | Floating => LFloating
  | Carousel => LCarousel
  end.

(** [target_pane_in_space]: also the pane [layout_set] keeps. *)
Definition target_pane_in_space (st : UiState) (index : nat) : result ControlError N :=
  match spaces (tabs st) !! index with
  | None => Err (MissingSpace index)
  | Some s =>
      if bool_decide (active_space (tabs st) = index)
         && Tree.contains_leaf (root s) (active_pane_id (tabs st))
      then Ok (active_pane_id (tabs st)) else Ok (Tree.first_leaf_id (root s))
  end.

(** [Command::PanesFocus]. *)
Definition focus_command (id : N) (st : UiState) : UiState * result ControlError nat :=
  match space_index_of_pane st id with
  | None => (st, Err (MissingPane id))
  | Some i =>
      (sync_active_view (focus_pane id (set_active_space i (set_current_tab TabChat st))), Ok i)
  end.

(** [switch_space]. *)
Definition switch_space (index : nat) (st : UiState) : UiState * result ControlError nat :=
  match spaces (tabs st) !! index with
  | None => (st, Err (MissingSpace index))
  | Some s =>
      (sync_active_view (focus_pane (Tree.first_leaf_id (root s))
         (set_active_space index (set_current_tab TabChat st))), Ok index)
  end.

(** [split_pane]'s three ways to split: into the kind asked for, else into the
    kind split when that is a chat or a terminal, else into a terminal. *)
Definition split_for (id : N) (dir : SplitDir) (kind : option ControlPaneKind) (target_kind : PaneKind)
    (s : Space) (next : N) : Space * N * option N :=
  match kind with
  | Some k => Space_.split_with_kind id dir (control_kind k) s next
  | None =>
      match target_kind with
      | Chat | Terminal => Space_.split id dir s next
      | _ => Space_.split_with_kind id dir Terminal s next
      end
  end.

(** [split_pane]: the pane that opened. *)
Definition split_pane (id : N) (dir : SplitDir) (kind : option ControlPaneKind) (cwd : option Str)
    (st : UiState) : UiState * result ControlError N :=
  match space_index_of_pane st id with
  | None => (st, Err (MissingPane id))
  | Some i =>
      match spaces (tabs st) !! i with
      | None => (st, Err (MissingPane id))
      | Some s =>
          let inherited := match pane_sessions (owned st) !! id with
                           | Some p => path p | None => default_path end in
          match Space_.leaf_kind s id with
          | None => (st, Err (MissingPane id))
          | Some target_kind =>
              let '(s', next, new) := split_for id dir kind target_kind s (next_pane_id (tabs st)) in
              let st := on_space i (fun _ => s') st in
              match new with
              | None => (st, Err (CouldNotSplit id))
              | Some new =>
                  let st := set_current_tab TabChat (set_active_space i (set_next_pane_id next st)) in
                  let st := focus_pane new st in
                  let st := set_pane_sessions
                              (<[new := mkSession [] [] (default inherited cwd) []]>
                                 (pane_sessions (owned st))) st in
                  let st := if bool_decide (Space_.leaf_kind s' new = Some Chat)
                            then bind_pane_new_conversation new st else st in
                  (sync_active_view st, Ok new)
              end
          end
      end
  end.

(** [Command::PanesNew]. *)
Definition panes_new (index : option nat) (cwd : option Str) (kind : option ControlPaneKind)
    (st : UiState) : UiState * result ControlError N :=
  match target_pane_in_space st (default (active_space (tabs st)) index) with
  | Err e => (st, Err e)
  | Ok target => split_pane target Horizontal (Some (default ControlTerminal kind)) cwd st
  end.

(** [close_pane]. *)
Definition close_pane (id : N) (st : UiState) : UiState * result ControlError N :=
  match space_index_of_pane st id with
  | None => (st, Err (MissingPane id))
  | Some i =>
      match spaces (tabs st) !! i with
      | None => (st, Err (MissingPane id))
      | Some s =>
          match Space_.close id s with
          | (_, None) => (st, Err (OnlyPane id i))
          | (s', Some next) =>
              let st := forget_pane id (on_space i (fun _ => s') st) in
              let st := if bool_decide (maximized_pane (tabs st) = Some id)
                        then set_maximized_pane None st else st in
              (sync_active_view (focus_pane next (set_active_space i st)), Ok id)
          end
      end
  end.

Definition forget_other (st : UiState) (id : N) : UiState :=
  forget_pane id (if bool_decide (maximized_pane (tabs st) = Some id)
                  then set_maximized_pane None st else st).

(** [layout_set]'s single-pane layout: every other pane of the space is
    forgotten. *)
Definition keep_one (index : nat) (keep : N) (kind : PaneKind) (s : Space) (st : UiState) : UiState :=
  let st := foldl forget_other st (base.filter (fun id => id <> keep) (Tree.collect_leaf_ids (root s))) in
  let st := on_space index (fun s => Space_.set_layout Bsp (set_root (Leaf keep kind) s)) st in
  focus_pane keep (set_active_space index st).

(** [layout_set]. *)
Definition layout_set (index : nat) (kind : ControlLayout) (st : UiState)
  : UiState * result ControlError nat :=
  match target_pane_in_space st index with
  | Err e => (st, Err e)
  | Ok keep =>
      match spaces (tabs st) !! index with
      | None => (st, Err (MissingSpace index))
      | Some s =>
          let orient d := on_space index (fun s => Space_.set_layout Bsp (Space_.set_layout_direction d s)) st in
          let arrange l := on_space index (Space_.set_layout l) st in
          let after :=
            match kind with
            | LSingle =>
                match Space_.leaf_kind s keep with
                | None => Err (MissingPane keep)
                | Some k => Ok (keep_one index keep k s st)
                end
            | LHorizontal => Ok (orient Horizontal)
            | LVertical => Ok (orient Vertical)
            | LBsp => Ok (arrange Bsp)
            | LMasterStack => Ok (arrange MasterStack)
            | LFloating => Ok (arrange Floating)
            | LCarousel => Ok (arrange Carousel)
            end in
          match after with
          | Err e => (st, Err e)
          | Ok st =>
              let floating := match spaces (tabs st) !! index with
                              | Some s => bool_decide (layout s = Floating) | None => false end in
              let st := if bool_decide (active_space (tabs st) = index) && negb floating
                        then set_floating_drag None st else st in
              (sync_active_view (set_current_tab TabChat st), Ok index)
          end
      end
  end.
End Control.
End Control.

(** ** Saving the layout and coming back *)

Module Persistence.
Section Persistence.
Context {ui : Ui} {externs : Externs}.

Record PersistedPaneState : Type := mkPersisted {
  p_spaces : list Space;
  p_active_space : nat;
  p_active_pane_id : N;
  p_sessions : gmap N PaneSession;
  p_ssh : gmap N SshPaneBinding;
}.

Definition with_daemon (id : Str) (s : PaneSession) : PaneSession :=
  mkSession (conversation_id s) (draft s) (path s) id.

(** The sessions with the daemon identifiers of the registry over their own. *)
Definition overlay (ids : gmap N Str) (l : gmap N PaneSession) : gmap N PaneSession :=
  map_imap (fun pane s => Some (match ids !! pane with Some d => with_daemon d s | None => s end)) l.

(** [UiState::save_panes], up to the text it is written as. *)
Definition save_panes (st : UiState) : PersistedPaneState :=
  mkPersisted (spaces (tabs st)) (active_space (tabs st)) (active_pane_id (tabs st))
    (overlay (session_ids (terminal (owned st))) (pane_sessions (owned st))) (pane_ssh (owned st)).

(** [UiState::adopt_daemon_session_ids]: the state and whether an identifier
    changed. *)
Definition adopt_daemon_session_ids (st : UiState) : UiState * bool :=
  let before := pane_sessions (owned st) in
  let after := overlay (session_ids (terminal (owned st))) before in
  (set_pane_sessions after st,
   existsb (fun e => match session_ids (terminal (owned st)) !! e.1 with
                     | Some d => negb (bool_decide (daemon_session_id e.2 = d))
                     | None => false end) (map_to_list before)).

(** What [restore_panes] seeds the terminal registry with. *)
Definition seed_terminal (p : PersistedPaneState) (t : TerminalRegistry) : TerminalRegistry :=
  mkTerminal (sessions t) (input t) (modes t)
    (omap session (p_ssh p) ∪ ssh_sessions t)
    (omap (fun s => if bool_decide (daemon_session_id s = []) then None else Some (daemon_session_id s))
       (p_sessions p) ∪ session_ids t)
    (term_ui t) (killed t).

Definition drop_dead (live : gset Str) (s : PaneSession) : PaneSession :=
  if bool_decide (conversation_id s <> [] /\ conversation_id s ∉ live)
  then mkSession [] (draft s) (path s) (daemon_session_id s) else s.

(** [UiState::restore_panes]; [live] is the conversations the store lists. *)
Definition restore_panes (live : gset Str) (p : PersistedPaneState) (st : UiState) : UiState :=
  match p_spaces p with
  | [] => st
  | _ =>
      let l := Space_.recompute_layout <$> p_spaces p in
      let a := Nat.min (p_active_space p) (length l - 1) in
      let st := set_active_space a (set_spaces l st) in
      let st := set_pane_ssh (p_ssh p) st in
      let st := set_terminal (seed_terminal p (terminal (owned st))) st in
      let st := set_pane_sessions (drop_dead live <$> p_sessions p) st in
      let max_id := foldr N.max 0%N ((fun s => Tree.max_id (root s)) <$> l) in
      let st := set_next_pane_id (bump max_id) st in
      match l !! a with
      | None => st
      | Some s =>
          let id := if Tree.contains_leaf (root s) (p_active_pane_id p) then p_active_pane_id p
                    else Tree.first_leaf_id (root s) in
          let id := if Space_.pane_minimized s id
                    then default id (head (Space_.visible_leaf_ids s)) else id in
          focus id st
      end
  end.
End Persistence.
End Persistence.
