(* ===== verification/WorkspaceProps.v ===== *)
(** Properties of the workspace: whatever the user does to tabs and panes, the
    focus is on a pane of the tab on screen, no pane is lost or doubled, and no
    unsaved text goes without a question. *)

From Stdlib Require Import ZArith SpecFloat.
From stdpp Require Import base gmap list.
From S2P Require Import Prelude Floats Panes PanesProps Workspace.

Open Scope nat_scope.

(** ** What operations leave alone *)

Module Frames.
Import Ownership.
Section Frames.
Context {ui : Ui} {externs : Externs}.

Lemma tabs_sync st : tabs (sync_active_view st) = tabs st.
Proof.
  unfold sync_active_view. destruct (pane_sessions _ !! _) as [s |]; [| done].
  by case_bool_decide.
Qed.
Lemma files_sync st : file_state (sync_active_view st) = file_state st.
Proof.
  unfold sync_active_view. destruct (pane_sessions _ !! _) as [s |]; [| done].
  by case_bool_decide.
Qed.
Lemma owned_sync st : owned (sync_active_view st) = owned st.
Proof.
  unfold sync_active_view. destruct (pane_sessions _ !! _) as [s |]; [| done].
  by case_bool_decide.
Qed.

Lemma tabs_prune id st : tabs (Inbox.prune_inbox_for_pane id st) = tabs st.
Proof. unfold Inbox.prune_inbox_for_pane. by case_bool_decide. Qed.
Lemma files_prune id st : file_state (Inbox.prune_inbox_for_pane id st) = file_state st.
Proof. unfold Inbox.prune_inbox_for_pane. by case_bool_decide. Qed.

Lemma tabs_forget id st : tabs (forget_pane id st) = tabs st.
Proof.
  unfold forget_pane. cbn [tabs set_terminal on_owned]. rewrite tabs_prune.
  destruct (ssh_reconnect_prompt _) as [[p h] |]; [| done]. by case_bool_decide.
Qed.
Lemma files_forget id st : file_state (forget_pane id st) = file_state st.
Proof.
  unfold forget_pane. cbn [file_state set_terminal on_owned]. rewrite files_prune.
  destruct (ssh_reconnect_prompt _) as [[p h] |]; [| done]. by case_bool_decide.
Qed.
Lemma tabs_forget_all l st : tabs (foldl (fun st id => forget_pane id st) st l) = tabs st.
Proof. revert st. induction l as [| i l IH]; intros st; simpl; [done |]. by rewrite IH, tabs_forget. Qed.

(** [focus_pane] moves the focus and may end an expansion. *)
Lemma spaces_focus_pane id st : spaces (tabs (focus_pane id st)) = spaces (tabs st).
Proof.
  unfold focus_pane. by case_bool_decide; simpl; destruct (pane_runtime _ !! id); try case_match.
Qed.
Lemma tabs_focus_pane id st :
  tabs (focus_pane id st) =
    mkTabs (spaces (tabs st)) (active_space (tabs st)) id (next_pane_id (tabs st))
      (if bool_decide (active_pane_id (tabs st) = id) then maximized_pane (tabs st) else None)
      (current_tab (tabs st)).
Proof.
  unfold focus_pane. by case_bool_decide; simpl; destruct (pane_runtime _ !! id); simpl; try case_match.
Qed.
Lemma tabs_bind id st : tabs (bind_pane_new_conversation id st) = tabs st.
Proof. done. Qed.
Lemma tabs_set_path p st : tabs (set_active_pane_path p st) = tabs st.
Proof. done. Qed.
End Frames.
End Frames.

(** ** The tabs stay sound *)

Module Soundness.
Import TreeProps RemoveProps SpaceProps Gestures Frames Ownership.

Definition nodes (l : list Space) : list N := l ≫= fun s => ids (root s).
Definition is_settings (k : PaneKind) : bool := match k with Settings _ => true | _ => false end.
(** The settings pages a list of panes shows. *)
Definition settings_of (p : Pane) : nat :=
  length (base.filter (fun leaf => is_settings leaf.2) (Tree.leaves p)).
Definition settings_count (l : list Space) : nat := sum_list_with (fun s => settings_of (root s)) l.

(** Every tab is well formed, no two panes of the window share an identifier, and
    at most one shows the settings. *)
Record TabsOk (next : N) (l : list Space) : Prop := {
  ok_wf : Forall (Wf next) l;
  ok_nodes : NoDup (nodes l);
  ok_settings : settings_count l <= 1;
}.

(** The tabs are in order and the focus is on a pane of the tab on screen. *)
Record Sound (t : Tabs) : Prop := {
  sound_tabs : TabsOk (next_pane_id t) (spaces t);
  sound_focus : exists s, spaces t !! active_space t = Some s /\ active_pane_id t ∈ leaf_ids (root s);
}.

#[export] Instance nodes_Permutation : Proper (Permutation ==> Permutation) nodes.
Proof. intros l l' H. unfold nodes. by rewrite H. Qed.
#[export] Instance settings_Permutation : Proper (Permutation ==> eq) settings_count.
Proof. intros l l' H. unfold settings_count. by rewrite H. Qed.

#[export] Instance tabs_ok_Permutation next : Proper (Permutation ==> iff) (TabsOk next).
Proof.
  assert (forall l l', l ≡ₚ l' -> TabsOk next l -> TabsOk next l') as H.
  { intros l l' Hp []. constructor; by rewrite <- Hp. }
  intros l l' Hp. split; [by apply H | by apply H].
Qed.

Lemma nodes_cons s l : nodes (s :: l) = ids (root s) ++ nodes l.
Proof. done. Qed.
Lemma settings_cons s l : settings_count (s :: l) = settings_of (root s) + settings_count l.
Proof. done. Qed.
Lemma nodes_elem l i s x : l !! i = Some s -> x ∈ ids (root s) -> x ∈ nodes l.
Proof. intros Hl Hx. apply list_elem_of_bind. exists s. split; [done | by eapply list_elem_of_lookup_2]. Qed.

Lemma nodes_bound next l x : Forall (Wf next) l -> x ∈ nodes l -> (x < next)%N.
Proof.
  intros Hl (s & Hx & Hs)%list_elem_of_bind. rewrite Forall_forall in Hl. apply Hl in Hs as [_ Hs _ _ _].
  rewrite Forall_forall in Hs. by apply Hs.
Qed.

Lemma tabs_ok_cons next s l :
  TabsOk next (s :: l) <->
    Wf next s /\ TabsOk next l /\ (forall x, x ∈ ids (root s) -> x ∉ nodes l) /\
    settings_of (root s) + settings_count l <= 1.
Proof.
  split.
  - intros [[Hs Hl]%Forall_cons Hn%NoDup_app Hc]. rewrite settings_cons in Hc.
    destruct Hn as (_ & Hd & Hn). split_and!; [done | | done | done].
    constructor; [done | done | lia].
  - intros (Hs & [Hl Hn _] & Hd & Hc). constructor; [by constructor | | done].
    apply NoDup_app. split_and!; [apply Hs | done | done].
Qed.

Lemma tabs_ok_weaken next next' l : (next <= next')%N -> TabsOk next l -> TabsOk next' l.
Proof.
  intros Hle []. constructor; [| done | done]. eapply Forall_impl; [done |].
  intros s. by apply wf_weaken.
Qed.

Lemma insert_Permutation_delete {A} (l : list A) i x y :
  l !! i = Some x -> <[i := y]> l ≡ₚ y :: delete i l.
Proof.
  intros H%lookup_lt_Some. rewrite insert_take_drop, delete_take_drop by done.
  symmetry. apply Permutation_middle.
Qed.

Lemma alter_insert {A} (l : list A) i f x : l !! i = Some x -> alter f i l = <[i := f x]> l.
Proof. intros H. rewrite list_insert_alter. apply list_alter_ext; [| done]. by intros y ?; simplify_eq. Qed.

Lemma alter_none {A} (l : list A) i (f : A -> A) : l !! i = None -> alter f i l = l.
Proof.
  intros H. apply list_eq. intros j. rewrite list_lookup_alter. case_decide; [subst; by rewrite H | done].
Qed.

(** Replacing a tab by one whose nodes are its own or new. *)
Lemma tabs_ok_replace next next' l i s s' :
  TabsOk next l -> l !! i = Some s -> (next <= next')%N -> Wf next' s' ->
  (forall x, x ∈ ids (root s') -> x ∈ ids (root s) \/ (next <= x)%N) ->
  settings_of (root s') <= settings_of (root s) ->
  TabsOk next' (<[i := s']> l).
Proof.
  intros Hl Hi Hle Hs' Hids Hset. rewrite (insert_Permutation_delete l i s s' Hi).
  rewrite (delete_Permutation l i s Hi) in Hl. apply tabs_ok_cons in Hl as (Hs & Hrest & Hd & Hc).
  apply tabs_ok_cons. split_and!; [done | by eapply tabs_ok_weaken | | lia].
  intros x Hx Hn. destruct (Hids x Hx) as [Hx' | Hx']; [by eapply Hd |].
  apply (nodes_bound next) in Hn; [lia | apply Hrest].
Qed.

Lemma tabs_ok_delete next l i : TabsOk next l -> TabsOk next (delete i l).
Proof.
  intros Hl. destruct (l !! i) as [s |] eqn:Hi.
  - rewrite (delete_Permutation l i s Hi) in Hl. by apply tabs_ok_cons in Hl as (_ & ? & _).
  - apply lookup_ge_None in Hi. by rewrite delete_take_drop, take_ge, drop_ge, app_nil_r by lia.
Qed.

Lemma insert_at_Permutation (l : list Space) i s : take i l ++ s :: drop i l ≡ₚ s :: l.
Proof. by rewrite <- Permutation_middle, take_drop. Qed.

Lemma tabs_ok_insert next l i s :
  TabsOk next l -> Wf next s -> (forall x, x ∈ ids (root s) -> x ∉ nodes l) ->
  settings_of (root s) + settings_count l <= 1 -> TabsOk next (take i l ++ s :: drop i l).
Proof. intros ????. rewrite insert_at_Permutation. by apply tabs_ok_cons. Qed.

Lemma wf_single next i k m :
  (i < next)%N -> Wf next (Space_.with_medium m (Space_.unnamed (Leaf i k))).
Proof.
  intros Hi. constructor; simpl; [apply NoDup_singleton | by constructor | constructor | |]; unfold float_ids; simpl.
  - by intros ? ?%elem_of_nil.
  - done.
Qed.

Lemma lookup_insert_at (l : list Space) i s : i <= length l -> (take i l ++ s :: drop i l) !! i = Some s.
Proof. intros. rewrite lookup_app_r; rewrite length_take_le by done; [| done]. by rewrite Nat.sub_diag. Qed.

(** Rewriting the tab at an index to one with the same nodes and panes. *)
Lemma tabs_ok_alter next l i f :
  TabsOk next l ->
  (forall s, l !! i = Some s -> Wf next (f s) /\ ids (root (f s)) ≡ₚ ids (root s) /\
     settings_of (root (f s)) <= settings_of (root s)) ->
  TabsOk next (alter f i l).
Proof.
  intros Hl Hf. destruct (l !! i) as [s |] eqn:Hi.
  - destruct (Hf s eq_refl) as (Hw & Hp & Hc).
    rewrite (alter_insert l i f s Hi).
    eapply tabs_ok_replace; [done | done | done | done | | done].
    intros x. rewrite Hp. by left.
  - by rewrite alter_none.
Qed.
End Soundness.

(** ** Each operation keeps the tabs sound *)

Module Steps.
Import TreeProps RemoveProps SpaceProps Gestures Frames Soundness Ownership.
Section Steps.
Context {ui : Ui} {externs : Externs}.

#[local] Opaque forget_pane sync_active_view focus_pane.

(** There is room on the counter for the gesture. *)
Definition room (t : Tabs) : Prop := (next_pane_id t + 2 < 2 ^ 64)%N.

Lemma settings_of_perm p q : Tree.leaves p ≡ₚ Tree.leaves q -> settings_of p = settings_of q.
Proof. intros H. unfold settings_of. by rewrite H. Qed.

(** What the workspace needs of a split: the old panes stay, the new one is
    there, the nodes are old or new, and no settings page appears. *)
Definition opens (s s' : Space) (next next' : N) (new : option N) : Prop :=
  Wf next' s' /\ (next <= next')%N /\
  (forall x, x ∈ ids (root s') -> x ∈ ids (root s) \/ (next <= x)%N) /\
  (forall x, x ∈ leaf_ids (root s) -> x ∈ leaf_ids (root s')) /\
  settings_of (root s') = settings_of (root s) /\
  match new with Some n => n ∈ leaf_ids (root s') | None => s' = s end.

Lemma split_by_facts make s next s' next' new :
  splits make ->
  (forall sid n p p', make sid n p = Some p' -> settings_of p' = settings_of p) ->
  Wf next s -> (next + 2 < 2 ^ 64)%N -> Space_.split_by make s next = (s', next', new) ->
  opens s s' next next' new.
Proof.
  intros Hm Hset Hwf Hn Hs. destruct (split_by_wf _ _ _ _ _ _ Hm Hwf Hn Hs) as [Hw Hle].
  split; [done |]. split; [lia |]. revert Hs. unfold Space_.split_by.
  rewrite (bump_small next), (bump_small (next + 1)) by lia.
  destruct (make _ _ _) as [r |] eqn:E; intros [=]; subst.
  - assert (root (Space_.recompute_layout (set_root r s)) = r) as ->.
    { unfold Space_.recompute_layout. by case_bool_decide. }
    pose proof (Hset _ _ _ _ E) as Hc. apply Hm in E as (t & k & k' & l1 & l2 & H1 & H2 & H3).
    split_and!; [| | done |].
    + intros x. rewrite H3, !elem_of_cons. intros [-> | [-> | ?]]; [right; lia | right; lia | by left].
    + intros x. rewrite H1, H2, !fmap_app, !elem_of_app, !fmap_cons, !elem_of_cons. tauto.
    + rewrite H2, fmap_app, elem_of_app, !fmap_cons, !elem_of_cons. auto.
  - split_and!; [by left | done | done | done].
Qed.

Lemma split_with_kind_facts t d k s next s' next' new :
  is_settings k = false -> Wf next s -> (next + 2 < 2 ^ 64)%N ->
  Space_.split_with_kind t d k s next = (s', next', new) ->
  opens s s' next next' new.
Proof.
  intros Hk. apply split_by_facts; [apply split_leaf_into_splits |].
  intros sid n p p' E. apply update_leaf_spec in E as (k' & l1 & l2 & _ & _ & H1 & H2 & _).
  unfold settings_of. rewrite H1, H2, !filter_app. simpl. rewrite !filter_cons. simpl. rewrite Hk.
  by case_decide.
Qed.

(** Going to a pane of a tab that is there. *)
Lemma sound_at l i id next m c s :
  TabsOk next l -> l !! i = Some s -> id ∈ leaf_ids (root s) -> Sound (mkTabs l i id next m c).
Proof. intros. constructor; simpl; [done |]. by exists s. Qed.

Lemma sound_first l i next m c s :
  TabsOk next l -> l !! i = Some s -> Sound (mkTabs l i (Tree.first_leaf_id (root s)) next m c).
Proof. intros. eapply sound_at; [done | done | apply first_leaf_elem]. Qed.

(** An operation on one tab that keeps its panes. *)
Lemma sound_on_space i f t st :
  tabs st = t -> Sound t ->
  (forall s, spaces t !! i = Some s -> Wf (next_pane_id t) s -> Wf (next_pane_id t) (f s)) ->
  (forall s, spaces t !! i = Some s ->
     ids (root (f s)) ≡ₚ ids (root s) /\ leaf_ids (root (f s)) = leaf_ids (root s) /\
     settings_of (root (f s)) <= settings_of (root s)) ->
  Sound (tabs (on_space i f st)).
Proof.
  intros <- [Hok (s & Hs & Hin)] Hwf Hf. constructor; simpl.
  - apply tabs_ok_alter; [done |]. intros s' Hs'. destruct (Hf s' Hs') as (? & _ & ?).
    split_and!; [| done | done]. apply Hwf; [done |]. destruct Hok as [Hok _ _].
    by eapply (Forall_lookup_1 (Wf _)).
  - rewrite list_lookup_alter. case_decide; [subst; rewrite Hs; simpl | by exists s].
    exists (f s). split; [done |]. destruct (Hf s Hs) as (_ & -> & _). done.
Qed.

(** Operations that keep the tree. *)
Lemma sound_on_space_tree i f st :
  Sound (tabs st) -> (forall s, root (f s) = root s) ->
  (forall next s, Wf next s -> Wf next (f s)) -> Sound (tabs (on_space i f st)).
Proof.
  intros H Hr Hw. eapply sound_on_space; [done | done | auto |].
  intros s _. by rewrite Hr.
Qed.

Lemma set_layout_root l s : root (Space_.set_layout l s) = root s.
Proof. unfold Space_.set_layout. by rewrite recompute_root. Qed.
Lemma raise_root i s : root (Space_.raise_pane i s) = root s.
Proof. unfold Space_.raise_pane. by destruct (list_find _ _) as [[??] |]. Qed.

Lemma tabs_wf t i s : Sound t -> spaces t !! i = Some s -> Wf (next_pane_id t) s.
Proof. intros [[H _ _] _] Hs. by eapply (Forall_lookup_1 (Wf _)). Qed.

(** Splitting a pane of a tab, wherever the tab is. *)
Lemma sound_split_space i t d k st st' new :
  Sound (tabs st) -> room (tabs st) -> is_settings k = false ->
  Opening.split_space i t d k st = (st', new) ->
  Sound (tabs st') /\ active_space (tabs st') = active_space (tabs st) /\
  (forall n, new = Some n -> exists s, spaces (tabs st') !! i = Some s /\ n ∈ leaf_ids (root s)).
Proof.
  intros Hs Hr Hk. unfold Opening.split_space.
  destruct (spaces (tabs st) !! i) as [s |] eqn:Hi; [| intros [=]; subst; by split_and!].
  destruct (Space_.split_with_kind _ _ _ _ _) as [[s' next] n'] eqn:E. intros [=]; subst.
  destruct (split_with_kind_facts _ _ _ _ _ _ _ _ Hk (tabs_wf _ _ _ Hs Hi) Hr E)
    as (Hw & Hle & Hids & Hleaf & Hset & Hnew).
  assert (spaces (tabs st) !! i = Some s -> alter (fun _ => s') i (spaces (tabs st)) = <[i := s']> (spaces (tabs st))) as Ha.
  { intros H. by rewrite (alter_insert _ _ _ s). }
  destruct Hs as [Hok (sa & Hsa & Hin)]. split_and!; [| done |].
  - constructor; simpl.
    + rewrite Ha by done. eapply tabs_ok_replace; [done | done | done | done | done | lia].
    + rewrite list_lookup_alter. case_decide; [subst | by exists sa].
      exists s'. rewrite Hsa. split; [done |]. apply Hleaf. congruence.
  - intros n ->. exists s'. simpl. rewrite list_lookup_alter, decide_True, Hi by done. split; [done |].
    exact Hnew.
Qed.

(** Moving the focus to a pane of the tab on screen. *)
Lemma sound_focus_pane id st s :
  Sound (tabs st) -> active st = Some s -> id ∈ leaf_ids (root s) -> Sound (tabs (focus_pane id st)).
Proof. intros [Hok _] Hs Hin. rewrite tabs_focus_pane. by eapply sound_at. Qed.
(** *** The strip *)

Lemma nodes_roots l l' : root <$> l = root <$> l' -> nodes l = nodes l'.
Proof.
  revert l'. induction l as [| s l IH]; intros [| s' l']; try done. rewrite !fmap_cons.
  intros [= Hr Hl]. rewrite !nodes_cons, Hr. by rewrite (IH l').
Qed.
Lemma settings_roots l l' : root <$> l = root <$> l' -> settings_count l = settings_count l'.
Proof.
  revert l'. induction l as [| s l IH]; intros [| s' l']; try done. rewrite !fmap_cons.
  intros [= Hr Hl]. rewrite !settings_cons, Hr. by rewrite (IH l').
Qed.

(** Renaming tabs, and the like. *)
Lemma sound_roots t l :
  Sound t -> root <$> l = root <$> spaces t -> Forall (Wf (next_pane_id t)) l ->
  Sound (mkTabs l (active_space t) (active_pane_id t) (next_pane_id t) (maximized_pane t) (current_tab t)).
Proof.
  intros [[_ Hn Hc] (s & Hs & Hin)] Hr Hw. constructor; simpl.
  - constructor; [done | by rewrite (nodes_roots _ _ Hr) | by rewrite (settings_roots _ _ Hr)].
  - assert (root <$> l !! active_space t = Some (root s)) as Hs'.
    { rewrite <- list_lookup_fmap, Hr, list_lookup_fmap, Hs. done. }
    apply fmap_Some in Hs' as (s' & Hs' & Heq). exists s'. split; [done |]. by rewrite <- Heq.
Qed.

Lemma wf_rename next n s : Wf next s -> Wf next (Labels.set_name n s).
Proof. by intros []; constructor. Qed.
Lemma wf_set_named next b s : Wf next s -> Wf next (Labels.set_named b s).
Proof. by intros []; constructor. Qed.

Lemma sound_labels home st : Sound (tabs st) -> Sound (tabs (Labels.refresh_space_labels home st)).
Proof.
  intros Hs. apply (sound_roots (tabs st)); [done | |].
  - rewrite fmap_imap. apply list_eq. intros i. rewrite list_lookup_imap, list_lookup_fmap.
    destruct (spaces (tabs st) !! i) as [s |]; [| done]. simpl. by destruct (named s).
  - apply Forall_lookup. intros i s. rewrite list_lookup_imap.
    intros (s' & Hs' & ->)%fmap_Some. destruct (named s'); [by eapply tabs_wf | by eapply wf_rename, tabs_wf].
Qed.

(** A tab of one new pane at the end of the strip, on screen. *)
Lemma sound_push l next S k m c :
  TabsOk next l -> (next + 1 < 2 ^ 64)%N -> root S = Leaf next k ->
  floating S = [] -> layout S = Bsp -> settings_count l + settings_of (root S) <= 1 ->
  Sound (mkTabs (l ++ [S]) (length l) next (bump next) m c).
Proof.
  intros Hok Hr Hroot Hf Hl Hc. rewrite bump_small by lia.
  eapply (sound_at _ _ _ _ _ _ S).
  - rewrite <- Permutation_cons_append. apply tabs_ok_cons. split_and!.
    + constructor; unfold float_ids; rewrite ?Hroot, ?Hf, ?Hl; simpl;
        [apply NoDup_singleton | constructor; [lia | done] | constructor | by intros ? ?%elem_of_nil | done].
    + apply (tabs_ok_weaken next); [lia | done].
    + rewrite Hroot. intros x ->%list_elem_of_singleton Hx.
      apply (nodes_bound next) in Hx; [lia | apply Hok].
    + lia.
  - by rewrite lookup_app_r, Nat.sub_diag by done.
  - rewrite Hroot. by apply list_elem_of_singleton.
Qed.

Lemma settings_of_leaf i k : settings_of (Leaf i k) = if is_settings k then 1 else 0.
Proof. unfold settings_of. simpl. rewrite filter_cons. cbn [snd]. by destruct (is_settings k). Qed.

Lemma settings_from_None n l : Opening.settings_from n l = None -> settings_count l = 0.
Proof.
  revert n. induction l as [| s l IH]; intros n; simpl; [done |].
  destruct (Space_.settings_leaf s) eqn:E; [done |]. intros H. rewrite (IH _ H).
  assert (forall p, Tree.settings_leaf p = None -> settings_of p = 0) as Hp; [| by rewrite Hp].
  clear. intros p. induction p as [i k | ??? a IHa b IHb]; simpl; unfold settings_of; simpl.
  - by destruct k.
  - destruct (Tree.settings_leaf a); [done |]. intros Hb. rewrite filter_app, length_app.
    fold (settings_of a) (settings_of b). by rewrite IHa, IHb.
Qed.

Lemma settings_leaf_elem p id : Tree.settings_leaf p = Some id -> id ∈ leaf_ids p.
Proof.
  induction p as [i k | ??? a IHa b IHb]; simpl.
  - destruct k; intros [=]; subst; by left.
  - rewrite fmap_app, elem_of_app. destruct (Tree.settings_leaf a); naive_solver.
Qed.

Lemma settings_from_Some n l i id :
  Opening.settings_from n l = Some (i, id) ->
  exists s, n <= i /\ l !! (i - n) = Some s /\ id ∈ leaf_ids (root s).
Proof.
  revert n. induction l as [| s l IH]; intros n; simpl; [done |].
  destruct (Space_.settings_leaf s) as [x |] eqn:E.
  - intros [=]; subst. exists s. rewrite Nat.sub_diag. split_and!; [done | done | by apply settings_leaf_elem].
  - intros H. destruct (IH _ H) as (s' & Hle & Hs & Hin). exists s'.
    split_and!; [lia | | done]. by replace (i - n) with (S (i - S n)) by lia.
Qed.

Lemma settings_from_kind n l i id :
  Opening.settings_from n l = Some (i, id) ->
  exists s, l !! (i - n) = Some s /\ Tree.settings_leaf (root s) = Some id.
Proof.
  revert n. induction l as [| s l IH]; intros n; simpl; [done |].
  destruct (Space_.settings_leaf s) as [x |] eqn:E.
  - intros [=]; subst. exists s. by rewrite Nat.sub_diag.
  - intros H. destruct (settings_from_Some _ _ _ _ H) as (_ & Hle & _).
    destruct (IH _ H) as (s' & Hs & Hk). exists s'. split; [| done].
    by replace (i - n) with (S (i - S n)) by lia.
Qed.

Lemma settings_leaf_kind s id :
  NoDup (leaf_ids (root s)) -> Tree.settings_leaf (root s) = Some id ->
  exists p, Space_.leaf_kind s id = Some (Settings p).
Proof.
  intros Hnd Hs. unfold Space_.leaf_kind.
  assert (forall p, Tree.settings_leaf p = Some id -> exists q, (id, Settings q) ∈ Tree.leaves p) as H.
  { clear. intros p. induction p as [i k | ??? a IHa b IHb]; simpl.
    - destruct k as [| | | | q |]; intros [=]; subst. exists q. by left.
    - destruct (Tree.settings_leaf a) as [x |].
      + intros [=]; subst. destruct (IHa eq_refl) as [q Hq]. exists q. rewrite elem_of_app. by left.
      + intros Hb. destruct (IHb Hb) as [q Hq]. exists q. rewrite elem_of_app. by right. }
  destruct (H _ Hs) as [q Hq]. exists q. by apply leaf_kind_NoDup.
Qed.

Lemma space_index_Some st id i :
  space_index_of_pane st id = Some i -> exists s, spaces (tabs st) !! i = Some s /\ id ∈ leaf_ids (root s).
Proof.
  unfold space_index_of_pane. intros (s & Hs & Hh)%FocusProps.position_Some_lookup.
  exists s. split; [done |]. by apply contains_leaf_spec.
Qed.

(** A pane of a sound window is in one tab. *)
Lemma space_of_unique t i j si sj id :
  Sound t -> spaces t !! i = Some si -> spaces t !! j = Some sj ->
  id ∈ leaf_ids (root si) -> id ∈ leaf_ids (root sj) -> i = j.
Proof.
  intros [Hok _] Hi Hj Hin Hjn. destruct (decide (i = j)) as [| Hne]; [done |]. exfalso.
  rewrite (delete_Permutation _ _ _ Hi) in Hok. apply tabs_ok_cons in Hok as (_ & _ & Hd & _).
  apply (Hd id); [by apply leaf_id_in_ids |]. apply list_elem_of_bind. exists sj.
  split; [by apply leaf_id_in_ids |]. apply list_elem_of_lookup.
  destruct (decide (j < i)).
  - exists j. by rewrite list_lookup_delete_lt.
  - exists (j - 1). rewrite list_lookup_delete_ge by lia. by replace (S (j - 1)) with j by lia.
Qed.
(** *** The gestures of the window *)

Lemma sound_split_active default_path d k st :
  Sound (tabs st) -> room (tabs st) -> is_settings k = false ->
  Sound (tabs (Opening.split_active_pane default_path d k st)).
Proof.
  intros Hs Hr Hk. unfold Opening.split_active_pane.
  destruct (Opening.split_space _ _ _ _ _) as [st' [n |]] eqn:E;
    destruct (sound_split_space _ _ _ _ _ _ _ Hs Hr Hk E) as (Hs' & Ha & Hn); [| done].
  destruct (Hn n eq_refl) as (s & Hl & Hin). rewrite tabs_sync, tabs_set_path, tabs_bind.
  eapply sound_focus_pane; [done | | done]. unfold active. by rewrite Ha.
Qed.

Lemma set_leaf_kind_keeps next t k s k0 :
  Wf next s -> Space_.leaf_kind s t = Some k0 -> is_settings k = is_settings k0 ->
  let s' := default s (Space_.set_leaf_kind t k s) in
  Wf next s' /\ ids (root s') = ids (root s) /\ leaf_ids (root s') = leaf_ids (root s) /\
  settings_of (root s') = settings_of (root s).
Proof.
  intros Hw Hk Hset. destruct (Space_.set_leaf_kind t k s) as [s' |] eqn:E; [| done]. simpl.
  split; [by eapply set_leaf_kind_wf |]. unfold Space_.set_leaf_kind in E.
  apply fmap_Some in E as (r & E & ->). simpl.
  apply update_leaf_spec in E as (k' & l1 & l2 & m1 & m2 & H1 & H2 & H3 & H4 & H5).
  unfold Space_.leaf_kind in Hk. assert (k' = k0) as -> by congruence.
  rewrite H1, H2, H3, H4, !fmap_app. split_and!; [done | done |].
  unfold settings_of. rewrite H1, H2. cbn [Tree.leaves app].
  rewrite !filter_app, !filter_cons. cbn [snd]. rewrite Hset. by case_decide; rewrite !length_app.
Qed.

(** Showing a file or a settings page in a pane that shows one. *)
Lemma sound_set_kind i t k k0 st :
  Sound (tabs st) -> spaces (tabs st) !! i ≫= (fun s => Space_.leaf_kind s t) = Some k0 ->
  is_settings k = is_settings k0 ->
  Sound (tabs (on_space i (fun s => default s (Space_.set_leaf_kind t k s)) st)).
Proof.
  intros Hs Hk Hset. destruct (spaces (tabs st) !! i) as [s |] eqn:Hi; [| done]. simpl in Hk.
  eapply sound_on_space; [done | done | |]; intros s' Hs' *; rewrite Hi in Hs'; simplify_eq.
  - intros Hw. by apply (set_leaf_kind_keeps _ _ _ _ k0).
  - destruct (set_leaf_kind_keeps _ t k s' k0 (tabs_wf _ _ _ Hs Hi) Hk Hset) as (_ & H1 & H2 & H3).
    by rewrite H1, H2, H3.
Qed.

Lemma sound_show_file id p st : Sound (tabs st) -> Sound (tabs (Opening.show_file_in_pane id p st).1).
Proof.
  intros Hs. unfold Opening.show_file_in_pane. destruct (space_index_of_pane st id) as [i |]; [| done].
  destruct (spaces (tabs st) !! i ≫= _) as [[] |] eqn:E; try done. cbn [fst].
  eapply sound_set_kind; [exact Hs | exact E | done].
Qed.

Lemma sound_open_file p st :
  Sound (tabs st) -> room (tabs st) -> Sound (tabs (Opening.open_file_pane p st)).
Proof.
  intros Hs Hr. unfold Opening.open_file_pane. destruct (Opening.active_pane_shows_file st).
  { rewrite tabs_sync. by apply sound_show_file. }
  destruct (Opening.split_space _ _ _ _ _) as [st' [n |]] eqn:E;
    destruct (sound_split_space _ _ _ _ _ _ _ Hs Hr (eq_refl : is_settings (File p) = false) E)
      as (Hs' & Ha & Hn); [| done].
  destruct (Hn n eq_refl) as (s & Hl & Hin). rewrite tabs_sync.
  eapply sound_focus_pane; [done | | done]. unfold active. simpl. by rewrite Ha.
Qed.

Lemma diff_leaf_elem s cwd id : Space_.diff_leaf_for s cwd = Some id -> id ∈ leaf_ids (root s).
Proof.
  unfold Space_.diff_leaf_for. intros ([i c] & Hh & ->)%fmap_Some. simpl.
  apply head_Some_elem_of, list_elem_of_filter in Hh as [_ Hh].
  induction (root s) as [j k | ??? a IHa b IHb]; simpl in *.
  - destruct k; try by apply elem_of_nil in Hh. apply list_elem_of_singleton in Hh. simplify_eq. by left.
  - rewrite fmap_app, elem_of_app. rewrite elem_of_app in Hh. tauto.
Qed.

Lemma sound_review src st :
  Sound (tabs st) -> room (tabs st) -> Sound (tabs (Opening.open_diff_pane src st)).
Proof.
  intros Hs Hr. unfold Opening.open_diff_pane. case_bool_decide; [done |].
  destruct (active st) as [s |] eqn:Ha; [| done].
  destruct (Space_.diff_leaf_for s _) as [id |] eqn:Ed.
  { eapply sound_focus_pane; [done | done | by eapply diff_leaf_elem]. }
  destruct (Opening.split_space _ _ _ _ _) as [st' [n |]] eqn:E;
    destruct (sound_split_space _ _ _ _ _ _ _ Hs Hr
                (eq_refl : is_settings (Diff (Labels.pane_working_path st src)) = false) E)
      as (Hs' & Hact & Hn); [| done].
  destruct (Hn n eq_refl) as (s' & Hl & Hin). rewrite tabs_sync.
  eapply sound_focus_pane; [done | | done]. unfold active. by rewrite Hact.
Qed.

Lemma sound_add_tab home default_path m st :
  Sound (tabs st) -> room (tabs st) -> Sound (tabs (Opening.add_space home default_path m st)).
Proof.
  intros [Hok _] Hr. unfold room in Hr. unfold Opening.add_space, Opening.take_id. rewrite tabs_sync.
  apply sound_labels. rewrite tabs_set_path. simpl. rewrite length_app. simpl.
  rewrite Nat.add_sub.
  eapply sound_push; try done; [lia |]. pose proof (ok_settings _ _ Hok).
  cbn [root Space_.with_medium Space_.unnamed]. rewrite settings_of_leaf. simpl. lia.
Qed.
Lemma sound_close_tab home i st :
  Sound (tabs st) -> room (tabs st) -> Sound (tabs (Opening.close_space_at home i st)).
Proof.
  intros [Hok Hf] Hr. unfold room in Hr. unfold Opening.close_space_at.
  destruct (spaces (tabs st) !! i) as [closed |] eqn:Hi; [| by constructor].
  set (st1 := foldl _ _ _).
  assert (tabs st1 = tabs (set_spaces (delete i (spaces (tabs st))) st)) as Ht by apply tabs_forget_all.
  pose proof (tabs_ok_delete _ _ i Hok) as Hd.
  assert (spaces (tabs st1) = delete i (spaces (tabs st))) as Hsp by by rewrite Ht.
  assert (next_pane_id (tabs st1) = next_pane_id (tabs st)) as Hnx by by rewrite Ht.
  assert (active_space (tabs st1) = active_space (tabs st)) as Ha by by rewrite Ht.
  clearbody st1. rewrite <- Hsp, <- Hnx in Hd. destruct (spaces (tabs st1)) as [| s0 l0] eqn:El.
  - unfold Opening.take_id. rewrite tabs_sync. apply sound_labels. rewrite tabs_bind. simpl. rewrite El.
    apply (sound_push [] _ _ Chat); try done; [lia |].
    cbn [root Space_.unnamed]. rewrite settings_of_leaf. simpl. unfold settings_count. simpl. lia.
  - rewrite tabs_sync, Ha. set (l := s0 :: l0) in *.
    set (a := if i <? _ then _ else _).
    assert (a < length l) as Hlt.
    { assert (length l = length (spaces (tabs st)) - 1) as Hlen.
      { rewrite Hsp. pose proof (lookup_lt_Some _ _ _ Hi). rewrite length_delete by done. lia. }
      destruct Hf as (s & Hs & _). apply lookup_lt_Some in Hs. apply lookup_lt_Some in Hi.
      subst a. destruct (Nat.ltb_spec i (active_space (tabs st))); [lia |].
      assert (0 < length l) by (subst l; simpl; lia). case_bool_decide; lia. }
    destruct (lookup_lt_is_Some_2 l a Hlt) as [s Hs]. simpl. rewrite El. fold l. rewrite Hs. simpl.
    rewrite El. by apply sound_first.
Qed.
Lemma close_tab_keeps home i st :
  1 < length (spaces (tabs st)) ->
  next_pane_id (tabs (Opening.close_space_at home i st)) = next_pane_id (tabs st) /\
  length (spaces (tabs st)) - 1 <= length (spaces (tabs (Opening.close_space_at home i st))).
Proof.
  intros Hlen. unfold Opening.close_space_at.
  destruct (spaces (tabs st) !! i) as [closed |] eqn:Hi; [| split; [done | lia]].
  set (st1 := foldl _ _ _).
  assert (tabs st1 = tabs (set_spaces (delete i (spaces (tabs st))) st)) as Ht by apply tabs_forget_all.
  assert (spaces (tabs st1) = delete i (spaces (tabs st))) as Hsp by by rewrite Ht.
  assert (next_pane_id (tabs st1) = next_pane_id (tabs st)) as Hnx by by rewrite Ht.
  clearbody st1. apply (f_equal length) in Hsp.
  rewrite length_delete in Hsp by done.
  destruct (spaces (tabs st1)) as [| s0 l0] eqn:El; [simpl in Hsp; lia |]. rewrite tabs_sync.
  case_match; simpl; rewrite El, Hsp; split; try done; lia.
Qed.

Lemma sound_close_tabs home l st :
  Sound (tabs st) -> room (tabs st) -> length l < length (spaces (tabs st)) ->
  let st' := foldl (fun st i => Opening.close_space_at home i st) st l in
  Sound (tabs st') /\ room (tabs st') /\ length (spaces (tabs st)) - length l <= length (spaces (tabs st')).
Proof.
  revert st. induction l as [| i l IH]; intros st Hs Hr Hl; simpl in *; [split_and!; [done | done | lia] |].
  destruct (close_tab_keeps home i st ltac:(lia)) as [Hn Hlen].
  destruct (IH (Opening.close_space_at home i st)) as (H1 & H2 & H3).
  - by apply sound_close_tab.
  - unfold room. by rewrite Hn.
  - lia.
  - split_and!; [done | done | lia].
Qed.

Lemma sound_close_others home i st :
  Sound (tabs st) -> room (tabs st) -> Sound (tabs (Opening.close_others home i st)).
Proof.
  intros Hs Hr. unfold Opening.close_others.
  destruct (Nat.leb_spec (length (spaces (tabs st))) i) as [? | Hi]; [done |].
  set (after := reverse (seq (i + 1) _)). set (before := reverse (seq 0 i)).
  assert (length after = length (spaces (tabs st)) - (i + 1)) as Ha by (unfold after; by rewrite length_reverse, length_seq).
  assert (length before = i) as Hb by (unfold before; by rewrite length_reverse, length_seq).
  destruct (sound_close_tabs home after st Hs Hr ltac:(lia)) as (H1 & H2 & H3).
  apply sound_close_tabs; [done | done | lia].
Qed.

Lemma sound_open_settings home st :
  Sound (tabs st) -> room (tabs st) -> Sound (tabs (Opening.open_settings_tab home st)).
Proof.
  intros Hs Hr. pose proof Hs as [Hok Hf]. unfold room in Hr. unfold Opening.open_settings_tab.
  destruct (Opening.settings_pane _) as [[i id] |] eqn:E.
  - apply settings_from_Some in E as (s & _ & Hi & Hin). rewrite Nat.sub_0_r in Hi. simpl in Hi.
    case_match; [by constructor |]. rewrite tabs_sync. simpl. by eapply sound_at.
  - unfold Opening.take_id. rewrite tabs_sync. apply sound_labels. simpl. rewrite length_app.
    rewrite Nat.add_sub. eapply sound_push; try done; [lia |].
    apply settings_from_None in E. simpl in E. rewrite E. cbn [root Space_.new].
    by rewrite settings_of_leaf.
Qed.

Lemma sound_settings_page page st :
  Sound (tabs st) -> Sound (tabs (Opening.settings_set_page page st)).
Proof.
  intros Hs. unfold Opening.settings_set_page.
  destruct (Opening.settings_pane st) as [[i id] |] eqn:E; [| done].
  apply settings_from_Some in E as Hi. destruct Hi as (s & _ & Hi & Hin). rewrite Nat.sub_0_r in Hi.
  assert (exists p, Space_.leaf_kind s id = Some (Settings p)) as [p0 Hk].
  { apply settings_from_kind in E as (s' & Hi' & Hk). rewrite Nat.sub_0_r in Hi'. simplify_eq.
    apply settings_leaf_kind; [by eapply wf_root_leaves, tabs_wf | done]. }
  apply (sound_set_kind _ _ _ (Settings p0)); [done | by rewrite Hi | done].
Qed.

(** Selecting a tab: its first pane takes the focus. *)
Lemma sound_select i st : Sound (tabs st) -> Sound (tabs (Opening.select_space i st)).
Proof.
  intros Hs. unfold Opening.select_space. destruct (spaces (tabs st) !! i) as [s |] eqn:Hi; rewrite tabs_sync; [| done].
  pose proof (sound_on_space_tree i Space_.recompute_layout st Hs recompute_root recompute_again_wf) as [Hok _].
  simpl in *. rewrite <- (recompute_root s). eapply sound_first; [done |].
  by rewrite list_lookup_alter, decide_True, Hi by done.
Qed.

Lemma sound_switch d st : Sound (tabs st) -> Sound (tabs (Opening.switch_space d st).1).
Proof.
  intros Hs. unfold Opening.switch_space. case_match; [done |]. case_bool_decide; [done |]. simpl.
  set (target := Z.to_nat _) in *.
  pose proof (sound_on_space_tree target Space_.recompute_layout st Hs recompute_root recompute_again_wf) as [Hok _].
  simpl in *. assert (target < length (alter Space_.recompute_layout target (spaces (tabs st)))) as Hlt.
  { rewrite length_alter. subst target. match goal with H : (_ <=? _) = false |- _ => apply Nat.leb_gt in H end.
    pose proof (Z.mod_pos_bound (Z.of_nat (active_space (tabs st)) + d) (Z.of_nat (length (spaces (tabs st))))). lia. }
  destruct (lookup_lt_is_Some_2 _ _ Hlt) as [s Hl]. rewrite Hl. simpl. by apply sound_first.
Qed.

Lemma sound_begin_rename i st : Sound (tabs st) -> Sound (tabs (Opening.begin_space_rename i st)).
Proof.
  intros Hs. pose proof Hs as [Hok _]. unfold Opening.begin_space_rename.
  destruct (spaces (tabs st) !! i) as [s |] eqn:Hi; [| done]. case_bool_decide; [done |].
  rewrite tabs_sync. simpl. by apply sound_first.
Qed.

Lemma sound_rename n st : Sound (tabs st) -> Sound (tabs (Labels.rename_active_space n st)).
Proof.
  intros Hs. unfold Labels.rename_active_space. case_bool_decide; [done |].
  apply sound_on_space_tree; [done | done |]. intros. by apply wf_set_named, wf_rename.
Qed.

Lemma sound_set_layout i l st : Sound (tabs st) -> Sound (tabs (Opening.set_space_layout i l st).1).
Proof.
  intros Hs. unfold Opening.set_space_layout. destruct (spaces (tabs st) !! i); [| done].
  case_bool_decide; apply (sound_on_space_tree i (Space_.set_layout l) st);
    done || apply set_layout_root || (intros; by apply set_layout_wf).
Qed.

Lemma sound_cycle st : Sound (tabs st) -> Sound (tabs (Opening.cycle_space_layout st).1).
Proof. intros Hs. unfold Opening.cycle_space_layout. destruct (active st); [| done]. by apply sound_set_layout. Qed.
Lemma sound_reorder from to st : Sound (tabs st) -> Sound (tabs (Opening.reorder_space from to st)).
Proof.
  intros Hs. pose proof Hs as [Hok (sa & Hsa & Hin)]. unfold Opening.reorder_space.
  destruct (bool_decide (from = to) || _ || _) eqn:E; [done |].
  apply orb_false_iff in E as [[Hne%bool_decide_eq_false Hf%Nat.leb_gt]%orb_false_iff Ht%Nat.leb_gt].
  destruct (spaces (tabs st) !! from) as [s |] eqn:Hi; [| done].
  set (l := spaces (tabs st)) in *. set (l' := delete from l).
  assert (TabsOk (next_pane_id (tabs st)) (take to l' ++ s :: drop to l')) as Hok'.
  { rewrite insert_at_Permutation. unfold l'. by rewrite <- (delete_Permutation l from s Hi). }
  assert (length l' = length l - 1) as Hlen by (unfold l'; by rewrite length_delete).
  assert (forall j, (take to l' ++ s :: drop to l') !! j =
            if decide (j = to) then Some s else if decide (j < to) then l' !! j else l' !! (j - 1)) as Hlook.
  { intros j. case_decide as Hj; [subst; apply lookup_insert_at; lia |]. case_decide.
    - rewrite lookup_app_l by (rewrite length_take; lia). by rewrite lookup_take_lt.
    - rewrite lookup_app_r by (rewrite length_take; lia). rewrite length_take, Nat.min_l by lia.
      replace (j - to) with (S (j - to - 1)) by lia. simpl. rewrite lookup_drop. f_equal. lia. }
  assert (forall a, (take to l' ++ s :: drop to l') !! a = Some sa ->
            Sound (mkTabs (take to l' ++ s :: drop to l') a (active_pane_id (tabs st))
              (next_pane_id (tabs st)) (maximized_pane (tabs st)) (current_tab (tabs st)))) as Hgo.
  { intros a Ha. by eapply sound_at. }
  pose proof (lookup_lt_Some _ _ _ Hsa) as Hlt. unfold l' in Hlook.
  assert (forall j, delete from l !! j = if decide (j < from) then l !! j else l !! S j) as Hdel.
  { intros j. case_decide; [by rewrite list_lookup_delete_lt | by rewrite list_lookup_delete_ge by lia]. }
  case_bool_decide as Ha; simpl.
  { apply Hgo. rewrite Hlook, decide_True by done. simpl in Ha. congruence. }
  simpl in Ha. destruct (Nat.ltb_spec (active_space (tabs st)) from), (Nat.leb_spec to (active_space (tabs st))),
    (Nat.ltb_spec from (active_space (tabs st))), (Nat.leb_spec (active_space (tabs st)) to);
    simpl; apply Hgo; rewrite Hlook, !Hdel; repeat case_decide; try lia; rewrite <- Hsa; f_equal; lia.
Qed.

(** *** Closing panes *)

Lemma space_close_facts next t s s' n :
  Wf next s -> Space_.close t s = (s', n) ->
  Wf next s' /\ (forall x, x ∈ ids (root s') -> x ∈ ids (root s)) /\
  settings_of (root s') <= settings_of (root s) /\
  (forall x, x ∈ leaf_ids (root s) -> x <> t -> x ∈ leaf_ids (root s')) /\
  match n with Some m => m ∈ leaf_ids (root s') | None => s' = s end.
Proof.
  intros Hw Hc. split; [by eapply close_wf |]. revert Hc. unfold Space_.close.
  destruct (Tree.remove_leaf t (root s)) as [[r m] |] eqn:E; intros [=]; subst; [| done].
  rewrite recompute_root. simpl. apply remove_leaf_spec in E as (k & l1 & l2 & sid & H1 & H2 & H3 & H4).
  split_and!; [| | | done].
  - intros x Hx. rewrite H3. by do 2 right.
  - unfold settings_of. rewrite H1, H2, !filter_app, !length_app, filter_cons. case_decide; simpl; lia.
  - intros x. rewrite H1, H2, !fmap_app, !elem_of_app, fmap_cons, elem_of_cons. simpl. tauto.
Qed.

Lemma tabs_ok_close next l i t s s' n :
  TabsOk next l -> l !! i = Some s -> Space_.close t s = (s', n) -> TabsOk next (<[i := s']> l).
Proof.
  intros Hok Hi Hc. assert (Wf next s) as Hw by (eapply (Forall_lookup_1 (Wf _)); [apply Hok | done]).
  destruct (space_close_facts _ _ _ _ _ Hw Hc) as (? & Hx & ? & _).
  eapply tabs_ok_replace; [done | done | reflexivity | done | | done]. intros x ?. left. by apply Hx.
Qed.

Lemma sound_close_pane id st : Sound (tabs st) -> Sound (tabs (Closing.close_pane id st)).
Proof.
  intros Hs. pose proof Hs as [Hok (sa & Hsa & Hin)]. unfold Closing.close_pane.
  destruct (space_index_of_pane st id) as [i |] eqn:E; [| done].
  apply space_index_Some in E as (s & Hi & Hid).
  destruct (Space_.close id s) as [s' n] eqn:Hc. rewrite tabs_sync, Hi. simpl. rewrite Hc. simpl.
  set (st1 := on_space i _ st).
  assert (tabs (forget_pane id st1) =
          mkTabs (<[i := s']> (spaces (tabs st))) (active_space (tabs st)) (active_pane_id (tabs st))
            (next_pane_id (tabs st)) (maximized_pane (tabs st)) (current_tab (tabs st))) as Ht.
  { rewrite tabs_forget. subst st1. unfold on_space, set_spaces, on_tabs. simpl.
    rewrite (alter_insert _ _ _ s Hi), Hc. done. }
  clearbody st1. set (st2 := if bool_decide (maximized_pane _ = _) then _ else _).
  assert (exists m, tabs st2 =
          mkTabs (<[i := s']> (spaces (tabs st))) (active_space (tabs st)) (active_pane_id (tabs st))
            (next_pane_id (tabs st)) m (current_tab (tabs st))) as [m Ht2].
  { subst st2. case_bool_decide; eexists; simpl; by rewrite Ht. }
  clearbody st2. pose proof (tabs_ok_close _ _ _ _ _ _ _ Hok Hi Hc) as Hok'.
  pose proof (space_close_facts _ _ _ _ _ (tabs_wf _ _ _ Hs Hi) Hc) as (_ & _ & _ & Hkeep & Hn).
  pose proof (lookup_lt_Some _ _ _ Hi) as Hlt.
  destruct (bool_decide _ && _) eqn:Hact.
  - apply andb_true_iff in Hact as [Ha%bool_decide_eq_true Hp%bool_decide_eq_true]. subst i.
    destruct n as [x |]; simpl; rewrite Ht2; simpl.
    + eapply sound_at; [done | by apply list_lookup_insert_eq | done].
    + subst s'. eapply sound_at; [done | by apply list_lookup_insert_eq |]. congruence.
  - assert (tabs (match n with Some _ => st2 | None => st2 end) = tabs st2) as -> by by destruct n.
    rewrite Ht2. destruct (decide (i = active_space (tabs st))) as [-> | Hne].
    + eapply sound_at; [done | by apply list_lookup_insert_eq |]. assert (sa = s) as -> by congruence.
      apply Hkeep; [done |]. intros He. by rewrite !bool_decide_eq_true_2 in Hact by done.
    + eapply sound_at; [done | by rewrite list_lookup_insert_ne | done].
Qed.
Lemma tabs_save_pane id st : tabs (Buffers.save_pane_files id st).1 = tabs st.
Proof. unfold Buffers.save_pane_files. by destruct (Buffers.save_pane _ _ _) as [[??] ?]. Qed.
Lemma tabs_save_file id p st : tabs (Buffers.save_file id p st).1 = tabs st.
Proof.
  unfold Buffers.save_file. destruct (Buffers.find_buffer st _) as [[i [key b]] |]; [| done].
  destruct (dirty b); [| done]. by destruct (Buffers.save _ _) as [[??] ?].
Qed.

Lemma sound_request_close id st : Sound (tabs st) -> Sound (tabs (Closing.request_close_pane id st)).
Proof.
  intros Hs. unfold Closing.request_close_pane. case_match; [| by apply sound_close_pane].
  case_match; [| done]. pose proof (tabs_save_pane id st) as Ht.
  destruct (Buffers.save_pane_files id st) as [st' ok]. simpl in Ht.
  destruct ok; rewrite <- Ht in Hs; [by apply sound_close_pane | done].
Qed.

Lemma sound_close_file id p st : Sound (tabs st) -> Sound (tabs (Closing.close_file_now id p st)).
Proof.
  intros Hs. unfold Closing.close_file_now.
  set (st0 := if bool_decide (pending_close_file _ = _) then _ else _).
  assert (tabs st0 = tabs st) as Ht by (subst st0; by case_bool_decide).
  clearbody st0. rewrite <- Ht in Hs. clear Ht st.
  destruct (space_index_of_pane st0 id) as [i |]; [| done].
  destruct (spaces (tabs st0) !! i ≫= _) as [[] |] eqn:E; try done.
  destruct (pane_open_files _ !! id) as [files |].
  2: { case_bool_decide; [by apply sound_close_pane | done]. }
  destruct (position _ files) as [index |]; [| done].
  destruct (delete index files) as [| f rest]; [by apply sound_close_pane |].
  case_bool_decide; [| done]. case_match; [| done]. rewrite tabs_sync.
  eapply sound_set_kind; [exact Hs | exact E | done].
Qed.

Lemma sound_request_close_file id p st :
  Sound (tabs st) -> Sound (tabs (Closing.request_close_file id p st)).
Proof.
  intros Hs. unfold Closing.request_close_file. case_match; [| by apply sound_close_file].
  case_match; [| done]. pose proof (tabs_save_file id p st) as Ht.
  destruct (Buffers.save_file id p st) as [st' ok]. simpl in Ht.
  destruct ok; rewrite <- Ht in Hs; [by apply sound_close_file | done].
Qed.

Lemma sound_pending_pane_save st : Sound (tabs st) -> Sound (tabs (Closing.close_pending_pane_save st)).
Proof.
  intros Hs. unfold Closing.close_pending_pane_save. case_match; [| done].
  match goal with |- context [Buffers.save_pane_files ?i st] => pose proof (tabs_save_pane i st) as Ht end.
  destruct (Buffers.save_pane_files _ st) as [st' ok]. simpl in Ht. rewrite <- Ht in Hs.
  destruct ok; [by apply sound_close_pane | done].
Qed.
Lemma sound_pending_file_save st : Sound (tabs st) -> Sound (tabs (Closing.close_pending_file_save st)).
Proof.
  intros Hs. unfold Closing.close_pending_file_save.
  destruct (pending_close_file (file_state st)) as [[id p] |]; [| done].
  pose proof (tabs_save_file id p st) as Ht.
  destruct (Buffers.save_file _ _ st) as [st' ok]. simpl in Ht. rewrite <- Ht in Hs.
  destruct ok; [by apply sound_close_file | done].
Qed.
Lemma sound_pending_pane_discard st : Sound (tabs st) -> Sound (tabs (Closing.close_pending_pane_discard st)).
Proof. intros Hs. unfold Closing.close_pending_pane_discard. case_match; [by apply sound_close_pane | done]. Qed.
Lemma sound_pending_file_discard st : Sound (tabs st) -> Sound (tabs (Closing.close_pending_file_discard st)).
Proof.
  intros Hs. unfold Closing.close_pending_file_discard.
  destruct (pending_close_file (file_state st)) as [[id p] |]; [| done].
  by apply sound_close_file.
Qed.
Lemma sound_unsaved_save st : Sound (tabs st) -> Sound (tabs (Closing.on_close_unsaved_save st)).
Proof. intros. by apply sound_pending_pane_save, sound_pending_file_save. Qed.
Lemma sound_unsaved_discard st : Sound (tabs st) -> Sound (tabs (Closing.on_close_unsaved_discard st)).
Proof. intros. by apply sound_pending_pane_discard, sound_pending_file_discard. Qed.

(** *** Dropping a lifted pane *)

(** The panes of the window, with what they show. *)
Definition all_panes (l : list Space) : list (N * PaneKind) := l ≫= fun s => Tree.leaves (root s).

#[export] Instance all_panes_Permutation : Proper (Permutation ==> Permutation) all_panes.
Proof. intros l l' H. unfold all_panes. by rewrite H. Qed.

Lemma all_panes_cons s l : all_panes (s :: l) = Tree.leaves (root s) ++ all_panes l.
Proof. done. Qed.

Definition shown_settings (l : list (N * PaneKind)) : nat :=
  length (base.filter (fun leaf => is_settings leaf.2) l).

Lemma shown_settings_perm l l' : l ≡ₚ l' -> shown_settings l = shown_settings l'.
Proof. intros H. unfold shown_settings. by rewrite H. Qed.
Lemma shown_settings_app l l' : shown_settings (l ++ l') = shown_settings l + shown_settings l'.
Proof. unfold shown_settings. by rewrite filter_app, length_app. Qed.
Lemma shown_settings_cons leaf l :
  shown_settings (leaf :: l) = (if is_settings leaf.2 then 1 else 0) + shown_settings l.
Proof. unfold shown_settings. rewrite filter_cons. by destruct (is_settings leaf.2). Qed.

Lemma settings_count_panes l : settings_count l = shown_settings (all_panes l).
Proof. induction l as [| s l IH]; [done |]. by rewrite all_panes_cons, shown_settings_app, <- IH. Qed.

(** One pane of a tab taken out of it. *)
Lemma close_takes next pane k s s' n :
  Wf next s -> Space_.leaf_kind s pane = Some k -> Space_.close pane s = (s', n) ->
  match n with
  | Some _ => Wf next s' /\ Tree.leaves (root s) ≡ₚ (pane, k) :: Tree.leaves (root s') /\
              exists sid, ids (root s) ≡ₚ pane :: sid :: ids (root s')
  | None => root s = Leaf pane k
  end.
Proof.
  intros Hw Hk Hc. pose proof (close_wf _ _ _ _ _ Hc Hw) as Hw'. revert Hc Hw'. unfold Space_.close.
  pose proof (wf_root_leaves _ _ Hw) as Hnd.
  destruct (Tree.remove_leaf pane (root s)) as [[r x] |] eqn:E; intros [=] Hw'; subst.
  - rewrite recompute_root. simpl. apply remove_leaf_spec in E as (k' & l1 & l2 & sid & H1 & H2 & H3 & _).
    assert (k' = k) as ->.
    { assert (Tree.leaf_kind (root s) pane = Some k') as He; [| unfold Space_.leaf_kind in Hk; congruence].
      apply leaf_kind_NoDup; [done |]. rewrite H1, elem_of_app. right. by left. }
    split_and!; [done | rewrite H1, H2; by rewrite <- Permutation_middle | by exists sid].
  - assert (pane ∈ leaf_ids (root s')) as Hin by (apply leaf_kind_contains; unfold Space_.leaf_kind in Hk; by rewrite Hk).
    destruct (root s') as [j kj | j d q a b] eqn:Er.
    + apply list_elem_of_singleton in Hin. simpl in Hin. subst. unfold Space_.leaf_kind in Hk.
      rewrite Er in Hk. simpl in Hk. rewrite bool_decide_eq_true_2 in Hk by done. by simplify_eq.
    + exfalso. destruct (remove_leaf_is_Some pane (Split j d q a b)) as [? Hr]; [done | | congruence].
      simpl. assert (forall p, 1 <= Tree.leaf_count p) as H1 by (intros p; induction p; simpl; lia).
      pose proof (H1 a). pose proof (H1 b). lia.
Qed.

(** Adding a tab that holds one pane taken from elsewhere. *)
Lemma tabs_ok_add next l i pane k m :
  TabsOk next l -> (pane < next)%N -> pane ∉ nodes l ->
  (if is_settings k then 1 else 0) + settings_count l <= 1 ->
  TabsOk next (Moving.insert_at i (Space_.with_medium m (Space_.unnamed (Leaf pane k))) l).
Proof.
  intros Hok Hlt Hp Hset. apply tabs_ok_insert; [done | by apply wf_single | |].
  - intros x ->%list_elem_of_singleton. done.
  - cbn [root Space_.with_medium Space_.unnamed]. by rewrite settings_of_leaf.
Qed.

Lemma all_panes_insert_at i S l :
  all_panes (Moving.insert_at i S l) ≡ₚ Tree.leaves (root S) ++ all_panes l.
Proof. unfold Moving.insert_at. by rewrite insert_at_Permutation. Qed.

(** The tab list after a pane became a tab of its own: the panes are those that
    were there, with the fresh chat of a tab that was reset. *)
Definition moved_out (l l' : list Space) (pane next' : N) (m : PaneMove) : Prop :=
  TabsOk next' l' /\ (exists s, l' !! tab m = Some s /\ pane ∈ leaf_ids (root s)) /\
  all_panes l' ≡ₚ match reset_pane m with Some fresh => [(fresh, Chat)] | None => [] end ++ all_panes l.

Lemma moved_out_add l l0 pane k next' med t r :
  TabsOk next' l0 -> (pane < next')%N -> pane ∉ nodes l0 -> t <= length l0 ->
  settings_count l <= 1 ->
  (pane, k) :: all_panes l0 ≡ₚ match r with Some fresh => [(fresh, Chat)] | None => [] end ++ all_panes l ->
  moved_out l (Moving.insert_at t (Space_.with_medium med (Space_.unnamed (Leaf pane k))) l0) pane next'
    (mkMove t r).
Proof.
  intros Hok Hlt Hp Ht Hset Hall. split_and!.
  - apply tabs_ok_add; [done | done | done |].
    pose proof (shown_settings_perm _ _ Hall) as Hc. rewrite shown_settings_cons, shown_settings_app in Hc.
    rewrite settings_count_panes in *. destruct r as [fresh |]; rewrite ?shown_settings_cons in Hc;
      change (shown_settings []) with 0 in Hc; cbn [snd] in Hc; destruct (is_settings k); simpl in *; lia.
  - exists (Space_.with_medium med (Space_.unnamed (Leaf pane k))).
    split; [by apply lookup_insert_at | by left].
  - by rewrite all_panes_insert_at.
Qed.

Lemma move_to_new_space_facts l source pane index next l' next' m :
  TabsOk next l -> (next + 2 < 2 ^ 64)%N ->
  Moving.move_pane_to_new_space l source pane index next = (l', next', m) ->
  match m with
  | None => l' = l /\ next' = next
  | Some m => moved_out l l' pane next' m
  end.
Proof.
  intros Hok Hn. pose proof (ok_settings _ _ Hok) as Hset. unfold Moving.move_pane_to_new_space.
  destruct (l !! source) as [s |] eqn:Hi; [| intros [=]; by subst].
  destruct (Space_.leaf_kind s pane) as [k |] eqn:Hk; [| intros [=]; by subst].
  assert (Wf next s) as Hw by (eapply (Forall_lookup_1 (Wf _)); [apply Hok | done]).
  assert (pane ∈ ids (root s)) as Hpi.
  { apply leaf_id_in_ids, leaf_kind_contains. unfold Space_.leaf_kind in Hk. by rewrite Hk. }
  assert (pane < next)%N as Hlt by (eapply nodes_bound; [apply Hok | by eapply nodes_elem]).
  pose proof (delete_Permutation _ _ _ Hi) as Hp. pose proof (lookup_lt_Some _ _ _ Hi) as Hlen.
  pose proof Hok as Hparts. rewrite Hp in Hparts. apply tabs_ok_cons in Hparts as (_ & Hrest & Hd & _).
  assert (all_panes l ≡ₚ Tree.leaves (root s) ++ all_panes (delete source l)) as Hall.
  { rewrite <- all_panes_cons. by apply all_panes_Permutation. }
  destruct (Space_.close pane s) as [s' n] eqn:Hc. pose proof (close_takes _ _ _ _ _ _ Hw Hk Hc) as Ht.
  destruct n as [n |]; [| destruct (Nat.ltb_spec 1 (length l)) as [H1 | H1]]; intros [=]; subst.
  - destruct Ht as (Hw' & Hleaves & sid & Hids).
    assert (<[source := s']> l ≡ₚ s' :: delete source l) as Hp' by by apply (insert_Permutation_delete l source s).
    apply moved_out_add; [by eapply tabs_ok_close | done | | lia | done |].
    + rewrite Hp', nodes_cons, elem_of_app. intros [Hx | Hx]; [| by eapply Hd].
      pose proof (wf_nodup _ _ Hw) as Hnd. rewrite Hids, !NoDup_cons, elem_of_cons in Hnd. tauto.
    + by rewrite Hp', Hall, all_panes_cons, Hleaves.
  - apply moved_out_add; [done | done | by apply Hd | lia | done |].
    by rewrite Hall, Ht.
  - destruct l as [| s0 [| ? ?]]; simpl in *; [lia | | lia]. assert (source = 0) as -> by lia. simplify_eq/=.
    rewrite bump_small by lia.
    apply moved_out_add; [| lia | | by case_match; simpl; lia | done |].
    + constructor; [constructor; [| done] | |].
      * apply (wf_single _ _ _ Space_.LOCAL). lia.
      * apply NoDup_singleton.
      * rewrite settings_cons. cbn [root Space_.unnamed]. rewrite settings_of_leaf. unfold settings_count. simpl. lia.
    + intros ->%list_elem_of_singleton. lia.
    + rewrite !all_panes_cons, Ht. simpl. apply Permutation_swap.
Qed.

Lemma leaves_inhabited n : 1 <= length (Tree.leaves n).
Proof. induction n; simpl; rewrite ?length_app; lia. Qed.

(** A chat takes the place of the tab only when the pane was the window's last. *)
Lemma move_to_new_space_reset l source pane index next l' next' m :
  TabsOk next l -> Moving.move_pane_to_new_space l source pane index next = (l', next', Some m) ->
  reset_pane m = if bool_decide (length (all_panes l) = 1) then Some next else None.
Proof.
  intros Hok. unfold Moving.move_pane_to_new_space.
  destruct (l !! source) as [s |] eqn:Hi; [| done]. destruct (Space_.leaf_kind s pane) as [k |] eqn:Hk; [| done].
  assert (Wf next s) as Hw by (eapply (Forall_lookup_1 (Wf _)); [apply Hok | done]).
  assert (length (all_panes l) = length (Tree.leaves (root s)) + length (all_panes (delete source l))) as Hlen.
  { rewrite <- length_app, <- all_panes_cons. apply Permutation_length, all_panes_Permutation. by apply delete_Permutation. }
  destruct (Space_.close pane s) as [s' n] eqn:Hc. pose proof (close_takes _ _ _ _ _ _ Hw Hk Hc) as Ht.
  destruct n as [n |]; [| destruct (Nat.ltb_spec 1 (length l)) as [H1 | H1]]; intros [=]; subst; simpl.
  - rewrite bool_decide_false; [done |]. destruct Ht as (_ & Hp & _). apply Permutation_length in Hp. simpl in Hp.
    pose proof (leaves_inhabited (root s')). lia.
  - rewrite bool_decide_false; [done |]. rewrite Hlen, Ht. simpl.
    assert (length (delete source l) = length l - 1) as Hd by by eapply length_delete.
    destruct (delete source l) as [| s1 rest]; simpl in Hd; [lia |]. rewrite all_panes_cons, length_app.
    pose proof (leaves_inhabited (root s1)). lia.
  - rewrite bool_decide_true; [done |]. rewrite Hlen, Ht. simpl. f_equal.
    destruct l as [| s0 [| ? ?]]; simpl in *; [lia | | lia]. by destruct source.
Qed.

Lemma move_to_new_space_some l source pane index next :
  is_Some (l !! source ≫= fun s => Space_.leaf_kind s pane) ->
  is_Some (Moving.move_pane_to_new_space l source pane index next).2.
Proof.
  unfold Moving.move_pane_to_new_space. destruct (l !! source) as [s |]; simpl; [| by intros []].
  destruct (Space_.leaf_kind s pane); [| by intros []]. intros _.
  destruct (Space_.close pane s) as [s' [n |]]; [by eexists |]. case_match; by eexists.
Qed.

Lemma sound_release i t st : Sound (tabs st) -> room (tabs st) -> Sound (tabs (Moving.release_pane_drag i t st).1).
Proof.
  intros Hs Hr. pose proof Hs as [Hok Hf]. unfold Moving.release_pane_drag.
  destruct (pane_drag _) as [d |]; [| done]. destruct i as [i |].
  - simpl. destruct (Moving.move_pane_to_new_space _ _ _ _ _) as [[l' next'] m] eqn:E.
    apply move_to_new_space_facts in E; [| done | done]. destruct m as [m |]; simpl.
    + destruct E as (Hok' & (s & Hs' & Hin) & _). by eapply sound_at.
    + destruct E as [-> ->]. done.
  - destruct t as [t |]; [| done]. simpl.
    destruct (spaces (tabs st) !! source_space d) as [s |] eqn:Hi; [| done].
    destruct (Space_.move_pane _ _ _ _ _) as [[s' next'] ok] eqn:E.
    pose proof (tabs_wf _ _ _ Hs Hi) as Hw. unfold room in Hr.
    pose proof (move_pane_spec _ _ _ _ _ _ _ _ Hw ltac:(lia) E) as Hm.
    assert (alter (fun _ => s') (source_space d) (spaces (tabs st)) = <[source_space d := s']> (spaces (tabs st))) as Ha
      by by rewrite (alter_insert _ _ _ s).
    destruct Hm as [(-> & -> & ->) | (-> & -> & Hw' & Hl & Hsib & _)]; simpl; rewrite Ha.
    + rewrite list_insert_id by done. done.
    + apply (sound_at _ _ _ _ _ _ s').
      * eapply tabs_ok_replace; [done | done | | done | | by rewrite (settings_of_perm _ _ Hl)]; [lia |].
        eapply move_pane_nodes; [exact E | done | lia].
      * apply list_lookup_insert_eq. by eapply lookup_lt_Some.
      * apply sibling_contains in Hsib as [_ Hsib]. done.
Qed.
Lemma sound_drop home i t st :
  Sound (tabs st) -> room (tabs st) -> Sound (tabs (Moving.on_pane_drop home i t st)).
Proof.
  intros Hs Hr. pose proof (sound_release i t st Hs Hr) as H. unfold Moving.on_pane_drop.
  destruct (Moving.release_pane_drag i t st) as [st' [m | |]]; simpl in H; [| | done];
    rewrite tabs_sync; apply sound_labels; [| done].
  by destruct (reset_pane m).
Qed.

(** *** Clicks, arrows and windows *)

(** A pane of the tab on screen. *)
Definition shown (st : UiState) (id : N) : Prop := exists s, active st = Some s /\ id ∈ leaf_ids (root s).

Lemma sound_focus_shown id st : Sound (tabs st) -> shown st id -> Sound (tabs (focus_pane id st)).
Proof. intros Hs (s & Ha & Hin). by eapply sound_focus_pane. Qed.

Lemma sound_activate id st : Sound (tabs st) -> shown st id -> Sound (tabs (Pointing.pane_activate id st)).
Proof.
  intros Hs Hid. unfold Pointing.pane_activate. rewrite tabs_sync.
  apply sound_on_space_tree; [by apply sound_focus_shown | |].
  - intros s. case_bool_decide; [apply raise_root | done].
  - intros next s Hw. case_bool_decide; [by apply raise_wf | done].
Qed.

Lemma navigate_leaf {euclid : Euclid} next s from d to :
  Wf next s -> Space_.navigate s from d = Some to -> to ∈ leaf_ids (root s).
Proof.
  intros Hw. destruct (decide (layout s = Carousel)) as [Hl | Hl]; unfold Space_.navigate.
  - rewrite bool_decide_eq_true_2 by done. case_match; [done |]. destruct (position _ _); [| done].
    intros ([i k] & Hi & ->)%fmap_Some. by eapply FocusProps.lookup_fst_elem.
  - rewrite bool_decide_eq_false_2 by done.
    destruct (list_find _ _) as [[n [i current]] |]; [| done]. intros (b & Hb & ->)%fmap_Some.
    pose proof (FocusProps.nearest_settled from d current (Space_.layout_regions s) None) as H.
    rewrite Hb in H. destruct H as [? | (r & Hin & _)]; [done |].
    eapply FocusProps.regions_on_screen; [done | done |]. by eapply list_elem_of_fmap_2'.
Qed.

Lemma sound_arrow {euclid : Euclid} d st : Sound (tabs st) -> Sound (tabs (Pointing.pane_navigate d st)).
Proof.
  intros Hs. unfold Pointing.pane_navigate. case_bool_decide; [| done].
  destruct (active st) as [s |] eqn:Ha; [| done]. simpl.
  destruct (Space_.navigate s _ d) as [to |] eqn:E; [| done]. rewrite tabs_sync.
  apply sound_focus_shown; [done |]. exists s. split; [done |]. eapply navigate_leaf, E.
  by eapply tabs_wf.
Qed.

Lemma sound_divider id q st : Sound (tabs st) -> Sound (tabs (Pointing.pane_drag_move id q st)).
Proof.
  intros Hs. unfold Pointing.pane_drag_move. eapply sound_on_space; [done | done | |]; intros s Hi *.
  - intros Hw. unfold Space_.set_ratio. destruct (Tree.set_ratio _ _ _) eqn:E; [| done]. simpl.
    apply set_ratio_nodes in E as [? E]. apply set_root_wf; [done | by rewrite E | done].
  - unfold Space_.set_ratio. destruct (Tree.set_ratio _ _ _) eqn:E; [| done]. simpl.
    apply set_ratio_nodes in E as [-> E]. unfold settings_of. by rewrite E.
Qed.

Lemma sound_expand id st : Sound (tabs st) -> shown st id -> Sound (tabs (Pointing.toggle_pane_maximized id st)).
Proof.
  intros Hs Hid. unfold Pointing.toggle_pane_maximized. case_match; [done |]. rewrite tabs_sync.
  destruct (sound_focus_shown id st Hs Hid) as [Hok Hf]. by constructor.
Qed.

Lemma floating_pane_id s id p : Space_.floating_pane s id = Some p -> pane_id p = id /\ p ∈ floating s.
Proof.
  unfold Space_.floating_pane. intros ([n q] & Hq & ->)%fmap_Some. simpl.
  apply list_find_Some in Hq as (Hn & Hid & _). apply Is_true_true, bool_decide_eq_true in Hid.
  split; [done | by eapply list_elem_of_lookup_2].
Qed.

Lemma sound_float_start id mode p a st : Sound (tabs st) -> Sound (tabs (Pointing.float_start id mode p a st)).
Proof.
  intros Hs. unfold Pointing.float_start. destruct (active st) as [s |] eqn:Ha; [| done]. simpl.
  destruct (Space_.floating_rect s id) as [r |] eqn:E; [| done].
  apply sound_on_space_tree; [| apply raise_root | intros; by apply raise_wf].
  apply sound_focus_shown; [done |]. exists s. split; [done |].
  unfold Space_.floating_rect in E. apply fmap_Some in E as (q & Hq & _).
  apply floating_pane_id in Hq as [<- Hq]. apply (wf_floating_leaf (next_pane_id (tabs st))); [by eapply tabs_wf |].
  by apply list_elem_of_fmap_2.
Qed.

Lemma sound_float_rect id r st : Sound (tabs st) -> Sound (tabs (Pointing.float_rect id r st)).
Proof. intros Hs. apply sound_on_space_tree; [done | done |]. intros. by apply alter_wf. Qed.

Lemma sound_float_minimize id st : Sound (tabs st) -> Sound (tabs (Pointing.float_minimize id st)).
Proof.
  intros Hs. unfold Pointing.float_minimize.
  assert (Sound (tabs (on_space (active_space (tabs st)) (Space_.minimize_pane id) st))) as Hs1.
  { apply sound_on_space_tree; [done | done |]. intros. by apply alter_wf. }
  set (st1 := on_space _ _ st) in *.
  set (st2 := match floating_drag _ with Some _ => _ | None => _ end).
  assert (tabs st2 = tabs st1) as Ht by (subst st2; destruct (floating_drag _); [case_bool_decide |]; done).
  clearbody st2. case_bool_decide as Hid; [| by rewrite Ht].
  destruct (active st1) as [s |] eqn:Ha; simpl; [| by rewrite Ht].
  destruct (head _) as [n |] eqn:Hh; [| by rewrite Ht]. rewrite tabs_sync.
  apply sound_focus_shown; [by rewrite Ht |]. exists s. split; [unfold active; by rewrite Ht |].
  apply head_Some_elem_of in Hh. unfold Space_.visible_leaf_ids in Hh.
  by apply list_elem_of_filter in Hh as [_ Hh].
Qed.

Lemma sound_float_restore id st : Sound (tabs st) -> shown st id -> Sound (tabs (Pointing.float_restore id st)).
Proof.
  intros Hs (s & Ha & Hin). unfold Pointing.float_restore. rewrite tabs_sync.
  assert (forall s, root (Space_.restore_pane id s) = root s) as Hr.
  { intros q. unfold Space_.restore_pane. by rewrite raise_root. }
  apply sound_focus_shown.
  - apply sound_on_space_tree; [done | done |]. intros. by apply raise_wf, alter_wf.
  - exists (Space_.restore_pane id s). rewrite Hr. split; [| done].
    unfold active in *. simpl. by rewrite list_lookup_alter, decide_True, Ha by done.
Qed.

Lemma sound_jump i st : Sound (tabs st) -> Sound (tabs (Inbox.jump_to_inbox_item i st).1).
Proof.
  intros Hs. unfold Inbox.jump_to_inbox_item. destruct (inbox (owned st) !! i) as [item |]; [| done].
  destruct (space_index_of_pane st _) as [sp |] eqn:E; [| done]. cbn [fst]. rewrite tabs_sync.
  apply space_index_Some in E as (s & Hi & Hin).
  pose proof (sound_on_space_tree sp Space_.recompute_layout st Hs recompute_root recompute_again_wf) as [Hok _].
  simpl in *. eapply (sound_at _ _ _ _ _ _ (Space_.recompute_layout s)); [done | |].
  - by rewrite list_lookup_alter, decide_True, Hi by done.
  - by rewrite recompute_root.
Qed.

(** *** The control surface *)

Lemma sound_control_focus id st : Sound (tabs st) -> Sound (tabs (Control.focus_command id st).1).
Proof.
  intros Hs. pose proof Hs as [Hok _]. unfold Control.focus_command.
  destruct (space_index_of_pane st id) as [i |] eqn:E; cbn [fst]; [rewrite tabs_sync | done].
  apply space_index_Some in E as (s & Hi & Hin). rewrite tabs_focus_pane. simpl. by eapply sound_at.
Qed.

Lemma sound_control_switch i st : Sound (tabs st) -> Sound (tabs (Control.switch_space i st).1).
Proof.
  intros Hs. pose proof Hs as [Hok _]. unfold Control.switch_space.
  destruct (spaces (tabs st) !! i) as [s |] eqn:Hi; cbn [fst]; [rewrite tabs_sync | done].
  rewrite tabs_focus_pane. simpl. by apply sound_first.
Qed.

Lemma target_pane_elem st i id s :
  Control.target_pane_in_space st i = Ok id -> spaces (tabs st) !! i = Some s -> id ∈ leaf_ids (root s).
Proof.
  unfold Control.target_pane_in_space. intros H Hi. rewrite Hi in H.
  destruct (_ && _) eqn:E; simplify_eq; [| apply first_leaf_elem].
  apply andb_true_iff in E as [_ E]. by apply contains_leaf_spec.
Qed.
Lemma split_same_facts id d s next s' next' new k :
  Space_.leaf_kind s id = Some k -> is_settings k = false -> Wf next s -> (next + 2 < 2 ^ 64)%N ->
  Space_.split id d s next = (s', next', new) -> opens s s' next next' new.
Proof.
  intros Hk Hset Hw. unfold Space_.split, Space_.split_by.
  assert (Tree.split_leaf id d next (bump next) (root s) =
          Tree.split_leaf_into id d next (bump next) k (root s)) as ->.
  { unfold Space_.leaf_kind in Hk. revert Hk. generalize (root s). clear.
    unfold Tree.split_leaf, Tree.split_leaf_into. intros p.
    induction p as [i k' | i d' r a IHa b IHb]; simpl; [case_bool_decide; [by intros [=]; subst | done] |].
    destruct (Tree.leaf_kind a id) eqn:E.
    { intros [=]; subst. rewrite IHa by done.
      destruct (update_leaf_is_Some (fun id kind => Split next d f_half (Leaf id kind) (Leaf (bump next) k)) id a)
        as [a' ->]; [apply leaf_kind_contains; by rewrite E | done]. }
    intros Hb.
    assert (id ∉ leaf_ids a) as Ha by (rewrite <- leaf_kind_contains, E; by intros [? ?]).
    rewrite !(update_leaf_None _ id a) by done. by rewrite IHb. }
  intros Hn Hs. eapply split_with_kind_facts; [exact Hset | exact Hw | exact Hn | exact Hs].
Qed.

Lemma sound_control_split default_path id d k cwd st :
  Sound (tabs st) -> room (tabs st) -> Sound (tabs (Control.split_pane default_path id d k cwd st).1).
Proof.
  intros Hs Hr. pose proof Hs as [Hok _]. unfold Control.split_pane.
  destruct (space_index_of_pane st id) as [i |]; [| done].
  destruct (spaces (tabs st) !! i) as [s |] eqn:Hi; [| done].
  destruct (Space_.leaf_kind s id) as [tk |] eqn:Hk; [| done].
  pose proof (tabs_wf _ _ _ Hs Hi) as Hw.
  destruct (Control.split_for _ _ _ _ _ _) as [[s' next] new] eqn:E.
  assert (opens s s' (next_pane_id (tabs st)) next new) as (Hw' & Hle & Hids & Hleaf & Hset & Hnew).
  { unfold Control.split_for in E. destruct k as [[] |]; [| | destruct tk];
      first [ by eapply split_with_kind_facts; [| exact Hw | exact Hr | exact E]
            | by eapply split_same_facts; [exact Hk | | exact Hw | exact Hr | exact E] ]. }
  assert (alter (fun _ => s') i (spaces (tabs st)) = <[i := s']> (spaces (tabs st))) as Ha
    by by rewrite (alter_insert _ _ _ s).
  pose proof (lookup_lt_Some _ _ _ Hi) as Hlt. destruct new as [n |]; cbn [fst].
  - rewrite tabs_sync. set (st2 := set_pane_sessions _ _).
    assert (tabs st2 = mkTabs (<[i := s']> (spaces (tabs st))) i n next
              (if bool_decide (active_pane_id (tabs st) = n) then maximized_pane (tabs st) else None) TabChat) as Ht.
    { subst st2. cbn [tabs set_pane_sessions on_owned]. rewrite tabs_focus_pane. simpl. by rewrite Ha. }
    assert (forall b : bool, tabs (if b then bind_pane_new_conversation n st2 else st2) = tabs st2) as Hb
      by by intros [].
    rewrite Hb, Ht. apply (sound_at _ _ _ _ _ _ s'); [| by apply list_lookup_insert_eq | done].
    eapply tabs_ok_replace; [done | done | done | done | done | by rewrite Hset].
  - simpl. subst s'. rewrite Ha, list_insert_id by done. by destruct (tabs st).
Qed.

Lemma sound_panes_new default_path i cwd k st :
  Sound (tabs st) -> room (tabs st) -> Sound (tabs (Control.panes_new default_path i cwd k st).1).
Proof.
  intros Hs Hr. unfold Control.panes_new. destruct (Control.target_pane_in_space _ _); [| done].
  by apply sound_control_split.
Qed.

Lemma sound_control_close id st : Sound (tabs st) -> Sound (tabs (Control.close_pane id st).1).
Proof.
  intros Hs. pose proof Hs as [Hok _]. unfold Control.close_pane.
  destruct (space_index_of_pane st id) as [i |]; [| done].
  destruct (spaces (tabs st) !! i) as [s |] eqn:Hi; [| done].
  destruct (Space_.close id s) as [s' [n |]] eqn:Hc; cbn [fst]; [| done].
  rewrite tabs_sync, tabs_focus_pane.
  set (st1 := forget_pane id _). set (st2 := if bool_decide (maximized_pane _ = _) then _ else _).
  assert (exists m, tabs st2 = mkTabs (<[i := s']> (spaces (tabs st))) (active_space (tabs st))
            (active_pane_id (tabs st)) (next_pane_id (tabs st)) m (current_tab (tabs st))) as [m Ht].
  { assert (tabs st1 = tabs (on_space i (fun _ => s') st)) as H1 by apply tabs_forget.
    subst st2. case_bool_decide; eexists; simpl; rewrite H1; simpl; by rewrite (alter_insert _ _ _ s). }
  clearbody st2. simpl. rewrite Ht. simpl.
  destruct (space_close_facts _ _ _ _ _ (tabs_wf _ _ _ Hs Hi) Hc) as (_ & _ & _ & _ & Hn).
  eapply sound_at; [by eapply tabs_ok_close | | exact Hn].
  apply list_lookup_insert_eq. by eapply lookup_lt_Some.
Qed.

Lemma tabs_keep_loop l st :
  exists m, tabs (foldl Control.forget_other st l) =
  mkTabs (spaces (tabs st)) (active_space (tabs st)) (active_pane_id (tabs st)) (next_pane_id (tabs st)) m
    (current_tab (tabs st)).
Proof.
  revert st. induction l as [| i l IH]; intros st; cbn [foldl]; [exists (maximized_pane (tabs st)); by destruct (tabs st) |].
  destruct (IH (Control.forget_other st i)) as [m ->]. exists m. unfold Control.forget_other.
  rewrite tabs_forget. by case_bool_decide.
Qed.

Lemma sound_keep_one i keep k s st :
  Sound (tabs st) -> spaces (tabs st) !! i = Some s -> Space_.leaf_kind s keep = Some k ->
  Sound (tabs (Control.keep_one i keep k s st)).
Proof.
  intros Hs Hi Hk. pose proof Hs as [Hok _]. unfold Control.keep_one.
  match goal with |- context [foldl _ st ?l] => destruct (tabs_keep_loop l st) as [m Ht]; set (st1 := foldl _ st l) in * end.
  clearbody st1. rewrite tabs_focus_pane. simpl. rewrite Ht. simpl.
  set (s' := Space_.set_layout Bsp (set_root (Leaf keep k) s)).
  assert (alter (fun s => Space_.set_layout Bsp (set_root (Leaf keep k) s)) i (spaces (tabs st)) =
          <[i := s']> (spaces (tabs st))) as -> by by rewrite (alter_insert _ _ _ s).
  pose proof (tabs_wf _ _ _ Hs Hi) as Hw.
  assert (keep ∈ ids (root s)) as Hkeep.
  { apply leaf_id_in_ids, leaf_kind_contains. unfold Space_.leaf_kind in Hk. by rewrite Hk. }
  apply (sound_at _ _ _ _ _ _ s').
  - eapply tabs_ok_replace; [done | done | reflexivity | | |].
    + unfold s', Space_.set_layout. apply recompute_wf; simpl; [apply NoDup_singleton | |].
      * constructor; [| done]. destruct Hw as [_ Hb _ _ _]. rewrite Forall_forall in Hb. by apply Hb.
      * unfold float_ids. simpl. rewrite <- list_fmap_compose. apply Hw.
    + unfold s'. rewrite set_layout_root. simpl. intros x ->%list_elem_of_singleton. by left.
    + unfold s'. rewrite set_layout_root. simpl. rewrite settings_of_leaf.
      unfold Space_.leaf_kind in Hk. apply leaf_kind_elem, list_elem_of_split in Hk as (l1 & l2 & Hl).
      unfold settings_of. rewrite Hl, filter_app, length_app, filter_cons. cbn [snd].
      destruct (is_settings k); simpl; lia.
  - apply list_lookup_insert_eq. by eapply lookup_lt_Some.
  - unfold s'. rewrite set_layout_root. by left.
Qed.

Lemma sound_layout_set i k st : Sound (tabs st) -> Sound (tabs (Control.layout_set i k st).1).
Proof.
  intros Hs. unfold Control.layout_set.
  destruct (Control.target_pane_in_space st i) as [keep |] eqn:Et; [| done].
  destruct (spaces (tabs st) !! i) as [s |] eqn:Hi; [| done].
  match goal with |- context [match ?x with Ok _ => _ | Err _ => _ end] => destruct x as [st' |] eqn:E end;
    cbn [fst]; [| done].
  assert (Sound (tabs st')) as Hs'.
  { assert (forall f, (forall s, root (f s) = root s) -> (forall next s, Wf next s -> Wf next (f s)) ->
              Sound (tabs (on_space i f st))) as Harr by (intros; by apply sound_on_space_tree).
    assert (forall d, Sound (tabs (on_space i (fun s => Space_.set_layout Bsp (Space_.set_layout_direction d s)) st))) as Hd.
    { intros d. eapply sound_on_space; [done | done | |]; intros q Hq *; destruct (set_all_dirs_nodes d (root q)) as [H1 H2].
      - intros Hw. apply set_layout_wf, set_root_wf; [done | by rewrite H2 | done].
      - rewrite set_layout_root. simpl. rewrite H1, H2. unfold settings_of. by rewrite H2. }
    destruct k; simplify_eq/=; try apply Hd; try (apply Harr; [apply set_layout_root | intros; by apply set_layout_wf]).
    destruct (Space_.leaf_kind s keep) eqn:Hk; [| done]. simplify_eq. by apply sound_keep_one. }
  rewrite tabs_sync. destruct Hs' as [Hok Hf]. destruct (bool_decide (_ = i) && _); by constructor.
Qed.
End Steps.
End Steps.

(** ** Everything the user can do *)

Module Actions.
Import Soundness Frames Steps.

(** The gestures of the window and the commands of the control surface. *)
Inductive Action : Type :=
| OpenTerminal (dir : SplitDir)
| OpenFile (p : Str)
| Review (source : N)
| AddTab (medium : Str)
| CloseTab (index : nat)
| CloseOtherTabs (index : nat)
| OpenSettings
| SettingsPage (page : SettingsCategory)
| SelectTab (index : nat)
| SwitchTab (delta : Z)
| BeginRename (index : nat)
| Rename (n : Str)
| ResetName (index : nat)
| Reorder (from to : nat)
| SetLayout (index : nat) (l : LayoutKind)
| CycleLayout
| ClosePane (id : N)
| CloseFile (id : N) (p : Str)
| ConfirmSave
| ConfirmDiscard
| ConfirmCancel
| LiftPane (id : N) (at_ : Vector2F)
| DragPane (at_ : Vector2F) (index : option nat) (target : option PaneDropTarget)
| DropPane (index : option nat) (target : option PaneDropTarget)
| Activate (id : N)
| Arrow (dir : NavDir)
| DividerStart (id : N)
| DividerMove (id : N) (ratio : f32)
| DividerEnd
| Expand (id : N)
| FloatStart (id : N) (mode : FloatingDragMode) (at_ area : Vector2F)
| FloatRect (id : N) (r : PaneRect)
| FloatEnd
| Minimize (id : N)
| RestoreWindow (id : N)
| JumpToInbox (index : nat)
| ControlFocus (id : N)
| ControlSwitch (index : nat)
| ControlSplit (id : N) (dir : SplitDir) (kind : option Control.ControlPaneKind) (cwd : option Str)
| ControlNew (index : option nat) (cwd : option Str) (kind : option Control.ControlPaneKind)
| ControlClose (id : N)
| ControlLayoutSet (index : nat) (l : Control.ControlLayout).

Section Actions.
Context {ui : Ui} {externs : Externs} {euclid : Euclid}.
(** The user's home, and the directory a new pane starts in. *)
Context (home : option Str) (default_path : Str).

Definition act (a : Action) (st : UiState) : UiState :=
  match a with
  | OpenTerminal d => Opening.split_active_pane default_path d Terminal st
  | OpenFile p => Opening.open_file_pane p st
  | Review src => Opening.open_diff_pane src st
  | AddTab m => Opening.add_space home default_path m st
  | CloseTab i => Opening.close_space_at home i st
  | CloseOtherTabs i => Opening.close_others home i st
  | OpenSettings => Opening.open_settings_tab home st
  | SettingsPage page => Opening.settings_set_page page st
  | SelectTab i => Opening.select_space i st
  | SwitchTab d => (Opening.switch_space d st).1
  | BeginRename i => Opening.begin_space_rename i st
  | Rename n => Labels.rename_active_space n st
  | ResetName i => Labels.reset_name i st
  | Reorder f t => Opening.reorder_space f t st
  | SetLayout i l => (Opening.set_space_layout i l st).1
  | CycleLayout => (Opening.cycle_space_layout st).1
  | ClosePane id => Closing.request_close_pane id st
  | CloseFile id p => Closing.request_close_file id p st
  | ConfirmSave => Closing.on_close_unsaved_save st
  | ConfirmDiscard => Closing.on_close_unsaved_discard st
  | ConfirmCancel => Closing.on_close_unsaved_cancel st
  | LiftPane id p => Moving.begin_pane_lift id p st
  | DragPane p i t => Moving.drag_pane_to p i t st
  | DropPane i t => Moving.on_pane_drop home i t st
  | Activate id => Pointing.pane_activate id st
  | Arrow d => Pointing.pane_navigate d st
  | DividerStart id => Pointing.pane_drag_start id st
  | DividerMove id q => Pointing.pane_drag_move id q st
  | DividerEnd => Pointing.pane_drag_end st
  | Expand id => Pointing.toggle_pane_maximized id st
  | FloatStart id mode p a => Pointing.float_start id mode p a st
  | FloatRect id r => Pointing.float_rect id r st
  | FloatEnd => Pointing.float_rect_end st
  | Minimize id => Pointing.float_minimize id st
  | RestoreWindow id => Pointing.float_restore id st
  | JumpToInbox i => (Inbox.jump_to_inbox_item i st).1
  | ControlFocus id => (Control.focus_command id st).1
  | ControlSwitch i => (Control.switch_space i st).1
  | ControlSplit id d k cwd => (Control.split_pane default_path id d k cwd st).1
  | ControlNew i cwd k => (Control.panes_new default_path i cwd k st).1
  | ControlClose id => (Control.close_pane id st).1
  | ControlLayoutSet i l => (Control.layout_set i l st).1
  end.

(** A click reaches a pane that is drawn; everything else is always possible. *)
Definition possible (a : Action) (st : UiState) : Prop :=
  match a with
  | Activate id | Expand id | RestoreWindow id => shown st id
  | _ => True
  end.

(** C21: whatever the user or a control client does, the window stays in order:
    the tab on screen exists and holds the pane that has the focus, every tab is
    well formed, no two panes of the window share an identifier, every identifier
    is below the counter, and at most one pane shows the settings. *)
Theorem workspace_stays_sound (a : Action) (st : UiState) :
  Sound (tabs st) -> (next_pane_id (tabs st) + 2 < 2 ^ 64)%N -> possible a st ->
  Sound (tabs (act a st)).
Proof.
  intros Hs Hr Hp. destruct a; simpl in Hp |- *.
  - by apply sound_split_active.
  - by apply sound_open_file.
  - by apply sound_review.
  - by apply sound_add_tab.
  - by apply sound_close_tab.
  - by apply sound_close_others.
  - by apply sound_open_settings.
  - by apply sound_settings_page.
  - by apply sound_select.
  - by apply sound_switch.
  - by apply sound_begin_rename.
  - by apply sound_rename.
  - apply sound_on_space_tree; [done | done | intros; by apply wf_set_named].
  - by apply sound_reorder.
  - by apply sound_set_layout.
  - by apply sound_cycle.
  - by apply sound_request_close.
  - by apply sound_request_close_file.
  - by apply sound_unsaved_save.
  - by apply sound_unsaved_discard.
  - done.
  - unfold Moving.begin_pane_lift. case_bool_decide; [done |].
    destruct (active st); [| done]. by case_match.
  - unfold Moving.drag_pane_to. destruct (active st); [| done]. by destruct (pane_drag _).
  - by apply sound_drop.
  - by apply sound_activate.
  - by apply sound_arrow.
  - done.
  - by apply sound_divider.
  - done.
  - by apply sound_expand.
  - by apply sound_float_start.
  - by apply sound_float_rect.
  - done.
  - by apply sound_float_minimize.
  - by apply sound_float_restore.
  - by apply sound_jump.
  - by apply sound_control_focus.
  - by apply sound_control_switch.
  - by apply sound_control_split.
  - by apply sound_panes_new.
  - by apply sound_control_close.
  - by apply sound_layout_set.
Qed.

(** C22: dropping a lifted pane loses none and doubles none: the panes of the
    window, with what they show, are those it had; only a drop on the strip of the
    window's last pane adds a chat, under a new identifier, in the tab it emptied.
    The pane dropped has the focus.  A drop that is cancelled leaves the tabs as
    they were, and a drop on the strip of a pane of its tab is not cancelled. *)
Theorem drop_keeps_every_pane (index : option nat) (target : option PaneDropTarget) (st st' : UiState)
    (drop : PaneDrop) (d : PaneDrag) :
  Sound (tabs st) -> (next_pane_id (tabs st) + 2 < 2 ^ 64)%N -> pane_drag (drags st) = Some d ->
  Moving.release_pane_drag index target st = (st', drop) ->
  pane_drag (drags st') = None /\
  (is_Some index ->
   is_Some (spaces (tabs st) !! source_space d ≫= fun s => Space_.leaf_kind s (lifted d)) -> drop <> Cancelled) /\
  match drop with
  | Cancelled => tabs st' = tabs st
  | MovedInSpace =>
      all_panes (spaces (tabs st')) ≡ₚ all_panes (spaces (tabs st)) /\
      active_pane_id (tabs st') = lifted d
  | NewTab m =>
      all_panes (spaces (tabs st')) ≡ₚ
        match reset_pane m with Some fresh => [(fresh, Chat)] | None => [] end
        ++ all_panes (spaces (tabs st)) /\
      reset_pane m = (if bool_decide (length (all_panes (spaces (tabs st))) = 1)
                      then Some (next_pane_id (tabs st)) else None) /\
      active_space (tabs st') = tab m /\ active_pane_id (tabs st') = lifted d
  end.
Proof.
  intros Hs Hr Hd. unfold Moving.release_pane_drag. rewrite Hd. destruct index as [i |].
  - simpl. destruct (Moving.move_pane_to_new_space _ _ _ _ _) as [[l' next'] m] eqn:E.
    assert (forall m', m = Some m' -> reset_pane m' =
      if bool_decide (length (all_panes (spaces (tabs st))) = 1) then Some (next_pane_id (tabs st)) else None) as Hreset.
    { intros m' ->. eapply move_to_new_space_reset; [| exact E]. apply Hs. }
    pose proof (move_to_new_space_some (spaces (tabs st)) (source_space d) (lifted d) i (next_pane_id (tabs st))) as Hsome.
    rewrite E in Hsome. apply move_to_new_space_facts in E; [| apply Hs | done].
    destruct m as [m |]; intros [=]; subst; simpl.
    + destruct E as (_ & _ & Hall). split_and!; [done | done | exact Hall | by apply Hreset | done | done].
    + destruct E as [-> ->]. split_and!; [done | intros _ Hx; by apply Hsome in Hx as [] | by destruct (tabs st)].
  - assert (~ is_Some (None (A := nat))) as Hno by by intros [].
    destruct target as [t |]; [| by intros [=]; subst]. simpl.
    destruct (spaces (tabs st) !! source_space d) as [s |] eqn:Hi; [| by intros [=]; subst].
    destruct (Space_.move_pane _ _ _ _ _) as [[s' next'] ok] eqn:E.
    pose proof (tabs_wf _ _ _ Hs Hi) as Hw.
    pose proof (Gestures.move_pane_spec _ _ _ _ _ _ _ _ Hw ltac:(lia) E) as Hm.
    assert (alter (fun _ => s') (source_space d) (spaces (tabs st)) = <[source_space d := s']> (spaces (tabs st))) as Ha
      by by rewrite (alter_insert _ _ _ s).
    destruct Hm as [(-> & -> & ->) | (-> & _ & _ & Hl & _)]; intros [=]; subst; simpl; rewrite Ha.
    + rewrite list_insert_id by done. split_and!; [done | done | by destruct (tabs st)].
    + split_and!; [done | done | | done]. rewrite (insert_Permutation_delete _ _ s) by done.
      rewrite all_panes_cons, Hl, <- all_panes_cons. symmetry.
      by apply all_panes_Permutation, delete_Permutation.
Qed.
End Actions.
End Actions.
