(* ===== verification/WorkspaceSafety.v ===== *)
(** What the workspace owes its panes: unsaved text is kept until the user says
    otherwise, what a closed pane owned goes with it, the inbox asks once, and the
    layout comes back as it was saved.  The last part runs the gestures on a small
    window. *)

From Stdlib Require Import ZArith SpecFloat.
From stdpp Require Import base gmap list.
From S2P Require Import Prelude Floats Panes PanesProps Workspace WorkspaceProps.

Open Scope nat_scope.

(** ** Unsaved text *)

Module TextProps.
Import Frames.
Section Text.
Context {ui : Ui} {externs : Externs}.

#[local] Opaque Ownership.forget_pane sync_active_view focus_pane.

Abbreviation Buffer := ((N * Str) * FileBuffer)%type.

(** One buffer a pane and path, kept under the path it writes. *)
Record BuffersOk (l : list Buffer) : Prop := {
  buffers_nodup : NoDup l.*1;
  buffers_path e : e ∈ l -> buf_path e.2 = e.1.2;
}.

(** The text of every edited buffer is still in its buffer, or on disk. *)
Definition keeps_text (l l' : list Buffer) (d : Fs) : Prop :=
  forall key b, (key, b) ∈ l -> dirty b = true ->
    (exists b', (key, b') ∈ l' /\ text b' = text b) \/
    contents d !! buf_path b = Some (text b).

Lemma save_facts b d b' d' ok :
  Buffers.save b d = (b', d', ok) ->
  text b' = text b /\ buf_path b' = buf_path b /\
  (forall p, p <> buf_path b -> contents d' !! p = contents d !! p) /\
  (ok = true -> contents d' !! buf_path b = Some (text b)).
Proof.
  unfold Buffers.save, fs_write. destruct (read_only b); [intros [=]; by subst |].
  destruct (refuses d _); intros [=]; subst; split_and!; try done.
  - intros p Hp. simpl. by rewrite lookup_insert_ne.
  - intros _. simpl. by rewrite lookup_insert_eq.
Qed.

(** Saving a pane's files keeps every buffer's text, and writes nothing but the
    paths of that pane's buffers. *)
Lemma save_pane_frame id l d l' d' ok :
  (forall e, e ∈ l -> buf_path e.2 = e.1.2) -> Buffers.save_pane id l d = (l', d', ok) ->
  (forall key b, (key, b) ∈ l -> exists b', (key, b') ∈ l' /\ text b' = text b) /\
  (forall p, (forall e, e ∈ l -> e.1.1 = id -> e.1.2 <> p) -> contents d' !! p = contents d !! p).
Proof.
  revert d l' d' ok. induction l as [| [key b] l IH]; intros d l' d' ok Hp; simpl.
  { intros [=]; subst. split; [| done]. by intros ?? ?%elem_of_nil. }
  assert (forall e, e ∈ l -> buf_path e.2 = e.1.2) as Hp' by (intros; apply Hp; by right).
  assert (forall (l0 : list Buffer) b0, text b0 = text b ->
            (forall key b, (key, b) ∈ l -> exists b', (key, b') ∈ l0 /\ text b' = text b) ->
            forall key' b', (key', b') ∈ (key, b) :: l ->
              exists b'', (key', b'') ∈ (key, b0) :: l0 /\ text b'' = text b') as Hcons.
  { intros l0 b0 Ht H key' b' [[=] | Hin]%elem_of_cons; subst; [exists b0; split; [by left | done] |].
    destruct (H _ _ Hin) as (b'' & ? & ?). exists b''. split; [by right | done]. }
  destruct (bool_decide _ && dirty b) eqn:E.
  - apply andb_true_iff in E as [Hid%bool_decide_eq_true _].
    destruct (Buffers.save b d) as [[b1 d1] ok1] eqn:Es. apply save_facts in Es as (Ht & Hbp & Hd & _).
    assert (forall p, (forall e, e ∈ (key, b) :: l -> e.1.1 = id -> e.1.2 <> p) -> contents d1 !! p = contents d !! p) as Hd1.
    { intros p Hne. apply Hd. intros ->. apply (Hne (key, b)); [by left | done |].
      symmetry. apply (Hp (key, b)). by left. }
    destruct ok1.
    + destruct (Buffers.save_pane id l d1) as [[l2 d2] ok2] eqn:E2. intros [=]; subst.
      destruct (IH _ _ _ _ Hp' E2) as [H1 H2]. split; [by apply Hcons |].
      intros p Hne. rewrite H2; [by apply Hd1 |]. intros e He. apply Hne. by right.
    + intros [=]; subst. split; [| done]. apply Hcons; [done |]. intros key' b' Hin. by exists b'.
  - destruct (Buffers.save_pane id l d) as [[l2 d2] ok2] eqn:E2. intros [=]; subst.
    destruct (IH _ _ _ _ Hp' E2) as [H1 H2]. split; [by apply Hcons |].
    intros p Hne. apply H2. intros e He. apply Hne. by right.
Qed.

(** When it succeeds, every edited buffer of the pane is on disk. *)
Lemma save_pane_written id l d l' d' :
  BuffersOk l -> Buffers.save_pane id l d = (l', d', true) ->
  forall key b, (key, b) ∈ l -> key.1 = id -> dirty b = true -> contents d' !! buf_path b = Some (text b).
Proof.
  revert d l' d'. induction l as [| [key0 b0] l IH]; intros d l' d' [Hnd Hp]; simpl.
  { by intros _ ?? ?%elem_of_nil. }
  rewrite fmap_cons, NoDup_cons in Hnd. destruct Hnd as [Hn Hnd].
  assert (BuffersOk l) as Hl by (constructor; [done | intros; apply Hp; by right]).
  destruct (bool_decide _ && dirty b0) eqn:E.
  - apply andb_true_iff in E as [Hid%bool_decide_eq_true _].
    destruct (Buffers.save b0 d) as [[b1 d1] []] eqn:Es; [| done].
    destruct (Buffers.save_pane id l d1) as [[l2 d2] ok2] eqn:E2. intros [=]; subst.
    intros key b [[=] | Hin]%elem_of_cons Hk Hb; subst; [| by eapply IH].
    destruct (save_pane_frame _ _ _ _ _ _ (buffers_path _ Hl) E2) as [_ Hfr].
    rewrite Hfr; [by apply save_facts in Es as (_ & _ & _ & ->) |].
    intros [k' b'] Hin' Hk' Heq. apply Hn. simpl in *.
    assert (buf_path b0 = key0.2) as Hb0 by (apply (Hp (key0, b0)); by left).
    replace key0 with k' by (destruct k', key0; simpl in *; congruence). by apply (list_elem_of_fmap_2 fst) in Hin'.
  - destruct (Buffers.save_pane id l d) as [[l2 d2] ok2] eqn:E2. intros [=]; subst.
    intros key b [[=] | Hin]%elem_of_cons Hk Hb; subst; [| by eapply IH].
    by rewrite bool_decide_eq_true_2, Hb in E.
Qed.

Lemma keeps_text_same l d : keeps_text l l d.
Proof. intros key b Hin _. left. by exists b. Qed.

(** Closing a pane touches no other pane's buffers, and no file. *)
Lemma close_pane_files id st :
  disk (file_state (Closing.close_pane id st)) = disk (file_state st) /\
  (file_buffers (file_state (Closing.close_pane id st)) = file_buffers (file_state st) \/
   file_buffers (file_state (Closing.close_pane id st)) =
     base.filter (fun e => e.1.1 <> id) (file_buffers (file_state st))).
Proof.
  unfold Closing.close_pane. destruct (space_index_of_pane st id) as [i |]; [| by auto].
  rewrite files_sync. set (st1 := on_space i _ st).
  assert (file_state (Ownership.forget_pane id st1) = file_state st) as Hf by by rewrite files_forget.
  clearbody st1. destruct (spaces (tabs st) !! i ≫= _);
    repeat match goal with |- context [if ?b then _ else _] => destruct b end;
    simpl; rewrite Hf; auto.
Qed.

Lemma close_pane_keeps id st (l : list Buffer) :
  (forall key b, (key, b) ∈ l -> exists b', (key, b') ∈ file_buffers (file_state st) /\ text b' = text b) ->
  (forall key b, (key, b) ∈ l -> key.1 = id -> dirty b = true ->
     contents (disk (file_state st)) !! buf_path b = Some (text b)) ->
  keeps_text l (file_buffers (file_state (Closing.close_pane id st))) (disk (file_state (Closing.close_pane id st))).
Proof.
  intros Hl Hw key b Hin Hb. destruct (close_pane_files id st) as [-> [-> | ->]]; [left; by apply Hl |].
  destruct (decide (key.1 = id)); [right; by eapply Hw |]. left.
  destruct (Hl _ _ Hin) as (b' & Hb' & Ht). exists b'. split; [| done]. by apply list_elem_of_filter.
Qed.

Lemma save_then_close id st (f : UiState -> UiState) :
  (forall s, file_buffers (file_state (f s)) = file_buffers (file_state s) /\
             disk (file_state (f s)) = disk (file_state s)) ->
  BuffersOk (file_buffers (file_state st)) ->
  let '(st1, ok) := Buffers.save_pane_files id st in
  let st' := if ok then Closing.close_pane id (f st1) else st1 in
  keeps_text (file_buffers (file_state st)) (file_buffers (file_state st')) (disk (file_state st')).
Proof.
  intros Hf Hok. unfold Buffers.save_pane_files.
  destruct (Buffers.save_pane _ _ _) as [[l d] ok] eqn:E.
  destruct (save_pane_frame _ _ _ _ _ _ (buffers_path _ Hok) E) as [Ht _]. destruct ok.
  - destruct (Hf (set_disk d (set_file_buffers l st))) as [Hb Hd].
    apply close_pane_keeps; rewrite ?Hb, ?Hd; [exact Ht |]. by apply (save_pane_written _ _ _ _ _ Hok E).
  - intros key b Hin _. left. by apply Ht.
Qed.

Lemma not_dirty st id key b :
  Buffers.file_pane_dirty st id = false -> (key, b) ∈ file_buffers (file_state st) ->
  key.1 = id -> dirty b = false.
Proof.
  intros H Hin Hk. apply not_true_iff_false. intros Hb. apply not_true_iff_false in H. apply H.
  apply existsb_exists. exists (key, b). split; [by apply list_elem_of_In |].
  simpl. by rewrite bool_decide_eq_true_2, Hb.
Qed.

(** C23: the close gesture and the close dialog lose no unsaved text.  With edits and no
    auto-save the pane stays and the dialog opens; with auto-save, and from the dialog's
    "Save and close", the pane goes only once each of its edited files is on disk, and
    otherwise stays with its text.  Other panes keep their buffers.  (The dialog's
    "Don't save" and the control surface close without writing.) *)
Theorem closing_keeps_unsaved_text (id : N) (st : UiState) :
  BuffersOk (file_buffers (file_state st)) ->
  (let st' := Closing.request_close_pane id st in
   keeps_text (file_buffers (file_state st)) (file_buffers (file_state st')) (disk (file_state st')) /\
   (Buffers.file_pane_dirty st id = true -> auto_save_on_close (file_state st) = false ->
    st' = set_pending_close_pane (Some id) st)) /\
  (let st' := Closing.close_pending_pane_save st in
   keeps_text (file_buffers (file_state st)) (file_buffers (file_state st')) (disk (file_state st'))).
Proof.
  intros Hok. split; [split |].
  - unfold Closing.request_close_pane. destruct (Buffers.file_pane_dirty st id) eqn:Hd.
    + destruct (auto_save_on_close _); [| apply keeps_text_same].
      pose proof (save_then_close id st (fun s => s) ltac:(done) Hok) as H. by destruct (Buffers.save_pane_files id st).
    + apply close_pane_keeps; [intros key b Hin; by exists b |].
      intros key b Hin Hk Hb. by rewrite (not_dirty _ _ _ _ Hd Hin Hk) in Hb.
  - intros Hd Ha. unfold Closing.request_close_pane. by rewrite Hd, Ha.
  - unfold Closing.close_pending_pane_save. destruct (pending_close_pane _) as [p |]; [| apply keeps_text_same].
    pose proof (save_then_close p st (set_pending_close_pane None) ltac:(done) Hok) as H.
    by destruct (Buffers.save_pane_files p st) as [st1 []].
Qed.
End Text.
End TextProps.

(** ** A closed pane *)

Module ForgetProps.
Import Frames Soundness Steps.
Section Forget.
Context {ui : Ui} {externs : Externs}.
#[local] Opaque sync_active_view focus_pane.

(** Nothing of the state is filed under the pane. *)
Record Forgotten (id : N) (o : Owned) : Prop := {
  no_session : pane_sessions o !! id = None;
  no_runtime : pane_runtime o !! id = None;
  no_child_view : id ∉ sub_agent_views o;
  no_worker : id ∉ pane_workers o;
  no_ssh : pane_ssh o !! id = None;
  no_prompt h : ssh_reconnect_prompt o <> Some (id, h);
  no_inbox e : e ∈ inbox o -> inbox_pane e <> id;
  no_shell : id ∉ sessions (terminal o);
  no_shell_id : session_ids (terminal o) !! id = None;
  no_shell_ssh : ssh_sessions (terminal o) !! id = None;
}.

(** The other panes' entries are those they had. *)
Definition others_kept (id : N) (o o' : Owned) : Prop :=
  forall x, x <> id ->
    pane_sessions o' !! x = pane_sessions o !! x /\ pane_runtime o' !! x = pane_runtime o !! x /\
    pane_ssh o' !! x = pane_ssh o !! x /\ (x ∈ pane_workers o' <-> x ∈ pane_workers o) /\
    (x ∈ sessions (terminal o') <-> x ∈ sessions (terminal o)) /\
    base.filter (fun e => inbox_pane e = x) (inbox o') = base.filter (fun e => inbox_pane e = x) (inbox o).

Lemma not_elem_of_diff (id : N) (X : gset N) : id ∉ X ∖ {[ id ]}.
Proof. rewrite elem_of_difference, elem_of_singleton. tauto. Qed.
Lemma elem_of_diff_ne (x id : N) (X : gset N) : x <> id -> x ∈ X ∖ {[ id ]} <-> x ∈ X.
Proof. rewrite elem_of_difference, elem_of_singleton. tauto. Qed.

Lemma inbox_prune id st :
  inbox (owned (Inbox.prune_inbox_for_pane id st)) = base.filter (fun e => inbox_pane e <> id) (inbox (owned st)).
Proof. unfold Inbox.prune_inbox_for_pane. by case_bool_decide. Qed.

Lemma owned_prune id st :
  let o' := owned (Inbox.prune_inbox_for_pane id st) in
  pane_sessions o' = pane_sessions (owned st) /\ pane_runtime o' = pane_runtime (owned st) /\
  sub_agent_views o' = sub_agent_views (owned st) /\ pane_workers o' = pane_workers (owned st) /\
  pane_ssh o' = pane_ssh (owned st) /\ ssh_reconnect_prompt o' = ssh_reconnect_prompt (owned st) /\
  terminal o' = terminal (owned st).
Proof. unfold Inbox.prune_inbox_for_pane. by case_bool_decide. Qed.

Lemma filter_filter_ne {A} (f : A -> N) (l : list A) x y :
  x <> y -> base.filter (fun e => f e = x) (base.filter (fun e => f e <> y) l) = base.filter (fun e => f e = x) l.
Proof.
  intros Hne. induction l as [| e l IH]; [done |]. rewrite !filter_cons.
  repeat (case_decide; rewrite ?filter_cons); subst; try done; by rewrite ?IH.
Qed.

Lemma forget_pane_spec id st :
  Forgotten id (owned (Ownership.forget_pane id st)) /\
  others_kept id (owned st) (owned (Ownership.forget_pane id st)) /\
  killed (terminal (owned (Ownership.forget_pane id st))) =
    killed (terminal (owned st)) ++ (if bool_decide (id ∈ sessions (terminal (owned st))) then [id] else []).
Proof.
  unfold Ownership.forget_pane. set (st1 := match ssh_reconnect_prompt (owned st) with Some _ => _ | None => _ end).
  assert (pane_sessions (owned st1) = delete id (pane_sessions (owned st)) /\
          pane_runtime (owned st1) = delete id (pane_runtime (owned st)) /\
          sub_agent_views (owned st1) = sub_agent_views (owned st) ∖ {[ id ]} /\
          pane_workers (owned st1) = pane_workers (owned st) ∖ {[ id ]} /\
          pane_ssh (owned st1) = delete id (pane_ssh (owned st)) /\
          (forall h, ssh_reconnect_prompt (owned st1) <> Some (id, h)) /\
          inbox (owned st1) = inbox (owned st) /\ terminal (owned st1) = terminal (owned st))
    as (H1 & H2 & H3 & H4 & H5 & H6 & H7 & H8).
  { subst st1. destruct (ssh_reconnect_prompt (owned st)) as [[p h] |] eqn:E; [case_bool_decide |];
      simpl; rewrite ?E; split_and!; try done; intros h' [=]; done. }
  clearbody st1. pose proof (inbox_prune id st1) as Hi.
  destruct (owned_prune id st1) as (P1 & P2 & P3 & P4 & P5 & P6 & P8). unfold set_terminal, on_owned. simpl.
  rewrite P8, H8. split_and!.
  - constructor; simpl.
    + by rewrite P1, H1, lookup_delete_eq.
    + by rewrite P2, H2, lookup_delete_eq.
    + rewrite P3, H3. apply not_elem_of_diff.
    + rewrite P4, H4. apply not_elem_of_diff.
    + by rewrite P5, H5, lookup_delete_eq.
    + intros h. by rewrite P6.
    + rewrite Hi. by intros e [He _]%list_elem_of_filter.
    + apply not_elem_of_diff.
    + apply lookup_delete_eq.
    + apply lookup_delete_eq.
  - intros x Hx. simpl. rewrite P1, P2, P4, P5, Hi, H1, H2, H4, H5, H7, !lookup_delete_ne by done.
    rewrite filter_filter_ne by done. split_and!; try done; by apply elem_of_diff_ne.
  - unfold Ownership.kill_pane. simpl. case_bool_decide; [done | by rewrite app_nil_r].
Qed.

Lemma forgotten_focus id n st : Forgotten id (owned st) -> Forgotten id (owned (focus n st)).
Proof. done. Qed.

#[local] Opaque Ownership.forget_pane.

Lemma prune_attachments id st : pane_attachments (owned (Inbox.prune_inbox_for_pane id st)) = pane_attachments (owned st).
Proof. unfold Inbox.prune_inbox_for_pane. by repeat case_match. Qed.
#[local] Transparent Ownership.forget_pane.
Lemma forget_pane_attachments id st : pane_attachments (owned (Ownership.forget_pane id st)) = pane_attachments (owned st).
Proof.
  unfold Ownership.forget_pane, set_terminal. cbn [owned on_owned pane_attachments]. rewrite prune_attachments.
  destruct (ssh_reconnect_prompt _) as [[p h] |]; [by case_bool_decide | done].
Qed.
#[local] Opaque Ownership.forget_pane.

(** What a pane owned goes when it is closed (the close gesture and the close dialog,
    [UiState::close_pane]): its conversation session and runtime, an open child view, its
    viewer session, SSH binding and reconnect offer, its inbox items, its open files and
    their buffers; its shell is killed once if it had one, and the pane is expanded no
    more.  Every other pane keeps what it owns.  The files attached to its input stay in
    their table. *)
Theorem closed_pane_is_forgotten (id : N) (st : UiState) :
  is_Some (space_index_of_pane st id) ->
  let st' := Closing.close_pane id st in
  Forgotten id (owned st') /\ others_kept id (owned st) (owned st') /\
  killed (terminal (owned st')) =
    killed (terminal (owned st)) ++ (if bool_decide (id ∈ sessions (terminal (owned st))) then [id] else []) /\
  (forall e, e ∈ file_buffers (file_state st') -> e.1.1 <> id) /\
  pane_open_files (file_state st') !! id = None /\ maximized_pane (tabs st') <> Some id /\
  pane_attachments (owned st') = pane_attachments (owned st).
Proof.
  intros [i Hi]. unfold Closing.close_pane. rewrite Hi. simpl.
  set (st1 := on_space i _ st). assert (owned st1 = owned st) as Ho by done. clearbody st1.
  destruct (forget_pane_spec id st1) as (H1 & H2 & H3).
  pose proof (forget_pane_attachments id st1) as H4. rewrite Ho in H2, H3, H4.
  set (st2 := Ownership.forget_pane id st1) in *. clearbody st2.
  rewrite owned_sync, files_sync, tabs_sync.
  set (st3 := if bool_decide (maximized_pane _ = _) then _ else _).
  assert (owned st3 = owned st2 /\
          file_buffers (file_state st3) = base.filter (fun e => e.1.1 <> id) (file_buffers (file_state st2)) /\
          pane_open_files (file_state st3) = delete id (pane_open_files (file_state st2)) /\
          maximized_pane (tabs st3) <> Some id) as (Q1 & Q2 & Q3 & Q4).
  { subst st3. destruct (bool_decide_reflect (maximized_pane (tabs st2) = Some id)); simpl;
      (split; [| split; [| split]]); done. }
  clearbody st3. set (st4 := match _ with Some _ => _ | None => _ end).
  assert (owned st4 = owned st3 /\ file_state st4 = file_state st3 /\ maximized_pane (tabs st4) = maximized_pane (tabs st3))
    as (R1 & R2 & R3).
  { subst st4. destruct (spaces (tabs st) !! i ≫= _); [by destruct (_ && _) | done]. }
  rewrite R1, R2, R3, Q1, Q2, Q3, lookup_delete_eq. split_and!; try done.
  intros e [He _]%list_elem_of_filter. done.
Qed.
End Forget.
End ForgetProps.

(** ** The inbox *)

Module InboxProps.
Section Inbox.
Context {ui : Ui} {externs : Externs}.

(** An item still waiting that names the conversation it is about. *)
Definition waiting (e : InboxItem) : Prop := acknowledged e = false /\ inbox_conversation e <> [].
#[export] Instance waiting_dec e : Decision (waiting e).
Proof. unfold waiting. apply _. Defined.

Definition question (e : InboxItem) : Str * InboxKind := (inbox_conversation e, inbox_kind e).
Definition questions (l : list InboxItem) : list (Str * InboxKind) := question <$> base.filter waiting l.

(** No identifier twice, and no conversation asked the same thing twice. *)
Record AsksOnce (l : list InboxItem) : Prop := {
  asks_ids : NoDup (inbox_id <$> l);
  asks_questions : NoDup (questions l);
}.

Lemma asks_sublist l l' :
  (inbox_id <$> l') `sublist_of` (inbox_id <$> l) -> questions l' `sublist_of` questions l ->
  AsksOnce l -> AsksOnce l'.
Proof. intros H1 H2 [Hi Hq]. constructor; by eapply sublist_NoDup. Qed.

Lemma questions_sublist l l' : l' `sublist_of` l -> questions l' `sublist_of` questions l.
Proof.
  unfold questions. induction 1 as [| e l' l Hl IH | e l' l Hl IH]; [done | |]; rewrite ?filter_cons;
    case_decide; simpl; first [done | by constructor].
Qed.

Lemma push_asks item st :
  AsksOnce (inbox (owned st)) -> AsksOnce (inbox (owned (Inbox.push_inbox item st).1)).
Proof.
  intros H. unfold Inbox.push_inbox. destruct (existsb _ _) eqn:Hid; [done |].
  destruct (negb _ && _) eqn:Hq; [done |]. destruct H as [Hi Hqs]. simpl. constructor.
  - rewrite fmap_cons. constructor; [| done]. intros (e & He & Hel)%list_elem_of_fmap.
    apply not_true_iff_false in Hid. apply Hid, existsb_exists. exists e.
    split; [by apply list_elem_of_In | by apply bool_decide_eq_true].
  - unfold questions. rewrite filter_cons. case_decide as Hw; [| done]. destruct Hw as [Ha Hc].
    rewrite fmap_cons. constructor; [| done].
    intros (e & He & [[Hea Hec] Hel]%list_elem_of_filter)%list_elem_of_fmap. injection He as He1 He2.
    apply not_true_iff_false in Hq. apply Hq. rewrite bool_decide_eq_false_2 by done. simpl.
    apply existsb_exists. exists e. split; [by apply list_elem_of_In |].
    rewrite Hea, He1, He2, !bool_decide_eq_true_2 by done. done.
Qed.

Lemma questions_app l l' : questions (l ++ l') = questions l ++ questions l'.
Proof. unfold questions. by rewrite filter_app, fmap_app. Qed.

(** Putting another item in an item's place. *)
Lemma asks_insert l i e e' :
  l !! i = Some e -> inbox_id e' = inbox_id e -> questions [e'] `sublist_of` questions [e] ->
  AsksOnce l -> AsksOnce (<[i := e']> l).
Proof.
  intros Hl Hid Hq. apply asks_sublist.
  - rewrite list_fmap_insert, Hid, list_insert_id; [done |]. by rewrite list_lookup_fmap, Hl.
  - assert (i < length l) by by eapply lookup_lt_Some.
    rewrite insert_take_drop by done. rewrite <- (take_drop_middle l i e Hl) at 3.
    rewrite (cons_middle e'), (cons_middle e), !questions_app. by repeat apply sublist_app.
Qed.

Lemma ack_asks id st : AsksOnce (inbox (owned st)) -> AsksOnce (inbox (owned (Inbox.ack_inbox id st).1)).
Proof.
  intros H. unfold Inbox.ack_inbox. destruct (list_find _ _) as [[i e] |] eqn:Hf; [| done].
  destruct (acknowledged e); [done |]. apply list_find_Some in Hf as (He & _ & _). simpl.
  eapply asks_insert; [done | done | | done]. unfold questions. rewrite !filter_cons.
  destruct (decide (waiting (Inbox.acknowledge e))) as [[[=] _] |]. simpl. apply sublist_nil_l.
Qed.

Lemma ack_all_asks st : AsksOnce (inbox (owned st)) -> AsksOnce (inbox (owned (Inbox.ack_all st).1)).
Proof.
  apply asks_sublist; simpl.
  - by rewrite <- list_fmap_compose.
  - assert (questions (Inbox.acknowledge <$> inbox (owned st)) = []) as ->; [| apply sublist_nil_l].
    unfold questions. rewrite SpaceProps.filter_false; [done |].
    intros e (x & -> & _)%list_elem_of_fmap [Hw _]. done.
Qed.

Lemma prune_asks pane st :
  AsksOnce (inbox (owned st)) -> AsksOnce (inbox (owned (Inbox.prune_inbox_for_pane pane st))).
Proof.
  rewrite ForgetProps.inbox_prune. apply asks_sublist.
  - apply fmap_sublist, sublist_filter.
  - apply questions_sublist, sublist_filter.
Qed.

Lemma jump_asks index st :
  AsksOnce (inbox (owned st)) -> AsksOnce (inbox (owned (Inbox.jump_to_inbox_item index st).1)).
Proof.
  intros H. unfold Inbox.jump_to_inbox_item. destruct (inbox (owned st) !! index) as [e |] eqn:He; [| done].
  destruct (space_index_of_pane st (inbox_pane e)); [| done]. cbn [fst].
  rewrite Frames.owned_sync. simpl. eapply asks_insert; [done | done | | done].
  unfold questions. rewrite !filter_cons. simpl. destruct (decide (waiting e)) as [Hw | Hw].
  - rewrite decide_True by done. done.
  - rewrite decide_False by done. done.
Qed.

(** What the app does to the inbox. *)
Inductive InboxOp : Type :=
| Push (item : InboxItem)
| Raise (pane : N) (conversation : Str) (kind : InboxKind) (title detail : Str) (now : Instant)
| Acknowledge (id : Str)
| AcknowledgeAll
| Prune (pane : N)
| Jump (index : nat).

Definition inbox_op (st : UiState) (o : InboxOp) : UiState :=
  match o with
  | Push item => (Inbox.push_inbox item st).1
  | Raise pane c k t d now => (Inbox.raise_inbox pane c k t d now st).1
  | Acknowledge id => (Inbox.ack_inbox id st).1
  | AcknowledgeAll => (Inbox.ack_all st).1
  | Prune pane => Inbox.prune_inbox_for_pane pane st
  | Jump index => (Inbox.jump_to_inbox_item index st).1
  end.

(** However items are pushed, raised, acknowledged, pruned and jumped to, the
    inbox never holds two items with one identifier, and never two waiting items
    of the same kind about the same conversation. *)
Theorem inbox_asks_once (ops : list InboxOp) (st : UiState) :
  AsksOnce (inbox (owned st)) -> AsksOnce (inbox (owned (foldl inbox_op st ops))).
Proof.
  revert st. induction ops as [| o ops IH]; intros st H; [done |]. apply IH.
  destruct o; unfold inbox_op, Inbox.raise_inbox;
    auto using push_asks, ack_asks, ack_all_asks, prune_asks, jump_asks.
  by apply push_asks.
Qed.

(** Acknowledging an item that waits answers [true], once. *)
Lemma ack_counts_down id st :
  (Inbox.ack_inbox id st).2 = true ->
  S (Inbox.unread_inbox_count (Inbox.ack_inbox id st).1) = Inbox.unread_inbox_count st.
Proof.
  unfold Inbox.ack_inbox, Inbox.unread_inbox_count. destruct (list_find _ _) as [[i e] |] eqn:Hf; [| done].
  destruct (acknowledged e) eqn:Ha; [done |]. intros _. apply list_find_Some in Hf as (He & _ & _). simpl.
  assert (i < length (inbox (owned st))) by by eapply lookup_lt_Some.
  rewrite insert_take_drop by done. rewrite <- (take_drop_middle _ _ _ He) at 3.
  rewrite !filter_app, !filter_cons, !length_app. simpl.
  destruct (decide (acknowledged e = false)); [| done]. simpl. lia.
Qed.
End Inbox.
End InboxProps.

(** ** The layout across a restart *)

Module PersistProps.
Import TreeProps SpaceProps Gestures Soundness Steps.
Section Persist.
Context {ui : Ui} {externs : Externs}.

Definition max_ids (l : list Space) : N := foldr N.max 0%N ((fun s => Tree.max_id (root s)) <$> l).

Lemma max_ids_cons s l : max_ids (s :: l) = N.max (Tree.max_id (root s)) (max_ids l).
Proof. done. Qed.

Lemma max_ids_bound l x : x ∈ nodes l -> (x <= max_ids l)%N.
Proof.
  induction l as [| s l IH]; [by intros H%elem_of_nil |]. rewrite nodes_cons, elem_of_app.
  rewrite max_ids_cons. intros [H%max_id_bound | H%IH]; lia.
Qed.

Lemma max_ids_lt l next : (0 < next)%N -> (forall x, x ∈ nodes l -> (x < next)%N) -> (max_ids l < next)%N.
Proof.
  intros Hn. induction l as [| s l IH]; intros H; [done |]. rewrite max_ids_cons.
  apply N.max_lub_lt; [apply H | apply IH; intros x Hx; apply H]; rewrite nodes_cons, elem_of_app;
    [left; apply max_id_elem | by right].
Qed.

(** A tab is well formed under any counter above its identifiers. *)
Lemma wf_rebound next next' s : Wf next s -> (forall x, x ∈ ids (root s) -> (x < next')%N) -> Wf next' s.
Proof. intros [] H. constructor; try done. by apply Forall_forall. Qed.

Lemma tabs_ok_rebound next l : TabsOk next l -> (max_ids l + 1 < 2 ^ 64)%N -> TabsOk (bump (max_ids l)) l.
Proof.
  intros [Hw Hn Hs] Hb. constructor; [| done | done]. apply Forall_forall. intros s Hin.
  rewrite Forall_forall in Hw. apply (wf_rebound next); [by apply Hw |]. intros x Hx.
  rewrite bump_small by done. apply list_elem_of_lookup in Hin as [i Hi].
  assert (x <= max_ids l)%N by (eapply max_ids_bound, nodes_elem; done). lia.
Qed.

Lemma recompute_all next l : Forall (Wf next) l -> Space_.recompute_layout <$> l = l.
Proof.
  induction 1 as [| s l Hs Hl IH]; [done |]. rewrite fmap_cons, IH. f_equal. by eapply recompute_id.
Qed.

(** The session a pane comes back with. *)
Definition revived (live : gset Str) (ids : gmap N Str) (id : N) (s : PaneSession) : PaneSession :=
  Persistence.drop_dead live (match ids !! id with Some d => Persistence.with_daemon d s | None => s end).

Lemma visible_not_minimized s id :
  head (Space_.visible_leaf_ids s) = Some id -> Space_.pane_minimized s id = false /\ id ∈ leaf_ids (root s).
Proof.
  intros H. apply head_Some_elem_of in H. unfold Space_.visible_leaf_ids in H.
  apply list_elem_of_filter in H as [H1 H2]. split; [by destruct (Space_.pane_minimized s id) | done].
Qed.

(** C25: a layout that is saved comes back: the same tabs in the same order, the
    same tab on screen and the same SSH bindings; each pane's session is its own,
    under the daemon session the registry had for it, less a conversation the
    store no longer lists.  The tabs are in order under the recomputed counter,
    and the focus is where it was unless that pane is docked and another is not:
    then it is on one that is on screen. *)
Theorem saved_layout_comes_back (live : gset Str) (st st0 : UiState) :
  Sound (tabs st) -> (next_pane_id (tabs st) < 2 ^ 64)%N ->
  let st' := Persistence.restore_panes live (Persistence.save_panes st) st0 in
  spaces (tabs st') = spaces (tabs st) /\ active_space (tabs st') = active_space (tabs st) /\
  pane_ssh (owned st') = pane_ssh (owned st) /\
  (forall id, pane_sessions (owned st') !! id =
     revived live (session_ids (terminal (owned st))) id <$> pane_sessions (owned st) !! id) /\
  Sound (tabs st') /\
  (forall s, active st = Some s ->
     (Space_.pane_minimized s (active_pane_id (tabs st)) = false ->
        active_pane_id (tabs st') = active_pane_id (tabs st)) /\
     (Space_.visible_leaf_ids s <> [] -> Space_.pane_minimized s (active_pane_id (tabs st')) = false)).
Proof.
  intros [Hok (s & Hs & Hf)] Hnext. unfold Persistence.restore_panes, Persistence.save_panes. cbn [Persistence.p_spaces].
  assert (spaces (tabs st) <> []) as Hne by (intros E; by rewrite E in Hs).
  assert (active_space (tabs st) < length (spaces (tabs st))) as Hlt by by eapply lookup_lt_Some.
  assert (max_ids (spaces (tabs st)) < next_pane_id (tabs st))%N as Hmax.
  { apply max_ids_lt; [| intros x; apply nodes_bound, Hok].
    apply (fun H => N.le_lt_trans 0 (active_pane_id (tabs st)) _ (N.le_0_l _) H).
    eapply nodes_bound; [apply Hok |]. by eapply nodes_elem, leaf_id_in_ids. }
  destruct (spaces (tabs st)) as [| s0 l0] eqn:El; [done |]. rewrite <- El in *. clear El Hne.
  rewrite (recompute_all _ _ (ok_wf _ _ Hok)).
  cbn [Persistence.p_active_space Persistence.p_active_pane_id Persistence.p_sessions Persistence.p_ssh].
  rewrite Nat.min_l by lia. rewrite Hs. fold (max_ids (spaces (tabs st))).
  assert (Tree.contains_leaf (root s) (active_pane_id (tabs st)) = true) as -> by by apply contains_leaf_spec.
  set (id := if Space_.pane_minimized s _ then _ else _).
  assert (id ∈ leaf_ids (root s)) as Hid.
  { subst id. destruct (Space_.pane_minimized s _); [| done].
    destruct (head _) eqn:Eh; [by apply visible_not_minimized in Eh as [_ ?] | done]. }
  simpl. split_and!; try done.
  - intros x. rewrite lookup_fmap. unfold Persistence.overlay. rewrite map_lookup_imap.
    destruct (pane_sessions (owned st) !! x); done.
  - constructor; [apply (tabs_ok_rebound _ _ Hok); simpl; lia |]. simpl. by exists s.
  - intros s' [= <-]%(eq_trans (eq_sym Hs)). split.
    + intros Hm. subst id. by rewrite Hm.
    + intros Hv. subst id. destruct (Space_.pane_minimized s _) eqn:Em; [| done].
      destruct (head _) eqn:Eh; [by apply visible_not_minimized in Eh as [? _] |].
      by destruct (Space_.visible_leaf_ids s).
Qed.
End Persist.
End PersistProps.
