(* ===== verification/WorkspaceDemo.v ===== *)
(** The gestures on a small window: witnesses of the theorems on tabs, and what
    running the code's own steps shows. *)

From Stdlib Require Import ZArith SpecFloat.
From stdpp Require Import base gmap list.
From S2P Require Import Prelude Floats Panes PanesProps Workspace WorkspaceProps WorkspaceSafety.

Open Scope nat_scope.

Module Demo.
Import TreeProps SpaceProps Gestures TabTheorems FocusProps BoundsProps.
Import Soundness Steps Actions TextProps ForgetProps InboxProps PersistProps.

#[local] Instance externs : Externs := demo_externs.
#[local] Instance euclid : Euclid := demo_euclid.
#[local] Instance ui : Ui := demo_ui.

(** A conversation beside a shell, in floating windows. *)
Definition tree : Pane := Split 2 Horizontal f_half (Leaf 1 Chat) (Leaf 3 Terminal).
Definition windows : list FloatingPane :=
  [mkFloating 1 (Geometry.default_floating_rect 0) false;
   mkFloating 3 (Geometry.default_floating_rect 1) false].
Definition tab (l : LayoutKind) : Space := mkSpace [] false tree Space_.LOCAL None l windows.

(** A tab of one file. *)
Definition notes : Str := lit "/notes.md".
Definition file_tab : Space := mkSpace [] false (Leaf 4 (File notes)) Space_.LOCAL None Bsp [].

Definition clean_shell : TerminalRegistry :=
  mkTerminal {[ 3%N ]} ∅ ∅ ∅ {[ 3%N := lit "d-3" ]} ∅ [].
Definition edited : FileBuffer := mkBuffer notes (lit "new") (lit "old") true None false None None.

Definition window (l : LayoutKind) : UiState :=
  mkUi (mkTabs [tab l; file_tab] 0 1 5 None TabChat)
       (mkDrags None None None)
       (mkOwned {[ 1%N := mkSession (lit "c1") (lit "half a line") (lit "/src") [];
                   3%N := mkSession [] [] (lit "/src") [] ]}
          ∅ ∅ ∅ ∅ None [] 0 None 1 clean_shell ∅)
       (mkFiles {[ 4%N := [notes] ]} [((4%N, notes), edited)] None None false
          (mkFs {[ notes := lit "old" ]} (fun _ => None)))
       (mkFront [] None [] [] false [] None None false).

Definition in_order (next : N) (s : Space) : bool :=
  bool_decide (NoDup (ids (root s))) && bool_decide (Forall (fun i => i < next)%N (ids (root s)))
  && bool_decide (NoDup (float_ids s)) && bool_decide (Forall (fun i => i ∈ leaf_ids (root s)) (float_ids s))
  && bool_decide (layout s = Floating -> Forall (fun i => i ∈ float_ids s) (leaf_ids (root s))).

Lemma in_order_wf next s : in_order next s = true -> Wf next s.
Proof.
  unfold in_order. rewrite !andb_true_iff, !bool_decide_eq_true, !Forall_forall.
  intros ((((H1 & H2) & H3) & H4) & H5). constructor; try done; [by apply Forall_forall |].
  intros i Hl. by apply H5.
Qed.

(** The same for the whole strip. *)
Definition strip_in_order (t : Tabs) : bool :=
  forallb (in_order (next_pane_id t)) (spaces t) && bool_decide (NoDup (nodes (spaces t)))
  && (settings_count (spaces t) <=? 1)
  && match spaces t !! active_space t with
     | Some s => bool_decide (active_pane_id t ∈ leaf_ids (root s))
     | None => false
     end.

Lemma strip_in_order_sound t : strip_in_order t = true -> Sound t.
Proof.
  unfold strip_in_order. rewrite !andb_true_iff, forallb_forall, bool_decide_eq_true, Nat.leb_le.
  intros (((H1 & H2) & H3) & H4). constructor.
  - constructor; [| done | done]. apply Forall_forall. intros s Hs. by apply in_order_wf, H1, list_elem_of_In.
  - destruct (spaces t !! active_space t) as [s |]; [| done]. exists s. by apply bool_decide_eq_true in H4.
Qed.

Lemma tab_wf l : Wf 5 (tab l).
Proof. apply in_order_wf. by destruct l; vm_compute. Qed.

Lemma window_sound l : Sound (tabs (window l)).
Proof. apply strip_in_order_sound. by destruct l; vm_compute. Qed.

(** ** Tabs *)

Lemma tab_stays_well_formed_witness :
  let r := gesture (GSplit 3 Vertical) (tab Floating) 5 in Wf r.2 r.1 /\ (5 <= r.2 <= 5 + 2)%N.
Proof.
  apply (tab_stays_well_formed (GSplit 3 Vertical) (tab Floating) _ 5 _);
    [apply tab_wf | reflexivity | reflexivity].
Defined.

Definition dropped : Space * N * bool := Space_.move_pane 3 1 Top (tab Bsp) 5.

Lemma move_keeps_every_pane_witness :
  dropped.2 = true /\ Tree.leaves (root dropped.1.1) ≡ₚ Tree.leaves (root (tab Bsp)) /\
  Tree.sibling_on_side (root dropped.1.1) 1 Top = Some 3%N /\
  Space_.move_pane 3 1 Top dropped.1.1 dropped.1.2 = (dropped.1.1, dropped.1.2, false).
Proof.
  split; [by vm_compute |].
  apply (move_keeps_every_pane 3 1 Top (tab Bsp) dropped.1.1 5 dropped.1.2 true);
    [apply tab_wf | reflexivity | by vm_compute].
Defined.

Definition opened : Space * N * option N := Space_.split_with_kind 1 Vertical Terminal (tab Floating) 5.

Lemma split_then_close_witness : opened.2 = Some 6%N /\ Space_.close 6 opened.1.1 = (tab Floating, Some 1%N).
Proof.
  split; [by vm_compute |].
  apply (split_then_close 1 6 5 opened.1.2 Vertical Terminal (tab Floating) opened.1.1);
    [apply tab_wf | reflexivity | by vm_compute].
Defined.

Lemma arrow_finds_a_pane_that_way_witness :
  Space_.navigate (tab Bsp) 1 NavRight = Some 3%N /\ on_screen (tab Bsp) 3 /\
  Space_.navigate (tab Bsp) 1 NavLeft = None.
Proof.
  pose proof (arrow_finds_a_pane_that_way (tab Bsp) 5 1 NavRight (tab_wf Bsp) ltac:(done)) as H.
  assert (Space_.navigate (tab Bsp) 1 NavRight = Some 3%N) as E by by vm_compute.
  rewrite E in H. split; [exact E |]. split; [apply H | by vm_compute].
Defined.

Lemma carousel_arrows_are_inverse_witness :
  exists to, Space_.navigate (tab Carousel) 3 NavRight = Some to /\ to ∈ leaf_ids (root (tab Carousel)) /\
    Space_.navigate (tab Carousel) to (opposite NavRight) = Some 3%N.
Proof.
  apply (carousel_arrows_are_inverse (tab Carousel) 5 3 NavRight);
    [apply tab_wf | reflexivity | apply (bool_decide_unpack _); by vm_compute | vm_compute; lia].
Defined.

Lemma tab_in_bounds l : InBounds (tab l).
Proof.
  split; cbn [tab floating windows root tree ratios app].
  - apply Forall_cons_2, Forall_cons_2, Forall_nil_2; exact (default_rect_ok _).
  - apply Forall_cons_2, Forall_nil_2. exact half_ok.
Qed.

(** A window thrown far off the pane area. *)
Definition far_away : PaneRect := mkRect (f32_of_Z 9) (f32_of_Z (-9)) (f32_of_Z 3) f0.

Lemma windows_stay_reachable_witness :
  InBounds (gesture (GRect 1 far_away) (tab Floating) 5).1.
Proof. apply (windows_stay_reachable (GRect 1 far_away) (tab Floating) 5), tab_in_bounds. Defined.

(** ** The window *)

Lemma workspace_stays_sound_witness :
  Sound (tabs (act None (lit "/") (ControlSplit 3 Vertical None None) (window Bsp))).
Proof.
  apply (workspace_stays_sound None (lit "/") (ControlSplit 3 Vertical None None) (window Bsp));
    [apply window_sound | reflexivity | exact I].
Defined.

Definition carried : PaneDrag := mkPaneDrag 3 0 (vec2f f0 f0) (vec2f f1 f1) (Some 1) None.
Definition carrying : UiState := set_pane_drag (Some carried) (window Bsp).
Definition released : UiState * PaneDrop := Moving.release_pane_drag (Some 1) None carrying.

Lemma drop_keeps_every_pane_witness :
  released.2 = NewTab (mkMove 1 None) /\ pane_drag (drags released.1) = None /\
  all_panes (spaces (tabs released.1)) ≡ₚ all_panes (spaces (tabs carrying)) /\
  active_space (tabs released.1) = 1 /\ active_pane_id (tabs released.1) = 3%N.
Proof.
  split; [by vm_compute |].
  destruct (drop_keeps_every_pane (Some 1) None carrying released.1 (NewTab (mkMove 1 None)) carried)
    as (Hd & _ & Hp & _ & Ht & Hf); [apply (window_sound Bsp) | reflexivity | reflexivity | by vm_compute |].
  exact (conj Hd (conj Hp (conj Ht Hf))).
Defined.

Lemma window_buffers l : BuffersOk (file_buffers (file_state (window l))).
Proof.
  constructor; [apply (bool_decide_unpack _); by vm_compute |].
  intros e [-> | []%elem_of_nil]%elem_of_cons. done.
Qed.

Lemma closing_keeps_unsaved_text_witness :
  Closing.request_close_pane 4 (window Bsp) = set_pending_close_pane (Some 4%N) (window Bsp).
Proof.
  apply (closing_keeps_unsaved_text 4 (window Bsp) (window_buffers Bsp)); [by vm_compute | reflexivity].
Defined.

Lemma closed_pane_is_forgotten_witness :
  let st' := Closing.close_pane 3 (window Bsp) in
  Forgotten 3 (owned st') /\ killed (terminal (owned st')) = [3%N].
Proof.
  destruct (closed_pane_is_forgotten 3 (window Bsp)) as (H1 & _ & H3 & _); [by eexists |].
  split; [exact H1 | rewrite H3; by vm_compute].
Defined.

Definition asked : list InboxOp :=
  [Raise 1 (lit "c1") Approval (lit "Run a command") [] 0;
   Raise 1 (lit "c1") Approval (lit "Run a command") [] 1;
   Acknowledge (lit "inbox-1"); Raise 1 (lit "c1") Approval (lit "Run a command") [] 2].

Lemma inbox_asks_once_witness :
  AsksOnce (inbox (owned (foldl inbox_op (window Bsp) asked))) /\
  inbox_id <$> inbox (owned (foldl inbox_op (window Bsp) asked)) = [lit "inbox-3"; lit "inbox-1"].
Proof.
  split; [| by vm_compute]. apply (inbox_asks_once asked (window Bsp)). constructor; constructor.
Defined.

Definition docked : UiState :=
  on_space 0 (Space_.minimize_pane 1) (window Floating).

Lemma docked_sound : Sound (tabs docked).
Proof. apply strip_in_order_sound. by vm_compute. Qed.

Definition restarted : UiState :=
  Persistence.restore_panes {[ lit "c2" ]} (Persistence.save_panes docked) (window Bsp).

Lemma saved_layout_comes_back_witness :
  spaces (tabs restarted) = spaces (tabs docked) /\ Sound (tabs restarted) /\
  pane_sessions (owned restarted) !! 1%N = Some (mkSession [] (lit "half a line") (lit "/src") []) /\
  active_pane_id (tabs docked) = 1%N /\ active_pane_id (tabs restarted) = 3%N.
Proof.
  destruct (saved_layout_comes_back {[ lit "c2" ]} docked (window Bsp)) as (H1 & _ & _ & H4 & H5 & _);
    [apply docked_sound | reflexivity |].
  split; [exact H1 |]. split; [exact H5 |].
  split; [refine (eq_trans (H4 1%N) _); by vm_compute |]. split; reflexivity.
Defined.

(** ** What the steps show *)

(** Closing the only pane of a tab (Cmd+W) keeps the pane and takes what it owned:
    its conversation is unbound and its draft is gone.  The control surface
    answers an error instead. *)
Example closing_the_only_pane_strips_it :
  let st := set_pane_sessions {[ 4%N := mkSession (lit "c9") (lit "draft") [] [] ]}
              (set_file_buffers [] (window Bsp)) in
  let st' := Closing.request_close_pane 4 st in
  space_index_of_pane st' 4 = Some 1 /\ pane_sessions (owned st') !! 4%N = None /\
  (Control.close_pane 4 st).2 = Err (Control.OnlyPane 4 1).
Proof. by vm_compute. Qed.

(** Closing a tab asks nothing about the edits its panes hold: the dialog stays
    closed, nothing is written, and the pane the text was in is gone. *)
Example closing_a_tab_skips_the_dialog :
  let st' := Opening.close_space_at None 1 (window Bsp) in
  Buffers.file_pane_dirty (window Bsp) 4 = true /\ space_index_of_pane st' 4 = None /\
  pending_close_pane (file_state st') = None /\ contents (disk (file_state st')) !! notes = Some (lit "old").
Proof. by vm_compute. Qed.

(** Nor does the control surface, closing a pane. *)
Example control_close_skips_the_dialog :
  let st := set_file_buffers [((3%N, notes), edited)] (window Bsp) in
  let '(st', r) := Control.close_pane 3 st in
  Buffers.file_pane_dirty st 3 = true /\ r = Ok 3%N /\ space_index_of_pane st' 3 = None /\
  pending_close_pane (file_state st') = None.
Proof. by vm_compute. Qed.

(** It leaves the open files and the buffers of the pane it closed behind. *)
Example control_close_leaves_the_buffers :
  let st := set_pane_open_files {[ 3%N := [notes] ]} (set_file_buffers [((3%N, notes), edited)] (window Bsp)) in
  let st' := (Control.close_pane 3 st).1 in
  space_index_of_pane st' 3 = None /\ pane_open_files (file_state st') !! 3%N = Some [notes] /\
  file_buffers (file_state st') = [((3%N, notes), edited)].
Proof. by vm_compute. Qed.

(** The files attached to a pane's input outlive it. *)
Example attachments_outlive_the_pane :
  let st' := Closing.close_pane 3 (Ownership.attach_pane_file 3 notes (window Bsp)) in
  space_index_of_pane st' 3 = None /\ pane_attachments (owned st') !! 3%N = Some [notes].
Proof. by vm_compute. Qed.

(** Closing a pane can leave the keyboard on a docked window: the tree's next leaf
    has the focus, on screen or not. *)
Example closing_focuses_a_docked_window :
  let st := focus 3 docked in
  let st' := Closing.close_pane 3 st in
  active_pane_id (tabs st') = 1%N /\
  (fun s => Space_.pane_minimized s 1) <$> active st' = Some true.
Proof. by vm_compute. Qed.

(** Raising a question already asked answers an identifier no item has. *)
Example a_refused_item_still_gets_a_name :
  let '(st, _) := Inbox.raise_inbox 1 (lit "c1") Question [] [] 0 (window Bsp) in
  let '(st, id) := Inbox.raise_inbox 1 (lit "c1") Question [] [] 1 st in
  id = lit "inbox-2" /\ inbox_id <$> inbox (owned st) = [lit "inbox-1"].
Proof. by vm_compute. Qed.
End Demo.
