(* ===== verification/Sys.v ===== *)
(** * Sys: the file system, calls that fail and a process that dies

    What [std::fs] does to a disk, for the components that keep files: the updater
    (UpdateClient.v, UpdateInstall.v) and telemetry (Telemetry.v).  A call works, fails
    part way through, or is the last thing the process does; which of the three is the
    disk's to say ([fates]), so a theorem about all disks is a theorem about every fault
    and every moment of death.  A power loss that loses completed writes, symbolic links
    and other processes are outside. *)

From S2P Require Import Prelude Bytes.

(** A path is the names from the root; a name holds no slash. *)
Abbreviation Path := (list Str) (only parsing).

Inductive Node : Type :=
| NFile (content : Bytes) (executable : bool)
| NDir.
#[export] Instance Node_eq_dec : EqDecision Node.
Proof. solve_decision. Defined.
Abbreviation Nodes := (gmap (list (list N)) Node) (only parsing).

Inductive IoError : Type := NotFound | Other (reason : Str).
#[export] Instance IoError_eq_dec : EqDecision IoError.
Proof. solve_decision. Defined.
Definition show_io (e : IoError) : Str :=
  match e with NotFound => lit "entity not found" | Other reason => reason end.

(** What becomes of a call: [progress] is how far a call that does not finish got, [None]
    when it did nothing.  That a file is missing is for the disk to say, not a fault. *)
Inductive Fate : Type :=
| Works
| Fails (reason : Str) (progress : option nat)
| Dies (progress : option nat).

Record Disk : Type := mkDisk {
  nodes : Nodes;
  fates : nat -> Fate;
  calls : nat;
}.

(** A run gives a value or an error, or the process is dead. *)
Inductive Run (E A : Type) : Type := Done (a : A) | Failed (e : E) | Dead.
Arguments Done {E A} a.
Arguments Failed {E A} e.
Arguments Dead {E A}.

Definition M (E A : Type) : Type := Disk -> Disk * Run E A.

#[export] Instance M_ret E : MRet (M E) := fun A a d => (d, Done a).
#[export] Instance M_bind E : MBind (M E) := fun A B k m d =>
  match m d with
  | (d', Done a) => k a d'
  | (d', Failed e) => (d', Failed e)
  | (d', Dead) => (d', Dead)
  end.

Definition fail {E A : Type} (e : E) : M E A := fun d => (d, Failed e).
Definition lift {E A : Type} (r : result E A) : M E A := match r with Ok a => mret a | Err e => fail e end.

Definition map_err {E F A : Type} (f : E -> F) (m : M E A) : M F A := fun d =>
  match m d with
  | (d', Done a) => (d', Done a)
  | (d', Failed e) => (d', Failed (f e))
  | (d', Dead) => (d', Dead)
  end.

(** The result as a value, for a [match] on it or a [let _ =]. *)
Definition attempt {E F A : Type} (m : M E A) : M F (result E A) := fun d =>
  match m d with
  | (d', Done a) => (d', Done (Ok a))
  | (d', Failed e) => (d', Done (Err e))
  | (d', Dead) => (d', Dead)
  end.
Definition ignore {E F A : Type} (m : M E A) : M F unit := _ ← attempt (F := F) m; mret tt.

(** ** Paths *)

Definition parent (p : Path) : Path := take (pred (length p)) p.
Definition file_name (p : Path) : option Str := last p.
(** [as_os_str().push(suffix)]. *)
Definition push_suffix (p : Path) (suffix : Str) : Path :=
  match last p with Some name => parent p ++ [name ++ suffix] | None => [suffix] end.
(** [with_file_name]. *)
Definition with_file_name (p : Path) (name : Str) : Path := parent p ++ [name].

(** [Path::file_stem] of a name: up to its last dot, unless that is its first character. *)
Definition stem (name : Str) : Str :=
  match position (fun c => (c =? 46)%N) (reverse name) with
  | Some i => if bool_decide (S i = length name) then name else take (length name - S i) name
  | None => name
  end.
(** [Path::extension]: after the last dot, unless that is the first character. *)
Definition extension (p : Path) : option Str :=
  match last p with
  | None => None
  | Some name =>
      match position (fun c => (c =? 46)%N) (reverse name) with
      | Some i => if bool_decide (S i = length name) then None else Some (drop (length name - i) name)
      | None => None
      end
  end.
Definition with_extension (p : Path) (ext : Str) : Path :=
  match last p with Some name => with_file_name p (stem name ++ 46%N :: ext) | None => p end.

(** [q] is [p] or below it. *)
Definition under (p q : Path) : Prop := p `prefix_of` q.
#[export] Instance under_dec p q : Decision (under p q) := _.

Definition ancestors_of (p : Path) : list Path := (fun i => take i p) <$> seq 1 (length p).

Lemma parent_snoc p name : parent (p ++ [name]) = p.
Proof. unfold parent. rewrite length_app, Nat.add_1_r. simpl. apply take_app_length. Qed.

Lemma push_suffix_snoc p name suffix : push_suffix (p ++ [name]) suffix = p ++ [name ++ suffix].
Proof. unfold push_suffix. by rewrite last_snoc, parent_snoc. Qed.

Lemma with_extension_snoc d name ext : with_extension (d ++ [name]) ext = d ++ [stem name ++ 46%N :: ext].
Proof. unfold with_extension, with_file_name. by rewrite last_snoc, parent_snoc. Qed.

Lemma snoc_not_under (p : Path) name : ~ under (p ++ [name]) p.
Proof. intros [k Hk]. apply (f_equal length) in Hk. rewrite !length_app in Hk. simpl in Hk. lia. Qed.

(** [display()]. *)
Definition show_path (p : Path) : Str :=
  if bool_decide (p = []) then [SLASH] else p ≫= (fun name => SLASH :: name).

(** ** Calls *)

Definition is_dir_at (m : Nodes) (p : Path) : bool :=
  bool_decide (p = []) || bool_decide (m !! p = Some NDir).
Definition is_file_at (m : Nodes) (p : Path) : bool :=
  match m !! p with Some (NFile _ _) => true | _ => false end.
Definition exists_at (m : Nodes) (p : Path) : bool :=
  bool_decide (p = []) || bool_decide (is_Some (m !! p)).

(** A call: what it does, and what is left of it when it fails and when the process dies
    in it. *)
Definition syscall {A : Type} (run : Nodes -> Nodes * result IoError A)
    (failed died : nat -> Nodes -> Nodes) : M IoError A := fun d =>
  let 'mkDisk m f n := d in
  match f n with
  | Works =>
      let '(m', r) := run m in
      (mkDisk m' f (S n), match r with Ok a => Done a | Err e => Failed e end)
  | Fails reason progress => (mkDisk (from_option failed id progress m) f (S n), Failed (Other reason))
  | Dies progress => (mkDisk (from_option died id progress m) f (S n), Dead)
  end.

(** A call that happens or does not. *)
Definition atomic {A : Type} (run : Nodes -> Nodes * result IoError A) : M IoError A :=
  syscall run (fun _ m => m) (fun _ m => (run m).1).
(** A call that changes nothing. *)
Definition query {A : Type} (ask : Nodes -> result IoError A) : M IoError A :=
  atomic (fun m => (m, ask m)).
(** A call that goes step by step; [n] steps may be done. *)
Definition gradual (run : Nodes -> Nodes * result IoError ()) (some : nat -> Nodes -> Nodes) :
  M IoError () := syscall run some some.

(** [Path::exists], [is_file], [is_dir]: what they answer is true of the disk. *)
Definition stat {E : Type} (p : Nodes -> bool) : M E bool := fun d => (d, Done (p (nodes d))).
Definition path_exists {E : Type} (p : Path) : M E bool := stat (fun m => exists_at m p).
Definition is_file {E : Type} (p : Path) : M E bool := stat (fun m => is_file_at m p).
Definition is_dir {E : Type} (p : Path) : M E bool := stat (fun m => is_dir_at m p).

Definition not_a_directory : IoError := Other (lit "not a directory").
Definition is_a_directory : IoError := Other (lit "is a directory").

(** [fs::create_dir_all]. *)
Definition make_dir (m : Nodes) (p : Path) : Nodes :=
  match m !! p with Some _ => m | None => <[p := NDir]> m end.
Definition create_dir_all (p : Path) : M IoError () :=
  gradual
    (fun m =>
       if existsb (is_file_at m) (ancestors_of p) then (m, Err not_a_directory)
       else (foldl make_dir m (ancestors_of p), Ok tt))
    (fun n m =>
       if existsb (is_file_at m) (ancestors_of p) then m
       else foldl make_dir m (take n (ancestors_of p))).

(** Whether a file can be put at [p]. *)
Definition placeable (m : Nodes) (p : Path) : result IoError () :=
  if bool_decide (p = []) then Err is_a_directory
  else if negb (is_dir_at m (parent p)) then Err NotFound
  else if bool_decide (m !! p = Some NDir) then Err is_a_directory
  else Ok tt.

(** [File::create]: an existing file keeps its mode. *)
Definition truncated (m : Nodes) (p : Path) : Nodes :=
  match m !! p with
  | Some (NFile _ x) => <[p := NFile [] x]> m
  | _ => <[p := NFile [] false]> m
  end.
Definition create (p : Path) : M IoError () :=
  atomic (fun m => match placeable m p with Ok _ => (truncated m p, Ok tt) | Err e => (m, Err e) end).

(** [write_all] on the file created at [p]; a file removed since has no name. *)
Definition appended (m : Nodes) (p : Path) (bytes : Bytes) : Nodes :=
  match m !! p with
  | Some (NFile content x) => <[p := NFile (content ++ bytes) x]> m
  | _ => m
  end.
Definition write_all (p : Path) (bytes : Bytes) : M IoError () :=
  gradual (fun m => (appended m p bytes, Ok tt)) (fun n m => appended m p (take n bytes)).

(** [fs::write]. *)
Definition write (p : Path) (bytes : Bytes) : M IoError () := create p ≫= fun _ => write_all p bytes.

(** [fs::read_to_string]. *)
Definition read_to_string (p : Path) : M IoError Str :=
  query (fun m =>
    match m !! p with
    | Some (NFile content _) => ok_or (Other (lit "stream did not contain valid UTF-8")) (from_utf8 content)
    | Some NDir => Err is_a_directory
    | None => if bool_decide (p = []) then Err is_a_directory else Err NotFound
    end).

(** [fs::copy], with the mode. *)
Definition copied (m : Nodes) (from to : Path) (n : nat) : Nodes :=
  match m !! from with
  | Some (NFile content x) => <[to := NFile (take n content) x]> m
  | _ => m
  end.
Definition copyable (m : Nodes) (from to : Path) : result IoError nat :=
  match m !! from with
  | Some (NFile content _) => result_map (fun _ => length content) (placeable m to)
  | Some NDir => Err is_a_directory
  | None => Err NotFound
  end.
Definition copy (from to : Path) : M IoError () :=
  gradual
    (fun m => match copyable m from to with Ok n => (copied m from to n, Ok tt) | Err e => (m, Err e) end)
    (fun n m => match copyable m from to with Ok _ => copied m from to n | Err e => m end).

(** [fs::rename]: the whole of what is at [from] goes to [to] at once. *)
Definition moved (m : Nodes) (from to : Path) : Nodes :=
  list_to_map ((fun '(q, x) => (to ++ drop (length from) q, x))
                 <$> map_to_list (filter (fun '(q, _) => under from q) m))
  ∪ filter (fun '(q, _) => ~ under from q) m.
Definition empty_dir (m : Nodes) (p : Path) : bool :=
  bool_decide (filter (fun '(q, _) => under p q /\ q <> p) m = ∅).
Definition rename (from to : Path) : M IoError () :=
  atomic (fun m =>
    match m !! from with
    | None => (m, Err NotFound)
    | Some (NFile content x) =>
        if bool_decide (from = to) then (m, Ok tt)
        else match placeable m to with
             | Ok _ => (<[to := NFile content x]> (delete from m), Ok tt)
             | Err e => (m, Err e)
             end
    | Some NDir =>
        if bool_decide (from = to) then (m, Ok tt)
        else if bool_decide (under from to) || bool_decide (to = []) then (m, Err (Other (lit "invalid argument")))
        else if negb (is_dir_at m (parent to)) then (m, Err NotFound)
        else match m !! to with
             | Some (NFile _ _) => (m, Err not_a_directory)
             | Some NDir =>
                 if empty_dir m to then (moved m from to, Ok tt)
                 else (m, Err (Other (lit "directory not empty")))
             | None => (moved m from to, Ok tt)
             end
    end).

(** [fs::remove_file]. *)
Definition remove_file (p : Path) : M IoError () :=
  atomic (fun m =>
    match m !! p with
    | Some (NFile _ _) => (delete p m, Ok tt)
    | Some NDir => (m, Err is_a_directory)
    | None => (m, Err NotFound)
    end).

(** [fs::remove_dir_all]: one entry after another; which are gone when it stops is the
    directory's order to say. *)
Definition tree (m : Nodes) (p : Path) : list Path :=
  (map_to_list (filter (fun '(q, _) => under p q) m)).*1.
Definition remove_dir_all (p : Path) : M IoError () :=
  gradual
    (fun m =>
       match m !! p with
       | Some NDir => (foldr delete m (tree m p), Ok tt)
       | Some (NFile _ _) => (m, Err not_a_directory)
       | None => (m, Err NotFound)
       end)
    (fun n m =>
       match m !! p with
       | Some NDir => foldr delete m (take n (tree m p))
       | _ => m
       end).

(** [fs::set_permissions] with mode [0o755]. *)
Definition set_executable (p : Path) : M IoError () :=
  atomic (fun m =>
    match m !! p with
    | Some (NFile content _) => (<[p := NFile content true]> m, Ok tt)
    | Some NDir => (m, Ok tt)
    | None => (m, Err NotFound)
    end).

(** [make_executable] of the crates: the permissions are read, then set. *)
Definition make_executable (p : Path) : M IoError () :=
  query (fun m => if exists_at m p then Ok tt else Err NotFound) ≫= fun _ => set_executable p.

(** [fs::read_dir]: the names in a directory. *)
Definition children (m : Nodes) (p : Path) : list Str :=
  omap (fun q => if bool_decide (q <> [] /\ parent q = p) then last q else None)
    (map_to_list m).*1.
Definition read_dir (p : Path) : M IoError (list Str) :=
  query (fun m =>
    if is_dir_at m p then Ok (children m p)
    else if is_file_at m p then Err not_a_directory else Err NotFound).

(** ** Reasoning

    [spec P m Q X C]: from a disk where [P] holds, [m] ends with [Q] of its value, fails
    with [X] of its error, or dies with [C]; no fault breaks this. *)

Definition Assert : Type := Nodes -> Prop.
Definition Post (A : Type) : Type := A -> Nodes -> Prop.

Definition spec {E A : Type} (P : Assert) (m : M E A) (Q : Post A) (X : Post E) (C : Assert) : Prop :=
  forall d, P (nodes d) ->
  let '(d', r) := m d in
  match r with
  | Done a => Q a (nodes d')
  | Failed e => X e (nodes d')
  | Dead => C (nodes d')
  end.

(** [m] leaves what [F] does not say alone. *)
Definition within {E A : Type} (F : Path -> Prop) (m : M E A) : Prop :=
  forall d q, ~ F q -> nodes (m d).1 !! q = nodes d !! q.

Create HintDb disk discriminated.

Lemma spec_ret {E A : Type} (a : A) (Q : Post A) (X : Post E) (C : Assert) :
  spec (Q a) (mret a) Q X C.
Proof. by intros d. Qed.

Lemma spec_failure {E A : Type} (e : E) (Q : Post A) (X : Post E) (C : Assert) :
  spec (X e) (fail e) Q X C.
Proof. by intros d. Qed.

Lemma spec_bind {E A B : Type} (P : Assert) (m : M E A) (k : A -> M E B)
    (R : Post A) (Q : Post B) (X : Post E) (C : Assert) :
  spec P m R X C -> (forall a, spec (R a) (k a) Q X C) -> spec P (m ≫= k) Q X C.
Proof.
  intros Hm Hk d HP. specialize (Hm d HP). unfold mbind, M_bind.
  destruct (m d) as [d' [a | e |]]; [by apply Hk | done | done].
Qed.

Lemma spec_map_err {E F A : Type} (P : Assert) (f : E -> F) (m : M E A)
    (Q : Post A) (X : Post F) (C : Assert) :
  spec P m Q (fun e => X (f e)) C -> spec P (map_err f m) Q X C.
Proof.
  intros Hm d HP. specialize (Hm d HP). unfold map_err. by destruct (m d) as [d' [a | e |]].
Qed.

Lemma spec_attempt {E F A : Type} (P : Assert) (m : M E A)
    (Q : Post (result E A)) (X : Post F) (C : Assert) :
  spec P m (fun a => Q (Ok a)) (fun e => Q (Err e)) C -> spec P (attempt m) Q X C.
Proof.
  intros Hm d HP. specialize (Hm d HP). unfold attempt. by destruct (m d) as [d' [a | e |]].
Qed.

Lemma spec_ignore {E F A : Type} (P Q : Assert) (m : M E A) (X : Post F) (C : Assert) :
  spec P m (fun _ => Q) (fun _ => Q) C -> spec P (ignore m) (fun _ => Q) X C.
Proof.
  intros Hm. eapply spec_bind; [apply spec_attempt | intros r; apply (spec_ret tt (fun _ => Q))].
  exact Hm.
Qed.

Lemma spec_weaken {E A : Type} (P P' : Assert) (m : M E A)
    (Q Q' : Post A) (X X' : Post E) (C C' : Assert) :
  spec P' m Q' X' C' ->
  (forall n, P n -> P' n) -> (forall a n, Q' a n -> Q a n) ->
  (forall e n, X' e n -> X e n) -> (forall n, C' n -> C n) ->
  spec P m Q X C.
Proof.
  intros Hm HP HQ HX HC d Hd. specialize (Hm d (HP _ Hd)).
  destruct (m d) as [d' [a | e |]]; auto.
Qed.

Lemma spec_pre {E A : Type} (P P' : Assert) (m : M E A)
    (Q : Post A) (X : Post E) (C : Assert) :
  spec P' m Q X C -> (forall n, P n -> P' n) -> spec P m Q X C.
Proof. intros Hm HP. by eapply spec_weaken. Qed.

Lemma spec_pure {E A : Type} (phi : Prop) (P : Assert) (m : M E A) (Q : Post A) (X : Post E) (C : Assert) :
  (phi -> spec P m Q X C) -> spec (fun n => phi /\ P n) m Q X C.
Proof. intros Hm d [Hphi Hd]. by apply Hm. Qed.

Lemma spec_ex {T E A : Type} (P : T -> Assert) (m : M E A) (Q : Post A) (X : Post E) (C : Assert) :
  (forall t, spec (P t) m Q X C) -> spec (fun n => exists t, P t n) m Q X C.
Proof. intros Hm d [t Hd]. by apply (Hm t). Qed.

(** [spec_bind] when the first part promises more of its failures than is asked. *)
Lemma spec_seq {E A B : Type} (P : Assert) (m : M E A) (k : A -> M E B)
    (R : Post A) (Q : Post B) (X X' : Post E) (C C' : Assert) :
  spec P m R X' C' -> (forall e n, X' e n -> X e n) -> (forall n, C' n -> C n) ->
  (forall a, spec (R a) (k a) Q X C) -> spec P (m ≫= k) Q X C.
Proof. intros Hm HX HC. apply spec_bind. by eapply spec_weaken. Qed.

(** A call: what it does, what is left when it fails, and when it kills. *)
Lemma spec_syscall {A : Type} (P : Assert) run failed died
    (Q : Post A) (X : Post IoError) (C : Assert) :
  (forall n, P n -> match run n with (n', Ok a) => Q a n' | (n', Err e) => X e n' end) ->
  (forall n s k, P n -> X (Other s) (failed k n)) -> (forall n s, P n -> X (Other s) n) ->
  (forall n k, P n -> C (died k n)) -> (forall n, P n -> C n) ->
  spec P (syscall run failed died) Q X C.
Proof.
  intros Hr Hf Hf0 Hd Hd0 [m f n] HP. simpl in *. destruct (f n) as [| e [k |] | [k |]]; simpl; auto.
  specialize (Hr m HP). by destruct (run m) as [m' [a | e]].
Qed.

Lemma spec_atomic {A : Type} (P : Assert) run (Q : Post A) (X : Post IoError) (C : Assert) :
  (forall n, P n -> match run n with (n', Ok a) => Q a n' | (n', Err e) => X e n' end) ->
  (forall n s, P n -> X (Other s) n) -> (forall n, P n -> C (run n).1) -> (forall n, P n -> C n) ->
  spec P (atomic run) Q X C.
Proof. intros. apply spec_syscall; simpl; auto. Qed.

Lemma within_ret {E A : Type} (F : Path -> Prop) (a : A) : within F (mret a : M E A).
Proof. done. Qed.
Lemma within_fail {E A : Type} (F : Path -> Prop) (e : E) : within F (fail e : M E A).
Proof. done. Qed.
Lemma within_lift {E A : Type} (F : Path -> Prop) (r : result E A) : within F (lift r).
Proof. by destruct r. Qed.

Lemma within_bind {E A B : Type} (F : Path -> Prop) (m : M E A) (k : A -> M E B) :
  within F m -> (forall a, within F (k a)) -> within F (m ≫= k).
Proof.
  intros Hm Hk d q Hq. rewrite <- (Hm d q Hq). unfold mbind, M_bind.
  destruct (m d) as [d' [a | e |]]; [by apply Hk | done | done].
Qed.

Lemma within_map_err {E F A : Type} (S : Path -> Prop) (f : E -> F) (m : M E A) : within S m -> within S (map_err f m).
Proof.
  intros Hm d q Hq. rewrite <- (Hm d q Hq). unfold map_err. by destruct (m d) as [d' [a | e |]].
Qed.

Lemma within_attempt {E F A : Type} (S : Path -> Prop) (m : M E A) : within S m -> within S (attempt (F := F) m).
Proof.
  intros Hm d q Hq. rewrite <- (Hm d q Hq). unfold attempt. by destruct (m d) as [d' [a | e |]].
Qed.

Lemma within_ignore {E F A : Type} (S : Path -> Prop) (m : M E A) : within S m -> within S (ignore (F := F) m).
Proof. intros Hm. apply within_bind; [by apply within_attempt | done]. Qed.

Lemma within_weaken {E A : Type} (F G : Path -> Prop) (m : M E A) :
  within F m -> (forall q, F q -> G q) -> within G m.
Proof. intros Hm HFG d q Hq. apply Hm. intros HF. by apply Hq, HFG. Qed.
Lemma within_eq {E A : Type} (F : Path -> Prop) p (m : M E A) : within (eq p) m -> F p -> within F m.
Proof. intros Hm Hp. eapply within_weaken; [exact Hm |]. by intros q <-. Qed.

Lemma within_syscall {A : Type} (F : Path -> Prop) run failed died :
  (forall n q, ~ F q -> (run n : Nodes * result IoError A).1 !! q = n !! q) ->
  (forall k n q, ~ F q -> failed k n !! q = n !! q) ->
  (forall k n q, ~ F q -> died k n !! q = n !! q) ->
  within F (syscall run failed died).
Proof.
  intros Hr Hf Hd [m f n] q Hq. unfold syscall. simpl.
  destruct (f n) as [| e [k |] | [k |]]; simpl; try done; [|by apply Hf | by apply Hd].
  specialize (Hr m q Hq). by destruct (run m) as [m' [a | e]].
Qed.

Lemma within_atomic {A : Type} (F : Path -> Prop) run :
  (forall n q, ~ F q -> (run n : Nodes * result IoError A).1 !! q = n !! q) -> within F (atomic run).
Proof. intros Hr. apply within_syscall; [done | done | intros; by apply Hr]. Qed.

Lemma within_query {A : Type} (F : Path -> Prop) (ask : Nodes -> result IoError A) : within F (query ask).
Proof. by apply within_atomic. Qed.

Lemma within_stat {E : Type} (F : Path -> Prop) p : within F (stat p : M E bool).
Proof. done. Qed.

Lemma lookup_truncated m p q : q <> p -> truncated m p !! q = m !! q.
Proof. intros. unfold truncated. repeat case_match; by rewrite lookup_insert_ne. Qed.

Lemma within_create p : within (eq p) (create p).
Proof. apply within_atomic. intros n q Hq. case_match; [by apply lookup_truncated | done]. Qed.

Lemma lookup_appended m p bytes q : q <> p -> appended m p bytes !! q = m !! q.
Proof. intros. unfold appended. repeat case_match; try done. by rewrite lookup_insert_ne. Qed.

Lemma within_write_all p bytes : within (eq p) (write_all p bytes).
Proof. apply within_syscall; intros; by apply lookup_appended. Qed.

Lemma within_write p bytes : within (eq p) (write p bytes).
Proof. apply within_bind; [apply within_create | intros; apply within_write_all]. Qed.

Lemma lookup_copied m from to n q : q <> to -> copied m from to n !! q = m !! q.
Proof. intros. unfold copied. repeat case_match; try done. by rewrite lookup_insert_ne. Qed.

Lemma within_copy from to : within (eq to) (copy from to).
Proof. apply within_syscall; intros; case_match; try done; by apply lookup_copied. Qed.

Lemma lookup_moved m from to q : ~ under from q -> ~ under to q -> moved m from to !! q = m !! q.
Proof.
  intros Hf Ht. unfold moved. rewrite lookup_union_r.
  - destruct (m !! q) as [x |] eqn:Hq.
    + by apply map_lookup_filter_Some.
    + apply map_lookup_filter_None. by left.
  - apply not_elem_of_list_to_map_1. intros Hin.
    apply list_elem_of_fmap in Hin as ([q' x] & -> & Hin).
    apply list_elem_of_fmap in Hin as ([q0 x0] & [= -> ->] & _). apply Ht. by eexists.
Qed.

Lemma within_rename from to : within (fun q => under from q \/ under to q) (rename from to).
Proof.
  apply within_atomic. intros n q [Hf Ht]%Decidable.not_or. repeat case_match; simpl; try done.
  - rewrite lookup_insert_ne, lookup_delete_ne; [done | |]; intros <-; [by apply Hf | by apply Ht].
  - by apply lookup_moved.
  - by apply lookup_moved.
Qed.

Lemma within_remove_file p : within (eq p) (remove_file p).
Proof. apply within_atomic. intros n q Hq. repeat case_match; try done. by apply lookup_delete_ne. Qed.

Lemma lookup_deleted (m : Nodes) (ps : list Path) q : q ∉ ps -> foldr delete m ps !! q = m !! q.
Proof.
  induction ps as [| p ps IH]; simpl; [done |]. intros [? ?]%not_elem_of_cons.
  rewrite lookup_delete_ne by done. by apply IH.
Qed.

Lemma tree_under m p q : q ∈ tree m p -> under p q.
Proof.
  intros ([q' x] & -> & Hin%elem_of_map_to_list)%list_elem_of_fmap.
  by apply map_lookup_filter_Some in Hin as [_ ?].
Qed.

Lemma within_remove_dir_all p : within (under p) (remove_dir_all p).
Proof.
  apply within_syscall; intros; repeat case_match; try done; simpl; apply lookup_deleted;
    intros Hin; [by apply tree_under in Hin | |];
    apply elem_of_take in Hin as (i & Hi & _); apply list_elem_of_lookup_2, tree_under in Hi; done.
Qed.

Lemma within_set_executable p : within (eq p) (set_executable p).
Proof. apply within_atomic. intros n q Hq. repeat case_match; try done. by apply lookup_insert_ne. Qed.

Lemma within_make_executable p : within (eq p) (make_executable p).
Proof. apply within_bind; [apply within_query | intros; apply within_set_executable]. Qed.

Lemma lookup_make_dirs (ps : list Path) (m : Nodes) q : q ∉ ps -> foldl make_dir m ps !! q = m !! q.
Proof.
  revert m. induction ps as [| p ps IH]; intros m; simpl; [done |]. intros [? ?]%not_elem_of_cons.
  rewrite IH by done. unfold make_dir. case_match; [done |]. by rewrite lookup_insert_ne.
Qed.

Lemma ancestor_above p q : q ∈ ancestors_of p -> under q p.
Proof. intros (i & -> & _)%list_elem_of_fmap. exists (drop i p). by rewrite take_drop. Qed.

Lemma within_create_dir_all p : within (fun q => under q p) (create_dir_all p).
Proof.
  apply within_syscall; intros; case_match; try done; simpl; apply lookup_make_dirs; intros Hin.
  - by apply ancestor_above in Hin.
  - apply elem_of_take in Hin as (i & Hi & _). by apply list_elem_of_lookup_2, ancestor_above in Hi.
  - apply elem_of_take in Hin as (i & Hi & _). by apply list_elem_of_lookup_2, ancestor_above in Hi.
Qed.

(** What does not speak of [F] outlives whatever stays within [F]. *)
Definition apart (F : Path -> Prop) (R : Assert) : Prop :=
  forall n n' : Nodes, (forall q, ~ F q -> n' !! q = n !! q) -> R n -> R n'.

Lemma apart_lookup (F : Path -> Prop) p (P : option Node -> Prop) :
  ~ F p -> apart F (fun n => P (n !! p)).
Proof. intros Hp n n' Hn. by rewrite Hn. Qed.

Lemma apart_and (F : Path -> Prop) (P Q : Assert) : apart F P -> apart F Q -> apart F (fun n => P n /\ Q n).
Proof. intros HP HQ n n' Hn [? ?]. split; eauto. Qed.

Lemma spec_frame {E A : Type} (F : Path -> Prop) (R P : Assert) (m : M E A) (Q : Post A) (X : Post E) (C : Assert) :
  within F m -> apart F R -> spec P m Q X C ->
  spec (fun n => P n /\ R n) m (fun a n => Q a n /\ R n) (fun e n => X e n /\ R n)
    (fun n => C n /\ R n).
Proof.
  intros Hw HR Hm d [HP HRd]. specialize (Hm d HP).
  assert (R (nodes (m d).1)) by (eapply HR; [|exact HRd]; by intros; apply Hw).
  by destruct (m d) as [d' [a | e |]].
Qed.

(** Whatever [m] does, it does not touch what is apart from it. *)
Lemma spec_apart {E A : Type} (F : Path -> Prop) (R : Assert) (m : M E A) :
  within F m -> apart F R -> spec R m (fun _ => R) (fun _ => R) R.
Proof.
  intros Hw HR d HRd. assert (R (nodes (m d).1)) by (eapply HR; [|exact HRd]; by intros; apply Hw).
  by destruct (m d) as [d' [a | e |]].
Qed.

(** An ignored call before the rest: what is apart from it is as it was. *)
Lemma spec_ignore_then {E F A B : Type} (S : Path -> Prop) (R : Assert) (m : M E A) (k : M F B)
    (Q : Post B) (X : Post F) (C : Assert) :
  within S m -> apart S R -> (forall n, R n -> C n) -> spec R k Q X C ->
  spec R (ignore m ≫= fun _ => k) Q X C.
Proof.
  intros Hw Ha HC Hk. apply (spec_bind _ _ _ (fun _ => R)); [|by intros []].
  apply (spec_ignore _ R). eapply spec_weaken; [by apply (spec_apart S) | done | done | done | done].
Qed.

Lemma spec_ignore_fail {E F A B : Type} (S : Path -> Prop) (R : Assert) (m : M E A) (e : F) (Q : Post B) :
  within S m -> apart S R -> spec R (ignore m ≫= fun _ => fail e) Q (fun _ => R) R.
Proof. intros. by apply (spec_ignore_then S); [| | | apply (spec_failure e Q (fun _ => R))]. Qed.

(** ** Specifications of the calls *)

Definition anything : Assert := fun _ => True.
Definition file (p : Path) (content : Bytes) : Assert :=
  fun n => exists x, n !! p = Some (NFile content x).

(** A call on scratch: what else holds is there afterwards, however it ended. *)
Lemma spec_scratch {E A : Type} F (R P : Assert) (m : M E A) (Q : Post A) :
  within F m -> apart F R -> spec P m Q (fun _ => anything) anything ->
  spec (fun n => P n /\ R n) m (fun a n => Q a n /\ R n) (fun _ => R) R.
Proof.
  intros Hw Ha Hm. eapply spec_weaken; [by eapply spec_frame; [| | exact Hm] | | | |]; simpl; tauto.
Qed.

Lemma spec_create p : spec anything (create p) (fun _ => file p []) (fun _ => anything) anything.
Proof.
  apply spec_syscall; try done. intros n _. destruct (placeable n p); [|done].
  unfold file, truncated. repeat case_match; rewrite lookup_insert_eq; by eexists.
Qed.

Lemma spec_write_all p content bytes :
  spec (file p content) (write_all p bytes) (fun _ => file p (content ++ bytes))
    (fun _ => anything) anything.
Proof.
  apply spec_syscall; try done. intros n [x Hx]. unfold file, appended. rewrite Hx, lookup_insert_eq.
  by eexists.
Qed.

Lemma spec_write p bytes :
  spec anything (write p bytes) (fun _ => file p bytes) (fun _ => anything) anything.
Proof.
  eapply spec_bind; [apply spec_create |]. intros _ok.
  apply (spec_write_all p []).
Qed.

(** A rename is all or nothing. *)
Lemma spec_rename_file from to node before content x : from <> to -> node = NFile content x ->
  spec (fun n => n !! from = Some node /\ n !! to = before) (rename from to)
    (fun _ n => n !! from = None /\ n !! to = Some node)
    (fun _ n => n !! from = Some node /\ n !! to = before)
    (fun n => (n !! from = Some node /\ n !! to = before) \/ (n !! from = None /\ n !! to = Some node)).
Proof.
  intros Hne ->.
  assert (forall n : Nodes, n !! from = Some (NFile content x) ->
    (<[to := NFile content x]> (delete from n)) !! from = None /\
    (<[to := NFile content x]> (delete from n)) !! to = Some (NFile content x)) as Hgo.
  { intros n Hn. rewrite lookup_insert_ne by congruence. by rewrite lookup_delete_eq, lookup_insert_eq. }
  apply spec_atomic; try tauto.
  - intros n [Hf Ht]. rewrite Hf, bool_decide_eq_false_2 by done.
    destruct (placeable n to); [by apply Hgo | done].
  - intros n [Hf Ht]. rewrite Hf, bool_decide_eq_false_2 by done.
    destruct (placeable n to); simpl; [right; by apply Hgo | by left].
Qed.

Lemma spec_rename from to before content : from <> to ->
  spec (fun n => file from content n /\ n !! to = before) (rename from to)
    (fun _ n => n !! from = None /\ file to content n)
    (fun _ n => file from content n /\ n !! to = before)
    (fun n => (file from content n /\ n !! to = before) \/ (n !! from = None /\ file to content n)).
Proof.
  intros Hne d [[x Hx] Hb].
  pose proof (spec_rename_file from to _ before content x Hne eq_refl d (conj Hx Hb)) as Hr.
  unfold file. destruct (rename from to d) as [d' [[] | e |]]; naive_solver.
Qed.

Lemma spec_rename_onto from to content : from <> to ->
  spec (file from content) (rename from to) (fun _ => file to content) (fun _ => anything) anything.
Proof.
  intros Hne d Hd. pose proof (spec_rename from to (nodes d !! to) content Hne d (conj Hd eq_refl)) as Hr.
  destruct (rename from to d) as [d' [[] | e |]]; [by destruct Hr | done | done].
Qed.

Lemma spec_remove_file p :
  spec anything (remove_file p) (fun _ n => n !! p = None) (fun _ => anything) anything.
Proof. apply spec_syscall; try done. intros n _.
  destruct (n !! p) as [[] |]; try done. apply lookup_delete_eq.
Qed.

Lemma spec_remove_there p content :
  spec (file p content) (remove_file p) (fun _ n => n !! p = None) (fun _ => file p content)
    (fun n => file p content n \/ n !! p = None).
Proof.
  apply spec_atomic.
  - intros n [x Hx]. rewrite Hx. apply lookup_delete_eq.
  - done.
  - intros n [x Hx]. rewrite Hx. right. apply lookup_delete_eq.
  - intros n Hn. by left.
Qed.

(** What is no file is not removed as one. *)
Lemma spec_remove_missing p (P : Assert) : (forall n, P n -> is_file_at n p = false) ->
  spec P (remove_file p) (fun _ => P) (fun _ => P) P.
Proof.
  intros Hp. apply spec_atomic; try done; intros n Hn; specialize (Hp n Hn); unfold is_file_at in Hp;
    by destruct (n !! p) as [[] |].
Qed.

Lemma spec_set_executable p content :
  spec (file p content) (set_executable p) (fun _ n => n !! p = Some (NFile content true))
    (fun _ => file p content) (file p content).
Proof.
  assert (forall n : Nodes, file p content (<[p := NFile content true]> n)) as Hgo.
  { intros n. eexists. apply lookup_insert_eq. }
  apply spec_atomic; auto.
  - intros n [x Hx]. rewrite Hx. apply lookup_insert_eq.
  - intros n [x Hx]. rewrite Hx. apply Hgo.
Qed.

Lemma spec_copy from to content : from <> to ->
  spec (file from content) (copy from to) (fun _ n => file to content n /\ file from content n)
    (fun _ => file from content) (file from content).
Proof.
  intros Hne.
  assert (forall n k, file from content n -> file from content (copied n from to k)) as Hk.
  { intros n k [x Hx]. exists x. by rewrite lookup_copied. }
  apply spec_syscall; try done.
  - intros n Hn. pose proof Hn as [x Hx]. unfold copyable. rewrite Hx.
    destruct (placeable n to); [|done]. split; [|by apply Hk]. exists x. unfold copied.
    rewrite Hx, lookup_insert_eq. by rewrite take_ge.
  - intros n e k Hn. destruct (copyable n from to); [by apply Hk | done].
  - intros n k Hn. destruct (copyable n from to); [by apply Hk | done].
Qed.

(** Asking changes nothing; what it answers is true of the disk. *)
Lemma spec_query {A : Type} (P : Assert) (ask : Nodes -> result IoError A) (Q : Post A) (X : Post IoError) :
  (forall n, P n -> match ask n with Ok a => Q a n | Err e => X e n end) ->
  (forall n s, P n -> X (Other s) n) ->
  spec P (query ask) Q X P.
Proof.
  intros Hq Hx. apply spec_atomic; auto. Qed.

Lemma spec_stat {E : Type} (P : Assert) (p : Nodes -> bool) (X : Post E) (C : Assert) :
  spec P (stat p) (fun b n => b = p n /\ P n) X C.
Proof. by intros d. Qed.

Lemma spec_make_executable p content :
  spec (file p content) (make_executable p) (fun _ n => n !! p = Some (NFile content true))
    (fun _ => file p content) (file p content).
Proof.
  eapply (spec_bind _ _ _ (fun _ => file p content)); [|intros []; apply spec_set_executable].
  apply spec_query; [|done]. intros n Hn. by case_match.
Qed.

Lemma spec_read_to_string p content :
  spec (file p content) (read_to_string p)
    (fun text n => from_utf8 content = Some text /\ file p content n)
    (fun _ => file p content) (file p content).
Proof.
  apply spec_query; [|done]. intros n Hn. pose proof Hn as [x Hx]. rewrite Hx.
  destruct (from_utf8 content) eqn:Hu; simpl; [by split | done].
Qed.

#[export] Hint Resolve within_ret within_fail within_lift within_bind within_map_err within_attempt
  within_ignore within_query within_stat within_create within_write_all within_write within_copy
  within_rename within_remove_file within_remove_dir_all within_set_executable within_make_executable
  within_create_dir_all : disk.
