(* ===== verification/Fields.v ===== *)
(** * Fields: texts joined by a separator, and their ASCII case

    [Vec<String>::join], [str::to_ascii_lowercase], [sort] and [dedup] on texts, and the
    fact the signed documents rest on: fields without the separator read back. *)

From S2P Require Import Prelude Bytes Text.

Definition SPACE : char := 32%N.

(** [str::to_ascii_lowercase], [str::eq_ignore_ascii_case]. *)
Definition lower (s : Str) : Str := to_ascii_lowercase <$> s.
Definition eq_ignore_ascii_case (s t : Str) : bool := bool_decide (lower s = lower t).

(** [char::is_ascii_hexdigit]. *)
Definition is_ascii_hexdigit (c : char) : bool :=
  is_ascii_digit c || ((97 <=? c)%N && (c <=? 102)%N) || ((65 <=? c)%N && (c <=? 70)%N).

(** [join] with a one-character separator. *)
Fixpoint join (sep : char) (ws : list Str) : Str :=
  match ws with
  | [] => []
  | [w] => w
  | w :: ws' => w ++ sep :: join sep ws'
  end.

(** [Vec<String>::sort]. *)
Definition str_le (s t : Str) : Prop := str_leb s t = true.
#[export] Instance str_le_dec : RelDecision str_le := fun s t => bool_eq_dec _ _.
Definition sort_strs (l : list Str) : list Str := sort_by str_le l.

(** [Vec::dedup]: runs of equal elements keep their first. *)
Fixpoint dedup (l : list Str) : list Str :=
  match l with
  | x :: ((y :: _) as l') => if bool_decide (x = y) then dedup l' else x :: dedup l'
  | _ => l
  end.

Lemma join_more sep w ws : ws <> [] -> join sep (w :: ws) = w ++ sep :: join sep ws.
Proof. by destruct ws. Qed.

Lemma split_on_join sep ws : ws <> [] -> Forall (fun w => sep ∉ w) ws -> split_on sep (join sep ws) = ws.
Proof.
  intros Hne Hws. induction Hws as [| w ws Hw Hws IH]; [done |].
  destruct (decide (ws = [])) as [-> | Hn].
  - simpl. by apply split_on_absent.
  - rewrite join_more, split_on_app by done. by rewrite IH.
Qed.

Lemma join_inj sep ws ws' : ws <> [] -> ws' <> [] ->
  Forall (fun w => sep ∉ w) ws -> Forall (fun w => sep ∉ w) ws' ->
  join sep ws = join sep ws' -> ws = ws'.
Proof.
  intros. rewrite <- (split_on_join sep ws), <- (split_on_join sep ws') by done. by f_equal.
Qed.

(** Words, none empty: no list is taken for another, the empty one included. *)
Lemma join_words_inj sep ws ws' :
  Forall (fun w => w <> [] /\ sep ∉ w) ws -> Forall (fun w => w <> [] /\ sep ∉ w) ws' ->
  join sep ws = join sep ws' -> ws = ws'.
Proof.
  intros Hws Hws' Hj.
  assert (forall vs, Forall (fun w => w <> [] /\ sep ∉ w) vs -> join sep vs = [] -> vs = []) as Hnil.
  { intros vs Hvs He. destruct Hvs as [| w vs [Hw _] _]; [done |].
    destruct (decide (vs = [])) as [-> | Hn]; [done |]. rewrite join_more in He by done. by destruct w. }
  destruct (decide (ws = [])) as [-> | Hn]; [symmetry; by apply Hnil |].
  destruct (decide (ws' = [])) as [-> | Hn']; [by apply Hnil |].
  apply (join_inj sep); [done | done | | | done];
    (eapply Forall_impl; [eassumption |]; by intros ? [_ ?]).
Qed.

Lemma printed_numbers_inj m n : show_N m = show_N n -> m = n.
Proof.
  intros He. pose proof (parse_show_N (N.max m n) m ltac:(lia)) as Hm.
  rewrite He, parse_show_N in Hm by lia. congruence.
Qed.

Lemma lower_lower s : lower (lower s) = lower s.
Proof.
  unfold lower. rewrite <- list_fmap_compose. apply list_fmap_ext. intros _ c _. simpl.
  destruct (is_ascii_uppercase c) eqn:Hc; [|by unfold to_ascii_lowercase; rewrite !Hc].
  assert (is_ascii_uppercase (c + 32) = false) as Hc'.
  { unfold is_ascii_uppercase in *. apply andb_true_iff in Hc. rewrite !N.leb_le in Hc.
    apply andb_false_iff. rewrite !N.leb_gt. lia. }
  unfold to_ascii_lowercase. by rewrite Hc, Hc'.
Qed.

(** A character below the letters is in the lower-cased text only when it was in the text. *)
Lemma lower_not_elem c s : (c < 65)%N -> c ∉ s -> c ∉ lower s.
Proof.
  intros Hc Hs (d & Hd & Hin)%list_elem_of_fmap. unfold to_ascii_lowercase in Hd.
  destruct (is_ascii_uppercase d) eqn:Hu; [|by subst].
  unfold is_ascii_uppercase in Hu. apply andb_true_iff in Hu. rewrite !N.leb_le in Hu. lia.
Qed.

Lemma elem_of_dedup x l : x ∈ dedup l <-> x ∈ l.
Proof.
  induction l as [| y [| z l] IH]; [done.. |].
  change (dedup (y :: z :: l)) with
    (if bool_decide (y = z) then dedup (z :: l) else y :: dedup (z :: l)).
  case_bool_decide as Hyz; rewrite ?elem_of_cons, IH, elem_of_cons; [subst; tauto | done].
Qed.

Lemma elem_of_sort_strs x l : x ∈ sort_strs l <-> x ∈ l.
Proof. unfold sort_strs. by rewrite sort_by_Permutation. Qed.

(** A word without the separator ends at the first one. *)
Lemma sep_inj sep (w w' s s' : Str) : sep ∉ w -> sep ∉ w' ->
  w ++ sep :: s = w' ++ sep :: s' -> w = w' /\ s = s'.
Proof.
  revert w'. induction w as [| c w IH]; intros [| c' w']; simpl; rewrite ?not_elem_of_cons.
  - by intros _ _ [= ->].
  - intros _ [? _] [= ?]. congruence.
  - intros [? _] _ [= ?]. congruence.
  - intros [_ Hw] [_ Hw'] [= -> He]. by destruct (IH w' Hw Hw' He) as [-> ->].
Qed.

(** Lists with the same images, up to order, have the same images under what the image
    decides. *)
Lemma fmap_Permutation_through {A B C} (f : A -> B) (g : A -> C) (l l' : list A) :
  (forall x y, x ∈ l -> y ∈ l' -> f x = f y -> g x = g y) ->
  f <$> l ≡ₚ f <$> l' -> g <$> l ≡ₚ g <$> l'.
Proof.
  intros Hfg (l3 & He & Hp)%Permutation_map_inv.
  assert (g <$> l = g <$> l3) as ->; [|by rewrite Hp].
  assert (forall x, x ∈ l3 -> x ∈ l') as Hin by (intros x; by rewrite Hp).
  clear Hp. revert l3 He Hin. induction l as [| x l IH]; intros [| y l3]; simpl; try done.
  intros [= Hxy He] Hin. f_equal; [apply Hfg; set_solver|].
  apply IH; [|done|]; intros; [apply Hfg|]; set_solver.
Qed.

Lemma as_bytes_inj s t : Forall (fun c => is_scalar c = true) s ->
  Forall (fun c => is_scalar c = true) t -> as_bytes s = as_bytes t -> s = t.
Proof.
  intros Hs Ht He. pose proof (from_utf8_as_bytes s Hs) as H1.
  rewrite He, from_utf8_as_bytes in H1 by done. congruence.
Qed.

Lemma join_Forall (P : char -> Prop) sep ws : P sep -> Forall (Forall P) ws -> Forall P (join sep ws).
Proof.
  intros Hsep Hws. induction Hws as [| w ws Hw Hws IH]; [constructor |].
  destruct (decide (ws = [])) as [-> | Hn]; [done |]. rewrite join_more by done.
  apply Forall_app. split; [done | by constructor].
Qed.

Lemma lower_Forall (P : char -> Prop) s :
  (forall c, P c -> P (to_ascii_lowercase c)) -> Forall P s -> Forall P (lower s).
Proof. intros Hp Hs. apply Forall_fmap. eapply Forall_impl; [exact Hs |]. apply Hp. Qed.

(** Splitting a text put together of others splits each. *)
Lemma split_on_app_gen sep s t : split_on sep (s ++ sep :: t) = split_on sep s ++ split_on sep t.
Proof.
  induction s as [| c s IH]; simpl.
  - destruct (split_on_cons sep t) as (w & ws & ->). by rewrite N.eqb_refl.
  - rewrite IH. destruct (split_on_cons sep s) as (w & ws & ->). simpl. by case_match.
Qed.

Lemma split_on_join_gen sep ws : ws <> [] -> split_on sep (join sep ws) = ws ≫= split_on sep.
Proof.
  intros Hne. induction ws as [| w ws IH]; [done |]. destruct (decide (ws = [])) as [-> | Hn].
  - simpl. by rewrite app_nil_r.
  - rewrite join_more, split_on_app_gen, IH by done. done.
Qed.

Lemma split_on_first sep pre s : sep ∉ pre ->
  exists w ws, split_on sep s = w :: ws /\ split_on sep (pre ++ s) = (pre ++ w) :: ws.
Proof.
  intros Hpre. destruct (split_on_cons sep s) as (w & ws & Hs). exists w, ws. split; [done |].
  induction pre as [| c pre IH]; [done |]. apply not_elem_of_cons in Hpre as [Hc Hpre]. simpl.
  rewrite IH by done. by rewrite (proj2 (N.eqb_neq _ _)) by congruence.
Qed.

Lemma split_on_no_sep sep s : Forall (fun w => sep ∉ w) (split_on sep s).
Proof.
  induction s as [| c s IH]; simpl; [by repeat constructor; apply not_elem_of_nil |].
  destruct (split_on sep s) as [| w ws]; [done |]. apply Forall_cons in IH as [Hw Hws].
  destruct (c =? sep)%N eqn:Hc; repeat constructor; try done; [by apply not_elem_of_nil |].
  apply N.eqb_neq in Hc. by rewrite not_elem_of_cons.
Qed.

Lemma split_on_sub sep s w c : w ∈ split_on sep s -> c ∈ w -> c ∈ s.
Proof.
  revert w. induction s as [| d s IH]; intros w; simpl.
  - by intros ->%list_elem_of_singleton ?.
  - destruct (split_on_cons sep s) as (v & vs & Hs). rewrite Hs in *.
    destruct (d =? sep)%N; intros [-> | Hw]%elem_of_cons Hc; apply elem_of_cons.
    + by apply not_elem_of_nil in Hc.
    + right. by apply (IH w).
    + apply elem_of_cons in Hc as [-> | Hc]; [by left | right].
      apply (IH v); [by left | done].
    + right. apply (IH w); [by right | done].
Qed.

(** ** The order of texts *)

Lemma str_le_total s t : str_le s t \/ str_le t s.
Proof.
  unfold str_le. revert t. induction s as [| a s IH]; intros [| b t]; simpl; auto.
  destruct (IH t); destruct (N.ltb_spec a b), (N.ltb_spec b a), (N.eqb_spec a b), (N.eqb_spec b a);
    simpl; try lia; auto.
Qed.

Lemma str_le_trans s t u : str_le s t -> str_le t u -> str_le s u.
Proof.
  unfold str_le. revert t u. induction s as [| a s IH]; intros [| b t] [| c u]; simpl; try done.
  rewrite !orb_true_iff, !andb_true_iff, !N.ltb_lt, !N.eqb_eq.
  intros [? | [-> Hs]] [? | [-> Ht]]; [left; lia | left; lia | by left | right; split; [done | by eapply IH]].
Qed.

Lemma insert_by_str_le_sorted x l : StronglySorted str_le l -> StronglySorted str_le (insert_by str_le x l).
Proof.
  induction 1 as [| y l Hl IH Hy]; simpl; [by repeat constructor |]. case_decide as Hxy.
  - constructor; [by constructor |]. constructor; [done |]. eapply Forall_impl; [exact Hy |].
    intros z Hz. by eapply str_le_trans.
  - constructor; [done |]. rewrite insert_by_Permutation. constructor; [| done].
    by destruct (str_le_total x y).
Qed.

Lemma sort_strs_sorted l : StronglySorted str_le (sort_strs l).
Proof. induction l as [| x l IH]; simpl; [constructor | by apply insert_by_str_le_sorted]. Qed.

(** Of two texts that begin with as many digits, the first in order has the lower number. *)
Lemma push_digit_None s : foldl push_digit None s = None.
Proof. by induction s. Qed.

Lemma push_digit_Some a c s v : foldl push_digit (push_digit (Some a) c) s = Some v ->
  (48 <= c < 58)%N /\ foldl push_digit (Some (a * 10 + (c - 48))%N) s = Some v.
Proof.
  unfold push_digit at 2, to_digit10, is_ascii_digit. destruct ((48 <=? c) && (c <=? 57))%N eqn:E; simpl.
  - rewrite andb_true_iff, !N.leb_le in E. intros <-. split; [lia | done].
  - by rewrite push_digit_None.
Qed.

Lemma digits_lt s t a b u v : length s = length t -> (a < b)%N ->
  foldl push_digit (Some a) s = Some u -> foldl push_digit (Some b) t = Some v -> (u < v)%N.
Proof.
  revert t a b. induction s as [| c s IH]; intros [| d t] a b Hl Hab; try done; simpl; [by intros [= ->] [= ->] |].
  intros [Hc Hs]%push_digit_Some [Hd Ht]%push_digit_Some. injection Hl as Hl.
  eapply IH; [exact Hl | | exact Hs | exact Ht]. lia.
Qed.

Lemma digits_le s t x y a u v : length s = length t -> str_le (s ++ x) (t ++ y) ->
  foldl push_digit (Some a) s = Some u -> foldl push_digit (Some a) t = Some v -> (u <= v)%N.
Proof.
  revert t a. induction s as [| c s IH]; intros [| d t] a Hl; try done; [by intros _ [= ->] [= ->] |].
  injection Hl as Hl. unfold str_le. simpl. rewrite orb_true_iff, andb_true_iff, N.ltb_lt, N.eqb_eq.
  intros Hle [Hc Hs]%push_digit_Some [Hd Ht]%push_digit_Some. destruct Hle as [Hcd | [<- Hle]].
  - apply N.lt_le_incl. eapply digits_lt; [exact Hl | | exact Hs | exact Ht]. lia.
  - by eapply IH.
Qed.

Lemma push_digit_zeros k s : foldl push_digit (Some 0%N) (repeat 48%N k ++ s) = foldl push_digit (Some 0%N) s.
Proof. by induction k. Qed.

Lemma length_pretty_go k x s : (x < 10 ^ N.of_nat k)%N -> String.length (pretty_N_go x s) <= k + String.length s.
Proof.
  revert x s. induction k as [| k IH]; intros x s Hx.
  - assert (x = 0%N) as -> by (simpl in Hx; lia). done.
  - destruct (decide (0 < x)%N) as [Hp |]; [| assert (x = 0%N) as -> by lia; rewrite pretty_N_go_0; lia].
    rewrite pretty_N_go_step by done. rewrite IH; [simpl; lia |].
    rewrite Nat2N.inj_succ, N.pow_succ_r' in Hx. by apply N.Div0.div_lt_upper_bound.
Qed.

Lemma length_show_N k n : 0 < k -> (n < 10 ^ N.of_nat k)%N -> length (show_N n) <= k.
Proof.
  intros Hk Hn. unfold show_N, pretty, pretty_N. case_decide; [simpl; lia |].
  pose proof (length_pretty_go k n "" Hn) as Hl. simpl in Hl.
  assert (forall s, length (lit s) = String.length s) as -> by (induction s as [| c s IH]; simpl; congruence).
  lia.
Qed.
