(* ===== verification/UpdateManifest.v ===== *)
(** * UpdateManifest: what a release publishes and what a client trusts

    [goble-update/src/manifest.rs]: the release manifest, its validation and the bytes its
    signature covers.  Versions ([semver]), signatures ([ring], [hex]) and JSON are parameters. *)

From S2P Require Import Prelude Bytes Text Sys Fields.

(** ** What the crate takes from its libraries *)

(** [semver]: versions, how they are written, and their total order. *)
Class Semver : Type := {
  Version : Type;
  #[global] Version_eq_dec :: EqDecision Version;
  parse_semver : Str -> option Version;
  show_version : Version -> Str;
  version_ltb : Version -> Version -> bool;
}.

(** What [semver] documents of them: a version text is identifiers of [[0-9A-Za-z-]] joined
    by dots and pluses, and the order is total. *)
Definition semver_char (c : char) : bool := is_ascii_alphanumeric c || one_of c "-.+".
Record SemverLaws `{Semver} : Prop := {
  parsed_chars : forall s v, parse_semver s = Some v ->
    s <> [] /\ Forall (fun c => semver_char c = true) s;
  ltb_total : forall v w, v <> w -> version_ltb v w = negb (version_ltb w v);
}.

(** [hex::decode], [ring]'s ed25519 and SHA-256 with [hex::encode]. *)
Class Crypto : Type := {
  hex_decode : Str -> option Bytes;
  ed25519_verify : Bytes -> Bytes -> Bytes -> bool;  (** key, message, signature *)
  sha256_hex : Bytes -> Str;
}.

(** ** The manifest *)

Module Manifest.

Definition SCHEMA : N := 2.
Definition UNIVERSAL : Str := lit "universal".
Definition SIGNING_DOMAIN : Str := lit "goble-update-v2".

Inductive Channel : Type := Stable | Beta | Dev.
#[export] Instance Channel_eq_dec : EqDecision Channel.
Proof. solve_decision. Defined.

Definition as_str (c : Channel) : Str :=
  match c with Stable => lit "stable" | Beta => lit "beta" | Dev => lit "dev" end.
Definition is_self_updating (c : Channel) : bool := negb (bool_decide (c = Dev)).

Record Artifact : Type := mkArtifact {
  os : Str;
  arch : Str;
  url : Str;
  sha256 : Str;
  size : N;
}.
#[export] Instance Artifact_eq_dec : EqDecision Artifact.
Proof. solve_decision. Defined.

Definition matches (a : Artifact) (os_ arch_ : Str) : bool :=
  eq_ignore_ascii_case (os a) os_
  && (eq_ignore_ascii_case (arch a) arch_ || eq_ignore_ascii_case (arch a) UNIVERSAL).
Definition is_universal (a : Artifact) : bool := eq_ignore_ascii_case (arch a) UNIVERSAL.

Section manifest.
Context `{Externs, Semver, Crypto}.

Record ChannelRelease : Type := mkChannelRelease {
  version : Str;
  epoch : N;
  yanked : list Str;
  released_at : option Instant;
  notes_url : option Str;
  artifacts : list Artifact;
  signature : option Str;
}.

Inductive ManifestError : Type :=
| Json_ (reason : Str)
| UnsupportedSchema (found supported : N)
| NoRelease (channel : Str)
| BadVersion (version : Str)
| BadYankedVersion (version : Str)
| NoArtifacts
| BadDigest (url digest : Str)
| EmptyArtifact (url : Str)
| InsecureUrl (url : Str)
| MissingSignature
| BadPublicKey (reason : Str)
| BadSignature (reason : Str).

Definition normalize_version (text : Str) : Str :=
  trim_start_matches (fun c => (c =? 118)%N) (lower (trim text)).

Definition normalized_yanked (r : ChannelRelease) : list Str :=
  dedup (sort_strs (normalize_version <$> yanked r)).

Definition artifact_line (a : Artifact) : Str :=
  lower (os a) ++ SPACE :: lower (arch a) ++ SPACE :: lower (sha256 a)
  ++ SPACE :: show_N (size a) ++ SPACE :: url a.

Definition signing_payload (r : ChannelRelease) : Str :=
  join NEWLINE
    ([SIGNING_DOMAIN; version r; lit "epoch=" ++ show_N (epoch r);
      lit "yanked=" ++ join COMMA (normalized_yanked r)]
     ++ sort_strs (artifact_line <$> artifacts r)).

Definition artifact_for (r : ChannelRelease) (os_ arch_ : Str) : option Artifact :=
  let candidates := filter (fun a => matches a os_ arch_ = true) (artifacts r) in
  match head (filter (fun a => is_universal a = false) candidates) with
  | Some a => Some a
  | None => head candidates
  end.

Definition is_yanked (r : ChannelRelease) (v : Str) : bool :=
  bool_decide (normalize_version v ∈ normalized_yanked r).

(** The host of an [http] URL: before the path, after the last [@], before a colon. *)
Fixpoint until (stop : char -> bool) (s : Str) : Str :=
  match s with
  | [] => []
  | c :: s' => if stop c then [] else c :: until stop s'
  end.
Definition trim_matches (p : char -> bool) (s : Str) : Str :=
  reverse (trim_start_matches p (reverse (trim_start_matches p s))).
Definition is_acceptable_url (u : Str) : bool :=
  match match strip_prefix (lit "http://") u with
        | Some rest => Some rest
        | None => strip_prefix (lit "https://") u
        end with
  | None => false
  | Some rest =>
      if starts_with u (lit "https://") then true
      else
        let host := until (fun c => one_of c "/?#") rest in
        let host := default host (last (split_on 64 host)) in
        let host := trim_matches (fun c => one_of c "[]") (default host (head (split_on 58 host))) in
        bool_decide (host ∈ lit <$> ["127.0.0.1"; "localhost"; "::1"; "0.0.0.0"]%string)
  end.

Definition validate_artifact (a : Artifact) : result ManifestError () :=
  if negb (length (as_bytes (sha256 a)) =? 64) || negb (forallb is_ascii_hexdigit (sha256 a))
  then Err (BadDigest (url a) (sha256 a))
  else if (size a =? 0)%N then Err (EmptyArtifact (url a))
  else if negb (is_acceptable_url (url a)) then Err (InsecureUrl (url a))
  else Ok tt.

(** A [for] loop that returns the first error. *)
Fixpoint each {A} (f : A -> result ManifestError ()) (l : list A) : result ManifestError () :=
  match l with
  | [] => Ok tt
  | x :: l' => match f x with Ok _ => each f l' | Err e => Err e end
  end.

Definition validate (r : ChannelRelease) : result ManifestError () :=
  match parse_semver (version r) with
  | None => Err (BadVersion (version r))
  | Some _ =>
      match each (fun v => match parse_semver (normalize_version v) with
                           | Some _ => Ok tt
                           | None => Err (BadYankedVersion v)
                           end) (yanked r) with
      | Err e => Err e
      | Ok _ =>
          if bool_decide (artifacts r = []) then Err NoArtifacts
          else each validate_artifact (artifacts r)
      end
  end.

Definition verify_signature (r : ChannelRelease) (public_key_hex : Str) : result ManifestError () :=
  match signature r with
  | None => Err MissingSignature
  | Some s =>
      match hex_decode (trim public_key_hex) with
      | None => Err (BadPublicKey (lit "not hex"))
      | Some key =>
          match hex_decode (trim s) with
          | None => Err (BadSignature (lit "not hex"))
          | Some sig =>
              if ed25519_verify key (as_bytes (signing_payload r)) sig then Ok tt
              else Err (BadSignature (lit "the signature does not match the release"))
          end
      end
  end.

Record Channels : Type := mkChannels {
  stable : option ChannelRelease;
  beta : option ChannelRelease;
  dev : option ChannelRelease;
}.

Definition get (cs : Channels) (c : Channel) : option ChannelRelease :=
  match c with Stable => stable cs | Beta => beta cs | Dev => dev cs end.

Record ChannelManifest : Type := mkChannelManifest {
  schema : N;
  channels : Channels;
}.

Definition release (m : ChannelManifest) (c : Channel) : result ManifestError ChannelRelease :=
  match get (channels m) c with
  | None => Err (NoRelease (as_str c))
  | Some r => result_map (fun _ => r) (validate r)
  end.

Definition trusted_release (m : ChannelManifest) (c : Channel) (public_key_hex : Str) :
  result ManifestError ChannelRelease :=
  match release m c with
  | Err e => Err e
  | Ok r => result_map (fun _ => r) (verify_signature r public_key_hex)
  end.

(** [artifacts_by_platform]: a map from the platform to its artifacts, in order. *)
Definition artifacts_by_platform (r : ChannelRelease) : gmap Str (list Artifact) :=
  foldl (fun grouped a => <[lower (os a) := default [] (grouped !! lower (os a)) ++ [a]]> grouped)
    ∅ (artifacts r).

End manifest.
End Manifest.
Import Manifest.

(** [serde_json] on the manifest. *)
Class ManifestCodec `{Externs, Semver, Crypto} : Type := {
  manifest_of_json : Str -> result Str ChannelManifest;
}.

Definition parse_manifest `{ManifestCodec} (text : Str) : result ManifestError ChannelManifest :=
  match manifest_of_json text with
  | Err reason => Err (Json_ reason)
  | Ok m =>
      if (schema m =? SCHEMA)%N then Ok m else Err (UnsupportedSchema (schema m) SCHEMA)
  end.
