(* ===== verification/UpdateClient.v ===== *)
(** * UpdateClient: is there an update, and is what was downloaded the release

    [goble-update/src/client.rs], [state.rs] and [lib.rs]: the decision a check makes, the
    staging of an artifact whose digest and size must be the promised ones, and the record
    of what this installation accepted.  The disk is that of Sys.v, so each call may fail
    and the process may die in it. *)

From S2P Require Import Prelude Bytes Text Sys Fields UpdateManifest.
Import Manifest.

(** ** The update state *)

Module State.
Section state.
Context `{Externs, Semver}.

Record UpdateState : Type := mkUpdateState {
  installed_version : option Str;
  installed_epoch : N;
  last_check : option Instant;
  failed_version : option Str;
  failed_epoch : N;
}.
Definition empty : UpdateState := mkUpdateState None 0 None None 0.

Definition confirm_install (version : Str) (epoch : N) (s : UpdateState) : UpdateState :=
  mkUpdateState (Some version) epoch (last_check s) None 0.
Definition record_failed (version : Str) (epoch : N) (s : UpdateState) : UpdateState :=
  mkUpdateState (installed_version s) (installed_epoch s) (last_check s) (Some version) epoch.
Definition record_check (at_ : Instant) (s : UpdateState) : UpdateState :=
  mkUpdateState (installed_version s) (installed_epoch s) (Some at_) (failed_version s) (failed_epoch s).
Definition failed_even_after (s : UpdateState) (version : Str) (epoch : N) : bool :=
  bool_decide (failed_version s = Some version) && (failed_epoch s =? epoch)%N.

Definition path_in (home : Path) : Path := home ++ [lit "update-state.json"].
End state.
End State.
Import State.

(** [serde_json] on the state. *)
Class StateCodec `{Externs, Semver} : Type := {
  state_of_json : Str -> result Str UpdateState;
  state_to_json : UpdateState -> result Str Str;
}.

(** The release host: a transport error, or a status and a body; a body comes whole or in
    chunks, each of which may be the one at which the connection breaks. *)
Class Http : Type := {
  http_text : Str -> result Str (N * result Str Str);
  http_chunks : Str -> result Str (N * list (result Str Bytes));
}.
Definition is_success (status : N) : bool := (200 <=? status)%N && (status <? 300)%N.

(** ** The client *)

Module Client.
Section client.
Context `{Externs, Semver, !Crypto, !ManifestCodec, !StateCodec, !Http}.

(** The messages of the errors. *)
Definition show_manifest_error (e : ManifestError) : Str :=
  match e with
  | Json_ reason => lit "the manifest is not valid JSON: " ++ reason
  | UnsupportedSchema found supported =>
      lit "manifest schema " ++ show_N found ++ lit " is not supported (this build speaks "
      ++ show_N supported ++ lit ")"
  | NoRelease channel => lit "the manifest has no `" ++ channel ++ lit "` channel"
  | BadVersion v => lit "release version `" ++ v ++ lit "` is not a semver version"
  | BadYankedVersion v => lit "yanked version `" ++ v ++ lit "` is not a semver version"
  | NoArtifacts => lit "a release with no artifacts cannot be installed"
  | BadDigest u d => u ++ lit " has a digest that is not 64 hex characters: " ++ d
  | EmptyArtifact u => u ++ lit " declares no size"
  | InsecureUrl u => u ++ lit " is not https"
  | MissingSignature => lit "the release is not signed"
  | BadPublicKey reason => lit "the public key is unusable: " ++ reason
  | BadSignature reason => lit "the signature is unusable: " ++ reason
  end.

Inductive UpdateError : Type :=
| Transport (url reason : Str)
| Status (url : Str) (status : N)
| Manifest_ (e : ManifestError)
| UncomparableVersion (version : Str)
| TooLarge (url : Str) (limit : N)
| DigestMismatch (url expected actual : Str)
| SizeMismatch (url : Str) (expected actual : N)
| Untrusted
| Io (path : Path) (reason : Str).

Definition show_update_error (e : UpdateError) : Str :=
  match e with
  | Transport u reason => lit "could not reach " ++ u ++ lit ": " ++ reason
  | Status u status => u ++ lit " answered " ++ show_N status
  | Manifest_ e => lit "the release manifest is unusable: " ++ show_manifest_error e
  | UncomparableVersion v =>
      lit "the running version `" ++ v ++ lit "` is not a semver version, so it cannot be compared"
  | TooLarge u limit =>
      u ++ lit " is larger than the " ++ show_N limit ++ lit " bytes this build will accept"
  | DigestMismatch u expected actual =>
      u ++ lit " does not match its declared SHA-256 (expected " ++ expected ++ lit ", got "
      ++ actual ++ lit ")"
  | SizeMismatch u expected actual =>
      u ++ lit " is " ++ show_N actual ++ lit " bytes, but the manifest declares " ++ show_N expected
  | Untrusted =>
      lit "the release is not signed, and this build is not allowed to install unsigned releases"
  | Io p reason => show_path p ++ lit " could not be prepared: " ++ reason
  end.

Definition io_error (p : Path) (e : IoError) : UpdateError := Io p (show_io e).
(** [call.map_err(|err| io_error(path, err))?]. *)
Definition at_path {A} (p : Path) (m : M IoError A) : M UpdateError A := map_err (io_error p) m.

Record StagedArtifact : Type := mkStagedArtifact {
  path : Path;
  staged_artifact : Artifact;
  digest : Str;
}.
Definition staged_file_name (s : StagedArtifact) : Str := default [] (file_name (path s)).

Record AvailableUpdate : Type := mkAvailableUpdate {
  up_channel : Channel;
  up_version : Version;
  up_epoch : N;
  rollback : bool;
  current_yanked : bool;
  up_artifact : Artifact;
  up_notes_url : option Str;
  up_released_at : option Instant;
  verified : bool;
}.

Inductive CheckOutcome : Type :=
| UpToDate (current latest : Version)
| Available (u : AvailableUpdate)
| Unsupported (reason : Str).

Definition into_update (o : CheckOutcome) : option AvailableUpdate :=
  match o with Available u => Some u | _ => None end.
Definition is_supported (o : CheckOutcome) : bool :=
  match o with Unsupported _ => false | _ => true end.

Record UpdateConfig : Type := mkUpdateConfig {
  manifest_url : Str;
  public_key : option Str;
  allow_unsigned : bool;
  max_artifact_bytes : N;
}.

(** [state.rs]: [UpdateState::load] and [save]. *)
Definition load (p : Path) : M UpdateError UpdateState :=
  r ← attempt (read_to_string p);
  match r with
  | Ok text => mret (match state_of_json text with Ok s => s | Err _ => empty end)
  | Err NotFound => mret empty
  | Err e => fail (io_error p e)
  end.

Definition save (s : UpdateState) (p : Path) : M UpdateError () :=
  at_path (parent p) (create_dir_all (parent p)) ≫= fun _ =>
  let temporary := push_suffix p (lit ".tmp") in
  match state_to_json s with
  | Err reason => fail (Io p reason)
  | Ok text =>
      at_path temporary (write temporary (as_bytes (text ++ [NEWLINE]))) ≫= fun _ =>
      at_path p (rename temporary p)
  end.

(** ** Deciding *)

Definition parse_version (text : Str) : result UpdateError Version :=
  ok_or (UncomparableVersion text)
    (parse_semver (trim_start_matches (fun c => (c =? 118)%N) (trim text))).

Definition decide_update (channel : Channel) (release : ChannelRelease) (current : Version)
    (installed_epoch : N) (os_ arch_ : Str) (verified : bool) : result UpdateError CheckOutcome :=
  match parse_version (version release) with
  | Err e => Err e
  | Ok latest =>
      if bool_decide (latest = current) then Ok (UpToDate current latest)
      else
        let authoritative := (installed_epoch <? epoch release)%N in
        let current_yanked := is_yanked release (show_version current) in
        if negb (authoritative || current_yanked || version_ltb current latest)
        then Ok (UpToDate current latest)
        else
          match artifact_for release os_ arch_ with
          | None =>
              Ok (Unsupported (lit "release " ++ version release ++ lit " has no artifact for "
                               ++ os_ ++ [SLASH] ++ arch_))
          | Some artifact =>
              Ok (Available (mkAvailableUpdate channel latest (epoch release)
                (version_ltb latest current) current_yanked artifact (notes_url release)
                (released_at release) verified))
          end
  end.

Definition get_text (u : Str) : result UpdateError Str :=
  match http_text u with
  | Err reason => Err (Transport u reason)
  | Ok (status, body) =>
      if negb (is_success status) then Err (Status u status)
      else result_map_err (Transport u) body
  end.

Definition fetch_manifest (c : UpdateConfig) : result UpdateError ChannelManifest :=
  match get_text (manifest_url c) with
  | Err e => Err e
  | Ok text => result_map_err Manifest_ (parse_manifest text)
  end.

Definition release_is_signed (c : UpdateConfig) (r : ChannelRelease) : result UpdateError bool :=
  match public_key c with
  | Some key => result_map (fun _ => true) (result_map_err Manifest_ (verify_signature r key))
  | None => Ok false
  end.

Definition check (c : UpdateConfig) (channel : Channel) (current_version : Str)
    (installed_epoch : N) (os_ arch_ : Str) : result UpdateError CheckOutcome :=
  if negb (is_self_updating channel)
  then Ok (Unsupported (lit "a " ++ as_str channel ++ lit " build does not update itself"))
  else
    match parse_version current_version with
    | Err e => Err e
    | Ok current =>
        match fetch_manifest c with
        | Err e => Err e
        | Ok manifest =>
            match release manifest channel with
            | Err e => Err (Manifest_ e)
            | Ok release =>
                match release_is_signed c release with
                | Err e => Err e
                | Ok verified =>
                    decide_update channel release current installed_epoch os_ arch_ verified
                end
            end
        end
    end.

(** ** Staging *)

Definition file_name_of (u : Str) : Str :=
  let last_segment := default (lit "artifact") (last (split_on SLASH (until (fun c => one_of c "?#") u))) in
  let cleaned := filter (fun c => is_ascii_alphanumeric c || one_of c "._-+" = true) last_segment in
  if bool_decide (cleaned = []) || forallb (fun c => (c =? 46)%N) cleaned
  then lit "artifact" else cleaned.

(** [with_extension("")]. *)
Definition without_extension (p : Path) : Path :=
  match last p with Some name => with_file_name p (stem name) | None => p end.

(** The hasher is the bytes it was given. *)
Record StagingWriter : Type := mkStagingWriter {
  part : Path;
  hasher : Bytes;
  written : N;
  limit : N;
  artifact : Artifact;
}.

Definition writer_create (dir : Path) (a : Artifact) (limit_ : N) : M UpdateError StagingWriter :=
  at_path dir (create_dir_all dir) ≫= fun _ =>
  let part_ := dir ++ [file_name_of (url a) ++ lit ".part"] in
  at_path part_ (create part_) ≫= fun _ =>
  mret (mkStagingWriter part_ [] 0 limit_ a).

Definition writer_write (w : StagingWriter) (chunk : Bytes) : M UpdateError StagingWriter :=
  let written_ := (written w + N.of_nat (length chunk))%N in
  if (limit w <? written_)%N then
    ignore (remove_file (part w)) ≫= fun _ => fail (TooLarge (url (artifact w)) (limit w))
  else
    at_path (part w) (write_all (part w) chunk) ≫= fun _ =>
    mret (mkStagingWriter (part w) (hasher w ++ chunk) written_ (limit w) (artifact w)).

Definition finish (w : StagingWriter) : M UpdateError StagedArtifact :=
  let digest_ := sha256_hex (hasher w) in
  if negb (written w =? size (artifact w))%N then
    ignore (remove_file (part w)) ≫= fun _ =>
    fail (SizeMismatch (url (artifact w)) (size (artifact w)) (written w))
  else
    let expected := lower (sha256 (artifact w)) in
    if negb (bool_decide (digest_ = expected)) then
      ignore (remove_file (part w)) ≫= fun _ =>
      fail (DigestMismatch (url (artifact w)) expected digest_)
    else
      let path_ := without_extension (part w) in
      at_path path_ (rename (part w) path_) ≫= fun _ =>
      at_path path_ (make_executable path_) ≫= fun _ =>
      mret (mkStagedArtifact path_ (artifact w) digest_).

(** The chunk loop of [download]. *)
Fixpoint receive (u : Str) (w : StagingWriter) (chunks : list (result Str Bytes)) :
  M UpdateError StagingWriter :=
  match chunks with
  | [] => mret w
  | Err reason :: _ => fail (Transport u reason)
  | Ok chunk :: chunks' => writer_write w chunk ≫= fun w' => receive u w' chunks'
  end.

Definition download (c : UpdateConfig) (update : AvailableUpdate) (dir : Path) :
  M UpdateError StagedArtifact :=
  if negb (verified update) && negb (allow_unsigned c) then fail Untrusted
  else
    at_path dir (create_dir_all dir) ≫= fun _ =>
    let u := url (up_artifact update) in
    match http_chunks u with
    | Err reason => fail (Transport u reason)
    | Ok (status, chunks) =>
        if negb (is_success status) then fail (Status u status)
        else
          writer_create dir (up_artifact update) (max_artifact_bytes c) ≫= fun w =>
          receive u w chunks ≫= finish
    end.

End client.
End Client.
