(* ===== verification/UpdateProps.v ===== *)
(** * UpdateProps: what a signature binds, what a check offers, what is staged

    The manifest's payload read back, the offers of a check, and the staging of an artifact
    on a disk that fails at any call. *)

From S2P Require Import Prelude Bytes Text Sys Fields UpdateManifest UpdateClient.
Import Manifest State Client.

(** ** The payload *)

(** What the fields that are not validated have to be: scalar values, no line feed, and no
    space where a space ends the field. *)
Definition one_line (s : Str) : Prop := NEWLINE ∉ s /\ Forall (fun c => is_scalar c = true) s.
Definition one_word (s : Str) : Prop := SPACE ∉ s /\ one_line s.
Lemma one_word_intro s : SPACE ∉ s -> NEWLINE ∉ s -> Forall (fun c => is_scalar c = true) s ->
  one_word s.
Proof. by split. Qed.

Definition plain (a : Artifact) : Prop := one_word (os a) /\ one_word (arch a) /\ one_line (url a).

(** What a signature says of an artifact. *)
Definition bound (a : Artifact) : Str * Str * Str * N * Str :=
  (lower (os a), lower (arch a), lower (sha256 a), size a, url a).

Lemma scalar_lower c : is_scalar c = true -> is_scalar (to_ascii_lowercase c) = true.
Proof.
  rewrite !is_scalar_spec. unfold to_ascii_lowercase, is_ascii_uppercase.
  destruct (65 <=? c)%N eqn:?, (c <=? 90)%N eqn:?; simpl; try done.
  rewrite ?N.leb_le in *. lia.
Qed.

Lemma one_line_lower s : one_line s -> one_line (lower s).
Proof.
  intros [? Hs]. split; [by apply lower_not_elem |]. by apply lower_Forall; [apply scalar_lower |].
Qed.

Lemma one_word_lower s : one_word s -> one_word (lower s).
Proof. intros [? Hs]. split; [by apply lower_not_elem | by apply one_line_lower]. Qed.

Lemma ascii_word s : Forall (fun c => (32 < c < 128)%N) s -> one_word s.
Proof.
  rewrite Forall_forall. intros Hs. unfold one_word, one_line. split_and!.
  - intros Hin%Hs. unfold SPACE in Hin. lia.
  - intros Hin%Hs. unfold NEWLINE in Hin. lia.
  - apply Forall_forall. intros c Hin%Hs. apply is_scalar_spec. lia.
Qed.

Lemma alphanumeric_range c : is_ascii_alphanumeric c = true -> (48 <= c < 123)%N.
Proof.
  unfold is_ascii_alphanumeric, is_ascii_alphabetic, is_ascii_digit, is_ascii_uppercase,
    is_ascii_lowercase.
  rewrite !orb_true_iff, !andb_true_iff, !N.leb_le. lia.
Qed.

Lemma semver_char_range c : semver_char c = true -> (32 < c < 128)%N /\ c <> COMMA.
Proof.
  unfold semver_char. rewrite orb_true_iff, one_of_spec. intros [Hc%alphanumeric_range | Hc].
  - unfold COMMA. lia.
  - unfold COMMA. simpl in Hc.
    repeat (apply elem_of_cons in Hc as [-> | Hc]; [vm_compute; by split |]).
    by apply not_elem_of_nil in Hc.
Qed.

Lemma show_N_word n : one_word (show_N n).
Proof.
  destruct (show_N_digits n) as (_ & Hd & _). apply ascii_word.
  eapply Forall_impl; [exact Hd |]. intros c. unfold is_ascii_digit.
  rewrite andb_true_iff, !N.leb_le. lia.
Qed.

Section payload.
Context `{Externs, Semver, !Crypto} (LAWS : SemverLaws).

Lemma each_Ok {A} (f : A -> result ManifestError ()) l :
  each f l = Ok tt <-> Forall (fun x => f x = Ok tt) l.
Proof.
  induction l as [| x l IH]; simpl; [by split; [constructor |]|].
  rewrite Forall_cons, <- IH. destruct (f x) as [[] | e]; naive_solver.
Qed.

Lemma validate_spec r : validate r = Ok tt <->
  is_Some (parse_semver (version r)) /\
  Forall (fun v => is_Some (parse_semver (normalize_version v))) (yanked r) /\
  artifacts r <> [] /\ Forall (fun a => validate_artifact a = Ok tt) (artifacts r).
Proof.
  unfold validate. destruct (parse_semver (version r)) as [v |]; [|naive_solver].
  match goal with |- context [each ?f (yanked r)] => pose proof (each_Ok f (yanked r)) as Hy;
    destruct (each f (yanked r)) as [[] | e] end.
  - destruct Hy as [Hy _]. specialize (Hy eq_refl). rewrite <- each_Ok.
    case_bool_decide; [naive_solver |]. split; [|naive_solver].
    intros He. split_and!; try done. eapply Forall_impl; [exact Hy |]. intros w. simpl.
    destruct (parse_semver _); [done | discriminate].
  - split; [done |]. intros (_ & Hf & _). destruct Hy as [_ Hy]. apply Hy.
    eapply Forall_impl; [exact Hf |]. intros w [v' Hv]. simpl. by rewrite Hv.
Qed.

Lemma hexdigit_range c : is_ascii_hexdigit c = true -> (32 < c < 128)%N.
Proof.
  unfold is_ascii_hexdigit, is_ascii_digit. rewrite !orb_true_iff, !andb_true_iff, !N.leb_le. lia.
Qed.

Lemma validated_digest a : validate_artifact a = Ok tt -> one_word (sha256 a).
Proof.
  unfold validate_artifact. destruct (forallb is_ascii_hexdigit (sha256 a)) eqn:Hx.
  - intros _. apply ascii_word. apply Forall_forall. intros c Hc.
    rewrite forallb_forall in Hx. apply hexdigit_range, Hx. by apply list_elem_of_In.
  - by rewrite orb_true_r.
Qed.

Lemma artifact_line_inj a b :
  plain a -> plain b -> one_word (sha256 a) -> one_word (sha256 b) ->
  artifact_line a = artifact_line b -> bound a = bound b.
Proof.
  intros (Ho & Ha & _) (Ho' & Ha' & _) Hs Hs'. unfold artifact_line, bound.
  intros He.
  apply sep_inj in He as [-> He]; [|by apply one_word_lower..].
  apply sep_inj in He as [-> He]; [|by apply one_word_lower..].
  apply sep_inj in He as [-> He]; [|by apply one_word_lower..].
  apply sep_inj in He as [Hn ->]; [|apply show_N_word..].
  apply printed_numbers_inj in Hn. by rewrite Hn.
Qed.

Lemma artifact_line_one_line a : plain a -> one_word (sha256 a) -> one_line (artifact_line a).
Proof.
  intros (Ho & Ha & Hu) Hs. unfold artifact_line.
  assert (forall w s, one_word w -> one_line s -> one_line (w ++ SPACE :: s)) as Hcons.
  { intros w s [_ [Hw1 Hw2]] [Hs1 Hs2]. split.
    - rewrite not_elem_of_app, not_elem_of_cons. by split_and!.
    - apply Forall_app. split; [done |]. by constructor. }
  repeat apply Hcons; first [by apply one_word_lower | apply show_N_word | done].
Qed.

(** The words before the artifacts, and the lines that are joined. *)
Definition payload_header (r : ChannelRelease) : list Str :=
  [SIGNING_DOMAIN; version r; lit "epoch=" ++ show_N (epoch r);
   lit "yanked=" ++ join COMMA (normalized_yanked r)].
Definition payload_lines (r : ChannelRelease) : list Str :=
  payload_header r ++ sort_strs (artifact_line <$> artifacts r).

(** A release a signer signs: validated, with plain fields. *)
Definition well_formed (r : ChannelRelease) : Prop :=
  validate r = Ok tt /\ Forall plain (artifacts r).

(** Two releases that say the same where the signature speaks. *)
Record same_release (r r' : ChannelRelease) : Prop := {
  same_version : version r = version r';
  same_epoch : epoch r = epoch r';
  same_yanked : normalized_yanked r = normalized_yanked r';
  same_artifacts : bound <$> artifacts r ≡ₚ bound <$> artifacts r';
}.

Lemma version_word s v : parse_semver s = Some v -> s <> [] /\ one_word s /\ COMMA ∉ s.
Proof.
  intros Hv. destruct (parsed_chars LAWS s v Hv) as [Hne Hs]. split_and!; [done | |].
  - apply ascii_word. eapply Forall_impl; [exact Hs |]. by intros c [? _]%semver_char_range.
  - rewrite Forall_forall in Hs. by intros [_ ?]%Hs%semver_char_range.
Qed.

Lemma validated_yanked r : validate r = Ok tt ->
  Forall (fun w => w <> [] /\ one_word w /\ COMMA ∉ w) (normalized_yanked r).
Proof.
  intros (_ & Hy & _)%validate_spec. apply Forall_forall. intros w Hw.
  unfold normalized_yanked in Hw. rewrite elem_of_dedup, elem_of_sort_strs in Hw.
  apply list_elem_of_fmap in Hw as (v & -> & Hv). rewrite Forall_forall in Hy.
  destruct (Hy v Hv) as [p Hp]. by eapply version_word.
Qed.

Lemma one_word_app s t : one_word s -> one_word t -> one_word (s ++ t).
Proof.
  intros (? & ? & ?) (? & ? & ?).
  apply one_word_intro; [by rewrite not_elem_of_app | by rewrite not_elem_of_app | by apply Forall_app].
Qed.

Lemma one_word_join ws : Forall one_word ws -> one_word (join COMMA ws).
Proof.
  intros Hws.
  assert (Forall (fun c => c <> SPACE /\ c <> NEWLINE /\ is_scalar c = true) (join COMMA ws)) as Hj.
  { apply join_Forall; [done |]. eapply Forall_impl; [exact Hws |]. intros w (Hs & Hn & Hc).
    rewrite Forall_forall in *. intros c Hin. split_and!; [by intros -> | by intros -> | by apply Hc]. }
  rewrite Forall_forall in Hj. apply one_word_intro; [by intros [? _]%Hj | by intros (_ & ? & _)%Hj |].
  apply Forall_forall. by intros c (_ & _ & ?)%Hj.
Qed.

Lemma header_words r : validate r = Ok tt -> Forall one_word (payload_header r).
Proof.
  intros Hr. pose proof Hr as ([v Hv] & _)%validate_spec.
  repeat (apply Forall_cons; split); [| | | | constructor].
  - by apply ascii_word, (bool_decide_unpack _).
  - by destruct (version_word _ _ Hv) as (_ & ? & _).
  - apply one_word_app; [by apply ascii_word, (bool_decide_unpack _) | apply show_N_word].
  - apply one_word_app; [by apply ascii_word, (bool_decide_unpack _) |]. apply one_word_join.
    eapply Forall_impl; [by apply validated_yanked |]. by intros w (_ & ? & _).
Qed.

Lemma payload_lines_one_line r : well_formed r -> Forall one_line (payload_lines r).
Proof.
  intros [Hr Hp]. unfold payload_lines. apply Forall_app. split.
  - eapply Forall_impl; [by apply header_words |]. by intros w [_ ?].
  - apply validate_spec in Hr as (_ & _ & _ & Ha). unfold sort_strs. rewrite sort_by_Permutation.
    apply Forall_fmap, Forall_forall. intros a Hin. rewrite Forall_forall in Ha, Hp.
    by apply artifact_line_one_line; [apply Hp | apply validated_digest, Ha].
Qed.

Lemma header_inj r r' : validate r = Ok tt -> validate r' = Ok tt ->
  payload_header r = payload_header r' ->
  version r = version r' /\ epoch r = epoch r' /\ normalized_yanked r = normalized_yanked r'.
Proof.
  intros Hr Hr' He. injection He as Hv Hep Hy. split; [done |]. split; [by apply printed_numbers_inj |].
  apply join_words_inj in Hy; [done |..]; (eapply Forall_impl; [by apply validated_yanked |]);
    by intros w (? & _ & ?).
Qed.

(** What is signed reads back. *)
Lemma payload_binds r r' : well_formed r -> well_formed r' ->
  as_bytes (signing_payload r) = as_bytes (signing_payload r') -> same_release r r'.
Proof.
  intros Hr Hr' He. change (signing_payload r) with (join NEWLINE (payload_lines r)) in He.
  change (signing_payload r') with (join NEWLINE (payload_lines r')) in He.
  pose proof (payload_lines_one_line r Hr) as Hl. pose proof (payload_lines_one_line r' Hr') as Hl'.
  assert (forall ls, Forall one_line ls -> Forall (fun c => is_scalar c = true) (join NEWLINE ls)) as Hsc.
  { intros ls Hls. apply join_Forall; [done |]. eapply Forall_impl; [exact Hls |]. by intros ? [_ ?]. }
  apply as_bytes_inj in He; [|by apply Hsc..].
  apply join_inj in He; [|done | done | by eapply Forall_impl; [eassumption | intros ? [? _]]..].
  apply app_inj_1 in He as [Hh Hs]; [|done].
  apply header_inj in Hh as (Hv & Hep & Hy); [|apply Hr | apply Hr']. split; try done.
  apply (fmap_Permutation_through artifact_line).
  - intros a b Ha Hb. destruct Hr as [(_ & _ & _ & Hra)%validate_spec Hrp].
    destruct Hr' as [(_ & _ & _ & Hra')%validate_spec Hrp']. rewrite Forall_forall in Hra, Hra', Hrp, Hrp'.
    apply artifact_line_inj; [by apply Hrp | by apply Hrp' | by apply validated_digest, Hra..
      | by apply validated_digest, Hra'].
  - rewrite <- (sort_by_Permutation str_le), <- (sort_by_Permutation str_le (_ <$> artifacts r')).
    unfold sort_strs in Hs. by rewrite Hs.
Qed.

(** ** What a served release owes to the signed one

    The fields of a served release may hold anything.  Its header is still that of the
    release that was signed, and an artifact for a platform with a plain name is one of
    those signed: only its URL may be longer than the signed one, by a line feed and what
    follows. *)

Definition cut_url (a : Artifact) : Artifact :=
  mkArtifact (os a) (arch a) (default [] (head (split_on NEWLINE (url a)))) (sha256 a) (size a).

Lemma cut_line a : one_word (os a) -> one_word (arch a) -> one_word (sha256 a) ->
  Forall (fun c => is_scalar c = true) (url a) ->
  plain (cut_url a) /\ artifact_line (cut_url a) ∈ split_on NEWLINE (artifact_line a).
Proof.
  intros Ho Ha Hs Hu. destruct a as [o ar u sh sz]; unfold cut_url, artifact_line in *; simpl in *.
  set (pre := lower o ++ SPACE :: lower ar ++ SPACE :: lower sh ++ SPACE :: show_N sz ++ [SPACE]).
  assert (forall t, lower o ++ SPACE :: lower ar ++ SPACE :: lower sh ++ SPACE :: show_N sz ++ SPACE :: t
    = pre ++ t) as Hpre.
  { intros t. unfold pre. repeat (rewrite <- app_assoc; simpl). done. }
  rewrite !Hpre. destruct (split_on_first NEWLINE pre u) as (w & ws & Hw & Hsplit).
  { subst pre. pose proof (one_word_lower _ Ho) as (_ & ? & _).
    pose proof (one_word_lower _ Ha) as (_ & ? & _). pose proof (one_word_lower _ Hs) as (_ & ? & _).
    pose proof (show_N_word sz) as (_ & ? & _).
    rewrite !not_elem_of_app, !not_elem_of_cons, !not_elem_of_app, !not_elem_of_cons,
      !not_elem_of_app, !not_elem_of_cons, !not_elem_of_app. split_and!; try done.
    by intros ?%list_elem_of_singleton. }
  rewrite Hw, Hsplit. simpl. split; [|by left]. split; [done |]. split; [done |]. split; simpl.
  - pose proof (split_on_no_sep NEWLINE u) as Hn. rewrite Hw in Hn. by apply Forall_cons in Hn as [? _].
  - apply Forall_forall. intros c Hc. rewrite Forall_forall in Hu. apply Hu.
    eapply split_on_sub; [rewrite Hw; by left | done].
Qed.

(** A Rust text. *)
Definition textual (r : ChannelRelease) : Prop :=
  Forall (fun a => Forall (fun c => is_scalar c = true) (os a ++ arch a ++ url a)) (artifacts r).

Lemma textual_payload r : validate r = Ok tt -> textual r ->
  Forall (fun c => is_scalar c = true) (join NEWLINE (payload_lines r)).
Proof.
  intros Hr Ht. apply join_Forall; [done |]. unfold payload_lines. apply Forall_app. split.
  { eapply Forall_impl; [by apply header_words |]. by intros w (_ & _ & ?). }
  apply validate_spec in Hr as (_ & _ & _ & Ha). unfold sort_strs. rewrite sort_by_Permutation.
  apply Forall_fmap, Forall_forall. intros a Hin. unfold textual in Ht. rewrite Forall_forall in Ha, Ht.
  specialize (Ht a Hin). rewrite !Forall_app in Ht. destruct Ht as (Ho & Har & Hu).
  pose proof (validated_digest a (Ha a Hin)) as (_ & _ & Hs). simpl. unfold artifact_line.
  pose proof (show_N_word (size a)) as (_ & _ & Hn).
  repeat first [apply Forall_app; split | apply Forall_cons; split]; try done;
    by apply lower_Forall; [apply scalar_lower |].
Qed.

Lemma bind_single ws : Forall (fun w => NEWLINE ∉ w) ws -> ws ≫= split_on NEWLINE = ws.
Proof. induction 1 as [| w ws Hw _ IH]; [done |]. csimpl. by rewrite split_on_absent, IH. Qed.

Lemma served_release r r' : well_formed r -> validate r' = Ok tt -> textual r' ->
  as_bytes (signing_payload r) = as_bytes (signing_payload r') ->
  version r = version r' /\ epoch r = epoch r' /\ normalized_yanked r = normalized_yanked r' /\
  forall a, a ∈ artifacts r' -> one_word (os a) -> one_word (arch a) ->
    exists b, b ∈ artifacts r /\ bound b = bound (cut_url a).
Proof.
  intros Hr Hr' Ht He. change (signing_payload r) with (join NEWLINE (payload_lines r)) in He.
  change (signing_payload r') with (join NEWLINE (payload_lines r')) in He.
  pose proof (payload_lines_one_line r Hr) as Hl.
  assert (Forall (fun w => NEWLINE ∉ w) (payload_lines r)) as Hn
    by (eapply Forall_impl; [exact Hl |]; by intros ? [? _]).
  apply as_bytes_inj in He; [| |by apply textual_payload].
  2: { apply join_Forall; [done |]. eapply Forall_impl; [exact Hl |]. by intros ? [_ ?]. }
  apply (f_equal (split_on NEWLINE)) in He. rewrite split_on_join, split_on_join_gen in He by done.
  unfold payload_lines in He at 2. rewrite bind_app, bind_single in He.
  2: { eapply Forall_impl; [by apply header_words |]. by intros ? (_ & ? & _). }
  apply app_inj_1 in He as [Hh Hs]; [|done].
  apply header_inj in Hh as (Hv & Hep & Hy); [|apply Hr | done]. split_and!; try done.
  intros a Ha Ho Har. apply validate_spec in Hr' as (_ & _ & _ & Hva).
  unfold textual in Ht. rewrite Forall_forall in Hva, Ht.
  specialize (Ht a Ha). rewrite !Forall_app in Ht. destruct Ht as (_ & _ & Hu).
  destruct (cut_line a Ho Har (validated_digest a (Hva a Ha)) Hu) as [Hp Hin].
  assert (artifact_line (cut_url a) ∈ sort_strs (artifact_line <$> artifacts r)) as Hsigned.
  { rewrite Hs. apply list_elem_of_bind. exists (artifact_line a). split; [done |].
    rewrite elem_of_sort_strs. by apply list_elem_of_fmap_2. }
  rewrite elem_of_sort_strs in Hsigned. apply list_elem_of_fmap in Hsigned as (b & Hb & Hbin).
  exists b. split; [done |]. destruct Hr as [(_ & _ & _ & Hra)%validate_spec Hrp].
  rewrite Forall_forall in Hra, Hrp. apply artifact_line_inj; [by apply Hrp | done | | | done].
  - by apply validated_digest, Hra.
  - by apply (validated_digest a), Hva.
Qed.

End payload.


(** ** Staging *)

Lemma stem_part name : name <> [] -> stem (name ++ lit ".part") = name.
Proof.
  intros Hne. unfold stem. rewrite reverse_app.
  change (reverse (lit ".part")) with (lit "trap."). simpl.
  rewrite bool_decide_eq_false_2.
  - rewrite length_app. simpl. replace (length name + 5 - 5) with (length name) by lia. apply take_app_length.
  - rewrite length_app. simpl. destruct name; simpl; [done | lia].
Qed.

Lemma file_name_of_nonempty u : file_name_of u <> [].
Proof.
  unfold file_name_of. case_match eqn:Hc; [done |]. apply orb_false_iff in Hc as [Hc _].
  by apply bool_decide_eq_false in Hc.
Qed.

(** Where an artifact is staged, and where it is written until it is known to be it. *)
Definition staged_path (dir : Path) (a : Artifact) : Path := dir ++ [file_name_of (url a)].
Definition part_path (dir : Path) (a : Artifact) : Path :=
  dir ++ [file_name_of (url a) ++ lit ".part"].

Lemma without_part dir a : without_extension (part_path dir a) = staged_path dir a.
Proof.
  unfold without_extension, part_path, staged_path, with_file_name.
  by rewrite last_snoc, stem_part, parent_snoc by apply file_name_of_nonempty.
Qed.

Lemma part_not_staged dir a : part_path dir a <> staged_path dir a.
Proof.
  unfold part_path, staged_path. intros [_ [= He]]%app_inj_2; [|done].
  apply (f_equal length) in He. rewrite length_app in He. simpl in He. lia.
Qed.

Section staging.
Context `{Externs, Semver, !Crypto, !ManifestCodec, !StateCodec, !Http}.

(** Bytes that are what the manifest promised. *)
Definition genuine (a : Artifact) (content : Bytes) : Prop :=
  sha256_hex content = lower (sha256 a) /\ N.of_nat (length content) = size a.

Definition at_staged (dir : Path) (a : Artifact) (P : option Node -> Prop) : Assert :=
  fun n => P (n !! staged_path dir a).

(** A writer that hashed what it wrote. *)
Definition writing (dir : Path) (a : Artifact) (most : N) (w : StagingWriter) : Prop :=
  part w = part_path dir a /\ artifact w = a /\ limit w = most /\
  written w = N.of_nat (length (hasher w)) /\ (written w <= most)%N.

Lemma apart_staged dir a P : apart (eq (part_path dir a)) (at_staged dir a P).
Proof. apply apart_lookup. apply part_not_staged. Qed.

Lemma spec_at_path {A : Type} p (P : Assert) (m : M IoError A) (Q : Post A) (X C : Assert) :
  spec P m Q (fun _ => X) C -> spec P (at_path p m) Q (fun _ => X) C.
Proof. apply (spec_map_err _ (io_error p) _ Q (fun _ => X)). Qed.

Lemma spec_writer_create dir a most P :
  spec (at_staged dir a P) (writer_create dir a most)
    (fun w n => writing dir a most w /\ file (part w) (hasher w) n /\ at_staged dir a P n)
    (fun _ => at_staged dir a P) (at_staged dir a P).
Proof.
  unfold writer_create. eapply spec_bind.
  - eapply spec_at_path, (spec_apart (fun q => under q dir)); [auto with disk |].
    apply apart_lookup, snoc_not_under.
  - intros []. fold (part_path dir a). eapply spec_bind.
    + eapply spec_at_path, spec_pre; [eapply (spec_scratch (eq (part_path dir a)));
        [auto with disk | apply apart_staged | apply spec_create] |]. done.
    + intros []. eapply spec_pre; [apply spec_ret |]. intros n [Hf Hs].
      split; [|by split]. split_and!; try done. simpl. lia.
Qed.

Lemma spec_writer_write dir a most P w chunk : writing dir a most w ->
  spec (fun n => file (part w) (hasher w) n /\ at_staged dir a P n) (writer_write w chunk)
    (fun w' n => writing dir a most w' /\ file (part w') (hasher w') n /\ at_staged dir a P n)
    (fun _ => at_staged dir a P) (at_staged dir a P).
Proof.
  intros (Hp & Ha & Hl & Hw & Hm). unfold writer_write.
  assert (apart (eq (part w)) (at_staged dir a P)) as Hapart by (rewrite Hp; apply apart_staged).
  destruct (_ <? _)%N eqn:Hlim.
  - eapply spec_pre; [apply (spec_ignore_fail (eq (part w))); [auto with disk | done] |]. by intros n [_ ?].
  - eapply spec_bind.
    + eapply spec_at_path, (spec_scratch (eq (part w))); [auto with disk | done | apply spec_write_all].
    + intros []. eapply spec_pre; [apply spec_ret |]. intros n [Hf Hs]. apply N.ltb_ge in Hlim.
      split; [|by split]. split_and!; simpl; try done; [|by rewrite <- Hl].
      by rewrite length_app, Nat2N.inj_add, Hw.
Qed.

Lemma spec_receive dir a most P u chunks w : writing dir a most w ->
  spec (fun n => file (part w) (hasher w) n /\ at_staged dir a P n) (receive u w chunks)
    (fun w' n => writing dir a most w' /\ file (part w') (hasher w') n /\ at_staged dir a P n)
    (fun _ => at_staged dir a P) (at_staged dir a P).
Proof.
  revert w. induction chunks as [| [chunk | reason] chunks IH]; intros w Hw; simpl.
  - eapply spec_pre; [apply spec_ret |]. by intros n [? ?].
  - eapply spec_bind; [by apply spec_writer_write |]. intros w' d (Hw' & Hd). by apply IH.
  - eapply spec_pre; [apply (spec_failure _ _ (fun _ => at_staged dir a P)) |]. by intros n [_ ?].
Qed.

(** What is under the published name when the staging is over: what was there, or the
    artifact. *)
Definition old_or_genuine (dir : Path) (a : Artifact) (before : option Node) : Assert :=
  at_staged dir a (fun node => node = before \/
    exists content x, node = Some (NFile content x) /\ genuine a content).

Lemma spec_finish dir a most before w : writing dir a most w ->
  spec (fun n => file (part w) (hasher w) n /\ at_staged dir a (eq before) n) (finish w)
    (fun s n => path s = staged_path dir a /\ staged_artifact s = a /\ digest s = lower (sha256 a) /\
       exists content, n !! staged_path dir a = Some (NFile content true) /\ genuine a content /\
         (N.of_nat (length content) <= most)%N)
    (fun _ => old_or_genuine dir a before) (old_or_genuine dir a before).
Proof.
  intros (Hp & Ha & Hl & Hw & Hm). unfold finish.
  assert (forall e, spec (fun n => file (part w) (hasher w) n /\ at_staged dir a (eq before) n)
    (ignore (remove_file (part w)) ≫= fun _ => fail e : M UpdateError StagedArtifact)
    (fun _ _ => False) (fun _ => old_or_genuine dir a before) (old_or_genuine dir a before)) as Hdrop.
  { intros e. eapply spec_pre; [apply (spec_ignore_fail (eq (part w))); [auto with disk |] |].
    - rewrite Hp. apply apart_staged.
    - intros n [_ Hb]. unfold old_or_genuine, at_staged in *. by left. }
  destruct (negb _) eqn:Hsize; [by eapply spec_weaken; [apply Hdrop |..] |].
  destruct (negb (bool_decide (_ = lower _))) eqn:Hdigest; [by eapply spec_weaken; [apply Hdrop |..] |].
  apply negb_false_iff in Hsize, Hdigest. apply N.eqb_eq in Hsize. apply bool_decide_eq_true in Hdigest.
  assert (genuine a (hasher w)) as Hgen by (rewrite <- Ha; split; [done | congruence]).
  rewrite Hp, without_part. apply (spec_bind _ _ _ (fun _ => file (staged_path dir a) (hasher w))).
  - apply spec_at_path. eapply spec_weaken;
      [apply (spec_rename (part_path dir a) (staged_path dir a) before (hasher w)), part_not_staged | ..].
    + intros n [Hf Hb]. by split.
    + by intros _ n [_ Hf].
    + intros e n [_ Hb]. by left.
    + intros n [[_ Hb] | [_ [x Hx]]]; [by left | right; by eauto].
  - intros _. apply (spec_bind _ _ _ (fun _ n => n !! staged_path dir a = Some (NFile (hasher w) true))).
    + apply spec_at_path. eapply spec_weaken; [apply (spec_make_executable (staged_path dir a) (hasher w)) | ..].
      * done.
      * done.
      * intros e n [x Hx]. right. by eauto.
      * intros n [x Hx]. right. by eauto.
    + intros _. eapply spec_pre; [apply spec_ret |]. intros n Hn. simpl. split_and!; try done.
      { apply Hgen. }
      exists (hasher w). split; [done |]. split; [done |]. by rewrite <- Hw.
Qed.

Lemma spec_download c u dir before :
  spec (at_staged dir (up_artifact u) (eq before)) (download c u dir)
    (fun s n => path s = staged_path dir (up_artifact u) /\ staged_artifact s = up_artifact u /\
       digest s = lower (sha256 (up_artifact u)) /\
       exists content, n !! staged_path dir (up_artifact u) = Some (NFile content true) /\
         genuine (up_artifact u) content /\ (N.of_nat (length content) <= max_artifact_bytes c)%N)
    (fun _ => old_or_genuine dir (up_artifact u) before) (old_or_genuine dir (up_artifact u) before).
Proof.
  assert (forall n, at_staged dir (up_artifact u) (eq before) n ->
    old_or_genuine dir (up_artifact u) before n) as Hold by (intros n Hn; by left).
  assert (forall e Q, spec (at_staged dir (up_artifact u) (eq before))
    (fail e : M UpdateError StagedArtifact) Q
    (fun _ => old_or_genuine dir (up_artifact u) before) (old_or_genuine dir (up_artifact u) before))
    as Hfail by (intros e Q d; apply Hold).
  unfold download. destruct (_ && _); [apply Hfail |].
  eapply spec_seq.
  { apply spec_at_path, (spec_apart (fun q => under q dir)); [auto with disk |].
    apply (apart_lookup _ _ (eq before)), snoc_not_under. }
  { intros e. apply Hold. }
  { apply Hold. }
  intros _u. destruct (http_chunks _) as [[status chunks] | reason]; [|apply Hfail].
  destruct (negb _); [apply Hfail |].
  eapply spec_seq; [apply spec_writer_create | intros e; apply Hold | apply Hold |].
  intros w. apply spec_pure. intros Hw.
  eapply spec_seq; [exact (spec_receive _ _ _ (eq before) _ _ _ Hw) | intros e; apply Hold | apply Hold |].
  intros w'. apply spec_pure. intros Hw'. by apply spec_finish.
Qed.

End staging.

(** ** The offer of a check *)

Section offer.
Context `{Externs, Semver, !Crypto, !ManifestCodec, !StateCodec, !Http} (LAWS : SemverLaws).

(** An offer of [c], on a platform, to an installation of [current] from [installed_epoch]. *)
Record sound_offer (c : UpdateConfig) (channel : Channel) (current : Version) (installed_epoch : N)
    (os_ arch_ : Str) (u : AvailableUpdate) (r : ChannelRelease) : Prop := {
  offer_served : exists m, fetch_manifest c = Ok m /\ get (channels m) channel = Some r;
  offer_valid : validate r = Ok tt;
  offer_signed : match public_key c with
                 | Some key => verified u = true /\ verify_signature r key = Ok tt
                 | None => verified u = false
                 end;
  offer_version : parse_version (version r) = Ok (up_version u) /\ up_epoch u = epoch r;
  offer_artifact : up_artifact u ∈ artifacts r /\ matches (up_artifact u) os_ arch_ = true /\
    validate_artifact (up_artifact u) = Ok tt;
  offer_exact : is_universal (up_artifact u) = true -> forall a, a ∈ artifacts r ->
    matches a os_ arch_ = true -> is_universal a = true;
  offer_other : up_version u <> current;
  offer_up : rollback u = false -> version_ltb current (up_version u) = true;
  offer_down : rollback u = true ->
    (installed_epoch < epoch r)%N \/ is_yanked r (show_version current) = true;
}.

Lemma artifact_for_spec r os_ arch_ a : artifact_for r os_ arch_ = Some a ->
  a ∈ artifacts r /\ matches a os_ arch_ = true /\
  (is_universal a = true -> forall b, b ∈ artifacts r -> matches b os_ arch_ = true -> is_universal b = true).
Proof.
  unfold artifact_for. set (cs := filter _ (artifacts r)).
  assert (forall b, b ∈ cs <-> matches b os_ arch_ = true /\ b ∈ artifacts r) as Hcs
    by (intros b; unfold cs; by rewrite list_elem_of_filter).
  destruct (head (filter _ cs)) as [b |] eqn:Hex.
  - intros [= <-]. apply head_Some_elem_of, list_elem_of_filter in Hex as [Hu Hb].
    apply Hcs in Hb as [? ?]. split_and!; try done. congruence.
  - intros Ha%head_Some_elem_of. apply Hcs in Ha as [? ?]. split_and!; try done.
    intros _ b Hb Hm. destruct (is_universal b) eqn:Hu; [done |].
    apply head_None in Hex. assert (b ∈ filter (fun a => is_universal a = false) cs) as Hin.
    { apply list_elem_of_filter. split; [done |]. by apply Hcs. }
    rewrite Hex in Hin. by apply not_elem_of_nil in Hin.
Qed.

Lemma check_offers c channel text installed_epoch os_ arch_ u :
  check c channel text installed_epoch os_ arch_ = Ok (Available u) ->
  exists current r, parse_version text = Ok current /\
    sound_offer c channel current installed_epoch os_ arch_ u r.
Proof.
  unfold check. destruct (negb _); [done |].
  destruct (parse_version text) as [current | e]; [|done].
  destruct (fetch_manifest c) as [m | e] eqn:Hm; [|done].
  unfold release. destruct (get (channels m) channel) as [r |] eqn:Hr; [|done].
  destruct (validate r) as [[] | e] eqn:Hv; [|done]. simpl.
  unfold release_is_signed.
  destruct (match public_key c with Some _ => _ | None => _ end) as [signed | e] eqn:Hs; [|done].
  unfold decide_update. destruct (parse_version (version r)) as [latest | e] eqn:Hl; [|done].
  case_bool_decide as Hne; [done |]. destruct (negb _) eqn:Hwhy; [done |].
  destruct (artifact_for r os_ arch_) as [a |] eqn:Ha; [|done]. intros [= <-].
  apply artifact_for_spec in Ha as (Hin & Hmat & Hexact).
  exists current, r. split; [done |]. split; simpl; try done.
  - by exists m.
  - destruct (public_key c) as [key |]; [|by injection Hs].
    destruct (verify_signature r key) as [[] | e]; [|done]. by injection Hs.
  - split_and!; try done. apply validate_spec in Hv as (_ & _ & _ & Hv). rewrite Forall_forall in Hv. by apply Hv.
  - intros Hroll. rewrite (ltb_total LAWS) by congruence. by rewrite Hroll.
  - intros Hroll. apply negb_false_iff in Hwhy. rewrite (ltb_total LAWS current latest), Hroll in Hwhy by congruence.
    simpl in Hwhy. rewrite orb_false_r, orb_true_iff, N.ltb_lt in Hwhy. exact Hwhy.
Qed.

Lemma one_word_unlower s : one_word (lower s) -> one_word s.
Proof.
  assert (forall c, c ∈ s -> to_ascii_lowercase c ∈ lower s) as Hin
    by (intros; by apply list_elem_of_fmap_2).
  intros (Hs & Hn & Hc). rewrite Forall_forall in Hc. apply one_word_intro.
  - by intros Hsp%Hin.
  - by intros Hnl%Hin.
  - apply Forall_forall. intros c Hcin%Hin%Hc. revert Hcin. rewrite !is_scalar_spec.
    unfold to_ascii_lowercase, is_ascii_uppercase.
    destruct (65 <=? c)%N eqn:?, (c <=? 90)%N eqn:?; simpl; try done. rewrite ?N.leb_le in *. lia.
Qed.

Lemma matches_words a os_ arch_ : one_word os_ -> one_word arch_ -> matches a os_ arch_ = true ->
  one_word (os a) /\ one_word (arch a).
Proof.
  intros Ho Ha. unfold matches, eq_ignore_ascii_case. rewrite andb_true_iff, orb_true_iff, !bool_decide_eq_true.
  intros [Heo Hea]. split; apply one_word_unlower; [rewrite Heo; by apply one_word_lower |].
  destruct Hea as [-> | ->]; [by apply one_word_lower |]. by apply ascii_word, (bool_decide_unpack _).
Qed.

(** ** From the signer to the disk *)

(** The bytes of an artifact of a release that was signed. *)
Definition signed_file (signed : list ChannelRelease) (os_ arch_ : Str) (u : AvailableUpdate)
    (node : option Node) : Prop :=
  exists r b content x, r ∈ signed /\ b ∈ artifacts r /\ matches b os_ arch_ = true /\
    parse_version (version r) = Ok (up_version u) /\ epoch r = up_epoch u /\
    node = Some (NFile content x) /\ genuine b content.

Lemma signed_artifact key_hex key signed c channel current installed_epoch os_ arch_ u r :
  (forall m s, ed25519_verify key m s = true ->
     exists r, r ∈ signed /\ m = as_bytes (signing_payload r)) ->
  Forall well_formed signed -> public_key c = Some key_hex -> hex_decode (trim key_hex) = Some key ->
  textual r -> one_word os_ -> one_word arch_ ->
  sound_offer c channel current installed_epoch os_ arch_ u r ->
  forall content x, genuine (up_artifact u) content ->
    signed_file signed os_ arch_ u (Some (NFile content x)).
Proof.
  intros Hun Hsig Hkey Hhex Ht Ho Ha [_ Hv Hs [Hver Hep] (Hin & Hm & _) _ _ _ _] content x [Hd Hsz].
  rewrite Hkey in Hs. destruct Hs as [_ Hs]. unfold verify_signature in Hs.
  destruct (signature r) as [sg |]; [|done]. rewrite Hhex in Hs.
  destruct (hex_decode (trim sg)) as [sb |]; [|done].
  destruct (ed25519_verify key _ sb) eqn:Hed; [|done].
  apply Hun in Hed as (r0 & Hr0 & He). rewrite Forall_forall in Hsig.
  destruct (served_release LAWS r0 r (Hsig r0 Hr0) Hv Ht (eq_sym He)) as (Hv0 & He0 & _ & Hart).
  destruct (matches_words _ os_ arch_ Ho Ha Hm) as [Hwo Hwa].
  destruct (Hart _ Hin Hwo Hwa) as (b & Hb & [= Hbo Hba Hbs Hbz _]).
  exists r0, b, content, x. split_and!; try done.
  - unfold matches, eq_ignore_ascii_case in *. by rewrite Hbo, Hba.
  - by rewrite Hv0.
  - congruence.
  - unfold genuine. split; simpl in *; congruence.
Qed.

End offer.

(** ** A concrete release host *)

Module Demo.

(** Versions of numbers, as [1.2.3]. *)
Definition dotted (s : Str) : option (list N) :=
  if forallb semver_char s && negb (bool_decide (s = [])) then
    mapM (parse_unsigned u64_max) (split_on 46 s)
  else None.
#[export] Instance semver : Semver :=
  {| Version := list N; parse_semver := dotted; show_version v := join 46 ((fun n => [48 + n]%N) <$> v);
     version_ltb v w := negb (str_leb w v) |}.

Lemma laws : SemverLaws.
Proof.
  split.
  - intros s v. simpl. unfold dotted. destruct (forallb semver_char s) eqn:Hs; [|done].
    case_bool_decide as Hne; [done |]. intros _. split; [done |]. apply Forall_forall. intros c Hc.
    rewrite forallb_forall in Hs. by apply Hs, list_elem_of_In.
  - intros v. simpl. induction v as [| a v IH]; intros [| b w] Hne; simpl; try done.
    destruct (N.ltb_spec a b), (N.ltb_spec b a), (N.eqb_spec a b), (N.eqb_spec b a); simpl; try lia; try done.
    apply IH. congruence.
Qed.

#[export] Existing Instance demo_externs.

Definition bytes : Bytes := [1; 2; 3]%N.
Definition digest_hex : Str := replicate 64 97%N.
Definition release (v : string) (epoch : N) : ChannelRelease :=
  mkChannelRelease (lit v) epoch [lit "v0.1.9"] None None
    [mkArtifact (lit "macos") (lit "universal") (lit "https://goble.dev/G.dmg") digest_hex 3;
     mkArtifact (lit "Linux") (lit "x86_64") (lit "https://goble.dev/G.AppImage?v=2") digest_hex 3]
    (Some (lit "00")).

#[export] Instance crypto : Crypto :=
  {| hex_decode s := Some s;
     ed25519_verify key m s := bool_decide (m = as_bytes (signing_payload (release "0.3.0" 7)));
     sha256_hex b := replicate 64 (if bool_decide (b = bytes) then 97%N else 98%N) |}.

(** The host serves the release with its artifacts in the other order. *)
Definition served : ChannelRelease :=
  let r := release "0.3.0" 7 in
  mkChannelRelease (version r) (epoch r) (yanked r) None None (reverse (artifacts r)) (signature r).
#[export] Instance manifest_codec : ManifestCodec :=
  {| manifest_of_json _ := Ok (mkChannelManifest 2 (mkChannels (Some served) None None)) |}.
#[export] Instance state_codec : StateCodec :=
  {| state_of_json _ := Err []; state_to_json _ := Err [] |}.
#[export] Instance http : Http :=
  {| http_text _ := Ok (200%N, Ok []); http_chunks _ := Ok (200%N, [Ok [1]; Ok [2; 3]])%N |}.

Definition config : UpdateConfig := mkUpdateConfig (lit "https://goble.dev/m.json") (Some (lit "ab")) false 10.
Definition dir : Path := [lit "home"; lit "downloads"].
(** An empty disk on which every call works, and one on which the call [n] kills. *)
Definition disk : Disk := mkDisk ∅ (fun _ => Works) 0.
Definition dying (n : nat) : Disk :=
  mkDisk ∅ (fun k => if bool_decide (k = n) then Dies (Some 1) else Works) 0.
Definition update : AvailableUpdate :=
  mkAvailableUpdate Stable [0; 3; 0]%N 7 false false
    (mkArtifact (lit "Linux") (lit "x86_64") (lit "https://goble.dev/G.AppImage?v=2") digest_hex 3)
    None None true.
Lemma offered : check config Stable (lit "0.2.0") 6 (lit "linux") (lit "x86_64") = Ok (Available update).
Proof. reflexivity. Qed.

Definition staged_bytes (d : Disk) : option (option Node) :=
  let '(d', r) := download config update dir d in
  match r with
  | Done s => Some (nodes d' !! path s)
  | _ => None
  end.
Definition left_behind (d : Disk) : option Node :=
  nodes (download config update dir d).1 !! (dir ++ [lit "G.AppImage"]).

End Demo.

Section claims.
Context `{Externs, Semver, !Crypto, !ManifestCodec, !StateCodec, !Http} (LAWS : SemverLaws).

(** C10: what a client stages was signed.  With a public key whose signatures exist only for
    the releases of [signed], whatever the release host serves as the manifest and as the
    artifact, whichever file call fails and wherever the process dies: the file under the
    artifact's published name is what was there before, or the exact bytes (digest and
    size) of an artifact of a signed release, for this platform, with the offered version
    and epoch; and when the download succeeds it is the latter, executable, and within
    the size limit. *)
Theorem staged_bytes_were_signed c key_hex key signed channel text installed_epoch os_ arch_ u dir before
    (UNFORGED : forall m s, ed25519_verify key m s = true ->
       exists r, r ∈ signed /\ m = as_bytes (signing_payload r))
    (Hsigned : Forall well_formed signed)
    (Hkey : public_key c = Some key_hex) (Hhex : hex_decode (trim key_hex) = Some key)
    (TEXTUAL : forall m r, fetch_manifest c = Ok m -> get (channels m) channel = Some r -> textual r)
    (Hos : one_word os_) (Harch : one_word arch_)
    (Hoffer : check c channel text installed_epoch os_ arch_ = Ok (Available u)) :
  spec (at_staged dir (up_artifact u) (eq before)) (download c u dir)
    (fun s n => path s = staged_path dir (up_artifact u) /\
       signed_file signed os_ arch_ u (n !! path s) /\
       exists content, n !! path s = Some (NFile content true) /\
         (N.of_nat (length content) <= max_artifact_bytes c)%N)
    (fun _ => at_staged dir (up_artifact u) (fun node => node = before \/ signed_file signed os_ arch_ u node))
    (at_staged dir (up_artifact u) (fun node => node = before \/ signed_file signed os_ arch_ u node)).
Proof.
  destruct (check_offers LAWS _ _ _ _ _ _ _ Hoffer) as (current & r & _ & Hsound).
  assert (textual r) as Ht by (destruct Hsound as [(m & Hm & Hr) _ _ _ _ _ _ _ _]; by eapply TEXTUAL).
  pose proof (signed_artifact LAWS _ _ _ _ _ _ _ _ _ _ _ UNFORGED Hsigned Hkey Hhex Ht Hos Harch Hsound)
    as Hfile.
  assert (forall n, old_or_genuine dir (up_artifact u) before n -> at_staged dir (up_artifact u)
    (fun node => node = before \/ signed_file signed os_ arch_ u node) n) as Hold.
  { intros n [Hn | (content & x & Hn & Hg)]; [by left | right]. rewrite Hn. by apply Hfile. }
  eapply spec_weaken; [apply spec_download | done | | by intros e | done].
  intros s n (Hp & _ & _ & content & Hn & Hg & Hmax). rewrite Hp. split_and!; [done | | by eauto].
  rewrite Hn. by apply Hfile.
Qed.

(** C14: an offer is of a validated release of the channel, whose signature was checked when a
    key is configured; it is never the version that runs, it is a higher one unless it is
    marked as a rollback, and a rollback has a reason: the release's epoch is above the
    installed one or the running version is withdrawn.  Its artifact is one of the release,
    for this platform, and universal only when no exact one exists. *)
Theorem offered_update_is_sound c channel text installed_epoch os_ arch_ u
    (Hoffer : check c channel text installed_epoch os_ arch_ = Ok (Available u)) :
  exists current r, parse_version text = Ok current /\
    sound_offer c channel current installed_epoch os_ arch_ u r.
Proof. by apply check_offers. Qed.

End claims.

Section witness.
Import Demo.

Lemma demo_signed : well_formed (release "0.3.0" 7).
Proof.
  split; [vm_compute; reflexivity |].
  repeat constructor; by apply (bool_decide_unpack _).
Qed.

Lemma staged_bytes_were_signed_witness :
  staged_bytes disk = Some (Some (NFile [1; 2; 3]%N true)) /\ left_behind (dying 3) = None /\
  spec (at_staged dir (up_artifact update) (eq None)) (download config update dir)
    (fun s n => path s = staged_path dir (up_artifact update) /\
       signed_file [release "0.3.0" 7] (lit "linux") (lit "x86_64") update (n !! path s) /\
       exists content, n !! path s = Some (NFile content true) /\
         (N.of_nat (length content) <= max_artifact_bytes config)%N)
    (fun _ => at_staged dir (up_artifact update)
       (fun node => node = None \/ signed_file [release "0.3.0" 7] (lit "linux") (lit "x86_64") update node))
    (at_staged dir (up_artifact update)
       (fun node => node = None \/ signed_file [release "0.3.0" 7] (lit "linux") (lit "x86_64") update node)).
Proof.
  split; [reflexivity |]. split; [reflexivity |].
  apply (staged_bytes_were_signed laws config (lit "ab") (lit "ab") [release "0.3.0" 7] Stable (lit "0.2.0") 6).
  - intros m s Hm. apply bool_decide_eq_true in Hm. exists (release "0.3.0" 7). split; [by left | done].
  - constructor; [apply demo_signed | constructor].
  - reflexivity.
  - reflexivity.
  - intros m r Hm Hr. injection Hm as <-. injection Hr as <-. by repeat constructor.
  - by apply ascii_word, (bool_decide_unpack _).
  - by apply ascii_word, (bool_decide_unpack _).
  - apply offered.
Defined.

Lemma offered_update_is_sound_witness :
  exists current r, parse_version (lit "0.2.0") = Ok current /\
    sound_offer config Stable current 6 (lit "linux") (lit "x86_64") update r.
Proof. apply (offered_update_is_sound laws _ _ _ _ _ _ _ offered). Defined.
End witness.

(** A manifest older than a rollback undoes it: an installation taken back to 0.2.0 at epoch
    7 is offered 0.3.0 again by the copy of epoch 5, and not as a rollback. *)
Example stale_manifest_undoes_a_rollback :
  match decide_update (H := demo_externs) (H0 := Demo.semver) Stable (Demo.release "0.3.0" 5)
    [0; 2; 0]%N 7 (lit "linux") (lit "x86_64") true with
  | Ok (Available u) => (show_version (up_version u), up_epoch u, rollback u)
  | _ => ([], 0%N, true)
  end = (lit "0.3.0", 5%N, false).
Proof. reflexivity. Qed.
