(* ===== verification/UpdateInstall.v ===== *)
(** * UpdateInstall: putting an update in place, and taking it back

    [goble-update/src/install.rs] and [confirm_healthy] of [app/src/update.rs]: the plan for
    a platform, the backup, the pending and healthy markers, the swap of an AppImage, and
    the recovery a start makes.  The script that swaps a macOS bundle and the vendor's
    installer are other processes: that they were started is all the crate learns. *)

From S2P Require Import Prelude Bytes Text Sys Fields UpdateManifest UpdateClient.
Import Manifest State Client.

Module Install.

Inductive InstallError : Type :=
| WrongArtifact (name os : Str)
| InstallIo (path : Path) (reason : Str)
| SpawnFailed (program reason : Str)
| NoBackup (path : Path)
| Marker (path : Path) (reason : Str)
| StateFailed (reason : Str).

Definition state_failed (e : UpdateError) : InstallError := StateFailed (show_update_error e).
Definition install_io (p : Path) (e : IoError) : InstallError := InstallIo p (show_io e).
Definition at_ {A} (p : Path) (m : M IoError A) : M InstallError A := map_err (install_io p) m.

Record PendingInstall : Type := mkPendingInstall {
  p_version : Str;
  p_epoch : N;
  target : Path;
  previous : option Path;
  kind : Str;
}.
#[export] Instance PendingInstall_eq_dec : EqDecision PendingInstall.
Proof. solve_decision. Defined.
Definition for_appimage (version : Str) (epoch : N) (target : Path) : PendingInstall :=
  mkPendingInstall version epoch target None (lit "appimage").
Definition for_bundle (version : Str) (epoch : N) (target : Path) : PendingInstall :=
  mkPendingInstall version epoch target None (lit "app-bundle").
Definition with_previous (previous : option Path) (p : PendingInstall) : PendingInstall :=
  mkPendingInstall (p_version p) (p_epoch p) (target p) previous (kind p).

(** [serde_json] on the pending marker. *)
Class PendingCodec : Type := {
  pending_of_json : Str -> result Str PendingInstall;
  pending_to_json : PendingInstall -> result Str Str;
}.

(** Starting another process: the bundle's swap script for a disk image, a target and a
    team, and the vendor's installer. *)
Class Processes : Type := {
  spawn_swap_script : Path -> Path -> option Str -> result Str ();
  spawn_installer : Path -> list Str -> result Str ();
}.

Record InstallContext : Type := mkInstallContext {
  ctx_os : Str;
  current_exe : Path;
  appimage : option Path;
  macos_team_id : option Str;
}.

Inductive InstallPlan : Type :=
| ReplaceAppBundle (dmg target : Path) (team_id : option Str)
| ReplaceAppImage (staged target : Path)
| RunInstaller (installer : Path)
| Manual (command hint : Str).

Definition description (p : InstallPlan) : Str :=
  match p with
  | ReplaceAppBundle _ t _ | ReplaceAppImage _ t => lit "Replace " ++ show_path t ++ lit " and restart"
  | RunInstaller i => lit "Run the installer " ++ show_path i ++ lit " and restart"
  | Manual command hint => lit "Run `" ++ command ++ lit "` to update. " ++ hint
  end.
Definition needs_restart (p : InstallPlan) : bool :=
  match p with Manual _ _ => false | _ => true end.

Inductive InstallOutcome : Type :=
| Applied (restart_required : bool)
| NeedsUser (command hint : Str).

Inductive LocalRollback : Type :=
| NoRollback
| Restored (failed_version : Str) (failed_epoch : N) (target : Path)
| NothingToRestore (failed_version : Str) (failed_epoch : N).

Definition restart_required (r : LocalRollback) : bool :=
  match r with Restored _ _ _ => true | _ => false end.
Definition message (r : LocalRollback) : option Str :=
  match r with
  | NoRollback => None
  | Restored v _ _ =>
      Some (lit "Goble " ++ v ++ lit " did not start cleanly, so the previous version was restored")
  | NothingToRestore v _ =>
      Some (lit "Goble " ++ v
            ++ lit " did not start cleanly, and there was no previous copy to restore")
  end.

(** [UpdatePaths]: the directory [updates] of the goble home. *)
Definition paths_under (home : Path) : Path := home ++ [lit "updates"].
Definition downloads_dir (root : Path) : Path := root ++ [lit "downloads"].
Definition previous_dir (root : Path) : Path := root ++ [lit "previous"].
Definition pending_path (root : Path) : Path := root ++ [lit "pending"].
Definition healthy_path (root : Path) : Path := root ++ [lit "healthy"].
Definition state_path (root : Path) : Path := path_in (parent root).

Record InstallRequest : Type := mkInstallRequest {
  paths : Path;
  r_version : Str;
  r_epoch : N;
}.

(** ** Files *)

Definition write_atomic (p : Path) (bytes : Bytes) : M InstallError () :=
  let temporary := push_suffix p (lit ".tmp") in
  at_ temporary (write temporary bytes) ≫= fun _ => at_ p (rename temporary p).

(** The loop of [copy_tree] over a directory's entries, [tree] copying a directory. *)
Fixpoint copy_entries (tree : Path -> Path -> M InstallError ()) (from to : Path) (entries : list Str) :
  M InstallError () :=
  match entries with
  | [] => mret tt
  | name :: entries' =>
      is_dir (from ++ [name]) ≫= fun (dir : bool) =>
      (if dir then tree (from ++ [name]) (to ++ [name])
       else at_ (from ++ [name]) (copy (from ++ [name]) (to ++ [name]))) ≫= fun _ =>
      copy_entries tree from to entries'
  end.

(** Directories nest no deeper than the names of the disk are long ([deepest]). *)
Fixpoint copy_tree_ (fuel : nat) (from to : Path) {struct fuel} : M InstallError () :=
  match fuel with
  | O => fail (InstallIo from (lit "too deep"))
  | S fuel =>
      at_ to (create_dir_all to) ≫= fun _ =>
      at_ from (read_dir from) ≫= fun entries =>
      copy_entries (copy_tree_ fuel) from to entries
  end.
Definition deepest (m : Nodes) : nat := foldr (fun p n => length p `max` n) 0 (map_to_list m).*1.
Definition copy_tree (from to : Path) : M InstallError () := fun d =>
  copy_tree_ (S (S (deepest (nodes d)))) from to d.

Definition replace_file (staged target : Path) : M InstallError () :=
  r ← attempt (rename staged target);
  match r with
  | Ok _ => at_ target (make_executable target)
  | Err _ =>
      let temporary := push_suffix target (lit ".new") in
      at_ temporary (copy staged temporary) ≫= fun _ =>
      at_ temporary (make_executable temporary) ≫= fun _ =>
      at_ target (rename temporary target) ≫= fun _ =>
      ignore (remove_file staged)
  end.

Definition restore (previous target : Path) : M InstallError () :=
  match file_name target with
  | None => fail (NoBackup target)
  | Some name =>
      let failed := with_file_name target (name ++ lit ".failed") in
      is_dir previous ≫= fun (dir : bool) =>
      if dir then
        ignore (remove_dir_all failed) ≫= fun _ =>
        path_exists target ≫= fun (there : bool) =>
        (if there then at_ target (rename target failed) else mret tt) ≫= fun _ =>
        copy_tree previous target ≫= fun _ =>
        ignore (remove_dir_all failed)
      else
        let staged := push_suffix target (lit ".rollback") in
        at_ staged (copy previous staged) ≫= fun _ =>
        at_ staged (make_executable staged) ≫= fun _ =>
        at_ target (rename staged target)
  end.

Section install.
Context `{Externs, Semver, !StateCodec, !PendingCodec, !Processes, CharCase}.

(** ** Planning *)

(** [bundle_root]: the nearest of the path and what is above it that ends in [.app]. *)
Definition bundle_root (exe : Path) : option Path :=
  find (fun p => bool_decide (extension p = Some (lit "app"))) (reverse ([] :: ancestors_of exe)).

Definition quoted (p : Path) : Str := lit "'" ++ show_path p ++ lit "'".

Definition package_manager_plan (staged : Path) (ext : option Str) : InstallPlan :=
  let owned := lit "The system package manager owns this installation, so it stays in charge of it." in
  if bool_decide (ext = Some (lit "deb")) then Manual (lit "sudo apt install " ++ quoted staged) owned
  else if bool_decide (ext = Some (lit "rpm")) then Manual (lit "sudo dnf install " ++ quoted staged) owned
  else if bool_decide (ext = Some (lit "appimage")) then
    Manual (lit "chmod +x " ++ quoted staged ++ lit " && ./'" ++ default [] (file_name staged) ++ lit "'")
      (lit "This copy is not running as an AppImage, so it cannot replace itself.")
  else Manual (lit "open " ++ quoted staged) (lit "Install this archive by hand.").

(** [plan_install] never fails: a platform it does not know is left to the user. *)
Definition plan_install (context : InstallContext) (staged : StagedArtifact) : InstallPlan :=
  let staged_path := path staged in
  let ext := (fun e => e ≫= to_lowercase) <$> extension staged_path in
  if bool_decide (ctx_os context = lit "macos") && bool_decide (ext = Some (lit "dmg")) then
    match bundle_root (current_exe context) with
    | Some t => ReplaceAppBundle staged_path t (macos_team_id context)
    | None =>
        Manual (lit "open " ++ quoted staged_path)
          (lit "This copy is not inside a Goble.app bundle, so it cannot replace itself; drag the app out of the disk image.")
    end
  else if bool_decide (ctx_os context = lit "linux") then
    match appimage context with
    | Some t => ReplaceAppImage staged_path t
    | None => package_manager_plan staged_path ext
    end
  else if bool_decide (ctx_os context = lit "windows")
          && bool_decide (ext = Some (lit "exe") \/ ext = Some (lit "msi")) then
    RunInstaller staged_path
  else
    Manual (lit "open " ++ quoted staged_path)
      (lit "Install " ++ staged_file_name staged
       ++ lit " by hand; this build cannot replace itself on " ++ ctx_os context ++ lit ".").

(** ** Markers *)

Definition is_healthy (root : Path) : M InstallError bool := is_file (healthy_path root).

Definition pending (root : Path) : M InstallError (option PendingInstall) :=
  let p := pending_path root in
  r ← attempt (read_to_string p);
  match r with
  | Ok text =>
      match pending_of_json text with
      | Ok pend => mret (Some pend)
      | Err reason => fail (Marker p reason)
      end
  | Err NotFound => mret None
  | Err e => fail (Marker p (show_io e))
  end.

Definition write_pending (root : Path) (pend : PendingInstall) : M InstallError () :=
  at_ root (create_dir_all root) ≫= fun _ =>
  let p := pending_path root in
  match pending_to_json pend with
  | Err reason => fail (Marker p reason)
  | Ok text => write_atomic p (as_bytes text ++ [NEWLINE])
  end.

(** [remove_file], where a file that is gone already is as good. *)
Definition remove_if_there (p : Path) : M InstallError () :=
  r ← attempt (remove_file p);
  match r with
  | Ok _ | Err NotFound => mret tt
  | Err e => fail (install_io p e)
  end.

Definition mark_healthy (root : Path) (now : Str) : M InstallError (option PendingInstall) :=
  at_ root (create_dir_all root) ≫= fun _ =>
  write_atomic (healthy_path root) (as_bytes (now ++ [NEWLINE])) ≫= fun _ =>
  pending root ≫= fun pend =>
  (if bool_decide (is_Some pend) then remove_if_there (pending_path root) else mret tt) ≫= fun _ =>
  mret pend.

Definition backup (root target : Path) : M InstallError Path :=
  match file_name target with
  | None => fail (NoBackup target)
  | Some name =>
      at_ (previous_dir root) (create_dir_all (previous_dir root)) ≫= fun _ =>
      let destination := previous_dir root ++ [name] in
      if bool_decide (destination = target) then mret destination
      else
        attempt (remove_dir_all destination) ≫= fun r =>
        match r with
        | Ok _ | Err NotFound => mret tt
        | Err _ => ignore (remove_file destination)
        end ≫= fun _ =>
        is_dir target ≫= fun (dir : bool) =>
        (if dir then copy_tree target destination
         else
           is_file target ≫= fun (file : bool) =>
           if file then at_ target (copy target destination) else fail (NoBackup target)) ≫= fun _ =>
        path_exists destination ≫= fun (there : bool) =>
        if there then mret destination else fail (NoBackup target)
  end.

Definition record_failure (root : Path) (pend : PendingInstall) : M InstallError () :=
  let p := state_path root in
  map_err state_failed (load p) ≫= fun s =>
  map_err state_failed (save (record_failed (p_version pend) (p_epoch pend) s) p).

Definition recover (root : Path) : M InstallError LocalRollback :=
  pending root ≫= fun pend =>
  match pend with
  | None => mret NoRollback
  | Some pend =>
      is_healthy root ≫= fun (healthy : bool) =>
      if healthy then ignore (remove_file (pending_path root)) ≫= fun _ => mret NoRollback
      else
        match previous pend with
        | None => mret None
        | Some p => path_exists p ≫= fun (there : bool) => mret (if there then Some p else None)
        end ≫= fun copy_of =>
        match copy_of with
        | None =>
            record_failure root pend ≫= fun _ =>
            ignore (remove_file (pending_path root)) ≫= fun _ =>
            mret (NothingToRestore (p_version pend) (p_epoch pend))
        | Some p =>
            restore p (target pend) ≫= fun _ =>
            ignore (remove_file (healthy_path root)) ≫= fun _ =>
            ignore (remove_file (pending_path root)) ≫= fun _ =>
            record_failure root pend ≫= fun _ =>
            mret (Restored (p_version pend) (p_epoch pend) (target pend))
        end
  end.

(** ** Applying *)

Definition WINDOWS_SILENT_FLAGS : list Str :=
  [lit "/SILENT"; lit "/NORESTART"; lit "/NOCLOSEAPPLICATIONS"; lit "/update=1"].

Definition apply (plan : InstallPlan) (request : InstallRequest) : M InstallError InstallOutcome :=
  match plan with
  | ReplaceAppImage staged target =>
      backup (paths request) target ≫= fun previous =>
      write_pending (paths request)
        (with_previous (Some previous) (for_appimage (r_version request) (r_epoch request) target)) ≫= fun _ =>
      attempt (replace_file staged target) ≫= fun r =>
      match r with
      | Err err => ignore (remove_file (pending_path (paths request))) ≫= fun _ => fail err
      | Ok _ => mret (Applied true)
      end
  | RunInstaller installer =>
      let flags := WINDOWS_SILENT_FLAGS ++ [lit "/DIR=" ++ show_path (parent installer)] in
      match spawn_installer installer flags with
      | Err reason => fail (SpawnFailed (show_path installer) reason)
      | Ok _ => mret (Applied true)
      end
  | ReplaceAppBundle dmg target team_id =>
      backup (paths request) target ≫= fun previous =>
      write_pending (paths request)
        (with_previous (Some previous) (for_bundle (r_version request) (r_epoch request) target)) ≫= fun _ =>
      match spawn_swap_script dmg target team_id with
      | Err reason => fail (SpawnFailed (lit "/bin/sh") reason)
      | Ok _ => mret (Applied true)
      end
  | Manual command hint => mret (NeedsUser command hint)
  end.

(** [confirm_healthy] of the application: the version the marker confirms, if any. *)
Definition confirm_healthy (root state : Path) (running_version now : Str) : M InstallError (option Str) :=
  mark_healthy root now ≫= fun pend =>
  map_err state_failed (load state) ≫= fun s =>
  let '(s', confirmed) :=
    match pend with
    | Some p => (confirm_install (p_version p) (p_epoch p) s, Some (p_version p))
    | None =>
        (if bool_decide (installed_version s = None) then confirm_install running_version 0 s else s, None)
    end in
  map_err state_failed (save s' state) ≫= fun _ => mret confirmed.

End install.
End Install.
