(* ===== verification/UpdateInstallProps.v ===== *)
(** * UpdateInstallProps: an update that can be taken back

    The swap of an AppImage and the recovery at a start, on a disk whose calls fail and
    under a process that dies: the target is at every moment the old file or the new one,
    and recovering, however often it is interrupted, ends with the old one. *)

From S2P Require Import Prelude Bytes Text Sys Fields UpdateManifest UpdateClient UpdateInstall.
Import Manifest State Client Install.

(** ** Where things are *)

(** The target [dir/name] lies outside [home/updates], no file named after it is that
    directory or above it, and it is not the state file. *)
Record placed (home dir : Path) (name : Str) : Prop := {
  outside : ~ under (paths_under home) (dir ++ [name]);
  not_above : forall suffix, ~ under (dir ++ [name ++ suffix]) (paths_under home);
  not_state : ~ under (path_in home) (dir ++ [name]);
  not_state_tmp : ~ under (push_suffix (path_in home) (lit ".tmp")) (dir ++ [name]);
}.

Lemma prefixes_comparable (p q r : Path) : under p r -> under q r -> under p q \/ under q p.
Proof. intros Hp Hq. destruct (prefix_weak_total p q r Hp Hq); auto. Qed.

Lemma under_snoc (p q : Path) x : under p (q ++ [x]) -> p = q ++ [x] \/ under p q.
Proof.
  intros [k Hk]. destruct (decide (k = [])) as [-> | Hn]; [left; by rewrite app_nil_r in Hk |].
  destruct (exists_last Hn) as (k' & y & ->). rewrite app_assoc in Hk. apply app_inj_2 in Hk as [Hk _]; [|done].
  right. by exists k'.
Qed.

Lemma under_trans (p q r : Path) : under p q -> under q r -> under p r.
Proof. intros. by etrans. Qed.

Section places.
Context (home dir : Path) (name : Str) (PLACED : placed home dir name).

(** The target, a file named after it, and a path of the updater's, are strangers. *)
Lemma beside_outside suffix : ~ under (paths_under home) (dir ++ [name ++ suffix]).
Proof.
  intros [He | Hu]%under_snoc.
  - apply (not_above _ _ _ PLACED suffix). by rewrite He.
  - apply (outside _ _ _ PLACED). eapply under_trans; [exact Hu |]. by eexists.
Qed.

Lemma beside_not_over suffix q : under (paths_under home) q -> ~ under (dir ++ [name ++ suffix]) q.
Proof.
  intros Hq Hu. destruct (prefixes_comparable _ _ _ Hu Hq) as [Hc | Hc].
  - by apply (not_above _ _ _ PLACED suffix).
  - by apply (beside_outside suffix).
Qed.

Lemma beside_not_under suffix q : under (paths_under home) q -> ~ under q (dir ++ [name ++ suffix]).
Proof. intros Hq Hu. apply (beside_outside suffix). by eapply under_trans. Qed.

Lemma target_not_over q : under (paths_under home) q -> ~ under (dir ++ [name]) q.
Proof. intros Hq. pose proof (beside_not_over [] q Hq) as Hn. by rewrite app_nil_r in Hn. Qed.

Lemma target_not_under q : under (paths_under home) q -> ~ under q (dir ++ [name]).
Proof. intros Hq. pose proof (beside_not_under [] q Hq) as Hn. by rewrite app_nil_r in Hn. Qed.

Lemma target_not_above_home : ~ under (dir ++ [name]) home.
Proof.
  intros Hu. apply (target_not_over (paths_under home)); [done |]. eapply under_trans; [exact Hu |]. by eexists.
Qed.

Lemma suffix_not_target suffix : suffix <> [] -> dir ++ [name ++ suffix] <> dir ++ [name].
Proof.
  intros Hn [_ [= He]]%app_inj_2; [|done]. apply (f_equal length) in He. rewrite length_app in He.
  destruct suffix; [done | simpl in He; lia].
Qed.

Lemma suffix_not_under suffix : suffix <> [] -> ~ under (dir ++ [name ++ suffix]) (dir ++ [name]).
Proof.
  intros Hn [He | Hu]%under_snoc; [by apply (suffix_not_target suffix) |].
  by apply snoc_not_under in Hu.
Qed.
End places.

Lemma apart_file (F : Path -> Prop) p content : ~ F p -> apart F (file p content).
Proof. intros Hp n n' Hn [x Hx]. exists x. by rewrite Hn. Qed.

Lemma apart_node (F : Path -> Prop) p node : ~ F p -> apart F (fun n => n !! p = node).
Proof. intros Hp n n' Hn Hx. by rewrite Hn. Qed.

Lemma apart_or (F : Path -> Prop) (P Q : Assert) : apart F P -> apart F Q -> apart F (fun n => P n \/ Q n).
Proof. intros HP HQ n n' Hn [? | ?]; eauto. Qed.

Lemma spec_not_dir {E : Type} p (P : Assert) (X : Post E) (C : Assert) : p <> [] ->
  (forall n, P n -> exists c x, n !! p = Some (NFile c x)) ->
  spec P (is_dir p) (fun b n => b = false /\ P n) X C.
Proof.
  intros Hne Hf. eapply spec_weaken; [apply (spec_stat P _ X C) | done | | done | done].
  intros b n [-> Hn]. split; [|done]. destruct (Hf n Hn) as (c & x & Hx). unfold is_dir_at. rewrite Hx.
  by rewrite !bool_decide_eq_false_2.
Qed.

Lemma snoc_nonempty (p : Path) (x : Str) : p ++ [x] <> [].
Proof. by destruct p. Qed.

(** ** What each part touches *)

Lemma within_at {A} (F : Path -> Prop) p (m : M IoError A) : within F m -> within F (at_ p m).
Proof. apply within_map_err. Qed.

Lemma within_write_atomic p bytes :
  within (fun q => under (push_suffix p (lit ".tmp")) q \/ under p q) (write_atomic p bytes).
Proof.
  apply within_bind.
  - apply within_at. eapply within_eq; [apply within_write | by left].
  - intros _. apply within_at, within_rename.
Qed.

Definition copy_paths (to q : Path) : Prop := under q to \/ under to q.

Lemma copy_paths_snoc to name q : copy_paths (to ++ [name]) q -> copy_paths to q.
Proof.
  intros [[Hq | Hq]%under_snoc | Hq].
  - right. subst. by eexists.
  - by left.
  - right. eapply under_trans; [|exact Hq]. by eexists.
Qed.

Lemma within_copy_entries tree from to entries :
  (forall from' to', within (copy_paths to') (tree from' to')) ->
  within (copy_paths to) (copy_entries tree from to entries).
Proof.
  intros Ht. induction entries as [| e entries IHe]; [apply within_ret |].
  apply within_bind; [apply within_stat |]. intros b.
  apply within_bind; [|intros _; exact IHe]. destruct b.
  - eapply within_weaken; [apply Ht | apply copy_paths_snoc].
  - apply within_at. eapply within_eq; [apply within_copy | right; by eexists].
Qed.

Lemma within_copy_tree_ fuel from to : within (copy_paths to) (copy_tree_ fuel from to).
Proof.
  revert from to. induction fuel as [| fuel IH]; intros from to; simpl; [apply within_fail |].
  apply within_bind.
  { apply within_at. eapply within_weaken; [apply within_create_dir_all | by left]. }
  intros _. apply within_bind; [apply within_at, within_query |]. intros entries.
  by apply within_copy_entries.
Qed.

Lemma within_copy_tree from to : within (copy_paths to) (copy_tree from to).
Proof. intros d. apply within_copy_tree_. Qed.

(** *** The depth allowed to a copied tree is enough

    More levels change nothing: what is below a directory is named by longer paths, and none
    on the disk is longer than [deepest]. *)

(** The disk has the names of [n] below [from]. *)
Definition same_below (from : Path) (n n' : Nodes) : Prop := forall q, under from q -> n' !! q = n !! q.

Lemma within_below {E A : Type} from to (m : M E A) d : ~ under from to -> ~ under to from ->
  within (copy_paths to) m -> same_below from (nodes d) (nodes (m d).1).
Proof.
  intros Hft Htf Hm q Hq. apply Hm. intros [Hu | Hu].
  - apply Hft. by eapply under_trans.
  - destruct (prefixes_comparable _ _ _ Hq Hu); auto.
Qed.

Lemma copy_entries_agree tree tree' from to entries d d' : ~ under from to -> ~ under to from ->
  (forall from' to', within (copy_paths to') (tree from' to')) ->
  (forall name d', same_below from (nodes d) (nodes d') -> nodes d' !! (from ++ [name]) = Some NDir ->
     tree (from ++ [name]) (to ++ [name]) d' = tree' (from ++ [name]) (to ++ [name]) d') ->
  same_below from (nodes d) (nodes d') ->
  copy_entries tree from to entries d' = copy_entries tree' from to entries d'.
Proof.
  intros Hft Htf Hw Hag. revert d'. induction entries as [| e entries IH]; intros d' Hs; [done |]. cbn [copy_entries].
  unfold mbind, M_bind, is_dir, stat. destruct (is_dir_at (nodes d') (from ++ [e])) eqn:He.
  - assert (nodes d' !! (from ++ [e]) = Some NDir) as Hn.
    { unfold is_dir_at in He. rewrite bool_decide_eq_false_2 in He by apply snoc_nonempty.
      by apply bool_decide_eq_true in He. }
    rewrite <- (Hag e d' Hs Hn).
    pose proof (within_below from to (tree (from ++ [e]) (to ++ [e])) d' Hft Htf
      ltac:(eapply within_weaken; [apply Hw | apply copy_paths_snoc])) as Hb.
    destruct (tree _ _ d') as [d1 [[] | x |]]; [|done | done]. apply IH.
    intros q Hq. specialize (Hb q Hq). simpl in Hb. rewrite Hb. by apply Hs.
  - pose proof (within_below from to (at_ (from ++ [e]) (copy (from ++ [e]) (to ++ [e]))) d' Hft Htf
      ltac:(apply within_at; eapply within_eq; [apply within_copy | right; by eexists])) as Hb.
    destruct (at_ _ _ d') as [d1 [[] | x |]]; [|done | done]. apply IH.
    intros q Hq. specialize (Hb q Hq). simpl in Hb. rewrite Hb. by apply Hs.
Qed.

Lemma bind_agree {E A B : Type} (m : M E A) (k k' : A -> M E B) d :
  (forall a, (m d).2 = Done a -> k a (m d).1 = k' a (m d).1) -> (m ≫= k) d = (m ≫= k') d.
Proof.
  intros Hk. unfold mbind, M_bind. destruct (m d) as [d' [a | e |]]; [by apply Hk | done | done].
Qed.

Lemma snoc_apart (from to : Path) x y : ~ under from to -> ~ under to from -> ~ under (from ++ [x]) (to ++ [y]).
Proof.
  intros Hft Htf [He | Hu]%under_snoc.
  - apply app_inj_2 in He as [-> _]; [by apply Hft | done].
  - apply Hft. eapply under_trans; [|exact Hu]. by eexists.
Qed.

Lemma copy_tree_deeper fuel from to d : ~ under from to -> ~ under to from ->
  (forall q, is_Some (nodes d !! q) -> under from q -> length q < length from + S fuel) ->
  copy_tree_ (S fuel) from to d = copy_tree_ (S (S fuel)) from to d.
Proof.
  revert from to d. induction fuel as [| fuel IH]; intros from to d Hft Htf Hb;
    apply bind_agree; intros [] _;
    pose proof (within_below from to (at_ to (create_dir_all to)) d Hft Htf
      ltac:(apply within_at; eapply within_weaken; [apply within_create_dir_all | by left])) as Hs;
    set (d1 := (at_ to (create_dir_all to) d).1) in *;
    apply bind_agree; intros entries _;
    pose proof (within_below from to (at_ from (read_dir from)) d1 Hft Htf
      ltac:(apply within_at, within_query)) as Hs2;
    apply (copy_entries_agree _ _ from to entries d); try done;
    try apply within_copy_tree_; try (by intros q Hq; rewrite (Hs2 q Hq); apply Hs).
  - intros name d' Hd' Hn. exfalso.
    rewrite (Hd' (from ++ [name]) ltac:(by eexists)) in Hn.
    specialize (Hb (from ++ [name]) ltac:(by eexists) ltac:(by eexists)). rewrite length_app in Hb. simpl in Hb. lia.
  - exact (within_copy_tree_ (S fuel)).
  - intros name d' Hd' Hn. apply IH; [by apply snoc_apart | by apply snoc_apart |].
    intros q Hq Hu. assert (under from q) as Hfq by (eapply under_trans; [|exact Hu]; by eexists).
    rewrite (Hd' q Hfq) in Hq. specialize (Hb q Hq Hfq). rewrite length_app. simpl. lia.
Qed.

Lemma deepest_le (m : Nodes) q : is_Some (m !! q) -> length q <= deepest m.
Proof.
  intros [x Hx%elem_of_map_to_list]. unfold deepest.
  assert (q ∈ (map_to_list m).*1) as Hin by (apply list_elem_of_fmap; by exists (q, x)).
  clear Hx. induction (map_to_list m).*1 as [| p ps IH]; [by apply not_elem_of_nil in Hin |].
  simpl. apply elem_of_cons in Hin as [-> | Hin]; [lia |]. specialize (IH Hin). lia.
Qed.

(** Any greater depth copies the same. *)
Lemma copy_tree_enough from to d k : ~ under from to -> ~ under to from ->
  copy_tree_ (S (S (deepest (nodes d)) + k)) from to d = copy_tree from to d.
Proof.
  intros Hft Htf. induction k as [| k IH]; [by rewrite Nat.add_0_r |]. rewrite <- IH.
  replace (S (S (deepest (nodes d)) + S k)) with (S (S (S (deepest (nodes d)) + k))) by lia.
  symmetry. apply copy_tree_deeper; [done | done |].
  intros q Hq _. pose proof (deepest_le _ _ Hq). lia.
Qed.

Section install.
Context `{Externs, Semver, !StateCodec, !PendingCodec, !Processes, CharCase}.

Lemma within_load F p : within F (load p).
Proof.
  apply within_bind; [apply within_attempt, within_query |]. intros [text | []];
    [apply within_ret | apply within_ret | apply within_fail].
Qed.

Lemma within_save s p : within (fun q => under q (parent p) \/
  under (push_suffix p (lit ".tmp")) q \/ under p q) (save s p).
Proof.
  apply within_bind.
  { apply within_map_err. eapply within_weaken; [apply within_create_dir_all | tauto]. }
  intros _. destruct (state_to_json s) as [text | reason]; [|apply within_fail]. apply within_bind.
  - apply within_map_err. eapply within_eq; [apply within_write | right; by left].
  - intros _. apply within_map_err. eapply within_weaken; [apply within_rename | tauto].
Qed.

(** Recording a failure writes the state file. *)
Definition state_paths (home q : Path) : Prop :=
  under q home \/ under (push_suffix (path_in home) (lit ".tmp")) q \/ under (path_in home) q.

Lemma state_path_under home : state_path (paths_under home) = path_in home.
Proof. unfold state_path, paths_under. by rewrite parent_snoc. Qed.

Lemma within_record_failure home pend :
  within (state_paths home) (record_failure (paths_under home) pend).
Proof.
  unfold record_failure. rewrite state_path_under.
  apply within_bind; [apply within_map_err, within_load |].
  intros s. apply within_map_err. eapply within_weaken; [apply within_save |].
  unfold state_paths, path_in. rewrite parent_snoc. tauto.
Qed.

(** Where the copy of the target goes. *)
Definition copy_path (home : Path) (name : Str) : Path := previous_dir (paths_under home) ++ [name].

Section places.
Context (home dir : Path) (name : Str) (PLACED : placed home dir name).
Let root := paths_under home.
Let tgt := dir ++ [name].
Let cpy := copy_path home name.

Lemma root_under x : under root (root ++ x).
Proof. by eexists. Qed.
Lemma under_copy : under root cpy.
Proof. eapply under_trans; [apply (root_under [lit "previous"]) | by eexists]. Qed.

(** The updater's own files do not stand in each other's way. *)
Lemma own_apart (x y : Str) l : x <> y -> ~ under (root ++ [x]) (root ++ y :: l).
Proof. intros Hne [k Hk]. rewrite <- app_assoc in Hk. apply app_inv_head in Hk. simpl in Hk. congruence. Qed.

Lemma copy_own : cpy = root ++ [lit "previous"; name].
Proof. unfold cpy, copy_path, previous_dir. by rewrite <- app_assoc. Qed.

Lemma copy_not_own x : x <> lit "previous" -> ~ under (root ++ [x]) cpy.
Proof.
  intros Hne. unfold cpy, copy_path, previous_dir. rewrite <- app_assoc. by apply own_apart.
Qed.

Lemma copy_not_above x : ~ under cpy (root ++ [x]).
Proof.
  intros [k Hk]. apply (f_equal length) in Hk. unfold cpy, copy_path, previous_dir, root in Hk.
  rewrite !length_app in Hk. simpl in Hk. lia.
Qed.

Lemma not_state_paths : ~ state_paths home tgt.
Proof.
  intros [Hu | [Hu | Hu]].
  - by apply (target_not_above_home home dir name PLACED).
  - by apply (not_state_tmp _ _ _ PLACED).
  - by apply (not_state _ _ _ PLACED).
Qed.

Lemma own_not_state x l : ~ state_paths home (root ++ x :: l).
Proof.
  unfold state_paths, root, paths_under, path_in. rewrite push_suffix_snoc.
  intros [[k Hk] | [[k Hk] | [k Hk]]].
  - apply (f_equal length) in Hk. rewrite !length_app in Hk. simpl in Hk. lia.
  - rewrite <- !app_assoc in Hk. apply app_inv_head in Hk. by injection Hk.
  - rewrite <- !app_assoc in Hk. apply app_inv_head in Hk. by injection Hk.
Qed.

(** ** The backup *)

Lemma spec_at {A : Type} p (P : Assert) (m : M IoError A) (Q : Post A) (X C : Assert) :
  spec P m Q (fun _ => X) C -> spec P (at_ p m) Q (fun _ => X) C.
Proof. apply (spec_map_err _ (install_io p) _ Q (fun _ => X)). Qed.

Context (staged_name : Str) (old new : Bytes) (mode : bool) (healthy_node : option Node).
Let stg := downloads_dir root ++ [staged_name].

(** The old file in place, the new one staged. *)
Definition before_swap : Assert := fun n =>
  n !! tgt = Some (NFile old mode) /\ file stg new n /\ n !! healthy_path root = healthy_node.

Lemma stg_own : stg = root ++ [lit "downloads"; staged_name].
Proof. unfold stg, downloads_dir. by rewrite <- app_assoc. Qed.

Lemma apart_before F : ~ F tgt -> ~ F stg -> ~ F (healthy_path root) -> apart F before_swap.
Proof.
  intros. repeat apply apart_and; [by apply apart_node | by apply apart_file | by apply apart_node].
Qed.

(** Not the target nor the staged file: what the backup may touch. *)
Definition backup_paths (q : Path) : Prop := under q cpy \/ under cpy q.

Lemma own_distinct (x y : Str) l l' : x <> y -> ~ under (root ++ x :: l) (root ++ y :: l').
Proof. intros Hne [k Hk]. rewrite <- app_assoc in Hk. apply app_inv_head in Hk. by injection Hk. Qed.

Lemma backup_elsewhere : ~ backup_paths tgt /\ ~ backup_paths stg /\ ~ backup_paths (healthy_path root).
Proof.
  unfold backup_paths. rewrite stg_own, copy_own. split_and!.
  - rewrite <- copy_own. intros [Hu | Hu].
    + by apply (target_not_over home dir name PLACED cpy under_copy).
    + by apply (target_not_under home dir name PLACED cpy under_copy).
  - by intros [Hu | Hu]; apply own_distinct in Hu.
  - by intros [Hu | Hu]; apply own_distinct in Hu.
Qed.

Lemma spec_idle {E A : Type} F (m : M E A) : within F m ->
  ~ F tgt -> ~ F stg -> ~ F (healthy_path root) ->
  spec before_swap m (fun _ => before_swap) (fun _ => before_swap) before_swap.
Proof. intros Hw Ht Hs Hh. apply (spec_apart F); [done | by apply apart_before]. Qed.

Lemma spec_backup :
  spec before_swap (backup root tgt)
    (fun p n => p = cpy /\ file cpy old n /\ before_swap n)
    (fun _ => before_swap) before_swap.
Proof.
  destruct backup_elsewhere as (Het & Hes & Heh). unfold backup, file_name, tgt. rewrite last_snoc. fold tgt.
  change (previous_dir root ++ [name]) with cpy.
  apply (spec_bind _ _ _ (fun _ => before_swap)).
  { eapply spec_at, (spec_idle backup_paths); [| done | done | done].
    eapply within_weaken; [apply within_create_dir_all |]. intros q Hq. left.
    eapply under_trans; [exact Hq |]. by eexists. }
  intros _. rewrite bool_decide_eq_false_2.
  2: { intros He. apply Het. left. exists []. by rewrite app_nil_r. }
  apply (spec_bind _ _ _ (fun _ => before_swap)).
  { apply (spec_idle backup_paths); [| done | done | done]. apply within_attempt.
    eapply within_weaken; [apply within_remove_dir_all | by right]. }
  intros r. apply (spec_bind _ _ _ (fun _ => before_swap)).
  { destruct r as [[] | []]; try by (intros d Hd; exact Hd).
    apply (spec_idle backup_paths); [| done | done | done].
    apply within_ignore. eapply within_eq; [apply within_remove_file | by right]. }
  intros _. eapply spec_bind.
  { apply spec_not_dir; [apply snoc_nonempty | intros n [Hn _]; by eauto]. }
  intros b. apply spec_pure. intros ->.
  apply (spec_bind _ _ _ (fun _ n => file cpy old n /\ before_swap n)).
  - apply (spec_bind _ _ _ (fun _ => before_swap)); [by intros d |]. intros b.
    destruct b; [|by intros d]. apply spec_at. eapply (spec_weaken _ (fun n => file tgt old n /\ before_swap n)).
    + apply (spec_scratch (eq cpy)); [apply within_copy | apply apart_before |].
      * intros He. apply Het. left. exists []. by rewrite app_nil_r.
      * intros He. apply Hes. left. exists []. by rewrite app_nil_r.
      * intros He. apply Heh. left. exists []. by rewrite app_nil_r.
      * eapply spec_weaken; [apply (spec_copy tgt cpy old) | done..].
        intros He. apply Het. left. exists []. by rewrite app_nil_r.
    + intros n Hn. split; [|done]. exists mode. by destruct Hn.
    + by intros [] n [[? _] ?].
    + by intros e n Hn.
    + by intros n Hn.
  - intros _. apply (spec_bind _ _ _ (fun _ n => file cpy old n /\ before_swap n)); [by intros d |].
    intros there. destruct there.
    + eapply spec_pre; [apply spec_ret |]. by intros n ?.
    + eapply spec_pre; [apply (spec_failure _ _ (fun _ => before_swap)) |]. by intros n (_ & ?).
Qed.

(** ** The marker *)

Definition marked (pend : PendingInstall) : Assert := fun n =>
  exists text, pending_to_json pend = Ok text /\
    file (pending_path root) (as_bytes text ++ [NEWLINE]) n.

(** The old file in place and copied. *)
Definition backed : Assert := fun n => file cpy old n /\ before_swap n.

Definition marker_paths (q : Path) : Prop :=
  under q root \/ under (push_suffix (pending_path root) (lit ".tmp")) q \/ under (pending_path root) q.

Lemma marker_tmp : push_suffix (pending_path root) (lit ".tmp") = root ++ [lit "pending.tmp"].
Proof. unfold pending_path. by rewrite push_suffix_snoc. Qed.

Lemma own_not_marker x l : x <> lit "pending" -> x <> lit "pending.tmp" -> ~ marker_paths (root ++ x :: l).
Proof.
  unfold marker_paths. rewrite marker_tmp. unfold pending_path. intros Hp Ht [Hu | [Hu | Hu]].
  - destruct Hu as [k Hk]. apply (f_equal length) in Hk. rewrite !length_app in Hk. simpl in Hk. lia.
  - apply own_distinct in Hu; [done | by apply not_eq_sym].
  - apply own_distinct in Hu; [done | by apply not_eq_sym].
Qed.

Lemma target_not_marker : ~ marker_paths tgt.
Proof.
  unfold marker_paths. rewrite marker_tmp. intros [Hu | [Hu | Hu]].
  - by apply (target_not_over home dir name PLACED root).
  - by apply (target_not_under home dir name PLACED _ (root_under _)) in Hu.
  - by apply (target_not_under home dir name PLACED _ (root_under _)) in Hu.
Qed.

Lemma apart_backed F : ~ F cpy -> ~ F tgt -> ~ F stg -> ~ F (healthy_path root) -> apart F backed.
Proof. intros. apply apart_and; [by apply apart_file | by apply apart_before]. Qed.

Lemma marker_elsewhere : apart marker_paths backed.
Proof.
  apply apart_backed; [rewrite copy_own | apply target_not_marker | rewrite stg_own |];
    by apply own_not_marker.
Qed.

Lemma spec_write_atomic p bytes : p <> [] ->
  spec anything (write_atomic p bytes) (fun _ => file p bytes) (fun _ => anything) anything.
Proof.
  intros Hp. destruct (exists_last Hp) as (q & x & ->). unfold write_atomic.
  eapply spec_bind; [apply spec_at, spec_write |]. intros _u. apply spec_at, spec_rename_onto.
  rewrite push_suffix_snoc. intros [_ [= He]]%app_inj_2; [|done].
  apply (f_equal length) in He. rewrite length_app in He. simpl in He. lia.
Qed.

Lemma spec_write_pending pend :
  spec backed (write_pending root pend) (fun _ n => marked pend n /\ backed n) (fun _ => backed) backed.
Proof.
  unfold write_pending. apply (spec_bind _ _ _ (fun _ => backed)).
  { apply spec_at, (spec_apart marker_paths); [|apply marker_elsewhere].
    eapply within_weaken; [apply within_create_dir_all | by left]. }
  intros _. destruct (pending_to_json pend) as [text | reason] eqn:Hj; [|by intros d].
  eapply (spec_weaken _ (fun n => anything n /\ backed n)).
  - apply (spec_scratch marker_paths); [|apply marker_elsewhere | apply spec_write_atomic, snoc_nonempty].
    eapply within_weaken; [apply within_write_atomic |]. unfold marker_paths. tauto.
  - by intros n Hn.
  - intros [] n [Hf Hb]. split; [by exists text | done].
  - by intros e n Hn.
  - by intros n Hn.
Qed.

(** ** The swap *)

Definition mine (version : Str) (epoch : N) : PendingInstall :=
  with_previous (Some cpy) (for_appimage version epoch tgt).

(** What stays through the swap: the copy, the marker, the healthy marker. *)
Definition kept (pend : PendingInstall) : Assert := fun n =>
  file cpy old n /\ marked pend n /\ n !! healthy_path root = healthy_node.
(** The new file in place, the old one's copy kept, the marker written. *)
Definition swapped (pend : PendingInstall) : Assert := fun n => file tgt new n /\ kept pend n.
Definition ready (pend : PendingInstall) : Assert := fun n => marked pend n /\ backed n.

Lemma apart_marked F pend : ~ F (pending_path root) -> apart F (marked pend).
Proof. intros HF n n' Hn (text & Ht & x & Hx). exists text. split; [done |]. exists x. by rewrite Hn. Qed.

Lemma apart_kept F pend : ~ F cpy -> ~ F (pending_path root) -> ~ F (healthy_path root) ->
  apart F (kept pend).
Proof. intros. repeat apply apart_and; [by apply apart_file | by apply apart_marked | by apply apart_node]. Qed.

(** A file put over the target, all or nothing. *)
Lemma spec_onto_target pend from x before : from <> tgt ->
  ~ under from cpy -> ~ under from (pending_path root) -> ~ under from (healthy_path root) ->
  spec (fun n => (n !! from = Some (NFile new x) /\ n !! tgt = before) /\ kept pend n) (rename from tgt)
    (fun _ n => n !! tgt = Some (NFile new x) /\ kept pend n)
    (fun _ n => (n !! from = Some (NFile new x) /\ n !! tgt = before) /\ kept pend n)
    (fun n => ((n !! from = Some (NFile new x) /\ n !! tgt = before) /\ kept pend n) \/
       (n !! tgt = Some (NFile new x) /\ kept pend n)).
Proof.
  intros Hne Hc Hp Hh. eapply spec_weaken;
    [apply (spec_frame (fun q => under from q \/ under tgt q) (kept pend));
       [apply within_rename | | by apply (spec_rename_file from tgt (NFile new x) before new x)] | | | |].
  - apply apart_kept; (intros [Hu | Hu]; [done |]);
      by apply (target_not_over home dir name PLACED) in Hu; try apply root_under; try apply under_copy.
  - done.
  - by intros [] n [[_ Hf] Hk].
  - done.
  - intros n [[Hf | [_ Hf]] Hk]; [by left | by right].
Qed.

Definition new_path : Path := dir ++ [name ++ lit ".new"].

Lemma new_elsewhere : new_path <> tgt /\ new_path <> stg /\ new_path <> cpy /\
  new_path <> pending_path root /\ new_path <> healthy_path root.
Proof.
  assert (forall q, under root q -> new_path <> q) as Hq.
  { intros q Hq He. apply (beside_not_over home dir name PLACED (lit ".new") q Hq). exists [].
    by rewrite app_nil_r. }
  split_and!; try (apply Hq; first [apply under_copy | apply root_under]).
  - by apply suffix_not_target.
  - apply Hq. rewrite stg_own. apply root_under.
Qed.

Lemma apart_ready F pend : ~ F (pending_path root) -> ~ F cpy -> ~ F tgt -> ~ F stg ->
  ~ F (healthy_path root) -> apart F (ready pend).
Proof. intros. apply apart_and; [by apply apart_marked | by apply apart_backed]. Qed.

Lemma stg_elsewhere : stg <> tgt /\ ~ under stg cpy /\ ~ under stg (pending_path root) /\
  ~ under stg (healthy_path root).
Proof.
  rewrite stg_own. split_and!.
  - intros He. apply (target_not_over home dir name PLACED (root ++ [lit "downloads"; staged_name])).
    { apply root_under. } exists []. by rewrite app_nil_r.
  - rewrite copy_own. by apply own_distinct.
  - by apply own_distinct.
  - by apply own_distinct.
Qed.

Lemma target_ne q : under root q -> tgt <> q.
Proof.
  intros Hq He. apply (target_not_over home dir name PLACED q Hq). exists []. by rewrite app_nil_r.
Qed.

(** The two states between which the swap happens. *)
Definition either_side (pend : PendingInstall) : Assert := fun n => ready pend n \/ swapped pend n.

Lemma swapped_intro pend x n : n !! tgt = Some (NFile new x) -> kept pend n -> swapped pend n.
Proof. intros Ht Hk. split; [by exists x | done]. Qed.

Lemma ready_intro pend n : file stg new n -> n !! tgt = Some (NFile old mode) -> kept pend n -> ready pend n.
Proof. intros Hs Ht (? & ? & ?). by split; [|split; [|split]]. Qed.

Lemma ready_kept pend n : ready pend n ->
  n !! tgt = Some (NFile old mode) /\ file stg new n /\ kept pend n.
Proof. intros (? & ? & ? & ? & ?). by split; [|split; [|split]]. Qed.

(** The staged file renamed over the target. *)
Lemma spec_staged_onto pend :
  spec (ready pend) (rename stg tgt) (fun _ => swapped pend) (fun _ => ready pend) (either_side pend).
Proof.
  destruct stg_elsewhere as (Hs1 & Hs2 & Hs3 & Hs4).
  intros d Hr. destruct (ready_kept pend _ Hr) as (Ht & [x Hx] & Hk).
  pose proof (spec_onto_target pend stg x _ Hs1 Hs2 Hs3 Hs4 d (conj (conj Hx Ht) Hk)) as Hgo.
  assert (forall n, (n !! stg = Some (NFile new x) /\ n !! tgt = Some (NFile old mode)) /\ kept pend n ->
    ready pend n) as Hback by (intros n [[? ?] ?]; apply ready_intro; [by exists x | done | done]).
  destruct (rename stg tgt d) as [d' [[] | e |]].
  - destruct Hgo. by eapply swapped_intro.
  - by apply Hback.
  - destruct Hgo as [Hgo | [? ?]]; [left; by apply Hback | right; by eapply swapped_intro].
Qed.

(** A copy of it, made beside the target, renamed over the target. *)
Lemma spec_new_onto pend :
  spec (fun n => n !! new_path = Some (NFile new true) /\ ready pend n) (rename new_path tgt)
    (fun _ n => n !! tgt = Some (NFile new true) /\ kept pend n) (fun _ => ready pend) (either_side pend).
Proof.
  destruct new_elsewhere as (Hn1 & _). intros d [Hx Hr]. destruct (ready_kept pend _ Hr) as (Ht & [y Hy] & Hk).
  pose proof (spec_onto_target pend new_path true _ Hn1
    (beside_not_over home dir name PLACED _ _ under_copy)
    (beside_not_over home dir name PLACED _ _ (root_under _))
    (beside_not_over home dir name PLACED _ _ (root_under _)) d (conj (conj Hx Ht) Hk)) as Hgo.
  assert (nodes (rename new_path tgt d).1 !! stg = Some (NFile new y)) as Hst.
  { rewrite <- Hy. apply within_rename. rewrite stg_own. intros [Hu | Hu].
    - by apply (beside_not_over home dir name PLACED) in Hu; [|apply root_under].
    - by apply (target_not_over home dir name PLACED) in Hu; [|apply root_under]. }
  assert (forall n, n !! stg = Some (NFile new y) -> (n !! new_path = Some (NFile new true) /\
    n !! tgt = Some (NFile old mode)) /\ kept pend n -> ready pend n) as Hback
    by (intros n ? [[_ ?] ?]; apply ready_intro; [by exists y | done | done]).
  destruct (rename new_path tgt d) as [d' [[] | e' |]]; simpl in Hst.
  - done.
  - by apply Hback.
  - destruct Hgo as [Hgo | [? ?]]; [left; by apply Hback | right; by eapply swapped_intro].
Qed.

(** Where a rename does not reach: a copy beside the target first. *)
Lemma spec_copy_over pend :
  spec (ready pend)
    (at_ new_path (copy stg new_path) ≫= fun _ => at_ new_path (make_executable new_path) ≫= fun _ =>
     at_ tgt (rename new_path tgt) ≫= fun _ => ignore (remove_file stg))
    (fun _ n => n !! tgt = Some (NFile new true) /\ kept pend n)
    (fun _ => either_side pend) (either_side pend).
Proof.
  destruct new_elsewhere as (Hn1 & Hn2 & Hn3 & Hn4 & Hn5). destruct stg_elsewhere as (Hs1 & Hs2 & Hs3 & Hs4).
  assert (apart (eq new_path) (ready pend)) as Hap by (apply apart_ready; congruence).
  apply (spec_seq _ _ _ (fun _ n => (file new_path new n /\ file stg new n) /\ ready pend n) _ _
    (fun _ => ready pend) _ (ready pend)); [| intros _e n Hn; by left | intros n Hn; by left | intros _u].
  { apply spec_at. eapply (spec_pre _ (fun n => file stg new n /\ ready pend n)).
    - apply (spec_scratch (eq new_path)); [apply within_copy | done |].
      eapply spec_weaken; [by apply (spec_copy stg new_path new), not_eq_sym | done..].
    - intros n Hn. by destruct (ready_kept pend n Hn) as (_ & ? & _). }
  apply (spec_seq _ _ _ (fun _ n => n !! new_path = Some (NFile new true) /\ ready pend n) _ _
    (fun _ => ready pend) _ (ready pend)); [| intros _e n Hn; by left | intros n Hn; by left | intros _v].
  { apply spec_at. eapply (spec_pre _ (fun n => file new_path new n /\ ready pend n)).
    - apply (spec_scratch (eq new_path)); [apply within_make_executable | done |].
      eapply spec_weaken; [apply (spec_make_executable new_path new) | done..].
    - by intros n [[? _] ?]. }
  apply (spec_seq _ _ _ (fun _ n => n !! tgt = Some (NFile new true) /\ kept pend n) _ _
    (fun _ => ready pend) _ (either_side pend)); [| intros _e n Hn; by left | done | intros _w].
  { apply spec_at, spec_new_onto. }
  eapply spec_weaken; [apply (spec_ignore _ (fun n => n !! tgt = Some (NFile new true) /\ kept pend n) _
    (fun _ => either_side pend)), (spec_apart (eq stg)) | | | |].
  - apply within_remove_file.
  - apply apart_and; [by apply apart_node | apply apart_kept];
      intros He; [apply Hs2 | apply Hs3 | apply Hs4]; exists []; by rewrite app_nil_r.
  - done.
  - done.
  - done.
  - intros n [? ?]. right. by eapply swapped_intro.
Qed.

Lemma spec_replace_file pend :
  spec (ready pend) (replace_file stg tgt)
    (fun _ n => n !! tgt = Some (NFile new true) /\ kept pend n)
    (fun _ => either_side pend) (either_side pend).
Proof.
  unfold replace_file.
  apply (spec_bind _ _ _ (fun r n => match r with Ok _ => swapped pend n | Err _ => ready pend n end)).
  { apply spec_attempt, spec_staged_onto. }
  intros [[] | e].
  - apply (spec_at tgt _ _ _ (either_side pend)).
    eapply spec_weaken; [apply (spec_frame (eq tgt) (kept pend) (file tgt new));
      [apply within_make_executable | | apply spec_make_executable] | | | |].
    + apply apart_kept; apply target_ne; first [apply under_copy | apply root_under].
    + by intros n Hn.
    + done.
    + intros _e n Hn. by right.
    + intros n Hn. by right.
  - change (push_suffix tgt (lit ".new")) with (push_suffix (dir ++ [name]) (lit ".new")).
    rewrite push_suffix_snoc. apply spec_copy_over.
Qed.

(** ** Applying the plan *)

(** The old file in place, or the new one whole and the old one's copy. *)
Definition safe : Assert := fun n =>
  n !! tgt = Some (NFile old mode) \/ (file tgt new n /\ file cpy old n).

Lemma either_side_safe pend n : either_side pend n -> safe n.
Proof. intros [(_ & _ & ? & _) | [? (? & _)]]; [by left | by right]. Qed.

Lemma apart_safe F : ~ F tgt -> ~ F cpy -> apart F safe.
Proof. intros. apply apart_or; [by apply apart_node |]. by apply apart_and; apply apart_file. Qed.

Lemma spec_apply_appimage version epoch :
  spec before_swap (apply (ReplaceAppImage stg tgt) (mkInstallRequest root version epoch))
    (fun o n => o = Applied true /\ n !! tgt = Some (NFile new true) /\ kept (mine version epoch) n)
    (fun _ => safe) safe.
Proof.
  unfold apply. cbn [paths r_version r_epoch].
  eapply spec_seq; [apply spec_backup | intros _e n (? & _); by left | intros n (? & _); by left |].
  intros p. apply spec_pure. intros ->.
  eapply (spec_seq backed); [apply spec_write_pending | | |].
  { intros _e n (_ & ? & _). by left. }
  { intros n (_ & ? & _). by left. }
  intros _u. fold (mine version epoch). set (pend := mine version epoch).
  apply (spec_bind _ _ _ (fun r n => match r with
    | Ok _ => n !! tgt = Some (NFile new true) /\ kept pend n | Err _ => either_side pend n end)).
  - apply spec_attempt. eapply spec_weaken; [apply (spec_replace_file pend) | done | done | done |].
    apply either_side_safe.
  - intros [[] | e]; [eapply spec_pre; [apply spec_ret | by intros n [? ?]] |].
    eapply spec_pre; [apply (spec_ignore_fail (eq (pending_path root)) safe) |].
    + apply within_remove_file.
    + apply apart_safe.
      * intros He. by apply (target_ne (pending_path root)); [apply root_under |].
      * intros He. apply (copy_not_own (lit "pending")); [done |]. exists []. by rewrite app_nil_r.
    + apply either_side_safe.
Qed.

(** ** Recovering

    [had] is what is at the target when the recovery starts: the new file, or the old one when
    the swap did not come to pass. *)

Context (had : option Node).

Definition no_healthy : Assert := fun n => is_file_at n (healthy_path root) = false.
Definition rolled : Assert := fun n => n !! tgt = Some (NFile old true).

(** The target is still to be put back, or is. *)
Definition unfinished (pend : PendingInstall) : Assert := fun n =>
  (n !! tgt = had \/ rolled n) /\ marked pend n /\ file cpy old n /\ no_healthy n.
Definition settled : Assert := fun n =>
  rolled n /\ n !! pending_path root = None /\ file cpy old n /\ no_healthy n.
Definition recovering (pend : PendingInstall) : Assert := fun n => unfinished pend n \/ settled n.

Definition failed_path : Path := dir ++ [name ++ lit ".rollback"].

Lemma apart_no_healthy F : ~ F (healthy_path root) -> apart F no_healthy.
Proof. intros HF n n' Hn Hh. unfold no_healthy, is_file_at in *. by rewrite Hn. Qed.

(** What recovering relies on. *)
Definition grounds (pend : PendingInstall) : Assert := fun n =>
  marked pend n /\ file cpy old n /\ no_healthy n.
Lemma apart_grounds F pend : ~ F (pending_path root) -> ~ F cpy -> ~ F (healthy_path root) ->
  apart F (grounds pend).
Proof. intros. repeat apply apart_and; [by apply apart_marked | by apply apart_file | by apply apart_no_healthy]. Qed.

Lemma rollback_elsewhere q : under root q -> ~ under failed_path q.
Proof. apply (beside_not_over home dir name PLACED). Qed.

Lemma rollback_ne q : under root q -> failed_path <> q.
Proof. intros Hq He. apply (rollback_elsewhere q Hq). exists []. by rewrite app_nil_r. Qed.

Lemma spec_rollback_onto pend before :
  spec (fun n => (n !! failed_path = Some (NFile old true) /\ n !! tgt = before) /\ grounds pend n)
    (rename failed_path tgt)
    (fun _ n => (n !! failed_path = None /\ rolled n) /\ grounds pend n)
    (fun _ n => (n !! failed_path = Some (NFile old true) /\ n !! tgt = before) /\ grounds pend n)
    (fun n => ((n !! failed_path = Some (NFile old true) /\ n !! tgt = before) \/
       (n !! failed_path = None /\ rolled n)) /\ grounds pend n).
Proof.
  apply (spec_frame (fun q => under failed_path q \/ under tgt q)).
  - apply within_rename.
  - assert (forall q, under root q -> ~ (under failed_path q \/ under tgt q)) as Hq.
    { intros q Hq [Hu | Hu]; [by apply (rollback_elsewhere q) |].
      by apply (target_not_over home dir name PLACED q). }
    apply apart_grounds; apply Hq; first [apply under_copy | apply root_under].
  - apply (spec_rename_file failed_path tgt _ before old true); [by apply suffix_not_target | done].
Qed.

Lemma spec_restore pend :
  spec (unfinished pend) (restore cpy tgt) (fun _ n => rolled n /\ grounds pend n)
    (fun _ => unfinished pend) (unfinished pend).
Proof.
  unfold restore, file_name. change (last tgt) with (last (dir ++ [name])). rewrite last_snoc.
  eapply spec_bind.
  { apply spec_not_dir; [unfold cpy, copy_path; apply snoc_nonempty |].
    intros n (_ & _ & [x Hx] & _). by eauto. }
  intros b. apply spec_pure. intros ->.
  change (push_suffix tgt (lit ".rollback")) with (push_suffix (dir ++ [name]) (lit ".rollback")).
  rewrite push_suffix_snoc. fold failed_path.
  assert (apart (eq failed_path) (unfinished pend)) as Hap.
  { apply apart_and.
    - apply apart_or; apply apart_node; by apply suffix_not_target.
    - apply apart_grounds; apply rollback_ne; first [apply under_copy | apply root_under]. }
  apply (spec_seq _ _ _ (fun _ n => (file failed_path old n /\ file cpy old n) /\ unfinished pend n) _ _
    (fun _ => unfinished pend) _ (unfinished pend)); [| done | done | intros _u].
  { apply spec_at, (spec_pre _ (fun n => file cpy old n /\ unfinished pend n)).
    - apply (spec_scratch (eq failed_path)); [apply within_copy | done |].
      eapply spec_weaken; [apply (spec_copy cpy failed_path old) | done..].
      apply not_eq_sym, rollback_ne, under_copy.
    - intros n Hn. split; [by destruct Hn as (_ & _ & ? & _) | done]. }
  apply (spec_seq _ _ _ (fun _ n => n !! failed_path = Some (NFile old true) /\ unfinished pend n) _ _
    (fun _ => unfinished pend) _ (unfinished pend)); [| done | done | intros _v].
  { apply spec_at, (spec_pre _ (fun n => file failed_path old n /\ unfinished pend n)).
    - apply (spec_scratch (eq failed_path)); [apply within_make_executable | done |].
      eapply spec_weaken; [apply (spec_make_executable failed_path old) | done..].
    - by intros n [[? _] ?]. }
  apply spec_at. intros d [Hf [Ht Hg]].
  pose proof (spec_rollback_onto pend (nodes d !! tgt) d (conj (conj Hf eq_refl) Hg)) as Hgo.
  destruct (rename failed_path tgt d) as [d' [[] | e |]].
  - destruct Hgo as [[_ ?] ?]. by split.
  - destruct Hgo as [[_ Ht'] Hg']. split; [unfold rolled; by rewrite Ht' | done].
  - destruct Hgo as [[[_ Ht'] | [_ Ht']] Hg']; (split; [|done]); [unfold rolled; by rewrite Ht' | by right].
Qed.

Context (CODEC : forall p text, pending_to_json p = Ok text ->
  Forall (fun c => is_scalar c = true) text /\ pending_of_json (text ++ [NEWLINE]) = Ok p).

Lemma spec_or {E A : Type} (P P' : Assert) (m : M E A) (Q : Post A) (X : Post E) (C : Assert) :
  spec P m Q X C -> spec P' m Q X C -> spec (fun n => P n \/ P' n) m Q X C.
Proof. intros Hm Hm' d [Hd | Hd]; [by apply Hm | by apply Hm']. Qed.

Lemma spec_pending_there pend :
  spec (unfinished pend) (pending root) (fun r n => r = Some pend /\ unfinished pend n)
    (fun _ => unfinished pend) (unfinished pend).
Proof.
  unfold pending. apply (spec_bind _ _ _ (fun r n => match r with
    | Ok text => pending_of_json text = Ok pend | Err e => e <> NotFound end /\ unfinished pend n)).
  - apply spec_attempt, spec_atomic; simpl; try tauto; [|done].
    intros n Hn. pose proof Hn as (_ & (text & Htext & x & Hx) & _). rewrite Hx.
    destruct (CODEC _ _ Htext) as [Hs Hj].
    assert (as_bytes text ++ [NEWLINE] = as_bytes (text ++ [NEWLINE])) as ->
      by (by rewrite as_bytes_app).
    rewrite from_utf8_as_bytes; [done |]. apply Forall_app. split; [done | by repeat constructor].
  - intros [text | [| reason]]; apply spec_pure; [intros -> | done | intros _].
    + eapply spec_pre; [apply (spec_ret (Some pend)) |]. by intros n Hn.
    + by intros d.
Qed.

Lemma spec_pending_gone :
  spec settled (pending root) (fun r n => r = None /\ settled n) (fun _ => settled) settled.
Proof.
  unfold pending. apply (spec_bind _ _ _ (fun r n => (exists e, r = Err e) /\ settled n)).
  - apply spec_attempt, spec_atomic; simpl; try tauto; [|by eauto].
    intros n Hn. pose proof Hn as (_ & Hp & _). rewrite Hp, bool_decide_eq_false_2 by apply snoc_nonempty.
    by eauto.
  - intros r. apply spec_pure. intros [e ->]. destruct e; [|by intros d].
    eapply spec_pre; [apply (spec_ret None) |]. by intros n Hn.
Qed.

(** The old file is back; the marker may be there still. *)
Definition back (pend : PendingInstall) : Assert := fun n => rolled n /\ recovering pend n.

Lemma back_grounds pend n : rolled n -> grounds pend n -> back pend n.
Proof. intros Hr Hg. split; [done | left; split; [by right | done]]. Qed.

Lemma apart_back pend F : ~ F tgt -> ~ F (pending_path root) -> ~ F cpy -> ~ F (healthy_path root) ->
  apart F (back pend).
Proof.
  intros Ht Hp Hc Hh. assert (apart F rolled) as Hr by (by apply apart_node).
  apply apart_and; [done |]. apply apart_or.
  - apply apart_and; [|by apply apart_grounds]. by apply apart_or; [apply apart_node |].
  - repeat apply apart_and; [done | by apply apart_node | by apply apart_file | by apply apart_no_healthy].
Qed.

Lemma spec_drop_marker pend (X : Post InstallError) :
  spec (fun n => rolled n /\ grounds pend n) (ignore (remove_file (pending_path root)))
    (fun _ => back pend) X (back pend).
Proof.
  apply spec_ignore. intros d (Hr & (text & Ht & Hf) & Hc & Hh).
  set (R := fun n => rolled n /\ file cpy old n /\ no_healthy n).
  set (bytes := as_bytes text ++ [NEWLINE]) in *. set (p := pending_path root) in *.
  assert (spec (fun n => file p bytes n /\ R n) (remove_file p) (fun _ n => n !! p = None /\ R n)
    (fun _ n => file p bytes n /\ R n) (fun n => (file p bytes n \/ n !! p = None) /\ R n)) as Hgo.
  { apply (spec_frame (eq p)); [apply within_remove_file | | apply spec_remove_there].
    repeat apply apart_and; [apply apart_node | apply apart_file | apply apart_no_healthy].
    - apply not_eq_sym, target_ne, root_under.
    - intros He. apply (copy_not_own (lit "pending")); [done |]. exists []. by rewrite app_nil_r.
    - by intros [= He]%app_inv_head. }
  specialize (Hgo d (conj Hf (conj Hr (conj Hc Hh)))).
  assert (forall n, file p bytes n -> R n -> back pend n) as Hb1.
  { intros n Hn (? & ? & ?). apply back_grounds; [done |]. split; [by exists text | done]. }
  assert (forall n, n !! p = None -> R n -> back pend n) as Hb2.
  { intros n Hn (? & ? & ?). split; [done | by right]. }
  destruct (remove_file p d) as [d' [[] | e |]].
  - destruct Hgo. by apply Hb2.
  - destruct Hgo. by apply Hb1.
  - destruct Hgo as [[? | ?] ?]; [by apply Hb1 | by apply Hb2].
Qed.

(** The markers cleared and the failure recorded, once the old file is back. *)
Lemma spec_clear pend :
  spec (fun n => rolled n /\ grounds pend n)
    (ignore (remove_file (healthy_path root)) ≫= fun _ =>
     ignore (remove_file (pending_path root)) ≫= fun _ =>
     record_failure root pend ≫= fun _ =>
     mret (Restored (p_version pend) (p_epoch pend) tgt))
    (fun r n => r = Restored (p_version pend) (p_epoch pend) tgt /\ back pend n)
    (fun _ => recovering pend) (recovering pend).
Proof.
  apply (spec_bind _ _ _ (fun _ n => rolled n /\ grounds pend n)).
  { eapply spec_weaken; [apply (spec_ignore _ (fun n => rolled n /\ grounds pend n) _
      (fun _ => recovering pend)), (spec_remove_missing (healthy_path root)) | done.. |].
    - by intros n (_ & _ & _ & ?).
    - intros n [? ?]. by apply back_grounds. }
  intros _u. apply (spec_bind _ _ _ (fun _ => back pend)).
  { eapply spec_weaken; [apply (spec_drop_marker pend (fun _ => recovering pend)) | done | done | done |].
    by intros n [_ ?]. }
  intros _v. apply (spec_bind _ _ _ (fun _ => back pend)).
  { eapply spec_weaken; [apply (spec_apart (state_paths home) (back pend)) | done | done | | ].
    - apply within_record_failure.
    - apply apart_back; [apply not_state_paths | apply own_not_state | rewrite copy_own | ];
        apply own_not_state.
    - by intros e n [_ ?].
    - by intros n [_ ?]. }
  intros _w. eapply spec_pre; [apply spec_ret |]. intros n Hn. by split.
Qed.

Lemma spec_recover pend : previous pend = Some cpy -> target pend = tgt ->
  spec (recovering pend) (recover root)
    (fun r n => (r = NoRollback \/ r = Restored (p_version pend) (p_epoch pend) tgt) /\ back pend n)
    (fun _ => recovering pend) (recovering pend).
Proof.
  intros Hp Ht. unfold recover. apply spec_or.
  - apply (spec_seq _ _ _ (fun r n => r = Some pend /\ unfinished pend n) _ _ (fun _ => unfinished pend) _
      (unfinished pend)); [apply spec_pending_there | by left | by left |].
    intros r. apply spec_pure. intros ->. rewrite Hp, Ht.
    apply (spec_bind _ _ _ (fun b n => b = false /\ unfinished pend n)).
    { intros d Hd. pose proof Hd as (_ & _ & _ & Hh). by split. }
    intros b. apply spec_pure. intros ->.
    apply (spec_bind _ _ _ (fun o n => o = Some cpy /\ unfinished pend n)).
    { intros d Hd. pose proof Hd as (_ & _ & [x Hx] & _). unfold path_exists, stat, mbind, M_bind. simpl.
      unfold exists_at. by rewrite Hx, orb_true_r. }
    intros o. apply spec_pure. intros ->.
    apply (spec_seq _ _ _ (fun _ n => rolled n /\ grounds pend n) _ _ (fun _ => unfinished pend) _
      (unfinished pend)); [apply spec_restore | by left | by left |]. intros _u.
    eapply spec_weaken; [apply spec_clear | done | | done | done]. intros r n [-> ?]. by split; [right |].
  - apply (spec_seq _ _ _ (fun r n => r = None /\ settled n) _ _ (fun _ => settled) _ settled);
      [apply spec_pending_gone | by right | by right |].
    intros r. apply spec_pure. intros ->. eapply spec_pre; [apply spec_ret |].
    intros n Hn. split; [by left |]. split; [apply Hn | by right].
Qed.

End places.
End install.

(** ** The claims *)

(** Starts of the application that recover, each on a disk with its own faults; one that
    fails or dies leaves what it leaves. *)
Inductive starts `{Externs, Semver, !StateCodec, !PendingCodec} (root : Path) : Nodes -> Nodes -> Prop :=
| no_start n : starts root n n
| one_start n f n' : starts root (nodes (recover root (mkDisk n f 0)).1) n' -> starts root n n'.

Section claims.
Context `{Externs, Semver, !StateCodec, !PendingCodec, !Processes, CharCase}.
Context (home dir : Path) (name staged_name : Str) (old new : Bytes) (mode : bool).
Context (PLACED : placed home dir name).
Context (CODEC : forall p text, pending_to_json p = Ok text ->
  Forall (fun c => is_scalar c = true) text /\ pending_of_json (text ++ [NEWLINE]) = Ok p).

Lemma starts_recovering had pend n n' : previous pend = Some (copy_path home name) ->
  target pend = dir ++ [name] ->
  starts (paths_under home) n n' ->
  recovering home dir name old had pend n -> recovering home dir name old had pend n'.
Proof.
  intros Hp Ht. induction 1 as [| n f n' _ IH]; [done |]. intros Hn. apply IH.
  pose proof (spec_recover home dir name PLACED old had CODEC pend Hp Ht (mkDisk n f 0) Hn) as Hr.
  destruct (recover (paths_under home) (mkDisk n f 0)) as [d' [r | e |]]; [by destruct Hr as (_ & _ & ?) | done | done].
Qed.

(** C11: an AppImage is replaced all or nothing.  Whichever call fails and wherever the process
    dies, the target is the old file untouched, or the whole new file with the old one's
    bytes kept under [previous/]; and when the install reports success the target is the
    new file, executable, the copy is there and the pending marker names it. *)
Theorem appimage_swap_is_all_or_nothing healthy version epoch :
  let root := paths_under home in
  let staged := downloads_dir root ++ [staged_name] in
  spec
    (fun n => n !! (dir ++ [name]) = Some (NFile old mode) /\ file staged new n /\
       n !! healthy_path root = healthy)
    (apply (ReplaceAppImage staged (dir ++ [name])) (mkInstallRequest root version epoch))
    (fun o n => o = Applied true /\ n !! (dir ++ [name]) = Some (NFile new true) /\
       file (copy_path home name) old n /\
       marked home (mine home dir name version epoch) n /\ n !! healthy_path root = healthy)
    (fun _ => safe home dir name old new mode) (safe home dir name old new mode).
Proof. exact (spec_apply_appimage home dir name PLACED staged_name old new mode healthy version epoch). Qed.

(** C12: an AppImage install that began with no healthy marker on disk and was not marked
    healthy is taken back by the starts that follow: after any number of starts whose
    recovery failed or died half way, a recovery that ends leaves the old bytes at the
    target, executable, and reports the failed version or that there was nothing left to
    do; before that the target is the new file or the old one, and the copy is never lost. *)
Theorem unhealthy_update_is_taken_back healthy version epoch d d' o n f
    (Hold : nodes d !! (dir ++ [name]) = Some (NFile old mode))
    (Hstaged : file (downloads_dir (paths_under home) ++ [staged_name]) new (nodes d))
    (Hhealthy : nodes d !! healthy_path (paths_under home) = healthy)
    (Hunhealthy : is_file_at (nodes d) (healthy_path (paths_under home)) = false)
    (Happly : apply (ReplaceAppImage (downloads_dir (paths_under home) ++ [staged_name]) (dir ++ [name]))
       (mkInstallRequest (paths_under home) version epoch) d = (d', Done o))
    (Hstarts : starts (paths_under home) (nodes d') n) :
  let '(d'', r) := recover (paths_under home) (mkDisk n f 0) in
  file (copy_path home name) old (nodes d'') /\
  match r with
  | Done r => (r = NoRollback \/ r = Restored version epoch (dir ++ [name])) /\
      nodes d'' !! (dir ++ [name]) = Some (NFile old true)
  | _ => nodes d'' !! (dir ++ [name]) = Some (NFile new true) \/
      nodes d'' !! (dir ++ [name]) = Some (NFile old true)
  end.
Proof.
  pose proof (spec_apply_appimage home dir name PLACED staged_name old new mode healthy version epoch d
    (conj Hold (conj Hstaged Hhealthy))) as Hdone.
  rewrite Happly in Hdone. destruct Hdone as (_ & Ht & Hc & Hm & Hh).
  set (pend := mine home dir name version epoch) in *. set (had := Some (NFile new true)) in *.
  assert (recovering home dir name old had pend (nodes d')) as Hrec.
  { left. split; [by left |]. split_and!; try done. unfold no_healthy, is_file_at in *. by rewrite Hh, <- Hhealthy. }
  apply (starts_recovering had pend _ _ eq_refl eq_refl Hstarts) in Hrec.
  pose proof (spec_recover home dir name PLACED old had CODEC pend eq_refl eq_refl (mkDisk n f 0) Hrec) as Hr.
  assert (forall n, recovering home dir name old had pend n -> file (copy_path home name) old n /\
    (n !! (dir ++ [name]) = Some (NFile new true) \/ n !! (dir ++ [name]) = Some (NFile old true))) as Hout.
  { intros n' [([? | ?] & _ & ? & _) | (? & _ & ? & _)]; (split; [done |]); [by left | by right | by right]. }
  destruct (recover (paths_under home) (mkDisk n f 0)) as [d'' [r | e |]].
  - destruct Hr as (Hr & Hroll & Hback). split; [by apply Hout | done].
  - by apply Hout.
  - by apply Hout.
Qed.
End claims.

(** ** A concrete machine *)

Module Demo.
#[export] Existing Instance demo_externs.
#[export] Existing Instance ascii_case.
#[export] Instance semver : Semver :=
  {| Version := N; parse_semver _ := None; show_version _ := []; version_ltb := N.ltb |}.
Definition home : Path := [lit "h"].
Definition dir : Path := [lit "opt"].
Definition name : Str := lit "G".
Definition pend : PendingInstall := mine home dir name (lit "0.3.0") 7.
#[export] Instance pending_codec : PendingCodec :=
  {| pending_of_json _ := Ok pend;
     pending_to_json p := if bool_decide (p = pend) then Ok (lit "p") else Err [] |}.
#[export] Instance state_codec : StateCodec :=
  {| state_of_json _ := Err []; state_to_json _ := Ok (lit "s") |}.
#[export] Instance processes : Processes :=
  {| spawn_swap_script _ _ _ := Err []; spawn_installer _ _ := Err [] |}.

Definition target : Path := dir ++ [name].
Definition staged : Path := downloads_dir (paths_under home) ++ [lit "G2"].
Definition machine : Nodes :=
  list_to_map [(home, NDir); (dir, NDir); (target, NFile [1]%N true); (paths_under home, NDir);
    (downloads_dir (paths_under home), NDir); (staged, NFile [2; 2]%N false)].
Definition works (_ : nat) : Fate := Works.
Definition dies_at (k n : nat) : Fate := if n =? k then Dies (Some 1) else Works.

(** The install, then starts that die at the calls of [deaths], then one that ends. *)
Definition install (m : Nodes) : Disk * Run InstallError InstallOutcome :=
  apply (ReplaceAppImage staged target) (mkInstallRequest (paths_under home) (lit "0.3.0") 7) (mkDisk m works 0).
Definition after (deaths : list nat) (m : Nodes) : Nodes :=
  foldl (fun m k => nodes (recover (paths_under home) (mkDisk m (dies_at k) 0)).1) m deaths.
Definition outcome (m : Nodes) : option LocalRollback * option Node :=
  let '(d, r) := recover (paths_under home) (mkDisk m works 0) in
  (match r with Done r => Some r | _ => None end, nodes d !! target).

Lemma demo_placed : placed home dir name.
Proof.
  split.
  - by intros [k [= Hk]].
  - by intros suffix [k [= Hk]].
  - by intros [k [= Hk]].
  - by intros [k [= Hk]].
Qed.
Lemma demo_codec : forall p text, pending_to_json p = Ok text ->
  Forall (fun c => is_scalar c = true) text /\ pending_of_json (text ++ [NEWLINE]) = Ok p.
Proof. intros p text. simpl. case_bool_decide as Hp; [|done]. intros [= <-]. subst. by repeat constructor. Qed.
Lemma starts_after deaths m : starts (paths_under home) m (after deaths m).
Proof.
  revert m. induction deaths as [| k ks IH]; intros m; [constructor |].
  simpl. eapply one_start. apply IH.
Qed.
End Demo.

(** ** Witnesses, and what the first start does *)

Section witness.
Import Demo.

Definition is_done {E A} (r : Run E A) : bool := match r with Done _ => true | _ => false end.

Lemma appimage_swap_is_all_or_nothing_witness :
  nodes (install machine).1 !! target = Some (NFile [2; 2]%N true) /\
  safe home dir name [1]%N [2; 2]%N true (nodes (install machine).1).
Proof.
  split; [reflexivity |].
  pose proof (appimage_swap_is_all_or_nothing home dir name (lit "G2") [1]%N [2; 2]%N true demo_placed
    None (lit "0.3.0") 7 (mkDisk machine works 0)) as Hs.
  specialize (Hs (conj eq_refl (conj (ex_intro _ false eq_refl) eq_refl))).
  assert (is_done (install machine).2 = true) as Hd by reflexivity.
  unfold install, staged, target in *.
  destruct (apply _ _ (mkDisk machine works 0)) as [d [o | e |]]; [| discriminate Hd | discriminate Hd].
  destruct Hs as (_ & Ht & Hc & _). right. split; [by exists true | done].
Defined.

Lemma unhealthy_update_is_taken_back_witness :
  outcome (after [3; 0] (nodes (install machine).1)) =
    (Some (Restored (lit "0.3.0") 7 target), Some (NFile [1]%N true)) /\
  nodes (recover (paths_under home) (mkDisk (after [3; 0] (nodes (install machine).1)) works 0)).1 !! target
    = Some (NFile [1]%N true).
Proof.
  split; [reflexivity |].
  assert (is_done (install machine).2 = true) as Hd by reflexivity.
  assert (is_done (recover (paths_under home)
    (mkDisk (after [3; 0] (nodes (install machine).1)) works 0)).2 = true) as Hr by (vm_compute; reflexivity).
  destruct (install machine) as [d [o | e |]] eqn:Hi; [| discriminate Hd | discriminate Hd].
  change ((d, Done o).1) with d in *.
  pose proof (unhealthy_update_is_taken_back home dir name (lit "G2") [1]%N [2; 2]%N true demo_placed demo_codec
    None (lit "0.3.0") 7 (mkDisk machine works 0) d o (after [3; 0] (nodes d)) works
    eq_refl (ex_intro _ false eq_refl) eq_refl eq_refl Hi (starts_after _ _)) as Hs.
  destruct (recover _ _) as [d' [r | e |]]; [| discriminate Hr | discriminate Hr]. by destruct Hs as (_ & _ & ?).
Defined.

(** The start that follows the install is one of them: the new build, which has had no chance
    to become healthy, is taken back before it runs. *)
Example the_first_start_takes_the_update_back :
  outcome (nodes (install machine).1) =
    (Some (Restored (lit "0.3.0") 7 target), Some (NFile [1]%N true)).
Proof. reflexivity. Qed.

(** And where an earlier build ran for a minute, its healthy marker stands for every later
    one: nothing is taken back, and the pending marker is gone. *)
Definition proven : Nodes := <[healthy_path (paths_under home) := NFile [] false]> machine.
Example an_old_marker_vouches_for_the_new_build :
  outcome (nodes (install proven).1) = (Some NoRollback, Some (NFile [2; 2]%N true)) /\
  nodes (recover (paths_under home) (mkDisk (nodes (install proven).1) works 0)).1
    !! pending_path (paths_under home) = None.
Proof. split; reflexivity. Qed.
End witness.
