(* ===== verification/UpdateService.v ===== *)
(** * UpdateService: the update page and the threads behind it

    [app/src/update.rs]: the view model of the Updates page, the texts it shows, and the
    service whose threads check, download and install.  The threads interleave at the
    service's mutex and flags; a check's answer is the release host's to give, the download
    and the install run on the disk of Sys.v. *)

From S2P Require Import Prelude Bytes Text Sys Fields UpdateManifest UpdateClient UpdateInstall.
Import Manifest State Client Install.

(** [chrono]: [signed_duration_since(..).num_seconds()]. *)
Class Clock `{Externs} : Type := seconds_between : Instant -> Instant -> Z.

Definition CHECK_INTERVAL : Z := 6 * 60 * 60.
Definition ELLIPSIS : char := 8230.
Definition MIDDLE_DOT : char := 183.

Inductive UpdatePhase : Type := Idle | Checking | Available_ | Downloading | Ready | Error_.
#[export] Instance UpdatePhase_eq_dec : EqDecision UpdatePhase.
Proof. solve_decision. Defined.

Definition label (p : UpdatePhase) : Str :=
  match p with
  | Idle => lit "Not checked yet"
  | Checking => lit "Checking" ++ [ELLIPSIS]
  | Available_ => lit "Update available"
  | Downloading => lit "Downloading" ++ [ELLIPSIS]
  | Ready => lit "Ready to restart"
  | Error_ => lit "Update failed"
  end.
Definition allows_check (p : UpdatePhase) : bool :=
  match p with Idle | Available_ | Ready | Error_ => true | _ => false end.
Definition allows_install (p : UpdatePhase) : bool := bool_decide (p = Available_).

(** ** Sizes in words *)

(** [n / d] to the nearest, ties to even. *)
Definition round_even (n d : N) : N :=
  let q := (n / d)%N in
  let r := (2 * (n mod d))%N in
  if (r <? d)%N then q else if (d <? r)%N then (q + 1)%N else if N.even q then q else (q + 1)%N.

(** [n as f64]: the nearest number of 53 binary digits. *)
Definition as_f64 (n : N) : N :=
  let excess := (N.size n - 53)%N in round_even n (2 ^ excess) * 2 ^ excess.

(** [{:.1}] of a whole number over a power of two, whose quotient is exact. *)
Definition one_decimal (n d : N) : Str :=
  let tenths := round_even (10 * n) d in
  show_N (tenths / 10) ++ lit "." ++ show_N (tenths mod 10).

Definition human_bytes (bytes : N) : Str :=
  let value := as_f64 bytes in
  if (value <? 1024)%N then show_N bytes ++ lit " B"
  else if (value <? 1024 * 1024)%N then one_decimal value 1024 ++ lit " KB"
  else if (value <? 1024 * 1024 * 1024)%N then one_decimal value (1024 * 1024) ++ lit " MB"
  else one_decimal value (1024 * 1024 * 1024) ++ lit " GB".

(** ** The view *)

Record AvailableSummary : Type := mkAvailableSummary {
  s_version : Str;
  s_epoch : N;
  s_channel : Str;
  s_size : N;
  s_rollback : bool;
  s_current_yanked : bool;
  s_file_name : Str;
}.
Definition size_label (s : AvailableSummary) : Str := human_bytes (s_size s).
Definition detail (s : AvailableSummary) : Str :=
  s_version s ++ [SPACE; MIDDLE_DOT; SPACE] ++ s_channel s ++ [SPACE; MIDDLE_DOT; SPACE] ++ size_label s.
Definition is_upgrade (s : AvailableSummary) : bool := negb (s_rollback s).

Record YankedBanner : Type := mkYankedBanner {
  running : Str;
  replacement : Str;
  b_detail : Str;
}.

Record UpdateView : Type := mkUpdateView {
  current_version : Str;
  channel : Str;
  v_installed_epoch : N;
  last_check_line : option Str;
  phase : UpdatePhase;
  status : Str;
  available : option AvailableSummary;
  ready_version : option Str;
  error : option Str;
  banner : option YankedBanner;
  v_failed_version : option Str;
}.
Definition can_install (v : UpdateView) : bool :=
  bool_decide (phase v = Available_) && bool_decide (is_Some (available v)).
Definition view_is_yanked (v : UpdateView) : bool := bool_decide (is_Some (banner v)).

(** Assigning the fields of the view that a transition sets. *)
Definition set_phase (p : UpdatePhase) (line : Str) (v : UpdateView) : UpdateView :=
  mkUpdateView (current_version v) (channel v) (v_installed_epoch v) (last_check_line v) p line
    (available v) (ready_version v) (error v) (banner v) (v_failed_version v).
Definition set_error (e : option Str) (v : UpdateView) : UpdateView :=
  mkUpdateView (current_version v) (channel v) (v_installed_epoch v) (last_check_line v) (phase v)
    (status v) (available v) (ready_version v) e (banner v) (v_failed_version v).
Definition set_offer (a : option AvailableSummary) (b : option YankedBanner) (v : UpdateView) : UpdateView :=
  mkUpdateView (current_version v) (channel v) (v_installed_epoch v) (last_check_line v) (phase v)
    (status v) a (ready_version v) (error v) b (v_failed_version v).
Definition set_ready (r : option Str) (v : UpdateView) : UpdateView :=
  mkUpdateView (current_version v) (channel v) (v_installed_epoch v) (last_check_line v) (phase v)
    (status v) (available v) r (error v) (banner v) (v_failed_version v).
Definition set_known (epoch : N) (line failed : option Str) (v : UpdateView) : UpdateView :=
  mkUpdateView (current_version v) (channel v) epoch line (phase v) (status v) (available v)
    (ready_version v) (error v) (banner v) failed.

(** [checked 2h ago]. *)
Definition relative_check `{Clock} (at_ now : Instant) : Str :=
  let seconds := Z.to_N (seconds_between now at_ `max` 0) in
  lit "checked " ++
  (if (seconds <=? 59)%N then lit "just now"
   else if (seconds <=? 3599)%N then show_N (seconds / 60) ++ lit "m ago"
   else if (seconds <=? 86399)%N then show_N (seconds / 3600) ++ lit "h ago"
   else show_N (seconds / 86400) ++ lit "d ago").

Section model.
Context `{Externs, Semver, !Clock}.

Definition from_update (u : AvailableUpdate) : AvailableSummary :=
  mkAvailableSummary (show_version (up_version u)) (up_epoch u) (as_str (up_channel u))
    (size (up_artifact u)) (rollback u) (current_yanked u)
    (default (lit "update") (last (split_on SLASH (url (up_artifact u))))).

Record UpdateViewModel : Type := mkUpdateViewModel {
  view : UpdateView;
  last_check_at : option Instant;
}.

Definition model_new (current_version channel : Str) (installed_epoch : N) : UpdateViewModel :=
  mkUpdateViewModel
    (mkUpdateView current_version channel installed_epoch None Idle (label Idle) None None None None None)
    None.

Definition adopt_state (s : UpdateState) (now : Instant) (m : UpdateViewModel) : UpdateViewModel :=
  mkUpdateViewModel
    (set_known (installed_epoch s) ((fun at_ => relative_check at_ now) <$> last_check s)
       (failed_version s) (view m))
    (last_check s).

Definition begin_check (m : UpdateViewModel) : option UpdateViewModel :=
  if negb (allows_check (phase (view m))) then None
  else
    let v := set_phase Checking (label Checking) (view m) in
    Some (mkUpdateViewModel (set_error None v) (last_check_at m)).

Definition fail_with (reason : Str) (m : UpdateViewModel) : UpdateViewModel :=
  let v := set_phase Error_ (label Error_) (view m) in
  mkUpdateViewModel (set_error (Some reason) v) (last_check_at m).

Definition check_finished (at_ : Instant) (offer : result Str (option AvailableSummary))
    (m : UpdateViewModel) : option UpdateViewModel :=
  if negb (bool_decide (phase (view m) = Checking)) then None
  else
    let v := view m in
    let v := set_known (v_installed_epoch v) (Some (relative_check at_ at_)) (v_failed_version v) v in
    let with_view v := mkUpdateViewModel v (Some at_) in
    match offer with
    | Ok (Some summary) =>
        let b :=
          if s_current_yanked summary then
            Some (mkYankedBanner (current_version v) (s_version summary)
              (current_version v ++ lit " was withdrawn from " ++ channel v ++ lit ". The replacement is "
               ++ s_version summary ++ lit " (" ++ size_label summary ++ lit ")."))
          else None in
        let line := s_channel summary ++ [SPACE] ++ s_version summary ++ lit " is available" in
        Some (with_view (set_phase Available_ line (set_offer (Some summary) b v)))
    | Ok None =>
        let line := lit "Goble " ++ current_version v ++ lit " is the newest " ++ channel v ++ lit " build" in
        Some (with_view (set_phase Idle line (set_offer None None v)))
    | Err reason => Some (fail_with reason (with_view v))
    end.

Definition begin_download (m : UpdateViewModel) : option UpdateViewModel :=
  if negb (allows_install (phase (view m))) then None
  else
    match available (view m) with
    | None => None
    | Some a =>
        let v := set_phase Downloading (lit "Downloading " ++ detail a ++ [ELLIPSIS]) (view m) in
        Some (mkUpdateViewModel (set_error None v) (last_check_at m))
    end.

Definition download_finished (version : Str) (m : UpdateViewModel) : option UpdateViewModel :=
  if negb (bool_decide (phase (view m) = Downloading)) then None
  else
    let line := lit "Goble " ++ version ++ lit " is installed; restart to use it" in
    Some (mkUpdateViewModel (set_ready (Some version) (set_phase Ready line (view m))) (last_check_at m)).

Definition reset (m : UpdateViewModel) : UpdateViewModel :=
  match phase (view m) with
  | Checking | Downloading => m
  | _ =>
      let v := set_phase Idle (label Idle) (view m) in
      mkUpdateViewModel (set_error None (set_ready None (set_offer None (banner v) v))) (last_check_at m)
  end.

Definition check_due (now : Instant) (m : UpdateViewModel) : bool :=
  match last_check_at m with
  | None => true
  | Some last => (CHECK_INTERVAL <=? seconds_between now last)%Z
  end.
End model.

(** ** Errors in the words of the page *)

Section words.
Definition check_error (e : UpdateError) : Str :=
  match e with
  | Transport u _ => lit "could not reach " ++ u
  | Status u s => u ++ lit " answered HTTP " ++ show_N s
  | Manifest_ inner => lit "the release manifest is unusable: " ++ show_manifest_error inner
  | UncomparableVersion v =>
      lit "this build's version (`" ++ v ++ lit "`) cannot be compared with the release"
  | other => show_update_error other
  end.

Definition download_error (e : UpdateError) : Str :=
  match e with
  | DigestMismatch _ _ _ =>
      lit "the download did not match the signed digest, so it was discarded"
  | SizeMismatch _ _ _ =>
      lit "the download was not the size the signed manifest declares, so it was discarded"
  | Untrusted => lit "the release is not signed with the key this build trusts"
  | TooLarge _ limit =>
      lit "the download is larger than the " ++ show_N limit ++ lit " bytes this build accepts"
  | other => show_update_error other
  end.

Definition show_install_error (e : InstallError) : Str :=
  match e with
  | WrongArtifact name os => lit "this artifact (" ++ name ++ lit ") cannot be installed on " ++ os
  | InstallIo p reason => show_path p ++ lit " could not be replaced: " ++ reason
  | SpawnFailed program reason => lit "could not start " ++ program ++ lit ": " ++ reason
  | NoBackup p => lit "there is no previous copy of " ++ show_path p ++ lit " to fall back to"
  | Marker p reason =>
      lit "the update markers could not be read: " ++ show_path p ++ lit ": " ++ reason
  | StateFailed reason => lit "the update state could not be written: " ++ reason
  end.
Definition plan_error (e : InstallError) : Str :=
  lit "the update could not be installed: " ++ show_install_error e.
End words.

(** ** The service *)

Section service.
Context `{Externs, Semver, !Crypto, !ManifestCodec, !StateCodec, !Http, !PendingCodec, !Processes,
          !CharCase, !Clock}.

(** What a service is started with, and the machine it runs on ([InstallContext::detect]). *)
Record Setting : Type := mkSetting {
  config : UpdateConfig;
  goble_home : Path;
  running_version : Str;
  service_channel : Channel;
  machine : InstallContext;
  machine_arch : Str;
}.
Definition update_root (s : Setting) : Path := paths_under (goble_home s).

(** The threads.  A checker is the loop of [start] or the one-shot thread of [check_now];
    where it stands in [check_once]: *)
Inductive CheckPc : Type :=
| Asleep                                                          (** the loop, between checks *)
| Entered                                                         (** at the top of [check_once] *)
| Unmarked                                                        (** no install was running *)
| Asking                                                          (** [mark_checking] said yes *)
| Answered (answer : result UpdateError CheckOutcome)             (** the client came back *)
| Published (answer : result Str (option AvailableSummary)).      (** the offer is stored *)
Inductive Thread : Type :=
| Checker (looping : bool) (pc : CheckPc)
| Installer (u : AvailableUpdate)                                 (** [run_install] to come *)
| Leaving                                                         (** [installing] to be cleared *)
| Watch                                                           (** a minute of uptime to come *)
| Over.

(** [checking] is only printed; [exited] is [std::process::exit]. *)
Record Service : Type := mkService {
  model : UpdateViewModel;
  offer : option AvailableUpdate;
  installing : bool;
  started : bool;
  exited : bool;
  disk : Disk;
  threads : list Thread;
}.

Definition with_model (m : UpdateViewModel) (s : Service) : Service :=
  mkService m (offer s) (installing s) (started s) (exited s) (disk s) (threads s).
Definition with_offer (o : option AvailableUpdate) (s : Service) : Service :=
  mkService (model s) o (installing s) (started s) (exited s) (disk s) (threads s).
Definition with_installing (b : bool) (s : Service) : Service :=
  mkService (model s) (offer s) b (started s) (exited s) (disk s) (threads s).
Definition with_started (s : Service) : Service :=
  mkService (model s) (offer s) (installing s) true (exited s) (disk s) (threads s).
Definition with_exited (s : Service) : Service :=
  mkService (model s) (offer s) (installing s) (started s) true (disk s) (threads s).
Definition with_disk (d : Disk) (s : Service) : Service :=
  mkService (model s) (offer s) (installing s) (started s) (exited s) d (threads s).
Definition with_threads (ts : list Thread) (s : Service) : Service :=
  mkService (model s) (offer s) (installing s) (started s) (exited s) (disk s) ts.
Definition spawn (t : Thread) (s : Service) : Service := with_threads (threads s ++ [t]) s.
Definition goes_to (i : nat) (t : Thread) (s : Service) : Service :=
  with_threads (<[i := t]> (threads s)) s.

(** [from_env], once the environment named a release host. *)
Definition service_new (c : Setting) (installed_epoch : N) (now : Instant) (d : Disk) : Service :=
  let m := model_new (running_version c) (as_str (service_channel c)) installed_epoch in
  let '(d', r) := load (state_path (update_root c)) d in
  let m := match r with Done st => adopt_state st now m | _ => m end in
  mkService m None false false false d' [].

Definition mark_checking (s : Service) : option Service :=
  (fun m => with_model m s) <$> begin_check (model s).

Definition finish_with_error (reason : Str) (s : Service) : Service :=
  with_model (fail_with reason (model s)) s.

(** *** What the page does; a thread may be refused by the machine ([spawned]). *)

Definition start (c : Setting) (s : Service) : Service :=
  if started s then s
  else
    let s := with_started s in
    if is_self_updating (service_channel c) then spawn Watch (spawn (Checker true Asleep) s) else s.

Definition check_now (spawned : bool) (s : Service) : Service :=
  match mark_checking s with
  | None => s
  | Some s' => if spawned then spawn (Checker false Entered) s' else s'
  end.

Definition install_available (spawned : bool) (s : Service) : Service :=
  if installing s then s
  else
    match begin_download (model s) with
    | None => s
    | Some m =>
        let s := with_installing true (with_model m s) in
        match offer s with
        | None => finish_with_error (lit "there is no update to install") s
        | Some u => if spawned then spawn (Installer u) s else with_installing false s
        end
    end.

(** *** What the threads do *)

(** The answer of a check as the page gets it, and the offer to store. *)
Definition published (c : Setting) (answer : result UpdateError CheckOutcome) :
  option AvailableUpdate * result Str (option AvailableSummary) :=
  match answer with
  | Ok (Available u) =>
      if negb (verified u) && negb (allow_unsigned (config c)) then
        (None, Err (lit "the release is not signed with the key this build trusts, so it was not offered"))
      else (Some u, Ok (Some (from_update u)))
  | Ok (UpToDate _ _) => (None, Ok None)
  | Ok (Unsupported reason) => (None, Err reason)
  | Err e => (None, Err (check_error e))
  end.

Definition record_the_check (c : Setting) (now : Instant) : M UpdateError () :=
  let p := state_path (update_root c) in
  r ← attempt (load p);
  ignore (save (record_check now (match r with Ok st => st | Err _ => State.empty end)) p).

(** One step of the checker [i]: up to the next lock of the model, read of a flag or call. *)
Definition checker_step (c : Setting) (i : nat) (looping : bool) (pc : CheckPc) (now : Instant)
    (s : Service) : Service :=
  let leave s := goes_to i (if looping then Checker true Asleep else Over) s in
  match pc with
  | Asleep => if check_due now (model s) then goes_to i (Checker looping Entered) s else s
  | Entered => if installing s then leave s else goes_to i (Checker looping Unmarked) s
  | Unmarked =>
      match mark_checking s with
      | None => leave s
      | Some s' => goes_to i (Checker looping Asking) s'
      end
  | Asking =>
      goes_to i (Checker looping (Answered
        (check (config c) (service_channel c) (running_version c) (v_installed_epoch (view (model s)))
           (ctx_os (machine c)) (machine_arch c)))) s
  | Answered answer =>
      let '(o, shown) := published c answer in
      let s := match o with Some u => with_offer (Some u) s | None => s end in
      goes_to i (Checker looping (Published shown)) s
  | Published shown =>
      let s := with_model (default (model s) (check_finished now shown (model s))) s in
      leave (with_disk (record_the_check c now (disk s)).1 s)
  end.

(** [run_install] up to its effect on the model: the version that is in place and whether the
    process is to end, or the reason it failed. *)
Definition run_install (c : Setting) (u : AvailableUpdate) : M Str (Str * bool) :=
  if negb (verified u) && negb (allow_unsigned (config c)) then
    fail (lit "the release is not signed with the key this build trusts, so it was not installed")
  else
    map_err download_error (download (config c) u (downloads_dir (update_root c))) ≫= fun staged =>
    let expected := lower (sha256 (up_artifact u)) in
    if negb (bool_decide (digest staged = expected)) then
      fail (lit "the downloaded file does not match the signature (" ++ expected ++ lit " expected, "
            ++ digest staged ++ lit " found)")
    else
      let request := mkInstallRequest (update_root c) (show_version (up_version u)) (up_epoch u) in
      map_err plan_error (apply (plan_install (machine c) staged) request) ≫= fun outcome =>
      match outcome with
      | Applied restart => mret (show_version (up_version u), restart)
      | NeedsUser command hint => fail (hint ++ lit " Run: " ++ command)
      end.

Definition installer_step (c : Setting) (i : nat) (u : AvailableUpdate) (s : Service) : Service :=
  let '(d, r) := run_install c u (disk s) in
  let s := goes_to i Leaving (with_disk d s) in
  match r with
  | Done (version, restart) =>
      let s := with_model (default (model s) (download_finished version (model s))) s in
      if restart then with_exited s else s
  | Failed reason => finish_with_error reason s
  | Dead => with_exited s
  end.

Definition thread_step (c : Setting) (i : nat) (now : Instant) (s : Service) : Service :=
  match threads s !! i with
  | Some (Checker looping pc) => checker_step c i looping pc now s
  | Some (Installer u) => installer_step c i u s
  | Some Leaving => goes_to i Over (with_installing false s)
  | Some Watch =>
      goes_to i Over (with_disk (confirm_healthy (update_root c) (state_path (update_root c))
        (running_version c) (to_rfc3339 now) (disk s)).1 s)
  | Some Over | None => s
  end.

(** One thing happens: the page's commands, or a thread's next step. *)
Inductive Action : Type :=
| Start
| CheckNow (spawned : bool)
| InstallAvailable (spawned : bool)
| Run (i : nat) (now : Instant).
Definition act (c : Setting) (a : Action) (s : Service) : Service :=
  if exited s then s
  else
    match a with
    | Start => start c s
    | CheckNow spawned => check_now spawned s
    | InstallAvailable spawned => install_available spawned s
    | Run i now => thread_step c i now s
    end.
Definition acts (c : Setting) (l : list Action) (s : Service) : Service := foldl (fun s a => act c a s) s l.

End service.
