(* ===== verification/UpdateServiceProps.v ===== *)
(** * UpdateServiceProps: what the page shows is what is installed

    Over every interleaving of the page's commands and the service's threads. *)

From S2P Require Import Prelude Bytes Text Sys Fields UpdateManifest UpdateClient UpdateProps UpdateInstall UpdateService.
Import Manifest State Client Install.

Section service.
Context `{Externs, Semver, !Crypto, !ManifestCodec, !StateCodec, !Http, !PendingCodec, !Processes,
          !CharCase, !Clock}.

(** A thread that is between [mark_checking] and the end of its check. *)
Definition asks (t : Thread) : bool :=
  match t with
  | Checker _ (Asking | Answered _ | Published _) => true
  | _ => false
  end.
Definition installs (t : Thread) : bool := match t with Installer _ => true | _ => false end.
Definition busy (t : Thread) : bool := asks t || installs t.

(** An update the client offered this installation, and that the service lets through. *)
Definition was_offered (c : Setting) (u : AvailableUpdate) : Prop :=
  (verified u = true \/ allow_unsigned (config c) = true) /\
  exists epoch, check (config c) (service_channel c) (running_version c) epoch (ctx_os (machine c))
    (machine_arch c) = Ok (Available u).

Definition stored (c : Setting) (s : Service) (u : AvailableUpdate) : Prop :=
  offer s = Some u /\ was_offered c u.

(** What a thread that is busy knows. *)
Definition thread_ok (c : Setting) (s : Service) (t : Thread) : Prop :=
  match t with
  | Checker _ Asking => phase (view (model s)) = Checking
  | Checker _ (Answered answer) => phase (view (model s)) = Checking /\
      exists epoch, answer = check (config c) (service_channel c) (running_version c) epoch
        (ctx_os (machine c)) (machine_arch c)
  | Checker _ (Published shown) => phase (view (model s)) = Checking /\
      forall x, shown = Ok (Some x) -> exists u, stored c s u /\ x = from_update u
  | Installer u => phase (view (model s)) = Downloading /\ stored c s u /\
      available (view (model s)) = Some (from_update u)
  | _ => True
  end.

Record service_ok (c : Setting) (s : Service) : Prop := {
  one_busy : forall i j t t', threads s !! i = Some t -> threads s !! j = Some t' ->
    busy t = true -> busy t' = true -> i = j;
  all_ok : forall i t, threads s !! i = Some t -> thread_ok c s t;
  page_ok : phase (view (model s)) = Available_ ->
    exists u, stored c s u /\ available (view (model s)) = Some (from_update u);
}.

(** A service that differs in what no thread looks at. *)
Lemma service_ok_same c s s' : model s' = model s -> offer s' = offer s -> threads s' = threads s ->
  service_ok c s -> service_ok c s'.
Proof.
  intros Hm Ho Ht [H1' H2' H3']. split.
  - rewrite Ht. exact H1'.
  - intros i t. rewrite Ht. intros Hi. specialize (H2' i t Hi).
    unfold thread_ok, stored in *. by rewrite Hm, Ho.
  - unfold stored in *. by rewrite Hm, Ho.
Qed.

Lemma idle_ok c s t : busy t = false -> thread_ok c s t.
Proof. by destruct t as [loop [] | | | |]. Qed.

(** The thread [i] moves on, and no other is busy. *)
Definition alone (i : nat) (s : Service) : Prop :=
  forall j t, j <> i -> threads s !! j = Some t -> busy t = false.
Definition page_fits (c : Setting) (s : Service) : Prop :=
  phase (view (model s)) = Available_ ->
    exists u, stored c s u /\ available (view (model s)) = Some (from_update u).

Lemma service_ok_alone c s i t : alone i s -> thread_ok c s t -> page_fits c s ->
  service_ok c (goes_to i t s).
Proof.
  intros Ha Ht Hp. split; [| | done]; simpl.
  - intros j k u u' Hj Hk Hu Hu'.
    assert (forall j u, <[i:=t]> (threads s) !! j = Some u -> busy u = true -> j = i) as Hi.
    { intros j' v Hj' Hv. destruct (decide (j' = i)) as [| Hne]; [done |].
      rewrite list_lookup_insert_ne in Hj' by done. specialize (Ha j' v Hne Hj'). congruence. }
    by rewrite (Hi j u), (Hi k u').
  - intros j u Hj. destruct (decide (i = j)) as [<- | Hne].
    + destruct (decide (i < length (threads s))) as [Hl | Hl].
      * rewrite list_lookup_insert_eq in Hj by done. injection Hj as <-. exact Ht.
      * rewrite list_insert_ge in Hj by lia. apply lookup_lt_Some in Hj. lia.
    + rewrite list_lookup_insert_ne in Hj by done. by apply idle_ok, (Ha j).
Qed.

Lemma busy_alone c s i t : service_ok c s -> threads s !! i = Some t -> busy t = true -> alone i s.
Proof.
  intros Hok Hi Hb j u Hj Hu. destruct (busy u) eqn:Hbu; [|done].
  exfalso. apply Hj. by eapply (one_busy _ _ Hok).
Qed.

(** A phase from which a check or an install may start belongs to nobody. *)
Lemma free_alone c s : service_ok c s ->
  allows_check (phase (view (model s))) = true -> forall i, alone i s.
Proof.
  intros Hok Hf i j u _ Hu. pose proof (all_ok _ _ Hok j u Hu) as Ht.
  destruct u as [loop [] | | | |]; try done; simpl in *.
  - by rewrite Ht in Hf.
  - destruct Ht as [Ht _]. by rewrite Ht in Hf.
  - destruct Ht as [Ht _]. by rewrite Ht in Hf.
  - destruct Ht as [Ht _]. by rewrite Ht in Hf.
Qed.

(** An idle thread moves on to idle. *)
Lemma service_ok_idle c s i t t' : threads s !! i = Some t' -> busy t' = false -> busy t = false ->
  service_ok c s -> service_ok c (goes_to i t s).
Proof.
  intros Hi Hb' Hb [H1' H2' H3']. split; [| | done]; simpl.
  - assert (forall j u, <[i:=t]> (threads s) !! j = Some u -> busy u = true -> threads s !! j = Some u) as Hold.
    { intros j u Hj Hu. destruct (decide (i = j)) as [<- | Hne].
      - rewrite list_lookup_insert_eq in Hj by (by eapply lookup_lt_Some). congruence.
      - by rewrite list_lookup_insert_ne in Hj. }
    intros j k u u' Hj Hk Hu Hu'. eapply (H1' j k u u'); auto.
  - intros j u Hj. destruct (decide (i = j)) as [<- | Hne].
    + rewrite list_lookup_insert_eq in Hj by (by eapply lookup_lt_Some). injection Hj as <-. by apply idle_ok.
    + rewrite list_lookup_insert_ne in Hj by done. by apply (H2' j).
Qed.

Lemma service_ok_spawn c s t : (busy t = false \/ forall i, alone i s) -> thread_ok c s t ->
  service_ok c s -> service_ok c (spawn t s).
Proof.
  intros Hb Ht [H1' H2' H3']. split; simpl; [| | done].
  - intros j k u u' Hj Hk Hu Hu'.
    apply lookup_app_Some in Hj as [Hj | [Hlj Hj]], Hk as [Hk | [Hlk Hk]].
    + by eapply H1'.
    + apply list_lookup_singleton_Some in Hk as [Hk0 <-]. destruct Hb as [Hb | Hb]; [congruence |].
      rewrite (Hb (S j) j u) in Hu by (lia || done). done.
    + apply list_lookup_singleton_Some in Hj as [Hj0 <-]. destruct Hb as [Hb | Hb]; [congruence |].
      rewrite (Hb (S k) k u') in Hu' by (lia || done). done.
    + apply list_lookup_singleton_Some in Hj as [? _], Hk as [? _]. lia.
  - intros j u [Hj | [_ Hj]]%lookup_app_Some; [by apply (H2' j) |].
    by apply list_lookup_singleton_Some in Hj as [_ <-].
Qed.

(** ** The transitions of the model *)

Lemma begin_check_spec m m' : begin_check m = Some m' ->
  allows_check (phase (view m)) = true /\ phase (view m') = Checking.
Proof. unfold begin_check. destruct (allows_check _); [|done]. by intros [= <-]. Qed.

Lemma begin_download_spec m m' : begin_download m = Some m' ->
  phase (view m) = Available_ /\ phase (view m') = Downloading /\ available (view m') = available (view m).
Proof.
  unfold begin_download, allows_install. case_bool_decide; [|done].
  destruct (available (view m)) eqn:Ha; [|done]. by intros [= <-].
Qed.

Lemma mark_checking_ok c s s' : service_ok c s -> mark_checking s = Some s' ->
  (forall i, alone i s') /\ phase (view (model s')) = Checking /\ threads s' = threads s /\
  page_fits c s' /\ service_ok c s'.
Proof.
  intros Hok Hm. unfold mark_checking in Hm. apply fmap_Some in Hm as (m & Hm & ->).
  destruct (begin_check_spec _ _ Hm) as [Hf Hph]. pose proof (free_alone c s Hok Hf) as Ha.
  assert (page_fits c (with_model m s)) as Hp by (intros Hav; simpl in Hav; congruence).
  split_and!; try done. split; [apply Hok | | exact Hp].
  intros j t Hj. apply idle_ok. by apply (Ha (S j) j t); [lia |].
Qed.

Lemma check_finished_page c s s' x now :
  phase (view (model s)) = Checking ->
  (forall a, x = Ok (Some a) -> exists u, stored c s u /\ a = from_update u) ->
  s' = with_model (default (model s) (check_finished now x (model s))) s -> page_fits c s'.
Proof.
  intros Hph Hx ->. unfold page_fits, check_finished. rewrite Hph. simpl.
  destruct x as [[a |] | reason]; simpl; try done.
  intros _. destruct (Hx a eq_refl) as (u & Hu & ->). by exists u.
Qed.

(** ** Every action keeps the service sound *)

Lemma checker_step_ok c i looping pc now s : service_ok c s ->
  threads s !! i = Some (Checker looping pc) -> service_ok c (checker_step c i looping pc now s).
Proof.
  intros Hok Hi. pose proof (all_ok _ _ Hok i _ Hi) as Ht.
  assert (busy (if looping then Checker true Asleep else Over) = false) as Hleave by (by destruct looping).
  destruct pc as [| | | | answer | shown]; simpl in *.
  - destruct (check_due _ _); [|done]. by eapply service_ok_idle.
  - destruct (installing s); by eapply service_ok_idle.
  - destruct (mark_checking s) as [s' |] eqn:Hm; [|by eapply service_ok_idle].
    destruct (mark_checking_ok c s s' Hok Hm) as (Ha & Hph & _ & Hp & _). by apply service_ok_alone.
  - pose proof (busy_alone c s i _ Hok Hi eq_refl) as Ha. apply service_ok_alone; [done | | exact (page_ok _ _ Hok)].
    split; [done |]. by eexists.
  - destruct Ht as [Hph [epoch Hanswer]]. pose proof (busy_alone c s i _ Hok Hi eq_refl) as Ha.
    destruct (published c answer) as [o shown] eqn:Hpub.
    apply service_ok_alone; [by destruct o | | by destruct o; intros Hav; simpl in Hav; congruence].
    split; [by destruct o |]. intros x ->. unfold published in Hpub.
    destruct answer as [[v w | u | r] | e]; simplify_eq/=.
    destruct (negb (verified u) && _) eqn:Hver; simplify_eq/=.
    exists u. split; [|done]. split; [done |]. split; [|by exists epoch].
    apply andb_false_iff in Hver as [Hv | Hv]; apply negb_false_iff in Hv; auto.
  - destruct Ht as [Hph Hx]. pose proof (busy_alone c s i _ Hok Hi eq_refl) as Ha.
    apply service_ok_alone; [done | by apply idle_ok |].
    by apply (check_finished_page c s _ shown now Hph Hx eq_refl).
Qed.

Lemma installer_step_ok c i u s : service_ok c s -> threads s !! i = Some (Installer u) ->
  service_ok c (installer_step c i u s).
Proof.
  intros Hok Hi. pose proof (busy_alone c s i _ Hok Hi eq_refl) as Ha.
  destruct (all_ok _ _ Hok i _ Hi) as (Hph & _). unfold installer_step.
  destruct (run_install c u (disk s)) as [d r].
  assert (forall s', threads s' = threads s -> phase (view (model s')) <> Available_ ->
    service_ok c (goes_to i Leaving s')) as Hgo.
  { intros s' Ht Hp. apply service_ok_alone; [|done | by intros Hav].
    intros j t Hj. rewrite Ht. by apply Ha. }
  destruct r as [[version restart] | reason |].
  - set (m := default (model s) (download_finished version (model s))).
    assert (phase (view m) <> Available_) as Hm.
    { unfold m, download_finished. rewrite Hph. by simpl. }
    destruct restart; [apply (Hgo (with_exited (with_model m (with_disk d s)))) |
      apply (Hgo (with_model m (with_disk d s)))]; done.
  - by apply (Hgo (with_model (fail_with reason (model s)) (with_disk d s))).
  - apply (Hgo (with_exited (with_disk d s))); [done |]. simpl. by rewrite Hph.
Qed.

Lemma install_available_ok c spawned s : service_ok c s -> service_ok c (install_available spawned s).
Proof.
  intros Hok. unfold install_available. destruct (installing s); [done |].
  destruct (begin_download (model s)) as [m |] eqn:Hm; [|done].
  destruct (begin_download_spec _ _ Hm) as (Hav & Hdown & Hsame).
  destruct (page_ok _ _ Hok Hav) as (u & [Ho Hoff] & Hshown).
  assert (forall i, alone i s) as Ha by (apply (free_alone c s Hok); by rewrite Hav).
  assert (forall b, service_ok c (with_installing b (with_model m s))) as Hmid.
  { intros b. split; [apply Hok | | by intros Hp; simpl in Hp; congruence].
    intros j t Hj. apply idle_ok. by apply (Ha (S j) j t); [lia |]. }
  simpl. rewrite Ho. destruct spawned; [|apply (Hmid false)].
  apply service_ok_spawn; [by right | | apply Hmid].
  split; [done |]. split; [by split |]. simpl. by rewrite Hsame.
Qed.

Lemma act_ok c a s : service_ok c s -> service_ok c (act c a s).
Proof.
  intros Hok. unfold act. destruct (exited s); [done |]. destruct a as [| spawned | spawned | i now].
  - unfold start. destruct (started s); [done |].
    assert (service_ok c (with_started s)) as Hs by (by apply (service_ok_same c s)).
    destruct (is_self_updating _); [|done].
    apply service_ok_spawn; [by left | done |]. by apply service_ok_spawn; [left | |].
  - unfold check_now. destruct (mark_checking s) as [s' |] eqn:Hm; [|done].
    destruct (mark_checking_ok c s s' Hok Hm) as (_ & _ & _ & _ & Hs).
    destruct spawned; [|done]. by apply service_ok_spawn; [left | |].
  - by apply install_available_ok.
  - unfold thread_step. destruct (threads s !! i) as [[looping pc | u | | |] |] eqn:Hi; try done.
    + by apply checker_step_ok.
    + by apply installer_step_ok.
    + eapply service_ok_idle; [exact Hi | done | done |]. by apply (service_ok_same c s).
    + eapply service_ok_idle; [exact Hi | done | done |]. by apply (service_ok_same c s).
Qed.

Lemma new_ok c epoch now d : service_ok c (service_new c epoch now d).
Proof.
  unfold service_new. destruct (load _ d) as [d' r]. split; simpl.
  - by intros i j t t' Hi.
  - by intros i t Hi.
  - by destruct r.
Qed.

Lemma acts_ok c l s : service_ok c s -> service_ok c (acts c l s).
Proof. revert s. induction l as [| a l IH]; intros s Hs; [done |]. by apply IH, act_ok. Qed.

(** ** The wedge: a page that says it is checking, and nobody who checks *)

Definition wedged (s : Service) : Prop :=
  phase (view (model s)) = Checking /\ forall i t, threads s !! i = Some t -> busy t = false.

Lemma wedged_goes s i t : wedged s -> busy t = false -> wedged (goes_to i t s).
Proof.
  intros [Hp Ht] Hb. split; [done |]. intros j u Hj. simpl in Hj.
  destruct (decide (i = j)) as [<- | Hne].
  - destruct (decide (i < length (threads s))) as [Hl | Hl].
    + rewrite list_lookup_insert_eq in Hj by done. congruence.
    + rewrite list_insert_ge in Hj by lia. by apply (Ht i).
  - rewrite list_lookup_insert_ne in Hj by done. by apply (Ht j).
Qed.

Lemma wedged_spawn s t : wedged s -> busy t = false -> wedged (spawn t s).
Proof.
  intros [Hp Ht] Hb. split; [done |]. intros j u [Hj | [_ Hj]]%lookup_app_Some; [by apply (Ht j) |].
  by apply list_lookup_singleton_Some in Hj as [_ <-].
Qed.

Lemma wedged_mark s : wedged s -> mark_checking s = None.
Proof. intros [Hp _]. unfold mark_checking, begin_check. by rewrite Hp. Qed.

Lemma wedged_act c a s : wedged s -> wedged (act c a s).
Proof.
  intros Hw. pose proof Hw as [Hp Ht]. unfold act. destruct (exited s); [done |].
  destruct a as [| spawned | spawned | i now].
  - unfold start. destruct (started s); [done |]. destruct (is_self_updating _); [|done].
    by apply wedged_spawn; [apply wedged_spawn |].
  - unfold check_now. by rewrite wedged_mark.
  - unfold install_available. destruct (installing s); [done |].
    unfold begin_download, allows_install. by rewrite Hp.
  - unfold thread_step. destruct (threads s !! i) as [t |] eqn:Hi; [|done].
    specialize (Ht i t Hi). destruct t as [looping pc | u | | |]; try done.
    + assert (busy (if looping then Checker true Asleep else Over) = false) by (by destruct looping).
      destruct pc; try done; simpl.
      * destruct (check_due _ _); [by apply wedged_goes | done].
      * destruct (installing s); by apply wedged_goes.
      * rewrite wedged_mark by done. by apply wedged_goes.
    + by apply (wedged_goes (with_installing false s)).
    + by apply (wedged_goes (with_disk _ s)).
Qed.

Lemma wedged_acts c l s : wedged s -> wedged (acts c l s).
Proof. revert s. induction l as [| a l IH]; intros s Hs; [done |]. by apply IH, wedged_act. Qed.

(** ** The claims *)

(** C13: what is installed is what the page showed.  However the page's commands and the
    service's threads interleave, a thread that installs an update installs the one whose
    summary is on the page and that the service stores, which is an offer the client made
    to this installation on this platform and that is signed unless unsigned releases are
    allowed; and no other thread checks or installs beside it. *)
Theorem installed_is_what_was_shown c epoch now d l i u
    (Hi : threads (acts c l (service_new c epoch now d)) !! i = Some (Installer u)) :
  let s := acts c l (service_new c epoch now d) in
  available (view (model s)) = Some (from_update u) /\ stored c s u /\
  phase (view (model s)) = Downloading /\
  forall j t, j <> i -> threads s !! j = Some t -> busy t = false.
Proof.
  intros s. pose proof (acts_ok c l _ (new_ok c epoch now d)) as Hok.
  destruct (all_ok _ _ Hok i _ Hi) as (Hph & Hst & Hav). split; [done |]. split; [done |]. split; [done |].
  exact (busy_alone c _ i _ Hok Hi eq_refl).
Qed.

(** C15: a check the user asks for is never made, and no check after it.  From any state of the
    service in which the button takes effect, whatever happens next and however long, the
    page says it is checking, and no thread asks the release host or installs. *)
Theorem a_manual_check_is_never_made c epoch now d l spawned l'
    (Hrun : exited (acts c l (service_new c epoch now d)) = false)
    (Hfree : allows_check (phase (view (model (acts c l (service_new c epoch now d))))) = true) :
  let s := acts c (CheckNow spawned :: l') (acts c l (service_new c epoch now d)) in
  phase (view (model s)) = Checking /\
  forall i t, threads s !! i = Some t -> asks t = false /\ installs t = false.
Proof.
  intros s. subst s. set (s0 := acts c l (service_new c epoch now d)) in *.
  assert (service_ok c s0) as Hok by (apply acts_ok, new_ok).
  assert (wedged (act c (CheckNow spawned) s0)) as Hw.
  { unfold act. rewrite Hrun. unfold check_now.
    destruct (mark_checking s0) as [s' |] eqn:Hm.
    - destruct (mark_checking_ok c s0 s' Hok Hm) as (Ha & Hph & _).
      assert (wedged s') as Hs by (split; [done |]; intros i t Hi; by apply (Ha (S i) i t); [lia |]).
      destruct spawned; [by apply wedged_spawn | done].
    - unfold mark_checking, begin_check in Hm. by rewrite Hfree in Hm. }
  destruct (wedged_acts c l' _ Hw) as [Hp Ht]. split; [exact Hp |].
  intros i t Hi. by apply orb_false_iff, (Ht i).
Qed.
End service.

(** ** Witnesses *)

Section witness.
Import UpdateProps.Demo.
#[local] Existing Instance ascii_case.
#[local] Instance demo_clock : Clock := fun a b => (3600 * (Z.of_nat a - Z.of_nat b))%Z.
#[local] Instance demo_pending : PendingCodec :=
  {| pending_of_json _ := Err []; pending_to_json _ := Err [] |}.
#[local] Instance demo_processes : Processes :=
  {| spawn_swap_script _ _ _ := Err []; spawn_installer _ _ := Err [] |}.

Definition setting : Setting :=
  mkSetting config [lit "h"] (lit "0.2.0") Stable
    (mkInstallContext (lit "linux") [lit "opt"; lit "G"] None None) (lit "x86_64").
(** The start, a check of the loop up to its end, and the install. *)
Definition a_check : list Action := [Start; Run 0 0; Run 0 0; Run 0 0; Run 0 0; Run 0 0; Run 0 0].
Definition begun : Service := service_new setting 6 0 disk.

Lemma installed_is_what_was_shown_witness :
  threads (acts setting (a_check ++ [InstallAvailable true]) begun) !! 2 = Some (Installer update) /\
  s_version <$> available (view (model (acts setting (a_check ++ [InstallAvailable true]) begun))) = Some (lit "0.3.0") /\
  available (view (model (acts setting (a_check ++ [InstallAvailable true]) begun))) = Some (from_update update).
Proof.
  assert (threads (acts setting (a_check ++ [InstallAvailable true]) begun) !! 2 = Some (Installer update)) as Hi
    by reflexivity.
  split; [exact Hi |]. split; [reflexivity |].
  by destruct (installed_is_what_was_shown (H := demo_externs) setting 6 0 disk (a_check ++ [InstallAvailable true]) 2 update Hi).
Defined.

Definition later : list Action := [Run 2 1; Run 2 1; Run 0 24; Run 0 24; Run 0 24].
(** After the loop's check the button is pressed; a day later the page still says it checks. *)
Lemma a_manual_check_is_never_made_witness :
  phase (view (model (acts setting a_check begun))) = Available_ /\
  phase (view (model (acts setting (CheckNow true :: later)
    (acts setting a_check begun)))) = Checking.
Proof.
  split; [reflexivity |].
  assert (exited (acts setting a_check begun) = false) as Hrun by reflexivity.
  assert (allows_check (phase (view (model (acts setting a_check begun)))) = true) as Hfree by reflexivity.
  exact (proj1 (a_manual_check_is_never_made (H := demo_externs) setting 6 0 disk a_check true
    later Hrun Hfree)).
Defined.
End witness.
