(* ===== verification/Telemetry.v ===== *)
(** * Telemetry: what may leave the machine, and what it looks like

    [goble-telemetry/src]: [config.rs] (consent and the state kept between runs),
    [redact.rs], [breadcrumbs.rs], [features.rs] and [report.rs].  [DateTime<Utc>] is its
    nanoseconds since the epoch and a duration its nanoseconds; a fresh UUID is an argument
    of what mints it. *)

From Stdlib Require Import SpecFloat.
From S2P Require Import Prelude Bytes Text Sys Fields UpdateManifest.

(** ** The features a client counts ([features.rs]) *)

Module Features.

Inductive Feature : Type :=
| OnboardingCompleted
| FirstTurnCompleted
| FirstTerminalCommand
| TurnCompleted
| ToolCallFinished
| ApprovalDecision
| TerminalCommandRun
| SessionSummary
| UpdateCheck
| Crash.
#[export] Instance Feature_eq_dec : EqDecision Feature.
Proof. solve_decision. Defined.

Definition ALL : list Feature :=
  [OnboardingCompleted; FirstTurnCompleted; FirstTerminalCommand; TurnCompleted; ToolCallFinished;
   ApprovalDecision; TerminalCommandRun; SessionSummary; UpdateCheck; Crash].

Definition as_str (f : Feature) : Str :=
  match f with
  | OnboardingCompleted => lit "onboarding_completed"
  | FirstTurnCompleted => lit "first_turn_completed"
  | FirstTerminalCommand => lit "first_terminal_command"
  | TurnCompleted => lit "turn_completed"
  | ToolCallFinished => lit "tool_call_finished"
  | ApprovalDecision => lit "approval_decision"
  | TerminalCommandRun => lit "terminal_command_run"
  | SessionSummary => lit "session_summary"
  | UpdateCheck => lit "update_check"
  | Crash => lit "crash"
  end.
Definition from_name (name : Str) : option Feature :=
  find (fun f => bool_decide (as_str f = name)) ALL.
Definition once_per_installation (f : Feature) : bool :=
  match f with OnboardingCompleted | FirstTurnCompleted | FirstTerminalCommand => true | _ => false end.

Inductive Outcome : Type := Success | Error | Cancelled | Denied.
#[export] Instance Outcome_eq_dec : EqDecision Outcome.
Proof. solve_decision. Defined.
Definition outcome_as_str (o : Outcome) : Str :=
  match o with
  | Success => lit "success"
  | Error => lit "error"
  | Cancelled => lit "cancelled"
  | Denied => lit "denied"
  end.

End Features.

(** ** Consent and configuration ([config.rs]) *)

Module Config.
Import Features.

Definition ENV_ENABLED : Str := lit "GOBLE_TELEMETRY".
Definition ENV_ENDPOINT : Str := lit "GOBLE_TELEMETRY_ENDPOINT".
Definition ENV_ROLE : Str := lit "GOBLE_TELEMETRY_ROLE".
Definition ENV_DO_NOT_TRACK : Str := lit "DO_NOT_TRACK".
Definition DEFAULT_ENDPOINT : Str := lit "https://telemetry.octomus.dev".

Inductive Channel : Type := Stable | Beta | Dev.
#[export] Instance Channel_eq_dec : EqDecision Channel.
Proof. solve_decision. Defined.
Definition channel_as_str (c : Channel) : Str :=
  match c with Stable => lit "stable" | Beta => lit "beta" | Dev => lit "dev" end.
Definition reports_by_default (c : Channel) : bool := match c with Dev => false | _ => true end.

Inductive Role : Type := Desktop | Worker | Sandbox.
#[export] Instance Role_eq_dec : EqDecision Role.
Proof. solve_decision. Defined.
Definition role_as_str (r : Role) : Str :=
  match r with Desktop => lit "desktop" | Worker => lit "worker" | Sandbox => lit "sandbox" end.
Definition parse_role (value : Str) : Role :=
  let v := lower (trim value) in
  if bool_decide (v = lit "worker") then Worker
  else if bool_decide (v = lit "sandbox") then Sandbox
  else Desktop.

Inductive ConsentSource : Type := Default_ | UserSetting | Environment_ | DoNotTrack.
#[export] Instance ConsentSource_eq_dec : EqDecision ConsentSource.
Proof. solve_decision. Defined.
Definition source_as_str (s : ConsentSource) : Str :=
  match s with
  | Default_ => lit "default"
  | UserSetting => lit "user setting"
  | Environment_ => lit "environment"
  | DoNotTrack => lit "do-not-track"
  end.

Record Consent : Type := mkConsent { upload : bool; source : ConsentSource }.

(** [trait Environment]. *)
Definition Environment : Type := Str -> option Str.

Definition parse_bool (value : Str) : option bool :=
  let v := lower (trim value) in
  if bool_decide (v ∈ [lit "1"; lit "true"; lit "yes"; lit "on"]) then Some true
  else if bool_decide (v ∈ [lit "0"; lit "false"; lit "no"; lit "off"]) then Some false
  else None.
Definition is_truthy (value : Str) : bool := default true (parse_bool value).

Definition resolve (channel : Channel) (stored : option bool) (env : Environment) : Consent :=
  if from_option is_truthy false (env ENV_DO_NOT_TRACK) then mkConsent false DoNotTrack
  else
    match env ENV_ENABLED ≫= parse_bool with
    | Some value => mkConsent value Environment_
    | None =>
        match stored with
        | Some u => mkConsent u UserSetting
        | None => mkConsent (reports_by_default channel) Default_
        end
    end.

(** [TelemetryPaths]: its root. *)
Definition reports_dir (root : Path) : Path := root ++ [lit "crashes"].
Definition queue_dir (root : Path) : Path := root ++ [lit "telemetry-queue"].
Definition telemetry_state_path (root : Path) : Path := root ++ [lit "telemetry.json"].
Definition ensure (root : Path) : M IoError () :=
  create_dir_all (reports_dir root) ≫= fun _ => create_dir_all (queue_dir root).

(** [BTreeSet<String>] is a set of names. *)
Record TelemetryState : Type := mkTelemetryState {
  stored_upload : option bool;
  install_id : Str;
  link_id : option Str;
  seen_once : gset (list N);
  notice_shown : bool;
}.
Definition default_state : TelemetryState := mkTelemetryState None [] None ∅ false.

(** [serde_json] on the state. *)
Class TelemetryStateCodec : Type := {
  telemetry_state_of_json : Str -> result Str TelemetryState;
  telemetry_state_to_json : TelemetryState -> result Str Str;
}.

Section state.
Context `{!TelemetryStateCodec}.

(** [TelemetryState::load]: whatever goes wrong, the defaults. *)
Definition load_state {E : Type} (p : Path) : M E TelemetryState :=
  r ← attempt (read_to_string p);
  match r with
  | Err _ => mret default_state
  | Ok text =>
      match telemetry_state_of_json text with
      | Ok s => mret s
      | Err _ => mret default_state
      end
  end.

Definition store_state (s : TelemetryState) (p : Path) : M IoError () :=
  create_dir_all (parent p) ≫= fun _ =>
  match telemetry_state_to_json s with
  | Err reason => fail (Other reason)
  | Ok text =>
      let temporary := with_extension p (lit "json.tmp") in
      write temporary (as_bytes text) ≫= fun _ => rename temporary p
  end.

Definition ensure_install_id {E : Type} (fresh : Str) (p : Path) (s : TelemetryState) : M E TelemetryState :=
  if bool_decide (install_id s = []) then
    let s := mkTelemetryState (stored_upload s) fresh (link_id s) (seen_once s) (notice_shown s) in
    ignore (store_state s p) ≫= fun _ => mret s
  else mret s.

Definition with_link (l : option Str) (s : TelemetryState) : TelemetryState :=
  mkTelemetryState (stored_upload s) (install_id s) l (seen_once s) (notice_shown s).

Definition ensure_link_id {E : Type} (fresh : Str) (p : Path) (s : TelemetryState) :
  M E (TelemetryState * Str) :=
  match link_id s with
  | Some l => mret (s, l)
  | None =>
      let s := with_link (Some fresh) s in
      ignore (store_state s p) ≫= fun _ => mret (s, fresh)
  end.

Definition set_link_id {E : Type} (l : Str) (p : Path) (s : TelemetryState) : M E (TelemetryState * bool) :=
  let l := trim l in
  if bool_decide (l = []) then mret (s, false)
  else if bool_decide (link_id s = Some l) then mret (s, true)
  else
    let s := with_link (Some l) s in
    ignore (store_state s p) ≫= fun _ => mret (s, true).

Definition clear_link_id {E : Type} (p : Path) (s : TelemetryState) : M E TelemetryState :=
  let s' := with_link None s in
  if bool_decide (is_Some (link_id s)) then ignore (store_state s' p) ≫= fun _ => mret s' else mret s'.

Definition mark_once {E : Type} (f : Feature) (p : Path) (s : TelemetryState) : M E (TelemetryState * bool) :=
  if bool_decide (as_str f ∈ seen_once s) then mret (s, false)
  else
    let s := mkTelemetryState (stored_upload s) (install_id s) (link_id s)
               ({[ as_str f ]} ∪ seen_once s) (notice_shown s) in
    ignore (store_state s p) ≫= fun _ => mret (s, true).

Definition once_seen (f : Feature) (s : TelemetryState) : bool := bool_decide (as_str f ∈ seen_once s).
End state.

(** [f64], as the Standard Library's [SpecFloat] computes it. *)
Definition f64_of_N (n : N) : spec_float := binary_normalize 53 1024 (Z.of_N n) 0 false.
Definition clamp01 (x : spec_float) : spec_float :=
  if SFltb x (f64_of_N 0) then f64_of_N 0 else if SFltb (f64_of_N 1) x then f64_of_N 1 else x.

Record TelemetryConfig : Type := mkTelemetryConfig {
  app_version : Str;
  channel : Channel;
  endpoint : Str;
  consent_ : Consent;
  root : Path;
  max_attempts_ : N;
  max_queued_ : nat;
  max_batch_ : nat;
  max_age_ : Z;
  secrets_ : list Str;
  os_ : option Str;
  os_version_ : option Str;
  arch_ : option Str;
  session_id_ : option Str;
  role_ : Role;
  link_id_ : option Str;
  sample_rates : Feature -> option spec_float;
  locale_ : option Str;
}.

Definition trim_end_slashes (s : Str) : Str := reverse (trim_start_matches (fun c => (c =? SLASH)%N) (reverse s)).
Definition collector (c : TelemetryConfig) : Str := trim_end_slashes (endpoint c).

Definition sample_rate (c : TelemetryConfig) (f : Feature) : spec_float :=
  clamp01 (default (f64_of_N 1) (sample_rates c f)).

(** [TelemetryConfig::resolved]. *)
Definition resolved `{!TelemetryStateCodec} {E : Type} (env : Environment) (c : TelemetryConfig) :
  M E TelemetryConfig :=
  let endpoint :=
    match trim <$> env ENV_ENDPOINT with
    | Some e => if bool_decide (e = []) then endpoint c else e
    | None => endpoint c
    end in
  let role := from_option parse_role (role_ c) (env ENV_ROLE) in
  load_state (telemetry_state_path (root c)) ≫= fun s =>
  mret (mkTelemetryConfig (app_version c) (channel c) endpoint (resolve (channel c) (stored_upload s) env)
    (root c) (max_attempts_ c) (max_queued_ c) (max_batch_ c) (max_age_ c) (secrets_ c) (os_ c)
    (os_version_ c) (arch_ c) (session_id_ c) role (link_id_ c) (sample_rates c) (locale_ c)).

End Config.

(** ** Redaction ([redact.rs]) *)

Module Redact.

Definition REDACTED : Str := lit "[redacted]".

(** [str::contains] and [str::replace], of a pattern that is not empty; [skip] characters
    of an occurrence are left. *)
Definition contains (s pat : Str) : bool := bool_decide (is_Some (find_str s pat)).
Fixpoint replace_from (pat to : Str) (skip : nat) (s : Str) : Str :=
  match s with
  | [] => []
  | c :: s' =>
      match skip with
      | S skip => replace_from pat to skip s'
      | O =>
          if starts_with s pat then to ++ replace_from pat to (pred (length pat)) s'
          else c :: replace_from pat to 0 s'
      end
  end.
Definition replace_str (s pat to : Str) : Str := replace_from pat to 0 s.

(** A match: where it starts and ends, and where its first group ends; the two patterns
    with a group start with it. *)
Record Match : Type := mkMatch { m_start : nat; g_end : nat; m_end : nat }.

(** The five regular expressions, by the successive matches they find. *)
Class Patterns : Type := {
  credential_header : Str -> list Match;
  assignment : Str -> list Match;
  prefixed : Str -> list Match;
  opaque : Str -> list Match;
  email : Str -> list Match;
}.

(** [Regex::replace_all]. *)
Definition slice (s : Str) (from to : nat) : Str := take (to - from) (drop from s).
Fixpoint replace_matches (rep : Str -> Str) (s : Str) (from : nat) (l : list Match) : Str :=
  match l with
  | [] => drop from s
  | m :: l' =>
      slice s from (m_start m) ++ rep (slice s (m_start m) (g_end m)) ++ replace_matches rep s (m_end m) l'
  end.
Definition replace_all (find_all : Str -> list Match) (rep : Str -> Str) (s : Str) : Str :=
  replace_matches rep s 0 (find_all s).

Record Redactor : Type := mkRedactor { home : option Str; secrets : list Str }.

Definition TILDE : Str := lit "~".

(** [home_directory]. *)
Definition trim_end_seps (s : Str) : Str :=
  reverse (trim_start_matches (fun c => (c =? SLASH)%N || (c =? BACKSLASH)%N) (reverse s)).
Definition home_directory (env : Config.Environment) : option Str :=
  let dir name := v ← env name; let v := trim_end_seps (trim v) in if bool_decide (v = []) then None else Some v in
  match dir (lit "HOME") with Some v => Some v | None => dir (lit "USERPROFILE") end.

Definition redactor_new (env : Config.Environment) : Redactor := mkRedactor (home_directory env) [].
Definition with_home (h : Str) (r : Redactor) : Redactor :=
  mkRedactor (if bool_decide (h = []) then None else Some h) (secrets r).
Definition with_secret (secret : Str) (r : Redactor) : Redactor :=
  if (4 <=? length (as_bytes secret)) then mkRedactor (home r) (secrets r ++ [secret]) else r.

Definition withhold (out secret : Str) : Str :=
  if contains out secret then replace_str out secret REDACTED else out.

Definition hide_home (h : Str) (out : Str) : Str :=
  let out := replace_str out h TILDE in
  let escaped := (fun c => if (c =? SLASH)%N then BACKSLASH else c) <$> h in
  if bool_decide (escaped <> h) then replace_str out escaped TILDE else out.

Definition scrub `{Patterns} (r : Redactor) (text : Str) : Str :=
  if bool_decide (text = []) then []
  else
    let out := foldl withhold text (secrets r) in
    let out := from_option (fun h => hide_home h out) out (home r) in
    let out := replace_all credential_header (fun g => g ++ SPACE :: REDACTED) out in
    let out := replace_all assignment (fun g => g ++ SPACE :: REDACTED) out in
    let out := replace_all prefixed (fun _ => REDACTED) out in
    let out := replace_all opaque (fun _ => REDACTED) out in
    replace_all email (fun _ => lit "[email]") out.
Definition scrub_opt `{Patterns} (r : Redactor) (text : option Str) : option Str := scrub r <$> text.

End Redact.

(** ** The log tail ([breadcrumbs.rs]) *)

(** Cut to a byte budget at a character's end. *)
Fixpoint fitting (budget : nat) (s : Str) : Str :=
  match s with
  | [] => []
  | c :: s' =>
      let n := length (encode_utf8 c) in
      if n <=? budget then c :: fitting (budget - n) s' else []
  end.
Definition truncate_to (suffix : Str) (text : Str) (cap : nat) : Str :=
  if (length (as_bytes text) <=? cap) then text else fitting cap text ++ suffix.

Module Crumbs.

Definition DEFAULT_LIMIT : nat := 200.
Definition DEFAULT_MESSAGE_CAP : nat := 512.
Definition ELLIPSIS : char := 8230%N.

Inductive Level : Type := Error | Warn | Info | Debug | Trace.
Definition level_as_str (l : Level) : Str :=
  match l with
  | Error => lit "ERROR"
  | Warn => lit "WARN"
  | Info => lit "INFO"
  | Debug => lit "DEBUG"
  | Trace => lit "TRACE"
  end.

Record Breadcrumb : Type := mkBreadcrumb {
  at_ : Z;
  level : Str;
  target : Str;
  message : Str;
  repeats : N;
}.
#[export] Instance Breadcrumb_eq_dec : EqDecision Breadcrumb.
Proof. solve_decision. Defined.

Record Breadcrumbs : Type := mkBreadcrumbs {
  entries : list Breadcrumb;
  limit : nat;
  message_cap : nat;
}.
Definition breadcrumbs_new (limit : nat) : Breadcrumbs := mkBreadcrumbs [] (Nat.max limit 1) DEFAULT_MESSAGE_CAP.
Definition with_message_cap (cap : nat) (b : Breadcrumbs) : Breadcrumbs :=
  mkBreadcrumbs (entries b) (limit b) (Nat.max cap 1).

(** [while entries.len() > limit { entries.pop_front(); }]. *)
Definition pop_to {A} (limit : nat) (l : list A) : list A := drop (length l - limit) l.

Definition record (lvl : Level) (target_ message_ : Str) (now : Z) (b : Breadcrumbs) : Breadcrumbs :=
  let text := truncate_to [ELLIPSIS] (trim message_) (message_cap b) in
  let fresh := entries b ++ [mkBreadcrumb now (level_as_str lvl) target_ text 1] in
  match last (entries b) with
  | Some l =>
      if bool_decide (level l = level_as_str lvl) && bool_decide (target l = target_)
         && bool_decide (message l = text)
      then mkBreadcrumbs
             (removelast (entries b) ++ [mkBreadcrumb now (level l) (target l) (message l)
                                           (u32_saturating_add (repeats l) 1)])
             (limit b) (message_cap b)
      else mkBreadcrumbs (pop_to (limit b) fresh) (limit b) (message_cap b)
  | None => mkBreadcrumbs (pop_to (limit b) fresh) (limit b) (message_cap b)
  end.

Definition clear (b : Breadcrumbs) : Breadcrumbs := mkBreadcrumbs [] (limit b) (message_cap b).

End Crumbs.

(** ** What travels ([report.rs]) *)

Module Report.
Import Features Config Redact Crumbs.

Definition SCHEMA : N := 2.
Definition LEGACY_SCHEMA : N := 1.
Definition LEGACY_EVENT_PREFIX : Str := lit "legacy-".
Definition MESSAGE_CAP : nat := 4 * 1024.
Definition BACKTRACE_CAP : nat := 64 * 1024.
Definition NOTE_CAP : nat := 1024.
Definition TRUNCATED : Str := ELLIPSIS :: lit "[truncated]".

Record ClientContext : Type := mkClientContext {
  c_app_version : Str;
  c_channel : Channel;
  c_os : Str;
  c_os_version : option Str;
  c_arch : Str;
  c_install_id : Str;
  c_link_id : option Str;
  c_role : Role;
  c_session_id : Str;
}.
Definition unattributed : ClientContext :=
  mkClientContext (lit "unknown") Dev (lit "unknown") None (lit "unknown") (lit "unknown") None Desktop
    (lit "unknown").

Inductive CrashKind : Type := Panic | Abort | Reported.

Record CrashReport : Type := mkCrashReport {
  schema : N;
  id : Str;
  fingerprint_ : Str;
  captured_at : Z;
  kind : CrashKind;
  message : Str;
  location : option Str;
  thread : option Str;
  backtrace : option Str;
  note : option Str;
  context : ClientContext;
  breadcrumbs : list Breadcrumb;
}.

(** The message as it is hashed: a run of digits is an [N], a run of white space a space. *)
Fixpoint normalized (last_was_space in_number : bool) (s : Str) : Str :=
  match s with
  | [] => []
  | c :: s' =>
      if is_ascii_digit c then
        if in_number then normalized false true s' else lit "N" ++ normalized false true s'
      else if is_whitespace c then
        if last_was_space then normalized true false s' else SPACE :: normalized true false s'
      else to_ascii_lowercase c :: normalized false false s'
  end.
(** Eight bytes in hexadecimal. *)
Definition fingerprint `{Crypto} (message : Str) : Str :=
  take 16 (sha256_hex (as_bytes (normalized false false (trim message)))).

Definition crash_report_new `{Crypto} (ctx : ClientContext) (k : CrashKind) (message : Str) (fresh : Str)
    (now : Z) : CrashReport :=
  let text := truncate_to TRUNCATED (trim message) MESSAGE_CAP in
  mkCrashReport SCHEMA fresh (fingerprint text) now k text None None None None ctx [].

Definition with_location (v : option Str) (r : CrashReport) : CrashReport :=
  mkCrashReport (schema r) (id r) (fingerprint_ r) (captured_at r) (kind r) (message r)
    ((fun t => truncate_to TRUNCATED t MESSAGE_CAP) <$> v) (thread r) (backtrace r) (note r) (context r)
    (breadcrumbs r).
Definition with_thread (v : option Str) (r : CrashReport) : CrashReport :=
  mkCrashReport (schema r) (id r) (fingerprint_ r) (captured_at r) (kind r) (message r) (location r) v
    (backtrace r) (note r) (context r) (breadcrumbs r).
Definition with_backtrace (v : option Str) (r : CrashReport) : CrashReport :=
  mkCrashReport (schema r) (id r) (fingerprint_ r) (captured_at r) (kind r) (message r) (location r)
    (thread r) ((fun t => truncate_to TRUNCATED t BACKTRACE_CAP) <$> v) (note r) (context r) (breadcrumbs r).
Definition with_note (v : option Str) (r : CrashReport) : CrashReport :=
  mkCrashReport (schema r) (id r) (fingerprint_ r) (captured_at r) (kind r) (message r) (location r)
    (thread r) (backtrace r) ((fun t => truncate_to TRUNCATED t NOTE_CAP) <$> v) (context r) (breadcrumbs r).
Definition with_breadcrumbs (l : list Breadcrumb) (r : CrashReport) : CrashReport :=
  mkCrashReport (schema r) (id r) (fingerprint_ r) (captured_at r) (kind r) (message r) (location r)
    (thread r) (backtrace r) (note r) (context r) l.

Definition redacted `{Patterns} (red : Redactor) (r : CrashReport) : CrashReport :=
  mkCrashReport (schema r) (id r) (fingerprint_ r) (captured_at r) (kind r) (scrub red (message r))
    (scrub_opt red (location r)) (scrub_opt red (thread r)) (scrub_opt red (backtrace r))
    (scrub_opt red (note r)) (context r)
    ((fun b => mkBreadcrumb (at_ b) (level b) (scrub red (target b)) (scrub red (Crumbs.message b)) (repeats b))
       <$> breadcrumbs r).

Inductive TelemetryEvent : Type :=
| AppStarted (locale : option Str)
| AppExited (uptime_secs : N) (exit_code : option Z)
| FeatureUsed (feature : Feature) (outcome : Outcome) (duration_ms : option N)
| LinkMerged (from into_link : Str).

Record EventEnvelope : Type := mkEventEnvelope {
  e_schema : N;
  event_id : Str;
  occurred_at : Z;
  e_context : ClientContext;
  event : TelemetryEvent;
}.
Definition envelope_new (ctx : ClientContext) (e : TelemetryEvent) (fresh : Str) (now : Z) : EventEnvelope :=
  mkEventEnvelope SCHEMA fresh now ctx e.
Definition is_legacy (e : EventEnvelope) : bool := starts_with (event_id e) LEGACY_EVENT_PREFIX.
Definition arrived_as_schema (e : EventEnvelope) : N := if is_legacy e then LEGACY_SCHEMA else e_schema e.

Inductive LegacyEventV1 : Type :=
| LegacyAppStarted (context : ClientContext) (locale : option Str)
| LegacyAppExited (uptime_secs : N) (exit_code : option Z)
| LegacyFeatureUsed (name : Str) (duration_ms : option N).

Definition into_envelope (e : LegacyEventV1) (received_at : Z) (fresh : Str) : option EventEnvelope :=
  let envelope ctx e := Some (mkEventEnvelope SCHEMA (LEGACY_EVENT_PREFIX ++ fresh) received_at ctx e) in
  match e with
  | LegacyAppStarted ctx locale => envelope ctx (AppStarted locale)
  | LegacyAppExited uptime code => envelope unattributed (AppExited uptime code)
  | LegacyFeatureUsed name duration =>
      f ← from_name name; envelope unattributed (FeatureUsed f Features.Error duration)
  end.

Inductive QueuedItem : Type := Crash_ (report : CrashReport) | Event_ (envelope : EventEnvelope).
Definition endpoint_path (i : QueuedItem) : Str :=
  match i with Crash_ _ => lit "/v1/crashes" | Event_ _ => lit "/v1/events" end.
Definition item_label (i : QueuedItem) : Str := match i with Crash_ _ => lit "crash" | Event_ _ => lit "event" end.
Definition is_crash (i : QueuedItem) : bool := match i with Crash_ _ => true | Event_ _ => false end.

End Report.
