(* ===== verification/TelemetryQueue.v ===== *)
(** * TelemetryQueue: what waits on disk, and how it is sent

    [goble-telemetry/src]: [queue.rs], the archive of [report.rs], [upload.rs] and
    [lib.rs].  The collector is an [Uploader]: what it answers to each request of a drain.
    The upload thread is a value, the time it will wait; what wakes it is an action of the
    process, like the calls of the application. *)

From Stdlib Require Import SpecFloat.
From S2P Require Import Prelude Bytes Text Sys Fields UpdateManifest UpdateClient Telemetry.
Import Features Config Redact Report.

(** [serde_json] on an entry, a report and the body of a request. *)
Class TelemetryCodec : Type := {
  report_to_json : CrashReport -> result Str Str;
  item_to_json : QueuedItem -> result Str Bytes;
  batch_to_json : list QueuedItem -> result Str Bytes;
}.

(** [{:013}] of a count of milliseconds. *)
Definition zeros (n : nat) : Str := repeat 48%N n.
Definition pad (width : nat) (s : Str) : Str := zeros (width - length s) ++ s.
Definition show_millis (ms : Z) : Str :=
  if (ms <? 0)%Z then MINUS :: pad 12 (show_N (Z.to_N (- ms))) else pad 13 (show_N (Z.to_N ms)).
Definition NANOS_PER_MILLI : Z := 1000000.
Definition NANOS_PER_SECOND : Z := 1000000000.
Definition timestamp_millis (at_ : Z) : Z := (at_ / NANOS_PER_MILLI)%Z.

(** [write_atomic] of [lib.rs]. *)
Definition write_atomic (p : Path) (bytes : Bytes) : M IoError () :=
  let temporary := with_extension p (lit "tmp") in
  write temporary bytes ≫= fun _ => rename temporary p.

(** The [.json] files of a directory. *)
Definition is_json (name : Str) : bool := bool_decide (extension [name] = Some (lit "json")).
Definition json_names (names : list Str) : list Str := filter (fun n => is_json n = true) names.

(** ** The queue *)

Module Queue.

Record QueueEntry : Type := mkQueueEntry {
  q_id : Str;
  queued_at : Z;
  attempts : N;
  item : QueuedItem;
}.

(** [serde_json] on an entry. *)
Class EntryCodec : Type := {
  entry_of_json : Str -> result Str QueueEntry;
  entry_to_json : QueueEntry -> result Str Str;
}.

Definition entry_new (i : QueuedItem) (fresh : Str) (now : Z) : QueueEntry := mkQueueEntry fresh now 0 i.

Record CrashQueue : Type := mkCrashQueue {
  dir : Path;
  max_queued : nat;
  max_age : Z;
}.
Definition crash_queue_new (dir : Path) (max_queued : nat) (max_age : Z) : CrashQueue :=
  mkCrashQueue dir (Nat.max max_queued 1) max_age.

Definition path_for (q : CrashQueue) (e : QueueEntry) : Path :=
  dir q ++ [show_millis (timestamp_millis (queued_at e)) ++ MINUS :: take 8 (q_id e) ++ lit ".json"].

Section queue.
Context `{!EntryCodec}.

(** The loop of [entries]: what cannot be read or parsed is removed. *)
Fixpoint read_entries {E : Type} (paths : list Path) : M E (list (Path * QueueEntry)) :=
  match paths with
  | [] => mret []
  | p :: paths' =>
      attempt (read_to_string p) ≫= fun text =>
      match text with
      | Err _ => ignore (remove_file p) ≫= fun _ => read_entries paths'
      | Ok text =>
          match entry_of_json text with
          | Ok e => read_entries paths' ≫= fun rest => mret ((p, e) :: rest)
          | Err _ => ignore (remove_file p) ≫= fun _ => read_entries paths'
          end
      end
  end.
Definition entries {E : Type} (q : CrashQueue) : M E (list (Path * QueueEntry)) :=
  attempt (read_dir (dir q)) ≫= fun names =>
  match names with
  | Err _ => mret []
  | Ok names => read_entries ((fun n => dir q ++ [n]) <$> sort_strs (json_names names))
  end.

Definition attempted (e : QueueEntry) : QueueEntry :=
  mkQueueEntry (q_id e) (queued_at e) (u32_saturating_add (attempts e) 1) (item e).
Definition record_attempt (p : Path) (e : QueueEntry) : M IoError () :=
  match entry_to_json (attempted e) with
  | Err reason => fail (Other reason)
  | Ok text => write_atomic p (as_bytes text)
  end.

Definition remove (p : Path) : M IoError () :=
  attempt (remove_file p) ≫= fun r =>
  match r with
  | Ok _ | Err NotFound => mret tt
  | Err e => fail e
  end.

Definition too_old (q : CrashQueue) (now : Z) (e : QueueEntry) : bool :=
  let age := (now - queued_at e)%Z in
  (0 <? Z.quot age NANOS_PER_SECOND)%Z && (max_age q <? age)%Z.
(** The two loops of [prune]: what is too old goes, then the oldest over the count. *)
Fixpoint drop_old (q : CrashQueue) (now : Z) (l : list (Path * QueueEntry)) :
  M IoError (list (Path * QueueEntry) * nat) :=
  match l with
  | [] => mret ([], 0)
  | (p, e) :: l' =>
      if too_old q now e then
        remove p ≫= fun _ => drop_old q now l' ≫= fun '(keep, n) => mret (keep, S n)
      else drop_old q now l' ≫= fun '(keep, n) => mret ((p, e) :: keep, n)
  end.
Fixpoint remove_each (paths : list Path) : M IoError () :=
  match paths with
  | [] => mret tt
  | p :: paths' => remove p ≫= fun _ => remove_each paths'
  end.
Definition prune (q : CrashQueue) (now : Z) : M IoError nat :=
  entries q ≫= fun l =>
  drop_old q now l ≫= fun '(keep, n) =>
  let overflow := length keep - max_queued q in
  remove_each (take overflow keep).*1 ≫= fun _ => mret (n + overflow).

Definition enqueue_entry (q : CrashQueue) (e : QueueEntry) (now : Z) : M IoError Path :=
  create_dir_all (dir q) ≫= fun _ =>
  let p := path_for q e in
  match entry_to_json e with
  | Err reason => fail (Other reason)
  | Ok text =>
      write_atomic p (as_bytes text) ≫= fun _ =>
      ignore (prune q now) ≫= fun _ => mret p
  end.
(** [at_] is the clock when the entry is made, [now] when the queue is pruned. *)
Definition enqueue (q : CrashQueue) (i : QueuedItem) (fresh : Str) (at_ now : Z) : M IoError Path :=
  enqueue_entry q (entry_new i fresh at_) now.

Definition len {E : Type} (q : CrashQueue) : M E nat := l ← entries q; mret (length l).
Definition clear (q : CrashQueue) : M IoError () :=
  l ← entries q; remove_each l.*1.
Definition crash_count {E : Type} (q : CrashQueue) : M E nat :=
  l ← entries q; mret (length (filter (fun '(_, e) => is_crash (item e) = true) l)).
End queue.

End Queue.

(** ** The archive of reports ([report.rs]) *)

Module Archive.

Record ReportArchive : Type := mkReportArchive { dir : Path; limit : nat }.
Definition report_archive_new (dir : Path) (limit : nat) : ReportArchive := mkReportArchive dir (Nat.max limit 1).

Definition list_ {E : Type} (a : ReportArchive) : M E (list Path) :=
  attempt (read_dir (dir a)) ≫= fun names =>
  match names with
  | Err _ => mret []
  | Ok names => mret ((fun n => dir a ++ [n]) <$> reverse (sort_strs (json_names names)))
  end.

Fixpoint remove_reports (paths : list Path) : M IoError nat :=
  match paths with
  | [] => mret 0
  | p :: paths' =>
      attempt (remove_file p) ≫= fun r =>
      match r with
      | Ok _ => remove_reports paths' ≫= fun n => mret (S n)
      | Err NotFound => remove_reports paths'
      | Err e => fail e
      end
  end.
Definition archive_prune (a : ReportArchive) : M IoError nat :=
  list_ a ≫= fun l => remove_reports (drop (limit a) l).

Definition archive_path (a : ReportArchive) (r : CrashReport) : Path :=
  dir a ++ [lit "crash-" ++ show_millis (timestamp_millis (captured_at r)) ++ MINUS :: take 8 (id r) ++ lit ".json"].
Definition archive_write `{!TelemetryCodec} (a : ReportArchive) (r : CrashReport) : M IoError Path :=
  create_dir_all (dir a) ≫= fun _ =>
  let p := archive_path a r in
  match report_to_json r with
  | Err reason => fail (Other reason)
  | Ok text =>
      write_atomic p (as_bytes text) ≫= fun _ =>
      ignore (archive_prune a) ≫= fun _ => mret p
  end.

End Archive.

(** ** Uploading *)

(** How [http] prints a status. *)
Class StatusText : Type := { show_status : N -> Str }.

Module Upload.
Import Queue.

Inductive UploadErrorKind : Type := Transport | Retryable | Rejected.
#[export] Instance UploadErrorKind_eq_dec : EqDecision UploadErrorKind.
Proof. solve_decision. Defined.
Record UploadError : Type := mkUploadError { error_kind : UploadErrorKind; error_message : Str }.
Definition is_permanent (e : UploadError) : bool := bool_decide (error_kind e = Rejected).

(** A request of [upload] or [upload_events]. *)
Inductive Request : Type := One (base : Str) (i : QueuedItem) | Batch (base : Str) (l : list QueuedItem).
Definition carried (r : Request) : list QueuedItem := match r with One _ i => [i] | Batch _ l => l end.

(** What a collector answers to the [n]th request of a drain. *)
Definition Uploader : Type := nat -> Request -> result UploadError ().

(** [HttpUploader] over a transport: an error, or a status. *)
Definition post `{!StatusText} (net : Str -> Bytes -> result Str N) (url : Str) (body : Bytes) : result UploadError () :=
  match net url body with
  | Err reason => Err (mkUploadError Transport reason)
  | Ok status =>
      let said := lit "collector answered " ++ show_status status in
      if is_success status then Ok tt
      else if ((500 <=? status) && (status <? 600) || (status =? 408) || (status =? 429))%N
      then Err (mkUploadError Retryable said)
      else Err (mkUploadError Rejected said)
  end.
Definition http_upload `{!TelemetryCodec, !StatusText} (net : Str -> Bytes -> result Str N) (r : Request) :
  result UploadError () :=
  match r with
  | One base i =>
      match item_to_json i with
      | Err reason => Err (mkUploadError Rejected (lit "could not encode item: " ++ reason))
      | Ok body => post net (trim_end_slashes base ++ endpoint_path i) body
      end
  | Batch base [] => Ok tt
  | Batch base l =>
      match batch_to_json l with
      | Err reason => Err (mkUploadError Rejected (lit "could not encode the batch: " ++ reason))
      | Ok body => post net (trim_end_slashes base ++ lit "/v1/events") body
      end
  end.

Record UploadConfig : Type := mkUploadConfig {
  base : Str;
  max_attempts : N;
  max_batch : nat;
  min_batch : nat;
  max_wait : Z;
  backoff : Z;
  interval : Z;
}.

Record UploadOutcome : Type := mkUploadOutcome {
  uploaded : nat;
  rejected : nat;
  failed : nat;
  skipped : nat;
  remaining : nat;
}.
Definition is_clean (o : UploadOutcome) : bool := (failed o =? 0) && (rejected o =? 0).
Definition outcome_empty : UploadOutcome := mkUploadOutcome 0 0 0 0 0.
Definition with_uploaded (n : nat) (o : UploadOutcome) : UploadOutcome :=
  mkUploadOutcome (uploaded o + n) (rejected o) (failed o) (skipped o) (remaining o).
Definition with_rejected (n : nat) (o : UploadOutcome) : UploadOutcome :=
  mkUploadOutcome (uploaded o) (rejected o + n) (failed o) (skipped o) (remaining o).
Definition with_failed (n : nat) (o : UploadOutcome) : UploadOutcome :=
  mkUploadOutcome (uploaded o) (rejected o) (failed o + n) (skipped o) (remaining o).
Definition with_skipped (n : nat) (o : UploadOutcome) : UploadOutcome :=
  mkUploadOutcome (uploaded o) (rejected o) (failed o) (skipped o + n) (remaining o).
Definition with_remaining (n : nat) (o : UploadOutcome) : UploadOutcome :=
  mkUploadOutcome (uploaded o) (rejected o) (failed o) (skipped o) n.

Section upload.
Context `{!EntryCodec}.

Abbreviation Entry := (Path * QueueEntry)%type (only parsing).
Definition spent (c : UploadConfig) (e : QueueEntry) : bool := (max_attempts c <=? attempts e)%N.

(** The run of events that starts here and travels as one request. *)
Fixpoint run_of (c : UploadConfig) (limit : nat) (l : list Entry) : list Entry :=
  match limit, l with
  | S limit, (p, e) :: l' =>
      if negb (is_crash (item e)) && negb (spent c e) then (p, e) :: run_of c limit l' else []
  | _, _ => []
  end.

Fixpoint remove_all {E : Type} (l : list Entry) : M E () :=
  match l with [] => mret tt | (p, _) :: l' => ignore (remove p) ≫= fun _ => remove_all l' end.
Fixpoint record_attempts {E : Type} (l : list Entry) : M E () :=
  match l with
  | [] => mret tt
  | (p, e) :: l' => ignore (record_attempt p e) ≫= fun _ => record_attempts l'
  end.

(** The loop of [drain]; [sent] is what was asked of the collector, last first.  Every turn
    of the loop takes an entry, so it needs no more fuel than there are entries. *)
Fixpoint drain_from {E : Type} (up : Uploader) (c : UploadConfig) (fuel : nat) (l : list Entry)
    (sent : list Request) (o : UploadOutcome) : M E (UploadOutcome * list Request) :=
  match fuel, l with
  | S fuel, (p, e) :: l' =>
      if spent c e then drain_from up c fuel l' sent (with_skipped 1 o)
      else if is_crash (item e) then
        let r := One (base c) (item e) in
        match up (length sent) r with
        | Ok _ =>
            ignore (remove p) ≫= fun _ => drain_from up c fuel l' (r :: sent) (with_uploaded 1 o)
        | Err err =>
            if is_permanent err then
              ignore (remove p) ≫= fun _ => drain_from up c fuel l' (r :: sent) (with_rejected 1 o)
            else
              ignore (record_attempt p e) ≫= fun _ =>
              mret (with_skipped (length l') (with_failed 1 o), r :: sent)
        end
      else
        let batch := run_of c (Nat.max (max_batch c) 1) l in
        let l' := drop (length batch) l in
        let items := item <$> batch.*2 in
        let r := Batch (base c) items in
        match up (length sent) r with
        | Ok _ =>
            remove_all batch ≫= fun _ =>
            drain_from up c fuel l' (r :: sent) (with_uploaded (length items) o)
        | Err err =>
            if is_permanent err then
              remove_all batch ≫= fun _ =>
              drain_from up c fuel l' (r :: sent) (with_rejected (length items) o)
            else
              record_attempts batch ≫= fun _ =>
              mret (with_skipped (length l') (with_failed (length items) o), r :: sent)
        end
  | _, _ => mret (o, sent)
  end.
Definition drain {E : Type} (up : Uploader) (c : UploadConfig) (q : CrashQueue) :
  M E (UploadOutcome * list Request) :=
  entries q ≫= fun l =>
  drain_from up c (length l) l [] outcome_empty ≫= fun '(o, sent) =>
  len q ≫= fun n => mret (with_remaining n o, reverse sent).

Definition due {E : Type} (c : UploadConfig) (q : CrashQueue) (now : Z) : M E bool :=
  entries q ≫= fun l =>
  let pending := filter (fun e => spent c e = false) l.*2 in
  mret
    match pending with
    | [] => false
    | oldest :: _ =>
        if existsb (fun e => is_crash (item e)) pending then true
        else if Nat.max (min_batch c) 1 <=? length pending then true
        else (max_wait c <=? Z.max 0 (now - queued_at oldest))%Z
    end.
Definition drain_if_due {E : Type} (up : Uploader) (c : UploadConfig) (q : CrashQueue) (now : Z) :
  M E (option (UploadOutcome * list Request)) :=
  due c q now ≫= fun (yes : bool) =>
  if yes then r ← drain up c q; mret (Some r) else mret None.

(** [Duration::saturating_mul]: [u64] seconds and nanoseconds. *)
Definition DURATION_MAX : Z := 18446744073709551615 * NANOS_PER_SECOND + 999999999.
Definition base_wait (c : UploadConfig) : Z := Z.max (interval c) NANOS_PER_MILLI.
Definition advance_wait (current : Z) (c : UploadConfig) (o : UploadOutcome) : Z :=
  let ceiling := Z.max (backoff c) (base_wait c) in
  if (failed o =? 0) then base_wait c else Z.min (Z.min (current * 2) DURATION_MAX) ceiling.

(** One turn of the upload thread: what woke it, and whether it goes on, waiting how long. *)
Inductive Wake : Type := Flush | Shutdown | Timeout | Disconnected.
Definition worker_turn {E : Type} (up : Uploader) (c : UploadConfig) (q : CrashQueue) (now wait : Z)
    (w : Wake) : M E (option Z * option UploadOutcome * list Request) :=
  match w with
  | Flush =>
      drain up c q ≫= fun '(o, sent) => mret (Some (advance_wait wait c o), Some o, sent)
  | Shutdown => drain up c q ≫= fun '(o, sent) => mret (None, Some o, sent)
  | Timeout =>
      drain_if_due up c q now ≫= fun r =>
      match r with
      | Some (o, sent) => mret (Some (advance_wait wait c o), Some o, sent)
      | None => mret (Some wait, None, [])
      end
  | Disconnected => drain up c q ≫= fun '(_, sent) => mret (None, None, sent)
  end.
End upload.

End Upload.

(** ** The handle ([lib.rs]) *)

Module Handle.
Import Crumbs Queue Archive Upload.

Definition ARCHIVE_LIMIT : nat := 20.
Definition DRAIN_INTERVAL : Z := 60 * NANOS_PER_SECOND.
Definition MIN_BATCH : nat := 20.
Definition MAX_WAIT : Z := 10 * 60 * NANOS_PER_SECOND.
Definition RETRY_CEILING : Z := 10 * 60 * NANOS_PER_SECOND.

(** What a call reads of the world: fresh UUIDs, the clock, a random draw of 64 bits, and
    whether an HTTP client and its thread can be made. *)
Record Moment : Type := mkMoment {
  uuid : nat -> Str;
  clock : nat -> Z;
  draw : N;
  client_works : bool;
}.
Record Machine : Type := mkMachine {
  m_os : Str;
  m_arch : Str;
  m_os_version : option Str;
  m_env : Environment;
}.

(** [worker]: the upload thread, by the time it will wait; [asked]: the requests it made. *)
Record Telemetry : Type := mkTelemetry {
  config : TelemetryConfig;
  consent : Consent;
  t_context : ClientContext;
  state : TelemetryState;
  redactor : Redactor;
  crumbs : Breadcrumbs;
  worker : option Z;
  asked : list Request;
}.
Definition set_consent (c : Consent) (t : Telemetry) : Telemetry :=
  mkTelemetry (config t) c (t_context t) (state t) (redactor t) (crumbs t) (worker t) (asked t).
Definition set_state (s : TelemetryState) (t : Telemetry) : Telemetry :=
  mkTelemetry (config t) (consent t) (t_context t) s (redactor t) (crumbs t) (worker t) (asked t).
Definition set_crumbs (b : Breadcrumbs) (t : Telemetry) : Telemetry :=
  mkTelemetry (config t) (consent t) (t_context t) (state t) (redactor t) b (worker t) (asked t).
Definition set_worker (w : option Z) (sent : list Request) (t : Telemetry) : Telemetry :=
  mkTelemetry (config t) (consent t) (t_context t) (state t) (redactor t) (crumbs t) w (asked t ++ sent).
(** [context.link_id = l]. *)
Definition set_link (l : option Str) (t : Telemetry) : Telemetry :=
  let c := t_context t in
  mkTelemetry (config t) (consent t)
    (mkClientContext (c_app_version c) (c_channel c) (c_os c) (c_os_version c) (c_arch c) (c_install_id c) l
       (c_role c) (c_session_id c))
    (state t) (redactor t) (crumbs t) (worker t) (asked t).

Definition state_file (t : Telemetry) : Path := telemetry_state_path (root (config t)).
Definition archive (c : TelemetryConfig) : ReportArchive := report_archive_new (reports_dir (root c)) ARCHIVE_LIMIT.
Definition queue (c : TelemetryConfig) : CrashQueue :=
  crash_queue_new (queue_dir (root c)) (max_queued_ c) (max_age_ c).
Definition upload_config (c : TelemetryConfig) : UploadConfig :=
  mkUploadConfig (collector c) (max_attempts_ c) (max_batch_ c) MIN_BATCH MAX_WAIT RETRY_CEILING DRAIN_INTERVAL.
Definition upload_worker (c : TelemetryConfig) (m : Moment) : option Z :=
  if client_works m then Some (base_wait (upload_config c)) else None.

Section handle.
Context `{!Crypto, !TelemetryStateCodec, !TelemetryCodec, !EntryCodec, !Patterns}.

Definition start (machine : Machine) (m : Moment) (c : TelemetryConfig) : M IoError Telemetry :=
  ensure (root c) ≫= fun _ =>
  let p := telemetry_state_path (root c) in
  load_state p ≫= fun s =>
  ensure_install_id (uuid m 0) p s ≫= fun s =>
  let install := install_id s in
  let red := foldl (fun r secret => with_secret secret r) (redactor_new (m_env machine)) (secrets_ c) in
  match link_id_ c with
  | Some l => r ← set_link_id l p s; mret r.1
  | None => mret s
  end ≫= fun s =>
  let ctx :=
    mkClientContext (app_version c) (channel c) (default (m_os machine) (os_ c))
      (match os_version_ c with Some v => Some v | None => m_os_version machine end)
      (default (m_arch machine) (arch_ c)) install (link_id s) (role_ c)
      (default (uuid m 1) (session_id_ c)) in
  mret (mkTelemetry c (consent_ c) ctx s red (breadcrumbs_new DEFAULT_LIMIT)
    (if upload (consent_ c) then upload_worker c m else None) []).

(** *** Calls; none of them fails. *)

Definition link_with {E : Type} (l : Str) (t : Telemetry) : M E (Telemetry * bool) :=
  let l := trim l in
  if bool_decide (l = []) then mret (t, false)
  else
    set_link_id l (state_file t) (state t) ≫= fun '(s, ok) =>
    if ok : bool then mret (set_link (Some l) (set_state s t), true) else mret (set_state s t, false).
Definition ensure_link {E : Type} (m : Moment) (t : Telemetry) : M E (Telemetry * Str) :=
  ensure_link_id (uuid m 0) (state_file t) (state t) ≫= fun '(s, l) =>
  mret (set_link (Some l) (set_state s t), l).
Definition clear_link {E : Type} (t : Telemetry) : M E Telemetry :=
  clear_link_id (state_file t) (state t) ≫= fun s => mret (set_link None (set_state s t)).

Definition enqueue_event {E : Type} (e : EventEnvelope) (m : Moment) (t : Telemetry) : M E () :=
  ignore (enqueue (queue (config t)) (Event_ e) (uuid m 1) (clock m 1) (clock m 2)).
Definition record_envelope {E : Type} (e : EventEnvelope) (m : Moment) (t : Telemetry) : M E () :=
  if negb (upload (consent t)) then mret tt else enqueue_event e m t.
Definition record {E : Type} (e : TelemetryEvent) (m : Moment) (t : Telemetry) : M E () :=
  if negb (upload (consent t)) then mret tt
  else enqueue_event (envelope_new (t_context t) e (uuid m 0) (clock m 0)) m t.

Definition sampled (f : Feature) (m : Moment) (t : Telemetry) : bool :=
  let rate := sample_rate (config t) f in
  if SFleb (f64_of_N 1) rate then true
  else if SFleb rate (f64_of_N 0) then false
  else SFltb (SFdiv 53 1024 (f64_of_N (draw m)) (f64_of_N u64_max)) rate.
Definition feature {E : Type} (f : Feature) (o : Outcome) (duration_ms : option N) (m : Moment) (t : Telemetry) :
  M E () :=
  if negb (sampled f m t) then mret tt else record (FeatureUsed f o duration_ms) m t.
Definition feature_once {E : Type} (f : Feature) (o : Outcome) (duration_ms : option N) (m : Moment)
    (t : Telemetry) : M E (Telemetry * bool) :=
  if negb (upload (consent t)) then mret (t, false)
  else if negb (sampled f m t) then mret (t, false)
  else
    mark_once f (state_file t) (state t) ≫= fun '(s, first) =>
    let t := set_state s t in
    if first : bool then record (FeatureUsed f o duration_ms) m t ≫= fun _ => mret (t, true)
    else mret (t, false).

Definition app_started {E : Type} (locale : option Str) (m : Moment) (t : Telemetry) : M E () :=
  record (AppStarted (match locale with Some l => Some l | None => locale_ (config t) end)) m t.
(** [uptime] in milliseconds; the two events get their own identities. *)
Definition app_exited {E : Type} (exit_code : option Z) (uptime_ms : N) (m m' : Moment) (t : Telemetry) : M E () :=
  record (AppExited (uptime_ms / 1000) exit_code) m t ≫= fun _ =>
  feature SessionSummary Success (Some (N.min uptime_ms u64_max)) m' t.

Definition crash_report (k : CrashKind) (message : Str) (m : Moment) (t : Telemetry) : CrashReport :=
  with_breadcrumbs (Crumbs.entries (crumbs t)) (crash_report_new (t_context t) k message (uuid m 0) (clock m 0)).
(** [store], of [crash] and [capture_crash]: they differ in where a failure is logged. *)
Definition store_report {E : Type} (r : CrashReport) (m m' : Moment) (t : Telemetry) : M E () :=
  let r := redacted (redactor t) r in
  ignore (archive_write (archive (config t)) r) ≫= fun _ =>
  if negb (upload (consent t)) then mret tt
  else
    ignore (enqueue (queue (config t)) (Crash_ r) (uuid m 0) (clock m 0) (clock m 1)) ≫= fun _ =>
    feature Crash Features.Error None m' t.

(** The upload thread, when there is one. *)
Definition wake {E : Type} (up : Uploader) (now : Z) (w : Wake) (t : Telemetry) :
  M E (Telemetry * option UploadOutcome) :=
  match worker t with
  | None => mret (t, None)
  | Some wait =>
      worker_turn up (upload_config (config t)) (queue (config t)) now wait w ≫= fun '(next, o, sent) =>
      mret (set_worker next sent t, o)
  end.

Definition set_upload_consent {E : Type} (up : Uploader) (enabled : bool) (m : Moment) (t : Telemetry) :
  M E (Telemetry * bool) :=
  let s := state t in
  let s := mkTelemetryState (Some enabled) (install_id s) (link_id s) (seen_once s) true in
  let t := set_state s t in
  ignore (store_state s (state_file t)) ≫= fun _ =>
  match source (consent t) with
  | Environment_ | DoNotTrack => mret (t, upload (consent t))
  | _ =>
      let t := set_consent (mkConsent enabled UserSetting) t in
      wake up (clock m 0) Shutdown t ≫= fun '(t, _) =>
      mret (if enabled then set_worker (upload_worker (config t) m) [] t else t, enabled)
  end.

(** *** What happens to a process that runs telemetry *)
Inductive Call : Type :=
| Record_ (e : TelemetryEvent) (m : Moment)
| RecordEnvelope (e : EventEnvelope) (m : Moment)
| Feature_ (f : Feature) (o : Outcome) (duration_ms : option N) (m : Moment)
| FeatureOnce (f : Feature) (o : Outcome) (duration_ms : option N) (m : Moment)
| Store (r : CrashReport) (m m' : Moment)
| Log (lvl : Level) (target message : Str) (now : Z)
| LinkWith (l : Str)
| EnsureLink (m : Moment)
| ClearLink
| SetUploadConsent (enabled : bool) (m : Moment)
| Woken (w : Wake) (now : Z).

Definition call {E : Type} (up : Uploader) (c : Call) (t : Telemetry) : M E Telemetry :=
  match c with
  | Record_ e m => record e m t ≫= fun _ => mret t
  | RecordEnvelope e m => record_envelope e m t ≫= fun _ => mret t
  | Feature_ f o ms m => feature f o ms m t ≫= fun _ => mret t
  | FeatureOnce f o ms m => feature_once f o ms m t ≫= fun r => mret r.1
  | Store r m m' => store_report r m m' t ≫= fun _ => mret t
  | Log lvl target message now => mret (set_crumbs (Crumbs.record lvl target message now (crumbs t)) t)
  | LinkWith l => link_with l t ≫= fun r => mret r.1
  | EnsureLink m => ensure_link m t ≫= fun r => mret r.1
  | ClearLink => clear_link t
  | SetUploadConsent enabled m => set_upload_consent up enabled m t ≫= fun r => mret r.1
  | Woken w now => wake up now w t ≫= fun r => mret r.1
  end.
Fixpoint calls {E : Type} (up : Uploader) (l : list Call) (t : Telemetry) : M E Telemetry :=
  match l with
  | [] => mret t
  | c :: l' => call up c t ≫= fun t' => calls up l' t'
  end.

End handle.
End Handle.
