(* ===== verification/TelemetryDrain.v ===== *)
(** * TelemetryDrain: a drain against its plan

    What a drain is to do, as a function of the entries and the collector's answers alone
    ([plan]), and that [drain_from] does that and no more whatever call fails and wherever
    the process dies. *)

From S2P Require Import Prelude Bytes Text Sys Fields UpdateManifest UpdateClient Telemetry TelemetryQueue.
Import Report Queue Upload.

(** ** The plan *)

(** What becomes of an entry: it stays as it is, it was accepted, the collector will never
    take it, or it was tried and stays. *)
Inductive Verdict : Type := Left_ | Delivered | Refused | Tried.
#[export] Instance Verdict_eq_dec : EqDecision Verdict.
Proof. solve_decision. Defined.

Section plan.
Context (up : Uploader) (c : UploadConfig).

(** The verdict of a request, and whether the drain goes on after it. *)
Definition verdict (answer : result UploadError ()) : Verdict :=
  match answer with
  | Ok _ => Delivered
  | Err err => if is_permanent err then Refused else Tried
  end.

(** The entries and requests of the plan after [k] requests, in order. *)
Fixpoint plan (fuel : nat) (l : list (Path * QueueEntry)) (k : nat) : list Verdict * list Request :=
  match fuel, l with
  | S fuel, (p, e) :: l' =>
      if spent c e then let '(vs, rs) := plan fuel l' k in (Left_ :: vs, rs)
      else
        let batch := if is_crash (item e) then [(p, e)] else run_of c (Nat.max (max_batch c) 1) l in
        let rest := drop (length batch) l in
        let r := if is_crash (item e) then One (base c) (item e) else Batch (base c) (item <$> batch.*2) in
        let v := verdict (up k r) in
        match v with
        | Tried => (replicate (length batch) v ++ replicate (length rest) Left_, [r])
        | _ =>
            let '(vs, rs) := plan fuel rest (S k) in (replicate (length batch) v ++ vs, r :: rs)
        end
  | _, _ => ([], [])
  end.

Definition count (v : Verdict) (vs : list Verdict) : nat := length (filter (fun w => w = v) vs).
Definition tally (vs : list Verdict) (o : UploadOutcome) : UploadOutcome :=
  mkUploadOutcome (uploaded o + count Delivered vs) (rejected o + count Refused vs)
    (failed o + count Tried vs) (skipped o + count Left_ vs) (remaining o).

Lemma count_app v vs ws : count v (vs ++ ws) = count v vs + count v ws.
Proof. unfold count. by rewrite filter_app, length_app. Qed.
Lemma count_cons v w vs : count v (w :: vs) = (if decide (w = v) then 1 else 0) + count v vs.
Proof. unfold count. rewrite filter_cons. by case_decide. Qed.
Lemma count_replicate v w n : count v (replicate n w) = if decide (w = v) then n else 0.
Proof.
  unfold count. induction n as [| n IH]; simpl; [by case_decide |].
  rewrite filter_cons. case_decide; simpl; by rewrite IH.
Qed.

Lemma count_same v n : count v (replicate n v) = n.
Proof. rewrite count_replicate. by case_decide. Qed.
Lemma count_other v w n : w <> v -> count v (replicate n w) = 0.
Proof. intros. rewrite count_replicate. by case_decide. Qed.

Lemma run_of_prefix n l : run_of c n l `prefix_of` l.
Proof.
  revert l. induction n as [| n IH]; intros [| [p e] l]; simpl; try apply prefix_nil.
  case_match; [apply prefix_cons, IH | apply prefix_nil].
Qed.
Lemma run_of_length n l : length (run_of c n l) <= n.
Proof.
  revert l. induction n as [| n IH]; intros [| [p e] l]; simpl; try lia.
  case_match; simpl; [specialize (IH l); lia | lia].
Qed.
Lemma run_of_member n l p e : (p, e) ∈ run_of c n l -> is_crash (item e) = false /\ spent c e = false.
Proof.
  revert l. induction n as [| n IH]; intros [| [p' e'] l]; simpl; try by intros ?%elem_of_nil.
  destruct (negb (is_crash (item e')) && negb (spent c e')) eqn:Hb; [| by intros ?%elem_of_nil].
  apply andb_true_iff in Hb as [Hc Hs].
  intros [[= -> ->] | ?]%elem_of_cons; [| by eapply IH].
  by rewrite !negb_true_iff in *.
Qed.
Lemma run_of_starts n p e l : is_crash (item e) = false -> spent c e = false ->
  exists l', run_of c (Nat.max n 1) ((p, e) :: l) = (p, e) :: l'.
Proof.
  intros Hc Hs. destruct (Nat.max n 1) as [| m] eqn:Hm; [lia |]. simpl. rewrite Hc, Hs. simpl. by eexists.
Qed.

(** The batch of a turn is the front of what is left, and never empty. *)
Lemma batch_front fuel p e l' : spent c e = false ->
  let l := (p, e) :: l' in
  let batch := if is_crash (item e) then [(p, e)] else run_of c (Nat.max (max_batch c) 1) l in
  l = batch ++ drop (length batch) l /\ 1 <= length batch /\
  (length l <= S fuel -> length (drop (length batch) l) <= fuel).
Proof.
  intros Hs l batch.
  assert (exists b, batch = (p, e) :: b /\ batch `prefix_of` l) as (b & Hb & Hpre).
  { unfold batch. destruct (is_crash (item e)) eqn:Hc.
    - exists []. split; [done |]. by exists l'.
    - destruct (run_of_starts (max_batch c) p e l' Hc Hs) as [b Hb]. exists b. fold l in Hb.
      split; [done | apply run_of_prefix]. }
  destruct Hpre as [rest Hrest]. rewrite Hrest at 1. rewrite Hb. split; [| split].
  - rewrite Hrest, <- Hb. by rewrite drop_app_length.
  - simpl. lia.
  - rewrite length_drop. simpl. lia.
Qed.

(** A request is a crash alone or between one and [max_batch] events. *)
Definition shaped (r : Request) : Prop :=
  match r with
  | One b i => b = base c /\ is_crash i = true
  | Batch b l => b = base c /\ 1 <= length l <= Nat.max (max_batch c) 1 /\ Forall (fun i => is_crash i = false) l
  end.

(** The entries to send. *)
Definition unspent (l : list (Path * QueueEntry)) : list QueuedItem :=
  item <$> filter (fun e => spent c e = false) l.*2.

Lemma unspent_app l l' : unspent (l ++ l') = unspent l ++ unspent l'.
Proof. unfold unspent. by rewrite fmap_app, filter_app, fmap_app. Qed.
Lemma unspent_all l : Forall (fun x => spent c x.2 = false) l -> unspent l = item <$> l.*2.
Proof.
  induction 1 as [| [p e] l He _ IH]; [done |]. unfold unspent in *. cbn [snd] in He.
  rewrite !fmap_cons, filter_cons_True by done. by rewrite !fmap_cons, IH.
Qed.

(** What a plan promises of its verdicts [vs] and requests [rs]. *)
Record sound (l : list (Path * QueueEntry)) (k : nat) (vs : list Verdict) (rs : list Request) : Prop := {
  s_each : length vs = length l;
  s_order : concat (carried <$> rs) `prefix_of` unspent l;
  s_split : length (concat (carried <$> rs)) + count Left_ vs = length l;
  s_all : count Tried vs = 0 -> concat (carried <$> rs) = unspent l;
  s_shape : Forall shaped rs;
  s_stop : forall j r, rs !! j = Some r -> verdict (up (k + j) r) = Tried ->
    S j = length rs /\ count Tried vs = length (carried r);
  s_reason : forall i p e v, l !! i = Some (p, e) -> vs !! i = Some v -> v <> Left_ ->
    spent c e = false /\
    exists j r, rs !! j = Some r /\ item e ∈ carried r /\ verdict (up (k + j) r) = v;
}.

Lemma sound_nil k : sound [] k [] [].
Proof. split; done. Qed.

Lemma sound_spent p e l k vs rs : spent c e = true -> sound l k vs rs -> sound ((p, e) :: l) k (Left_ :: vs) rs.
Proof.
  intros Hs [H1 H2 H3 H4 H5 H6 H7].
  assert (unspent ((p, e) :: l) = unspent l) as Hu.
  { unfold unspent. rewrite fmap_cons, filter_cons_False; [done | cbn [snd]; by rewrite Hs]. }
  split; try rewrite Hu; try done.
  - by rewrite length_cons, H1.
  - rewrite count_cons, decide_True by done. simpl. lia.
  - intros [| i] q e' v; simpl; [by intros _ [= <-] | apply H7].
Qed.

Lemma batch_reason (batch : list (Path * QueueEntry)) r rs i q e k v :
  batch !! i = Some (q, e) -> carried r = item <$> batch.*2 ->
  Forall (fun x => spent c x.2 = false) batch -> verdict (up k r) = v ->
  spent c e = false /\
  exists j r', (r :: rs) !! j = Some r' /\ item e ∈ carried r' /\ verdict (up (k + j) r') = v.
Proof.
  intros Hi Hr Hb Hv. rewrite Forall_lookup in Hb. split; [exact (Hb _ _ Hi) |].
  exists 0, r. rewrite Nat.add_0_r. split; [done | split; [| done]].
  rewrite Hr. apply list_elem_of_fmap. exists e. split; [done |].
  apply list_elem_of_fmap. exists (q, e). split; [done |]. by eapply list_elem_of_lookup_2.
Qed.

(** The turn of a batch that was answered for good, before a sound rest. *)
Lemma sound_answered batch r v l k vs rs :
  carried r = item <$> batch.*2 -> Forall (fun x => spent c x.2 = false) batch -> shaped r ->
  v = verdict (up k r) -> v <> Tried -> sound l (S k) vs rs ->
  sound (batch ++ l) k (replicate (length batch) v ++ vs) (r :: rs).
Proof.
  intros Hr Hb Hsh -> Hv [H1 H2 H3 H4 H5 H6 H7].
  assert (unspent (batch ++ l) = carried r ++ unspent l) as Hu.
  { by rewrite unspent_app, Hr, unspent_all. }
  assert (length (carried r) = length batch) as Hl by (by rewrite Hr, !length_fmap).
  assert (verdict (up k r) <> Left_) as Hv' by (unfold verdict; repeat case_match; done).
  assert (count Left_ (replicate (length batch) (verdict (up k r))) = 0) as Hc0.
  { by apply count_other. }
  assert (count Tried (replicate (length batch) (verdict (up k r))) = 0) as Hc1.
  { by apply count_other. }
  split; try rewrite Hu; cbn [fmap list_fmap concat].
  - rewrite !length_app, length_replicate. lia.
  - by apply prefix_app.
  - rewrite count_app, !length_app. lia.
  - rewrite count_app, Hc1. intros Ht. by rewrite (H4 Ht).
  - by constructor.
  - intros [| j] r'; simpl; [intros [= <-]; by rewrite Nat.add_0_r |].
    intros Hj Ht. rewrite count_app, Hc1. rewrite <- plus_n_Sm in Ht.
    destruct (H6 j r' Hj Ht) as [-> <-]. done.
  - intros i q e v Hi Hvs Hne. destruct (decide (i < length batch)) as [Hlt | Hge].
    + rewrite lookup_app_l in Hi by done. rewrite lookup_app_l in Hvs by (by rewrite length_replicate).
      apply lookup_replicate in Hvs as [-> _]. by apply (batch_reason batch _ _ i q).
    + rewrite lookup_app_r in Hi by lia. rewrite lookup_app_r in Hvs by (rewrite length_replicate; lia).
      rewrite length_replicate in Hvs. destruct (H7 _ _ _ _ Hi Hvs Hne) as (? & j & r' & ? & ? & ?).
      split; [done |]. exists (S j), r'. by rewrite <- plus_n_Sm.
Qed.

(** The turn that stops the drain. *)
Lemma sound_tried batch r l k :
  carried r = item <$> batch.*2 -> Forall (fun x => spent c x.2 = false) batch -> 1 <= length batch ->
  shaped r -> verdict (up k r) = Tried ->
  sound (batch ++ l) k (replicate (length batch) Tried ++ replicate (length l) Left_) [r].
Proof.
  intros Hr Hb Hne Hsh Hv.
  assert (unspent (batch ++ l) = carried r ++ unspent l) as Hu.
  { by rewrite unspent_app, Hr, unspent_all. }
  assert (length (carried r) = length batch) as Hl by (by rewrite Hr, !length_fmap).
  split; try rewrite Hu; cbn [fmap list_fmap concat]; rewrite ?app_nil_r, ?count_app, ?count_same;
    rewrite ?(count_other Tried Left_), ?(count_other Left_ Tried) by done.
  - rewrite !length_app, !length_replicate. lia.
  - by apply prefix_app_r.
  - rewrite length_app. lia.
  - lia.
  - by constructor.
  - intros [| j] r'; simpl; [intros [= <-] _; lia | done].
  - intros i q e v Hi Hvs Hnl. destruct (decide (i < length batch)) as [Hlt | Hge].
    + rewrite lookup_app_l in Hi by done. rewrite lookup_app_l in Hvs by (by rewrite length_replicate).
      apply lookup_replicate in Hvs as [-> _]. by apply (batch_reason batch _ _ i q).
    + rewrite lookup_app_r in Hvs by (rewrite length_replicate; lia).
      by apply lookup_replicate in Hvs as [-> _].
Qed.

(** The batch of a turn and its request. *)
Lemma turn_shape p e l' : spent c e = false ->
  let l := (p, e) :: l' in
  let batch := if is_crash (item e) then [(p, e)] else run_of c (Nat.max (max_batch c) 1) l in
  let r := if is_crash (item e) then One (base c) (item e) else Batch (base c) (item <$> batch.*2) in
  carried r = item <$> batch.*2 /\ Forall (fun x => spent c x.2 = false) batch /\ shaped r.
Proof.
  intros Hs l batch r. subst batch r. destruct (is_crash (item e)) eqn:Hc; simpl.
  - split; [done |]. split; [by constructor | done].
  - split; [done |]. split; [| split; [done |]; split].
    + apply Forall_forall. intros [q e'] Hq. by apply run_of_member in Hq as [_ ?].
    + rewrite !length_fmap. split; [| apply run_of_length].
      destruct (run_of_starts (max_batch c) p e l' Hc Hs) as [b Hb]. fold l in Hb. rewrite Hb. simpl. lia.
    + apply Forall_forall. intros i (e' & -> & ([q e''] & -> & Hq)%list_elem_of_fmap)%list_elem_of_fmap.
      by apply run_of_member in Hq as [? _].
Qed.

Lemma plan_sound fuel l k : length l <= fuel -> sound l k (plan fuel l k).1 (plan fuel l k).2.
Proof.
  revert l k. induction fuel as [| fuel IH]; intros [| [p e] l'] k Hl; try (simpl in Hl; lia); try apply sound_nil.
  cbn [plan]. destruct (spent c e) eqn:Hs.
  - specialize (IH l' k ltac:(simpl in Hl; lia)). destruct (plan fuel l' k) as [vs rs]. by apply sound_spent.
  - destruct (turn_shape p e l' Hs) as (Hr & Hb & Hsh).
    destruct (batch_front fuel p e l' Hs) as (Hsplit & Hne & Hless).
    set (l := (p, e) :: l') in *.
    set (batch := if is_crash (item e) then [(p, e)] else run_of c (Nat.max (max_batch c) 1) l) in *.
    set (r := if is_crash (item e) then One (base c) (item e) else Batch (base c) (item <$> batch.*2)) in *.
    set (rest := drop (length batch) l) in *. specialize (IH rest (S k) (Hless Hl)).
    destruct (plan fuel rest (S k)) as [vs rs].
    rewrite Hsplit. destruct (verdict (up k r)) eqn:Hv.
    + by unfold verdict in Hv; repeat case_match.
    + by apply sound_answered.
    + by apply sound_answered.
    + by apply sound_tried.
Qed.

End plan.

(** ** The plan is carried out *)

(** A temporary file is no entry. *)
Lemma temporary_is_not_json x : is_json (x ++ lit ".tmp") = false.
Proof.
  unfold is_json, extension. simpl. apply bool_decide_eq_false. rewrite reverse_app. simpl.
  case_bool_decide; [done |]. rewrite length_app. simpl. intros [= He].
  assert (drop (length x + 4 - 3) (x ++ lit ".tmp") = lit "tmp") as Hs.
  { replace (length x + 4 - 3) with (length (x ++ [46%N])) by (rewrite length_app; simpl; lia).
    change (lit ".tmp") with ([46%N] ++ lit "tmp"). rewrite app_assoc. apply drop_app_length. }
  assert (lit "tmp" = lit "json") by (rewrite <- Hs; exact He). done.
Qed.

Section disk.
Context `{!EntryCodec}.

(** Where a verdict may take the file of an entry. *)
Definition after (v : Verdict) (e : QueueEntry) (x : option Node) : Prop :=
  match v with
  | Left_ => False
  | Delivered | Refused => x = None
  | Tried => exists text mode, entry_to_json (attempted e) = Ok text /\ x = Some (NFile (as_bytes text) mode)
  end.

Definition temporary (p : Path) : Path := with_extension p (lit "tmp").

(** The files are as they were or where their verdicts take them; but for temporaries the
    rest of the disk is untouched. *)
Definition followed (before : Nodes) (orders : list (Path * QueueEntry * Verdict)) : Assert := fun n =>
  (forall p e v, (p, e, v) ∈ orders -> n !! p = before !! p \/ after v e (n !! p)) /\
  (forall q, (forall p e v, (p, e, v) ∈ orders -> q <> p /\ q <> temporary p) -> n !! q = before !! q).

Section orders.
Context (before : Nodes) (orders : list (Path * QueueEntry * Verdict)).
Context (UNIQUE : forall p e v e' v', (p, e, v) ∈ orders -> (p, e', v') ∈ orders -> e = e' /\ v = v').
Context (APART : forall p e v p' e' v', (p, e, v) ∈ orders -> (p', e', v') ∈ orders -> temporary p <> p').

Abbreviation J := (followed before orders).

Lemma followed_temporary p e v : (p, e, v) ∈ orders -> apart (eq (temporary p)) J.
Proof.
  intros Hp n n' Hn [H1 H2]. split.
  - intros q e' v' Hq. rewrite Hn; [by apply H1 | by eapply APART].
  - intros q Hq. rewrite Hn; [by apply H2 | by apply not_eq_sym; eapply (Hq p)].
Qed.

(** A file that goes where its verdict says. *)
Lemma followed_step p e v n n' : (p, e, v) ∈ orders -> J n -> after v e (n' !! p) ->
  (forall q, q <> p -> q <> temporary p -> n' !! q = n !! q) -> J n'.
Proof.
  intros Hp [H1 H2] Ha Hn. split.
  - intros q e' v' Hq. destruct (decide (q = p)) as [-> | Hne].
    + destruct (UNIQUE _ _ _ _ _ Hp Hq) as [-> ->]. by right.
    + rewrite Hn; [by apply H1 | done |]. by apply not_eq_sym; eapply APART.
  - intros q Hq. destruct (Hq p e v Hp). rewrite Hn by done. by apply H2.
Qed.

Lemma spec_remove {E : Type} p e v (X : Post E) : (p, e, v) ∈ orders -> v = Delivered \/ v = Refused ->
  spec J (ignore (remove p)) (fun _ => J) X J.
Proof.
  intros Hp Hv. apply (spec_ignore _ J). unfold remove.
  apply (spec_bind _ _ _ (fun _ => J)).
  - apply spec_attempt, spec_atomic; try done.
    all: intros n Hn; destruct (n !! p) as [[] |]; try done; simpl.
    all: apply (followed_step p e v n); [done | done | by destruct Hv as [-> | ->]; apply lookup_delete_eq
                                        | intros; by apply lookup_delete_ne].
  - intros [? | [| ?]]; [apply (spec_ret tt (fun _ => J)) | apply (spec_ret tt (fun _ => J)) |].
    apply (spec_failure _ _ (fun _ => J)).
Qed.

Lemma spec_record_attempt {E : Type} p e (X : Post E) : (p, e, Tried) ∈ orders ->
  spec J (ignore (record_attempt p e)) (fun _ => J) X J.
Proof.
  intros Hp. apply (spec_ignore _ J). unfold record_attempt.
  destruct (entry_to_json (attempted e)) as [text | reason] eqn:Ht; [| apply (spec_failure _ _ (fun _ => J))].
  unfold write_atomic. fold (temporary p).
  apply (spec_bind _ _ _ (fun _ n => file (temporary p) (as_bytes text) n /\ J n)).
  - eapply spec_pre; [apply (spec_scratch (eq (temporary p)) J anything) |]; try done.
    + apply within_write.
    + by eapply followed_temporary.
    + apply spec_write.
  - intros []. apply spec_atomic; [| by intros n ? [_ ?] | | by intros n [_ ?]].
    all: intros n [[x Hx] Hn]; rewrite Hx; rewrite bool_decide_false by (by eapply APART).
    all: destruct (placeable n p); simpl; try done.
    all: apply (followed_step p e Tried n); [done | done | by rewrite lookup_insert_eq; eexists _, _ |].
    all: intros q H1 H2; rewrite lookup_insert_ne by done; by apply lookup_delete_ne.
Qed.

Lemma spec_remove_all {E : Type} batch v (X : Post E) : v = Delivered \/ v = Refused ->
  (forall p e, (p, e) ∈ batch -> (p, e, v) ∈ orders) -> spec J (remove_all batch) (fun _ => J) X J.
Proof.
  intros Hv. induction batch as [| [p e] batch IH]; intros Hb; simpl; [apply (spec_ret tt (fun _ => J)) |].
  apply (spec_bind _ _ _ (fun _ => J)).
  - apply (spec_remove p e v); [apply Hb; left | done].
  - intros []. apply IH. intros q e' Hq. apply Hb. by right.
Qed.

Lemma spec_record_attempts {E : Type} batch (X : Post E) :
  (forall p e, (p, e) ∈ batch -> (p, e, Tried) ∈ orders) -> spec J (record_attempts batch) (fun _ => J) X J.
Proof.
  induction batch as [| [p e] batch IH]; intros Hb; simpl; [apply (spec_ret tt (fun _ => J)) |].
  apply (spec_bind _ _ _ (fun _ => J)).
  - apply (spec_record_attempt p e), Hb. left.
  - intros []. apply IH. intros q e' Hq. apply Hb. by right.
Qed.
Definition counted (v : Verdict) (n : nat) (o : UploadOutcome) : UploadOutcome :=
  if decide (v = Delivered) then with_uploaded n o else with_rejected n o.

(** The rest of the drain, after a turn that was answered for good. *)
Lemma tally_answered v n vs o : v = Delivered \/ v = Refused ->
  tally (replicate n v ++ vs) o = tally vs (counted v n o).
Proof.
  unfold tally, counted. rewrite !count_app. intros [-> | ->]; simpl;
    rewrite count_same, !(count_other _ _ n) by done; simpl; f_equal; lia.
Qed.
Lemma tally_tried n m o :
  tally (replicate n Tried ++ replicate m Left_) o = with_skipped m (with_failed n o).
Proof.
  unfold tally, with_skipped, with_failed. rewrite !count_app, !count_same. simpl.
  rewrite !count_other by done. simpl. f_equal; lia.
Qed.

Lemma zip_front {A B} (l1 l2 : list A) (k1 k2 : list B) x : length l1 = length k1 ->
  x ∈ zip l1 k1 \/ x ∈ zip l2 k2 -> x ∈ zip (l1 ++ l2) (k1 ++ k2).
Proof. intros Hl Hx. rewrite zip_with_app by done. by apply elem_of_app. Qed.
Lemma zip_replicate {A B} (l : list A) (b : B) x : x ∈ l -> (x, b) ∈ zip l (replicate (length l) b).
Proof. induction 1; simpl; [left | by right]. Qed.

Lemma spec_ext {E A : Type} (P : Assert) (m m' : M E A) (Q : Post A) (X : Post E) (C : Assert) :
  (forall d, m d = m' d) -> spec P m' Q X C -> spec P m Q X C.
Proof. intros He Hm d HP. rewrite He. by apply Hm. Qed.

(** A turn of the loop in the words of the plan. *)
Lemma drain_from_turn {E : Type} up c fuel p e l' sent o (d : Disk) : spent c e = false ->
  let l := (p, e) :: l' in
  let batch := if is_crash (item e) then [(p, e)] else run_of c (Nat.max (max_batch c) 1) l in
  let rest := drop (length batch) l in
  let r := if is_crash (item e) then One (base c) (item e) else Batch (base c) (item <$> batch.*2) in
  let v := verdict (up (length sent) r) in
  drain_from (E := E) up c (S fuel) l sent o d =
  match v with
  | Tried =>
      (record_attempts batch ≫= fun _ =>
       mret (with_skipped (length rest) (with_failed (length batch) o), r :: sent)) d
  | _ => (remove_all batch ≫= fun _ => drain_from up c fuel rest (r :: sent) (counted v (length batch) o)) d
  end.
Proof.
  intros Hs l batch rest r v. subst batch rest r v l. cbn [drain_from]. rewrite Hs.
  destruct (is_crash (item e)) eqn:Hc; unfold verdict.
  - cbn [length drop remove_all record_attempts].
    destruct (up _ _) as [[] | err]; [| destruct (is_permanent err)]; cbn [counted];
      unfold mbind, M_bind, mret, M_ret; by destruct (ignore _ d) as [d' [[] | ? |]].
  - rewrite !length_fmap. destruct (up _ _) as [[] | err]; [| destruct (is_permanent err)]; done.
Qed.

Lemma spec_drain_from {E : Type} up c fuel l sent o :
  (forall p e v, (p, e, v) ∈ zip l (plan up c fuel l (length sent)).1 -> (p, e, v) ∈ orders) ->
  spec J (drain_from up c fuel l sent o : M E _)
    (fun r n => r = (tally (plan up c fuel l (length sent)).1 o, reverse (plan up c fuel l (length sent)).2 ++ sent)
       /\ J n)
    (fun _ _ => False) J.
Proof.
  revert l sent o. induction fuel as [| fuel IH]; intros [| [p e] l'] sent o Ho.
  1-3: intros d Hd; simpl; split; [destruct o; unfold tally; simpl; by rewrite !Nat.add_0_r | done].
  assert (forall l' sent o vs rs, plan up c fuel l' (length sent) = (vs, rs) ->
    (forall p e v, (p, e, v) ∈ zip l' vs -> (p, e, v) ∈ orders) ->
    spec J (drain_from up c fuel l' sent o : M E _)
      (fun r n => r = (tally vs o, reverse rs ++ sent) /\ J n) (fun _ _ => False) J) as IH'.
  { intros l1 sent1 o1 vs rs He Hz. specialize (IH l1 sent1 o1). rewrite He in IH. by apply IH. }
  clear IH. cbn [plan] in *. destruct (spent c e) eqn:Hs.
  { cbn [drain_from]. rewrite Hs. destruct (plan up c fuel l' (length sent)) as [vs rs] eqn:Hp. simpl in *.
    eapply spec_weaken; [apply (IH' _ _ _ _ _ Hp) | done | | done | done].
    - intros q e' v Hq. apply Ho. by right.
    - intros r n [-> Hn]. split; [| done]. f_equal. unfold tally. rewrite !count_cons. simpl. f_equal; lia. }
  destruct (batch_front c fuel p e l' Hs) as (Hsplit & _ & _).
  set (l := (p, e) :: l') in *.
  set (batch := if is_crash (item e) then [(p, e)] else run_of c (Nat.max (max_batch c) 1) l) in *.
  set (rest := drop (length batch) l) in *.
  set (r := if is_crash (item e) then One (base c) (item e) else Batch (base c) (item <$> batch.*2)) in *.
  assert (forall (v : Verdict) (k2 : list Verdict) x,
    x ∈ zip batch (replicate (length batch) v) \/ x ∈ zip rest k2 ->
    x ∈ zip l (replicate (length batch) v ++ k2)) as Hzip.
  { intros v k2 x Hx. rewrite Hsplit. apply zip_front; [by rewrite length_replicate | done]. }
  destruct (plan up c fuel rest (S (length sent))) as [vs rs] eqn:Hp.
  eapply (spec_ext _ _ (fun d => _)); [intros d; apply (drain_from_turn up c fuel p e l' sent o d Hs) |].
  cbv zeta. fold l. fold batch. fold rest. fold r.
  destruct (verdict (up (length sent) r)) eqn:Hv; [by unfold verdict in Hv; repeat case_match | | |]; simpl in Ho |- *.
  - apply (spec_bind _ _ _ (fun _ => J)); [apply (spec_remove_all _ Delivered); [by left |] |].
    + intros q e' Hq. apply Ho, Hzip. left. by apply zip_replicate.
    + intros []. eapply spec_weaken; [apply (IH' rest (r :: sent) _ vs rs Hp) | done | | done | done].
      * intros q e' v' Hq. apply Ho, Hzip. by right.
      * intros a n [-> Hn]. split; [| done]. rewrite (tally_answered Delivered) by (by left).
        by rewrite reverse_cons, <- app_assoc.
  - apply (spec_bind _ _ _ (fun _ => J)); [apply (spec_remove_all _ Refused); [by right |] |].
    + intros q e' Hq. apply Ho, Hzip. left. by apply zip_replicate.
    + intros []. eapply spec_weaken; [apply (IH' rest (r :: sent) _ vs rs Hp) | done | | done | done].
      * intros q e' v' Hq. apply Ho, Hzip. by right.
      * intros a n [-> Hn]. split; [| done]. rewrite (tally_answered Refused) by (by right).
        by rewrite reverse_cons, <- app_assoc.
  - apply (spec_bind _ _ _ (fun _ => J)); [apply spec_record_attempts |].
    + intros q e' Hq. apply Ho, Hzip. left. by apply zip_replicate.
    + intros [] d Hd. simpl. by rewrite tally_tried.
Qed.
End orders.

(** What a drain gives when it ends, on whatever disk. *)
Lemma drain_from_result {E : Type} up c fuel l sent o (d d' : Disk) r :
  drain_from (E := E) up c fuel l sent o d = (d', Done r) ->
  r = (tally (plan up c fuel l (length sent)).1 o, reverse (plan up c fuel l (length sent)).2 ++ sent).
Proof.
  revert l sent o d. induction fuel as [| fuel IH]; intros [| [p e] l'] sent o d.
  1-3: intros [= _ <-]; destruct o; unfold tally; simpl; by rewrite !Nat.add_0_r.
  cbn [plan]. destruct (spent c e) eqn:Hs.
  { cbn [drain_from]. rewrite Hs. intros ->%IH. destruct (plan up c fuel l' (length sent)) as [vs rs]. simpl.
    f_equal. unfold tally. rewrite !count_cons. simpl. f_equal; lia. }
  rewrite (drain_from_turn up c fuel p e l' sent o d Hs). cbv zeta.
  set (l := (p, e) :: l') in *.
  set (batch := if is_crash (item e) then [(p, e)] else run_of c (Nat.max (max_batch c) 1) l).
  set (r0 := if is_crash (item e) then One (base c) (item e) else Batch (base c) (item <$> batch.*2)).
  destruct (verdict (up (length sent) r0)) eqn:Hv; [by unfold verdict in Hv; repeat case_match | | |];
    unfold mbind, M_bind.
  1-2: destruct (remove_all batch d) as [d1 [[] | ? |]]; [| done | done]; intros ->%IH; simpl;
    destruct (plan _ _ _ _ _) as [vs rs]; simpl; rewrite tally_answered by auto;
    by rewrite reverse_cons, <- app_assoc.
  destruct (record_attempts batch d) as [d1 [[] | ? |]]; [| done | done]. intros [= _ <-]. simpl.
  by rewrite tally_tried.
Qed.

(** What an entry's file may be after a drain that made the requests [rs]. *)
Definition accounted (up : Uploader) (rs : list Request) (before n : Nodes) (p : Path) (e : QueueEntry) : Prop :=
  n !! p = before !! p \/
  (n !! p = None /\ exists k r, rs !! k = Some r /\ item e ∈ carried r /\
     (up k r = Ok tt \/ exists err, up k r = Err err /\ is_permanent err = true)) \/
  (exists text mode k r, entry_to_json (attempted e) = Ok text /\ n !! p = Some (NFile (as_bytes text) mode) /\
     rs !! k = Some r /\ item e ∈ carried r /\ exists err, up k r = Err err /\ is_permanent err = false).

Lemma verdict_reason (answer : result UploadError ()) :
  match verdict answer with
  | Left_ => False
  | Delivered => answer = Ok tt
  | Refused => exists err, answer = Err err /\ is_permanent err = true
  | Tried => exists err, answer = Err err /\ is_permanent err = false
  end.
Proof. unfold verdict. destruct answer as [[] | err]; [done |]. destruct (is_permanent err) eqn:?; by eexists. Qed.

Lemma followed_accounted up c before l n :
  followed before (zip l (plan up c (length l) l 0).1) n ->
  forall p e, (p, e) ∈ l -> accounted up (plan up c (length l) l 0).2 before n p e.
Proof.
  intros [Hn _] p e (i & Hi)%list_elem_of_lookup.
  pose proof (plan_sound up c (length l) l 0 (Nat.le_refl _)) as Hs.
  destruct (plan up c (length l) l 0) as [vs rs]. simpl in *.
  destruct (lookup_lt_is_Some_2 vs i) as [v Hv].
  { rewrite (s_each _ _ _ _ _ _ Hs). by eapply lookup_lt_Some. }
  assert ((p, e, v) ∈ zip l vs) as Hz.
  { apply list_elem_of_lookup. exists i. apply lookup_zip_with_Some. by eexists _, _. }
  destruct (Hn _ _ _ Hz) as [? | Ha]; [by left | right].
  destruct (decide (v = Left_)) as [-> | Hne]; [done |].
  destruct (s_reason _ _ _ _ _ _ Hs _ _ _ _ Hi Hv Hne) as (_ & k & r & Hk & Hin & <-). simpl in Ha.
  pose proof (verdict_reason (up k r)) as Hr. destruct (verdict (up k r)); [done | left | left | right].
  - split; [done |]. exists k, r. auto.
  - split; [done |]. exists k, r. auto.
  - destruct Ha as (text & mode & ? & ?). by exists text, mode, k, r.
Qed.
End disk.

(** ** What a drain reads *)

(** A call of the process between two disks failed. *)
Definition faulted (d d' : Disk) : Prop :=
  exists k reason progress, calls d <= k < calls d' /\ fates d k = Fails reason progress.

(** A computation goes along the fates of its disk. *)
Definition steady {E A : Type} (m : M E A) : Prop :=
  forall d, fates (m d).1 = fates d /\ calls d <= calls (m d).1.

Lemma steady_ret {E A} (a : A) : steady (mret a : M E A).
Proof. by intros d. Qed.
Lemma steady_fail {E A} (e : E) : steady (fail e : M E A).
Proof. by intros d. Qed.
Lemma steady_bind {E A B} (m : M E A) (k : A -> M E B) :
  steady m -> (forall a, steady (k a)) -> steady (m ≫= k).
Proof.
  intros Hm Hk d. unfold mbind, M_bind. destruct (Hm d) as [Hf Hc].
  destruct (m d) as [d1 [a | e |]]; simpl in *; try done. destruct (Hk a d1). split; [congruence | lia].
Qed.
Lemma steady_attempt {E F A} (m : M E A) : steady m -> steady (attempt (F := F) m).
Proof. intros Hm d. unfold attempt. specialize (Hm d). by destruct (m d) as [d1 [a | e |]]. Qed.
Lemma steady_ignore {E F A} (m : M E A) : steady m -> steady (ignore (F := F) m).
Proof. intros Hm. apply steady_bind; [by apply steady_attempt | intros; apply steady_ret]. Qed.
Lemma steady_syscall {A} run failed died : steady (syscall (A := A) run failed died).
Proof.
  intros [m f n]. unfold syscall. destruct (f n); simpl; [destruct (run m) as [m' [a | e]]; simpl |..]; split; (done || lia).
Qed.
Lemma steady_write_atomic p bytes : steady (write_atomic p bytes).
Proof. repeat (apply steady_bind; [| intros]); apply steady_syscall. Qed.
Create HintDb steady discriminated.
#[local] Hint Resolve steady_ret steady_fail steady_bind steady_attempt steady_ignore steady_write_atomic : steady.
#[local] Hint Extern 2 (steady _) => apply steady_syscall : steady.

Lemma faulted_more d d1 d2 d3 : fates d1 = fates d -> calls d <= calls d1 -> calls d2 <= calls d3 ->
  faulted d1 d2 -> faulted d d3.
Proof. intros Hf H1 H2 (k & r & p & Hk & Hr). exists k, r, p. rewrite <- Hf. split; [lia | done]. Qed.

Section reading.
Context `{!EntryCodec}.
Implicit Types (d : Disk) (p x : Path) (e : QueueEntry).

(** The entry bytes are read as, and the one a node of the disk holds. *)
Definition entry_of_bytes (bytes : Bytes) : option QueueEntry :=
  text ← from_utf8 bytes; match entry_of_json text with Ok e => Some e | Err _ => None end.
Definition read_as (x : option Node) : option QueueEntry :=
  match x with Some (NFile bytes _) => entry_of_bytes bytes | _ => None end.

(** The queue holds the entry [e] in the file [p]. *)
Definition queued (q : CrashQueue) (n : Nodes) p e : Prop :=
  (exists name, p = dir q ++ [name] /\ is_json name = true) /\ read_as (n !! p) = Some e.

Lemma steady_remove p : steady (remove p).
Proof.
  apply steady_bind; [apply steady_attempt, steady_syscall |]. intros [[] | [| ?]]; auto with steady.
Qed.
Lemma steady_record_attempt p e : steady (record_attempt p e).
Proof. unfold record_attempt. destruct (entry_to_json _); auto with steady. Qed.
Lemma steady_read_entries {E} paths : steady (read_entries (E := E) paths).
Proof.
  induction paths as [| p paths IH]; [apply steady_ret |]. simpl. apply steady_bind; [apply steady_attempt, steady_syscall |].
  intros [text | err]; [destruct (entry_of_json text) |]; apply steady_bind; auto with steady;
    apply steady_ignore, steady_syscall.
Qed.
Lemma steady_entries {E} q : steady (entries (E := E) q).
Proof.
  apply steady_bind; [apply steady_attempt, steady_syscall |].
  intros [names | err]; [apply steady_read_entries | apply steady_ret].
Qed.
Lemma steady_remove_all {E} batch : steady (remove_all (E := E) batch).
Proof.
  induction batch as [| [p e] batch IH]; [apply steady_ret |]. simpl. apply steady_bind; [| done].
  apply steady_ignore, steady_remove.
Qed.
Lemma steady_record_attempts {E} batch : steady (record_attempts (E := E) batch).
Proof.
  induction batch as [| [p e] batch IH]; [apply steady_ret |]. simpl. apply steady_bind; [| done].
  apply steady_ignore, steady_record_attempt.
Qed.
Lemma steady_drain_from {E} up c fuel l sent o : steady (drain_from (E := E) up c fuel l sent o).
Proof.
  revert l sent o. induction fuel as [| fuel IH]; intros [| [p e] l'] sent o; try apply steady_ret.
  intros d. destruct (spent c e) eqn:Hs; [simpl; rewrite Hs; apply IH |].
  rewrite (drain_from_turn up c fuel p e l' sent o d Hs). cbv zeta. revert d.
  destruct (verdict _); apply steady_bind; auto using steady_remove_all, steady_record_attempts, steady_ret.
Qed.

(** One file of the loop: what it is read as, and what is dropped. *)
Lemma read_one p d :
  let '(d1, r) := attempt (F := Empty_set) (read_to_string p) d in
  nodes d1 = nodes d /\
  match r with
  | Done (Ok text) => exists bytes mode, nodes d !! p = Some (NFile bytes mode) /\ from_utf8 bytes = Some text
  | Done (Err _) => read_as (nodes d !! p) = None \/ faulted d d1
  | Failed _ => False
  | Dead => True
  end.
Proof.
  destruct d as [m f n]. unfold attempt, read_to_string, query, atomic, syscall. simpl.
  destruct (f n) as [| reason progress | progress] eqn:Hf.
  - destruct (m !! p) as [[bytes mode |] |] eqn:Hp; simpl.
    + destruct (from_utf8 bytes) as [text |] eqn:Hu; simpl; (split; [done |]).
      * by exists bytes, mode.
      * left. unfold entry_of_bytes. by rewrite Hu.
    + split; [done |]. by left.
    + destruct (bool_decide (p = [])); (split; [done | by left]).
  - split; [by destruct progress |]. right. exists n, reason, progress. simpl. split; [lia | done].
  - by destruct progress.
Qed.

Lemma drop_one p d :
  let '(d1, r) := ignore (F := Empty_set) (remove_file p) d in
  (nodes d1 = nodes d \/ nodes d1 = delete p (nodes d)) /\ match r with Failed _ => False | _ => True end.
Proof.
  destruct d as [m f n]. unfold ignore, attempt, remove_file, atomic, syscall, mbind, M_bind. simpl.
  destruct (f n) as [| reason [] | []]; simpl; auto; destruct (m !! p) as [[] |]; simpl; auto.
Qed.

(** What reading the files [paths] left of the disk, and what it gave. *)
Record has_read (paths : list Path) d d' (r : Run Empty_set (list (Path * QueueEntry))) : Prop := {
  hr_left : forall x, nodes d' !! x = nodes d !! x \/
    (x ∈ paths /\ nodes d' !! x = None /\ (read_as (nodes d !! x) = None \/ faulted d d'));
  hr_list : match r with
    | Done l => l.*1 `sublist_of` paths /\
        (forall p e, (p, e) ∈ l -> read_as (nodes d !! p) = Some e /\ nodes d' !! p = nodes d !! p) /\
        (forall p e, p ∈ paths -> read_as (nodes d !! p) = Some e -> (p, e) ∈ l \/ faulted d d')
    | Failed _ => False
    | Dead => True
    end;
}.

(** A first file that is dropped, whatever the reason. *)
Lemma has_read_dropped p paths d d1 : p ∉ paths ->
  nodes d1 = nodes d -> fates d1 = fates d -> calls d <= calls d1 ->
  read_as (nodes d !! p) = None \/ faulted d d1 ->
  (forall d2, let '(d3, r) := read_entries (E := Empty_set) paths d2 in has_read paths d2 d3 r) ->
  let '(d', r) := (ignore (remove_file p) ≫= fun _ => read_entries (E := Empty_set) paths) d1 in
  has_read (p :: paths) d d' r.
Proof.
  intros Hp Hn Hf Hc Hwhy IH. unfold mbind, M_bind.
  pose proof (drop_one p d1) as Hd. pose proof (steady_ignore (F := Empty_set) _ (steady_syscall _ _ _ : steady (remove_file p)) d1) as [Hf2 Hc2].
  destruct (ignore (remove_file p) d1) as [d2 r2]. simpl in Hf2, Hc2. destruct Hd as [Hd Hr2].
  assert (forall x, nodes d2 !! x = nodes d !! x \/ (x = p /\ nodes d2 !! x = None)) as Hx.
  { intros x. rewrite <- Hn. destruct Hd as [-> | ->]; [by left |]. destruct (decide (x = p)) as [-> | Hne].
    - right. split; [done | apply lookup_delete_eq].
    - left. by apply lookup_delete_ne. }
  assert (forall d3, calls d2 <= calls d3 -> read_as (nodes d !! p) = None \/ faulted d d3) as Hwhy3.
  { intros d3 Hc3. destruct Hwhy as [? | Hw]; [by left | right]. eapply (faulted_more d d d1); [done | done | lia | exact Hw]. }
  destruct r2 as [[] | [] |]; [| split; [| done]].
  2: { intros x. destruct (Hx x) as [-> | [-> Hgone]]; [by left | right]. split; [left |]. auto. }
  specialize (IH d2). pose proof (steady_read_entries (E := Empty_set) paths d2) as [Hf3 Hc3].
  destruct (read_entries paths d2) as [d3 r3]. simpl in Hf3, Hc3. destruct IH as [Hl Hr].
  assert (faulted d2 d3 -> faulted d d3) as Hlift.
  { apply faulted_more; [congruence | lia | lia]. }
  assert (forall x, x ∈ paths -> nodes d2 !! x = nodes d !! x) as Hrest.
  { intros x Hin. by destruct (Hx x) as [? | [-> _]]. }
  split.
  - intros x. destruct (Hl x) as [Hs | (Hin & Hgone & Hw)].
    + rewrite Hs. destruct (Hx x) as [-> | [-> Hgone]]; [by left | right]. split; [left |]. auto.
    + right. split; [by right |]. split; [done |]. rewrite <- (Hrest x Hin). destruct Hw; auto.
  - destruct r3 as [l | [] |]; [| done]. destruct Hr as (Hsub & Hread & Hall). split_and!.
    + by apply sublist_cons.
    + intros q e Hq. destruct (Hread q e Hq) as [? ?].
      assert (q ∈ paths) as Hin. { eapply elem_of_submseteq; [| by apply sublist_submseteq]. apply list_elem_of_fmap. by exists (q, e). }
      by rewrite <- (Hrest q Hin).
    + intros q e [-> | Hin]%elem_of_cons He.
      * destruct (Hwhy3 d3 Hc3) as [Hno | ?]; [congruence | by right].
      * rewrite <- (Hrest q Hin) in He. destruct (Hall q e Hin He); auto.
Qed.

Lemma read_entries_spec paths d : NoDup paths ->
  let '(d', r) := read_entries (E := Empty_set) paths d in has_read paths d d' r.
Proof.
  intros Hnd. revert d. induction Hnd as [| p paths Hp _ IH]; intros d.
  { split; [by left |]. split_and!; [done | |]; by intros ? ? ?%elem_of_nil. }
  simpl. pose proof (read_one p d) as H1.
  pose proof (steady_attempt (F := Empty_set) _ (steady_syscall _ _ _ : steady (read_to_string p)) d) as [Hf1 Hc1].
  unfold mbind at 1, M_bind at 1. destruct (attempt (read_to_string p) d) as [d1 r1]. simpl in Hf1, Hc1.
  destruct H1 as [Hn Hr]. destruct r1 as [[text | err] | [] |]; [| by apply has_read_dropped |].
  2: { split; [| done]. intros x. left. by rewrite Hn. }
  destruct Hr as (bytes & mode & Hb & Hu).
  destruct (entry_of_json text) as [e | why] eqn:He.
  2: { apply has_read_dropped; try done. left. rewrite Hb. simpl. unfold entry_of_bytes. by rewrite Hu; simpl; rewrite He. }
  assert (read_as (nodes d !! p) = Some e) as Has.
  { rewrite Hb. simpl. unfold entry_of_bytes. by rewrite Hu; simpl; rewrite He. }
  specialize (IH d1). pose proof (steady_read_entries (E := Empty_set) paths d1) as [Hf3 Hc3].
  unfold mbind at 1, M_bind at 1. destruct (read_entries paths d1) as [d3 r3]. simpl in Hf3, Hc3.
  assert (faulted d1 d3 -> faulted d d3) as Hlift by (apply faulted_more; [done | done | lia]).
  destruct IH as [Hl Hr]. rewrite Hn in Hl, Hr.
  assert (forall x, nodes d3 !! x = nodes d !! x \/
    (x ∈ p :: paths /\ nodes d3 !! x = None /\ (read_as (nodes d !! x) = None \/ faulted d d3))) as Hleft.
  { intros x. destruct (Hl x) as [? | (? & ? & Hw)]; [by left | right]. split; [by right |]. split; [done |].
    destruct Hw; auto. }
  destruct r3 as [l | [] |]; [| by split]. destruct Hr as (Hsub & Hread & Hall). split; [exact Hleft |]. split_and!.
  - by apply sublist_skip.
  - intros q e' [[= -> ->] | Hq]%elem_of_cons; [| by apply Hread]. split; [done |].
    destruct (Hl p) as [? | [? _]]; done.
  - intros q e' [-> | Hin]%elem_of_cons Hq.
    + left. rewrite Has in Hq. injection Hq as <-. left.
    + destruct (Hall q e' Hin Hq); [left; by right | auto].
Qed.
(** The names of the queue's files. *)
Lemma children_snoc m (p : Path) : (fun n => p ++ [n]) <$> children m p `sublist_of` (map_to_list m).*1.
Proof.
  unfold children. induction (map_to_list m).*1 as [| x l IH]; [done |]. simpl. case_bool_decide as Hx.
  - destruct Hx as [Hne Hp]. destruct (last x) as [n |] eqn:Hn; [| by apply last_None in Hn].
    apply last_Some in Hn as [x' ->]. rewrite parent_snoc in Hp. subst x'. simpl. by apply sublist_skip.
  - by apply sublist_cons.
Qed.

Lemma children_NoDup m (p : Path) : NoDup ((fun n => p ++ [n]) <$> children m p).
Proof. eapply sublist_NoDup; [apply (NoDup_fst_map_to_list m) | apply children_snoc]. Qed.

Lemma elem_of_children m (p : Path) n : is_Some (m !! (p ++ [n])) -> n ∈ children m p.
Proof.
  intros [x Hx]. unfold children. apply list_elem_of_omap. exists (p ++ [n]). split.
  - apply list_elem_of_fmap. exists (p ++ [n], x). split; [done |]. by apply elem_of_map_to_list.
  - rewrite bool_decide_true; [by rewrite last_snoc |]. split; [by destruct p | apply parent_snoc].
Qed.

Definition files_of (q : CrashQueue) (names : list Str) : list Path := (fun n => dir q ++ [n]) <$> names.

(** What [entries] gives: the files in the order of their names. *)
Lemma entries_spec q d :
  let '(d', r) := entries (E := Empty_set) q d in
  exists names, has_read (files_of q names) d d' r /\
    StronglySorted str_le names /\ Forall (fun n => is_json n = true) names /\ NoDup (files_of q names) /\
    (is_dir_at (nodes d) (dir q) = true -> r <> Dead -> forall p e, queued q (nodes d) p e ->
       p ∈ files_of q names \/ faulted d d').
Proof.
  unfold entries. pose proof (steady_attempt (F := Empty_set) _ (steady_syscall _ _ _ : steady (read_dir (dir q))) d) as [Hf Hc].
  assert (let '(d1, r) := attempt (F := Empty_set) (read_dir (dir q)) d in nodes d1 = nodes d /\
    match r with
    | Done (Ok names) => names = children (nodes d) (dir q)
    | Done (Err _) => is_dir_at (nodes d) (dir q) = true -> faulted d d1
    | Failed _ => False
    | Dead => True
    end) as Hdir.
  { destruct d as [m f n]. unfold attempt, read_dir, query, atomic, syscall. simpl.
    destruct (f n) as [| reason progress | progress] eqn:Hfn.
    - destruct (is_dir_at m (dir q)) eqn:Hdir; simpl; [done |]. by destruct (is_file_at m (dir q)).
    - split; [by destruct progress |]. intros _. exists n, reason, progress. simpl. split; [lia | done].
    - by destruct progress. }
  unfold mbind, M_bind. destruct (attempt (read_dir (dir q)) d) as [d1 r1]. simpl in Hf, Hc.
  destruct Hdir as [Hn Hr].
  assert (forall r, has_read (files_of q []) d d1 r <->
    match r with Done l => l = [] | Failed _ => False | Dead => True end) as Hnone.
  { intros r. split.
    - intros [_ Hl]. destruct r as [l | [] |]; [| done]. destruct Hl as (Hsub & _ & _).
      apply sublist_nil_r in Hsub. by apply fmap_nil_inv in Hsub.
    - intros Hl. split; [intros x; left; by rewrite Hn |]. destruct r as [l | [] |]; [subst | done].
      split_and!; [done | |]; by intros ? ? ?%elem_of_nil. }
  destruct r1 as [[names | err] | [] |].
  - subst names. set (names := sort_strs (json_names (children (nodes d) (dir q)))).
    assert (NoDup (files_of q names)) as Hnd.
    { apply NoDup_fmap_2; [intros ? ? He; by simplify_list_eq |]. unfold names, sort_strs.
      rewrite sort_by_Permutation. apply NoDup_filter. eapply NoDup_fmap_1, children_NoDup. }
    pose proof (read_entries_spec (files_of q names) d1 Hnd) as Hread. fold (files_of q names).
    destruct (read_entries (files_of q names) d1) as [d2 r2].
    exists names. split; [| split_and!; [apply sort_strs_sorted | | done |]].
    + destruct Hread as [Hl Hr]. rewrite Hn in Hl, Hr.
      assert (faulted d1 d2 -> faulted d d2) as Hlift by (by apply faulted_more).
      split; [intros x; destruct (Hl x) as [? | (? & ? & [? | ?])]; auto 6 |].
      destruct r2 as [l | [] |]; [| done]. destruct Hr as (? & ? & Hall). split_and!; [done | done |].
      intros p e Hp He. destruct (Hall p e Hp He); auto.
    + apply Forall_forall. intros n. unfold names. rewrite elem_of_sort_strs. by intros [? _]%list_elem_of_filter.
    + intros _ _ p e [(n & -> & Hj) He]. left. apply list_elem_of_fmap. exists n. split; [done |].
      unfold names. rewrite elem_of_sort_strs. apply list_elem_of_filter. split; [done |]. apply elem_of_children.
      destruct (nodes d !! _); [by eexists | done].
  - simpl. exists []. split; [by apply Hnone |]. split_and!; [constructor.. |]. intros Hd _ p e _. right. by apply Hr.
  - exists []. split; [by apply Hnone |]. split_and!; [constructor.. | done].
Qed.
End reading.

(** ** The claims *)

Section claims.
Context `{!EntryCodec}.

(** The sending half: whichever call fails and wherever the process dies, every entry of
    the list is accounted for and no other file changes but the entries' temporaries. *)
Lemma drain_from_keeps up c dir l before
    (Hnames : forall p e, (p, e) ∈ l -> exists name, p = dir ++ [name] /\ is_json name = true)
    (Hdistinct : NoDup l.*1) :
  let rs := (plan up c (length l) l 0).2 in
  let kept := fun n : Nodes =>
    (forall p e, (p, e) ∈ l -> accounted up rs before n p e) /\
    (forall q, (forall p, p ∈ l.*1 -> q <> p /\ q <> temporary p) -> n !! q = before !! q) in
  spec (eq before) (drain_from (E := Empty_set) up c (length l) l [] outcome_empty)
    (fun '(o, sent) n => reverse sent = rs /\ kept n) (fun _ _ => False) kept.
Proof.
  intros rs kept. set (orders := zip l (plan up c (length l) l 0).1).
  assert (forall p e v, (p, e, v) ∈ orders -> (p, e) ∈ l) as Hin.
  { intros p e v (i & (x & y & [= <- <-] & Hx & _)%lookup_zip_with_Some)%list_elem_of_lookup.
    by eapply list_elem_of_lookup_2. }
  assert (forall n, followed before orders n -> kept n) as Hkept.
  { intros n Hn. split; [by eapply followed_accounted |]. intros q Hq. apply (proj2 Hn).
    intros p e v Hp. apply Hq, list_elem_of_fmap. exists (p, e). split; [done | by eapply Hin]. }
  eapply spec_weaken; [apply (spec_drain_from before orders) with (l := l) (sent := []) | | | done | done].
  - intros p e v e' v' (i & (x & y & [= <- <-] & Hx & Hy)%lookup_zip_with_Some)%list_elem_of_lookup.
    intros (j & (x' & y' & [= <- <-] & Hx' & Hy')%lookup_zip_with_Some)%list_elem_of_lookup.
    assert (i = j) as ->; [| by simplify_eq].
    eapply NoDup_lookup; [exact Hdistinct | |]; rewrite list_lookup_fmap; [by rewrite Hx | by rewrite Hx'].
  - intros p e v p' e' v' (name & -> & _)%Hin%Hnames (name' & -> & Hj)%Hin%Hnames.
    unfold temporary. rewrite with_extension_snoc. intros [_ He]%app_inj_2; [| done].
    injection He as He. rewrite <- He in Hj.
    change (stem name ++ 46%N :: lit "tmp") with (stem name ++ lit ".tmp") in Hj.
    by rewrite temporary_is_not_json in Hj.
  - done.
  - intros n <-. split; [by left | done].
  - intros [o sent] n [[= -> ->] Hn]. rewrite app_nil_r, reverse_involutive. split; [done | by apply Hkept].
Qed.

(** The files of a queue and their temporaries. *)
Definition beside (q : CrashQueue) (x : Path) : Prop :=
  exists name, is_json name = true /\ (x = dir q ++ [name] \/ x = temporary (dir q ++ [name])).

Lemma temporary_apart (q : CrashQueue) (x y : Str) : is_json y = true ->
  temporary (dir q ++ [x]) <> dir q ++ [y].
Proof.
  intros Hj. unfold temporary. rewrite with_extension_snoc. intros [_ He]%app_inj_2; [| done].
  injection He as He. rewrite <- He in Hj. change (stem x ++ 46%N :: lit "tmp") with (stem x ++ lit ".tmp") in Hj.
  by rewrite temporary_is_not_json in Hj.
Qed.

(** The files [entries] read are files of the queue. *)
Lemma read_files_beside q names d d' r x : Forall (fun n => is_json n = true) names ->
  has_read (files_of q names) d d' r -> ~ beside q x -> nodes d' !! x = nodes d !! x.
Proof.
  intros Hj [Hl _] Hx. destruct (Hl x) as [? | [Hin _]]; [done |]. exfalso. apply Hx.
  apply list_elem_of_fmap in Hin as (n & -> & Hn). rewrite Forall_forall in Hj. exists n. split; [by apply Hj | by left].
Qed.

Section stages.
Context (up : Uploader) (c : UploadConfig) (q : CrashQueue) (d : Disk).

(** An entry with one more attempt reads back. *)
Definition reads_back : Prop :=
  forall p e text, queued q (nodes d) p e -> entry_to_json (attempted e) = Ok text ->
    is_Some (entry_of_bytes (as_bytes text)).

(** Every entry is accounted for, what is left of it can be read, or its loss goes back to a
    call that failed. *)
Definition safe (rs : list Request) (d' : Disk) : Prop :=
  forall p e, queued q (nodes d) p e ->
    (accounted up rs (nodes d) (nodes d') p e /\ (nodes d' !! p = None \/ is_Some (read_as (nodes d' !! p)))) \/
    (nodes d' !! p = None /\ faulted d d').
Definition all_kept (rs : list Request) (d' : Disk) : Prop :=
  forall p e, queued q (nodes d) p e ->
    accounted up rs (nodes d) (nodes d') p e \/ (nodes d' !! p = None /\ faulted d d').

Lemma safe_kept rs d' : safe rs d' -> all_kept rs d'.
Proof. intros Hs p e Hp. destruct (Hs p e Hp) as [[? _] | ?]; auto. Qed.

Lemma safe_read rs names d1 r : has_read (files_of q names) d d1 r -> safe rs d1.
Proof.
  intros Hr p e [Hp He]. destruct (hr_left _ _ _ _ Hr p) as [Hs | (_ & ? & [? | ?])]; [| congruence | by right].
  left. split; [by left |]. right. rewrite Hs. by eexists.
Qed.

(** The files [l] read, sent and cleared away. *)
Lemma safe_sent names l d1 : reads_back -> Forall (fun n => is_json n = true) names ->
  NoDup (files_of q names) -> has_read (files_of q names) d d1 (Done l) -> fates d1 = fates d -> calls d <= calls d1 ->
  let rs := (plan up c (length l) l 0).2 in
  let '(d2, r) := drain_from (E := Empty_set) up c (length l) l [] outcome_empty d1 in
  safe rs d2 /\ (forall x, ~ beside q x -> nodes d2 !! x = nodes d !! x) /\
  match r with Done (_, sent) => reverse sent = rs | Failed _ => False | Dead => True end.
Proof.
  intros Hback Hj Hnd Hr1 Hf1 Hc1 rs. pose proof (safe_read rs names d1 _ Hr1) as Hq1.
  destruct (hr_list _ _ _ _ Hr1) as (Hsub & Hread & _).
  assert (forall p e, (p, e) ∈ l -> exists name, p = dir q ++ [name] /\ is_json name = true) as Hfile.
  { intros p e Hp. assert (p ∈ files_of q names) as Hin.
    { eapply elem_of_submseteq; [| by apply sublist_submseteq]. apply list_elem_of_fmap. by exists (p, e). }
    apply list_elem_of_fmap in Hin as (n & -> & Hn). rewrite Forall_forall in Hj. exists n. auto. }
  pose proof (drain_from_keeps up c (dir q) l (nodes d1) Hfile (sublist_NoDup _ _ Hnd Hsub) d1 eq_refl) as Hk.
  pose proof (steady_drain_from (E := Empty_set) up c (length l) l [] outcome_empty d1) as [Hf2 Hc2].
  destruct (drain_from up c (length l) l [] outcome_empty d1) as [d2 r2]. simpl in Hf2, Hc2.
  assert ((forall p e, (p, e) ∈ l -> accounted up rs (nodes d1) (nodes d2) p e) /\
    (forall x, (forall p, p ∈ l.*1 -> x <> p /\ x <> temporary p) -> nodes d2 !! x = nodes d1 !! x) /\
    match r2 with Done (_, sent) => reverse sent = rs | Failed _ => False | Dead => True end) as (Hacc & Hoth & Hr2).
  { destruct r2 as [[o sent] | [] |]; [by destruct Hk as (? & ? & ?) | by destruct Hk]. }
  split_and!; [| | exact Hr2].
  - intros p e Hq. destruct (decide (p ∈ l.*1)) as [Hin | Hin].
    + apply list_elem_of_fmap in Hin as ([p' e'] & -> & Hp). destruct (Hread _ _ Hp) as [He' Hs]. simpl in *.
      assert (e' = e) as -> by (destruct Hq as [_ Hq]; congruence). left. specialize (Hacc _ _ Hp).
      assert (accounted up rs (nodes d) (nodes d2) p' e) as Ha by (unfold accounted in *; by rewrite <- Hs).
      split; [exact Ha |]. destruct Ha as [-> | [[-> _] | (text & mode & k & r & Ht & -> & _)]]; [right | by left | right].
      * by eexists.
      * by eapply Hback.
    + assert (nodes d2 !! p = nodes d1 !! p) as H21.
      { apply Hoth. intros p' ([p2 e2] & -> & Hp')%list_elem_of_fmap. split; [by intros ->; apply Hin, list_elem_of_fmap; eexists |].
        destruct (Hfile _ _ Hp') as (n & Hn & _). simpl in *. subst p2.
        destruct Hq as [(m & -> & Hjm) _]. apply not_eq_sym. by apply temporary_apart. }
      unfold accounted. rewrite H21. destruct (Hq1 p e Hq) as [? | [Hg Hfl]]; [by left | right].
      split; [done |]. by eapply (faulted_more d d d1).
  - intros x Hx. rewrite Hoth, (read_files_beside q names d d1 _ x Hj Hr1 Hx); [done |].
    intros p ([p' e] & -> & Hp)%list_elem_of_fmap.
    destruct (Hfile _ _ Hp) as (n & Hn & Hjn). simpl in *. subst p'. split; intros ->; apply Hx; exists n; auto.
Qed.

(** The queue counted at the end. *)
Lemma safe_counted rs names d2 d3 r : safe rs d2 -> has_read (files_of q names) d2 d3 r ->
  fates d2 = fates d -> calls d <= calls d2 -> calls d2 <= calls d3 -> all_kept rs d3.
Proof.
  intros Hq2 Hr3 Hf Hc Hc3 p e Hq.
  assert (faulted d d2 -> faulted d d3) as Hmore by (apply faulted_more; [done | lia | lia]).
  destruct (hr_left _ _ _ _ Hr3 p) as [Hs | (_ & Hg & Hw)]; destruct (Hq2 p e Hq) as [[Ha Hn] | [Hg2 Hfl]].
  - left. unfold accounted. by rewrite Hs.
  - right. rewrite Hs. auto.
  - destruct Hn as [Hn | [e' Hn]]; [left; unfold accounted in *; rewrite Hn in Ha; by rewrite Hg | right].
    split; [done |]. destruct Hw as [Hw | Hw]; [congruence |]. by eapply (faulted_more d d2 d3).
  - right. auto.
Qed.
End stages.

(** C16: a drain loses nothing, reading and counting the queue included.  Whichever call
    fails and wherever the process dies, every entry in the queue's directory is on disk as
    it was, or gone because a request that carried it was accepted or refused for good, or
    on disk with one more attempt because one was turned away for now; or it is gone and
    some call of the drain failed (what cannot be read is dropped).  No other file changes
    but the entries' temporaries.  A drain never fails, and what it asked is what its plan
    says.  That an entry with one more attempt reads back is assumed of the codec. *)
Theorem drain_loses_nothing up c q d (Hback : reads_back q d) :
  let '(d', r) := drain (E := Empty_set) up c q d in
  let l := match (entries (E := Empty_set) q d).2 with Done l => l | _ => [] end in
  let rs := (plan up c (length l) l 0).2 in
  (forall p e, queued q (nodes d) p e ->
     accounted up rs (nodes d) (nodes d') p e \/ (nodes d' !! p = None /\ faulted d d')) /\
  (forall x, ~ beside q x -> nodes d' !! x = nodes d !! x) /\
  match r with Done (_, sent) => sent = rs | Failed _ => False | Dead => True end.
Proof.
  unfold drain. unfold mbind at 1, M_bind at 1.
  pose proof (entries_spec q d) as He. pose proof (steady_entries (E := Empty_set) q d) as [Hf1 Hc1].
  destruct (entries q d) as [d1 r1]. simpl in Hf1, Hc1. destruct He as (names & Hr1 & _ & Hj & Hnd & _).
  destruct r1 as [l | [] |]; simpl.
  2: { split_and!; [by eapply safe_kept, safe_read | intros; by eapply read_files_beside | done]. }
  pose proof (safe_sent up c q d names l d1 Hback Hj Hnd Hr1 Hf1 Hc1) as Hs. cbv zeta in Hs.
  pose proof (steady_drain_from (E := Empty_set) up c (length l) l [] outcome_empty d1) as [Hf2 Hc2].
  unfold mbind at 1, M_bind at 1. destruct (drain_from up c (length l) l [] outcome_empty d1) as [d2 r2]. simpl in Hf2, Hc2.
  destruct Hs as (Hs & Hb2 & Hr2). destruct r2 as [[o sent] | [] |]; [| split_and!; [by apply safe_kept | done | done]].
  unfold len, mbind, M_bind.
  pose proof (entries_spec q d2) as He. pose proof (steady_entries (E := Empty_set) q d2) as [Hf3 Hc3].
  destruct (entries q d2) as [d3 r3]. simpl in Hf3, Hc3. destruct He as (names3 & Hr3 & _ & Hj3 & _).
  pose proof (safe_counted up q d _ names3 d2 d3 r3 Hs Hr3 ltac:(congruence) ltac:(lia) Hc3) as Hs3.
  assert (forall x, ~ beside q x -> nodes d3 !! x = nodes d !! x) as Hb3.
  { intros x Hx. rewrite <- Hb2 by done. by eapply read_files_beside. }
  pose proof (hr_list _ _ _ _ Hr3) as Hl3.
  destruct r3 as [l3 | [] |]; by split_and!.
Qed.

(** Two files of the queue in the order of their names. *)
Definition in_order (q : CrashQueue) (p p' : Path) : Prop :=
  exists n n', p = dir q ++ [n] /\ p' = dir q ++ [n'] /\ str_le n n'.

Lemma sorted_sublist {A} (R : A -> A -> Prop) (l l' : list A) :
  l `sublist_of` l' -> StronglySorted R l' -> StronglySorted R l.
Proof.
  induction 1 as [| x l l' Hl IH | x l l' Hl IH]; [done | | ]; intros [Hs Hx]%StronglySorted_inv; [| by apply IH].
  constructor; [by apply IH |]. apply Forall_forall. intros y Hy. rewrite Forall_forall in Hx. apply Hx.
  by eapply elem_of_submseteq; [| apply sublist_submseteq].
Qed.

Lemma sorted_lookup {A} (R : A -> A -> Prop) (l : list A) i j x y :
  StronglySorted R l -> l !! i = Some x -> l !! j = Some y -> i < j -> R x y.
Proof.
  intros Hs. revert i j. induction Hs as [| z l Hl IH Hz]; intros [| i] [| j]; simpl; try done; try lia.
  - intros [= ->] Hj _. rewrite Forall_forall in Hz. apply Hz. by eapply list_elem_of_lookup_2.
  - intros Hi Hj Hij. eapply IH; [exact Hi | exact Hj | lia].
Qed.

Lemma files_of_sorted q names : StronglySorted str_le names -> StronglySorted (in_order q) (files_of q names).
Proof.
  induction 1 as [| n names Hn IH Hle]; simpl; constructor; [done |]. apply Forall_forall.
  intros p (n' & -> & Hp)%list_elem_of_fmap. rewrite Forall_forall in Hle. exists n, n'. auto.
Qed.

(** A file named by [enqueue], up to the year 2286: its name begins with 13 digits. *)
Definition named_by_time (q : CrashQueue) (p : Path) (e : QueueEntry) : Prop :=
  p = path_for q e /\ (0 <= timestamp_millis (queued_at e) < 10 ^ 13)%Z.

Lemma names_by_time q p e p' e' : named_by_time q p e -> named_by_time q p' e' -> in_order q p p' ->
  (timestamp_millis (queued_at e) <= timestamp_millis (queued_at e'))%Z.
Proof.
  intros [-> He] [-> He'] (n & n' & Hn & Hn' & Hle). unfold path_for in *.
  apply app_inv_head in Hn as [= <-]. apply app_inv_head in Hn' as [= <-].
  set (t := timestamp_millis (queued_at e)) in *. set (t' := timestamp_millis (queued_at e')) in *.
  unfold show_millis in Hle. rewrite !(proj2 (Z.ltb_ge _ _)) in Hle by lia.
  assert (forall z : Z, (0 <= z < 10 ^ 13)%Z -> length (pad 13 (show_N (Z.to_N z))) = 13) as Hlen.
  { intros z Hz. unfold pad, zeros. rewrite length_app, repeat_length.
    pose proof (length_show_N 13 (Z.to_N z) ltac:(lia) ltac:(lia)). lia. }
  assert (forall z : Z, foldl push_digit (Some 0%N) (pad 13 (show_N (Z.to_N z))) = Some (Z.to_N z)) as Hval.
  { intros z. unfold pad, zeros. rewrite push_digit_zeros. apply show_N_digits. }
  assert (Z.to_N t <= Z.to_N t')%N as Hz; [| lia].
  eapply digits_le; [| exact Hle | apply Hval | apply Hval]. by rewrite !Hlen.
Qed.

(** C20: a drain accounts for every entry it read: accepted, refused, failed and skipped add
    up to all of them, and unless a call failed it read every entry in the directory.  It
    read them in the order of their file names, which for files named by the queue is the
    order in which they were queued.  What it sent are the entries with attempts left,
    oldest first, each at most once and without a gap, all of them unless a request failed
    for now; a crash travels alone and events in batches of one to [max_batch]; and a
    request that failed for now was the last. *)
Theorem drain_accounts_for_every_entry up c q d d' o sent
    (Hdrain : drain (E := Empty_set) up c q d = (d', Done (o, sent))) :
  exists l, (entries (E := Empty_set) q d).2 = Done l /\
  (is_dir_at (nodes d) (dir q) = true -> forall p e, queued q (nodes d) p e -> (p, e) ∈ l \/ faulted d d') /\
  StronglySorted (in_order q) l.*1 /\
  (forall i j p e p' e', i < j -> l !! i = Some (p, e) -> l !! j = Some (p', e') ->
     named_by_time q p e -> named_by_time q p' e' ->
     (timestamp_millis (queued_at e) <= timestamp_millis (queued_at e'))%Z) /\
  uploaded o + rejected o + failed o + skipped o = length l /\
  concat (carried <$> sent) `prefix_of` unspent c l /\
  length (concat (carried <$> sent)) = uploaded o + rejected o + failed o /\
  (failed o = 0 -> concat (carried <$> sent) = unspent c l) /\
  Forall (shaped c) sent /\
  (forall k r err, sent !! k = Some r -> up k r = Err err -> is_permanent err = false ->
     S k = length sent /\ failed o = length (carried r)).
Proof.
  unfold drain, mbind, M_bind in Hdrain. pose proof (entries_spec q d) as He.
  pose proof (steady_entries (E := Empty_set) q d) as [Hf1 Hc1].
  destruct (entries q d) as [d1 [l | [] |]]; [| done].
  destruct He as (names & Hread & Hsort & _ & _ & Hall). exists l. split; [done |].
  pose proof (steady_drain_from (E := Empty_set) up c (length l) l [] outcome_empty d1) as [Hf2 Hc2].
  destruct (drain_from up c (length l) l [] outcome_empty d1) as [d2 [r | [] |]] eqn:Hr; [| done].
  apply drain_from_result in Hr. pose proof (plan_sound up c (length l) l 0 (Nat.le_refl _)) as Hs.
  simpl in Hr. destruct (plan up c (length l) l 0) as [vs rs]. simpl in *. subst r.
  assert (steady (len (E := Empty_set) q)) as Hlen by (apply steady_bind; [apply steady_entries | intros; apply steady_ret]).
  destruct (Hlen d2) as [Hf3 Hc3]. destruct (len q d2) as [d3 [n | [] |]]; [| done]. injection Hdrain as <- <- <-.
  rewrite app_nil_r, reverse_involutive. destruct Hs as [H1 H2 H3 H4 H5 H6 H7]. simpl in *.
  assert (count Delivered vs + count Refused vs + count Tried vs + count Left_ vs = length vs) as Hsum.
  { clear. induction vs as [| [] vs IH]; [done | | | |]; rewrite !count_cons; simpl; lia. }
  destruct (hr_list _ _ _ _ Hread) as (Hsub & _ & Hfull).
  pose proof (sorted_sublist _ _ _ Hsub (files_of_sorted q _ Hsort)) as Hordered.
  assert (faulted d d1 -> faulted d d3) as Hmore by (apply faulted_more; [done | lia | lia]).
  split_and!; try done; try lia.
  - intros Hdir p e Hq. destruct (Hall Hdir ltac:(done) p e Hq) as [Hp | ?]; [| auto].
    destruct (Hfull p e Hp (proj2 Hq)); auto.
  - intros i j p e p' e' Hij Hi Hj Hn Hn'. eapply names_by_time; [exact Hn | exact Hn' |].
    eapply (sorted_lookup _ l.*1); [exact Hordered | | | exact Hij]; rewrite list_lookup_fmap; [by rewrite Hi | by rewrite Hj].
  - intros k r err Hk He Hp. apply H6; [done |]. simpl. by rewrite He; simpl; rewrite Hp.
Qed.

End claims.

(** ** Witnesses *)

Module Demo.

Definition ctx : ClientContext := unattributed.
Definition event_item (n : string) : QueuedItem :=
  Event_ (mkEventEnvelope 2 (lit n) 0 ctx (AppStarted None)).
Definition crash_item : QueuedItem :=
  Crash_ (mkCrashReport 2 (lit "c") [] 0 Panic (lit "boom") None None None None ctx []).
Definition entry (n : string) (attempts : N) (i : QueuedItem) : QueueEntry := mkQueueEntry (lit n) 0 attempts i.

(** An entry's text is its identifier and, once it was tried, a mark. *)
Definition known (c : char) : option QueueEntry :=
  match c with
  | 97%N => Some (entry "a" 0 (event_item "a"))
  | 98%N => Some (entry "b" 0 (event_item "b"))
  | 99%N => Some (entry "c" 0 crash_item)
  | 100%N => Some (entry "d" 3 (event_item "d"))
  | 101%N => Some (entry "e" 0 (event_item "e"))
  | _ => None
  end.
#[export] Instance codec : EntryCodec :=
  {| entry_of_json text :=
       match text with
       | [c] => ok_or [] (known c)
       | [c; 33%N] => ok_or [] (attempted <$> known c)
       | _ => Err []
       end;
     entry_to_json e :=
       Ok (q_id e ++ if bool_decide (attempts <$> (head (q_id e) ≫= known) = Some (attempts e)) then [] else lit "!") |}.

Definition dir : Path := [lit "q"].
Definition at_ (n : string) : Path := dir ++ [lit n ++ lit ".json"].
Definition disk_nodes : Nodes :=
  list_to_map ([([lit "q"], NDir)] ++
    ((fun n => (at_ n, NFile (lit n) false)) <$> ["a"; "b"; "c"; "d"; "e"])%string).
Definition queue : CrashQueue := mkCrashQueue dir 10 0.
Definition config : UploadConfig := mkUploadConfig (lit "u") 3 2 1 0 0 0.
(** Events are taken, the crash is refused, and the fourth request fails. *)
Definition collector : Uploader := fun k r =>
  match k with
  | 2 => Err (mkUploadError Retryable [])
  | _ => match r with One _ _ => Err (mkUploadError Rejected []) | Batch _ _ => Ok tt end
  end.
Definition listed : list (Path * QueueEntry) :=
  [(at_ "a", entry "a" 0 (event_item "a")); (at_ "b", entry "b" 0 (event_item "b"));
   (at_ "c", entry "c" 0 crash_item); (at_ "d", entry "d" 3 (event_item "d"));
   (at_ "e", entry "e" 0 (event_item "e"))].

Definition sound_disk : Disk := mkDisk disk_nodes (fun _ => Works) 0.
(** The first read fails once. *)
Definition hiccup : Disk :=
  mkDisk disk_nodes (fun n => if bool_decide (n = 1) then Fails (lit "interrupted") None else Works) 0.

Definition drained : Disk * Run Empty_set (UploadOutcome * list Request) := drain collector config queue sound_disk.
Definition counts (r : Run Empty_set (UploadOutcome * list Request)) : option (list nat) :=
  match r with
  | Done (o, sent) => Some [uploaded o; rejected o; failed o; skipped o; length sent]
  | _ => None
  end.
Definition files (d : Disk) : list (option Node) :=
  (fun n => nodes d !! at_ n) <$> ["a"; "b"; "c"; "d"; "e"]%string.

(** What is kept after a drain: the entry that failed, once more tried, and the one out of
    attempts. *)
Example what_stays :
  (counts drained.2, files drained.1) =
  (Some [2; 1; 1; 1; 3],
   [None; None; None; Some (NFile (lit "d") false); Some (NFile (lit "e!") false)]).
Proof. vm_compute. reflexivity. Qed.

(** Reading the queue drops an entry whose read failed, whatever the reason: one interrupted
    read and the entry is gone without having been sent. *)
Definition reread : Disk * Run Empty_set (list (Path * QueueEntry)) := entries queue hiccup.
Example a_failed_read_drops_the_entry :
  (nodes reread.1 !! at_ "a", match reread.2 with Done l => length l | _ => 0 end) = (None, 4).
Proof. vm_compute. reflexivity. Qed.

End Demo.

Section witness.
Import Demo.

Lemma disk_queued p e : queued queue disk_nodes p e -> (p, e) ∈ listed.
Proof.
  intros [(name & -> & _) Hr]. destruct (disk_nodes !! _) as [x |] eqn:Hx; [| done].
  unfold disk_nodes in Hx. apply elem_of_list_to_map_2, list_elem_of_In in Hx. unfold at_, dir in Hx. simpl in Hx.
  destruct Hx as [[=] | [[= <- <-] | [[= <- <-] | [[= <- <-] | [[= <- <-] | [[= <- <-] | []]]]]]];
    vm_compute in Hr; injection Hr as <-;
    [exact (list_elem_of_lookup_2 listed 0 _ eq_refl) | exact (list_elem_of_lookup_2 listed 1 _ eq_refl)
    | exact (list_elem_of_lookup_2 listed 2 _ eq_refl) | exact (list_elem_of_lookup_2 listed 3 _ eq_refl)
    | exact (list_elem_of_lookup_2 listed 4 _ eq_refl)].
Qed.

Lemma disk_reads_back : reads_back queue sound_disk.
Proof.
  intros p e text Hq Ht. apply disk_queued, list_elem_of_In in Hq. simpl in Hq.
  destruct Hq as [[= _ <-] | [[= _ <-] | [[= _ <-] | [[= _ <-] | [[= _ <-] | []]]]]]; vm_compute in Ht;
    injection Ht as <-; vm_compute; by eexists.
Qed.

Lemma drain_loses_nothing_witness :
  let rs := (plan collector config 5 listed 0).2 in
  length rs = 3 /\
  (forall p e, queued queue disk_nodes p e ->
     accounted collector rs disk_nodes (nodes drained.1) p e \/
     (nodes drained.1 !! p = None /\ faulted sound_disk drained.1)).
Proof.
  split; [reflexivity |].
  pose proof (drain_loses_nothing collector config queue sound_disk disk_reads_back) as Hd.
  unfold drained. destruct (drain collector config queue sound_disk) as [d' r]. exact (proj1 Hd).
Defined.

Lemma drain_accounts_for_every_entry_witness :
  exists d o sent l, drain (E := Empty_set) collector config queue sound_disk = (d, Done (o, sent)) /\
  length sent = 3 /\ Forall (shaped config) sent /\
  (entries (E := Empty_set) queue sound_disk).2 = Done l /\ StronglySorted (in_order queue) l.*1.
Proof.
  destruct (drain (E := Empty_set) collector config queue sound_disk) as [d r] eqn:Hd.
  assert (match r with Done (_, sent) => bool_decide (length sent = 3) | _ => false end = true) as Hl.
  { assert (r = drained.2) as -> by (unfold drained; by rewrite Hd). vm_compute. reflexivity. }
  destruct r as [[o sent] | [] |]; [| discriminate Hl]. apply bool_decide_eq_true in Hl.
  destruct (drain_accounts_for_every_entry collector config queue sound_disk d o sent Hd)
    as (l & He & _ & Hs & _ & _ & _ & _ & _ & Hshape & _).
  exists d, o, sent, l. exact (conj eq_refl (conj Hl (conj Hshape (conj He Hs)))).
Defined.
End witness.
