(* ===== verification/TelemetryProps.v ===== *)
(** * TelemetryProps: what stays on the machine

    Who opted out through the environment is obeyed, in every run of a process; a secret
    the application configured is in no report; and the smaller promises of the records:
    names, bounds, waits.  Closed examples at the end show where an opt-out is lost. *)

From Stdlib Require Import SpecFloat.
From S2P Require Import Prelude Bytes Text Sys Fields UpdateManifest UpdateClient Telemetry TelemetryQueue.
Import Features Config Redact Report Queue Upload Handle.

(** ** Nothing waits without consent *)

(** A file of the queue. *)
Definition waiting (root p : Path) : Prop := under (queue_dir root) p /\ p <> queue_dir root.
Definition outside (root p : Path) : Prop := ~ waiting root p.

Lemma outside_above root p q : outside root p -> under q p -> outside root q.
Proof.
  intros Hp Hq [Hu Hne]. apply Hp. split; [by etrans |]. intros ->.
  apply Hne, prefix_length_eq; [done | by apply prefix_length].
Qed.

(** What the process keeps beside the queue. *)
Definition beside (root : Path) (p : Path) : Prop :=
  exists name t, p = root ++ name :: t /\ name <> lit "telemetry-queue".

Lemma beside_clear root p : beside root p -> outside root p.
Proof.
  intros (name & t & -> & Hn) [Hu _]. apply Hn. unfold queue_dir, under in Hu.
  apply prefix_app_inv in Hu as [k Hk]. by injection Hk.
Qed.
Lemma beside_under root p q : beside root p -> under p q -> outside root q.
Proof.
  intros (name & t & -> & Hn) [k ->]. apply beside_clear.
  exists name, (t ++ k). split; [| done]. by rewrite <- app_assoc.
Qed.
Lemma beside_state root : beside root (telemetry_state_path root).
Proof. by eexists _, []. Qed.
Lemma beside_reports root name : beside root (reports_dir root ++ [name]).
Proof. exists (lit "crashes"), [name]. unfold reports_dir. by rewrite <- app_assoc. Qed.
Lemma outside_queue_dir root : outside root (queue_dir root).
Proof. by intros [_ ?]. Qed.

Lemma within_make_dirs root p : outside root p -> within (outside root) (create_dir_all p).
Proof.
  intros Hp. eapply within_weaken; [apply within_create_dir_all |]. intros q. by apply outside_above.
Qed.

(** A file written in one step next to the queue. *)
Lemma within_replaced root p t bytes : beside root p -> beside root t ->
  within (outside root) (write t bytes ≫= fun _ => rename t p).
Proof.
  intros Hp Ht. apply within_bind; [eapply within_eq; [apply within_write | by apply beside_clear] |].
  intros []. eapply within_weaken; [apply within_rename |].
  intros q [? | ?]; [by apply (beside_under root t) | by apply (beside_under root p)].
Qed.

(** [m] stays within [F] and gives what [R] says. *)
Definition obeys {E A : Type} (F : Path -> Prop) (R : A -> Prop) (m : M E A) : Prop :=
  within F m /\ forall d d' a, m d = (d', Done a) -> R a.

Lemma obeys_ret {E A : Type} F (R : A -> Prop) (a : A) : R a -> obeys F R (mret a : M E A).
Proof. intros Ha. split; [apply within_ret |]. by intros d d' b [= _ <-]. Qed.
Lemma obeys_fail {E A : Type} F (R : A -> Prop) (e : E) : obeys F R (fail e : M E A).
Proof. split; [apply within_fail | by intros d d' b [=]]. Qed.
Lemma obeys_within {E A : Type} F (m : M E A) : within F m -> obeys F (fun _ => True) m.
Proof. by split. Qed.

Lemma obeys_bind {E A B : Type} F (R : A -> Prop) (S : B -> Prop) (m : M E A) (k : A -> M E B) :
  obeys F R m -> (forall a, R a -> obeys F S (k a)) -> obeys F S (m ≫= k).
Proof.
  intros [Hm HR] Hk. split.
  - intros d q Hq. specialize (Hm d q Hq). unfold mbind, M_bind.
    destruct (m d) as [d' [a | e |]] eqn:Hd; [| done | done].
    rewrite <- Hm. by apply (proj1 (Hk a (HR _ _ _ Hd)) d').
  - intros d d' b. unfold mbind, M_bind. destruct (m d) as [d1 [a | e |]] eqn:Hd; [| done | done].
    apply (proj2 (Hk a (HR _ _ _ Hd))).
Qed.
Lemma obeys_then {E A B : Type} F (S : B -> Prop) (m : M E A) (k : A -> M E B) :
  within F m -> (forall a, obeys F S (k a)) -> obeys F S (m ≫= k).
Proof. intros Hm Hk. by apply (obeys_bind F (fun _ => True)); [apply obeys_within | intros a _]. Qed.

Section consent.
Context `{!Crypto, !TelemetryStateCodec, !TelemetryCodec, !EntryCodec, !Patterns}.

Lemma within_load_state {E : Type} F p : within F (load_state (E := E) p).
Proof.
  apply within_bind; [apply within_attempt, within_query |].
  intros [text | ?]; [| apply within_ret]. destruct (telemetry_state_of_json text); apply within_ret.
Qed.

Lemma within_store root s : within (outside root) (store_state s (telemetry_state_path root)).
Proof.
  unfold store_state. apply within_bind.
  - apply within_make_dirs. unfold telemetry_state_path. rewrite parent_snoc.
    intros [Hu Hne]. apply prefix_length in Hu. unfold queue_dir in Hu.
    rewrite length_app in Hu. simpl in Hu. lia.
  - intros []. destruct (telemetry_state_to_json s); [| apply within_fail].
    apply within_replaced; [apply beside_state |]. unfold telemetry_state_path. rewrite with_extension_snoc.
    by eexists _, [].
Qed.

Lemma within_stored {E A : Type} root s (a : A) :
  within (outside root) (ignore (store_state s (telemetry_state_path root)) ≫= fun _ => mret a : M E A).
Proof. apply within_bind; [apply within_ignore, within_store | intros; apply within_ret]. Qed.

Lemma within_install_id {E : Type} root fresh s :
  within (outside root) (ensure_install_id (E := E) fresh (telemetry_state_path root) s).
Proof. unfold ensure_install_id. case_bool_decide; [apply within_stored | apply within_ret]. Qed.
Lemma within_link_id {E : Type} root fresh s :
  within (outside root) (ensure_link_id (E := E) fresh (telemetry_state_path root) s).
Proof. unfold ensure_link_id. case_match; [apply within_ret | apply within_stored]. Qed.
Lemma within_set_link {E : Type} root l s :
  within (outside root) (set_link_id (E := E) l (telemetry_state_path root) s).
Proof. unfold set_link_id. repeat case_bool_decide; [apply within_ret | apply within_ret | apply within_stored]. Qed.
Lemma within_clear_link {E : Type} root s :
  within (outside root) (clear_link_id (E := E) (telemetry_state_path root) s).
Proof. unfold clear_link_id. case_bool_decide; [apply within_stored | apply within_ret]. Qed.

Lemma within_archive root r : within (outside root)
  (Archive.archive_write (Archive.report_archive_new (reports_dir root) ARCHIVE_LIMIT) r).
Proof.
  unfold Archive.archive_write. apply within_bind.
  - apply within_make_dirs, beside_clear. by exists (lit "crashes"), [].
  - intros []. destruct (report_to_json r); [| apply within_fail].
    unfold write_atomic, Archive.archive_path. cbn [Archive.dir Archive.report_archive_new].
    rewrite with_extension_snoc. apply within_bind; [apply within_replaced; apply beside_reports |].
    intros []. apply within_bind; [apply within_ignore | intros; apply within_ret].
    apply (obeys_bind _ (Forall (beside root)) (fun _ => True)).
    + apply obeys_then; [apply within_attempt, within_query |].
      intros [names | ?]; apply obeys_ret; [| done].
      apply Forall_forall. intros p (n & -> & _)%list_elem_of_fmap. apply beside_reports.
    + intros l Hl. apply obeys_within. apply (Forall_drop _ ARCHIVE_LIMIT) in Hl. cbn [Archive.limit Archive.report_archive_new].
      change (Nat.max ARCHIVE_LIMIT 1) with ARCHIVE_LIMIT. revert Hl. generalize (drop ARCHIVE_LIMIT l).
      intros l' Hl. induction Hl as [| p l' Hp _ IH]; simpl; [apply within_ret |].
      apply within_bind; [apply within_attempt; eapply within_eq; [apply within_remove_file | by apply beside_clear] |].
      intros [[] | [| reason]]; [| exact IH | apply within_fail].
      apply within_bind; [exact IH | intros; apply within_ret].
Qed.

(** *** Calls without consent *)

Definition quiet (t : Telemetry) : Prop := upload (consent t) = false /\ worker t = None.
(** The environment decided. *)
Definition firm (t : Telemetry) : Prop := source (consent t) = Environment_ \/ source (consent t) = DoNotTrack.
Definition declines (c : Call) : Prop := match c with SetUploadConsent true _ => False | _ => True end.

(** What a quiet handle becomes: still quiet, and as firm, on the same files. *)
Definition stays (t t' : Telemetry) : Prop :=
  quiet t' /\ (firm t -> firm t') /\ root (config t') = root (config t) /\ asked t' = asked t.
Lemma stays_refl t : quiet t -> stays t t.
Proof. done. Qed.

Lemma quiet_wake {E : Type} up now w t : quiet t -> wake (E := E) up now w t = mret (t, None).
Proof. intros [_ Hw]. unfold wake. by rewrite Hw. Qed.

Lemma quiet_record {E : Type} e m t : quiet t -> record (E := E) e m t = mret tt.
Proof. intros [Hu _]. unfold record. by rewrite Hu. Qed.
Lemma quiet_feature {E : Type} f o ms m t : quiet t -> feature (E := E) f o ms m t = mret tt.
Proof. intros Hq. unfold feature. destruct (sampled f m t); simpl; [by apply quiet_record | done]. Qed.

Lemma quiet_call {E : Type} up c t : quiet t -> firm t \/ declines c ->
  obeys (outside (root (config t))) (stays t) (call (E := E) up c t).
Proof.
  intros Hq Hc. pose proof Hq as [Hu Hw]. unfold call.
  destruct c as [e m | e m | f o ms m | f o ms m | r m m' | lvl tg msg now | l | m | | enabled m | w now].
  - rewrite quiet_record by done. by apply obeys_ret.
  - unfold record_envelope. rewrite Hu. by apply obeys_ret.
  - rewrite quiet_feature by done. by apply obeys_ret.
  - unfold feature_once. rewrite Hu. by apply obeys_ret.
  - unfold store_report. rewrite Hu. apply obeys_then; [| by intros; apply obeys_ret].
    apply within_bind; [apply within_ignore, within_archive | intros; apply within_ret].
  - by apply obeys_ret.
  - unfold link_with. case_bool_decide; [by apply obeys_ret |].
    apply (obeys_bind _ (fun r : Telemetry * bool => stays t r.1)); [| by intros; apply obeys_ret].
    apply obeys_then; [apply within_set_link |]. intros [s []]; by apply obeys_ret.
  - unfold ensure_link. apply (obeys_bind _ (fun r : Telemetry * Str => stays t r.1)); [| by intros; apply obeys_ret].
    apply obeys_then; [apply within_link_id |]. intros [s l]. by apply obeys_ret.
  - unfold clear_link. apply obeys_then; [apply within_clear_link |]. intros s. by apply obeys_ret.
  - apply (obeys_bind _ (fun r : Telemetry * bool => stays t r.1)); [| by intros; apply obeys_ret].
    unfold set_upload_consent. apply obeys_then; [apply within_ignore, within_store |]. intros _u.
    change (consent (set_state _ t)) with (consent t).
    destruct (source (consent t)) eqn:Hs; try by apply obeys_ret.
    all: destruct Hc as [[Hf | Hf] | Hc]; try (by rewrite Hs in Hf).
    all: destruct enabled; [done |]; rewrite quiet_wake by done; apply obeys_ret.
    all: split; [done |]; split; [| done]; intros [Hf | Hf]; by rewrite Hs in Hf.
  - rewrite quiet_wake by done. by apply obeys_ret.
Qed.

(** The collector has no say in it. *)
Lemma quiet_call_alike {E : Type} up up' c t d : quiet t -> firm t \/ declines c ->
  call (E := E) up c t d = call up' c t d.
Proof.
  intros Hq Hc. destruct c as [| | | | | | | | | enabled m | w now]; try done; cbn [call].
  - unfold set_upload_consent, mbind, M_bind. destruct (ignore _ d) as [d1 [[] | e |]]; [| done | done].
    change (consent (set_state _ t)) with (consent t). destruct (source (consent t)) eqn:Hs; try done.
    all: destruct Hc as [[Hf | Hf] | Hc]; try (by rewrite Hs in Hf).
    all: destruct enabled; [done |].
    all: pose proof (proj2 Hq : worker (set_consent (mkConsent false UserSetting)
           (set_state (mkTelemetryState (Some false) (install_id (state t)) (link_id (state t))
              (seen_once (state t)) true) t)) = None) as Hw.
    all: unfold wake; by rewrite Hw.
  - by rewrite !quiet_wake.
Qed.

Lemma quiet_calls {E : Type} up l t : quiet t -> firm t \/ Forall declines l ->
  obeys (outside (root (config t))) (stays t) (calls (E := E) up l t).
Proof.
  revert t. induction l as [| c l IH]; intros t Hq Hl; simpl; [by apply obeys_ret |].
  apply (obeys_bind _ (stays t)).
  - apply quiet_call; [done |]. destruct Hl as [? | Hl]; [by left | right; by inversion Hl].
  - intros t' (Hq' & Hf & Hr & Ha). rewrite <- Hr.
    assert (firm t' \/ Forall declines l) as Hl'.
    { destruct Hl as [? | Hl]; [left; auto | right; by inversion Hl]. }
    destruct (IH t' Hq' Hl') as [Hw Hs]. split; [done |]. intros d d' t'' Hd.
    destruct (Hs _ _ _ Hd) as (? & ? & Hr' & Ha'). split; [done |]. split; [auto |].
    by rewrite Hr', Ha', Hr.
Qed.
Lemma quiet_calls_alike {E : Type} up up' l t d : quiet t -> firm t \/ Forall declines l ->
  calls (E := E) up l t d = calls up' l t d.
Proof.
  revert t d. induction l as [| c l IH]; intros t d Hq Hl; simpl; [done |].
  assert (firm t \/ declines c) as Hc by (destruct Hl as [? | Hl]; [by left | right; by inversion Hl]).
  unfold mbind, M_bind. rewrite (quiet_call_alike up up') by done.
  destruct (call up' c t d) as [d' [t' | e |]] eqn:Hd; [| done | done].
  destruct (proj2 (quiet_call up' c t Hq Hc) _ _ _ Hd) as (Hq' & Hf & _ & _). apply IH; [done |].
  destruct Hl as [? | Hl]; [left; auto | right; by inversion Hl].
Qed.

(** A process: its configuration is resolved, telemetry starts, and calls follow. *)
Definition session (up : Uploader) (env : Environment) (machine : Machine) (m : Moment) (c : TelemetryConfig)
    (l : list Call) : M IoError Telemetry :=
  resolved env c ≫= fun c => start machine m c ≫= fun t => calls up l t.

Lemma opted_out env channel stored :
  from_option is_truthy false (env ENV_DO_NOT_TRACK) = true \/ env ENV_ENABLED ≫= parse_bool = Some false ->
  upload (resolve channel stored env) = false /\
  (source (resolve channel stored env) = Environment_ \/ source (resolve channel stored env) = DoNotTrack).
Proof.
  intros Ho. unfold resolve. destruct (from_option is_truthy false (env ENV_DO_NOT_TRACK)); [by auto |].
  destruct Ho as [? | ->]; [done | by auto].
Qed.

Lemma quiet_start machine m c : upload (consent_ c) = false ->
  obeys (outside (root c))
    (fun t => quiet t /\ consent t = consent_ c /\ root (config t) = root c /\ asked t = [])
    (start machine m c).
Proof.
  intros Hu. unfold start. apply obeys_then.
  { apply within_bind; [apply within_make_dirs, beside_clear; by exists (lit "crashes"), [] |].
    intros []. apply within_make_dirs, outside_queue_dir. }
  intros []. apply obeys_then; [apply within_load_state |]. intros s.
  apply obeys_then; [apply within_install_id |]. intros s'. apply obeys_then.
  - destruct (link_id_ c); [| apply within_ret].
    apply within_bind; [apply within_set_link | intros; apply within_ret].
  - intros s''. apply obeys_ret. rewrite Hu. done.
Qed.

Lemma quiet_session up env machine m c l :
  from_option is_truthy false (env ENV_DO_NOT_TRACK) = true \/ env ENV_ENABLED ≫= parse_bool = Some false ->
  obeys (outside (root c)) (fun t => quiet t /\ asked t = []) (session up env machine m c l).
Proof.
  intros Ho. unfold session, resolved.
  apply (obeys_bind _ (fun c' => root c' = root c /\ upload (consent_ c') = false /\
    (source (consent_ c') = Environment_ \/ source (consent_ c') = DoNotTrack))).
  - apply obeys_then; [apply within_load_state |]. intros s. apply obeys_ret. split; [done | by apply opted_out].
  - intros c' (<- & Hu & Hs). eapply obeys_bind; [by apply quiet_start |].
    intros t (Hq & Hc & Hr & Ha). rewrite <- Hr.
    destruct (quiet_calls (E := IoError) up l t Hq) as [Hw Hst]; [left; unfold firm; by rewrite Hc |].
    split; [done |]. intros d d' t' Hd. destruct (Hst _ _ _ Hd) as (? & _ & _ & Ha'). by rewrite Ha'.
Qed.
Lemma quiet_session_alike up up' env machine m c l d :
  from_option is_truthy false (env ENV_DO_NOT_TRACK) = true \/ env ENV_ENABLED ≫= parse_bool = Some false ->
  session up env machine m c l d = session up' env machine m c l d.
Proof.
  intros Ho. unfold session, resolved, mbind at 1 5, M_bind at 1 5. unfold mbind, M_bind.
  destruct (load_state _ d) as [d1 [s | e |]]; [| done | done]. cbn [mret M_ret].
  match goal with |- context [start machine m ?c'] => set (c1 := c') end.
  destruct (opted_out env (channel c) (stored_upload s) Ho) as [Hu Hs].
  destruct (start machine m c1 d1) as [d2 [t | e |]] eqn:Hd; [| done | done].
  destruct (proj2 (quiet_start machine m c1 Hu) _ _ _ Hd) as (Hq & Hc & _).
  apply quiet_calls_alike; [done | left; unfold firm; by rewrite Hc].
Qed.
End consent.

(** ** Secrets *)

Definition absent (t s : Str) : Prop := forall a b, s <> a ++ t ++ b.

Lemma absent_part t a s b : absent t (a ++ s ++ b) -> absent t s.
Proof. intros Ha x y ->. apply (Ha (a ++ x) (y ++ b)). by rewrite <- !app_assoc. Qed.
Lemma absent_front t a b : absent t (a ++ b) -> absent t a.
Proof. intros Ha. by apply (absent_part t [] a b). Qed.
Lemma absent_back t a b : absent t (a ++ b) -> absent t b.
Proof. intros Ha. apply (absent_part t a b []). by rewrite app_nil_r. Qed.
Lemma absent_nil t : t <> [] -> absent t [].
Proof. intros Ht a b He. symmetry in He. by apply app_nil in He as [-> [? _]%app_nil]. Qed.
Lemma absent_take t n s : absent t s -> absent t (take n s).
Proof. rewrite <- (take_drop n s) at 1. apply absent_front. Qed.
Lemma absent_drop t n s : absent t s -> absent t (drop n s).
Proof. rewrite <- (take_drop n s) at 1. apply absent_back. Qed.

(** A character that is not of the text keeps what is around it apart. *)
Lemma absent_around t c x y : c ∉ t -> absent t x -> absent t y -> absent t (x ++ c :: y).
Proof.
  intros Hc Hx Hy a b He. apply app_eq_inv in He as [(k & -> & Hk) | (k & -> & Hk)].
  - (* the occurrence starts in [x] *)
    apply app_eq_inv in Hk as [(j & -> & Hj) | (j & -> & _)].
    + destruct j as [| c' j]; simpl in Hj.
      * apply (Hx a []). by rewrite !app_nil_r.
      * injection Hj as <- _. apply Hc. apply elem_of_app. right. left.
    + by apply (Hx a j).
  - destruct k as [| c' k]; simpl in Hk.
    + destruct t as [| c' t]; [by apply (Hx x []); rewrite app_nil_r |].
      injection Hk as <- _. apply Hc. left.
    + injection Hk as _ ->. by apply (Hy k b).
Qed.

(** A text that comes in the place of something. *)
Definition fence (t to : Str) : Prop := forall x y, absent t x -> absent t y -> absent t (x ++ to ++ y).

(** A text the replacements cannot spell: without the characters of the marks, and not
    within their words. *)
Record plain (t : Str) : Prop := {
  p_some : t <> [];
  p_marks : Forall (fun c => c ∉ t) (lit " []~");
  p_redacted : absent t (lit "redacted");
  p_email : absent t (lit "email");
}.

Lemma plain_mark t c : plain t -> c ∈ lit " []~" -> c ∉ t.
Proof. intros [_ Hm _ _] Hc. rewrite Forall_forall in Hm. by apply Hm. Qed.

Ltac mark := apply plain_mark; [done | apply (bool_decide_unpack _); reflexivity].

Lemma fence_bracketed t w : plain t -> absent t w -> fence t (lit "[" ++ w ++ lit "]").
Proof.
  intros Ht Hw x y Hx Hy. rewrite <- !app_assoc. cbn [lit app].
  apply (absent_around t); [mark | done |]. apply (absent_around t); [mark | done | done].
Qed.
Lemma fence_redacted t : plain t -> fence t REDACTED.
Proof. intros Ht. apply (fence_bracketed t (lit "redacted")); [done | by apply p_redacted]. Qed.
Lemma fence_spaced t : plain t -> fence t (SPACE :: REDACTED).
Proof.
  intros Ht x y Hx Hy. change ((SPACE :: REDACTED) ++ y) with (SPACE :: [] ++ REDACTED ++ y).
  apply (absent_around t); [mark | done |]. apply fence_redacted; [done | by apply absent_nil, p_some | done].
Qed.
Lemma fence_tilde t : plain t -> fence t TILDE.
Proof. intros Ht x y Hx Hy. apply (absent_around t); [mark | done | done]. Qed.
Lemma fence_email t : plain t -> fence t (lit "[email]").
Proof. intros Ht. apply (fence_bracketed t (lit "email")); [done | by apply p_email]. Qed.

Lemma starts_with_split s p : starts_with s p = true -> exists r, s = p ++ r.
Proof. intros Hs%bool_decide_eq_true. exists (drop (length p) s). by rewrite <- Hs at 1; rewrite take_drop. Qed.

(** Replacing something keeps a text away. *)
Lemma absent_replaced t pat to pre skip s : fence t to ->
  absent t (pre ++ drop skip s) -> absent t (pre ++ replace_from pat to skip s).
Proof.
  intros Hf. revert pre skip. induction s as [| c s IH]; intros pre skip Ha; simpl; [by rewrite drop_nil in Ha |].
  destruct skip as [| skip]; [| by apply IH]. simpl in Ha.
  destruct (starts_with (c :: s) pat) eqn:Hs.
  - apply Hf; [by eapply absent_front |]. apply (IH []). simpl.
    apply absent_drop. eapply (absent_back _ [c]), absent_back, Ha.
  - rewrite cons_middle, app_assoc. apply IH. simpl. by rewrite <- app_assoc.
Qed.

(** Replacing the text itself leaves none of it. *)
Lemma absent_withheld t to pre skip s : t <> [] -> fence t to ->
  (forall a b, pre ++ drop skip s = a ++ t ++ b -> length pre <= length a) ->
  absent t (pre ++ replace_from t to skip s).
Proof.
  intros Hne Hf. revert pre skip. induction s as [| c s IH]; intros pre skip Ha; simpl.
  - rewrite drop_nil in Ha. intros a b He. specialize (Ha a b He). apply (f_equal length) in He.
    rewrite !length_app in He. simpl in He. destruct t; [done | simpl in He; lia].
  - destruct skip as [| skip]; [| by apply IH]. simpl in Ha.
    assert (absent t pre) as Hpre.
    { intros a b ->. specialize (Ha a (b ++ c :: s)). rewrite <- !app_assoc in Ha. specialize (Ha eq_refl).
      rewrite !length_app in Ha. destruct t; [done | simpl in Ha; lia]. }
    destruct (starts_with (c :: s) t) eqn:Hs.
    + apply Hf; [done |]. apply (IH []). simpl. lia.
    + rewrite cons_middle, app_assoc. apply IH. simpl. intros a b He. rewrite <- app_assoc in He. simpl in He.
      specialize (Ha a b He). rewrite length_app. simpl.
      destruct (decide (length pre = length a)) as [Hl |]; [| lia].
      apply app_inj_1 in He as [_ He]; [| done]. rewrite drop_0 in He. exfalso.
      assert (starts_with (c :: s) t = true) as Ht; [| by rewrite Ht in Hs].
      apply bool_decide_eq_true. by rewrite He, take_app_length.
Qed.

Lemma find_str_absent s t : t <> [] -> find_str s t = None -> absent t s.
Proof.
  intros Hne. induction s as [| c s IH]; intros Hf.
  - by apply absent_nil.
  - cbn [find_str] in Hf. destruct (starts_with (c :: s) t) eqn:Hs; [done |].
    apply fmap_None in Hf. intros [| c' a] b He; simpl in He.
    + assert (starts_with (c :: s) t = true) as Ht; [| by rewrite Ht in Hs].
      apply bool_decide_eq_true. by rewrite He, take_app_length.
    + injection He as _ He. by apply (IH Hf a b).
Qed.

Lemma absent_withhold t out secret : plain t -> (secret = t \/ absent t out) -> absent t (withhold out secret).
Proof.
  intros Ht Ho. unfold withhold, contains, replace_str. case_bool_decide as Hc.
  - destruct Ho as [-> | Ho].
    + apply (absent_withheld t REDACTED [] 0); [by apply p_some | by apply fence_redacted | simpl; lia].
    + apply (absent_replaced t secret REDACTED [] 0); [by apply fence_redacted | done].
  - destruct Ho as [-> | Ho]; [| done]. apply find_str_absent; [by apply p_some |].
    by apply eq_None_not_Some.
Qed.

Lemma absent_withholds t l out : plain t -> (t ∈ l \/ absent t out) -> absent t (foldl withhold out l).
Proof.
  intros Ht. revert out. induction l as [| secret l IH]; intros out Ho; simpl.
  - by destruct Ho as [?%elem_of_nil | ?].
  - apply IH. destruct Ho as [[-> | ?]%elem_of_cons | ?]; [| by left |].
    + right. by apply absent_withhold; [| left].
    + right. by apply absent_withhold; [| right].
Qed.

Lemma absent_home t h out : plain t -> absent t out -> absent t (hide_home h out).
Proof.
  intros Ht Ho. unfold hide_home, replace_str.
  assert (forall pat s, absent t s -> absent t (replace_from pat TILDE 0 s)) as Hr.
  { intros pat s Hs. apply (absent_replaced t pat TILDE [] 0); [by apply fence_tilde | done]. }
  case_bool_decide; auto.
Qed.

(** Regular expressions: their matches come one after the other, and a match starts with
    its group. *)
Fixpoint in_order (from : nat) (l : list Match) : Prop :=
  match l with
  | [] => True
  | m :: l' => from <= m_start m <= g_end m /\ in_order (m_end m) l'
  end.
Record PatternLaws `{Patterns} : Prop := {
  credential_header_ok : forall s, in_order 0 (credential_header s);
  assignment_ok : forall s, in_order 0 (assignment s);
}.

Lemma absent_slice t s i j : absent t s -> absent t (slice s i j).
Proof. intros Hs. by apply absent_take, absent_drop. Qed.

(** Replaced by a mark: nothing of the match is left. *)
Lemma absent_marked t to s from l : fence t to -> absent t s ->
  absent t (replace_matches (fun _ => to) s from l).
Proof.
  intros Hf Hs. revert from. induction l as [| m l IH]; intros from; simpl; [by apply absent_drop |].
  apply Hf; [by apply absent_slice | apply IH].
Qed.

Lemma slice_join s i j k : i <= j <= k -> slice s i j ++ slice s j k = slice s i k.
Proof.
  intros Hij. unfold slice. replace (drop j s) with (drop (j - i) (drop i s)) by (rewrite drop_drop; f_equal; lia).
  rewrite take_take_drop. f_equal. lia.
Qed.

(** Replaced by its group and a mark. *)
Lemma absent_grouped t to s from l : fence t to -> absent t s -> in_order from l ->
  absent t (replace_matches (fun g => g ++ to) s from l).
Proof.
  intros Hf Hs. revert from. induction l as [| m l IH]; intros from; simpl; [intros _; by apply absent_drop |].
  intros [Hm Hl]. rewrite <- app_assoc, app_assoc, slice_join by done.
  apply Hf; [by apply absent_slice | by apply IH].
Qed.

Section scrub.
Context `{!Patterns} (LAWS : PatternLaws).

Lemma absent_scrub red t text : plain t -> t ∈ secrets red -> absent t (scrub red text).
Proof.
  intros Ht Hin. unfold scrub. case_bool_decide; [by apply absent_nil, p_some |].
  apply absent_marked; [by apply fence_email |]. apply absent_marked; [by apply fence_redacted |].
  apply absent_marked; [by apply fence_redacted |].
  apply absent_grouped; [by apply fence_spaced | | apply LAWS].
  apply absent_grouped; [by apply fence_spaced | | apply LAWS].
  assert (absent t (foldl withhold text (secrets red))) as Ha by (by apply absent_withholds; [| left]).
  destruct (home red); [by apply absent_home | done].
Qed.

(** The texts of a report that are not of a fixed form. *)
Definition free_texts (r : CrashReport) : list Str :=
  message r :: option_list (location r) ++ option_list (thread r) ++ option_list (backtrace r)
  ++ option_list (note r) ++ (breadcrumbs r ≫= fun b => [Crumbs.message b; Crumbs.target b]).

Lemma free_texts_redacted red r s : s ∈ free_texts (redacted red r) -> exists text, s = scrub red text.
Proof.
  unfold free_texts, redacted. cbn [message location thread backtrace note breadcrumbs].
  intros [-> | Hs]%elem_of_cons; [by eexists |].
  rewrite !elem_of_app in Hs. destruct Hs as [Hs | [Hs | [Hs | [Hs | Hs]]]].
  1: destruct (location r). 3: destruct (thread r). 5: destruct (backtrace r). 7: destruct (note r).
  all: try by apply elem_of_nil in Hs.
  1-4: apply list_elem_of_singleton in Hs as ->; by eexists.
  apply list_elem_of_bind in Hs as (b & Hb & (b' & -> & _)%list_elem_of_fmap).
  apply elem_of_cons in Hb as [-> | ->%list_elem_of_singleton]; by eexists.
Qed.
End scrub.

(** ** Smaller promises *)

(** A wire name is its feature's alone. *)
Lemma feature_name_roundtrip f : from_name (as_str f) = Some f.
Proof. by destruct f. Qed.
Lemma feature_from_name name f : from_name name = Some f -> as_str f = name.
Proof. intros [_ He]%find_some. by apply bool_decide_eq_true in He. Qed.

(** The wait between drains stays between the interval and the ceiling. *)
Lemma wait_bounded current c o : (base_wait c <= current)%Z -> (base_wait c <= DURATION_MAX)%Z ->
  (base_wait c <= advance_wait current c o <= Z.max (backoff c) (base_wait c))%Z.
Proof. unfold advance_wait, base_wait. intros. case_match; unfold NANOS_PER_MILLI in *; lia. Qed.

(** A cut text fits its budget, and is whole where it fits. *)
Lemma fitting_fits n s : length (as_bytes (fitting n s)) <= n.
Proof.
  revert n. induction s as [| c s IH]; intros n; simpl; [unfold as_bytes; simpl; lia |].
  destruct (length (encode_utf8 c) <=? n) eqn:Hc; [| unfold as_bytes; simpl; lia].
  apply Nat.leb_le in Hc. change (as_bytes (c :: ?x)) with (encode_utf8 c ++ as_bytes x).
  unfold as_bytes in *. simpl. rewrite length_app. specialize (IH (n - length (encode_utf8 c))). lia.
Qed.
Lemma fitting_prefix n s : fitting n s `prefix_of` s.
Proof.
  revert n. induction s as [| c s IH]; intros n; simpl; [done |].
  case_match; [apply prefix_cons, IH | apply prefix_nil].
Qed.
Lemma truncate_fits suffix s cap :
  length (as_bytes (truncate_to suffix s cap)) <= cap + length (as_bytes suffix).
Proof.
  unfold truncate_to. destruct (_ <=? cap) eqn:Hc; [apply Nat.leb_le in Hc; lia |].
  unfold as_bytes. rewrite bind_app, length_app. pose proof (fitting_fits cap s). unfold as_bytes in *. lia.
Qed.

(** The log tail: at most [limit] lines of at most the cap and an ellipsis. *)
Definition tail_ok (b : Crumbs.Breadcrumbs) : Prop :=
  length (Crumbs.entries b) <= Crumbs.limit b /\
  Forall (fun e => length (as_bytes (Crumbs.message e)) <= Crumbs.message_cap b + 3 /\
                   (Crumbs.repeats e <= u32_max)%N) (Crumbs.entries b).

Lemma tail_record_ok lvl target msg now b : 1 <= Crumbs.limit b -> tail_ok b ->
  let b' := Crumbs.record lvl target msg now b in
  tail_ok b' /\ Crumbs.limit b' = Crumbs.limit b /\ Crumbs.message_cap b' = Crumbs.message_cap b.
Proof.
  intros Hl [Hn Hf]. unfold Crumbs.record.
  set (text := truncate_to _ _ _). assert (length (as_bytes text) <= Crumbs.message_cap b + 3) as Ht.
  { apply truncate_fits. }
  assert (tail_ok (Crumbs.mkBreadcrumbs (Crumbs.pop_to (Crumbs.limit b)
    (Crumbs.entries b ++ [Crumbs.mkBreadcrumb now (Crumbs.level_as_str lvl) target text 1]))
    (Crumbs.limit b) (Crumbs.message_cap b))) as Hfresh.
  { unfold tail_ok, Crumbs.pop_to. cbn. split; [rewrite length_drop, length_app; simpl; lia |].
    apply Forall_drop, Forall_app. split; [done |]. by repeat constructor. }
  destruct (last (Crumbs.entries b)) as [e |] eqn:Hlast; [| done].
  destruct (_ && _ && _); [| done]. split; [| done]. apply last_Some in Hlast as [l He].
  unfold tail_ok. cbn. rewrite He in Hn, Hf |- *. rewrite removelast_last, length_app in *.
  apply Forall_app in Hf as [Hf He']. apply Forall_singleton in He' as [? ?].
  split; [done |]. apply Forall_app. split; [done |]. repeat constructor; [done |].
  cbn. unfold u32_saturating_add. lia.
Qed.

(** Numbers of any length fold to the same mark. *)
Lemma normalized_number ds s b : Forall (fun c => is_ascii_digit c = true) ds ->
  normalized b true (ds ++ s) = normalized (if bool_decide (ds = []) then b else false) true s.
Proof.
  intros Hd. revert b. induction Hd as [| c ds Hc Hd IH]; intros b; [done |]. simpl. rewrite Hc, IH.
  by case_bool_decide.
Qed.
Lemma normalized_folds pre ds ds' s b n : ds <> [] -> ds' <> [] ->
  Forall (fun c => is_ascii_digit c = true) ds -> Forall (fun c => is_ascii_digit c = true) ds' ->
  normalized b n (pre ++ ds ++ s) = normalized b n (pre ++ ds' ++ s).
Proof.
  intros Hn Hn' Hd Hd'. revert b n. induction pre as [| c pre IH]; intros b n; simpl.
  - destruct Hd as [| c ds Hc Hd]; [done |]. destruct Hd' as [| c' ds' Hc' Hd']; [done |].
    simpl. rewrite Hc, Hc', !normalized_number by done. by repeat case_bool_decide; destruct n.
  - repeat case_match; by rewrite ?IH.
Qed.

(** ** The claims *)

Section claims.
Context `{!Crypto, !TelemetryStateCodec, !TelemetryCodec, !EntryCodec, !Patterns}.

(** C17: an opt-out in the environment is obeyed.  With [DO_NOT_TRACK] set, or
    [GOBLE_TELEMETRY] off, whatever the disk holds, whichever call fails and wherever the
    process dies, and whatever is called afterwards, the settings page's switch included: no
    request is made and no thread could make one (the run is the same whatever the collector
    would answer), and no file of the queue is written, changed or removed. *)
Theorem opting_out_sends_nothing up up' env machine m c l d
    (Hout : from_option is_truthy false (env ENV_DO_NOT_TRACK) = true \/
            env ENV_ENABLED ≫= parse_bool = Some false) :
  let '(d', r) := session up env machine m c l d in
  session up' env machine m c l d = (d', r) /\
  (forall p, waiting (root c) p -> nodes d' !! p = nodes d !! p) /\
  match r with
  | Done t => upload (consent t) = false /\ worker t = None /\ asked t = []
  | _ => True
  end.
Proof.
  rewrite (quiet_session_alike up' up) by done.
  destruct (quiet_session up env machine m c l Hout) as [Hw Hr].
  specialize (Hw d). specialize (Hr d). destruct (session up env machine m c l d) as [d' r]. simpl in Hw.
  split; [done |]. split.
  - intros p Hp. apply Hw. by intros Ho.
  - destruct r as [t | |]; [| done | done]. by destruct (Hr _ _ eq_refl) as [[? ?] ?].
Qed.

(** C19: a configured secret the redactor kept, with no space, bracket or tilde in it and no
    part of a replacement word, is in no text of a report, wherever it stood and whatever
    the other secrets, the home directory and the patterns replace around it. *)
Theorem configured_secrets_are_withheld red secret r (LAWS : PatternLaws)
    (Hsecret : secret ∈ secrets red) (Hplain : plain secret) :
  Forall (absent secret) (free_texts (redacted red r)).
Proof.
  apply Forall_forall. intros s (text & ->)%free_texts_redacted. by apply absent_scrub.
Qed.
End claims.

(** ** Witnesses *)

Module Demo.

#[export] Instance crypto : Crypto :=
  {| hex_decode _ := None; ed25519_verify _ _ _ := false; sha256_hex _ := [] |}.
#[export] Instance patterns : Patterns :=
  {| credential_header _ := []; assignment _ := []; prefixed _ := []; opaque _ := []; email _ := [] |}.
(** The state's text is the choice and the install id; the rest is not kept. *)
#[export] Instance state_codec : TelemetryStateCodec :=
  {| telemetry_state_of_json text :=
       match text with
       | c :: install =>
           let choice := if (c =? 121)%N then Some true else if (c =? 110)%N then Some false else None in
           Ok (mkTelemetryState choice install None ∅ false)
       | [] => Err []
       end;
     telemetry_state_to_json s :=
       Ok (match stored_upload s with Some true => lit "y" | Some false => lit "n" | None => lit "?" end
           ++ install_id s) |}.
#[export] Instance codec : TelemetryCodec :=
  {| report_to_json r := Ok (message r); item_to_json _ := Ok []; batch_to_json _ := Ok [] |}.
Definition event_item : QueuedItem := Event_ (mkEventEnvelope 2 (lit "e") 0 unattributed (AppStarted None)).
#[export] Instance entry_codec : EntryCodec :=
  {| entry_of_json text := Ok (mkQueueEntry text 0 0 event_item); entry_to_json e := Ok (q_id e) |}.

Definition home : Path := [lit "h"].
Definition config (secrets : list Str) (channel : Channel) : TelemetryConfig :=
  mkTelemetryConfig (lit "1.0") channel DEFAULT_ENDPOINT (mkConsent false Default_) home 3 10 5 0 secrets None
    None None None Desktop None (fun _ => None) None.
Definition no_environment : Environment := fun _ => None.
Definition do_not_track : Environment := fun name =>
  if bool_decide (name = ENV_DO_NOT_TRACK) then Some (lit "1") else None.
Definition machine : Machine := mkMachine (lit "linux") (lit "x86_64") None no_environment.
Definition moment : Moment :=
  mkMoment (fun n => match n with 0 => lit "u0" | 1 => lit "u1" | _ => lit "u2" end) (fun _ => 0%Z) 0 true.
Definition collector : Uploader := fun _ _ => Ok tt.
Definition empty_disk : Disk := mkDisk ∅ (fun _ => Works) 0.
(** The state file holds an opt-out; with [hiccup], its first read fails. *)
Definition opted_out_nodes : Nodes :=
  list_to_map [(home, NDir); (telemetry_state_path home, NFile (lit "nid") false)].
Definition opted_out_disk (hiccup : bool) : Disk :=
  mkDisk opted_out_nodes (fun n => if hiccup && bool_decide (n = 0) then Fails (lit "interrupted") None else Works) 0.

Definition used : Call := Record_ (AppStarted None) moment.
Definition asked_of (r : Run IoError Telemetry) : option (bool * list nat) :=
  match r with Done t => Some (upload (consent t), (fun q => length (carried q)) <$> asked t) | _ => None end.
Definition queued (d : Disk) : nat :=
  length (filter (fun p => under (queue_dir home) p /\ p <> queue_dir home) (map_to_list (nodes d)).*1).

(** Turning uploading off sends what waits: the thread is stopped with a last drain. *)
Definition withdrawal : list Call := [used; SetUploadConsent false moment].
Example withdrawing_consent_uploads_the_queue :
  asked_of (session collector no_environment machine moment (config [] Stable) withdrawal empty_disk).2
  = Some (false, [1]).
Proof. vm_compute. reflexivity. Qed.

(** A stored opt-out is obeyed when it can be read; one failed read of the state file and a
    released build reports, and the choice on disk is replaced. *)
Definition wakes : list Call := [used; Woken Flush 0].
Example unreadable_state_forgets_the_opt_out :
  asked_of (session collector no_environment machine moment (config [] Stable) wakes (opted_out_disk false)).2
    = Some (false, []) /\
  asked_of (session collector no_environment machine moment (config [] Stable) wakes (opted_out_disk true)).2
    = Some (true, [1]).
Proof. split; vm_compute; reflexivity. Qed.

(** A line is cut before it is scrubbed: a secret across the cut leaves its front. *)
Definition long_line : Str := repeat 97%N 505 ++ lit "hunter22".
Definition tail_line : Str :=
  match Crumbs.entries (Crumbs.record Crumbs.Info [] long_line 0 (Crumbs.breadcrumbs_new 1)) with
  | [e] => drop 505 (Crumbs.message e)
  | _ => []
  end.
Definition redactor (l : list Str) : Redactor := mkRedactor None l.
Example a_cut_secret_leaves_its_front :
  scrub (redactor [lit "hunter22"]) tail_line = lit "hunter2" ++ [Crumbs.ELLIPSIS].
Proof. vm_compute. reflexivity. Qed.

(** A secret that contains one configured before it leaves the rest of itself. *)
Example a_longer_secret_leaves_its_rest :
  scrub (redactor [lit "hunter2"; lit "hunter2-and-more"]) (lit "key hunter2-and-more")
  = lit "key [redacted]-and-more".
Proof. vm_compute. reflexivity. Qed.

Definition report : CrashReport :=
  mkCrashReport 2 (lit "i") [] 0 Panic (lit "token hunter22 refused") None (Some (lit "main")) None None unattributed [].

End Demo.

Section witness.
Import Demo.

Lemma opting_out_sends_nothing_witness :
  queued (session collector no_environment machine moment (config [] Stable) [used] empty_disk).1 = 1 /\
  queued (session collector do_not_track machine moment (config [] Stable) [used] empty_disk).1 = 0 /\
  forall p, waiting home p ->
    nodes (session collector do_not_track machine moment (config [] Stable)
             [used; SetUploadConsent true moment; Woken Flush 0] empty_disk).1 !! p = None.
Proof.
  split; [vm_compute; reflexivity |]. split; [vm_compute; reflexivity |].
  assert (from_option is_truthy false (do_not_track ENV_DO_NOT_TRACK) = true) as Hout by reflexivity.
  pose proof (opting_out_sends_nothing collector collector do_not_track machine moment (config [] Stable)
    [used; SetUploadConsent true moment; Woken Flush 0] empty_disk (or_introl Hout)) as Hs.
  destruct (session _ _ _ _ _ _ _) as [d' r]. intros p Hp. exact (proj1 (proj2 Hs) p Hp).
Defined.

Lemma configured_secrets_are_withheld_witness :
  message (redacted (redactor [lit "hunter22"]) report) = lit "token [redacted] refused" /\
  Forall (absent (lit "hunter22")) (free_texts (redacted (redactor [lit "hunter22"]) report)).
Proof.
  split; [vm_compute; reflexivity |].
  apply configured_secrets_are_withheld; [by split | left |].
  split; [done | apply (bool_decide_unpack _); reflexivity | |].
  all: by apply find_str_absent.
Defined.
End witness.
