(* ===== verification/Collector.v ===== *)
(** * Collector: the other end of telemetry

    [goble-telemetry-server/src/lib.rs]: the store of reports and events, and what the
    ingest endpoints do with a request.  Requests are handled one at a time; the JSON of
    bodies and rows, the calendar and the object store are classes. *)

From S2P Require Import Prelude Bytes Text Sys Fields UpdateManifest UpdateClient Telemetry TelemetryQueue.
Import Features Config Report.

(** [OpenOptions::create_new]: whether the file was made; [false] when there was something. *)
Definition create_new (p : Path) : M IoError bool :=
  atomic (fun m =>
    if exists_at m p then (m, Ok false)
    else match placeable m p with Ok _ => (truncated m p, Ok true) | Err e => (m, Err e) end).

(** A stored event: the client's envelope and the collector's receipt. *)
Record StoredEvent : Type := mkStoredEvent { received_at : Z; envelope : EventEnvelope }.
Definition stored_occurred_at (e : StoredEvent) : Z := occurred_at (envelope e).

(** [serde_json] on bodies and rows; a value is JSON whose shape is not known yet. *)
Inductive IncomingItem (V : Type) : Type := InCrash (r : CrashReport) | InEvent (v : V).
Arguments InCrash {V} r.
Arguments InEvent {V} v.
Class CollectorCodec : Type := {
  Value : Type;
  item_of_body : Bytes -> result Str (IncomingItem Value);
  batch_of_body : Bytes -> result Str (list (IncomingItem Value));
  schema_of : Value -> option N;
  legacy_of_value : Value -> result Str LegacyEventV1;
  envelope_of_value : Value -> result Str EventEnvelope;
  stored_to_json : StoredEvent -> result Str Bytes;
  stored_of_json : Str -> result Str StoredEvent;
  stored_report_to_json : CrashReport -> result Str Str;
  stored_report_of_json : Str -> result Str CrashReport;
}.

(** [chrono]: the day of an instant as it is printed. *)
Class Calendar : Type := { show_day : Z -> Str }.

Inductive StoreError : Type := StoreIo (path : Path) (e : IoError) | Encode (reason : Str).
Definition at_store {A} (p : Path) (m : M IoError A) : M StoreError A := map_err (StoreIo p) m.
Inductive Stored : Type := New | Duplicate.

Definition MAX_BATCH : nat := 200.

(** [sanitise]: keep an identifier out of the path namespace it does not own. *)
Definition sanitise (value : Str) : Str :=
  let cleaned := take 64 (filter (fun c => is_ascii_alphanumeric c || (c =? MINUS)%N = true) value) in
  if bool_decide (cleaned = []) then lit "unknown" else cleaned.

(** ** The store *)

Definition crashes_dir (root : Path) : Path := root ++ [lit "crashes"].
Definition events_dir (root : Path) : Path := root ++ [lit "events"].
Definition event_day_dir (root : Path) (day : Str) : Path := events_dir root ++ [lit "dt=" ++ day].
Definition seen_dir (root : Path) : Path := events_dir root ++ [lit "seen"].

(** The orders [events_on] and [summaries] sort by. *)
Definition by_id (a b : StoredEvent) : Prop := str_le (event_id (envelope a)) (event_id (envelope b)).
#[export] Instance by_id_dec : RelDecision by_id := fun a b => str_le_dec _ _.

Record FingerprintSummary : Type := mkFingerprintSummary {
  s_fingerprint : Str;
  reports : nat;
  last_seen : Z;
  s_app_version : Str;
  s_message : Str;
}.
Definition newest_first (a b : FingerprintSummary) : Prop := (last_seen b <= last_seen a)%Z.
#[export] Instance newest_first_dec : RelDecision newest_first := fun a b => Z.le_dec _ _.

Section store.
Context `{!CollectorCodec, !Calendar}.

Definition put_crash (root : Path) (r : CrashReport) : M StoreError Path :=
  let dir := crashes_dir root ++ [sanitise (fingerprint_ r)] in
  at_store dir (create_dir_all dir) ≫= fun _ =>
  let p := dir ++ [sanitise (id r) ++ lit ".json"] in
  match stored_report_to_json r with
  | Err reason => fail (Encode reason)
  | Ok text => at_store p (write p (as_bytes text)) ≫= fun _ => mret p
  end.

Definition put_event (root : Path) (e : StoredEvent) : M StoreError Stored :=
  let seen := seen_dir root in
  at_store seen (create_dir_all seen) ≫= fun _ =>
  let id := sanitise (event_id (envelope e)) in
  let marker := seen ++ [id] in
  at_store marker (create_new marker) ≫= fun (made : bool) =>
  if negb made then mret Duplicate
  else
    let dir := event_day_dir root (show_day (stored_occurred_at e)) in
    let p := dir ++ [id ++ lit ".json"] in
    match stored_to_json e with
    | Err reason => fail (Encode reason)
    | Ok body =>
        attempt (create_dir_all dir ≫= fun _ => write p body) ≫= fun written =>
        match written with
        | Err err => ignore (remove_file marker) ≫= fun _ => fail (StoreIo p err)
        | Ok _ => mret New
        end
    end.

(** Every readable row of the directory's [.json] files, in no order. *)
Fixpoint read_rows {E A : Type} (decode : Str -> result Str A) (paths : list Path) : M E (list A) :=
  match paths with
  | [] => mret []
  | p :: paths' =>
      attempt (read_to_string p) ≫= fun text =>
      read_rows decode paths' ≫= fun rest =>
      mret (match text with Ok t => match decode t with Ok a => a :: rest | Err _ => rest end | Err _ => rest end)
  end.
(** [read_dir] as the callers use it: nothing when it fails. *)
Definition names_in {E : Type} (dir : Path) : M E (list Str) :=
  r ← attempt (read_dir dir); mret (match r with Ok names => names | Err _ => [] end).

Definition events_on {E : Type} (root : Path) (day : Str) : M E (list StoredEvent) :=
  let dir := event_day_dir root day in
  names_in dir ≫= fun names =>
  read_rows stored_of_json ((fun n => dir ++ [n]) <$> json_names names) ≫= fun l =>
  mret (sort_by by_id l).

(** The first of the newest reports. *)
Definition newer (newest : option CrashReport) (r : CrashReport) : option CrashReport :=
  match newest with
  | Some n => if (captured_at n <? captured_at r)%Z then Some r else newest
  | None => Some r
  end.
Definition summarise {E : Type} (dir : Path) : M E (option FingerprintSummary) :=
  names_in dir ≫= fun names =>
  read_rows stored_report_of_json ((fun n => dir ++ [n]) <$> json_names names)
    ≫= fun l =>
  mret ((fun r => mkFingerprintSummary (fingerprint_ r) (length l) (captured_at r)
                    (c_app_version (context r)) (message r)) <$> foldl newer None l).

Fixpoint summarise_each {E : Type} (dirs : list Path) : M E (list FingerprintSummary) :=
  match dirs with
  | [] => mret []
  | dir :: dirs' =>
      is_dir dir ≫= fun (there : bool) =>
      (if there then summarise dir else mret None) ≫= fun s =>
      summarise_each dirs' ≫= fun rest =>
      mret (match s with Some s => s :: rest | None => rest end)
  end.
Definition summaries {E : Type} (root : Path) : M E (list FingerprintSummary) :=
  names_in (crashes_dir root) ≫= fun names =>
  summarise_each ((fun n => crashes_dir root ++ [n]) <$> names) ≫= fun l =>
  mret (sort_by newest_first l).

(** ** Requests *)

(** A token that is blank is none. *)
Record ServerState : Type := mkServerState {
  store : Path;
  token : option Str;
  sink_event : option (StoredEvent -> result Str ());
  sink_crash : option (CrashReport -> result Str ());
}.
Definition server_new (store : Path) (token : option Str) sink_event sink_crash : ServerState :=
  mkServerState store (t ← token; if bool_decide (trim t = []) then None else Some t) sink_event sink_crash.

(** The two headers that may carry a token. *)
Record Headers : Type := mkHeaders { x_goble_token : option Str; authorization : option Str }.
Definition same_bytes (expected presented : Bytes) : bool :=
  (length expected =? length presented)
  && (foldl (fun acc '(l, r) => N.lor acc (N.lxor l r)) 0%N (zip expected presented) =? 0)%N.
Definition authorised (s : ServerState) (h : Headers) : bool :=
  match token s with
  | None => true
  | Some expected =>
      let presented :=
        match x_goble_token h with
        | Some t => Some t
        | None => a ← authorization h; strip_prefix (lit "Bearer ") a
        end in
      match presented with
      | Some p => same_bytes (as_bytes expected) (as_bytes p)
      | None => false
      end
  end.

Inductive Answer : Type :=
| Accepted (n : nat)
| RejectedWith (status : N) (message : Str)
| SinkFailed (label : Str).
Definition answer_status (a : Answer) : N :=
  match a with Accepted _ => 202 | RejectedWith status _ => status | SinkFailed _ => 503 end.
Definition UNAUTHORISED : Answer := RejectedWith 401 (lit "a collector token is required").

(** [normalise_event]; [fresh] is minted for a schema-1 event. *)
Definition normalise_event (v : Value) (now : Z) (fresh : Str) : result Str (option EventEnvelope) :=
  let legacy := result_map (fun e => into_envelope e now fresh)
    (result_map_err (fun e => lit "malformed schema-1 event: " ++ e) (legacy_of_value v)) in
  match schema_of v with
  | Some schema =>
      if (schema =? LEGACY_SCHEMA)%N then legacy
      else if (schema =? SCHEMA)%N then
        result_map Some (result_map_err (fun e => lit "malformed schema-2 event: " ++ e) (envelope_of_value v))
      else Err (lit "unsupported schema " ++ show_N schema ++ lit ": this collector speaks " ++ show_N SCHEMA
                ++ lit " and accepts " ++ show_N LEGACY_SCHEMA)
  | None => legacy
  end.

Definition ingest_crash {E : Type} (s : ServerState) (h : Headers) (body : Bytes) : M E Answer :=
  if negb (authorised s h) then mret UNAUTHORISED
  else
    match item_of_body body with
    | Err e => mret (RejectedWith 400 (lit "malformed report: " ++ e))
    | Ok (InEvent _) => mret (RejectedWith 400 (lit "this endpoint takes crash reports"))
    | Ok (InCrash r) =>
        if negb ((LEGACY_SCHEMA <=? schema r) && (schema r <=? SCHEMA))%N then
          mret (RejectedWith 400 (lit "unsupported schema " ++ show_N (schema r) ++ lit ": this collector speaks "
                                  ++ show_N SCHEMA))
        else
          attempt (put_crash (store s) r) ≫= fun stored =>
          mret
            match stored with
            | Err _ => RejectedWith 500 (lit "could not store the report")
            | Ok _ =>
                match sink_crash s with
                | Some put => match put r with Ok _ => Accepted 1 | Err label => SinkFailed label end
                | None => Accepted 1
                end
            end
    end.

Definition parse_event_batch (body : Bytes) : result Str (list (IncomingItem Value)) :=
  if bool_decide (find (fun b => negb (is_ascii_whitespace b)) body = Some 91%N) then
    result_map_err (fun e => lit "malformed event batch: " ++ e) (batch_of_body body)
  else
    result_map (fun i => [i]) (result_map_err (fun e => lit "malformed event: " ++ e) (item_of_body body)).

(** The loop of [ingest_event]; the [n]th item may mint the identifier [fresh n]. *)
Fixpoint ingest_items {E : Type} (s : ServerState) (now : Z) (fresh : nat -> Str)
    (items : list (IncomingItem Value)) (n accepted : nat) : M E Answer :=
  match items with
  | [] => mret (Accepted accepted)
  | InCrash _ :: _ => mret (RejectedWith 400 (lit "this endpoint takes events"))
  | InEvent v :: items' =>
      match normalise_event v now (fresh n) with
      | Err e => mret (RejectedWith 400 e)
      | Ok None => ingest_items s now fresh items' (S n) accepted
      | Ok (Some env) =>
          let event := mkStoredEvent now env in
          attempt (put_event (store s) event) ≫= fun stored =>
          match stored with
          | Err _ => mret (RejectedWith 500 (lit "could not store the event"))
          | Ok _ =>
              match sink_event s with
              | Some put =>
                  match put event with
                  | Err label => mret (SinkFailed label)
                  | Ok _ => ingest_items s now fresh items' (S n) (S accepted)
                  end
              | None => ingest_items s now fresh items' (S n) (S accepted)
              end
          end
      end
  end.
Definition ingest_event {E : Type} (s : ServerState) (h : Headers) (body : Bytes) (now : Z) (fresh : nat -> Str) :
  M E Answer :=
  if negb (authorised s h) then mret UNAUTHORISED
  else
    match parse_event_batch body with
    | Err e => mret (RejectedWith 400 e)
    | Ok items =>
        if (MAX_BATCH <? length items) then
          mret (RejectedWith 413 (lit "a batch carries at most " ++ show_N (N.of_nat MAX_BATCH) ++ lit " events"))
        else ingest_items s now fresh items 0 0
    end.
End store.
