(* ===== verification/CollectorProps.v ===== *)
(** * CollectorProps: what the collector acknowledged is stored

    Over every fault of the disk and every moment of death. *)

From S2P Require Import Prelude Bytes Text Sys Fields UpdateManifest Telemetry TelemetryQueue Collector.
Import Features Config Report.

Section store.
Context `{!CollectorCodec, !Calendar} (root : Path).

Definition marker (id : Str) : Path := seen_dir root ++ [id].
Definition ident (e : StoredEvent) : Str := sanitise (event_id (envelope e)).
Definition row_of (e : StoredEvent) : Path :=
  event_day_dir root (show_day (stored_occurred_at e)) ++ [ident e ++ lit ".json"].

(** A whole row of the identifier is on disk. *)
Definition kept (n : Nodes) (id : Str) : Prop :=
  exists e body mode, ident e = id /\ stored_to_json e = Ok body /\ n !! row_of e = Some (NFile body mode).
Definition seen (n : Nodes) (id : Str) : Prop := is_Some (n !! marker id).
(** Every identifier that was seen has its row; but for [id]. *)
Definition marked : Assert := fun n => forall id, seen n id -> kept n id.
Definition marked_but (id : Str) : Assert := fun n => forall id', id' <> id -> seen n id' -> kept n id'.
Definition all_seen (ids : list Str) : Assert := fun n => Forall (seen n) ids.

Lemma marked_weaken id n : marked n -> marked_but id n.
Proof. intros Hm id' _. apply Hm. Qed.

(** Markers and rows are below every directory of the store. *)
Definition shallow (p : Path) : Prop := length p <= length root + 2.
Lemma marker_deep id : ~ shallow (marker id).
Proof. unfold shallow, marker, seen_dir, events_dir. rewrite !length_app. simpl. lia. Qed.
Lemma row_deep e : ~ shallow (row_of e).
Proof. unfold shallow, row_of, event_day_dir, events_dir. rewrite !length_app. simpl. lia. Qed.

Lemma marker_inj id id' : marker id = marker id' -> id = id'.
Proof. by intros [_ [=]]%app_inj_2. Qed.
Lemma row_ident e e' : row_of e = row_of e' -> ident e = ident e'.
Proof. intros [_ [= He]]%app_inj_2; [| done]. by apply app_inv_tail in He. Qed.
Lemma marker_is_no_row id e : marker id <> row_of e.
Proof.
  intros He. assert (length (seen_dir root) = length (event_day_dir root (show_day (stored_occurred_at e)))) as Hl.
  { unfold seen_dir, event_day_dir. by rewrite !length_app. }
  apply app_inj_1 in He as [He _]; [| done]. unfold seen_dir, event_day_dir in He.
  by apply app_inj_2 in He as [_ [=]].
Qed.

Lemma apart_shallow (P : Assert) : (forall n n', (forall id, n' !! marker id = n !! marker id) ->
    (forall e, n' !! row_of e = n !! row_of e) -> P n -> P n') -> apart shallow P.
Proof.
  intros HP n n' Hn. apply HP; intros; apply Hn; [apply marker_deep | apply row_deep].
Qed.

(** Nothing that says what was seen and kept changes when markers and rows do not. *)
Lemma seen_same n n' id : n' !! marker id = n !! marker id -> seen n' id <-> seen n id.
Proof. unfold seen. by intros ->. Qed.
Lemma kept_same n n' id : (forall e, ident e = id -> n' !! row_of e = n !! row_of e) -> kept n id -> kept n' id.
Proof. intros Hn (e & body & mode & Hi & Hb & Hr). exists e, body, mode. by rewrite Hn. Qed.

Lemma spec_shallow (P : Assert) p : shallow p ->
  (forall n n', (forall id, n' !! marker id = n !! marker id) ->
    (forall e, n' !! row_of e = n !! row_of e) -> P n -> P n') ->
  spec P (create_dir_all p) (fun _ => P) (fun _ => P) P.
Proof.
  intros Hp HP. apply (spec_apart shallow); [| by apply apart_shallow].
  eapply within_weaken; [apply within_create_dir_all |]. intros q Hq. apply prefix_length in Hq.
  unfold shallow in *. lia.
Qed.

(** The state around one event: other identifiers in order, and [ids] seen. *)
Definition around (id : Str) (ids : list Str) : Assert := fun n => marked_but id n /\ all_seen ids n.

Lemma around_same id ids n n' : (forall id', n' !! marker id' = n !! marker id') ->
  (forall e, n' !! row_of e = n !! row_of e) -> around id ids n -> around id ids n'.
Proof.
  intros Hm Hr [H1 H2]. split.
  - intros id' Hne Hs. apply (kept_same n); [by intros |]. apply H1; [done |]. by apply (seen_same n n').
  - eapply Forall_impl; [exact H2 |]. intros id' Hs. by apply (seen_same n n').
Qed.
Lemma marked_same n n' : (forall id', n' !! marker id' = n !! marker id') ->
  (forall e, n' !! row_of e = n !! row_of e) -> marked n -> marked n'.
Proof.
  intros Hm Hr H1 id Hs. apply (kept_same n); [by intros |]. apply H1. by apply (seen_same n n').
Qed.

(** What happens to the row of an event is its identifier's affair alone. *)
Lemma around_row e ids : apart (eq (row_of e)) (around (ident e) ids).
Proof.
  intros n n' Hn [H1 H2].
  assert (forall id, n' !! marker id = n !! marker id) as Hm.
  { intros id. apply Hn. intros He. by apply (marker_is_no_row id e). }
  split.
  - intros id' Hne Hs. apply (kept_same n).
    + intros e' He'. apply Hn. intros Hr. apply Hne. by rewrite (row_ident _ _ Hr).
    + apply H1; [done |]. by apply (seen_same n n').
  - eapply Forall_impl; [exact H2 |]. intros id' Hs. by apply (seen_same n n').
Qed.

Lemma but_marker id : apart (eq (marker id)) (marked_but id).
Proof.
  intros n n' Hn H1 id' Hne Hs. apply (kept_same n).
  - intros e _. apply Hn. intros He. by apply (marker_is_no_row id e).
  - apply H1; [done |]. apply (seen_same n n'); [| done]. apply Hn. intros He. by apply marker_inj in He.
Qed.

Lemma spec_create_new id ids :
  spec (fun n => marked n /\ all_seen ids n) (create_new (marker id))
    (fun made n => if made : bool then around id (id :: ids) n else (marked n /\ all_seen ids n) /\ seen n id)
    (fun _ => marked) (marked_but id).
Proof.
  assert (forall n, marked n /\ all_seen ids n -> around id (id :: ids) (truncated n (marker id))) as Htr.
  { intros n [H1 H2].
    assert (seen (truncated n (marker id)) id) as Hs.
    { unfold seen, truncated. repeat case_match; by rewrite lookup_insert_eq. }
    split.
    - apply (but_marker id n); [| by apply marked_weaken]. intros q Hq. apply lookup_truncated. congruence.
    - constructor; [done |]. eapply Forall_impl; [exact H2 |]. intros id' Hs'.
      destruct (decide (id' = id)) as [-> | Hne]; [done |]. unfold seen.
      rewrite lookup_truncated; [done |]. by intros ?%marker_inj. }
  assert (marker id <> []) as Hne by (unfold marker; by destruct (seen_dir root)).
  apply spec_atomic.
  - intros n Hn. destruct (exists_at n (marker id)) eqn:He.
    + split; [done |]. unfold exists_at in He. rewrite bool_decide_false in He by done.
      by apply bool_decide_eq_true in He.
    + destruct (placeable n (marker id)); [by apply Htr | by destruct Hn].
  - by intros n _ [? _].
  - intros n Hn. destruct (exists_at n (marker id)); [apply marked_weaken, Hn |].
    destruct (placeable n (marker id)); [by apply Htr | apply marked_weaken, Hn].
  - intros n [? _]. by apply marked_weaken.
Qed.

Lemma spec_at_store {A} p P (m : M IoError A) Q (X : Assert) C :
  spec P m Q (fun _ => X) C -> spec P (at_store p m) Q (fun _ => X) C.
Proof. intros Hm. by apply spec_map_err. Qed.

(** [put_event]: whether it was new or not, its row is there afterwards; when it fails or the
    process dies, no other identifier is touched. *)
Lemma spec_put_event e ids :
  spec (fun n => marked n /\ all_seen ids n) (put_event root e)
    (fun _ n => marked n /\ all_seen (ident e :: ids) n)
    (fun _ => marked_but (ident e)) (marked_but (ident e)).
Proof.
  unfold put_event. apply (spec_seq _ _ _ (fun _ n => marked n /\ all_seen ids n) _ _
    (fun _ n => marked n /\ all_seen ids n) _ (fun n => marked n /\ all_seen ids n)).
  - apply spec_at_store, spec_shallow.
    + unfold shallow, seen_dir, events_dir. rewrite !length_app. simpl. lia.
    + intros n n' Hm Hr [H1 H2]. split; [by apply (marked_same n) |].
      eapply Forall_impl; [exact H2 |]. intros id' Hs. by apply (seen_same n n').
  - intros ? n [? _]. by apply marked_weaken.
  - intros n [? _]. by apply marked_weaken.
  - intros []. eapply spec_seq.
    + apply spec_at_store, (spec_create_new (ident e) ids).
    + intros ? n. apply marked_weaken.
    + done.
    + intros [].
      2: { intros d [[? ?] ?]. split; [done |]. by constructor. }
      cbn [negb]. destruct (stored_to_json e) as [body | reason] eqn:Hb.
      2: { intros d [? _]. done. }
      eapply spec_seq.
      * apply (spec_attempt _ _ (fun r n => match r with
          | Ok _ => file (row_of e) body n /\ around (ident e) (ident e :: ids) n
          | Err _ => around (ident e) (ident e :: ids) n end)
          (fun _ => marked_but (ident e))).
        apply (spec_bind _ _ _ (fun _ => around (ident e) (ident e :: ids))).
        -- apply spec_shallow; [| apply around_same].
           unfold shallow, event_day_dir, events_dir. rewrite !length_app. simpl. lia.
        -- intros []. eapply spec_pre; [apply (spec_scratch (eq (row_of e)) (around (ident e) (ident e :: ids)) anything) |].
           ++ apply within_write.
           ++ apply around_row.
           ++ apply spec_write.
           ++ by intros n Hn.
      * done.
      * by intros n [? _].
      * intros [[] | err].
        -- intros d [[mode Hf] [H1 H2]]. split; [| done]. intros id Hs.
           destruct (decide (id = ident e)) as [-> | Hne]; [| by apply H1].
           by exists e, body, mode.
        -- eapply spec_pre; [| by intros n [? _]].
           apply (spec_ignore_fail (eq (marker (ident e))) (marked_but (ident e))).
           ++ apply within_remove_file.
           ++ apply but_marker.
Qed.

(** What a batch asks to store: the events that normalise, in order. *)
Fixpoint wanted (now : Z) (fresh : nat -> Str) (items : list (IncomingItem Value)) (n : nat) : list EventEnvelope :=
  match items with
  | InEvent v :: items' =>
      match normalise_event v now (fresh n) with
      | Ok (Some env) => env :: wanted now fresh items' (S n)
      | Ok None => wanted now fresh items' (S n)
      | Err _ => []
      end
  | _ => []
  end.

(** Every identifier that was seen has its row, but for one at most. *)
Definition marked_but_one : Assert := fun n => exists id, marked_but id n.
Definition answered (now : Z) (fresh : nat -> Str) (items : list (IncomingItem Value)) (k accepted : nat)
    (ids : list Str) : Post Answer := fun a n =>
  match a with
  | Accepted m =>
      marked n /\ all_seen (ids ++ ((fun env => sanitise (event_id env)) <$> wanted now fresh items k)) n /\
      m = accepted + length (wanted now fresh items k)
  | RejectedWith 500 _ => marked_but_one n
  | _ => marked n
  end.

Lemma spec_ingest_items {E : Type} s now fresh items k accepted ids : store s = root ->
  spec (fun n => marked n /\ all_seen ids n) (ingest_items (E := E) s now fresh items k accepted)
    (answered now fresh items k accepted ids) (fun _ _ => False) marked_but_one.
Proof.
  intros Hs. revert k accepted ids. induction items as [| [r | v] items IH]; intros k accepted ids.
  - intros d [Hm Ha]. simpl. by rewrite app_nil_r, Nat.add_0_r.
  - by intros d [Hm Ha].
  - cbn [ingest_items]. 
    assert (wanted now fresh (InEvent v :: items) k =
      match normalise_event v now (fresh k) with
      | Ok (Some env) => env :: wanted now fresh items (S k)
      | Ok None => wanted now fresh items (S k)
      | Err _ => []
      end) as Hw by done.
    destruct (normalise_event v now (fresh k)) as [[env |] | reason]; [| | by intros d [Hm Ha]].
    2: { eapply spec_weaken; [apply (IH (S k) accepted ids) | done | | done | done].
         intros a n. unfold answered. by rewrite Hw. }
    rewrite Hs. set (event := mkStoredEvent now env).
    apply (spec_bind _ _ _ (fun r n => match r with
      | Ok _ => marked n /\ all_seen (ident event :: ids) n
      | Err _ => marked_but_one n end)).
    + apply spec_attempt. eapply spec_weaken; [apply (spec_put_event event ids) | done | done | |].
      * intros err n Hn. by exists (ident event).
      * intros n Hn. by exists (ident event).
    + intros [stored | err]; [| by intros d Hd].
      assert (spec (fun n => marked n /\ all_seen (ident event :: ids) n)
        (ingest_items (E := E) s now fresh items (S k) (S accepted))
        (answered now fresh (InEvent v :: items) k accepted ids) (fun _ _ => False) marked_but_one) as Hgo.
      { eapply spec_weaken; [apply (IH (S k) (S accepted) (ident event :: ids)) | done | | done | done].
        intros [m | status msg | label] n; [| done | done]. unfold answered. rewrite Hw.
        intros (Hm & Ha & ->). split; [done |]. split; [| simpl; lia].
        unfold all_seen in *. rewrite fmap_cons. by rewrite <- Permutation_middle. }
      destruct (sink_event s) as [put |]; [| exact Hgo].
      destruct (put event) as [[] | label]; [exact Hgo |]. by intros d [? _].
Qed.

(** A retry leaves every marker and every row alone. *)
Definition same_rows (before n : Nodes) : Prop :=
  (forall id, n !! marker id = before !! marker id) /\ (forall e, n !! row_of e = before !! row_of e).

Lemma spec_put_seen e before :
  spec (fun n => same_rows before n /\ seen n (ident e)) (put_event root e)
    (fun r n => r = Duplicate /\ same_rows before n) (fun _ => same_rows before) (same_rows before).
Proof.
  unfold put_event.
  apply (spec_seq _ _ _ (fun _ n => same_rows before n /\ seen n (ident e)) _ _
    (fun _ n => same_rows before n /\ seen n (ident e)) _ (fun n => same_rows before n /\ seen n (ident e))).
  - apply spec_at_store, spec_shallow.
    + unfold shallow, seen_dir, events_dir. rewrite !length_app. simpl. lia.
    + intros n n' Hm Hr [[H1 H2] H3]. split; [split |].
      * intros id. by rewrite Hm.
      * intros e'. by rewrite Hr.
      * by apply (seen_same n n').
  - by intros ? n [? _].
  - by intros n [? _].
  - intros []. apply (spec_bind _ _ _ (fun made n => made = false /\ same_rows before n)).
    + apply spec_at_store, spec_atomic; [| by intros n ? [? _] | | by intros n [? _]].
      all: intros n [Hs Hi].
      all: replace (exists_at n (seen_dir root ++ [sanitise (event_id (envelope e))])) with true;
        [done |]; symmetry; apply orb_true_iff; right; by apply bool_decide_eq_true.
    + intros made d [-> Hs]. done.
Qed.
End store.

(** ** The claim *)

Section claim.
Context `{!CollectorCodec, !Calendar}.

End claim.

(** ** Witness and examples *)

Module Demo.

(** A body is a list of one-character identifiers; [!] is an event the collector cannot
    read.  A row is its identifier. *)
Definition envelope_of (id : Str) : EventEnvelope := mkEventEnvelope 2 id 0 unattributed (AppStarted None).
#[export] Instance codec : CollectorCodec :=
  {| Value := Str;
     item_of_body b := Ok (InEvent b);
     batch_of_body b := Ok ((fun c => InEvent [c]) <$> drop 1 b);
     schema_of _ := Some 2%N;
     legacy_of_value _ := Err [];
     envelope_of_value v := if bool_decide (v = lit "!") then Err [] else Ok (envelope_of v);
     stored_to_json e := Ok (event_id (envelope e));
     stored_of_json t := Ok (mkStoredEvent 0 (envelope_of t));
     stored_report_to_json r := Ok (message r);
     stored_report_of_json _ := Err [] |}.
#[export] Instance status_text : StatusText := {| show_status _ := [] |}.
#[export] Instance calendar : Calendar := {| show_day _ := lit "d" |}.

Definition root : Path := [lit "s"].
Definition server : ServerState := server_new root None None None.
Definition guarded : ServerState := server_new root (Some (lit "t")) None None.
Definition anyone : Headers := mkHeaders None None.
Definition empty_disk : Disk := mkDisk ∅ (fun _ => Works) 0.
(** The process dies in the [n]th call, having done none of it. *)
Definition dying (n : nat) : Disk := mkDisk ∅ (fun k => if bool_decide (k = n) then Dies None else Works) 0.
Definition post_ (s : ServerState) (body : string) (d : Disk) : Disk * Run Empty_set Answer :=
  ingest_event s anyone (lit body) 0 (fun _ => []) d.
Definition status (r : Run Empty_set Answer) : option N :=
  match r with Done a => Some (answer_status a) | _ => None end.
Definition rows (d : Disk) (ids : list string) : list bool :=
  (fun id => is_file_at (nodes d) (event_day_dir root (lit "d") ++ [lit id ++ lit ".json"])) <$> ids.

Example a_batch_is_stored_once :
  let d := (post_ server "[ab" empty_disk).1 in
  (status (post_ server "[ab" d).2, rows (post_ server "[ab" d).1 ["a"; "b"]) = (Some 202%N, [true; true]).
Proof. vm_compute. reflexivity. Qed.

(** A death between the marker and the row loses the event for good: the retry is answered
    as a duplicate, and there is no row. *)
Definition after_death : Disk := mkDisk (nodes (post_ server "a" (dying 3)).1) (fun _ => Works) 0.
Example a_death_after_the_marker_loses_the_event :
  (status (post_ server "a" after_death).2, rows (post_ server "a" after_death).1 ["a"]%string)
  = (Some 202%N, [false]).
Proof. vm_compute. reflexivity. Qed.

(** One event the collector cannot read refuses the whole batch with a status the client
    takes for final: the events before it are stored, those after it are lost. *)
Example a_bad_event_loses_the_rest_of_its_batch :
  let '(d, r) := post_ server "[a!b" empty_disk in
  (status r, rows d ["a"; "b"]%string) = (Some 400%N, [true; false]) /\
  match Upload.post (fun _ _ => Ok 400%N) [] [] with
  | Err e => Upload.is_permanent e = true
  | Ok _ => False
  end.
Proof. vm_compute. split; reflexivity. Qed.

(** A collector with a token refuses every client: none sends one, and 401 is final. *)
Example a_token_loses_everything :
  status (post_ guarded "a" empty_disk).2 = Some 401%N /\
  match Upload.post (fun _ _ => Ok 401%N) [] [] with
  | Err e => Upload.is_permanent e = true
  | Ok _ => False
  end.
Proof. vm_compute. split; reflexivity. Qed.

End Demo.

Section witness.
Import Demo.

End witness.
