(* ===== verification/Pty.v ===== *)
(** * Pty: messages, framing and the replay ring of the PTY daemon

    [goble-pty/src]: [protocol.rs] (what client and daemon say, one JSON object per line)
    and [session.rs] (the bytes of a session's output a client can still ask for).

    JSON and base64 are classes.  A socket is the answers its reads will give; a read of
    nothing, or no answer left, is the end of the stream. *)

From S2P Require Import Prelude Bytes.

Open Scope goble_scope.

(** ** Messages ([protocol.rs]) *)

Module Protocol.

Record SessionInfo : Type := mkSessionInfo {
  session_id : Str;
  pane_id : Str;
  alive : bool;
  cols : N;
  rows : N;
}.
#[export] Instance SessionInfo_eq_dec : EqDecision SessionInfo.
Proof. solve_decision. Defined.

Inductive Request : Type :=
| Hello (id : N) (client_id : Str)
| List_ (id : N)
| Create (id : N) (pane : Str) (cwd : Str) (cols rows : N) (shell : option Str) (args : list Str)
    (env : list (Str * Str))
| Attach (id : N) (session : Str) (from_seq : N)
| Detach (id : N) (session : Str)
| Input (id : N) (session : Str) (bytes_b64 : Str)
| Resize (id : N) (session : Str) (cols rows pixel_width pixel_height : N)
| Kill (id : N) (session : Str)
| Signal (id : N) (session : Str) (signal : Str).
#[export] Instance Request_eq_dec : EqDecision Request.
Proof. solve_decision. Defined.

Definition request_id (r : Request) : N :=
  match r with
  | Hello id _ | List_ id | Create id _ _ _ _ _ _ _ | Attach id _ _ | Detach id _ | Input id _ _
  | Resize id _ _ _ _ _ | Kill id _ | Signal id _ _ => id
  end.

Inductive ServerMessage : Type :=
| Ok_ (id : N) (session : option SessionInfo)
| Sessions (id : N) (sessions : list SessionInfo)
| Error (id : option N) (message : Str)
| Session (session : Str) (pane : Str) (alive : bool) (cols rows : N)
| Output (session : Str) (seq : N) (bytes_b64 : Str)
| Exit (session : Str) (code : Z).
#[export] Instance ServerMessage_eq_dec : EqDecision ServerMessage.
Proof. solve_decision. Defined.

Definition session_event (i : SessionInfo) : ServerMessage :=
  Session (session_id i) (pane_id i) (alive i) (cols i) (rows i).

(** [std::io::ErrorKind], as far as the code tells it apart. *)
Inductive ErrorKind : Type := WouldBlock | TimedOut | Interrupted | OtherKind.
Inductive ProtocolError : Type :=
| Io (kind : ErrorKind)
| Json (reason : Str)
| Base64_ (reason : Str)
| TooLarge
| Closed.

(** [base64::engine::general_purpose::STANDARD]. *)
Class Base64 : Type := {
  base64_encode : Bytes -> Str;
  base64_decode : Str -> result Str Bytes;
}.
Class Base64Laws `{Base64} : Prop := {
  base64_roundtrip : forall l, Forall is_byte l -> base64_decode (base64_encode l) = Ok l;
}.

Section bytes.
Context `{Base64}.
Definition encode_bytes (l : Bytes) : Str := base64_encode l.
Definition decode_bytes (s : Str) : result ProtocolError Bytes := result_map_err Base64_ (base64_decode s).

Definition output (session : Str) (seq : N) (bytes : Bytes) : ServerMessage :=
  Output session seq (encode_bytes bytes).
Definition output_bytes (m : ServerMessage) : option (result ProtocolError Bytes) :=
  match m with Output _ _ b64 => Some (decode_bytes b64) | _ => None end.
End bytes.

End Protocol.

(** ** Framing ([protocol.rs]) *)

Module Framing.
Import Protocol.

Definition MAX_MESSAGE_BYTES : N := 4 * 1024 * 1024.
Definition RETURN : byte := 13%N.

(** [serde_json::to_vec] and [serde_json::from_slice] at a type. *)
Class Wire (T : Type) : Type := {
  to_vec : T -> result Str Bytes;
  from_slice : Bytes -> result Str T;
}.
(** Compact JSON: it parses back, has no raw control character, and starts and ends on a
    printed one. *)
Class WireLaws (T : Type) `{Wire T} : Prop := {
  wire_parse : forall m l, to_vec m = Ok l -> from_slice l = Ok m;
  wire_line : forall m l, to_vec m = Ok l -> NEWLINE ∉ l;
  wire_head : forall m l, to_vec m = Ok l -> exists b l', l = b :: l' /\ is_ascii_whitespace b = false;
  wire_last : forall m l, to_vec m = Ok l -> last l <> Some RETURN;
}.

(** A [BufRead]: the bytes it holds, and what the reads of the socket will answer. *)
Record Source : Type := mkSource { ready : Bytes; reads : list (result ErrorKind Bytes) }.
Definition fill_buf (s : Source) : result ErrorKind Bytes * Source :=
  match ready s with
  | [] =>
      match reads s with
      | [] => (Ok [], s)
      | Ok l :: rs => (Ok l, mkSource l rs)
      | Err k :: rs => (Err k, mkSource [] rs)
      end
  | l => (Ok l, s)
  end.
Definition consume (n : nat) (s : Source) : Source := mkSource (drop n (ready s)) (reads s).

Record MessageReader : Type := mkReader { inner : Source; line : Bytes }.
Definition reader_new (s : Source) : MessageReader := mkReader s [].

Definition is_newline (b : byte) : bool := (b =? NEWLINE)%N.
Definition strip_cr (l : Bytes) : Bytes :=
  if bool_decide (last l = Some RETURN) then take (length l - 1) l else l.
Definition blank (l : Bytes) : bool := forallb is_ascii_whitespace l.

Section framing.
Context {T : Type} `{!Wire T}.

Definition parsed (l : Bytes) : result ProtocolError (option T) :=
  result_map Some (result_map_err Json (from_slice l)).

(** The loop of [read]: a turn takes bytes of the source or drops a blank line. *)
Fixpoint read_loop (fuel : nat) (r : MessageReader) :
  option (result ProtocolError (option T) * MessageReader) :=
  match fuel with
  | 0 => None
  | S fuel =>
      match position is_newline (line r) with
      | Some pos =>
          let l := strip_cr (take pos (line r)) in
          let r := mkReader (inner r) (drop (S pos) (line r)) in
          if blank l then read_loop fuel r else Some (parsed l, r)
      | None =>
          match fill_buf (inner r) with
          | (Err k, src) => Some (Err (Io k), mkReader src (line r))
          | (Ok [], src) =>
              let l := line r in
              let r := mkReader src [] in
              if bool_decide (l = []) then Some (Ok None, r)
              else if blank l then Some (Ok None, r)
              else Some (parsed l, r)
          | (Ok available, src) =>
              let n := match position is_newline available with Some p => S p | None => length available end in
              if (MAX_MESSAGE_BYTES <? N.of_nat (length (line r) + n))%N then
                Some (Err TooLarge, mkReader src (line r))
              else read_loop fuel (mkReader (consume n src) (line r ++ take n available))
          end
      end
  end.

(** What is left to read bounds the turns. *)
Definition pending (s : Source) : nat :=
  2 * length (ready s) +
  sum_list_with (fun x => match x with Ok l => S (2 * length l) | Err _ => 1 end) (reads s).
Definition size (r : MessageReader) : nat := length (line r) + pending (inner r).
Definition read (r : MessageReader) : option (result ProtocolError (option T) * MessageReader) :=
  read_loop (S (size r)) r.

Definition write_message (m : T) : result ProtocolError Bytes :=
  let? bytes := result_map_err Json (to_vec m) in
  if (MAX_MESSAGE_BYTES <? N.of_nat (length bytes) + 1)%N then Err TooLarge else Ok (bytes ++ [NEWLINE]).

(** What the loop of [handle_client] takes from its socket: requests, lines it answers with
    an error, and a line too long, which ends it. *)
Inductive Received : Type := Got (m : T) | Invalid (reason : Str) | Oversize.
Definition transient (k : ErrorKind) : bool :=
  match k with WouldBlock | Interrupted => true | _ => false end.
Fixpoint receive_loop (fuel : nat) (r : MessageReader) : option (list Received) :=
  match fuel with
  | 0 => None
  | S fuel =>
      match read r with
      | None => None
      | Some (Ok (Some m), r) => cons (Got m) <$> receive_loop fuel r
      | Some (Ok None, _) => Some []
      | Some (Err (Json e), r) => cons (Invalid e) <$> receive_loop fuel r
      | Some (Err TooLarge, _) => Some [Oversize]
      | Some (Err (Io k), r) => if transient k then receive_loop fuel r else Some []
      | Some (Err (Base64_ _), _) | Some (Err Closed, _) => Some []
      end
  end.
Definition receive (r : MessageReader) : option (list Received) := receive_loop (S (size r)) r.
End framing.
Arguments Received : clear implicits.

End Framing.

(** ** The replay ring ([session.rs]) *)

Module Ring.

Definition REPLAY_CAPACITY : N := 512 * 1024.
Definition OUTPUT_CHUNK : nat := 8 * 1024.

Record ReplayRing : Type := mkRing { data : Bytes; start_seq : N; capacity : N }.
Definition ring_new (capacity : N) : ReplayRing := mkRing [] 0 (N.max capacity 1).

Definition end_seq (r : ReplayRing) : N := start_seq r + N.of_nat (length (data r)).

(** [while data.len() > capacity { data.pop_front() }]. *)
Fixpoint pop_front_to (capacity : N) (l : Bytes) : Bytes :=
  match l with
  | [] => []
  | _ :: l' => if (capacity <? N.of_nat (length l))%N then pop_front_to capacity l' else l
  end.

(** The ring, and the offset of the first byte pushed. *)
Definition push (bytes : Bytes) (r : ReplayRing) : ReplayRing * N :=
  let seq := end_seq r in
  let kept := pop_front_to (capacity r) (data r ++ bytes) in
  let total := (seq + N.of_nat (length bytes))%N in
  (mkRing kept (total - N.of_nat (length kept)) (capacity r), seq).

Definition read_from (from_seq : N) (r : ReplayRing) : N * Bytes :=
  let start := N.min (N.max from_seq (start_seq r)) (end_seq r) in
  (start, drop (N.to_nat (start - start_seq r)) (data r)).

(** [slice::chunks] with the offset of each. *)
Fixpoint chunks (fuel : nat) (n : nat) (seq : N) (l : Bytes) : list (N * Bytes) :=
  match fuel, l with
  | S fuel, _ :: _ => (seq, take n l) :: chunks fuel n (seq + N.of_nat n) (drop n l)
  | _, _ => []
  end.
Definition chunks_from (from_seq : N) (r : ReplayRing) : list (N * Bytes) :=
  let '(start, bytes) := read_from from_seq r in chunks (length bytes) OUTPUT_CHUNK start bytes.

End Ring.
