(* ===== verification/PtyWire.v ===== *)
(** * PtyWire: what the framing and the replay ring promise

    The reader takes from a socket what a scan of its bytes says, however the bytes arrive;
    the ring holds the last bytes of a session, each under its own offset. *)

From S2P Require Import Prelude Bytes Pty.

Open Scope goble_scope.

Module WireProps.
Import Protocol Framing.

Section reader.
Context {T : Type} `{!Wire T}.

(** ** The reference: one byte at a time *)

Definition meaning (complete : bool) (l : Bytes) : list (Received T) :=
  let l := if complete then strip_cr l else l in
  if blank l then []
  else match from_slice l with Ok m => [Got m] | Err e => [Invalid e] end.

Fixpoint reference (acc stream : Bytes) : list (Received T) :=
  match stream with
  | [] => meaning false acc
  | b :: stream =>
      if (MAX_MESSAGE_BYTES <? N.of_nat (S (length acc)))%N then [Oversize]
      else if is_newline b then meaning true acc ++ reference [] stream
      else reference (acc ++ [b]) stream
  end.

Definition arrives (x : result ErrorKind Bytes) : Bytes := match x with Ok l => l | Err _ => [] end.
Definition stream (s : Source) : Bytes := ready s ++ concat (arrives <$> reads s).

(** A socket that is not interrupted for good: no read of nothing, only passing errors. *)
Definition steady (s : Source) : Prop :=
  Forall (fun x => match x with Ok l => l <> [] | Err k => transient k = true end) (reads s).

Lemma reference_chunk acc l s : l <> [] -> NEWLINE ∉ l ->
  reference acc (l ++ s) =
    if (MAX_MESSAGE_BYTES <? N.of_nat (length acc + length l))%N then [Oversize] else reference (acc ++ l) s.
Proof.
  revert acc. induction l as [| b l IH]; intros acc Hne Hl; [done |]. cbn [app reference length].
  apply not_elem_of_cons in Hl as [Hb Hl]. unfold is_newline.
  rewrite (proj2 (N.eqb_neq b NEWLINE)) by congruence.
  destruct (N.ltb_spec MAX_MESSAGE_BYTES (N.of_nat (S (length acc)))).
  - by rewrite (proj2 (N.ltb_lt _ _)) by lia.
  - destruct l as [| b' l].
    + rewrite (proj2 (N.ltb_ge _ _)) by (simpl; lia). done.
    + rewrite IH by done. rewrite length_app, <- app_assoc. cbn [length app].
      by replace (length acc + 1 + S (length l)) with (length acc + S (S (length l))) by lia.
Qed.

Lemma reference_line acc l s : NEWLINE ∉ l ->
  reference acc (l ++ NEWLINE :: s) =
    if (MAX_MESSAGE_BYTES <? N.of_nat (length acc + S (length l)))%N then [Oversize]
    else meaning true (acc ++ l) ++ reference [] s.
Proof.
  intros Hl. destruct (decide (l = [])) as [-> | Hne].
  - cbn [app reference length]. rewrite app_nil_r. replace (length acc + 1) with (S (length acc)) by lia.
    by unfold is_newline; rewrite N.eqb_refl.
  - rewrite reference_chunk by done. cbn [reference]. unfold is_newline. rewrite N.eqb_refl, length_app.
    replace (S (length acc + length l)) with (length acc + S (length l)) by lia.
    destruct (N.ltb_spec MAX_MESSAGE_BYTES (N.of_nat (length acc + length l))); [| done].
    by rewrite (proj2 (N.ltb_lt _ _)) by lia.
Qed.

(** ** One turn of the reader *)

Lemma position_newline (l : Bytes) :
  match position is_newline l with
  | None => NEWLINE ∉ l
  | Some p => exists pre post, l = pre ++ NEWLINE :: post /\ length pre = p /\ NEWLINE ∉ pre
  end.
Proof.
  induction l as [| b l IH]; cbn [position]; [set_solver |]. unfold is_newline at 1.
  destruct (N.eqb_spec b NEWLINE) as [-> | Hb]; [exists [], l; split_and!; [done | done | set_solver] |].
  destruct (position is_newline l) as [p |]; simpl.
  - destruct IH as (pre & post & -> & <- & Hn). exists (b :: pre), post. split_and!; [done | done | set_solver].
  - set_solver.
Qed.

Lemma position_at (l s : Bytes) : NEWLINE ∉ l -> position is_newline (l ++ NEWLINE :: s) = Some (length l).
Proof.
  induction l as [| b l IH]; intros Hl; cbn [app position]; unfold is_newline at 1; [by rewrite N.eqb_refl |].
  apply not_elem_of_cons in Hl as [Hb Hl]. rewrite (proj2 (N.eqb_neq b NEWLINE)) by congruence.
  by rewrite IH.
Qed.
Lemma position_absent (l : Bytes) : NEWLINE ∉ l -> position is_newline l = None.
Proof.
  intros Hl. pose proof (position_newline l) as Hp. destruct (position is_newline l); [| done].
  destruct Hp as (pre & post & -> & _ & _). set_solver.
Qed.

Lemma fill_buf_spec s :
  match fill_buf s with
  | (Err k, s') => size (mkReader s' []) < size (mkReader s []) /\ stream s' = stream s /\
      (steady s -> steady s' /\ transient k = true)
  | (Ok l, s') => ready s' = l /\ size (mkReader s' []) <= size (mkReader s []) /\
      stream s' = stream s /\ (steady s -> steady s' /\ (l = [] -> stream s = []))
  end.
Proof.
  destruct s as [[| b l] rs]; unfold fill_buf, steady, stream, size, pending; cbn [ready reads].
  - destruct rs as [| [l | k] rs]; cbn [ready reads length app inner line sum_list_with fmap list_fmap concat arrives].
    + done.
    + split_and!; [done | lia | done |]. intros [Hl Hs]%Forall_cons. split; [done |]. by intros ->.
    + split_and!; [lia | done |]. by intros [Hk Hs]%Forall_cons.
  - split_and!; [done | done | done |]. by intros Hs.
Qed.

Lemma consume_spec n s l : n <= length (ready s) ->
  size (mkReader (consume n s) l) + 2 * n = size (mkReader s l) /\
  stream s = take n (ready s) ++ stream (consume n s) /\ (steady s -> steady (consume n s)).
Proof.
  intros Hn. unfold size, pending, consume, stream, steady; cbn [inner line ready reads].
  rewrite length_drop. split_and!; [lia | by rewrite app_assoc, take_drop | done].
Qed.

Lemma size_line s l : size (mkReader s l) = length l + size (mkReader s []).
Proof. done. Qed.

(** What [read_loop] does with enough fuel, a turn at a time. *)
Lemma read_loop_fuel f : forall f' r, size r < f -> size r < f' ->
  read_loop (T := T) f r = read_loop f' r /\ is_Some (read_loop (T := T) f r).
Proof.
  induction f as [| f IH]; intros [| f'] r Hf Hf'; [lia | lia | lia |]. cbn [read_loop].
  destruct r as [s l]. cbn [inner line]. pose proof (position_newline l) as Hp.
  destruct (position is_newline l) as [p |].
  - destruct (blank _); [| by eauto]. apply IH; rewrite size_line in *; rewrite length_drop;
      destruct Hp as (pre & post & -> & Hlen & _); rewrite length_app in *; simpl in *; lia.
  - pose proof (fill_buf_spec s) as Hs. destruct (fill_buf s) as [[[| b avail] | k] s'].
    + split; [done |]. destruct (bool_decide _); [by eauto |]. destruct (blank _); by eauto.
    + destruct Hs as (Hr & Hsz & _). set (n := match position is_newline (b :: avail) with Some p => S p | None => _ end).
      assert (1 <= n <= length (ready s')) as Hn.
      { rewrite Hr. subst n. pose proof (position_newline (b :: avail)) as Hb.
        destruct (position is_newline (b :: avail)); [| simpl; lia].
        destruct Hb as (pre & post & -> & <- & _). rewrite length_app. simpl. lia. }
      destruct (_ <? _)%N; [by eauto |].
      destruct (consume_spec n s' (l ++ take n (b :: avail)) (proj2 Hn)) as (Hc & _ & _).
      rewrite size_line in Hf, Hf'. rewrite (size_line s'), length_app, <- Hr, length_take_le in Hc by lia.
      rewrite <- Hr. apply IH; lia.
    + by eauto.
Qed.

Lemma read_loop_read f r : size r < f -> read_loop (T := T) f r = read r.
Proof. intros Hf. by apply read_loop_fuel; [| unfold size; lia]. Qed.

(** A turn that goes on: what it leaves is smaller and holds the same bytes. *)
Lemma read_fill s l : NEWLINE ∉ l ->
  match fill_buf s with
  | (Err k, s') => read (T := T) (mkReader s l) = Some (Err (Io k), mkReader s' l)
  | (Ok [], s') =>
      read (T := T) (mkReader s l) = Some (if blank l then Ok None else parsed l, mkReader s' [])
  | (Ok avail, s') =>
      match position is_newline avail with
      | None =>
          read (T := T) (mkReader s l) =
            if (MAX_MESSAGE_BYTES <? N.of_nat (length l + length avail))%N then
              Some (Err TooLarge, mkReader s' l)
            else read (mkReader (consume (length avail) s') (l ++ avail))
      | Some p =>
          let l' := strip_cr (l ++ take p avail) in
          let r := mkReader (consume (S p) s') [] in
          read (T := T) (mkReader s l) =
            if (MAX_MESSAGE_BYTES <? N.of_nat (length l + S p))%N then Some (Err TooLarge, mkReader s' l)
            else if blank l' then read r else Some (parsed l', r)
      end
  end.
Proof.
  intros Hl.
  assert (read (T := T) (mkReader s l) = read_loop (S (size (mkReader s l))) (mkReader s l)) as -> by done. cbn [read_loop inner line]. rewrite position_absent by done.
  pose proof (fill_buf_spec s) as Hs. destruct (fill_buf s) as [[[| b avail] | k] s']; [| | done].
  - destruct l as [| c l]; [done |]. rewrite bool_decide_eq_false_2 by done. by destruct (blank _).
  - destruct Hs as (Hr & Hsz & _). pose proof (position_newline (b :: avail)) as Hp.
    destruct (position is_newline (b :: avail)) as [p |].
    + destruct Hp as (pre & post & He & Hlen & Hpre). rewrite He in *. subst p.
      destruct (_ <? _)%N; [done |].
      assert (take (S (length pre)) (pre ++ NEWLINE :: post) = pre ++ [NEWLINE]) as ->.
      { rewrite cons_middle, app_assoc. apply take_app_length'. rewrite length_app. simpl. lia. }
      rewrite take_app_length.
      destruct (consume_spec (S (length pre)) s' (l ++ pre ++ [NEWLINE])) as (Hc & _ & _).
      { rewrite Hr, length_app. simpl. lia. }
      rewrite (size_line s'), !length_app in Hc. simpl in Hc.
      rewrite read_loop_read by (rewrite (size_line s); lia).
      unfold read at 1. cbn [read_loop inner line]. rewrite app_assoc, position_at by set_solver.
      rewrite take_app_length, (drop_ge ((l ++ pre) ++ [NEWLINE])) by (rewrite !length_app; simpl; lia).
      destruct (blank _); [| done]. rewrite read_loop_read; [done |].
      unfold size. cbn [inner line]. rewrite !length_app. simpl. lia.
    + destruct (_ <? _)%N; [done |]. rewrite (firstn_all (b :: avail)).
      destruct (consume_spec (length (b :: avail)) s' (l ++ b :: avail)) as (Hc & _ & _); [by rewrite Hr |].
      rewrite (size_line s'), length_app in Hc. apply read_loop_read. rewrite (size_line s).
      cbn [length] in *. lia.
Qed.

(** ** The reader is the reference *)

Lemma receive_read f r r' : read (T := T) r = read r' -> receive_loop (T := T) (S f) r = receive_loop (S f) r'.
Proof. intros Hr. cbn [receive_loop]. by rewrite Hr. Qed.

(** A line taken off, and what follows it. *)
Lemma receive_line f r r' (l : Bytes) rest :
  read (T := T) r = (if blank l then read r' else Some (parsed l, r')) ->
  receive_loop (T := T) (S f) r' = Some rest -> receive_loop (T := T) f r' = Some rest ->
  receive_loop (T := T) (S f) r =
    Some ((if blank l then [] else match from_slice l with Ok m => [Got m] | Err e => [Invalid e] end) ++ rest).
Proof.
  intros Hr HS Hf. destruct (blank l); [by erewrite receive_read |]. cbn [receive_loop]. rewrite Hr.
  unfold parsed. destruct (from_slice l); cbn [result_map_err result_map]; by rewrite Hf.
Qed.

Lemma receive_is_reference n : forall f r, size r <= n -> size r < f ->
  NEWLINE ∉ line r -> steady (inner r) ->
  receive_loop (T := T) f r = Some (reference (line r) (stream (inner r))).
Proof.
  induction n as [n IH] using lt_wf_ind. intros [| f] [s l] Hn Hf Hl Hs; [lia |]. cbn [inner line] in *.
  pose proof (read_fill s l Hl) as Hr. pose proof (fill_buf_spec s) as Hb.
  rewrite (size_line s l) in *. destruct (fill_buf s) as [[[| b avail] | k] s'].
  - destruct Hb as (_ & Hsz & Hst & [Hs' Hnil]%(fun H => H Hs)). specialize (Hnil eq_refl).
    rewrite Hnil in *. cbn [reference]. unfold meaning. destruct (decide (blank l = true)) as [Hbl | Hbl].
    { cbn [receive_loop]. by rewrite Hr, Hbl. }
    apply not_true_is_false in Hbl. assert (l <> []) as Hl0 by (by intros ->).
    assert (0 < length l) by (destruct l; [done | simpl; lia]).
    rewrite (receive_line f _ (mkReader s' []) l []).
    + by rewrite Hbl, app_nil_r.
    + by rewrite Hr, Hbl.
    + etrans; [apply (IH (size (mkReader s' []))); [lia | done | lia | set_solver | done] |]. cbn [inner line].
      by rewrite Hst.
    + etrans; [apply (IH (size (mkReader s' []))); [lia | done | lia | set_solver | done] |]. cbn [inner line].
      by rewrite Hst.
  - destruct Hb as (Hready & Hsz & Hst & [Hs' _]%(fun H => H Hs)). rewrite <- Hst.
    pose proof (position_newline (b :: avail)) as Hp. destruct (position is_newline (b :: avail)) as [p |].
    + destruct Hp as (pre & post & He & <- & Hpre). rewrite He, take_app_length in Hr.
      destruct (consume_spec (S (length pre)) s' []) as (Hc & Hsplit & Hs'').
      { rewrite Hready, He, length_app. simpl. lia. }
      set (s'' := consume (S (length pre)) s') in *. rewrite Hsplit, Hready, He.
      assert (take (S (length pre)) (pre ++ NEWLINE :: post) = pre ++ [NEWLINE]) as ->.
      { rewrite cons_middle, app_assoc. apply take_app_length'. rewrite length_app. simpl. lia. }
      rewrite <- app_assoc. cbn [app]. rewrite reference_line by done.
      destruct (_ <? _)%N; [cbn [receive_loop]; by rewrite Hr |].
      unfold meaning. apply receive_line with (r' := mkReader s'' []); [exact Hr | |];
        (apply (IH (size (mkReader s'' []))); [lia | done | lia | set_solver | by apply Hs'']).
    + destruct (consume_spec (length (b :: avail)) s' (l ++ b :: avail)) as (Hc & Hsplit & Hs''); [by rewrite Hready |].
      rewrite Hsplit, Hready, firstn_all, reference_chunk by done.
      destruct (_ <? _)%N; [cbn [receive_loop]; by rewrite Hr |].
      erewrite receive_read by exact Hr. rewrite (size_line s' (l ++ b :: avail)), length_app in Hc. cbn [length] in Hc.
      apply (IH (size (mkReader (consume (length (b :: avail)) s') (l ++ b :: avail)))); cbn [inner line length] in *;
        [lia | done | lia | set_solver | by apply Hs''].
  - destruct Hb as (Hsz & Hst & [Hs' Hk]%(fun H => H Hs)). cbn [receive_loop]. rewrite Hr, Hk, <- Hst.
    apply (IH (size (mkReader s' l))); rewrite ?(size_line s' l); cbn [inner line]; (lia || done).
Qed.

Lemma reference_messages `{!WireLaws T} ms ws : Forall2 (fun m w => write_message m = Ok w) ms ws ->
  reference [] (concat ws) = Got <$> ms.
Proof.
  induction 1 as [| m w ms ws Hw _ IH]; [done |]. unfold write_message in Hw.
  destruct (to_vec m) as [l | e] eqn:Hl; cbn [result_map_err] in Hw; [| done].
  destruct (N.ltb_spec MAX_MESSAGE_BYTES (N.of_nat (length l) + 1)) as [| Hmax]; [done |]. injection Hw as <-.
  cbn [concat]. rewrite <- app_assoc. cbn [app]. rewrite reference_line by by eapply wire_line.
  rewrite (proj2 (N.ltb_ge _ _)) by (cbn [length]; lia). rewrite IH. cbn [app]. unfold meaning, strip_cr.
  rewrite bool_decide_eq_false_2 by by eapply wire_last.
  destruct (wire_head m l Hl) as (b & l' & -> & Hb). unfold blank. cbn [forallb]. rewrite Hb. cbn [andb].
  by rewrite (wire_parse m _ Hl).
Qed.

(** the frames of a connection do not depend on how its bytes arrive.  Whatever the peer
    sends, a reader that is only interrupted in passing returns, and takes from the socket
    what a scan of the bytes one by one says, an oversized line included, so two cuts of
    the same bytes are told the same; and messages written by [write_message] come back,
    all of them, in order. *)
Theorem messages_survive_any_cut `{!WireLaws T} :
  (forall reads reads',
     steady (mkSource [] reads) -> steady (mkSource [] reads') ->
     concat (arrives <$> reads) = concat (arrives <$> reads') ->
     exists received, receive (reader_new (mkSource [] reads)) = Some received /\
       receive (reader_new (mkSource [] reads')) = Some received) /\
  (forall ms ws reads,
     steady (mkSource [] reads) ->
     Forall2 (fun m w => write_message m = Ok w) ms ws ->
     concat (arrives <$> reads) = concat ws ->
     receive (reader_new (mkSource [] reads)) = Some (Got <$> ms)).
Proof.
  assert (forall reads, steady (mkSource [] reads) ->
    receive (reader_new (mkSource [] reads)) = Some (reference [] (concat (arrives <$> reads)))) as Hr.
  { intros reads Hs. unfold receive. erewrite receive_is_reference; [done | reflexivity | lia | set_solver | done]. }
  split.
  - intros reads reads' Hs Hs' Hcut. exists (reference [] (concat (arrives <$> reads))).
    split; [by apply Hr |]. rewrite Hcut. by apply Hr.
  - intros ms ws reads Hs Hw Hcut. rewrite Hr, Hcut by done. f_equal. by apply reference_messages.
Qed.
End reader.
End WireProps.

(** ** The ring *)

Module RingProps.
Import Ring.

(** The ring after a session printed [all]. *)
Definition dropped (cap : N) (all : Bytes) : nat := length all - N.to_nat cap.
Record window (cap : N) (all : Bytes) (r : ReplayRing) : Prop := {
  w_capacity : capacity r = cap;
  w_data : data r = drop (dropped cap all) all;
  w_start : start_seq r = N.of_nat (dropped cap all);
}.

Lemma pop_front_to_drop cap l : pop_front_to cap l = drop (length l - N.to_nat cap) l.
Proof.
  induction l as [| b l IH]; [done |]. cbn [pop_front_to].
  destruct (N.ltb_spec cap (N.of_nat (length (b :: l)))) as [Hl | Hl].
  - rewrite IH. cbn [length] in *. replace (S (length l) - N.to_nat cap) with (S (length l - N.to_nat cap)) by lia.
    done.
  - replace (length (b :: l) - N.to_nat cap) with 0 by lia. done.
Qed.

Lemma window_new cap : window (N.max cap 1) [] (ring_new cap).
Proof. by split. Qed.

Lemma window_end cap all r : window cap all r -> end_seq r = N.of_nat (length all).
Proof.
  intros [_ Hd Hs]. unfold end_seq. rewrite Hd, Hs, length_drop. unfold dropped. lia.
Qed.

Lemma window_push cap all bytes r : window cap all r ->
  window cap (all ++ bytes) (push bytes r).1 /\ (push bytes r).2 = N.of_nat (length all).
Proof.
  intros Hw. pose proof (window_end _ _ _ Hw) as He. destruct Hw as [Hc Hd Hs]. unfold push. cbn [fst snd].
  split; [| done]. rewrite pop_front_to_drop, Hc, Hd, length_app, length_drop. unfold dropped in *.
  assert (drop (length all - N.to_nat cap) all ++ bytes = drop (length all - N.to_nat cap) (all ++ bytes)) as ->.
  { rewrite drop_app_le by lia. done. }
  rewrite drop_drop. split; cbn [capacity data start_seq].
  - done.
  - unfold dropped. rewrite length_app. f_equal. lia.
  - unfold dropped. rewrite He, length_drop, length_app. lia.
Qed.

Lemma window_bounded cap all r : window cap all r -> length (data r) <= N.to_nat cap.
Proof. intros [_ -> _]. rewrite length_drop. unfold dropped. lia. Qed.

(** Where an answer from [from_seq] starts. *)
Definition starts_at (cap from_seq : N) (all : Bytes) : N :=
  N.min (N.max from_seq (N.of_nat (dropped cap all))) (N.of_nat (length all)).

Lemma window_read cap all from_seq r : window cap all r ->
  read_from from_seq r = (starts_at cap from_seq all, drop (N.to_nat (starts_at cap from_seq all)) all).
Proof.
  intros Hw. unfold read_from. rewrite (window_end _ _ _ Hw). destruct Hw as [_ -> ->].
  unfold starts_at. f_equal. rewrite drop_drop. f_equal. unfold dropped. lia.
Qed.

(** Ranges that follow each other from [seq]. *)
Fixpoint chained (seq : N) (l : list (N * Bytes)) : Prop :=
  match l with
  | [] => True
  | (s, b) :: l => s = seq /\ chained (seq + N.of_nat (length b)) l
  end.

Lemma chained_app seq l l' :
  chained seq (l ++ l') <-> chained seq l /\ chained (seq + N.of_nat (length (concat l.*2))) l'.
Proof.
  revert seq. induction l as [| [s b] l IH]; intros seq; cbn [app chained fmap list_fmap snd concat].
  - cbn. rewrite N.add_0_r. tauto.
  - rewrite IH, length_app, Nat2N.inj_add, N.add_assoc. tauto.
Qed.

Lemma chunks_spec fuel n seq l : 0 < n -> length l <= fuel ->
  chained seq (chunks fuel n seq l) /\ concat (chunks fuel n seq l).*2 = l /\
  Forall (fun c => c.2 <> [] /\ length c.2 <= n) (chunks fuel n seq l).
Proof.
  intros Hn. revert seq l. induction fuel as [| fuel IH]; intros seq [| b l] Hl; try done.
  { simpl in Hl. lia. }
  cbn [chunks]. destruct (IH (seq + N.of_nat n)%N (drop n (b :: l))) as (Hc & Hcat & Hf).
  { rewrite length_drop. cbn [length] in *. lia. }
  split_and!.
  - cbn [chained]. split; [done |]. destruct (decide (length (b :: l) <= n)) as [Hle | Hgt].
    + rewrite (drop_ge (b :: l)) by done. by destruct fuel.
    + by rewrite length_take_le by lia.
  - cbn [fmap list_fmap snd concat]. rewrite Hcat. apply take_drop.
  - constructor; [| done]. cbn [snd]. split; [by destruct n; [lia |] |]. rewrite length_take. lia.
Qed.

Lemma chunks_from_spec cap all from_seq r : window cap all r ->
  chained (starts_at cap from_seq all) (chunks_from from_seq r) /\
  concat (chunks_from from_seq r).*2 = drop (N.to_nat (starts_at cap from_seq all)) all.
Proof.
  intros Hw. unfold chunks_from. rewrite (window_read _ _ _ _ Hw).
  destruct (chunks_spec (length (drop (N.to_nat (starts_at cap from_seq all)) all)) OUTPUT_CHUNK
    (starts_at cap from_seq all) (drop (N.to_nat (starts_at cap from_seq all)) all)) as (? & ? & _); [| done | done].
  unfold OUTPUT_CHUNK. lia.
Qed.
End RingProps.
