(* ===== verification/PtyServer.v ===== *)
(** * PtyServer: the PTY daemon

    [goble-pty/src/server.rs]: sessions, their reader threads, the connections of clients
    and the bounded queue each connection is written from.

    The threads take turns: a request is handled under the lock of the sessions, as in the
    program; where the program lets go of the lock in the middle of a request ([resize],
    [kill]) or sends to a queue that its writer empties meanwhile ([attach]), the request
    takes several steps.  What the operating system answers is part of the step, and a pty
    is what the daemon read from it and did to it. *)

From S2P Require Import Prelude Bytes Fields Pty.

Open Scope goble_scope.

(** [nix::sys::signal::Signal], by number and by name. *)
Class Signals : Type := {
  signal_of_number : Z -> option N;
  signal_of_name : Str -> option N;
}.

Module Server.
Import Protocol Framing Ring.

Definition CLIENT_QUEUE : N := 4096.

(** [tx] is the number of the connection whose queue it sends to. *)
Record Subscriber : Type := mkSubscriber { client_id : Str; tx : nat }.
#[export] Instance Subscriber_eq_dec : EqDecision Subscriber.
Proof. solve_decision. Defined.

Record Session : Type := mkSession {
  info : SessionInfo;
  pid : option N;
  ring : ReplayRing;
  subscribers : list Subscriber;
}.

(** A pty and its child: what was started, read from it, written to it and done to it;
    [thread] while its reader thread runs. *)
Record Command : Type := mkCommand { program : Str; args : list Str; env : list (Str * Str); dir : Str }.
Record Pty : Type := mkPty {
  command : Command;
  printed : Bytes;
  typed : Bytes;
  grid : N * N * N * N;
  kills : nat;
  signals : list N;
  thread : bool;
}.

(** Where a connection's thread stands.  [After] says what follows once the message it
    sends is in the queue. *)
Inductive After : Type := GoOn | Regardless | Stop.
Inductive Job : Type :=
| Idle
| Replaying (id : N) (i : SessionInfo) (rest : list ServerMessage)
| Resizing (id : N) (session : Str) (cols rows : N)
| Killing (id : N) (session : Str) (s : Session)
| Sending (m : ServerMessage) (after : After)
| Leaving
| Ended.
Definition is_idle (j : Job) : bool := match j with Idle => true | _ => false end.

Record Conn : Type := mkConn {
  name : Str;
  job : Job;
  queue : list ServerMessage;
  receiver : bool;                     (** its writer thread still takes messages *)
  delivered : list ServerMessage;
}.

Record Daemon : Type := mkDaemon {
  sessions : gmap Str Session;
  conns : gmap nat Conn;
  ptys : gmap Str Pty;
  client_seq : nat;
  locked : option nat;                 (** the connection that holds the sessions' lock *)
}.
Definition daemon_new : Daemon := mkDaemon ∅ ∅ ∅ 0 None.

Definition set_sessions (s : gmap Str Session) (d : Daemon) : Daemon :=
  mkDaemon s (conns d) (ptys d) (client_seq d) (locked d).
Definition set_conns (c : gmap nat Conn) (d : Daemon) : Daemon :=
  mkDaemon (sessions d) c (ptys d) (client_seq d) (locked d).
Definition alter_pty (f : Pty -> Pty) (sid : Str) (d : Daemon) : Daemon :=
  mkDaemon (sessions d) (conns d) (alter f sid (ptys d)) (client_seq d) (locked d).
Definition set_locked (l : option nat) (d : Daemon) : Daemon :=
  mkDaemon (sessions d) (conns d) (ptys d) (client_seq d) l.
Definition set_job (j : Job) (c : Conn) : Conn := mkConn (name c) j (queue c) (receiver c) (delivered c).
Definition put_job (k : nat) (j : Job) (d : Daemon) : Daemon := set_conns (alter (set_job j) k (conns d)) d.
Definition set_subscribers (l : list Subscriber) (s : Session) : Session := mkSession (info s) (pid s) (ring s) l.
Definition set_info (i : SessionInfo) (s : Session) : Session := mkSession i (pid s) (ring s) (subscribers s).

(** *** The queues *)

Definition has_room (c : Conn) : bool := receiver c && (N.of_nat (length (queue c)) <? CLIENT_QUEUE)%N.
Definition enqueue (m : ServerMessage) (c : Conn) : Conn :=
  mkConn (name c) (job c) (queue c ++ [m]) (receiver c) (delivered c).
(** [SyncSender::try_send]: a full queue and one nobody empties refuse. *)
Definition try_send (m : ServerMessage) (k : nat) (cs : gmap nat Conn) : gmap nat Conn * bool :=
  match cs !! k with
  | Some c => if has_room c then (<[k := enqueue m c]> cs, true) else (cs, false)
  | None => (cs, false)
  end.
(** [subscribers.retain(|s| s.tx.try_send(event.clone()).is_ok())]. *)
Fixpoint broadcast (m : ServerMessage) (l : list Subscriber) (cs : gmap nat Conn) :
  gmap nat Conn * list Subscriber :=
  match l with
  | [] => (cs, [])
  | s :: l =>
      let '(cs, sent) := try_send m (tx s) cs in
      let '(cs, kept) := broadcast m l cs in
      (cs, if sent then s :: kept else kept)
  end.

Definition ok (id : N) (session : option SessionInfo) : ServerMessage := Ok_ id session.
Definition error (id : option N) (message : Str) : ServerMessage := Error id message.
Definition no_session (id : N) (sid : Str) : ServerMessage := error (Some id) (lit "no session " ++ sid).
Definition not_alive (id : N) (sid : Str) : ServerMessage :=
  error (Some id) (lit "session " ++ sid ++ lit " is not alive").
Definition respond (m : ServerMessage) : Job := Sending m GoOn.
Definition without (client : Str) (l : list Subscriber) : list Subscriber :=
  filter (fun s => client_id s <> client) l.

Section server.
Context `{!Base64, !Signals}.

(** *** The reader thread of a session *)

Definition deliver_output (sid : Str) (bytes : Bytes) (d : Daemon) : Daemon :=
  match sessions d !! sid with
  | None => d
  | Some s =>
      let '(r, seq) := push bytes (ring s) in
      let '(cs, subs) := broadcast (output sid seq bytes) (subscribers s) (conns d) in
      set_sessions (<[sid := mkSession (info s) (pid s) r subs]> (sessions d)) (set_conns cs d)
  end.

(** The entry goes with its ring: what is left to say is the exit. *)
Definition finish_session (sid : Str) (code : Z) (d : Daemon) : Daemon :=
  match sessions d !! sid with
  | None => d
  | Some s =>
      if negb (alive (info s)) then d
      else
        let '(cs, _) := broadcast (Exit sid code) (subscribers s) (conns d) in
        set_sessions (delete sid (sessions d)) (set_conns cs d)
  end.

(** *** Requests *)

(** What the operating system answers a request: the id of a new session, its process id or
    why nothing was started, the environment, and how a write, a resize or a signal went
    ([progress] bytes written when it failed). *)
Record Os : Type := mkOs {
  fresh : Str;
  started : result Str (option N);
  env_shell : option Str;
  current_dir : result Str Str;
  io : result Str ();
  progress : nat;
}.

Definition nonempty (s : option Str) : option Str := s ≫= fun s => if bool_decide (s = []) then None else Some s.

Definition create_session (pane : Str) (cwd : Str) (cols_ rows_ : N) (shell : option Str) (args_ : list Str)
    (env_ : list (Str * Str)) (os : Os) (d : Daemon) : Daemon * result Str SessionInfo :=
  if (cols_ =? 0)%N || (rows_ =? 0)%N then (d, Err (lit "cols and rows must be greater than zero"))
  else
    let program :=
      match nonempty shell with
      | Some s => s
      | None => default (lit "/bin/sh") (nonempty (env_shell os))
      end in
    match (if bool_decide (cwd = []) then current_dir os else Ok cwd) with
    | Err e => (d, Err e)
    | Ok dir =>
        match started os with
        | Err e => (d, Err e)
        | Ok pid =>
            let i := mkSessionInfo (fresh os) pane true cols_ rows_ in
            let s := mkSession i pid (ring_new REPLAY_CAPACITY) [] in
            let p := mkPty (mkCommand program args_ env_ dir) [] [] (cols_, rows_, 0%N, 0%N) 0 [] true in
            (mkDaemon (<[fresh os := s]> (sessions d)) (conns d) (<[fresh os := p]> (ptys d)) (client_seq d)
               (locked d), Ok i)
        end
    end.

Definition by_session_id (a b : SessionInfo) : Prop := str_le (session_id a) (session_id b).
#[export] Instance by_session_id_dec : RelDecision by_session_id.
Proof. intros a b. unfold by_session_id, str_le. apply _. Defined.
Definition listed (d : Daemon) : list SessionInfo :=
  sort_by by_session_id (info <$> (map_to_list (sessions d)).*2).

(** [attach] up to its first send: it keeps the lock while it replays. *)
Definition attach (k : nat) (client : Str) (id : N) (sid : Str) (from_seq : N) (d : Daemon) : Daemon * Job :=
  match sessions d !! sid with
  | None => (d, respond (no_session id sid))
  | Some s =>
      let s := set_subscribers (without client (subscribers s) ++ [mkSubscriber client k]) s in
      (set_locked (Some k) (set_sessions (<[sid := s]> (sessions d)) d),
       Replaying id (info s)
         (session_event (info s) :: ((fun '(seq, bytes) => output sid seq bytes) <$> chunks_from from_seq (ring s))))
  end.

Definition detach (client : Str) (id : N) (sid : Str) (d : Daemon) : Daemon * Job :=
  match sessions d !! sid with
  | None => (d, respond (no_session id sid))
  | Some s =>
      (set_sessions (<[sid := set_subscribers (without client (subscribers s)) s]> (sessions d)) d,
       respond (ok id None))
  end.

Definition remove_client (client : Str) (d : Daemon) : Daemon :=
  set_sessions ((fun s => set_subscribers (without client (subscribers s)) s) <$> sessions d) d.

Definition type_in (bytes : Bytes) (p : Pty) : Pty :=
  mkPty (command p) (printed p) (typed p ++ bytes) (grid p) (kills p) (signals p) (thread p).
Definition set_grid (g : N * N * N * N) (p : Pty) : Pty :=
  mkPty (command p) (printed p) (typed p) g (kills p) (signals p) (thread p).
Definition kill_child (p : Pty) : Pty :=
  mkPty (command p) (printed p) (typed p) (grid p) (S (kills p)) (signals p) (thread p).
Definition signal_child (n : N) (p : Pty) : Pty :=
  mkPty (command p) (printed p) (typed p) (grid p) (kills p) (signals p ++ [n]) (thread p).

Definition show_decode_error (e : ProtocolError) : Str :=
  match e with Base64_ reason => lit "invalid base64: " ++ reason | _ => [] end.
Definition write_input (id : N) (sid : Str) (bytes_b64 : Str) (os : Os) (d : Daemon) : Daemon * Job :=
  match decode_bytes bytes_b64 with
  | Err e => (d, respond (error (Some id) (show_decode_error e)))
  | Ok bytes =>
      match sessions d !! sid with
      | None => (d, respond (no_session id sid))
      | Some s =>
          if negb (alive (info s)) then (d, respond (not_alive id sid))
          else
            match io os with
            | Ok _ => (alter_pty (type_in bytes) sid d, respond (ok id None))
            | Err e =>
                (alter_pty (type_in (take (progress os) bytes)) sid d,
                 respond (error (Some id) (lit "write to session " ++ sid ++ lit ": " ++ e)))
            end
      end
  end.

Definition resize (id : N) (sid : Str) (cols_ rows_ pixel_width pixel_height : N) (os : Os) (d : Daemon) :
  Daemon * Job :=
  if (cols_ =? 0)%N || (rows_ =? 0)%N then
    (d, respond (error (Some id) (lit "cols and rows must be greater than zero")))
  else
    match sessions d !! sid with
    | None => (d, respond (no_session id sid))
    | Some _ =>
        match io os with
        | Err e => (d, respond (error (Some id) (lit "resize session " ++ sid ++ lit ": " ++ e)))
        | Ok _ => (alter_pty (set_grid (cols_, rows_, pixel_width, pixel_height)) sid d, Resizing id sid cols_ rows_)
        end
    end.
(** The second half of [resize], under the lock again. *)
Definition resized (id : N) (sid : Str) (cols_ rows_ : N) (d : Daemon) : Daemon * Job :=
  match sessions d !! sid with
  | None => (d, respond (no_session id sid))
  | Some s =>
      let i := mkSessionInfo (session_id (info s)) (pane_id (info s)) (alive (info s)) cols_ rows_ in
      let '(cs, subs) := broadcast (session_event i) (subscribers s) (conns d) in
      (set_sessions (<[sid := set_subscribers subs (set_info i s)]> (sessions d)) (set_conns cs d),
       respond (ok id (Some i)))
  end.

Definition kill (id : N) (sid : Str) (d : Daemon) : Daemon * Job :=
  match sessions d !! sid with
  | None => (d, respond (no_session id sid))
  | Some s => (set_sessions (delete sid (sessions d)) d, Killing id sid s)
  end.
(** The rest of [kill], on the entry it took out of the table. *)
Definition killed (id : N) (sid : Str) (s : Session) (d : Daemon) : Daemon * Job :=
  let d := alter_pty kill_child sid d in
  (if alive (info s) then set_conns (broadcast (Exit sid (-1)) (subscribers s) (conns d)).1 d else d,
   respond (ok id None)).

Definition parse_signal (text : Str) : result Str N :=
  match parse_i32 text with
  | Some n => ok_or (lit "unknown signal number " ++ (if (n <? 0)%Z then lit "-" else []) ++ show_N (Z.abs_N n))
      (signal_of_number n)
  | None =>
      let full := if starts_with text (lit "SIG") then text else lit "SIG" ++ text in
      ok_or (lit "unknown signal " ++ text) (signal_of_name full)
  end.
Definition send_signal (id : N) (sid : Str) (text : Str) (os : Os) (d : Daemon) : Daemon * Job :=
  match sessions d !! sid with
  | None => (d, respond (no_session id sid))
  | Some s =>
      if negb (alive (info s)) then (d, respond (not_alive id sid))
      else
        match pid s with
        | None => (d, respond (error (Some id) (lit "the child has no process id")))
        | Some p =>
            match parse_signal text with
            | Err e => (d, respond (error (Some id) e))
            | Ok n =>
                match io os with
                | Ok _ => (alter_pty (signal_child n) sid d, respond (ok id None))
                | Err e =>
                    (d, respond (error (Some id)
                       (lit "signal " ++ text ++ lit " to " ++ show_N p ++ lit ": " ++ e)))
                end
            end
        end
  end.

Definition dispatch (k : nat) (client : Str) (r : Request) (os : Os) (d : Daemon) : Daemon * Job :=
  match r with
  | Hello id _ => (d, respond (ok id None))
  | List_ id => (d, respond (Sessions id (listed d)))
  | Create id pane cwd cols_ rows_ shell args_ env_ =>
      let '(d, answer) := create_session pane cwd cols_ rows_ shell args_ env_ os d in
      (d, respond (match answer with Ok i => ok id (Some i) | Err e => error (Some id) e end))
  | Attach id sid from_seq => attach k client id sid from_seq d
  | Detach id sid => detach client id sid d
  | Input id sid b64 => write_input id sid b64 os d
  | Resize id sid cols_ rows_ pw ph => resize id sid cols_ rows_ pw ph os d
  | Kill id sid => kill id sid d
  | Signal id sid text => send_signal id sid text os d
  end.

(** *** Steps *)

Inductive Label : Type :=
| LAccept
| LRequest (k : nat) (r : Request) (os : Os)
| LInvalid (k : nat) (reason : Str)
| LOversize (k : nat)
| LClose (k : nat)                        (** the client is gone, or the socket failed *)
| LContinue (k : nat)                     (** the connection's thread takes its next step *)
| LWrite (k : nat) (works : bool)         (** its writer thread takes the next message *)
| LOutput (sid : Str) (bytes : Bytes)     (** the reader thread read from the pty *)
| LExit (sid : Str) (code : Z).           (** the pty is at its end *)

(** Whether the lock is free, and whether handling [r] takes it. *)
Definition free (d : Daemon) : bool := bool_decide (locked d = None).
Definition takes_lock (r : Request) : bool :=
  match r with
  | Hello _ _ => false
  | Input _ _ b64 => match decode_bytes b64 with Ok _ => true | Err _ => false end
  | Resize _ _ c r _ _ => negb ((c =? 0)%N || (r =? 0)%N)
  | _ => true
  end.
(** A session's id is drawn at random, and never twice. *)
Definition draws_new (r : Request) (os : Os) (d : Daemon) : bool :=
  match r with Create _ _ _ _ _ _ _ _ => bool_decide (ptys d !! fresh os = None) | _ => true end.

Definition rename (r : Request) (c : Conn) : Conn :=
  match r with Hello _ n => mkConn n (job c) (queue c) (receiver c) (delivered c) | _ => c end.

(** The thread of a connection after its message went into the queue, or could not. *)
Definition next_job (after : After) (sent : bool) : Job :=
  match after with
  | GoOn => if sent then Idle else Leaving
  | Regardless => Idle
  | Stop => Leaving
  end.

Definition step_request (k : nat) (r : Request) (os : Os) (d : Daemon) : Daemon :=
  match conns d !! k with
  | Some c =>
      if negb (is_idle (job c)) || (takes_lock r && negb (free d)) || negb (draws_new r os d) then d
      else
        let c := rename r c in
        let '(d, j) := dispatch k (name c) r os (set_conns (<[k := c]> (conns d)) d) in
        put_job k j d
  | None => d
  end.

Definition step_continue (k : nat) (d : Daemon) : Daemon :=
  match conns d !! k with
  | None => d
  | Some c =>
      match job c with
      | Idle | Ended => d
      | Replaying id i [] => put_job k (respond (ok id (Some i))) (set_locked None d)
      | Replaying id i (m :: rest) => put_job k (Replaying id i rest) (set_conns (try_send m k (conns d)).1 d)
      | Resizing id sid cols_ rows_ =>
          if free d then let '(d, j) := resized id sid cols_ rows_ d in put_job k j d else d
      | Killing id sid s => let '(d, j) := killed id sid s d in put_job k j d
      | Sending m after =>
          if negb (receiver c) then put_job k (next_job after false) d
          else
            let '(cs, sent) := try_send m k (conns d) in
            if sent then put_job k (next_job after true) (set_conns cs d) else d
      | Leaving => if free d then put_job k Ended (remove_client (name c) d) else d
      end
  end.

Definition if_idle (k : nat) (j : Job) (d : Daemon) : Daemon :=
  match conns d !! k with
  | Some c => if is_idle (job c) then put_job k j d else d
  | None => d
  end.

(** A write that fails ends the writer thread, and with it what was still queued. *)
Definition step_write (works : bool) (c : Conn) : Conn :=
  match queue c with
  | m :: q =>
      if negb (receiver c) then c
      else if works then mkConn (name c) (job c) q true (delivered c ++ [m])
      else mkConn (name c) (job c) [] false (delivered c)
  | [] => c
  end.

Definition running (sid : Str) (d : Daemon) : bool := from_option thread false (ptys d !! sid).
Definition print (bytes : Bytes) (p : Pty) : Pty :=
  mkPty (command p) (printed p ++ bytes) (typed p) (grid p) (kills p) (signals p) (thread p).
Definition stop_thread (p : Pty) : Pty :=
  mkPty (command p) (printed p) (typed p) (grid p) (kills p) (signals p) false.

Definition exec (l : Label) (d : Daemon) : Daemon :=
  match l with
  | LAccept =>
      let n := S (client_seq d) in
      mkDaemon (sessions d) (<[n := mkConn (lit "anon-" ++ show_N (N.of_nat n)) Idle [] true []]> (conns d)) (ptys d)
        n (locked d)
  | LRequest k r os => step_request k r os d
  | LInvalid k reason => if_idle k (Sending (error None (lit "invalid request: " ++ reason)) Regardless) d
  | LOversize k => if_idle k (Sending (error None (lit "request exceeds the message size limit")) Stop) d
  | LClose k => if_idle k Leaving d
  | LContinue k => step_continue k d
  | LWrite k works => set_conns (alter (step_write works) k (conns d)) d
  | LOutput sid bytes =>
      if running sid d && free d && negb (bool_decide (bytes = [])) then
        deliver_output sid bytes (alter_pty (print bytes) sid d)
      else d
  | LExit sid code =>
      if running sid d && free d then finish_session sid code (alter_pty stop_thread sid d) else d
  end.

Definition run (ls : list Label) (d : Daemon) : Daemon := foldl (fun d l => exec l d) d ls.
End server.

End Server.
