(* ===== verification/PtyProps.v ===== *)
(** * PtyProps: what the PTY daemon promises

    In every interleaving of clients, writer threads and reader threads. *)

From S2P Require Import Prelude Bytes Fields Pty PtyWire PtyServer.

Open Scope goble_scope.

Module ServerProps.
Import Protocol Framing Ring RingProps Server.

(** ** What goes into a queue *)

(** Every message a connection's queue took, but those its failed writer left behind. *)
Definition seen (c : Conn) : list ServerMessage := delivered c ++ queue c.

(** [n] times the same message. *)
Definition grown (n : nat) (m : ServerMessage) (c : Conn) : Conn :=
  mkConn (name c) (job c) (queue c ++ replicate n m) (receiver c) (delivered c).

Lemma grown_0 m c : grown 0 m c = c.
Proof. destruct c. unfold grown. cbn. by rewrite app_nil_r. Qed.
Lemma grown_grown n n' m c : grown n' m (grown n m c) = grown (n + n') m c.
Proof. unfold grown. cbn. by rewrite replicate_add, app_assoc. Qed.
Lemma seen_grown n m c : seen (grown n m c) = seen c ++ replicate n m.
Proof. unfold seen, grown. cbn. by rewrite app_assoc. Qed.
Lemma enqueue_grown m c : enqueue m c = grown 1 m c.
Proof. done. Qed.

Definition to (k : nat) (l : list Subscriber) : list Subscriber := filter (fun s => tx s = k) l.

Definition fits (c : Conn) : Prop := (N.of_nat (length (queue c)) <= CLIENT_QUEUE)%N.

(** What a send to [k'] does to the connection [k]. *)
Lemma try_send_spec m k' (cs : gmap nat Conn) :
  let '(cs', sent) := try_send m k' cs in
  dom cs' = dom cs /\
  forall k c, cs !! k = Some c ->
    cs' !! k = Some (if decide (k = k') then (if has_room c then grown 1 m c else c) else c) /\
    (k = k' -> sent = has_room c).
Proof.
  unfold try_send. destruct (cs !! k') as [c' |] eqn:Hk'.
  - destruct (has_room c') eqn:Hr.
    + split; [by rewrite dom_insert_lookup_L by eauto |]. intros k c Hk. destruct (decide (k = k')) as [-> | Hne].
      * simplify_eq. by rewrite lookup_insert_eq, Hr.
      * by rewrite lookup_insert_ne by done.
    + split; [done |]. intros k c Hk. destruct (decide (k = k')) as [-> | Hne]; [| done]. simplify_eq. by rewrite Hr.
  - split; [done |]. intros k c Hk. destruct (decide (k = k')) as [-> | Hne]; [congruence | done].
Qed.

Lemma fits_grown m c : has_room c = true -> fits (grown 1 m c).
Proof.
  unfold has_room, fits, grown. intros [_ H%N.ltb_lt]%andb_true_iff. cbn. rewrite length_app. cbn. lia.
Qed.

Lemma broadcast_spec m l : forall cs,
  let '(cs', kept) := broadcast m l cs in
  dom cs' = dom cs /\ kept `sublist_of` l /\
  forall k c, cs !! k = Some c ->
    cs' !! k = Some (grown (length (to k kept)) m c) /\ (fits c -> fits (grown (length (to k kept)) m c)) /\
    (receiver c = false -> to k kept = []).
Proof.
  induction l as [| s l IH]; intros cs; cbn [broadcast].
  - split_and!; [done | done |]. intros k c Hk. by rewrite grown_0.
  - pose proof (try_send_spec m (tx s) cs) as Ht. destruct (try_send m (tx s) cs) as [cs1 sent].
    specialize (IH cs1). destruct (broadcast m l cs1) as [cs2 kept]. destruct Ht as [Hd1 Ht], IH as (Hd2 & Hsub & Hb).
    split; [congruence |]. split; [destruct sent; by constructor |].
    intros k c Hk. destruct (Ht k c Hk) as [H1 Hs]. destruct (Hb _ _ H1) as (H2 & Hf & Hdead).
    unfold to in *. destruct (decide (k = tx s)) as [-> | Hne].
    + specialize (Hs eq_refl) as ->. rewrite H2. destruct (has_room c) eqn:Hr.
      * rewrite filter_cons_True by done. cbn [length]. rewrite grown_grown in *. split_and!; [done | |].
        -- intros _. by apply Hf, fits_grown.
        -- unfold has_room in Hr. by intros Hd; rewrite Hd in Hr.
      * done.
    + rewrite H2. destruct sent; [rewrite filter_cons_False by done |]; done.
Qed.

(** ** Invariants of a running daemon *)

Section steps.
Context {B64 : Base64} {SIG : Signals}.

(** The session whose shape or output [m] tells. *)
Definition tells_of (m : ServerMessage) : option Str :=
  match m with Output sid _ _ | Protocol.Session sid _ _ _ _ => Some sid | _ => None end.
Definition response (m : ServerMessage) : Prop :=
  match m with Ok_ _ _ | Sessions _ _ | Error _ _ => True | _ => False end.

(** After its exit nothing more is told of a session. *)
Definition exits_last (l : list ServerMessage) : Prop :=
  forall pre sid code post, l = pre ++ Exit sid code :: post -> Forall (fun m => tells_of m <> Some sid) post.

(** Output that is told is the output of the pty, at its place. *)
Definition told (d : Daemon) (m : ServerMessage) : Prop :=
  match m with
  | Output sid seq b64 =>
      exists p bytes, ptys d !! sid = Some p /\ b64 = encode_bytes bytes /\
        bytes `prefix_of` drop (N.to_nat seq) (printed p)
  | _ => True
  end.

(** Every pty of [d] is one of [d'], and printed no less. *)
Definition grows (d d' : Daemon) : Prop :=
  forall sid p, ptys d !! sid = Some p -> exists p', ptys d' !! sid = Some p' /\ printed p `prefix_of` printed p'.
Lemma grows_same d d' : ptys d' = ptys d -> grows d d'.
Proof. intros He sid p Hp. exists p. by rewrite He. Qed.

Lemma told_keep d d' m : grows d d' -> told d m -> told d' m.
Proof.
  intros Hg. destruct m as [| | | | sid seq b64 |]; try done. intros (p & bytes & Hp & -> & Hb).
  destruct (Hg _ _ Hp) as (p' & Hp' & [more Hm]). exists p', bytes. split; [done |]. split; [done |].
  etrans; [exact Hb |]. rewrite Hm. destruct (decide (N.to_nat seq <= length (printed p))) as [Hle | Hgt].
  - rewrite drop_app_le by done. by apply prefix_app_r.
  - rewrite drop_ge by lia. apply prefix_nil.
Qed.

Definition job_ok (d : Daemon) (k : nat) (j : Job) : Prop :=
  match j with
  | Replaying id i rest =>
      locked d = Some k /\ is_Some (sessions d !! session_id i) /\
      Forall (fun m => tells_of m = Some (session_id i) /\ told d m) rest
  | Killing _ sid _ => sessions d !! sid = None /\ is_Some (ptys d !! sid)
  | Sending m _ => response m
  | _ => True
  end.
Record conn_ok (d : Daemon) (k : nat) (c : Conn) : Prop := {
  c_known : k <= client_seq d;
  c_job : job_ok d k (job c);
  c_exits : forall sid code, Exit sid code ∈ seen c -> sessions d !! sid = None /\ is_Some (ptys d !! sid);
  c_last : exits_last (seen c);
  c_told : Forall (told d) (seen c);
  c_fits : fits c;
}.
Record session_ok (d : Daemon) (sid : Str) (s : Session) : Prop := {
  s_id : session_id (info s) = sid;
  s_alive : alive (info s) = true;
  s_ring : exists p, ptys d !! sid = Some p /\ window REPLAY_CAPACITY (printed p) (ring s);
}.
Definition conns_ok (d : Daemon) : Prop := forall k c, conns d !! k = Some c -> conn_ok d k c.
Record sound (d : Daemon) : Prop := {
  d_conns : conns_ok d;
  d_sessions : forall sid s, sessions d !! sid = Some s -> session_ok d sid s;
}.

Lemma exits_last_snoc l m : exits_last l ->
  (forall sid code, tells_of m = Some sid -> Exit sid code ∉ l) -> exits_last (l ++ [m]).
Proof.
  intros Hl Hm pre sid code post He.
  destruct post as [| x post _] using rev_ind; [done |].
  rewrite app_comm_cons, app_assoc in He. apply app_inj_tail in He as [-> <-].
  apply Forall_app. split; [by eapply Hl |]. apply Forall_singleton. intros Ht.
  apply (Hm sid code Ht). set_solver.
Qed.

Lemma conn_ok_keep d d' k c : conn_ok d k c -> client_seq d <= client_seq d' -> grows d d' ->
  (forall sid, is_Some (ptys d !! sid) -> sessions d !! sid = None -> sessions d' !! sid = None) ->
  (forall id i rest, job c = Replaying id i rest -> is_Some (sessions d !! session_id i) ->
     locked d' = locked d /\ is_Some (sessions d' !! session_id i)) ->
  conn_ok d' k c.
Proof.
  intros [Hk Hj He Hl Ht Hf] Hseq Hg Hs Hr.
  assert (forall sid, is_Some (ptys d !! sid) -> is_Some (ptys d' !! sid)) as Hp.
  { intros sid [p Hp]. destruct (Hg _ _ Hp) as (p' & -> & _). by eexists. }
  split; [lia | | | done | | done].
  - destruct (job c) as [| id i rest | | id sid s | | |]; try done.
    + destruct Hj as (Hlock & Hi & Hrest). destruct (Hr _ _ _ eq_refl Hi) as [Hl' ?]. cbn. rewrite Hl'.
      split_and!; [done | done |]. eapply Forall_impl; [exact Hrest |]. intros m [? ?]. split; [done |]. by eapply told_keep.
    + destruct Hj as [Hs' Hy]. cbn. auto.
  - intros sid code [Hs' Hy]%He. auto.
  - eapply Forall_impl; [exact Ht |]. intros m. by apply told_keep.
Qed.

Lemma session_ok_keep d d' sid s : session_ok d sid s -> ptys d' = ptys d -> session_ok d' sid s.
Proof. intros [Hi Ha Hr] Hp. split; [done | done | by rewrite Hp]. Qed.

Lemma conn_ok_job d k c j : conn_ok d k c -> job_ok d k j -> conn_ok d k (set_job j c).
Proof. intros [] Hj. by split. Qed.

Lemma exits_last_replicate n l m : exits_last l ->
  (forall sid code, tells_of m = Some sid -> Exit sid code ∉ l) -> exits_last (l ++ replicate n m).
Proof.
  intros Hl Hm. induction n as [| n IH]; [by rewrite app_nil_r |].
  rewrite replicate_S_end, app_assoc. apply exits_last_snoc; [done |].
  intros sid code Ht [H | [<- _]%elem_of_replicate]%elem_of_app; [by eapply Hm | done].
Qed.

(** What may be said in a state: nothing of a session that is gone, and its exit only then. *)
Definition may_say (d : Daemon) (m : ServerMessage) : Prop :=
  (forall sid, tells_of m = Some sid -> is_Some (sessions d !! sid)) /\
  (forall sid code, m = Exit sid code -> sessions d !! sid = None /\ is_Some (ptys d !! sid)) /\
  told d m.

Lemma conn_ok_grown d k c n m : conn_ok d k c -> may_say d m -> fits (grown n m c) -> conn_ok d k (grown n m c).
Proof.
  intros [Hk Hj He Hl Hd Hf] (Ht & Hx & Hm) Hf'. split; [done | done | | | | done].
  - intros sid code. rewrite seen_grown. intros [H | [<- _]%elem_of_replicate]%elem_of_app; [by eapply He | by eapply Hx].
  - rewrite seen_grown. apply exits_last_replicate; [done |].
    intros sid code [x Hs]%Ht [Hn _]%He. congruence.
  - rewrite seen_grown. apply Forall_app. split; [done |]. apply Forall_forall. by intros x [-> _]%elem_of_replicate.
Qed.

Lemma conns_broadcast d m l : conns_ok d -> may_say d m -> conns_ok (set_conns (broadcast m l (conns d)).1 d).
Proof.
  intros Hc Hm k c' Hk. cbn [conns set_conns] in Hk.
  pose proof (broadcast_spec m l (conns d)) as Hb. destruct (broadcast m l (conns d)) as [cs kept]. cbn [fst] in Hk |- *.
  destruct Hb as (Hdom & _ & Hb). assert (k ∈ dom (conns d)) as [c Hk0]%elem_of_dom by (rewrite <- Hdom; by eapply elem_of_dom_2).
  destruct (Hb _ _ Hk0) as (Hk' & Hf & _). rewrite Hk in Hk'. injection Hk' as ->.
  specialize (Hc _ _ Hk0). eapply conn_ok_keep; [by apply conn_ok_grown; [| | apply Hf, Hc] | done | by apply grows_same | done | done].
Qed.

Lemma sound_broadcast d m l : sound d -> may_say d m -> sound (set_conns (broadcast m l (conns d)).1 d).
Proof.
  intros [Hc Hs] Hm. split; [by apply conns_broadcast |].
  intros sid s Hk. by eapply session_ok_keep; [apply Hs |].
Qed.

Lemma try_send_broadcast m k cs : (try_send m k cs).1 = (broadcast m [mkSubscriber [] k] cs).1.
Proof. cbn [broadcast tx]. by destruct (try_send m k cs). Qed.
Lemma sound_try_send d m k : sound d -> may_say d m -> sound (set_conns (try_send m k (conns d)).1 d).
Proof. rewrite try_send_broadcast. apply sound_broadcast. Qed.

Lemma sound_alter_conn d k f : sound d -> (forall c, conn_ok d k c -> conn_ok d k (f c)) ->
  sound (set_conns (alter f k (conns d)) d).
Proof.
  intros [Hc Hs] Hf. split; [| intros sid s Hk; by eapply session_ok_keep; [apply Hs |]]. unfold conns_ok. cbn [conns set_conns]. intros k' c' Hk.
  destruct (decide (k = k')) as [<- | Hne].
  - rewrite lookup_alter_eq in Hk. destruct (conns d !! k) as [c |] eqn:Hk0; [| done]. injection Hk as <-.
    eapply conn_ok_keep; [by apply Hf, Hc | done | by apply grows_same | done | done].
  - rewrite lookup_alter_ne in Hk by done. eapply conn_ok_keep; [by apply Hc | done | by apply grows_same | done | done].
Qed.

Lemma sound_job d k j : sound d -> job_ok d k j -> sound (put_job k j d).
Proof. intros Hd Hj. apply sound_alter_conn; [done |]. intros c Hc. by apply conn_ok_job. Qed.

Lemma sound_delete d sid : sound d -> locked d = None -> is_Some (ptys d !! sid) -> sound (set_sessions (delete sid (sessions d)) d).
Proof.
  intros [Hc Hs] Hl Hp. split; unfold conns_ok; cbn [conns sessions set_sessions].
  - intros k c Hk. eapply conn_ok_keep; [by apply Hc | done | by apply grows_same | |].
    + intros sid' Hp' Hn. cbn. by apply lookup_delete_None; right.
    + intros id i rest Hj _. pose proof (c_job _ _ _ (Hc _ _ Hk)) as Hl'. rewrite Hj in Hl'. cbn in Hl'. intuition congruence.
  - intros sid' s [_ Hk]%lookup_delete_Some. by eapply session_ok_keep; [apply Hs |].
Qed.

(** An entry of the table changes. *)
Lemma sound_entry d sid s : sound d -> is_Some (sessions d !! sid) -> session_ok d sid s ->
  sound (set_sessions (<[sid := s]> (sessions d)) d).
Proof.
  intros [Hc Hs] Hsid Hok. split; unfold conns_ok; cbn [conns sessions set_sessions].
  - intros k c Hk. eapply conn_ok_keep; [by apply Hc | done | by apply grows_same | |].
    + intros sid' Hp' Hn. cbn. rewrite lookup_insert_ne; [done |]. intros ->.
      destruct Hsid. congruence.
    + intros id i rest Hj Hi. split; [done |]. cbn. destruct (decide (sid = session_id i)) as [-> | Hne].
      * by rewrite lookup_insert_eq.
      * by rewrite lookup_insert_ne.
  - intros sid' s' Hk. destruct (decide (sid = sid')) as [<- | Hne].
    + rewrite lookup_insert_eq in Hk. injection Hk as <-. by eapply session_ok_keep.
    + rewrite lookup_insert_ne in Hk by done. by eapply session_ok_keep; [apply Hs |].
Qed.

Lemma sound_lock d l : sound d ->
  (forall k c id i rest, conns d !! k = Some c -> job c <> Replaying id i rest) -> sound (set_locked l d).
Proof.
  intros [Hc Hs] Hn. split; unfold conns_ok; cbn [conns sessions set_locked].
  - intros k c Hk. eapply conn_ok_keep; [by apply Hc | done | by apply grows_same | done |].
    intros id i rest Hj. by destruct (Hn _ _ _ _ _ Hk Hj).
  - intros sid s Hk. by eapply session_ok_keep; [apply Hs |].
Qed.

Lemma grows_alter_pty d sid f : (forall p, printed p `prefix_of` printed (f p)) -> grows d (alter_pty f sid d).
Proof.
  intros Hf sid' p Hp. cbn. destruct (decide (sid = sid')) as [<- | Hne].
  - rewrite lookup_alter_eq, Hp. by eexists.
  - rewrite lookup_alter_ne by done. by eexists.
Qed.

Lemma conns_pty d sid f : conns_ok d -> (forall p, printed p `prefix_of` printed (f p)) -> conns_ok (alter_pty f sid d).
Proof.
  intros Hc Hf k c Hk. eapply conn_ok_keep; [by apply Hc | done | by apply grows_alter_pty | done |].
  by intros id i rest Hj Hi.
Qed.

(** A pty changes, its output aside. *)
Lemma sound_pty d sid f : sound d ->
  (forall p, printed p `prefix_of` printed (f p)) ->
  sessions d !! sid = None \/ (forall p, printed (f p) = printed p) -> sound (alter_pty f sid d).
Proof.
  intros [Hc Hs] Hg Hf. split; [by apply conns_pty |]. cbn [sessions alter_pty].
  intros sid' s Hk. destruct (Hs _ _ Hk) as [Hi Ha (p & Hp' & Hw)]. split; [done | done |]. cbn [ptys alter_pty].
  destruct (decide (sid = sid')) as [<- | Hne].
  - destruct Hf as [? | Hf]; [congruence |]. exists (f p). by rewrite lookup_alter_eq, Hp', Hf.
  - exists p. by rewrite lookup_alter_ne.
Qed.

Lemma sound_deliver d sid bytes : sound d -> sound (deliver_output sid bytes (alter_pty (print bytes) sid d)).
Proof.
  intros Hd. pose proof Hd as [Hc Hs].
  assert (forall p, printed p `prefix_of` printed (print bytes p)) as Hgrow by (intros p; by apply prefix_app_r).
  unfold deliver_output. cbn [sessions alter_pty conns]. destruct (sessions d !! sid) as [s |] eqn:Hsid.
  2: { apply sound_pty; [done | done | by left]. }
  destruct (Hs _ _ Hsid) as [Hi Ha (p & Hp & Hw)]. destruct (window_push _ _ bytes _ Hw) as [Hw' Hseq].
  destruct (push bytes (ring s)) as [r seq] eqn:Hpush. cbn [fst snd] in Hw', Hseq.
  set (d1 := alter_pty (print bytes) sid d).
  assert (ptys d1 !! sid = Some (print bytes p)) as Hp1 by (cbn; by rewrite lookup_alter_eq, Hp).
  assert (may_say d1 (output sid seq bytes)) as Hm.
  { split_and!; [intros sid' [= <-]; by eexists | done |]. exists (print bytes p), bytes. split_and!; [done | done |].
    cbn [printed print]. rewrite Hseq, Nat2N.id, drop_app_length. done. }
  pose proof (conns_broadcast d1 _ (subscribers s) (conns_pty d sid _ Hc Hgrow) Hm) as Hb. cbn [conns d1 alter_pty] in Hb.
  destruct (broadcast _ _ (conns d)) as [cs subs]. cbn [fst] in Hb. split; unfold conns_ok; cbn [conns sessions set_sessions set_conns].
  - intros k c Hk. eapply conn_ok_keep; [by apply Hb | done | by apply grows_same | |]; cbn.
    + intros sid' _ Hn. rewrite lookup_insert_ne; [done | congruence].
    + intros id i rest _ Hi'. split; [done |]. destruct (decide (sid = session_id i)) as [-> | Hne].
      * by rewrite lookup_insert_eq.
      * by rewrite lookup_insert_ne.
  - intros sid' s'. destruct (decide (sid = sid')) as [<- | Hne].
    + rewrite lookup_insert_eq. intros [= <-]. split; [done | done |]. exists (print bytes p). done.
    + rewrite lookup_insert_ne by done. intros Hk. destruct (Hs _ _ Hk) as [Hi' Ha' (p' & Hp' & Hw2)].
      split; [done | done |]. exists p'. cbn. by rewrite lookup_alter_ne.
Qed.

Lemma sound_finish d sid code : sound d -> locked d = None -> is_Some (ptys d !! sid) -> sound (finish_session sid code d).
Proof.
  intros Hd Hl Hp. unfold finish_session. destruct (sessions d !! sid) as [s |] eqn:Hs; [| done].
  destruct (negb _); [done |].
  pose proof (sound_broadcast (set_sessions (delete sid (sessions d)) d) (Exit sid code) (subscribers s)) as Hb.
  cbn [conns set_sessions] in Hb. destruct (broadcast _ _ (conns d)) as [cs kept]. cbn [fst] in Hb. apply Hb.
  - by apply sound_delete.
  - split_and!; [done | | done]. intros sid' code' [= <- <-]. cbn. by rewrite lookup_delete_eq.
Qed.

Lemma sound_create d os i pid_ p : sound d -> ptys d !! fresh os = None -> session_id i = fresh os -> alive i = true ->
  printed p = [] ->
  sound (mkDaemon (<[fresh os := mkSession i pid_ (ring_new REPLAY_CAPACITY) []]> (sessions d)) (conns d)
           (<[fresh os := p]> (ptys d)) (client_seq d) (locked d)).
Proof.
  intros [Hc Hs] Hf Hi Ha Hp. split; unfold conns_ok; cbn [conns sessions].
  - intros k c Hk. eapply conn_ok_keep; [by apply Hc | done | | |]; cbn.
    + intros sid q Hq. assert (fresh os <> sid) by congruence. cbn. rewrite lookup_insert_ne by done. eauto.
    + intros sid [q Hq] Hn. assert (fresh os <> sid) by congruence. by rewrite lookup_insert_ne.
    + intros id i' rest Hj Hi'. split; [done |]. destruct (decide (fresh os = session_id i')) as [-> | Hne].
      * by rewrite lookup_insert_eq.
      * by rewrite lookup_insert_ne.
  - intros sid s'. destruct (decide (fresh os = sid)) as [<- | Hne].
    + rewrite lookup_insert_eq. intros [= <-]. split; [done | done |]. exists p. cbn. rewrite lookup_insert_eq, Hp.
      split; [done | apply (window_new REPLAY_CAPACITY)].
    + rewrite lookup_insert_ne by done. intros Hk. destruct (Hs _ _ Hk) as [? ? (q & Hq & Hw)]. split; [done | done |].
      exists q. cbn. by rewrite lookup_insert_ne.
Qed.

Lemma sound_remove_client d client : sound d -> sound (remove_client client d).
Proof.
  intros [Hc Hs]. unfold remove_client. split; unfold conns_ok; cbn [conns sessions set_sessions].
  - intros k c Hk. eapply conn_ok_keep; [by apply Hc | done | by apply grows_same | |]; cbn.
    + intros sid Hp Hn. by rewrite lookup_fmap, Hn.
    + intros id i rest Hj [s Hi]. split; [done |]. rewrite lookup_fmap, Hi. by eexists.
  - intros sid s'. rewrite lookup_fmap. destruct (sessions d !! sid) as [s |] eqn:Hk; [| done]. intros [= <-].
    destruct (Hs _ _ Hk). by split.
Qed.

Lemma session_ok_subscribers d sid s l : session_ok d sid s -> session_ok d sid (set_subscribers l s).
Proof. intros []. by split. Qed.

Lemma nobody_replays d : sound d -> locked d = None ->
  forall k c id i rest, conns d !! k = Some c -> job c <> Replaying id i rest.
Proof.
  intros [Hc _] Hl k c id i rest Hk Hj. pose proof (c_job _ _ _ (Hc _ _ Hk)) as Hb. rewrite Hj in Hb. cbn in Hb.
  destruct Hb as [Hb _]. congruence.
Qed.

Lemma sound_session d sid s : sound d -> sessions d !! sid = Some s -> session_ok d sid s /\ is_Some (ptys d !! sid).
Proof. intros [_ Hs] Hk. specialize (Hs _ _ Hk). split; [done |]. destruct (s_ring _ _ _ Hs) as (p & -> & _). by eexists. Qed.

Lemma may_say_response d m : response m -> may_say d m.
Proof. by destruct m. Qed.

(** What a replay sends was printed there. *)
Lemma chained_place seq l s b : chained seq l -> (s, b) ∈ l ->
  exists pre post, concat l.*2 = pre ++ b ++ post /\ s = (seq + N.of_nat (length pre))%N.
Proof.
  revert seq. induction l as [| [s' b'] l IH]; intros seq; [by intros _ ?%elem_of_nil |]. cbn [chained].
  intros [-> Hc] [[= -> ->] | Hin]%elem_of_cons.
  - exists [], (concat l.*2). cbn. split; [done | lia].
  - destruct (IH _ Hc Hin) as (pre & post & He & ->). exists (b' ++ pre), post. cbn [fmap list_fmap snd concat].
    rewrite He, <- app_assoc, length_app. split; [done | lia].
Qed.

Lemma chunk_is_printed cap all from_seq r seq bytes : window cap all r -> (seq, bytes) ∈ chunks_from from_seq r ->
  bytes `prefix_of` drop (N.to_nat seq) all.
Proof.
  intros Hw Hin. destruct (chunks_from_spec _ _ from_seq _ Hw) as [Hc He].
  destruct (chained_place _ _ _ _ Hc Hin) as (pre & post & Hp & ->). rewrite He in Hp.
  replace (N.to_nat (starts_at cap from_seq all + N.of_nat (length pre)))
    with (N.to_nat (starts_at cap from_seq all) + length pre) by lia.
  rewrite <- drop_drop, Hp, drop_app_length. by exists post.
Qed.

(** What a request leads to: a sound daemon in which the job makes sense. *)
Definition led (k : nat) (x : Daemon * Job) : Prop := sound x.1 /\ job_ok x.1 k x.2.
Lemma led_respond d k m : sound d -> response m -> led k (d, respond m).
Proof. done. Qed.

Lemma led_create d k id pane cwd cols_ rows_ shell args_ env_ os : sound d -> ptys d !! fresh os = None ->
  led k (let '(d, answer) := create_session pane cwd cols_ rows_ shell args_ env_ os d in
         (d, respond (match answer with Ok i => ok id (Some i) | Err e => error (Some id) e end))).
Proof.
  intros Hd Hf. unfold create_session. destruct (_ || _); [by apply led_respond |].
  destruct (if bool_decide (cwd = []) then _ else _); [| by apply led_respond].
  destruct (started os); [| by apply led_respond]. split; [| done]. by apply sound_create.
Qed.

Lemma led_attach d k client id sid from_seq : sound d -> locked d = None -> led k (attach k client id sid from_seq d).
Proof.
  intros Hd Hl. unfold attach. destruct (sessions d !! sid) as [s |] eqn:Hs; [| by apply led_respond].
  destruct (sound_session _ _ _ Hd Hs) as [Hok _]. split; cbn [fst snd].
  - apply sound_lock.
    + apply sound_entry; [done | by eexists | by apply session_ok_subscribers].
    + exact (nobody_replays d Hd Hl).
  - cbn [job_ok]. split; [done |]. cbn [set_subscribers info]. rewrite (s_id _ _ _ Hok).
    split; [cbn; rewrite lookup_insert_eq; by eexists |].
    constructor; [by split; [cbn; rewrite (s_id _ _ _ Hok) |] |].
    apply Forall_forall. intros m ([seq bytes] & -> & Hin)%list_elem_of_fmap. split; [done |].
    destruct (s_ring _ _ _ Hok) as (p & Hp & Hw). exists p, bytes. split_and!; [done | done |].
    by eapply chunk_is_printed.
Qed.

Lemma led_detach d k client id sid : sound d -> led k (detach client id sid d).
Proof.
  intros Hd. unfold detach. destruct (sessions d !! sid) as [s |] eqn:Hs; [| by apply led_respond].
  apply led_respond; [| done]. apply sound_entry; [done | by eexists |]. by apply session_ok_subscribers, sound_session.
Qed.

Lemma led_write_input d k id sid b64 os : sound d -> led k (write_input id sid b64 os d).
Proof.
  intros Hd. unfold write_input. destruct (decode_bytes b64); [| by apply led_respond].
  destruct (sessions d !! sid); [| by apply led_respond]. destruct (negb _); [by apply led_respond |].
  destruct (io os); (apply led_respond; [| done]); apply sound_pty; try done; by right.
Qed.

Lemma led_resize d k id sid cols_ rows_ pw ph os : sound d -> led k (resize id sid cols_ rows_ pw ph os d).
Proof.
  intros Hd. unfold resize. destruct (_ || _); [by apply led_respond |].
  destruct (sessions d !! sid); [| by apply led_respond]. destruct (io os); [| by apply led_respond]. split; [| done]. by apply sound_pty; [| | right].
Qed.

Lemma led_kill d k id sid : sound d -> locked d = None -> led k (kill id sid d).
Proof.
  intros Hd Hl. unfold kill. destruct (sessions d !! sid) as [s |] eqn:Hs; [| by apply led_respond].
  destruct (sound_session _ _ _ Hd Hs) as [_ Hp]. split; [by apply sound_delete |].
  cbn. by rewrite lookup_delete_eq.
Qed.

Lemma led_send_signal d k id sid text os : sound d -> led k (send_signal id sid text os d).
Proof.
  intros Hd. unfold send_signal. destruct (sessions d !! sid) as [s |]; [| by apply led_respond].
  destruct (negb _); [by apply led_respond |]. destruct (pid s); [| by apply led_respond].
  destruct (parse_signal text); [| by apply led_respond].
  destruct (io os); (apply led_respond; [| done]); [by apply sound_pty; [| | right] | done].
Qed.

Lemma led_dispatch d k client r os : sound d -> takes_lock r = true -> locked d = None -> draws_new r os d = true ->
  led k (dispatch k client r os d).
Proof.
  intros Hd Ht Hl Hn. destruct r; cbn [dispatch].
  - by apply led_respond.
  - by apply led_respond.
  - apply led_create; [done |]. by apply bool_decide_eq_true in Hn.
  - by apply led_attach.
  - by apply led_detach.
  - by apply led_write_input.
  - by apply led_resize.
  - by apply led_kill.
  - by apply led_send_signal.
Qed.

(** A request that needs no lock changes nothing. *)
Lemma led_lockless d k client r os : sound d -> takes_lock r = false -> led k (dispatch k client r os d).
Proof.
  intros Hd. destruct r; cbn [takes_lock dispatch]; try done.
  - intros Ht. unfold write_input. by destruct (decode_bytes _).
  - intros Ht. unfold resize. by destruct (_ || _).
Qed.

Lemma sound_rename_conn d k r : sound d -> sound (set_conns (alter (rename r) k (conns d)) d).
Proof. intros Hd. apply sound_alter_conn; [done |]. intros c Hc. destruct r; try done. by destruct Hc. Qed.

Lemma sound_request d k r os : sound d -> sound (step_request k r os d).
Proof.
  intros Hd. unfold step_request. destruct (conns d !! k) as [c |] eqn:Hk; [| done].
  destruct (_ || _) eqn:Hg; [done |]. rewrite !orb_false_iff, !negb_false_iff in Hg. destruct Hg as [[_ Hlock] Hnew].
  assert (<[k := rename r c]> (conns d) = alter (rename r) k (conns d)) as ->.
  { apply map_eq. intros k'. destruct (decide (k = k')) as [<- | Hne].
    - by rewrite lookup_insert_eq, lookup_alter_eq, Hk.
    - by rewrite lookup_insert_ne, lookup_alter_ne. }
  set (d1 := set_conns _ d). assert (sound d1) as Hd1 by by apply sound_rename_conn.
  assert (led k (dispatch k (name (rename r c)) r os d1)) as [Hs Hj].
  { destruct (takes_lock r) eqn:Ht.
    - apply led_dispatch; [done | done | | by destruct r]. cbn in Hlock. rewrite negb_false_iff in Hlock.
      by apply bool_decide_eq_true in Hlock.
    - by apply led_lockless. }
  destruct (dispatch _ _ _ _ _) as [d2 j]. by apply sound_job.
Qed.

Lemma next_job_ok d k after sent : job_ok d k (next_job after sent).
Proof. by destruct after, sent. Qed.

Lemma sound_replayed d k c id i : sound d -> conns d !! k = Some c -> job c = Replaying id i [] ->
  sound (put_job k (respond (ok id (Some i))) (set_locked None d)).
Proof.
  intros Hd Hk Hj. change (sound (set_locked None (put_job k (respond (ok id (Some i))) d))).
  pose proof (c_job _ _ _ (d_conns _ Hd _ _ Hk)) as Hl. rewrite Hj in Hl. destruct Hl as [Hl _].
  apply sound_lock; [by apply sound_job |]. intros k' c' id' i' rest'. cbn [conns put_job set_conns].
  destruct (decide (k = k')) as [<- | Hne].
  - rewrite lookup_alter_eq, Hk. intros [= <-]. done.
  - rewrite lookup_alter_ne by done. intros Hk' Hj'.
    pose proof (c_job _ _ _ (d_conns _ Hd _ _ Hk')) as Hl'. rewrite Hj' in Hl'. destruct Hl' as [Hl' _]. congruence.
Qed.

Lemma led_resized d k id sid cols_ rows_ : sound d -> led k (resized id sid cols_ rows_ d).
Proof.
  intros Hd. unfold resized. destruct (sessions d !! sid) as [s |] eqn:Hs; [| by apply led_respond].
  destruct (sound_session _ _ _ Hd Hs) as [[Hi Ha Hr] _].
  set (i := mkSessionInfo _ _ _ _ _). pose proof (sound_broadcast d (session_event i) (subscribers s) Hd) as Hb.
  destruct (broadcast _ _ (conns d)) as [cs subs]. cbn [fst] in Hb. apply led_respond; [| done].
  change (sound (set_sessions (<[sid := set_subscribers subs (set_info i s)]> (sessions (set_conns cs d))) (set_conns cs d))).
  apply sound_entry; [| by eexists | by split]. apply Hb. split_and!; [| done | done].
  intros sid' [= <-]. rewrite Hi. by eexists.
Qed.

Lemma led_killed d k id sid s : sound d -> sessions d !! sid = None -> is_Some (ptys d !! sid) ->
  led k (killed id sid s d).
Proof.
  intros Hd Hs Hp. unfold killed. apply led_respond; [| done].
  assert (sound (alter_pty kill_child sid d)) as Hd1 by by apply sound_pty; [| | right].
  destruct (alive (info s)); [| done]. apply sound_broadcast; [done |]. split_and!; [done | | done].
  intros sid' code [= <- <-]. split; [done |]. cbn. rewrite lookup_alter_eq. by apply fmap_is_Some.
Qed.

Lemma sound_continue d k : sound d -> sound (step_continue k d).
Proof.
  intros Hd. unfold step_continue. destruct (conns d !! k) as [c |] eqn:Hk; [| done].
  pose proof (c_job _ _ _ (d_conns _ Hd _ _ Hk)) as Hj.
  destruct (job c) as [| id i [| m rest] | id sid cols_ rows_ | id sid s | m after | |] eqn:Hjob; cbn in Hj; try done.
  - by eapply sound_replayed.
  - destruct Hj as (Hl & Hs & [[Hm Hold] Hrest]%Forall_cons). apply sound_job; [apply sound_try_send; [done |] | done].
    split_and!; [intros sid; rewrite Hm; by intros [= <-] | intros sid code ->; done | done].
  - destruct (free d); [| done]. pose proof (led_resized d k id sid cols_ rows_ Hd) as [H1 H2].
    destruct (resized _ _ _ _ _). by apply sound_job.
  - pose proof (led_killed d k id sid s Hd (proj1 Hj) (proj2 Hj)) as [H1 H2].
    destruct (killed _ _ _ _). by apply sound_job.
  - destruct (negb _); [apply sound_job; [done | apply next_job_ok] |].
    pose proof (sound_try_send d m k Hd (may_say_response d m Hj)) as Ht.
    destruct (try_send m k (conns d)) as [cs [|]]; [| done]. apply sound_job; [done | apply next_job_ok].
  - destruct (free d); [| done]. apply sound_job; [by apply sound_remove_client | done].
Qed.

Lemma exits_last_prefix l l' : exits_last (l ++ l') -> exits_last l.
Proof.
  intros Hl pre sid code post ->. rewrite <- app_assoc in Hl. cbn in Hl.
  specialize (Hl pre sid code (post ++ l') eq_refl). by apply Forall_app in Hl as [? _].
Qed.

Lemma conn_ok_write d k works c : conn_ok d k c -> conn_ok d k (step_write works c).
Proof.
  intros Hc. unfold step_write. destruct (queue c) as [| m q] eqn:Hq; [done |]. destruct (negb (receiver c)); [done |].
  destruct Hc as [Hk Hj He Hl Ht Hf]. unfold seen, fits in *. rewrite Hq in *. destruct works.
  - split; [done | done | | | |]; unfold seen, fits; cbn; rewrite <- ?app_assoc; try done. cbn in *. lia.
  - split; [done | done | | | |]; unfold seen, fits; cbn; rewrite ?app_nil_r.
    + intros sid code Hin. apply (He sid code), elem_of_app. by left.
    + by eapply exits_last_prefix.
    + by apply Forall_app in Ht as [? _].
    + unfold CLIENT_QUEUE. lia.
Qed.

Lemma sound_accept d : sound d ->
  let n := S (client_seq d) in
  forall nm, sound (mkDaemon (sessions d) (<[n := mkConn nm Idle [] true []]> (conns d)) (ptys d) n (locked d)).
Proof.
  intros [Hc Hs] n nm. split; unfold conns_ok; cbn [conns sessions].
  - intros k c. destruct (decide (n = k)) as [<- | Hne].
    + rewrite lookup_insert_eq. intros [= <-]. split; cbn; [done | done | | | constructor |].
      * by intros sid code ?%elem_of_nil.
      * intros pre sid code post Hp. by destruct pre.
      * unfold fits, CLIENT_QUEUE. cbn. lia.
    + rewrite lookup_insert_ne by done. intros Hk. eapply conn_ok_keep; [by apply Hc | cbn; lia | by apply grows_same | done | done].
  - intros sid s Hk. by eapply session_ok_keep; [apply Hs |].
Qed.

Lemma sound_exec l d : sound d -> sound (exec l d).
Proof.
  intros Hd. destruct l as [| k r os | k reason | k | k | k | k works | sid bytes | sid code]; cbn [exec].
  - by apply sound_accept.
  - by apply sound_request.
  - unfold if_idle. destruct (conns d !! k) as [c |]; [| done]. destruct (is_idle _); [by apply sound_job | done].
  - unfold if_idle. destruct (conns d !! k) as [c |]; [| done]. destruct (is_idle _); [by apply sound_job | done].
  - unfold if_idle. destruct (conns d !! k) as [c |]; [| done]. destruct (is_idle _); [by apply sound_job | done].
  - by apply sound_continue.
  - apply sound_alter_conn; [done |]. intros c. apply conn_ok_write.
  - destruct (_ && _); [by apply sound_deliver | done].
  - destruct (running sid d && free d) eqn:Hg; [| done]. apply andb_true_iff in Hg as [Hr Hf].
    apply bool_decide_eq_true in Hf. apply sound_finish; [by apply sound_pty; [| | right] | done |].
    cbn. rewrite lookup_alter_eq. unfold running in Hr. by destruct (ptys d !! sid); [eexists |].
Qed.

Lemma sound_new : sound daemon_new.
Proof. split; [intros k c Hk | intros sid s Hk]; cbn in Hk; by rewrite lookup_empty in Hk. Qed.

Lemma sound_run ls : sound (run ls daemon_new).
Proof.
  induction ls as [| l ls IH] using rev_ind; [apply sound_new |].
  unfold run in *. rewrite foldl_app. by apply sound_exec.
Qed.

(** C24: the PTY daemon tells the truth, whatever its clients ask, however its threads take
    turns and whichever socket fails.  A session it lists is alive and its ring holds the
    last 512 KiB of exactly what its pty printed, at their offsets.  Of what was queued for or
    sent to any client: each output message names a session that was started and carries
    the bytes its pty printed at that offset; once a session's exit is told, the session is
    gone and neither output nor shape of it follows.  No queue holds more than 4096
    messages.  A session's id is drawn at random, and taken to be new. *)
Theorem pty_daemon_tells_the_truth (ls : list Label) :
  let d := run ls daemon_new in
  (forall sid s, sessions d !! sid = Some s ->
     session_id (info s) = sid /\ alive (info s) = true /\
     exists p, ptys d !! sid = Some p /\
       data (ring s) = drop (length (printed p) - N.to_nat REPLAY_CAPACITY) (printed p) /\
       start_seq (ring s) = N.of_nat (length (printed p) - N.to_nat REPLAY_CAPACITY)) /\
  (forall k c, conns d !! k = Some c ->
     (forall sid seq b64, Output sid seq b64 ∈ delivered c ++ queue c ->
        exists p bytes, ptys d !! sid = Some p /\ b64 = encode_bytes bytes /\
          bytes `prefix_of` drop (N.to_nat seq) (printed p)) /\
     (forall pre sid code post, delivered c ++ queue c = pre ++ Exit sid code :: post ->
        sessions d !! sid = None /\ Forall (fun m => tells_of m <> Some sid) post) /\
     length (queue c) <= 4096).
Proof.
  intros d. pose proof (sound_run ls) as [Hc Hs]. fold d in Hc, Hs. split.
  - intros sid s [Hi Ha (p & Hp & [_ Hd Hst])]%Hs. split_and!; [done | done |]. exists p. done.
  - intros k c [_ _ He Hl Ht Hf]%Hc. unfold seen in *. split_and!.
    + intros sid seq b64 Hin. rewrite Forall_forall in Ht. exact (Ht _ Hin).
    + intros pre sid code post Hp. split; [| by eapply Hl]. apply (He sid code). rewrite Hp. set_solver.
    + unfold fits, CLIENT_QUEUE in Hf. lia.
Qed.
End steps.
End ServerProps.

(** ** Runs *)

Module PtyDemo.
Import Protocol Framing Ring Server.

(** An encoding that leaves bytes alone; no signal has a name. *)
#[export] Instance demo_base64 : Base64 := {| base64_encode l := l; base64_decode := Ok |}.
#[export] Instance demo_signals : Signals := {| signal_of_number _ := None; signal_of_name _ := None |}.

Definition os (id : string) : Os := mkOs (lit id) (Ok (Some 7%N)) None (Ok (lit "/")) (Ok tt) 0.
Definition opened : list Label :=
  [LAccept; LRequest 1 (Hello 1 (lit "window")) (os "s"); LContinue 1;
   LRequest 1 (Create 2 (lit "p") (lit "/") 80 24 None [] []) (os "s"); LContinue 1;
   LRequest 1 (Attach 3 (lit "s") 0) (os "s"); LContinue 1; LContinue 1; LContinue 1].
Definition heard (k : nat) (d : Daemon) : list ServerMessage :=
  from_option (fun c => delivered c ++ queue c) [] (conns d !! k).

(** A client that creates a session and attaches hears its output and its exit. *)
Example a_session :
  heard 1 (run (opened ++ [LOutput (lit "s") (lit "hi"); LWrite 1 true; LExit (lit "s") 3]) daemon_new) =
  [Ok_ 1 None; Ok_ 2 (Some (mkSessionInfo (lit "s") (lit "p") true 80 24));
   Protocol.Session (lit "s") (lit "p") true 80 24; Ok_ 3 (Some (mkSessionInfo (lit "s") (lit "p") true 80 24));
   Output (lit "s") 0 (lit "hi"); Exit (lit "s") 3].
Proof. by vm_compute. Qed.

(** A session that has exited is not listed any more. *)
Example exited_sessions_are_not_listed :
  let d := run (opened ++ [LExit (lit "s") 3; LRequest 1 (List_ 4) (os "s"); LContinue 1; LContinue 1]) daemon_new in
  last (heard 1 d) = Some (Sessions 4 []).
Proof. by vm_compute. Qed.

(** A client that says hello again under another name and leaves stays subscribed under the
    first: detaching goes by the name it has last. *)
Example a_renamed_client_stays_subscribed :
  let d := run (opened ++ [LContinue 1; LRequest 1 (Hello 4 (lit "other")) (os "s"); LContinue 1;
                           LClose 1; LContinue 1]) daemon_new in
  (job <$> conns d !! 1) = Some Ended /\
  (subscribers <$> sessions d !! lit "s") = Some [mkSubscriber (lit "window") 1].
Proof. by vm_compute. Qed.

(** A client whose queue is full loses its subscription, and is told nothing. *)
Example a_full_queue_ends_the_subscription :
  let full := mkConn (lit "window") Idle (replicate 4096 (ok 0 None)) true [] in
  let '(cs, kept) := broadcast (Exit (lit "s") 0) [mkSubscriber (lit "window") 1] {[ 1 := full ]} in
  kept = [] /\ cs = {[ 1 := full ]}.
Proof. vm_compute. by split. Qed.
End PtyDemo.
